(* ===== verification/_CoqProject ===== *)
-Q . S2P
Prelude.v
NetAddr.v
PreAuth.v
KeyHolds.v
Registry.v
Recovery.v
Budget.v
RpcTrace.v
Conn.v
ConnPush.v
Wire.v
Discovery.v
ServeLoop.v
Dispatch.v
FolderSync.v
UpdateBatch.v
Delivery.v
DeliveryRounds.v
Scheduler.v
GoStrings.v
Intake.v
Difference.v
RateLimit.v
Sha256.v
Srp.v
Challenges.v
Threads.v
Limits.v
PeerHash.v
Utf8.v
AccountStore.v
Account.v
Registration.v
Registrar.v
AccountSafety.v
AccountRuns.v
RegistrationRuns.v
SecretStore.v
SecretChats.v
SecretSafety.v
SecretRuns.v
Mailbox.v
MsgStore.v
MsgLogic.v
MsgSafety.v
MsgRuns.v
MsgExact.v
MsgMembers.v
MsgLocks.v
MsgHistory.v
MsgDemo.v
LockedTx.v
ChannelStore.v
ChannelTx.v
ChannelSafety.v
ChannelWrites.v
ChannelNames.v
ChannelRuns.v
ChannelLocks.v
ChannelGuarantees.v
ChannelExact.v
BlobKeys.v
Sums.v
Uploads.v
UploadSafety.v
UploadRuns.v
UploadSweep.v
Folders.v
FolderApi.v
FolderFacts.v
FolderTx.v
FolderChecks.v
FolderRuns.v
FolderExact.v
Polls.v
PollFacts.v
PollSafety.v
PollRuns.v
PollExact.v
