(* ===== verification/Prelude.v ===== *)
(** * telegram-server: a verification development

    The program is a self-hosted Telegram server in Go.  Clients speak MTProto to it over
    TCP; it authenticates them, answers their RPCs from a PostgreSQL store, and pushes to
    every connected client the events of its account.  Its parts, and the files here that
    model them:

    - A connection arrives, is counted against the bounds on unauthenticated connections,
      has its real address recovered from a PROXY header, and its framing sniffed.
      [NetAddr] (net/netip and [IPBucketKey]), [PreAuth] (mtproto/preauth.go), [KeyHolds]
      (unboundkey.go, pendinglogin.go), [Wire] (proxyproto.go, accept.go, obfuscated.go,
      the probe of preflight.go), [Discovery] (the limiter of preflight.go).
    - The connection is then served frame by frame: a key is bound, the session registered,
      wrappers peeled, the handler called.  [Registry] (sessions.go), [Recovery]
      and [Conn] with [ConnPush] (send.go, one connection's state under its mutex), [Budget] (unimplemented.go and the log sampler), [RpcTrace]
      (rpc_trace.go), [ServeLoop] (server.go, handle.go), [Dispatch] (dispatch.go and the
      message part of handle.go).
    - Events reach connected clients along one path: a handler commits an event and sends a
      NOTIFY; the listener decodes it and schedules a callback by routing key; the callback
      builds a batch from the event log and writes it to each of the user's sockets.
      [Intake] (store/notify.go and the emitters of api/messages.go, account.go,
      encryption.go), [Scheduler] (store/notify_scheduler.go), [UpdateBatch] (api/updates.go
      over store/updatestate.go), [Delivery] and [DeliveryRounds] (api/notify.go),
      [FolderSync] (api/dialog_filter_sync.go and the sweeper of api/notify.go, the
      invalidations that have no event).
    - Clients that were away catch up by asking.  [Difference]
      (updates.getDifference of api/updates.go, updates.getChannelDifference of
      api/channels.go).
    - Accounts: a key signs in by a code, or by a code and a cloud password proved with
      SRP-6a, under per-account and per-network limits.  [RateLimit] (store/rate_limits.go),
      [Sha256] and [Srp] (internal/srp/srp.go), [Challenges] (srp/challenge.go),
      [AccountStore] (the tables of store/authkeys.go, passwords.go, codes.go,
      sign_in_fail.go, send_code_ip.go), [Account] (api/auth.go, api/passwords.go, the limits
      of api/handler.go), [AccountSafety], [AccountRuns] (what is proved of them).
    - Registration: an operator issues invitations for handles; auth.signUp admits a handle
      with its code, and where the server asks for one its invitation, in one transaction that
      makes the account, names it, elects the first one administrator and binds the key.
      [Registration] (store/registration_invites.go, admission.go, server_administration.go,
      auth.signUp of api/auth.go), [Registrar] (the abstract registrar), [RegistrationRuns].
    - Peers are named by an id and an access hash, a truncated MAC under a key derived from
      the server's secret.  [PeerHash] (internal/peerhash, the gates of api/peers.go).
    - Secret chats: the server carries a key exchange and opaque ciphertext between two
      parties and keeps each recipient's queue of undelivered events.  [SecretStore]
      (store/secretchats.go, encrypted.go and their SQL), [SecretChats] (api/encryption.go,
      encrypted.go and their pushes), [SecretSafety], [SecretRuns].
    - Messages: every account owns a mailbox, with its counters, its copies of messages, its
      event log and its dialogs; sending, editing, deleting, forwarding and reading change
      several mailboxes in one transaction; a basic chat is a member set and one copy of each
      message per member.  [Mailbox] (one account's rows), [MsgStore] (store/messages.go,
      fanout.go, dialogs.go, chats.go: the transactions), [MsgLogic] and [MsgSafety] (the
      invariant across mailboxes), [MsgRuns] (the requests, interleaved), [MsgExact],
      [MsgMembers], [MsgLocks], [MsgHistory], [MsgDemo].
    - Channels: one log of posts per channel, members with roles and bans, invites, public
      usernames shared with accounts, caps.  [LockedTx] (transactions as trees of reads,
      locks and one final write, run statement by statement), [ChannelStore] (the tables and
      statements), [ChannelTx] (the transactions of store/channels.go, the posts of
      channelmsgs.go, channel_read_history.go, the renaming of users.go), [ChannelSafety],
      [ChannelWrites], [ChannelNames] (the invariant, write by write),
      [ChannelRuns] (every transaction keeps it), [ChannelLocks], [ChannelGuarantees],
      [ChannelExact].
    - Uploads: a file arrives in parts, each a row in the database and an object in the blob
      store, which no transaction spans.  [BlobKeys] (the keyspaces of blob/blob.go), [Sums]
      (SQL sums over a table), [Uploads] (store/uploads.go and api/uploads.go), [UploadSafety],
      [UploadRuns], [UploadSweep].
    - Folders: an owner's chat folders with their order, their defaults and the peers they
      name.  [Utf8] (unicode/utf8), [Folders] (store/dialog_filters.go), [FolderApi]
      (api/dialog_filters.go), [FolderFacts], [FolderTx], [FolderChecks], [FolderRuns],
      [FolderExact].
    - Polls: one canonical poll behind the copies of a message, with its ballots.  [Polls]
      (store/polls.go and the trigger of its migration, beside the requests of [MsgRuns]),
      [PollFacts], [PollSafety], [PollRuns], [PollExact].
    [GoStrings], [Threads] and [Limits] are shared: the parts of [strings] and [strconv] in
    use, requests as programs of atomic steps with the proof rules for their interleavings,
    the request and the errors of api/errors.go, and charging a rate limit.

    ** How the code is modelled

    A Go struct is a record, its methods are functions from the state before to the state
    after, errors are values.  Numbers are integers with the wrap-around of their width
    written out where the source can reach it; a [time.Time] counts nanoseconds, and the
    clock readings, random draws, transport outcomes and store failures an operation meets
    are its arguments.  What holds a mutex for its whole body, or is one SQL statement or
    transaction, is one step; what does not is split at its atomic accesses, and theorems
    about it quantify over interleavings: step relations with invariants by induction in
    [PreAuth], [KeyHolds], [Scheduler], [RpcTrace]; programs run against a
    schedule of interference in [Delivery] (with an interface class [PushConn] that [Conn]
    implements); pools of running calls in [FolderSync], in [Threads] and the files on it.
    A frame of [ServeLoop] is one step of its connection: what other goroutines do to the
    connection and to the shared state is between frames and, through the handler, inside
    one, but not between the accesses of one [bind].

    The transactions of [MsgStore] span many statements and run as one step.  The model
    carries what makes that sound: a transaction's state holds the owners whose advisory
    locks and the chats whose row locks it has taken, all kept to the commit, and [stray]
    collects every mailbox written without its lock.  [MsgSafety] proves it stays empty, so
    two transactions that write the same mailbox are serialised by a common lock; the reads a
    request makes before it locks are steps of their own in [MsgRuns].  An error rolls the
    tables back and keeps what was drawn from the sequences, as PostgreSQL does.

    The transactions of [ChannelTx] are finer: each plain read sees what is committed when it
    runs (read committed), a lock is a step that waits until no other transaction holds it,
    locks are kept to the end, and the writes, which come last in every one of them, are one
    step with the commit.  Deleting and inserting a handle are locks too, on the primary key
    they wait for.  [safe_tx] is the proof rule: what a transaction knows between two steps
    must survive the writes of the others, which the locks it holds restrict, and what it
    writes must be what the request it serves entitles it to; [served] ties each transaction
    of a run to its request.  [ordered] is the rule for the absence of deadlock.

    An upload's row and object are written by different systems, so the steps of [Uploads]
    are single statements and single calls of the blob store, any of which may fail.  The
    second rule of [Threads] adds what a request still owes: an object no row names and a
    row without its object must be the debt of a request that is running.  The ghost table
    [meant] remembers what was saved under which key, and the sixteen bytes drawn for a key
    are assumed not to have been drawn before.  The mutations of [Folders] lock the owner's
    state row first and are one step each; the tables carry their constraints (text columns
    refuse invalid UTF-8 and NUL), [book] reads the folders they stand for, and
    [view_step] is the abstract shelf they refine.  The Unicode case tables outside ASCII
    are parameters.  In [Polls] the requests on messages run beside those on polls, each of
    their steps followed by the trigger.  A list stands for a table
    ordered by its key, a finite map for one looked up by key.  Code outside the repository
    (gotd's TL codecs and cipher, PostgreSQL, the object store) is a parameter or an outcome
    chosen by the environment.

    ** What is proved

    - Bounds over populations: [preauth_population_bound], [unbound_key_bound],
      [scheduler_bounds], [rate_limit_span_bound], [sequential_guesses_capped].
    - The serve loop: [serve_loop_invariant] and [serve_exit_clean] (who owns and who has
      registered a connection, whatever ends it), [clientAddrUntil_exact] (addresses fail
      closed), [invokeAfterMsg_gates] and [handle_in_order] (dispatch).
    - One connection: [conn_reachable_wf], [MarkRPCUpdate_refines_queue],
      [RPCDependencyOutcome_refines], [ordered_pushes_disjoint], [rebind_isolates].
    - Delivery end to end: [intake_roundtrip], [routing_keys_separate], [dispatch_typed],
      [scheduler_fifo], [scheduler_drains], [buildUpdates_window], [deliverConn_exact],
      [delivery_respects_barriers], [deliverConn_returns], [deliver_catches_up],
      [invalidation_survives_fetches].
    - Catching up: [getDifference_exact], [getDifference_catches_up],
      [channel_difference_catches_up].
    - Accounts: [srp_honest_accepted], [ValidVerifier_bars_forgery],
      [key_bound_on_evidence], [challenges_and_codes_single_use],
      [passwords_valid_and_proved], [update_needs_proof], [guess_costs_a_token],
      [honest_login].
    - Registration, beside every other account request: [registration_refines] (accounts,
      names, invitations and administrator move by the registrar's steps),
      [one_account_per_invitation], [invitation_lifecycle], [administrator_elected_once];
      [admission_exact] for one admission, [issued_invite_verifies] for an invitation.
    - Secret chats, for every interleaving of requests: [encrypted_log_exact] (a recipient's
      queue is exactly what was sent and not acknowledged, numbered without gaps),
      [secret_chat_lifecycle] (the states only move forward, one acceptance wins);
      [send_encrypted_exact], [send_reveals_chats] for one request.
    - Messages, for every interleaving: [mailboxes_refine] (each mailbox moves only by the
      steps of an abstract mailbox, [box_step]), [mailbox_log_exact] (the event log accounts
      for the counter), [pairs_mirrored] and [chat_copies_agree] (the copies of a message
      stay consistent across mailboxes), [chat_content_members_only]; [send_message_exact]
      and [chat_text_exact] say exactly what sending does, [owner_locks_disciplined] that locks
      are taken in one ascending order, [history_pages] that paging misses and repeats
      nothing.
    - Channels, for every interleaving of their statements: [channel_caps_hold],
      [channel_log_exact], [rights_need_authority], [admission_needs_evidence],
      [handles_in_step], [read_marks_advance]; [deadlocks_are_rename_rings] when account ids
      and channel ids are apart; [member_changes_exact] and [posting_exact] for one
      transaction.
    - Uploads, for every interleaving: [rows_and_objects_settle] (rows and objects agree when
      nothing runs), [part_bytes_exact], [upload_caps_hold]; [save_part_exact] for one save
      and [sweep_drains] for the sweep.
    - Folders: [utf8_exact] (validity and decoding of text against the encoding's definition),
      [normalize_order_exact], [title_entities_exact]; for every interleaving [folders_refine] and
      [folders_in_order]; [get_filters_exact] and [folder_round_trip] for one request.
    - Polls, for every interleaving of requests on polls and messages: [polls_tally],
      [polls_stay_true]; at any moment of one, [vote_exact], [poll_round_trip] and
      [quiz_keeps_its_secret].
    Some theorems show where the code departs from its own comments or intent:
    [concurrent_guesses_pass_the_cap] and [guess_charged_to_another] in [AccountRuns],
    [deleted_copy_edited] in [MsgDemo], [banned_member_posts], [private_channel_joined],
    [advisory_keys_collide] and [renames_swap_deadlock] in [ChannelExact], and those that files [Delivery], [Difference],
    [ServeLoop] and [SecretRuns] mark as such.

    ** Bounds and fuel

    Loops are structural or take fuel that is proved enough: [deliverConn] runs on
    [delivery_fuel] = 629 iterations, one per barrier (64 + 64) and per event of a batch
    (500) and one more ([deliverConn_returns]); [deliverAtSuppressed] runs on 11
    iterations, enough for two rounds of a build and four retries each and the test that ends
    the loop ([deliver_build_bound]); [sort.Search] has one step per element; wrapper peeling and
    containers take the size of the buffer, which every decoder shortens; [FormatInt] has 20
    digits, enough for 64 bits; a catching-up client asks once per page left; drawing a free
    challenge id tries 100 times and a poll id 5 times, as the source does; the sweep of expired
    parts runs one pass more than there are expired rows ([sweep_drains]).  Handlers of [Threads] are finite trees,
    so they end by construction.

    ** What is not modelled

    The rendering of messages, users and chats in answers, the api handlers around the
    modelled message transactions (api/messages.go, api/chats.go: decoding of requests,
    media, link previews), the maintenance promotion of the operator account, of the message
    store search, reactions, scheduled and pinned messages, drafts, the read-only queries of
    the channel store and the handlers of channels, of basic chats the administrators and
    the group read marks, the assembly, download and erasure of files, the back ends of the
    object store, the admin console, the catalogue and link services, configuration parsing,
    the WebSocket transport, the accept loop and process wiring, the outcome metrics,
    the sealing of secrets at rest, and the waits of a channel's writes for single rows of
    participants and what hangs on them (ChannelTx.v says why they close no ring).  Generated code (store/db, templates) is modelled only as
    the statements the modelled operations run. *)

From stdpp Require Export base gmap list strings sorting.
From Stdlib Require Export ZArith Lia ZifyBool.
Open Scope Z_scope.

Create HintDb tg discriminated.

(** Arithmetic is left to [lia]: [simpl] must not unfold it. *)
#[global] Arguments Z.pow : simpl never.
#[global] Arguments Z.mul : simpl never.
#[global] Arguments Z.add : simpl never.
#[global] Arguments Z.sub : simpl never.
#[global] Arguments Z.opp : simpl never.
#[global] Arguments Z.div : simpl never.
#[global] Arguments Z.modulo : simpl never.
#[global] Arguments Z.shiftl : simpl never.
#[global] Arguments Z.shiftr : simpl never.
#[global] Arguments Z.land : simpl never.
#[global] Arguments Z.ones : simpl never.
#[global] Arguments Z.ltb : simpl never.
#[global] Arguments Z.leb : simpl never.
#[global] Arguments Z.eqb : simpl never.
#[global] Arguments Z.max : simpl never.
#[global] Arguments Z.min : simpl never.
#[global] Arguments bool_decide : simpl never.

(** ** Tactics shared by the components *)

(** Case on every [match] and [if] of the goal or of [H], keeping equations. *)
Ltac split_matches := repeat (case_match; simplify_eq/=).

(** ** Machine integers

    Go's [int], [int64] and [uint64] are integers with their wrap-around written
    out where the source can reach it. *)

Definition wrap_u64 (z : Z) : Z := z mod 2 ^ 64.
Definition wrap_s64 (z : Z) : Z := (z + 2 ^ 63) mod 2 ^ 64 - 2 ^ 63.
Definition wrap_s32 (z : Z) : Z := (z + 2 ^ 31) mod 2 ^ 32 - 2 ^ 31.

Lemma wrap_u64_small (z : Z) : 0 <= z < 2 ^ 64 -> wrap_u64 z = z.
Proof. intros H. apply Z.mod_small, H. Qed.

(** ** Time

    A [time.Time] is a number of nanoseconds counted from Go's zero time, so
    [IsZero] is equality with 0; a [time.Duration] is a number of nanoseconds.
    [Time.Sub] saturates at the ends of the [int64] range, as Go's does. *)

Definition second : Z := 1000000000.
Definition millisecond : Z := 1000000.
Definition minute : Z := 60 * second.

Definition time_zero : Z := 0.
Definition time_is_zero (t : Z) : bool := t =? 0.
Definition time_sub (t u : Z) : Z := Z.max (- 2 ^ 63) (Z.min (2 ^ 63 - 1) (t - u)).

(** ** Results: a Go function's [(value, error)] *)

Inductive result (E A : Type) : Type :=
| Ok (a : A)
| Err (e : E).
Arguments Ok {E A} a.
Arguments Err {E A} e.

(** Notations for programs in the style of the source. *)
Declare Scope go_scope.
Delimit Scope go_scope with go.
(** ** Slices: Go's [len] *)

Definition len {A : Type} (l : list A) : Z := Z.of_nat (length l).

Lemma len_app {A} (l1 l2 : list A) : len (l1 ++ l2) = len l1 + len l2.
Proof. unfold len. rewrite length_app. lia. Qed.

Lemma len_cons {A} (x : A) (l : list A) : len (x :: l) = len l + 1.
Proof. unfold len. simpl. lia. Qed.

Lemma len_perm {A} (l1 l2 : list A) : l1 ≡ₚ l2 -> len l1 = len l2.
Proof. intros E. unfold len. by rewrite E. Qed.

Lemma len_nonneg {A} (l : list A) : 0 <= len l.
Proof. unfold len. lia. Qed.

Lemma len_zero {A} (l : list A) : len l = 0 <-> l = [].
Proof. unfold len. destruct l; simpl; split; intros; try done; lia. Qed.

(** ** Filtering *)

Lemma filter_all {A} (P : A -> Prop) `{forall x, Decision (P x)} (l : list A) :
  Forall P l -> filter P l = l.
Proof.
  induction 1 as [|x l Hx Hl IH]; [done|]. rewrite filter_cons_True by done. by rewrite IH.
Qed.

Lemma filter_none {A} (P : A -> Prop) `{forall x, Decision (P x)} (l : list A) :
  Forall (fun x => ~ P x) l -> filter P l = [].
Proof.
  induction 1 as [|x l Hx Hl IH]; [done|]. by rewrite filter_cons_False.
Qed.

(** [List.filter], the boolean one. *)
Lemma filter_one {A} (f : A -> bool) x : List.filter f [x] = if f x then [x] else [].
Proof. simpl. by destruct (f x). Qed.

Lemma filter_twice {A} (f g : A -> bool) l :
  List.filter f (List.filter g l) = List.filter (fun x => g x && f x) l.
Proof. induction l as [|x l IH]; [done|]. simpl. destruct (g x); simpl; [destruct (f x)|]; by rewrite IH. Qed.

Lemma NoDup_map_filter {A B} (h : A -> B) (f : A -> bool) l : NoDup (map h l) -> NoDup (map h (List.filter f l)).
Proof.
  induction l as [|x l IH]; [done|]. simpl. intros [Hx Hl]%NoDup_cons. destruct (f x); [|auto].
  simpl. apply NoDup_cons. split; [|auto]. intros (y & E & Hy)%list_elem_of_fmap. apply Hx.
  apply list_elem_of_fmap. exists y. split; [done|]. apply list_elem_of_In, List.filter_In in Hy as [Hy _].
  by apply list_elem_of_In.
Qed.

Lemma NoDup_map_inj {A B} (h : A -> B) l x y : NoDup (map h l) -> x ∈ l -> y ∈ l -> h x = h y -> x = y.
Proof.
  induction l as [|z l IH]; [by intros _ ?%elem_of_nil|]. intros [Hz Hl]%NoDup_cons Hx Hy E.
  apply elem_of_cons in Hx as [-> |Hx]; apply elem_of_cons in Hy as [-> |Hy]; [done| | |by apply IH].
  - destruct Hz. rewrite E. by apply list_elem_of_fmap_2.
  - destruct Hz. rewrite <- E. by apply list_elem_of_fmap_2.
Qed.

Lemma filter_comm {A} (f g : A -> bool) l : List.filter f (List.filter g l) = List.filter g (List.filter f l).
Proof. rewrite !filter_twice. apply List.filter_ext. intros x. apply andb_comm. Qed.

Lemma Forall_filter_sub {A} (P Q : A -> Prop) `{forall x, Decision (P x)} (l : list A) :
  Forall Q l -> Forall Q (filter P l).
Proof.
  rewrite !Forall_forall. intros Hl x Hx. apply list_elem_of_filter in Hx as [_ Hx]. by apply Hl.
Qed.

Lemma filter_ext_in {A} (P Q : A -> Prop) `{forall x, Decision (P x)} `{forall x, Decision (Q x)}
    (l : list A) : (forall x, x ∈ l -> P x <-> Q x) -> filter P l = filter Q l.
Proof.
  induction l as [|x l IH]; intros HPQ; [done|].
  assert (IH' := IH (fun y Hy => HPQ y (list_elem_of_further y x l Hy))).
  specialize (HPQ x (list_elem_of_here x l)). destruct (decide (P x)).
  - rewrite !filter_cons_True by tauto. by rewrite IH'.
  - rewrite !filter_cons_False by tauto. done.
Qed.

Lemma sorted_lookup (a : list Z) i j u v :
  StronglySorted Z.lt a -> a !! i = Some u -> a !! j = Some v -> (i < j)%nat -> u < v.
Proof.
  intros Hs. revert i j. induction Hs as [|x a Hs IH Hx]; intros i j Hi Hj Hij; [done|].
  destruct j as [|j]; [lia|]. simpl in Hj. destruct i as [|i]; simpl in Hi.
  - simplify_eq. rewrite Forall_forall in Hx. apply Hx. by eapply list_elem_of_lookup_2.
  - apply (IH i j); [done|done|lia].
Qed.

(** ** Invariants of a step relation *)

Lemma rtc_invariant {S : Type} (P : S -> Prop) (R : S -> S -> Prop) (x y : S) :
  (forall a b, P a -> R a b -> P b) -> P x -> rtc R x y -> P y.
Proof. intros Hstep Hx Hxy. induction Hxy; eauto. Qed.

(** The scan of a slice from its end ([slices.Backward]). *)
Fixpoint find_last {A} (p : A -> bool) (l : list A) : option nat :=
  match l with
  | [] => None
  | x :: l' =>
      match find_last p l' with
      | Some i => Some (S i)
      | None => if p x then Some 0%nat else None
      end
  end.

Lemma find_last_Some {A} (p : A -> bool) (l : list A) (i : nat) :
  find_last p l = Some i -> exists x, l !! i = Some x /\ p x = true.
Proof.
  revert i. induction l as [|x l IH]; intros i H; simpl in H; [done|].
  destruct (find_last p l) as [j|] eqn:E; simplify_eq; [by apply IH|].
  destruct (p x) eqn:Px; simplify_eq. by exists x.
Qed.

Lemma len_delete {A} (l : list A) (i : nat) (x : A) :
  l !! i = Some x -> len (delete i l) = len l - 1.
Proof.
  intros H. unfold len. rewrite (length_delete l i) by eauto.
  apply lookup_lt_Some in H. lia.
Qed.

Lemma rtc_of_eq {S : Type} (R : S -> S -> Prop) (x y : S) : x = y -> rtc R x y.
Proof. intros ->. apply rtc_refl. Qed.

(** ** Counting the entries of a finite map *)

Section map_count.
Context {K V : Type} `{Countable K}.
Implicit Types (m : gmap K V) (P : V -> bool).

(** How many entries of [m] hold a value that satisfies [P]. *)
Definition map_count (P : V -> bool) (m : gmap K V) : Z :=
  Z.of_nat (size (filter (fun kv : K * V => P kv.2 = true) m)).

Lemma map_count_nonneg P m : 0 <= map_count P m.
Proof. unfold map_count. lia. Qed.

Lemma map_count_empty P : map_count P (∅ : gmap K V) = 0.
Proof. unfold map_count. rewrite map_filter_empty. by rewrite map_size_empty. Qed.

Lemma map_count_insert P m k v :
  m !! k = None -> map_count P (<[k:=v]> m) = map_count P m + Z.b2z (P v).
Proof.
  intros Hk. unfold map_count. destruct (P v) eqn:HP; simpl.
  - rewrite map_filter_insert_True by done.
    rewrite map_size_insert_None; [lia|].
    apply map_lookup_filter_None_2. by left.
  - rewrite map_filter_insert_False by (simpl; congruence).
    rewrite delete_id by done. lia.
Qed.

Lemma map_count_delete P m k v :
  m !! k = Some v -> map_count P (delete k m) = map_count P m - Z.b2z (P v).
Proof.
  intros Hk. rewrite <- (insert_id m k v) at 2 by done.
  rewrite <- insert_delete_eq.
  rewrite map_count_insert by apply lookup_delete_eq. lia.
Qed.

Lemma map_count_update P m k v v' :
  m !! k = Some v ->
  map_count P (<[k:=v']> m) = map_count P m - Z.b2z (P v) + Z.b2z (P v').
Proof.
  intros Hk. rewrite <- insert_delete_eq.
  rewrite map_count_insert by apply lookup_delete_eq.
  rewrite (map_count_delete P m k v Hk). lia.
Qed.

Lemma map_count_mono P Q m :
  (forall v, P v = true -> Q v = true) -> map_count P m <= map_count Q m.
Proof.
  intros HPQ. induction m as [|k v m Hk IH] using map_ind.
  - rewrite !map_count_empty. lia.
  - rewrite !map_count_insert by done.
    pose proof (HPQ v). destruct (P v), (Q v); simpl; naive_solver lia.
Qed.

Lemma map_count_orb P Q m :
  map_count (fun v => P v || Q v) m <= map_count P m + map_count Q m.
Proof.
  induction m as [|k v m Hk IH] using map_ind.
  - rewrite !map_count_empty. lia.
  - rewrite !map_count_insert by done. destruct (P v), (Q v); simpl; lia.
Qed.

Lemma map_count_false m : map_count (fun _ => false) m = 0.
Proof.
  induction m as [|k v m Hk IH] using map_ind.
  - apply map_count_empty.
  - rewrite map_count_insert by done. simpl. lia.
Qed.

Lemma map_count_zero P m :
  (forall k v, m !! k = Some v -> P v = false) -> map_count P m = 0.
Proof.
  intros Hall. induction m as [|k v m Hk IH] using map_ind.
  - apply map_count_empty.
  - rewrite map_count_insert by done.
    rewrite (Hall k v) by apply lookup_insert_eq. rewrite IH; [done|].
    intros k' v' Hk'. apply (Hall k'). rewrite lookup_insert_ne by congruence. done.
Qed.

Lemma map_count_pos P m k v :
  m !! k = Some v -> P v = true -> 1 <= map_count P m.
Proof.
  intros Hk HP. rewrite <- (insert_id m k v) by done.
  rewrite <- insert_delete_eq, map_count_insert by apply lookup_delete_eq.
  rewrite HP. simpl. pose proof (map_count_nonneg P (delete k m)). lia.
Qed.
End map_count.

(** ** Maps used as counters with a zero default

    Go reads an absent key of a [map[K]int] as 0. *)

Section counters.
Context {K : Type} `{Countable K}.
Implicit Types (m : gmap K Z).

Definition count_at (m : gmap K Z) (k : K) : Z := default 0 (m !! k).

(** [m[k]++] *)
Definition count_incr (m : gmap K Z) (k : K) : gmap K Z :=
  <[k := count_at m k + 1]> m.

(** [if n := m[k] - 1; n > 0 { m[k] = n } else { delete(m, k) }] *)
Definition count_decr (m : gmap K Z) (k : K) : gmap K Z :=
  let n := count_at m k - 1 in
  if n >? 0 then <[k := n]> m else delete k m.

(** No key is kept at zero. *)
Definition counts_pos (m : gmap K Z) : Prop := map_Forall (fun _ n => 0 < n) m.

Lemma count_at_incr m k j :
  count_at (count_incr m k) j = count_at m j + Z.b2z (bool_decide (k = j)).
Proof.
  unfold count_incr, count_at. rewrite lookup_insert. case_decide as E.
  - subst. rewrite bool_decide_eq_true_2 by done. simpl. lia.
  - rewrite bool_decide_eq_false_2 by done. simpl. lia.
Qed.

Lemma count_at_decr m k j :
  1 <= count_at m k ->
  count_at (count_decr m k) j = count_at m j - Z.b2z (bool_decide (k = j)).
Proof.
  intros Hk. unfold count_decr. destruct (count_at m k - 1 >? 0) eqn:E.
  - unfold count_at in *. rewrite lookup_insert. case_decide as D.
    + subst. rewrite bool_decide_eq_true_2 by done. simpl. lia.
    + rewrite bool_decide_eq_false_2 by done. simpl. lia.
  - unfold count_at in *. rewrite lookup_delete. case_decide as D.
    + subst. rewrite bool_decide_eq_true_2 by done. simpl. lia.
    + rewrite bool_decide_eq_false_2 by done. simpl. lia.
Qed.

Lemma counts_pos_nonneg m k : counts_pos m -> 0 <= count_at m k.
Proof.
  intros Hm. unfold count_at. destruct (m !! k) eqn:E; simpl; [|lia].
  specialize (Hm _ _ E). simpl in Hm. lia.
Qed.

Lemma counts_pos_incr m k : counts_pos m -> counts_pos (count_incr m k).
Proof.
  intros Hm. apply map_Forall_insert_2; [|done].
  pose proof (counts_pos_nonneg m k Hm). lia.
Qed.

Lemma counts_pos_decr m k : counts_pos m -> counts_pos (count_decr m k).
Proof.
  intros Hm. unfold count_decr. destruct (_ >? 0) eqn:E.
  - apply map_Forall_insert_2; [lia|done].
  - by apply map_Forall_delete.
Qed.

Lemma counts_pos_lookup m k :
  counts_pos m -> m !! k = None <-> count_at m k = 0.
Proof.
  intros Hm. unfold count_at. destruct (m !! k) eqn:E; simpl; [|done].
  specialize (Hm _ _ E). simpl in Hm. naive_solver lia.
Qed.
End counters.

#[export] Hint Resolve counts_pos_incr counts_pos_decr counts_pos_nonneg : tg.

(** ** Times in a span *)

Definition count_in (lo hi : Z) (ts : list Z) : Z := len (filter (fun t => lo <= t < hi) ts).

Lemma count_in_cons lo hi t ts :
  count_in lo hi (t :: ts) = (if decide (lo <= t < hi) then 1 else 0) + count_in lo hi ts.
Proof.
  unfold count_in. destruct (decide (lo <= t < hi)).
  - rewrite filter_cons_True, len_cons by done. lia.
  - rewrite filter_cons_False by done. lia.
Qed.

Lemma count_in_mono lo hi lo' hi' ts :
  lo' <= lo -> hi <= hi' -> count_in lo hi ts <= count_in lo' hi' ts.
Proof.
  intros. induction ts as [|t ts IH]; [done|]. rewrite !count_in_cons.
  destruct (decide (lo <= t < hi)), (decide (lo' <= t < hi')); lia.
Qed.

Lemma count_in_split lo mid hi ts :
  count_in lo hi ts <= count_in lo mid ts + count_in mid hi ts.
Proof.
  induction ts as [|t ts IH]; [done|]. rewrite !count_in_cons.
  destruct (decide (lo <= t < hi)), (decide (lo <= t < mid)), (decide (mid <= t < hi)); lia.
Qed.

(** Nothing is counted past the last admission. *)
Lemma count_in_past lo hi now ts :
  Forall (fun t => t <= now) ts -> count_in lo hi ts <= count_in lo (now + 1) ts.
Proof.
  induction 1 as [|t ts Ht _ IH]; [done|]. rewrite !count_in_cons.
  destruct (decide (lo <= t < hi)), (decide (lo <= t < now + 1)); lia.
Qed.

Lemma count_in_none lo hi ts : Forall (fun t => t < lo) ts -> count_in lo hi ts = 0.
Proof.
  induction 1 as [|t ts Ht _ IH]; [done|]. rewrite count_in_cons, IH.
  destruct (decide (lo <= t < hi)); lia.
Qed.
