(* ===== verification/NetAddr.v ===== *)
(** * Client addresses and the network a per-network bound is keyed on

    Go's [net/netip] as far as the server uses it (an address, its unmapped form,
    a prefix and membership in it), and [IPBucketKey] of
    [internal/store/send_code_ip.go], the reduction every per-network bound of the
    connection layer applies to a client address. *)

From S2P Require Import Prelude.

(** ** netip.Addr *)

(** The zero [Addr] (an address the transport could not report), an IPv4 address
    as its 32-bit number, an IPv6 address as its 128-bit number and its zone. *)
Inductive Addr : Type :=
| AddrZero
| Addr4 (a : Z)
| Addr6 (a : Z) (zone : string).

Definition Addr_IsValid (ip : Addr) : bool :=
  match ip with
  | AddrZero => false
  | _ => true
  end.

Definition Addr_Is6 (ip : Addr) : bool :=
  match ip with
  | Addr6 _ _ => true
  | _ => false
  end.

(** An address in ::ffff:0:0/96 is an IPv4 address written in the other form. *)
Definition is4in6 (a : Z) : bool := Z.shiftr a 32 =? 65535.

Definition Unmap (ip : Addr) : Addr :=
  match ip with
  | Addr6 a _ => if is4in6 a then Addr4 (Z.land a (Z.ones 32)) else ip
  | _ => ip
  end.

Definition WithoutZone (ip : Addr) : Addr :=
  match ip with
  | Addr6 a _ => Addr6 a EmptyString
  | _ => ip
  end.

(** ** netip.Prefix *)

Record Prefix : Type := mkPrefix {
  pfx_v6 : bool;
  pfx_addr : Z;
  pfx_bits : Z
}.

#[export] Instance Prefix_eq_dec : EqDecision Prefix.
Proof. solve_decision. Defined.

#[export] Instance Prefix_countable : Countable Prefix.
Proof.
  refine (inj_countable'
    (fun p => (pfx_v6 p, pfx_addr p, pfx_bits p))
    (fun '(v, a, b) => mkPrefix v a b) _).
  by intros [].
Defined.

(** Keep the leading [bits] bits of a [w]-bit number. *)
Definition mask_to (w bits a : Z) : Z := Z.shiftl (Z.shiftr a (w - bits)) (w - bits).

(** [netip.PrefixFrom(addr, bits).Masked()] for a valid address. *)
Definition MaskedPrefix (ip : Addr) (bits : Z) : option Prefix :=
  match ip with
  | AddrZero => None
  | Addr4 a => Some (mkPrefix false (mask_to 32 bits a) bits)
  | Addr6 a _ => Some (mkPrefix true (mask_to 128 bits a) bits)
  end.

(** [netip.Prefix.Contains]: an address of the other family, or one with a zone,
    is in no prefix. *)
Definition Prefix_Contains (p : Prefix) (ip : Addr) : bool :=
  match ip with
  | AddrZero => false
  | Addr4 a =>
      negb (pfx_v6 p) &&
      (Z.shiftr a (32 - pfx_bits p) =? Z.shiftr (pfx_addr p) (32 - pfx_bits p))
  | Addr6 a z =>
      pfx_v6 p && bool_decide (z = EmptyString) &&
      (Z.shiftr a (128 - pfx_bits p) =? Z.shiftr (pfx_addr p) (128 - pfx_bits p))
  end.

(** ** IPBucketKey *)

Definition ipv4BucketBits : Z := 32.
Definition ipv6BucketBits : Z := 64.

(** [None] is the source's [(Prefix{}, false)]: no caller may turn it into a key. *)
Definition IPBucketKey (addr : Addr) : option Prefix :=
  if negb (Addr_IsValid addr) then None
  else
    let addr := WithoutZone (Unmap addr) in
    let bits := if Addr_Is6 addr then ipv6BucketBits else ipv4BucketBits in
    MaskedPrefix addr bits.

(** The host or network a client is, as the limits mean it: its IPv4 address in
    either written form, or its IPv6 /64. *)
Inductive ClientNet : Type :=
| Host4 (a : Z)
| Net64 (hi : Z).

Definition client_net (ip : Addr) : option ClientNet :=
  match ip with
  | AddrZero => None
  | Addr4 a => Some (Host4 a)
  | Addr6 a _ =>
      if a / 2 ^ 32 =? 65535 then Some (Host4 (a mod 2 ^ 32))
      else Some (Net64 (a / 2 ^ 64))
  end.

Lemma mask_to_full w a : 0 <= w -> mask_to w w a = a.
Proof. intros Hw. unfold mask_to. rewrite Z.sub_diag, Z.shiftr_0_r. apply Z.shiftl_0_r. Qed.

Lemma mask_to_64 a : mask_to 128 64 a = a / 2 ^ 64 * 2 ^ 64.
Proof. unfold mask_to. rewrite Z.shiftr_div_pow2, Z.shiftl_mul_pow2 by lia. done. Qed.

Lemma is4in6_div a : is4in6 a = (a / 2 ^ 32 =? 65535).
Proof. unfold is4in6. rewrite Z.shiftr_div_pow2 by lia. done. Qed.

Lemma IPBucketKey_client_net ip :
  IPBucketKey ip =
    match client_net ip with
    | None => None
    | Some (Host4 a) => Some (mkPrefix false a 32)
    | Some (Net64 hi) => Some (mkPrefix true (hi * 2 ^ 64) 64)
    end.
Proof.
  destruct ip as [|a|a z]; unfold IPBucketKey; [done| |].
  - simpl. by rewrite mask_to_full.
  - unfold client_net, Unmap. rewrite is4in6_div. destruct (a / 2 ^ 32 =? 65535) eqn:E.
    + rewrite Z.land_ones by lia. simpl. by rewrite mask_to_full.
    + simpl. by rewrite mask_to_64.
Qed.

(** Two addresses are charged to the same bucket exactly when
    they are the same IPv4 host, whichever family either was written in, or lie in
    the same IPv6 /64: neither a mapped address, nor a zone, nor a fresh address
    inside a /64 buys a second bucket, and no two distinct peers share one. *)
Theorem IPBucketKey_same_bucket (ip1 ip2 : Addr) :
  IPBucketKey ip1 = IPBucketKey ip2 <-> client_net ip1 = client_net ip2.
Proof.
  rewrite !IPBucketKey_client_net.
  split; [|by intros ->].
  destruct (client_net ip1) as [[a|h]|], (client_net ip2) as [[b|k]|];
    intros E; simplify_eq; try done.
  f_equal. f_equal. lia.
Qed.

(** An address the transport could not parse is the only one with no bucket. *)
Lemma IPBucketKey_none ip : IPBucketKey ip = None <-> ip = AddrZero.
Proof.
  rewrite IPBucketKey_client_net.
  destruct ip as [|a|a z]; simpl; try naive_solver.
  destruct (a / 2 ^ 32 =? 65535); naive_solver.
Qed.
