(* ===== verification/PreAuth.v ===== *)
(** * The bounds on connections that have not authenticated

    [internal/mtproto/preauth.go]: the limiter's counters, a connection's slot, and
    the life of a slot (taken at accept, charged to a client network, cleared
    once) as steps of the population of connections. *)

From S2P Require Import Prelude.
From S2P Require Import NetAddr.

Record PreAuthLimits : Type := mkLimits {
  MaxConns : Z;
  MaxConnsPerNet : Z;
  Lifetime : Z
}.

Definition DefaultPreAuthLimits : PreAuthLimits := mkLimits 1024 64 (120 * second).

Record preAuthLimiter : Type := mkLimiter {
  limits : PreAuthLimits;
  conns : Z;
  perNet : gmap Prefix Z
}.

Definition newPreAuthLimiter (l : PreAuthLimits) : preAuthLimiter := mkLimiter l 0 ∅.

(** The errors of [SetPreAuthLimits]: which field is negative. *)
Inductive LimitsError : Type :=
| NegativeMaxConns (n : Z)
| NegativeMaxConnsPerNet (n : Z)
| NegativeLifetime (d : Z).

Definition SetPreAuthLimits (l : PreAuthLimits) : result LimitsError preAuthLimiter :=
  if MaxConns l <? 0 then Err (NegativeMaxConns (MaxConns l))
  else if MaxConnsPerNet l <? 0 then Err (NegativeMaxConnsPerNet (MaxConnsPerNet l))
  else if Lifetime l <? 0 then Err (NegativeLifetime (Lifetime l))
  else Ok (newPreAuthLimiter l).

(** The [*time.Timer] of a slot: nil, running, or stopped by [clear]. *)
Inductive timer_state : Type :=
| NoTimer
| Armed (d : Z)
| Stopped.

(** [bucket] is [None] for the invalid prefix; [once] records that the [sync.Once]
    of [clear] has run. *)
Record preAuthSlot : Type := mkSlot {
  bucket : option Prefix;
  timer : timer_state;
  once : bool
}.

Definition preAuthLimiter_admit (l : preAuthLimiter) : option preAuthSlot * preAuthLimiter :=
  if (MaxConns (limits l) >? 0) && (conns l >=? MaxConns (limits l)) then (None, l)
  else (Some (mkSlot None NoTimer false), mkLimiter (limits l) (conns l + 1) (perNet l)).

Definition preAuthLimiter_acquireNet (l : preAuthLimiter) (b : Prefix) : bool * preAuthLimiter :=
  if (MaxConnsPerNet (limits l) >? 0) && (count_at (perNet l) b >=? MaxConnsPerNet (limits l))
  then (false, l)
  else (true, mkLimiter (limits l) (conns l) (count_incr (perNet l) b)).

Definition preAuthLimiter_release (l : preAuthLimiter) (b : option Prefix) : preAuthLimiter :=
  mkLimiter (limits l) (conns l - 1)
    (match b with
     | None => perNet l
     | Some b => count_decr (perNet l) b
     end).

Definition preAuthSlot_keyAddr (s : preAuthSlot) (l : preAuthLimiter) (addr : Addr)
    : bool * preAuthSlot * preAuthLimiter :=
  match IPBucketKey addr with
  | None => (true, s, l)
  | Some b =>
      let '(ok, l') := preAuthLimiter_acquireNet l b in
      if ok then (true, mkSlot (Some b) (timer s) (once s), l') else (false, s, l')
  end.

Definition preAuthSlot_armLifetime (s : preAuthSlot) (l : preAuthLimiter) : preAuthSlot :=
  if Lifetime (limits l) <=? 0 then s
  else mkSlot (bucket s) (Armed (Lifetime (limits l))) (once s).

(** [clear] on a non-nil slot: the [sync.Once] makes the second call a no-op. *)
Definition preAuthSlot_clear (s : preAuthSlot) (l : preAuthLimiter) : preAuthSlot * preAuthLimiter :=
  if once s then (s, l)
  else
    (mkSlot (bucket s)
       (match timer s with
        | NoTimer => NoTimer
        | _ => Stopped
        end) true,
     preAuthLimiter_release l (bucket s)).

(** ** The population of connections *)

Record population : Type := mkPop {
  lim : preAuthLimiter;
  slots : gmap Z preAuthSlot
}.

Definition init_pop (l : PreAuthLimits) : population := mkPop (newPreAuthLimiter l) ∅.

(** One critical section of one connection's goroutine.  A slot is charged to a
    network once, before it is cleared; it may be cleared any number of times. *)
Inductive step : population -> population -> Prop :=
| step_admit p id s l' :
    slots p !! id = None ->
    preAuthLimiter_admit (lim p) = (Some s, l') ->
    step p (mkPop l' (<[id := s]> (slots p)))
| step_refuse p l' :
    preAuthLimiter_admit (lim p) = (None, l') ->
    step p (mkPop l' (slots p))
| step_arm p id s :
    slots p !! id = Some s ->
    step p (mkPop (lim p) (<[id := preAuthSlot_armLifetime s (lim p)]> (slots p)))
| step_key p id s addr ok s' l' :
    slots p !! id = Some s ->
    bucket s = None ->
    once s = false ->
    preAuthSlot_keyAddr s (lim p) addr = (ok, s', l') ->
    step p (mkPop l' (<[id := s']> (slots p)))
| step_clear p id s s' l' :
    slots p !! id = Some s ->
    preAuthSlot_clear s (lim p) = (s', l') ->
    step p (mkPop l' (<[id := s']> (slots p))).

Definition held (s : preAuthSlot) : bool := negb (once s).
Definition held_in (b : Prefix) (s : preAuthSlot) : bool :=
  held s && bool_decide (bucket s = Some b).

(** The counters say what is held, and what is held is inside the bounds. *)
Record pop_inv (p : population) : Prop := {
  inv_conns : conns (lim p) = map_count held (slots p);
  inv_nets b : count_at (perNet (lim p)) b = map_count (held_in b) (slots p);
  preauth_inv_pos : counts_pos (perNet (lim p));
  preauth_inv_cap : 0 < MaxConns (limits (lim p)) -> conns (lim p) <= MaxConns (limits (lim p));
  inv_net_cap b :
    0 < MaxConnsPerNet (limits (lim p)) ->
    count_at (perNet (lim p)) b <= MaxConnsPerNet (limits (lim p))
}.

Lemma preauth_init_inv l : pop_inv (init_pop l).
Proof.
  split; simpl; intros; rewrite ?map_count_empty; unfold count_at;
    rewrite ?lookup_empty; simpl; try lia; done.
Qed.

Lemma preauth_step_limits p p' : step p p' -> limits (lim p') = limits (lim p).
Proof.
  destruct 1 as [p id s l' _ E|p l' E| |p id s addr ok s' l' _ _ _ E|p id s s' l' _ E];
    simpl; try done;
    unfold preAuthLimiter_admit, preAuthSlot_keyAddr, preAuthLimiter_acquireNet, preAuthSlot_clear in E; split_matches; done.
Qed.

Lemma held_in_held b s : held_in b s = true -> held s = true.
Proof. unfold held_in. by intros [? _]%andb_true_iff. Qed.

(** Each critical section keeps the invariant. *)
Lemma preauth_admit_inv p id s l' :
  pop_inv p -> slots p !! id = None -> preAuthLimiter_admit (lim p) = (Some s, l') ->
  pop_inv (mkPop l' (<[id := s]> (slots p))).
Proof.
  intros I Hid E. unfold preAuthLimiter_admit in E. destruct (_ && _) eqn:G; simplify_eq/=.
  destruct I as [I1 I2 I3 I4 I5]. split; simpl; intros; auto with tg; try lia.
  - rewrite map_count_insert by done. simpl. lia.
  - rewrite map_count_insert by done. simpl. rewrite I2. lia.
Qed.

Lemma preauth_keyAddr_inv p id s addr ok s' l' :
  pop_inv p -> slots p !! id = Some s -> bucket s = None -> once s = false ->
  preAuthSlot_keyAddr s (lim p) addr = (ok, s', l') ->
  pop_inv (mkPop l' (<[id := s']> (slots p))).
Proof.
  intros I Hid Hb Ho E. unfold preAuthSlot_keyAddr in E.
  destruct (IPBucketKey addr) as [b|]; simplify_eq/=.
  2:{ rewrite insert_id by done. by destruct p. }
  unfold preAuthLimiter_acquireNet in E.
  destruct (_ && _) eqn:G; simplify_eq/=.
  { rewrite insert_id by done. by destruct p. }
  destruct I as [I1 I2 I3 I4 I5]. split; simpl; intros; eauto with tg.
  - rewrite (map_count_update held _ id s) by done. unfold held at 2 3. rewrite Ho. simpl. lia.
  - rewrite (map_count_update (held_in b0) _ id s) by done.
    rewrite count_at_incr, I2. unfold held_in at 3 4, held. rewrite Hb, Ho. unfold bucket, once.
    repeat case_bool_decide; simplify_eq/=; try lia.
  - rewrite count_at_incr. specialize (I5 b0 ltac:(done)).
    case_bool_decide; simpl; [subst; lia|lia].
Qed.

Lemma preauth_clear_inv p id s s' l' :
  pop_inv p -> slots p !! id = Some s -> preAuthSlot_clear s (lim p) = (s', l') ->
  pop_inv (mkPop l' (<[id := s']> (slots p))).
Proof.
  intros I Hid E. unfold preAuthSlot_clear in E. destruct (once s) eqn:Ho; simplify_eq/=.
  { rewrite insert_id by done. by destruct p. }
  destruct I as [I1 I2 I3 I4 I5].
  assert (Hheld : forall b, bucket s = Some b -> 1 <= count_at (perNet (lim p)) b).
  { intros b Hb. rewrite I2. apply (map_count_pos _ _ id s); [done|].
    unfold held_in, held. by rewrite Ho, Hb, bool_decide_eq_true_2. }
  assert (Hnets : forall b, count_at (perNet (preAuthLimiter_release (lim p) (bucket s))) b
                  = count_at (perNet (lim p)) b - Z.b2z (bool_decide (bucket s = Some b))).
  { intros b. unfold preAuthLimiter_release, perNet. destruct (bucket s) as [b'|].
    - rewrite count_at_decr by auto. repeat case_bool_decide; simplify_eq/=; lia.
    - case_bool_decide; [done|]. simpl. lia. }
  assert (Hh : held s = true) by (unfold held; by rewrite Ho).
  split; cbn [lim slots]; intros; rewrite ?Hnets.
  - rewrite (map_count_update held _ id s) by done. rewrite Hh. cbn. lia.
  - rewrite (map_count_update (held_in b) _ id s) by done.
    rewrite I2. unfold held_in at 3 4. rewrite Hh. cbn [held once negb andb]. cbn. lia.
  - simpl. destruct (bucket s); auto with tg.
  - simpl in *. lia.
  - specialize (I5 b ltac:(done)). simpl. case_bool_decide; simpl; lia.
Qed.

Lemma preauth_arm_inv p id s :
  pop_inv p -> slots p !! id = Some s ->
  pop_inv (mkPop (lim p) (<[id := preAuthSlot_armLifetime s (lim p)]> (slots p))).
Proof.
  intros [I1 I2 I3 I4 I5] Hid.
  assert (Hh : held (preAuthSlot_armLifetime s (lim p)) = held s) by (unfold preAuthSlot_armLifetime; by case_match).
  assert (Hb : bucket (preAuthSlot_armLifetime s (lim p)) = bucket s) by (unfold preAuthSlot_armLifetime; by case_match).
  split; simpl; intros; auto.
  - rewrite (map_count_update held _ id s) by done. rewrite Hh. lia.
  - rewrite (map_count_update (held_in b) _ id s) by done.
    unfold held_in. rewrite Hh, Hb, I2. unfold held_in. lia.
Qed.

Lemma preauth_step_inv p p' : pop_inv p -> step p p' -> pop_inv p'.
Proof.
  intros I. destruct 1 as [|p l' E| | |];
    eauto using preauth_admit_inv, preauth_keyAddr_inv, preauth_clear_inv, preauth_arm_inv.
  unfold preAuthLimiter_admit in E. destruct (_ && _); simplify_eq. by destruct p.
Qed.

Lemma preauth_reachable_inv l p : rtc step (init_pop l) p -> pop_inv p /\ limits (lim p) = l.
Proof.
  apply (rtc_invariant (fun p => pop_inv p /\ limits (lim p) = l)).
  - intros p1 p2 [I E] S. split; [by eapply preauth_step_inv|]. by rewrite (preauth_step_limits _ _ S).
  - split; [apply preauth_init_inv|done].
Qed.

(** A connection charged to one of the networks in [nets]. *)
Definition held_in_any (nets : list Prefix) (s : preAuthSlot) : bool :=
  existsb (fun b => held_in b s) nets.

Lemma held_in_any_bound p nets :
  pop_inv p -> 0 < MaxConnsPerNet (limits (lim p)) ->
  map_count (held_in_any nets) (slots p)
    <= Z.of_nat (length nets) * MaxConnsPerNet (limits (lim p)).
Proof.
  intros I Hcap. induction nets as [|b nets IH]; simpl.
  - unfold held_in_any. simpl. rewrite map_count_false. lia.
  - unfold held_in_any in *. simpl.
    pose proof (map_count_orb (held_in b) (fun s => existsb (fun b => held_in b s) nets) (slots p)) as Ho.
    cbv beta in Ho. pose proof (inv_net_cap p I b Hcap) as Hb. rewrite (inv_nets p I) in Hb.
    rewrite Nat2Z.inj_succ, Z.mul_succ_l. lia.
Qed.

(** The pre-auth bound is a formula: whatever the order in which
    connections are accepted, charged to a network, and cleared, and however often
    one is cleared, the connections held by any [k] client networks number at most
    [min(MaxConns, k * MaxConnsPerNet)]. *)
Theorem preauth_population_bound (l : PreAuthLimits) (p : population) (nets : list Prefix) :
  0 < MaxConns l -> 0 < MaxConnsPerNet l ->
  rtc step (init_pop l) p ->
  map_count held (slots p) <= MaxConns l /\
  map_count (held_in_any nets) (slots p)
    <= Z.min (MaxConns l) (Z.of_nat (length nets) * MaxConnsPerNet l).
Proof.
  intros H1 H2 R. destruct (preauth_reachable_inv l p R) as [I El].
  assert (Hc : map_count held (slots p) <= MaxConns l).
  { rewrite <- (inv_conns p I), <- El. apply (preauth_inv_cap p I). by rewrite El. }
  split; [exact Hc|].
  pose proof (held_in_any_bound p nets I ltac:(by rewrite El)) as Hn. rewrite El in Hn.
  assert (map_count (held_in_any nets) (slots p) <= map_count held (slots p)).
  { apply map_count_mono. intros s. unfold held_in_any. rewrite existsb_exists.
    intros (b & _ & Hb). by eapply held_in_held. }
  lia.
Qed.

(** Every slot is given back exactly once: once every connection
    has been cleared, by whichever of its two callers came first, the limiter is
    back to zero connections and an empty network map. *)
Theorem preauth_all_cleared (l : PreAuthLimits) (p : population) :
  rtc step (init_pop l) p ->
  (forall id s, slots p !! id = Some s -> once s = true) ->
  lim p = newPreAuthLimiter l.
Proof.
  intros R Hall. destruct (preauth_reachable_inv l p R) as [I El].
  assert (Hz : forall P, (forall s, P s = true -> held s = true) -> map_count P (slots p) = 0).
  { intros P HP. apply map_count_zero. intros k s Hk. apply not_true_iff_false.
    intros Hp%HP. unfold held in Hp. by rewrite (Hall _ _ Hk) in Hp. }
  destruct (lim p) as [l0 c m] eqn:Elim. simpl in El. subst l0.
  pose proof (inv_conns p I) as Hc. pose proof (inv_nets p I) as Hn.
  pose proof (preauth_inv_pos p I) as Hp. rewrite Elim in *. simpl in *.
  rewrite Hz in Hc by done. unfold newPreAuthLimiter. f_equal; [done|].
  apply map_empty. intros b. apply counts_pos_lookup; [done|].
  rewrite Hn. apply Hz. intros s. apply held_in_held.
Qed.

(** ** Witnesses *)

Definition preauth_demo_limits : PreAuthLimits := mkLimits 2 1 0.
Definition preauth_demo_net : Prefix := mkPrefix false 3232235777 32.

(** One connection from 192.168.1.1, accepted and charged to its network. *)
Definition preauth_demo_pop : population :=
  mkPop (mkLimiter preauth_demo_limits 1 {[ preauth_demo_net := 1 ]})
        {[ 7 := mkSlot (Some preauth_demo_net) NoTimer false ]}.

Lemma preauth_demo_reachable : rtc step (init_pop preauth_demo_limits) preauth_demo_pop.
Proof.
  eapply rtc_l; [eapply (step_admit _ 7); reflexivity|].
  eapply rtc_l; [eapply (step_key _ 7 _ (Addr4 3232235777)); reflexivity|].
  apply rtc_refl.
Qed.

Lemma preauth_population_bound_witness :
  map_count (held_in_any [preauth_demo_net]) (slots preauth_demo_pop) = 1 /\
  map_count held (slots preauth_demo_pop) <= 2 /\
  map_count (held_in_any [preauth_demo_net]) (slots preauth_demo_pop) <= Z.min 2 (1 * 1).
Proof.
  split; [reflexivity|].
  exact (preauth_population_bound preauth_demo_limits preauth_demo_pop [preauth_demo_net]
           eq_refl eq_refl preauth_demo_reachable).
Defined.

(** The same connection after both of its [clear] calls. *)
Definition preauth_demo_pop_done : population :=
  mkPop (mkLimiter preauth_demo_limits 0 ∅) {[ 7 := mkSlot (Some preauth_demo_net) NoTimer true ]}.

Lemma preauth_demo_done_reachable : rtc step (init_pop preauth_demo_limits) preauth_demo_pop_done.
Proof.
  etransitivity; [apply preauth_demo_reachable|].
  eapply rtc_l; [eapply (step_clear _ 7); reflexivity|].
  eapply rtc_l; [eapply (step_clear _ 7); reflexivity|].
  apply rtc_refl.
Qed.

Lemma preauth_all_cleared_witness :
  lim preauth_demo_pop_done = newPreAuthLimiter preauth_demo_limits.
Proof.
  apply (preauth_all_cleared preauth_demo_limits preauth_demo_pop_done preauth_demo_done_reachable).
  intros id s. simpl. rewrite lookup_singleton. case_decide; [|done].
  intros E. by injection E as <-.
Defined.
