(* ===== verification/KeyHolds.v ===== *)
(** * The bounds on connections between key exchange and sign-in

    [internal/mtproto/unboundkey.go] (module [Unbound]): the connections one auth
    key with nobody signed in on it may hold.  [internal/mtproto/pendinglogin.go]
    (module [Pending]): the process-wide connections waiting for a second factor,
    admitted by a compare-and-swap loop, modelled at the granularity of its atomic
    operations. *)

From S2P Require Import Prelude.

Module Unbound.

Definition DefaultMaxConnsPerUnboundKey : Z := 8.

(** Auth keys are named by their 8-byte id, read as an integer. *)
Record unboundKeyLimiter : Type := mkUnbound {
  max : Z;
  conns : gmap Z Z
}.

Definition newUnboundKeyLimiter (maxConns : Z) : unboundKeyLimiter := mkUnbound maxConns ∅.

(** [SetMaxConnsPerUnboundKey]: the error carries the refused value. *)
Definition SetMaxConnsPerUnboundKey (n : Z) : result Z unboundKeyLimiter :=
  if n <? 0 then Err n else Ok (newUnboundKeyLimiter n).

Definition unboundKeyLimiter_acquire (l : unboundKeyLimiter) (id : Z) : bool * unboundKeyLimiter :=
  if (max l >? 0) && (count_at (conns l) id >=? max l) then (false, l)
  else (true, mkUnbound (max l) (count_incr (conns l) id)).

Definition unboundKeyLimiter_release (l : unboundKeyLimiter) (id : Z) : unboundKeyLimiter :=
  mkUnbound (max l) (count_decr (conns l) id).

Record unboundKeyHold : Type := mkHold {
  key : Z;
  charged : bool;
  signedIn : bool
}.

Definition newHold : unboundKeyHold := mkHold 0 false false.

(** [release] of a hold. *)
Definition unboundKeyHold_release (h : unboundKeyHold) (l : unboundKeyLimiter)
    : unboundKeyHold * unboundKeyLimiter :=
  if negb (charged h) then (h, l)
  else (mkHold (key h) false (signedIn h), unboundKeyLimiter_release l (key h)).

(** [charge] of a hold: the answer, the hold and the limiter afterwards. *)
Definition unboundKeyHold_charge (h : unboundKeyHold) (l : unboundKeyLimiter) (id userID : Z)
    : bool * unboundKeyHold * unboundKeyLimiter :=
  if signedIn h then (true, h, l)
  else if negb (userID =? 0) then
    let '(h', l') := unboundKeyHold_release (mkHold (key h) (charged h) true) l in
    (true, h', l')
  else if charged h && (key h =? id) then (true, h, l)
  else
    let '(h', l') := unboundKeyHold_release h l in
    let '(ok, l'') := unboundKeyLimiter_acquire l' id in
    if ok then (true, mkHold id true (signedIn h'), l'') else (false, h', l'').

(** ** The connections sharing one limiter *)

Record state : Type := mkState {
  lim : unboundKeyLimiter;
  holds : gmap Z unboundKeyHold
}.

Definition init (m : Z) : state := mkState (newUnboundKeyLimiter m) ∅.

Inductive step : state -> state -> Prop :=
| step_open s c :
    holds s !! c = None ->
    step s (mkState (lim s) (<[c := newHold]> (holds s)))
| step_charge s c h id userID ok h' l' :
    holds s !! c = Some h ->
    unboundKeyHold_charge h (lim s) id userID = (ok, h', l') ->
    step s (mkState l' (<[c := h']> (holds s)))
| step_release s c h h' l' :
    holds s !! c = Some h ->
    unboundKeyHold_release h (lim s) = (h', l') ->
    step s (mkState l' (<[c := h']> (holds s)))
| step_close s c h :
    holds s !! c = Some h ->
    charged h = false ->
    step s (mkState (lim s) (delete c (holds s))).

Definition charged_to (k : Z) (h : unboundKeyHold) : bool := charged h && (key h =? k).

Record inv (s : state) : Prop := {
  ub_inv_count k : count_at (conns (lim s)) k = map_count (charged_to k) (holds s);
  ub_inv_pos : counts_pos (conns (lim s));
  ub_inv_cap k : 0 < max (lim s) -> count_at (conns (lim s)) k <= max (lim s);
  inv_signed c h : holds s !! c = Some h -> signedIn h = true -> charged h = false
}.

Lemma ub_release_inv s c h h' l' :
  inv s -> holds s !! c = Some h -> unboundKeyHold_release h (lim s) = (h', l') ->
  inv (mkState l' (<[c := h']> (holds s))) /\
  charged h' = false /\ signedIn h' = signedIn h /\ max l' = max (lim s).
Proof.
  intros I Hc E. unfold unboundKeyHold_release in E. destruct (charged h) eqn:Hch; simplify_eq/=.
  2:{ split; [|done]. rewrite insert_id by done. by destruct s. }
  destruct I as [I1 I2 I3 I4].
  assert (Hk : 1 <= count_at (conns (lim s)) (key h)).
  { rewrite I1. apply (map_count_pos _ _ c h); [done|].
    unfold charged_to. rewrite Hch. simpl. lia. }
  split; [|done].
  split; simpl; intros; auto with tg.
  - rewrite (map_count_update (charged_to k) _ c h) by done.
    rewrite count_at_decr, I1 by done.
    unfold charged_to at 3 4. rewrite Hch. simpl. case_bool_decide; simpl; lia.
  - rewrite count_at_decr by done. specialize (I3 k ltac:(done)).
    case_bool_decide; simpl; lia.
  - destruct (decide (c = c0)) as [->|Hne].
    + rewrite lookup_insert_eq in *. by simplify_eq/=.
    + rewrite lookup_insert_ne in * by done. by eapply I4.
Qed.

Lemma ub_set_signed_inv s c h :
  inv s -> holds s !! c = Some h -> charged h = false ->
  inv (mkState (lim s) (<[c := mkHold (key h) false true]> (holds s))).
Proof.
  intros [I1 I2 I3 I4] Hc Hch. split; simpl; intros; auto.
  - rewrite (map_count_update (charged_to k) _ c h) by done.
    unfold charged_to at 2 3. rewrite Hch. simpl. rewrite I1. lia.
  - rewrite lookup_insert in *. case_decide; naive_solver.
Qed.

Lemma ub_acquire_inv s c h id l' :
  inv s -> holds s !! c = Some h -> charged h = false -> signedIn h = false ->
  unboundKeyLimiter_acquire (lim s) id = (true, l') ->
  inv (mkState l' (<[c := mkHold id true false]> (holds s))).
Proof.
  intros [I1 I2 I3 I4] Hc Hch Hs E. unfold unboundKeyLimiter_acquire in E.
  destruct (_ && _) eqn:G; simplify_eq/=. split; simpl; intros; auto with tg.
  - rewrite (map_count_update (charged_to k) _ c h) by done.
    rewrite count_at_incr, I1. unfold charged_to at 3 4. rewrite Hch. simpl.
    case_bool_decide; simpl; lia.
  - rewrite count_at_incr. specialize (I3 k ltac:(done)). case_bool_decide; simpl; subst; lia.
  - rewrite lookup_insert in *. case_decide; naive_solver.
Qed.

Lemma ub_charge_inv s c h id userID ok h' l' :
  inv s -> holds s !! c = Some h -> unboundKeyHold_charge h (lim s) id userID = (ok, h', l') ->
  inv (mkState l' (<[c := h']> (holds s))).
Proof.
  intros I Hc E. unfold unboundKeyHold_charge in E. destruct (signedIn h) eqn:Hs; simplify_eq/=.
  { rewrite insert_id by done. by destruct s. }
  destruct (negb (userID =? 0)).
  { unfold unboundKeyHold_release in E; simpl in E. destruct (charged h) eqn:Hch; simplify_eq/=.
    - destruct (ub_release_inv s c h (mkHold (key h) false (signedIn h)) (unboundKeyLimiter_release (lim s) (key h)) I Hc) as [I' _].
      { unfold unboundKeyHold_release. by rewrite Hch. }
      eapply ub_set_signed_inv in I'; [|simpl; apply lookup_insert_eq|done].
      simpl in I'. by rewrite insert_insert_eq in I'.
    - by apply ub_set_signed_inv. }
  destruct (charged h && (key h =? id)); simplify_eq/=.
  { rewrite insert_id by done. by destruct s. }
  destruct (unboundKeyHold_release h (lim s)) as [h1 l1] eqn:E1.
  destruct (ub_release_inv s c h h1 l1 I Hc E1) as (I' & Hch1 & Hs1 & Hm1).
  destruct (unboundKeyLimiter_acquire l1 id) as [ok2 l2] eqn:E2. destruct ok2; simplify_eq/=.
  - apply (ub_acquire_inv _ c h1 id l') in I';
      [|apply lookup_insert_eq|done|by rewrite Hs1|done].
    simpl in I'. rewrite insert_insert_eq in I'. by rewrite Hs1, Hs.
  - unfold unboundKeyLimiter_acquire in E2. destruct (_ && _); by simplify_eq/=.
Qed.

Lemma ub_step_inv s s' : inv s -> step s s' -> inv s'.
Proof.
  intros I. destruct 1 as [s c Hc|s c h id u ok h' l' Hc E|s c h h' l' Hc E|s c h Hc Hch].
  - destruct I as [I1 I2 I3 I4]. split; simpl; auto.
    + intros k. rewrite map_count_insert by done. simpl. rewrite I1. lia.
    + intros c' h'. rewrite lookup_insert. case_decide; naive_solver.
  - by eapply ub_charge_inv.
  - by destruct (ub_release_inv s c h h' l' I Hc E).
  - destruct I as [I1 I2 I3 I4]. split; simpl; auto.
    + intros k. rewrite (map_count_delete _ _ c h) by done.
      unfold charged_to at 2. rewrite Hch. simpl. rewrite I1. lia.
    + intros c' h'. rewrite lookup_delete. case_decide; naive_solver.
Qed.

Lemma charge_max h l id u ok h' l' : unboundKeyHold_charge h l id u = (ok, h', l') -> max l' = max l.
Proof.
  unfold unboundKeyHold_charge, unboundKeyHold_release, unboundKeyLimiter_acquire,
    unboundKeyLimiter_release.
  intros E. repeat case_match; by simplify_eq/=. Qed.

Lemma ub_step_max s s' : step s s' -> max (lim s') = max (lim s).
Proof.
  destruct 1; simpl; eauto using charge_max.
  unfold unboundKeyHold_release, unboundKeyLimiter_release in *. repeat case_match; by simplify_eq/=.
Qed.

Lemma ub_reachable_inv m s : rtc step (init m) s -> inv s /\ max (lim s) = m.
Proof.
  apply (rtc_invariant (fun s => inv s /\ max (lim s) = m)).
  - intros a b [I E] S. split; [by eapply ub_step_inv|]. by rewrite (ub_step_max _ _ S).
  - split; [|done]. split; simpl; intros; rewrite ?map_count_empty;
      unfold count_at; rewrite ?lookup_empty; simpl; try lia; done.
Qed.

(** Over every interleaving of frames and closing connections, one
    auth key with nobody signed in on it never holds more than [max] connections,
    its counter is exactly the number it holds, a key with no connection has no
    entry, and a connection that signed in is charged to no key. *)
Theorem unbound_key_bound (m : Z) (s : state) (k : Z) :
  0 < m -> rtc step (init m) s ->
  map_count (charged_to k) (holds s) <= m /\
  count_at (conns (lim s)) k = map_count (charged_to k) (holds s) /\
  (map_count (charged_to k) (holds s) = 0 -> conns (lim s) !! k = None) /\
  (forall c h, holds s !! c = Some h -> signedIn h = true -> charged h = false).
Proof.
  intros Hm R. destruct (ub_reachable_inv m s R) as [I <-].
  rewrite <- (ub_inv_count s I k). split; [by apply ub_inv_cap|].
  split; [done|]. split; [|apply I].
  intros Hz. apply counts_pos_lookup; [apply I|done].
Qed.

(** When [charge] refuses: exactly when the connection has not
    signed in, the frame's key has no user, the connection is not already charged
    to that key, and, once its previous charge is given back, the key is at its
    cap.  So a session that has signed in is never refused. *)
Theorem charge_refuses_iff (h : unboundKeyHold) (l : unboundKeyLimiter) (id userID : Z) :
  (unboundKeyHold_charge h l id userID).1.1 = false <->
  signedIn h = false /\ userID = 0 /\ charged_to id h = false /\ 0 < max l /\
  max l <= count_at (conns (unboundKeyHold_release h l).2) id.
Proof.
  unfold unboundKeyHold_charge, charged_to, unboundKeyLimiter_acquire.
  destruct (signedIn h); simpl; [split; [done|by intros []]|].
  destruct (userID =? 0) eqn:Eu; simpl.
  2:{ destruct (unboundKeyHold_release _ _). simpl. split; [done|]. intros (_ & ? & _). lia. }
  destruct (charged h && (key h =? id)) eqn:Ek; simpl.
  { split; [done|]. by intros (_ & _ & ? & _). }
  destruct (unboundKeyHold_release h l) as [h' l'] eqn:E. simpl.
  assert (max l' = max l) as ->.
  { unfold unboundKeyHold_release, unboundKeyLimiter_release in E. destruct (negb (charged h)); by simplify_eq/=. }
  destruct ((max l >? 0) && (count_at (conns l') id >=? max l)) eqn:G; simpl; split; intros;
    try done; lia.
Qed.

(** ** Witness: one key at a cap of one, held by one connection *)

Definition ub_demo_state : state :=
  mkState (mkUnbound 1 {[ 42 := 1 ]}) {[ 1 := mkHold 42 true false ]}.

Lemma ub_demo_reachable : rtc step (init 1) ub_demo_state.
Proof.
  eapply rtc_l; [apply (step_open _ 1); reflexivity|].
  eapply rtc_l; [eapply (step_charge _ 1 newHold 42 0); reflexivity|].
  apply rtc_refl.
Qed.

Lemma unbound_key_bound_witness :
  map_count (charged_to 42) (holds ub_demo_state) <= 1 /\
  count_at (conns (lim ub_demo_state)) 42 = 1.
Proof.
  destruct (unbound_key_bound 1 ub_demo_state 42 eq_refl ub_demo_reachable) as (H1 & H2 & _).
  split; [exact H1|]. rewrite H2. reflexivity.
Defined.

End Unbound.

Module Pending.

Definition DefaultMaxPendingLoginConns : Z := 1024.
(** Twice the SRP challenge's five minutes. *)
Definition DefaultPendingLoginLifetime : Z := 2 * (5 * minute).

Record pendingLoginLimiter : Type := mkPending {
  max : Z;
  count : Z
}.

Definition newPendingLoginLimiter (maxConns : Z) : pendingLoginLimiter := mkPending maxConns 0.

(** [SetMaxPendingLoginConns]: the error carries the refused value. *)
Definition SetMaxPendingLoginConns (n : Z) : result Z pendingLoginLimiter :=
  if n <? 0 then Err n else Ok (newPendingLoginLimiter n).

(** What [acquire] decides after its atomic load of the counter. *)
Inductive load_result : Type :=
| Admit_disabled
| Refuse
| Try_cas (seen : Z).

Definition pendingLoginLimiter_acquire_load (l : pendingLoginLimiter) : load_result :=
  if max l <=? 0 then Admit_disabled
  else if count l >=? max l then Refuse
  else Try_cas (count l).

(** [CompareAndSwap(seen, seen+1)]: [None] sends the loop back to its load. *)
Definition pendingLoginLimiter_acquire_cas (l : pendingLoginLimiter) (seen : Z) : option pendingLoginLimiter :=
  if count l =? seen then Some (mkPending (max l) (seen + 1)) else None.

(** [acquire] when no other goroutine moves between the load and the swap. *)
Definition pendingLoginLimiter_acquire (l : pendingLoginLimiter) : bool * pendingLoginLimiter :=
  match pendingLoginLimiter_acquire_load l with
  | Admit_disabled => (true, l)
  | Refuse => (false, l)
  | Try_cas seen =>
      match pendingLoginLimiter_acquire_cas l seen with
      | Some l' => (true, l')
      | None => (false, l)
      end
  end.

Definition pendingLoginLimiter_release (l : pendingLoginLimiter) : pendingLoginLimiter :=
  if max l >? 0 then mkPending (max l) (count l - 1) else l.

(** [pendingLoginHold]: whether this connection holds a slot. *)
Definition pendingLoginHold_acquire (charged : bool) (l : pendingLoginLimiter)
    : bool * bool * pendingLoginLimiter :=
  if charged then (true, true, l)
  else
    let '(ok, l') := pendingLoginLimiter_acquire l in
    if ok then (true, true, l') else (false, false, l').

Definition pendingLoginHold_release (charged : bool) (l : pendingLoginLimiter)
    : bool * pendingLoginLimiter :=
  if negb charged then (false, l) else (false, pendingLoginLimiter_release l).

(** ** The serving goroutines, one atomic operation at a time *)

Inductive goroutine : Type :=
| Idle
| Loaded (seen : Z)
| Holding
| Refused.

Record state : Type := mkState {
  lim : pendingLoginLimiter;
  gs : gmap Z goroutine
}.

Definition init (m : Z) : state := mkState (newPendingLoginLimiter m) ∅.

(** What the load leaves the goroutine doing. *)
Definition after_load (r : load_result) : goroutine :=
  match r with
  | Admit_disabled => Holding
  | Refuse => Refused
  | Try_cas n => Loaded n
  end.

Inductive step : state -> state -> Prop :=
| step_start s g :
    gs s !! g = None ->
    step s (mkState (lim s) (<[g := Idle]> (gs s)))
| step_load s g :
    gs s !! g = Some Idle ->
    step s (mkState (lim s) (<[g := after_load (pendingLoginLimiter_acquire_load (lim s))]> (gs s)))
| step_cas_ok s g n l' :
    gs s !! g = Some (Loaded n) ->
    pendingLoginLimiter_acquire_cas (lim s) n = Some l' ->
    step s (mkState l' (<[g := Holding]> (gs s)))
| step_cas_fail s g n :
    gs s !! g = Some (Loaded n) ->
    pendingLoginLimiter_acquire_cas (lim s) n = None ->
    step s (mkState (lim s) (<[g := Idle]> (gs s)))
| step_exit_holding s g :
    gs s !! g = Some Holding ->
    step s (mkState (pendingLoginLimiter_release (lim s)) (delete g (gs s)))
| step_exit s g x :
    gs s !! g = Some x ->
    x <> Holding ->
    step s (mkState (lim s) (delete g (gs s))).

Definition holding (g : goroutine) : bool :=
  match g with
  | Holding => true
  | _ => false
  end.

(** A goroutine that loaded [n] saw room: [n] is below the cap. *)
Record inv (s : state) : Prop := {
  pl_inv_count : 0 < max (lim s) -> count (lim s) = map_count holding (gs s);
  pl_inv_cap : 0 < max (lim s) -> count (lim s) <= max (lim s);
  inv_seen g n : gs s !! g = Some (Loaded n) -> 0 < max (lim s) /\ n < max (lim s)
}.

Ltac lookup_cases :=
  repeat match goal with
  | H : <[_ := _]> _ !! _ = Some _ |- _ => rewrite lookup_insert in H; case_decide
  | H : delete _ _ !! _ = Some _ |- _ => rewrite lookup_delete in H; case_decide
  end.

Lemma pl_step_inv s s' : inv s -> step s s' -> inv s'.
Proof.
  intros I.
  destruct 1 as [s g E|s g E|s g n l' E C|s g n E C|s g E|s g x E N];
    destruct I as [I1 I2 I3]; (split; simpl; [intros Hm|intros Hm|intros g' k Hg]); try by auto.
  - rewrite map_count_insert by done. simpl. rewrite I1 by done. lia.
  - lookup_cases; [done|]. by eapply I3.
  - rewrite (map_count_update _ _ g Idle) by done. rewrite I1 by done.
    unfold pendingLoginLimiter_acquire_load. repeat case_match; simpl; lia.
  - lookup_cases; [|by eapply I3]. unfold pendingLoginLimiter_acquire_load in Hg. repeat case_match; simplify_eq/=. lia.
  - unfold pendingLoginLimiter_acquire_cas in C. destruct (_ =? _) eqn:G; simplify_eq/=.
    rewrite (map_count_update _ _ g (Loaded n)) by done. simpl. rewrite <- I1 by done. lia.
  - unfold pendingLoginLimiter_acquire_cas in C. destruct (_ =? _) eqn:G; simplify_eq/=. destruct (I3 _ _ E). lia.
  - unfold pendingLoginLimiter_acquire_cas in C. destruct (_ =? _) eqn:G; simplify_eq/=.
    lookup_cases; [done|]. by eapply I3.
  - rewrite (map_count_update _ _ g (Loaded n)) by done. simpl. rewrite I1 by done. lia.
  - lookup_cases; [done|]. by eapply I3.
  - unfold pendingLoginLimiter_release in *. destruct (_ >? _) eqn:G; simpl in *; [|lia].
    rewrite (map_count_delete _ _ g Holding) by done. simpl. rewrite <- I1 by lia. lia.
  - unfold pendingLoginLimiter_release in *. destruct (_ >? _) eqn:G; simpl in *; [|lia].
    specialize (I2 ltac:(lia)). lia.
  - unfold pendingLoginLimiter_release. lookup_cases; [done|]. destruct (_ >? _); by eapply I3.
  - rewrite (map_count_delete _ _ g x) by done. rewrite I1 by done. destruct x; try done; simpl; lia.
  - lookup_cases; [done|]. by eapply I3.
Qed.

Lemma pl_step_max s s' : step s s' -> max (lim s') = max (lim s).
Proof.
  destruct 1 as [| |s g n l' E C| | |]; simpl; try done.
  - unfold pendingLoginLimiter_acquire_cas in C. by case_match; simplify_eq.
  - unfold pendingLoginLimiter_release. by case_match.
Qed.

(** The compare-and-swap loop is one atomic admission decision: over
    every interleaving of the goroutines' loads, swaps and exits, the number that
    hold a pending-login slot never exceeds the cap and is what the counter says. *)
Theorem pending_login_bound (m : Z) (s : state) :
  0 < m -> rtc step (init m) s ->
  count (lim s) = map_count holding (gs s) /\ map_count holding (gs s) <= m.
Proof.
  intros Hm R.
  assert (inv s /\ max (lim s) = m) as [I E].
  { revert R. apply (rtc_invariant (fun s => inv s /\ max (lim s) = m)).
    - intros a b [I E] S. split; [by eapply pl_step_inv|]. by rewrite (pl_step_max _ _ S).
    - split; [|done]. split; simpl; intros; [by rewrite map_count_empty|lia|done]. }
  destruct I as [I1 I2 _]. rewrite <- I1 by lia. split; [done|]. rewrite <- E. apply I2. lia.
Qed.

(** Two goroutines both load 0; one wins the swap, the other must load again and is
    refused at the cap. *)
Definition pl_demo_state : state :=
  mkState (mkPending 1 1) {[ 1 := Holding; 2 := Refused ]}.

Lemma pl_demo_reachable : rtc step (init 1) pl_demo_state.
Proof.
  eapply rtc_l; [apply (step_start _ 1); reflexivity|].
  eapply rtc_l; [apply (step_start _ 2); reflexivity|].
  eapply rtc_l; [apply (step_load _ 1); reflexivity|].
  eapply rtc_l; [apply (step_load _ 2); reflexivity|].
  eapply rtc_l; [eapply (step_cas_ok _ 1); reflexivity|].
  eapply rtc_l; [eapply (step_cas_fail _ 2); reflexivity|].
  eapply rtc_l; [apply (step_load _ 2); reflexivity|].
  apply rtc_refl.
Qed.

Lemma pending_login_bound_witness :
  count (lim pl_demo_state) = map_count holding (gs pl_demo_state) /\
  map_count holding (gs pl_demo_state) <= 1.
Proof. exact (pending_login_bound 1 pl_demo_state eq_refl pl_demo_reachable). Defined.

End Pending.
