(* ===== verification/Registry.v ===== *)
(** * The connected-session registry

    [internal/mtproto/sessions.go]: the live connections of each user, the
    round-robin list the folder-recovery tick walks, and the bounded delivery-lag
    sample.  A [*Conn] is a connection id (0 is nil). *)

From S2P Require Import Prelude.

Definition MaxUserConns : Z := 20.
Definition deliveryLagSnapshotLimit : Z := 1024.

Record SessionRegistry : Type := mkRegistry {
  m : gmap Z (list Z);
  recoveryConns : list Z;
  recoveryCursor : Z;
  totalConns : Z
}.

Definition NewSessionRegistry : SessionRegistry := mkRegistry ∅ [] 0 0.

(** [r.m[userID]]: an absent user has the nil slice. *)
Definition user_conns (r : SessionRegistry) (userID : Z) : list Z := default [] (m r !! userID).

Definition Registry_Add (r : SessionRegistry) (userID c : Z) : bool * SessionRegistry :=
  if len (user_conns r userID) >=? MaxUserConns then (false, r)
  else
    (true,
     mkRegistry (<[userID := user_conns r userID ++ [c]]> (m r))
       (recoveryConns r ++ [c]) (recoveryCursor r) (totalConns r + 1)).

(** The first index at which a slice holds [c]. *)
Fixpoint index_of (c : Z) (l : list Z) : option nat :=
  match l with
  | [] => None
  | x :: l' => if x =? c then Some 0%nat else S <$> index_of c l'
  end.

(** The recovery list and its cursor once the entry at [i] is gone. *)
Definition recovery_remove (rc : list Z) (cursor : Z) (i : nat) : list Z * Z :=
  let rc' := delete i rc in
  if len rc' =? 0 then (rc', 0)
  else
    let cursor' := if Z.of_nat i <? cursor then cursor - 1 else cursor in
    (rc', cursor' mod len rc').

Definition Registry_Remove (r : SessionRegistry) (userID c : Z) : SessionRegistry :=
  let conns := user_conns r userID in
  let '(m1, total1) :=
    match index_of c conns with
    | Some i => (<[userID := delete i conns]> (m r), totalConns r - 1)
    | None => (m r, totalConns r)
    end in
  let '(rc1, cur1) :=
    match index_of c (recoveryConns r) with
    | Some i => recovery_remove (recoveryConns r) (recoveryCursor r) i
    | None => (recoveryConns r, recoveryCursor r)
    end in
  let m2 := if len (default [] (m1 !! userID)) =? 0 then delete userID m1 else m1 in
  mkRegistry m2 rc1 cur1 total1.

(** Slice indexing that cannot fail here: every index below is taken modulo the
    length (see [candidates_in_range]). *)
Definition at_index (l : list Z) (i : Z) : Z := nth (Z.to_nat i) l 0.

Definition DialogFilterRecoveryCandidates (r : SessionRegistry) (limit : Z)
    : list Z * SessionRegistry :=
  if limit <=? 0 then ([], r)
  else
    let count := Z.min limit (len (recoveryConns r)) in
    if count =? 0 then ([], r)
    else
      let n := len (recoveryConns r) in
      let start := recoveryCursor r mod n in
      let out := map (fun i : nat => at_index (recoveryConns r) ((start + Z.of_nat i) mod n))
                     (seq 0 (Z.to_nat count)) in
      (out, mkRegistry (m r) (recoveryConns r) ((start + count) mod n) (totalConns r)).

(** A copy: later changes of the registry do not reach it. *)
Definition Registry_Conns (r : SessionRegistry) (userID : Z) : list Z := user_conns r userID.
Definition TotalConns (r : SessionRegistry) : Z := totalConns r.
Definition TotalSessions (r : SessionRegistry) : Z := Z.of_nat (size (m r)).

(** ** The registry invariant *)

(** Every live connection, user by user. *)
Definition all_conns (mm : gmap Z (list Z)) : list Z := concat (map_to_list mm).*2.

Record reg_inv (r : SessionRegistry) : Prop := {
  reg_nonempty u l : m r !! u = Some l -> l <> [] /\ len l <= MaxUserConns;
  reg_total : totalConns r = len (all_conns (m r));
  reg_recovery : recoveryConns r ≡ₚ all_conns (m r);
  reg_cursor : 0 <= recoveryCursor r < Z.max 1 (len (recoveryConns r))
}.

Lemma all_conns_insert mm u l :
  mm !! u = None -> all_conns (<[u := l]> mm) ≡ₚ l ++ all_conns mm.
Proof. intros Hu. unfold all_conns. by rewrite map_to_list_insert by done. Qed.

Lemma all_conns_delete mm u l :
  mm !! u = Some l -> all_conns mm ≡ₚ l ++ all_conns (delete u mm).
Proof.
  intros Hu. rewrite <- (insert_id mm u l) at 1 by done.
  rewrite <- insert_delete_eq. by rewrite all_conns_insert by apply lookup_delete_eq.
Qed.

Lemma all_conns_user r u :
  all_conns (m r) ≡ₚ user_conns r u ++ all_conns (delete u (m r)).
Proof.
  unfold user_conns. destruct (m r !! u) as [l|] eqn:E; simpl.
  - by apply all_conns_delete.
  - by rewrite delete_id by done.
Qed.

Lemma all_conns_set mm u l :
  all_conns (<[u := l]> mm) ≡ₚ l ++ all_conns (delete u mm).
Proof.
  rewrite <- insert_delete_eq. apply all_conns_insert, lookup_delete_eq.
Qed.

Lemma index_of_Some c l i :
  index_of c l = Some i -> l !! i = Some c.
Proof.
  revert i. induction l as [|x l IH]; intros i E; simpl in *; [done|].
  destruct (x =? c) eqn:Ex; simplify_eq/=; [f_equal; lia|].
  destruct (index_of c l) as [j|]; simplify_eq/=. by apply IH.
Qed.

Lemma index_of_None c l : index_of c l = None <-> c ∉ l.
Proof.
  induction l as [|x l IH]; simpl; [split; [intros _; apply not_elem_of_nil|done]|].
  rewrite not_elem_of_cons. destruct (x =? c) eqn:Ex.
  - split; [done|]. intros [Hne _]. lia.
  - rewrite fmap_None, IH. split; [intros; split; [lia|done]|by intros [_ ?]].
Qed.

Lemma index_of_is_Some c l : c ∈ l -> exists i, index_of c l = Some i.
Proof.
  intros Hc. destruct (index_of c l) eqn:E; [eauto|]. by apply index_of_None in E.
Qed.

Lemma delete_perm (l : list Z) i c : l !! i = Some c -> l ≡ₚ c :: delete i l.
Proof. intros E. by apply delete_Permutation. Qed.

Lemma NewSessionRegistry_inv : reg_inv NewSessionRegistry.
Proof. split; simpl; try done. Qed.

Lemma user_conns_cap r u : reg_inv r -> len (user_conns r u) <= MaxUserConns.
Proof.
  intros I. unfold user_conns. destruct (m r !! u) eqn:E; simpl.
  - by apply (reg_nonempty r I u).
  - unfold len, MaxUserConns. simpl. lia.
Qed.

Lemma Registry_Add_inv r u c ok r' :
  reg_inv r -> Registry_Add r u c = (ok, r') -> reg_inv r'.
Proof.
  intros I E. unfold Registry_Add in E. destruct (_ >=? _) eqn:G; simplify_eq/=; [done|].
  pose proof I as [I1 I2 I3 I4].
  assert (Hperm : all_conns (<[u := user_conns r u ++ [c]]> (m r)) ≡ₚ all_conns (m r) ++ [c]).
  { rewrite all_conns_set, (all_conns_user r u). by rewrite <- !app_assoc, (Permutation_app_comm [c]). }
  split; simpl.
  - intros v l. rewrite lookup_insert. case_decide; [|by apply I1]. intros [= <-].
    split; [by destruct (user_conns r u)|]. rewrite len_app. unfold len at 2. simpl. lia.
  - rewrite (len_perm _ _ Hperm), len_app, I2. done.
  - by rewrite Hperm, I3.
  - rewrite len_app. unfold len at 2. simpl. pose proof (len_nonneg (recoveryConns r)). lia.
Qed.

Lemma recovery_remove_cursor rc cursor i :
  (i < length rc)%nat -> 0 <= cursor < Z.max 1 (len rc) ->
  0 <= (recovery_remove rc cursor i).2 < Z.max 1 (len (recovery_remove rc cursor i).1).
Proof.
  intros Hi Hc. unfold recovery_remove. destruct (len (delete i rc) =? 0) eqn:E; simpl; [lia|].
  pose proof (len_nonneg (delete i rc)).
  pose proof (Z.mod_pos_bound (if Z.of_nat i <? cursor then cursor - 1 else cursor) (len (delete i rc))).
  lia.
Qed.

Lemma recovery_remove_list rc cursor i : (recovery_remove rc cursor i).1 = delete i rc.
Proof. unfold recovery_remove. by destruct (_ =? _). Qed.

(** Dropping a user with no connection left changes no connection. *)
Lemma all_conns_prune mm u :
  all_conns (if len (default [] (mm !! u)) =? 0 then delete u mm else mm) ≡ₚ all_conns mm.
Proof.
  destruct (len _ =? 0) eqn:E; [|done].
  assert (Hz : default [] (mm !! u) = []) by (apply len_zero; lia).
  destruct (mm !! u) as [l|] eqn:Eu; simpl in Hz.
  - subst l. by rewrite (all_conns_delete mm u [] Eu).
  - by rewrite delete_id by done.
Qed.

Lemma Registry_Remove_inv r u c :
  reg_inv r -> c ∈ user_conns r u -> reg_inv (Registry_Remove r u c).
Proof.
  intros I Hc. pose proof I as [I1 I2 I3 I4].
  destruct (index_of_is_Some c (user_conns r u) Hc) as [i Ei].
  assert (Hall : c ∈ all_conns (m r)) by (rewrite (all_conns_user r u); apply elem_of_app; by left).
  destruct (index_of_is_Some c (recoveryConns r)) as [j Ej]; [by rewrite I3|].
  unfold Registry_Remove. rewrite Ei, Ej.
  destruct (recovery_remove (recoveryConns r) (recoveryCursor r) j) as [rc1 cur1] eqn:Er.
  pose proof (index_of_Some _ _ _ Ei) as Hi. pose proof (index_of_Some _ _ _ Ej) as Hj.
  assert (Hrc : rc1 = delete j (recoveryConns r)).
  { pose proof (recovery_remove_list (recoveryConns r) (recoveryCursor r) j) as H. by rewrite Er in H. }
  set (m1 := <[u := delete i (user_conns r u)]> (m r)).
  assert (Hperm : all_conns (m r) ≡ₚ c :: all_conns m1).
  { unfold m1. rewrite all_conns_set, (all_conns_user r u).
    by rewrite (delete_perm _ _ _ Hi) at 1. }
  set (m2 := if len (default [] (m1 !! u)) =? 0 then delete u m1 else m1).
  assert (Hm2 : all_conns m2 ≡ₚ all_conns m1) by apply all_conns_prune.
  split; simpl; fold m1 m2.
  - intros v l Hv. unfold m2, m1 in Hv. rewrite lookup_insert_eq in Hv. simpl in Hv.
    assert (len (delete i (user_conns r u)) <= len (user_conns r u)).
    { unfold len. pose proof (length_delete (user_conns r u) i ltac:(eauto)). lia. }
    pose proof (user_conns_cap r u I).
    destruct (len (delete i (user_conns r u)) =? 0) eqn:Ez.
    + rewrite lookup_delete in Hv. case_decide; [done|].
      rewrite lookup_insert_ne in Hv by done. by apply (I1 v).
    + rewrite lookup_insert in Hv. case_decide; [|by apply (I1 v)].
      injection Hv as <-. split; [|lia]. intros E. rewrite E in Ez. done.
  - rewrite (len_perm _ _ Hm2), I2, (len_perm _ _ Hperm). unfold len. simpl. lia.
  - rewrite Hm2. apply (Permutation_cons_inv (a := c)). rewrite <- Hperm, <- I3, Hrc.
    symmetry. by apply delete_perm.
  - pose proof (recovery_remove_cursor (recoveryConns r) (recoveryCursor r) j) as H.
    rewrite Er in H. simpl in H. apply H; [|done]. by eapply lookup_lt_Some.
Qed.

Lemma candidates_inv r limit out r' :
  reg_inv r -> DialogFilterRecoveryCandidates r limit = (out, r') -> reg_inv r'.
Proof.
  intros I E. unfold DialogFilterRecoveryCandidates in E.
  destruct (limit <=? 0) eqn:G1; simplify_eq/=; [done|].
  destruct (Z.min limit (len (recoveryConns r)) =? 0) eqn:G2; simplify_eq/=; [done|].
  destruct I as [I1 I2 I3 I4]. split; simpl; auto.
  pose proof (len_nonneg (recoveryConns r)).
  pose proof (Z.mod_pos_bound (recoveryCursor r mod len (recoveryConns r)
     + Z.min limit (len (recoveryConns r))) (len (recoveryConns r))). lia.
Qed.

(** ** The registry over its life *)

(** The critical sections of [r.mu].  [Remove] is called by the connection that is
    registered (see [serveConn]'s [bind]). *)
Inductive reg_step : SessionRegistry -> SessionRegistry -> Prop :=
| reg_add r u c ok r' : Registry_Add r u c = (ok, r') -> reg_step r r'
| reg_remove r u c : c ∈ user_conns r u -> reg_step r (Registry_Remove r u c)
| reg_tick r limit out r' : DialogFilterRecoveryCandidates r limit = (out, r') -> reg_step r r'.

Lemma reg_reachable_inv r : rtc reg_step NewSessionRegistry r -> reg_inv r.
Proof.
  apply rtc_invariant; [|apply NewSessionRegistry_inv].
  intros a b I S. revert I. destruct S as [r1 u c ok r' E|r1 u c Hc|r1 limit out r' E]; intros I.
  - by eapply Registry_Add_inv.
  - by apply Registry_Remove_inv.
  - by eapply candidates_inv.
Qed.

(** However connections come and go, no user holds more than
    [MaxUserConns] of them, no user without one is kept, the O(1) total is exactly
    the number registered, the recovery list holds exactly those connections, and
    the round-robin cursor stays inside it. *)
Theorem registry_consistent (r : SessionRegistry) (u : Z) :
  rtc reg_step NewSessionRegistry r ->
  len (Registry_Conns r u) <= MaxUserConns /\
  (Registry_Conns r u = [] <-> m r !! u = None) /\
  TotalConns r = len (all_conns (m r)) /\
  recoveryConns r ≡ₚ all_conns (m r) /\
  0 <= recoveryCursor r < Z.max 1 (len (recoveryConns r)).
Proof.
  intros R. apply reg_reachable_inv in R as I.
  split; [by apply user_conns_cap|]. split; [|by destruct I].
  unfold Registry_Conns, user_conns. destruct (m r !! u) as [l|] eqn:E; simpl; [|done].
  destruct (reg_nonempty r I u l E). split; [done|]. by intros ?.
Qed.

(** ** Fairness of the recovery tick *)

(** [k] ticks with the same limit: everything they returned, in order. *)
Fixpoint ticks (k : nat) (limit : Z) (r : SessionRegistry) : list Z * SessionRegistry :=
  match k with
  | O => ([], r)
  | S k' =>
      let '(out, r1) := DialogFilterRecoveryCandidates r limit in
      let '(rest, r2) := ticks k' limit r1 in
      (out ++ rest, r2)
  end.

(** The connection [i] places after the cursor, cyclically. *)
Definition cyclic (r : SessionRegistry) (i : nat) : Z :=
  at_index (recoveryConns r)
    ((recoveryCursor r + Z.of_nat i) mod len (recoveryConns r)).

Lemma candidates_window r limit :
  0 < limit -> recoveryConns r <> [] ->
  let c := Z.min limit (len (recoveryConns r)) in
  DialogFilterRecoveryCandidates r limit =
    (map (cyclic r) (seq 0 (Z.to_nat c)),
     mkRegistry (m r) (recoveryConns r)
       ((recoveryCursor r + c) mod len (recoveryConns r)) (totalConns r)).
Proof.
  intros Hl Hne c. assert (0 < len (recoveryConns r)).
  { destruct (recoveryConns r); [done|]. unfold len. simpl. lia. }
  unfold DialogFilterRecoveryCandidates.
  destruct (limit <=? 0) eqn:G1; [lia|]. fold c. destruct (c =? 0) eqn:G2; [lia|].
  f_equal.
  - apply map_ext. intros i. unfold cyclic. by rewrite Z.add_mod_idemp_l by lia.
  - by rewrite Z.add_mod_idemp_l by lia.
Qed.

Lemma seq_map_shift (f : nat -> Z) a n : map f (seq a n) = map (fun i => f (a + i)%nat) (seq 0 n).
Proof.
  revert a. induction n as [|n IH]; intros a; simpl; [done|].
  rewrite Nat.add_0_r. f_equal. rewrite (IH (S a)), <- seq_shift, map_map.
  apply map_ext. intros i. f_equal. lia.
Qed.

Lemma cyclic_advance r c i :
  recoveryConns r <> [] ->
  cyclic (mkRegistry (m r) (recoveryConns r)
            ((recoveryCursor r + Z.of_nat c) mod len (recoveryConns r)) (totalConns r)) i
  = cyclic r (c + i).
Proof.
  intros Hne. assert (0 < len (recoveryConns r)).
  { destruct (recoveryConns r); [done|]. unfold len. simpl. lia. }
  unfold cyclic. simpl. rewrite Z.add_mod_idemp_l by lia. do 2 f_equal. lia.
Qed.

(** [k] ticks return the [k * count] connections that follow the cursor. *)
Lemma ticks_window k limit r :
  0 < limit -> recoveryConns r <> [] ->
  (ticks k limit r).1 =
    map (cyclic r) (seq 0 (k * Z.to_nat (Z.min limit (len (recoveryConns r))))).
Proof.
  intros Hl. revert r. induction k as [|k IH]; intros r Hne; [done|].
  set (c := Z.to_nat (Z.min limit (len (recoveryConns r)))).
  cbn [ticks]. rewrite candidates_window by done. fold c.
  assert (Hc : Z.min limit (len (recoveryConns r)) = Z.of_nat c)
    by (unfold c; pose proof (len_nonneg (recoveryConns r)); lia).
  rewrite Hc. set (r1 := mkRegistry _ _ _ _).
  destruct (ticks k limit r1) as [rest r2] eqn:E. cbn [fst].
  assert (Hrest : rest = map (cyclic r1) (seq 0 (k * c))).
  { specialize (IH r1 Hne). rewrite E in IH. exact IH. }
  replace (S k * c)%nat with (c + k * c)%nat by lia.
  rewrite seq_app, map_app. f_equal. rewrite Hrest, seq_map_shift. simpl.
  rewrite (seq_map_shift (cyclic r) c). apply map_ext. intros i.
  unfold r1. by apply cyclic_advance.
Qed.

Lemma at_index_lookup l i c : l !! i = Some c -> at_index l (Z.of_nat i) = c.
Proof.
  intros E. unfold at_index. rewrite Nat2Z.id. rewrite nth_lookup. by rewrite E.
Qed.

(** The recovery tick starves nobody: with any positive limit,
    whatever the cursor, [ceil(n / limit)] ticks over a registry of [n]
    connections return every one of them. *)
Theorem recovery_ticks_cover (r : SessionRegistry) (limit : Z) (k : nat) (c : Z) :
  0 < limit -> 0 <= recoveryCursor r ->
  len (recoveryConns r) <= Z.of_nat k * limit ->
  c ∈ recoveryConns r -> c ∈ (ticks k limit r).1.
Proof.
  intros Hl Hcur Hk Hc.
  assert (Hne : recoveryConns r <> []) by (intros E; rewrite E in Hc; by apply not_elem_of_nil in Hc).
  rewrite ticks_window by done.
  apply list_elem_of_lookup in Hc as [j Hj]. pose proof (lookup_lt_Some _ _ _ Hj) as Hlt.
  set (n := len (recoveryConns r)) in *.
  assert (Hn : 0 < n /\ Z.of_nat j < n) by (unfold n, len; lia).
  set (d := Z.to_nat ((Z.of_nat j - recoveryCursor r) mod n)).
  assert (Hd : Z.of_nat d = (Z.of_nat j - recoveryCursor r) mod n).
  { unfold d. pose proof (Z.mod_pos_bound (Z.of_nat j - recoveryCursor r) n). lia. }
  pose proof (Z.mod_pos_bound (Z.of_nat j - recoveryCursor r) n ltac:(lia)) as Hb.
  apply list_elem_of_In, in_map_iff. exists d. split.
  - unfold cyclic. fold n. rewrite Hd, Z.add_mod_idemp_r by lia.
    replace (recoveryCursor r + (Z.of_nat j - recoveryCursor r)) with (Z.of_nat j) by lia.
    rewrite Z.mod_small by lia. by apply at_index_lookup.
  - apply in_seq. split; [lia|]. simpl.
    assert (1 <= Z.of_nat k) by (destruct k; lia).
    assert (n <= Z.of_nat k * Z.min limit n)
      by (destruct (Z.min_spec limit n) as [[_ ->]|[_ ->]]; nia).
    assert (Z.of_nat (k * Z.to_nat (Z.min limit n)) = Z.of_nat k * Z.min limit n)
      by (rewrite Nat2Z.inj_mul, Z2Nat.id; lia).
    lia.
Qed.

(** ** The delivery-lag sample

    [SampleDeliveryLag] with a context and a callback that are not nil. *)

Record DeliveryLagSample : Type := mkSample {
  EligibleConnections : Z;
  SampledConnections : Z;
  WorstPts : Z;
  Complete : bool
}.

Definition ctx_Err (ctx : option nat) : bool * option nat :=
  match ctx with
  | None => (false, None)
  | Some O => (true, Some O)
  | Some (S n) => (false, Some n)
  end.

(** [tryLock] against a lock that is taken for its first [busy] attempts; the wait
    between attempts ends early when the context does. *)
Fixpoint tryLock (busy : nat) (ctx : option nat) : bool * option nat :=
  let '(err, ctx1) := ctx_Err ctx in
  if err then (false, ctx1)
  else
    match busy with
    | O => (true, ctx1)
    | S busy' =>
        let '(cancelled, ctx2) := ctx_Err ctx1 in
        if cancelled then (false, ctx2) else tryLock busy' ctx2
    end.

(** The inner loop of the snapshot: one owner's connections, up to [limit] in all;
    the flag is false when the context ended the walk. *)
Fixpoint snapshot_owner (limit : Z) (owner : Z) (conns : list Z)
    (acc : list (Z * Z)) (ctx : option nat) : list (Z * Z) * bool * option nat :=
  match conns with
  | [] => (acc, true, ctx)
  | c :: conns' =>
      if len acc <? limit then
        let '(err, ctx1) := ctx_Err ctx in
        if err then (acc, false, ctx1)
        else snapshot_owner limit owner conns' (acc ++ [(owner, c)]) ctx1
      else (acc, true, ctx)
  end.

Fixpoint snapshot_walk (limit : Z) (entries : list (Z * list Z))
    (acc : list (Z * Z)) (ctx : option nat) : list (Z * Z) * bool * option nat :=
  match entries with
  | [] => (acc, true, ctx)
  | (owner, conns) :: entries' =>
      let '(acc1, alive, ctx1) := snapshot_owner limit owner conns acc ctx in
      if negb alive then (acc1, false, ctx1)
      else if len acc1 =? limit then (acc1, true, ctx1)
      else snapshot_walk limit entries' acc1 ctx1
  end.

(** [entries] is the registry's map in the order this [range] happened to visit it. *)
Definition deliveryLagSnapshot (r : SessionRegistry) (entries : list (Z * list Z))
    (busy : nat) (ctx : option nat) : list (Z * Z) * Z * bool * option nat :=
  let '(locked, ctx1) := tryLock busy ctx in
  if negb locked then ([], totalConns r, false, ctx1)
  else
    let eligible := totalConns r in
    let '(err, ctx2) := ctx_Err ctx1 in
    if err then ([], eligible, false, ctx2)
    else
      let limit := Z.min eligible deliveryLagSnapshotLimit in
      let '(conns, alive, ctx3) := snapshot_walk limit entries [] ctx2 in
      (conns, eligible, alive, ctx3).

(** The loop's state: the heads read so far, and the accounts read, newest first. *)
Record sampling : Type := mkSampling {
  heads : gmap Z (option Z);
  reads : list Z;
  sampled : Z;
  worst : Z;
  complete : bool
}.

Section sample.
(** [accountHead] may answer differently each time it is asked; [None] is an error.
    [watermark] is [LastPushedPts] of a connection. *)
Context (accountHead : nat -> Z -> option Z) (watermark : Z -> Z).

(** The head of [owner]: cached, or read now and, unless the context ended
    meanwhile, cached. *)
Definition read_head (s : sampling) (owner : Z) (ctx : option nat)
    : option (option Z) * sampling * option nat :=
  match heads s !! owner with
  | Some h => (Some h, s, ctx)
  | None =>
      let h := accountHead (length (reads s)) owner in
      let s1 := mkSampling (heads s) (owner :: reads s) (sampled s) (worst s) (complete s) in
      let '(err, ctx1) := ctx_Err ctx in
      if err then (None, s1, ctx1)
      else (Some h, mkSampling (<[owner := h]> (heads s)) (reads s1) (sampled s) (worst s) (complete s), ctx1)
  end.

Definition stop_sampling (s : sampling) : sampling :=
  mkSampling (heads s) (reads s) (sampled s) (worst s) false.

Definition count_lag (s : sampling) (head c : Z) : sampling :=
  let lag := head - watermark c in
  mkSampling (heads s) (reads s) (sampled s + 1)
    (if head <=? watermark c then worst s
     else if lag >? worst s then lag else worst s)
    (complete s).

Fixpoint sample_loop (conns : list (Z * Z)) (s : sampling) (ctx : option nat)
    : sampling * option nat :=
  match conns with
  | [] => (s, ctx)
  | (owner, c) :: conns' =>
      let '(err, ctx1) := ctx_Err ctx in
      if err then (stop_sampling s, ctx1)
      else
        match read_head s owner ctx1 with
        | (None, s1, ctx2) => (stop_sampling s1, ctx2)
        | (Some None, s1, ctx2) => sample_loop conns' s1 ctx2
        | (Some (Some head), s1, ctx2) =>
            if c =? 0 then sample_loop conns' s1 ctx2
            else
              let '(err2, ctx3) := ctx_Err ctx2 in
              if err2 then (stop_sampling s1, ctx3)
              else sample_loop conns' (count_lag s1 head c) ctx3
        end
  end.

Definition SampleDeliveryLag (r : SessionRegistry) (entries : list (Z * list Z))
    (busy : nat) (ctx : option nat) : DeliveryLagSample * list Z :=
  let '(conns, eligible, comp, ctx1) := deliveryLagSnapshot r entries busy ctx in
  if len conns =? 0 then (mkSample eligible 0 0 comp, [])
  else
    let '(s, ctx2) := sample_loop conns (mkSampling ∅ [] 0 0 comp) ctx1 in
    let '(err, _) := ctx_Err ctx2 in
    (mkSample eligible (sampled s) (worst s) (if err then false else complete s), reads s).
End sample.

(** *** What bounds every sample *)

Lemma snapshot_owner_len limit o conns acc ctx :
  len acc <= limit -> len (snapshot_owner limit o conns acc ctx).1.1 <= limit.
Proof.
  revert acc ctx. induction conns as [|c conns IH]; intros acc ctx H; simpl; [done|].
  destruct (len acc <? limit) eqn:G; [|done]. destruct (ctx_Err ctx) as [[] ctx1]; [done|].
  apply IH. rewrite len_app. unfold len at 2. simpl. lia.
Qed.

Lemma snapshot_walk_len limit entries acc ctx :
  len acc <= limit -> len (snapshot_walk limit entries acc ctx).1.1 <= limit.
Proof.
  revert acc ctx. induction entries as [|[o conns] es IH]; intros acc ctx H; simpl; [done|].
  pose proof (snapshot_owner_len limit o conns acc ctx H) as Ho.
  destruct (snapshot_owner limit o conns acc ctx) as [[acc1 alive] ctx1]. simpl in Ho.
  destruct alive; simpl; [|done]. destruct (len acc1 =? limit); [done|]. by apply IH.
Qed.

Lemma deliveryLagSnapshot_len r entries busy ctx :
  0 <= totalConns r ->
  len (deliveryLagSnapshot r entries busy ctx).1.1.1 <= Z.min (totalConns r) deliveryLagSnapshotLimit.
Proof.
  intros Ht. unfold deliveryLagSnapshot, deliveryLagSnapshotLimit.
  destruct (tryLock busy ctx) as [[] ctx1]; simpl; [|unfold len; simpl; lia].
  destruct (ctx_Err ctx1) as [[] ctx2]; simpl; [unfold len; simpl; lia|].
  pose proof (snapshot_walk_len (Z.min (totalConns r) 1024) entries [] ctx2) as H.
  destruct (snapshot_walk _ _ _ _) as [[conns alive] ctx3]. simpl in *.
  apply H. unfold len. simpl. lia.
Qed.

Definition reads_cached (s : sampling) : Prop :=
  NoDup (reads s) /\ forall o, o ∈ reads s -> is_Some (heads s !! o).

Lemma read_head_spec ah s o ctx oh s' ctx' :
  reads_cached s -> read_head ah s o ctx = (oh, s', ctx') ->
  NoDup (reads s') /\ sampled s' = sampled s /\ worst s' = worst s /\
  (is_Some oh -> reads_cached s').
Proof.
  intros [Hn Hc] E. unfold read_head in E. destruct (heads s !! o) eqn:Eo; simplify_eq/=.
  { by repeat split. }
  assert (Hno : o ∉ reads s) by (intros Hin; destruct (Hc o Hin); congruence).
  assert (Hcons : NoDup (o :: reads s)) by (by apply NoDup_cons).
  destruct (ctx_Err ctx) as [[] ctx1]; simplify_eq/=; (split; [done|split; [done|split; [done|]]]).
  { by intros [? ?]. }
  intros _. split; [done|]. intros o'. simpl. rewrite elem_of_cons, lookup_insert.
  case_decide; [by eauto|]. intros [->|]; [done|by apply Hc].
Qed.

Lemma sample_loop_bounds ah wm conns s ctx :
  reads_cached s -> 0 <= worst s ->
  let s' := (sample_loop ah wm conns s ctx).1 in
  sampled s <= sampled s' <= sampled s + len conns /\ 0 <= worst s' /\ NoDup (reads s').
Proof.
  revert s ctx. induction conns as [|[o c] conns IH]; intros s ctx Hr Hw; simpl.
  { unfold len. simpl. destruct Hr. repeat split; try done; lia. }
  assert (Hlen : len ((o, c) :: conns) = len conns + 1) by (unfold len; simpl; lia).
  pose proof (len_nonneg conns). rewrite Hlen.
  destruct (ctx_Err ctx) as [[] ctx1]; simpl; [destruct Hr; repeat split; try done; lia|].
  destruct (read_head ah s o ctx1) as [[oh s1] ctx2] eqn:E.
  destruct (read_head_spec _ _ _ _ _ _ _ Hr E) as (Hn & Hs & Hww & Hcached).
  destruct oh as [[head|]|]; simpl.
  - specialize (Hcached ltac:(eauto)). destruct (c =? 0).
    { specialize (IH s1 ctx2 Hcached ltac:(lia)). simpl in IH. destruct IH as (? & ? & ?). repeat split; try done; lia. }
    destruct (ctx_Err ctx2) as [[] ctx3]; simpl; [repeat split; try done; lia|].
    specialize (IH (count_lag wm s1 head c) ctx3 Hcached).
    assert (0 <= worst (count_lag wm s1 head c)) by (simpl; repeat case_match; lia).
    specialize (IH ltac:(done)). simpl in IH. destruct IH as (? & ? & ?). repeat split; try done; lia.
  - specialize (IH s1 ctx2 (Hcached ltac:(eauto)) ltac:(lia)). simpl in IH. destruct IH as (? & ? & ?). repeat split; try done; lia.
  - repeat split; try done; lia.
Qed.

(** Whatever order the map is walked in, however contended the lock,
    whenever the context ends and whatever the account reads answer, a sample
    counts at most [min(eligible, 1024)] connections, never reports a negative lag,
    and asks for each account's head at most once. *)
Theorem SampleDeliveryLag_bounds (ah : nat -> Z -> option Z) (wm : Z -> Z)
    (r : SessionRegistry) (entries : list (Z * list Z)) (busy : nat) (ctx : option nat) :
  0 <= totalConns r ->
  let '(s, rd) := SampleDeliveryLag ah wm r entries busy ctx in
  EligibleConnections s = TotalConns r /\
  0 <= SampledConnections s <= Z.min (TotalConns r) deliveryLagSnapshotLimit /\
  0 <= WorstPts s /\ NoDup rd.
Proof.
  intros Ht. unfold SampleDeliveryLag, TotalConns.
  pose proof (deliveryLagSnapshot_len r entries busy ctx Ht) as Hl.
  assert (He : (deliveryLagSnapshot r entries busy ctx).1.1.2 = totalConns r).
  { unfold deliveryLagSnapshot. by repeat (case_match; simpl). }
  destruct (deliveryLagSnapshot r entries busy ctx) as [[[conns eligible] comp] ctx1].
  simpl in *. subst eligible.
  destruct (len conns =? 0) eqn:Ez; simpl.
  { split; [done|]. split; [unfold deliveryLagSnapshotLimit in *; lia|]. split; [lia|constructor]. }
  pose proof (sample_loop_bounds ah wm conns (mkSampling ∅ [] 0 0 comp) ctx1) as Hb.
  destruct (sample_loop ah wm conns _ ctx1) as [s ctx2]. simpl in Hb.
  destruct Hb as (Hs & Hw & Hn); [split; [constructor|by intros o ?%not_elem_of_nil]|done|].
  destruct (ctx_Err ctx2). simpl. repeat split; try done; lia.
Qed.

(** *** What an uninterrupted sample says *)

(** Every (owner, connection) pair of the entries walked. *)
Definition pairs (entries : list (Z * list Z)) : list (Z * Z) :=
  flat_map (fun e => map (pair e.1) e.2) entries.

Lemma snapshot_owner_all limit o conns acc :
  len acc + len conns <= limit ->
  snapshot_owner limit o conns acc None = (acc ++ map (pair o) conns, true, None).
Proof.
  revert acc. induction conns as [|c conns IH]; intros acc H; simpl.
  - by rewrite app_nil_r.
  - assert (len (c :: conns) = len conns + 1) by (unfold len; simpl; lia).
    pose proof (len_nonneg conns). destruct (len acc <? limit) eqn:G; [|lia].
    rewrite IH; [|rewrite len_app; unfold len at 2; simpl; lia].
    by rewrite <- app_assoc.
Qed.

Lemma snapshot_walk_all limit entries acc :
  len acc + len (pairs entries) = limit ->
  snapshot_walk limit entries acc None = (acc ++ pairs entries, true, None).
Proof.
  revert acc. induction entries as [|[o conns] es IH]; intros acc H; cbn [pairs flat_map] in *.
  - simpl. by rewrite app_nil_r.
  - rewrite len_app in H. simpl in H. fold (pairs es) in *.
    assert (Hm : len (map (pair o) conns) = len conns) by (unfold len; by rewrite length_map).
    pose proof (len_nonneg (pairs es)). simpl. rewrite snapshot_owner_all by lia. simpl.
    assert (Ha : len (acc ++ map (pair o) conns) = len acc + len conns) by (rewrite len_app; lia).
    destruct (len (acc ++ map (pair o) conns) =? limit) eqn:G.
    + assert (pairs es = []) as -> by (apply len_zero; lia). by rewrite app_nil_r.
    + rewrite IH by lia. by rewrite app_assoc.
Qed.

(** The largest lag of a list of connections, 0 when none is behind. *)
Definition max_lag (h wm : Z -> Z) (conns : list (Z * Z)) : Z :=
  foldr (fun oc w => Z.max (h oc.1 - wm oc.2) w) 0 conns.

Lemma max_lag_nonneg h wm conns : 0 <= max_lag h wm conns.
Proof. induction conns as [|oc conns IH]; simpl; lia. Qed.

Lemma sample_loop_all (h wm : Z -> Z) conns s :
  (forall o hd, heads s !! o = Some hd -> hd = Some (h o)) ->
  0 <= worst s ->
  Forall (fun oc => oc.2 <> 0) conns ->
  let s' := (sample_loop (fun _ o => Some (h o)) wm conns s None).1 in
  sampled s' = sampled s + len conns /\
  worst s' = Z.max (worst s) (max_lag h wm conns) /\
  complete s' = complete s /\
  (sample_loop (fun _ o => Some (h o)) wm conns s None).2 = None.
Proof.
  revert s. induction conns as [|[o c] conns IH]; intros s Hh Hw Hn.
  - simpl. unfold len. simpl. repeat split; lia.
  - inversion Hn as [|? ? Hc Hn']; subst. simpl in Hc. cbn [sample_loop ctx_Err].
    assert (Er : exists s1, read_head (fun _ o => Some (h o)) s o None = (Some (Some (h o)), s1, None)
      /\ sampled s1 = sampled s /\ worst s1 = worst s /\ complete s1 = complete s
      /\ forall o' hd, heads s1 !! o' = Some hd -> hd = Some (h o')).
    { unfold read_head. destruct (heads s !! o) as [hd|] eqn:E; simpl.
      - exists s. by rewrite (Hh o hd E).
      - eexists. split; [done|]. repeat split. intros o' hd. simpl. rewrite lookup_insert.
        case_decide; [by intros [= <-]; subst|apply Hh]. }
    destruct Er as (s1 & -> & Es & Ew & Ec & Hh1). rewrite (proj2 (Z.eqb_neq c 0) Hc). simpl.
    specialize (IH (count_lag wm s1 (h o) c)). simpl in IH.
    destruct IH as (I1 & I2 & I3 & I4); [done|repeat case_match; lia|done|].
    rewrite I1, I2, I3, I4. pose proof (max_lag_nonneg h wm conns).
    assert (len ((o, c) :: conns) = len conns + 1) by (unfold len; simpl; lia).
    repeat split; try lia. repeat case_match; lia.
Qed.

Lemma pairs_length entries : len (pairs entries) = len (concat entries.*2).
Proof.
  induction entries as [|[o l] es IH]; [done|]. cbn [pairs flat_map]. fold (pairs es).
  rewrite fmap_cons. cbn [concat]. rewrite !len_app, IH. unfold len. simpl. by rewrite length_map.
Qed.

(** A sample nothing interrupts tells the truth: over a registry of
    at most 1024 connections it samples every one, is complete, and its worst lag is
    the maximum over all connections of the account head minus the connection's
    watermark (0 when nobody is behind). *)
Theorem SampleDeliveryLag_exact (h wm : Z -> Z) (r : SessionRegistry)
    (entries : list (Z * list Z)) (busy : nat) :
  reg_inv r -> entries ≡ₚ map_to_list (m r) ->
  totalConns r <= deliveryLagSnapshotLimit ->
  Forall (fun oc => oc.2 <> 0) (pairs entries) ->
  (SampleDeliveryLag (fun _ o => Some (h o)) wm r entries busy None).1 =
    mkSample (TotalConns r) (TotalConns r) (max_lag h wm (pairs entries)) true.
Proof.
  intros I Hp Hcap Hn.
  assert (Hlen : len (pairs entries) = totalConns r).
  { rewrite (reg_total r I), pairs_length. apply len_perm. unfold all_conns. by rewrite Hp. }
  assert (Hlock : tryLock busy None = (true, None)) by (by induction busy).
  unfold SampleDeliveryLag, deliveryLagSnapshot, TotalConns. rewrite Hlock. simpl.
  rewrite Z.min_l by done. rewrite snapshot_walk_all by (unfold len at 1; simpl; lia). simpl.
  rewrite Hlen. destruct (totalConns r =? 0) eqn:Ez; simpl.
  - assert (pairs entries = []) as -> by (apply len_zero; lia). simpl. f_equal; lia.
  - destruct (sample_loop_all h wm (pairs entries) (mkSampling ∅ [] 0 0 true)) as (E1 & E2 & E3 & E4);
      [done|done|done|].
    destruct (sample_loop _ wm (pairs entries) _ None) as [s ctx2]. simpl in *. subst ctx2. simpl.
    pose proof (max_lag_nonneg h wm (pairs entries)). f_equal; [lia|lia|done].
Qed.

(** ** Witnesses: user 5 with connections 11 and 12, user 6 with connection 13 *)

Definition demo_registry : SessionRegistry :=
  mkRegistry {[ 5 := [11; 12]; 6 := [13] ]} [11; 12; 13] 0 3.

Lemma demo_registry_reachable : rtc reg_step NewSessionRegistry demo_registry.
Proof.
  eapply rtc_l; [eapply (reg_add _ 5 11); reflexivity|].
  eapply rtc_l; [eapply (reg_add _ 5 12); reflexivity|].
  eapply rtc_l; [eapply (reg_add _ 6 13); reflexivity|].
  apply rtc_refl.
Qed.

Lemma registry_consistent_witness :
  len (Registry_Conns demo_registry 5) = 2 /\
  len (Registry_Conns demo_registry 5) <= MaxUserConns /\
  TotalConns demo_registry = len (all_conns (m demo_registry)).
Proof.
  destruct (registry_consistent demo_registry 5 demo_registry_reachable) as (H1 & _ & H3 & _).
  split; [reflexivity|]. split; [exact H1|exact H3].
Defined.

Lemma recovery_ticks_cover_witness : 13 ∈ (ticks 2 2 demo_registry).1.
Proof.
  apply (recovery_ticks_cover demo_registry 2 2 13); try done.
  apply list_elem_of_In. simpl. tauto.
Defined.

Lemma SampleDeliveryLag_bounds_witness :
  let '(s, rd) := SampleDeliveryLag (fun _ o => Some (o + 100)) (fun c => c) demo_registry
                    [(6, [13]); (5, [11; 12])] 1 (Some 9%nat) in
  EligibleConnections s = TotalConns demo_registry /\
  0 <= SampledConnections s <= Z.min (TotalConns demo_registry) deliveryLagSnapshotLimit /\
  0 <= WorstPts s /\ NoDup rd.
Proof.
  apply (SampleDeliveryLag_bounds (fun _ o => Some (o + 100)) (fun c => c) demo_registry).
  simpl. lia.
Defined.

Lemma SampleDeliveryLag_exact_witness :
  (SampleDeliveryLag (fun _ o => Some (o + 100)) (fun c => c) demo_registry
     (map_to_list (m demo_registry)) 1 None).1 = mkSample 3 3 94 true.
Proof.
  rewrite (SampleDeliveryLag_exact (fun o => o + 100) (fun c => c) demo_registry).
  - reflexivity.
  - apply reg_reachable_inv, demo_registry_reachable.
  - reflexivity.
  - simpl. unfold deliveryLagSnapshotLimit. lia.
  - repeat constructor; simpl; lia.
Defined.
