(* ===== verification/Recovery.v ===== *)
(** * Folder-invalidation recovery and RPC outcomes of one connection

    First the recovery.
    The [dialogFilterRecovery] snapshots of [internal/mtproto/send.go].  Each
    operation of the source loads the immutable snapshot, computes the next one and
    installs it with a compare-and-swap, retrying when another goroutine got in
    first; a snapshot is never changed after it is installed, so every successful
    operation is the function below applied to the state it replaced.  The snapshot
    pointer is never nil once [newConn] has run. *)

From S2P Require Import Prelude.

Open Scope Z_scope.

Record dialogFilterRecovery : Type := mkRecovery {
  r_owner : Z;
  r_session : Z;
  r_generation : Z;
  r_covered : Z;
  r_initialized : bool;
  r_firstDifference : bool;
  r_pushEligible : bool;
  r_cycle : bool;
  r_attempts : Z;
  r_nextAttempt : Z;
  r_inFlight : bool;
  r_claimID : Z
}.

(** A fresh state of a binding, everything else the zero value. *)
Definition fresh_recovery (owner session covered : Z) (initialized : bool)
    : dialogFilterRecovery :=
  mkRecovery owner session 0 covered initialized true false false 0 time_zero false 0.

Definition resetDialogFilterRecovery (owner session : Z) : dialogFilterRecovery :=
  fresh_recovery owner session 0 false.

Definition bound_to (s : dialogFilterRecovery) (owner session : Z) : bool :=
  (r_owner s =? owner) && (r_session s =? session).

(** The invalidation a connection must have fetched past. *)
Definition target (s : dialogFilterRecovery) (globalEpoch : Z) : Z :=
  Z.max (r_generation s) globalEpoch.

Definition uncovered (s : dialogFilterRecovery) (globalEpoch : Z) : bool :=
  target s globalEpoch >? r_covered s.

Definition EnsureDialogFilterRecoveryBinding (s : dialogFilterRecovery)
    (owner session initialCoverage : Z) : dialogFilterRecovery :=
  if bound_to s owner session && r_initialized s then s
  else fresh_recovery owner session initialCoverage true.

(** [None] is the source's false: nothing is installed.  [generation-1] is an
    unsigned subtraction. *)
Definition MarkDialogFilterRecovery (s : dialogFilterRecovery)
    (owner session generation globalEpoch : Z) : option dialogFilterRecovery :=
  if negb (bound_to s owner session) then None
  else
    let next :=
      if r_initialized s then s
      else fresh_recovery owner session
             (Z.max (wrap_u64 (generation - 1)) globalEpoch) true in
    let before := uncovered next globalEpoch in
    let next1 :=
      mkRecovery (r_owner next) (r_session next)
        (if generation >? r_generation next then generation else r_generation next)
        (r_covered next) (r_initialized next) (r_firstDifference next)
        (r_pushEligible next) (r_cycle next) (r_attempts next) (r_nextAttempt next)
        (r_inFlight next) (r_claimID next) in
    let after := uncovered next1 globalEpoch in
    if negb before && after then
      Some (mkRecovery (r_owner next1) (r_session next1) (r_generation next1)
              (r_covered next1) (r_initialized next1) (r_firstDifference next1)
              (r_pushEligible next1) false 0 time_zero (r_inFlight next1) (r_claimID next1))
    else Some next1.

(** Generation, coverage, whether the first difference is still owed, whether an
    invalidation is uncovered. *)
Definition DialogFilterRecoverySnapshot (s : dialogFilterRecovery)
    (owner session globalEpoch : Z) : option (Z * Z * bool * bool) :=
  if negb (bound_to s owner session && r_initialized s) then None
  else Some (r_generation s, r_covered s, r_firstDifference s, uncovered s globalEpoch).

Definition DialogFilterRecoveryAttemptPending (s : dialogFilterRecovery)
    (owner session globalEpoch : Z) : bool :=
  bound_to s owner session && r_initialized s && r_pushEligible s &&
  (r_attempts s <? 3) && uncovered s globalEpoch.

Definition AcknowledgeDialogFilterFetch (s : dialogFilterRecovery)
    (owner session captured globalEpoch : Z) : option dialogFilterRecovery :=
  if negb (bound_to s owner session && r_initialized s) then None
  else
    let covered := if captured >? r_covered s then captured else r_covered s in
    if target s globalEpoch <=? covered then
      Some (mkRecovery (r_owner s) (r_session s) (r_generation s) covered
              (r_initialized s) (r_firstDifference s) true false 0 time_zero false 0)
    else
      Some (mkRecovery (r_owner s) (r_session s) (r_generation s) covered
              (r_initialized s) (r_firstDifference s) true (r_cycle s) (r_attempts s)
              (r_nextAttempt s) (r_inFlight s) (r_claimID s)).

Definition AcknowledgeDialogFilterDifference (s : dialogFilterRecovery)
    (owner session : Z) (consumeFirst : bool) : option dialogFilterRecovery :=
  if negb consumeFirst then None
  else if negb (bound_to s owner session && r_initialized s && r_firstDifference s) then None
  else
    Some (mkRecovery (r_owner s) (r_session s) (r_generation s) (r_covered s)
            (r_initialized s) false true (r_cycle s) (r_attempts s)
            (r_nextAttempt s) (r_inFlight s) (r_claimID s)).

(** The claim counter advances on every try that reaches the swap; [claims] is its
    value before this one. *)
Definition ClaimDialogFilterRecoveryAttempt (s : dialogFilterRecovery) (claims : Z)
    (owner session globalEpoch now : Z) : option (Z * dialogFilterRecovery) :=
  if negb (bound_to s owner session && r_initialized s && r_pushEligible s) || r_inFlight s
  then None
  else if negb (uncovered s globalEpoch) || (r_attempts s >=? 3) then None
  else if (r_attempts s >? 0) && (now <? r_nextAttempt s) then None
  else
    let claimID := wrap_u64 (claims + 1) in
    let attempts := r_attempts s + 1 in
    let nextAttempt :=
      if attempts =? 1 then now + 20 * second
      else if attempts =? 2 then now + 40 * second
      else time_zero in
    Some (claimID,
          mkRecovery (r_owner s) (r_session s) (r_generation s) (r_covered s)
            (r_initialized s) (r_firstDifference s) (r_pushEligible s) true attempts
            nextAttempt true claimID).

Definition FinishDialogFilterRecoveryAttempt (s : dialogFilterRecovery)
    (owner session claimID : Z) : dialogFilterRecovery :=
  if negb (bound_to s owner session) || negb (r_inFlight s) || negb (r_claimID s =? claimID)
  then s
  else mkRecovery (r_owner s) (r_session s) (r_generation s) (r_covered s)
         (r_initialized s) (r_firstDifference s) (r_pushEligible s) (r_cycle s)
         (r_attempts s) (r_nextAttempt s) false 0.

(** ** Properties *)

Lemma fetch_covered s o ss cap ep s' :
  AcknowledgeDialogFilterFetch s o ss cap ep = Some s' ->
  r_covered s' = Z.max cap (r_covered s) /\ r_generation s' = r_generation s /\
  r_firstDifference s' = r_firstDifference s.
Proof.
  unfold AcknowledgeDialogFilterFetch. intros E. repeat case_match; simplify_eq/=; lia.
Qed.

(** A folder fetch acknowledges only what was captured before it: an
    invalidation newer than the captured generation is still pending after the
    acknowledgement, and one at or below it no longer is. *)
Theorem fetch_covers_only_captured (s : dialogFilterRecovery)
    (owner session captured globalEpoch : Z) (s' : dialogFilterRecovery) :
  AcknowledgeDialogFilterFetch s owner session captured globalEpoch = Some s' ->
  uncovered s' globalEpoch = true <->
  captured < target s globalEpoch /\ uncovered s globalEpoch = true.
Proof.
  intros E. destruct (fetch_covered _ _ _ _ _ _ E) as (Hc & Hg & _).
  unfold uncovered, target in *. rewrite Hc, Hg. lia.
Qed.

(** The attempts of one run of operations on a binding, oldest first: the calls to
    [Claim] that succeed, and the [Finish] calls between them. *)
Inductive rec_op : Type :=
| OpClaim (globalEpoch now : Z)
| OpFinish (claimID : Z)
| OpMarkPending (generation globalEpoch : Z).

(** Run operations that leave the invalidation pending: a mark counts only when
    something was already uncovered, so that no new cycle starts.  The result pairs
    the final state and claim counter with the times at which a claim was granted. *)
Fixpoint run_ops (owner session : Z) (ops : list rec_op) (s : dialogFilterRecovery) (claims : Z)
    : dialogFilterRecovery * list Z :=
  match ops with
  | [] => (s, [])
  | OpClaim ep now :: ops' =>
      match ClaimDialogFilterRecoveryAttempt s claims owner session ep now with
      | Some (cid, s') =>
          let '(sf, ts) := run_ops owner session ops' s' cid in (sf, now :: ts)
      | None => run_ops owner session ops' s claims
      end
  | OpFinish cid :: ops' =>
      run_ops owner session ops' (FinishDialogFilterRecoveryAttempt s owner session cid) claims
  | OpMarkPending g ep :: ops' =>
      if uncovered s ep then
        match MarkDialogFilterRecovery s owner session g ep with
        | Some s' => run_ops owner session ops' s' claims
        | None => run_ops owner session ops' s claims
        end
      else run_ops owner session ops' s claims
  end.

(** When the attempt after one granted at [t] may come, given those spent before. *)
Definition next_due (attempts t : Z) : Z :=
  if attempts =? 0 then t + 20 * second
  else if attempts =? 1 then t + 40 * second
  else time_zero.

(** Grants that respect the budget of three and the waits between them. *)
Fixpoint spaced (attempts due : Z) (ts : list Z) : Prop :=
  match ts with
  | [] => True
  | t :: ts' =>
      attempts < 3 /\ (0 < attempts -> due <= t) /\
      spaced (attempts + 1) (next_due attempts t) ts'
  end.

Lemma claim_spec s claims o ss ep now cid s' :
  ClaimDialogFilterRecoveryAttempt s claims o ss ep now = Some (cid, s') ->
  r_inFlight s = false /\ r_inFlight s' = true /\ r_claimID s' = cid /\
  r_attempts s < 3 /\ r_attempts s' = r_attempts s + 1 /\
  (0 < r_attempts s -> r_nextAttempt s <= now) /\
  (0 <= r_attempts s -> r_nextAttempt s' = next_due (r_attempts s) now) /\
  r_initialized s' = r_initialized s.
Proof.
  unfold ClaimDialogFilterRecoveryAttempt. intros E.
  destruct (_ || r_inFlight s) eqn:G1; simplify_eq/=.
  destruct (negb (uncovered s ep) || _) eqn:G2; simplify_eq/=.
  destruct ((r_attempts s >? 0) && _) eqn:G3; simplify_eq/=.
  apply orb_false_iff in G1 as [_ G1].
  repeat split; try done; try lia. intros _. unfold next_due. repeat case_match; lia.
Qed.

(** A mark made while something was already uncovered keeps the retry budget. *)
Lemma mark_keeps_budget s o ss g ep s' :
  r_initialized s = true -> uncovered s ep = true ->
  MarkDialogFilterRecovery s o ss g ep = Some s' ->
  r_attempts s' = r_attempts s /\ r_nextAttempt s' = r_nextAttempt s /\
  r_initialized s' = true.
Proof.
  intros Hi Hu. unfold MarkDialogFilterRecovery. rewrite Hi, Hu. simpl.
  destruct (negb (bound_to s o ss)); [done|]. by intros [= <-].
Qed.

Lemma finish_keeps_budget s o ss cid :
  r_attempts (FinishDialogFilterRecoveryAttempt s o ss cid) = r_attempts s /\
  r_nextAttempt (FinishDialogFilterRecoveryAttempt s o ss cid) = r_nextAttempt s /\
  r_initialized (FinishDialogFilterRecoveryAttempt s o ss cid) = r_initialized s.
Proof. unfold FinishDialogFilterRecoveryAttempt. by case_match. Qed.

Lemma run_ops_spaced o ss ops s claims :
  r_initialized s = true -> 0 <= r_attempts s ->
  spaced (r_attempts s) (r_nextAttempt s) (run_ops o ss ops s claims).2.
Proof.
  revert s claims. induction ops as [|op ops IH]; intros s claims Hi Ha; [done|].
  destruct op as [ep now|cid|g ep]; simpl.
  - destruct (ClaimDialogFilterRecoveryAttempt _ _ _ _ _ _) as [[cid s']|] eqn:E; [|by apply IH].
    destruct (claim_spec _ _ _ _ _ _ _ _ E) as (_ & _ & _ & Hlt & Hn & Hdue & Hnext & Hi').
    specialize (IH s' cid). rewrite Hn, Hi', Hnext in IH by done.
    destruct (run_ops o ss ops s' cid) as [sf ts]. simpl in *.
    repeat split; [lia|done|]. apply IH; [done|lia].
  - destruct (finish_keeps_budget s o ss cid) as (E1 & E2 & E3).
    rewrite <- E1, <- E2. apply IH; [by rewrite E3|by rewrite E1].
  - destruct (uncovered s ep) eqn:Hu; [|by apply IH].
    destruct (MarkDialogFilterRecovery s o ss g ep) as [s'|] eqn:E; [|by apply IH].
    destruct (mark_keeps_budget _ _ _ _ _ _ Hi Hu E) as (E1 & E2 & E3).
    rewrite <- E1, <- E2. apply IH; [done|lia].
Qed.

(** From the start of a cycle, and until a fetch covers the
    invalidation, a connection spends at most three recovery pushes however often it
    is polled and however many further invalidations arrive: the second at least 20
    seconds after the first, the third at least 40 seconds after the second. *)
Theorem recovery_attempts_bounded (o ss : Z) (ops : list rec_op)
    (s : dialogFilterRecovery) (claims : Z) :
  r_initialized s = true -> r_attempts s = 0 ->
  let ts := (run_ops o ss ops s claims).2 in
  len ts <= 3 /\
  (forall t1 t2 rest, ts = t1 :: t2 :: rest -> t1 + 20 * second <= t2) /\
  (forall t1 t2 t3 rest, ts = t1 :: t2 :: t3 :: rest -> t2 + 40 * second <= t3).
Proof.
  intros Hi Ha ts. pose proof (run_ops_spaced o ss ops s claims Hi ltac:(lia)) as H.
  fold ts in H. rewrite Ha in H. clearbody ts. unfold len.
  destruct ts as [|t1 [|t2 [|t3 [|t4 ts]]]]; simpl in *; unfold next_due in H; simpl in H;
    (split; [lia|split; intros; simplify_eq; lia]).
Qed.

Definition demo_recovery : dialogFilterRecovery :=
  mkRecovery 5 77 4 3 true true true false 0 time_zero false 0.

Lemma recovery_attempts_bounded_witness :
  (run_ops 5 77
     [OpClaim 0 100; OpFinish 1; OpClaim 0 200; OpClaim 0 (100 + 20 * second); OpFinish 2;
      OpMarkPending 9 0; OpClaim 0 (100 + 60 * second); OpFinish 3; OpClaim 0 (900 * second)]
     demo_recovery 0).2 = [100; 100 + 20 * second; 100 + 60 * second] /\
  len (run_ops 5 77 [OpClaim 0 100; OpFinish 1; OpClaim 0 (100 + 20 * second)] demo_recovery 0).2 <= 3.
Proof.
  split; [reflexivity|].
  exact (proj1 (recovery_attempts_bounded 5 77
    [OpClaim 0 100; OpFinish 1; OpClaim 0 (100 + 20 * second)] demo_recovery 0 eq_refl eq_refl)).
Defined.

Lemma fetch_covers_only_captured_witness :
  exists s', AcknowledgeDialogFilterFetch demo_recovery 5 77 3 0 = Some s' /\
             uncovered s' 0 = true.
Proof.
  eexists. split; [reflexivity|].
  apply (fetch_covers_only_captured demo_recovery 5 77 3 0 _ eq_refl).
  split; reflexivity.
Defined.

(** * The RPC dependency ring of one connection

    [internal/mtproto/send.go]: the 64 most recent results, kept in an array with
    a write cursor, that [invokeAfterMsg] consults.  The array is shown to
    implement the list of the 64 results recorded last. *)

#[local] Arguments Nat.modulo : simpl never.

Record rpcOutcome : Type := mkOutcome {
  oc_msgID : Z;
  oc_session : Z;
  oc_success : bool
}.

Definition zero_outcome : rpcOutcome := mkOutcome 0 0 false.

(** [len(c.rpcOutcomes)] *)
Definition ring_len : nat := 64.

Record outcome_ring : Type := mkRing {
  rpcOutcomes : list rpcOutcome;
  rpcOutcomeNext : nat;
  rpcOutcomeSize : nat
}.

Definition resetRPCOutcomesLocked : outcome_ring := mkRing (replicate ring_len zero_outcome) 0 0.

(** [sessionID] is the connection's current session. *)
Definition recordRPCOutcome (sessionID : Z) (r : outcome_ring) (msgID session : Z) (success : bool)
    : outcome_ring :=
  if (msgID <=? 0) || negb (session =? sessionID) then r
  else
    mkRing (<[rpcOutcomeNext r := mkOutcome msgID session success]> (rpcOutcomes r))
      ((rpcOutcomeNext r + 1) mod ring_len)
      (if (rpcOutcomeSize r <? ring_len)%nat then S (rpcOutcomeSize r) else rpcOutcomeSize r).

(** The scan of [RPCDependencyOutcome], [n] iterations to go from iteration [i]. *)
Fixpoint dependency_scan (r : outcome_ring) (session dependency : Z) (i n : nat) : bool * bool :=
  match n with
  | O => (false, false)
  | S n' =>
      let index := ((rpcOutcomeNext r + ring_len - 1 - i) mod ring_len)%nat in
      let outcome := default zero_outcome (rpcOutcomes r !! index) in
      if (oc_msgID outcome =? dependency) && (oc_session outcome =? session)
      then (true, oc_success outcome)
      else dependency_scan r session dependency (S i) n'
  end.

(** [(found, success)] *)
Definition RPCDependencyOutcome (sessionID : Z) (r : outcome_ring)
    (session dependency current : Z) : bool * bool :=
  if (dependency <=? 0) || (dependency >=? current) || negb (session =? sessionID)
  then (false, false)
  else dependency_scan r session dependency 0 (rpcOutcomeSize r).

(** ** What the ring promises *)

(** The abstract view: every result recorded since the last reset, newest first. *)
Definition outcome_spec (recorded : list rpcOutcome) (session dependency : Z) : bool * bool :=
  match list_find (fun o => oc_msgID o = dependency /\ oc_session o = session)
          (take ring_len recorded) with
  | Some (_, o) => (true, oc_success o)
  | None => (false, false)
  end.

(** The ring after the recorded results: the [i]th newest sits [i + 1] slots
    behind the cursor. *)
Record ring_repr (r : outcome_ring) (recorded : list rpcOutcome) : Prop := mkRepr {
  rr_len : length (rpcOutcomes r) = ring_len;
  rr_next : (rpcOutcomeNext r < ring_len)%nat;
  rr_size : rpcOutcomeSize r = Nat.min ring_len (length recorded);
  rr_slot : forall i o, take ring_len recorded !! i = Some o ->
    rpcOutcomes r !! ((rpcOutcomeNext r + ring_len - 1 - i) mod ring_len)%nat = Some o
}.

Lemma reset_repr : ring_repr resetRPCOutcomesLocked [].
Proof. constructor; simpl; [done|unfold ring_len; lia|done|]. by intros [|i] o. Qed.

Lemma slot_shift (next i : nat) :
  (next < ring_len)%nat -> (i < ring_len - 1)%nat ->
  (((next + 1) mod ring_len + ring_len - 1 - S i) mod ring_len =
   (next + ring_len - 1 - i) mod ring_len)%nat.
Proof.
  unfold ring_len. intros Hn Hi. destruct (decide (next = 63%nat)) as [->|Hne].
  - change ((63 + 1) mod 64)%nat with 0%nat.
    replace (63 + 64 - 1 - i)%nat with (62 - i + 1 * 64)%nat by lia.
    rewrite Nat.Div0.mod_add. f_equal; lia.
  - rewrite (Nat.mod_small (next + 1)); [|lia]. f_equal; lia.
Qed.

Lemma slot_differs (next i : nat) :
  (next < ring_len)%nat -> (i < ring_len - 1)%nat ->
  ((next + ring_len - 1 - i) mod ring_len <> next)%nat.
Proof.
  unfold ring_len. intros Hn Hi. destruct (decide (next + 64 - 1 - i < 64)%nat) as [H|H].
  - rewrite Nat.mod_small; lia.
  - replace (next + 64 - 1 - i)%nat with ((next - 1 - i) + 1 * 64)%nat by lia.
    rewrite Nat.Div0.mod_add, Nat.mod_small; lia.
Qed.

Lemma record_repr (sessionID msgID session : Z) (success : bool) r recorded :
  ring_repr r recorded -> 0 < msgID -> session = sessionID ->
  ring_repr (recordRPCOutcome sessionID r msgID session success)
    (mkOutcome msgID session success :: recorded).
Proof.
  intros [Hl Hn Hs Hr] Hm ->. unfold recordRPCOutcome.
  rewrite Z.eqb_refl. replace (msgID <=? 0) with false by lia. simpl.
  constructor; cbn [rpcOutcomes rpcOutcomeNext rpcOutcomeSize].
  - by rewrite length_insert.
  - apply Nat.mod_upper_bound. unfold ring_len; lia.
  - rewrite Hs, length_cons. case_match eqn:E; rewrite ?Nat.ltb_lt, ?Nat.ltb_ge in E; lia.
  - intros [|i] o Ho.
    + simpl in Ho. simplify_eq.
      assert (((rpcOutcomeNext r + 1) mod ring_len + ring_len - 1 - 0) mod ring_len = rpcOutcomeNext r)%nat as ->.
      { unfold ring_len in *. destruct (decide (rpcOutcomeNext r = 63%nat)) as [->|]; [done|].
        rewrite (Nat.mod_small (rpcOutcomeNext r + 1)); [|lia].
        replace (rpcOutcomeNext r + 1 + 64 - 1 - 0)%nat with (rpcOutcomeNext r + 1 * 64)%nat by lia.
        rewrite Nat.Div0.mod_add. apply Nat.mod_small. lia. }
      rewrite list_lookup_insert_eq; [done|lia].
    + assert (Hi : (i < ring_len - 1)%nat).
      { apply lookup_lt_Some in Ho. rewrite length_take in Ho. unfold ring_len in *. lia. }
      assert (Ho' : take ring_len recorded !! i = Some o).
      { rewrite lookup_take_lt in Ho by (unfold ring_len in *; lia).
        rewrite lookup_take_lt by (unfold ring_len in *; lia). exact Ho. }
      rewrite slot_shift by done.
      rewrite list_lookup_insert_ne by (apply not_eq_sym, slot_differs; done).
      by apply Hr.
Qed.

Lemma scan_find r recorded session dependency n i :
  ring_repr r recorded -> (i + n = length (take ring_len recorded))%nat ->
  dependency_scan r session dependency i n =
    match list_find (fun o => oc_msgID o = dependency /\ oc_session o = session)
            (drop i (take ring_len recorded)) with
    | Some (_, o) => (true, oc_success o)
    | None => (false, false)
    end.
Proof.
  intros Hr. revert i. induction n as [|n IH]; intros i Hi; simpl.
  - rewrite drop_ge by lia. done.
  - destruct (lookup_lt_is_Some_2 (take ring_len recorded) i) as [o Ho]; [lia|].
    rewrite (rr_slot _ _ Hr _ _ Ho), (drop_S _ _ _ Ho). simpl. case_decide as D.
    + destruct D as [-> ->]. by rewrite !Z.eqb_refl.
    + replace ((oc_msgID o =? dependency) && (oc_session o =? session)) with false by lia.
      rewrite IH by lia. by destruct (list_find _ _) as [[??]|].
Qed.

(** ** Runs *)

(** What happens to the ring: a result written for a message of some session, or a
    change of the connection's session, key or owner, which clears it. *)
Inductive ring_event : Type :=
| EvRecord (msgID session : Z) (success : bool)
| EvRebind (sessionID : Z).

Definition ring_apply (st : Z * outcome_ring) (e : ring_event) : Z * outcome_ring :=
  match e with
  | EvRecord m s ok => (st.1, recordRPCOutcome st.1 st.2 m s ok)
  | EvRebind s => (s, resetRPCOutcomesLocked)
  end.

Definition recorded_apply (st : Z * list rpcOutcome) (e : ring_event) : Z * list rpcOutcome :=
  match e with
  | EvRecord m s ok =>
      if (0 <? m) && (s =? st.1) then (st.1, mkOutcome m s ok :: st.2) else st
  | EvRebind s => (s, [])
  end.

Lemma ring_apply_repr st sp e :
  st.1 = sp.1 -> ring_repr st.2 sp.2 ->
  (ring_apply st e).1 = (recorded_apply sp e).1 /\
  ring_repr (ring_apply st e).2 (recorded_apply sp e).2.
Proof.
  intros Hs Hr. destruct e as [m s ok|s]; simpl; [|split; [done|apply reset_repr]].
  destruct ((0 <? m) && (s =? sp.1)) eqn:E; simpl.
  - split; [done|]. apply record_repr; [done|lia..].
  - split; [done|]. unfold recordRPCOutcome.
    by replace ((m <=? 0) || negb (s =? st.1)) with true by (rewrite Hs; lia).
Qed.

Lemma ring_run_repr evs st sp :
  st.1 = sp.1 -> ring_repr st.2 sp.2 ->
  (foldl ring_apply st evs).1 = (foldl recorded_apply sp evs).1 /\
  ring_repr (foldl ring_apply st evs).2 (foldl recorded_apply sp evs).2.
Proof.
  revert st sp. induction evs as [|e evs IH]; intros st sp Hs Hr; simpl; [done|].
  destruct (ring_apply_repr st sp e Hs Hr) as [? ?]. by apply IH.
Qed.

(** After any sequence of results and rebinds, the array with its
    cursor answers a dependency query exactly as the list of the 64 results
    recorded last in the current session does: an earlier message of the same
    session is found with its outcome, one that fell out of the window, belongs to
    another session or does not precede the current message is not. *)
Theorem RPCDependencyOutcome_refines (s0 : Z) (evs : list ring_event)
    (session dependency current : Z) :
  let st := foldl ring_apply (s0, resetRPCOutcomesLocked) evs in
  let sp := foldl recorded_apply (s0, []) evs in
  RPCDependencyOutcome st.1 st.2 session dependency current =
    if (0 <? dependency) && (dependency <? current) && (session =? sp.1)
    then outcome_spec sp.2 session dependency else (false, false).
Proof.
  cbv zeta. destruct (ring_run_repr evs (s0, resetRPCOutcomesLocked) (s0, []) eq_refl reset_repr)
    as [Hs Hr].
  unfold RPCDependencyOutcome. rewrite Hs.
  destruct ((0 <? dependency) && _ && _) eqn:G.
  - replace ((dependency <=? 0) || _ || _) with false by lia.
    rewrite (scan_find _ _ _ _ _ 0 Hr); [done|].
    rewrite (rr_size _ _ Hr), length_take. done.
  - by replace ((dependency <=? 0) || _ || _) with true by lia.
Qed.

(** ** The history a lookup stands for *)

(** The results among the events that count for the session, oldest first. *)
Definition results (session : Z) (evs : list ring_event) : list rpcOutcome :=
  omap (fun e => match e with
                 | EvRecord m s ok => if (0 <? m) && (s =? session) then Some (mkOutcome m s ok) else None
                 | EvRebind _ => None
                 end) evs.

Definition no_rebind (evs : list ring_event) : Prop := forall s, EvRebind s ∉ evs.

(** The last result of message [d] in [session] was [ok]: it was recorded in the session
    the connection still has, no later event cleared the ring or recorded another result of
    [d], and fewer than 64 results were recorded since. *)
Definition recorded_as (s0 : Z) (evs : list ring_event) (session d : Z) (ok : bool) : Prop :=
  exists earlier later,
    evs = earlier ++ EvRecord d session ok :: later /\
    session = (foldl recorded_apply (s0, []) earlier).1 /\ no_rebind later /\
    (forall ok', EvRecord d session ok' ∉ later) /\ (length (results session later) < ring_len)%nat.

Lemma fold_results later : forall st,
  no_rebind later -> foldl recorded_apply st later = (st.1, reverse (results st.1 later) ++ st.2).
Proof.
  induction later as [|e later IH]; intros [s l] Hn; [done|]. cbn [foldl].
  rewrite IH by (intros s' H; apply (Hn s'); by right). destruct e as [m s' ok|s'].
  - cbn [recorded_apply results omap list_omap fst snd]. destruct (_ && _); cbn [fst snd]; [|done].
    fold (results s later). by rewrite reverse_cons, <- app_assoc.
  - exfalso. apply (Hn s'). left.
Qed.

Lemma elem_of_results session m s ok evs :
  mkOutcome m s ok ∈ results session evs <-> EvRecord m s ok ∈ evs /\ 0 < m /\ s = session.
Proof.
  unfold results. rewrite list_elem_of_omap. split.
  - intros ([m' s' ok'|s'] & Hin & E); [|done]. destruct (_ && _) eqn:G; [|done]. injection E as -> -> ->.
    split; [done|lia].
  - intros (Hin & Hm & ->). exists (EvRecord m session ok). split; [done|].
    by replace ((0 <? m) && (session =? session)) with true by lia.
Qed.

(** The newest events that make up a prefix of the recorded list. *)
Lemma recorded_split s0 evs : forall i o,
  (foldl recorded_apply (s0, []) evs).2 !! i = Some o ->
  exists earlier later,
    evs = earlier ++ EvRecord (oc_msgID o) (oc_session o) (oc_success o) :: later /\
    oc_session o = (foldl recorded_apply (s0, []) earlier).1 /\ no_rebind later /\
    length (results (oc_session o) later) = i.
Proof.
  induction evs as [|e evs IH] using rev_ind; intros i o H; [done|]. rewrite foldl_app in H. cbn [foldl] in H.
  set (sp := foldl recorded_apply (s0, []) evs) in *.
  assert (Hkeep : forall j, sp.2 !! j = Some o -> (forall s, e <> EvRebind s) -> exists earlier later,
    evs ++ [e] = earlier ++ EvRecord (oc_msgID o) (oc_session o) (oc_success o) :: later /\
    oc_session o = (foldl recorded_apply (s0, []) earlier).1 /\ no_rebind later /\
    length (results (oc_session o) later) = (j + length (results (oc_session o) [e]))%nat /\ oc_session o = sp.1).
  { intros j Hj He. destruct (IH j o Hj) as (earlier & later & -> & Hs & Hn & Hl). exists earlier, (later ++ [e]).
    split; [by rewrite <- app_assoc|]. split; [done|]. split.
    - intros s [Hin|Hin]%elem_of_app; [by eapply Hn|]. apply list_elem_of_singleton in Hin. by apply (He s).
    - split; [unfold results in *; rewrite omap_app, length_app; lia|].
      unfold sp. rewrite foldl_app. cbn [foldl]. rewrite fold_results by done. cbn [fst recorded_apply].
      by destruct (_ && _). }
  destruct e as [m s ok|s]; [|done]. cbn [recorded_apply] in H. destruct ((0 <? m) && (s =? sp.1)) eqn:G.
  - destruct i as [|i]; cbn in H.
    + injection H as <-. exists evs, []. split; [done|]. split; [cbn; fold sp; lia|]. split; [|done].
      intros s' Hin. by apply elem_of_nil in Hin.
    + destruct (Hkeep i H) as (earlier & later & E1 & E2 & E3 & E4 & E5); [done|]. exists earlier, later.
      split_and!; try done. rewrite E4. cbn. rewrite E5, G. cbn. lia.
  - destruct (Hkeep i H) as (earlier & later & E1 & E2 & E3 & E4 & E5); [done|]. exists earlier, later.
    split_and!; try done. rewrite E4. cbn. rewrite E5, G. cbn. lia.
Qed.

(** What the list of results says of a message is what the history says. *)
Lemma outcome_recorded s0 evs session d ok :
  0 < d -> session = (foldl recorded_apply (s0, []) evs).1 ->
  outcome_spec (foldl recorded_apply (s0, []) evs).2 session d = (true, ok) <-> recorded_as s0 evs session d ok.
Proof.
  intros Hd Hsess. split.
  - unfold outcome_spec. destruct (list_find _ _) as [[i o]|] eqn:F; [|done]. intros [= <-].
    apply list_find_Some in F as (Hi & [<- <-] & Hfirst).
    apply lookup_take_Some in Hi as [Hi Hlt].
    destruct (recorded_split s0 evs i o Hi) as (earlier & later & E & Hs & Hn & Hl).
    exists earlier, later. split_and!; [done|done|done| |lia]. intros ok' Hin.
    assert (Hr : mkOutcome (oc_msgID o) (oc_session o) ok' ∈ results (oc_session o) later) by (by apply elem_of_results).
    assert (Efold : (foldl recorded_apply (s0, []) evs).2 =
      reverse (results (oc_session o) later) ++ (foldl recorded_apply (s0, []) (earlier ++ [EvRecord (oc_msgID o) (oc_session o) (oc_success o)])).2).
    { rewrite E at 1. rewrite cons_middle, app_assoc, foldl_app, fold_results by done. cbn [snd]. f_equal. f_equal. f_equal.
      rewrite foldl_app. cbn [foldl recorded_apply]. destruct (_ && _); exact (eq_sym Hs). }
    apply elem_of_reverse, list_elem_of_lookup in Hr as [j Hj].
    assert (Hji : (j < i)%nat) by (apply lookup_lt_Some in Hj; rewrite length_reverse in Hj; lia).
    apply (Hfirst j (mkOutcome (oc_msgID o) (oc_session o) ok')); [|done|by split].
    apply lookup_take_Some. split; [|lia]. rewrite Efold. by apply lookup_app_l_Some.
  - intros (earlier & later & -> & Hs & Hn & Hno & Hlen).
    assert (Efold : (foldl recorded_apply (s0, []) (earlier ++ EvRecord d session ok :: later)).2 =
      reverse (results session later) ++ mkOutcome d session ok :: (foldl recorded_apply (s0, []) earlier).2).
    { rewrite foldl_app. cbn [foldl recorded_apply]. rewrite <- Hs.
      replace ((0 <? d) && (session =? session)) with true by lia. by rewrite fold_results. }
    rewrite Efold. unfold outcome_spec.
    rewrite take_app_ge by (rewrite length_reverse; lia). rewrite length_reverse.
    destruct (ring_len - length (results session later))%nat as [|n] eqn:En; [lia|]. cbn [take].
    assert (F : list_find (fun o => oc_msgID o = d /\ oc_session o = session)
      (reverse (results session later) ++ mkOutcome d session ok :: take n (foldl recorded_apply (s0, []) earlier).2) =
      Some (length (results session later), mkOutcome d session ok)).
    { apply list_find_Some. split; [|split; [done|]].
      - rewrite lookup_app_r by (rewrite length_reverse; lia). by rewrite length_reverse, Nat.sub_diag.
      - intros j [m s ok'] Hj Hlt [E1 E2]. cbn in E1, E2. subst m s.
        rewrite lookup_app_l in Hj by (rewrite length_reverse; lia).
        apply list_elem_of_lookup_2, elem_of_reverse, elem_of_results in Hj as [Hj _]. by eapply Hno. }
    by rewrite F.
Qed.

Lemma recorded_as_session s0 evs session d ok :
  recorded_as s0 evs session d ok -> session = (foldl recorded_apply (s0, []) evs).1.
Proof.
  intros (earlier & later & -> & Hs & Hn & _). rewrite foldl_app. cbn [foldl recorded_apply].
  rewrite fold_results by done. cbn [fst]. by destruct (_ && _).
Qed.

(** The lookup on the ring, read as a statement about the history that filled it. *)
Lemma RPCDependencyOutcome_recorded s0 evs sessionID ring session d current ok :
  foldl ring_apply (s0, resetRPCOutcomesLocked) evs = (sessionID, ring) -> 0 < d < current ->
  RPCDependencyOutcome sessionID ring session d current = (true, ok) <-> recorded_as s0 evs session d ok.
Proof.
  intros E Hd. pose proof (RPCDependencyOutcome_refines s0 evs session d current) as R. cbv zeta in R.
  rewrite E in R. cbn [fst snd] in R. rewrite R.
  replace (0 <? d) with true by lia. replace (d <? current) with true by lia. cbn [andb].
  destruct (Z.eqb_spec session (foldl recorded_apply (s0, []) evs).1) as [Hs|Hs].
  - apply outcome_recorded; [lia|done].
  - split; [done|]. intros H. by apply recorded_as_session in H.
Qed.
