(* ===== verification/Budget.v ===== *)
(** * Per-connection call budgets and the log lines they thin

    [logSampler] of [internal/mtproto/proxyproto.go], and the budget on calls to
    methods the server does not implement (and its twin for the language-pack RPCs)
    of [internal/mtproto/unimplemented.go]. *)

From S2P Require Import Prelude.

(** ** logSampler *)

(** [last_line] is the field [last], a Unix time in nanoseconds, 0 before the first line. *)
Record logSampler : Type := mkSampler {
  last_line : Z;
  dropped : Z
}.

Definition newSampler : logSampler := mkSampler 0 0.

(** [won] is the outcome of the compare-and-swap on [last]: a caller that loses it
    is one of the callers being dropped.  [Some k] emits a line that stands for [k]
    suppressed ones. *)
Definition logSampler_allow (won : bool) (s : logSampler) (now interval : Z)
    : option Z * logSampler :=
  if (wrap_s64 (now - last_line s) <? interval) || negb won
  then (None, mkSampler (last_line s) (dropped s + 1))
  else (Some (dropped s), mkSampler now 0).

(** The count to report and whether a line is owed for it. *)
Definition logSampler_flush (won : bool) (s : logSampler) (now : Z) : Z * bool * logSampler :=
  if negb won then (0, false, s)
  else (dropped s, dropped s >? 0, mkSampler now 0).

(** ** The fixed-window budget *)

Definition unimplementedWindow : Z := 60 * second.
Definition unimplementedAnswerBudget : Z := 64.
Definition unimplementedCloseAt : Z := 256.
Definition unimplementedLogInterval : Z := 10 * second.
Definition unimplementedMethodLogLimit : Z := 32.

Inductive UnimplementedVerdict : Type :=
| UnimplementedAnswer
| UnimplementedFloodWait
| UnimplementedClose.

#[export] Instance verdict_eq_dec : EqDecision UnimplementedVerdict.
Proof. solve_decision. Defined.

(** [started] and [calls] before and after one call at [now]. *)
Definition chargeConnectionBudget (started calls now : Z) : UnimplementedVerdict * Z * Z :=
  if unimplementedWindow <=? 0 then (UnimplementedAnswer, started, calls)
  else
    let '(started, calls) :=
      if time_is_zero started || (time_sub now started >=? unimplementedWindow)
      then (now, 0) else (started, calls) in
    let calls := calls + 1 in
    if (unimplementedCloseAt >? 0) && (calls >=? unimplementedCloseAt)
    then (UnimplementedClose, started, calls)
    else if (unimplementedAnswerBudget >? 0) && (calls >? unimplementedAnswerBudget)
    then (UnimplementedFloodWait, started, calls)
    else (UnimplementedAnswer, started, calls).

Record unimplementedBudget : Type := mkBudget {
  started : Z;
  calls : Z;
  methods : gmap string logSampler;
  log : logSampler;
  closeLineWritten : bool
}.

Definition newBudget : unimplementedBudget := mkBudget time_zero 0 ∅ newSampler false.

Definition unimplementedBudget_charge (b : unimplementedBudget) (now : Z)
    : UnimplementedVerdict * unimplementedBudget :=
  let '(v, st, c) := chargeConnectionBudget (started b) (calls b) now in
  (v, mkBudget st c (methods b) (log b) (closeLineWritten b)).

Record langpackBudget : Type := mkLangpack {
  lp_started : Z;
  lp_calls : Z
}.

Definition langpackBudget_charge (b : langpackBudget) (now : Z)
    : UnimplementedVerdict * langpackBudget :=
  let '(v, st, c) := chargeConnectionBudget (lp_started b) (lp_calls b) now in
  (v, mkLangpack st c).

(** The samplers below belong to the connection's serve goroutine alone, so their
    swaps always win.  [unix] is [now.UnixNano()]. *)
Definition unimplementedBudget_logAllow (b : unimplementedBudget) (method : string) (unix : Z)
    : option Z * unimplementedBudget :=
  let on_method s :=
    let '(r, s') := logSampler_allow true s unix unimplementedLogInterval in
    (r, mkBudget (started b) (calls b) (<[method := s']> (methods b)) (log b) (closeLineWritten b)) in
  match methods b !! method with
  | Some s => on_method s
  | None =>
      if Z.of_nat (size (methods b)) <? unimplementedMethodLogLimit then on_method newSampler
      else
        let '(r, s') := logSampler_allow true (log b) unix unimplementedLogInterval in
        (r, mkBudget (started b) (calls b) (methods b) s' (closeLineWritten b))
  end.

(** The loop over [b.methods] sums counts and ors flags, so its order is immaterial. *)
Definition unimplementedBudget_logFlush (b : unimplementedBudget) (unix : Z)
    : Z * bool * unimplementedBudget :=
  let '(n, owed, l') := logSampler_flush true (log b) unix in
  let '(n', owed') :=
    map_fold (fun _ s acc =>
      let '(k, o, _) := logSampler_flush true s unix in
      (acc.1 + k, acc.2 || o)) (n, owed) (methods b) in
  (n', owed',
   mkBudget (started b) (calls b)
     ((fun s => (logSampler_flush true s unix).2) <$> methods b) l' (closeLineWritten b)).

Definition unimplementedBudget_logClose (b : unimplementedBudget) (unix : Z)
    : option Z * unimplementedBudget :=
  if closeLineWritten b then (None, b)
  else
    let '(suppressed, _, b') := unimplementedBudget_logFlush b unix in
    (Some suppressed,
     mkBudget (started b') (calls b') (methods b') (log b') true).

(** ** The budget over one window *)

(** The verdicts of a run of calls at the given times. *)
Fixpoint charge_run (st c : Z) (times : list Z) : list UnimplementedVerdict :=
  match times with
  | [] => []
  | t :: ts =>
      let '(v, st', c') := chargeConnectionBudget st c t in v :: charge_run st' c' ts
  end.

(** The verdict of the [n]-th call of a window, counting from 1. *)
Definition verdict_at (n : Z) : UnimplementedVerdict :=
  if n >=? 256 then UnimplementedClose
  else if n >? 64 then UnimplementedFloodWait
  else UnimplementedAnswer.

Lemma charge_in_window st c t :
  0 < st -> t - st < unimplementedWindow ->
  chargeConnectionBudget st c t = (verdict_at (c + 1), st, c + 1).
Proof.
  intros Hs Ht. unfold chargeConnectionBudget, verdict_at, unimplementedWindow, time_is_zero in *.
  change (60 * second <=? 0) with false. cbn [andb].
  assert ((time_sub t st >=? 60 * second) = false) as ->.
  { unfold time_sub, second in *. lia. }
  rewrite (proj2 (Z.eqb_neq st 0)) by lia. cbn [orb].
  unfold unimplementedCloseAt, unimplementedAnswerBudget.
  change (256 >? 0) with true. change (64 >? 0) with true. cbn [andb].
  by repeat case_match.
Qed.

Lemma charge_new_window st c t :
  (st = 0 \/ unimplementedWindow <= t - st) ->
  chargeConnectionBudget st c t = (UnimplementedAnswer, t, 1).
Proof.
  intros Hs. unfold chargeConnectionBudget, unimplementedWindow, time_is_zero in *.
  change (60 * second <=? 0) with false.
  assert (((st =? 0) || (time_sub t st >=? 60 * second)) = true) as ->.
  { unfold time_sub, second in *. destruct Hs; lia. }
  done.
Qed.

Lemma charge_run_in_window st c times :
  0 < st -> Forall (fun t => t - st < unimplementedWindow) times ->
  charge_run st c times =
    map (fun i : nat => verdict_at (c + Z.of_nat i)) (seq 1 (length times)).
Proof.
  intros Hst. revert c. induction times as [|t ts IH]; intros c Hf; [done|].
  inversion Hf; subst. cbn [charge_run length seq map].
  rewrite charge_in_window by done. f_equal.
  rewrite IH by done. rewrite <- (seq_shift (length ts) 1), map_map. apply map_ext. intros i. f_equal. lia.
Qed.

(** A burst inside one minute is answered exactly as the policy
    says, whatever was spent in earlier windows: the first 64 calls are answered as
    if there were no bound, the next 191 are told to wait, and the 256th and every
    later one ends the connection. *)
Theorem burst_verdicts (st c t : Z) (times : list Z) :
  0 < t -> (st = 0 \/ unimplementedWindow <= t - st) ->
  Forall (fun u => u - t < unimplementedWindow) times ->
  charge_run st c (t :: times) =
    map (fun i : nat => verdict_at (Z.of_nat i)) (seq 1 (S (length times))).
Proof.
  intros Ht Hs Hf. cbn [charge_run seq map]. rewrite charge_new_window by done.
  rewrite charge_run_in_window by done. f_equal.
  rewrite <- (seq_shift (length times) 1), map_map. apply map_ext. intros i. f_equal. lia.
Qed.

Lemma burst_verdicts_witness :
  charge_run 5 300 (replicate 256 (100 * second)) =
    map (fun i : nat => verdict_at (Z.of_nat i)) (seq 1 256) /\
  last (charge_run 5 300 (replicate 256 (100 * second))) = Some UnimplementedClose.
Proof.
  assert (E : charge_run 5 300 (replicate 256 (100 * second)) =
    map (fun i : nat => verdict_at (Z.of_nat i)) (seq 1 256)).
  { apply (burst_verdicts 5 300 (100 * second) (replicate 255 (100 * second))).
    - done.
    - right. unfold unimplementedWindow, second. lia.
    - apply Forall_replicate. unfold unimplementedWindow, second. lia. }
  split; [exact E|]. rewrite E. reflexivity.
Defined.

(** ** No suppressed call is lost *)

(** The calls a budget has suppressed and not yet reported. *)
Definition suppressed (b : unimplementedBudget) : Z :=
  dropped (log b) + map_fold (fun _ s acc => dropped s + acc) 0 (methods b).

Definition budget_wf (b : unimplementedBudget) : Prop :=
  0 <= dropped (log b) /\ map_Forall (fun _ s => 0 <= dropped s) (methods b) /\
  Z.of_nat (size (methods b)) <= unimplementedMethodLogLimit.

Definition sum_dropped (ms : gmap string logSampler) : Z :=
  map_fold (fun _ s acc => dropped s + acc) 0 ms.

Lemma sum_dropped_insert ms k s :
  ms !! k = None -> sum_dropped (<[k := s]> ms) = dropped s + sum_dropped ms.
Proof.
  intros Hk. unfold sum_dropped. rewrite map_fold_insert_L; [done| |done]. intros. lia.
Qed.

Lemma sum_dropped_update ms k s s' :
  ms !! k = Some s -> sum_dropped (<[k := s']> ms) = dropped s' - dropped s + sum_dropped ms.
Proof.
  intros Hk. rewrite <- insert_delete_eq, sum_dropped_insert by apply lookup_delete_eq.
  assert (sum_dropped ms = dropped s + sum_dropped (delete k ms)) as ->.
  { rewrite <- (sum_dropped_insert (delete k ms) k s) by apply lookup_delete_eq.
    by rewrite insert_delete_eq, insert_id. }
  lia.
Qed.

Lemma sum_dropped_nonneg ms : map_Forall (fun _ s => 0 <= dropped s) ms -> 0 <= sum_dropped ms.
Proof.
  induction ms as [|k s ms Hk IH] using map_ind; [done|].
  rewrite sum_dropped_insert by done. intros [Hs Hms]%map_Forall_insert; [|done].
  specialize (IH Hms). lia.
Qed.

Lemma allow_accounts s now i :
  0 <= dropped s ->
  match logSampler_allow true s now i with
  | (Some k, s') => k = dropped s /\ dropped s' = 0
  | (None, s') => dropped s' = dropped s + 1
  end.
Proof. intros Hs. unfold logSampler_allow. rewrite orb_false_r. destruct (_ <? _); simpl; auto. Qed.

(** Thinning the not-implemented line loses no call: each call
    either emits a line, which stands for the suppressed ones of its sampler, or is
    itself added to the suppressed total; and one connection tracks at most 32
    method names. *)
Theorem logAllow_accounts (b : unimplementedBudget) (method : string) (unix : Z) :
  budget_wf b ->
  let '(r, b') := unimplementedBudget_logAllow b method unix in
  budget_wf b' /\
  match r with
  | Some k => suppressed b = suppressed b' + k
  | None => suppressed b' = suppressed b + 1
  end.
Proof.
  intros (Hl & Hm & Hsz). unfold unimplementedBudget_logAllow, suppressed, budget_wf in *.
  fold (sum_dropped (methods b)).
  destruct (methods b !! method) as [s|] eqn:E.
  - assert (Hs : 0 <= dropped s) by (by specialize (Hm _ _ E)).
    pose proof (allow_accounts s unix unimplementedLogInterval Hs) as Ha.
    destruct (logSampler_allow true s unix unimplementedLogInterval) as [r s']. simpl.
    fold (sum_dropped (<[method := s']> (methods b))).
    rewrite (sum_dropped_update _ _ s) by done.
    rewrite map_size_insert_Some by (by eexists).
    split; [split; [done|split; [|done]]|destruct r; lia].
    apply map_Forall_insert_2; [destruct r; lia|done].
  - destruct (_ <? _) eqn:G.
    + pose proof (allow_accounts newSampler unix unimplementedLogInterval) as Ha.
      destruct (logSampler_allow true newSampler unix unimplementedLogInterval) as [r s']. simpl in *.
      fold (sum_dropped (<[method := s']> (methods b))).
      rewrite sum_dropped_insert by done. rewrite map_size_insert_None by done.
      specialize (Ha ltac:(lia)).
      split; [split; [done|split; [|lia]]|destruct r; lia].
      apply map_Forall_insert_2; [destruct r; lia|done].
    + pose proof (allow_accounts (log b) unix unimplementedLogInterval Hl) as Ha.
      destruct (logSampler_allow true (log b) unix unimplementedLogInterval) as [r s']. simpl in *.
      fold (sum_dropped (methods b)).
      split; [split; [destruct r; lia|done]|destruct r; lia].
Qed.

Lemma flush_fold ms unix n o :
  map_Forall (fun _ s => 0 <= dropped s) ms -> 0 <= n -> o = (n >? 0) ->
  map_fold (fun _ s acc =>
      let '(k, o, _) := logSampler_flush true s unix in (acc.1 + k, acc.2 || o)) (n, o) ms
  = (n + sum_dropped ms, n + sum_dropped ms >? 0).
Proof.
  intros Hm Hn Ho. induction ms as [|k s ms Hk IH] using map_ind.
  - rewrite map_fold_empty. unfold sum_dropped. rewrite map_fold_empty. f_equal; [lia|].
    rewrite Ho. f_equal. lia.
  - apply map_Forall_insert in Hm as [Hs Hm]; [|done].
    rewrite map_fold_insert_L; [| |done].
    + rewrite IH by done. rewrite sum_dropped_insert by done. simpl.
      pose proof (sum_dropped_nonneg ms Hm). f_equal; lia.
    + intros j1 j2 z1 z2 [a o'] _ _ _. simpl. f_equal; [lia|]. destruct o'; simpl; [done|].
      by rewrite orb_comm.
Qed.

(** Ending a connection reports every suppressed call exactly
    once: the closing line carries the whole suppressed total, owes nothing
    afterwards, and a second close writes no line. *)
Theorem logClose_reports_all (b : unimplementedBudget) (unix unix' : Z) :
  budget_wf b -> closeLineWritten b = false ->
  let '(r, b') := unimplementedBudget_logClose b unix in
  r = Some (suppressed b) /\ suppressed b' = 0 /\
  unimplementedBudget_logClose b' unix' = (None, b').
Proof.
  intros (Hl & Hm & Hsz) Hc. unfold unimplementedBudget_logClose at 1. rewrite Hc.
  unfold unimplementedBudget_logFlush.
  change (logSampler_flush true (log b) unix)
    with (dropped (log b), dropped (log b) >? 0, mkSampler unix 0).
  cbv iota beta. rewrite flush_fold by done.
  split; [done|]. split; [|done].
  unfold suppressed. simpl. clear. induction (methods b) as [|k s ms Hk IH] using map_ind.
  - by rewrite fmap_empty, map_fold_empty.
  - rewrite fmap_insert. fold (sum_dropped (<[k := (logSampler_flush true s unix).2]>
      ((fun s => (logSampler_flush true s unix).2) <$> ms))).
    rewrite sum_dropped_insert by (by rewrite lookup_fmap, Hk). simpl. unfold sum_dropped. lia.
Qed.

Definition demo_budget : unimplementedBudget :=
  mkBudget 1 9 {[ "help.a"%string := mkSampler 100 3 ]} (mkSampler 50 2) false.

Lemma demo_budget_wf : budget_wf demo_budget.
Proof.
  split; [simpl; lia|]. split.
  - apply map_Forall_singleton. simpl. lia.
  - vm_compute. discriminate.
Qed.

Lemma logAllow_accounts_witness :
  let '(r, b') := unimplementedBudget_logAllow demo_budget "help.a" 200 in
  budget_wf b' /\
  match r with
  | Some k => suppressed demo_budget = suppressed b' + k
  | None => suppressed b' = suppressed demo_budget + 1
  end.
Proof. exact (logAllow_accounts demo_budget "help.a" 200 demo_budget_wf). Defined.

Lemma logClose_reports_all_witness :
  let '(r, b') := unimplementedBudget_logClose demo_budget 900 in
  r = Some 5 /\ suppressed b' = 0 /\ unimplementedBudget_logClose b' 901 = (None, b').
Proof. exact (logClose_reports_all demo_budget 900 901 demo_budget_wf eq_refl). Defined.
