(* ===== verification/RpcTrace.v ===== *)
(** * RPC result classes and the bounded trace recorder

    [internal/mtproto/rpc_trace.go]: the closed vocabulary a span may carry, the
    reduction of an RPC error to its class, and the recorder's queue as a machine
    whose steps are the recorders' enqueues and the worker's exports. *)

From S2P Require Import Prelude.

(** ** Vocabulary *)

Inductive RPCResultClass : Type :=
| RPCResultSuccess
| RPCResultInvalidRequest
| RPCResultUnauthenticated
| RPCResultUnauthorized
| RPCResultRateLimited
| RPCResultDeadline
| RPCResultInternal
| RPCResultTransportFailure.

#[export] Instance RPCResultClass_eq_dec : EqDecision RPCResultClass.
Proof. solve_decision. Defined.

Definition class_name (c : RPCResultClass) : string :=
  match c with
  | RPCResultSuccess => "success"
  | RPCResultInvalidRequest => "invalid_request"
  | RPCResultUnauthenticated => "unauthenticated"
  | RPCResultUnauthorized => "unauthorized"
  | RPCResultRateLimited => "rate_limited"
  | RPCResultDeadline => "deadline"
  | RPCResultInternal => "internal"
  | RPCResultTransportFailure => "transport_failure"
  end%string.

Definition all_classes : list RPCResultClass :=
  [RPCResultSuccess; RPCResultInvalidRequest; RPCResultUnauthenticated; RPCResultUnauthorized;
   RPCResultRateLimited; RPCResultDeadline; RPCResultInternal; RPCResultTransportFailure].

(** A span before and after reduction carries plain strings, as in the source. *)
Record RPCSpan : Type := mkSpan {
  Name : string;
  Method : string;
  Duration : Z;
  Result : string
}.

Definition RPCSpanName : string := "telegram.rpc.server".
Definition UnknownRPCMethod : string := "unknown".
Definition maxRPCTraceMethodLength : Z := 64.
Definition defaultRPCTraceQueueCapacity : Z := 64.

Definition slen (s : string) : Z := Z.of_nat (String.length s).

(** [strings.Contains(s, ".")] *)
Fixpoint contains_dot (s : string) : bool :=
  match s with
  | EmptyString => false
  | String c s' => bool_decide (Ascii.nat_of_ascii c = 46%nat) || contains_dot s'
  end.

(** Every byte from [!] to [~]. *)
Fixpoint printable (s : string) : bool :=
  match s with
  | EmptyString => true
  | String c s' =>
      let n := Z.of_nat (Ascii.nat_of_ascii c) in
      (33 <=? n) && (n <=? 126) && printable s'
  end.

(** [vocab] is [compiledMethodVocabulary], built from gotd's generated registry. *)
Definition sanitizeRPCMethod (vocab : gset string) (method : string) : string :=
  if bool_decide (method = EmptyString) || bool_decide (method = UnknownRPCMethod) ||
     (slen method >? maxRPCTraceMethodLength) || negb (contains_dot method)
  then UnknownRPCMethod
  else if negb (bool_decide (method ∈ vocab)) then UnknownRPCMethod
  else if negb (printable method) then UnknownRPCMethod
  else method.

Definition sanitizeRPCResult (result : string) : string :=
  if existsb (fun c => bool_decide (class_name c = result)) all_classes then result
  else class_name RPCResultInternal.

Definition sanitizeRPCSpan (vocab : gset string) (span : RPCSpan) : RPCSpan :=
  mkSpan RPCSpanName (sanitizeRPCMethod vocab (Method span))
    (if Duration span <? 0 then 0 else Duration span)
    (sanitizeRPCResult (Result span)).

(** ** Classifying an error *)

(** What [ClassifyRPCError] can see of a non-nil error: which sentinels
    [errors.Is] finds in its chain, and the [*tgerr.Error] in it, if any. *)
Record rpc_error : Type := mkErr {
  is_deadline_exceeded : bool;
  is_canceled : bool;
  is_eof : bool;
  is_closed_pipe : bool;
  is_net_closed : bool;
  as_tgerr : option (Z * string)
}.

Definition ClassifyRPCError (err : option rpc_error) : RPCResultClass :=
  match err with
  | None => RPCResultSuccess
  | Some e =>
      if is_deadline_exceeded e then RPCResultDeadline
      else if is_canceled e || is_eof e || is_closed_pipe e || is_net_closed e
      then RPCResultTransportFailure
      else
        match as_tgerr e with
        | Some (code, type) =>
            if (code =? 420) || bool_decide (type = "FLOOD_WAIT"%string) then RPCResultRateLimited
            else if code =? 401 then RPCResultUnauthenticated
            else if code =? 403 then RPCResultUnauthorized
            else if code =? 400 then RPCResultInvalidRequest
            else RPCResultInternal
        | None => RPCResultInternal
        end
  end.

(** [rpcResult] is [req.rpcResult], the empty string when the reply path has not
    set it; [deadline] is whether the request's context ended at its deadline. *)
Definition requestRPCResult (rpcResult : string) (deadline : bool) (err : option rpc_error)
    : string :=
  if negb (bool_decide (rpcResult = EmptyString)) then
    if bool_decide (rpcResult = class_name RPCResultInternal) && deadline
    then class_name RPCResultDeadline
    else if bool_decide (err <> None) && bool_decide (rpcResult = class_name RPCResultSuccess)
    then class_name (ClassifyRPCError err)
    else sanitizeRPCResult rpcResult
  else if deadline then class_name RPCResultDeadline
  else class_name (ClassifyRPCError err).

Definition requestRPCMethod (rpcMethod : string) : string :=
  if negb (bool_decide (rpcMethod = EmptyString)) then rpcMethod else UnknownRPCMethod.

(** ** The recorder *)

(** Where the worker goroutine is in [run]: in its loop, in [drain] (after the
    stop signal), or returned. *)
Inductive worker_phase : Type :=
| Running
| Draining
| Returned.

#[export] Instance worker_phase_eq_dec : EqDecision worker_phase.
Proof. solve_decision. Defined.

Record RPCTracer : Type := mkTracer {
  queue : list RPCSpan;
  capacity : Z;
  active : bool;
  stopped : bool;
  worker : worker_phase;
  exported : Z;
  tr_dropped : Z;
  exporterErrors : Z;
  exporterPanics : Z
}.

Definition set_queue (q : list RPCSpan) (t : RPCTracer) : RPCTracer :=
  mkTracer q (capacity t) (active t) (stopped t) (worker t)
    (exported t) (tr_dropped t) (exporterErrors t) (exporterPanics t).

Definition set_worker (w : worker_phase) (t : RPCTracer) : RPCTracer :=
  mkTracer (queue t) (capacity t) (active t) (stopped t) w
    (exported t) (tr_dropped t) (exporterErrors t) (exporterPanics t).

(** A nil exporter gives a disabled tracer and no worker. *)
Definition NewRPCTracer (exporter_nil : bool) (queueCapacity : Z) : RPCTracer :=
  if exporter_nil then mkTracer [] 0 false false Returned 0 0 0 0
  else mkTracer [] (if queueCapacity <=? 0 then defaultRPCTraceQueueCapacity else queueCapacity)
         true false Running 0 0 0 0.

(** The nonblocking send of [Record], after its [Enabled] test: a recorder that
    passed the test may reach the send after a concurrent [Close]. *)
Definition Record_send (vocab : gset string) (t : RPCTracer) (span : RPCSpan) : RPCTracer :=
  if len (queue t) <? capacity t then set_queue (queue t ++ [sanitizeRPCSpan vocab span]) t
  else
    mkTracer (queue t) (capacity t) (active t) (stopped t) (worker t)
      (exported t) (tr_dropped t + 1) (exporterErrors t) (exporterPanics t).

Definition Tracer_Record (vocab : gset string) (t : RPCTracer) (span : RPCSpan) : RPCTracer :=
  if negb (active t) then t else Record_send vocab t span.

(** [Start]: a handle is the time it started at and whether it was finished. *)
Definition Tracer_Start (t : RPCTracer) (now : Z) : option (Z * bool) :=
  if negb (active t) then None else Some (now, false).

Definition Tracer_Finish (vocab : gset string) (t : RPCTracer) (handle : option (Z * bool))
    (now : Z) (method result : string) : option (Z * bool) * RPCTracer :=
  match handle with
  | None => (None, t)
  | Some (started, true) => (handle, t)
  | Some (started, false) =>
      (Some (started, true),
       Tracer_Record vocab t (mkSpan RPCSpanName method (Z.max (time_sub now started) 0) result))
  end.

Definition Tracer_Close (t : RPCTracer) : RPCTracer :=
  if stopped t then t
  else mkTracer (queue t) (capacity t) false true (worker t)
         (exported t) (tr_dropped t) (exporterErrors t) (exporterPanics t).

Inductive export_outcome : Type :=
| ExportOk
| ExportError
| ExportPanic.

Definition Tracer_export (t : RPCTracer) (o : export_outcome) : RPCTracer :=
  match o with
  | ExportOk => mkTracer (queue t) (capacity t) (active t) (stopped t) (worker t)
                  (exported t + 1) (tr_dropped t) (exporterErrors t) (exporterPanics t)
  | ExportError => mkTracer (queue t) (capacity t) (active t) (stopped t) (worker t)
                     (exported t) (tr_dropped t) (exporterErrors t + 1) (exporterPanics t)
  | ExportPanic => mkTracer (queue t) (capacity t) (active t) (stopped t) (worker t)
                     (exported t) (tr_dropped t) (exporterErrors t) (exporterPanics t + 1)
  end.

(** One turn of [run]'s select on the queue: [None] when nothing is queued.  The
    result carries the span handed to the exporter. *)
Definition run_span (t : RPCTracer) (o : export_outcome) : option (RPCSpan * RPCTracer) :=
  match worker t, queue t with
  | Running, sp :: q =>
      let t' := Tracer_export (set_queue q t) o in
      Some (sp, if negb (active t) then set_worker Draining t' else t')
  | _, _ => None
  end.

(** The other case of the select. *)
Definition run_stop (t : RPCTracer) : option RPCTracer :=
  match worker t with
  | Running => if stopped t then Some (set_worker Draining t) else None
  | _ => None
  end.

(** One turn of [drain]; [expired] is whether its context has ended.  A span
    taken after that is dropped on the way out, and the result's first component
    is what became of the span: [None] nothing was queued, [Some (sp, given)]. *)
Definition drain_turn (t : RPCTracer) (expired : bool) (o : export_outcome)
    : option (option (RPCSpan * bool) * RPCTracer) :=
  match worker t with
  | Draining =>
      match queue t with
      | [] => Some (None, set_worker Returned t)
      | sp :: q =>
          if expired then Some (Some (sp, false), set_worker Returned (set_queue q t))
          else Some (Some (sp, true), Tracer_export (set_queue q t) o)
      end
  | _ => None
  end.

(** ** The in-memory exporter *)

Record MemoryRPCSpanExporter : Type := mkMem {
  mem_capacity : Z;
  spans : list RPCSpan
}.

Definition NewMemoryRPCSpanExporter (cap : Z) : MemoryRPCSpanExporter :=
  mkMem (if cap <=? 0 then defaultRPCTraceQueueCapacity else cap) [].

Inductive mem_error : Type :=
| ErrCtx
| ErrRPCSpanExporterFull.

Definition MemoryRPCSpanExporter_Export (vocab : gset string) (e : MemoryRPCSpanExporter)
    (ctx_err : bool) (span : RPCSpan) : option mem_error * MemoryRPCSpanExporter :=
  if ctx_err then (Some ErrCtx, e)
  else if len (spans e) >=? mem_capacity e then (Some ErrRPCSpanExporterFull, e)
  else (None, mkMem (mem_capacity e) (spans e ++ [sanitizeRPCSpan vocab span])).

(** ** Histories *)

(** The tracer, how many spans reached the send of [Record], what the exporter
    was given (newest first), and the spans the drain discarded at its deadline. *)
Record history : Type := mkHistory {
  tracer : RPCTracer;
  offered : Z;
  given : list RPCSpan;
  discarded : Z
}.

Inductive trace_step (vocab : gset string) : history -> history -> Prop :=
| trace_record h sp :
    trace_step vocab h (mkHistory (Record_send vocab (tracer h) sp) (offered h + 1) (given h)
                          (discarded h))
| trace_run h o sp t' :
    run_span (tracer h) o = Some (sp, t') ->
    trace_step vocab h (mkHistory t' (offered h) (sp :: given h) (discarded h))
| trace_stop h t' :
    run_stop (tracer h) = Some t' ->
    trace_step vocab h (mkHistory t' (offered h) (given h) (discarded h))
| trace_drain h expired o r t' :
    drain_turn (tracer h) expired o = Some (r, t') ->
    trace_step vocab h
      (match r with
       | Some (sp, true) => mkHistory t' (offered h) (sp :: given h) (discarded h)
       | Some (_, false) => mkHistory t' (offered h) (given h) (discarded h + 1)
       | None => mkHistory t' (offered h) (given h) (discarded h)
       end)
| trace_close h :
    trace_step vocab h (mkHistory (Tracer_Close (tracer h)) (offered h) (given h) (discarded h)).

Definition new_history (queueCapacity : Z) : history :=
  mkHistory (NewRPCTracer false queueCapacity) 0 [] 0.

(** What a span outside this package may look like. *)
Definition redacted (vocab : gset string) (sp : RPCSpan) : Prop :=
  Name sp = RPCSpanName /\ (Method sp = UnknownRPCMethod \/ Method sp ∈ vocab) /\
  slen (Method sp) <= maxRPCTraceMethodLength /\ 0 <= Duration sp /\
  exists c, Result sp = class_name c.

Record trace_inv (vocab : gset string) (h : history) : Prop := mkTraceInv {
  ti_cap : len (queue (tracer h)) <= capacity (tracer h);
  ti_queue : Forall (redacted vocab) (queue (tracer h));
  ti_given : Forall (redacted vocab) (given h);
  ti_sum : offered h = len (queue (tracer h)) + tr_dropped (tracer h) + exported (tracer h) +
             exporterErrors (tracer h) + exporterPanics (tracer h) + discarded h;
  ti_len : len (given h) = exported (tracer h) + exporterErrors (tracer h) +
             exporterPanics (tracer h);
  ti_disc : discarded h = 0 \/ discarded h = 1 /\ worker (tracer h) = Returned
}.

(** ** Proofs *)

Lemma sanitizeRPCMethod_vocab vocab s :
  (sanitizeRPCMethod vocab s = UnknownRPCMethod \/ sanitizeRPCMethod vocab s ∈ vocab) /\
  slen (sanitizeRPCMethod vocab s) <= maxRPCTraceMethodLength.
Proof.
  unfold sanitizeRPCMethod. destruct (_ || _) eqn:G1; [split; [by left|done]|].
  destruct (negb (bool_decide (s ∈ vocab))) eqn:G2; [split; [by left|done]|].
  destruct (negb (printable s)); [split; [by left|done]|].
  apply negb_false_iff, bool_decide_eq_true in G2.
  repeat (apply orb_false_iff in G1 as [G1 ?]). split; [by right|lia].
Qed.

Lemma sanitizeRPCResult_class s : exists c, sanitizeRPCResult s = class_name c.
Proof.
  unfold sanitizeRPCResult. destruct (existsb _ _) eqn:G; [|by eexists].
  apply existsb_exists in G as (c & _ & Hc). apply bool_decide_eq_true in Hc. by exists c.
Qed.

Lemma sanitizeRPCResult_success s :
  s <> class_name RPCResultSuccess -> sanitizeRPCResult s <> class_name RPCResultSuccess.
Proof. unfold sanitizeRPCResult. by destruct (existsb _ _). Qed.

Lemma sanitizeRPCSpan_redacted vocab sp : redacted vocab (sanitizeRPCSpan vocab sp).
Proof.
  destruct (sanitizeRPCMethod_vocab vocab (Method sp)).
  repeat split; try done; simpl; [case_match; lia|apply sanitizeRPCResult_class].
Qed.

Lemma Record_send_inv vocab h sp :
  trace_inv vocab h ->
  trace_inv vocab (mkHistory (Record_send vocab (tracer h) sp) (offered h + 1) (given h)
                     (discarded h)).
Proof.
  intros [Hc Hq Hg Hs Hl Hd]. unfold Record_send.
  destruct (len (queue (tracer h)) <? capacity (tracer h)) eqn:E;
    constructor; simpl; rewrite ?len_app; try done; try (change (len [_]) with 1; lia).
  apply Forall_app; split; [done|]. apply Forall_singleton, sanitizeRPCSpan_redacted.
Qed.

Lemma trace_step_inv vocab h h' :
  trace_inv vocab h -> trace_step vocab h h' -> trace_inv vocab h'.
Proof.
  intros I S. revert I. destruct S as [h sp|h o sp t' E|h t' E|h ex o r t' E|h]; intros I.
  - by apply Record_send_inv.
  - destruct I as [Hc Hq Hg Hs Hl Hd]. unfold run_span in E. destruct (worker (tracer h)) eqn:W;
      [|done..]. destruct (queue (tracer h)) as [|sp' q] eqn:Q; [done|]. simplify_eq.
    apply Forall_cons in Hq as [H1 H2]. rewrite len_cons in *.
    destruct (active (tracer h)), o; constructor; simpl; rewrite ?len_cons; try lia;
      (by constructor) || (destruct Hd as [|[_ ?]]; [by left|done]) || idtac; done.
  - destruct I as [Hc Hq Hg Hs Hl Hd]. unfold run_stop in E.
    destruct (worker (tracer h)) eqn:W, (stopped (tracer h)); simplify_eq.
    constructor; simpl; try done. destruct Hd as [|[_ ?]]; [by left|done].
  - destruct I as [Hc Hq Hg Hs Hl Hd]. unfold drain_turn in E.
    destruct (worker (tracer h)) eqn:W; [done| |done].
    assert (discarded h = 0) by (by destruct Hd as [|[_ ?]]).
    destruct (queue (tracer h)) as [|sp' q] eqn:Q; simplify_eq.
    { constructor; simpl; rewrite ?Q; first [done|lia|by left]. }
    apply Forall_cons in Hq as [H1 H2]. rewrite len_cons in *.
    destruct ex; simplify_eq; [|destruct o]; constructor; simpl; rewrite ?len_cons;
      first [done|lia|by constructor|by left|right; split; [lia|done]].
  - destruct I as [Hc Hq Hg Hs Hl Hd]. unfold Tracer_Close.
    destruct (stopped (tracer h)); by constructor.
Qed.

Lemma new_history_inv vocab n : trace_inv vocab (new_history n).
Proof.
  unfold new_history, NewRPCTracer, defaultRPCTraceQueueCapacity.
  constructor; simpl; change (@len RPCSpan []) with 0; try constructor; try done.
  destruct (n <=? 0) eqn:E; lia.
Qed.

(** Whatever spans are recorded and however recorders, the worker
    and a shutdown interleave, the queue never exceeds its capacity, every span
    the exporter is given carries only the fixed name, a method of the compiled
    vocabulary (or [unknown]) of at most 64 bytes, a nonnegative duration and one
    of the eight result classes, and the counters account for every recorded
    span: each is queued, dropped, exported, counted as a failed export, or is
    the at most one span the shutdown drain discards at its deadline. *)
Theorem spans_redacted_and_accounted (vocab : gset string) (n : Z) (h : history) :
  rtc (trace_step vocab) (new_history n) h ->
  len (queue (tracer h)) <= capacity (tracer h) /\
  Forall (redacted vocab) (given h) /\
  offered h = len (queue (tracer h)) + tr_dropped (tracer h) + exported (tracer h) +
    exporterErrors (tracer h) + exporterPanics (tracer h) + discarded h /\
  0 <= discarded h <= 1.
Proof.
  intros R. destruct (rtc_invariant (trace_inv vocab) _ _ _ (trace_step_inv vocab)
    (new_history_inv vocab n) R) as [? ? ? ? ? Hd].
  repeat split; try done; destruct Hd as [|[? _]]; lia.
Qed.

(** A history with a full queue: one of three spans is exported, one waits and
    one is dropped; the names a caller made up are reduced. *)
Lemma spans_redacted_and_accounted_witness :
  exists h, rtc (trace_step {["auth.sendCode"%string]}) (new_history 1) h /\
    given h = [mkSpan RPCSpanName UnknownRPCMethod 0 "internal"%string] /\
    tr_dropped (tracer h) = 1 /\
    (len (queue (tracer h)) <= capacity (tracer h) /\
     Forall (redacted {["auth.sendCode"%string]}) (given h) /\
     offered h = len (queue (tracer h)) + tr_dropped (tracer h) + exported (tracer h) +
       exporterErrors (tracer h) + exporterPanics (tracer h) + discarded h /\
     0 <= discarded h <= 1).
Proof.
  set (v := {["auth.sendCode"%string]} : gset string).
  set (sp := mkSpan "x" "secret +1555" (-5) "stack trace").
  set (h := mkHistory (mkTracer [mkSpan RPCSpanName "auth.sendCode" 7 "success"] 1 true false
                         Running 1 1 0 0) 3 [mkSpan RPCSpanName UnknownRPCMethod 0 "internal"] 0).
  assert (R : rtc (trace_step v) (new_history 1) h).
  { eapply rtc_l; [apply (trace_record _ _ sp)|].
    eapply rtc_l; [apply (trace_record _ _ sp)|].
    eapply rtc_l; [eapply (trace_run _ _ ExportOk); vm_compute; reflexivity|].
    eapply rtc_l; [apply (trace_record _ _ (mkSpan "" "auth.sendCode" 7 "success"))|].
    apply rtc_of_eq. vm_compute. reflexivity. }
  exists h. split; [exact R|]. split; [vm_compute; reflexivity|]. split; [vm_compute; reflexivity|].
  exact (spans_redacted_and_accounted v 1 h R).
Defined.

(** The class recorded for a request is always one of the eight,
    a reply that failed in transport or was answered with an error is never
    recorded as a success, and a request whose context ended at its deadline
    is recorded as [deadline] unless the reply path had already classified it. *)
Theorem requestRPCResult_class (r : string) (deadline : bool) (err : option rpc_error) :
  (exists c, requestRPCResult r deadline err = class_name c) /\
  (requestRPCResult r deadline err = class_name RPCResultSuccess <->
   err = None /\ (r = class_name RPCResultSuccess \/ r = EmptyString /\ deadline = false)) /\
  (deadline = true -> r = EmptyString \/ r = class_name RPCResultInternal ->
   requestRPCResult r deadline err = class_name RPCResultDeadline).
Proof.
  unfold requestRPCResult. split; [|split].
  - repeat case_match; first [by eexists|apply sanitizeRPCResult_class].
  - destruct err as [e|].
    + split; [|by intros [? _]]. intros H. exfalso. revert H.
      assert (Hne : ClassifyRPCError (Some e) <> RPCResultSuccess)
        by (simpl; repeat case_match; done).
      assert (Hcn : class_name (ClassifyRPCError (Some e)) <> class_name RPCResultSuccess)
        by (by destruct (ClassifyRPCError (Some e))).
      destruct (decide (r = EmptyString)) as [->|Hr].
      { by destruct deadline. }
      rewrite (bool_decide_eq_false_2 _ Hr). cbn [negb].
      destruct (bool_decide (r = class_name RPCResultInternal) && deadline); [done|].
      destruct (decide (r = class_name RPCResultSuccess)) as [->|Hs];
        [by rewrite !bool_decide_eq_true_2|].
      rewrite (bool_decide_eq_false_2 _ Hs), andb_false_r.
      by apply sanitizeRPCResult_success.
    + destruct (decide (r = EmptyString)) as [->|Hr].
      { destruct deadline; naive_solver. }
      rewrite (bool_decide_eq_false_2 _ Hr). cbn [negb].
      destruct (bool_decide (r = class_name RPCResultInternal) && deadline) eqn:G.
      { apply andb_true_iff in G as [->%bool_decide_eq_true _]. naive_solver. }
      split; [|naive_solver]. intros H. split; [done|]. left.
      destruct (decide (r = class_name RPCResultSuccess)) as [|Hs]; [done|].
      by apply sanitizeRPCResult_success in H.
  - intros -> [->| ->]; done.
Qed.

Lemma requestRPCResult_class_witness :
  requestRPCResult "internal" true None = class_name RPCResultDeadline.
Proof. apply (requestRPCResult_class "internal" true None); [reflexivity|right; reflexivity]. Defined.
