(* ===== verification/Conn.v ===== *)
(** * One served connection

    The [Conn] of [internal/mtproto/send.go] less the parts with files of their
    own (the recovery snapshots, the unimplemented-method budgets and the outcome
    ring): the binding to a key, a session and an owner, the sender-result
    barriers, the push watermark and the writes.

    Every operation of the source that touches this state holds [writeMu] for its
    whole body, so each is one function from the state before to the state after;
    [setKey], which publishes the key id after unlocking, is the composition of two
    functions that other goroutines may run between. *)

From S2P Require Import Prelude.
From S2P Require Import RpcTrace.
From S2P Require Import Recovery.
From S2P Require Import Budget.

(** ** State *)

Record RPCUpdateReservation : Type := mkReservation {
  rs_owner : Z;
  rs_authKey : Z;
  rs_id : Z;
  rs_owned : bool;
  rs_overflow : bool
}.

Definition no_reservation : RPCUpdateReservation := mkReservation 0 0 0 false false.

Record pendingRPCOverflowEntry : Type := mkOverflow {
  oe_id : Z;
  oe_pts : Z;
  oe_ready : bool
}.

Definition maxPendingRPCUpdates : Z := 64.
Definition maxPendingRPCOverflowUpdates : Z := maxPendingRPCUpdates.

(** The sender-result barriers: the regular queue as three parallel slices, and
    the overflow hold. *)
Record barriers : Type := mkBarriers {
  pendingRPCOwner : Z;
  pendingRPCAuthKey : Z;
  pendingRPCPts : list Z;
  pendingRPCIDs : list Z;
  pendingRPCReady : list bool;
  nextPendingRPCID : Z;
  pendingRPCOverflow : list pendingRPCOverflowEntry;
  pendingRPCOverflowSaturated : bool
}.

(** A [crypto.AuthKey]: the key and the 64-bit id derived from it. *)
Record AuthKey : Type := mkAuthKey {
  ak_value : Z;
  IntID : Z
}.

#[export] Instance AuthKey_eq_dec : EqDecision AuthKey.
Proof. solve_decision. Defined.

Record Conn : Type := mkConn {
  authKey : AuthKey;
  authKeyID : Z;
  sessionID : Z;
  owner : Z;
  recoveryBinding : Z * Z;
  lastPushedPts : Z;
  barrier : barriers;
  pendingLogin : bool;
  pendingLoginAt : Z;
  recovery : dialogFilterRecovery;
  recoveryClaim : Z;
  outcomes : outcome_ring;
  created : gset Z;
  systemLangCodeHint : string;
  unimplemented : unimplementedBudget;
  langpack : langpackBudget;
  transport_closed : bool
}.

(** Updates of one part of the state. *)
Definition set_barrier (b : barriers) (c : Conn) : Conn :=
  mkConn (authKey c) (authKeyID c) (sessionID c) (owner c) (recoveryBinding c) (lastPushedPts c)
    b (pendingLogin c) (pendingLoginAt c) (recovery c) (recoveryClaim c) (outcomes c) (created c)
    (systemLangCodeHint c) (unimplemented c) (langpack c) (transport_closed c).

Definition set_lastPushedPts (p : Z) (c : Conn) : Conn :=
  mkConn (authKey c) (authKeyID c) (sessionID c) (owner c) (recoveryBinding c) p
    (barrier c) (pendingLogin c) (pendingLoginAt c) (recovery c) (recoveryClaim c) (outcomes c)
    (created c) (systemLangCodeHint c) (unimplemented c) (langpack c) (transport_closed c).

Definition set_outcomes (r : outcome_ring) (c : Conn) : Conn :=
  mkConn (authKey c) (authKeyID c) (sessionID c) (owner c) (recoveryBinding c) (lastPushedPts c)
    (barrier c) (pendingLogin c) (pendingLoginAt c) (recovery c) (recoveryClaim c) r (created c)
    (systemLangCodeHint c) (unimplemented c) (langpack c) (transport_closed c).

Definition set_created (s : gset Z) (c : Conn) : Conn :=
  mkConn (authKey c) (authKeyID c) (sessionID c) (owner c) (recoveryBinding c) (lastPushedPts c)
    (barrier c) (pendingLogin c) (pendingLoginAt c) (recovery c) (recoveryClaim c) (outcomes c) s
    (systemLangCodeHint c) (unimplemented c) (langpack c) (transport_closed c).

Definition set_closed (c : Conn) : Conn :=
  mkConn (authKey c) (authKeyID c) (sessionID c) (owner c) (recoveryBinding c) (lastPushedPts c)
    (barrier c) (pendingLogin c) (pendingLoginAt c) (recovery c) (recoveryClaim c) (outcomes c)
    (created c) (systemLangCodeHint c) (unimplemented c) (langpack c) true.

(** ** Construction and binding *)

(** No barrier; the id counter is never reset. *)
Definition no_barriers (next : Z) : barriers := mkBarriers 0 0 [] [] [] next [] false.

Definition newConn : Conn :=
  mkConn (mkAuthKey 0 0) 0 0 0 (0, 0) 0 (no_barriers 0) false 0
    (resetDialogFilterRecovery 0 0) 0 resetRPCOutcomesLocked ∅ EmptyString newBudget
    (mkLangpack time_zero 0) false.

Definition setOwner (c : Conn) (userID : Z) : Conn :=
  if owner c =? userID then c
  else
    mkConn (authKey c) (authKeyID c) (sessionID c) userID (userID, sessionID c) 0
      (no_barriers (nextPendingRPCID (barrier c))) (pendingLogin c) (pendingLoginAt c)
      (resetDialogFilterRecovery userID (sessionID c)) (recoveryClaim c) resetRPCOutcomesLocked
      (created c) (systemLangCodeHint c) (unimplemented c) (langpack c) (transport_closed c).

(** [setKey] up to its unlock, and the store that follows it. *)
Definition setKey_locked (c : Conn) (key : AuthKey) : Conn :=
  let keyChanged := negb (IntID (authKey c) =? IntID key) in
  mkConn key (authKeyID c) (sessionID c) (owner c) (recoveryBinding c) (lastPushedPts c)
    (if keyChanged then no_barriers (nextPendingRPCID (barrier c)) else barrier c)
    (pendingLogin c) (pendingLoginAt c)
    (if keyChanged then resetDialogFilterRecovery (owner c) (sessionID c) else recovery c)
    (recoveryClaim c) (if keyChanged then resetRPCOutcomesLocked else outcomes c)
    (created c) (systemLangCodeHint c) (unimplemented c) (langpack c) (transport_closed c).

Definition setKey_store (c : Conn) (keyID : Z) : Conn :=
  mkConn (authKey c) keyID (sessionID c) (owner c) (recoveryBinding c) (lastPushedPts c)
    (barrier c) (pendingLogin c) (pendingLoginAt c) (recovery c) (recoveryClaim c) (outcomes c)
    (created c) (systemLangCodeHint c) (unimplemented c) (langpack c) (transport_closed c).

Definition setKey (c : Conn) (key : AuthKey) : Conn :=
  setKey_store (setKey_locked c key) (IntID key).

Definition setSession (c : Conn) (id : Z) : Conn :=
  let changed := negb (sessionID c =? id) in
  mkConn (authKey c) (authKeyID c) id (owner c) (owner c, id) (lastPushedPts c)
    (barrier c) (pendingLogin c) (pendingLoginAt c)
    (if changed then resetDialogFilterRecovery (owner c) id else recovery c) (recoveryClaim c)
    (if changed then resetRPCOutcomesLocked else outcomes c)
    (created c) (systemLangCodeHint c) (unimplemented c) (langpack c) (transport_closed c).

(** Whether [new_session_created] was already sent for the session. *)
Definition markCreated (c : Conn) (session : Z) : bool * Conn :=
  if bool_decide (session ∈ created c) then (true, c)
  else (false, set_created ({[session]} ∪ created c) c).

(** [now] is the clock's time in nanoseconds since the Unix epoch. *)
Definition MarkPendingLogin (c : Conn) (now : Z) : Conn :=
  if pendingLogin c then c
  else
    mkConn (authKey c) (authKeyID c) (sessionID c) (owner c) (recoveryBinding c) (lastPushedPts c)
      (barrier c) true now (recovery c) (recoveryClaim c) (outcomes c) (created c)
      (systemLangCodeHint c) (unimplemented c) (langpack c) (transport_closed c).

(** ** Removing a barrier *)

(** [copy(s[i:], s[i+1:])] and the re-slice drop the element at [i].  The slices
    become nil with the last element, which a list does not distinguish. *)
Definition removePendingRPCAtLocked (b : barriers) (index : nat) : barriers :=
  let pts := delete index (pendingRPCPts b) in
  let ids := delete index (pendingRPCIDs b) in
  let ready := delete index (pendingRPCReady b) in
  if len pts =? 0 then
    mkBarriers 0 0 pts [] [] (nextPendingRPCID b) (pendingRPCOverflow b)
      (pendingRPCOverflowSaturated b)
  else
    mkBarriers (pendingRPCOwner b) (pendingRPCAuthKey b) pts ids ready (nextPendingRPCID b)
      (pendingRPCOverflow b) (pendingRPCOverflowSaturated b).

Definition set_overflow (o : list pendingRPCOverflowEntry) (b : barriers) : barriers :=
  mkBarriers (pendingRPCOwner b) (pendingRPCAuthKey b) (pendingRPCPts b) (pendingRPCIDs b)
    (pendingRPCReady b) (nextPendingRPCID b) o (pendingRPCOverflowSaturated b).

Definition set_pts (p : list Z) (b : barriers) : barriers :=
  mkBarriers (pendingRPCOwner b) (pendingRPCAuthKey b) p (pendingRPCIDs b)
    (pendingRPCReady b) (nextPendingRPCID b) (pendingRPCOverflow b)
    (pendingRPCOverflowSaturated b).

Definition set_ready (r : list bool) (b : barriers) : barriers :=
  mkBarriers (pendingRPCOwner b) (pendingRPCAuthKey b) (pendingRPCPts b) (pendingRPCIDs b)
    r (nextPendingRPCID b) (pendingRPCOverflow b) (pendingRPCOverflowSaturated b).

Definition removePendingRPCOverflowAtLocked (b : barriers) (index : nat) : barriers :=
  set_overflow (delete index (pendingRPCOverflow b)) b.

(** ** Registering a barrier *)

(** [c.nextPendingRPCID++], skipping 0 when the counter wraps. *)
Definition next_pending_id (n : Z) : Z :=
  let n' := wrap_u64 (n + 1) in if n' =? 0 then 1 else n'.

Definition push_overflow (b : barriers) : barriers :=
  let id := next_pending_id (nextPendingRPCID b) in
  mkBarriers (pendingRPCOwner b) (pendingRPCAuthKey b) (pendingRPCPts b) (pendingRPCIDs b)
    (pendingRPCReady b) id (pendingRPCOverflow b ++ [mkOverflow id 0 false])
    (pendingRPCOverflowSaturated b).

Definition saturate (b : barriers) : barriers :=
  mkBarriers (pendingRPCOwner b) (pendingRPCAuthKey b) (pendingRPCPts b) (pendingRPCIDs b)
    (pendingRPCReady b) (nextPendingRPCID b) (pendingRPCOverflow b) true.

Definition push_regular (b : barriers) (ow authKeyID pts : Z) : barriers :=
  let id := next_pending_id (nextPendingRPCID b) in
  mkBarriers ow authKeyID (pendingRPCPts b ++ [pts]) (pendingRPCIDs b ++ [id])
    (pendingRPCReady b ++ [false]) id (pendingRPCOverflow b) (pendingRPCOverflowSaturated b).

(** The retry of a send whose barrier is already registered. *)
Definition known_barrier (b : barriers) (ow ak pts : Z) : option RPCUpdateReservation :=
  if pts >? 0 then
    match list_find (fun p => p = pts) (pendingRPCPts b) with
    | Some (i, _) => Some (mkReservation ow ak (default 0 (pendingRPCIDs b !! i)) false false)
    | None =>
        match list_find (fun e => oe_pts e = pts) (pendingRPCOverflow b) with
        | Some (_, e) => Some (mkReservation ow ak (oe_id e) false true)
        | None => None
        end
    end
  else None.

Definition BeginRPCUpdateAttempt (c : Conn) (ow ak pts : Z)
    : RPCUpdateReservation * bool * Conn :=
  if (ow <=? 0) || (ak =? 0) || (pts <? 0) then (no_reservation, false, c)
  else if negb (owner c =? ow) || negb (authKeyID c =? ak) then (no_reservation, false, c)
  else
    let b := barrier c in
    match known_barrier b ow ak pts with
    | Some r => (r, true, c)
    | None =>
        if (len (pendingRPCOverflow b) >? 0) || pendingRPCOverflowSaturated b then
          if pendingRPCOverflowSaturated b then (mkReservation ow ak 0 false true, false, c)
          else if len (pendingRPCOverflow b) >=? maxPendingRPCOverflowUpdates
          then (mkReservation ow ak 0 false true, false, set_barrier (saturate b) c)
          else
            let b' := push_overflow b in
            (mkReservation ow ak (nextPendingRPCID b') true true, false, set_barrier b' c)
        else if len (pendingRPCPts b) >=? maxPendingRPCUpdates then
          let b' := push_overflow b in
          (mkReservation ow ak (nextPendingRPCID b') true true, false, set_barrier b' c)
        else
          let b' := push_regular b ow ak pts in
          (mkReservation ow ak (nextPendingRPCID b') true false, true, set_barrier b' c)
    end.

Definition BeginRPCUpdate (c : Conn) (ow ak pts : Z) : bool * Conn :=
  let '(_, ok, c') := BeginRPCUpdateAttempt c ow ak pts in (ok, c').

(** ** Recording the committed pts *)

Definition bound_barriers (c : Conn) (ow ak : Z) : bool :=
  (pendingRPCOwner (barrier c) =? ow) && (pendingRPCAuthKey (barrier c) =? ak).

Definition bound_conn (c : Conn) (ow ak : Z) : bool :=
  (owner c =? ow) && (authKeyID c =? ak).

Definition SetRPCUpdatePts (c : Conn) (ow ak pts : Z) : bool * Conn :=
  if (ow <=? 0) || (ak =? 0) || (pts <=? 0) then (false, c)
  else if negb (bound_barriers c ow ak) || negb (bound_conn c ow ak) then (false, c)
  else
    match find_last (fun p => p =? 0) (pendingRPCPts (barrier c)) with
    | Some i =>
        (true, set_barrier (set_pts (<[i := pts]> (pendingRPCPts (barrier c))) (barrier c)) c)
    | None => (false, c)
    end.

Definition SetRPCUpdatePtsAttempt (c : Conn) (r : RPCUpdateReservation) (pts : Z) : bool * Conn :=
  let b := barrier c in
  if pts <=? 0 then (false, c)
  else if negb (bound_conn c (rs_owner r) (rs_authKey r)) then (false, c)
  else if rs_overflow r then
    if rs_id r =? 0 then (pendingRPCOverflowSaturated b, c)
    else
      match list_find (fun e => oe_id e = rs_id r) (pendingRPCOverflow b) with
      | Some (i, e) =>
          if negb (rs_owned r) then (oe_pts e =? pts, c)
          else if oe_pts e =? 0 then
            (true, set_barrier
               (set_overflow (<[i := mkOverflow (oe_id e) pts (oe_ready e)]> (pendingRPCOverflow b))
                  b) c)
          else (oe_pts e =? pts, c)
      | None => (false, c)
      end
  else if negb (rs_owned r) then (false, c)
  else if negb (bound_barriers c (rs_owner r) (rs_authKey r)) then (false, c)
  else
    match list_find (fun id => id = rs_id r) (pendingRPCIDs b) with
    | Some (i, _) =>
        let p := default 0 (pendingRPCPts b !! i) in
        if p =? 0 then (true, set_barrier (set_pts (<[i := pts]> (pendingRPCPts b)) b) c)
        else (p =? pts, c)
    | None => (false, c)
    end.

(** ** Releasing a barrier *)

Definition clearRPCUpdateLocked (c : Conn) (ow ak : Z) : bool * Conn :=
  if negb (bound_barriers c ow ak) || (len (pendingRPCPts (barrier c)) =? 0) then (false, c)
  else
    (true, set_barrier
       (removePendingRPCAtLocked (barrier c) (length (pendingRPCPts (barrier c)) - 1)) c).

Definition ClearRPCUpdate (c : Conn) (ow ak : Z) : bool * Conn :=
  if (ow <=? 0) || (ak =? 0) then (false, c) else clearRPCUpdateLocked c ow ak.

Definition ClearRPCUpdateAttempt (c : Conn) (r : RPCUpdateReservation) : bool * Conn :=
  let b := barrier c in
  if rs_overflow r then
    if (rs_id r =? 0) || negb (rs_owned r) || negb (bound_conn c (rs_owner r) (rs_authKey r))
    then (false, c)
    else
      match list_find (fun e => oe_id e = rs_id r) (pendingRPCOverflow b) with
      | Some (i, _) => (true, set_barrier (removePendingRPCOverflowAtLocked b i) c)
      | None => (false, c)
      end
  else if negb (rs_owned r) then (false, c)
  else if negb (bound_barriers c (rs_owner r) (rs_authKey r)) ||
          negb (bound_conn c (rs_owner r) (rs_authKey r)) then (false, c)
  else
    match list_find (fun id => id = rs_id r) (pendingRPCIDs b) with
    | Some (i, _) => (true, set_barrier (removePendingRPCAtLocked b i) c)
    | None => (false, c)
    end.

(** ** Reading the first barrier *)

(** [(pts, pending)] *)
Definition PendingRPCUpdate (c : Conn) (ow : Z) : Z * bool :=
  let b := barrier c in
  if (pendingRPCOwner b =? ow) && (len (pendingRPCPts b) >? 0) then (hd 0 (pendingRPCPts b), true)
  else if owner c =? ow then
    match pendingRPCOverflow b with
    | e :: _ => (oe_pts e, true)
    | [] => (0, pendingRPCOverflowSaturated b)
    end
  else (0, false).

Definition PendingRPCUpdateReady (c : Conn) (ow : Z) : bool :=
  let b := barrier c in
  if (pendingRPCOwner b =? ow) && (len (pendingRPCPts b) >? 0) then
    match pendingRPCReady b with r :: _ => r | [] => false end
  else if owner c =? ow then
    match pendingRPCOverflow b with e :: _ => oe_ready e | [] => false end
  else false.

(** ** Accounting for an event *)

(** [if int64(pts) > current { c.lastPushedPts.Store(int64(pts)) }] *)
Definition advance (c : Conn) (pts : Z) : Conn :=
  if pts >? lastPushedPts c then set_lastPushedPts pts c else c.

Definition markRPCUpdateLocked (c : Conn) (ow ak pts : Z) : bool * Conn :=
  let b := barrier c in
  if (ak =? 0) || (pts <=? 0) then (false, c)
  else if negb (bound_conn c ow ak) then (false, c)
  else
    match pendingRPCPts b with
    | pendingPts :: _ =>
        if pendingPts =? 0 then (false, c)
        else if negb (pendingPts =? pts) then (pts <=? lastPushedPts c, c)
        else (true, set_barrier (removePendingRPCAtLocked b 0) (advance c pts))
    | [] =>
        match pendingRPCOverflow b with
        | e :: _ =>
            if oe_pts e =? 0 then (false, c)
            else if negb (oe_pts e =? pts) then (pts <=? lastPushedPts c, c)
            else (true, set_barrier (removePendingRPCOverflowAtLocked b 0) (advance c pts))
        | [] => (true, advance c pts)
        end
    end.

Definition MarkRPCUpdate (c : Conn) (ow ak pts : Z) : bool * Conn :=
  if (ak =? 0) || (pts <=? 0) then (false, c) else markRPCUpdateLocked c ow ak pts.

Definition set_overflow_ready (i : nat) (b : barriers) : barriers :=
  set_overflow
    (alter (fun e => mkOverflow (oe_id e) (oe_pts e) true) i (pendingRPCOverflow b)) b.

(** The barriers carrying [pts], searched from the newest: one in the regular queue,
    when it is bound to this owner and key, and one in the overflow. *)
Definition result_pending (c : Conn) (ow ak pts : Z) : option nat :=
  if bound_barriers c ow ak then find_last (fun p => p =? pts) (pendingRPCPts (barrier c)) else None.

Definition result_overflow (c : Conn) (pts : Z) : option nat :=
  find_last (fun e => oe_pts e =? pts) (pendingRPCOverflow (barrier c)).

Definition result_ready (b : barriers) (pendingIndex overflowIndex : option nat) : barriers :=
  let b1 := match pendingIndex with
            | Some i => set_ready (<[i := true]> (pendingRPCReady b)) b
            | None => b
            end in
  match overflowIndex with Some i => set_overflow_ready i b1 | None => b1 end.

Definition result_remove (b : barriers) (pendingIndex overflowIndex : option nat) : barriers :=
  match pendingIndex, overflowIndex with
  | Some i, _ => removePendingRPCAtLocked b i
  | None, Some i => removePendingRPCOverflowAtLocked b i
  | None, None => b
  end.

Definition markRPCResultLocked (c : Conn) (ow ak pts : Z) : bool * Conn :=
  if (ak =? 0) || (pts <=? 0) then (false, c)
  else if negb (bound_conn c ow ak) then (false, c)
  else
    let pendingIndex := result_pending c ow ak pts in
    let overflowIndex := result_overflow c pts in
    let current := lastPushedPts c in
    let b := result_ready (barrier c) pendingIndex overflowIndex in
    if pts <=? current
    then (true, set_barrier (result_remove b pendingIndex overflowIndex) c)
    else if pts =? current + 1
    then (true, set_barrier (result_remove b pendingIndex overflowIndex) (set_lastPushedPts pts c))
    else (true, set_barrier b c).

(** ** Writes *)

Inductive MessageType : Type :=
| MessageFromServer
| MessageServerResponse.

(** What one write meets outside this code: whether the caller's context has
    ended when the lock is taken, the message id drawn, and whether gotd's
    encryption, the socket write and a close succeed. *)
Record io : Type := mkIO {
  io_ctx_err : bool;
  io_msg_id : Z;
  io_encrypt_ok : bool;
  io_send_ok : bool;
  io_close_ok : bool
}.

Definition io_good : io := mkIO false 1 true true true.

(** A frame handed to the transport: what it was encrypted under and its body. *)
Record frame : Type := mkFrame {
  f_key : AuthKey;
  f_session : Z;
  f_msg_id : Z;
  f_type : MessageType;
  f_body : list Z
}.

Inductive send_error : Type :=
| ErrTooLarge
| ErrEncrypt
| ErrSend
| ErrSendClose.

Inductive push_error : Type :=
| ErrEncode
| ErrNotAttempted
| ErrPush (e : send_error).

(** The frame the transport was given, if any, and the error. *)
Definition sendLocked (c : Conn) (w : io) (t : MessageType) (b : list Z)
    : option frame * option send_error :=
  if len b >? 2 ^ 31 - 1 then (None, Some ErrTooLarge)
  else if negb (io_encrypt_ok w) then (None, Some ErrEncrypt)
  else
    let f := mkFrame (authKey c) (sessionID c) (io_msg_id w) t b in
    if negb (io_send_ok w) then (Some f, Some ErrSend) else (Some f, None).

(** A failed push closes the transport. *)
Definition close_after (w : io) (e : send_error) : push_error :=
  ErrPush (if io_close_ok w then e else ErrSendClose).

(** What a push returns: [written], [stale] (of the ordered variant), the error and
    the frame handed to the transport. *)
Record push_result : Type := mkPush {
  p_written : bool;
  p_stale : bool;
  p_err : option push_error;
  p_frame : option frame
}.

Definition push_nothing (stale : bool) (e : option push_error) : push_result :=
  mkPush false stale e None.

(** [enc] is the encoder's outcome: [None] for an encoding error. *)
Definition PushTo (c : Conn) (w : io) (ow : Z) (enc : option (list Z)) (pts : Z)
    : push_result * Conn :=
  match enc with
  | None => (push_nothing false (Some ErrEncode), c)
  | Some b =>
      if io_ctx_err w then (push_nothing false (Some ErrNotAttempted), c)
      else if negb (owner c =? ow) then (push_nothing false None, c)
      else
        match sendLocked c w MessageFromServer b with
        | (f, Some e) => (mkPush false false (Some (close_after w e)) f, set_closed c)
        | (f, None) =>
            (mkPush true false None f, if pts >? 0 then set_lastPushedPts pts c else c)
        end
  end.

Definition PushDialogFilterRecovery (c : Conn) (w : io) (ow session claimID : Z)
    (enc : option (list Z)) : push_result * Conn :=
  match enc with
  | None => (push_nothing false (Some ErrEncode), c)
  | Some b =>
      if io_ctx_err w then (push_nothing false (Some ErrNotAttempted), c)
      else
        let state := recovery c in
        if negb (owner c =? ow) || negb (sessionID c =? session) ||
           negb (bound_to state ow session) || negb (r_initialized state) ||
           negb (r_inFlight state) || negb (r_claimID state =? claimID)
        then (push_nothing false None, c)
        else
          match sendLocked c w MessageFromServer b with
          | (f, Some e) => (mkPush false false (Some (close_after w e)) f, set_closed c)
          | (f, None) => (mkPush true false None f, c)
          end
  end.

Definition PushToAtWatermark (c : Conn) (w : io) (ow expectedPts : Z) (enc : option (list Z))
    (pts : Z) : push_result * Conn :=
  match enc with
  | None => (push_nothing false (Some ErrEncode), c)
  | Some b =>
      if io_ctx_err w then (push_nothing false (Some ErrNotAttempted), c)
      else if negb (owner c =? ow) then (push_nothing false None, c)
      else if negb (lastPushedPts c =? expectedPts) then (push_nothing true None, c)
      else
        match sendLocked c w MessageFromServer b with
        | (f, Some e) => (mkPush false false (Some (close_after w e)) f, set_closed c)
        | (f, None) =>
            (mkPush true false None f,
             if (pts >? 0) && (pts >? lastPushedPts c) then set_lastPushedPts pts c else c)
        end
  end.

(** ** Replies *)

Record Request : Type := mkRequest {
  MsgID : Z;
  SessionID : Z;
  rpcResult : option RPCResultClass
}.

Definition set_rpcResult (r : RPCResultClass) (req : Request) : Request :=
  mkRequest (MsgID req) (SessionID req) (Some r).

Inductive result_error : Type :=
| ErrEncodeResult
| ErrSendResult (e : send_error).

(** The outcome of a reply: error, frame, and the request with its recorded class. *)
Record reply : Type := mkReply {
  rp_err : option result_error;
  rp_frame : option frame;
  rp_req : Request
}.

(** [msg] is the encoded envelope ([None] when the message or its envelope does
    not encode); [onSuccess] runs under the lock after a successful write. *)
Definition sendResult (c : Conn) (w : io) (req : Request) (msg : option (list Z))
    (onSuccess : Conn -> Conn) : reply * Conn :=
  match msg with
  | None => (mkReply (Some ErrEncodeResult) None (set_rpcResult RPCResultInternal req), c)
  | Some wire =>
      match sendLocked c w MessageServerResponse wire with
      | (f, Some e) =>
          (mkReply (Some (ErrSendResult e)) f
             (set_rpcResult RPCResultTransportFailure req), c)
      | (f, None) =>
          let result := default RPCResultSuccess (rpcResult req) in
          let ok := bool_decide (result = RPCResultSuccess) in
          let c' := set_outcomes
                      (recordRPCOutcome (sessionID c) (outcomes c) (MsgID req) (SessionID req) ok) c
          in (mkReply None f (set_rpcResult result req), onSuccess c')
      end
  end.

Definition SendResult (c : Conn) (w : io) (req : Request) (msg : option (list Z)) : reply * Conn :=
  sendResult c w req msg (fun c => c).

Definition SendResultAndMarkRPCUpdate (c : Conn) (w : io) (req : Request) (msg : option (list Z))
    (ow ak pts : Z) : reply * Conn :=
  sendResult c w req msg (fun c => (markRPCResultLocked c ow ak pts).2).

(** [code] and [type] are those of the [tgerr.Error]; [msg] its encoded reply. *)
Definition SendErr (c : Conn) (w : io) (req : Request) (code : Z) (type : string)
    (msg : option (list Z)) : reply * Conn :=
  let e := mkErr false false false false false (Some (code, type)) in
  SendResult c w (set_rpcResult (ClassifyRPCError (Some e)) req) msg.

(** [send], used for the service messages: no state changes. *)
Definition Conn_send (c : Conn) (w : io) (t : MessageType) (msg : option (list Z))
    : option frame * option push_error :=
  match msg with
  | None => (None, Some ErrEncode)
  | Some b => let '(f, e) := sendLocked c w t b in (f, ErrPush <$> e)
  end.

(** ** Runs of one connection

    The operations every goroutine may perform, each with its arguments and with
    what the outside world answers it.  The recovery snapshots have a development
    of their own; here any of them may be installed at any time. *)

Inductive conn_op : Type :=
| OpSetOwner (u : Z)
| OpSetKeyLocked (k : AuthKey)
| OpSetKeyStore
| OpSetSession (s : Z)
| OpMarkCreated (s : Z)
| OpMarkPendingLogin (now : Z)
| OpRecovery (r : dialogFilterRecovery) (claim : Z)
| OpClose
| OpBegin (ow ak pts : Z)
| OpSetPts (ow ak pts : Z)
| OpSetPtsAttempt (r : RPCUpdateReservation) (pts : Z)
| OpClear (ow ak : Z)
| OpClearAttempt (r : RPCUpdateReservation)
| OpMarkUpdate (ow ak pts : Z)
| OpPushTo (w : io) (ow : Z) (enc : option (list Z)) (pts : Z)
| OpPushRecovery (w : io) (ow session claimID : Z) (enc : option (list Z))
| OpPushAt (w : io) (ow expectedPts : Z) (enc : option (list Z)) (pts : Z)
| OpReply (w : io) (req : Request) (msg : option (list Z))
| OpReplyMark (w : io) (req : Request) (msg : option (list Z)) (ow ak pts : Z).

Definition set_recovery (r : dialogFilterRecovery) (claim : Z) (c : Conn) : Conn :=
  mkConn (authKey c) (authKeyID c) (sessionID c) (owner c) (recoveryBinding c) (lastPushedPts c)
    (barrier c) (pendingLogin c) (pendingLoginAt c) r claim (outcomes c) (created c)
    (systemLangCodeHint c) (unimplemented c) (langpack c) (transport_closed c).

(** What a push put on the wire: the user it was addressed to, the range of pts it
    advertises (ordered pushes only), whether the write succeeded, the frame. *)
Record emission : Type := mkEmission {
  em_to : Z;
  em_range : option (Z * Z);
  em_written : bool;
  em_frame : frame
}.

Definition emit (ow : Z) (range : option (Z * Z)) (p : push_result) : list emission :=
  match p_frame p with
  | Some f => [mkEmission ow range (p_written p) f]
  | None => []
  end.

Definition conn_apply (c : Conn) (op : conn_op) : Conn * list emission :=
  match op with
  | OpSetOwner u => (setOwner c u, [])
  | OpSetKeyLocked k => (setKey_locked c k, [])
  | OpSetKeyStore => (setKey_store c (IntID (authKey c)), [])
  | OpSetSession s => (setSession c s, [])
  | OpMarkCreated s => ((markCreated c s).2, [])
  | OpMarkPendingLogin now => (MarkPendingLogin c now, [])
  | OpRecovery r claim => (set_recovery r claim c, [])
  | OpClose => (set_closed c, [])
  | OpBegin ow ak pts => ((BeginRPCUpdateAttempt c ow ak pts).2, [])
  | OpSetPts ow ak pts => ((SetRPCUpdatePts c ow ak pts).2, [])
  | OpSetPtsAttempt r pts => ((SetRPCUpdatePtsAttempt c r pts).2, [])
  | OpClear ow ak => ((ClearRPCUpdate c ow ak).2, [])
  | OpClearAttempt r => ((ClearRPCUpdateAttempt c r).2, [])
  | OpMarkUpdate ow ak pts => ((MarkRPCUpdate c ow ak pts).2, [])
  | OpPushTo w ow enc pts =>
      let '(p, c') := PushTo c w ow enc pts in (c', emit ow None p)
  | OpPushRecovery w ow session claimID enc =>
      let '(p, c') := PushDialogFilterRecovery c w ow session claimID enc in (c', emit ow None p)
  | OpPushAt w ow expectedPts enc pts =>
      let '(p, c') := PushToAtWatermark c w ow expectedPts enc pts in
      (c', emit ow (Some (expectedPts, pts)) p)
  | OpReply w req msg => ((SendResult c w req msg).2, [])
  | OpReplyMark w req msg ow ak pts => ((SendResultAndMarkRPCUpdate c w req msg ow ak pts).2, [])
  end.

Fixpoint conn_run (c : Conn) (ops : list conn_op) : Conn * list emission :=
  match ops with
  | [] => (c, [])
  | op :: ops' =>
      let '(c1, e1) := conn_apply c op in
      let '(c2, e2) := conn_run c1 ops' in
      (c2, e1 ++ e2)
  end.
