(* ===== verification/ConnPush.v ===== *)
(** * The barriers of a connection as one queue, and its pushes

    First the queue.
    The three parallel slices and the overflow hold of [Conn] implement one queue
    of barriers ordered by request: every reachable connection is well formed, and
    registering, clearing and accounting act on that queue. *)

From S2P Require Import Prelude.
From S2P Require Import Recovery.
From S2P Require Import Budget.
From S2P Require Import RpcTrace.
From S2P Require Import Conn.
From stdpp Require Import sorting.

Open Scope Z_scope.

(** ** The abstract queue *)

Fixpoint zip3 (ids pts : list Z) (ready : list bool) : list pendingRPCOverflowEntry :=
  match ids, pts, ready with
  | i :: ids', p :: pts', r :: ready' => mkOverflow i p r :: zip3 ids' pts' ready'
  | _, _, _ => []
  end.

Definition regular (b : barriers) : list pendingRPCOverflowEntry :=
  zip3 (pendingRPCIDs b) (pendingRPCPts b) (pendingRPCReady b).

Definition queue_of (b : barriers) : list pendingRPCOverflowEntry :=
  regular b ++ pendingRPCOverflow b.

(** Ordered by request: ids strictly increase and are at most the counter. *)
Record queue_ok (next : Z) (q : list pendingRPCOverflowEntry) : Prop := mkQueueOk {
  qo_order : StronglySorted Z.lt (oe_id <$> q);
  qo_fresh : Forall (fun e => 0 < oe_id e <= next) q;
  qo_pts : Forall (fun e => 0 <= oe_pts e) q
}.

(** ** Well-formed connections *)

(** [n] bounds the number of operations so far, so that the id counter has not
    wrapped while [n < 2 ^ 64 - 1]. *)
Record conn_wf (n : Z) (c : Conn) : Prop := mkWf {
  wf_ids : length (pendingRPCIDs (barrier c)) = length (pendingRPCPts (barrier c));
  wf_ready : length (pendingRPCReady (barrier c)) = length (pendingRPCPts (barrier c));
  wf_regular : len (pendingRPCPts (barrier c)) <= maxPendingRPCUpdates;
  wf_overflow : len (pendingRPCOverflow (barrier c)) <= maxPendingRPCOverflowUpdates;
  wf_next : 0 <= nextPendingRPCID (barrier c) <= n;
  wf_queue : queue_ok (nextPendingRPCID (barrier c)) (queue_of (barrier c));
  wf_owner : pendingRPCPts (barrier c) <> [] -> pendingRPCOwner (barrier c) = owner c;
  wf_signed : queue_of (barrier c) <> [] \/ pendingRPCOverflowSaturated (barrier c) = true ->
    0 < owner c;
  wf_watermark : 0 <= lastPushedPts c
}.

(** ** The slices and the queue *)

Lemma zip3_nil_pts ids ready : zip3 ids [] ready = [].
Proof. by destruct ids. Qed.

Section parallel.
Context (ids pts : list Z) (ready : list bool).
Hypothesis Hids : length ids = length pts.
Hypothesis Hready : length ready = length pts.

Lemma zip3_proj :
  oe_id <$> zip3 ids pts ready = ids /\ oe_pts <$> zip3 ids pts ready = pts /\
  oe_ready <$> zip3 ids pts ready = ready.
Proof.
  revert ids ready Hids Hready. induction pts as [|p l IH]; intros [|i ids'] [|r ready'] H1 H2;
    simplify_eq/=; [done|].
  destruct (IH ids' ready' H1 H2) as (-> & -> & ->). done.
Qed.

Lemma zip3_delete k :
  zip3 (delete k ids) (delete k pts) (delete k ready) = delete k (zip3 ids pts ready).
Proof.
  revert ids ready k Hids Hready. induction pts as [|p l IH];
    intros [|i ids'] [|r ready'] [|k] H1 H2; simplify_eq/=; try done. f_equal. by apply IH.
Qed.

Lemma zip3_insert_pts k q :
  zip3 ids (<[k := q]> pts) ready =
    alter (fun e => mkOverflow (oe_id e) q (oe_ready e)) k (zip3 ids pts ready).
Proof.
  revert ids ready k Hids Hready. induction pts as [|p l IH];
    intros [|i ids'] [|r ready'] [|k] H1 H2; simplify_eq/=; try done. f_equal. by apply IH.
Qed.

Lemma zip3_insert_ready k :
  zip3 ids pts (<[k := true]> ready) =
    alter (fun e => mkOverflow (oe_id e) (oe_pts e) true) k (zip3 ids pts ready).
Proof.
  revert ids ready k Hids Hready. induction pts as [|p l IH];
    intros [|i ids'] [|r ready'] [|k] H1 H2; simplify_eq/=; try done. f_equal. by apply IH.
Qed.

Lemma zip3_snoc i p r :
  zip3 (ids ++ [i]) (pts ++ [p]) (ready ++ [r]) = zip3 ids pts ready ++ [mkOverflow i p r].
Proof.
  revert ids ready Hids Hready. induction pts as [|q l IH];
    intros [|j ids'] [|s ready'] H1 H2; simplify_eq/=; [done|]. f_equal. by apply IH.
Qed.
End parallel.

Lemma delete_app_r {A} (l k : list A) i : delete (length l + i)%nat (l ++ k) = l ++ delete i k.
Proof. induction l as [|x l IH]; simpl; [done|]. by rewrite IH. Qed.

Lemma delete_app_l {A} (l k : list A) i :
  (i < length l)%nat -> delete i (l ++ k) = delete i l ++ k.
Proof.
  revert i. induction l as [|x l IH]; intros [|i] H; simpl in *; [lia..|done|].
  rewrite IH by lia. done.
Qed.

Section slices.
Context (b : barriers).
Hypothesis Hids : length (pendingRPCIDs b) = length (pendingRPCPts b).
Hypothesis Hready : length (pendingRPCReady b) = length (pendingRPCPts b).

Lemma regular_length : length (regular b) = length (pendingRPCPts b).
Proof.
  destruct (zip3_proj _ _ _ Hids Hready) as (_ & E & _).
  apply (f_equal length) in E. by rewrite length_fmap in E.
Qed.

Lemma queue_remove_regular i :
  (i < length (pendingRPCPts b))%nat ->
  queue_of (removePendingRPCAtLocked b i) = delete i (queue_of b).
Proof.
  intros Hi. unfold queue_of. rewrite delete_app_l by (rewrite regular_length; lia).
  unfold removePendingRPCAtLocked, regular.
  rewrite <- (zip3_delete _ _ _ Hids Hready).
  destruct (len (delete i (pendingRPCPts b)) =? 0) eqn:E; simpl; [|done].
  apply Z.eqb_eq, len_zero in E. by rewrite E, zip3_nil_pts.
Qed.

Lemma queue_remove_overflow i :
  queue_of (removePendingRPCOverflowAtLocked b i) =
    delete (length (pendingRPCPts b) + i)%nat (queue_of b).
Proof. unfold queue_of. rewrite <- regular_length, delete_app_r. done. Qed.

Lemma queue_set_pts i p :
  queue_of (set_pts (<[i := p]> (pendingRPCPts b)) b) =
    alter (fun e => mkOverflow (oe_id e) p (oe_ready e)) i (regular b) ++ pendingRPCOverflow b.
Proof. unfold queue_of, regular. simpl. by rewrite zip3_insert_pts. Qed.

Lemma queue_set_ready i :
  queue_of (set_ready (<[i := true]> (pendingRPCReady b)) b) =
    alter (fun e => mkOverflow (oe_id e) (oe_pts e) true) i (regular b) ++ pendingRPCOverflow b.
Proof. unfold queue_of, regular. simpl. by rewrite zip3_insert_ready. Qed.

Lemma queue_push_regular ow ak p :
  pendingRPCOverflow b = [] ->
  queue_of (push_regular b ow ak p) =
    queue_of b ++ [mkOverflow (next_pending_id (nextPendingRPCID b)) p false].
Proof.
  intros Ho. unfold queue_of, push_regular, regular. simpl.
  rewrite zip3_snoc by done. by rewrite Ho, !app_nil_r.
Qed.

Lemma queue_push_overflow :
  queue_of (push_overflow b) =
    queue_of b ++ [mkOverflow (next_pending_id (nextPendingRPCID b)) 0 false].
Proof. unfold queue_of, push_overflow, regular. simpl. by rewrite app_assoc. Qed.

Lemma remove_regular_lengths i :
  (i < length (pendingRPCPts b))%nat ->
  let b' := removePendingRPCAtLocked b i in
  length (pendingRPCIDs b') = length (pendingRPCPts b') /\
  length (pendingRPCReady b') = length (pendingRPCPts b') /\
  len (pendingRPCPts b') = len (pendingRPCPts b) - 1.
Proof.
  intros Hi. destruct (lookup_lt_is_Some_2 _ _ Hi) as [x Hx].
  pose proof (len_delete _ _ _ Hx) as HL.
  assert (forall A (l : list A), length l = length (pendingRPCPts b) ->
    length (delete i l) = length (delete i (pendingRPCPts b))) as HD.
  { intros A l Hl. rewrite !length_delete by (apply lookup_lt_is_Some_2; lia). lia. }
  simpl. unfold removePendingRPCAtLocked.
  destruct (len (delete i (pendingRPCPts b)) =? 0) eqn:E; simpl; [|by auto].
  apply Z.eqb_eq in E. pose proof E as E'. apply len_zero in E'. rewrite E'. simpl.
  rewrite E in HL. change (@len Z []) with 0. lia.
Qed.
End slices.

(** ** Order of the queue *)

Lemma StronglySorted_delete {A} (R : A -> A -> Prop) (l : list A) i :
  StronglySorted R l -> StronglySorted R (delete i l).
Proof.
  intros H. revert i. induction H as [|x l H IH HF]; intros [|i]; simpl; try done; [constructor|constructor|].
  constructor; [apply IH|]. by apply Forall_delete.
Qed.

Lemma fmap_delete {A B} (f : A -> B) (l : list A) i : f <$> delete i l = delete i (f <$> l).
Proof. revert i. induction l as [|x l IH]; intros [|i]; simpl; [done..|]. by rewrite IH. Qed.

Lemma queue_ok_nil n : queue_ok n [].
Proof. repeat constructor. Qed.

Lemma queue_ok_delete n q i : queue_ok n q -> queue_ok n (delete i q).
Proof.
  intros [H1 H2 H3]. constructor; [|by apply Forall_delete..].
  rewrite fmap_delete. by apply StronglySorted_delete.
Qed.

Lemma fmap_alter_same {A B} (g : A -> B) (f : A -> A) (l : list A) i :
  (forall x, g (f x) = g x) -> g <$> alter f i l = g <$> l.
Proof.
  intros H. revert i. induction l as [|x l IH]; intros [|i]; simpl; try done.
  - by rewrite H.
  - f_equal. apply IH.
Qed.

(** An update of entries that keeps their ids and order. *)
Lemma queue_ok_same_ids n q q' :
  oe_id <$> q' = oe_id <$> q -> Forall (fun e => 0 <= oe_pts e) q' ->
  queue_ok n q -> queue_ok n q'.
Proof.
  intros Hid Hp [H1 H2 _]. constructor; [by rewrite Hid| |done].
  apply (Forall_fmap oe_id (fun i => 0 < i <= n) q'). rewrite Hid.
  by apply (Forall_fmap oe_id (fun i => 0 < i <= n) q).
Qed.

Lemma queue_ok_snoc n q p r :
  0 <= n -> 0 <= p -> queue_ok n q -> queue_ok (n + 1) (q ++ [mkOverflow (n + 1) p r]).
Proof.
  intros Hn Hp [H1 H2 H3]. constructor.
  - rewrite fmap_app. simpl.
    apply (Forall_fmap oe_id (fun i => 0 < i <= n) q) in H2.
    induction (oe_id <$> q) as [|x l IH]; simpl; [by repeat constructor|].
    inversion_clear H1. inversion_clear H2. constructor; [by apply IH|].
    apply Forall_app; split; [done|]. constructor; [lia|constructor].
  - apply Forall_app; split; [|constructor; simpl; [lia|constructor]].
    eapply Forall_impl; [exact H2|]. simpl. lia.
  - apply Forall_app; split; [done|]. by repeat constructor.
Qed.

Lemma queue_ok_nodup n q : queue_ok n q -> NoDup (oe_id <$> q).
Proof.
  intros [H _ _]. induction H as [|x l H IH HF]; constructor; [|done].
  intros Hx. rewrite Forall_forall in HF. specialize (HF x Hx). lia.
Qed.

Lemma next_pending_id_small n : 0 <= n < 2 ^ 64 - 1 -> next_pending_id n = n + 1.
Proof.
  intros H. unfold next_pending_id. rewrite wrap_u64_small by lia.
  by replace (n + 1 =? 0) with false by lia.
Qed.

(** ** Every operation keeps a connection well formed *)

(** The parts of the connection the invariant reads. *)
Definition same_core (c c' : Conn) : Prop :=
  barrier c' = barrier c /\ owner c' = owner c /\ lastPushedPts c' = lastPushedPts c.

Lemma wf_same_core n c c' : same_core c c' -> conn_wf n c -> conn_wf n c'.
Proof.
  intros (Hb & Ho & Hl) []. constructor; rewrite ?Hb, ?Ho, ?Hl; done.
Qed.

Lemma wf_weaken n m c : n <= m -> conn_wf n c -> conn_wf m c.
Proof. intros Hnm []. constructor; try done. lia. Qed.

Lemma wf_advance n c p : 0 <= p -> conn_wf n c -> conn_wf n (set_lastPushedPts p c).
Proof. intros Hp []. by constructor. Qed.

Lemma wf_no_barriers n c c' :
  barrier c' = no_barriers (nextPendingRPCID (barrier c)) -> 0 <= lastPushedPts c' ->
  conn_wf n c -> conn_wf n c'.
Proof.
  intros Hb Hl []. constructor; rewrite ?Hb; simpl; try done; [apply queue_ok_nil|].
  unfold queue_of, regular. simpl. by intros [].
Qed.

(** Replacing the barriers by ones over the same owner. *)
Lemma wf_set_barrier n c b' :
  conn_wf n c ->
  length (pendingRPCIDs b') = length (pendingRPCPts b') ->
  length (pendingRPCReady b') = length (pendingRPCPts b') ->
  len (pendingRPCPts b') <= maxPendingRPCUpdates ->
  len (pendingRPCOverflow b') <= maxPendingRPCOverflowUpdates ->
  nextPendingRPCID b' = nextPendingRPCID (barrier c) ->
  queue_ok (nextPendingRPCID b') (queue_of b') ->
  (pendingRPCPts b' <> [] -> pendingRPCOwner b' = owner c) ->
  (queue_of b' <> [] \/ pendingRPCOverflowSaturated b' = true ->
   queue_of (barrier c) <> [] \/ pendingRPCOverflowSaturated (barrier c) = true) ->
  conn_wf n (set_barrier b' c).
Proof.
  intros [] H1 H2 H3 H4 H5 H6 H7 H8. constructor; simpl; try done.
  - by rewrite H5.
  - eauto.
Qed.

Lemma delete_nonempty {A} (l : list A) i : delete i l <> [] -> l <> [].
Proof. by destruct l. Qed.

Lemma wf_remove_regular n c i :
  conn_wf n c -> (i < length (pendingRPCPts (barrier c)))%nat ->
  conn_wf n (set_barrier (removePendingRPCAtLocked (barrier c) i) c).
Proof.
  intros W Hi. pose proof W as [Hids Hready Hreg Hovf Hnext Hq Hown Hsig Hwm].
  pose proof (queue_remove_regular _ Hids Hready i Hi) as HQ.
  destruct (remove_regular_lengths _ Hids Hready i Hi) as (L1 & L2 & L3).
  assert (E : nextPendingRPCID (removePendingRPCAtLocked (barrier c) i) =
              nextPendingRPCID (barrier c) /\
              pendingRPCOverflow (removePendingRPCAtLocked (barrier c) i) =
              pendingRPCOverflow (barrier c) /\
              pendingRPCOverflowSaturated (removePendingRPCAtLocked (barrier c) i) =
              pendingRPCOverflowSaturated (barrier c) /\
              (pendingRPCPts (removePendingRPCAtLocked (barrier c) i) <> [] ->
               pendingRPCOwner (removePendingRPCAtLocked (barrier c) i) =
               pendingRPCOwner (barrier c))).
  { unfold removePendingRPCAtLocked. destruct (len _ =? 0) eqn:E; simpl; [|done].
    repeat split; try done. intros Hn. destruct Hn. by apply len_zero, Z.eqb_eq. }
  destruct E as (E1 & E2 & E3 & E4).
  apply wf_set_barrier; try done; rewrite ?E1, ?E2, ?E3, ?HQ; try done; [lia| | |].
  - by apply queue_ok_delete.
  - intros Hne. rewrite E4 by done. apply Hown. intros H0.
    rewrite H0 in Hi. simpl in Hi. lia.
  - intros [H|H]; [left; by eapply delete_nonempty|by right].
Qed.

Lemma wf_remove_overflow n c i :
  conn_wf n c -> (i < length (pendingRPCOverflow (barrier c)))%nat ->
  conn_wf n (set_barrier (removePendingRPCOverflowAtLocked (barrier c) i) c).
Proof.
  intros W Hi. pose proof W as [Hids Hready Hreg Hovf Hnext Hq Hown Hsig Hwm].
  apply wf_set_barrier; simpl; try done.
  - destruct (lookup_lt_is_Some_2 _ _ Hi) as [x Hx]. rewrite (len_delete _ _ _ Hx). lia.
  - rewrite (queue_remove_overflow _ Hids Hready). by apply queue_ok_delete.
  - rewrite (queue_remove_overflow _ Hids Hready).
    intros [H|H]; [left; by eapply delete_nonempty|by right].
Qed.

(** Updates of entries in place. *)
Lemma wf_update n c b' :
  conn_wf n c ->
  pendingRPCOwner b' = pendingRPCOwner (barrier c) ->
  length (pendingRPCPts b') = length (pendingRPCPts (barrier c)) ->
  length (pendingRPCIDs b') = length (pendingRPCIDs (barrier c)) ->
  length (pendingRPCReady b') = length (pendingRPCReady (barrier c)) ->
  length (pendingRPCOverflow b') = length (pendingRPCOverflow (barrier c)) ->
  nextPendingRPCID b' = nextPendingRPCID (barrier c) ->
  pendingRPCOverflowSaturated b' = pendingRPCOverflowSaturated (barrier c) ->
  oe_id <$> queue_of b' = oe_id <$> queue_of (barrier c) ->
  Forall (fun e => 0 <= oe_pts e) (queue_of b') ->
  conn_wf n (set_barrier b' c).
Proof.
  intros W Ho L1 L2 L3 L4 En Es Hid Hp.
  pose proof W as [Hids Hready Hreg Hovf Hnext Hq Hown Hsig Hwm].
  apply wf_set_barrier; try done; unfold len in *; try congruence.
  - rewrite En. by eapply queue_ok_same_ids.
  - intros Hne. rewrite Ho. apply Hown. intros H0. rewrite H0 in L1.
    apply Hne. by apply length_zero_iff_nil in L1.
  - rewrite Es. intros [H|H]; [left|by right]. intros H0. rewrite H0 in Hid.
    apply H. by apply fmap_nil_inv in Hid.
Qed.

Lemma wf_set_pts n c i p :
  conn_wf n c -> 0 <= p ->
  conn_wf n (set_barrier (set_pts (<[i := p]> (pendingRPCPts (barrier c))) (barrier c)) c).
Proof.
  intros W Hp. pose proof W as [Hids Hready Hreg Hovf Hnext Hq Hown Hsig Hwm].
  apply wf_update; simpl; try done; rewrite ?length_insert; try done;
    rewrite (queue_set_pts _ Hids Hready).
  - rewrite fmap_app, fmap_alter_same; [|done]. by rewrite <- fmap_app.
  - destruct Hq as [_ _ Hq]. apply Forall_app in Hq as [Hq1 Hq2].
    apply Forall_app; split; [|done]. by apply Forall_alter.
Qed.

Lemma wf_set_ready n c i :
  conn_wf n c ->
  conn_wf n (set_barrier (set_ready (<[i := true]> (pendingRPCReady (barrier c))) (barrier c)) c).
Proof.
  intros W. pose proof W as [Hids Hready Hreg Hovf Hnext Hq Hown Hsig Hwm].
  apply wf_update; simpl; try done; rewrite ?length_insert; try done;
    rewrite (queue_set_ready _ Hids Hready).
  - rewrite fmap_app, fmap_alter_same; [|done]. by rewrite <- fmap_app.
  - destruct Hq as [_ _ Hq]. apply Forall_app in Hq as [Hq1 Hq2].
    apply Forall_app; split; [|done]. by apply Forall_alter.
Qed.

Lemma wf_alter_overflow n c f i :
  conn_wf n c -> (forall e, oe_id (f e) = oe_id e) ->
  (forall e, 0 <= oe_pts e -> 0 <= oe_pts (f e)) ->
  conn_wf n (set_barrier (set_overflow (alter f i (pendingRPCOverflow (barrier c))) (barrier c)) c).
Proof.
  intros W Hf Hp. pose proof W as [Hids Hready Hreg Hovf Hnext Hq Hown Hsig Hwm].
  destruct Hq as [Hs Hr Hq]. unfold queue_of in Hq. apply Forall_app in Hq as [Hq1 Hq2].
  apply wf_update; simpl; try done; unfold queue_of; simpl.
  - by rewrite length_alter.
  - by rewrite !fmap_app, fmap_alter_same.
  - apply Forall_app; split; [done|]. apply Forall_alter; [done|]. intros; by apply Hp.
Qed.

Lemma wf_push_overflow n c :
  conn_wf n c -> n < 2 ^ 64 - 1 -> 0 < owner c ->
  len (pendingRPCOverflow (barrier c)) < maxPendingRPCOverflowUpdates ->
  conn_wf (n + 1) (set_barrier (push_overflow (barrier c)) c).
Proof.
  intros W Hn Ho Hl. pose proof W as [Hids Hready Hreg Hovf Hnext Hq Hown Hsig Hwm].
  constructor; simpl; try done.
  - rewrite len_app. change (len [_]) with 1. lia.
  - rewrite next_pending_id_small; lia.
  - rewrite queue_push_overflow, next_pending_id_small by lia. apply queue_ok_snoc; [lia..|done].
Qed.

Lemma wf_push_regular n c ak p :
  conn_wf n c -> n < 2 ^ 64 - 1 -> 0 < owner c -> 0 <= p ->
  pendingRPCOverflow (barrier c) = [] ->
  len (pendingRPCPts (barrier c)) < maxPendingRPCUpdates ->
  conn_wf (n + 1) (set_barrier (push_regular (barrier c) (owner c) ak p) c).
Proof.
  intros W Hn Ho Hp He Hl. pose proof W as [Hids Hready Hreg Hovf Hnext Hq Hown Hsig Hwm].
  constructor; simpl; rewrite ?length_app, ?len_app; simpl; try done; try lia.
  - change (len [_]) with 1. lia.
  - rewrite next_pending_id_small; lia.
  - rewrite (queue_push_regular _ Hids Hready) by done. rewrite next_pending_id_small by lia.
    apply queue_ok_snoc; [lia..|done].
Qed.

Lemma wf_Begin n c ow ak pts :
  conn_wf n c -> n < 2 ^ 64 - 1 -> conn_wf (n + 1) (BeginRPCUpdateAttempt c ow ak pts).2.
Proof.
  intros W Hn. assert (W' : conn_wf (n + 1) c) by (eapply wf_weaken; [|done]; lia).
  unfold BeginRPCUpdateAttempt.
  destruct ((ow <=? 0) || _ || _) eqn:G1; [done|].
  destruct (negb (owner c =? ow) || _) eqn:G2; [done|].
  assert (owner c = ow) as <- by lia. cbv zeta.
  destruct (known_barrier _ _ _ _) eqn:K; [done|].
  destruct ((len (pendingRPCOverflow (barrier c)) >? 0) || _) eqn:G3.
  - destruct (pendingRPCOverflowSaturated (barrier c)) eqn:Sa; [done|].
    destruct (_ >=? _) eqn:G4; simpl.
    + pose proof W' as [Hids Hready Hreg Hovf Hnext Hq Hown Hsig Hwm]. constructor; try done.
      simpl. intros _. lia.
    + apply wf_push_overflow; try done; [lia|]. lia.
  - apply orb_false_iff in G3 as [G3 Sa].
    assert (pendingRPCOverflow (barrier c) = []) as He.
    { apply len_zero. pose proof (len_nonneg (pendingRPCOverflow (barrier c))). lia. }
    destruct (_ >=? _) eqn:G4; simpl.
    + apply wf_push_overflow; try done; [lia|]. rewrite He. done.
    + apply wf_push_regular; try done; lia.
Qed.

Lemma find_regular_lt n c P `{!forall x, Decision (P x)} i x :
  conn_wf n c -> list_find P (pendingRPCIDs (barrier c)) = Some (i, x) ->
  (i < length (pendingRPCPts (barrier c)))%nat.
Proof.
  intros W F. apply list_find_Some in F as (F & _). rewrite <- (wf_ids _ _ W).
  by eapply lookup_lt_Some.
Qed.

Lemma insert_alter {A} (f : A -> A) (l : list A) i x :
  l !! i = Some x -> <[i := f x]> l = alter f i l.
Proof.
  revert i. induction l as [|z l IH]; intros [|i] H; simplify_eq/=; [done|]. f_equal. by apply IH.
Qed.

Lemma wf_SetPts n c ow ak pts : conn_wf n c -> conn_wf n (SetRPCUpdatePts c ow ak pts).2.
Proof.
  intros W. unfold SetRPCUpdatePts. destruct ((ow <=? 0) || (ak =? 0) || (pts <=? 0)) eqn:G; [done|].
  destruct (negb (bound_barriers c ow ak) || negb (bound_conn c ow ak)); [done|].
  destruct (find_last _ _); [|done]. simpl.
  apply wf_set_pts; [done|lia].
Qed.

Lemma wf_SetPtsAttempt n c r pts : conn_wf n c -> conn_wf n (SetRPCUpdatePtsAttempt c r pts).2.
Proof.
  intros W. unfold SetRPCUpdatePtsAttempt. cbv zeta.
  destruct (pts <=? 0) eqn:G; [done|]. destruct (negb (bound_conn _ _ _)); [done|].
  destruct (rs_overflow r).
  - destruct (rs_id r =? 0); [done|]. destruct (list_find _ _) as [[i e]|] eqn:F; [|done].
    destruct (negb (rs_owned r)); [done|]. destruct (oe_pts e =? 0); [|done]. simpl.
    apply list_find_Some in F as (F & _).
    rewrite (insert_alter (fun e => mkOverflow (oe_id e) pts (oe_ready e)) _ _ _ F).
    apply wf_alter_overflow; simpl; try done. lia.
  - destruct (negb (rs_owned r)); [done|]. destruct (negb (bound_barriers _ _ _)); [done|].
    destruct (list_find _ _) as [[i x]|]; [|done]. destruct (_ =? 0); [|done].
    apply wf_set_pts; [done|lia].
Qed.

Lemma wf_Clear n c ow ak : conn_wf n c -> conn_wf n (ClearRPCUpdate c ow ak).2.
Proof.
  intros W. unfold ClearRPCUpdate, clearRPCUpdateLocked.
  destruct ((ow <=? 0) || (ak =? 0)); [done|].
  destruct (negb (bound_barriers c ow ak) || _) eqn:G; [done|]. simpl.
  apply wf_remove_regular; [done|]. unfold len in G. lia.
Qed.

Lemma wf_ClearAttempt n c r : conn_wf n c -> conn_wf n (ClearRPCUpdateAttempt c r).2.
Proof.
  intros W. unfold ClearRPCUpdateAttempt. cbv zeta. destruct (rs_overflow r).
  - destruct ((rs_id r =? 0) || _ || _); [done|]. destruct (list_find _ _) as [[i e]|] eqn:F; [|done]. simpl.
    apply wf_remove_overflow; [done|]. apply list_find_Some in F as (F & _).
    by eapply lookup_lt_Some.
  - destruct (negb (rs_owned r)); [done|]. destruct (negb _ || negb _); [done|].
    destruct (list_find _ _) as [[i e]|] eqn:F; [|done]. simpl.
    apply wf_remove_regular; [done|]. by eapply find_regular_lt.
Qed.

Lemma wf_advance_max n c pts : conn_wf n c -> conn_wf n (advance c pts).
Proof.
  intros W. unfold advance. destruct (pts >? lastPushedPts c) eqn:E; [|done].
  apply wf_advance; [|done]. destruct W. lia.
Qed.

Lemma advance_core c pts : barrier (advance c pts) = barrier c /\ owner (advance c pts) = owner c.
Proof. unfold advance. by destruct (pts >? lastPushedPts c). Qed.

Lemma wf_MarkUpdate n c ow ak pts : conn_wf n c -> conn_wf n (MarkRPCUpdate c ow ak pts).2.
Proof.
  intros W. unfold MarkRPCUpdate, markRPCUpdateLocked. cbv zeta.
  destruct ((ak =? 0) || (pts <=? 0)); [done|].
  destruct (negb (bound_conn c ow ak)); [done|].
  destruct (advance_core c pts) as [Eb Eo]. pose proof (wf_advance_max n c pts W) as Wa.
  destruct (pendingRPCPts (barrier c)) as [|p l] eqn:Ep.
  - destruct (pendingRPCOverflow (barrier c)) as [|e o] eqn:Ee; [done|].
    destruct (oe_pts e =? 0); [done|]. destruct (negb (oe_pts e =? pts)); [done|]. simpl.
    rewrite <- Eb. apply wf_remove_overflow; [done|]. rewrite Eb, Ee. simpl. lia.
  - destruct (p =? 0); [done|]. destruct (negb (p =? pts)); [done|]. simpl.
    rewrite <- Eb. apply wf_remove_regular; [done|]. rewrite Eb, Ep. simpl. lia.
Qed.

Lemma find_last_lt {A} (p : A -> bool) (l : list A) i : find_last p l = Some i -> (i < length l)%nat.
Proof. intros (x & H & _)%find_last_Some. by eapply lookup_lt_Some. Qed.

Lemma result_pending_lt c ow ak pts i :
  result_pending c ow ak pts = Some i -> (i < length (pendingRPCPts (barrier c)))%nat.
Proof. unfold result_pending. destruct (bound_barriers c ow ak); [apply find_last_lt|done]. Qed.

Lemma result_overflow_lt c pts i :
  result_overflow c pts = Some i -> (i < length (pendingRPCOverflow (barrier c)))%nat.
Proof. apply find_last_lt. Qed.

Lemma result_ready_sizes b pi oi :
  pendingRPCPts (result_ready b pi oi) = pendingRPCPts b /\
  length (pendingRPCOverflow (result_ready b pi oi)) = length (pendingRPCOverflow b).
Proof. destruct pi, oi; simpl; rewrite ?length_alter; done. Qed.

Lemma wf_result_ready n c pi oi :
  conn_wf n c -> conn_wf n (set_barrier (result_ready (barrier c) pi oi) c).
Proof.
  intros W.
  assert (W1 : conn_wf n (set_barrier (result_ready (barrier c) pi None) c)).
  { destruct pi; [by apply wf_set_ready|by apply (wf_same_core n c)]. }
  destruct oi as [i|]; [|done].
  apply (wf_alter_overflow n (set_barrier (result_ready (barrier c) pi None) c)
    (fun e => mkOverflow (oe_id e) (oe_pts e) true) i W1); done.
Qed.

Lemma wf_result_remove n c pi oi :
  conn_wf n c ->
  (forall i, pi = Some i -> (i < length (pendingRPCPts (barrier c)))%nat) ->
  (forall i, oi = Some i -> (i < length (pendingRPCOverflow (barrier c)))%nat) ->
  conn_wf n (set_barrier (result_remove (barrier c) pi oi) c).
Proof.
  intros W Hp Ho. destruct pi as [i|]; [by apply wf_remove_regular, Hp|].
  destruct oi as [i|]; [by apply wf_remove_overflow, Ho|by apply (wf_same_core n c)].
Qed.

Lemma wf_markResult n c ow ak pts : conn_wf n c -> conn_wf n (markRPCResultLocked c ow ak pts).2.
Proof.
  intros W. unfold markRPCResultLocked.
  destruct ((ak =? 0) || (pts <=? 0)) eqn:G; [done|].
  destruct (negb (bound_conn c ow ak)); [done|]. cbv zeta.
  pose proof (result_pending_lt c ow ak pts) as Hp. pose proof (result_overflow_lt c pts) as Ho.
  set (pi := result_pending c ow ak pts) in *. set (oi := result_overflow c pts) in *.
  clearbody pi oi.
  pose proof (wf_result_ready n c pi oi W) as W2.
  destruct (result_ready_sizes (barrier c) pi oi) as [E1 E2].
  assert (W3 := wf_result_remove n _ pi oi W2). simpl in W3. rewrite E1, E2 in W3.
  specialize (W3 Hp Ho).
  destruct (pts <=? lastPushedPts c); [done|].
  destruct (pts =? lastPushedPts c + 1); [|done].
  assert (0 <= pts) as Hpos by lia. apply (wf_advance _ _ _ Hpos W3).
Qed.

Lemma wf_reply n c w req msg k :
  conn_wf n c -> (forall c, conn_wf n c -> conn_wf n (k c)) ->
  conn_wf n (sendResult c w req msg k).2.
Proof.
  intros W Hk. unfold sendResult. destruct msg as [wire|]; [|done].
  destruct (sendLocked _ _ _ _) as [f [e|]]; simpl; [done|].
  apply Hk. by apply (wf_same_core _ c).
Qed.

Lemma wf_PushTo n c w ow enc pts : conn_wf n c -> conn_wf n (PushTo c w ow enc pts).2.
Proof.
  intros W. unfold PushTo. destruct enc as [b|]; [|done]. destruct (io_ctx_err w); [done|].
  destruct (negb _); [done|].
  destruct (sendLocked _ _ _ _) as [f [e|]]; simpl; [by apply (wf_same_core _ c)|].
  destruct (pts >? 0) eqn:E; [|done]. apply wf_advance; [lia|done].
Qed.

Lemma wf_PushRecovery n c w ow s k enc :
  conn_wf n c -> conn_wf n (PushDialogFilterRecovery c w ow s k enc).2.
Proof.
  intros W. unfold PushDialogFilterRecovery. destruct enc as [b|]; [|done].
  destruct (io_ctx_err w); [done|]. cbv zeta. destruct (_ || _); [done|].
  destruct (sendLocked _ _ _ _) as [f [e|]]; simpl; [by apply (wf_same_core _ c)|done].
Qed.

Lemma wf_PushAt n c w ow x enc pts : conn_wf n c -> conn_wf n (PushToAtWatermark c w ow x enc pts).2.
Proof.
  intros W. unfold PushToAtWatermark. destruct enc as [b|]; [|done].
  destruct (io_ctx_err w); [done|]. destruct (negb (owner c =? ow)); [done|].
  destruct (negb (lastPushedPts c =? x)); [done|].
  destruct (sendLocked _ _ _ _) as [f [e|]]; simpl; [by apply (wf_same_core _ c)|].
  destruct (_ && _) eqn:E; [|done]. apply wf_advance; [lia|done].
Qed.

Lemma wf_binding n c op :
  conn_wf n c ->
  match op with OpSetOwner _ | OpSetKeyLocked _ | OpSetKeyStore | OpSetSession _ | OpMarkCreated _
  | OpMarkPendingLogin _ | OpRecovery _ _ | OpClose => conn_wf n (conn_apply c op).1 | _ => True end.
Proof.
  intros W. destruct op; simpl; try done; try (by apply (wf_same_core _ c)).
  - unfold setOwner. destruct (owner c =? u); [done|]. by apply (wf_no_barriers n c).
  - unfold setKey_locked. destruct (IntID (authKey c) =? IntID k); simpl; [by apply (wf_same_core _ c)|].
    apply (wf_no_barriers n c); try done. apply W.
  - unfold markCreated. case_bool_decide; [done|]. by apply (wf_same_core _ c).
  - unfold MarkPendingLogin. destruct (pendingLogin c); [done|]. by apply (wf_same_core _ c).
Qed.

Lemma wf_apply n c op :
  conn_wf n c -> n < 2 ^ 64 - 1 -> conn_wf (n + 1) (conn_apply c op).1.
Proof.
  intros W Hn. assert (W' : conn_wf (n + 1) c) by (eapply wf_weaken; [|done]; lia).
  pose proof (wf_binding (n + 1) c op W') as HB.
  destruct op; try exact HB; clear HB; simpl.
  - by apply wf_Begin.
  - by apply wf_SetPts.
  - by apply wf_SetPtsAttempt.
  - by apply wf_Clear.
  - by apply wf_ClearAttempt.
  - by apply wf_MarkUpdate.
  - pose proof (wf_PushTo _ c w ow enc pts W'). by destruct (PushTo _ _ _ _ _).
  - pose proof (wf_PushRecovery _ c w ow session claimID enc W').
    by destruct (PushDialogFilterRecovery _ _ _ _ _ _).
  - pose proof (wf_PushAt _ c w ow expectedPts enc pts W').
    by destruct (PushToAtWatermark _ _ _ _ _ _).
  - by apply wf_reply.
  - apply wf_reply; [done|]. intros c0 W0. by apply wf_markResult.
Qed.

Lemma newConn_wf : conn_wf 0 newConn.
Proof. constructor; simpl; first [done|apply queue_ok_nil|by intros []|lia]. Qed.

Lemma wf_run n c ops :
  conn_wf n c -> n + len ops < 2 ^ 64 -> conn_wf (n + len ops) (conn_run c ops).1.
Proof.
  revert n c. induction ops as [|op ops IH]; intros n c W Hn; simpl.
  - eapply wf_weaken; [|done]. change (@len conn_op []) with 0. lia.
  - rewrite len_cons in *. pose proof (len_nonneg ops).
    pose proof (wf_apply n c op W ltac:(lia)) as W1.
    destruct (conn_apply c op) as [c1 e1]. simpl in W1.
    specialize (IH (n + 1) c1 W1 ltac:(lia)). destruct (conn_run c1 ops) as [c2 e2]. simpl in *.
    by replace (n + (len ops + 1)) with (n + 1 + len ops) by lia.
Qed.

(** After any sequence of operations on a new connection (fewer
    than 2^64 of them, so the id counter has not wrapped) the parallel slices have
    equal lengths, the regular queue and the overflow hold at most 64 barriers
    each, the barriers as one queue are ordered by request with distinct ids, all
    belong to the connection's current owner, who is signed in, and the push
    watermark is not negative. *)
Theorem conn_reachable_wf (ops : list conn_op) :
  len ops < 2 ^ 64 ->
  let c := (conn_run newConn ops).1 in
  let b := barrier c in
  length (pendingRPCIDs b) = length (pendingRPCPts b) /\
  length (pendingRPCReady b) = length (pendingRPCPts b) /\
  len (pendingRPCPts b) <= 64 /\ len (pendingRPCOverflow b) <= 64 /\
  StronglySorted Z.lt (oe_id <$> queue_of b) /\
  (pendingRPCPts b <> [] -> pendingRPCOwner b = owner c) /\
  (queue_of b <> [] \/ pendingRPCOverflowSaturated b = true -> 0 < owner c) /\
  0 <= lastPushedPts c.
Proof.
  intros H. destruct (wf_run 0 newConn ops newConn_wf ltac:(lia)) as [? ? ? ? ? [] ? ? ?].
  cbv zeta. repeat split; done.
Qed.

(** ** Clearing *)

Lemma delete_filter (l : list pendingRPCOverflowEntry) i e :
  NoDup (oe_id <$> l) -> l !! i = Some e ->
  delete i l = filter (fun x => oe_id x <> oe_id e) l.
Proof.
  revert i. induction l as [|x l IH]; intros [|i] Hn Hl; simplify_eq/=;
    apply NoDup_cons in Hn as [Hx Hn].
  - rewrite filter_cons_False by auto. clear IH Hn. induction l as [|y l IH]; [done|].
    simpl in Hx. apply not_elem_of_cons in Hx as [Hy Hx].
    rewrite filter_cons_True by auto. by rewrite <- IH.
  - rewrite filter_cons_True; [f_equal; by apply IH|].
    intros He. apply Hx. rewrite He. apply list_elem_of_fmap. exists e.
    split; [done|]. by eapply list_elem_of_lookup_2.
Qed.

Lemma queue_lookup_regular b i e :
  regular b !! i = Some e -> queue_of b !! i = Some e.
Proof. intros H. unfold queue_of. by apply lookup_app_l_Some. Qed.

Lemma queue_lookup_overflow b i e :
  length (pendingRPCIDs b) = length (pendingRPCPts b) ->
  length (pendingRPCReady b) = length (pendingRPCPts b) ->
  pendingRPCOverflow b !! i = Some e -> queue_of b !! (length (pendingRPCPts b) + i)%nat = Some e.
Proof.
  intros H1 H2 H. unfold queue_of. rewrite lookup_app_r; rewrite (regular_length _ H1 H2); [|lia].
  by replace (length (pendingRPCPts b) + i - length (pendingRPCPts b))%nat with i by lia.
Qed.

Lemma regular_lookup_id b i x :
  length (pendingRPCIDs b) = length (pendingRPCPts b) ->
  length (pendingRPCReady b) = length (pendingRPCPts b) ->
  pendingRPCIDs b !! i = Some x -> exists e, regular b !! i = Some e /\ oe_id e = x.
Proof.
  intros H1 H2 H. destruct (zip3_proj _ _ _ H1 H2) as (E & _).
  rewrite <- E in H. apply list_lookup_fmap_Some in H as (e & -> & He). by exists e.
Qed.

Lemma Clear_spec (n : Z) (c : Conn) (r : RPCUpdateReservation) :
  conn_wf n c ->
  let '(ok, c') := ClearRPCUpdateAttempt c r in
  queue_of (barrier c') =
    (if ok then filter (fun e => oe_id e <> rs_id r) (queue_of (barrier c))
     else queue_of (barrier c)) /\
  (ok = true -> rs_owned r = true /\ owner c = rs_owner r /\ authKeyID c = rs_authKey r /\
     rs_id r ∈ (oe_id <$> queue_of (barrier c))) /\
  lastPushedPts c' = lastPushedPts c /\ owner c' = owner c /\
  nextPendingRPCID (barrier c') = nextPendingRPCID (barrier c) /\
  pendingRPCOverflowSaturated (barrier c') = pendingRPCOverflowSaturated (barrier c).
Proof.
  intros W. pose proof W as [Hids Hready _ _ _ Hq _ _ _].
  pose proof (queue_ok_nodup _ _ Hq) as ND.
  assert (Hin : forall i e, queue_of (barrier c) !! i = Some e ->
    oe_id e ∈ (oe_id <$> queue_of (barrier c))).
  { intros i e He. apply list_elem_of_fmap. exists e. split; [done|].
    by eapply list_elem_of_lookup_2. }
  unfold ClearRPCUpdateAttempt. cbv zeta. unfold bound_conn, bound_barriers.
  destruct (rs_overflow r) eqn:Ro.
  - destruct ((rs_id r =? 0) || negb (rs_owned r) || _) eqn:G; [done|].
    destruct (list_find _ _) as [[i e]|] eqn:F; [|done]. simpl.
    apply list_find_Some in F as (F & Hid & _).
    pose proof (queue_lookup_overflow _ _ _ Hids Hready F) as Hl.
    rewrite (queue_remove_overflow _ Hids Hready), (delete_filter _ _ _ ND Hl), Hid.
    split; [done|]. split; [|done]. intros _. rewrite <- Hid.
    repeat split; [lia..|by eapply Hin].
  - destruct (negb (rs_owned r)) eqn:Rw; [done|].
    destruct (negb _ || negb _) eqn:G; [done|].
    destruct (list_find _ _) as [[i x]|] eqn:F; [|done]. simpl.
    pose proof (find_regular_lt _ _ _ _ _ W F) as Hlt.
    apply list_find_Some in F as (F & -> & _).
    destruct (regular_lookup_id _ _ _ Hids Hready F) as (e & He & Hid).
    apply queue_lookup_regular in He.
    rewrite (queue_remove_regular _ Hids Hready) by done.
    rewrite (delete_filter _ _ _ ND He), Hid. split; [done|]. split.
    + intros _. rewrite <- Hid. repeat split; [lia..|by eapply Hin].
    + unfold removePendingRPCAtLocked. by destruct (len _ =? 0).
Qed.

(** Releasing a reservation removes exactly the barrier it
    registered, from the middle of the queue or from the overflow, and otherwise
    touches nothing: every other request's barrier keeps its place, pts and
    readiness, and a deduplicated, stale or foreign reservation releases nothing. *)
Theorem ClearRPCUpdateAttempt_own_only (n : Z) (c : Conn) (r : RPCUpdateReservation) :
  conn_wf n c ->
  let '(ok, c') := ClearRPCUpdateAttempt c r in
  queue_of (barrier c') =
    (if ok then filter (fun e => oe_id e <> rs_id r) (queue_of (barrier c))
     else queue_of (barrier c)) /\
  (ok = true -> rs_owned r = true /\ owner c = rs_owner r /\ authKeyID c = rs_authKey r /\
     rs_id r ∈ (oe_id <$> queue_of (barrier c))) /\
  lastPushedPts c' = lastPushedPts c /\ owner c' = owner c /\
  nextPendingRPCID (barrier c') = nextPendingRPCID (barrier c) /\
  pendingRPCOverflowSaturated (barrier c') = pendingRPCOverflowSaturated (barrier c).
Proof. apply Clear_spec. Qed.

(** Two sends in flight for user 7 on key 9. *)
Definition demo_ops : list conn_op :=
  [OpSetOwner 7; OpSetKeyLocked (mkAuthKey 1 9); OpSetKeyStore; OpBegin 7 9 0; OpBegin 7 9 0].

Definition demo_conn : Conn := (conn_run newConn demo_ops).1.

Lemma demo_conn_wf : conn_wf 5 demo_conn.
Proof. exact (wf_run 0 newConn demo_ops newConn_wf eq_refl). Qed.

Lemma conn_reachable_wf_witness :
  len demo_ops < 2 ^ 64 /\ (oe_id <$> queue_of (barrier demo_conn)) = [1; 2] /\
  StronglySorted Z.lt (oe_id <$> queue_of (barrier demo_conn)).
Proof.
  split; [reflexivity|]. split; [reflexivity|].
  exact (proj1 (proj2 (proj2 (proj2 (proj2 (conn_reachable_wf demo_ops eq_refl)))))).
Defined.

Lemma ClearRPCUpdateAttempt_own_only_witness :
  let '(ok, c') := ClearRPCUpdateAttempt demo_conn (mkReservation 7 9 1 true false) in
  ok = true /\ queue_of (barrier c') = [mkOverflow 2 0 false] /\
  queue_of (barrier c') =
    filter (fun e => oe_id e <> 1) (queue_of (barrier demo_conn)).
Proof.
  pose proof (ClearRPCUpdateAttempt_own_only 5 demo_conn (mkReservation 7 9 1 true false)
    demo_conn_wf) as H.
  split; [reflexivity|]. split; [reflexivity|]. exact (proj1 H).
Defined.

(** ** Registering *)

Lemma known_barrier_not_owned b ow ak pts r : known_barrier b ow ak pts = Some r -> rs_owned r = false.
Proof.
  unfold known_barrier. destruct (pts >? 0); [|done].
  destruct (list_find _ _) as [[? ?]|]; intros; simplify_eq; [done|].
  destruct (list_find _ _) as [[? ?]|]; by simplify_eq.
Qed.

(** What [BeginRPCUpdateAttempt] did when it handed out an owned reservation. *)
Lemma Begin_owned n c ow ak pts :
  conn_wf n c -> n < 2 ^ 64 - 1 ->
  let '(r, ok, c') := BeginRPCUpdateAttempt c ow ak pts in
  rs_owned r = true ->
  rs_owner r = ow /\ rs_authKey r = ak /\ owner c = ow /\ authKeyID c = ak /\ 0 < ow /\ ak <> 0 /\
  rs_id r = nextPendingRPCID (barrier c) + 1 /\ ok = negb (rs_overflow r) /\
  c' = set_barrier (if rs_overflow r then push_overflow (barrier c)
                    else push_regular (barrier c) ow ak pts) c /\
  (rs_overflow r = false -> pendingRPCOverflow (barrier c) = []).
Proof.
  intros W Hn. destruct W as [_ _ _ _ Hnext _ _ _ _]. unfold BeginRPCUpdateAttempt.
  destruct ((ow <=? 0) || _ || _) eqn:G1; [done|].
  destruct (negb (owner c =? ow) || _) eqn:G2; [done|]. cbv zeta.
  destruct (known_barrier _ _ _ _) eqn:K.
  { intros H. apply known_barrier_not_owned in K. congruence. }
  destruct ((len (pendingRPCOverflow (barrier c)) >? 0) || _) eqn:G3.
  - destruct (pendingRPCOverflowSaturated (barrier c)); [done|].
    destruct (_ >=? _); simpl; [done|]. intros _. rewrite next_pending_id_small by lia.
    repeat split; lia || done.
  - destruct (_ >=? _); simpl; intros _; rewrite next_pending_id_small by lia;
      repeat split; try lia; try done.
    intros _. apply orb_false_iff in G3 as [G3 _]. apply len_zero.
    pose proof (len_nonneg (pendingRPCOverflow (barrier c))). lia.
Qed.

Lemma fresh_not_in n c :
  conn_wf n c -> nextPendingRPCID (barrier c) + 1 ∉ (oe_id <$> queue_of (barrier c)).
Proof.
  intros [_ _ _ _ _ [_ Hf _] _ _ _] H. apply list_elem_of_fmap in H as (e & He & Hin).
  rewrite Forall_forall in Hf. specialize (Hf e Hin). simpl in Hf. lia.
Qed.

Lemma filter_fresh (q : list pendingRPCOverflowEntry) e :
  oe_id e ∉ oe_id <$> q -> filter (fun x => oe_id x <> oe_id e) (q ++ [e]) = q.
Proof.
  intros H. rewrite filter_app, filter_cons_False by auto. rewrite filter_nil, app_nil_r.
  induction q as [|x q IH]; [done|]. simpl in H. apply not_elem_of_cons in H as [Hx H].
  rewrite filter_cons_True by auto. by rewrite IH.
Qed.

Lemma queue_after_owned n c ow ak pts r :
  conn_wf n c -> n < 2 ^ 64 - 1 ->
  (rs_overflow r = false -> pendingRPCOverflow (barrier c) = []) ->
  queue_of (if rs_overflow r then push_overflow (barrier c)
            else push_regular (barrier c) ow ak pts) =
  queue_of (barrier c) ++
    [mkOverflow (nextPendingRPCID (barrier c) + 1) (if rs_overflow r then 0 else pts) false].
Proof.
  intros [Hids Hready _ _ Hnext _ _ _ _] Hn He. destruct (rs_overflow r).
  - by rewrite queue_push_overflow, next_pending_id_small by lia.
  - rewrite queue_push_regular by auto. by rewrite next_pending_id_small by lia.
Qed.

Lemma Clear_succeeds c1 r :
  rs_owned r = true -> bound_conn c1 (rs_owner r) (rs_authKey r) = true -> rs_id r <> 0 ->
  (if rs_overflow r then exists e, e ∈ pendingRPCOverflow (barrier c1) /\ oe_id e = rs_id r
   else rs_id r ∈ pendingRPCIDs (barrier c1) /\
        bound_barriers c1 (rs_owner r) (rs_authKey r) = true) ->
  (ClearRPCUpdateAttempt c1 r).1 = true.
Proof.
  intros Hr Hc Hid H. unfold ClearRPCUpdateAttempt. cbv zeta. rewrite Hr, Hc.
  destruct (rs_overflow r); simpl.
  - destruct H as (e & Hin & He). replace (rs_id r =? 0) with false by lia. simpl.
    destruct (list_find_elem_of (fun e => oe_id e = rs_id r) _ _ Hin He) as [[i x] ->]. done.
  - destruct H as (Hin & ->). simpl.
    destruct (list_find_elem_of (fun id => id = rs_id r) _ _ Hin eq_refl) as [[i x] ->]. done.
Qed.

(** A request that is given a reservation of its own has exactly
    one new barrier at the end of the queue, under an id no other barrier has,
    whether it landed in the regular queue or in the overflow; releasing that
    reservation succeeds and restores the queue as it was. *)
Theorem Begin_Clear_roundtrip (n : Z) (c c1 : Conn) (ow ak pts : Z) (r : RPCUpdateReservation)
    (ok : bool) :
  conn_wf n c -> n < 2 ^ 64 - 1 ->
  BeginRPCUpdateAttempt c ow ak pts = (r, ok, c1) -> rs_owned r = true ->
  queue_of (barrier c1) =
    queue_of (barrier c) ++ [mkOverflow (rs_id r) (if rs_overflow r then 0 else pts) false] /\
  (rs_id r ∉ (oe_id <$> queue_of (barrier c))) /\
  exists c2, ClearRPCUpdateAttempt c1 r = (true, c2) /\
    queue_of (barrier c2) = queue_of (barrier c).
Proof.
  intros W Hn HB Hr. pose proof (Begin_owned n c ow ak pts W Hn) as H.
  pose proof (wf_Begin n c ow ak pts W Hn) as W1. rewrite HB in H, W1. simpl in W1.
  destruct (H Hr) as (E1 & E2 & E3 & E4 & Hpos & Hak & Hid & _ & Hc1 & He). clear H.
  pose proof (queue_after_owned n c ow ak pts r W Hn He) as HQ.
  assert (HQ1 : queue_of (barrier c1) = queue_of (barrier c) ++
    [mkOverflow (rs_id r) (if rs_overflow r then 0 else pts) false]) by (by rewrite Hc1, Hid).
  assert (Hfresh : rs_id r ∉ (oe_id <$> queue_of (barrier c))).
  { rewrite Hid. by eapply fresh_not_in. }
  split; [done|]. split; [done|].
  pose proof (Clear_spec _ c1 r W1) as HC.
  assert (Hok : (ClearRPCUpdateAttempt c1 r).1 = true).
  { destruct W as [_ _ _ _ Hnext _ _ _ _].
    apply Clear_succeeds; [done|unfold bound_conn; rewrite Hc1; simpl; lia|lia|].
    rewrite Hc1. unfold bound_barriers. destruct (rs_overflow r); simpl;
      rewrite next_pending_id_small, <- Hid by lia.
    - eexists; split; [apply elem_of_app; right; by left|done].
    - split; [apply elem_of_app; right; by left|lia]. }
  destruct (ClearRPCUpdateAttempt c1 r) as [ok2 c2]. simpl in Hok. subst ok2.
  exists c2. split; [done|]. destruct HC as [-> _]. rewrite HQ1.
  by apply (filter_fresh _ (mkOverflow (rs_id r) _ false)).
Qed.

Lemma Begin_Clear_roundtrip_witness :
  exists r c1, BeginRPCUpdateAttempt demo_conn 7 9 12 = (r, true, c1) /\
    (oe_id <$> queue_of (barrier c1)) = [1; 2; 3] /\
    exists c2, ClearRPCUpdateAttempt c1 r = (true, c2) /\
      queue_of (barrier c2) = queue_of (barrier demo_conn).
Proof.
  eexists _, _. split; [reflexivity|]. split; [reflexivity|].
  refine (proj2 (proj2 (Begin_Clear_roundtrip 5 demo_conn _ 7 9 12 _ true demo_conn_wf _ eq_refl _)));
    reflexivity.
Defined.

(** ** Accounting for events *)

(** What accounting for event [pts] does to a watermark and a queue of barriers:
    only the first barrier counts.  One whose pts is not yet known holds the event
    back, its own event passes it, any other event is refused unless it is already
    below the watermark. *)
Definition mark_spec (wm : Z) (q : list pendingRPCOverflowEntry) (pts : Z)
    : bool * Z * list pendingRPCOverflowEntry :=
  match q with
  | [] => (true, Z.max wm pts, [])
  | e :: q' =>
      if oe_pts e =? 0 then (false, wm, q)
      else if oe_pts e =? pts then (true, Z.max wm pts, q')
      else (pts <=? wm, wm, q)
  end.

Lemma regular_cons b p l :
  length (pendingRPCIDs b) = length (pendingRPCPts b) ->
  length (pendingRPCReady b) = length (pendingRPCPts b) ->
  pendingRPCPts b = p :: l ->
  exists e q, queue_of b = e :: q /\ oe_pts e = p.
Proof.
  intros H1 H2 E. unfold queue_of, regular. rewrite E in *.
  destruct (pendingRPCIDs b) as [|i ids]; [done|]. destruct (pendingRPCReady b) as [|r rs]; [done|].
  simpl. by eexists _, _.
Qed.

Lemma regular_nil b : pendingRPCPts b = [] -> queue_of b = pendingRPCOverflow b.
Proof. intros E. unfold queue_of, regular. by rewrite E, zip3_nil_pts. Qed.

Lemma advance_pts c pts : lastPushedPts (advance c pts) = Z.max (lastPushedPts c) pts.
Proof. unfold advance. destruct (pts >? lastPushedPts c) eqn:E; simpl; lia. Qed.

(** Accounting for an event on a connection bound to its owner and
    key is [mark_spec] on the watermark and the one queue the slices and the
    overflow represent; on any other connection, or without a key or a pts, it
    reports false and changes nothing. *)
Theorem MarkRPCUpdate_refines_queue (n : Z) (c : Conn) (ow ak pts : Z) :
  conn_wf n c ->
  let '(ok, c') := MarkRPCUpdate c ow ak pts in
  if negb (ak =? 0) && (0 <? pts) && bound_conn c ow ak
  then (ok, lastPushedPts c', queue_of (barrier c')) =
         mark_spec (lastPushedPts c) (queue_of (barrier c)) pts
  else ok = false /\ c' = c.
Proof.
  intros W. pose proof W as [Hids Hready _ _ _ _ _ _ _].
  unfold MarkRPCUpdate, markRPCUpdateLocked. cbv zeta.
  destruct ((ak =? 0) || (pts <=? 0)) eqn:G.
  { by replace (negb (ak =? 0) && (0 <? pts)) with false by lia. }
  replace (negb (ak =? 0) && (0 <? pts)) with true by lia. simpl.
  destruct (bound_conn c ow ak); simpl; [|done].
  destruct (pendingRPCPts (barrier c)) as [|p l] eqn:Ep.
  - rewrite (regular_nil _ Ep).
    destruct (pendingRPCOverflow (barrier c)) as [|e o] eqn:Ee; simpl.
    + destruct (advance_core c pts) as [-> _]. by rewrite advance_pts, regular_nil, Ee.
    + destruct (oe_pts e =? 0) eqn:E0; [by rewrite regular_nil, Ee|].
      destruct (oe_pts e =? pts) eqn:E1; simpl; [|by rewrite regular_nil, Ee].
      rewrite advance_pts, regular_nil by done. simpl. by rewrite Ee.
  - rewrite <- Ep in Hids, Hready. destruct (regular_cons _ _ _ Hids Hready Ep) as (e & q & Eq & He). rewrite Eq. simpl.
    rewrite He. destruct (p =? 0) eqn:E0; [by rewrite Eq|].
    destruct (p =? pts) eqn:E1; simpl; [|by rewrite Eq].
    rewrite advance_pts, (queue_remove_regular _ Hids Hready), Eq; [done|].
    rewrite Ep. simpl. lia.
Qed.

Lemma MarkRPCUpdate_refines_queue_witness :
  let '(_, c) := SetRPCUpdatePtsAttempt demo_conn (mkReservation 7 9 1 true false) 5 in
  let '(ok, c') := MarkRPCUpdate c 7 9 5 in
  (ok, lastPushedPts c', queue_of (barrier c')) =
    mark_spec (lastPushedPts c) (queue_of (barrier c)) 5 /\
  (ok, lastPushedPts c', queue_of (barrier c')) = (true, 5, [mkOverflow 2 0 false]).
Proof.
  pose proof (MarkRPCUpdate_refines_queue 6
    (SetRPCUpdatePtsAttempt demo_conn (mkReservation 7 9 1 true false) 5).2 7 9 5
    (wf_weaken 5 6 _ ltac:(done) (wf_SetPtsAttempt 5 demo_conn _ 5 demo_conn_wf))) as H.
  split; [exact H|vm_compute; reflexivity].
Defined.

(** ** Results *)

(** The barriers of other events. *)
Definition others (pts : Z) (q : list pendingRPCOverflowEntry) : list pendingRPCOverflowEntry :=
  filter (fun e => oe_pts e <> pts) q.

Lemma others_delete pts (l : list pendingRPCOverflowEntry) i e :
  l !! i = Some e -> oe_pts e = pts -> others pts (delete i l) = others pts l.
Proof.
  unfold others.
  revert i. induction l as [|x l IH]; intros [|i] H Hp; simplify_eq/=.
  - by rewrite filter_cons_False by auto.
  - destruct (decide (oe_pts x = oe_pts e)) as [Hx|Hx].
    + rewrite !filter_cons_False by auto. by apply IH.
    + rewrite !filter_cons_True by auto. f_equal. by apply IH.
Qed.

Lemma others_alter pts f (l : list pendingRPCOverflowEntry) i :
  (forall e, oe_pts (f e) = oe_pts e) ->
  (forall e, l !! i = Some e -> oe_pts e = pts) -> others pts (alter f i l) = others pts l.
Proof.
  intros Hf. unfold others.
  revert i. induction l as [|x l IH]; intros [|i] H; simpl; [done..| |].
  - specialize (H x eq_refl). rewrite !filter_cons_False; [done|auto|by rewrite Hf; auto].
  - destruct (decide (oe_pts x = pts)) as [Hx|Hx].
    + rewrite !filter_cons_False by auto. by apply IH.
    + rewrite !filter_cons_True by auto. f_equal. by apply IH.
Qed.

Section result.
Context (n : Z) (c : Conn) (pts : Z) (pi oi : option nat).
Hypothesis W : conn_wf n c.
Hypothesis Hpi : forall i, pi = Some i ->
  exists e, regular (barrier c) !! i = Some e /\ oe_pts e = pts.
Hypothesis Hoi : forall i, oi = Some i ->
  exists e, pendingRPCOverflow (barrier c) !! i = Some e /\ oe_pts e = pts.

Definition ready_entry (e : pendingRPCOverflowEntry) : pendingRPCOverflowEntry :=
  mkOverflow (oe_id e) (oe_pts e) true.

Definition ready_at (i : option nat) (l : list pendingRPCOverflowEntry)
    : list pendingRPCOverflowEntry :=
  match i with Some i => alter ready_entry i l | None => l end.

Lemma result_ready_queue :
  queue_of (result_ready (barrier c) pi oi) =
    ready_at pi (regular (barrier c)) ++ ready_at oi (pendingRPCOverflow (barrier c)).
Proof.
  unfold result_ready, queue_of, regular.
  destruct pi, oi; simpl; by rewrite ?(zip3_insert_ready _ _ _ (wf_ids _ _ W) (wf_ready _ _ W)).
Qed.

Lemma ready_at_others i l :
  (forall j, i = Some j -> exists e, l !! j = Some e /\ oe_pts e = pts) ->
  others pts (ready_at i l) = others pts l.
Proof.
  intros H. destruct i as [j|]; [|done]. apply others_alter; [done|]. intros e He.
  destruct (H j eq_refl) as (e' & He' & <-). by simplify_eq.
Qed.

Lemma result_ready_others :
  others pts (queue_of (result_ready (barrier c) pi oi)) = others pts (queue_of (barrier c)).
Proof.
  rewrite result_ready_queue. unfold queue_of, others. rewrite !filter_app.
  change (others pts (ready_at pi (regular (barrier c))) ++
          others pts (ready_at oi (pendingRPCOverflow (barrier c))) =
          others pts (regular (barrier c)) ++ others pts (pendingRPCOverflow (barrier c))).
  by rewrite !ready_at_others.
Qed.

Lemma result_ready_ids :
  (oe_id <$> queue_of (result_ready (barrier c) pi oi)) = (oe_id <$> queue_of (barrier c)).
Proof.
  rewrite result_ready_queue. unfold queue_of. rewrite !fmap_app.
  destruct pi, oi; simpl; by rewrite ?fmap_alter_same.
Qed.

Lemma result_remove_others :
  others pts (queue_of (result_remove (result_ready (barrier c) pi oi) pi oi)) =
    others pts (queue_of (barrier c)).
Proof.
  rewrite <- result_ready_others.
  pose proof (wf_result_ready n c pi oi W) as Wb.
  pose proof (wf_ids _ _ Wb) as H1. pose proof (wf_ready _ _ Wb) as H2.
  cbn [barrier set_barrier] in H1, H2.
  pose proof (proj1 (result_ready_sizes (barrier c) pi oi)) as S1.
  assert (Hreg : length (regular (barrier c)) = length (pendingRPCPts (barrier c)))
    by (apply regular_length; apply W).
  pose proof result_ready_queue as HQ. unfold result_remove.
  destruct pi as [i|]; [|destruct oi as [i|]; [|done]].
  - destruct (Hpi i eq_refl) as (e & He & Hp).
    rewrite (queue_remove_regular _ H1 H2)
      by (rewrite S1, <- Hreg; by eapply lookup_lt_Some).
    apply others_delete with (ready_entry e); [|done]. rewrite HQ. apply lookup_app_l_Some.
    simpl. by rewrite list_lookup_alter_eq, He.
  - destruct (Hoi i eq_refl) as (e & He & Hp). rewrite (queue_remove_overflow _ H1 H2).
    apply others_delete with (ready_entry e); [|done]. rewrite HQ, S1. simpl.
    rewrite lookup_app_r; rewrite Hreg; [|lia].
    replace (length (pendingRPCPts (barrier c)) + i - length (pendingRPCPts (barrier c)))%nat
      with i by lia.
    by rewrite list_lookup_alter_eq, He.
Qed.
End result.

Lemma result_pending_at n c ow ak pts i :
  conn_wf n c -> result_pending c ow ak pts = Some i ->
  exists e, regular (barrier c) !! i = Some e /\ oe_pts e = pts.
Proof.
  intros W. unfold result_pending. destruct (bound_barriers c ow ak); [|done].
  intros (p & Hp & Ep)%find_last_Some.
  destruct (zip3_proj _ _ _ (wf_ids _ _ W) (wf_ready _ _ W)) as (_ & E & _).
  rewrite <- E in Hp. apply list_lookup_fmap_Some in Hp as (e & -> & He).
  exists e. split; [done|lia].
Qed.

Lemma result_overflow_at c pts i :
  result_overflow c pts = Some i ->
  exists e, pendingRPCOverflow (barrier c) !! i = Some e /\ oe_pts e = pts.
Proof. intros (e & He & Ep)%find_last_Some. exists e. split; [done|lia]. Qed.

(** Writing a send's result and accounting for its event is one
    step: a failed write leaves the connection as it was; a successful one moves
    the watermark only from [pts - 1] to [pts], never across a gap, and touches no
    barrier of another event.  Across a gap the event's own barrier stays, so the
    queue keeps every id. *)
Theorem result_write_contiguous (n : Z) (c : Conn) (w : io) (req : Request)
    (msg : option (list Z)) (ow ak pts : Z) :
  conn_wf n c ->
  let '(rp, c') := SendResultAndMarkRPCUpdate c w req msg ow ak pts in
  (rp_err rp <> None -> c' = c) /\
  (rp_err rp = None ->
   lastPushedPts c' =
     (if negb (ak =? 0) && (0 <? pts) && bound_conn c ow ak && (pts =? lastPushedPts c + 1)
      then pts else lastPushedPts c) /\
   others pts (queue_of (barrier c')) = others pts (queue_of (barrier c)) /\
   (lastPushedPts c + 1 < pts ->
    (oe_id <$> queue_of (barrier c')) = (oe_id <$> queue_of (barrier c)))).
Proof.
  intros W. unfold SendResultAndMarkRPCUpdate, sendResult. destruct msg as [wire|]; [|done].
  destruct (sendLocked _ _ _ _) as [f [e|]]; [done|]. simpl. split; [done|]. intros _.
  set (c1 := set_outcomes _ c).
  assert (W1 : conn_wf n c1) by (by apply (wf_same_core n c)).
  change (barrier c) with (barrier c1). change (lastPushedPts c) with (lastPushedPts c1).
  change (bound_conn c ow ak) with (bound_conn c1 ow ak). clearbody c1.
  unfold markRPCResultLocked. destruct ((ak =? 0) || (pts <=? 0)) eqn:G.
  { by replace (negb (ak =? 0) && (0 <? pts)) with false by lia. }
  replace (negb (ak =? 0) && (0 <? pts)) with true by lia. simpl.
  destruct (bound_conn c1 ow ak); simpl; [|done].
  pose proof (fun i => result_pending_at n c1 ow ak pts i W1) as Hp.
  pose proof (result_overflow_at c1 pts) as Ho.
  pose proof (result_ready_others n c1 pts _ _ W1 Hp Ho) as R1.
  pose proof (result_remove_others n c1 pts _ _ W1 Hp Ho) as R2.
  pose proof (result_ready_ids n c1 pts _ _ W1 Hp Ho) as R3.
  destruct (pts <=? lastPushedPts c1) eqn:E1; simpl.
  { replace (pts =? lastPushedPts c1 + 1) with false by lia. repeat split; [done|lia]. }
  destruct (pts =? lastPushedPts c1 + 1) eqn:E2; simpl; repeat split; done || lia.
Qed.

Lemma result_write_contiguous_witness :
  let c := (SetRPCUpdatePtsAttempt demo_conn (mkReservation 7 9 1 true false) 1).2 in
  let '(rp, c') := SendResultAndMarkRPCUpdate c io_good (mkRequest 100 0 None) (Some [1; 2]) 7 9 1 in
  rp_err rp = None /\ lastPushedPts c' = 1 /\ queue_of (barrier c') = [mkOverflow 2 0 false].
Proof.
  pose proof (result_write_contiguous 5
    (SetRPCUpdatePtsAttempt demo_conn (mkReservation 7 9 1 true false) 1).2 io_good
    (mkRequest 100 0 None) (Some [1; 2]) 7 9 1 (wf_SetPtsAttempt 5 demo_conn _ 1 demo_conn_wf)) as H.
  split; [reflexivity|]. split; [|vm_compute; reflexivity].
  exact (proj1 (proj2 H eq_refl)).
Defined.

(** * Pushes, the watermark and rebinding

    Runs of one connection: what ordered pushes deliver, and what becomes of the
    operations addressed to a user the connection no longer belongs to. *)

(** ** Operations that keep the binding *)

(** The operation does not hand the connection to another user. *)
Definition keeps_owner (o : Z) (op : conn_op) : bool :=
  match op with OpSetOwner u => u =? o | _ => true end.

(** The pts of an unordered push is unused, as delivery does, and an ordered push
    advertises events past the watermark it was built from. *)
Definition ordered (op : conn_op) : bool :=
  match op with
  | OpPushTo _ _ _ pts => pts <=? 0
  | OpPushAt _ _ expectedPts _ pts => expectedPts <? pts
  | _ => true
  end.

(** The user an operation is meant for, if it is meant for one. *)
Definition op_owner (op : conn_op) : option Z :=
  match op with
  | OpBegin ow _ _ | OpSetPts ow _ _ | OpClear ow _ | OpMarkUpdate ow _ _
  | OpPushTo _ ow _ _ | OpPushRecovery _ ow _ _ _ | OpPushAt _ ow _ _ _ => Some ow
  | OpSetPtsAttempt r _ | OpClearAttempt r => Some (rs_owner r)
  | _ => None
  end.

Definition meant_for (o : Z) (op : conn_op) : Prop :=
  match op_owner op with Some ow => ow = o | None => True end.

#[export] Instance meant_for_dec o op : Decision (meant_for o op).
Proof. unfold meant_for. destruct (op_owner op); apply _. Defined.

(** The ranges of pts the written ordered pushes advertised, in order. *)
Definition written_ranges (es : list emission) : list (Z * Z) :=
  omap (fun e => if em_written e then em_range e else None) es.

(** ** One operation *)

Lemma sendResult_owner c w req msg k :
  (forall c, owner (k c) = owner c) -> owner (sendResult c w req msg k).2 = owner c.
Proof.
  intros Hk. unfold sendResult. destruct msg; [|done].
  destruct (sendLocked _ _ _ _) as [f [e|]]; simpl; [done|]. by rewrite Hk.
Qed.

Lemma markResult_owner c ow ak pts : owner (markRPCResultLocked c ow ak pts).2 = owner c.
Proof.
  unfold markRPCResultLocked. cbv zeta. by repeat case_match.
Qed.

Lemma PushTo_owner c w ow enc pts : owner (PushTo c w ow enc pts).2 = owner c.
Proof. unfold PushTo. by repeat case_match. Qed.

Lemma PushRecovery_owner c w ow s k enc :
  owner (PushDialogFilterRecovery c w ow s k enc).2 = owner c.
Proof. unfold PushDialogFilterRecovery. cbv zeta. by repeat case_match. Qed.

Lemma PushAt_owner c w ow x enc pts : owner (PushToAtWatermark c w ow x enc pts).2 = owner c.
Proof. unfold PushToAtWatermark. by repeat case_match. Qed.

Lemma Begin_owner c ow ak pts : owner (BeginRPCUpdateAttempt c ow ak pts).2 = owner c.
Proof. unfold BeginRPCUpdateAttempt. cbv zeta. by repeat case_match. Qed.

Lemma MarkUpdate_owner c ow ak pts : owner (MarkRPCUpdate c ow ak pts).2 = owner c.
Proof.
  unfold MarkRPCUpdate, markRPCUpdateLocked, advance. cbv zeta. by repeat case_match.
Qed.

Lemma apply_owner c op : keeps_owner (owner c) op = true -> owner (conn_apply c op).1 = owner c.
Proof.
  intros H. destruct op; simpl in *; try done.
  - unfold setOwner. by replace (owner c =? u) with true by lia.
  - unfold markCreated. by case_bool_decide.
  - unfold MarkPendingLogin. by destruct (pendingLogin c).
  - apply Begin_owner.
  - unfold SetRPCUpdatePts. by repeat case_match.
  - unfold SetRPCUpdatePtsAttempt. cbv zeta. by repeat case_match.
  - unfold ClearRPCUpdate, clearRPCUpdateLocked. by repeat case_match.
  - unfold ClearRPCUpdateAttempt. cbv zeta. by repeat case_match.
  - apply MarkUpdate_owner.
  - pose proof (PushTo_owner c w ow enc pts). by destruct (PushTo _ _ _ _ _).
  - pose proof (PushRecovery_owner c w ow session claimID enc).
    by destruct (PushDialogFilterRecovery _ _ _ _ _ _).
  - pose proof (PushAt_owner c w ow expectedPts enc pts).
    by destruct (PushToAtWatermark _ _ _ _ _ _).
  - by apply sendResult_owner.
  - apply sendResult_owner. intros c0. apply markResult_owner.
Qed.

Lemma run_owner_keeps ops : forall c,
  forallb (keeps_owner (owner c)) ops = true -> owner (conn_run c ops).1 = owner c.
Proof.
  induction ops as [|op ops IH]; intros c H; [done|]. simpl in *.
  apply andb_true_iff in H as [H1 H2]. pose proof (apply_owner c op H1) as E.
  destruct (conn_apply c op) as [c1 e1]. simpl in E. rewrite <- E in H2. specialize (IH c1 H2).
  destruct (conn_run c1 ops) as [c2 e2]. simpl in *. congruence.
Qed.

Lemma PushAt_range c w ow x enc pts :
  x < pts ->
  let '(p, c') := PushToAtWatermark c w ow x enc pts in
  lastPushedPts c <= lastPushedPts c' /\
  (p_written p = true -> lastPushedPts c = x /\ lastPushedPts c' = pts \/ lastPushedPts c = x /\ pts <= 0).
Proof.
  intros Hx. unfold PushToAtWatermark. destruct enc as [b|]; [|simpl; split; [lia|done]].
  destruct (io_ctx_err w); [simpl; split; [lia|done]|].
  destruct (owner c =? ow); [|simpl; split; [lia|done]].
  destruct (lastPushedPts c =? x) eqn:E; [|simpl; split; [lia|done]]. simpl.
  destruct (sendLocked _ _ _ _) as [f [e|]]; simpl; [split; [lia|done]|].
  destruct ((pts >? 0) && (pts >? lastPushedPts c)) eqn:G; simpl; split; lia.
Qed.

Lemma sendResult_watermark c w req msg k :
  (forall c, lastPushedPts c <= lastPushedPts (k c)) ->
  lastPushedPts c <= lastPushedPts (sendResult c w req msg k).2.
Proof.
  intros Hk. unfold sendResult. destruct msg; simpl; [|lia].
  destruct (sendLocked _ _ _ _) as [f [e|]]; simpl; [lia|]. apply (Hk (set_outcomes _ c)).
Qed.

Lemma markResult_watermark c ow ak pts :
  lastPushedPts c <= lastPushedPts (markRPCResultLocked c ow ak pts).2.
Proof.
  unfold markRPCResultLocked. cbv zeta. destruct (_ || _); simpl; [lia|].
  destruct (negb _); simpl; [lia|]. destruct (pts <=? _) eqn:E1; simpl; [lia|].
  destruct (pts =? _) eqn:E2; simpl; lia.
Qed.

Lemma MarkUpdate_watermark c ow ak pts :
  lastPushedPts c <= lastPushedPts (MarkRPCUpdate c ow ak pts).2.
Proof.
  pose proof (advance_pts c pts).
  unfold MarkRPCUpdate, markRPCUpdateLocked. cbv zeta. repeat case_match; simpl; lia.
Qed.

Lemma apply_watermark c op :
  0 <= lastPushedPts c -> keeps_owner (owner c) op = true -> ordered op = true ->
  let '(c', es) := conn_apply c op in
  lastPushedPts c <= lastPushedPts c' /\
  (written_ranges es = [] \/
   exists hi, written_ranges es = [(lastPushedPts c, hi)] /\ hi = lastPushedPts c').
Proof.
  intros Hw Hk Ho. destruct op; simpl in *;
    try (split; [|by left]); try (simpl; lia).
  - unfold setOwner. replace (owner c =? u) with true by lia. lia.
  - unfold markCreated. case_bool_decide; simpl; lia.
  - unfold MarkPendingLogin. destruct (pendingLogin c); simpl; lia.
  - unfold BeginRPCUpdateAttempt. cbv zeta. repeat case_match; simpl; lia.
  - unfold SetRPCUpdatePts. repeat case_match; simpl; lia.
  - unfold SetRPCUpdatePtsAttempt. cbv zeta. repeat case_match; simpl; lia.
  - unfold ClearRPCUpdate, clearRPCUpdateLocked. repeat case_match; simpl; lia.
  - unfold ClearRPCUpdateAttempt. cbv zeta. repeat case_match; simpl; lia.
  - apply MarkUpdate_watermark.
  - assert (lastPushedPts (PushTo c w ow enc pts).2 = lastPushedPts c) as E.
    { unfold PushTo. replace (pts >? 0) with false by lia. by repeat case_match. }
    destruct (PushTo _ _ _ _ _) as [p c']. simpl in E. split; [lia|]. left.
    unfold emit. destruct (p_frame p); [|done]. simpl. by destruct (p_written p).
  - assert (lastPushedPts (PushDialogFilterRecovery c w ow session claimID enc).2 =
            lastPushedPts c) as E.
    { unfold PushDialogFilterRecovery. cbv zeta. by repeat case_match. }
    destruct (PushDialogFilterRecovery _ _ _ _ _ _) as [p c']. simpl in E. split; [lia|]. left.
    unfold emit. destruct (p_frame p); [|done]. simpl. by destruct (p_written p).
  - pose proof (PushAt_range c w ow expectedPts enc pts ltac:(lia)) as H.
    destruct (PushToAtWatermark _ _ _ _ _ _) as [p c']. destruct H as [H1 H2]. split; [done|].
    unfold emit. destruct (p_frame p); [|by left]. simpl. destruct (p_written p); [|by left].
    right. destruct (H2 eq_refl) as [[<- <-]|[? ?]]; [by eexists|lia].
  - apply sendResult_watermark. intros; lia.
  - apply sendResult_watermark. intros; apply markResult_watermark.
Qed.

(** ** Runs *)

Lemma written_ranges_app a b : written_ranges (a ++ b) = written_ranges a ++ written_ranges b.
Proof. apply omap_app. Qed.

Lemma run_watermark ops : forall c,
  0 <= lastPushedPts c ->
  forallb (keeps_owner (owner c)) ops = true -> forallb ordered ops = true ->
  let '(c', es) := conn_run c ops in
  lastPushedPts c <= lastPushedPts c' /\
  Forall (fun r => lastPushedPts c <= r.1 /\ r.2 <= lastPushedPts c') (written_ranges es) /\
  StronglySorted (fun r1 r2 => r1.2 <= r2.1) (written_ranges es).
Proof.
  induction ops as [|op ops IH]; intros c Hw Hk Ho.
  { simpl. split; [lia|]. split; constructor. }
  simpl in Hk, Ho. apply andb_true_iff in Hk as [Hk1 Hk2]. apply andb_true_iff in Ho as [Ho1 Ho2].
  pose proof (apply_owner c op Hk1) as HO. pose proof (apply_watermark c op Hw Hk1 Ho1) as H1.
  simpl. destruct (conn_apply c op) as [c1 e1]. simpl in HO. destruct H1 as [H1 Hr].
  specialize (IH c1 ltac:(lia)). rewrite HO in IH. specialize (IH Hk2 Ho2).
  destruct (conn_run c1 ops) as [c2 e2]. destruct IH as (I1 & I2 & I3).
  rewrite written_ranges_app. split; [lia|].
  assert (I2' : Forall (fun r => lastPushedPts c <= r.1 /\ r.2 <= lastPushedPts c2)
                  (written_ranges e2)).
  { eapply Forall_impl; [exact I2|]. simpl. lia. }
  destruct Hr as [->|(hi & -> & ->)]; simpl; [done|]. split.
  - constructor; [simpl; lia|done].
  - constructor; [done|]. eapply Forall_impl; [exact I2|]. simpl. lia.
Qed.

(** While a connection stays with one user and every push is ordered (one that carries a pts
    is [PushToAtWatermark] past the watermark it expects), the watermark never goes back
    and the ordered pushes written to it never repeat an event: each starts at or after the
    pts the one before it ended at, whatever results, marks, barriers, failed writes and
    rebuilt batches come between.  [PushTo] with a pts of its own stores it without
    looking, which delivery does not use. *)
Theorem ordered_pushes_disjoint (c : Conn) (ops : list conn_op) :
  0 <= lastPushedPts c ->
  forallb (keeps_owner (owner c)) ops = true -> forallb ordered ops = true ->
  let '(c', es) := conn_run c ops in
  lastPushedPts c <= lastPushedPts c' /\
  Forall (fun r => lastPushedPts c <= r.1 /\ r.2 <= lastPushedPts c') (written_ranges es) /\
  StronglySorted (fun r1 r2 => r1.2 <= r2.1) (written_ranges es).
Proof. apply run_watermark. Qed.

(** Two deliveries race for the same batch: the second is stale and not written. *)
Lemma ordered_pushes_disjoint_witness :
  let ops := [OpPushAt io_good 7 0 (Some [1]) 3; OpPushAt io_good 7 0 (Some [1]) 3;
              OpPushAt io_good 7 3 (Some [2]) 4] in
  written_ranges (conn_run demo_conn ops).2 = [(0, 3); (3, 4)] /\
  StronglySorted (fun r1 r2 => r1.2 <= r2.1) (written_ranges (conn_run demo_conn ops).2).
Proof.
  split; [vm_compute; reflexivity|].
  exact (proj2 (proj2 (ordered_pushes_disjoint demo_conn
    [OpPushAt io_good 7 0 (Some [1]) 3; OpPushAt io_good 7 0 (Some [1]) 3;
     OpPushAt io_good 7 3 (Some [2]) 4] ltac:(vm_compute; discriminate) eq_refl eq_refl))).
Defined.

(** ** Rebinding *)

Lemma foreign_bound c o ak : o <> owner c -> bound_conn c o ak = false.
Proof. intros H. unfold bound_conn. lia. Qed.

Lemma foreign_inert n c op o :
  conn_wf n c -> op_owner op = Some o -> o <> owner c -> conn_apply c op = (c, []).
Proof.
  intros W Ho Hne. pose proof (foreign_bound c o) as HB.
  destruct op; simpl in Ho; simplify_eq; simpl.
  - unfold BeginRPCUpdateAttempt. destruct (_ || _ || _); [done|].
    by replace (negb (owner c =? o) || _) with true by lia.
  - unfold SetRPCUpdatePts. rewrite HB by done. destruct (_ || _ || _); [done|].
    by rewrite orb_true_r.
  - unfold SetRPCUpdatePtsAttempt. cbv zeta. rewrite HB by done. by destruct (pts <=? 0).
  - unfold ClearRPCUpdate, clearRPCUpdateLocked. destruct (_ || _); [done|].
    destruct (bound_barriers c o ak) eqn:E; simpl; [|done].
    destruct (len (pendingRPCPts (barrier c)) =? 0) eqn:E0; [done|].
    unfold bound_barriers in E. assert (pendingRPCOwner (barrier c) = owner c); [|lia].
    apply (wf_owner _ _ W). intros H. by rewrite H in E0.
  - unfold ClearRPCUpdateAttempt. cbv zeta. rewrite !HB by done. simpl. rewrite !orb_true_r.
    destruct (rs_overflow r); [done|]. by destruct (negb (rs_owned r)).
  - unfold MarkRPCUpdate, markRPCUpdateLocked. cbv zeta. rewrite HB by done.
    by destruct (_ || _).
  - unfold PushTo. replace (owner c =? o) with false by lia.
    destruct enc; [|done]. by destruct (io_ctx_err w).
  - unfold PushDialogFilterRecovery. replace (owner c =? o) with false by lia. simpl.
    destruct enc; [|done]. by destruct (io_ctx_err w).
  - unfold PushToAtWatermark. replace (owner c =? o) with false by lia.
    destruct enc; [|done]. by destruct (io_ctx_err w).
Qed.

Lemma apply_emits c op :
  Forall (fun e => em_to e = owner c /\ f_key (em_frame e) = authKey c /\
                   f_session (em_frame e) = sessionID c) (conn_apply c op).2.
Proof.
  destruct op; simpl; try constructor.
  - unfold PushTo. repeat case_match; simplify_eq/=; try constructor; unfold emit; simpl;
      unfold sendLocked in *; repeat case_match; simplify_eq/=; repeat constructor; simpl; lia.
  - unfold PushDialogFilterRecovery. cbv zeta. repeat case_match; simplify_eq/=; try constructor;
      unfold emit; simpl; unfold sendLocked in *; repeat case_match; simplify_eq/=;
      repeat constructor; simpl; lia.
  - unfold PushToAtWatermark. repeat case_match; simplify_eq/=; try constructor; unfold emit; simpl;
      unfold sendLocked in *; repeat case_match; simplify_eq/=; repeat constructor; simpl; lia.
Qed.

Lemma run_isolates ops : forall n c,
  conn_wf n c -> n + len ops < 2 ^ 64 -> forallb (keeps_owner (owner c)) ops = true ->
  conn_run c ops = conn_run c (filter (meant_for (owner c)) ops) /\
  Forall (fun e => em_to e = owner c) (conn_run c ops).2.
Proof.
  induction ops as [|op ops IH]; intros n c W Hn Hk; [split; [done|constructor]|].
  simpl in Hk. apply andb_true_iff in Hk as [Hk1 Hk2]. rewrite len_cons in Hn.
  pose proof (len_nonneg ops).
  pose proof (apply_owner c op Hk1) as HO.
  pose proof (wf_apply n c op W ltac:(lia)) as W1. pose proof (apply_emits c op) as HE.
  assert (IH1 := IH (n + 1) (conn_apply c op).1 W1 ltac:(lia)). rewrite HO in IH1.
  destruct (IH1 Hk2) as [IHa IHb]. split.
  - destruct (decide (meant_for (owner c) op)) as [Hm|Hm].
    + rewrite filter_cons_True by done. simpl. destruct (conn_apply c op) as [c1 e1].
      simpl in IHa. by rewrite IHa.
    + rewrite filter_cons_False by done. unfold meant_for in Hm.
      destruct (op_owner op) as [o|] eqn:Eo; [|done]. 
      rewrite (foreign_inert n c op o W Eo) in IHa by done. simpl in *.
      rewrite (foreign_inert n c op o W Eo) by done. rewrite <- IHa.
      by destruct (conn_run c ops).
  - simpl. destruct (conn_apply c op) as [c1 e1]. simpl in *.
    destruct (conn_run c1 ops) as [c2 e2]. simpl in *. apply Forall_app; split; [|done].
    eapply Forall_impl; [exact HE|]. by intros e [? _].
Qed.

(** C20 (safety).  Handing a connection to another user starts it afresh (no
    watermark, no barriers, no saturation, no dependency outcomes, no folder
    coverage), and from then on, until the next hand-over, everything still
    addressed to somebody else has no effect at all: the run is the run without
    those operations, and every frame pushed is addressed to the new user. *)
Theorem rebind_isolates (n : Z) (c : Conn) (u : Z) (ops : list conn_op) :
  conn_wf n c -> n + 1 + len ops < 2 ^ 64 -> u <> owner c ->
  forallb (keeps_owner u) ops = true ->
  let c0 := setOwner c u in
  (owner c0 = u /\ lastPushedPts c0 = 0 /\ queue_of (barrier c0) = [] /\
   pendingRPCOverflowSaturated (barrier c0) = false /\ outcomes c0 = resetRPCOutcomesLocked /\
   recovery c0 = resetDialogFilterRecovery u (sessionID c) /\
   recoveryBinding c0 = (u, sessionID c)) /\
  conn_run c0 ops = conn_run c0 (filter (meant_for u) ops) /\
  Forall (fun e => em_to e = u) (conn_run c0 ops).2.
Proof.
  intros W Hn Hu Hk. cbv zeta.
  pose proof (wf_apply n c (OpSetOwner u) W ltac:(pose proof (len_nonneg ops); lia)) as W1.
  simpl in W1.
  assert (E : owner (setOwner c u) = u).
  { unfold setOwner. by replace (owner c =? u) with false by lia. }
  split.
  - unfold setOwner. by replace (owner c =? u) with false by lia.
  - pose proof (run_isolates ops (n + 1) (setOwner c u) W1 Hn) as H. rewrite E in H. by apply H.
Qed.

(** User 7's late push and clear are dropped once user 8 holds the connection. *)
Lemma rebind_isolates_witness :
  let ops := [OpPushAt io_good 7 0 (Some [1]) 3; OpClearAttempt (mkReservation 7 9 1 true false);
              OpPushTo io_good 8 (Some [2]) 0] in
  conn_run (setOwner demo_conn 8) ops =
    conn_run (setOwner demo_conn 8) (filter (meant_for 8) ops) /\
  filter (meant_for 8) ops = [OpPushTo io_good 8 (Some [2]) 0].
Proof.
  split; [|reflexivity].
  exact (proj1 (proj2 (rebind_isolates 5 demo_conn 8
    [OpPushAt io_good 7 0 (Some [1]) 3; OpClearAttempt (mkReservation 7 9 1 true false);
     OpPushTo io_good 8 (Some [2]) 0] demo_conn_wf eq_refl ltac:(vm_compute; discriminate) eq_refl))).
Defined.
