(* ===== verification/Wire.v ===== *)
(** * Reading the opening bytes of a connection

    [internal/mtproto/proxyproto.go], [accept.go], [obfuscated.go] and
    [preflight.go]: the PROXY protocol v2 header and its allowlist, the framing
    sniff and the discovery probe.  Bytes are integers from 0 to 255; a socket is
    the bytes its peer will have sent and what ends the stream after them. *)

From S2P Require Import Prelude.
From S2P Require Import NetAddr.
#[local] Arguments Nat.add : simpl never.

(** ** Sockets *)

(** How the stream ends: the peer closed its write half, or a read failed (the
    handshake deadline, a reset, a close). *)
Inductive stream_end : Type :=
| EndEOF
| EndError.

Record socket : Type := mkSocket {
  sk_bytes : list Z;
  sk_end : stream_end
}.

(** [io.ReadFull]: what was read, whether all of it, and the socket after. *)
Definition ReadFull (n : nat) (s : socket) : list Z * bool * socket :=
  (take n (sk_bytes s), (n <=? length (sk_bytes s))%nat, mkSocket (drop n (sk_bytes s)) (sk_end s)).

(** [replayConn]: bytes already read, put back in front of the socket. *)
Definition replayConn (read : list Z) (s : socket) : socket :=
  mkSocket (read ++ sk_bytes s) (sk_end s).

(** ** PROXY protocol v2 *)

Definition proxyV2FixedLen : nat := 16.
Definition proxyV2Version : Z := 2.
Definition proxyV2CmdLocal : Z := 0.
Definition proxyV2CmdProxy : Z := 1.
Definition proxyV2AFUnspec : Z := 0.
Definition proxyV2AFINet : Z := 1.
Definition proxyV2AFINet6 : Z := 2.
Definition proxyV2ProtoUnspec : Z := 0.
Definition proxyV2ProtoStream : Z := 1.
Definition proxyV2INetLen : Z := 4 + 4 + 2 + 2.
Definition proxyV2INet6Len : Z := 16 + 16 + 2 + 2.

Definition proxyV2Signature : list Z := [13; 10; 13; 10; 0; 13; 10; 81; 85; 73; 84; 10].

(** The number a list of bytes spells, most significant first. *)
Definition big_endian (l : list Z) : Z := foldl (fun acc b => acc * 256 + b) 0 l.

Definition byte_at (l : list Z) (i : nat) : Z := nth i l 0.

Inductive proxy_error : Type :=
| ErrShortHeader
| ErrNoSignature
| ErrVersion (v : Z)
| ErrShortBlock
| ErrCommand (cmd : Z)
| ErrINetLen (n : Z)
| ErrINet6Len (n : Z)
| ErrFamily (family proto : Z).

Definition readProxyV2 (s : socket) : result proxy_error (Addr * socket) :=
  let '(fixed, full, s1) := ReadFull proxyV2FixedLen s in
  if negb full then Err ErrShortHeader
  else if negb (bool_decide (take (length proxyV2Signature) fixed = proxyV2Signature))
  then Err ErrNoSignature
  else
    let version := Z.shiftr (byte_at fixed 12) 4 in
    if negb (version =? proxyV2Version) then Err (ErrVersion version)
    else
      let '(block, full, s2) := ReadFull (Z.to_nat (big_endian (take 2 (drop 14 fixed)))) s1 in
      if negb full then Err ErrShortBlock
      else
        let cmd := Z.land (byte_at fixed 12) 15 in
        if cmd =? proxyV2CmdLocal then Ok (AddrZero, s2)
        else if negb (cmd =? proxyV2CmdProxy) then Err (ErrCommand cmd)
        else
          let family := Z.shiftr (byte_at fixed 13) 4 in
          let proto := Z.land (byte_at fixed 13) 15 in
          if (family =? proxyV2AFINet) && (proto =? proxyV2ProtoStream) then
            if len block <? proxyV2INetLen then Err (ErrINetLen (len block))
            else Ok (Addr4 (big_endian (take 4 block)), s2)
          else if (family =? proxyV2AFINet6) && (proto =? proxyV2ProtoStream) then
            if len block <? proxyV2INet6Len then Err (ErrINet6Len (len block))
            else Ok (Unmap (Addr6 (big_endian (take 16 block)) EmptyString), s2)
          else if (family =? proxyV2AFUnspec) && (proto =? proxyV2ProtoUnspec)
          then Ok (AddrZero, s2)
          else Err (ErrFamily family proto).

(** The balancer allowlist. *)
Definition proxyV2Source_allowed (allow : list Prefix) (peer : Addr) : bool :=
  if negb (Addr_IsValid peer) then false
  else existsb (fun p => Prefix_Contains p peer) allow.

(** ** The client address of an accepted socket *)

(** [peerAddr]: [None] for a network address with no IP. *)
Definition peerAddr (a : option Addr) : Addr :=
  match a with None => AddrZero | Some ip => Unmap ip end.

Inductive client_error : Type :=
| ErrNotAllowed
| ErrDeadline
| ErrHeader (e : proxy_error).

(** [proxyV2] is the allowlist when the mode is on; [deadline_ok] whether the read
    deadline could be set.  Every error closes the socket. *)
Definition clientAddrUntil (proxyV2 : option (list Prefix)) (remote : option Addr)
    (deadline_ok : bool) (s : socket) : result client_error (Addr * socket) :=
  let addr := peerAddr remote in
  match proxyV2 with
  | Some allow =>
      if negb (proxyV2Source_allowed allow addr) then Err ErrNotAllowed
      else if negb deadline_ok then Err ErrDeadline
      else
        match readProxyV2 s with
        | Ok r => Ok r
        | Err e => Err (ErrHeader e)
        end
  | None => if negb deadline_ok then Err ErrDeadline else Ok (addr, s)
  end.

(** ** Accept backoff *)

Definition minAcceptBackoff : Z := 5 * millisecond.
Definition maxAcceptBackoff : Z := second.

Definition nextAcceptBackoff (d : Z) : Z :=
  if d =? 0 then minAcceptBackoff
  else if d * 2 >? maxAcceptBackoff then maxAcceptBackoff else d * 2.

(** ** The framing sniff *)

Definition framingPrefixLen : nat := 8.

(** gotd's codec tags. *)
Definition AbridgedClientStart : Z := 239.
Definition IntermediateClientStart : list Z := [238; 238; 238; 238].
Definition PaddedIntermediateClientStart : list Z := [221; 221; 221; 221].

(** The number a list of bytes spells, least significant first. *)
Definition little_endian (l : list Z) : Z := big_endian (reverse l).

(** [fill n]: read on until [n] bytes of the prefix are there. *)
Definition fill (n : nat) (st : list Z * socket) : bool * (list Z * socket) :=
  let '(head, s) := st in
  let '(got, full, s') := ReadFull (n - length head) s in
  (full, (head ++ got, s')).

(** [(obfuscated, the connection handed on, whether the reads failed)] *)
Definition sniffFraming (s : socket) : bool * socket * bool :=
  let prefixed (obfuscated : bool) (st : list Z * socket) (failed : bool) :=
    (obfuscated, replayConn st.1 st.2, failed) in
  let '(full, st1) := fill 1 ([], s) in
  if negb full then prefixed false st1 true
  else if byte_at st1.1 0 =? AbridgedClientStart then prefixed false st1 false
  else
    let '(full, st2) := fill 4 st1 in
    if negb full then prefixed false st2 true
    else if bool_decide (st2.1 = IntermediateClientStart) ||
            bool_decide (st2.1 = PaddedIntermediateClientStart)
    then prefixed false st2 false
    else
      let '(full, st3) := fill framingPrefixLen st2 in
      if negb full then prefixed false st3 true
      else if little_endian (drop 4 st3.1) =? 0 then prefixed false st3 false
      else prefixed true st3 false.

(** ** The discovery probe *)

(** [telegramd-key-v1] *)
Definition RequestMagic : list Z :=
  [116; 101; 108; 101; 103; 114; 97; 109; 100; 45; 107; 101; 121; 45; 118; 49].
Definition NonceSize : nat := 32.

Inductive probe : Type :=
| ProbeReplay (stream : socket)
| ProbeMatched (nonce : list Z)
| ProbeMalformed.

(** The loop over the magic, one byte per read; [read] is what was read so far and
    [magic] what is still expected of it. *)
Fixpoint probe_magic (magic : list Z) (read : list Z) (s : socket)
    : (probe * bool) + (list Z * socket) :=
  match magic with
  | [] => inr (read, s)
  | x :: magic' =>
      match sk_bytes s with
      | [] => inl (ProbeReplay (replayConn read s), true)
      | y :: rest =>
          let s' := mkSocket rest (sk_end s) in
          if negb (x =? y) then inl (ProbeReplay (replayConn (read ++ [y]) s'), false)
          else probe_magic magic' (read ++ [y]) s'
      end
  end.

(** [(probe, whether an error is returned)]; [expired] is whether the handshake
    deadline has passed when the request is complete. *)
Definition probePreflight (s : socket) (expired : bool) : probe * bool :=
  match probe_magic RequestMagic [] s with
  | inl r => r
  | inr (_, s1) =>
      let '(nonce, full, s2) := ReadFull NonceSize s1 in
      if negb full then (ProbeMalformed, true)
      else if expired then (ProbeMalformed, true)
      else
        match sk_bytes s2, sk_end s2 with
        | _ :: _, _ => (ProbeMalformed, false)
        | [], EndEOF => (ProbeMatched nonce, false)
        | [], EndError => (ProbeMalformed, true)
        end
  end.

(** ** What a v2 header is *)

Record header : Type := mkHeader {
  h_cmd : Z;
  h_family : Z;
  h_proto : Z;
  h_block : list Z
}.

Definition is_byte (b : Z) : Prop := 0 <= b < 256.
Definition is_nibble (b : Z) : Prop := 0 <= b < 16.

Definition header_wf (h : header) : Prop :=
  is_nibble (h_cmd h) /\ is_nibble (h_family h) /\ is_nibble (h_proto h) /\
  len (h_block h) < 65536 /\ Forall is_byte (h_block h).

Definition encode_header (h : header) : list Z :=
  proxyV2Signature ++
  [2 * 16 + h_cmd h; h_family h * 16 + h_proto h; len (h_block h) / 256; len (h_block h) mod 256] ++
  h_block h.

(** The client a header names: [Some AddrZero] for one that names none and is
    served without an address, [None] for one that must be refused. *)
Definition client_of (h : header) : option Addr :=
  if h_cmd h =? 0 then Some AddrZero
  else if h_cmd h =? 1 then
    if (h_family h =? 1) && (h_proto h =? 1) && (12 <=? len (h_block h))
    then Some (Addr4 (big_endian (take 4 (h_block h))))
    else if (h_family h =? 2) && (h_proto h =? 1) && (36 <=? len (h_block h))
    then Some (Unmap (Addr6 (big_endian (take 16 (h_block h))) EmptyString))
    else if (h_family h =? 0) && (h_proto h =? 0) then Some AddrZero
    else None
  else None.

(** ** Nibbles and lengths *)

Lemma nibble_high v c : is_nibble c -> Z.shiftr (v * 16 + c) 4 = v.
Proof.
  intros H. unfold is_nibble in H. rewrite Z.shiftr_div_pow2 by lia. change (2 ^ 4) with 16.
  rewrite Z.div_add_l by lia. rewrite (Z.div_small c 16) by lia. lia.
Qed.

Lemma nibble_low v c : is_nibble c -> Z.land (v * 16 + c) 15 = c.
Proof.
  intros H. unfold is_nibble in H. change 15 with (Z.ones 4). rewrite Z.land_ones by lia.
  change (2 ^ 4) with 16. rewrite Z.add_comm, Z.mod_add by lia. by apply Z.mod_small.
Qed.

Lemma byte_nibbles b :
  is_byte b -> b = Z.shiftr b 4 * 16 + Z.land b 15 /\ is_nibble (Z.shiftr b 4) /\
               is_nibble (Z.land b 15).
Proof.
  intros H. unfold is_byte, is_nibble in *. change 15 with (Z.ones 4).
  rewrite Z.land_ones, Z.shiftr_div_pow2 by lia. change (2 ^ 4) with 16.
  pose proof (Z.div_mod b 16). pose proof (Z.mod_pos_bound b 16). lia.
Qed.

(** The whole of [readProxyV2] on a stream that opens with a version 2 header. *)
Lemma readProxyV2_header (c13 c14 c15 cmd : Z) (rest : list Z) (e : stream_end) :
  is_nibble cmd ->
  readProxyV2 (mkSocket (proxyV2Signature ++ [2 * 16 + cmd; c13; c14; c15] ++ rest) e) =
    let n := Z.to_nat (c14 * 256 + c15) in
    if (length rest <? n)%nat then Err ErrShortBlock
    else if (cmd =? 0) || (cmd =? 1) then
      let h := mkHeader cmd (Z.shiftr c13 4) (Z.land c13 15) (take n rest) in
      match client_of h with
      | Some a => Ok (a, mkSocket (drop n rest) e)
      | None =>
          if (h_family h =? 1) && (h_proto h =? 1) then Err (ErrINetLen (len (take n rest)))
          else if (h_family h =? 2) && (h_proto h =? 1) then Err (ErrINet6Len (len (take n rest)))
          else Err (ErrFamily (h_family h) (h_proto h))
      end
    else Err (ErrCommand cmd).
Proof.
  intros Hc. unfold readProxyV2, ReadFull.
  cbn [sk_bytes sk_end proxyV2Signature app take drop length proxyV2FixedLen Nat.leb negb].
  rewrite bool_decide_eq_true_2 by done. cbn [byte_at nth].
  rewrite nibble_high by done. change (2 =? proxyV2Version) with true. cbn [negb].
  rewrite nibble_low by done. rewrite !take_0, !drop_0.
  replace (big_endian [c14; c15]) with (c14 * 256 + c15) by (unfold big_endian; simpl; lia).
  cbv zeta. set (n := Z.to_nat (c14 * 256 + c15)).
  destruct (n <=? length rest)%nat eqn:E.
  2:{ apply Nat.leb_gt in E. by rewrite (proj2 (Nat.ltb_lt _ _) E). }
  apply Nat.leb_le in E. rewrite (proj2 (Nat.ltb_ge _ _) E). cbn [negb].
  unfold client_of, proxyV2CmdLocal, proxyV2CmdProxy, proxyV2AFINet, proxyV2AFINet6,
    proxyV2AFUnspec, proxyV2ProtoStream, proxyV2ProtoUnspec.
  change proxyV2INetLen with 12. change proxyV2INet6Len with 36.
  cbn [h_cmd h_family h_proto h_block].
  destruct (cmd =? 0); [done|]. destruct (cmd =? 1); [|done]. cbn [negb orb].
  set (fam := Z.shiftr c13 4). set (proto := Z.land c13 15). set (k := len (take n rest)).
  destruct ((fam =? 1) && (proto =? 1)) eqn:F1; cbn [andb].
  - destruct (k <? 12) eqn:K.
    + replace (12 <=? k) with false by lia.
      replace ((fam =? 2) && (proto =? 1)) with false by lia. cbn [andb].
      by replace ((fam =? 0) && (proto =? 0)) with false by lia.
    + by replace (12 <=? k) with true by lia.
  - destruct ((fam =? 2) && (proto =? 1)) eqn:F2; cbn [andb].
    + destruct (k <? 36) eqn:K.
      * replace (36 <=? k) with false by lia.
        by replace ((fam =? 0) && (proto =? 0)) with false by lia.
      * by replace (36 <=? k) with true by lia.
    + by destruct ((fam =? 0) && (proto =? 0)).
Qed.

Lemma readProxyV2_opens s r :
  Forall is_byte (sk_bytes s) -> readProxyV2 s = Ok r ->
  exists cmd c13 c14 c15 rest,
    sk_bytes s = proxyV2Signature ++ [2 * 16 + cmd; c13; c14; c15] ++ rest /\
    is_nibble cmd /\ is_byte c13 /\ is_byte c14 /\ is_byte c15 /\ Forall is_byte rest.
Proof.
  destruct s as [l e]. cbn [sk_bytes]. intros HB H. unfold readProxyV2, ReadFull in H.
  cbn [sk_bytes sk_end] in H.
  destruct (proxyV2FixedLen <=? length l)%nat eqn:E; [|done]. cbn [negb] in H.
  apply Nat.leb_le in E. unfold proxyV2FixedLen in *.
  destruct (bool_decide _) eqn:D in H; [|done]. apply bool_decide_eq_true in D. cbn [negb] in H.
  rewrite take_take in D. change (length proxyV2Signature `min` 16)%nat with 12%nat in D.
  assert (Hl : l = proxyV2Signature ++ drop 12 l) by (rewrite <- D; by rewrite take_drop).
  assert (HL : (4 <= length (drop 12 l))%nat) by (rewrite length_drop; lia).
  destruct (drop 12 l) as [|b12 [|b13 [|b14 [|b15 rest]]]]; simpl in HL; try lia.
  destruct (negb (_ =? proxyV2Version)) eqn:V in H; [done|]. clear H D E.
  rewrite Hl in HB, V. apply Forall_app in HB as [_ HB].
  apply Forall_cons in HB as [B12 HB]. apply Forall_cons in HB as [B13 HB].
  apply Forall_cons in HB as [B14 HB]. apply Forall_cons in HB as [B15 HB].
  change (byte_at _ 12) with b12 in V.
  destruct (byte_nibbles b12 B12) as (E12 & N1 & N2).
  exists (Z.land b12 15), b13, b14, b15, rest.
  assert (Z.shiftr b12 4 = 2) as HV by (unfold proxyV2Version in V; lia).
  rewrite HV in E12. rewrite <- E12. auto 10.
Qed.

Lemma readProxyV2_iff s a s' :
  Forall is_byte (sk_bytes s) ->
  readProxyV2 s = Ok (a, s') <->
  exists h, header_wf h /\ client_of h = Some a /\
    sk_bytes s = encode_header h ++ sk_bytes s' /\ sk_end s = sk_end s'.
Proof.
  intros HB. split.
  - intros H. destruct (readProxyV2_opens s _ HB H) as
      (cmd & c13 & c14 & c15 & rest & Hl & Nc & B13 & B14 & B15 & Br).
    destruct s as [l e]. cbn [sk_bytes sk_end] in *. subst l.
    rewrite readProxyV2_header in H by done. cbv zeta in H.
    set (n := Z.to_nat (c14 * 256 + c15)) in *. unfold is_byte in B14, B15.
    destruct (length rest <? n)%nat eqn:E; [done|]. apply Nat.ltb_ge in E.
    assert (Hlen : len (take n rest) = c14 * 256 + c15).
    { unfold len. rewrite length_take. lia. }
    destruct ((cmd =? 0) || (cmd =? 1)); [|done].
    destruct (client_of _) as [a'|] eqn:C in H; [|by repeat case_match].
    simplify_eq. destruct (byte_nibbles c13 B13) as (E13 & N1 & N2).
    eexists. split; [|split; [exact C|]]; cbn [h_cmd h_family h_proto h_block sk_bytes sk_end].
    + split; [done|]. split; [done|]. split; [done|]. cbn [h_block]. split; [lia|].
      by apply Forall_take.
    + split; [|done]. unfold encode_header. cbn [h_cmd h_family h_proto h_block].
      rewrite Hlen, <- E13.
      replace ((c14 * 256 + c15) / 256) with c14 by (apply Z.div_unique with c15; lia).
      replace ((c14 * 256 + c15) mod 256) with c15 by (apply Z.mod_unique with c14; lia).
      rewrite <- !app_assoc. by rewrite take_drop.
  - intros (h & (Nc & Nf & Np & HL & HBb) & C & El & Ee).
    destruct s as [l e], s' as [l' e']. cbn [sk_bytes sk_end] in *. subst l e'.
    unfold encode_header. rewrite <- !app_assoc, readProxyV2_header by done. cbv zeta.
    pose proof (len_nonneg (h_block h)).
    assert (Hn : Z.to_nat (len (h_block h) / 256 * 256 + len (h_block h) mod 256) =
                 length (h_block h)).
    { rewrite (Z.mul_comm _ 256), <- Z.div_mod by lia. unfold len. lia. }
    rewrite Hn, length_app, (proj2 (Nat.ltb_ge _ _)) by lia.
    rewrite take_app_length, drop_app_length, nibble_high, nibble_low by done.
    replace (mkHeader _ _ _ _) with h by (by destruct h). rewrite C.
    unfold client_of in C. by destruct (h_cmd h =? 0), (h_cmd h =? 1).
Qed.

(** The client address of a socket fails closed.  Without PROXY
    mode it is the peer's own unmapped address and no byte is consumed.  With it,
    an address is produced exactly when the peer is an allowlisted balancer and
    the stream opens with a well-formed version 2 header that may be served; the
    address is the one the header names (never the balancer's), and exactly the
    header is consumed, so the rest of the stream starts at the codec. *)
Theorem clientAddrUntil_exact (proxyV2 : option (list Prefix)) (remote : option Addr)
    (s : socket) (a : Addr) (s' : socket) :
  Forall is_byte (sk_bytes s) ->
  clientAddrUntil proxyV2 remote true s = Ok (a, s') <->
  match proxyV2 with
  | None => a = peerAddr remote /\ s' = s
  | Some allow =>
      proxyV2Source_allowed allow (peerAddr remote) = true /\
      exists h, header_wf h /\ client_of h = Some a /\
        sk_bytes s = encode_header h ++ sk_bytes s' /\ sk_end s = sk_end s'
  end.
Proof.
  intros HB. unfold clientAddrUntil. destruct proxyV2 as [allow|]; simpl.
  - rewrite <- (readProxyV2_iff s a s' HB).
    destruct (proxyV2Source_allowed allow (peerAddr remote)); simpl; [|naive_solver].
    destruct (readProxyV2 s) as [r|e]; naive_solver.
  - naive_solver.
Qed.

(** A balancer at 10.0.0.9 reports the IPv4 client 1.2.3.4; the codec byte follows. *)
Lemma clientAddrUntil_exact_witness :
  let h := mkHeader 1 1 1 [1; 2; 3; 4; 10; 0; 0; 9; 0; 80; 1; 187] in
  clientAddrUntil (Some [mkPrefix false (10 * 2 ^ 24) 8]) (Some (Addr4 (10 * 2 ^ 24 + 9))) true
    (mkSocket (encode_header h ++ [239]) EndEOF) =
  Ok (Addr4 16909060, mkSocket [239] EndEOF).
Proof.
  apply (clientAddrUntil_exact (Some [mkPrefix false (10 * 2 ^ 24) 8])
    (Some (Addr4 (10 * 2 ^ 24 + 9)))
    (mkSocket (encode_header (mkHeader 1 1 1 [1; 2; 3; 4; 10; 0; 0; 9; 0; 80; 1; 187]) ++ [239])
       EndEOF)
    (Addr4 16909060) (mkSocket [239] EndEOF)).
  - unfold is_byte. repeat constructor; vm_compute; intuition discriminate.
  - split; [vm_compute; reflexivity|].
    exists (mkHeader 1 1 1 [1; 2; 3; 4; 10; 0; 0; 9; 0; 80; 1; 187]).
    split; [|split; [vm_compute; reflexivity|split; reflexivity]].
    unfold header_wf, is_nibble, is_byte. cbn [h_cmd h_family h_proto h_block].
    repeat split; try lia. repeat constructor; lia.
Defined.

(** ** The sniff hands on the stream it read *)

Lemma fill_spec n head s :
  (length head <= n)%nat ->
  fill n (head, s) =
    ((n <=? length (head ++ sk_bytes s))%nat,
     (take n (head ++ sk_bytes s), mkSocket (drop n (head ++ sk_bytes s)) (sk_end s))).
Proof.
  intros H. unfold fill, ReadFull. rewrite take_app_ge, drop_app_ge by done.
  replace (n <=? length (head ++ sk_bytes s))%nat
    with (n - length head <=? length (sk_bytes s))%nat; [done|].
  rewrite length_app. apply Bool.eq_iff_eq_true. rewrite !Nat.leb_le. lia.
Qed.

(** The opening bytes an obfuscating client may send: eight of them, not a codec
    tag, and not the zero sequence number of a full-framed first frame. *)
Definition obfuscation_header (l : list Z) : Prop :=
  (8 <= length l)%nat /\ byte_at l 0 <> AbridgedClientStart /\
  take 4 l <> IntermediateClientStart /\ take 4 l <> PaddedIntermediateClientStart /\
  little_endian (take 4 (drop 4 l)) <> 0.

(** The bytes that have to arrive before the framing can be named. *)
Definition framing_needs (l : list Z) : nat :=
  if byte_at l 0 =? AbridgedClientStart then 1
  else if bool_decide (take 4 l = IntermediateClientStart) ||
          bool_decide (take 4 l = PaddedIntermediateClientStart) then 4
  else 8.

Lemma byte_at_take l n : (0 < n)%nat -> byte_at (take n l) 0 = byte_at l 0.
Proof. destruct n, l; [lia|lia|done|done]. Qed.

Lemma sniff_eq s :
  sniffFraming s =
    let l := sk_bytes s in
    if (length l <? 1)%nat then (false, s, true)
    else if byte_at l 0 =? AbridgedClientStart then (false, s, false)
    else if (length l <? 4)%nat then (false, s, true)
    else if bool_decide (take 4 l = IntermediateClientStart) ||
            bool_decide (take 4 l = PaddedIntermediateClientStart) then (false, s, false)
    else if (length l <? 8)%nat then (false, s, true)
    else (negb (little_endian (take 4 (drop 4 l)) =? 0), s, false).
Proof.
  destruct s as [l e]. unfold sniffFraming. cbv zeta. cbn [sk_bytes].
  assert (HR : forall n, replayConn (take n l) (mkSocket (drop n l) e) = mkSocket l e).
  { intros n. unfold replayConn. simpl. by rewrite take_drop. }
  assert (HN : forall n, negb (n <=? length l)%nat = (length l <? n)%nat).
  { intros n. rewrite Nat.leb_antisym, negb_involutive. done. }
  rewrite fill_spec by (simpl; lia). cbn [app sk_bytes sk_end fst snd].
  rewrite HN, !HR, byte_at_take by lia. destruct (length l <? 1)%nat; [done|].
  destruct (byte_at l 0 =? AbridgedClientStart); [done|].
  rewrite fill_spec by (rewrite length_take; lia). cbn [app sk_bytes sk_end fst snd].
  rewrite take_drop, HN, !HR. destruct (length l <? 4)%nat; [done|].
  destruct (_ || _); [done|].
  rewrite fill_spec by (rewrite length_take; unfold framingPrefixLen; lia).
  cbn [app sk_bytes sk_end fst snd]. rewrite take_drop, HN, !HR. unfold framingPrefixLen.
  destruct (length l <? 8)%nat; [done|].
  replace (drop 4 (take 8 l)) with (take 4 (drop 4 l)) by (by rewrite take_drop_commute).
  by destruct (_ =? 0).
Qed.

(** The framing sniff consumes nothing: on every path, errors
    included, the connection it hands on reads exactly as the socket it was given.
    A stream is taken for an obfuscated one precisely when its first eight bytes
    are ones an obfuscating client may send, and the sniff fails precisely when
    the peer stops before the bytes that name its framing. *)
Theorem sniffFraming_replays (s : socket) :
  let '(obfuscated, conn, failed) := sniffFraming s in
  conn = s /\ (obfuscated = true <-> obfuscation_header (sk_bytes s)) /\
  (failed = true <-> (length (sk_bytes s) < framing_needs (sk_bytes s))%nat).
Proof.
  rewrite sniff_eq. cbv zeta. unfold obfuscation_header, framing_needs.
  set (l := sk_bytes s).
  destruct (length l <? 1)%nat eqn:E1; [apply Nat.ltb_lt in E1|apply Nat.ltb_ge in E1].
  { destruct l; [|simpl in E1; lia]. split; [done|]. split; split; try done.
    - intros [H _]. simpl in H. lia.
    - intros _. simpl. lia. }
  destruct (Z.eqb_spec (byte_at l 0) AbridgedClientStart) as [A|A].
  { split; [done|]. split; split; try done; [by intros (_ & ? & _)|lia]. }
  destruct (length l <? 4)%nat eqn:E4; [apply Nat.ltb_lt in E4|apply Nat.ltb_ge in E4].
  { split; [done|]. split; split; try done; [intros [? _]; lia|].
    intros _. destruct (_ || _); lia. }
  destruct (_ || _) eqn:G; [apply orb_true_iff in G|apply orb_false_iff in G as [G1 G2]].
  { rewrite !bool_decide_eq_true in G. split; [done|]. split; split; try done; [|lia].
    intros (_ & _ & ? & ? & _). by destruct G. }
  apply bool_decide_eq_false in G1, G2.
  destruct (length l <? 8)%nat eqn:E8; [apply Nat.ltb_lt in E8|apply Nat.ltb_ge in E8].
  { split; [done|]. split; split; try done. intros [? _]; lia. }
  split; [done|]. split; [|split; [done|lia]]. rewrite negb_true_iff, Z.eqb_neq. naive_solver.
Qed.

(** ** The discovery probe *)

Lemma probe_magic_spec magic : forall read s,
  match probe_magic magic read s with
  | inl (ProbeReplay s', _) =>
      s' = replayConn read s /\ ~ (exists rest, sk_bytes s = magic ++ rest)
  | inl _ => False
  | inr (_, s') => sk_bytes s = magic ++ sk_bytes s' /\ sk_end s' = sk_end s
  end.
Proof.
  induction magic as [|x magic IH]; intros read [l e]; simpl; [done|].
  destruct l as [|y rest]; [split; [done|]; by intros [? ?]|].
  destruct (Z.eqb_spec x y) as [->|Hne]; cbn [negb].
  - specialize (IH (read ++ [y]) (mkSocket rest e)).
    destruct (probe_magic magic _ _) as [[[s'| |] b]|[r s']]; simpl in *; try done.
    + destruct IH as [-> Hno]. split; [unfold replayConn; simpl; by rewrite <- app_assoc|].
      intros [rest' H]. simplify_eq. apply Hno. by exists rest'.
    + destruct IH as [-> ?]. done.
  - split; [unfold replayConn; simpl; by rewrite <- app_assoc|]. intros [rest' H]. by simplify_eq.
Qed.

(** The discovery probe answers exactly a complete request: it
    matches, with its nonce, a stream that is the 16-byte tag, a 32-byte nonce and
    then end of file, before the handshake deadline.  Any other stream that opens
    with the tag is malformed, and one that does not is handed on reading exactly
    as it did, so enabling discovery changes nothing for it. *)
Theorem probePreflight_exact (s : socket) (expired : bool) :
  match (probePreflight s expired).1 with
  | ProbeMatched nonce =>
      sk_bytes s = RequestMagic ++ nonce /\ length nonce = NonceSize /\ sk_end s = EndEOF /\
      expired = false
  | ProbeReplay s' => s' = s /\ ~ (exists rest, sk_bytes s = RequestMagic ++ rest)
  | ProbeMalformed =>
      exists rest, sk_bytes s = RequestMagic ++ rest /\
        (length rest <> NonceSize \/ sk_end s <> EndEOF \/ expired = true)
  end.
Proof.
  unfold probePreflight. pose proof (probe_magic_spec RequestMagic [] s) as H.
  destruct (probe_magic RequestMagic [] s) as [[[s'| |] b]|[r s1]]; try done.
  { destruct H as [-> H]. split; [by destruct s|done]. }
  destruct H as [Hl He]. unfold ReadFull.
  destruct (NonceSize <=? length (sk_bytes s1))%nat eqn:E; cbn [negb fst snd].
  2:{ apply Nat.leb_gt in E. exists (sk_bytes s1). split; [done|]. left. lia. }
  apply Nat.leb_le in E. destruct expired; cbn [fst sk_bytes sk_end].
  { exists (sk_bytes s1). split; [done|]. by right; right. }
  destruct (drop NonceSize (sk_bytes s1)) as [|x rest] eqn:D.
  - assert (length (sk_bytes s1) = NonceSize) as HL.
    { apply (f_equal length) in D. rewrite length_drop in D. simpl in D. lia. }
    rewrite He. destruct (sk_end s) eqn:Es; cbn [fst].
    + rewrite take_ge by lia. done.
    + exists (sk_bytes s1). split; [done|]. right; left. done.
  - cbn [fst]. exists (sk_bytes s1). split; [done|]. left.
    apply (f_equal length) in D. rewrite length_drop in D. simpl in D. lia.
Qed.
