(* ===== verification/Discovery.v ===== *)
(** * The discovery rate limiter

    [discoveryLimiter] of [internal/mtproto/preflight.go]: one process-wide fixed
    window and one per client network, in a map of bounded size.  [allow] holds
    the limiter's lock for its whole body, so a run is a sequence of calls, each
    with the time it read. *)

From S2P Require Import Prelude.
From S2P Require Import NetAddr.

(** ** Data *)

Record DiscoveryLimits : Type := mkLimits {
  MaxRequests : Z;
  MaxRequestsPerNet : Z;
  Window : Z;
  PerNetWindow : Z
}.

Definition DefaultDiscoveryLimits : DiscoveryLimits := mkLimits 60 10 minute minute.

Record discoveryWindow : Type := mkWindow {
  w_start : Z;
  w_calls : Z
}.

(** The zero value, which a lookup of a missing network gives. *)
Definition zero_window : discoveryWindow := mkWindow time_zero 0.

Definition maxDiscoveryBuckets : Z := 4096.

Record discoveryLimiter : Type := mkLimiter {
  limits : DiscoveryLimits;
  global : discoveryWindow;
  perNet : gmap Prefix discoveryWindow;
  maxBuckets : Z
}.

Definition newDiscoveryLimiter (l : DiscoveryLimits) : discoveryLimiter :=
  mkLimiter l zero_window ∅ maxDiscoveryBuckets.

Inductive limits_error : Type :=
| ErrMaxRequests
| ErrMaxRequestsPerNet
| ErrNegativeWindow
| ErrWindow
| ErrPerNetWindow.

Definition SetDiscoveryLimits (l : DiscoveryLimits) : result limits_error discoveryLimiter :=
  if MaxRequests l <? 0 then Err ErrMaxRequests
  else if MaxRequestsPerNet l <? 0 then Err ErrMaxRequestsPerNet
  else if (Window l <? 0) || (PerNetWindow l <? 0) then Err ErrNegativeWindow
  else if (MaxRequests l >? 0) && (Window l <=? 0) then Err ErrWindow
  else if (MaxRequestsPerNet l >? 0) && (PerNetWindow l <=? 0) then Err ErrPerNetWindow
  else Ok (newDiscoveryLimiter l).

(** ** Operations *)

(** [start.IsZero() || !now.Before(start.Add(w))] *)
Definition window_over (win : discoveryWindow) (w now : Z) : bool :=
  time_is_zero (w_start win) || negb (now <? w_start win + w).

Definition roll (win : discoveryWindow) (w now : Z) : discoveryWindow :=
  if window_over win w now then mkWindow now 0 else win.

Definition charge (win : discoveryWindow) : discoveryWindow :=
  mkWindow (w_start win) (w_calls win + 1).

Definition net_window (l : discoveryLimiter) (bucket : Prefix) : discoveryWindow :=
  default zero_window (perNet l !! bucket).

Definition prune (l : discoveryLimiter) (now : Z) : discoveryLimiter :=
  mkLimiter (limits l) (global l)
    (filter (fun kv => window_over kv.2 (PerNetWindow (limits l)) now = false) (perNet l))
    (maxBuckets l).

(** The bucket a request is charged to, when the per-network bound is on. *)
Definition charged_bucket (l : discoveryLimiter) (addr : Addr) : option Prefix :=
  if MaxRequestsPerNet (limits l) >? 0 then IPBucketKey addr else None.

Definition allow (l : discoveryLimiter) (addr : Addr) (now : Z) : bool * discoveryLimiter :=
  let lim := limits l in
  let global' := if MaxRequests lim >? 0 then roll (global l) (Window lim) now else global l in
  if (MaxRequests lim >? 0) && (w_calls global' >=? MaxRequests lim) then (false, l)
  else
    match charged_bucket l addr with
    | None =>
        (true, mkLimiter lim (if MaxRequests lim >? 0 then charge global' else global l)
                 (perNet l) (maxBuckets l))
    | Some bucket =>
        let network := roll (net_window l bucket) (PerNetWindow lim) now in
        if w_calls network >=? MaxRequestsPerNet lim then (false, l)
        else
          let full := (Z.of_nat (size (perNet l)) >=? maxBuckets l) &&
                      time_is_zero (w_start (net_window l bucket)) in
          let l' := if full then prune l now else l in
          if full && (Z.of_nat (size (perNet l')) >=? maxBuckets l) then (false, l')
          else
            (true, mkLimiter lim (if MaxRequests lim >? 0 then charge global' else global l)
                     (<[bucket := charge network]> (perNet l')) (maxBuckets l))
    end.

(** ** One fixed window and the times it admitted *)

(** Every admission so far is at most [now]; those of the current window are what
    its counter says; the [w] before it hold at most [m]; and any span of length
    [w] holds at most [2 * m]. *)
Record window_inv (w m now : Z) (win : discoveryWindow) (ts : list Z) : Prop := mkWinInv {
  wi_past : Forall (fun t => t <= now) ts;
  wi_span : forall t, count_in t (t + w) ts <= 2 * m;
  wi_live : w_start win <> 0 ->
    w_start win <= now /\ count_in (w_start win) (now + 1) ts <= w_calls win <= m /\
    count_in (w_start win - w) (w_start win) ts <= m /\ Forall (fun t => t < w_start win + w) ts;
  wi_none : w_start win = 0 ->
    count_in (now - w) (now + 1) ts <= m /\ Forall (fun t => t < now) ts
}.

Section window.
Context (w m : Z).
Hypothesis Hw : 0 < w.
Hypothesis Hm : 0 <= m.

Lemma window_inv_zero now : window_inv w m now zero_window [].
Proof.
  constructor; [constructor| |done|].
  - intros t. rewrite count_in_none by constructor. lia.
  - intros _. split; [rewrite count_in_none by constructor; lia|constructor].
Qed.

Lemma window_inv_later now now' win ts :
  now <= now' -> window_inv w m now win ts -> window_inv w m now' win ts.
Proof.
  intros Hle [H1 H2 H3 H4]. constructor; [|done| |].
  - eapply Forall_impl; [exact H1|]. simpl. lia.
  - intros Hs. destruct (H3 Hs) as (A & B & C & D). split; [lia|]. split; [|done].
    pose proof (count_in_past (w_start win) (now' + 1) now ts H1). lia.
  - intros Hs. destruct (H4 Hs) as [A B]. split.
    + pose proof (count_in_past (now' - w) (now' + 1) now ts H1).
      pose proof (count_in_mono (now' - w) (now + 1) (now - w) (now + 1) ts). lia.
    + eapply Forall_impl; [exact B|]. simpl. lia.
Qed.

(** An expired window may be forgotten. *)
Lemma window_inv_forget now win ts :
  window_inv w m now win ts -> window_over win w now = true ->
  window_inv w m now zero_window ts.
Proof.
  intros [H1 H2 H3 H4] HO. constructor; [done|done|done|]. intros _.
  unfold window_over, time_is_zero in HO.
  destruct (decide (w_start win = 0)) as [Hs|Hs]; [by apply H4|].
  destruct (H3 Hs) as (A & B & C & D). split.
  - pose proof (count_in_mono (now - w) (now + 1) (w_start win) (now + 1) ts). lia.
  - eapply Forall_impl; [exact D|]. simpl. lia.
Qed.

(** Admitting a request at [now] when the rolled window has room. *)
Lemma window_inv_admit now win ts :
  0 < now -> window_inv w m now win ts -> w_calls (roll win w now) < m ->
  window_inv w m now (charge (roll win w now)) (now :: ts).
Proof.
  intros Hnow I Hc. unfold roll in *. destruct (window_over win w now) eqn:HO.
  - pose proof (window_inv_forget now win ts I HO) as [H1 H2 _ H4].
    destruct (H4 eq_refl) as [H5 H6]. simpl in Hc. constructor; simpl; [|intros t|intros _|lia].
    + constructor; [lia|done].
    + rewrite count_in_cons. specialize (H2 t).
      pose proof (count_in_past t (t + w) now ts H1).
      pose proof (count_in_mono t (now + 1) (now - w) (now + 1) ts).
      destruct (decide (t <= now < t + w)); lia.
    + rewrite !count_in_cons, (count_in_none now) by done. split; [lia|]. split.
      * destruct (decide _); lia.
      * split; [|constructor; [lia|eapply Forall_impl; [exact H6|simpl; lia]]].
        pose proof (count_in_mono (now - w) now (now - w) (now + 1) ts).
        destruct (decide _); lia.
  - destruct I as [H1 H2 H3 _]. unfold window_over, time_is_zero in HO.
    destruct (H3 ltac:(lia)) as (A & B & C & D).
    constructor; simpl; [|intros t|intros _|lia].
    + constructor; [lia|done].
    + rewrite count_in_cons. specialize (H2 t).
      pose proof (count_in_past t (t + w) now ts H1).
      pose proof (count_in_split t (w_start win) (now + 1) ts).
      pose proof (count_in_mono t (w_start win) (w_start win - w) (w_start win) ts).
      destruct (decide (t <= now < t + w)); lia.
    + rewrite !count_in_cons. split; [lia|]. split; [destruct (decide _); lia|].
      split; [destruct (decide _); lia|]. constructor; [lia|done].
Qed.
End window.

(** ** Runs *)

(** The limiter and the requests it admitted, newest first. *)
Definition allow_step (st : discoveryLimiter * list (Addr * Z)) (req : Addr * Z)
    : discoveryLimiter * list (Addr * Z) :=
  let '(ok, l') := allow st.1 req.1 req.2 in
  (l', if ok then req :: st.2 else st.2).

Definition allow_run (l : discoveryLimiter) (reqs : list (Addr * Z))
    : discoveryLimiter * list (Addr * Z) := foldl allow_step (l, []) reqs.

(** The times of the admitted requests of one network. *)
Definition net_times (bucket : Prefix) (adm : list (Addr * Z)) : list Z :=
  (filter (fun r => IPBucketKey r.1 = Some bucket) adm).*2.

(** Calls in the order the lock was taken read a clock that does not go back. *)
Fixpoint times_ordered (now : Z) (reqs : list (Addr * Z)) : Prop :=
  match reqs with
  | [] => True
  | (_, t) :: reqs' => now <= t /\ 0 < t /\ times_ordered t reqs'
  end.

Record limiter_inv (lim : DiscoveryLimits) (now : Z) (l : discoveryLimiter)
    (adm : list (Addr * Z)) : Prop := mkLimInv {
  li_limits : limits l = lim;
  li_max : maxBuckets l = maxDiscoveryBuckets;
  li_size : Z.of_nat (size (perNet l)) <= maxDiscoveryBuckets;
  li_start : forall b win, perNet l !! b = Some win -> w_start win <> 0;
  li_global : 0 < MaxRequests lim ->
    window_inv (Window lim) (MaxRequests lim) now (global l) adm.*2;
  li_net : 0 < MaxRequestsPerNet lim -> forall b,
    window_inv (PerNetWindow lim) (MaxRequestsPerNet lim) now (net_window l b) (net_times b adm)
}.

Definition valid_limits (lim : DiscoveryLimits) : Prop :=
  0 <= MaxRequests lim /\ 0 <= MaxRequestsPerNet lim /\
  (0 < MaxRequests lim -> 0 < Window lim) /\ (0 < MaxRequestsPerNet lim -> 0 < PerNetWindow lim).

Lemma SetDiscoveryLimits_valid lim l :
  SetDiscoveryLimits lim = Ok l -> valid_limits lim /\ l = newDiscoveryLimiter lim.
Proof.
  unfold SetDiscoveryLimits, valid_limits. intros H. repeat case_match; simplify_eq.
  split; [lia|done].
Qed.

Lemma net_times_cons b a t adm :
  net_times b ((a, t) :: adm) =
    if decide (IPBucketKey a = Some b) then t :: net_times b adm else net_times b adm.
Proof.
  unfold net_times. destruct (decide (IPBucketKey a = Some b)).
  - by rewrite filter_cons_True.
  - by rewrite filter_cons_False.
Qed.

Lemma roll_start win w now : 0 < now -> w_start (roll win w now) <> 0.
Proof.
  intros H. unfold roll, window_over, time_is_zero.
  destruct ((w_start win =? 0) || _) eqn:E; simpl; lia.
Qed.

Section run.
Context (lim : DiscoveryLimits).
Hypothesis Hlim : valid_limits lim.

Lemma limiter_inv_new now : limiter_inv lim now (newDiscoveryLimiter lim) [].
Proof.
  destruct Hlim as (? & ? & ? & ?). constructor; simpl; try done.
  - intros. apply window_inv_zero. lia.
  - intros Hp b. apply window_inv_zero. lia.
Qed.

Lemma limiter_inv_later now now' l adm :
  now <= now' -> limiter_inv lim now l adm -> limiter_inv lim now' l adm.
Proof.
  intros Hle [H1 H2 H3 H4 H5 H6]. constructor; try done; intros.
  - eapply window_inv_later; [done|]. auto.
  - eapply window_inv_later; [done|]. auto.
Qed.

Lemma net_window_prune l now b :
  net_window (prune l now) b = net_window l b \/
  net_window (prune l now) b = zero_window /\
  window_over (net_window l b) (PerNetWindow (limits l)) now = true.
Proof.
  unfold net_window, prune. simpl. destruct (perNet l !! b) as [win|] eqn:L.
  - destruct (window_over win (PerNetWindow (limits l)) now) eqn:E.
    + right. rewrite map_lookup_filter_None_2; [done|]. right. intros x Hx. simplify_eq/=.
      by rewrite E.
    + left. by rewrite (map_lookup_filter_Some_2 _ _ _ win L E).
  - left. rewrite map_lookup_filter_None_2; [done|by left].
Qed.

Lemma limiter_inv_prune now l adm : limiter_inv lim now l adm -> limiter_inv lim now (prune l now) adm.
Proof.
  intros [H1 H2 H3 H4 H5 H6]. constructor; simpl; try done.
  - etransitivity; [|exact H3]. apply inj_le, map_size_filter.
  - intros b win H. apply map_lookup_filter_Some in H as [H _]. by eapply H4.
  - intros Hp b. destruct (net_window_prune l now b) as [->|[-> HO]]; [by apply H6|].
    rewrite H1 in HO. eapply window_inv_forget; [|done]. by apply H6.
Qed.

Lemma limiter_inv_admit now l adm a nets :
  0 < now -> limiter_inv lim now l adm ->
  (0 < MaxRequests lim ->
   w_calls (roll (global l) (Window lim) now) < MaxRequests lim) ->
  Z.of_nat (size nets) <= maxDiscoveryBuckets ->
  (forall b win, nets !! b = Some win -> w_start win <> 0) ->
  (0 < MaxRequestsPerNet lim -> forall b,
   window_inv (PerNetWindow lim) (MaxRequestsPerNet lim) now (default zero_window (nets !! b))
     (net_times b ((a, now) :: adm))) ->
  limiter_inv lim now
    (mkLimiter lim
       (if MaxRequests lim >? 0 then charge (roll (global l) (Window lim) now) else global l)
       nets (maxBuckets l)) ((a, now) :: adm).
Proof.
  intros Hn I Hg Hs Hst Hnet. destruct Hlim as (L1 & L2 & HW & L3). destruct I as [H1 H2 H3 H4 H5 H6].
  constructor; simpl; try done. intros Hp. replace (MaxRequests lim >? 0) with true by lia.
  apply window_inv_admit; auto.
Qed.

Lemma limiter_inv_step now l adm a t :
  now <= t -> 0 < t -> limiter_inv lim now l adm ->
  limiter_inv lim t (allow_step (l, adm) (a, t)).1 (allow_step (l, adm) (a, t)).2.
Proof.
  intros Hle Ht I0. assert (I := limiter_inv_later now t l adm Hle I0). clear I0 Hle now.
  pose proof I as [H1 H2 H3 H4 H5 H6]. unfold allow_step, allow. cbn [fst snd]. rewrite H1.
  destruct ((MaxRequests lim >? 0) && _) eqn:G; [done|].
  assert (Hg : 0 < MaxRequests lim ->
    w_calls (roll (global l) (Window lim) t) < MaxRequests lim).
  { intros Hp. replace (MaxRequests lim >? 0) with true in G by lia. lia. }
  replace (if MaxRequests lim >? 0 then charge (if MaxRequests lim >? 0 then _ else _) else _)
    with (if MaxRequests lim >? 0 then charge (roll (global l) (Window lim) t) else global l)
    by (by destruct (MaxRequests lim >? 0)).
  destruct (charged_bucket l a) as [b|] eqn:C; unfold charged_bucket in C; rewrite H1 in C.
  - destruct (MaxRequestsPerNet lim >? 0) eqn:Gp; [|done].
    destruct (w_calls (roll (net_window l b) _ t) >=? _) eqn:Gc; [done|].
    set (full := (Z.of_nat (size (perNet l)) >=? maxBuckets l) && _).
    set (l' := if full then prune l t else l).
    assert (I' : limiter_inv lim t l' adm).
    { unfold l'. destruct full; [by apply limiter_inv_prune|done]. }
    destruct (full && _) eqn:Gf; cbn [fst snd]; [done|].
    pose proof I' as [H1' H2' H3' H4' H5' H6'].
    apply limiter_inv_admit; try done.
    + rewrite map_size_insert. destruct (perNet l' !! b) as [win|] eqn:L; [done|].
      assert (Z.of_nat (size (perNet l')) < maxDiscoveryBuckets); [|lia].
      destruct full eqn:Ef; [cbn [andb] in Gf; lia|]. unfold l', full, net_window in *. rewrite L in Ef.
      simpl in Ef. change (time_is_zero time_zero) with true in Ef. lia.
    + intros b' win. rewrite lookup_insert_Some. intros [[<- <-]|[_ Hw]]; [|by eapply H4'].
      by apply roll_start.
    + intros Hp b'. destruct Hlim as (L1 & L2 & L3 & L4). rewrite net_times_cons.
      destruct (decide (b' = b)) as [->|Hne].
      * rewrite lookup_insert_eq, decide_True by done. simpl. apply window_inv_admit; auto; lia.
      * rewrite lookup_insert_ne, decide_False by congruence. by apply H6'.
  - apply limiter_inv_admit; try done. intros Hp b. rewrite net_times_cons, decide_False; [by apply H6|].
    replace (MaxRequestsPerNet lim >? 0) with true in C by lia. by rewrite C.
Qed.

Lemma limiter_inv_run reqs : forall now l adm,
  times_ordered now reqs -> limiter_inv lim now l adm ->
  exists now', limiter_inv lim now' (foldl allow_step (l, adm) reqs).1
                 (foldl allow_step (l, adm) reqs).2.
Proof.
  induction reqs as [|[a t] reqs IH]; intros now l adm HT I; [by exists now|].
  destruct HT as (H1 & H2 & H3). simpl.
  pose proof (limiter_inv_step now l adm a t H1 H2 I) as I'.
  destruct (allow_step (l, adm) (a, t)) as [l' adm']. by apply (IH t).
Qed.
End run.

(** For limits the server accepts and calls in clock order, the
    limiter never admits more than twice the process-wide allowance in any span as
    long as its window, nor more than twice the per-network allowance from one
    client network (an IPv4 host or an IPv6 /64) in any span as long as that
    window, however windows start, expire and are pruned; and its map never holds
    more than 4096 networks. *)
Theorem discovery_rate_bound (lim : DiscoveryLimits) (l0 : discoveryLimiter)
    (reqs : list (Addr * Z)) :
  SetDiscoveryLimits lim = Ok l0 -> times_ordered 0 reqs ->
  let '(l, adm) := allow_run l0 reqs in
  (0 < MaxRequests lim -> forall t, count_in t (t + Window lim) adm.*2 <= 2 * MaxRequests lim) /\
  (0 < MaxRequestsPerNet lim -> forall b t,
   count_in t (t + PerNetWindow lim) (net_times b adm) <= 2 * MaxRequestsPerNet lim) /\
  Z.of_nat (size (perNet l)) <= maxDiscoveryBuckets.
Proof.
  intros HS HT. apply SetDiscoveryLimits_valid in HS as [HV ->].
  destruct (limiter_inv_run lim HV reqs 0 _ _ HT (limiter_inv_new lim HV 0)) as [now I].
  unfold allow_run. destruct (foldl _ _ reqs) as [l adm]. destruct I as [H1 H2 H3 H4 H5 H6].
  split; [|split; [|done]].
  - intros Hp t. by apply (wi_span _ _ _ _ _ (H5 Hp)).
  - intros Hp b t. by apply (wi_span _ _ _ _ _ (H6 Hp b)).
Qed.

(** One host, allowance 1 per second: admitted, refused, admitted again once the
    window is over. *)
Lemma discovery_rate_bound_witness :
  let lim := mkLimits 0 1 0 second in
  let reqs := [(Addr4 7, 10 * second); (Addr4 7, 10 * second + 1); (Addr4 7, 11 * second)] in
  SetDiscoveryLimits lim = Ok (newDiscoveryLimiter lim) /\
  (allow_run (newDiscoveryLimiter lim) reqs).2 = [(Addr4 7, 11 * second); (Addr4 7, 10 * second)] /\
  count_in (10 * second) (10 * second + second)
    (net_times (mkPrefix false 7 32) (allow_run (newDiscoveryLimiter lim) reqs).2) <= 2.
Proof.
  split; [reflexivity|]. split; [vm_compute; reflexivity|].
  exact (proj1 (proj2 (discovery_rate_bound (mkLimits 0 1 0 second)
    (newDiscoveryLimiter (mkLimits 0 1 0 second))
    [(Addr4 7, 10 * second); (Addr4 7, 10 * second + 1); (Addr4 7, 11 * second)] eq_refl
    ltac:(vm_compute; intuition discriminate))) eq_refl (mkPrefix false 7 32) (10 * second)).
Defined.

(** A refused request costs nobody anything: neither window is
    charged, and at most expired networks are dropped from the map.  An admitted
    one charges the process window and its own network's, and no other network's
    live window. *)
Theorem allow_charges (l : discoveryLimiter) (addr : Addr) (now : Z) :
  let '(ok, l') := allow l addr now in
  (ok = false -> global l' = global l /\ forall b, net_window l' b = net_window l b \/
     net_window l' b = zero_window /\
     window_over (net_window l b) (PerNetWindow (limits l)) now = true) /\
  (ok = true ->
   (0 < MaxRequests (limits l) ->
    global l' = charge (roll (global l) (Window (limits l)) now)) /\
   (forall b, charged_bucket l addr = Some b ->
    net_window l' b = charge (roll (net_window l b) (PerNetWindow (limits l)) now)) /\
   (forall b, charged_bucket l addr <> Some b -> net_window l' b = net_window l b \/
     net_window l' b = zero_window /\
     window_over (net_window l b) (PerNetWindow (limits l)) now = true)).
Proof.
  unfold allow. destruct ((MaxRequests (limits l) >? 0) && _) eqn:G.
  { split; [|done]. split; [done|]. by left. }
  destruct (charged_bucket l addr) as [b|] eqn:C.
  - destruct (_ >=? MaxRequestsPerNet _) eqn:Gc; [split; [|done]; split; [done|by left]|].
    set (full := (Z.of_nat (size (perNet l)) >=? maxBuckets l) && _).
    set (l' := if full then prune l now else l).
    assert (HN : global l' = global l /\ forall b', net_window l' b' = net_window l b' \/
              net_window l' b' = zero_window /\
              window_over (net_window l b') (PerNetWindow (limits l)) now = true).
    { unfold l'. destruct full; [|by auto]. split; [done|]. intros b'. apply net_window_prune. }
    destruct (full && _); [split; [intros _; exact HN|done]|]. split; [done|]. intros _.
    split; [|split].
    + intros Hp. simpl. by replace (MaxRequests (limits l) >? 0) with true by lia.
    + intros b' Hb. simplify_eq. unfold net_window at 1. simpl. by rewrite lookup_insert_eq.
    + intros b' Hb. destruct HN as [_ HN]. specialize (HN b').
      assert (forall g, net_window (mkLimiter (limits l) g (<[b := charge (roll (net_window l b)
                (PerNetWindow (limits l)) now)]> (perNet l')) (maxBuckets l)) b' =
              net_window l' b') as -> by
        (intros g; unfold net_window at 1; simpl; by rewrite lookup_insert_ne by congruence).
      exact HN.
  - split; [done|]. intros _. split; [|split; [done|by left]].
    intros Hp. simpl. by replace (MaxRequests (limits l) >? 0) with true by lia.
Qed.

