(* ===== verification/ServeLoop.v ===== *)
(** * Serving one connection

    [serveConn], [rpcHandle], [runExchange], [read] and [touch] of
    [internal/mtproto/server.go] and [handle.go]: the loop that composes a
    connection with the session registry and the three bounds it passes through.

    One frame is one function of the shared state, the connection's own state and
    what the outside world does during it (what is read, what the key store
    answers, how the handshake and the handlers end).  Between frames other
    goroutines change the shared state, and push to the connection; the states inside a
    frame, such as those between the steps of [bind], are not seen by them here, and the
    invariants are about the head of the loop. *)

From S2P Require Import Prelude.
From S2P Require Import NetAddr.
From S2P Require Import PreAuth.
From S2P Require Import KeyHolds.
From S2P Require Import Registry.
From S2P Require Import RpcTrace.
From S2P Require Import Recovery.
From S2P Require Import Budget.
From S2P Require Import Conn.
From S2P Require Import ConnPush.

(** ** State *)

(** The parts of [Server] that connections share. *)
Record Shared : Type := mkShared {
  sh_registry : SessionRegistry;
  sh_unbound : Unbound.unboundKeyLimiter;
  sh_pending : Pending.pendingLoginLimiter;
  sh_preauth : preAuthLimiter
}.

(** What is worth recording of a run: a handler dispatched for a key and user, with
    the hold at that moment; a handshake begun while the connection had an owner;
    a last-seen update; a presence change. *)
Inductive serve_event : Type :=
| EvDispatch (key userID : Z) (hold : Unbound.unboundKeyHold)
| EvExchange (owner : Z)
| EvTouch (key now : Z)
| EvStatus (userID : Z) (online : bool).

(** The variables of [serveConn]; [cid] is the connection's identity and [slot] is
    [None] for a connection that was not accepted through a listener. *)
Record Local : Type := mkLocal {
  cid : Z;
  conn : Conn;
  registeredUser : Z;
  hold : Unbound.unboundKeyHold;
  pending : bool;
  slot : option preAuthSlot;
  pendingLoginObserved : bool;
  pendingLoginDeadline : Z;
  lastTouch : Z;
  events : list serve_event
}.

Definition touchInterval : Z := 60 * second.

Definition set_conn (c : Conn) (lo : Local) : Local :=
  mkLocal (cid lo) c (registeredUser lo) (hold lo) (pending lo) (slot lo)
    (pendingLoginObserved lo) (pendingLoginDeadline lo) (lastTouch lo) (events lo).

Definition set_registered (u : Z) (lo : Local) : Local :=
  mkLocal (cid lo) (conn lo) u (hold lo) (pending lo) (slot lo)
    (pendingLoginObserved lo) (pendingLoginDeadline lo) (lastTouch lo) (events lo).

Definition set_hold (h : Unbound.unboundKeyHold) (lo : Local) : Local :=
  mkLocal (cid lo) (conn lo) (registeredUser lo) h (pending lo) (slot lo)
    (pendingLoginObserved lo) (pendingLoginDeadline lo) (lastTouch lo) (events lo).

Definition set_slot (s : option preAuthSlot) (lo : Local) : Local :=
  mkLocal (cid lo) (conn lo) (registeredUser lo) (hold lo) (pending lo) s
    (pendingLoginObserved lo) (pendingLoginDeadline lo) (lastTouch lo) (events lo).

Definition set_pending (p observed : bool) (deadline : Z) (lo : Local) : Local :=
  mkLocal (cid lo) (conn lo) (registeredUser lo) (hold lo) p (slot lo)
    observed deadline (lastTouch lo) (events lo).

Definition set_lastTouch (t : Z) (lo : Local) : Local :=
  mkLocal (cid lo) (conn lo) (registeredUser lo) (hold lo) (pending lo) (slot lo)
    (pendingLoginObserved lo) (pendingLoginDeadline lo) t (events lo).

Definition log_event (e : serve_event) (lo : Local) : Local :=
  mkLocal (cid lo) (conn lo) (registeredUser lo) (hold lo) (pending lo) (slot lo)
    (pendingLoginObserved lo) (pendingLoginDeadline lo) (lastTouch lo) (e :: events lo).

Definition with_registry (r : SessionRegistry) (sh : Shared) : Shared :=
  mkShared r (sh_unbound sh) (sh_pending sh) (sh_preauth sh).

Definition with_unbound (u : Unbound.unboundKeyLimiter) (sh : Shared) : Shared :=
  mkShared (sh_registry sh) u (sh_pending sh) (sh_preauth sh).

Definition with_pending (p : Pending.pendingLoginLimiter) (sh : Shared) : Shared :=
  mkShared (sh_registry sh) (sh_unbound sh) p (sh_preauth sh).

Definition with_preauth (p : preAuthLimiter) (sh : Shared) : Shared :=
  mkShared (sh_registry sh) (sh_unbound sh) (sh_pending sh) p.

(** ** Binding *)

(** The two halves of the closure [bind], and the closure: false only when the
    per-user cap refuses the connection. *)
Definition deregister (sh : Shared) (lo : Local) : Shared * Local :=
  if negb (registeredUser lo =? 0) then
    let r := Registry_Remove (sh_registry sh) (registeredUser lo) (cid lo) in
    let lo' := if len (Registry_Conns r (registeredUser lo)) =? 0
               then log_event (EvStatus (registeredUser lo) false) lo else lo in
    (with_registry r sh, set_registered 0 lo')
  else (sh, lo).

Definition register (sh : Shared) (lo : Local) (userID : Z) : bool * Shared * Local :=
  if negb (userID =? 0) then
    let '(ok, r) := Registry_Add (sh_registry sh) userID (cid lo) in
    if negb ok then (false, with_registry r sh, set_conn (setOwner (conn lo) 0) lo)
    else (true, with_registry r sh, set_registered userID (log_event (EvStatus userID true) lo))
  else (true, sh, lo).

Definition bind (sh : Shared) (lo : Local) (userID : Z) : bool * Shared * Local :=
  if userID =? registeredUser lo then (true, sh, lo)
  else
    let lo := set_conn (setOwner (conn lo) userID) lo in
    let '(sh, lo) := deregister sh lo in
    register sh lo userID.

(** ** The outside world during one frame *)

(** The key exchange: a key was negotiated ([saved]: and persisted), an encrypted
    frame of a known key arrived instead, the exchange failed with a code to
    report ([sent]: and it was), or it failed. *)
Inductive exchange_outcome : Type :=
| ExKey (saved : bool)
| ExUnexpected (id : Z)
| ExServerError (sent : bool)
| ExFailed.

(** [AuthKeyStore.Get] *)
Inductive lookup : Type :=
| LookupErr
| LookupMiss
| LookupHit (key : AuthKey) (userID : Z).

Record frame_env : Type := mkFrameEnv {
  fe_read : option Z;               (* the frame's auth key id, [None] for a failed read *)
  fe_exchange : exchange_outcome;
  fe_get : lookup;
  fe_proto_sent : bool;             (* whether the -404 could be written *)
  fe_session : option Z;            (* the session of the decrypted frame *)
  fe_created_sent : bool;           (* whether new_session_created could be written *)
  fe_handler : list conn_op;        (* what the handlers did to this connection *)
  fe_handler_ok : bool;
  fe_get2 : lookup;                 (* the second read of the binding *)
  fe_now : Z                        (* the clock *)
}.

Inductive exit_reason : Type :=
| ExitRead
| ExitExchange
| ExitLookup
| ExitRevoked
| ExitProto
| ExitKeyMismatch
| ExitRequest
| ExitUnboundCap
| ExitPendingCap
| ExitUserCap.

Inductive frame_outcome : Type :=
| Continue (sh : Shared) (lo : Local)
| Exit (sh : Shared) (lo : Local) (why : exit_reason).

(** [runExchange]: [inl] the id of the encrypted frame to go on with, or [inr] nil
    (true) or an error (false). *)
Definition runExchange (o : exchange_outcome) : Z + bool :=
  match o with
  | ExUnexpected id => inl id
  | ExServerError sent => inr sent
  | ExFailed => inr false
  | ExKey saved => inr saved
  end.

(** ** Handling a decrypted frame *)

Definition clear_slot (sh : Shared) (lo : Local) : Shared * Local :=
  match slot lo with
  | Some s =>
      let '(s', l') := preAuthSlot_clear s (sh_preauth sh) in
      (with_preauth l' sh, set_slot (Some s') lo)
  | None => (sh, lo)
  end.

(** The [beforeDispatch] callback of [serveConn]. *)
Definition beforeDispatch (sh : Shared) (lo : Local) (id userID : Z) : bool * Shared * Local :=
  let h := hold lo in
  if Unbound.signedIn h || negb (userID =? 0) || (Unbound.charged h && (Unbound.key h =? id))
  then (true, sh, lo)
  else
    let '(ok, h', l') := Unbound.unboundKeyHold_charge h (sh_unbound sh) id userID in
    (ok, with_unbound l' sh, set_hold h' lo).

Inductive rpc_result : Type :=
| RpcDone
| RpcCap
| RpcError.

Definition rpcHandle (sh : Shared) (lo : Local) (fe : frame_env) (id userID : Z)
    : rpc_result * Shared * Local :=
  match fe_session fe with
  | None => (RpcError, sh, lo)
  | Some session =>
      let '(sh, lo) := clear_slot sh lo in
      let lo := set_conn (setSession (conn lo) session) lo in
      let '(ok, sh, lo) := beforeDispatch sh lo id userID in
      if negb ok then (RpcCap, sh, lo)
      else
        let '(already, c) := markCreated (conn lo) session in
        let lo := set_conn c lo in
        if negb already && negb (fe_created_sent fe) then (RpcError, sh, lo)
        else
          let lo := log_event (EvDispatch id userID (hold lo)) lo in
          let lo := set_conn (conn_run (conn lo) (fe_handler fe)).1 lo in
          (if fe_handler_ok fe then RpcDone else RpcError, sh, lo)
  end.

(** [pendingLoginSince], with the loop's fallback to the clock; [now] and the
    result are nanoseconds since the Unix epoch. *)
Definition pending_since (c : Conn) (now : Z) : Z :=
  if pendingLoginAt c =? 0 then now else pendingLoginAt c.

(** Claiming the pending-login slot after the dispatch: false when the cap refuses. *)
Definition claim_pending (lifetime : Z) (sh : Shared) (lo : Local) (now : Z)
    : bool * Shared * Local :=
  if negb (pendingLoginObserved lo) && pendingLogin (conn lo) then
    let '(ok, held, l') := Pending.pendingLoginHold_acquire (pending lo) (sh_pending sh) in
    let sh := with_pending l' sh in
    if negb ok then (false, sh, set_pending held true (pendingLoginDeadline lo) lo)
    else (true, sh, set_pending held true (pending_since (conn lo) now + lifetime) lo)
  else (true, sh, lo).

(** The user the hold is charged with after the dispatch: [None] for a failed read
    of the binding. *)
Definition charge_user (lo : Local) (fe : frame_env) (userID : Z) : option Z :=
  if (userID =? 0) && negb (Unbound.signedIn (hold lo)) then
    match fe_get2 fe with
    | LookupErr => None
    | LookupMiss => Some userID
    | LookupHit _ u => Some u
    end
  else Some userID.

Definition touch (lo : Local) (id now : Z) : Local :=
  if time_sub now (lastTouch lo) <? touchInterval then lo
  else log_event (EvTouch id now) (set_lastTouch now lo).

(** The body of the loop for a frame whose key id is [id], once any handshake is
    over. *)
Definition serve_known (lifetime : Z) (sh : Shared) (lo : Local) (fe : frame_env) (id : Z)
    : frame_outcome :=
  match fe_get fe with
  | LookupErr => Exit sh lo ExitLookup
  | LookupMiss =>
      if negb (registeredUser lo =? 0) then Exit sh lo ExitRevoked
      else if negb (fe_proto_sent fe) then Exit sh lo ExitProto
      else Continue sh lo
  | LookupHit key userID =>
      if negb (IntID key =? id) then Exit sh lo ExitKeyMismatch
      else
        let lo := set_conn (setKey (conn lo) key) lo in
        match rpcHandle sh lo fe id userID with
        | (RpcCap, sh, lo) => Exit sh lo ExitUnboundCap
        | (RpcError, sh, lo) => Exit sh lo ExitRequest
        | (RpcDone, sh, lo) =>
            let '(ok, sh, lo) := claim_pending lifetime sh lo (fe_now fe) in
            if negb ok then Exit sh lo ExitPendingCap
            else
              match charge_user lo fe userID with
              | None => Exit sh lo ExitLookup
              | Some chargeUser =>
                  let '(ok, h', l') :=
                    Unbound.unboundKeyHold_charge (hold lo) (sh_unbound sh) id chargeUser in
                  let sh := with_unbound l' sh in
                  let lo := set_hold h' lo in
                  if negb ok then Exit sh lo ExitUnboundCap
                  else
                    let '(ok, sh, lo) := bind sh lo userID in
                    if negb ok then Exit sh lo ExitUserCap
                    else Continue sh (touch lo id (fe_now fe))
              end
        end
  end.

(** One iteration of the loop of [serveConn]. *)
Definition serve_frame (lifetime : Z) (sh : Shared) (lo : Local) (fe : frame_env) : frame_outcome :=
  match fe_read fe with
  | None => Exit sh lo ExitRead
  | Some id =>
      if id =? 0 then
        let '(_, sh, lo) := bind sh lo 0 in
        let lo := log_event (EvExchange (owner (conn lo))) lo in
        match runExchange (fe_exchange fe) with
        | inl id' => serve_known lifetime sh lo fe id'
        | inr true => Continue sh lo
        | inr false => Exit sh lo ExitExchange
        end
      else serve_known lifetime sh lo fe id
  end.

(** The deferred calls, last one first: the pending-login slot, the unbound-key
    hold, [bind(0)], and the close of the transport. *)
Definition serve_exit (sh : Shared) (lo : Local) : Shared * Local :=
  let '(held, pl) := Pending.pendingLoginHold_release (pending lo) (sh_pending sh) in
  let sh := with_pending pl sh in
  let lo := set_pending held (pendingLoginObserved lo) (pendingLoginDeadline lo) lo in
  let '(h, ul) := Unbound.unboundKeyHold_release (hold lo) (sh_unbound sh) in
  let sh := with_unbound ul sh in
  let lo := set_hold h lo in
  let '(_, sh, lo) := bind sh lo 0 in
  (sh, set_conn (set_closed (conn lo)) lo).

Definition serve_start (id : Z) (s : option preAuthSlot) : Local :=
  mkLocal id newConn 0 Unbound.newHold false s false time_zero time_zero [].

(** ** Runs *)

(** What a handler or a delivery goroutine may do to a connection: anything but
    binding it, which only the serve loop does. *)
Definition handler_op (op : conn_op) : bool :=
  match op with
  | OpSetOwner _ | OpSetKeyLocked _ | OpSetKeyStore | OpSetSession _ => false
  | _ => true
  end.

(** How often a connection is registered under a user. *)
Definition occ (r : SessionRegistry) (u c : Z) : Z := len (filter (fun x => x = c) (user_conns r u)).

(** Other goroutines: whatever they do to the shared state, they register and
    deregister only their own connections. *)
Definition others_ok (c : Z) (sh sh' : Shared) : Prop :=
  forall u, occ (sh_registry sh') u c = occ (sh_registry sh) u c.

Inductive serving (lifetime : Z) (id : Z) (s : option preAuthSlot) : Shared -> Local -> Prop :=
| serving_start sh :
    (forall u, occ (sh_registry sh) u id = 0) -> serving lifetime id s sh (serve_start id s)
| serving_others sh lo sh' :
    serving lifetime id s sh lo -> others_ok (cid lo) sh sh' -> serving lifetime id s sh' lo
| serving_push sh lo ops :
    serving lifetime id s sh lo -> forallb handler_op ops = true ->
    serving lifetime id s sh (set_conn (conn_run (conn lo) ops).1 lo)
| serving_frame sh lo fe sh' lo' :
    serving lifetime id s sh lo -> forallb handler_op (fe_handler fe) = true ->
    serve_frame lifetime sh lo fe = Continue sh' lo' -> serving lifetime id s sh' lo'.

(** ** What holds at the head of the loop *)

Definition event_ok (e : serve_event) : Prop :=
  match e with
  | EvDispatch key userID h =>
      userID <> 0 \/ Unbound.signedIn h = true \/
      (Unbound.charged h = true /\ Unbound.key h = key)
  | EvExchange o => o = 0
  | EvTouch _ _ | EvStatus _ _ => True
  end.

(** The part of the invariant that does not mention the registry. *)
Record local_inv (lo : Local) : Prop := mkLocalInv {
  lv_owner : owner (conn lo) = registeredUser lo;
  lv_signed : Unbound.signedIn (hold lo) = true -> Unbound.charged (hold lo) = false;
  lv_bound : registeredUser lo <> 0 -> Unbound.signedIn (hold lo) = true;
  lv_pending : pending lo = true -> pendingLoginObserved lo = true;
  lv_events : Forall event_ok (events lo)
}.

Definition registered_ok (sh : Shared) (lo : Local) : Prop :=
  forall u, occ (sh_registry sh) u (cid lo) =
    if decide (u = registeredUser lo /\ u <> 0) then 1 else 0.

Record serve_inv (sh : Shared) (lo : Local) : Prop := mkServeInv {
  sv_local : local_inv lo;
  sv_registered : registered_ok sh lo
}.

(** ** Registry lemmas *)

Lemma occ_add r u c r' v x :
  Registry_Add r u c = (true, r') ->
  occ r' v x = occ r v x + (if decide (v = u /\ x = c) then 1 else 0).
Proof.
  unfold Registry_Add. destruct (_ >=? _); intros; simplify_eq. unfold occ, user_conns. simpl.
  destruct (decide (v = u)) as [->|Hv].
  - rewrite lookup_insert_eq. simpl. rewrite filter_app, len_app.
    destruct (decide (x = c)) as [->|Hx].
    + rewrite decide_True by done. by rewrite filter_cons_True by done.
    + rewrite decide_False by naive_solver. by rewrite filter_cons_False by done.
  - rewrite lookup_insert_ne by done. rewrite decide_False by naive_solver. lia.
Qed.

Lemma user_conns_remove r u c v :
  user_conns (Registry_Remove r u c) v =
    if decide (v = u)
    then match index_of c (user_conns r u) with
         | Some i => delete i (user_conns r u) | None => user_conns r u end
    else user_conns r v.
Proof.
  unfold Registry_Remove.
  set (p1 := match index_of c (user_conns r u) with Some _ => _ | None => _ end).
  assert (E1 : forall w, default [] (p1.1 !! w) =
    if decide (w = u) then match index_of c (user_conns r u) with
         | Some i => delete i (user_conns r u) | None => user_conns r u end
    else user_conns r w).
  { intros w. unfold p1. destruct (index_of c (user_conns r u)) as [i|]; simpl.
    - destruct (decide (w = u)) as [->|]; [by rewrite lookup_insert_eq|].
      by rewrite lookup_insert_ne by done.
    - by destruct (decide (w = u)) as [->|]. }
  clearbody p1. destruct p1 as [m1 t1]. simpl in E1.
  destruct (match index_of c (recoveryConns r) with Some _ => _ | None => _ end) as [rc cur].
  unfold user_conns at 1. simpl. rewrite <- E1.
  destruct (len (default [] (m1 !! u)) =? 0) eqn:E; [|done].
  destruct (decide (v = u)) as [->|Hv]; [|by rewrite lookup_delete_ne by done].
  rewrite lookup_delete_eq. simpl. symmetry. by apply len_zero, Z.eqb_eq.
Qed.

Lemma filter_delete_eq (l : list Z) i c x :
  l !! i = Some c ->
  len (filter (fun y => y = x) (delete i l)) =
    len (filter (fun y => y = x) l) - (if decide (x = c) then 1 else 0).
Proof.
  revert i. induction l as [|y l IH]; intros [|i] H; simplify_eq/=.
  - destruct (decide (x = c)) as [->|Hx].
    + rewrite filter_cons_True, len_cons by done. lia.
    + rewrite filter_cons_False by auto. lia.
  - destruct (decide (y = x)) as [->|Hy].
    + rewrite !filter_cons_True, !len_cons by done. rewrite IH by done. lia.
    + rewrite !filter_cons_False by done. by apply IH.
Qed.

Lemma occ_remove r u c v x :
  0 < occ r u c ->
  occ (Registry_Remove r u c) v x = occ r v x - (if decide (v = u /\ x = c) then 1 else 0).
Proof.
  intros H. unfold occ. rewrite user_conns_remove. destruct (decide (v = u)) as [->|Hv].
  - destruct (index_of c (user_conns r u)) as [i|] eqn:E.
    + rewrite (filter_delete_eq _ _ _ _ (index_of_Some _ _ _ E)).
      destruct (decide (x = c)), (decide (u = u /\ x = c)); naive_solver lia.
    + exfalso. apply index_of_None in E. unfold occ in H.
      destruct (filter (fun x => x = c) (user_conns r u)) as [|y l] eqn:F; [done|].
      apply E. assert (y ∈ filter (fun x => x = c) (user_conns r u)) as Hy by (rewrite F; by left).
      apply list_elem_of_filter in Hy as [-> Hy]. done.
  - rewrite decide_False by naive_solver. lia.
Qed.

(** ** Steps of a frame *)

Lemma charge_spec h l id u ok h' l' :
  Unbound.unboundKeyHold_charge h l id u = (ok, h', l') ->
  (Unbound.signedIn h = true -> Unbound.charged h = false) ->
  (Unbound.signedIn h' = true -> Unbound.charged h' = false) /\
  (Unbound.signedIn h = true -> h' = h /\ ok = true) /\
  (u <> 0 -> Unbound.signedIn h' = true /\ ok = true) /\
  (ok = true -> Unbound.signedIn h' = true \/ Unbound.charged h' = true /\ Unbound.key h' = id).
Proof.
  unfold Unbound.unboundKeyHold_charge, Unbound.unboundKeyHold_release. intros E Hs.
  destruct (Unbound.signedIn h) eqn:S; simplify_eq.
  { split_and!; auto. }
  destruct (u =? 0) eqn:U; simpl in E.
  - destruct (Unbound.charged h && (Unbound.key h =? id)) eqn:C; simplify_eq.
    { split_and!; intros; try congruence; lia. }
    destruct (Unbound.charged h); simpl in E;
      destruct (Unbound.unboundKeyLimiter_acquire _ id) as [[|] l2]; simplify_eq/=;
      split_and!; intros; try congruence; try lia; by right.
  - destruct (Unbound.charged h) eqn:C; simplify_eq/=; split_and!; intros; auto; congruence.
Qed.

Lemma setOwner_owner c u : owner (setOwner c u) = u.
Proof. unfold setOwner. destruct (owner c =? u) eqn:E; simpl; lia. Qed.

(** What [bind] does not touch. *)
Definition same_holds (lo lo' : Local) : Prop :=
  cid lo' = cid lo /\ hold lo' = hold lo /\ pending lo' = pending lo /\
  pendingLoginObserved lo' = pendingLoginObserved lo /\ slot lo' = slot lo.

Lemma deregister_spec sh lo sh' lo' :
  registered_ok sh lo -> deregister sh lo = (sh', lo') ->
  (forall v, occ (sh_registry sh') v (cid lo) = 0) /\ registeredUser lo' = 0 /\
  conn lo' = conn lo /\ same_holds lo lo' /\
  (Forall event_ok (events lo) -> Forall event_ok (events lo')).
Proof.
  intros R. unfold deregister. destruct (registeredUser lo =? 0) eqn:Z0; simpl; intros; simplify_eq.
  - split; [|split_and!; [lia|done|by repeat split|done]]. intros v. rewrite (R v), decide_False; [done|lia].
  - assert (R0 := R (registeredUser lo)). rewrite decide_True in R0 by lia.
    split; [|destruct (len _ =? 0); split_and!; try done; intros; by constructor].
    intros v. simpl. rewrite occ_remove, (R v) by lia.
    destruct (decide (v = registeredUser lo)) as [->|Hv].
    + rewrite !decide_True by lia. lia.
    + rewrite !decide_False by naive_solver. lia.
Qed.

(** [bind] leaves the connection owned by, and registered under, one user, whether
    or not the cap refuses it. *)
Lemma bind_inv sh lo u ok sh' lo' :
  serve_inv sh lo -> (u <> 0 -> Unbound.signedIn (hold lo) = true) ->
  bind sh lo u = (ok, sh', lo') ->
  serve_inv sh' lo' /\ (ok = true -> registeredUser lo' = u) /\ (u = 0 -> ok = true) /\
  same_holds lo lo'.
Proof.
  intros [[L1 L2 L3 L4 L5] R] Hu. unfold bind.
  destruct (u =? registeredUser lo) eqn:E0; intros E; simplify_eq.
  { split; [by repeat split|]. split_and!; [lia|done|by repeat split]. }
  destruct (deregister sh (set_conn (setOwner (conn lo) u) lo)) as [sh1 lo1] eqn:D.
  destruct (deregister_spec _ _ _ _ (R : registered_ok sh (set_conn _ lo)) D)
    as (Hocc & Hreg & Hconn & (Hc & Hh & Hp & Ho & Hs) & Hev). simpl in *.
  assert (Hlo1 : owner (conn lo1) - u = 0) by (rewrite Hconn, setOwner_owner; lia).
  specialize (Hev L5). unfold register in E. destruct (u =? 0) eqn:U; simpl in E.
  { simplify_eq. split; [|split_and!; [simpl; lia|lia|by repeat split]].
    split; [split|]; rewrite ?Hh, ?Hp, ?Ho; try done; try lia.
    intros v. rewrite Hc, Hocc, decide_False; [done|lia]. }
  destruct (Registry_Add (sh_registry sh1) u (cid lo1)) as [[|] r] eqn:A; simpl in E; simplify_eq.
  - split; [|split_and!; [simpl; lia|lia|by repeat split]]. split; [split|]; simpl; rewrite ?Hh, ?Hp, ?Ho; try done.
    + lia.
    + by constructor.
    + intros v. simpl. rewrite (occ_add _ _ _ _ v (cid lo1) A), Hc, Hocc.
      destruct (decide (v = u)) as [->|Hv].
      * rewrite !decide_True by (split; [done|lia]). lia.
      * rewrite !decide_False by naive_solver. lia.
  - assert (r = sh_registry sh1) as ->.
    { unfold Registry_Add in A. destruct (_ >=? _); by simplify_eq. }
    split; [|split_and!; [simpl; lia|lia|by repeat split]]. split; [split|]; simpl; rewrite ?Hh, ?Hp, ?Ho; try done.
    + rewrite setOwner_owner. lia.
    + intros v. simpl. rewrite Hc, Hocc, decide_False; [done|lia].
Qed.

Lemma run_owner ops : forall c,
  forallb handler_op ops = true -> owner (conn_run c ops).1 = owner c.
Proof.
  induction ops as [|op ops IH]; intros c H; [done|]. simpl in *.
  apply andb_true_iff in H as [H1 H2].
  assert (owner (conn_apply c op).1 = owner c) as E by (apply apply_owner; by destruct op).
  destruct (conn_apply c op) as [c1 e1]. simpl in E.
  specialize (IH c1 H2). destruct (conn_run c1 ops) as [c2 e2]. simpl in *. congruence.
Qed.

(** Replacing the connection by one of the same owner. *)
Lemma set_conn_inv sh lo c :
  owner c = owner (conn lo) -> serve_inv sh lo -> serve_inv sh (set_conn c lo).
Proof. intros E [[L1 L2 L3 L4 L5] R]. split; [split|]; simpl; try done. congruence. Qed.

Lemma clear_slot_inv sh lo sh' lo' :
  serve_inv sh lo -> clear_slot sh lo = (sh', lo') ->
  serve_inv sh' lo' /\ hold lo' = hold lo /\ registeredUser lo' = registeredUser lo /\
  events lo' = events lo.
Proof.
  intros [[L1 L2 L3 L4 L5] R] E. unfold clear_slot in E.
  destruct (slot lo) as [s|]; [destruct (preAuthSlot_clear s (sh_preauth sh)) as [s' l']|];
    simplify_eq; by repeat split.
Qed.

Lemma set_hold_inv sh lo h l' :
  serve_inv sh lo -> (Unbound.signedIn h = true -> Unbound.charged h = false) ->
  (Unbound.signedIn (hold lo) = true -> Unbound.signedIn h = true) ->
  serve_inv (with_unbound l' sh) (set_hold h lo).
Proof. intros [[L1 L2 L3 L4 L5] R] H1 H2. split; [split|]; simpl; auto. Qed.

Lemma beforeDispatch_inv sh lo id u ok sh' lo' :
  serve_inv sh lo -> beforeDispatch sh lo id u = (ok, sh', lo') ->
  serve_inv sh' lo' /\ registeredUser lo' = registeredUser lo /\ conn lo' = conn lo /\
  (ok = true -> event_ok (EvDispatch id u (hold lo'))).
Proof.
  intros I E. unfold beforeDispatch in E.
  destruct (Unbound.signedIn (hold lo) || negb (u =? 0) || _) eqn:G; simplify_eq.
  { split_and!; try done. intros _. simpl.
    apply orb_true_iff in G as [G|G]; [apply orb_true_iff in G as [G|G]|].
    - by right; left.
    - left. lia.
    - right; right. apply andb_true_iff in G as [? ?]. split; [done|lia]. }
  apply orb_false_iff in G as [G _]. apply orb_false_iff in G as [G _].
  destruct (Unbound.unboundKeyHold_charge _ _ _ _) as [[ok1 h1] l1] eqn:C. simplify_eq.
  destruct (charge_spec _ _ _ _ _ _ _ C (lv_signed _ (sv_local _ _ I))) as (H1 & H2 & H3 & H4).
  split_and!; try done.
  - apply set_hold_inv; [done|done|]. intros HS. congruence.
  - intros Hok. simpl. destruct (H4 Hok) as [?|?]; auto.
Qed.

Lemma rpcHandle_inv sh lo fe id u r sh' lo' :
  serve_inv sh lo -> forallb handler_op (fe_handler fe) = true ->
  rpcHandle sh lo fe id u = (r, sh', lo') ->
  serve_inv sh' lo' /\ registeredUser lo' = registeredUser lo.
Proof.
  intros I Hh E. unfold rpcHandle in E. destruct (fe_session fe) as [session|]; [|by simplify_eq].
  destruct (clear_slot sh lo) as [sh1 lo1] eqn:E1.
  destruct (clear_slot_inv _ _ _ _ I E1) as (I1 & _ & R1 & _). clear I E1.
  pose proof (set_conn_inv sh1 lo1 (setSession (conn lo1) session) eq_refl I1) as I2.
  destruct (beforeDispatch _ _ _ _) as [[ok sh3] lo3] eqn:E3.
  destruct (beforeDispatch_inv _ _ _ _ _ _ _ I2 E3) as (I3 & R3 & _ & Hev). clear I1 I2 E3.
  simpl in R3. destruct ok; simpl in E; [|simplify_eq; split; [done|congruence]].
  destruct (markCreated (conn lo3) session) as [already c] eqn:M.
  assert (Hc : owner c = owner (conn lo3)).
  { unfold markCreated in M. case_bool_decide; by simplify_eq. }
  pose proof (set_conn_inv _ _ _ Hc I3) as I4.
  destruct (negb already && negb (fe_created_sent fe)); simplify_eq; [split; [done|simpl; congruence]|].
  split; [|simpl; congruence]. apply set_conn_inv.
  - by apply run_owner.
  - destruct I4 as [[L1 L2 L3 L4 L5] R]. split; [split|]; try done. constructor; auto.
Qed.

Lemma claim_pending_inv lifetime sh lo now ok sh' lo' :
  serve_inv sh lo -> claim_pending lifetime sh lo now = (ok, sh', lo') ->
  serve_inv sh' lo' /\ registeredUser lo' = registeredUser lo /\ hold lo' = hold lo.
Proof.
  intros [[L1 L2 L3 L4 L5] R] E. unfold claim_pending in E.
  destruct (_ && _); [|by simplify_eq].
  destruct (Pending.pendingLoginHold_acquire _ _) as [[ok1 held] l1].
  destruct ok1; simpl in E; simplify_eq; (split; [split; [split|]|]); done.
Qed.

Lemma touch_inv sh lo id now : serve_inv sh lo -> serve_inv sh (touch lo id now).
Proof.
  intros [[L1 L2 L3 L4 L5] R]. unfold touch. destruct (_ <? _); split; try split; try done.
  by constructor.
Qed.

Lemma touch_registered lo id now : registeredUser (touch lo id now) = registeredUser lo.
Proof. unfold touch. by destruct (_ <? _). Qed.

Definition outcome_state (o : frame_outcome) : Shared * Local :=
  match o with Continue sh lo => (sh, lo) | Exit sh lo _ => (sh, lo) end.

(** A frame of a known key leaves the invariant, and when the loop goes on the
    connection belongs to the user the key store named. *)
Lemma serve_known_inv lifetime sh lo fe id :
  serve_inv sh lo -> forallb handler_op (fe_handler fe) = true ->
  let o := serve_known lifetime sh lo fe id in
  serve_inv (outcome_state o).1 (outcome_state o).2 /\
  match o, fe_get fe with
  | Continue _ lo', LookupHit _ u => registeredUser lo' = u
  | _, _ => True
  end.
Proof.
  intros I Hh. cbv zeta. unfold serve_known. destruct (fe_get fe) as [| |key u]; [done| |].
  { destruct (negb (registeredUser lo =? 0)); [done|]. by destruct (negb (fe_proto_sent fe)). }
  destruct (negb (IntID key =? id)); [done|].
  pose proof (set_conn_inv sh lo (setKey (conn lo) key) eq_refl I) as I1.
  destruct (rpcHandle _ _ _ _ _) as [[r sh2] lo2] eqn:E2.
  destruct (rpcHandle_inv _ _ _ _ _ _ _ _ I1 Hh E2) as [I2 R2].
  destruct r; [|done..].
  destruct (claim_pending _ _ _ _) as [[ok3 sh3] lo3] eqn:E3.
  destruct (claim_pending_inv _ _ _ _ _ _ _ I2 E3) as (I3 & R3 & H3).
  destruct ok3; simpl; [|done].
  destruct (charge_user lo3 fe u) as [cu|] eqn:EC; [|done].
  destruct (Unbound.unboundKeyHold_charge _ _ _ _) as [[ok4 h4] l4] eqn:E4.
  destruct (charge_spec _ _ _ _ _ _ _ E4 (lv_signed _ (sv_local _ _ I3))) as (C1 & C2 & C3 & C4).
  assert (I4 : serve_inv (with_unbound l4 sh3) (set_hold h4 lo3)).
  { apply set_hold_inv; [done|done|]. intros HS. destruct (C2 HS) as [-> _]. done. }
  destruct ok4; simpl; [|done].
  destruct (bind _ _ u) as [[ok5 sh5] lo5] eqn:E5.
  assert (Hu : u <> 0 -> Unbound.signedIn (hold (set_hold h4 lo3)) = true).
  { intros Hu. simpl. apply C3. unfold charge_user in EC.
    replace (u =? 0) with false in EC by lia. simpl in EC. congruence. }
  destruct (bind_inv _ _ _ _ _ _ I4 Hu E5) as (I5 & R5 & _ & _).
  destruct ok5; simpl; [|done]. split; [by apply touch_inv|].
  rewrite touch_registered. auto.
Qed.

Lemma serve_frame_inv lifetime sh lo fe :
  serve_inv sh lo -> forallb handler_op (fe_handler fe) = true ->
  let o := serve_frame lifetime sh lo fe in
  serve_inv (outcome_state o).1 (outcome_state o).2.
Proof.
  intros I Hh. cbv zeta. unfold serve_frame. destruct (fe_read fe) as [id|]; [|done].
  destruct (id =? 0); [|by apply serve_known_inv].
  destruct (bind sh lo 0) as [[ok sh1] lo1] eqn:E.
  destruct (bind_inv _ _ _ _ _ _ I ltac:(done) E) as (I1 & R1 & HO & _). specialize (HO eq_refl).
  subst ok. specialize (R1 eq_refl).
  assert (I2 : serve_inv sh1 (log_event (EvExchange (owner (conn lo1))) lo1)).
  { destruct I1 as [[L1 L2 L3 L4 L5] R]. split; [split|]; try done. constructor; [|done].
    simpl. congruence. }
  destruct (runExchange (fe_exchange fe)) as [id'|[|]]; [|done..]. by apply serve_known_inv.
Qed.

Lemma serving_inv lifetime id s sh lo : serving lifetime id s sh lo -> serve_inv sh lo.
Proof.
  induction 1 as [sh H|sh lo sh' _ [L R] HO|sh lo ops _ I Hh|sh lo fe sh' lo' _ I Hh E].
  - split; [by repeat split|]. intros u. simpl. rewrite H, decide_False; [done|].
    simpl. intros [-> ?]. done.
  - split; [done|]. intros u. rewrite HO. apply R.
  - apply set_conn_inv; [|done]. by apply run_owner.
  - pose proof (serve_frame_inv lifetime sh lo fe I Hh) as H. by rewrite E in H.
Qed.


(** ** The limiters' books

    The slots a connection holds, by its own state: one of the key it is charged to, and a
    pending-login slot where that limit is on. *)
Definition unbound_mine (h : Unbound.unboundKeyHold) (k : Z) : Z := Z.b2z (Unbound.charged_to k h).

Definition pending_mine (l : Pending.pendingLoginLimiter) (held : bool) : Z :=
  Z.b2z (held && (Pending.max l >? 0)).

(** [bu] and [bp] are the slots of all the other connections: the limiters count those and
    this connection's, and nothing else. *)
Record balanced (bu : Z -> Z) (bp : Z) (sh : Shared) (lo : Local) : Prop := mkBalanced {
  bl_others : forall k, 0 <= bu k;
  bl_unbound : forall k, count_at (Unbound.conns (sh_unbound sh)) k = bu k + unbound_mine (hold lo) k;
  bl_pending : Pending.count (sh_pending sh) = bp + pending_mine (sh_pending sh) (pending lo)
}.

(** Other goroutines register only their own connections, and move the limiters' counts
    only by the slots they take and give back themselves. *)
Record others_fair (c : Z) (bu bu' : Z -> Z) (bp bp' : Z) (sh sh' : Shared) : Prop := mkFair {
  of_registry : others_ok c sh sh';
  of_owned : forall k, 0 <= bu' k;
  of_unbound : forall k, count_at (Unbound.conns (sh_unbound sh')) k - count_at (Unbound.conns (sh_unbound sh)) k = bu' k - bu k;
  of_pending : Pending.count (sh_pending sh') - Pending.count (sh_pending sh) = bp' - bp;
  of_limit : Pending.max (sh_pending sh') = Pending.max (sh_pending sh)
}.

(** The life of a connection as in [serving], with the books of the others kept beside it. *)
Inductive serving_books (lifetime : Z) (id : Z) (s : option preAuthSlot) : (Z -> Z) -> Z -> Shared -> Local -> Prop :=
| books_start bu bp sh :
    (forall u, occ (sh_registry sh) u id = 0) -> (forall k, 0 <= bu k) ->
    (forall k, count_at (Unbound.conns (sh_unbound sh)) k = bu k) -> Pending.count (sh_pending sh) = bp ->
    serving_books lifetime id s bu bp sh (serve_start id s)
| books_others bu bp bu' bp' sh lo sh' :
    serving_books lifetime id s bu bp sh lo -> others_fair (cid lo) bu bu' bp bp' sh sh' ->
    serving_books lifetime id s bu' bp' sh' lo
| books_push bu bp sh lo ops :
    serving_books lifetime id s bu bp sh lo -> forallb handler_op ops = true ->
    serving_books lifetime id s bu bp sh (set_conn (conn_run (conn lo) ops).1 lo)
| books_frame bu bp sh lo fe sh' lo' :
    serving_books lifetime id s bu bp sh lo -> forallb handler_op (fe_handler fe) = true ->
    serve_frame lifetime sh lo fe = Continue sh' lo' -> serving_books lifetime id s bu bp sh' lo'.

Lemma books_serving lifetime id s bu bp sh lo : serving_books lifetime id s bu bp sh lo -> serving lifetime id s sh lo.
Proof.
  induction 1 as [bu bp sh H|bu bp bu' bp' sh lo sh' _ IH F|bu bp sh lo ops _ IH Hh|bu bp sh lo fe sh' lo' _ IH Hh E].
  - by apply serving_start.
  - eapply serving_others; [done|apply F].
  - by apply serving_push.
  - by eapply serving_frame.
Qed.

(** A step that touches neither limiter nor hold. *)
Lemma balanced_same bu bp sh lo sh' lo' :
  sh_unbound sh' = sh_unbound sh -> sh_pending sh' = sh_pending sh -> hold lo' = hold lo -> pending lo' = pending lo ->
  balanced bu bp sh lo -> balanced bu bp sh' lo'.
Proof. intros E1 E2 E3 E4 [H1 H2 H3]. constructor; rewrite ?E1, ?E2, ?E3, ?E4; auto. Qed.

Lemma b2z_charged h k : unbound_mine h k = if Unbound.charged h && (Unbound.key h =? k) then 1 else 0.
Proof. unfold unbound_mine, Unbound.charged_to. by destruct (_ && _). Qed.

Lemma release_books (bu : Z -> Z) h l h' l' :
  (forall k, 0 <= bu k) -> (forall k, count_at (Unbound.conns l) k = bu k + unbound_mine h k) ->
  Unbound.unboundKeyHold_release h l = (h', l') ->
  Unbound.charged h' = false /\ forall k, count_at (Unbound.conns l') k = bu k.
Proof.
  intros Hb Hc E. unfold Unbound.unboundKeyHold_release in E. destruct (Unbound.charged h) eqn:C; simplify_eq/=.
  - split; [done|]. intros k. rewrite count_at_decr, Hc, b2z_charged, C.
    + cbn [andb]. destruct (Z.eqb_spec (Unbound.key h) k); [rewrite bool_decide_eq_true_2 by done|rewrite bool_decide_eq_false_2 by done];
        cbn; lia.
    + rewrite Hc, b2z_charged, C, Z.eqb_refl. specialize (Hb (Unbound.key h)). cbn. lia.
  - split; [done|]. intros k. rewrite Hc, b2z_charged, C. cbn. lia.
Qed.

Lemma uncharged_mine h k : Unbound.charged h = false -> unbound_mine h k = 0.
Proof. intros H. by rewrite b2z_charged, H. Qed.

Lemma charge_books (bu : Z -> Z) h l id u ok h' l' :
  (forall k, 0 <= bu k) -> (forall k, count_at (Unbound.conns l) k = bu k + unbound_mine h k) ->
  Unbound.unboundKeyHold_charge h l id u = (ok, h', l') ->
  forall k, count_at (Unbound.conns l') k = bu k + unbound_mine h' k.
Proof.
  intros Hb Hc E k. unfold Unbound.unboundKeyHold_charge in E.
  destruct (Unbound.signedIn h); [by simplify_eq|]. destruct (negb (u =? 0)).
  { destruct (Unbound.unboundKeyHold_release _ l) as [h1 l1] eqn:E1. simplify_eq.
    assert (Hc' : forall k, count_at (Unbound.conns l) k =
      bu k + unbound_mine (Unbound.mkHold (Unbound.key h) (Unbound.charged h) true) k) by exact Hc.
    destruct (release_books bu _ _ _ _ Hb Hc' E1) as [Hch Hco]. rewrite Hco, uncharged_mine by done. lia. }
  destruct (Unbound.charged h && _); [by simplify_eq|].
  destruct (Unbound.unboundKeyHold_release h l) as [h1 l1] eqn:E1.
  destruct (release_books bu _ _ _ _ Hb Hc E1) as [Hch Hco].
  unfold Unbound.unboundKeyLimiter_acquire in E. destruct ((Unbound.max l1 >? 0) && _); simplify_eq/=.
  - rewrite Hco, uncharged_mine by done. lia.
  - rewrite count_at_incr, Hco, b2z_charged. cbn.
    destruct (Z.eqb_spec id k); [rewrite bool_decide_eq_true_2 by done|rewrite bool_decide_eq_false_2 by done]; cbn; lia.
Qed.

Lemma charge_balanced bu bp sh lo id u ok h' l' :
  balanced bu bp sh lo -> Unbound.unboundKeyHold_charge (hold lo) (sh_unbound sh) id u = (ok, h', l') ->
  balanced bu bp (with_unbound l' sh) (set_hold h' lo).
Proof.
  intros [H1 H2 H3] E. constructor; cbn; [done| |done]. by apply (charge_books bu _ _ _ _ _ _ _ H1 H2 E).
Qed.

Lemma deregister_balanced bu bp sh lo :
  balanced bu bp sh lo -> balanced bu bp (deregister sh lo).1 (deregister sh lo).2.
Proof.
  unfold deregister. destruct (negb _); [|done]. cbn. intros H.
  eapply balanced_same; [..|exact H]; try done; cbn; by case_match.
Qed.

Lemma bind_balanced bu bp sh lo u ok sh' lo' :
  balanced bu bp sh lo -> bind sh lo u = (ok, sh', lo') -> balanced bu bp sh' lo'.
Proof.
  intros H E. unfold bind in E. destruct (u =? registeredUser lo); [by simplify_eq|].
  assert (H1 : balanced bu bp sh (set_conn (setOwner (conn lo) u) lo)) by (by eapply balanced_same; [..|exact H]).
  apply deregister_balanced in H1. destruct (deregister sh _) as [sh1 lo1]. cbn in H1.
  unfold register in E. destruct (negb (u =? 0)); [|by simplify_eq].
  destruct (Registry_Add _ _ _) as [[|] r]; cbn in E; simplify_eq; by eapply balanced_same; [..|exact H1].
Qed.

Lemma beforeDispatch_balanced bu bp sh lo id u ok sh' lo' :
  balanced bu bp sh lo -> beforeDispatch sh lo id u = (ok, sh', lo') -> balanced bu bp sh' lo'.
Proof.
  intros H E. unfold beforeDispatch in E. destruct (_ || _); [by simplify_eq|].
  destruct (Unbound.unboundKeyHold_charge _ _ _ _) as [[ok1 h1] l1] eqn:C. simplify_eq.
  by eapply charge_balanced.
Qed.

Lemma rpcHandle_balanced bu bp sh lo fe id u r sh' lo' :
  balanced bu bp sh lo -> rpcHandle sh lo fe id u = (r, sh', lo') -> balanced bu bp sh' lo'.
Proof.
  intros H E. unfold rpcHandle in E. destruct (fe_session fe) as [session|]; [|by simplify_eq].
  destruct (clear_slot sh lo) as [sh1 lo1] eqn:E1.
  assert (H1 : balanced bu bp sh1 (set_conn (setSession (conn lo1) session) lo1)).
  { unfold clear_slot in E1. destruct (slot lo) as [sl|]; [destruct (preAuthSlot_clear sl _)|]; simplify_eq;
      by eapply balanced_same; [..|exact H]. }
  destruct (beforeDispatch _ _ _ _) as [[ok sh3] lo3] eqn:E3.
  apply (beforeDispatch_balanced _ _ _ _ _ _ _ _ _ H1) in E3.
  destruct ok; cbn in E; [|by simplify_eq]. destruct (markCreated _ _) as [already c].
  destruct (negb already && _); simplify_eq; by eapply balanced_same; [..|exact E3].
Qed.

Lemma claim_pending_balanced bu bp lifetime sh lo now ok sh' lo' :
  balanced bu bp sh lo -> claim_pending lifetime sh lo now = (ok, sh', lo') -> balanced bu bp sh' lo'.
Proof.
  intros [H1 H2 H3] E. unfold claim_pending in E. destruct (_ && _); [|by simplify_eq].
  assert (A : forall ok1 held l1, Pending.pendingLoginHold_acquire (pending lo) (sh_pending sh) = (ok1, held, l1) ->
    Pending.count l1 = bp + pending_mine l1 held).
  { unfold Pending.pendingLoginHold_acquire, Pending.pendingLoginLimiter_acquire, Pending.pendingLoginLimiter_acquire_load,
      Pending.pendingLoginLimiter_acquire_cas, pending_mine in *. intros ok1 held l1 A.
    destruct (pending lo); [by simplify_eq|]. cbn [andb Z.b2z] in H3.
    destruct (Z.leb_spec (Pending.max (sh_pending sh)) 0); [simplify_eq|].
    { replace (Pending.max _ >? 0) with false by lia. cbn. lia. }
    destruct (_ >=? _); [simplify_eq; cbn; lia|]. rewrite Z.eqb_refl in A. simplify_eq. cbn.
    replace (Pending.max (sh_pending sh) >? 0) with true by lia. cbn. lia. }
  destruct (Pending.pendingLoginHold_acquire _ _) as [[ok1 held] l1]. specialize (A _ _ _ eq_refl).
  destruct ok1; cbn in E; simplify_eq; by constructor.
Qed.

Lemma touch_balanced bu bp sh lo id now : balanced bu bp sh lo -> balanced bu bp sh (touch lo id now).
Proof. intros H. unfold touch. destruct (_ <? _); [done|]. by eapply balanced_same; [..|exact H]. Qed.

Lemma serve_known_balanced bu bp lifetime sh lo fe id :
  balanced bu bp sh lo ->
  let o := serve_known lifetime sh lo fe id in balanced bu bp (outcome_state o).1 (outcome_state o).2.
Proof.
  intros H. cbv zeta. unfold serve_known. destruct (fe_get fe) as [| |key u]; [done| |].
  { destruct (negb (registeredUser lo =? 0)); [done|]. by destruct (negb (fe_proto_sent fe)). }
  destruct (negb (IntID key =? id)); [done|].
  assert (H1 : balanced bu bp sh (set_conn (setKey (conn lo) key) lo)) by (by eapply balanced_same; [..|exact H]).
  destruct (rpcHandle _ _ _ _ _) as [[r sh2] lo2] eqn:E2. apply (rpcHandle_balanced _ _ _ _ _ _ _ _ _ _ H1) in E2.
  destruct r; [|done..]. destruct (claim_pending _ _ _ _) as [[ok3 sh3] lo3] eqn:E3.
  apply (claim_pending_balanced _ _ _ _ _ _ _ _ _ E2) in E3. destruct ok3; cbn; [|done].
  destruct (charge_user lo3 fe u) as [cu|]; [|done].
  destruct (Unbound.unboundKeyHold_charge _ _ _ _) as [[ok4 h4] l4] eqn:E4.
  apply (charge_balanced _ _ _ _ _ _ _ _ _ E3) in E4. destruct ok4; cbn; [|done].
  destruct (bind _ _ u) as [[ok5 sh5] lo5] eqn:E5. apply (bind_balanced _ _ _ _ _ _ _ _ E4) in E5.
  destruct ok5; cbn; [by apply touch_balanced|done].
Qed.

Lemma serve_frame_balanced bu bp lifetime sh lo fe :
  balanced bu bp sh lo ->
  let o := serve_frame lifetime sh lo fe in balanced bu bp (outcome_state o).1 (outcome_state o).2.
Proof.
  intros H. cbv zeta. unfold serve_frame. destruct (fe_read fe) as [id|]; [|done].
  destruct (id =? 0); [|by apply serve_known_balanced].
  destruct (bind sh lo 0) as [[ok sh1] lo1] eqn:E. apply (bind_balanced _ _ _ _ _ _ _ _ H) in E.
  assert (H2 : balanced bu bp sh1 (log_event (EvExchange (owner (conn lo1))) lo1)) by (by eapply balanced_same; [..|exact E]).
  destruct (runExchange (fe_exchange fe)) as [id'|[|]]; [|done..]. by apply serve_known_balanced.
Qed.

Lemma books_balanced lifetime id s bu bp sh lo : serving_books lifetime id s bu bp sh lo -> balanced bu bp sh lo.
Proof.
  induction 1 as [bu bp sh H Hb Hu Hp|bu bp bu' bp' sh lo sh' _ [B1 B2 B3] [_ F1 F2 F3 F4]|bu bp sh lo ops _ B Hh
                 |bu bp sh lo fe sh' lo' _ B Hh E].
  - constructor; [done| |].
    + intros k. rewrite Hu, uncharged_mine by done. lia.
    + rewrite Hp. unfold pending_mine. cbn. lia.
  - constructor; [done| |].
    + intros k. specialize (F2 k). rewrite (B2 k) in F2. lia.
    + unfold pending_mine in *. rewrite F4. lia.
  - by eapply balanced_same; [..|exact B].
  - pose proof (serve_frame_balanced bu bp lifetime sh lo fe B) as H. by rewrite E in H.
Qed.


(** A frame under a known key that leaves the loop running leaves
    the connection owned by, and registered under, exactly the user the key store
    named for that frame, so a rebind or an unbind takes effect with the next
    frame; a key that vanished ends a registered connection. *)
Theorem serve_frame_follows_binding (lifetime id : Z) (s : option preAuthSlot) (sh : Shared)
    (lo : Local) (fe : frame_env) (k : Z) :
  serving lifetime id s sh lo -> forallb handler_op (fe_handler fe) = true ->
  fe_read fe = Some k -> k <> 0 ->
  (forall key u sh' lo', fe_get fe = LookupHit key u ->
   serve_frame lifetime sh lo fe = Continue sh' lo' ->
   registeredUser lo' = u /\ owner (conn lo') = u /\
   (u <> 0 -> occ (sh_registry sh') u (cid lo') = 1)) /\
  (fe_get fe = LookupMiss -> registeredUser lo <> 0 ->
   serve_frame lifetime sh lo fe = Exit sh lo ExitRevoked).
Proof.
  intros H Hh Hr Hk. pose proof (serving_inv _ _ _ _ _ H) as I. split.
  - intros key u sh' lo' Hg E.
    assert (Ef : serve_frame lifetime sh lo fe = serve_known lifetime sh lo fe k).
    { unfold serve_frame. rewrite Hr. by replace (k =? 0) with false by lia. }
    destruct (serve_known_inv lifetime sh lo fe k I Hh) as [I' HR].
    rewrite <- Ef, E, Hg in *. simpl in I', HR. destruct I' as [[L1 _ _ _ _] R].
    split_and!; [done|congruence|]. intros Hu. rewrite (R u). by rewrite decide_True by auto.
  - intros Hg Hu. unfold serve_frame, serve_known. rewrite Hr, Hg.
    replace (k =? 0) with false by lia. by replace (registeredUser lo =? 0) with false by lia.
Qed.

(** ** A concrete connection: it signs in, then its key is revoked *)

Definition demo_shared : Shared :=
  mkShared NewSessionRegistry (Unbound.newUnboundKeyLimiter 8) (Pending.newPendingLoginLimiter 8)
    (newPreAuthLimiter DefaultPreAuthLimits).

Definition demo_frame (g : lookup) : frame_env :=
  mkFrameEnv (Some 9) ExFailed g true (Some 3) true [] true LookupErr (100 * second).

Definition demo_hit : lookup := LookupHit (mkAuthKey 1 9) 7.

Definition demo_serving : Shared * Local :=
  outcome_state (serve_frame minute demo_shared (serve_start 5 None) (demo_frame demo_hit)).

Lemma demo_serving_ok : serving minute 5 None demo_serving.1 demo_serving.2.
Proof.
  eapply (serving_frame _ _ _ demo_shared (serve_start 5 None) (demo_frame demo_hit));
    [by apply serving_start|done|vm_compute; reflexivity].
Qed.


Lemma demo_revoked :
  serve_frame minute demo_serving.1 demo_serving.2 (demo_frame LookupMiss) =
    Exit demo_serving.1 demo_serving.2 ExitRevoked.
Proof. vm_compute. reflexivity. Qed.

(** A connection that is charged to its key and waits for a second factor when it breaks off;
    another one holds a slot of the same key. *)
Definition busy_shared : Shared :=
  mkShared NewSessionRegistry (Unbound.mkUnbound 8 {[9 := 1]}) (Pending.mkPending 8 2)
    (newPreAuthLimiter DefaultPreAuthLimits).

Definition busy_books (k : Z) : Z := if k =? 9 then 1 else 0.

Definition waiting_frame : frame_env :=
  mkFrameEnv (Some 9) ExFailed (LookupHit (mkAuthKey 1 9) 0) true (Some 3) true [OpMarkPendingLogin 5] true LookupMiss (100 * second).

Definition waiting : Shared * Local := outcome_state (serve_frame minute busy_shared (serve_start 5 None) waiting_frame).

Lemma waiting_books : serving_books minute 5 None busy_books 2 waiting.1 waiting.2.
Proof.
  eapply (books_frame _ _ _ _ _ busy_shared (serve_start 5 None) waiting_frame); [|done|vm_compute; reflexivity].
  apply books_start; [done| | |done].
  - intros k. unfold busy_books. destruct (k =? 9); lia.
  - intros k. cbn. unfold count_at, busy_books. destruct (Z.eqb_spec k 9) as [->|Hk]; [done|].
    by rewrite lookup_singleton_ne.
Qed.

Definition broken_frame : frame_env :=
  mkFrameEnv None ExFailed LookupErr true None true [] true LookupErr (101 * second).


Lemma demo_key_nonzero : 9 <> 0.
Proof. discriminate. Qed.

Lemma serve_frame_follows_binding_witness :
  serve_frame minute demo_serving.1 demo_serving.2 (demo_frame LookupMiss) =
    Exit demo_serving.1 demo_serving.2 ExitRevoked.
Proof.
  refine (proj2 (serve_frame_follows_binding minute 5 None demo_serving.1 demo_serving.2
    (demo_frame LookupMiss) 9 demo_serving_ok eq_refl eq_refl demo_key_nonzero) eq_refl _).
  vm_compute. discriminate.
Defined.

(** A handshake frame signs the connection out before the exchange
    runs, and what happens next depends on the exchange alone: the loop reads on when
    a key was negotiated and saved and also when the exchange failed with a code that
    could be reported to the client, with the connection owned by nobody and
    registered nowhere; every other outcome ends the connection. *)
Theorem handshake_frame_outcome (lifetime id : Z) (s : option preAuthSlot) (sh : Shared)
    (lo : Local) (fe : frame_env) :
  serving lifetime id s sh lo -> fe_read fe = Some 0 ->
  (forall id', fe_exchange fe <> ExUnexpected id') ->
  match serve_frame lifetime sh lo fe with
  | Continue sh' lo' =>
      (fe_exchange fe = ExKey true \/ fe_exchange fe = ExServerError true) /\
      owner (conn lo') = 0 /\ registeredUser lo' = 0 /\
      forall u, occ (sh_registry sh') u (cid lo') = 0
  | Exit _ _ r =>
      r = ExitExchange /\ fe_exchange fe <> ExKey true /\ fe_exchange fe <> ExServerError true
  end.
Proof.
  intros H Hr Hx. pose proof (serving_inv _ _ _ _ _ H) as I. unfold serve_frame. rewrite Hr.
  simpl. destruct (bind sh lo 0) as [[ok sh'] lo'] eqn:E.
  destruct (bind_inv _ _ _ _ _ _ I ltac:(done) E) as ([[L1 _ _ _ _] R] & R1 & HO & _).
  specialize (R1 (HO eq_refl)).
  destruct (fe_exchange fe) as [[]|id'|[]|]; simpl; try done; try (by destruct (Hx id'));
    (split_and!; [auto|congruence|done|]; intros u; rewrite (R u), decide_False; [done|];
     rewrite R1; by intros [-> ?]).
Qed.

Definition demo_handshake : frame_env :=
  mkFrameEnv (Some 0) (ExServerError true) LookupErr true None true [] true LookupErr
    (100 * second).

(** The signed-in connection of the example is signed out by a handshake that fails,
    and reads on. *)
Lemma handshake_frame_outcome_witness :
  match serve_frame minute demo_serving.1 demo_serving.2 demo_handshake with
  | Continue _ lo' => owner (conn lo') = 0
  | Exit _ _ _ => False
  end.
Proof.
  pose proof (handshake_frame_outcome minute 5 None demo_serving.1 demo_serving.2 demo_handshake
    demo_serving_ok eq_refl ltac:(done)) as H.
  destruct (serve_frame _ _ _ _) eqn:E; [apply H|]. destruct H as (_ & _ & H). by apply H.
Defined.
