(* ===== verification/Dispatch.v ===== *)
(** * From a decrypted frame to a handler

    [internal/mtproto/handle.go] ([handle], [dispatchRPC]) and [dispatch.go] (the
    invocation wrappers and the dispatcher).  gotd's decoders are parameters: a
    buffer is an abstract type, and decoding a wrapper or a container gives what
    it encloses, which is always shorter than the whole. *)

From S2P Require Import Prelude.
From S2P Require Import RpcTrace.
From S2P Require Import Recovery.
From S2P Require Import Budget.
From S2P Require Import Conn.

(** ** Invocation wrappers *)

Inductive wrapper : Type :=
| InvokeAfterMsg
| InvokeAfterMsgs
| InvokeWithLayer
| InitConnection
| InvokeWithoutUpdates
| InvokeWithTakeout
| InvokeWithGooglePlayIntegrity
| InvokeWithBusinessConnection
| InvokeWithReCaptcha
| InvokeWithApnsSecret
| InvokeWithMessagesRange.

#[export] Instance wrapper_eq_dec : EqDecision wrapper.
Proof. solve_decision. Defined.

Inductive InvokeAfterMsgRefusal : Type :=
| InvokeAfterMsgWaitTimeout
| InvokeAfterMsgWaitFailed.

(** ** The connection's part in dispatching *)

Definition maxSystemLangCodeHintBytes : Z := 32.

(** [A-Z], [a-z], [0-9], [-] and [_]. *)
Definition hint_char (c : Ascii.ascii) : bool :=
  let n := Z.of_nat (Ascii.nat_of_ascii c) in
  ((65 <=? n) && (n <=? 90)) || ((97 <=? n) && (n <=? 122)) || ((48 <=? n) && (n <=? 57)) ||
  (n =? 45) || (n =? 95).

Fixpoint hint_chars (s : string) : bool :=
  match s with
  | EmptyString => true
  | String c s' => hint_char c && hint_chars s'
  end.

Definition set_hint (h : string) (c : Conn) : Conn :=
  mkConn (authKey c) (authKeyID c) (sessionID c) (owner c) (recoveryBinding c) (lastPushedPts c)
    (barrier c) (pendingLogin c) (pendingLoginAt c) (recovery c) (recoveryClaim c) (outcomes c)
    (created c) h (unimplemented c) (langpack c) (transport_closed c).

Definition setSystemLangCodeHint (c : Conn) (hint : string) : Conn :=
  if slen hint >? maxSystemLangCodeHintBytes then set_hint EmptyString c
  else if hint_chars hint then set_hint hint c else set_hint EmptyString c.

Definition set_unimplemented (b : unimplementedBudget) (c : Conn) : Conn :=
  mkConn (authKey c) (authKeyID c) (sessionID c) (owner c) (recoveryBinding c) (lastPushedPts c)
    (barrier c) (pendingLogin c) (pendingLoginAt c) (recovery c) (recoveryClaim c) (outcomes c)
    (created c) (systemLangCodeHint c) b (langpack c) (transport_closed c).

Definition ChargeUnimplemented (c : Conn) (now : Z) : UnimplementedVerdict * Conn :=
  let '(v, b) := unimplementedBudget_charge (unimplemented c) now in (v, set_unimplemented b c).

Section wrappers.

(** gotd: buffers, the constructor id a buffer opens with, which ids are wrappers,
    and the decoding of a wrapper, which leaves the buffer at the query inside. *)
Context {buf : Type}.
Context (size : buf -> nat).
Context (PeekID : buf -> option Z).
Context (wrapper_of : Z -> option wrapper).

(** What the server reads of a wrapper's own fields. *)
Record fields : Type := mkFields {
  fl_MsgID : Z;
  fl_SystemLangCode : string
}.

Context (Decode : wrapper -> buf -> option (fields * buf)).

Definition isInvokeWrapper (id : Z) : bool := bool_decide (wrapper_of id <> None).

(** Decoding a wrapper whose query is a [peekIDObject]: the id inside and the
    buffer left at it. *)
Definition unwrap (w : wrapper) (b : buf) : option (fields * Z * buf) :=
  match Decode w b with
  | Some (f, b') => match PeekID b' with Some id => Some (f, id, b') | None => None end
  | None => None
  end.

Inductive walk : Type :=
| WalkLeaf (id : Z)
| WalkError
| WalkFuel.

Fixpoint enclosedInvokeMethodID (fuel : nat) (b : buf) (id : Z) : walk :=
  match wrapper_of id with
  | None => WalkLeaf id
  | Some w =>
      match fuel with
      | O => WalkFuel
      | S fuel' =>
          match unwrap w b with
          | None => WalkError
          | Some (_, id', b') => enclosedInvokeMethodID fuel' b' id'
          end
      end
  end.

Inductive unpack_outcome : Type :=
| ToNext (id : Z) (b : buf)
| Refused (innerID : Z) (reason : InvokeAfterMsgRefusal) (verdict : UnimplementedVerdict)
| UnpackError
| UnpackFuel.

(** The closure [refuse]. *)
Definition refuse (c : Conn) (now : Z) (innerID : Z) (reason : InvokeAfterMsgRefusal)
    (charge : bool) : unpack_outcome * Conn :=
  if charge then
    let '(v, c') := ChargeUnimplemented c now in (Refused innerID reason v, c')
  else (Refused innerID reason UnimplementedAnswer, c).

(** The closure [refuseUnsupported]. *)
Definition refuseUnsupported (fuel : nat) (c : Conn) (now : Z) (b : buf) (innerID : Z)
    : unpack_outcome * Conn :=
  match enclosedInvokeMethodID fuel b innerID with
  | WalkLeaf id => refuse c now id InvokeAfterMsgWaitTimeout true
  | WalkError => (UnpackError, c)
  | WalkFuel => (UnpackFuel, c)
  end.

(** The loop of [UnpackInvokeWithAfterMsg] at a buffer opening with [id]; [session]
    and [msgID] are the request's. *)
Fixpoint unpack_loop (fuel : nat) (c : Conn) (now session msgID : Z) (b : buf) (id : Z)
    : unpack_outcome * Conn :=
  match wrapper_of id with
  | None => (ToNext id b, c)
  | Some w =>
      match fuel with
      | O => (UnpackFuel, c)
      | S fuel' =>
          match unwrap w b with
          | None => (UnpackError, c)
          | Some (f, id', b') =>
              match w with
              | InvokeWithLayer | InvokeWithoutUpdates => unpack_loop fuel' c now session msgID b' id'
              | InitConnection =>
                  unpack_loop fuel' (setSystemLangCodeHint c (fl_SystemLangCode f)) now session
                    msgID b' id'
              | InvokeAfterMsg =>
                  if isInvokeWrapper id' then refuseUnsupported fuel' c now b' id'
                  else if (fl_MsgID f <=? 0) || (fl_MsgID f >=? msgID)
                  then refuse c now id' InvokeAfterMsgWaitTimeout true
                  else
                    let '(found, success) :=
                      RPCDependencyOutcome (sessionID c) (outcomes c) session (fl_MsgID f) msgID in
                    if negb found then refuse c now id' InvokeAfterMsgWaitTimeout true
                    else if negb success then refuse c now id' InvokeAfterMsgWaitFailed false
                    else unpack_loop fuel' c now session msgID b' id'
              | _ => refuseUnsupported fuel' c now b' id'
              end
          end
      end
  end.

Definition UnpackInvokeWithAfterMsg (c : Conn) (now session msgID : Z) (b : buf)
    : unpack_outcome * Conn :=
  match PeekID b with
  | None => (UnpackError, c)
  | Some id => unpack_loop (S (size b)) c now session msgID b id
  end.

(** [UnpackInvoke]: only the three plain wrappers are peeled. *)
Fixpoint unpack_plain_loop (fuel : nat) (c : Conn) (b : buf) (id : Z) : unpack_outcome * Conn :=
  match wrapper_of id with
  | Some ((InvokeWithLayer | InvokeWithoutUpdates | InitConnection) as w) =>
      match fuel with
      | O => (UnpackFuel, c)
      | S fuel' =>
          match unwrap w b with
          | None => (UnpackError, c)
          | Some (f, id', b') =>
              unpack_plain_loop fuel'
                (if decide (w = InitConnection) then setSystemLangCodeHint c (fl_SystemLangCode f)
                 else c) b' id'
          end
      end
  | _ => (ToNext id b, c)
  end.

Definition UnpackInvoke (c : Conn) (b : buf) : unpack_outcome * Conn :=
  match PeekID b with
  | None => (UnpackError, c)
  | Some id => unpack_plain_loop (S (size b)) c b id
  end.

(** ** What the peeled wrappers were *)

(** The query inside: a buffer, the dependency peeled last if one was, and the plain
    wrappers around it. *)
Inductive encloses : buf -> Z -> option Z -> buf -> Z -> Prop :=
| encloses_self b id : encloses b id None b id
| encloses_plain b id w f b1 id1 dep b2 id2 :
    wrapper_of id = Some w -> w = InvokeWithLayer \/ w = InitConnection \/ w = InvokeWithoutUpdates ->
    unwrap w b = Some (f, id1, b1) -> encloses b1 id1 dep b2 id2 -> encloses b id dep b2 id2
| encloses_after b id f b1 id1 :
    wrapper_of id = Some InvokeAfterMsg -> unwrap InvokeAfterMsg b = Some (f, id1, b1) ->
    wrapper_of id1 = None -> encloses b id (Some (fl_MsgID f)) b1 id1.

(** gotd's decoders consume at least the constructor they decode. *)
Hypothesis Decode_shrinks : forall w b f b', Decode w b = Some (f, b') -> (size b' < size b)%nat.

Lemma unwrap_shrinks w b f id b' : unwrap w b = Some (f, id, b') -> (size b' < size b)%nat.
Proof.
  unfold unwrap. intros H. destruct (Decode w b) as [[f0 b0]|] eqn:E; [|done].
  destruct (PeekID b0); simplify_eq. by eapply Decode_shrinks.
Qed.

Lemma walk_total fuel : forall b id,
  (size b < fuel)%nat ->
  enclosedInvokeMethodID fuel b id <> WalkFuel /\
  forall leaf, enclosedInvokeMethodID fuel b id = WalkLeaf leaf -> wrapper_of leaf = None.
Proof.
  induction fuel as [|fuel IH]; intros b id Hs; [lia|]. simpl.
  destruct (wrapper_of id) as [w|] eqn:W; [|split; [done|]; intros; by simplify_eq].
  destruct (unwrap w b) as [[[f id'] b']|] eqn:U; [|done]. apply IH.
  apply unwrap_shrinks in U. lia.
Qed.

(** What the loop may end with, given what it was started on. *)
Definition unpack_ok (c : Conn) (session msgID : Z) (b : buf) (id : Z) (o : unpack_outcome) : Prop :=
  match o with
  | ToNext id2 b2 =>
      wrapper_of id2 = None /\
      exists dep, encloses b id dep b2 id2 /\
        match dep with
        | Some d => 0 < d < msgID /\
            RPCDependencyOutcome (sessionID c) (outcomes c) session d msgID = (true, true)
        | None => True
        end
  | Refused leaf reason verdict =>
      wrapper_of leaf = None /\
      (reason = InvokeAfterMsgWaitFailed ->
       verdict = UnimplementedAnswer /\
       exists d b1, encloses b id (Some d) b1 leaf /\ 0 < d < msgID /\
         RPCDependencyOutcome (sessionID c) (outcomes c) session d msgID = (true, false))
  | UnpackError => True
  | UnpackFuel => False
  end.

Lemma refuse_ok c now session msgID b id leaf reason charge :
  wrapper_of leaf = None -> (reason = InvokeAfterMsgWaitFailed -> charge = false /\
    exists d b1, encloses b id (Some d) b1 leaf /\ 0 < d < msgID /\
      RPCDependencyOutcome (sessionID c) (outcomes c) session d msgID = (true, false)) ->
  unpack_ok c session msgID b id (refuse c now leaf reason charge).1.
Proof.
  intros Hl Hr. unfold refuse. destruct charge.
  - destruct (ChargeUnimplemented c now) as [v c']. split; [done|]. intros H.
    by destruct (Hr H).
  - split; [done|]. intros H. by destruct (Hr H).
Qed.

Lemma refuseUnsupported_ok fuel c now session msgID b0 id0 b id :
  (size b < fuel)%nat -> unpack_ok c session msgID b0 id0 (refuseUnsupported fuel c now b id).1.
Proof.
  intros Hs. unfold refuseUnsupported. destruct (walk_total fuel b id Hs) as [H1 H2].
  destruct (enclosedInvokeMethodID fuel b id); [|done..]. apply refuse_ok; [by apply H2|done].
Qed.

(** The hint changes nothing a dependency is looked up in. *)
Lemma hint_session c h :
  sessionID (setSystemLangCodeHint c h) = sessionID c /\
  outcomes (setSystemLangCodeHint c h) = outcomes c.
Proof. unfold setSystemLangCodeHint. by destruct (_ >? _), (hint_chars h). Qed.

Lemma unpack_ok_plain c c1 session msgID w f b id b1 id1 o :
  wrapper_of id = Some w -> w = InvokeWithLayer \/ w = InitConnection \/ w = InvokeWithoutUpdates ->
  unwrap w b = Some (f, id1, b1) -> sessionID c1 = sessionID c -> outcomes c1 = outcomes c ->
  unpack_ok c1 session msgID b1 id1 o -> unpack_ok c session msgID b id o.
Proof.
  intros Hw Hp Hu Hs Ho. unfold unpack_ok. rewrite Hs, Ho. destruct o as [id2 b2|leaf reason v| |]; try done.
  - intros (Hn & dep & He & Hd). split; [done|]. exists dep. split; [|done]. by eapply encloses_plain.
  - intros (Hn & Hf). split; [done|]. intros Hr. destruct (Hf Hr) as (Hv & d & b3 & He & Hd).
    split; [done|]. exists d, b3. split; [|done]. by eapply encloses_plain.
Qed.

Lemma unpack_loop_ok fuel : forall c now session msgID b id,
  (size b < fuel)%nat ->
  unpack_ok c session msgID b id (unpack_loop fuel c now session msgID b id).1.
Proof.
  induction fuel as [|fuel IH]; intros c now session msgID b id Hs; [lia|]. cbn [unpack_loop].
  destruct (wrapper_of id) as [w|] eqn:W.
  2:{ split; [done|]. exists None. split; [constructor|done]. }
  destruct (unwrap w b) as [[[f id1] b1]|] eqn:U; [|done].
  pose proof (unwrap_shrinks _ _ _ _ _ U) as Hsh.
  destruct w; try (apply refuseUnsupported_ok; lia).
  - unfold isInvokeWrapper. case_bool_decide as HW; [apply refuseUnsupported_ok; lia|].
    assert (wrapper_of id1 = None) as HN by (destruct (wrapper_of id1); [by destruct HW|done]).
    destruct ((fl_MsgID f <=? 0) || (fl_MsgID f >=? msgID)) eqn:G; [by apply refuse_ok|].
    destruct (RPCDependencyOutcome _ _ _ _ _) as [found success] eqn:R.
    destruct found; cbn [negb]; [|by apply refuse_ok].
    pose proof (encloses_after b id f b1 id1 W U HN) as HE.
    destruct success; cbn [negb].
    + destruct fuel as [|fuel]; [lia|]. cbn [unpack_loop]. rewrite HN. simpl. split; [done|].
      exists (Some (fl_MsgID f)). split; [done|]. split; [lia|done].
    + apply refuse_ok; [done|]. intros _. split; [done|]. exists (fl_MsgID f), b1. split; [done|]. split; [lia|done].
  - eapply unpack_ok_plain; [done|by left|done|done|done|]. apply IH. lia.
  - destruct (hint_session c (fl_SystemLangCode f)) as [H1 H2].
    eapply unpack_ok_plain; [done|by right; left|done|exact H1|exact H2|]. apply IH. lia.
  - eapply unpack_ok_plain; [done|by right; right|done|done|done|]. apply IH. lia.
Qed.

(** A query inside plain wrappers and an [invokeAfterMsg] whose message is earlier gets
    the answer its lookup gives. *)
Lemma unpack_loop_after b id dep b2 id2 :
  encloses b id dep b2 id2 -> forall d fuel c now session msgID ok,
  dep = Some d -> (size b < fuel)%nat -> 0 < d < msgID ->
  RPCDependencyOutcome (sessionID c) (outcomes c) session d msgID = (true, ok) ->
  (unpack_loop fuel c now session msgID b id).1 =
    if ok then ToNext id2 b2 else Refused id2 InvokeAfterMsgWaitFailed UnimplementedAnswer.
Proof.
  induction 1 as [b id|b id w f b1 id1 dep b2 id2 Hw Hp Hu He IH|b id f b1 id1 Hw Hu Hn];
    intros d fuel c now session msgID ok E Hs Hd Ho; [done| |];
    pose proof (unwrap_shrinks _ _ _ _ _ Hu) as Hsh; (destruct fuel as [|fuel]; [lia|]);
    cbn [unpack_loop]; rewrite Hw, Hu.
  - destruct Hp as [->|[->| ->]]; try (apply (IH d); try done; lia).
    destruct (hint_session c (fl_SystemLangCode f)) as [H1 H2]. apply (IH d); try done; [lia|].
    by rewrite H1, H2.
  - injection E as <-. unfold isInvokeWrapper. rewrite Hn, bool_decide_eq_false_2 by tauto.
    replace ((fl_MsgID f <=? 0) || (fl_MsgID f >=? msgID)) with false by lia. rewrite Ho. cbn [negb].
    destruct ok; cbn [negb]; [|done]. destruct fuel as [|fuel]; [lia|]. cbn [unpack_loop]. by rewrite Hn.
Qed.

(** C37 (safety).  Let the connection's ring of outcomes be what any history of recorded
    results and rebinds left.  Peeling a request's wrappers always ends, with a buffer at a
    query that is no wrapper, a refusal naming the leaf query, or a decoding error.  The
    query reaches the handlers only when an [invokeAfterMsg] around it, if any, names an
    earlier message whose last result in that history was a success recorded in the
    request's own session, which is still the connection's, with fewer than 64 results
    since; it is refused as failed only when that last result was a failure, and the refusal
    is not charged to the unimplemented-method budget.  Conversely a query inside plain
    wrappers and one [invokeAfterMsg] naming such a message does reach the handlers, or is
    refused as failed. *)
Theorem invokeAfterMsg_gates (c : Conn) (now session msgID : Z) (b : buf) (id s0 : Z) (evs : list ring_event) :
  PeekID b = Some id -> foldl ring_apply (s0, resetRPCOutcomesLocked) evs = (sessionID c, outcomes c) ->
  let o := (UnpackInvokeWithAfterMsg c now session msgID b).1 in
  o <> UnpackFuel /\
  (forall id2 b2, o = ToNext id2 b2 -> wrapper_of id2 = None /\
     exists dep, encloses b id dep b2 id2 /\
       forall d, dep = Some d -> 0 < d < msgID /\ recorded_as s0 evs session d true) /\
  (forall leaf reason verdict, o = Refused leaf reason verdict -> wrapper_of leaf = None /\
     (reason = InvokeAfterMsgWaitFailed -> verdict = UnimplementedAnswer /\
        exists d b1, encloses b id (Some d) b1 leaf /\ 0 < d < msgID /\ recorded_as s0 evs session d false)) /\
  (forall d b2 id2, encloses b id (Some d) b2 id2 -> 0 < d < msgID ->
     (recorded_as s0 evs session d true -> o = ToNext id2 b2) /\
     (recorded_as s0 evs session d false -> o = Refused id2 InvokeAfterMsgWaitFailed UnimplementedAnswer)).
Proof.
  intros H E o. assert (Eo : o = (unpack_loop (S (size b)) c now session msgID b id).1)
    by (unfold o, UnpackInvokeWithAfterMsg; by rewrite H).
  pose proof (unpack_loop_ok (S (size b)) c now session msgID b id ltac:(lia)) as Hok. rewrite <- Eo in Hok.
  assert (R := fun d ok Hd => RPCDependencyOutcome_recorded s0 evs _ _ session d msgID ok E Hd).
  split_and!.
  - by intros ->.
  - intros id2 b2 ->. destruct Hok as (Hn & dep & He & Hd). split; [done|]. exists dep. split; [done|].
    intros d ->. destruct Hd as [Hd Ho]. split; [done|]. by apply R in Ho.
  - intros leaf reason verdict ->. destruct Hok as (Hn & Hf). split; [done|]. intros Hr.
    destruct (Hf Hr) as (Hv & d & b1 & He & Hd & Ho). split; [done|]. exists d, b1. split_and!; try done; [lia..|]. by apply R in Ho.
  - intros d b2 id2 He Hd. split; intros Hrec; apply R in Hrec; try done; rewrite Eo.
    + by rewrite (unpack_loop_after _ _ _ _ _ He d (S (size b)) _ _ _ _ true eq_refl ltac:(lia) Hd Hrec).
    + by rewrite (unpack_loop_after _ _ _ _ _ He d (S (size b)) _ _ _ _ false eq_refl ltac:(lia) Hd Hrec).
Qed.
End wrappers.

(** A buffer as the list of constructors it nests, with the message id an
    [invokeAfterMsg] names: constructor 1 is [invokeAfterMsg], 2 [invokeWithLayer]. *)
Definition demo_peek (b : list (Z * Z)) : option Z := match b with [] => None | x :: _ => Some x.1 end.
Definition demo_wrapper (id : Z) : option wrapper :=
  if id =? 1 then Some InvokeAfterMsg else if id =? 2 then Some InvokeWithLayer else None.
Definition demo_decode (w : wrapper) (b : list (Z * Z)) : option (fields * list (Z * Z)) :=
  match b with [] => None | x :: b' => Some (mkFields x.2 EmptyString, b') end.

Lemma demo_decode_shrinks w b f b' : demo_decode w b = Some (f, b') -> (length b' < length b)%nat.
Proof. destruct b; simpl; intros; simplify_eq. lia. Qed.

(** Message 40 succeeded; message 50 asks to run after it and reaches the handler. *)
Definition demo_history : list ring_event := [EvRebind 9; EvRecord 30 9 false; EvRecord 40 9 true; EvRecord 41 9 false].

Definition demo_dep_conn : Conn :=
  set_outcomes (foldl ring_apply (0, resetRPCOutcomesLocked) demo_history).2 (setSession newConn 9).

Lemma demo_recorded : recorded_as 0 demo_history 9 40 true.
Proof.
  exists [EvRebind 9; EvRecord 30 9 false], [EvRecord 41 9 false]. split_and!; [done|done| | |vm_compute; lia].
  - intros s Hin. by apply list_elem_of_singleton in Hin.
  - intros ok Hin. by apply list_elem_of_singleton in Hin.
Qed.

Lemma invokeAfterMsg_gates_witness :
  (UnpackInvokeWithAfterMsg length demo_peek demo_wrapper demo_decode demo_dep_conn 1 9 50
     [(2, 0); (1, 40); (7, 0)]).1 = ToNext 7 [(7, 0)].
Proof.
  refine (proj1 (proj2 (proj2 (proj2 (invokeAfterMsg_gates length demo_peek demo_wrapper demo_decode demo_decode_shrinks
    demo_dep_conn 1 9 50 [(2, 0); (1, 40); (7, 0)] 2 0 demo_history eq_refl _))) 40 _ _ _ _) demo_recorded).
  - vm_compute. reflexivity.
  - eapply (encloses_plain demo_peek demo_wrapper demo_decode _ _ InvokeWithLayer); [reflexivity|by left|reflexivity|].
    by apply (encloses_after demo_peek demo_wrapper demo_decode [(1, 40); (7, 0)] 1 (mkFields 40 EmptyString)).
  - lia.
Defined.

(** ** One plaintext message *)

Section handle.

(** gotd: what a plaintext message is, [None] when its id cannot be read or it does
    not decode.  [St] is everything the actions below act on. *)
Context {buf : Type}.
Context (size : buf -> nat).

Inductive content : Type :=
| CPing (pingID : Z)
| CFutureSalts
| CMsgsAck
| CGzip (data : buf)
| CContainer (messages : list (Z * buf))
| CRpc.

Context (classify : buf -> option content).

Inductive action : Type :=
| Pong (msgID pingID : Z)
| EternalSalt (msgID : Z)
| DispatchRPC (msgID : Z) (b : buf).

Context {St : Type}.
(** Performing an action: whether it went without an error, and the state after. *)
Context (perform : action -> St -> bool * St).

Inductive handled : Type :=
| HandleOk
| HandleErr
| HandleFuel.

Definition act (a : action) (st : St) : handled * St :=
  let '(ok, st') := perform a st in (if ok then HandleOk else HandleErr, st').

(** The entries of a container, in order, until one fails. *)
Fixpoint handle_entries (h : Z -> buf -> St -> handled * St) (ms : list (Z * buf)) (st : St)
    : handled * St :=
  match ms with
  | [] => (HandleOk, st)
  | (id, b) :: ms' =>
      match h id b st with
      | (HandleOk, st') => handle_entries h ms' st'
      | r => r
      end
  end.

Fixpoint handle (fuel : nat) (msgID : Z) (b : buf) (st : St) : handled * St :=
  match fuel with
  | O => (HandleFuel, st)
  | S fuel' =>
      match classify b with
      | None => (HandleErr, st)
      | Some (CPing pingID) => act (Pong msgID pingID) st
      | Some CFutureSalts => act (EternalSalt msgID) st
      | Some CMsgsAck => (HandleOk, st)
      | Some (CGzip data) => act (DispatchRPC msgID data) st
      | Some (CContainer messages) => handle_entries (handle fuel') messages st
      | Some CRpc => act (DispatchRPC msgID b) st
      end
  end.

(** The flat sequence a message stands for: the actions of its leaves in order,
    [None] where a leaf does not decode. *)
Fixpoint flatten (fuel : nat) (msgID : Z) (b : buf) : list (option action) :=
  match fuel with
  | O => []
  | S fuel' =>
      match classify b with
      | None => [None]
      | Some (CPing pingID) => [Some (Pong msgID pingID)]
      | Some CFutureSalts => [Some (EternalSalt msgID)]
      | Some CMsgsAck => []
      | Some (CGzip data) => [Some (DispatchRPC msgID data)]
      | Some (CContainer messages) => concat (map (fun m => flatten fuel' m.1 m.2) messages)
      | Some CRpc => [Some (DispatchRPC msgID b)]
      end
  end.

Fixpoint run_until (l : list (option action)) (st : St) : handled * St :=
  match l with
  | [] => (HandleOk, st)
  | None :: _ => (HandleErr, st)
  | Some a :: l' =>
      match act a st with
      | (HandleOk, st') => run_until l' st'
      | r => r
      end
  end.

(** A container's entries are parts of it. *)
Hypothesis container_shrinks : forall b ms,
  classify b = Some (CContainer ms) -> Forall (fun m => (size m.2 < size b)%nat) ms.

Lemma run_until_app l1 l2 st :
  run_until (l1 ++ l2) st =
    match run_until l1 st with
    | (HandleOk, st') => run_until l2 st'
    | r => r
    end.
Proof.
  revert st. induction l1 as [|[a|] l1 IH]; intros st; simpl; [done| |done].
  destruct (act a st) as [[] st']; [apply IH|done|done].
Qed.

Lemma run_until_one a st : run_until [Some a] st = act a st.
Proof. simpl. by destruct (act a st) as [[] st']. Qed.

Lemma handle_flatten fuel : forall msgID b st,
  (size b < fuel)%nat -> handle fuel msgID b st = run_until (flatten fuel msgID b) st.
Proof.
  induction fuel as [|fuel IH]; intros msgID b st Hs; [lia|]. cbn [handle flatten].
  destruct (classify b) as [[p| | |d|ms|]|] eqn:C; rewrite ?run_until_one; try done.
  apply container_shrinks in C. revert st. induction C as [|[i m] ms Hm _ IHms]; intros st; [done|].
  simpl in Hm. cbn [map concat handle_entries fst snd]. rewrite run_until_app, IH by lia.
  destruct (run_until (flatten fuel i m) st) as [[] st']; [apply IHms|done|done].
Qed.

Lemma run_until_fuel l st : (run_until l st).1 <> HandleFuel.
Proof.
  revert st. induction l as [|[a|] l IH]; intros st; simpl; [done| |done].
  unfold act. destruct (perform a st) as [[] st']; simpl; [apply IH|done].
Qed.

(** However containers nest, handling a message is the flat
    sequence of its leaves in order, each once, stopping at the first that does
    not decode or fails; and it always ends. *)
Theorem handle_in_order (msgID : Z) (b : buf) (st : St) :
  handle (S (size b)) msgID b st = run_until (flatten (S (size b)) msgID b) st /\
  (handle (S (size b)) msgID b st).1 <> HandleFuel.
Proof.
  assert (E := handle_flatten (S (size b)) msgID b st ltac:(lia)).
  split; [exact E|]. rewrite E. apply run_until_fuel.
Qed.
End handle.

(** A container of a ping, a nested container of two requests and a third request,
    as a tree; the second request fails, so the third never runs. *)
Inductive demo_msg : Type :=
| DPing (p : Z)
| DRpc (n : Z)
| DBox (ms : list (Z * demo_msg)).

Fixpoint demo_size (b : demo_msg) : nat :=
  match b with
  | DBox ms => S (list_sum (map (fun m => S (demo_size m.2)) ms))
  | _ => 1
  end.

Definition demo_classify (b : demo_msg) : option (content (buf := demo_msg)) :=
  match b with
  | DPing p => Some (CPing p)
  | DRpc _ => Some CRpc
  | DBox ms => Some (CContainer ms)
  end.

Definition demo_perform (a : action (buf := demo_msg)) (st : list Z) : bool * list Z :=
  match a with
  | DispatchRPC id (DRpc n) => (negb (n =? 2), st ++ [id])
  | _ => (true, st)
  end.

Lemma demo_box_shrinks b ms :
  demo_classify b = Some (CContainer ms) -> Forall (fun m => (demo_size m.2 < demo_size b)%nat) ms.
Proof.
  destruct b as [|n|l]; simpl; intros; simplify_eq.
  assert (H : forall k, (list_sum (map (fun m => S (demo_size m.2)) ms) <= k)%nat ->
    Forall (fun m => (demo_size m.2 < S k)%nat) ms).
  { induction ms as [|m ms IH]; intros k Hk; [constructor|]. simpl in Hk. constructor; [lia|].
    apply IH. lia. }
  by apply H.
Qed.

Lemma handle_in_order_witness :
  let m := DBox [(10, DPing 5); (20, DBox [(21, DRpc 1); (22, DRpc 2)]); (30, DRpc 3)] in
  handle demo_classify demo_perform (S (demo_size m)) 9 m [] = (HandleErr, [21; 22]) /\
  handle demo_classify demo_perform (S (demo_size m)) 9 m [] =
    run_until demo_perform (flatten demo_classify (S (demo_size m)) 9 m) [].
Proof.
  split; [vm_compute; reflexivity|].
  exact (proj1 (handle_in_order demo_size demo_classify demo_perform demo_box_shrinks 9
    (DBox [(10, DPing 5); (20, DBox [(21, DRpc 1); (22, DRpc 2)]); (30, DRpc 3)]) [])).
Defined.

(** ** Answering a failed handler *)

(** What [dispatchRPC] sees of a handler's error. *)
Inductive handler_error : Type :=
| HandlerTg (code : Z) (type : string)
| HandlerOther.

Inductive dispatch_result : Type :=
| DispatchNil
| DispatchReply (r : reply)
| DispatchFatal.

(** [deadline]: the request's context ended at its deadline; [w] and [msg] are the
    write of the error reply. *)
Definition dispatchRPC (c : Conn) (w : io) (req : Request) (err : option handler_error)
    (deadline : bool) (msg : option (list Z)) : dispatch_result * Conn :=
  match err with
  | None => (DispatchNil, c)
  | Some (HandlerTg code type) =>
      let '(r, c') := SendErr c w req code type msg in (DispatchReply r, c')
  | Some HandlerOther =>
      if deadline then let '(r, c') := SendErr c w req 500 "INTERNAL" msg in (DispatchReply r, c')
      else (DispatchFatal, c)
  end.

(** ** The dispatcher *)

(** [H] is the type of handlers. *)
Record Dispatcher (H : Type) : Type := mkDispatcher {
  reqs : gmap Z H;
  methods : gmap Z string;
  fallback : option H
}.
Arguments mkDispatcher {H} reqs methods fallback.
Arguments reqs {H} d.
Arguments methods {H} d.
Arguments fallback {H} d.

Definition NewDispatcher {H : Type} : Dispatcher H := mkDispatcher ∅ ∅ None.

Definition HandleNamed {H} (vocab : gset string) (d : Dispatcher H) (id : Z) (name : string) (h : H)
    : Dispatcher H :=
  let canonical := sanitizeRPCMethod vocab name in
  mkDispatcher (<[id := h]> (reqs d))
    (if negb (bool_decide (canonical = UnknownRPCMethod)) then <[id := canonical]> (methods d)
     else delete id (methods d)) (fallback d).

(** [Fallback] *)
Definition set_fallback {H} (d : Dispatcher H) (h : H) : Dispatcher H :=
  mkDispatcher (reqs d) (methods d) (Some h).

(** The method recorded for the trace and the handler the request goes to, [None]
    for an unexpected constructor. *)
Definition Dispatcher_OnMessage {H} (d : Dispatcher H) (id : Z) : string * option H :=
  (match methods d !! id with Some n => n | None => UnknownRPCMethod end,
   match reqs d !! id with Some h => Some h | None => fallback d end).
