(* ===== verification/FolderSync.v ===== *)
(** * Folder invalidations across a replica

    [internal/api/dialog_filter_sync.go] and the sweeper of [internal/api/notify.go]:
    the invalidation clock, replaced by compare-and-swap, the recovery queue behind its
    own lock, and the operations that move a connection's recovery snapshot (file
    [Recovery]) along with them.  Each operation is a program of atomic accesses, so
    that goroutines interleave between any two of them. *)

From S2P Require Import Prelude.
From S2P Require Import Recovery.
From S2P Require Import Registry.

(** ** The recovery queue *)

(** The slice with its consumed prefix set to nil, the index of the first entry
    still queued, and the set of queued connections. *)
Record recovery_queue : Type := mkQueue {
  recoveryQueue : list (option Z);
  recoveryQueueHead : nat;
  recoveryQueued : gset Z
}.

Definition new_queue : recovery_queue := mkQueue [] 0 ∅.

Definition enqueueRecovery (q : recovery_queue) (conn : Z) : recovery_queue :=
  if bool_decide (conn ∈ recoveryQueued q) then q
  else mkQueue (recoveryQueue q ++ [Some conn]) (recoveryQueueHead q) ({[conn]} ∪ recoveryQueued q).

Definition enqueueRecoveryBatch (q : recovery_queue) (conns : list Z) : recovery_queue :=
  foldl enqueueRecovery q conns.

(** [count] iterations of the loop of [takeRecoveryCandidates]. *)
Fixpoint take_loop (count : nat) (q : recovery_queue) (out : list Z) : list Z * recovery_queue :=
  match count with
  | O => (out, q)
  | S count' =>
      let h := recoveryQueueHead q in
      let conn := default None (recoveryQueue q !! h) in
      let q' := mkQueue (<[h := None]> (recoveryQueue q)) (S h)
                  (match conn with
                   | Some c => recoveryQueued q ∖ {[c]}
                   | None => recoveryQueued q
                   end) in
      take_loop count' q' (match conn with Some c => out ++ [c] | None => out end)
  end.

(** Dropping the consumed prefix once it is long and at least half the slice. *)
Definition compact (q : recovery_queue) : recovery_queue :=
  if (recoveryQueueHead q =? length (recoveryQueue q))%nat then mkQueue [] 0 (recoveryQueued q)
  else if (256 <=? recoveryQueueHead q)%nat &&
          (length (recoveryQueue q) <=? recoveryQueueHead q * 2)%nat
  then mkQueue (drop (recoveryQueueHead q) (recoveryQueue q)) 0 (recoveryQueued q)
  else q.

Definition takeRecoveryCandidates (q : recovery_queue) (limit : Z) : list Z * recovery_queue :=
  if limit <=? 0 then ([], q)
  else
    let count := Nat.min (Z.to_nat limit) (length (recoveryQueue q) - recoveryQueueHead q) in
    if (count =? 0)%nat then ([], q)
    else let '(out, q') := take_loop count q [] in (out, compact q').

(** ** What the queue promises: a first-in first-out list without duplicates *)

Record queue_repr (q : recovery_queue) (l : list Z) : Prop := mkQueueRepr {
  qr_entries : drop (recoveryQueueHead q) (recoveryQueue q) = Some <$> l;
  qr_head : (recoveryQueueHead q <= length (recoveryQueue q))%nat;
  qr_nodup : NoDup l;
  qr_set : forall c, c ∈ recoveryQueued q <-> c ∈ l
}.

(** The consumed prefix is short, or less than half of the slice. *)
Definition queue_small (q : recovery_queue) : Prop :=
  (recoveryQueueHead q < 256)%nat \/ (recoveryQueueHead q * 2 < length (recoveryQueue q))%nat.

Lemma new_queue_repr : queue_repr new_queue [].
Proof. constructor; simpl; [done|lia|constructor|set_solver]. Qed.

Lemma enqueue_repr q l c :
  queue_repr q l -> queue_repr (enqueueRecovery q c) (if decide (c ∈ l) then l else l ++ [c]).
Proof.
  intros [H1 H2 H3 H4]. unfold enqueueRecovery. case_bool_decide as D.
  - rewrite decide_True by (by apply H4). by constructor.
  - rewrite decide_False by (by rewrite <- H4). constructor; simpl.
    + rewrite drop_app_le by done. by rewrite H1, fmap_app.
    + rewrite length_app. simpl. lia.
    + apply NoDup_app. split; [done|]. split; [|apply NoDup_singleton].
      intros x Hx Hc. apply list_elem_of_singleton in Hc as ->. by apply D, H4.
    + intros x. rewrite elem_of_union, elem_of_singleton, elem_of_app, list_elem_of_singleton, H4.
      tauto.
Qed.

Lemma enqueue_small q c : queue_small q -> queue_small (enqueueRecovery q c).
Proof.
  unfold queue_small, enqueueRecovery. case_bool_decide; [done|]. simpl. rewrite length_app. simpl.
  lia.
Qed.

Lemma take_loop_repr count : forall q l out,
  queue_repr q l -> (count <= length l)%nat ->
  (take_loop count q out).1 = out ++ take count l /\
  queue_repr (take_loop count q out).2 (drop count l).
Proof.
  induction count as [|count IH]; intros q l out R Hc.
  { simpl. rewrite drop_0, app_nil_r. done. }
  destruct l as [|c l]; [simpl in Hc; lia|]. destruct R as [H1 H2 H3 H4].
  assert (Hl : recoveryQueue q !! recoveryQueueHead q = Some (Some c)).
  { rewrite <- (Nat.add_0_r (recoveryQueueHead q)), <- lookup_drop, H1. done. }
  simpl. rewrite Hl. simpl. inversion_clear H3 as [|? ? Hn Hd].
  destruct (IH (mkQueue (<[recoveryQueueHead q := None]> (recoveryQueue q))
    (S (recoveryQueueHead q)) (recoveryQueued q ∖ {[c]})) l (out ++ [c])) as [E1 E2].
  - constructor; simpl.
    + rewrite drop_insert_lt by lia. rewrite <- (Nat.add_1_r (recoveryQueueHead q)), <- drop_drop, H1.
      done.
    + rewrite length_insert. apply lookup_lt_Some in Hl. lia.
    + done.
    + intros x. rewrite elem_of_difference, elem_of_singleton, H4, elem_of_cons. naive_solver.
  - simpl in Hc. lia.
  - rewrite E1, <- app_assoc. done.
Qed.

Lemma compact_repr q l : queue_repr q l -> queue_repr (compact q) l /\ queue_small (compact q).
Proof.
  intros [H1 H2 H3 H4]. unfold compact, queue_small.
  destruct (recoveryQueueHead q =? length (recoveryQueue q))%nat eqn:E.
  - apply Nat.eqb_eq in E. rewrite drop_ge in H1 by lia. symmetry in H1.
    apply fmap_nil_inv in H1 as ->. split; [|simpl; lia]. by constructor.
  - destruct (_ && _) eqn:G.
    + split; [|simpl; lia]. constructor; simpl; try done; lia.
    + split; [by constructor|]. apply andb_false_iff in G as [G|G]; apply Nat.leb_gt in G; lia.
Qed.

Lemma takeRecoveryCandidates_repr q l limit :
  queue_repr q l -> queue_small q ->
  (takeRecoveryCandidates q limit).1 = take (Z.to_nat limit) l /\
  queue_repr (takeRecoveryCandidates q limit).2 (drop (Z.to_nat limit) l) /\
  queue_small (takeRecoveryCandidates q limit).2.
Proof.
  intros R Hs. unfold takeRecoveryCandidates. destruct (limit <=? 0) eqn:E.
  { replace (Z.to_nat limit) with 0%nat by lia. by rewrite drop_0. }
  assert (HL : (length (recoveryQueue q) - recoveryQueueHead q)%nat = length l).
  { destruct R as [H1 _ _ _]. apply (f_equal length) in H1. by rewrite length_drop, length_fmap in H1. }
  rewrite HL. destruct (_ =? 0)%nat eqn:C.
  - apply Nat.eqb_eq in C. assert (length l = 0)%nat as H0 by lia.
    apply nil_length_inv in H0 as ->. rewrite take_nil, drop_nil. done.
  - destruct (take_loop_repr (Nat.min (Z.to_nat limit) (length l)) q l [] R ltac:(lia)) as [E1 E2].
    destruct (take_loop _ q []) as [out q']. simpl in *. subst out.
    destruct (compact_repr q' _ E2) as [C1 C2].
    destruct (decide (Z.to_nat limit <= length l)%nat).
    + replace (Nat.min (Z.to_nat limit) (length l)) with (Z.to_nat limit) in * by lia. done.
    + replace (Nat.min (Z.to_nat limit) (length l)) with (length l) in * by lia.
      rewrite (take_ge _ (Z.to_nat limit)), (drop_ge _ (Z.to_nat limit)) by lia.
      rewrite take_ge, drop_ge in * by lia. done.
Qed.

(** A run of the queue: connections pushed one at a time or in a batch, and turns of
    the sweeper; the second list is what the turns handed out, in order. *)
Inductive queue_op : Type :=
| QEnqueue (conn : Z)
| QBatch (conns : list Z)
| QTake (limit : Z).

Definition queue_step (s : recovery_queue * list (list Z)) (op : queue_op)
    : recovery_queue * list (list Z) :=
  match op with
  | QEnqueue c => (enqueueRecovery s.1 c, s.2)
  | QBatch cs => (enqueueRecoveryBatch s.1 cs, s.2)
  | QTake limit =>
      let '(out, q) := takeRecoveryCandidates s.1 limit in (q, s.2 ++ [out])
  end.

(** The specification: a list that a push extends unless the connection is already
    in it, and that a turn takes a prefix of. *)
Definition push_once (l : list Z) (c : Z) : list Z := if decide (c ∈ l) then l else l ++ [c].

Definition spec_step (s : list Z * list (list Z)) (op : queue_op) : list Z * list (list Z) :=
  match op with
  | QEnqueue c => (push_once s.1 c, s.2)
  | QBatch cs => (foldl push_once s.1 cs, s.2)
  | QTake limit => (drop (Z.to_nat limit) s.1, s.2 ++ [take (Z.to_nat limit) s.1])
  end.

Lemma enqueueBatch_repr cs : forall q l,
  queue_repr q l -> queue_small q ->
  queue_repr (enqueueRecoveryBatch q cs) (foldl push_once l cs) /\
  queue_small (enqueueRecoveryBatch q cs).
Proof.
  induction cs as [|c cs IH]; intros q l R Hs; [done|].
  apply IH; [by apply enqueue_repr|by apply enqueue_small].
Qed.

Lemma queue_step_repr s sp op :
  queue_repr s.1 sp.1 -> queue_small s.1 -> s.2 = sp.2 ->
  queue_repr (queue_step s op).1 (spec_step sp op).1 /\
  queue_small (queue_step s op).1 /\ (queue_step s op).2 = (spec_step sp op).2.
Proof.
  intros R Hs E. destruct op as [c|cs|limit]; simpl.
  - split_and!; [by apply enqueue_repr|by apply enqueue_small|done].
  - destruct (enqueueBatch_repr cs _ _ R Hs). done.
  - destruct (takeRecoveryCandidates_repr _ _ limit R Hs) as (E1 & E2 & E3).
    destruct (takeRecoveryCandidates s.1 limit). simpl in *. by rewrite E1, E.
Qed.

(** The recovery queue, a slice with a consumed prefix and a set of
    queued connections, is a first-in first-out list without duplicates: after any
    run of pushes, batches and sweeper turns it has handed out exactly what the list
    specification hands out and holds exactly the connections the specification
    holds, and its consumed prefix never reaches both 256 entries and half of the
    slice. *)
Theorem recovery_queue_refines (ops : list queue_op) :
  let s := foldl queue_step (new_queue, []) ops in
  let sp := foldl spec_step ([], []) ops in
  s.2 = sp.2 /\ queue_repr s.1 sp.1 /\ queue_small s.1.
Proof.
  assert (H : forall s sp, queue_repr s.1 sp.1 -> queue_small s.1 -> s.2 = sp.2 ->
    (foldl queue_step s ops).2 = (foldl spec_step sp ops).2 /\
    queue_repr (foldl queue_step s ops).1 (foldl spec_step sp ops).1 /\
    queue_small (foldl queue_step s ops).1).
  { induction ops as [|op ops IH]; intros s sp R Hs E; [done|].
    destruct (queue_step_repr s sp op R Hs E) as (R' & Hs' & E'). simpl. by apply IH. }
  simpl. apply H; [apply new_queue_repr|left; simpl; lia|done].
Qed.

(** ** The invalidation clock and the operations around it *)

Record dialogFilterClock : Type := mkClock { sequence : Z; globalEpoch : Z }.

#[global] Instance dialogFilterClock_eq_dec : EqDecision dialogFilterClock.
Proof. solve_decision. Defined.

Record DialogFilterCapture : Type := mkCapture {
  cp_owner : Z;
  cp_session : Z;
  cp_generation : Z;
  cp_firstDifference : bool;
  cp_pending : bool
}.

#[global] Instance DialogFilterCapture_eq_dec : EqDecision DialogFilterCapture.
Proof. solve_decision. Defined.

Definition no_capture : DialogFilterCapture := mkCapture 0 0 0 false false.

(** What the operations read of a [Request]; [q_expired] is [requestExpired]. *)
Record sync_request : Type := mkSyncReq {
  q_UserID : Z;
  q_SessionID : Z;
  q_Provisional : bool;
  q_expired : bool
}.

(** A connection as this file sees it: the recovery snapshot, the binding kept beside
    it, and the counter claims are numbered from. *)
Record sync_conn : Type := mkSyncConn {
  sc_recovery : dialogFilterRecovery;
  sc_binding : Z * Z;
  sc_claims : Z
}.

(** The replica: the clock, the connections' atomics and the queue. *)
Record DialogFilterSync : Type := mkSync {
  clock : dialogFilterClock;
  conns : gmap Z sync_conn;
  queue : recovery_queue
}.

Definition NewDialogFilterSync : DialogFilterSync := mkSync (mkClock 0 0) ∅ new_queue.

(** A connection not yet touched is as [newConn] leaves it. *)
Definition conn_at (w : DialogFilterSync) (c : Z) : sync_conn :=
  default (mkSyncConn (resetDialogFilterRecovery 0 0) (0, 0) 0) (conns w !! c).

Definition rec_at (w : DialogFilterSync) (c : Z) : dialogFilterRecovery := sc_recovery (conn_at w c).

Definition set_conn (w : DialogFilterSync) (c : Z) (x : sync_conn) : DialogFilterSync :=
  mkSync (clock w) (<[c := x]> (conns w)) (queue w).

Definition set_clock (w : DialogFilterSync) (k : dialogFilterClock) : DialogFilterSync :=
  mkSync k (conns w) (queue w).

Definition set_queue (w : DialogFilterSync) (q : recovery_queue) : DialogFilterSync :=
  mkSync (clock w) (conns w) q.

Definition store_rec (w : DialogFilterSync) (c : Z) (r : dialogFilterRecovery) : DialogFilterSync :=
  set_conn w c (mkSyncConn r (sc_binding (conn_at w c)) (sc_claims (conn_at w c))).

(** The replacements [next] and [ListenerReconnected] swap in. *)
Definition next_clock (k : dialogFilterClock) : dialogFilterClock :=
  mkClock (wrap_u64 (sequence k + 1)) (globalEpoch k).

Definition reconnected_clock (k : dialogFilterClock) : dialogFilterClock :=
  mkClock (wrap_u64 (sequence k + 1)) (wrap_u64 (sequence k + 1)).

(** ** Atomic accesses

    The clock is loaded or swapped (a loop around a compare-and-swap is the swap that
    succeeds), a connection's snapshot, binding and claim counter are read or replaced
    by the methods of [Conn], each a compare-and-swap on its own, and the queue is used
    under its lock. *)
Inductive access : Type :=
| LoadClock
| SwapNext
| SwapReconnected
| EnsureRec (c owner session coverage : Z)
| SnapRec (c owner session epoch : Z)
| FetchRec (c owner session captured epoch : Z)
| DifferenceRec (c owner session : Z) (consumeFirst : bool)
| MarkRec (c owner session generation epoch : Z)
| PendingRec (c owner session epoch : Z)
| ClaimRec (c owner session epoch now : Z)
| FinishRec (c owner session claimID : Z)
| BindingOf (c : Z)
| StoreBinding (c owner session : Z)
| ResetRec (c owner session : Z)
| EnqueueConn (c : Z)
| TakeConns (limit : Z).

(** What the goroutine gets back. *)
Definition answer (x : access) : Type :=
  match x with
  | LoadClock | SwapNext => dialogFilterClock
  | SnapRec _ _ _ _ => option (Z * Z * bool * bool)
  | FetchRec _ _ _ _ _ | DifferenceRec _ _ _ _ | MarkRec _ _ _ _ _ | PendingRec _ _ _ _ => bool
  | ClaimRec _ _ _ _ _ => option Z
  | BindingOf _ => (Z * Z)%type
  | TakeConns _ => list Z
  | _ => unit
  end.

(** A compare-and-swap on the snapshot that may decline. *)
Definition try_store (w : DialogFilterSync) (c : Z) (r : option dialogFilterRecovery)
    : bool * DialogFilterSync :=
  match r with Some r => (true, store_rec w c r) | None => (false, w) end.

Definition exec (w : DialogFilterSync) (x : access) : answer x * DialogFilterSync :=
  match x with
  | LoadClock => (clock w, w)
  | SwapNext => (next_clock (clock w), set_clock w (next_clock (clock w)))
  | SwapReconnected => (tt, set_clock w (reconnected_clock (clock w)))
  | EnsureRec c o ss cov => (tt, store_rec w c (EnsureDialogFilterRecoveryBinding (rec_at w c) o ss cov))
  | SnapRec c o ss ep => (DialogFilterRecoverySnapshot (rec_at w c) o ss ep, w)
  | FetchRec c o ss cap ep => try_store w c (AcknowledgeDialogFilterFetch (rec_at w c) o ss cap ep)
  | DifferenceRec c o ss b => try_store w c (AcknowledgeDialogFilterDifference (rec_at w c) o ss b)
  | MarkRec c o ss g ep => try_store w c (MarkDialogFilterRecovery (rec_at w c) o ss g ep)
  | PendingRec c o ss ep => (DialogFilterRecoveryAttemptPending (rec_at w c) o ss ep, w)
  | ClaimRec c o ss ep now =>
      match ClaimDialogFilterRecoveryAttempt (rec_at w c) (sc_claims (conn_at w c)) o ss ep now with
      | Some (claimID, r) => (Some claimID, set_conn w c (mkSyncConn r (sc_binding (conn_at w c)) claimID))
      | None => (None, w)
      end
  | FinishRec c o ss claimID =>
      (tt, store_rec w c (FinishDialogFilterRecoveryAttempt (rec_at w c) o ss claimID))
  | BindingOf c => (sc_binding (conn_at w c), w)
  | StoreBinding c o ss =>
      (tt, set_conn w c (mkSyncConn (rec_at w c) (o, ss) (sc_claims (conn_at w c))))
  | ResetRec c o ss => (tt, store_rec w c (resetDialogFilterRecovery o ss))
  | EnqueueConn c => (tt, set_queue w (enqueueRecovery (queue w) c))
  | TakeConns limit =>
      ((takeRecoveryCandidates (queue w) limit).1, set_queue w (takeRecoveryCandidates (queue w) limit).2)
  end.

(** ** Programs of accesses *)

Inductive sync_prog (A : Type) : Type :=
| SRet (a : A)
| SDo (x : access) (k : answer x -> sync_prog A).
Arguments SRet {A} _.
Arguments SDo {A} _ _.

Fixpoint sync_bind {A B : Type} (f : A -> sync_prog B) (p : sync_prog A) : sync_prog B :=
  match p with
  | SRet a => f a
  | SDo x k => SDo x (fun b => sync_bind f (k b))
  end.

#[global] Instance sync_prog_ret : MRet sync_prog := fun A a => SRet a.
#[global] Instance sync_prog_mbind : MBind sync_prog := @sync_bind.

Definition sync_do (x : access) : sync_prog (answer x) := SDo x (fun b => SRet b).

Fixpoint for_each (l : list Z) (body : Z -> sync_prog unit) : sync_prog unit :=
  match l with
  | [] => SRet tt
  | c :: l' => sync_bind (fun _ => for_each l' body) (body c)
  end.

(** ** The operations *)

Definition next : sync_prog (Z * Z) :=
  k ← sync_do SwapNext; SRet (sequence k, globalEpoch k).

Definition ListenerReconnected : sync_prog unit := sync_do SwapReconnected.

Definition Snapshot : sync_prog (Z * Z) :=
  k ← sync_do LoadClock; SRet (sequence k, globalEpoch k).

Definition EnsureBinding (conn : option Z) (req : option sync_request) : sync_prog unit :=
  match conn, req with
  | Some c, Some q =>
      if (q_UserID q =? 0) || q_Provisional q then SRet tt
      else k ← sync_do LoadClock; sync_do (EnsureRec c (q_UserID q) (q_SessionID q) (sequence k))
  | _, _ => SRet tt
  end.

Definition Capture (conn : option Z) (req : option sync_request) : sync_prog DialogFilterCapture :=
  match conn, req with
  | Some c, Some q =>
      if (q_UserID q =? 0) || q_Provisional q then SRet no_capture
      else
        k ← sync_do LoadClock;
        _ ← sync_do (EnsureRec c (q_UserID q) (q_SessionID q) (sequence k));
        snap ← sync_do (SnapRec c (q_UserID q) (q_SessionID q) (globalEpoch k));
        SRet (match (snap : option (Z * Z * bool * bool)) with
              | None => no_capture
              | Some (_, _, first, pending) =>
                  mkCapture (q_UserID q) (q_SessionID q) (Z.max (sequence k) (globalEpoch k)) first pending
              end)
  | _, _ => SRet no_capture
  end.

(** The requeue after an acknowledgement that was installed. *)
Definition requeue (c : Z) (q : sync_request) : sync_prog unit :=
  snap ← Snapshot;
  pending ← sync_do (PendingRec c (q_UserID q) (q_SessionID q) snap.2);
  if (pending : bool) then sync_do (EnqueueConn c) else SRet tt.

Definition stale_request (q : sync_request) (captured : DialogFilterCapture) : bool :=
  q_expired q || negb (cp_owner captured =? q_UserID q) ||
  negb (cp_session captured =? q_SessionID q).

Definition AcknowledgeFetch (conn : option Z) (req : option sync_request)
    (captured : DialogFilterCapture) : sync_prog unit :=
  match conn, req with
  | Some c, Some q =>
      if stale_request q captured then SRet tt
      else
        k ← sync_do LoadClock;
        installed ← sync_do (FetchRec c (q_UserID q) (q_SessionID q) (cp_generation captured) (globalEpoch k));
        if (installed : bool) then requeue c q else SRet tt
  | _, _ => SRet tt
  end.

Definition AcknowledgeDifference (conn : option Z) (req : option sync_request)
    (captured : DialogFilterCapture) (included : bool) : sync_prog unit :=
  match conn, req with
  | Some c, Some q =>
      if stale_request q captured then SRet tt
      else
        installed ← sync_do (DifferenceRec c (q_UserID q) (q_SessionID q)
                              (included && cp_firstDifference captured));
        if (installed : bool) then requeue c q else SRet tt
  | _, _ => SRet tt
  end.

(** [if conn.MarkDialogFilterRecovery(...) { s.enqueueRecovery(conn) }] *)
Definition mark_enqueue (c owner session generation epoch : Z) : sync_prog unit :=
  installed ← sync_do (MarkRec c owner session generation epoch);
  if (installed : bool) then sync_do (EnqueueConn c) else SRet tt.

Definition RequesterRepair (conn : option Z) (req : option sync_request) : sync_prog unit :=
  match conn, req with
  | Some c, Some q =>
      if (q_UserID q =? 0) || q_Provisional q then SRet tt
      else
        _ ← EnsureBinding conn req;
        g ← next;
        mark_enqueue c (q_UserID q) (q_SessionID q) g.1 g.2
  | _, _ => SRet tt
  end.

(** One connection of the loop of [OwnerInvalidation]. *)
Definition invalidate_one (owner generation epoch : Z) (c : Z) : sync_prog unit :=
  binding ← sync_do (BindingOf c);
  let '(bindingOwner, session) := (binding : Z * Z) in
  if bindingOwner =? owner then mark_enqueue c owner session generation epoch else SRet tt.

(** [registry] is the registry as [Conns] finds it. *)
Definition OwnerInvalidation (registry : option SessionRegistry) (owner : Z) : sync_prog unit :=
  match registry with
  | None => SRet tt
  | Some r =>
      if owner <=? 0 then SRet tt
      else
        g ← next;
        for_each (Registry_Conns r owner) (invalidate_one owner g.1 g.2)
  end.

(** A hand-over: [setOwner], [setKey] and [setSession] store the binding and then a
    fresh snapshot for it. *)
Definition rebind (c owner session : Z) : sync_prog unit :=
  _ ← sync_do (StoreBinding c owner session);
  sync_do (ResetRec c owner session).

(** ** The sweeper *)

Definition dialogFilterRecoveryBatch : Z := 64.

(** The sweeper's own place in its scan of the registry. *)
Record recovery_scan : Type := mkScan { recoveryScanEpoch : Z; recoveryScanRemaining : Z }.

Definition enqueue_all (cs : list Z) : sync_prog unit := for_each cs (fun c => sync_do (EnqueueConn c)).

(** The candidates of one turn.  [slots] tells of each connection whether a push slot is
    free for it; the claims made are pushed by goroutines of their own. *)
Fixpoint recover_each (slots : Z -> bool) (epoch now : Z) (candidates : list Z)
    (claims : list (Z * Z * Z * Z)) : sync_prog (list (Z * Z * Z * Z)) :=
  match candidates with
  | [] => SRet claims
  | c :: rest =>
      binding ← sync_do (BindingOf c);
      let '(owner, session) := (binding : Z * Z) in
      if owner <=? 0 then recover_each slots epoch now rest claims
      else if negb (slots c) then _ ← enqueue_all (c :: rest); SRet claims
      else
        claim ← sync_do (ClaimRec c owner session epoch now);
        match (claim : option Z) with
        | Some claimID => recover_each slots epoch now rest (claims ++ [(c, owner, session, claimID)])
        | None =>
            pending ← sync_do (PendingRec c owner session epoch);
            _ ← (if (pending : bool) then sync_do (EnqueueConn c) else SRet tt);
            recover_each slots epoch now rest claims
        end
  end.

(** [registry] as this turn finds it; with the claims it made come the scan's new place
    and the registry with its cursor advanced. *)
Definition recoverDialogFilters (scan : recovery_scan) (registry : option SessionRegistry)
    (slots : Z -> bool) (now : Z)
    : sync_prog (list (Z * Z * Z * Z) * recovery_scan * option SessionRegistry) :=
  match registry with
  | None => SRet ([], scan, None)
  | Some r =>
      snap ← Snapshot;
      let epoch := snap.2 in
      let scan1 := if epoch =? recoveryScanEpoch scan then scan else mkScan epoch (TotalConns r) in
      let limit := Z.min dialogFilterRecoveryBatch (recoveryScanRemaining scan1) in
      let '(candidates, r1) :=
        if recoveryScanRemaining scan1 >? 0 then DialogFilterRecoveryCandidates r limit else ([], r) in
      let scan2 :=
        if recoveryScanRemaining scan1 >? 0 then
          mkScan (recoveryScanEpoch scan1)
            (if len candidates <? limit then 0 else recoveryScanRemaining scan1 - len candidates)
        else scan1 in
      _ ← enqueue_all candidates;
      taken ← sync_do (TakeConns dialogFilterRecoveryBatch);
      claims ← recover_each slots epoch now taken [];
      SRet (claims, scan2, Some r1)
  end.

(** What the goroutine of a claim does once its push is over. *)
Definition finish_recovery (c owner session claimID : Z) : sync_prog unit :=
  _ ← sync_do (FinishRec c owner session claimID);
  snap ← Snapshot;
  pending ← sync_do (PendingRec c owner session snap.2);
  if (pending : bool) then sync_do (EnqueueConn c) else SRet tt.

(** ** Goroutines *)

Inductive sync_call : Type :=
| CallReconnected
| CallRebind (c owner session : Z)
| CallEnsure (conn : option Z) (req : option sync_request)
| CallCapture (conn : option Z) (req : option sync_request)
| CallFetch (conn : option Z) (req : option sync_request) (captured : DialogFilterCapture)
| CallDifference (conn : option Z) (req : option sync_request) (captured : DialogFilterCapture)
    (included : bool)
| CallRepair (conn : option Z) (req : option sync_request)
| CallInvalidate (registry : option SessionRegistry) (owner : Z)
| CallSweep (scan : recovery_scan) (registry : option SessionRegistry) (slots : Z -> bool) (now : Z)
| CallFinish (c owner session claimID : Z).

Definition returns_none {A : Type} (p : sync_prog A) : sync_prog (option DialogFilterCapture) :=
  _ ← p; SRet None.

(** The call as a program; a capture is what its caller may acknowledge later. *)
Definition call_prog (cl : sync_call) : sync_prog (option DialogFilterCapture) :=
  match cl with
  | CallReconnected => returns_none ListenerReconnected
  | CallRebind c o ss => returns_none (rebind c o ss)
  | CallEnsure c q => returns_none (EnsureBinding c q)
  | CallCapture c q => cap ← Capture c q; SRet (Some cap)
  | CallFetch c q cap => returns_none (AcknowledgeFetch c q cap)
  | CallDifference c q cap b => returns_none (AcknowledgeDifference c q cap b)
  | CallRepair c q => returns_none (RequesterRepair c q)
  | CallInvalidate r o => returns_none (OwnerInvalidation r o)
  | CallSweep scan r slots now => returns_none (recoverDialogFilters scan r slots now)
  | CallFinish c o ss cid => returns_none (finish_recovery c o ss cid)
  end.

(** The replica, the calls made so far with what is left of each, and the captures that
    [Capture] calls have returned. *)
Record sync_pool : Type := mkPool {
  sp_world : DialogFilterSync;
  sp_running : list (sync_call * sync_prog (option DialogFilterCapture));
  sp_issued : list DialogFilterCapture
}.

Definition pool_init : sync_pool := mkPool NewDialogFilterSync [] [no_capture].

(** A call begins, or the [i]-th call makes its next access. *)
Inductive sync_event : Type :=
| Begin (cl : sync_call)
| Advance (i : nat).

(** A fetch is acknowledged with a capture its goroutine was given. *)
Definition call_ok (issued : list DialogFilterCapture) (cl : sync_call) : bool :=
  match cl with
  | CallFetch _ _ cap => bool_decide (cap ∈ issued)
  | _ => true
  end.

Definition advance (s : sync_pool) (i : nat) (cl : sync_call) (p : sync_prog (option DialogFilterCapture))
    : sync_pool :=
  match p with
  | SRet r => mkPool (sp_world s) (sp_running s) (option_list r ++ sp_issued s)
  | SDo x k =>
      mkPool (exec (sp_world s) x).2 (<[i := (cl, k (exec (sp_world s) x).1)]> (sp_running s)) (sp_issued s)
  end.

(** [None]: there is no such call, or no goroutine could make it. *)
Definition sync_step (s : sync_pool) (e : sync_event) : option sync_pool :=
  match e with
  | Begin cl =>
      if call_ok (sp_issued s) cl
      then Some (mkPool (sp_world s) (sp_running s ++ [(cl, call_prog cl)]) (sp_issued s))
      else None
  | Advance i => '(cl, p) ← sp_running s !! i; Some (advance s i cl p)
  end.

Fixpoint sync_run (s : sync_pool) (es : list sync_event) : option sync_pool :=
  match es with
  | [] => Some s
  | e :: es' => s' ← sync_step s e; sync_run s' es'
  end.

(** ** What programs obey

    [P sq x]: the access is fine while the clock's sequence is at least [sq]; [Q sq sq' x b]:
    [b] may be the answer, the sequence having been at least [sq] before and at least
    [sq'] after.  [obeys] is about every answer the access can get. *)
Section obeys.
Context (P : Z -> access -> Prop).
Context (Q : Z -> Z -> forall x, answer x -> Prop).

Fixpoint obeys {A : Type} (R : Z -> A -> Prop) (sq : Z) (p : sync_prog A) : Prop :=
  match p with
  | SRet a => R sq a
  | SDo x k => P sq x /\ forall sq' b, sq <= sq' -> Q sq sq' x b -> obeys R sq' (k b)
  end.

Hypothesis P_mono : forall sq sq' x, sq <= sq' -> P sq x -> P sq' x.
Hypothesis Q_anti : forall sq sq0 sq' x b, sq <= sq0 -> Q sq0 sq' x b -> Q sq sq' x b.

Lemma obeys_later {A} (R : Z -> A -> Prop) sq sq' (p : sync_prog A) :
  (forall s s' a, s <= s' -> R s a -> R s' a) -> sq <= sq' -> obeys R sq p -> obeys R sq' p.
Proof using P_mono Q_anti.
  intros HR Hle H. destruct p as [a|x k]; simpl in *; [by eapply HR|].
  destruct H as [H1 H2]. split; [by eapply P_mono|]. intros s b Hs Hb.
  apply H2; [lia|by eapply Q_anti].
Qed.

Lemma obeys_bind {A B} (R : Z -> A -> Prop) (R' : Z -> B -> Prop) (f : A -> sync_prog B) (p : sync_prog A) :
  forall sq, obeys R sq p -> (forall sq' a, sq <= sq' -> R sq' a -> obeys R' sq' (f a)) ->
  obeys R' sq (sync_bind f p).
Proof using Type.
  induction p as [a|x k IH]; intros sq H Hf; simpl in *; [apply Hf; [lia|done]|].
  destruct H as [H1 H2]. split; [done|]. intros s b Hs Hb. apply IH; [by apply H2|].
  intros s' a Hle HR. apply Hf; [lia|done].
Qed.

Lemma obeys_for_each (body : Z -> sync_prog unit) l : forall sq,
  (forall c sq', c ∈ l -> sq <= sq' -> obeys (fun _ _ => True) sq' (body c)) ->
  obeys (fun _ _ => True) sq (for_each l body).
Proof using Type.
  induction l as [|c l IH]; intros sq H; simpl; [done|].
  apply (obeys_bind (fun _ _ => True)); [apply H; [left|lia]|]. intros sq' _ Hle _.
  apply IH. intros d s Hd Hs. apply H; [by right|lia].
Qed.

Lemma obeys_none {A} (p : sync_prog A) (R : Z -> option DialogFilterCapture -> Prop) sq :
  (forall s, R s None) -> obeys (fun _ _ => True) sq p -> obeys R sq (returns_none p).
Proof using Type. intros HR H. apply (obeys_bind (fun _ _ => True)); [done|]. intros s a _ _. apply HR. Qed.

End obeys.

(** Nothing a goroutine holds is ahead of the clock. *)
Definition within (sq : Z) (x : access) : Prop :=
  match x with
  | EnsureRec _ _ _ cov => 0 <= cov <= sq
  | FetchRec _ _ _ cap _ => 0 <= cap <= sq
  | MarkRec _ _ _ g ep => 1 <= g <= sq /\ 0 <= ep < g
  | _ => True
  end.

Definition answers (sq sq' : Z) (x : access) : answer x -> Prop :=
  match x return answer x -> Prop with
  | LoadClock => fun k => 0 <= globalEpoch k <= sequence k /\ sequence k <= sq'
  | SwapNext => fun k => 0 <= globalEpoch k < sequence k /\ sq < sequence k <= sq'
  | _ => fun _ => True
  end.

Definition captured_within (sq : Z) (r : option DialogFilterCapture) : Prop :=
  match r with Some cap => 0 <= cp_generation cap <= sq | None => True end.

(** Connection [c] keeps its binding, and only generations before [g] are acknowledged
    on it. *)
Definition steady (c o ss g : Z) (sq : Z) (x : access) : Prop :=
  match x with
  | StoreBinding c' _ _ | ResetRec c' _ _ => c' <> c
  | EnsureRec c' o' ss' _ => c' = c -> o' = o /\ ss' = ss
  | FetchRec c' _ _ cap _ => c' = c -> cap < g
  | _ => True
  end.

Lemma within_mono sq sq' x : sq <= sq' -> within sq x -> within sq' x.
Proof. destruct x; simpl; try done; lia. Qed.

Lemma steady_mono c o ss g sq sq' x : sq <= sq' -> steady c o ss g sq x -> steady c o ss g sq' x.
Proof. done. Qed.

Lemma answers_anti sq sq0 sq' x b : sq <= sq0 -> answers sq0 sq' x b -> answers sq sq' x b.
Proof. destruct x; simpl; try done; lia. Qed.

Definition req_binds (c o ss : Z) (conn : option Z) (req : option sync_request) : Prop :=
  forall q, conn = Some c -> req = Some q -> q_UserID q = o /\ q_SessionID q = ss.

(** The call works on [c] only for its binding ([o], [ss]). *)
Definition same_binding (c o ss : Z) (cl : sync_call) : Prop :=
  match cl with
  | CallRebind c' _ _ => c' <> c
  | CallEnsure conn req | CallCapture conn req | CallRepair conn req => req_binds c o ss conn req
  | _ => True
  end.

(** A fetch is acknowledged on [c] only with a capture of [old]. *)
Definition fetches_from (c : Z) (old : list DialogFilterCapture) (cl : sync_call) : Prop :=
  match cl with
  | CallFetch (Some c') _ cap => c' = c -> cap ∈ old
  | _ => True
  end.

(** Accesses that neither draw a generation nor cover one. *)
Definition harmless (x : access) : bool :=
  match x with
  | EnsureRec _ _ _ _ | FetchRec _ _ _ _ _ | MarkRec _ _ _ _ _ | StoreBinding _ _ _ | ResetRec _ _ _ => false
  | _ => true
  end.

Section harmless.
Context (P : Z -> access -> Prop) (Q : Z -> Z -> forall x, answer x -> Prop).
Hypothesis P_harmless : forall sq x, harmless x = true -> P sq x.

Let fine {A} (sq : Z) (p : sync_prog A) : Prop := obeys P Q (fun _ _ => True) sq p.

Lemma fine_do {A} sq x (k : answer x -> sync_prog A) :
  harmless x = true -> (forall sq' b, sq <= sq' -> Q sq sq' x b -> fine sq' (k b)) -> fine sq (SDo x k).
Proof using P_harmless. intros Hx Hk. split; [by apply P_harmless|exact Hk]. Qed.

Ltac fine_step := apply fine_do; [done|intros ? ? ? ?; cbn [sync_bind]].

Lemma fine_enqueue_all sq cs : fine sq (enqueue_all cs).
Proof using P_harmless. apply obeys_for_each. intros c s _ _. by fine_step. Qed.

Lemma fine_requeue sq c q : fine sq (requeue c q).
Proof using P_harmless. do 2 fine_step. case_match; [by fine_step|done]. Qed.

Lemma fine_finish sq c o ss cid : fine sq (finish_recovery c o ss cid).
Proof using P_harmless. do 3 fine_step. case_match; [by fine_step|done]. Qed.

Lemma fine_difference sq conn req cap b : fine sq (AcknowledgeDifference conn req cap b).
Proof using P_harmless.
  unfold AcknowledgeDifference. destruct conn as [c|], req as [q|]; try done.
  case_match; [done|]. fine_step. case_match; [apply fine_requeue|done].
Qed.

Lemma fine_recover_each slots epoch now cs : forall sq claims,
  fine sq (recover_each slots epoch now cs claims).
Proof using P_harmless.
  induction cs as [|c cs IH]; intros sq claims; [done|]. cbn [recover_each].
  fine_step. destruct b as [owner session]. case_match; [apply IH|]. case_match.
  - apply (obeys_bind _ _ (fun _ _ => True)); [apply fine_enqueue_all|done].
  - fine_step. case_match; [apply IH|]. fine_step.
    apply (obeys_bind _ _ (fun _ _ => True)); [case_match; [by fine_step|done]|].
    intros s a _ _. apply IH.
Qed.

Lemma fine_sweep sq scan r slots now : fine sq (recoverDialogFilters scan r slots now).
Proof using P_harmless.
  destruct r as [r|]; [|done]. cbn -[Z.min Z.sub dialogFilterRecoveryBatch]. fine_step.
  destruct (if recoveryScanRemaining _ >? 0 then _ else _) as [cs r1].
  apply (obeys_bind _ _ (fun _ _ => True)); [apply fine_enqueue_all|]. intros s _ _ _.
  fine_step. apply (obeys_bind _ _ (fun _ _ => True)); [apply fine_recover_each|done].
Qed.

End harmless.

Lemma within_harmless sq x : harmless x = true -> within sq x.
Proof. by destruct x. Qed.

Lemma steady_harmless c o ss g sq x : harmless x = true -> steady c o ss g sq x.
Proof. by destruct x. Qed.

(** What an acknowledgement may carry. *)
Definition fetch_bound (T : Z -> Prop) (cl : sync_call) : Prop :=
  match cl with CallFetch (Some c) _ cap => T (cp_generation cap) | _ => True end.

Lemma within_mark sq c o ss g ep :
  1 <= g <= sq -> 0 <= ep < g -> obeys within answers (fun _ _ => True) sq (mark_enqueue c o ss g ep).
Proof. intros Hg He. split; [done|]. intros s b _ _. simpl. by destruct b. Qed.

Lemma within_invalidate sq r o : 0 <= sq -> obeys within answers (fun _ _ => True) sq (OwnerInvalidation r o).
Proof.
  intros Hsq. destruct r as [r|]; [|done]. unfold OwnerInvalidation. case_match; [done|].
  split; [done|]. intros s k Hs [Hk1 Hk2]. cbn. apply obeys_for_each. intros c s' _ Hs'.
  split; [done|]. intros s2 b Hs2 _. cbn. destruct b as [bo ss]. case_match; [|done].
  apply within_mark; simpl; lia.
Qed.

Lemma within_ensure sq conn req : 0 <= sq -> obeys within answers (fun _ _ => True) sq (EnsureBinding conn req).
Proof.
  intros Hsq. destruct conn as [c|], req as [q|]; try done. unfold EnsureBinding. case_match; [done|].
  split; [done|]. intros s k Hs Hk. simpl in Hk. split; [simpl; lia|done].
Qed.

Lemma within_repair sq conn req : 0 <= sq -> obeys within answers (fun _ _ => True) sq (RequesterRepair conn req).
Proof.
  intros Hsq. destruct conn as [c|], req as [q|]; try done. unfold RequesterRepair. case_match; [done|].
  apply (obeys_bind _ _ (fun _ _ => True)); [by apply within_ensure|]. intros s _ Hs _.
  split; [done|]. intros s' k Hs' [Hk1 Hk2]. apply within_mark; simpl; lia.
Qed.

Lemma within_fetch sq conn req cap :
  0 <= cp_generation cap <= sq -> obeys within answers (fun _ _ => True) sq (AcknowledgeFetch conn req cap).
Proof.
  intros Hc. destruct conn as [c|], req as [q|]; try done. unfold AcknowledgeFetch. case_match; [done|].
  split; [done|]. intros s k Hs Hk. split; [simpl; lia|]. intros s' b Hs' _. simpl.
  destruct b; [|done]. apply fine_requeue. apply within_harmless.
Qed.

Lemma within_capture sq conn req :
  0 <= sq -> obeys within answers captured_within sq (call_prog (CallCapture conn req)).
Proof.
  intros Hsq. destruct conn as [c|], req as [q|]; try (simpl; lia). cbn [call_prog Capture].
  case_match; [simpl; lia|]. split; [done|]. intros s k Hs Hk. simpl in Hk. split; [simpl; lia|].
  intros s1 u Hs1 _. split; [done|]. intros s2 b Hs2 _. cbn. destruct b as [[[[] ?] ?]|]; simpl; lia.
Qed.

Lemma call_within cl sq :
  fetch_bound (fun g => 0 <= g <= sq) cl -> 0 <= sq ->
  obeys within answers captured_within sq (call_prog cl).
Proof.
  intros Hf Hsq. assert (Hh := within_harmless). destruct cl as [| | |conn req|[c|] req cap| | | | |];
    try (by apply within_capture); apply obeys_none; try done.
  - by apply within_ensure.
  - by apply within_fetch.
  - by apply fine_difference.
  - by apply within_repair.
  - by apply within_invalidate.
  - by apply fine_sweep.
  - by apply fine_finish.
Qed.

Section steady.
Context (c o ss g : Z).
Let firm {A} (sq : Z) (p : sync_prog A) : Prop := obeys (steady c o ss g) answers (fun _ _ => True) sq p.

Lemma steady_mark sq d o' ss' gen ep : firm sq (mark_enqueue d o' ss' gen ep).
Proof. split; [done|]. intros s b _ _. simpl. by destruct b. Qed.

Lemma steady_invalidate sq r o' : firm sq (OwnerInvalidation r o').
Proof.
  destruct r as [r|]; [|done]. unfold OwnerInvalidation. case_match; [done|].
  split; [done|]. intros s k Hs _. cbn. apply obeys_for_each. intros d s' _ Hs'.
  split; [done|]. intros s2 b Hs2 _. cbn. destruct b as [bo ss']. case_match; [|done].
  apply steady_mark.
Qed.

Lemma steady_ensure sq conn req : req_binds c o ss conn req -> firm sq (EnsureBinding conn req).
Proof.
  intros Hb. destruct conn as [d|], req as [q|]; try done. unfold EnsureBinding. case_match; [done|].
  split; [done|]. intros s k Hs Hk. split; [|done]. intros ->. by apply Hb.
Qed.

Lemma steady_repair sq conn req : req_binds c o ss conn req -> firm sq (RequesterRepair conn req).
Proof.
  intros Hb. destruct conn as [d|], req as [q|]; try done. unfold RequesterRepair. case_match; [done|].
  apply (obeys_bind _ _ (fun _ _ => True)); [by apply steady_ensure|]. intros s _ Hs _.
  split; [done|]. intros s' k Hs' _. apply steady_mark.
Qed.

Lemma steady_fetch sq conn req cap :
  (conn = Some c -> cp_generation cap < g) -> firm sq (AcknowledgeFetch conn req cap).
Proof.
  intros Hc. destruct conn as [d|], req as [q|]; try done. unfold AcknowledgeFetch. case_match; [done|].
  split; [done|]. intros s k Hs Hk. split; [intros ->; by apply Hc|]. intros s' b Hs' _. simpl.
  destruct b; [|done]. apply fine_requeue. apply steady_harmless.
Qed.

Lemma steady_capture sq conn req : req_binds c o ss conn req -> firm sq (call_prog (CallCapture conn req)).
Proof.
  intros Hb. destruct conn as [d|], req as [q|]; try done. cbn [call_prog Capture].
  case_match; [done|]. split; [done|]. intros s k Hs Hk. split; [intros ->; by apply Hb|].
  intros s1 u Hs1 _. by split.
Qed.

Lemma call_steady cl sq :
  same_binding c o ss cl -> (forall req cap, cl = CallFetch (Some c) req cap -> cp_generation cap < g) ->
  firm sq (call_prog cl).
Proof.
  intros Hb Hf. assert (Hh := steady_harmless c o ss g).
  destruct cl as [|d o' ss'| |conn req|[d|] req cap| | | | |]; try (by apply steady_capture);
    apply obeys_none; try done.
  - by apply steady_ensure.
  - apply steady_fetch. intros [= ->]. by eapply Hf.
  - by apply fine_difference.
  - by apply steady_repair.
  - by apply steady_invalidate.
  - by apply fine_sweep.
  - by apply fine_finish.
Qed.

End steady.

(** ** The replica under every interleaving *)

Record world_inv (n : Z) (w : DialogFilterSync) : Prop := mkWorldInv {
  wi_clock : 0 <= globalEpoch (clock w) <= sequence (clock w);
  wi_seq : sequence (clock w) <= n;
  wi_covered : forall c, 0 <= r_covered (rec_at w c) <= sequence (clock w)
}.

Lemma conn_at_set w c x d : conn_at (set_conn w c x) d = if decide (c = d) then x else conn_at w d.
Proof. unfold conn_at, set_conn. simpl. rewrite lookup_insert. by case_decide. Qed.

Lemma rec_at_store w c r d : rec_at (store_rec w c r) d = if decide (c = d) then r else rec_at w d.
Proof. unfold rec_at, store_rec. rewrite conn_at_set. by case_decide. Qed.

Lemma mark_covered s o ss g ep s' :
  1 <= g < 2 ^ 64 ->
  MarkDialogFilterRecovery s o ss g ep = Some s' ->
  r_covered s' = (if r_initialized s then r_covered s else Z.max (g - 1) ep) /\
  Z.max g (if r_initialized s then r_generation s else 0) <= r_generation s' /\
  bound_to s' o ss = true /\ r_initialized s' = true.
Proof.
  intros Hg. unfold MarkDialogFilterRecovery. rewrite wrap_u64_small by lia.
  destruct (bound_to s o ss) eqn:B; simpl; [|done].
  destruct (r_initialized s) eqn:I; repeat case_match; intros [= <-]; simpl; unfold bound_to in *;
    simpl in *; lia.
Qed.

(** The two snapshots differ in no field that coverage depends on. *)
Definition same_coverage (s s' : dialogFilterRecovery) : Prop :=
  r_covered s' = r_covered s /\ r_generation s' = r_generation s /\
  r_initialized s' = r_initialized s /\ (forall o ss, bound_to s' o ss = bound_to s o ss).

Lemma difference_covered s o ss b s' :
  AcknowledgeDialogFilterDifference s o ss b = Some s' -> same_coverage s s'.
Proof. unfold AcknowledgeDialogFilterDifference. intros E. repeat case_match; by simplify_eq/=. Qed.

Lemma claim_covered s n o ss ep now cid s' :
  ClaimDialogFilterRecoveryAttempt s n o ss ep now = Some (cid, s') -> same_coverage s s'.
Proof. unfold ClaimDialogFilterRecoveryAttempt. intros E. do 3 (case_match; simplify_eq/=). done. Qed.

Lemma finish_covered s o ss cid : same_coverage s (FinishDialogFilterRecoveryAttempt s o ss cid).
Proof. unfold FinishDialogFilterRecoveryAttempt. by case_match. Qed.

Lemma ensure_covered s o ss k :
  let s' := EnsureDialogFilterRecoveryBinding s o ss k in r_covered s' = r_covered s \/ r_covered s' = k.
Proof. unfold EnsureDialogFilterRecoveryBinding. case_match; [by left|by right]. Qed.

Lemma inv_weaken n m w : n <= m -> world_inv n w -> world_inv m w.
Proof. intros Hm []. constructor; try done; lia. Qed.

(** Replacing one connection's state within the clock. *)
Lemma inv_set_conn n w c x :
  world_inv n w -> 0 <= r_covered (sc_recovery x) <= sequence (clock w) -> world_inv n (set_conn w c x).
Proof.
  intros [H1 H2 H3] Hr. constructor; try done. intros d. unfold rec_at. rewrite conn_at_set.
  case_decide; [done|apply H3].
Qed.

Lemma inv_try_store n w c (r : option dialogFilterRecovery) :
  world_inv n w -> (forall r', r = Some r' -> 0 <= r_covered r' <= sequence (clock w)) ->
  world_inv n (try_store w c r).2 /\ clock (try_store w c r).2 = clock w.
Proof. intros I Hr. destruct r as [r|]; [|done]. split; [|done]. apply inv_set_conn; auto. Qed.

(** What an access keeps besides the clock. *)
Lemma exec_keeps n w x :
  world_inv n w -> n < 2 ^ 64 -> within (sequence (clock w)) x -> x <> SwapNext -> x <> SwapReconnected ->
  world_inv n (exec w x).2 /\ clock (exec w x).2 = clock w.
Proof.
  intros I Hn Hx N1 N2. assert (H1 := wi_clock _ _ I). assert (H2 := wi_seq _ _ I). assert (H3 := wi_covered _ _ I).
  destruct x as [| | |c o ss cov|c o ss ep|c o ss cap ep|c o ss b|c o ss g ep|c o ss ep|c o ss ep now|c o ss cid
                |c|c o ss|c o ss|c|lim]; simpl in Hx; try done; cbn [exec].
  - split; [|done]. apply inv_set_conn; [done|]. simpl.
    destruct (ensure_covered (rec_at w c) o ss cov) as [->| ->]; [apply H3|lia].
  - apply inv_try_store; [done|]. intros r Hr. apply fetch_covered in Hr as (-> & _).
    specialize (H3 c). lia.
  - apply inv_try_store; [done|]. intros r Hr. apply difference_covered in Hr as (-> & _). apply H3.
  - apply inv_try_store; [done|]. intros r Hr. apply mark_covered in Hr as (-> & _); [|lia].
    specialize (H3 c). case_match; lia.
  - destruct (ClaimDialogFilterRecoveryAttempt _ _ _ _ _ _) as [[cid r]|] eqn:E; [|done].
    split; [|done]. apply inv_set_conn; [done|]. simpl. apply claim_covered in E as (-> & _). apply H3.
  - split; [|done]. apply inv_set_conn; [done|]. simpl.
    destruct (finish_covered (rec_at w c) o ss cid) as (-> & _). apply H3.
  - split; [|done]. apply inv_set_conn; [done|]. apply H3.
  - split; [|done]. apply inv_set_conn; [done|]. simpl. lia.
Qed.

Lemma exec_inv n w x :
  world_inv n w -> 0 <= n -> n + 1 < 2 ^ 64 -> within (sequence (clock w)) x ->
  world_inv (n + 1) (exec w x).2 /\ sequence (clock w) <= sequence (clock (exec w x).2) /\
  answers (sequence (clock w)) (sequence (clock (exec w x).2)) x (exec w x).1.
Proof.
  intros I H0 Hn Hx. assert (H1 := wi_clock _ _ I). assert (H2 := wi_seq _ _ I).
  assert (H3 := wi_covered _ _ I).
  assert (HN : wrap_u64 (sequence (clock w) + 1) = sequence (clock w) + 1) by (apply wrap_u64_small; lia).
  assert (Hc : x = SwapNext \/ x = SwapReconnected \/ x <> SwapNext /\ x <> SwapReconnected)
    by (destruct x; auto).
  destruct Hc as [->|[->|[N1 N2]]].
  - cbn [exec fst snd answers]. unfold next_clock. simpl. rewrite HN. split_and!; try lia.
    constructor; simpl; try lia. intros c. specialize (H3 c). unfold rec_at, conn_at in *. simpl. lia.
  - cbn [exec fst snd answers]. unfold reconnected_clock. simpl. rewrite HN. split_and!; try lia; try done.
    constructor; simpl; try lia. intros c. specialize (H3 c). unfold rec_at, conn_at in *. simpl. lia.
  - destruct (exec_keeps n w x I ltac:(lia) Hx N1 N2) as [I' ->]. split_and!; try lia.
    + apply (inv_weaken n); [lia|done].
    + destruct x; try done; simpl; lia.
Qed.

(** ** What survives a fetch *)

(** Connection [c] is bound to ([o], [ss]) and nothing at or past [g] is covered. *)
Definition behind (c o ss g : Z) (w : DialogFilterSync) : Prop :=
  sc_binding (conn_at w c) = (o, ss) /\ bound_to (rec_at w c) o ss = true /\
  r_initialized (rec_at w c) = true /\ r_covered (rec_at w c) < g.

(** Connection [c] of [w'] is behind, with a generation no smaller than in [w]. *)
Definition still_behind (c o ss g : Z) (w w' : DialogFilterSync) : Prop :=
  behind c o ss g w' /\ r_generation (rec_at w c) <= r_generation (rec_at w' c).

Lemma bound_to_eq s o ss o' ss' :
  bound_to s o ss = true -> bound_to s o' ss' = true -> o = o' /\ ss = ss'.
Proof. unfold bound_to. lia. Qed.

Lemma still_refl c o ss g w : behind c o ss g w -> still_behind c o ss g w w.
Proof. intros H. split; [done|lia]. Qed.

(** A replacement of one connection's state. *)
Lemma still_set c o ss g w d x :
  behind c o ss g w ->
  (d = c -> sc_binding x = sc_binding (conn_at w c) /\ bound_to (sc_recovery x) o ss = true /\
            r_initialized (sc_recovery x) = true /\ r_covered (sc_recovery x) < g /\
            r_generation (rec_at w c) <= r_generation (sc_recovery x)) ->
  still_behind c o ss g w (set_conn w d x).
Proof.
  intros H Hx. unfold still_behind, behind, rec_at. rewrite conn_at_set.
  destruct (decide (d = c)) as [->|]; [|by apply still_refl].
  destruct (Hx eq_refl) as (-> & A & B & C & D). destruct H as (H & _). split_and!; done.
Qed.

Lemma still_same c o ss g w d r :
  behind c o ss g w -> (d = c -> same_coverage (rec_at w c) r) -> forall n,
  still_behind c o ss g w (set_conn w d (mkSyncConn r (sc_binding (conn_at w d)) n)).
Proof.
  intros H Hr n. apply still_set; [done|]. intros ->. destruct (Hr eq_refl) as (A & B & C & D).
  destruct H as (H1 & H2 & H3 & H4). simpl. rewrite A, B, C, D. split_and!; done || lia.
Qed.

Lemma still_try c o ss g w d (r : option dialogFilterRecovery) :
  behind c o ss g w ->
  (forall r', r = Some r' -> d = c -> bound_to r' o ss = true /\ r_initialized r' = true /\ r_covered r' < g /\
     r_generation (rec_at w c) <= r_generation r') ->
  still_behind c o ss g w (try_store w d r).2.
Proof.
  intros H Hr. destruct r as [r|]; [|by apply still_refl]. apply still_set; [done|]. intros ->.
  split; [done|]. simpl. by apply Hr.
Qed.

Lemma exec_behind c o ss g n w x :
  world_inv n w -> n < 2 ^ 64 -> within (sequence (clock w)) x -> steady c o ss g (sequence (clock w)) x ->
  behind c o ss g w -> still_behind c o ss g w (exec w x).2.
Proof.
  intros I Hn Hx Hs B. assert (H2 := wi_seq _ _ I). pose proof B as (B0 & B1 & B2 & B3).
  destruct x as [| | |d o' ss' cov|d o' ss' ep|d o' ss' cap ep|d o' ss' b|d o' ss' gen ep|d o' ss' ep|d o' ss' ep now
                |d o' ss' cid|d|d o' ss'|d o' ss'|d|lim]; simpl in Hx, Hs; cbn [exec];
    try exact (still_refl _ _ _ _ _ B).
  - apply still_same; [done|]. intros ->. destruct (Hs eq_refl) as [-> ->].
    unfold EnsureDialogFilterRecoveryBinding. by rewrite B1, B2.
  - apply still_try; [done|]. intros r Hr ->. destruct (fetch_covered _ _ _ _ _ _ Hr) as (F1 & F2 & _).
    specialize (Hs eq_refl). rewrite F1, F2. unfold AcknowledgeDialogFilterFetch in Hr.
    repeat case_match; simplify_eq/=; split_and!; try done; lia.
  - apply still_try; [done|]. intros r Hr ->. destruct (difference_covered _ _ _ _ _ Hr) as (D1 & D2 & D3 & D4).
    rewrite D1, D2, D3, D4. split_and!; done || lia.
  - apply still_try; [done|]. intros r Hr ->.
    assert (B' : bound_to (rec_at w c) o' ss' = true).
    { unfold MarkDialogFilterRecovery in Hr. by destruct (bound_to (rec_at w c) o' ss'). }
    destruct (bound_to_eq _ _ _ _ _ B1 B') as [<- <-].
    apply mark_covered in Hr as (F1 & F2 & F3 & F4); [|lia]. rewrite B2 in *. rewrite F1. split_and!; try done; lia.
  - destruct (ClaimDialogFilterRecoveryAttempt _ _ _ _ _ _) as [[cid r]|] eqn:E; [|by apply still_refl].
    apply still_same; [done|]. intros ->. by eapply claim_covered.
  - apply still_same; [done|]. intros ->. apply finish_covered.
  - by apply still_set.
  - by apply still_set.
Qed.

(** The mark itself. *)
Lemma exec_mark c o ss g gen ep w :
  behind c o ss g w -> gen <= r_generation (rec_at (exec w (MarkRec c o ss gen ep)).2 c).
Proof.
  intros (_ & B1 & B2 & _). cbn [exec]. unfold MarkDialogFilterRecovery. rewrite B1, B2. cbn [negb].
  case_match; simpl; rewrite rec_at_store, decide_True by done; simpl; case_match; lia.
Qed.

(** ** A program on its way to the mark *)

Definition binding_answer (c o ss : Z) (x : access) : answer x -> Prop :=
  match x return answer x -> Prop with
  | BindingOf c' => fun b => c' = c -> b = (o, ss)
  | _ => fun _ => True
  end.

Fixpoint marks (c o ss g : Z) {A : Type} (sq : Z) (p : sync_prog A) : Prop :=
  match p with
  | SRet _ => False
  | SDo x k =>
      (exists gen ep, x = MarkRec c o ss gen ep /\ g <= gen) \/
      forall sq' b, sq <= sq' -> answers sq sq' x b -> binding_answer c o ss x b -> marks c o ss g sq' (k b)
  end.

Section marks.
Context (c o ss g : Z).

Lemma marks_bind {A B} (f : A -> sync_prog B) p : forall sq,
  marks c o ss g sq p -> marks c o ss g sq (sync_bind f p).
Proof.
  induction p as [a|x k IH]; intros sq H; simpl in *; [done|].
  destruct H as [H|H]; [by left|]. right. intros s b Hs Ha Hb. apply IH. by apply H.
Qed.

Lemma marks_skip {A B} (f : A -> sync_prog B) p : forall sq,
  (forall sq' a, sq <= sq' -> marks c o ss g sq' (f a)) -> marks c o ss g sq (sync_bind f p).
Proof.
  induction p as [a|x k IH]; intros sq H; simpl in *; [apply H; lia|].
  right. intros s b Hs Ha Hb. apply IH. intros s' a Hs'. apply H. lia.
Qed.

Lemma marks_for_each (body : Z -> sync_prog unit) l : forall sq,
  c ∈ l -> (forall sq', sq <= sq' -> marks c o ss g sq' (body c)) -> marks c o ss g sq (for_each l body).
Proof.
  induction l as [|d l IH]; intros sq Hc H; [by apply elem_of_nil in Hc|]. cbn [for_each].
  apply elem_of_cons in Hc as [<-|Hc]; [apply marks_bind, H; lia|].
  apply marks_skip. intros s a Hs. apply IH; [done|]. intros s' Hs'. apply H. lia.
Qed.

Lemma marks_later {A} (p : sync_prog A) sq sq' : sq <= sq' -> marks c o ss g sq p -> marks c o ss g sq' p.
Proof.
  intros Hle H. destruct p as [a|x k]; simpl in *; [done|]. destruct H as [H|H]; [by left|].
  right. intros s b Hs Ha Hb. apply H; [lia|by eapply answers_anti|done].
Qed.

(** The invalidation of a user reaches every connection the registry lists for them. *)
Lemma invalidation_marks (r : SessionRegistry) sq :
  0 < o -> c ∈ Registry_Conns r o -> g <= sq + 1 ->
  marks c o ss g sq (call_prog (CallInvalidate (Some r) o)).
Proof.
  intros Ho Hc Hg. apply marks_bind. unfold OwnerInvalidation. destruct (Z.leb_spec o 0); [lia|].
  right. intros s k Hs [_ Hk] _. cbn. apply marks_for_each; [done|]. intros s' Hs'.
  right. intros s2 b _ _ Hb. cbn in *. rewrite (Hb eq_refl), Z.eqb_refl. left. do 2 eexists.
  split; [done|]. lia.
Qed.

End marks.
(** ** The pool *)

(** The clock's sequence. *)
Notation seq_of s := (sequence (clock (sp_world s))).

Record pool_inv (n : Z) (s : sync_pool) : Prop := mkPoolInv {
  pi_world : world_inv n (sp_world s);
  pi_issued : forall cap, cap ∈ sp_issued s -> 0 <= cp_generation cap <= seq_of s;
  pi_within : forall cl p, (cl, p) ∈ sp_running s -> obeys within answers captured_within (seq_of s) p;
  pi_steady : forall cl p c o ss g, (cl, p) ∈ sp_running s -> same_binding c o ss cl -> seq_of s < g ->
    obeys (steady c o ss g) answers (fun _ _ => True) (seq_of s) p
}.

Lemma within_later sq sq' p :
  sq <= sq' -> obeys within answers captured_within sq p -> obeys within answers captured_within sq' p.
Proof.
  apply obeys_later; [apply within_mono|apply answers_anti|]. intros s s' [cap|] Hs H; simpl in *; [lia|done].
Qed.

Lemma steady_later c o ss g sq sq' (p : sync_prog (option DialogFilterCapture)) :
  sq <= sq' -> obeys (steady c o ss g) answers (fun _ _ => True) sq p ->
  obeys (steady c o ss g) answers (fun _ _ => True) sq' p.
Proof. apply obeys_later; [apply steady_mono|apply answers_anti|done]. Qed.

Lemma pool_init_inv : pool_inv 0 pool_init.
Proof.
  constructor; simpl.
  - constructor; simpl; try lia. intros c. unfold rec_at, conn_at. simpl. rewrite lookup_empty. simpl. lia.
  - intros cap ->%list_elem_of_singleton. simpl. lia.
  - intros cl p H. by apply elem_of_nil in H.
  - intros cl p c o ss g H. by apply elem_of_nil in H.
Qed.

Lemma pool_inv_weaken n m s : n <= m -> pool_inv n s -> pool_inv m s.
Proof. intros Hm []. constructor; try done. by eapply inv_weaken. Qed.

Lemma fetch_bound_ok n s cl :
  pool_inv n s -> call_ok (sp_issued s) cl = true -> fetch_bound (fun g => 0 <= g <= seq_of s) cl.
Proof.
  intros I Hok. destruct cl as [| | | |[c|] req cap| | | | |]; try done.
  apply bool_decide_eq_true in Hok. by apply (pi_issued _ _ I).
Qed.

Lemma begin_inv n s cl :
  pool_inv n s -> call_ok (sp_issued s) cl = true ->
  pool_inv n (mkPool (sp_world s) (sp_running s ++ [(cl, call_prog cl)]) (sp_issued s)).
Proof.
  intros I Hok. assert (Hb := fetch_bound_ok n s cl I Hok). assert (Hw := wi_clock _ _ (pi_world _ _ I)).
  constructor; simpl; try apply I.
  - intros cl' p [H|H]%elem_of_app; [by eapply I|]. apply list_elem_of_singleton in H as [= -> ->].
    apply call_within; [done|lia].
  - intros cl' p c o ss g [H|H]%elem_of_app Hs Hg; [by eapply I|].
    apply list_elem_of_singleton in H as [= -> ->]. apply call_steady; [done|].
    intros req cap ->. simpl in Hb. lia.
Qed.

(** A program taken one access further. *)
Lemma replaced {A} (l : list A) i x y z : l !! i = Some x -> z ∈ <[i := y]> l -> z = y \/ z ∈ l.
Proof.
  intros Hx Hz. apply list_elem_of_lookup in Hz as [j Hj].
  destruct (decide (i = j)) as [->|Hne].
  - rewrite list_lookup_insert_eq in Hj by (by eapply lookup_lt_Some). left. congruence.
  - rewrite list_lookup_insert_ne in Hj by done. right. by eapply list_elem_of_lookup_2.
Qed.

Lemma advance_inv n s i cl p :
  pool_inv n s -> 0 <= n -> n + 1 < 2 ^ 64 -> sp_running s !! i = Some (cl, p) ->
  pool_inv (n + 1) (advance s i cl p) /\ seq_of s <= seq_of (advance s i cl p).
Proof.
  intros I H0 Hn Hi. assert (Hin := list_elem_of_lookup_2 _ _ _ Hi). destruct p as [r|x k].
  { split; [|simpl; lia]. apply (pool_inv_weaken n); [lia|]. constructor; simpl; try apply I.
    intros cap [H|H]%elem_of_app; [|by apply I]. assert (Hr := pi_within _ _ I _ _ Hin). simpl in Hr.
    destruct r as [cap'|]; simpl in *; [|by apply elem_of_nil in H]. by apply list_elem_of_singleton in H as ->. }
  destruct (pi_within _ _ I _ _ Hin) as [Hx Hk].
  destruct (exec_inv n (sp_world s) x (pi_world _ _ I) H0 Hn Hx) as (I' & Hle & Ha). cbn [advance sp_world].
  split; [|done]. constructor; simpl; [done| | |].
  - intros cap Hc. apply (pi_issued _ _ I) in Hc. lia.
  - intros cl' p' H. destruct (replaced _ _ _ _ _ Hi H) as [[= -> ->]|H'].
    + by apply Hk.
    + eapply within_later; [exact Hle|]. by eapply I.
  - intros cl' p' c o ss g H Hs Hg. destruct (replaced _ _ _ _ _ Hi H) as [[= -> ->]|H'].
    + destruct (pi_steady _ _ I _ _ c o ss g Hin Hs) as [_ Hk']; [lia|]. by apply Hk'.
    + eapply steady_later; [exact Hle|]. eapply I; [done|done|lia].
Qed.

Lemma sync_step_inv n s e s' :
  pool_inv n s -> 0 <= n -> n + 1 < 2 ^ 64 -> sync_step s e = Some s' ->
  pool_inv (n + 1) s' /\ seq_of s <= seq_of s'.
Proof.
  intros I H0 Hn E. destruct e as [cl|i]; simpl in E.
  - destruct (call_ok _ cl) eqn:Hok; [|done]. injection E as <-. split; [|simpl; lia].
    apply (pool_inv_weaken n); [lia|]. by apply begin_inv.
  - destruct (sp_running s !! i) as [[cl p]|] eqn:Hi; [|done]. injection E as <-. by apply advance_inv.
Qed.

Lemma run_inv es : forall n s s',
  pool_inv n s -> 0 <= n -> n + len es < 2 ^ 64 -> sync_run s es = Some s' -> pool_inv (n + len es) s'.
Proof.
  induction es as [|e es IH]; intros n s s' I H0 Hn E; simpl in E.
  { simplify_eq. apply (pool_inv_weaken n); [unfold len; lia|done]. }
  rewrite len_cons in *. pose proof (len_nonneg es).
  destruct (sync_step s e) as [s1|] eqn:E1; simpl in E; [|done].
  destruct (sync_step_inv n s e s1 I H0 ltac:(lia) E1) as [I1 _].
  replace (n + (len es + 1)) with (n + 1 + len es) by lia. apply (IH _ s1); [done|lia|lia|done].
Qed.

(** ** The chase: an invalidation under way against everything else *)

Section chase.
Context (c o ss g : Z) (i : nat).

(** Connection [c] has not been covered up to [g], nobody is about to, and the [i]-th call
    has marked it or is on its way to. *)
Record chase (s : sync_pool) : Prop := mkChase {
  ch_behind : behind c o ss g (sp_world s);
  ch_steady : forall cl p, (cl, p) ∈ sp_running s ->
    obeys (steady c o ss g) answers (fun _ _ => True) (seq_of s) p;
  ch_mark : g <= r_generation (rec_at (sp_world s) c) \/
    exists cl p, sp_running s !! i = Some (cl, p) /\ marks c o ss g (seq_of s) p
}.

(** The calls that begin meanwhile work on [c] for its binding, and acknowledge on it only
    captures of [old]. *)
Definition meanwhile (old : list DialogFilterCapture) (e : sync_event) : Prop :=
  match e with Begin cl => same_binding c o ss cl /\ fetches_from c old cl | Advance _ => True end.

Lemma chase_begin s cl :
  chase s -> same_binding c o ss cl -> (forall req cap, cl = CallFetch (Some c) req cap -> cp_generation cap < g) ->
  chase (mkPool (sp_world s) (sp_running s ++ [(cl, call_prog cl)]) (sp_issued s)).
Proof.
  intros [B S M] Hb Hf. constructor; simpl; [done| |].
  - intros cl' p [H|H]%elem_of_app; [by eapply S|]. apply list_elem_of_singleton in H as [= -> ->].
    by apply call_steady.
  - destruct M as [M|(cl' & p & Hi & M)]; [by left|right]. exists cl', p. split; [|done].
    by apply lookup_app_l_Some.
Qed.

(** One access of the [j]-th call, seen from the mark. *)
Lemma chase_mark s j cl x k sq' :
  chase s -> sp_running s !! j = Some (cl, SDo x k) -> seq_of s <= sq' ->
  answers (seq_of s) sq' x (exec (sp_world s) x).1 ->
  r_generation (rec_at (sp_world s) c) <= r_generation (rec_at (exec (sp_world s) x).2 c) ->
  g <= r_generation (rec_at (exec (sp_world s) x).2 c) \/
  exists cl' p, <[j := (cl, k (exec (sp_world s) x).1)]> (sp_running s) !! i = Some (cl', p) /\
    marks c o ss g sq' p.
Proof.
  intros [B S M] Hj Hle Ha Hg. destruct M as [M|(cl' & p & Hi & M)]; [left; lia|].
  destruct (decide (j = i)) as [->|Hne].
  - rewrite Hj in Hi. injection Hi as <- <-. destruct M as [(gen & ep & -> & Hgen)|M].
    + left. assert (Hm := exec_mark c o ss g gen ep (sp_world s) B). lia.
    + right. exists cl, (k (exec (sp_world s) x).1). split.
      * apply list_lookup_insert_eq. by eapply lookup_lt_Some.
      * apply M; [done|done|]. destruct x; try done. intros ->. apply B.
  - right. exists cl', p. split; [by rewrite list_lookup_insert_ne|]. by eapply marks_later.
Qed.

Lemma chase_advance n s j cl p :
  pool_inv n s -> 0 <= n -> n + 1 < 2 ^ 64 -> chase s -> sp_running s !! j = Some (cl, p) ->
  chase (advance s j cl p).
Proof.
  intros I H0 Hn C Hj. assert (Hin := list_elem_of_lookup_2 _ _ _ Hj). destruct p as [r|x k].
  { by destruct C. }
  destruct (pi_within _ _ I _ _ Hin) as [Hx _]. destruct (ch_steady _ C _ _ Hin) as [Hs Hk].
  destruct (exec_inv n (sp_world s) x (pi_world _ _ I) H0 Hn Hx) as (_ & Hle & Ha).
  destruct (exec_behind c o ss g n (sp_world s) x (pi_world _ _ I) ltac:(lia) Hx Hs (ch_behind _ C)) as [B' Hg].
  constructor; cbn [advance sp_world sp_running]; [done| |by apply chase_mark].
  intros cl' p' H. destruct (replaced _ _ _ _ _ Hj H) as [[= -> ->]|H']; [by apply Hk|].
  eapply steady_later; [exact Hle|]. by eapply C.
Qed.

Lemma chase_run (old : list DialogFilterCapture) es : forall n s s',
  pool_inv n s -> 0 <= n -> n + len es < 2 ^ 64 -> (forall cap, cap ∈ old -> cp_generation cap < g) ->
  Forall (meanwhile old) es -> chase s -> sync_run s es = Some s' -> chase s'.
Proof.
  induction es as [|e es IH]; intros n s s' I H0 Hn Hold K C E; simpl in E; [by simplify_eq|].
  rewrite len_cons in Hn. pose proof (len_nonneg es). inversion_clear K as [|? ? K1 K2].
  destruct (sync_step s e) as [s1|] eqn:E1; simpl in E; [|done].
  destruct (sync_step_inv n s e s1 I H0 ltac:(lia) E1) as [I1 _].
  apply (IH (n + 1) s1); try done; try lia. destruct e as [cl|j]; simpl in E1, K1.
  - destruct (call_ok _ cl); [|done]. injection E1 as <-. apply chase_begin; [done|by apply K1|].
    intros req cap ->. apply Hold, K1. done.
  - destruct (sp_running s !! j) as [[cl p]|] eqn:Hj; [|done]. injection E1 as <-.
    apply (chase_advance n); try done. lia.
Qed.

(** Marked and not covered is pending, whatever epoch the observer read. *)
Lemma behind_pending w epoch :
  behind c o ss g w -> g <= r_generation (rec_at w c) ->
  exists gen cov first, DialogFilterRecoverySnapshot (rec_at w c) o ss epoch = Some (gen, cov, first, true).
Proof.
  intros (_ & B1 & B2 & B3) Hg. unfold DialogFilterRecoverySnapshot. rewrite B1, B2. simpl. do 3 eexists.
  do 2 f_equal. unfold uncovered, target. lia.
Qed.

End chase.

(** The [i]-th call has returned. *)
Definition returned (s : sync_pool) (i : nat) : Prop :=
  exists cl r, sp_running s !! i = Some (cl, SRet r).

(** The call is over, or works on [c] only for its binding. *)
Definition over_or_binds (c o ss : Z) (call : sync_call * sync_prog (option DialogFilterCapture)) : Prop :=
  match call.2 with SRet _ => True | SDo _ _ => same_binding c o ss call.1 end.

(** C31 (safety).  A committed folder invalidation is never lost to a fetch that was
    already running.  Goroutines make calls of the folder sync and interleave at every
    atomic access to the clock, the connections and the queue.  At any moment reached so
    ([s0]) let connection [c] be bound to user [o] and session [ss], with every call on it
    that is still running being for that binding, and let [OwnerInvalidation] for [o] begin,
    the registry listing [c] for [o].  Once that call has returned, [c] is pending for every
    observer, and stays so whatever is done meanwhile and after: acknowledgements of fetches
    whose capture was returned before the invalidation began, captures, differences,
    repairs, other invalidations, listener reconnects and sweeper turns, as long as [c]
    keeps its binding.  (No wrap-around: fewer than 2^64 steps.) *)
Theorem invalidation_survives_fetches (pre post : list sync_event) (c o ss : Z) (r : SessionRegistry)
    (s0 s1 : sync_pool) :
  sync_run pool_init pre = Some s0 ->
  sc_binding (conn_at (sp_world s0) c) = (o, ss) -> bound_to (rec_at (sp_world s0) c) o ss = true ->
  r_initialized (rec_at (sp_world s0) c) = true ->
  Forall (over_or_binds c o ss) (sp_running s0) ->
  0 < o -> c ∈ Registry_Conns r o ->
  Forall (meanwhile c o ss (sp_issued s0)) post ->
  len pre + len post + 1 < 2 ^ 64 ->
  sync_run s0 (Begin (CallInvalidate (Some r) o) :: post) = Some s1 ->
  returned s1 (length (sp_running s0)) ->
  forall epoch, exists gen cov first,
    DialogFilterRecoverySnapshot (rec_at (sp_world s1) c) o ss epoch = Some (gen, cov, first, true).
Proof.
  intros E0 Hb0 Hb1 Hb2 Hrun Ho Hc Hm Hlen E1 (cl & res & Hret) epoch.
  pose proof (len_nonneg pre); pose proof (len_nonneg post).
  pose proof (run_inv pre 0 _ _ pool_init_inv ltac:(lia) ltac:(lia) E0) as I0. rewrite Z.add_0_l in I0.
  set (g := seq_of s0 + 1). set (i := length (sp_running s0)).
  change (sync_run s0 (Begin (CallInvalidate (Some r) o) :: post)) with
    (sync_run (mkPool (sp_world s0) (sp_running s0 ++ [(CallInvalidate (Some r) o, call_prog (CallInvalidate (Some r) o))])
      (sp_issued s0)) post) in E1.
  set (s := mkPool (sp_world s0) (sp_running s0 ++ [(CallInvalidate (Some r) o, call_prog (CallInvalidate (Some r) o))])
    (sp_issued s0)) in E1.
  assert (I : pool_inv (len pre) s) by (by apply begin_inv).
  assert (C : chase c o ss g i s).
  { constructor.
    - split_and!; try done. simpl. destruct (wi_covered _ _ (pi_world _ _ I0) c). unfold g. lia.
    - intros cl' p [H1|H1]%elem_of_app.
      + rewrite Forall_forall in Hrun. specialize (Hrun _ H1). destruct p as [res'|x k]; [done|].
        apply (pi_steady _ _ I0 cl'); [done|exact Hrun|simpl; unfold g; lia].
      + apply list_elem_of_singleton in H1 as [= -> ->].
        by refine (call_steady c o ss g (CallInvalidate (Some r) o) _ _ _).
    - right. exists (CallInvalidate (Some r) o), (call_prog (CallInvalidate (Some r) o)). split.
      + simpl. apply list_lookup_middle. done.
      + apply invalidation_marks; [done|done|]. simpl. unfold g. lia. }
  assert (Hold : forall cap, cap ∈ sp_issued s0 -> cp_generation cap < g).
  { intros cap Hcap. apply (pi_issued _ _ I0) in Hcap. unfold g. lia. }
  destruct (chase_run c o ss g i (sp_issued s0) post (len pre) s s1 I) as [B _ M]; try done; try lia.
  apply (behind_pending c o ss g); [done|]. destruct M as [M|(cl' & p & Hi & M)]; [done|].
  unfold i in Hi. rewrite Hret in Hi. by injection Hi as <- <-.
Qed.

(** ** A run *)

Definition demo_req : sync_request := mkSyncReq 5 77 false false.

(** Connection 11 of user 5 and session 77 is bound and a fetch has its capture. *)
Definition demo_pre : list sync_event :=
  [Begin (CallRebind 11 5 77); Advance 0; Advance 0; Begin (CallCapture (Some 11) (Some demo_req));
   Advance 1; Advance 1; Advance 1; Advance 1].

Definition demo_cap : DialogFilterCapture := mkCapture 5 77 0 true false.

Definition demo_pool : sync_pool := default pool_init (sync_run pool_init demo_pre).

(** The invalidation draws its generation, the fetch is acknowledged between two of its
    accesses, the sweeper takes a turn and its claim is finished. *)
Definition demo_post : list sync_event :=
  [Advance 2; Begin (CallFetch (Some 11) (Some demo_req) demo_cap); Advance 3; Advance 2; Advance 2; Advance 3;
   Advance 3; Advance 3; Advance 3; Advance 2; Begin (CallSweep (mkScan 0 0) (Some demo_registry) (fun _ => true) 100);
   Advance 4; Advance 4; Advance 4; Advance 4; Begin (CallFinish 11 5 77 1); Advance 5; Advance 5; Advance 5;
   Advance 2].

Definition demo_after : sync_pool :=
  default pool_init (sync_run demo_pool (Begin (CallInvalidate (Some demo_registry) 5) :: demo_post)).

Lemma demo_pool_run : sync_run pool_init demo_pre = Some demo_pool.
Proof. vm_compute. reflexivity. Qed.

Lemma demo_after_run :
  sync_run demo_pool (Begin (CallInvalidate (Some demo_registry) 5) :: demo_post) = Some demo_after.
Proof. vm_compute. reflexivity. Qed.

Lemma invalidation_survives_fetches_witness :
  r_attempts (rec_at (sp_world demo_after) 11) = 1 /\
  exists gen cov first,
    DialogFilterRecoverySnapshot (rec_at (sp_world demo_after) 11) 5 77 0 = Some (gen, cov, first, true).
Proof.
  split; [reflexivity|].
  apply (invalidation_survives_fetches demo_pre demo_post 11 5 77 demo_registry demo_pool demo_after demo_pool_run
    eq_refl eq_refl eq_refl).
  - vm_compute. repeat constructor.
  - reflexivity.
  - by left.
  - repeat constructor.
  - reflexivity.
  - exact demo_after_run.
  - exists (CallInvalidate (Some demo_registry) 5), None. vm_compute. reflexivity.
Defined.
