(* ===== verification/UpdateBatch.v ===== *)
(** * Building a batch of updates

    [internal/api/updates.go]: the delivery path shared by [updates.getDifference]
    and the real-time push.  The per-owner event log of [internal/store/updatestate.go]
    is a list of events ordered by pts; the reads of the source are the functions
    [EventsWindow] (the query of [internal/store/queries/updatestate.sql]) and the
    message lookup. *)

From stdpp Require Import sorting.
From S2P Require Import Prelude.

(** ** sort.SearchInts: the binary search of the standard library *)

Fixpoint search_loop (fuel : nat) (a : list Z) (x : Z) (i j : nat) : nat :=
  match fuel with
  | O => i
  | S fuel' =>
      if (i <? j)%nat then
        let h := Nat.div2 (i + j) in
        if nth h a 0 <? x then search_loop fuel' a x (S h) j else search_loop fuel' a x i h
      else i
  end.

Definition SearchInts (a : list Z) (x : Z) : nat := search_loop (length a) a x 0 (length a).

(** ** Events and updates *)

Inductive EventType : Type :=
| EventNewMessage
| EventEdit
| EventDelete
| EventReadIn
| EventReadOut
| EventUnknown (n : Z).

Record Event : Type := mkEvent {
  ev_Pts : Z;
  ev_Type : EventType;
  ev_LocalID : Z
}.

(** The wire update of an event, less the hydrated content: its kind, the message it
    names and its pts. *)
Inductive tl_update : Type :=
| UpdateNewMessage (localID pts : Z)
| UpdateEditMessage (localID pts : Z)
| UpdateDeleteMessages (localID pts : Z)
| UpdateReadHistoryInbox (maxID pts : Z)
| UpdateReadHistoryOutbox (maxID pts : Z).

Record updateBatch : Type := mkBatch {
  b_ups : list tl_update;
  b_pts : list Z;
  b_state_Pts : Z;
  b_head : Z;
  b_more : bool
}.

Definition maxDiffEvents : Z := 500.

Definition above (b : updateBatch) (fromPts : Z) : list tl_update :=
  drop (SearchInts (b_pts b) (fromPts + 1)) (b_ups b).

(** [ORDER BY pts LIMIT lim] over the owner's log, itself in pts order. *)
Definition EventsWindow (log : list Event) (fromPts toPts : Z) (lim : nat) : list Event :=
  take lim (filter (fun ev => fromPts < ev_Pts ev <= toPts) log).

(** One event of [batchMessages]; [found] is the store's lookup. *)
Definition batch_message (found : Z -> bool) (msgs : gset Z) (ev : Event) : gset Z :=
  match ev_Type ev with
  | EventNewMessage | EventEdit | EventReadIn | EventReadOut =>
      if ev_LocalID ev =? 0 then msgs
      else if bool_decide (ev_LocalID ev ∈ msgs) then msgs
      else if found (ev_LocalID ev) then {[ev_LocalID ev]} ∪ msgs else msgs
  | _ => msgs
  end.

(** The local ids whose message row was found. *)
Definition batchMessages (found : Z -> bool) (events : list Event) : gset Z :=
  foldl (batch_message found) ∅ events.

Definition eventToUpdate (msgs : gset Z) (ev : Event) : option tl_update :=
  match ev_Type ev with
  | EventNewMessage =>
      if bool_decide (ev_LocalID ev ∈ msgs)
      then Some (UpdateNewMessage (ev_LocalID ev) (ev_Pts ev)) else None
  | EventEdit =>
      if bool_decide (ev_LocalID ev ∈ msgs)
      then Some (UpdateEditMessage (ev_LocalID ev) (ev_Pts ev)) else None
  | EventDelete => Some (UpdateDeleteMessages (ev_LocalID ev) (ev_Pts ev))
  | EventReadIn =>
      if (ev_LocalID ev =? 0) || negb (bool_decide (ev_LocalID ev ∈ msgs)) then None
      else Some (UpdateReadHistoryInbox (ev_LocalID ev) (ev_Pts ev))
  | EventReadOut =>
      if (ev_LocalID ev =? 0) || negb (bool_decide (ev_LocalID ev ∈ msgs)) then None
      else Some (UpdateReadHistoryOutbox (ev_LocalID ev) (ev_Pts ev))
  | EventUnknown _ => None
  end.

(** What the store answers one build: the state's pts, the log as it is when the
    events are read (later than the state), the message lookup, and whether every
    other read (media, users, chats) succeeds. *)
Record build_env : Type := mkBuildEnv {
  be_state : option Z;
  be_log : option (list Event);
  be_found : Z -> bool;
  be_ok : bool
}.

(** The loop that hydrates the events: [ups] and [pts] grow together. *)
Fixpoint hydrate (msgs : gset Z) (events : list Event) : list (Z * tl_update) :=
  match events with
  | [] => []
  | ev :: events' =>
      match eventToUpdate msgs ev with
      | Some up => (ev_Pts ev, up) :: hydrate msgs events'
      | None => hydrate msgs events'
      end
  end.

(** One event past the cap is read to detect truncation. *)
Definition window_read (log : list Event) (fromPts state : Z) : list Event :=
  EventsWindow log fromPts state (Z.to_nat (maxDiffEvents + 1)).

Definition window_more (log : list Event) (fromPts state : Z) : bool :=
  len (window_read log fromPts state) >? maxDiffEvents.

Definition window_events (log : list Event) (fromPts state : Z) : list Event :=
  if window_more log fromPts state
  then take (Z.to_nat maxDiffEvents) (window_read log fromPts state)
  else window_read log fromPts state.

(** When truncated, only the last included event's pts is advertised. *)
Definition advertised_pts (log : list Event) (fromPts state : Z) : Z :=
  match last (window_events log fromPts state) with
  | Some ev => if window_more log fromPts state then ev_Pts ev else state
  | None => state
  end.

Definition buildUpdates (e : build_env) (fromPts : Z) : option updateBatch :=
  match be_state e, be_log e with
  | Some state, Some log =>
      let events := window_events log fromPts state in
      if be_ok e then
        let rows := hydrate (batchMessages (be_found e) events) events in
        Some (mkBatch (snd <$> rows) (fst <$> rows) (advertised_pts log fromPts state) state
                (window_more log fromPts state))
      else None
  | _, _ => None
  end.

(** ** Binary search *)

(** The position that splits an ascending list at [x]. *)
Definition splits_at (a : list Z) (x : Z) (n : nat) : Prop :=
  (n <= length a)%nat /\
  (forall k v, (k < n)%nat -> a !! k = Some v -> v < x) /\
  (forall k v, (n <= k)%nat -> a !! k = Some v -> x <= v).

Lemma search_loop_splits a x fuel : forall i j,
  StronglySorted Z.lt a -> (i <= j <= length a)%nat -> (j - i <= fuel)%nat ->
  (forall k v, (k < i)%nat -> a !! k = Some v -> v < x) ->
  (forall k v, (j <= k)%nat -> a !! k = Some v -> x <= v) ->
  splits_at a x (search_loop fuel a x i j).
Proof.
  induction fuel as [|fuel IH]; intros i j Hs Hij Hf Hl Hr.
  { simpl. replace j with i in * by lia. by repeat split; try lia. }
  simpl. destruct (i <? j)%nat eqn:E; [|replace j with i in * by lia; by repeat split; try lia].
  apply Nat.ltb_lt in E. pose proof (Nat.div2_div (i + j)) as Hd.
  assert (Hh : (i <= Nat.div2 (i + j) < j)%nat).
  { rewrite Hd. split; [apply Nat.div_le_lower_bound; lia|apply Nat.Div0.div_lt_upper_bound; lia]. }
  clear Hd. set (h := Nat.div2 (i + j)) in *. clearbody h.
  destruct (lookup_lt_is_Some_2 a h ltac:(lia)) as [v Hv].
  rewrite (nth_lookup_Some _ _ 0 v Hv). destruct (v <? x) eqn:Ex; apply IH; try done; try lia.
  - intros k w Hk Hw. destruct (decide (k = h)) as [->|]; [simplify_eq; lia|].
    pose proof (sorted_lookup a k h w v Hs Hw Hv ltac:(lia)). lia.
  - intros k w Hk Hw. destruct (decide (k = h)) as [->|]; [simplify_eq; lia|].
    pose proof (sorted_lookup a h k v w Hs Hv Hw ltac:(lia)). lia.
Qed.

Lemma SearchInts_splits a x : StronglySorted Z.lt a -> splits_at a x (SearchInts a x).
Proof.
  intros Hs. apply search_loop_splits; [done|lia|lia|intros; lia|].
  intros k v Hk Hv. apply lookup_lt_Some in Hv. lia.
Qed.

Lemma splits_at_unique a x n m : splits_at a x n -> splits_at a x m -> n = m.
Proof.
  intros (N1 & N2 & N3) (M1 & M2 & M3). destruct (lt_eq_lt_dec n m) as [[H|H]|H]; [|done|].
  - destruct (lookup_lt_is_Some_2 a n ltac:(lia)) as [v Hv].
    specialize (M2 n v H Hv). specialize (N3 n v ltac:(lia) Hv). lia.
  - destruct (lookup_lt_is_Some_2 a m ltac:(lia)) as [v Hv].
    specialize (N2 m v H Hv). specialize (M3 m v ltac:(lia) Hv). lia.
Qed.

(** ** Slices of a batch are ranges of pts *)

(** Parallel slices in ascending order, nothing past the advertised pts. *)
Record batch_ok (b : updateBatch) : Prop := mkBatchOk {
  bo_length : length (b_ups b) = length (b_pts b);
  bo_sorted : StronglySorted Z.lt (b_pts b);
  bo_positive : Forall (fun p => 0 < p) (b_pts b);
  bo_bound : Forall (fun p => p <= b_state_Pts b) (b_pts b)
}.

(** The updates of the batch with pts in [(lo, hi]]. *)
Definition between (b : updateBatch) (lo hi : Z) : list tl_update :=
  snd <$> filter (fun pu : Z * tl_update => lo < pu.1 <= hi) (zip (b_pts b) (b_ups b)).

(** Where a range of values sits in an ascending list. *)
Lemma filter_range {A} (key : A -> Z) (l : list A) (lo hi : Z) (i j : nat) :
  splits_at (key <$> l) (lo + 1) i -> splits_at (key <$> l) (hi + 1) j -> (i <= j)%nat ->
  filter (fun x => lo < key x <= hi) l = take (j - i) (drop i l).
Proof.
  intros (I1 & I2 & I3) (J1 & J2 & J3) Hij. rewrite length_fmap in *.
  assert (Hk : forall k x, l !! k = Some x -> (key <$> l) !! k = Some (key x)).
  { intros k x Hx. by rewrite list_lookup_fmap, Hx. }
  rewrite <- (take_drop i l) at 1. rewrite <- (take_drop (j - i) (drop i l)) at 1.
  rewrite drop_drop, !filter_app, (filter_none _ (take i l)), (filter_all _ (take (j - i) _)),
    (filter_none _ (drop _ l)).
  - by rewrite app_nil_r.
  - apply Forall_lookup_2. intros k x Hx. rewrite lookup_drop in Hx.
    assert (G := fun h => J3 _ _ h (Hk _ _ Hx)). specialize (G ltac:(lia)). lia.
  - apply Forall_lookup_2. intros k x Hx. apply lookup_take_Some in Hx as [Hx Hlt].
    rewrite lookup_drop in Hx. assert (G := fun h => I3 _ _ h (Hk _ _ Hx)).
    assert (G' := fun h => J2 _ _ h (Hk _ _ Hx)). specialize (G ltac:(lia)).
    specialize (G' ltac:(lia)). lia.
  - apply Forall_lookup_2. intros k x Hx. apply lookup_take_Some in Hx as [Hx Hlt].
    specialize (I2 _ _ Hlt (Hk _ _ Hx)). lia.
Qed.

Lemma between_slice b lo hi i j :
  batch_ok b -> splits_at (b_pts b) (lo + 1) i -> splits_at (b_pts b) (hi + 1) j -> (i <= j)%nat ->
  between b lo hi = take (j - i) (drop i (b_ups b)).
Proof.
  intros [L _ _ _] Hi Hj Hij. unfold between.
  assert (E : fst <$> zip (b_pts b) (b_ups b) = b_pts b) by (apply fst_zip; lia).
  rewrite (filter_range fst _ lo hi i j) by (by rewrite ?E).
  rewrite fmap_take, fmap_drop, snd_zip by lia. done.
Qed.

(** [b.above(w)] is everything past [w]. *)
Lemma above_between b w : batch_ok b -> above b w = between b w (Z.max w (b_state_Pts b)).
Proof.
  intros B. pose proof (SearchInts_splits _ (w + 1) (bo_sorted _ B)) as Hi. unfold above.
  rewrite (between_slice b w _ _ (length (b_pts b)) B Hi); [|split_and!|apply Hi].
  - rewrite take_ge; [done|]. rewrite length_drop, (bo_length _ B). lia.
  - done.
  - intros k v _ Hv. pose proof (Forall_lookup_1 _ _ _ _ (bo_bound _ B) Hv). simpl in *. lia.
  - intros k v Hk Hv. apply lookup_lt_Some in Hv. lia.
Qed.

(** The prefix before position [target]: everything past [w] up to its predecessor. *)
Lemma prefix_between b w target p :
  batch_ok b -> (SearchInts (b_pts b) (w + 1) < target)%nat ->
  b_pts b !! (target - 1)%nat = Some p ->
  take (target - SearchInts (b_pts b) (w + 1)) (drop (SearchInts (b_pts b) (w + 1)) (b_ups b)) =
    between b w p /\ w < p.
Proof.
  intros B Ht Hp. pose proof (SearchInts_splits _ (w + 1) (bo_sorted _ B)) as Hi.
  split; [|destruct Hi as (_ & _ & Hi); specialize (Hi (target - 1)%nat p ltac:(lia) Hp); lia].
  symmetry. apply between_slice; [done|done| |lia].
  assert (Hl := lookup_lt_Some _ _ _ Hp). split_and!; [lia| |].
  - intros k v Hk Hv. destruct (decide (k = target - 1)%nat) as [->|]; [simplify_eq; lia|].
    pose proof (sorted_lookup _ _ _ _ _ (bo_sorted _ B) Hv Hp ltac:(lia)). lia.
  - intros k v Hk Hv. pose proof (sorted_lookup _ _ _ _ _ (bo_sorted _ B) Hp Hv ltac:(lia)). lia.
Qed.

(** The updates strictly between the event at [target] and position [stop]. *)
Lemma suffix_between b target stop q p :
  batch_ok b -> b_pts b !! target = Some q -> (S target < stop)%nat ->
  b_pts b !! (stop - 1)%nat = Some p ->
  take (stop - S target) (drop (S target) (b_ups b)) = between b q p /\ q < p.
Proof.
  intros B Hq Ht Hp.
  split; [|exact (sorted_lookup _ _ _ _ _ (bo_sorted _ B) Hq Hp ltac:(lia))].
  symmetry. assert (Hl := lookup_lt_Some _ _ _ Hp). apply between_slice; [done| | |lia].
  - split_and!; [lia| |]; intros k v Hk Hv.
    + destruct (decide (k = target)) as [->|]; [simplify_eq; lia|].
      pose proof (sorted_lookup _ _ _ _ _ (bo_sorted _ B) Hv Hq ltac:(lia)). lia.
    + pose proof (sorted_lookup _ _ _ _ _ (bo_sorted _ B) Hq Hv ltac:(lia)). lia.
  - split_and!; [lia| |]; intros k v Hk Hv.
    + destruct (decide (k = stop - 1)%nat) as [->|]; [simplify_eq; lia|].
      pose proof (sorted_lookup _ _ _ _ _ (bo_sorted _ B) Hv Hp ltac:(lia)). lia.
    + pose proof (sorted_lookup _ _ _ _ _ (bo_sorted _ B) Hp Hv ltac:(lia)). lia.
Qed.

(** ** What a build covers *)

(** The log of one owner: ascending, positive pts. *)
Definition log_ok (log : list Event) : Prop :=
  StronglySorted (fun a b => ev_Pts a < ev_Pts b) log /\ Forall (fun ev => 0 < ev_Pts ev) log.

(** The events with pts in [(lo, hi]]. *)
Definition events_in (log : list Event) (lo hi : Z) : list Event :=
  filter (fun ev => lo < ev_Pts ev <= hi) log.

Lemma log_ok_filter log (P : Event -> Prop) `{forall x, Decision (P x)} :
  log_ok log -> log_ok (filter P log).
Proof.
  intros [Hs Hp]. split.
  - induction Hs as [|x l Hs IH Hx]; [constructor|]. apply Forall_cons_1 in Hp as [Hp1 Hp2].
    destruct (decide (P x)); [rewrite filter_cons_True by done|by rewrite filter_cons_False; auto].
    constructor; [by apply IH|]. by apply Forall_filter_sub.
  - by apply Forall_filter_sub.
Qed.

Lemma log_ok_pts log : log_ok log -> StronglySorted Z.lt (ev_Pts <$> log).
Proof.
  intros [Hs _]. induction Hs as [|x l Hs IH Hx]; simpl; constructor; [done|].
  by apply Forall_fmap.
Qed.

(** Cutting a window at its [n]-th event is the window up to that event's pts. *)
Lemma window_cut log lo hi n ev :
  log_ok log -> events_in log lo hi !! n = Some ev ->
  take (S n) (events_in log lo hi) = events_in log lo (ev_Pts ev) /\ lo < ev_Pts ev <= hi.
Proof.
  intros L Hn. pose proof (log_ok_filter log (fun ev => lo < ev_Pts ev <= hi) L) as LF.
  fold (events_in log lo hi) in LF. pose proof (log_ok_pts _ LF) as Hs.
  assert (Hr : lo < ev_Pts ev <= hi).
  { apply list_elem_of_lookup_2, list_elem_of_filter in Hn. by destruct Hn. }
  split; [|done].
  assert (E : events_in log lo (ev_Pts ev) =
              filter (fun x => lo < ev_Pts x <= ev_Pts ev) (events_in log lo hi)).
  { unfold events_in. rewrite list_filter_filter. apply list_filter_iff. intros x. lia. }
  assert (Hl := lookup_lt_Some _ _ _ Hn).
  assert (Hv : (ev_Pts <$> events_in log lo hi) !! n = Some (ev_Pts ev))
    by (by rewrite list_lookup_fmap, Hn).
  rewrite E, (filter_range ev_Pts _ lo (ev_Pts ev) 0 (S n)); [by rewrite drop_0, Nat.sub_0_r| | |lia].
  - split_and!; [lia|intros; lia|]. intros k v _ Hk.
    apply list_elem_of_lookup_2, list_elem_of_fmap in Hk as (x & -> & Hx).
    apply list_elem_of_filter in Hx as [Hx _]. lia.
  - split_and!; [rewrite length_fmap; lia| |]; intros k v Hk Hkv.
    + destruct (decide (k = n)) as [->|]; [simplify_eq; lia|].
      pose proof (sorted_lookup _ _ _ _ _ Hs Hkv Hv ltac:(lia)). lia.
    + pose proof (sorted_lookup _ _ _ _ _ Hs Hv Hkv ltac:(lia)). lia.
Qed.

Lemma hydrate_pts_in msgs evs p : p ∈ fst <$> hydrate msgs evs -> p ∈ ev_Pts <$> evs.
Proof.
  induction evs as [|ev evs IH]; simpl; [done|].
  destruct (eventToUpdate msgs ev); simpl; set_solver.
Qed.

Lemma hydrate_sorted msgs evs :
  StronglySorted Z.lt (ev_Pts <$> evs) -> StronglySorted Z.lt (fst <$> hydrate msgs evs).
Proof.
  induction evs as [|ev evs IH]; simpl; intros Hs; [constructor|].
  apply StronglySorted_inv in Hs as [Hs Hx].
  destruct (eventToUpdate msgs ev); simpl; [|by apply IH]. constructor; [by apply IH|].
  rewrite Forall_forall in *. intros p Hp. apply Hx. by eapply hydrate_pts_in.
Qed.

(** The window a build read, cut at the cap, is the log up to the pts it advertises. *)
Lemma build_events log from state :
  log_ok log ->
  let adv := advertised_pts log from state in
  window_events log from state = events_in log from adv /\
  len (window_events log from state) <= maxDiffEvents /\
  (window_more log from state = false -> adv = state) /\
  (window_more log from state = true ->
   len (window_events log from state) = maxDiffEvents /\ from < adv < state).
Proof.
  intros L. cbv zeta. unfold advertised_pts, window_events, window_more, window_read, EventsWindow.
  fold (events_in log from state).
  set (F := events_in log from state). unfold maxDiffEvents, len.
  destruct (decide (length F <= 500)%nat) as [Hs|Hs].
  - rewrite (take_ge F) by (unfold maxDiffEvents; lia).
    replace (Z.of_nat (length F) >? 500) with false by lia.
    replace (match last F with Some _ => state | None => state end) with state by (by destruct (last F)).
    split_and!; [done|lia|done|done].
  - assert (Hl : length (take (Z.to_nat (500 + 1)) F) = 501%nat) by (rewrite length_take; lia).
    rewrite Hl. replace (Z.of_nat 501 >? 500) with true by lia.
    rewrite take_take. replace (Z.to_nat 500 `min` Z.to_nat (500 + 1))%nat with 500%nat by lia.
    destruct (lookup_lt_is_Some_2 F 499 ltac:(lia)) as [ev Hev].
    destruct (lookup_lt_is_Some_2 F 500 ltac:(lia)) as [ev' Hev'].
    destruct (window_cut log from state 499 ev L Hev) as [E Hr]. fold F in E.
    destruct (window_cut log from state 500 ev' L Hev') as [_ Hr'].
    assert (Hlast : last (take 500 F) = Some ev).
    { rewrite last_lookup, length_take. replace (500 `min` length F)%nat with 500%nat by lia.
      rewrite lookup_take_lt by lia. done. }
    rewrite Hlast. rewrite E.
    assert (Hlt : ev_Pts ev < ev_Pts ev').
    { apply (sorted_lookup (ev_Pts <$> F) 499 500); [|by rewrite list_lookup_fmap, ?Hev
        |by rewrite list_lookup_fmap, ?Hev'|lia].
      apply log_ok_pts. by apply log_ok_filter. }
    rewrite <- E, length_take. split_and!; [done|lia|done|]. intros _. split; lia.
Qed.

Lemma build_batch_ok e from b log :
  be_log e = Some log -> log_ok log -> buildUpdates e from = Some b -> batch_ok b.
Proof.
  intros El L E. unfold buildUpdates in E. rewrite El in E.
  destruct (be_state e) as [state|]; [|done].
  destruct (build_events log from state L) as (H1 & _).
  destruct (be_ok e); [|done]. injection E as <-. rewrite H1.
  set (adv := advertised_pts log from state) in *.
  pose proof (log_ok_filter log (fun ev => from < ev_Pts ev <= adv) L) as LF.
  fold (events_in log from adv) in LF.
  assert (Hin : forall p, p ∈ fst <$> hydrate (batchMessages (be_found e) (events_in log from adv))
    (events_in log from adv) -> 0 < p /\ p <= adv).
  { intros p Hp. apply hydrate_pts_in, list_elem_of_fmap in Hp as (ev & -> & Hev).
    destruct LF as [_ LF]. rewrite Forall_forall in LF. pose proof (LF _ Hev).
    apply list_elem_of_filter in Hev as [? _]. lia. }
  constructor; simpl.
  - by rewrite !length_fmap.
  - by apply hydrate_sorted, log_ok_pts.
  - apply Forall_forall. intros p Hp. by apply Hin.
  - apply Forall_forall. intros p Hp. by apply Hin.
Qed.

(** ** The specification: the updates a range of the log stands for *)

(** The update of an event on its own: a message event stands for an update exactly
    when its message row still exists. *)
Definition event_update (found : Z -> bool) (ev : Event) : option tl_update :=
  let present := negb (ev_LocalID ev =? 0) && found (ev_LocalID ev) in
  match ev_Type ev with
  | EventNewMessage => if present then Some (UpdateNewMessage (ev_LocalID ev) (ev_Pts ev)) else None
  | EventEdit => if present then Some (UpdateEditMessage (ev_LocalID ev) (ev_Pts ev)) else None
  | EventDelete => Some (UpdateDeleteMessages (ev_LocalID ev) (ev_Pts ev))
  | EventReadIn =>
      if present then Some (UpdateReadHistoryInbox (ev_LocalID ev) (ev_Pts ev)) else None
  | EventReadOut =>
      if present then Some (UpdateReadHistoryOutbox (ev_LocalID ev) (ev_Pts ev)) else None
  | EventUnknown _ => None
  end.

Definition updates_in (found : Z -> bool) (log : list Event) (lo hi : Z) : list tl_update :=
  flat_map (fun ev => match event_update found ev with Some u => [u] | None => [] end)
    (events_in log lo hi).

(** Events whose message row is looked up. *)
Definition names_message (ev : Event) : bool :=
  match ev_Type ev with
  | EventNewMessage | EventEdit | EventReadIn | EventReadOut => negb (ev_LocalID ev =? 0)
  | _ => false
  end.

Lemma batch_message_spec found msgs ev x :
  (forall y, y ∈ msgs -> found y = true) ->
  x ∈ batch_message found msgs ev <->
  x ∈ msgs \/ (found x = true /\ names_message ev = true /\ ev_LocalID ev = x).
Proof.
  intros Hf. unfold batch_message, names_message.
  assert (Hno : x ∈ msgs \/ (found x = true /\ false = true /\ ev_LocalID ev = x) <-> x ∈ msgs)
    by naive_solver.
  destruct (ev_Type ev); try (by rewrite Hno);
    (destruct (ev_LocalID ev =? 0); simpl; [by rewrite Hno|];
     case_bool_decide as D; [split; [by left|intros [?|(_ & _ & <-)]; done]|];
     destruct (found (ev_LocalID ev)) eqn:Ef;
       [rewrite elem_of_union, elem_of_singleton; split; [intros [->|?]; auto|intros [?|(_ & _ & <-)]; auto]
       |split; [by left|intros [?|(? & _ & <-)]; [done|congruence]]]).
Qed.

Lemma batchMessages_spec found evs x :
  x ∈ batchMessages found evs <->
  found x = true /\ exists ev, ev ∈ evs /\ names_message ev = true /\ ev_LocalID ev = x.
Proof.
  unfold batchMessages. revert x. induction evs as [|ev evs IH] using rev_ind; intros x.
  { split; [set_solver|]. intros (_ & ev & Hev & _). by apply elem_of_nil in Hev. }
  rewrite foldl_snoc, batch_message_spec, IH by (intros y Hy; by apply IH in Hy as [? _]).
  setoid_rewrite elem_of_app. setoid_rewrite list_elem_of_singleton. naive_solver.
Qed.

Lemma eventToUpdate_spec found evs ev :
  ev ∈ evs -> eventToUpdate (batchMessages found evs) ev = event_update found ev.
Proof.
  intros Hev.
  assert (Hm : names_message ev = true ->
    bool_decide (ev_LocalID ev ∈ batchMessages found evs) = found (ev_LocalID ev)).
  { intros Hn. case_bool_decide as D; rewrite batchMessages_spec in D; [by destruct D|].
    destruct (found (ev_LocalID ev)); [|done]. destruct D. by eauto. }
  assert (H0 : ev_LocalID ev = 0 -> bool_decide (ev_LocalID ev ∈ batchMessages found evs) = false).
  { intros H0. apply bool_decide_eq_false. rewrite batchMessages_spec, H0.
    intros (_ & ev' & _ & Hn & Hl). unfold names_message in Hn. rewrite Hl in Hn.
    by destruct (ev_Type ev'). }
  unfold eventToUpdate, event_update, names_message in *. cbv zeta.
  destruct (ev_Type ev); try done; destruct (ev_LocalID ev =? 0) eqn:E; simpl in *;
    try (rewrite H0 by lia); try (rewrite Hm by done); try done;
    by destruct (found (ev_LocalID ev)).
Qed.

Lemma hydrate_range msgs found evs lo hi :
  (forall ev, ev ∈ evs -> eventToUpdate msgs ev = event_update found ev) ->
  snd <$> filter (fun pu : Z * tl_update => lo < pu.1 <= hi) (hydrate msgs evs) =
  updates_in found evs lo hi.
Proof.
  unfold updates_in, events_in. induction evs as [|ev evs IH]; intros Hm; [done|].
  assert (IH' := IH (fun ev' H => Hm ev' (list_elem_of_further ev' ev evs H))).
  specialize (Hm ev (list_elem_of_here ev evs)). cbn [hydrate]. rewrite Hm.
  destruct (decide (lo < ev_Pts ev <= hi)) as [Hr|Hr].
  - rewrite (filter_cons_True _ ev) by done. simpl. destruct (event_update found ev); [|done].
    rewrite filter_cons_True by done. simpl. by f_equal.
  - rewrite (filter_cons_False _ ev) by done. destruct (event_update found ev); [|done].
    by rewrite filter_cons_False.
Qed.

(** Every range of a batch stands for the same range of the log. *)
Lemma build_between e from b log lo hi :
  be_log e = Some log -> log_ok log -> buildUpdates e from = Some b ->
  from <= lo -> hi <= b_state_Pts b ->
  between b lo hi = updates_in (be_found e) log lo hi.
Proof.
  intros El L E Hlo Hhi. unfold buildUpdates in E. rewrite El in E.
  destruct (be_state e) as [state|]; [|done].
  destruct (build_events log from state L) as (H1 & _).
  destruct (be_ok e); [|done]. injection E as <-. simpl in Hhi. unfold between. simpl.
  rewrite zip_fst_snd, (hydrate_range _ (be_found e)) by (intros; by apply eventToUpdate_spec).
  unfold updates_in, events_in. rewrite H1. f_equal. unfold events_in. rewrite list_filter_filter.
  apply list_filter_iff. intros x. lia.
Qed.

(** What a build returns, in terms of the log. *)
Lemma build_window (e : build_env) (from state : Z) (log : list Event) (b : updateBatch) :
  be_state e = Some state -> be_log e = Some log -> log_ok log ->
  buildUpdates e from = Some b ->
  b_ups b = updates_in (be_found e) log from (b_state_Pts b) /\
  length (b_pts b) = length (b_ups b) /\ StronglySorted Z.lt (b_pts b) /\
  b_head b = state /\ len (events_in log from (b_state_Pts b)) <= maxDiffEvents /\
  (if b_more b
   then from < b_state_Pts b < state /\ len (events_in log from (b_state_Pts b)) = maxDiffEvents
   else b_state_Pts b = state).
Proof.
  intros Es El L E. pose proof (build_batch_ok e from b log El L E) as B.
  pose proof (build_between e from b log from (b_state_Pts b) El L E ltac:(lia) ltac:(lia)) as HB.
  assert (Hups : b_ups b = between b from (b_state_Pts b)).
  { unfold between. rewrite filter_all; [by rewrite snd_zip by (rewrite (bo_length _ B); lia)|].
    apply Forall_forall. intros [p u] Hpu. apply elem_of_zip_l in Hpu. simpl.
    pose proof (bo_bound _ B) as H1. rewrite Forall_forall in H1. specialize (H1 p Hpu). simpl in H1.
    split; [|done]. unfold buildUpdates in E. rewrite Es, El in E.
    destruct (build_events log from state L) as (H2 & _). destruct (be_ok e); [|done].
    injection E as <-. simpl in Hpu. apply hydrate_pts_in, list_elem_of_fmap in Hpu as (ev & -> & Hev).
    rewrite H2 in Hev. apply list_elem_of_filter in Hev as [? _]. lia. }
  rewrite Hups at 1. split_and!; [done|by rewrite (bo_length _ B)|apply B| | |];
    unfold buildUpdates in E; rewrite Es, El in E; destruct (be_ok e); try done;
    injection E as <-; simpl; destruct (build_events log from state L) as (H1 & H2 & H3 & H4).
  - done.
  - by rewrite <- H1.
  - rewrite <- H1. destruct (window_more log from state); [by destruct (H4 eq_refl)|by apply H3].
Qed.

(** A batch never advertises a pts past an event it left out: what
    it carries is exactly what the log holds in [(fromPts, state.pts]], in order,
    one update per event whose message still exists; it covers everything up to the
    state read before the events unless it reached the cap of 500 events, and then
    it says so and advertises the last event it covers, whatever was appended to the
    log meanwhile. *)
Theorem buildUpdates_window (e : build_env) (from state : Z) (log : list Event) (b : updateBatch) :
  be_state e = Some state -> be_log e = Some log -> log_ok log ->
  buildUpdates e from = Some b ->
  b_ups b = updates_in (be_found e) log from (b_state_Pts b) /\
  length (b_pts b) = length (b_ups b) /\ StronglySorted Z.lt (b_pts b) /\
  b_head b = state /\ len (events_in log from (b_state_Pts b)) <= maxDiffEvents /\
  (if b_more b
   then from < b_state_Pts b < state /\ len (events_in log from (b_state_Pts b)) = maxDiffEvents
   else b_state_Pts b = state).
Proof. apply build_window. Qed.

(** ** A concrete log: a message, its edit, a vanished message, a deletion, and one
    event committed after the state was read *)

Definition demo_log : list Event :=
  [mkEvent 1 EventNewMessage 10; mkEvent 2 EventEdit 10; mkEvent 3 EventNewMessage 11;
   mkEvent 4 EventDelete 9; mkEvent 5 EventNewMessage 12].

Definition demo_env : build_env := mkBuildEnv (Some 4) (Some demo_log) (fun x => negb (x =? 11)) true.

Lemma demo_log_ok : log_ok demo_log.
Proof. split; [repeat constructor|repeat constructor]. Qed.

Lemma buildUpdates_window_witness :
  exists b, buildUpdates demo_env 1 = Some b /\
    b_ups b = [UpdateEditMessage 10 2; UpdateDeleteMessages 9 4] /\ b_state_Pts b = 4.
Proof.
  eexists. split; [vm_compute; reflexivity|].
  destruct (buildUpdates_window demo_env 1 4 demo_log _ eq_refl eq_refl demo_log_ok
    ltac:(vm_compute; reflexivity)) as (H & _ & _ & _ & _ & E).
  split; [rewrite H; vm_compute; reflexivity|exact E].
Defined.
