(* ===== verification/Delivery.v ===== *)
(** * Delivering a user's events to their connections

    [internal/api/notify.go]: [deliverConn] and what it calls, for one socket of a
    delivery window; the rounds over all sockets of a user are in [DeliveryRounds].

    A delivery goroutine shares its connection with the serve loop, with RPC replies
    and with other deliveries; between any two of its calls they may run.  The code
    is therefore a program over the calls it makes on the connection ([prog]), and
    [exec] runs it against the [Conn] of file [Conn] with a schedule of what the
    other goroutines do before each call.  Every connection the registry hands out
    is an [*mtproto.Conn], so the source's interface assertions all succeed.  The
    outcome counters and log lines are left out. *)

From stdpp Require Import sorting.
From S2P Require Import Prelude.
From S2P Require Import RpcTrace.
From S2P Require Import Recovery.
From S2P Require Import Budget.
From S2P Require Import Conn.
From S2P Require Import ConnPush.
From S2P Require Import UpdateBatch.

(** ** Programs over a connection *)

(** [(pushed, stale, err)] *)
Record push_answer : Set := mkAnswer {
  pa_pushed : bool;
  pa_stale : bool;
  pa_err : option push_error
}.

Inductive conn_call : Set -> Set :=
| CLastPushedPts : conn_call Z
| CPendingRPCUpdate (ow : Z) : conn_call (Z * bool)
| CPendingRPCUpdateReady (ow : Z) : conn_call bool
| CAuthKeyID : conn_call Z
| CMarkRPCUpdate (ow ak pts : Z) : conn_call bool
| CPushToAtWatermark (ow expectedPts : Z) (ups : list tl_update) (pts : Z) : conn_call push_answer
| CRemoveClose (ow : Z) : conn_call unit.

Inductive prog (A : Type) : Type :=
| Ret (a : A)
| Call (B : Set) (c : conn_call B) (k : B -> prog A).
Arguments Ret {A} a.
Arguments Call {A B} c k.

Fixpoint prog_bind {A B : Type} (p : prog A) (f : A -> prog B) : prog B :=
  match p with
  | Ret a => f a
  | Call c k => Call c (fun x => prog_bind (k x) f)
  end.

Notation "'do!' x ':=' c 'in' k" := (Call c (fun x => k))
  (at level 10, x pattern, c at level 100, k at level 200) : go_scope.
Notation "'run!' x ':=' p 'in' k" := (prog_bind p (fun x => k))
  (at level 10, x pattern, p at level 100, k at level 200) : go_scope.
Local Open Scope go_scope.

(** ** The source *)

Record SuppressedUpdate : Type := mkSuppressed {
  sup_Pts : Z;
  sup_AuthKeyID : Z
}.

Definition isRPCResultUpdate (up : tl_update) : bool :=
  match up with
  | UpdateNewMessage _ _ | UpdateEditMessage _ _ => true
  | _ => false
  end.

(** [handlePushFailure]: a failed write, not a failed encoding or a write that was
    never tried, takes the connection out of the registry and closes it. *)
Definition handlePushFailure (ow : Z) (err : option push_error) : prog unit :=
  match err with
  | None | Some ErrEncode | Some ErrNotAttempted => Ret tt
  | Some (ErrPush _) => Call (CRemoveClose ow) Ret
  end.

Definition pushOrdered (ow expectedPts : Z) (ups : list tl_update) (pts : Z) : prog push_answer :=
  do! a := CPushToAtWatermark ow expectedPts ups pts in
  run! _ := handlePushFailure ow (pa_err a) in
  Ret a.

(** The event at [pts] in the batch, with the position the search found. *)
Definition event_at (b : updateBatch) (pts : Z) : option (nat * tl_update) :=
  let target := SearchInts (b_pts b) pts in
  match b_pts b !! target, b_ups b !! target with
  | Some p, Some u => if p =? pts then Some (target, u) else None
  | _, _ => None
  end.

(** [MarkRPCUpdate] and the watermark after it. *)
Definition account (ow pts : Z) : prog (option Z) :=
  do! ak := CAuthKeyID in
  do! ok := CMarkRPCUpdate ow ak pts in
  if ok then do! w := CLastPushedPts in Ret (Some w) else Ret None.

Definition accountPendingRPCUpdate (ow : Z) (b : updateBatch) (watermark pendingPts : Z)
    : prog (option Z) :=
  if pendingPts <=? 0 then Ret None
  else if pendingPts <=? watermark then account ow pendingPts
  else if negb (pendingPts =? watermark + 1) then Ret None
  else
    let start := SearchInts (b_pts b) (watermark + 1) in
    match event_at b pendingPts with
    | Some (target, up) =>
        if (target <? start)%nat then Ret None
        else if negb (isRPCResultUpdate up) then Ret None
        else account ow pendingPts
    | None => Ret None
    end.

(** The updates at positions [[i, j)]. *)
Definition slice (b : updateBatch) (i j : nat) : list tl_update := take (j - i) (drop i (b_ups b)).

Definition deliverBeforePendingRPC (ow : Z) (b : updateBatch) (watermark : Z) (target : nat)
    : prog bool :=
  let start := SearchInts (b_pts b) (watermark + 1) in
  if (target <=? start)%nat then Ret false
  else
    let prefixPts := nth (target - 1) (b_pts b) 0 in
    run! a := pushOrdered ow watermark (slice b start target) prefixPts in
    Ret (pa_stale a).

(** The part of [deliverWithSuppression] after the prefix: the sender's event is
    accounted for and the suffix up to the next barrier is pushed. *)
Definition deliver_suffix (ow : Z) (b : updateBatch) (target : nat) (sup : SuppressedUpdate)
    : prog bool :=
  do! ok := CMarkRPCUpdate ow (sup_AuthKeyID sup) (sup_Pts sup) in
  if negb ok then Ret false
  else
    let suffixStart := S target in
    do! (nextPts, pending) := CPendingRPCUpdate ow in
    let suffixEnd :=
      if pending && (nextPts >? sup_Pts sup) then
        let nextTarget := SearchInts (b_pts b) nextPts in
        if (nextTarget <? length (b_ups b))%nat && (suffixStart <=? nextTarget)%nat
        then nextTarget else length (b_ups b)
      else length (b_ups b) in
    if (suffixEnd <=? suffixStart)%nat then Ret false
    else
      run! a := pushOrdered ow (sup_Pts sup) (slice b suffixStart suffixEnd)
                  (nth (suffixEnd - 1) (b_pts b) 0) in
      Ret (pa_stale a).

Definition deliverWithSuppression (ow : Z) (b : updateBatch) (watermark : Z) (start target : nat)
    (sup : SuppressedUpdate) : prog bool :=
  if (start <? target)%nat then
    run! a := pushOrdered ow watermark (slice b start target) (nth (target - 1) (b_pts b) 0) in
    if pa_stale a then Ret true
    else match pa_err a with
         | Some _ => Ret true
         | None => if pa_pushed a then deliver_suffix ow b target sup else Ret false
         end
  else deliver_suffix ow b target sup.

(** The head barrier is the event this notification names for this connection's key. *)
Definition keyed_pending (sup : SuppressedUpdate) (watermark pendingPts : Z) : prog bool :=
  if (pendingPts >? 0) && negb (sup_AuthKeyID sup =? 0) && (sup_Pts sup =? pendingPts) &&
     (sup_Pts sup >? watermark)
  then do! ak := CAuthKeyID in Ret (ak =? sup_AuthKeyID sup)
  else Ret false.

(** How the loop over the barriers ended: a stale prefix, or a break with the loop's
    variables; [None] when [fuel] ran out. *)
Inductive loop_exit : Type :=
| LoopRetry
| LoopBreak (watermark pendingPts : Z) (pending : bool).

Section pending_loop.
Context (ow : Z) (b : updateBatch) (sup : SuppressedUpdate).

(** The head barrier read again after progress; [ready] keeps its value when none is
    pending. *)
Definition reread (ready : bool) (k : Z -> bool -> bool -> prog (option loop_exit))
    : prog (option loop_exit) :=
  do! (pendingPts, pending) := CPendingRPCUpdate ow in
  if (pending : bool) then do! r := CPendingRPCUpdateReady ow in k pendingPts pending r
  else k pendingPts pending ready.

Fixpoint pending_loop (fuel : nat) (watermark pendingPts : Z) (pending ready : bool)
    : prog (option loop_exit) :=
  match fuel with
  | O => Ret None
  | S fuel' =>
      let break := Ret (Some (LoopBreak watermark pendingPts pending)) in
      if negb pending then break
      else
        run! keyed := keyed_pending sup watermark pendingPts in
        if keyed || negb ready || (pendingPts =? 0) || (pendingPts >? b_state_Pts b) then break
        else
          run! accounted := accountPendingRPCUpdate ow b watermark pendingPts in
          match accounted with
          | Some w' => reread ready (pending_loop fuel' w')
          | None =>
              if pendingPts >? watermark then
                match event_at b pendingPts with
                | Some (target, up) =>
                    if isRPCResultUpdate up then
                      run! stale := deliverBeforePendingRPC ow b watermark target in
                      if (stale : bool) then Ret (Some LoopRetry)
                      else
                        do! w' := CLastPushedPts in
                        if w' >? watermark then reread ready (pending_loop fuel' w') else break
                    else break
                | None => break
                end
              else break
          end
  end.
End pending_loop.

(** [ahead] and [retry] of a [deliveryConnResult]. *)
Inductive conn_result : Type :=
| ResultDone
| ResultAhead
| ResultRetry.

Definition ahead_if (cond : bool) : conn_result := if cond then ResultAhead else ResultDone.

(** [b.more && conn.LastPushedPts() < b.state.Pts] *)
Definition ahead_of (b : updateBatch) : prog (option conn_result) :=
  if b_more b then do! w := CLastPushedPts in Ret (Some (ahead_if (w <? b_state_Pts b)))
  else Ret (Some ResultDone).

(** [deliverConn] past its barriers: the suppressed split or the whole suffix. *)
Definition deliver_rest (ow : Z) (b : updateBatch) (sup : SuppressedUpdate) (watermark : Z)
    : prog (option conn_result) :=
  let ups := above b watermark in
  if len ups =? 0 then ahead_of b
  else
    let plain :=
      run! a := pushOrdered ow watermark ups (b_state_Pts b) in
      Ret (Some (if pa_stale a then ResultRetry else ResultDone)) in
    if negb (sup_AuthKeyID sup =? 0) && (sup_Pts sup >? watermark) then
      do! ak := CAuthKeyID in
      if ak =? sup_AuthKeyID sup then
        let start := SearchInts (b_pts b) (watermark + 1) in
        match event_at b (sup_Pts sup) with
        | Some (target, up) =>
            if (start <=? target)%nat && isRPCResultUpdate up then
              run! stale := deliverWithSuppression ow b watermark start target sup in
              if (stale : bool) then Ret (Some ResultRetry) else ahead_of b
            else plain
        | None => plain
        end
      else plain
    else plain.

Definition deliverConn (fuel : nat) (ow from : Z) (b : updateBatch) (sup : SuppressedUpdate)
    : prog (option conn_result) :=
  do! watermark := CLastPushedPts in
  if watermark <? from then Ret (Some ResultDone)
  else if watermark >=? b_state_Pts b then Ret (Some (ahead_if (b_more b)))
  else
    do! (pendingPts, pending) := CPendingRPCUpdate ow in
    if (pending : bool) then
      do! ready := CPendingRPCUpdateReady ow in
      run! exit := pending_loop ow b sup fuel watermark pendingPts pending ready in
      match exit with
      | None => Ret None
      | Some LoopRetry => Ret (Some ResultRetry)
      | Some (LoopBreak watermark pendingPts pending) =>
          run! keyed := if (pending : bool) then keyed_pending sup watermark pendingPts
                        else Ret false in
          if pending && negb keyed && ((pendingPts =? 0) || (pendingPts <=? b_state_Pts b))
          then Ret (Some ResultDone)
          else deliver_rest ow b sup watermark
      end
    else deliver_rest ow b sup watermark.

(** ** Running a program against a connection *)

(** An ordered push that was written: to whom, the watermark it moved, the updates it
    carried, and the head barrier of the connection at that moment. *)
Record delivered : Type := mkDelivered {
  d_user : Z;
  d_before : Z;
  d_after : Z;
  d_ups : list tl_update;
  d_head : Z * bool
}.

(** The interface the fan-out is written against (the source's [pushConn] and its
    extensions): a watermark, what other goroutines may do to the connection, and
    the answers to the calls, with the pushes written by each. *)
Class PushConn (C Op : Type) : Type := mkPushConn {
  pc_watermark : C -> Z;
  pc_others : C -> list Op -> C;
  pc_call : forall B : Set, conn_call B -> io -> C -> B * C * list delivered
}.
Arguments pc_call {C Op _ B} cc w c.

(** One turn: what other goroutines do to the connection before the next call, and
    what that call's write meets. *)
Record turn (Op : Type) : Type := mkTurn {
  t_others : list Op;
  t_io : io
}.
Arguments mkTurn {Op} _ _.
Arguments t_others {Op} _.
Arguments t_io {Op} _.

Definition quiet {Op : Type} : turn Op := mkTurn [] io_good.

Section exec.
Context {C Op : Type} {I : PushConn C Op}.

Fixpoint exec {A : Type} (p : prog A) (s : list (turn Op)) (c : C) : A * C * list delivered :=
  match p with
  | Ret a => (a, c, [])
  | Call cc k =>
      let t := default quiet (head s) in
      let '(x, c1, d) := pc_call cc (t_io t) (pc_others c (t_others t)) in
      let '(a, c2, ds) := exec (k x) (tail s) c1 in
      (a, c2, d ++ ds)
  end.

Lemma exec_bind {A B} (p : prog A) (f : A -> prog B) : forall s c,
  exists n, exec (prog_bind p f) s c =
    let '(a, c1, d1) := exec p s c in
    let '(r, c2, d2) := exec (f a) (drop n s) c1 in (r, c2, d1 ++ d2).
Proof.
  induction p as [a|D cc k IH]; intros s c; simpl.
  { exists 0%nat. rewrite drop_0. by destruct (exec (f a) s c) as [[r c2] d2]. }
  destruct (pc_call cc _ _) as [[x c1] d]. destruct (IH x (tail s) c1) as [n ->]. exists (S n).
  replace (drop (S n) s) with (drop n (tail s)) by (destruct s; simpl; by rewrite ?drop_nil).
  destruct (exec (k x) (tail s) c1) as [[a c2] d2].
  destruct (exec (f a) (drop n (tail s)) c2) as [[r c3] d3]. by rewrite app_assoc.
Qed.
End exec.

(** What the interface promises its client.  [P c ops] says that in state [c] the
    other goroutines behave, by leaving the connection with its user and pushing in
    order. *)
Class PushConnLaws (C Op : Type) {I : PushConn C Op} (P : C -> list Op -> Prop) : Prop := {
  (** only a push writes, and at most one frame *)
  pc_written : forall (B : Set) (cc : conn_call B) w c,
    let '(_, _, d) := pc_call cc w c in d = [] \/ exists d1, d = [d1];
  (** what is written is what was asked for, at the watermark the push expected *)
  pc_exact : forall (B : Set) (cc : conn_call B) w c,
    let '(_, _, d) := pc_call cc w c in
    Forall (fun d => match cc with
                     | CPushToAtWatermark ow x ups pts =>
                         x < pts -> 0 < pts ->
                         d_user d = ow /\ d_before d = x /\ d_after d = pts /\ d_ups d = ups
                     | _ => False
                     end) d;
  (** the watermark never goes back, and frames lie between its values *)
  pc_call_mono : forall (B : Set) (cc : conn_call B) w c,
    let '(_, c', d) := pc_call cc w c in
    pc_watermark c <= pc_watermark c' /\
    Forall (fun d => pc_watermark c <= d_before d /\ d_after d <= pc_watermark c') d /\
    (forall ops, P c ops -> P c' ops);
  pc_others_mono : forall c ops,
    P c ops -> pc_watermark c <= pc_watermark (pc_others c ops) /\
    (forall ops', P c ops' -> P (pc_others c ops) ops');
  (** reading the watermark changes nothing *)
  pc_read : forall w c, pc_call CLastPushedPts w c = (pc_watermark c, c, [])
}.

(** ** Every push a program may ask for satisfies [P] *)

Fixpoint pushes {A : Type} (P : Z -> Z -> list tl_update -> Z -> Prop) (p : prog A) : Prop :=
  match p with
  | Ret _ => True
  | Call cc k =>
      match cc with
      | CPushToAtWatermark ow x ups pts => P ow x ups pts
      | _ => True
      end /\ forall x, pushes P (k x)
  end.

Lemma pushes_bind {A B} P (p : prog A) (f : A -> prog B) :
  pushes P p -> (forall a, pushes P (f a)) -> pushes P (prog_bind p f).
Proof.
  induction p as [a|C cc k IH]; simpl; intros Hp Hf; [apply Hf|].
  destruct Hp as [H1 H2]. split; [done|]. intros x. by apply IH.
Qed.

(** A push of a batch: addressed to the user, and carrying exactly the updates
    between the watermark it expects and the pts it advertises. *)
Definition push_exact (ow : Z) (b : updateBatch) (ow' x : Z) (ups : list tl_update) (pts : Z) : Prop :=
  ow' = ow /\ x < pts /\ 0 < pts <= b_state_Pts b /\ ups = between b x pts.

Section exact.
Context (ow : Z) (b : updateBatch) (sup : SuppressedUpdate) (B : batch_ok b).
Local Abbreviation exact := (push_exact ow b).

Lemma batch_lookup k p : b_pts b !! k = Some p -> 0 < p <= b_state_Pts b.
Proof.
  intros Hk. split.
  - exact (Forall_lookup_1 _ _ _ _ (bo_positive _ B) Hk).
  - exact (Forall_lookup_1 _ _ _ _ (bo_bound _ B) Hk).
Qed.

Lemma pushOrdered_pushes x ups pts : exact ow x ups pts -> pushes exact (pushOrdered ow x ups pts).
Proof.
  intros H. split; [done|]. intros a. apply pushes_bind; [|done].
  unfold handlePushFailure. destruct (pa_err a) as [[]|]; simpl; by auto.
Qed.

Lemma account_pushes pts : pushes exact (account ow pts).
Proof. unfold account. simpl. split; [done|]. intros ak. split; [done|]. by intros []. Qed.

Lemma accountPending_pushes w p : pushes exact (accountPendingRPCUpdate ow b w p).
Proof.
  unfold accountPendingRPCUpdate. repeat case_match; try done; apply account_pushes.
Qed.

Lemma keyed_pushes w p : pushes exact (keyed_pending sup w p).
Proof. unfold keyed_pending. by case_match. Qed.

Lemma event_at_spec p target up :
  event_at b p = Some (target, up) -> b_pts b !! target = Some p /\ b_ups b !! target = Some up.
Proof.
  unfold event_at. destruct (b_pts b !! _) as [q|] eqn:E1; [|done].
  destruct (b_ups b !! _) as [u|] eqn:E2; [|done]. destruct (q =? p) eqn:E; [|done].
  intros [= <- <-]. apply Z.eqb_eq in E as ->. done.
Qed.

Lemma prefix_exact w target p :
  (SearchInts (b_pts b) (w + 1) < target)%nat -> b_pts b !! target = Some p ->
  exact ow w (slice b (SearchInts (b_pts b) (w + 1)) target) (nth (target - 1) (b_pts b) 0).
Proof.
  intros Ht Hp. apply lookup_lt_Some in Hp.
  destruct (lookup_lt_is_Some_2 (b_pts b) (target - 1) ltac:(lia)) as [q Hq].
  rewrite (nth_lookup_Some _ _ 0 q Hq).
  destruct (prefix_between b w target q B Ht Hq) as [E Hw].
  split_and!; [done|done|by apply (batch_lookup _ _ Hq)|by apply (batch_lookup _ _ Hq)|done].
Qed.

Lemma before_pushes w target p :
  b_pts b !! target = Some p -> pushes exact (deliverBeforePendingRPC ow b w target).
Proof.
  intros Hp. unfold deliverBeforePendingRPC. destruct (target <=? _)%nat eqn:E; [done|].
  apply Nat.leb_gt in E. apply pushes_bind; [|done].
  apply pushOrdered_pushes. by apply (prefix_exact w target p).
Qed.

Lemma reread_pushes ready k :
  (forall p pend r, pushes exact (k p pend r)) -> pushes exact (reread ow ready k).
Proof. intros H. split; [done|]. intros [p []]; simpl; auto. Qed.

Lemma pending_loop_pushes fuel : forall w p pend ready,
  pushes exact (pending_loop ow b sup fuel w p pend ready).
Proof.
  induction fuel as [|fuel IH]; intros w p pend ready; [done|]. cbn [pending_loop].
  destruct pend; [|done]. simpl negb. cbv iota. apply pushes_bind; [apply keyed_pushes|].
  intros keyed. destruct (keyed || _ || _ || _); [done|].
  apply pushes_bind; [apply accountPending_pushes|]. intros [w'|].
  { apply reread_pushes. intros. apply IH. }
  destruct (p >? w); [|done]. destruct (event_at b p) as [[target up]|] eqn:E; [|done].
  destruct (isRPCResultUpdate up); [|done]. apply event_at_spec in E as [E _].
  apply pushes_bind; [by apply (before_pushes w target p)|]. intros []; [done|].
  split; [done|]. intros w'. destruct (w' >? w); [|done]. apply reread_pushes. intros. apply IH.
Qed.

Lemma suffix_pushes target : b_pts b !! target = Some (sup_Pts sup) ->
  pushes exact (deliver_suffix ow b target sup).
Proof.
  intros Ht. unfold deliver_suffix. split; [done|]. intros []; [|done]. cbn [negb].
  split; [done|]. intros [nextPts pending].
  match goal with |- context [(?e <=? S target)%nat] => set (suffixEnd := e) end.
  assert (He : (suffixEnd <= length (b_pts b))%nat).
  { unfold suffixEnd. rewrite <- (bo_length _ B). destruct (pending && _); [|lia].
    destruct ((_ <? _)%nat && _) eqn:G; [|lia].
    apply andb_true_iff in G as [G _]. apply Nat.ltb_lt in G. lia. }
  clearbody suffixEnd. destruct (suffixEnd <=? S target)%nat eqn:E; [done|]. apply Nat.leb_gt in E.
  apply pushes_bind; [|done]. apply pushOrdered_pushes.
  destruct (lookup_lt_is_Some_2 (b_pts b) (suffixEnd - 1) ltac:(lia)) as [q Hq].
  rewrite (nth_lookup_Some _ _ 0 q Hq).
  destruct (suffix_between b target suffixEnd _ q B Ht E Hq) as [Hs Hlt].
  split_and!; [done|done|by apply (batch_lookup _ _ Hq)|by apply (batch_lookup _ _ Hq)|done].
Qed.

Lemma suppression_pushes w target :
  b_pts b !! target = Some (sup_Pts sup) ->
  pushes exact (deliverWithSuppression ow b w (SearchInts (b_pts b) (w + 1)) target sup).
Proof.
  intros Ht. unfold deliverWithSuppression.
  destruct (_ <? target)%nat eqn:E; [|by apply suffix_pushes]. apply Nat.ltb_lt in E.
  apply pushes_bind; [by apply pushOrdered_pushes, (prefix_exact w target (sup_Pts sup))|].
  intros a. destruct (pa_stale a); [done|]. destruct (pa_err a); [done|].
  destruct (pa_pushed a); [by apply suffix_pushes|done].
Qed.

Lemma ahead_of_pushes : pushes exact (ahead_of b).
Proof. unfold ahead_of. by case_match. Qed.

Lemma above_exact w : (len (above b w) =? 0) = false -> exact ow w (above b w) (b_state_Pts b).
Proof.
  intros Hn. rewrite (above_between b w B) in *.
  destruct (between b w (Z.max w (b_state_Pts b))) as [|u l] eqn:E; [done|].
  assert (Hu : u ∈ between b w (Z.max w (b_state_Pts b))) by (rewrite E; by left).
  apply list_elem_of_fmap in Hu as ([p u'] & -> & Hu). apply list_elem_of_filter in Hu as [Hr Hu].
  apply elem_of_zip_l, list_elem_of_lookup in Hu as [k Hk]. apply batch_lookup in Hk. simpl in Hr.
  rewrite <- E. replace (Z.max w (b_state_Pts b)) with (b_state_Pts b) by lia.
  split_and!; [done|lia|lia|lia|done].
Qed.

Lemma rest_pushes w : pushes exact (deliver_rest ow b sup w).
Proof.
  unfold deliver_rest. destruct (len (above b w) =? 0) eqn:En; [apply ahead_of_pushes|].
  assert (HP : pushes exact
    (prog_bind (pushOrdered ow w (above b w) (b_state_Pts b)) (fun a =>
      Ret (Some (if pa_stale a then ResultRetry else ResultDone))))).
  { apply pushes_bind; [|done]. by apply pushOrdered_pushes, above_exact. }
  destruct (negb _ && _); [|done]. split; [done|]. intros ak.
  destruct (ak =? _); [|done]. destruct (event_at b (sup_Pts sup)) as [[target up]|] eqn:E; [|done].
  destruct ((_ <=? target)%nat && _); [|done]. apply event_at_spec in E as [E _].
  apply pushes_bind; [by apply suppression_pushes|]. intros []; [done|apply ahead_of_pushes].
Qed.

Lemma deliverConn_pushes fuel from : pushes exact (deliverConn fuel ow from b sup).
Proof.
  split; [done|]. intros w. destruct (w <? from); [done|]. destruct (w >=? _); [done|].
  split; [done|]. intros [p pend]. destruct pend; [|apply rest_pushes].
  split; [done|]. intros ready. apply pushes_bind; [apply pending_loop_pushes|].
  intros [[|w' p' pend']|]; [done| |done].
  apply pushes_bind; [destruct pend'; [apply keyed_pushes|done]|]. intros keyed.
  destruct (pend' && _ && _); [done|apply rest_pushes].
Qed.
End exact.

(** ** What reaches the socket: any implementation of the interface *)

Section runs.
Context {C Op : Type} {I : PushConn C Op} (P : C -> list Op -> Prop) {HL : PushConnLaws C Op P}.

(** Whatever the schedule, what is written is what some push asked for at the
    watermark it found. *)
Lemma exec_pushes {A} (R : Z -> Z -> list tl_update -> Z -> Prop) (p : prog A) :
  (forall ow x ups pts, R ow x ups pts -> x < pts /\ 0 < pts) ->
  pushes R p -> forall s c,
  Forall (fun d => R (d_user d) (d_before d) (d_ups d) (d_after d)) (exec p s c).2.
Proof.
  intros HR. induction p as [a|B cc k IH]; intros Hp s c; [constructor|].
  destruct Hp as [H1 H2]. cbn [exec].
  pose proof (pc_exact B cc (t_io (default quiet (head s)))
    (pc_others c (t_others (default quiet (head s))))) as HE.
  destruct (pc_call cc _ _) as [[x c1] d].
  specialize (IH x (H2 x) (tail s) c1). destruct (exec (k x) (tail s) c1) as [[a c2] ds].
  simpl in *. apply Forall_app. split; [|done].
  eapply Forall_impl; [exact HE|]. intros d1 Hd. destruct cc as [|?|?| |ow' ak pts|ow' y ups pts|?];
    try done. simpl in Hd. destruct (HR _ _ _ _ H1) as [G1 G2].
  by destruct (Hd G1 G2) as (-> & -> & -> & ->).
Qed.

Lemma exec_monotone {A} (p : prog A) : forall s c,
  P c [] -> Forall (fun t => P c (t_others t)) s ->
  let '(_, c', ds) := exec p s c in
  pc_watermark c <= pc_watermark c' /\
  Forall (fun d => pc_watermark c <= d_before d /\ d_after d <= pc_watermark c') ds /\
  StronglySorted (fun d1 d2 => d_after d1 <= d_before d2) ds.
Proof.
  induction p as [a|B cc k IH]; intros s c H0 Hs; [simpl; split_and!; [lia|constructor|constructor]|].
  cbn [exec]. set (t := default quiet (head s)).
  assert (Ht : P c (t_others t)) by (destruct s; [done|by inversion_clear Hs]).
  assert (Hs' : Forall (fun t => P c (t_others t)) (tail s))
    by (destruct s; [constructor|by inversion_clear Hs]).
  destruct (pc_others_mono c (t_others t) Ht) as [R1 R2].
  pose proof (pc_call_mono B cc (t_io t) (pc_others c (t_others t))) as HP.
  pose proof (pc_written B cc (t_io t) (pc_others c (t_others t))) as HW.
  destruct (pc_call cc (t_io t) _) as [[x c1] d]. destruct HP as (P1 & P2 & P3).
  specialize (IH x (tail s) c1 (P3 _ (R2 _ H0))).
  assert (Hs1 : Forall (fun t => P c1 (t_others t)) (tail s)).
  { eapply Forall_impl; [exact Hs'|]. intros t' Ht'. auto. }
  specialize (IH Hs1). destruct (exec (k x) (tail s) c1) as [[a c2] ds]. destruct IH as (I1 & I2 & I3).
  split_and!; [lia| |].
  - apply Forall_app. split; (eapply Forall_impl; [eassumption|simpl; lia]).
  - destruct HW as [->|[d1 ->]]; [done|]. simpl. constructor; [done|].
    inversion_clear P2 as [|? ? [_ Hd1] _]. eapply Forall_impl; [exact I2|]. simpl. lia.
Qed.

(** The delivery of a batch over any such connection. *)
Lemma deliverConn_exec fuel user from b sup s c :
  batch_ok b -> P c [] -> Forall (fun t => P c (t_others t)) s ->
  let '(_, c', ds) := exec (deliverConn fuel user from b sup) s c in
  Forall (fun d => push_exact user b (d_user d) (d_before d) (d_ups d) (d_after d) /\
                   from <= d_before d) ds /\
  StronglySorted (fun d1 d2 => d_after d1 <= d_before d2) ds /\
  Forall (fun d => pc_watermark c <= d_before d /\ d_after d <= pc_watermark c') ds.
Proof.
  intros B H0 Hs.
  pose proof (exec_monotone (deliverConn fuel user from b sup) s c H0 Hs) as HM.
  assert (HX := exec_pushes (push_exact user b) _ ltac:(intros; unfold push_exact in *; lia)
    (deliverConn_pushes user b sup B fuel from) s c).
  assert (HF : Forall (fun d => from <= d_before d) (exec (deliverConn fuel user from b sup) s c).2).
  { unfold deliverConn. cbn [exec]. set (t := default quiet (head s)).
    assert (Ht : P c (t_others t)) by (destruct s; [done|by inversion_clear Hs]).
    assert (Hs' : Forall (fun t => P c (t_others t)) (tail s))
      by (destruct s; [constructor|by inversion_clear Hs]).
    destruct (pc_others_mono c (t_others t) Ht) as [R1 R2].
    rewrite pc_read. set (c0 := pc_others c (t_others t)) in *.
    destruct (pc_watermark c0 <? from) eqn:Ef; [constructor|].
    match goal with |- context [exec ?p ?s' c0] =>
      pose proof (exec_monotone p s' c0 (R2 _ H0)) as HM'
    end.
    assert (Hs1 : Forall (fun t => P c0 (t_others t)) (tail s)).
    { eapply Forall_impl; [exact Hs'|]. intros t' Ht'. auto. }
    specialize (HM' Hs1). destruct (exec _ (tail s) c0) as [[r c2] ds].
    destruct HM' as (_ & HM' & _). simpl. eapply Forall_impl; [exact HM'|]. simpl. lia. }
  destruct (exec _ s c) as [[r c'] ds]. destruct HM as (_ & M2 & M3). simpl in *.
  split; [|done]. apply Forall_forall. intros d Hd. rewrite Forall_forall in HX, HF. auto.
Qed.
End runs.

(** ** [*mtproto.Conn] implements the interface *)

Section conn_interface.
(** gotd's TL encoding of an envelope of updates. *)
Context (encode : list tl_update -> option (list Z)).

Definition perform (B : Set) (cc : conn_call B) (w : io) (c : Conn) : B * Conn * list delivered :=
  match cc in conn_call B return B * Conn * list delivered with
  | CLastPushedPts => (lastPushedPts c, c, [])
  | CPendingRPCUpdate ow => (PendingRPCUpdate c ow, c, [])
  | CPendingRPCUpdateReady ow => (PendingRPCUpdateReady c ow, c, [])
  | CAuthKeyID => (authKeyID c, c, [])
  | CMarkRPCUpdate ow ak pts => let '(ok, c') := MarkRPCUpdate c ow ak pts in (ok, c', [])
  | CPushToAtWatermark ow x ups pts =>
      let '(p, c') := PushToAtWatermark c w ow x (encode ups) pts in
      (mkAnswer (p_written p) (p_stale p) (p_err p), c',
       if p_written p
       then [mkDelivered ow (lastPushedPts c) (lastPushedPts c') ups (PendingRPCUpdate c ow)]
       else [])
  | CRemoveClose ow => (tt, set_closed c, [])
  end.

#[export] Instance Conn_PushConn : PushConn Conn conn_op :=
  mkPushConn Conn conn_op lastPushedPts (fun c ops => (conn_run c ops).1) perform.

(** The other goroutines leave the connection with its user and push in order. *)
Definition civil (o : Z) (t : turn conn_op) : Prop :=
  forallb (keeps_owner o) (t_others t) = true /\ forallb ordered (t_others t) = true.

Definition conn_civil (o : Z) (c : Conn) (ops : list conn_op) : Prop :=
  owner c = o /\ 0 <= lastPushedPts c /\ forallb (keeps_owner o) ops = true /\
  forallb ordered ops = true.

Lemma PushAt_written c w ow x enc pts :
  let '(p, c') := PushToAtWatermark c w ow x enc pts in
  p_written p = true -> x < pts -> 0 < pts ->
  owner c = ow /\ lastPushedPts c = x /\ lastPushedPts c' = pts.
Proof.
  unfold PushToAtWatermark. destruct enc as [bs|]; [|done]. destruct (io_ctx_err w); [done|].
  destruct (owner c =? ow) eqn:Eo; [|done]. destruct (lastPushedPts c =? x) eqn:E; [|done]. simpl.
  destruct (sendLocked _ _ _ _) as [f [e|]]; [done|]. intros _ Hx Hp.
  replace ((pts >? 0) && (pts >? lastPushedPts c)) with true by lia. simpl. lia.
Qed.

Lemma PushAt_monotone c w ow x enc pts :
  lastPushedPts c <= lastPushedPts (PushToAtWatermark c w ow x enc pts).2.
Proof. unfold PushToAtWatermark. repeat case_match; simpl; lia. Qed.

#[export] Instance Conn_PushConnLaws (o : Z) : PushConnLaws Conn conn_op (conn_civil o).
Proof.
  constructor.
  - intros B cc w c. destruct cc; simpl; repeat case_match; simplify_eq; eauto.
  - intros B cc w c. destruct cc as [|?|?| |ow' ak pts|ow' y ups pts|?]; simpl; try constructor.
    + destruct (MarkRPCUpdate _ _ _ _). constructor.
    + pose proof (PushAt_written c w ow' y (encode ups) pts) as HW.
      destruct (PushToAtWatermark _ _ _ _ _ _) as [pr c'].
      destruct (p_written pr); [|constructor]. constructor; [|constructor]. intros G1 G2. simpl.
      destruct (HW eq_refl G1 G2) as (_ & <- & <-). done.
  - intros B cc w c. destruct cc as [|?|?| |ow' ak pts|ow' y ups pts|?]; simpl;
      try (split_and!; [simpl; lia|constructor|done]).
    + pose proof (MarkUpdate_owner c ow' ak pts) as HO. pose proof (MarkUpdate_watermark c ow' ak pts) as HM.
      destruct (MarkRPCUpdate _ _ _ _) as [ok c']. simpl in *. split_and!; [done|constructor|].
      intros ops (H1 & H2 & H3). split_and!; [congruence|lia|apply H3|apply H3].
    + pose proof (PushAt_owner c w ow' y (encode ups) pts) as HO.
      pose proof (PushAt_monotone c w ow' y (encode ups) pts) as HM.
      destruct (PushToAtWatermark _ _ _ _ _ _) as [p c']. simpl in *.
      split_and!; [done| |intros ops (H1 & H2 & H3); split_and!; [congruence|lia|apply H3|apply H3]].
      destruct (p_written p); [|constructor]. constructor; [simpl; lia|constructor].
  - intros c ops (H1 & H2 & H3 & H4). simpl. subst o.
    pose proof (run_watermark ops c H2 H3 H4) as HR. pose proof (run_owner_keeps ops c H3) as HO.
    destruct (conn_run c ops) as [c' es]. destruct HR as [HR _]. simpl in *.
    split; [done|]. intros ops' (G1 & G2 & G3 & G4). split_and!; [done|lia|done|done].
  - done.
Qed.
End conn_interface.


(** ** A connection nobody else touches

    A weakest precondition for programs run without interference, over every
    outcome of the writes. *)

Section quiet_runs.
Context (encode : list tl_update -> option (list Z)).

Definition undisturbed (s : list (turn conn_op)) : Prop := Forall (fun t => t_others t = []) s.

Definition wp {A} (p : prog A) (c : Conn) (Q : A -> Conn -> list delivered -> Prop) : Prop :=
  forall s, undisturbed s -> let '(a, c', ds) := exec (I := Conn_PushConn encode) p s c in Q a c' ds.

Lemma wp_ret {A} (a : A) c (Q : A -> Conn -> list delivered -> Prop) :
  Q a c [] -> wp (Ret a) c Q.
Proof. by intros H s _. Qed.

Lemma wp_call {A} {B : Set} (cc : conn_call B) (k : B -> prog A) c Q :
  (forall w, let '(x, c1, d) := pc_call (PushConn := Conn_PushConn encode) cc w c in
             wp (k x) c1 (fun a c' ds => Q a c' (d ++ ds))) ->
  wp (Call cc k) c Q.
Proof.
  intros H s Hs. cbn [exec].
  change (pc_others c (t_others (default quiet (head s))))
    with (conn_run c (t_others (default quiet (head s)))).1.
  replace (conn_run c (t_others (default quiet (head s)))).1 with c
    by (destruct s as [|t s]; [done|inversion_clear Hs as [|? ? Ht _]; simpl; by rewrite Ht]).
  specialize (H (t_io (default quiet (head s)))). destruct (pc_call (PushConn := Conn_PushConn encode) cc _ c) as [[x c1] d].
  specialize (H (tail s)). destruct (exec (I := Conn_PushConn encode) (k x) (tail s) c1) as [[a c2] ds].
  apply H. destruct s; [constructor|by inversion_clear Hs].
Qed.

Lemma wp_bind {A B} (p : prog A) (f : A -> prog B) c Q :
  wp p c (fun a c1 d => wp (f a) c1 (fun r c2 ds => Q r c2 (d ++ ds))) -> wp (prog_bind p f) c Q.
Proof.
  intros H s Hs. destruct (exec_bind (I := Conn_PushConn encode) p f s c) as [n ->]. specialize (H s Hs).
  destruct (exec (I := Conn_PushConn encode) p s c) as [[a c1] d1]. specialize (H (drop n s) (Forall_drop _ _ _ Hs)).
  by destruct (exec (I := Conn_PushConn encode) (f a) (drop n s) c1) as [[r c2] d2].
Qed.

Lemma wp_mono {A} (p : prog A) c (Q R : A -> Conn -> list delivered -> Prop) :
  wp p c Q -> (forall a c' ds, Q a c' ds -> R a c' ds) -> wp p c R.
Proof. intros H HR s Hs. specialize (H s Hs). destruct (exec (I := Conn_PushConn encode) p s c) as [[a c'] ds]. auto. Qed.

(** ** The loop over the barriers ends *)

Context (ow : Z) (b : updateBatch) (sup : SuppressedUpdate) (B : batch_ok b).

Definition barrier_count (c : Conn) : nat :=
  (length (pendingRPCPts (barrier c)) + length (pendingRPCOverflow (barrier c)))%nat.

(** What is left to do: barriers, and events of the batch above the watermark. *)
Definition todo (c : Conn) : nat :=
  (barrier_count c + length (drop (SearchInts (b_pts b) (lastPushedPts c + 1)) (b_pts b)))%nat.

Lemma above_antitone w w' :
  w <= w' -> (SearchInts (b_pts b) (w + 1) <= SearchInts (b_pts b) (w' + 1))%nat.
Proof.
  intros Hw. destruct (SearchInts_splits _ (w + 1) (bo_sorted _ B)) as (I1 & I2 & I3).
  destruct (SearchInts_splits _ (w' + 1) (bo_sorted _ B)) as (J1 & J2 & J3).
  destruct (decide (SearchInts (b_pts b) (w' + 1) < SearchInts (b_pts b) (w + 1))%nat) as [H|]; [|lia].
  destruct (lookup_lt_is_Some_2 (b_pts b) (SearchInts (b_pts b) (w' + 1)) ltac:(lia)) as [v Hv].
  specialize (I2 _ _ H Hv). specialize (J3 _ _ (Nat.le_refl _) Hv). lia.
Qed.

Lemma mark_shrinks n c ak pts :
  conn_wf n c -> PendingRPCUpdate c ow = (pts, true) -> 0 < pts ->
  let '(ok, c') := MarkRPCUpdate c ow ak pts in
  conn_wf n c' /\ lastPushedPts c <= lastPushedPts c' /\
  (ok = true -> (barrier_count c' < barrier_count c)%nat) /\ (ok = false -> c' = c).
Proof.
  intros W HP Hp. pose proof (wf_MarkUpdate n c ow ak pts W) as W'.
  pose proof (MarkUpdate_watermark c ow ak pts) as HM.
  cut ((MarkRPCUpdate c ow ak pts).1 = true ->
       (barrier_count (MarkRPCUpdate c ow ak pts).2 < barrier_count c)%nat).
  { intros HC. cut ((MarkRPCUpdate c ow ak pts).1 = false -> (MarkRPCUpdate c ow ak pts).2 = c).
    { intros HF. destruct (MarkRPCUpdate c ow ak pts) as [ok c']. done. }
    unfold MarkRPCUpdate, markRPCUpdateLocked. cbv zeta. by repeat case_match. }
  clear W' HM. unfold MarkRPCUpdate, markRPCUpdateLocked. cbv zeta.
  destruct ((ak =? 0) || _); [done|]. destruct (bound_conn c ow ak) eqn:Bc; [|done]. simpl.
  unfold PendingRPCUpdate in HP. unfold barrier_count.
  destruct (advance_core c pts) as [Ea _].
  destruct (pendingRPCPts (barrier c)) as [|p l] eqn:Ep.
  - rewrite andb_false_r in HP. replace (owner c =? ow) with true in HP by (unfold bound_conn in Bc; lia).
    destruct (pendingRPCOverflow (barrier c)) as [|e o] eqn:Eo; simplify_eq; [lia|].
    replace (oe_pts e =? 0) with false by lia. rewrite Z.eqb_refl. simpl. rewrite Ep, Eo. simpl. lia.
  - replace (pendingRPCOwner (barrier c) =? ow) with true in HP
      by (rewrite (wf_owner _ _ W) by (by rewrite Ep); unfold bound_conn in Bc; lia).
    replace (len (p :: l) >? 0) with true in HP by (rewrite len_cons; pose proof (len_nonneg l); lia).
    simpl in HP. simplify_eq. replace (pts =? 0) with false by lia. rewrite Z.eqb_refl. simpl.
    unfold removePendingRPCAtLocked. rewrite Ep. simpl. destruct (len l =? 0) eqn:El; simpl; lia.
Qed.

Lemma todo_barrier c c' :
  (barrier_count c' < barrier_count c)%nat -> lastPushedPts c <= lastPushedPts c' ->
  (todo c' < todo c)%nat.
Proof.
  intros H Hw. unfold todo. rewrite !length_drop. pose proof (above_antitone _ _ Hw). lia.
Qed.

Lemma todo_watermark c c' k :
  barrier c' = barrier c -> lastPushedPts c < lastPushedPts c' ->
  b_pts b !! k = Some (lastPushedPts c') -> (todo c' < todo c)%nat.
Proof.
  intros Hb Hw Hk. unfold todo, barrier_count. rewrite Hb, !length_drop.
  destruct (SearchInts_splits _ (lastPushedPts c + 1) (bo_sorted _ B)) as (I1 & I2 & I3).
  destruct (SearchInts_splits _ (lastPushedPts c' + 1) (bo_sorted _ B)) as (J1 & J2 & J3).
  assert (Hl := lookup_lt_Some _ _ _ Hk).
  assert (SearchInts (b_pts b) (lastPushedPts c + 1) <= k)%nat.
  { destruct (decide (k < SearchInts (b_pts b) (lastPushedPts c + 1))%nat) as [H|]; [|lia].
    specialize (I2 _ _ H Hk). lia. }
  assert (k < SearchInts (b_pts b) (lastPushedPts c' + 1))%nat; [|lia].
  destruct (decide (SearchInts (b_pts b) (lastPushedPts c' + 1) <= k)%nat) as [H'|]; [|lia].
  specialize (J3 _ _ H' Hk). lia.
Qed.

Lemma wp_keyed c w p (Q : bool -> Conn -> list delivered -> Prop) :
  (forall k, Q k c []) -> wp (keyed_pending sup w p) c Q.
Proof.
  intros H. unfold keyed_pending. destruct (_ && _ && _ && _); [|by apply wp_ret].
  apply wp_call. intros io. simpl. by apply wp_ret.
Qed.

Lemma wp_account n c p (Q : option Z -> Conn -> list delivered -> Prop) :
  conn_wf n c -> PendingRPCUpdate c ow = (p, true) -> 0 < p ->
  (forall c', conn_wf n c' -> (todo c' < todo c)%nat -> Q (Some (lastPushedPts c')) c' []) ->
  Q None c [] -> wp (account ow p) c Q.
Proof.
  intros W HP Hp HS HN. unfold account. apply wp_call. intros w1. simpl. apply wp_call. intros w2.
  simpl. pose proof (mark_shrinks n c (authKeyID c) p W HP Hp) as HM.
  destruct (MarkRPCUpdate _ _ _ _) as [[] c']; destruct HM as (W' & Hw & Ht & Hf).
  - apply wp_call. intros w3. simpl. apply wp_ret. apply HS; [done|]. apply todo_barrier; auto.
  - apply wp_ret. rewrite Hf by done. done.
Qed.

Lemma wp_accountPending n c p (Q : option Z -> Conn -> list delivered -> Prop) :
  conn_wf n c -> PendingRPCUpdate c ow = (p, true) ->
  (forall c', conn_wf n c' -> (todo c' < todo c)%nat -> Q (Some (lastPushedPts c')) c' []) ->
  Q None c [] -> wp (accountPendingRPCUpdate ow b (lastPushedPts c) p) c Q.
Proof.
  intros W HP HS HN. unfold accountPendingRPCUpdate.
  destruct (p <=? 0) eqn:Ep; [by apply wp_ret|]. assert (0 < p) by lia.
  destruct (p <=? lastPushedPts c); [by apply (wp_account n)|].
  destruct (negb _); [by apply wp_ret|].
  destruct (event_at b p) as [[target up]|]; [|by apply wp_ret].
  destruct (target <? _)%nat; [by apply wp_ret|].
  destruct (negb _); [by apply wp_ret|]. by apply (wp_account n).
Qed.

(** A push leaves the barriers alone; the watermark stays or becomes the pts. *)
Lemma wp_pushOrdered n c x ups pts (Q : push_answer -> Conn -> list delivered -> Prop) :
  conn_wf n c ->
  (forall a c' d, conn_wf n c' -> barrier c' = barrier c ->
     lastPushedPts c' = lastPushedPts c \/ lastPushedPts c' = pts -> Q a c' d) ->
  wp (pushOrdered ow x ups pts) c Q.
Proof.
  intros W HQ. unfold pushOrdered. apply wp_call. intros w. simpl.
  pose proof (wf_PushAt n c w ow x (encode ups) pts W) as W'.
  assert (HB : barrier (PushToAtWatermark c w ow x (encode ups) pts).2 = barrier c /\
    (lastPushedPts (PushToAtWatermark c w ow x (encode ups) pts).2 = lastPushedPts c \/
     lastPushedPts (PushToAtWatermark c w ow x (encode ups) pts).2 = pts)).
  { unfold PushToAtWatermark. repeat case_match; simpl; auto. }
  destruct (PushToAtWatermark _ _ _ _ _ _) as [p c']. simpl in *. destruct HB as [Hb Hw].
  apply wp_bind. unfold handlePushFailure. simpl.
  destruct (p_err p) as [[]|]; try (apply wp_ret, wp_ret; by apply HQ).
  apply wp_call. intros w'. simpl. apply wp_ret, wp_ret.
  apply HQ; [by apply (wf_same_core _ c')|done|done].
Qed.

Lemma wp_before n c target p (Q : bool -> Conn -> list delivered -> Prop) :
  conn_wf n c -> b_pts b !! target = Some p ->
  (forall r c' d, conn_wf n c' -> barrier c' = barrier c ->
     lastPushedPts c < lastPushedPts c' -> (todo c' < todo c)%nat -> Q r c' d) ->
  (forall r c' d, conn_wf n c' -> lastPushedPts c' <= lastPushedPts c -> Q r c' d) ->
  wp (deliverBeforePendingRPC ow b (lastPushedPts c) target) c Q.
Proof.
  intros W Hp HS HN. unfold deliverBeforePendingRPC.
  destruct (target <=? _)%nat eqn:E; [apply wp_ret, HN; [done|lia]|]. apply Nat.leb_gt in E.
  apply lookup_lt_Some in Hp.
  destruct (lookup_lt_is_Some_2 (b_pts b) (target - 1) ltac:(lia)) as [q Hq].
  rewrite (nth_lookup_Some _ _ 0 q Hq). apply wp_bind, (wp_pushOrdered n); [done|].
  intros a c' d W' Hb Hw. apply wp_ret.
  destruct (decide (lastPushedPts c < lastPushedPts c')) as [Hlt|Hge]; [|apply HN; [done|lia]].
  apply HS; [done|done|done|]. destruct Hw as [Hw|Hw]; [lia|].
  apply (todo_watermark c c' (target - 1)); [done|done|by rewrite Hw].
Qed.

Lemma wp_loop fuel : forall n c p pend ready,
  conn_wf n c -> PendingRPCUpdate c ow = (p, pend) -> (todo c < fuel)%nat ->
  wp (pending_loop ow b sup fuel (lastPushedPts c) p pend ready) c
    (fun r c' _ => r <> None /\ conn_wf n c').
Proof.
  induction fuel as [|fuel IH]; intros n c p pend ready W HP Hf; [lia|]. cbn [pending_loop].
  destruct pend; [|by apply wp_ret]. cbn [negb].
  assert (HR : forall c', conn_wf n c' -> (todo c' < todo c)%nat ->
    wp (reread ow ready (pending_loop ow b sup fuel (lastPushedPts c'))) c'
      (fun r c' _ => r <> None /\ conn_wf n c')).
  { intros c' W' Ht. unfold reread. apply wp_call. intros w. simpl.
    destruct (PendingRPCUpdate c' ow) as [p' []] eqn:E'.
    - apply wp_call. intros w'. simpl. apply (IH n c'); [done|done|lia].
    - apply (IH n c'); [done|done|lia]. }
  apply wp_bind, wp_keyed. intros keyed. destruct (keyed || _ || _ || _); [by apply wp_ret|].
  apply wp_bind, (wp_accountPending n); [done|done| |].
  { intros c' W' Ht. by apply HR. }
  destruct (p >? lastPushedPts c); [|by apply wp_ret].
  destruct (event_at b p) as [[target up]|] eqn:E; [|by apply wp_ret].
  destruct (isRPCResultUpdate up); [|by apply wp_ret]. apply event_at_spec in E as [E _].
  apply wp_bind, (wp_before n c target p); [done|done| |].
  - intros [] c' d W' Hb Hlt Ht; [by apply wp_ret|]. apply wp_call. intros w. simpl.
    replace (lastPushedPts c' >? lastPushedPts c) with true by lia. by apply HR.
  - intros [] c' d W' Hle; [by apply wp_ret|]. apply wp_call. intros w. simpl.
    replace (lastPushedPts c' >? lastPushedPts c) with false by lia. by apply wp_ret.
Qed.
End quiet_runs.

(** Every value a program may return satisfies [P]. *)
Fixpoint leaves {A : Type} (P : A -> Prop) (p : prog A) : Prop :=
  match p with
  | Ret a => P a
  | Call cc k => forall x, leaves P (k x)
  end.

Lemma leaves_bind {A B} (P : B -> Prop) (p : prog A) (f : A -> prog B) :
  (forall a, leaves P (f a)) -> leaves P (prog_bind p f).
Proof. intros Hf. induction p as [a|C cc k IH]; simpl; [apply Hf|apply IH]. Qed.

Lemma wp_leaves encode {A} (P : A -> Prop) (p : prog A) :
  leaves P p -> forall c, wp encode p c (fun a _ _ => P a).
Proof.
  induction p as [a|C cc k IH]; intros Hp c; [by apply wp_ret|].
  apply wp_call. intros w. destruct (pc_call (PushConn := Conn_PushConn encode) cc w c) as [[x c1] d]. by apply IH.
Qed.

Lemma ahead_leaves b : leaves (fun r => r <> None) (ahead_of b).
Proof. unfold ahead_of. by case_match. Qed.

Lemma rest_leaves ow b sup w : leaves (fun r => r <> None) (deliver_rest ow b sup w).
Proof.
  assert (HP : forall ups, leaves (fun r : option conn_result => r <> None)
    (prog_bind (pushOrdered ow w ups (b_state_Pts b)) (fun a =>
       Ret (Some (if pa_stale a then ResultRetry else ResultDone))))).
  { intros ups. by apply leaves_bind. }
  unfold deliver_rest. destruct (len _ =? 0); [apply ahead_leaves|].
  destruct (negb _ && _); [|apply HP]. intros ak. destruct (ak =? _); [|apply HP].
  destruct (event_at b (sup_Pts sup)) as [[target up]|]; [|apply HP].
  destruct (_ && _); [|apply HP]. apply leaves_bind. intros []; [done|apply ahead_leaves].
Qed.

(** Every barrier and every event of a full batch, and one iteration to stop. *)
Definition delivery_fuel : nat := 629.

Lemma todo_bound n e from b log c :
  be_log e = Some log -> log_ok log -> buildUpdates e from = Some b -> conn_wf n c ->
  (todo b c < delivery_fuel)%nat.
Proof.
  intros El L E W. pose proof (wf_regular _ _ W) as H1. pose proof (wf_overflow _ _ W) as H2.
  assert (H3 : (length (b_pts b) <= 500)%nat).
  { unfold buildUpdates in E. rewrite El in E. destruct (be_state e) as [state|]; [|done].
    destruct (build_events log from state L) as (_ & H & _). destruct (be_ok e); [|done].
    injection E as <-. simpl. rewrite length_fmap. unfold maxDiffEvents, len in H.
    assert (Hh : forall msgs evs, (length (hydrate msgs evs) <= length evs)%nat).
    { intros msgs evs. induction evs as [|ev evs IH]; simpl; [lia|].
      destruct (eventToUpdate msgs ev); simpl; lia. }
    specialize (Hh (batchMessages (be_found e) (window_events log from state))
      (window_events log from state)). lia. }
  unfold todo, barrier_count, delivery_fuel, maxPendingRPCOverflowUpdates, maxPendingRPCUpdates, len in *.
  rewrite length_drop. lia.
Qed.

(** Delivering one batch to one socket always ends: on a
    well-formed connection that nobody else touches meanwhile, whatever its writes
    meet, the loop over the sender barriers runs at most once per barrier and per
    event of the batch, so 629 iterations, 64 + 64 barriers and 500 events and the
    last look, are enough for every batch the store can produce. *)
Theorem deliverConn_returns (encode : list tl_update -> option (list Z)) (n user from : Z)
    (e : build_env) (log : list Event) (b : updateBatch) (sup : SuppressedUpdate)
    (s : list (turn conn_op)) (c : Conn) :
  be_log e = Some log -> log_ok log -> buildUpdates e from = Some b ->
  conn_wf n c -> undisturbed s ->
  exists r c' ds, exec (I := Conn_PushConn encode) (deliverConn delivery_fuel user from b sup) s c = (Some r, c', ds).
Proof.
  intros El L E W Hs. pose proof (build_batch_ok e from b log El L E) as B.
  pose proof (todo_bound n e from b log c El L E W) as Ht.
  revert Ht. generalize delivery_fuel as fuel. intros fuel Ht.
  cut (wp encode (deliverConn fuel user from b sup) c (fun r _ _ => r <> None)).
  { intros H. specialize (H s Hs). destruct (exec (I := Conn_PushConn encode) _ s c) as [[[r|] c'] ds]; [|done].
    by exists r, c', ds. }
  unfold deliverConn. apply wp_call. intros w1. simpl.
  destruct (lastPushedPts c <? from); [by apply wp_ret|].
  destruct (lastPushedPts c >=? b_state_Pts b); [by apply wp_ret|].
  apply wp_call. intros w2. simpl. destruct (PendingRPCUpdate c user) as [p []] eqn:EP.
  - apply wp_call. intros w3. simpl. apply wp_bind.
    eapply wp_mono; [apply (wp_loop encode user b sup B fuel n c); [done|done|exact Ht]|].
    intros [[|w' p' pend']|] c1 d [H1 W1]; [by apply wp_ret| |done].
    apply wp_bind. destruct pend'.
    + apply wp_keyed. intros keyed. destruct (_ && _ && _); [by apply wp_ret|].
      apply wp_leaves, rest_leaves.
    + apply wp_ret. simpl. apply wp_leaves, rest_leaves.
  - apply wp_leaves, rest_leaves.
Qed.

(** ** Generic deliveries wait for the sender's result *)

Section barriers_hold.
Context (encode : list tl_update -> option (list Z)) (ow : Z) (b : updateBatch).
Context (sup : SuppressedUpdate) (B : batch_ok b) (Hsup : sup_AuthKeyID sup = 0).

(** The frame ends before the event of the barrier it met. *)
Definition behind_barrier (d : delivered) : Prop :=
  (d_head d).2 = true -> d_after d < (d_head d).1.

Definition held (ds : list delivered) : Prop := Forall behind_barrier ds.

Lemma not_keyed w p : keyed_pending sup w p = Ret false.
Proof. unfold keyed_pending. rewrite Hsup. simpl. by rewrite andb_false_r. Qed.

Lemma wp_push_held c x ups pts (Q : push_answer -> Conn -> list delivered -> Prop) :
  ((PendingRPCUpdate c ow).2 = true -> pts < (PendingRPCUpdate c ow).1) -> x < pts -> 0 < pts ->
  (forall a c' ds, held ds -> barrier c' = barrier c -> owner c' = owner c ->
     Q a c' ds) ->
  wp encode (pushOrdered ow x ups pts) c Q.
Proof.
  intros Hh Hx Hp HQ. unfold pushOrdered. apply wp_call. intros w. simpl.
  pose proof (PushAt_written c w ow x (encode ups) pts) as HW.
  pose proof (PushAt_owner c w ow x (encode ups) pts) as HO.
  assert (HB : barrier (PushToAtWatermark c w ow x (encode ups) pts).2 = barrier c)
    by (unfold PushToAtWatermark; by repeat case_match).
  destruct (PushToAtWatermark _ _ _ _ _ _) as [p c']. simpl in *.
  assert (Hd : held (if p_written p then [mkDelivered ow (lastPushedPts c) (lastPushedPts c') ups
    (PendingRPCUpdate c ow)] else [])).
  { destruct (p_written p); [|constructor]. destruct (HW eq_refl Hx Hp) as (_ & _ & E).
    repeat constructor. intros H. simpl in *. rewrite E. auto. }
  apply wp_bind. unfold handlePushFailure. simpl.
  destruct (p_err p) as [[]|]; try (apply wp_ret, wp_ret; apply HQ; rewrite ?app_nil_r; done).
  apply wp_call. intros w'. simpl. apply wp_ret, wp_ret. apply HQ; rewrite ?app_nil_r; done.
Qed.

Lemma PendingRPCUpdate_same c c' :
  barrier c' = barrier c -> owner c' = owner c -> PendingRPCUpdate c' ow = PendingRPCUpdate c ow.
Proof. intros H1 H2. unfold PendingRPCUpdate. by rewrite H1, H2. Qed.

(** What the loop leaves when it breaks. *)
Definition break_state (r : option loop_exit) (c : Conn) : Prop :=
  match r with
  | Some (LoopBreak w p pend) => PendingRPCUpdate c ow = (p, pend)
  | _ => True
  end.

Lemma held_app a d : held a -> held d -> held (a ++ d).
Proof. intros H1 H2. by apply Forall_app. Qed.

Lemma wp_account_quiet c p (Q : option Z -> Conn -> list delivered -> Prop) :
  (forall w' c', Q (Some w') c' []) -> Q None c [] ->
  wp encode (account ow p) c Q.
Proof.
  intros HS HN. unfold account. apply wp_call. intros w1. simpl. apply wp_call. intros w2. simpl.
  assert (HF : (MarkRPCUpdate c ow (authKeyID c) p).1 = false ->
               (MarkRPCUpdate c ow (authKeyID c) p).2 = c)
    by (unfold MarkRPCUpdate, markRPCUpdateLocked; cbv zeta; by repeat case_match).
  destruct (MarkRPCUpdate _ _ _ _) as [[] c']; simpl in *.
  - apply wp_call. intros w3. simpl. by apply wp_ret.
  - rewrite HF by done. by apply wp_ret.
Qed.

Lemma wp_accountPending_quiet c w p (Q : option Z -> Conn -> list delivered -> Prop) :
  (forall w' c', Q (Some w') c' []) -> Q None c [] ->
  wp encode (accountPendingRPCUpdate ow b w p) c Q.
Proof.
  intros HS HN. unfold accountPendingRPCUpdate.
  repeat case_match; try (by apply wp_ret); by apply wp_account_quiet.
Qed.

Lemma held_nil : held [].
Proof. constructor. Qed.

Lemma wp_loop_held fuel : forall c w p pend ready,
  PendingRPCUpdate c ow = (p, pend) ->
  wp encode (pending_loop ow b sup fuel w p pend ready) c
    (fun r c' ds => held ds /\ break_state r c').
Proof.
  induction fuel as [|fuel IH]; intros c w p pend ready HP; [by apply wp_ret; split; [apply held_nil|]|]. cbn [pending_loop].
  destruct pend; [|by apply wp_ret; split; [apply held_nil|]]. cbn [negb]. rewrite not_keyed. cbn [prog_bind].
  assert (HR : forall c' w' ds, held ds ->
    wp encode (reread ow ready (pending_loop ow b sup fuel w')) c'
      (fun r c2 ds2 => held (ds ++ ds2) /\ break_state r c2)).
  { intros c' w' ds Hds. unfold reread. apply wp_call. intros io. simpl.
    destruct (PendingRPCUpdate c' ow) as [p' []] eqn:E'.
    - apply wp_call. intros io'. simpl. eapply wp_mono; [by apply IH|].
      intros r c2 ds2 [H1 H2]. split; [by apply held_app|done].
    - eapply wp_mono; [by apply IH|]. intros r c2 ds2 [H1 H2]. split; [by apply held_app|done]. }
  destruct (false || _ || _ || _); [by apply wp_ret; split; [apply held_nil|]|].
  apply wp_bind, wp_accountPending_quiet; [intros w' c'; apply (HR c' w' []); constructor|].
  destruct (p >? w) eqn:Ep; [|by apply wp_ret; split; [apply held_nil|]].
  destruct (event_at b p) as [[target up]|] eqn:E; [|by apply wp_ret; split; [apply held_nil|]].
  destruct (isRPCResultUpdate up); [|by apply wp_ret; split; [apply held_nil|]]. apply event_at_spec in E as [E _].
  apply wp_bind. unfold deliverBeforePendingRPC.
  destruct (target <=? _)%nat eqn:Et.
  { apply wp_ret. apply wp_call. intros io. simpl.
    destruct (lastPushedPts c >? w); [by apply (HR c _ []), held_nil|by apply wp_ret; split; [apply held_nil|]]. }
  apply Nat.leb_gt in Et.
  destruct (prefix_exact ow b B w target p Et E) as (_ & G1 & G2 & _).
  assert (G3 : nth (target - 1) (b_pts b) 0 < p).
  { assert (Hl := lookup_lt_Some _ _ _ E).
    destruct (lookup_lt_is_Some_2 (b_pts b) (target - 1) ltac:(lia)) as [q Hq].
    rewrite (nth_lookup_Some _ _ 0 q Hq).
    exact (sorted_lookup _ _ _ _ _ (bo_sorted _ B) Hq E ltac:(lia)). }
  apply wp_bind, wp_push_held; [by rewrite HP|done|lia|].
  intros a c' ds Hds Hb Ho. apply wp_ret. rewrite app_nil_r. destruct (pa_stale a).
  { apply wp_ret. rewrite app_nil_r. done. }
  apply wp_call. intros io. simpl. destruct (lastPushedPts c' >? w); [by apply HR|].
  apply wp_ret. rewrite app_nil_r. split; [done|]. simpl. by rewrite (PendingRPCUpdate_same c c').
Qed.

Lemma wp_rest_held c w :
  ((PendingRPCUpdate c ow).2 = true -> b_state_Pts b < (PendingRPCUpdate c ow).1) ->
  wp encode (deliver_rest ow b sup w) c (fun _ _ ds => held ds).
Proof.
  intros Hh. unfold deliver_rest. destruct (len (above b w) =? 0) eqn:En.
  { unfold ahead_of. destruct (b_more b); [|apply wp_ret; constructor].
    apply wp_call. intros io. simpl. apply wp_ret. constructor. }
  rewrite Hsup. cbn [Z.eqb negb andb]. destruct (above_exact ow b B w En) as (_ & G1 & G2 & _).
  apply wp_bind, wp_push_held; [done|done|lia|]. intros a c' ds Hds _ _. apply wp_ret.
  by rewrite app_nil_r.
Qed.

Lemma wp_deliver_held fuel from c :
  wp encode (deliverConn fuel ow from b sup) c (fun _ _ ds => held ds).
Proof.
  unfold deliverConn. apply wp_call. intros w1. simpl.
  destruct (_ <? from); [apply wp_ret; constructor|].
  destruct (_ >=? b_state_Pts b); [apply wp_ret; constructor|].
  apply wp_call. intros w2. simpl. destruct (PendingRPCUpdate c ow) as [p []] eqn:EP.
  - apply wp_call. intros w3. simpl. apply wp_bind.
    eapply wp_mono; [by apply wp_loop_held|].
    intros [[|w' p' pend']|] c1 d [H1 H2]; try (apply wp_ret; by rewrite app_nil_r).
    simpl in H2. destruct pend'.
    + rewrite not_keyed. cbn [prog_bind negb andb].
      destruct ((p' =? 0) || _) eqn:G; [apply wp_ret; by rewrite app_nil_r|].
      eapply wp_mono; [apply wp_rest_held; rewrite H2; simpl; lia|]. intros. by apply held_app.
    + cbn [prog_bind andb].
      eapply wp_mono; [apply wp_rest_held; by rewrite H2|]. intros. by apply held_app.
  - apply wp_rest_held. by rewrite EP.
Qed.
End barriers_hold.

(** A notification that names no sender never overtakes a sender's
    pending result: on a connection that nobody else touches meanwhile, every frame
    the delivery writes while a barrier heads the queue ends strictly before that
    barrier's event, and while the event is not known yet nothing is written. *)
Theorem delivery_respects_barriers (encode : list tl_update -> option (list Z)) (fuel : nat)
    (user from : Z) (e : build_env) (log : list Event) (b : updateBatch) (pts : Z)
    (s : list (turn conn_op)) (c : Conn) :
  be_log e = Some log -> log_ok log -> buildUpdates e from = Some b -> undisturbed s ->
  let '(_, _, ds) := exec (I := Conn_PushConn encode) (deliverConn fuel user from b (mkSuppressed pts 0)) s c in
  Forall (fun d => (d_head d).2 = true -> 0 < d_after d < (d_head d).1) ds.
Proof.
  intros El L E Hs. pose proof (build_batch_ok e from b log El L E) as B.
  pose proof (wp_deliver_held encode user b (mkSuppressed pts 0) B eq_refl fuel from c s Hs) as H.
  assert (HX := exec_pushes (I := Conn_PushConn encode) (conn_civil 0) (push_exact user b) _ ltac:(intros; unfold push_exact in *; lia)
    (deliverConn_pushes user b (mkSuppressed pts 0) B fuel from) s c).
  destruct (exec (I := Conn_PushConn encode) _ s c) as [[r c'] ds]. simpl in HX. unfold held in H.
  rewrite Forall_forall in *. intros d Hd Hp. specialize (H d Hd Hp). specialize (HX d Hd).
  unfold push_exact in HX. lia.
Qed.

(** ** Concrete deliveries *)

Definition demo_encode (ups : list tl_update) : option (list Z) := Some [len ups].

(** A socket of user 7 under key 9. *)
Definition demo_binding : list conn_op :=
  [OpSetOwner 7; OpSetKeyLocked (mkAuthKey 1 9); OpSetKeyStore].

Definition demo_socket : Conn := (conn_run newConn demo_binding).1.


(** Three messages; the third is the socket's own, and its result is already out. *)
Definition demo_log3 : list Event :=
  [mkEvent 1 EventNewMessage 10; mkEvent 2 EventNewMessage 12; mkEvent 3 EventNewMessage 13].

Definition demo_env3 : build_env := mkBuildEnv (Some 3) (Some demo_log3) (fun _ => true) true.

Lemma demo_log3_ok : log_ok demo_log3.
Proof. split; [repeat constructor|repeat constructor]. Qed.

Definition demo_sending : list conn_op :=
  demo_binding ++ [OpBegin 7 9 3; OpReplyMark io_good (mkRequest 5 0 None) (Some [1]) 7 9 3].

Definition demo_sender : Conn := (conn_run newConn demo_sending).1.

Lemma demo_sender_wf : conn_wf 5 demo_sender.
Proof. exact (wf_run 0 newConn demo_sending newConn_wf eq_refl). Qed.

(** The prefix is pushed and ends before the sender's event, which is then accounted. *)
Lemma delivery_respects_barriers_witness :
  exists b c' d, buildUpdates demo_env3 0 = Some b /\
    exec (I := Conn_PushConn demo_encode) (deliverConn delivery_fuel 7 0 b (mkSuppressed 0 0)) [] demo_sender =
      (Some ResultDone, c', [d]) /\
    (d_head d, d_after d, lastPushedPts c') = ((3, true), 2, 3) /\
    ((d_head d).2 = true -> 0 < d_after d < (d_head d).1).
Proof.
  eexists. eexists. eexists. split; [vm_compute; reflexivity|].
  split; [vm_compute; reflexivity|]. split; [reflexivity|].
  pose proof (delivery_respects_barriers demo_encode delivery_fuel 7 0 demo_env3 demo_log3 _ 0 []
    demo_sender eq_refl demo_log3_ok ltac:(vm_compute; reflexivity) ltac:(constructor)) as H.
  vm_compute in H |- *. inversion_clear H as [|? ? H1 _]. exact H1.
Defined.

Lemma deliverConn_returns_witness :
  exists b r c' ds, buildUpdates demo_env3 0 = Some b /\
    exec (I := Conn_PushConn demo_encode) (deliverConn delivery_fuel 7 0 b (mkSuppressed 3 9)) [] demo_sender =
      (Some r, c', ds).
Proof.
  eexists. destruct (deliverConn_returns demo_encode 5 7 0 demo_env3 demo_log3 _ (mkSuppressed 3 9)
    [] demo_sender eq_refl demo_log3_ok ltac:(vm_compute; reflexivity) demo_sender_wf
    ltac:(constructor)) as (r & c' & ds & E).
  exists r, c', ds. split; [vm_compute; reflexivity|exact E].
Defined.

(** The suffix after a suppressed event stops at the next barrier only when that
    barrier's event is known: here the socket's second request is registered and
    committed at pts 3 but has not been told its pts, and the event is pushed before
    its result, which a notification without a sender would have held back. *)
Lemma suppressed_suffix_passes_unknown_barrier :
  let c := (conn_run newConn (demo_binding ++
    [OpBegin 7 9 2; OpReplyMark io_good (mkRequest 5 0 None) (Some [1]) 7 9 2; OpBegin 7 9 0])).1 in
  match buildUpdates demo_env3 0 with
  | Some b =>
      (d_ups <$> (exec (I := Conn_PushConn demo_encode) (deliverConn delivery_fuel 7 0 b (mkSuppressed 2 9)) [] c).2,
       d_ups <$> (exec (I := Conn_PushConn demo_encode) (deliverConn delivery_fuel 7 0 b (mkSuppressed 0 0)) [] c).2) =
      ([[UpdateNewMessage 10 1]; [UpdateNewMessage 13 3]], [[UpdateNewMessage 10 1]])
  | None => False
  end.
Proof. vm_compute. reflexivity. Qed.
