(* ===== verification/DeliveryRounds.v ===== *)
(** * The rounds of one notification

    [deliverAtSuppressed] of [internal/api/notify.go]: the windows one notification
    builds and the fan-out of each over the user's sockets, with what they cost and
    what they achieve.  [deliverConn] itself is in file [Delivery]. *)

From S2P Require Import Prelude.
From S2P Require Import RpcTrace.
From S2P Require Import Recovery.
From S2P Require Import Budget.
From S2P Require Import Conn.
From S2P Require Import ConnPush.
From S2P Require Import UpdateBatch.
From S2P Require Import Delivery.

(** ** The source *)

Definition maxDeliveryRounds : nat := 2.
Definition maxDeliveryRetries : nat := 4.

(** Where a round's window starts: at the furthest-behind connection at first, then
    one batch below the head, or at the furthest-along connection when none is that
    close. *)
Definition window_from (round : nat) (lo hi head : Z) : Z :=
  if (0 <? round)%nat then
    let tail := head - maxDiffEvents in
    if hi <? tail then hi else Z.max lo tail
  else lo.

Section rounds.
(** The store's answer to the [n]-th build, and what [deliverConn] then does to a
    connection: file-level definitions below give both. *)
Context (build : nat -> Z -> option updateBatch).
Context (serve : nat -> Z -> Z -> updateBatch -> Conn -> conn_result * Conn).

Definition watermark_of (world : gmap Z Conn) (id : Z) : Z :=
  default 0 (lastPushedPts <$> world !! id).

Definition lowest (world : gmap Z Conn) (ids : list Z) : Z :=
  match ids with
  | [] => 0
  | id :: rest => foldl (fun lo id => Z.min lo (watermark_of world id)) (watermark_of world id) rest
  end.

Definition highest (world : gmap Z Conn) (ids : list Z) : Z :=
  match ids with
  | [] => 0
  | id :: rest => foldl (fun hi id => Z.max hi (watermark_of world id)) (watermark_of world id) rest
  end.

(** The fan-out: one goroutine per connection, each on its own. *)
Fixpoint fan_out (n : nat) (from : Z) (b : updateBatch) (ids : list Z) (world : gmap Z Conn)
    : list (Z * conn_result) * gmap Z Conn :=
  match ids with
  | [] => ([], world)
  | id :: rest =>
      match world !! id with
      | Some c =>
          let '(r, c') := serve n id from b c in
          let '(rs, world') := fan_out n from b rest (<[id := c']> world) in
          ((id, r) :: rs, world')
      | None => fan_out n from b rest world
      end
  end.

Definition is_retry (r : conn_result) : bool := match r with ResultRetry => true | _ => false end.
Definition is_ahead (r : conn_result) : bool := match r with ResultAhead => true | _ => false end.

(** The connections left, the number of builds, and whether the loop ended by itself. *)
Fixpoint deliver_loop (fuel builds round retries : nat) (head : Z) (ids : list Z)
    (world : gmap Z Conn) : gmap Z Conn * nat * bool :=
  match fuel with
  | O => (world, builds, false)
  | S fuel' =>
      if (round <? maxDeliveryRounds)%nat && negb (len ids =? 0) then
        let from := window_from round (lowest world ids) (highest world ids) head in
        match build builds from with
        | None => (world, S builds, true)
        | Some b =>
            if (len (b_ups b) =? 0) && negb (b_more b) then (world, S builds, true)
            else
              let '(rs, world') := fan_out builds from b ids world in
              if existsb (fun r => is_retry r.2) rs then
                if (maxDeliveryRetries <? S retries)%nat then (world', S builds, true)
                else deliver_loop fuel' (S builds) round (S retries) (b_head b) ids world'
              else
                deliver_loop fuel' (S builds) (S round) 0 (b_head b)
                  (fst <$> filter (fun r => is_ahead r.2 = true) rs) world'
        end
      else (world, builds, true)
  end.

Definition deliverAtSuppressed (ids : list Z) (world : gmap Z Conn) : gmap Z Conn * nat * bool :=
  deliver_loop (S (maxDeliveryRounds * S maxDeliveryRetries)) 0 0 0 0 ids world.

Lemma deliver_loop_bound fuel : forall builds round retries head ids world,
  (round <= maxDeliveryRounds)%nat -> (retries <= maxDeliveryRetries)%nat ->
  (builds + (maxDeliveryRounds - round) * S maxDeliveryRetries <=
     maxDeliveryRounds * S maxDeliveryRetries + retries)%nat ->
  (round = maxDeliveryRounds -> retries = 0)%nat ->
  (maxDeliveryRounds * S maxDeliveryRetries < fuel + builds)%nat ->
  let '(_, n, ended) := deliver_loop fuel builds round retries head ids world in
  ended = true /\ (n <= maxDeliveryRounds * S maxDeliveryRetries)%nat.
Proof.
  unfold maxDeliveryRounds, maxDeliveryRetries.
  induction fuel as [|fuel IH]; intros builds round retries head ids world Hr Ht Hb H0 Hf; [simpl; lia|].
  cbn [deliver_loop]. unfold maxDeliveryRounds, maxDeliveryRetries.
  destruct ((round <? 2)%nat && _) eqn:G; [|simpl; split; [done|lia]].
  apply andb_true_iff in G as [G _]. apply Nat.ltb_lt in G.
  destruct (build builds _) as [b|]; [|split; [done|lia]].
  destruct (_ && negb (b_more b)); [split; [done|lia]|].
  destruct (fan_out _ _ _ _ _) as [rs world'].
  destruct (existsb _ rs).
  - destruct (4 <? S retries)%nat eqn:E; [split; [done|lia]|]. apply Nat.ltb_ge in E.
    apply IH; lia.
  - apply IH; lia.
Qed.

(** One notification costs a bounded number of store reads however many
    sockets the user holds, however their watermarks are spread and whatever happens
    to them meanwhile: the delivery always ends, after at most ten builds, two rounds
    of one build and four retries each. *)
Theorem deliver_build_bound (ids : list Z) (world : gmap Z Conn) :
  let '(_, builds, ended) := deliverAtSuppressed ids world in
  ended = true /\ (builds <= 10)%nat.
Proof. apply deliver_loop_bound; unfold maxDeliveryRounds, maxDeliveryRetries; lia. Qed.
End rounds.

(** ** Catching up *)

(** The turns of a socket nobody else uses and whose writes succeed. *)
Definition smooth_io (w : io) : Prop :=
  io_ctx_err w = false /\ io_encrypt_ok w = true /\ io_send_ok w = true.

Definition smooth (s : list (turn conn_op)) : Prop :=
  Forall (fun t => t_others t = [] /\ smooth_io (t_io t)) s.

(** [deliverConn] as the fan-out runs it. *)
Definition serve_conn (encode : list tl_update -> option (list Z)) (user : Z)
    (sup : SuppressedUpdate) (turns : nat -> Z -> list (turn conn_op)) (n : nat) (id from : Z)
    (b : updateBatch) (c : Conn) : conn_result * Conn :=
  let '(r, c', _) := exec (I := Conn_PushConn encode) (deliverConn delivery_fuel user from b sup) (turns n id) c in
  (default ResultDone r, c').

(** A connection of the user with no result pending. *)
Definition calm (user : Z) (c : Conn) : Prop :=
  owner c = user /\ (PendingRPCUpdate c user).2 = false.

Section catch_up.
Context (encode : list tl_update -> option (list Z)) (user : Z).
Context (Henc : forall ups, exists bs, encode ups = Some bs /\ len bs <= 2 ^ 31 - 1).

Lemma exec_smooth {A} {B : Set} (cc : conn_call B) (k : B -> prog A) s c :
  smooth s -> exists w, smooth_io w /\ smooth (tail s) /\
  exec (I := Conn_PushConn encode) (Call cc k) s c =
    let '(x, c1, d) := pc_call (PushConn := Conn_PushConn encode) cc w c in
    let '(a, c2, ds) := exec (I := Conn_PushConn encode) (k x) (tail s) c1 in (a, c2, d ++ ds).
Proof.
  intros Hs. exists (t_io (default quiet (head s))). cbn [exec].
  destruct s as [|t s]; [by repeat split|].
  inversion_clear Hs as [|? ? [Ht Hio] Hs']. simpl. rewrite Ht. done.
Qed.

(** What a calm connection comes to. *)
Definition serve_spec (from : Z) (b : updateBatch) (c : Conn) : conn_result * Conn :=
  let w := lastPushedPts c in
  if w <? from then (ResultDone, c)
  else if w >=? b_state_Pts b then (ahead_if (b_more b), c)
  else if len (above b w) =? 0 then (ahead_if (b_more b), c)
  else (ResultDone, set_lastPushedPts (b_state_Pts b) c).

Lemma serve_calm fuel from b c s pts :
  batch_ok b -> calm user c -> smooth s ->
  let '(r, c', _) := exec (I := Conn_PushConn encode) (deliverConn fuel user from b (mkSuppressed pts 0)) s c in
  (default ResultDone r, c') = serve_spec from b c.
Proof.
  intros B [Ho Hp] Hs. unfold deliverConn, serve_spec.
  match goal with |- context [exec (I := Conn_PushConn encode) (Call ?cc ?k) s c] =>
    destruct (exec_smooth cc k s c Hs) as (w1 & _ & Hs1 & ->) end.
  cbn [pc_call Conn_PushConn perform].
  destruct (lastPushedPts c <? from) eqn:E1; [done|].
  destruct (lastPushedPts c >=? b_state_Pts b) eqn:E2; [done|].
  match goal with |- context [exec (I := Conn_PushConn encode) (Call ?cc ?k) ?s' c] =>
    destruct (exec_smooth cc k s' c Hs1) as (w2 & _ & Hs2 & ->) end.
  cbn [pc_call Conn_PushConn perform]. destruct (PendingRPCUpdate c user) as [p pend]. simpl in Hp. subst pend.
  unfold deliver_rest. destruct (len (above b (lastPushedPts c)) =? 0) eqn:En.
  - unfold ahead_of. destruct (b_more b); [|done].
    match goal with |- context [exec (I := Conn_PushConn encode) (Call ?cc ?k) ?s' c] =>
      destruct (exec_smooth cc k s' c Hs2) as (w3 & _ & Hs3 & ->) end.
    cbn [pc_call Conn_PushConn perform exec]. by replace (lastPushedPts c <? b_state_Pts b) with true by lia.
  - destruct (above_exact user b B (lastPushedPts c) En) as (_ & G1 & G2 & _).
    unfold pushOrdered. cbn [sup_AuthKeyID prog_bind]. rewrite Z.eqb_refl. cbn [negb andb].
    match goal with |- context [exec (I := Conn_PushConn encode) (Call ?cc ?k) ?s' c] =>
      destruct (exec_smooth cc k s' c Hs2) as (w3 & (I1 & I2 & I3) & Hs3 & ->) end.
    cbn [pc_call Conn_PushConn perform]. destruct (Henc (above b (lastPushedPts c))) as (bs & -> & Hl).
    unfold PushToAtWatermark. rewrite I1, Ho, !Z.eqb_refl. cbn [negb].
    unfold sendLocked. replace (len bs >? 2 ^ 31 - 1) with false by lia. rewrite I2, I3. cbn [negb].
    replace ((b_state_Pts b >? 0) && (b_state_Pts b >? lastPushedPts c)) with true by lia. done.
Qed.

Context (turns : nat -> Z -> list (turn conn_op)) (Hturns : forall n id, smooth (turns n id)).
Context (e : build_env) (log : list Event) (h : Z).
Context (Hstate : be_state e = Some h) (Hlog : be_log e = Some log) (Hok : be_ok e = true).
Context (L : log_ok log).

Local Abbreviation serve := (serve_conn encode user (mkSuppressed 0 0) turns).

Definition all_calm (ids : list Z) (world : gmap Z Conn) : Prop :=
  forall id, id ∈ ids -> exists c, world !! id = Some c /\ calm user c.

Lemma serve_conn_calm n id from b c :
  batch_ok b -> calm user c -> serve n id from b c = serve_spec from b c.
Proof.
  intros B Hc. unfold serve_conn.
  pose proof (serve_calm delivery_fuel from b c (turns n id) 0 B Hc (Hturns n id)) as H.
  destruct (exec (I := Conn_PushConn encode) _ (turns n id) c) as [[r c'] ds]. done.
Qed.

Lemma fan_out_calm n from b ids : forall world rs world',
  batch_ok b -> NoDup ids -> all_calm ids world ->
  fan_out serve n from b ids world = (rs, world') ->
  rs = (fun id => (id, (serve_spec from b (default newConn (world !! id))).1)) <$> ids /\
  (forall id, id ∈ ids -> world' !! id = Some (serve_spec from b (default newConn (world !! id))).2) /\
  (forall id, id ∉ ids -> world' !! id = world !! id).
Proof.
  induction ids as [|id ids IH]; intros world rs world' B Hn Hc E.
  { simpl in E. simplify_eq. split_and!; [done| |done]. intros x Hx. by apply elem_of_nil in Hx. }
  inversion_clear Hn as [|? ? Hni Hn']. cbn [fan_out] in E.
  destruct (Hc id ltac:(by left)) as (c & Ec & Cc). rewrite Ec, serve_conn_calm in E by done.
  destruct (serve_spec from b c) as [r c1] eqn:Es.
  destruct (fan_out serve n from b ids (<[id:=c1]> world)) as [rs1 world1] eqn:E1.
  injection E as <- <-.
  assert (Hlook : forall x, x ∈ ids -> (<[id:=c1]> world : gmap Z Conn) !! x = world !! x).
  { intros x Hx. rewrite lookup_insert_ne; [done|]. intros ->. done. }
  destruct (IH (<[id:=c1]> world) rs1 world1 B Hn') as (R1 & R2 & R3); [|done|].
  { intros x Hx. rewrite Hlook by done. apply Hc. by right. }
  split_and!.
  - simpl. rewrite Ec. simpl. rewrite Es, R1. f_equal. apply list_fmap_ext.
    intros i x Hx. apply list_elem_of_lookup_2 in Hx. by rewrite Hlook.
  - intros x Hx. apply elem_of_cons in Hx as [->|Hx].
    + rewrite R3 by done. rewrite lookup_insert_eq, Ec. simpl. by rewrite Es.
    + rewrite R2 by done. by rewrite Hlook.
  - intros x Hx. apply not_elem_of_cons in Hx as [H1 H2]. rewrite R3 by done.
    by rewrite lookup_insert_ne.
Qed.

(** Nothing above [w] up to [hi]. *)
Definition served (w hi : Z) : Prop := updates_in (be_found e) log w hi = [].

Lemma served_mono w w' hi : w <= w' -> served w hi -> served w' hi.
Proof.
  unfold served, updates_in, events_in. intros Hw. generalize log as l.
  induction l as [|ev l IH]; [done|]. destruct (decide (w < ev_Pts ev <= hi)) as [H1|H1].
  - rewrite (filter_cons_True _ ev) by done. simpl. intros H. apply app_eq_nil in H as [H2 H3].
    destruct (decide (w' < ev_Pts ev <= hi)).
    + rewrite filter_cons_True by done. simpl. rewrite H2. by apply IH.
    + rewrite filter_cons_False by done. by apply IH.
  - rewrite !filter_cons_False by lia. apply IH.
Qed.

Lemma served_past w hi : hi <= w -> served w hi.
Proof.
  intros H. unfold served, updates_in, events_in. rewrite filter_none; [done|].
  apply Forall_forall. intros ev _. lia.
Qed.

(** A connection in the window is brought to the end of the batch, or has nothing in it. *)
Lemma serve_spec_served from b c :
  buildUpdates e from = Some b -> from <= lastPushedPts c ->
  served (lastPushedPts (serve_spec from b c).2) (b_state_Pts b).
Proof.
  intros Eb Hf. pose proof (build_batch_ok e from b log Hlog L Eb) as B. unfold serve_spec.
  replace (lastPushedPts c <? from) with false by lia.
  destruct (lastPushedPts c >=? b_state_Pts b) eqn:E1; [apply served_past; simpl; lia|].
  destruct (len _ =? 0) eqn:E2; [|apply served_past; simpl; lia].
  simpl. unfold served. rewrite <- (build_between e from b log) by (done || lia).
  apply Z.eqb_eq, len_zero in E2. rewrite (above_between b _ B) in E2.
  by replace (Z.max (lastPushedPts c) (b_state_Pts b)) with (b_state_Pts b) in E2 by lia.
Qed.

(** A window that starts within a batch of the head reaches it. *)
Lemma window_reaches from b :
  buildUpdates e from = Some b -> h - maxDiffEvents <= from -> b_more b = false /\ b_state_Pts b = h.
Proof.
  intros Eb Hf. unfold buildUpdates in Eb. rewrite Hstate, Hlog, Hok in Eb. injection Eb as <-. simpl.
  destruct (build_events log from h L) as (_ & _ & H3 & H4).
  destruct (window_more log from h) eqn:Em; [|split; [done|by apply H3]]. exfalso.
  unfold window_more in Em. unfold window_read, EventsWindow in Em. fold (events_in log from h) in Em.
  pose proof (log_ok_pts _ (log_ok_filter log (fun ev => from < ev_Pts ev <= h) L)) as Hs.
  fold (events_in log from h) in Hs.
  assert (Hr : Forall (fun p => from < p <= h) (ev_Pts <$> events_in log from h)).
  { apply Forall_forall. intros p Hp. apply list_elem_of_fmap in Hp as (ev & -> & Hev).
    by apply list_elem_of_filter in Hev as [? _]. }
  assert (HL : Z.of_nat (length (ev_Pts <$> events_in log from h)) <= Z.max 0 (h - from)).
  { revert Hs Hr. generalize (ev_Pts <$> events_in log from h). clear. intros l Hs. revert from.
    induction Hs as [|x l Hs IH Hx]; intros from Hr; simpl; [lia|].
    apply Forall_cons_1 in Hr as [H1 H2]. specialize (IH x).
    assert (Forall (fun p => x < p <= h) l) as H3.
    { apply Forall_forall. intros p Hp. rewrite Forall_forall in Hx, H2.
      specialize (Hx p Hp). specialize (H2 p Hp). simpl in H2. lia. }
    specialize (IH H3). lia. }
  rewrite length_fmap in HL. unfold len in Em. rewrite length_take in Em. unfold maxDiffEvents in *. lia.
Qed.

Lemma lowest_le world ids id : id ∈ ids -> lowest world ids <= watermark_of world id.
Proof.
  destruct ids as [|x ids]; intros Hin; [by apply elem_of_nil in Hin|]. simpl.
  assert (HM : forall l a, foldl (fun lo id => Z.min lo (watermark_of world id)) a l <= a).
  { induction l as [|y l IH]; intros a; simpl; [lia|]. specialize (IH (Z.min a (watermark_of world y))). lia. }
  apply elem_of_cons in Hin as [->|Hin]; [apply HM|]. revert Hin. generalize (watermark_of world x).
  induction ids as [|y ids IH]; intros a Hin; [by apply elem_of_nil in Hin|]. simpl.
  apply elem_of_cons in Hin as [->|Hin]; [|by apply IH].
  specialize (HM ids (Z.min a (watermark_of world y))). lia.
Qed.

Lemma highest_ge world ids id : id ∈ ids -> watermark_of world id <= highest world ids.
Proof.
  destruct ids as [|x ids]; intros Hin; [by apply elem_of_nil in Hin|]. simpl.
  assert (HM : forall l a, a <= foldl (fun hi id => Z.max hi (watermark_of world id)) a l).
  { induction l as [|y l IH]; intros a; simpl; [lia|]. specialize (IH (Z.max a (watermark_of world y))). lia. }
  apply elem_of_cons in Hin as [->|Hin]; [apply HM|]. revert Hin. generalize (watermark_of world x).
  induction ids as [|y ids IH]; intros a Hin; [by apply elem_of_nil in Hin|]. simpl.
  apply elem_of_cons in Hin as [->|Hin]; [|by apply IH].
  specialize (HM ids (Z.max a (watermark_of world y))). lia.
Qed.

Lemma serve_spec_facts from b c :
  is_retry (serve_spec from b c).1 = false /\
  (is_ahead (serve_spec from b c).1 = true -> b_more b = true /\ (serve_spec from b c).2 = c) /\
  (b_more b = true -> from <= lastPushedPts c -> b_state_Pts b <= lastPushedPts c ->
   is_ahead (serve_spec from b c).1 = true) /\
  (calm user c -> calm user (serve_spec from b c).2) /\
  lastPushedPts c <= lastPushedPts (serve_spec from b c).2.
Proof.
  unfold serve_spec, ahead_if. destruct (_ <? from) eqn:E1; [split_and!; try done; lia|].
  destruct (_ >=? _) eqn:E2; [destruct (b_more b); split_and!; try done; lia|].
  destruct (len _ =? 0); [destruct (b_more b); split_and!; try done; lia|].
  split_and!; try done; try lia. simpl. lia.
Qed.

(** The world of one round: it advances and stays calm, and who is ahead is known. *)
Record round_ok (from : Z) (b : updateBatch) (ids : list Z) (world : gmap Z Conn)
    (rs : list (Z * conn_result)) (world' : gmap Z Conn) : Prop := mkRoundOk {
  ro_retry : existsb (fun r => is_retry r.2) rs = false;
  ro_ahead : forall id, id ∈ (fst <$> filter (fun r => is_ahead r.2 = true) rs) <->
     id ∈ ids /\ is_ahead (serve_spec from b (default newConn (world !! id))).1 = true;
  ro_nodup : NoDup (fst <$> filter (fun r => is_ahead r.2 = true) rs);
  ro_calm : all_calm ids world';
  ro_served : forall id, id ∈ ids -> from <= watermark_of world id ->
     served (watermark_of world' id) (b_state_Pts b);
  ro_mono : forall id, watermark_of world id <= watermark_of world' id;
  ro_same : forall id, id ∈ (fst <$> filter (fun r => is_ahead r.2 = true) rs) ->
     watermark_of world' id = watermark_of world id
}.

Lemma fan_out_round n from b ids world rs world' :
  buildUpdates e from = Some b -> NoDup ids -> all_calm ids world ->
  fan_out serve n from b ids world = (rs, world') -> round_ok from b ids world rs world'.
Proof.
  intros Eb Hn Hc E. pose proof (build_batch_ok e from b log Hlog L Eb) as B.
  destruct (fan_out_calm n from b ids world rs world' B Hn Hc E) as (-> & Hin & Hout).
  assert (Hf : forall id, id ∈ (fst <$> filter (fun r : Z * conn_result => is_ahead r.2 = true)
      ((fun id => (id, (serve_spec from b (default newConn (world !! id))).1)) <$> ids)) <->
     id ∈ ids /\ is_ahead (serve_spec from b (default newConn (world !! id))).1 = true).
  { intros id. split.
    - intros H. apply list_elem_of_fmap in H as ([i r] & -> & H).
      apply list_elem_of_filter in H as [H1 H2]. apply list_elem_of_fmap in H2 as (j & [= -> ->] & Hj).
      done.
    - intros [H1 H2]. apply list_elem_of_fmap. eexists (id, _). split; [done|].
      apply list_elem_of_filter. split; [exact H2|]. apply list_elem_of_fmap. by exists id. }
  assert (Hw : forall id c, world !! id = Some c -> id ∈ ids ->
    watermark_of world' id = lastPushedPts (serve_spec from b c).2).
  { intros id c Ec Hi. unfold watermark_of. by rewrite Hin, Ec by done. }
  constructor.
  - apply not_true_iff_false. intros H. apply existsb_exists in H as ([i r] & H1 & H2).
    apply list_elem_of_In, list_elem_of_fmap in H1 as (j & [= -> ->] & _).
    simpl in H2. by rewrite (proj1 (serve_spec_facts from b _)) in H2.
  - done.
  - assert (Hi : forall l : list Z, fst <$> filter (fun r : Z * conn_result => is_ahead r.2 = true)
      ((fun id => (id, (serve_spec from b (default newConn (world !! id))).1)) <$> l) =
      filter (fun id => is_ahead (serve_spec from b (default newConn (world !! id))).1 = true) l).
    { induction l as [|x l IH]; [done|]. rewrite fmap_cons.
      destruct (decide (is_ahead (serve_spec from b (default newConn (world !! x))).1 = true)).
      - rewrite !filter_cons_True by done. rewrite fmap_cons. f_equal. exact IH.
      - rewrite !filter_cons_False by done. exact IH. }
    rewrite Hi. by apply NoDup_filter.
  - intros id Hi. destruct (Hc id Hi) as (c & Ec & Cc). eexists. split; [by apply Hin|].
    rewrite Ec. by apply serve_spec_facts.
  - intros id Hi Hle. destruct (Hc id Hi) as (c & Ec & _). rewrite (Hw id c Ec Hi).
    apply serve_spec_served; [done|]. unfold watermark_of in Hle. by rewrite Ec in Hle.
  - intros id. destruct (decide (id ∈ ids)) as [Hi|Hi].
    + destruct (Hc id Hi) as (c & Ec & _). rewrite (Hw id c Ec Hi). unfold watermark_of. rewrite Ec.
      apply serve_spec_facts.
    + unfold watermark_of. rewrite Hout by done. lia.
  - intros id Hi. apply Hf in Hi as [Hi Ha]. destruct (Hc id Hi) as (c & Ec & _).
    rewrite (Hw id c Ec Hi). rewrite Ec in Ha. simpl in Ha.
    destruct (serve_spec_facts from b c) as (_ & H & _). destruct (H Ha) as [_ ->].
    unfold watermark_of. by rewrite Ec.
Qed.

Local Abbreviation build := (fun (_ : nat) (from : Z) => buildUpdates e from).

Lemma build_some from : exists b, buildUpdates e from = Some b /\ b_head b = h /\
  b_ups b = updates_in (be_found e) log from (b_state_Pts b) /\
  (b_more b = false -> b_state_Pts b = h).
Proof.
  assert (exists b, buildUpdates e from = Some b) as [b Eb].
  { unfold buildUpdates. rewrite Hstate, Hlog, Hok. by eexists. }
  exists b. split; [done|]. pose proof (build_batch_ok e from b log Hlog L Eb) as B.
  assert (Hups : b_ups b = above b from).
  { unfold above. pose proof Eb as Eb'. unfold buildUpdates in Eb'. rewrite Hstate, Hlog, Hok in Eb'.
    injection Eb' as Eb'.
    assert (HS : splits_at (b_pts b) (from + 1) 0).
    { split_and!; [lia|intros; lia|]. intros k v _ Hv. apply list_elem_of_lookup_2 in Hv.
      rewrite <- Eb' in Hv. apply hydrate_pts_in, list_elem_of_fmap in Hv as (ev & -> & Hev).
      destruct (build_events log from h L) as (H1 & _). rewrite H1 in Hev.
      apply list_elem_of_filter in Hev as [? _]. lia. }
    by rewrite (splits_at_unique _ _ _ _ (SearchInts_splits _ _ (bo_sorted _ B)) HS), drop_0. }
  assert (Hmax : between b from (Z.max from (b_state_Pts b)) = between b from (b_state_Pts b)).
  { unfold between. f_equal. apply filter_ext_in. intros [p u] Hpu. apply elem_of_zip_l in Hpu.
    pose proof (bo_bound _ B) as Hb. rewrite Forall_forall in Hb. specialize (Hb p Hpu). simpl in *. lia. }
  rewrite Hups, (above_between b from B), Hmax, (build_between e from b log) by (done || lia).
  unfold buildUpdates in Eb. rewrite Hstate, Hlog, Hok in Eb. injection Eb as <-. simpl.
  destruct (build_events log from h L) as (_ & _ & H3 & _). done.
Qed.

(** Nothing in an empty untruncated batch: everyone above its start is served. *)
Lemma empty_served from b w :
  buildUpdates e from = Some b -> (len (b_ups b) =? 0) && negb (b_more b) = true ->
  b_ups b = updates_in (be_found e) log from (b_state_Pts b) ->
  from <= w -> served w (b_state_Pts b).
Proof.
  intros _ H Hu Hw. apply andb_true_iff in H as [H _]. apply Z.eqb_eq, len_zero in H.
  rewrite Hu in H. by apply (served_mono from).
Qed.

Lemma last_round fuel n ids world :
  NoDup ids -> all_calm ids world ->
  let '(world', _, _) := deliver_loop build serve (S (S fuel)) n 1 0 h ids world in
  (forall id, watermark_of world id <= watermark_of world' id) /\
  (forall id, id ∈ ids -> h - maxDiffEvents <= watermark_of world id ->
     served (watermark_of world' id) h).
Proof.
  intros Hn Hc. cbn [deliver_loop]. destruct ids as [|i0 ids0].
  { simpl. split; [lia|]. intros id Hi. by apply elem_of_nil in Hi. }
  set (ids := i0 :: ids0) in *.
  replace ((1 <? maxDeliveryRounds)%nat && negb (len ids =? 0)) with true
    by (unfold ids, maxDeliveryRounds; rewrite len_cons; pose proof (len_nonneg ids0); lia).
  set (from := window_from 1 (lowest world ids) (highest world ids) h).
  assert (Hfrom : forall id, id ∈ ids -> h - maxDiffEvents <= watermark_of world id ->
    h - maxDiffEvents <= from <= watermark_of world id).
  { intros id Hi Hw. pose proof (lowest_le world ids id Hi). pose proof (highest_ge world ids id Hi).
    unfold from, window_from. change (0 <? 1)%nat with true. cbv iota zeta.
    replace (highest world ids <? h - maxDiffEvents) with false by lia. lia. }
  clearbody from. destruct (build_some from) as (b & Eb & Eh & Eu & _). rewrite Eb.
  destruct ((len (b_ups b) =? 0) && negb (b_more b)) eqn:G.
  { split; [lia|]. intros id Hi Hw. destruct (Hfrom id Hi Hw) as [H1 H2].
    destruct (window_reaches from b Eb H1) as [_ <-]. by apply (empty_served from b). }
  destruct (fan_out serve n from b ids world) as [rs world'] eqn:E.
  destruct (fan_out_round n from b ids world rs world' Eb Hn Hc E) as [R1 _ _ _ R5 R6 _].
  rewrite R1. simpl. split; [done|]. intros id Hi Hw. destruct (Hfrom id Hi Hw) as [H1 H2].
  destruct (window_reaches from b Eb H1) as [_ <-]. by apply R5.
Qed.

Lemma two_rounds ids world b0 :
  NoDup ids -> all_calm ids world -> buildUpdates e (lowest world ids) = Some b0 ->
  let '(world', _, _) := deliverAtSuppressed build serve ids world in
  forall id, id ∈ ids ->
    served (watermark_of world' id) (b_state_Pts b0) /\
    (b_state_Pts b0 <= watermark_of world id -> h - maxDiffEvents <= watermark_of world id ->
     served (watermark_of world' id) h).
Proof.
  intros Hn Hc Eb. destruct ids as [|i0 ids0].
  { simpl. intros id Hi. by apply elem_of_nil in Hi. }
  unfold deliverAtSuppressed.
  remember (maxDeliveryRounds * S maxDeliveryRetries)%nat as fu eqn:Hfu.
  set (ids := i0 :: ids0) in *. cbn [deliver_loop].
  replace ((0 <? maxDeliveryRounds)%nat && negb (len ids =? 0)) with true
    by (unfold ids, maxDeliveryRounds; rewrite len_cons; pose proof (len_nonneg ids0); lia).
  change (window_from 0 (lowest world ids) (highest world ids) 0) with (lowest world ids).
  destruct (build_some (lowest world ids)) as (b & Eb' & Eh & Eu & Em). rewrite Eb in Eb'.
  injection Eb' as <-. rewrite Eb.
  assert (Hlow : forall id, id ∈ ids -> lowest world ids <= watermark_of world id)
    by (intros; by apply lowest_le).
  destruct ((len (b_ups b0) =? 0) && negb (b_more b0)) eqn:G.
  { intros id Hi. pose proof (empty_served _ b0 (watermark_of world id) Eb G Eu (Hlow id Hi)) as HS.
    apply andb_true_iff in G as [_ G]. apply negb_true_iff, Em in G. rewrite <- G. done. }
  destruct (fan_out serve 0 (lowest world ids) b0 ids world) as [rs world1] eqn:E.
  destruct (fan_out_round 0 _ b0 ids world rs world1 Eb Hn Hc E) as [R1 R2 R3 R4 R5 R6 R7].
  rewrite R1, Eh.
  set (ids1 := fst <$> filter (fun r : Z * conn_result => is_ahead r.2 = true) rs) in *.
  assert (Hc1 : all_calm ids1 world1) by (intros id Hi; apply R4; by apply R2 in Hi as [? _]).
  pose proof (last_round 8 1 ids1 world1 R3 Hc1) as HL.
  rewrite Hfu. change (maxDeliveryRounds * S maxDeliveryRetries)%nat with 10%nat.
  destruct (deliver_loop build serve 10 1 1 0 h ids1 world1) as [[world2 n2] ended].
  destruct HL as [HL1 HL2]. intros id Hi. pose proof (R5 id Hi (Hlow id Hi)) as HS.
  split; [by apply (served_mono (watermark_of world1 id))|]. intros Hw1 Hw2.
  destruct (b_more b0) eqn:Eb2.
  - destruct (Hc id Hi) as (c & Ec & _).
    assert (Ha : id ∈ ids1).
    { apply R2. split; [done|]. rewrite Ec. simpl.
      destruct (serve_spec_facts (lowest world ids) b0 c) as (_ & _ & H & _).
      unfold watermark_of in Hw1. rewrite Ec in Hw1. apply H; [done| |done].
      specialize (Hlow id Hi). unfold watermark_of in Hlow. by rewrite Ec in Hlow. }
    apply HL2; [done|]. by rewrite (R7 id Ha).
  - rewrite <- (Em eq_refl). by apply (served_mono (watermark_of world1 id)).
Qed.
End catch_up.

(** One notification catches the user's sockets up.  When nothing is
    in the way (the sockets belong to the user, no result is pending, writes succeed,
    the store answers and is stable), after the delivery every socket has been given
    everything the first window covers above its watermark, and every socket that was
    already past that window and within one batch of the head has been given
    everything up to the head. *)
Theorem deliver_catches_up (encode : list tl_update -> option (list Z)) (user : Z)
    (turns : nat -> Z -> list (turn conn_op)) (e : build_env) (log : list Event) (h : Z) (ids : list Z)
    (world : gmap Z Conn) (b0 : updateBatch) :
  (forall ups, exists bs, encode ups = Some bs /\ len bs <= 2 ^ 31 - 1) ->
  (forall n id, smooth (turns n id)) ->
  be_state e = Some h -> be_log e = Some log -> be_ok e = true -> log_ok log ->
  NoDup ids -> all_calm user ids world -> buildUpdates e (lowest world ids) = Some b0 ->
  let '(world', _, _) :=
    deliverAtSuppressed (fun _ from => buildUpdates e from)
      (serve_conn encode user (mkSuppressed 0 0) turns) ids world in
  forall id, id ∈ ids ->
    updates_in (be_found e) log (watermark_of world' id) (b_state_Pts b0) = [] /\
    (b_state_Pts b0 <= watermark_of world id -> h - maxDiffEvents <= watermark_of world id ->
     updates_in (be_found e) log (watermark_of world' id) h = []).
Proof.
  intros Henc Ht Hs Hl Ho L Hn Hc Hb.
  exact (two_rounds encode user Henc turns Ht e log h Hs Hl Ho L ids world b0 Hn Hc Hb).
Qed.

(** ** A concrete delivery *)

(** Two sockets, one already ahead. *)
Definition demo_world : gmap Z Conn :=
  {[ 1 := demo_socket; 2 := set_lastPushedPts 2 demo_socket ]}.

Lemma deliver_catches_up_witness :
  let '(world', builds, _) :=
    deliverAtSuppressed (fun _ from => buildUpdates demo_env3 from)
      (serve_conn demo_encode 7 (mkSuppressed 0 0) (fun _ _ => [])) [1; 2] demo_world in
  watermark_of world' 1 = 3 /\ builds = 1%nat /\
  updates_in (fun _ => true) demo_log3 (watermark_of world' 2) 3 = [].
Proof.
  pose proof (deliver_catches_up demo_encode 7 (fun _ _ => []) demo_env3 demo_log3 3 [1; 2]
    demo_world _ ltac:(intros ups; eexists; split; [reflexivity|vm_compute; discriminate])
    ltac:(constructor) eq_refl eq_refl eq_refl demo_log3_ok ltac:(repeat constructor; set_solver)
    ltac:(intros id Hid; apply elem_of_cons in Hid as [->|Hid];
          [|apply list_elem_of_singleton in Hid as ->]; eexists; (split; [vm_compute; reflexivity|done]))
    ltac:(vm_compute; reflexivity)) as H.
  vm_compute in H |- *. split_and!; [reflexivity|reflexivity|].
  exact (proj1 (H 2 ltac:(repeat constructor))).
Defined.
