(* ===== verification/Scheduler.v ===== *)
(** * The notification scheduler

    [internal/store/notify_scheduler.go]: callbacks submitted under a key go to that
    key's lane; eight workers take lanes from a bounded channel and run one callback
    of a lane at a time.  Lanes are objects the map, the channel and the workers
    share, so they live in a heap of their own here.  [submit], [next] and the locked
    part of [finish] each hold [mu]; the channel send that follows [finish] is a step
    of its own. *)

From S2P Require Import Prelude.

Definition notificationWorkerCount : nat := 8.
Definition notificationQueueLimit : Z := 256.
Definition notificationLanePendingLimit : Z := 32.

(** ** State *)

(** A callback, by a number; [t_run] is whether it is set. *)
Record notificationTask : Type := mkTask {
  t_id : Z;
  t_run : bool;
  t_coalesce : bool
}.

Record notificationLane : Type := mkLane {
  l_key : string;
  l_queued : bool;
  l_running : bool;
  l_pending : list notificationTask
}.

Record notificationScheduler : Type := mkSched {
  cancelled : bool;
  ready : list Z;
  lanes : gmap string Z;
  heap : gmap Z notificationLane;
  pending : Z;
  next_lane : Z
}.

Definition newNotificationScheduler : notificationScheduler := mkSched false [] ∅ ∅ 0 0.

Definition set_lane (s : notificationScheduler) (i : Z) (l : notificationLane)
    : notificationScheduler :=
  mkSched (cancelled s) (ready s) (lanes s) (<[i := l]> (heap s)) (pending s) (next_lane s).

Definition drop_lane (s : notificationScheduler) (key : string) : notificationScheduler :=
  mkSched (cancelled s) (ready s) (delete key (lanes s)) (heap s) (pending s) (next_lane s).

Definition set_pending (s : notificationScheduler) (n : Z) : notificationScheduler :=
  mkSched (cancelled s) (ready s) (lanes s) (heap s) n (next_lane s).

Definition set_ready (s : notificationScheduler) (r : list Z) : notificationScheduler :=
  mkSched (cancelled s) r (lanes s) (heap s) (pending s) (next_lane s).

(** The tail of a lane takes a coalescible callback in place of a coalescible one. *)
Definition coalesces (l : notificationLane) (t : notificationTask) : bool :=
  t_coalesce t && match last (l_pending l) with Some t' => t_coalesce t' | None => false end.

Definition replace_last (l : list notificationTask) (t : notificationTask)
    : list notificationTask := take (length l - 1) l ++ [t].

(** ** Operations *)

(** [submit] once the lane is found or made. *)
Definition submit_lane (s : notificationScheduler) (i : Z) (l : notificationLane) (newLane : bool)
    (t : notificationTask) : bool * notificationScheduler :=
  if coalesces l t then
    (true, set_lane s i (mkLane (l_key l) (l_queued l) (l_running l) (replace_last (l_pending l) t)))
  else if len (l_pending l) >=? notificationLanePendingLimit then (false, s)
  else if (pending s >=? notificationQueueLimit) && negb newLane then
    (false, if (len (l_pending l) =? 0) && negb (l_running l) && negb (l_queued l)
            then drop_lane s (l_key l) else s)
  else
    let s1 := set_pending s (pending s + 1) in
    if l_running l || l_queued l then
      (true, set_lane s1 i (mkLane (l_key l) (l_queued l) (l_running l) (l_pending l ++ [t])))
    else if len (ready s) <? notificationQueueLimit then
      (true, set_ready
               (set_lane s1 i (mkLane (l_key l) true (l_running l) (l_pending l ++ [t])))
               (ready s ++ [i]))
    else (false, drop_lane (set_lane s i (mkLane (l_key l) false (l_running l) (l_pending l))) (l_key l)).

Definition submit (s : notificationScheduler) (key : string) (t : notificationTask)
    : bool * notificationScheduler :=
  if cancelled s || negb (t_run t) then (false, s)
  else
    match lanes s !! key with
    | None =>
        if Z.of_nat (size (lanes s)) >=? notificationQueueLimit then (false, s)
        else
          let i := next_lane s in
          let l := mkLane key false false [] in
          submit_lane
            (mkSched (cancelled s) (ready s) (<[key := i]> (lanes s)) (<[i := l]> (heap s)) (pending s)
               (i + 1)) i l true t
    | Some i =>
        match heap s !! i with
        | Some l => submit_lane s i l false t
        | None => (false, s)
        end
    end.

Definition next (s : notificationScheduler) (i : Z) : option notificationTask * notificationScheduler :=
  match heap s !! i with
  | Some l =>
      match l_pending l with
      | t :: rest =>
          if cancelled s || negb (l_queued l) then (None, s)
          else (Some t, set_pending (set_lane s i (mkLane (l_key l) false true rest)) (pending s - 1))
      | [] => (None, s)
      end
  | None => (None, s)
  end.

(** The locked part of [finish]; the answer is whether the lane is sent on [ready]. *)
Definition finish (s : notificationScheduler) (i : Z) : bool * notificationScheduler :=
  match heap s !! i with
  | Some l =>
      if cancelled s || (len (l_pending l) =? 0)
      then (false, drop_lane (set_lane s i (mkLane (l_key l) (l_queued l) false (l_pending l))) (l_key l))
      else (true, set_lane s i (mkLane (l_key l) true false (l_pending l)))
  | None => (false, s)
  end.

Definition stop (s : notificationScheduler) : notificationScheduler :=
  mkSched true (ready s) (lanes s) (heap s) (pending s) (next_lane s).

(** [Listener.schedule]: without a scheduler the callback runs in place, otherwise it is
    submitted and a refusal is only logged. *)
Definition schedule (scheduler : option notificationScheduler) (key : string) (t : notificationTask)
    : list notificationTask * option notificationScheduler :=
  match scheduler with
  | None => ([t], None)
  | Some s => ([], Some (submit s key t).2)
  end.

(** ** The scheduler and its workers *)

(** Where a worker is: waiting, holding a lane it received, holding the callback it is
    about to run, after the callback, about to send the lane again, gone. *)
Inductive worker : Type :=
| WIdle
| WTaken (i : Z)
| WGot (i : Z) (t : notificationTask)
| WRan (i : Z)
| WSending (i : Z)
| WGone.

(** With a record of what was accepted for each key, a coalesced callback replaced,
    and of what was started. *)
Record world : Type := mkWorld {
  sched : notificationScheduler;
  workers : list worker;
  accepted : string -> list notificationTask;
  started : string -> list notificationTask
}.

Definition upd (f : string -> list notificationTask) (k : string) (l : list notificationTask)
    : string -> list notificationTask := fun k' => if decide (k = k') then l else f k'.

Definition lane_key (s : notificationScheduler) (i : Z) : string :=
  match heap s !! i with Some l => l_key l | None => EmptyString end.

(** What a submission adds to the record. *)
Definition record_submit (s : notificationScheduler) (key : string) (t : notificationTask)
    (acc : string -> list notificationTask) : string -> list notificationTask :=
  match lanes s !! key with
  | Some i =>
      match heap s !! i with
      | Some l => if coalesces l t then upd acc key (replace_last (acc key) t)
                  else upd acc key (acc key ++ [t])
      | None => acc
      end
  | None => upd acc key (acc key ++ [t])
  end.

(** The loop of a worker. *)
Inductive worker_step : world -> world -> Prop :=
| step_take s ws1 ws2 acc st i r :
    ready s = i :: r ->
    worker_step (mkWorld s (ws1 ++ WIdle :: ws2) acc st)
                (mkWorld (set_ready s r) (ws1 ++ WTaken i :: ws2) acc st)
| step_next s ws1 ws2 acc st i s' r :
    next s i = (r, s') ->
    worker_step (mkWorld s (ws1 ++ WTaken i :: ws2) acc st)
                (mkWorld s' (ws1 ++ match r with Some t => WGot i t | None => WIdle end :: ws2) acc st)
| step_run s ws1 ws2 acc st i t :
    worker_step (mkWorld s (ws1 ++ WGot i t :: ws2) acc st)
                (mkWorld s (ws1 ++ WRan i :: ws2) acc
                   (if cancelled s then st else upd st (lane_key s i) (st (lane_key s i) ++ [t])))
| step_finish s ws1 ws2 acc st i s' b :
    finish s i = (b, s') ->
    worker_step (mkWorld s (ws1 ++ WRan i :: ws2) acc st)
                (mkWorld s' (ws1 ++ (if b : bool then WSending i else WIdle) :: ws2) acc st)
| step_send s ws1 ws2 acc st i :
    len (ready s) < notificationQueueLimit ->
    worker_step (mkWorld s (ws1 ++ WSending i :: ws2) acc st)
                (mkWorld (set_ready s (ready s ++ [i])) (ws1 ++ WIdle :: ws2) acc st).

(** Submissions, [stop], and the workers; after [stop] a worker that waits may leave. *)
Inductive step : world -> world -> Prop :=
| step_submit s ws acc st key t s' ok :
    submit s key t = (ok, s') ->
    step (mkWorld s ws acc st)
         (mkWorld s' ws (if ok then record_submit s key t acc else acc) st)
| step_worker w w' : worker_step w w' -> step w w'
| step_stop s ws acc st : step (mkWorld s ws acc st) (mkWorld (stop s) ws acc st)
| step_exit s ws1 ws2 acc st w :
    cancelled s = true -> w = WIdle \/ (exists i, w = WSending i) ->
    step (mkWorld s (ws1 ++ w :: ws2) acc st) (mkWorld s (ws1 ++ WGone :: ws2) acc st).

Definition world_init : world :=
  mkWorld newNotificationScheduler (replicate notificationWorkerCount WIdle) (fun _ => [])
    (fun _ => []).

(** ** Invariant *)

Definition queue_token (w : worker) : list Z :=
  match w with WTaken i | WSending i => [i] | _ => [] end.

Definition run_token (w : worker) : list Z :=
  match w with WGot i _ | WRan i => [i] | _ => [] end.

(** The lanes waiting for a worker: in the channel, just received, about to be sent. *)
Definition waiting (s : notificationScheduler) (ws : list worker) : list Z :=
  ready s ++ flat_map queue_token ws.

Definition running (ws : list worker) : list Z := flat_map run_token ws.

Definition lane_pending (s : notificationScheduler) (i : Z) : list notificationTask :=
  match heap s !! i with Some l => l_pending l | None => [] end.

Definition live (s : notificationScheduler) : list Z := (map_to_list (lanes s)).*2.

Definition sum_over (f : Z -> Z) (l : list Z) : Z := foldr (fun i n => f i + n) 0 l.

Definition key_pending (s : notificationScheduler) (k : string) : list notificationTask :=
  match lanes s !! k with Some i => lane_pending s i | None => [] end.

(** The callbacks of [k] taken from its lane and not yet started. *)
Definition in_hand (s : notificationScheduler) (ws : list worker) (k : string)
    : list notificationTask :=
  flat_map (fun w => match w with
                     | WGot i t => if decide (lane_key s i = k) then [t] else []
                     | _ => []
                     end) ws.

Record sched_inv (s : notificationScheduler) (ws : list worker) : Prop := mkSchedInv {
  si_lane : forall k i, lanes s !! k = Some i -> i < next_lane s /\
    exists l, heap s !! i = Some l /\ l_key l = k /\ len (l_pending l) <= notificationLanePendingLimit;
  si_fresh : forall i, next_lane s <= i -> heap s !! i = None;
  si_tokens : waiting s ws ++ running ws ≡ₚ live s;
  si_waiting : forall i, i ∈ waiting s ws -> exists l, heap s !! i = Some l /\
    l_queued l = true /\ l_running l = false /\ l_pending l <> [];
  si_running : forall i, i ∈ running ws -> exists l, heap s !! i = Some l /\
    l_queued l = false /\ l_running l = true;
  si_size : Z.of_nat (size (lanes s)) <= notificationQueueLimit;
  si_pending : pending s = sum_over (fun i => len (lane_pending s i)) (live s);
  si_excess : sum_over (fun i => Z.max 0 (len (lane_pending s i) - 1)) (live s) <=
    notificationQueueLimit
}.

Record world_inv (w : world) : Prop := mkWorldInv {
  wi_sched : sched_inv (sched w) (workers w);
  wi_fifo : forall k,
    accepted w k = started w k ++ in_hand (sched w) (workers w) k ++ key_pending (sched w) k
}.

(** ** Sums over the live lanes *)

Lemma sum_over_perm f l l' : l ≡ₚ l' -> sum_over f l = sum_over f l'.
Proof. induction 1; simpl; lia. Qed.

Lemma sum_over_ext f g l : (forall i, i ∈ l -> f i = g i) -> sum_over f l = sum_over g l.
Proof.
  induction l as [|i l IH]; intros H; simpl; [done|].
  rewrite (H i) by left. rewrite IH; [done|]. intros j Hj. apply H. by right.
Qed.

Lemma sum_over_nonneg f l : (forall i, 0 <= f i) -> 0 <= sum_over f l.
Proof. intros H. induction l as [|i l IH]; simpl; [lia|]. specialize (H i). lia. Qed.

(** The live lanes are distinct objects. *)
Lemma live_nodup s ws : sched_inv s ws -> NoDup (live s).
Proof.
  intros [I _ _ _ _ _ _ _]. unfold live. apply NoDup_fmap_2_strong; [|apply NoDup_map_to_list].
  intros [k1 i1] [k2 i2] H1 H2 E. simpl in E. subst i2.
  apply elem_of_map_to_list in H1, H2. destruct (I k1 i1 H1) as (_ & l1 & E1 & <- & _).
  destruct (I k2 i1 H2) as (_ & l2 & E2 & <- & _). by simplify_eq.
Qed.

Lemma live_lookup s i : i ∈ live s <-> exists k, lanes s !! k = Some i.
Proof.
  unfold live. rewrite list_elem_of_fmap. split.
  - intros ([k j] & -> & H). exists k. by apply elem_of_map_to_list.
  - intros [k H]. exists (k, i). split; [done|]. by apply elem_of_map_to_list.
Qed.

Lemma token_live s ws i :
  sched_inv s ws -> i ∈ waiting s ws ++ running ws -> exists l, heap s !! i = Some l /\
    lanes s !! l_key l = Some i /\ len (l_pending l) <= notificationLanePendingLimit.
Proof.
  intros I Hi. rewrite (si_tokens _ _ I), live_lookup in Hi. destruct Hi as [k Hk].
  destruct (si_lane _ _ I k i Hk) as (_ & l & E & <- & H). by exists l.
Qed.

(** A live lane is waiting or running. *)
Lemma live_token s ws k i :
  sched_inv s ws -> lanes s !! k = Some i -> i ∈ waiting s ws \/ i ∈ running ws.
Proof.
  intros I Hk. apply elem_of_app. rewrite (si_tokens _ _ I), live_lookup. by exists k.
Qed.

Lemma live_split s i :
  NoDup (live s) -> i ∈ live s -> exists l, live s ≡ₚ i :: l /\ i ∉ l.
Proof.
  intros Hn Hi. apply elem_of_Permutation in Hi as [l Hl]. exists l. split; [done|].
  rewrite Hl in Hn. by inversion_clear Hn.
Qed.

(** Changing one live lane changes the sums by that lane's part. *)
Lemma sum_lane f g s i :
  NoDup (live s) -> i ∈ live s -> (forall j, j <> i -> f j = g j) ->
  sum_over g (live s) = sum_over f (live s) - f i + g i.
Proof.
  intros Hn Hi Hfg. destruct (live_split s i Hn Hi) as (l & Hl & Hni).
  rewrite (sum_over_perm g _ _ Hl), (sum_over_perm f _ _ Hl). simpl.
  rewrite (sum_over_ext g f l); [lia|]. intros j Hj. symmetry. apply Hfg. by intros ->.
Qed.

Lemma live_insert s k i heap' n :
  lanes s !! k = None ->
  live (mkSched (cancelled s) (ready s) (<[k := i]> (lanes s)) heap' (pending s) n) ≡ₚ i :: live s.
Proof. intros Hk. unfold live. simpl. by rewrite map_to_list_insert. Qed.

Lemma live_delete s k i :
  lanes s !! k = Some i -> live s ≡ₚ i :: live (drop_lane s k).
Proof.
  intros Hk. unfold live. simpl. rewrite <- (insert_id (lanes s) k i Hk) at 1.
  rewrite <- insert_delete_eq, map_to_list_insert by apply lookup_delete_eq. done.
Qed.

(** ** Preservation *)

#[local] Arguments waiting : simpl never.
#[local] Arguments running : simpl never.

Section Tokens.
Variables (s : notificationScheduler) (ws1 ws2 : list worker).

Lemma waiting_mid w :
  waiting s (ws1 ++ w :: ws2) ≡ₚ queue_token w ++ waiting s (ws1 ++ ws2).
Proof. unfold waiting. rewrite !flat_map_app. simpl. solve_Permutation. Qed.

Lemma running_mid w : running (ws1 ++ w :: ws2) ≡ₚ run_token w ++ running (ws1 ++ ws2).
Proof. unfold running. rewrite !flat_map_app. simpl. solve_Permutation. Qed.

End Tokens.

(** A step that only moves tokens. *)
Lemma sched_inv_retoken s ws r ws' :
  sched_inv s ws -> waiting (set_ready s r) ws' ≡ₚ waiting s ws -> running ws' ≡ₚ running ws ->
  sched_inv (set_ready s r) ws'.
Proof.
  intros [] Hw Hr. split; simpl; try done.
  - by rewrite Hw, Hr.
  - intros i Hi. rewrite Hw in Hi. auto.
  - intros i Hi. rewrite Hr in Hi. auto.
Qed.

Definition lane_ok (s : notificationScheduler) (ws : list worker) (i : Z) (l : notificationLane)
    : Prop :=
  (i ∈ waiting s ws -> l_queued l = true /\ l_running l = false /\ l_pending l <> []) /\
  (i ∈ running ws -> l_queued l = false /\ l_running l = true).

Lemma excess_le_pending s l :
  sum_over (fun i => Z.max 0 (len (lane_pending s i) - 1)) l <=
  sum_over (fun i => len (lane_pending s i)) l.
Proof. induction l as [|i l IH]; simpl; unfold len in *; lia. Qed.

(** A step that rewrites one live lane. *)
Lemma sched_inv_update s ws s' ws' i l l' :
  sched_inv s ws -> heap s !! i = Some l -> lanes s !! l_key l = Some i ->
  l_key l' = l_key l -> lanes s' = lanes s -> heap s' = <[i := l']> (heap s) ->
  next_lane s' = next_lane s ->
  pending s' = pending s + len (l_pending l') - len (l_pending l) ->
  len (l_pending l') <= notificationLanePendingLimit ->
  waiting s' ws' ++ running ws' ≡ₚ live s ->
  (forall j, j <> i -> j ∈ waiting s' ws' -> j ∈ waiting s ws) ->
  (forall j, j <> i -> j ∈ running ws' -> j ∈ running ws) ->
  lane_ok s' ws' i l' ->
  len (l_pending l') <= Z.max 1 (len (l_pending l)) \/ pending s' <= notificationQueueLimit ->
  sched_inv s' ws'.
Proof.
  intros I Hl Hk Ek Elanes Eheap En Ep Hlim Htok Hw Hr [Hiw Hir] Hex.
  assert (Hlive : live s' = live s) by (unfold live; by rewrite Elanes).
  assert (Hin : i ∈ live s) by (apply live_lookup; eauto).
  assert (Hlp : forall j, lane_pending s' j = if decide (j = i) then l_pending l' else lane_pending s j).
  { intros j. unfold lane_pending. rewrite Eheap. case_decide as Ej.
    - subst j. by rewrite lookup_insert_eq.
    - by rewrite lookup_insert_ne. }
  assert (Hlpi : lane_pending s i = l_pending l) by (unfold lane_pending; by rewrite Hl).
  assert (Hsum : sum_over (fun j => len (lane_pending s' j)) (live s) = pending s').
  { rewrite (sum_lane (fun j => len (lane_pending s j)) _ s i (live_nodup _ _ I) Hin).
    - rewrite <- (si_pending _ _ I), Hlp, decide_True, Hlpi by done. lia.
    - intros j Hj. by rewrite Hlp, decide_False. }
  split.
  - intros k j Hkj. rewrite Elanes in Hkj. rewrite En, Eheap.
    destruct (si_lane _ _ I k j Hkj) as (Hj & lj & Elj & <- & Hlj). split; [done|].
    destruct (decide (i = j)) as [<-|Hne].
    + exists l'. rewrite lookup_insert_eq. simplify_eq. done.
    + exists lj. by rewrite lookup_insert_ne.
  - intros j Hj. rewrite En in Hj. rewrite Eheap. assert (H := si_fresh _ _ I j Hj).
    rewrite lookup_insert_ne; [done|]. intros ->. by rewrite Hl in H.
  - by rewrite Hlive.
  - intros j Hj. rewrite Eheap. destruct (decide (j = i)) as [->|Hne].
    + exists l'. rewrite lookup_insert_eq. split; [done|]. by apply Hiw.
    + rewrite lookup_insert_ne by done. apply (si_waiting _ _ I). by apply Hw.
  - intros j Hj. rewrite Eheap. destruct (decide (j = i)) as [->|Hne].
    + exists l'. rewrite lookup_insert_eq. split; [done|]. by apply Hir.
    + rewrite lookup_insert_ne by done. apply (si_running _ _ I). by apply Hr.
  - rewrite Elanes. apply I.
  - by rewrite Hlive, Hsum.
  - rewrite Hlive. destruct Hex as [Hex|Hex].
    + rewrite (sum_lane (fun j => Z.max 0 (len (lane_pending s j) - 1)) _ s i (live_nodup _ _ I) Hin).
      * assert (H := si_excess _ _ I). rewrite Hlp, decide_True, Hlpi by done. unfold len in *. lia.
      * intros j Hj. by rewrite Hlp, decide_False.
    + assert (H := excess_le_pending s' (live s)). lia.
Qed.

Lemma tokens_nodup s ws : sched_inv s ws -> NoDup (waiting s ws ++ running ws).
Proof. intros I. rewrite (si_tokens _ _ I). by eapply live_nodup. Qed.

Lemma live_size s : length (live s) = size (lanes s).
Proof. unfold live. by rewrite length_fmap, length_map_to_list. Qed.

Lemma ready_le_live s ws : sched_inv s ws ->
  len (ready s) + len (flat_map queue_token ws) <= Z.of_nat (size (lanes s)).
Proof.
  intros I. rewrite <- live_size. rewrite <- (Permutation_length (si_tokens _ _ I)).
  unfold waiting, len. rewrite !length_app. lia.
Qed.

(** A lane in the table is never idle, so the two branches of [submit] that drop a
    lane are dead. *)
Lemma live_busy s ws k i l :
  sched_inv s ws -> lanes s !! k = Some i -> heap s !! i = Some l ->
  l_running l || l_queued l = true /\ l_key l = k.
Proof.
  intros I Hk Hl. destruct (si_lane _ _ I k i Hk) as (_ & l0 & E0 & Ek & _). simplify_eq.
  split; [|done]. destruct (live_token s ws _ i I Hk) as [Hi|Hi].
  - destruct (si_waiting _ _ I i Hi) as (l1 & E1 & Q & R & _). simplify_eq. by rewrite Q, orb_true_r.
  - destruct (si_running _ _ I i Hi) as (l1 & E1 & Q & R). simplify_eq. by rewrite R.
Qed.

Lemma length_replace_last l t : l <> [] -> length (replace_last l t) = length l.
Proof.
  intros H. unfold replace_last. rewrite length_app, length_take. simpl. destruct l; [done|].
  simpl. lia.
Qed.

Lemma coalesces_nonempty l t : coalesces l t = true -> l_pending l <> [].
Proof. unfold coalesces. destruct (l_pending l); [by rewrite andb_false_r|done]. Qed.

(** What an accepted submission to an existing lane writes. *)
Definition submitted (l : notificationLane) (t : notificationTask) : notificationLane :=
  mkLane (l_key l) (l_queued l) (l_running l)
    (if coalesces l t then replace_last (l_pending l) t else l_pending l ++ [t]).

Lemma submit_existing s ws key i l t ok s' :
  sched_inv s ws -> lanes s !! key = Some i -> heap s !! i = Some l ->
  submit s key t = (ok, s') ->
  (ok = false /\ s' = s) \/
  (ok = true /\ s' = set_pending (set_lane s i (submitted l t))
                       (pending s + len (l_pending (submitted l t)) - len (l_pending l)) /\
   (coalesces l t = false -> len (l_pending l) < notificationLanePendingLimit /\
                             pending s < notificationQueueLimit)).
Proof.
  intros I Hk Hl E. destruct (live_busy _ _ _ _ _ I Hk Hl) as [Hb Hkey].
  unfold submit in E. rewrite Hk, Hl in E. destruct (cancelled s || negb (t_run t)); [simplify_eq; by left|].
  unfold submit_lane in E. unfold submitted.
  destruct (coalesces l t) eqn:Ec.
  { simplify_eq. right. split; [done|]. split; [|done]. simpl. unfold len.
    rewrite length_replace_last by (by eapply coalesces_nonempty). destruct s; simpl.
    unfold set_pending, set_lane; simpl. f_equal. lia. }
  destruct (_ >=? notificationLanePendingLimit) eqn:El; [simplify_eq; by left|].
  rewrite Hb in E. rewrite andb_true_r in E.
  destruct (pending s >=? notificationQueueLimit) eqn:Eq.
  { left. destruct (l_running l); [|destruct (l_queued l); [|done]];
      rewrite ?andb_false_r in E; simpl in E; simplify_eq; done. }
  simplify_eq. right. split; [done|]. split; [|intros _; lia]. simpl. rewrite len_app.
  unfold set_pending, set_lane; simpl. f_equal. unfold len. simpl. lia.
Qed.

Lemma submit_existing_inv s ws key i l t ok s' :
  sched_inv s ws -> lanes s !! key = Some i -> heap s !! i = Some l ->
  submit s key t = (ok, s') -> sched_inv s' ws.
Proof.
  intros I Hk Hl E. destruct (live_busy _ _ _ _ _ I Hk Hl) as [_ Hkey].
  destruct (submit_existing _ _ _ _ _ _ _ _ I Hk Hl E) as [[_ ->]|(_ & -> & Hlim)]; [done|].
  assert (Hlen : coalesces l t = true -> len (l_pending (submitted l t)) = len (l_pending l)).
  { intros Ec. unfold submitted. rewrite Ec. unfold len. simpl.
    by rewrite length_replace_last by (by eapply coalesces_nonempty). }
  assert (Hlen' : coalesces l t = false -> len (l_pending (submitted l t)) = len (l_pending l) + 1).
  { intros Ec. unfold submitted. rewrite Ec. simpl. rewrite len_app. done. }
  assert (Hne : l_pending (submitted l t) <> []).
  { unfold submitted, replace_last. simpl. by destruct (coalesces l t); intros []%app_nil. }
  subst key. destruct (si_lane _ _ I _ i Hk) as (_ & l0 & E0 & _ & Hl0). simplify_eq.
  eapply (sched_inv_update s ws _ ws i l (submitted l t)); try done.
  - destruct (coalesces l t); [rewrite Hlen by done|rewrite Hlen' by done; specialize (Hlim eq_refl)]; lia.
  - apply (si_tokens _ _ I).
  - split.
    + intros Hi. destruct (si_waiting _ _ I i Hi) as (l1 & E1 & Q & R & _). simplify_eq.
      unfold submitted in *. simpl in *. auto.
    + intros Hi. destruct (si_running _ _ I i Hi) as (l1 & E1 & Q & R). simplify_eq. done.
  - destruct (coalesces l t) eqn:Ec; [left; rewrite Hlen by done; lia|right].
    cbn [pending set_pending]. rewrite Hlen' by done. specialize (Hlim eq_refl). lia.
Qed.

(** A submission under a key without a lane is refused only when stopped, empty or when
    the table is full; otherwise it makes the lane and puts it in the channel. *)
Lemma submit_fresh s ws key t ok s' :
  sched_inv s ws -> lanes s !! key = None -> submit s key t = (ok, s') ->
  (ok = false /\ s' = s /\
   (cancelled s = true \/ t_run t = false \/ Z.of_nat (size (lanes s)) = notificationQueueLimit)) \/
  (ok = true /\ Z.of_nat (size (lanes s)) < notificationQueueLimit /\
   s' = mkSched (cancelled s) (ready s ++ [next_lane s]) (<[key := next_lane s]> (lanes s))
          (<[next_lane s := mkLane key true false [t]]> (heap s)) (pending s + 1) (next_lane s + 1)).
Proof.
  intros I Hk E. unfold submit in E. rewrite Hk in E.
  destruct (cancelled s || negb (t_run t)) eqn:Ec.
  { injection E as <- <-. left. split; [done|]. split; [done|]. destruct (cancelled s), (t_run t); auto; done. }
  assert (Hsz := si_size _ _ I).
  destruct (Z.of_nat (size (lanes s)) >=? notificationQueueLimit) eqn:Esz.
  { injection E as <- <-. left. split; [done|]. split; [done|]. right; right. lia. }
  right. assert (Hr := ready_le_live _ _ I). unfold submit_lane, coalesces in E.
  cbn [l_pending l_queued l_running last] in E. rewrite andb_false_r in E.
  change (len (@nil notificationTask) >=? notificationLanePendingLimit) with false in E.
  rewrite andb_false_r in E. cbn [orb] in E.
  replace (len (ready _) <? notificationQueueLimit) with true in E
    by (simpl; unfold len in *; lia).
  injection E as <- <-. split; [done|]. split; [lia|]. unfold set_ready, set_lane, set_pending. simpl.
  by rewrite insert_insert_eq.
Qed.

Lemma submit_fresh_inv s ws key t ok s' :
  sched_inv s ws -> lanes s !! key = None -> submit s key t = (ok, s') -> sched_inv s' ws.
Proof.
  intros I Hk E. destruct (submit_fresh _ _ _ _ _ _ I Hk E) as [(_ & -> & _)|(_ & Hsz & ->)]; [done|].
  set (i := next_lane s). set (l' := mkLane key true false [t]).
  match goal with |- sched_inv ?x _ => set (s1 := x) end.
  assert (Hfresh : heap s !! i = None) by (apply (si_fresh _ _ I); done).
  assert (Hold : forall j l, heap s !! j = Some l -> heap s1 !! j = Some l).
  { intros j l Hj. unfold s1. simpl. rewrite lookup_insert_ne; [done|]. intros <-. by rewrite Hfresh in Hj. }
  assert (Hnew : heap s1 !! i = Some l') by (unfold s1; simpl; by rewrite lookup_insert_eq).
  assert (Hlive : live s1 ≡ₚ i :: live s) by (unfold live, s1; simpl; by rewrite map_to_list_insert).
  assert (Hpend : forall f : Z -> Z, sum_over (fun j => f (len (lane_pending s1 j))) (live s1) =
      f 1 + sum_over (fun j => f (len (lane_pending s j))) (live s)).
  { intros f. rewrite (sum_over_perm _ _ _ Hlive). simpl. f_equal.
    - unfold lane_pending. by rewrite Hnew.
    - apply sum_over_ext. intros j [k Hj]%live_lookup. destruct (si_lane _ _ I k j Hj) as (_ & l & El & _).
      unfold lane_pending. by rewrite El, (Hold _ _ El). }
  split.
  - intros k j Hkj. unfold s1 in Hkj. simpl in Hkj. destruct (decide (key = k)) as [<-|Hne].
    + rewrite lookup_insert_eq in Hkj. simplify_eq. split; [simpl; lia|]. by exists l'.
    + rewrite lookup_insert_ne in Hkj by done. destruct (si_lane _ _ I k j Hkj) as (Hj & l & El & H).
      split; [simpl; lia|]. exists l. auto.
  - intros j Hj. simpl in *. rewrite lookup_insert_ne by lia. apply (si_fresh _ _ I). lia.
  - rewrite Hlive, <- (si_tokens _ _ I). unfold waiting. simpl. solve_Permutation.
  - intros j Hj. destruct (decide (j = i)) as [->|Hne]; [by exists l'|].
    destruct (si_waiting _ _ I j) as (l & El & H); [|exists l; auto].
    unfold waiting in *. simpl in Hj. rewrite !elem_of_app, list_elem_of_singleton in *. naive_solver.
  - intros j Hj. destruct (si_running _ _ I j Hj) as (l & El & H). exists l. auto.
  - simpl. rewrite map_size_insert_None by done. lia.
  - rewrite (Hpend (fun z => z)), <- (si_pending _ _ I). simpl. lia.
  - rewrite (Hpend (fun z => Z.max 0 (z - 1))). assert (H := si_excess _ _ I). simpl. lia.
Qed.

Lemma submit_inv s ws key t ok s' :
  sched_inv s ws -> submit s key t = (ok, s') -> sched_inv s' ws.
Proof.
  intros I E. destruct (lanes s !! key) as [i|] eqn:Hk; [|by eapply submit_fresh_inv].
  destruct (si_lane _ _ I key i Hk) as (_ & l & Hl & _). by eapply submit_existing_inv.
Qed.

(** The lane of a worker in the middle of the list, and that no other token is on it. *)
Lemma worker_lane s ws1 ws2 w i :
  sched_inv s (ws1 ++ w :: ws2) -> queue_token w ++ run_token w = [i] ->
  (i ∉ waiting s (ws1 ++ ws2)) /\ (i ∉ running (ws1 ++ ws2)) /\
  (live s ≡ₚ i :: waiting s (ws1 ++ ws2) ++ running (ws1 ++ ws2)) /\
  exists l, heap s !! i = Some l /\ lanes s !! l_key l = Some i /\
            len (l_pending l) <= notificationLanePendingLimit.
Proof.
  intros I Hw.
  assert (P : waiting s (ws1 ++ w :: ws2) ++ running (ws1 ++ w :: ws2) ≡ₚ
              i :: waiting s (ws1 ++ ws2) ++ running (ws1 ++ ws2)).
  { rewrite waiting_mid, running_mid. transitivity ((queue_token w ++ run_token w) ++
      waiting s (ws1 ++ ws2) ++ running (ws1 ++ ws2)); [solve_Permutation|]. by rewrite Hw. }
  assert (N := tokens_nodup _ _ I). rewrite P in N. apply NoDup_cons in N as [N _].
  rewrite elem_of_app in N. split; [tauto|]. split; [tauto|]. split; [by rewrite <- (si_tokens _ _ I), P|].
  eapply token_live; [done|]. rewrite P. left.
Qed.

Lemma next_taken s ws1 ws2 i :
  sched_inv s (ws1 ++ WTaken i :: ws2) -> cancelled s = false ->
  exists l t rest, heap s !! i = Some l /\ lanes s !! l_key l = Some i /\ l_pending l = t :: rest /\
    next s i = (Some t, set_pending (set_lane s i (mkLane (l_key l) false true rest)) (pending s - 1)) /\
    sched_inv (set_pending (set_lane s i (mkLane (l_key l) false true rest)) (pending s - 1))
      (ws1 ++ WGot i t :: ws2).
Proof.
  intros I Hc. destruct (worker_lane s ws1 ws2 (WTaken i) i I eq_refl) as (Nw & Nr & Hlive & l & El & Ek & Hlen).
  destruct (si_waiting _ _ I i) as (l0 & E0 & Q & R & Hp).
  { rewrite waiting_mid. simpl. left. }
  simplify_eq. destruct (l_pending l) as [|t rest] eqn:Epend; [done|].
  exists l, t, rest. split; [done|]. split; [done|]. split; [done|]. split.
  { unfold next. rewrite El, Epend, Hc, Q. done. }
  rewrite len_cons in Hlen.
  eapply (sched_inv_update s _ _ _ i l (mkLane (l_key l) false true rest)); try done; simpl;
    try rewrite Epend, len_cons; try lia.
  - rewrite waiting_mid, running_mid, Hlive. simpl. unfold waiting. simpl. solve_Permutation.
  - intros j Hj. rewrite !waiting_mid. simpl. rewrite elem_of_cons. auto.
  - intros j Hj. rewrite !running_mid. simpl. rewrite elem_of_cons. naive_solver.
  - split; [|done]. rewrite waiting_mid. simpl. intros Hi. by destruct Nw.
Qed.

(** The lane of a worker that finds nothing more to run is dropped. *)
Lemma finish_drop s ws1 ws2 i l l' :
  sched_inv s (ws1 ++ WRan i :: ws2) -> heap s !! i = Some l -> l_pending l = [] ->
  sched_inv (drop_lane (set_lane s i l') (l_key l)) (ws1 ++ WIdle :: ws2).
Proof.
  intros I El Ep.
  destruct (worker_lane s ws1 ws2 (WRan i) i I eq_refl) as (Nw & Nr & Hlive & l0 & El0 & Ek & _).
  simplify_eq. assert (Hd := live_delete s (l_key l) i Ek).
  set (s1 := drop_lane (set_lane s i l') (l_key l)).
  assert (Hlive' : live s1 ≡ₚ waiting s (ws1 ++ ws2) ++ running (ws1 ++ ws2)).
  { apply (Permutation_cons_inv (a := i)). change (live s1) with (live (drop_lane s (l_key l))).
    by rewrite <- Hd, <- Hlive. }
  assert (Hother : forall j, j <> i -> heap s1 !! j = heap s !! j).
  { intros j Hj. unfold s1. simpl. by rewrite lookup_insert_ne. }
  assert (Hsum : forall f : Z -> Z, f 0 = 0 ->
      sum_over (fun j => f (len (lane_pending s1 j))) (live s1) =
      sum_over (fun j => f (len (lane_pending s j))) (live s)).
  { intros f Hf. rewrite (sum_over_perm _ _ _ Hd). simpl. unfold lane_pending at 2. rewrite El, Ep.
    change (len (@nil notificationTask)) with 0. rewrite Hf, Z.add_0_l. apply sum_over_ext.
    intros j Hj. change (j ∈ live s1) in Hj. rewrite Hlive', elem_of_app in Hj. unfold lane_pending.
    rewrite Hother; [done|]. intros ->. tauto. }
  split.
  - intros k j Hkj. unfold s1 in Hkj. simpl in Hkj. apply lookup_delete_Some in Hkj as [Hne' Hkj].
    destruct (si_lane _ _ I k j Hkj) as (Hj & lj & Elj & Ekj & Hlj). split; [done|]. exists lj.
    rewrite Hother; [done|]. intros ->. by simplify_eq.
  - intros j Hj. simpl in Hj. assert (Hf := si_fresh _ _ I j Hj). rewrite Hother; [done|].
    intros ->. by rewrite El in Hf.
  - rewrite waiting_mid, running_mid. simpl. by rewrite Hlive'.
  - intros j. rewrite waiting_mid. simpl. intros Hj. rewrite Hother by (by intros ->).
    apply (si_waiting _ _ I). by rewrite waiting_mid.
  - intros j. rewrite running_mid. simpl. intros Hj. rewrite Hother by (by intros ->).
    apply (si_running _ _ I). rewrite running_mid. simpl. by right.
  - simpl. assert (H := si_size _ _ I). rewrite map_size_delete_Some by (by eexists). lia.
  - rewrite (Hsum (fun z => z)) by done. apply (si_pending _ _ I).
  - rewrite (Hsum (fun z => Z.max 0 (z - 1))) by done. apply (si_excess _ _ I).
Qed.

(** The other lanes keep their keys when one is rewritten under the same key. *)
Lemma lane_key_update s s1 i l l' j :
  heap s !! i = Some l -> heap s1 = <[i := l']> (heap s) -> l_key l' = l_key l ->
  lane_key s1 j = lane_key s j.
Proof.
  intros El Es El'. unfold lane_key. rewrite Es. destruct (decide (i = j)) as [<-|Hne].
  - by rewrite lookup_insert_eq, El.
  - by rewrite lookup_insert_ne.
Qed.

Lemma finish_inv s ws1 ws2 i b s' :
  sched_inv s (ws1 ++ WRan i :: ws2) -> cancelled s = false -> finish s i = (b, s') ->
  sched_inv s' (ws1 ++ (if b then WSending i else WIdle) :: ws2) /\
  (forall j, lane_key s' j = lane_key s j) /\ (forall k, key_pending s' k = key_pending s k).
Proof.
  intros I Hc E.
  destruct (worker_lane s ws1 ws2 (WRan i) i I eq_refl) as (Nw & Nr & Hlive & l & El & Ek & Hlen).
  unfold finish in E. rewrite El, Hc in E. simpl in E. destruct (l_pending l) as [|t rest] eqn:Ep.
  - injection E as <- <-. split; [by apply finish_drop|]. split; [intros j; by eapply lane_key_update|].
    intros k. unfold key_pending. simpl. destruct (decide (l_key l = k)) as [<-|Hne].
    + rewrite lookup_delete_eq, Ek. unfold lane_pending. by rewrite El.
    + rewrite lookup_delete_ne by done. destruct (lanes s !! k) as [j|] eqn:Hj; [|done].
      unfold lane_pending. simpl. rewrite lookup_insert_ne; [done|]. intros <-.
      destruct (si_lane _ _ I k i Hj) as (_ & lj & Elj & Ekj & _). by simplify_eq.
  - injection E as <- <-. split; [|split; [intros j; by eapply lane_key_update|]].
    + eapply (sched_inv_update s _ _ _ i l (mkLane (l_key l) true false (t :: rest))); try done; simpl;
        rewrite ?Ep; try lia; try done.
      * rewrite waiting_mid, running_mid, Hlive. simpl. unfold waiting. simpl. solve_Permutation.
      * intros j Hj. rewrite !waiting_mid. simpl. rewrite elem_of_cons. naive_solver.
      * intros j Hj. rewrite !running_mid. simpl. rewrite elem_of_cons. auto.
      * split; [done|]. rewrite running_mid. simpl. done.
    + intros k. unfold key_pending, lane_pending. simpl. destruct (lanes s !! k) as [j|]; [|done].
      destruct (decide (i = j)) as [<-|Hne]; [by rewrite lookup_insert_eq, El, Ep|by rewrite lookup_insert_ne].
Qed.

(** ** Order of callbacks *)

Lemma in_hand_ext s s' ws k :
  (forall i, i ∈ running ws -> lane_key s' i = lane_key s i) -> in_hand s' ws k = in_hand s ws k.
Proof.
  unfold in_hand, running. induction ws as [|w ws IH]; simpl; intros H; [done|].
  rewrite IH by (intros i Hi; apply H, elem_of_app; by right).
  destruct w; try done. rewrite H; [done|]. apply elem_of_app. left. left.
Qed.

Lemma in_hand_app s ws1 ws2 k : in_hand s (ws1 ++ ws2) k = in_hand s ws1 k ++ in_hand s ws2 k.
Proof. apply flat_map_app. Qed.

(** No callback of a key is in hand when its lane is not running. *)
Lemma in_hand_none s ws ws' i l :
  sched_inv s ws -> (forall j, j ∈ running ws' -> j ∈ running ws) ->
  heap s !! i = Some l -> i ∉ running ws' -> lanes s !! l_key l = Some i -> in_hand s ws' (l_key l) = [].
Proof.
  intros I Hsub El Hni Ek. induction ws' as [|w ws' IH]; [done|].
  assert (IH' : in_hand s ws' (l_key l) = []).
  { apply IH; [intros j Hj; apply Hsub|intros Hj; apply Hni];
      unfold running; simpl; apply elem_of_app; by right. }
  unfold in_hand in *. simpl. rewrite IH'. destruct w as [| |j t| | |]; try done.
  case_decide as Hk; [|done]. exfalso. apply Hni.
  destruct (token_live s ws j I) as (lj & Elj & Ekj & _).
  { apply elem_of_app. right. apply Hsub. unfold running. simpl. left. }
  unfold lane_key in Hk. rewrite Elj in Hk. rewrite Hk, Ek in Ekj. simplify_eq.
  unfold running. simpl. left.
Qed.

Lemma in_hand_mid s ws1 ws2 w i l :
  sched_inv s (ws1 ++ w :: ws2) -> heap s !! i = Some l -> lanes s !! l_key l = Some i ->
  i ∉ running (ws1 ++ ws2) -> in_hand s ws1 (l_key l) = [] /\ in_hand s ws2 (l_key l) = [].
Proof.
  intros I El Ek Hni.
  assert (H : in_hand s (ws1 ++ ws2) (l_key l) = []).
  { eapply in_hand_none; try done. intros j Hj. rewrite running_mid. apply elem_of_app. by right. }
  rewrite in_hand_app in H. by apply app_nil in H.
Qed.

Lemma upd_same f k l : upd f k l k = l.
Proof. unfold upd. by rewrite decide_True. Qed.

Lemma upd_ne f k k' l : k <> k' -> upd f k l k' = f k'.
Proof. intros H. unfold upd. by rewrite decide_False. Qed.

Lemma replace_last_app x l t : l <> [] -> replace_last (x ++ l) t = x ++ replace_last l t.
Proof.
  intros H. unfold replace_last. rewrite length_app, app_assoc. f_equal.
  destruct l as [|a l]; [done|]. simpl.
  replace (length x + S (length l) - 1)%nat with (length x + length l)%nat by lia.
  rewrite take_app_add. by rewrite Nat.sub_0_r.
Qed.

(** What [submit] does to the callbacks waiting under each key. *)
Lemma submit_pending s ws key t ok s' :
  sched_inv s ws -> submit s key t = (ok, s') ->
  cancelled s' = cancelled s /\
  (forall i, i ∈ running ws -> lane_key s' i = lane_key s i) /\
  forall k, key_pending s' k =
    if ok then upd (key_pending s) key
                (match lanes s !! key ≫= (heap s !!.) with
                 | Some l => l_pending (submitted l t)
                 | None => [t]
                 end) k
    else key_pending s k.
Proof.
  intros I E. destruct (lanes s !! key) as [i|] eqn:Hk.
  - destruct (si_lane _ _ I key i Hk) as (_ & l & El & Ekey & _). simpl. rewrite El.
    destruct (submit_existing _ _ _ _ _ _ _ _ I Hk El E) as [[-> ->]|(-> & -> & _)]; [done|].
    split; [done|]. split.
    { intros j _. eapply lane_key_update; [exact El|reflexivity|done]. }
    intros k. destruct (decide (key = k)) as [<-|Hne].
    + rewrite upd_same. unfold key_pending, lane_pending. simpl. rewrite Hk. by rewrite lookup_insert_eq.
    + rewrite upd_ne by done. unfold key_pending, lane_pending. simpl.
      destruct (lanes s !! k) as [j|] eqn:Hj; [|done]. rewrite lookup_insert_ne; [done|]. intros <-.
      destruct (si_lane _ _ I k i Hj) as (_ & lj & Elj & Ekj & _). by simplify_eq.
  - destruct (submit_fresh _ _ _ _ _ _ I Hk E) as [(-> & -> & _)|(-> & _ & ->)]; [done|].
    split; [done|]. assert (Hf : heap s !! next_lane s = None) by (by apply (si_fresh _ _ I)).
    assert (Hold : forall j l, heap s !! j = Some l -> next_lane s <> j).
    { intros j l Hj <-. by rewrite Hf in Hj. }
    split.
    { intros j Hj. destruct (si_running _ _ I j Hj) as (l & El & _). unfold lane_key. simpl.
      rewrite lookup_insert_ne by (by eapply Hold). done. }
    intros k. simpl. destruct (decide (key = k)) as [<-|Hne].
    + rewrite upd_same. unfold key_pending, lane_pending. simpl. by rewrite !lookup_insert_eq.
    + rewrite upd_ne by done. unfold key_pending, lane_pending. simpl. rewrite lookup_insert_ne by done.
      destruct (lanes s !! k) as [j|] eqn:Hj; [|done].
      destruct (si_lane _ _ I k j Hj) as (_ & lj & Elj & _).
      rewrite lookup_insert_ne by (by eapply Hold). done.
Qed.

Lemma submit_step_inv s ws acc st key t ok s' :
  world_inv (mkWorld s ws acc st) -> submit s key t = (ok, s') ->
  world_inv (mkWorld s' ws (if ok then record_submit s key t acc else acc) st).
Proof.
  intros [I F] E. simpl in *. split; simpl; [by eapply submit_inv|]. intros k.
  destruct (submit_pending _ _ _ _ _ _ I E) as (_ & Hkey & Hp).
  rewrite (in_hand_ext s s' ws k Hkey), Hp. destruct ok; [|apply F].
  unfold record_submit. destruct (lanes s !! key) as [i|] eqn:Hk; simpl.
  - destruct (si_lane _ _ I key i Hk) as (_ & l & El & _ & _). rewrite El. simpl.
    assert (Ep : key_pending s key = l_pending l) by (unfold key_pending, lane_pending; by rewrite Hk, El).
    destruct (coalesces l t) eqn:Ec; (destruct (decide (key = k)) as [<-|Hne];
      [rewrite !upd_same, F, Ep|rewrite !upd_ne by done; apply F]).
    + assert (Hne := coalesces_nonempty _ _ Ec). rewrite app_assoc, replace_last_app by done.
      by rewrite <- app_assoc.
    + by rewrite <- !app_assoc.
  - destruct (decide (key = k)) as [<-|Hne]; [|rewrite !upd_ne by done; apply F].
    rewrite !upd_same, F. unfold key_pending. rewrite Hk. by rewrite app_nil_r, <- app_assoc.
Qed.

Lemma next_step_inv s ws1 ws2 acc st i r s' :
  world_inv (mkWorld s (ws1 ++ WTaken i :: ws2) acc st) -> cancelled s = false -> next s i = (r, s') ->
  world_inv (mkWorld s' (ws1 ++ match r with Some t => WGot i t | None => WIdle end :: ws2) acc st).
Proof.
  intros [I F] Hc E. simpl in *.
  destruct (next_taken _ _ _ _ I Hc) as (l & t & rest & El & Ek & Ep & E' & I').
  rewrite E in E'. injection E' as -> ->. split; [done|]. simpl. intros k. rewrite F.
  destruct (worker_lane s ws1 ws2 (WTaken i) i I eq_refl) as (_ & Nr & _).
  destruct (in_hand_mid _ _ _ _ _ _ I El Ek Nr) as [H1 H2].
  erewrite (in_hand_ext s _ (ws1 ++ WGot i t :: ws2)) by (intros j _; by eapply lane_key_update).
  rewrite !in_hand_app. change (in_hand s (WTaken i :: ws2) k) with (in_hand s ws2 k).
  unfold in_hand at 4. simpl. fold (in_hand s ws2 k). unfold lane_key. rewrite El.
  destruct (decide (l_key l = k)) as [<-|Hne].
  - rewrite H1, H2. simpl. unfold key_pending, lane_pending. simpl. rewrite Ek, El, lookup_insert_eq.
    by rewrite Ep.
  - simpl. f_equal. f_equal. unfold key_pending, lane_pending. simpl.
    destruct (lanes s !! k) as [j|] eqn:Hj; [|done]. rewrite lookup_insert_ne; [done|]. intros <-.
    destruct (si_lane _ _ I k i Hj) as (_ & lj & Elj & Ekj & _). by simplify_eq.
Qed.

Lemma run_step_inv s ws1 ws2 acc st i t :
  world_inv (mkWorld s (ws1 ++ WGot i t :: ws2) acc st) ->
  world_inv (mkWorld s (ws1 ++ WRan i :: ws2) acc (upd st (lane_key s i) (st (lane_key s i) ++ [t]))).
Proof.
  intros [I F]. simpl in *.
  destruct (worker_lane s ws1 ws2 (WGot i t) i I eq_refl) as (_ & Nr & _ & l & El & Ek & _).
  destruct (in_hand_mid _ _ _ _ _ _ I El Ek Nr) as [H1 H2]. split; simpl.
  - assert (I' : sched_inv (set_ready s (ready s)) (ws1 ++ WRan i :: ws2)).
    { apply (sched_inv_retoken s _ _ _ I); [|by rewrite !running_mid].
      change (waiting (set_ready s (ready s))) with (waiting s). by rewrite !waiting_mid. }
    by destruct s.
  - intros k. rewrite F, !in_hand_app. change (in_hand s (WRan i :: ws2) k) with (in_hand s ws2 k).
    unfold in_hand at 2. simpl. fold (in_hand s ws2 k). unfold lane_key. rewrite El.
    destruct (decide (l_key l = k)) as [<-|Hne].
    + rewrite H1, H2, upd_same. simpl. by rewrite <- app_assoc.
    + by rewrite upd_ne.
Qed.

(** Steps that only move a token leave the order alone. *)
Lemma retoken_step_inv s ws1 ws2 w w' acc st r :
  world_inv (mkWorld s (ws1 ++ w :: ws2) acc st) ->
  waiting (set_ready s r) (ws1 ++ w' :: ws2) ≡ₚ waiting s (ws1 ++ w :: ws2) ->
  run_token w = [] -> run_token w' = [] ->
  world_inv (mkWorld (set_ready s r) (ws1 ++ w' :: ws2) acc st).
Proof.
  intros [I F] Hw Hr Hr'. simpl in *. split; simpl.
  - apply (sched_inv_retoken s _ _ _ I); [done|]. by rewrite !running_mid, Hr, Hr'.
  - intros k. rewrite F, (in_hand_ext s (set_ready s r)) by done. rewrite !in_hand_app.
    assert (H : forall v, run_token v = [] -> in_hand s (v :: ws2) k = in_hand s ws2 k) by (by intros []).
    by rewrite !H.
Qed.

(** ** Reachable states *)

Inductive reachable : world -> Prop :=
| reach_init : reachable world_init
| reach_step w w' : reachable w -> step w w' -> reachable w'.

Lemma worker_cancelled w w' : worker_step w w' -> cancelled (sched w') = cancelled (sched w).
Proof.
  intros H. destruct H as [|s ws1 ws2 acc st i s' r E| |s ws1 ws2 acc st i s' b E|]; simpl; try done.
  - unfold next in E. by split_matches.
  - unfold finish in E. by split_matches.
Qed.

Lemma step_cancelled w w' : step w w' -> cancelled (sched w') = false -> cancelled (sched w) = false.
Proof.
  intros H. destruct H as [s ws acc st key t s' ok E|w w' H| |]; simpl; try done.
  - unfold submit, submit_lane in E. by split_matches.
  - by rewrite (worker_cancelled _ _ H).
Qed.

Lemma worker_inv w w' : world_inv w -> cancelled (sched w) = false -> worker_step w w' -> world_inv w'.
Proof.
  intros I Hc Hs. destruct Hs; simpl in *.
  - eapply retoken_step_inv; try done. rewrite !waiting_mid. unfold waiting. simpl. rewrite H.
    solve_Permutation.
  - by eapply next_step_inv.
  - rewrite Hc. by apply run_step_inv.
  - destruct I as [I F]. destruct (finish_inv _ _ _ _ _ _ I Hc H) as (I' & Hk & Hp). split; [done|].
    simpl in *. intros k. rewrite F, Hp. rewrite (in_hand_ext s s') by done. rewrite !in_hand_app.
    by destruct b.
  - eapply retoken_step_inv; try done. rewrite !waiting_mid. unfold waiting. simpl. solve_Permutation.
Qed.

Definition no_worker_gone (w : world) : Prop :=
  length (workers w) = notificationWorkerCount /\ WGone ∉ workers w.

Lemma worker_gone w w' : worker_step w w' -> no_worker_gone w -> no_worker_gone w'.
Proof.
  unfold no_worker_gone. intros Hs [Hl Hg].
  assert (H : exists ws1 v v' ws2, workers w = ws1 ++ v :: ws2 /\ workers w' = ws1 ++ v' :: ws2 /\ v' <> WGone).
  { destruct Hs; simpl; repeat eexists; try done; [by destruct r|by destruct b]. }
  destruct H as (ws1 & v & v' & ws2 & E & E' & Hv). rewrite E in Hl, Hg. rewrite E'.
  rewrite length_app in *. split; [done|]. rewrite elem_of_app, elem_of_cons in *. naive_solver.
Qed.

Lemma step_inv w w' :
  world_inv w /\ no_worker_gone w -> cancelled (sched w') = false -> step w w' ->
  world_inv w' /\ no_worker_gone w'.
Proof.
  intros [I G] Hc' Hs. assert (Hc := step_cancelled _ _ Hs Hc'). destruct Hs; simpl in *; try done.
  - split; [by eapply submit_step_inv|done].
  - split; [by eapply worker_inv|by eapply worker_gone].
  - congruence.
Qed.

Lemma init_inv : world_inv world_init.
Proof.
  split; [|done]. split; simpl; try done; try lia; intros i Hi; by apply elem_of_nil in Hi.
Qed.

Lemma reachable_inv w :
  reachable w -> cancelled (sched w) = false -> world_inv w /\ no_worker_gone w.
Proof.
  induction 1 as [|w w' _ IH Hs]; intros Hc.
  { split; [apply init_inv|]. split; [done|]. rewrite list_elem_of_In. simpl. naive_solver. }
  eapply step_inv; [apply IH|done|done]. by eapply step_cancelled.
Qed.

(** ** Draining *)

Definition phase (w : worker) : Z :=
  match w with WGot _ _ => 4 | WRan _ => 3 | WSending _ => 2 | _ => 0 end.

(** Each pending callback costs a take, a next, a run, a finish and a send. *)
Definition work_left (w : world) : Z :=
  5 * pending (sched w) + len (ready (sched w)) + foldr (fun v n => phase v + n) 0 (workers w).

Lemma phase_mid ws1 v ws2 :
  foldr (fun v n => phase v + n) 0 (ws1 ++ v :: ws2) =
  phase v + foldr (fun v n => phase v + n) 0 (ws1 ++ ws2).
Proof. induction ws1 as [|u ws1 IH]; simpl; lia. Qed.

Lemma finish_frame s i b s' : finish s i = (b, s') -> ready s' = ready s /\ pending s' = pending s.
Proof. unfold finish. intros E. by split_matches. Qed.

Lemma work_left_decreases w w' :
  world_inv w -> cancelled (sched w) = false -> worker_step w w' -> work_left w' < work_left w.
Proof.
  intros [I _] Hc Hs. destruct Hs; unfold work_left; simpl in *; rewrite !phase_mid; simpl.
  - rewrite H, len_cons. lia.
  - destruct (next_taken _ _ _ _ I Hc) as (l & t & rest & _ & _ & _ & E & _). rewrite H in E.
    injection E as -> ->. simpl. lia.
  - lia.
  - destruct (finish_frame _ _ _ _ H) as [-> ->]. destruct b; simpl; lia.
  - rewrite len_app. unfold len at 2. simpl. lia.
Qed.

Lemma work_left_nonneg w : world_inv w -> 0 <= work_left w.
Proof.
  intros [I _]. unfold work_left. rewrite (si_pending _ _ I).
  assert (H := sum_over_nonneg (fun i => len (lane_pending (sched w) i)) (live (sched w))).
  assert (0 <= foldr (fun v n => phase v + n) 0 (workers w)).
  { clear. induction (workers w) as [|v ws IH]; simpl; [lia|]. destruct v; simpl; lia. }
  unfold len in *. specialize (H ltac:(intros; lia)). lia.
Qed.

(** A worker that holds something can always go on; if none does, a lane waits in the
    channel and a worker can take it, or there is no lane at all. *)
Lemma worker_can_step w :
  world_inv w -> no_worker_gone w -> (forall w', ~ worker_step w w') -> lanes (sched w) = ∅.
Proof.
  destruct w as [s ws acc st]. intros [I _] [Hlen Hg] Hstuck. simpl in *.
  assert (Hidle : forall v, v ∈ ws -> v = WIdle).
  { intros v Hv. apply list_elem_of_split in Hv as (ws1 & ws2 & ->).
    destruct v as [|i|i t|i|i|]; [done|exfalso..].
    - destruct (next s i) as [r s'] eqn:E. by eapply Hstuck, step_next.
    - by eapply Hstuck, step_run.
    - destruct (finish s i) as [b s'] eqn:E. by eapply Hstuck, step_finish.
    - eapply Hstuck, step_send. assert (H := ready_le_live _ _ I). assert (H' := si_size _ _ I).
      rewrite flat_map_app, len_app in H. simpl in H. rewrite len_cons in H. unfold len in *. lia.
    - apply Hg, elem_of_app. right. left. }
  assert (Hq : forall f : worker -> list Z, f WIdle = [] -> flat_map f ws = []).
  { intros f Hf. clear - Hidle Hf. induction ws as [|v ws IH]; simpl; [done|].
    rewrite (Hidle v), Hf by left. apply IH. intros u Hu. apply Hidle. by right. }
  assert (Hr : ready s = []).
  { destruct (ready s) as [|i r] eqn:E; [done|]. exfalso. destruct ws as [|v ws']; [done|].
    assert (v = WIdle) as -> by (apply Hidle; left). exact (Hstuck _ (step_take s [] ws' acc st i r E)). }
  apply map_size_empty_inv. rewrite <- live_size, <- (Permutation_length (si_tokens _ _ I)).
  unfold waiting, running. by rewrite !Hq, Hr.
Qed.

Lemma in_hand_empty s ws k : running ws = [] -> in_hand s ws k = [].
Proof.
  unfold running, in_hand. induction ws as [|v ws IH]; simpl; [done|]. intros [H1 H2]%app_nil.
  rewrite IH by done. by destruct v.
Qed.

Lemma empty_all_started w k :
  world_inv w -> lanes (sched w) = ∅ -> accepted w k = started w k.
Proof.
  intros [I F] E. rewrite F. unfold key_pending. rewrite E, lookup_empty, app_nil_r.
  rewrite in_hand_empty; [by rewrite app_nil_r|].
  assert (P := si_tokens _ _ I). unfold live in P. rewrite E, map_to_list_empty in P.
  apply Permutation_nil_r, app_nil in P. tauto.
Qed.

(** [n] steps of the workers. *)
Inductive worker_run : nat -> world -> world -> Prop :=
| run_nil w : worker_run 0 w w
| run_cons n w w1 w2 : worker_step w w1 -> worker_run n w1 w2 -> worker_run (S n) w w2.

Lemma worker_run_inv n w w' :
  worker_run n w w' -> world_inv w /\ no_worker_gone w -> cancelled (sched w) = false ->
  (world_inv w' /\ no_worker_gone w') /\ accepted w' = accepted w /\
  Z.of_nat n + work_left w' <= work_left w.
Proof.
  induction 1 as [w|n w w1 w2 Hs _ IH]; intros [I G] Hc; [split; [done|split; [done|lia]]|].
  destruct IH as (I' & Ha & Hm).
  - split; [by eapply worker_inv|by eapply worker_gone].
  - by rewrite (worker_cancelled _ _ Hs).
  - split; [done|]. split; [rewrite Ha; by destruct Hs|].
    assert (H := work_left_decreases _ _ I Hc Hs). lia.
Qed.

(** The workers take one lane at a time, and a key has one lane. *)
Lemma running_keys_nodup s ws :
  sched_inv s ws -> NoDup (lane_key s <$> running ws).
Proof.
  intros I. apply NoDup_fmap_2_strong.
  - intros i j Hi Hj E. unfold lane_key in E.
    destruct (token_live s ws i I) as (li & Ei & Ki & _); [apply elem_of_app; by right|].
    destruct (token_live s ws j I) as (lj & Ej & Kj & _); [apply elem_of_app; by right|].
    rewrite Ei, Ej in E. rewrite E in Ki. congruence.
  - assert (N := tokens_nodup _ _ I). by apply NoDup_app in N as (_ & _ & N).
Qed.

Lemma excess_bound (f : Z -> Z) l :
  (forall i, 0 <= f i) ->
  sum_over f l <= sum_over (fun i => Z.max 0 (f i - 1)) l + len l.
Proof.
  intros H. induction l as [|i l IH]; simpl; [unfold len; simpl; lia|].
  rewrite len_cons. specialize (H i). lia.
Qed.

(** ** Properties *)

(** While the scheduler runs, whatever the interleaving of submitters and
    workers: at most 256 keys have a lane, a lane belongs to its key and holds at most
    32 callbacks, the shared counter is the number of callbacks pending and is at most
    512, a worker about to put a lane back finds room in the channel, and a lane in the
    table is waiting for exactly one worker or held by exactly one. *)
Theorem scheduler_bounds (w : world) :
  reachable w -> cancelled (sched w) = false ->
  Z.of_nat (size (lanes (sched w))) <= 256 /\
  (forall k i, lanes (sched w) !! k = Some i ->
     exists l, heap (sched w) !! i = Some l /\ l_key l = k /\ len (l_pending l) <= 32) /\
  pending (sched w) = sum_over (fun i => len (lane_pending (sched w) i)) (live (sched w)) /\
  pending (sched w) <= 512 /\
  (forall i, WSending i ∈ workers w -> len (ready (sched w)) < 256) /\
  NoDup (waiting (sched w) (workers w) ++ running (workers w)) /\
  (waiting (sched w) (workers w) ++ running (workers w) ≡ₚ live (sched w)).
Proof.
  intros R Hc. destruct (reachable_inv w R Hc) as [[I _] _].
  split; [apply I|]. split; [|split; [apply I|split; [|split; [|split; [by apply tokens_nodup|apply I]]]]].
  - intros k i Hk. destruct (si_lane _ _ I k i Hk) as (_ & l & H). by exists l.
  - rewrite (si_pending _ _ I).
    assert (H := excess_bound (fun i => len (lane_pending (sched w) i)) (live (sched w))).
    assert (H1 := si_excess _ _ I). assert (H2 := si_size _ _ I). rewrite <- live_size in H2.
    specialize (H ltac:(intros; unfold len; lia)). unfold notificationQueueLimit in *.
    assert (E : len (live (sched w)) = Z.of_nat (length (live (sched w)))) by done. lia.
  - intros i Hi. apply list_elem_of_split in Hi as (ws1 & ws2 & E). rewrite E in I.
    assert (H := ready_le_live _ _ I). assert (H' := si_size _ _ I).
    rewrite flat_map_app, len_app in H. simpl in H. rewrite len_cons in H.
    unfold notificationQueueLimit, len in *. lia.
Qed.

(** Callbacks of one key run in the order they were accepted, one at a
    time: the accepted ones (a coalescible one replacing the coalescible one at the
    tail) are those started, then the one a worker holds, then those pending; and no
    two workers run callbacks of the same key. *)
Theorem scheduler_fifo (w : world) (k : string) :
  reachable w -> cancelled (sched w) = false ->
  accepted w k = started w k ++ in_hand (sched w) (workers w) k ++ key_pending (sched w) k /\
  NoDup (lane_key (sched w) <$> running (workers w)).
Proof.
  intros R Hc. destruct (reachable_inv w R Hc) as [[I F] _]. split; [apply F|].
  by apply running_keys_nodup.
Qed.

(** A key without a lane is turned away only when 256 other keys have
    one, however many callbacks are pending in all: a noisy key cannot take the place
    of a quiet one. *)
Theorem quiet_key_admitted (w : world) (k : string) (t : notificationTask) :
  reachable w -> cancelled (sched w) = false -> lanes (sched w) !! k = None -> t_run t = true ->
  (submit (sched w) k t).1 = bool_decide (Z.of_nat (size (lanes (sched w))) < 256).
Proof.
  intros R Hc Hk Ht. destruct (reachable_inv w R Hc) as [[I _] _].
  destruct (submit (sched w) k t) as [ok s'] eqn:E. simpl.
  destruct (submit_fresh _ _ _ _ _ _ I Hk E) as [(-> & _ & [H|[H|H]])|(-> & H & _)]; try congruence;
    symmetry; [apply bool_decide_eq_false|apply bool_decide_eq_true]; unfold notificationQueueLimit in H; lia.
Qed.

(** Left to themselves the workers finish: from any reachable state they
    can take only [work_left] steps, in any order (five for each pending callback, fewer
    for what is on its way), and when none of them can go on every callback that was
    accepted has been started, in order, under its key. *)
Theorem scheduler_drains (w w' : world) (n : nat) :
  reachable w -> cancelled (sched w) = false -> worker_run n w w' ->
  Z.of_nat n <= work_left w /\
  ((forall v, ~ worker_step w' v) -> forall k, started w' k = accepted w k).
Proof.
  intros R Hc Hr. assert (I := reachable_inv w R Hc).
  destruct (worker_run_inv _ _ _ Hr I Hc) as ([I' G'] & Ha & Hm).
  assert (H := work_left_nonneg _ I'). split; [lia|]. intros Hs k. rewrite <- Ha. symmetry.
  apply empty_all_started; [done|]. by apply worker_can_step.
Qed.

(** ** A run: two callbacks under one key and one under another; a worker holds the
    first. *)

Definition task (n : Z) : notificationTask := mkTask n true false.

Definition demo_submit (w : world) (k : string) (t : notificationTask) : world :=
  mkWorld (submit (sched w) k t).2 (workers w) (record_submit (sched w) k t (accepted w)) (started w).

Definition demo_submitted : world :=
  demo_submit (demo_submit (demo_submit world_init "u1" (task 1)) "u1" (task 2)) "u2" (task 3).

Definition demo_taken : world :=
  mkWorld (set_ready (sched demo_submitted) [1]) (WTaken 0 :: replicate 7 WIdle)
    (accepted demo_submitted) (started demo_submitted).

Definition demo_held : world :=
  mkWorld (next (sched demo_taken) 0).2 (WGot 0 (task 1) :: replicate 7 WIdle)
    (accepted demo_taken) (started demo_taken).

Lemma demo_submit_reachable w k t :
  reachable w -> (submit (sched w) k t).1 = true -> reachable (demo_submit w k t).
Proof.
  intros R E. eapply reach_step; [exact R|]. destruct w as [s ws acc st]. unfold demo_submit. simpl in *.
  destruct (submit s k t) as [ok s'] eqn:Es. simpl in *. subst ok.
  apply (step_submit s ws acc st k t s' true Es).
Qed.

Lemma demo_reachable : reachable demo_held.
Proof.
  apply (reach_step demo_taken).
  - apply (reach_step demo_submitted).
    + repeat apply demo_submit_reachable; [apply reach_init|vm_compute; reflexivity..].
    + apply step_worker. unfold demo_taken.
      apply (step_take (sched demo_submitted) [] (replicate 7 WIdle) _ _ 0 [1]).
      vm_compute. reflexivity.
  - apply step_worker. unfold demo_held.
    apply (step_next (sched demo_taken) [] (replicate 7 WIdle) _ _ 0 _ (Some (task 1))).
    vm_compute. reflexivity.
Qed.

Lemma scheduler_bounds_witness :
  Z.of_nat (size (lanes (sched demo_held))) <= 256 /\ pending (sched demo_held) = 2.
Proof.
  destruct (scheduler_bounds demo_held demo_reachable eq_refl) as [H _].
  split; [exact H|vm_compute; reflexivity].
Defined.

Lemma scheduler_fifo_witness :
  accepted demo_held "u1" =
    started demo_held "u1" ++ in_hand (sched demo_held) (workers demo_held) "u1" ++
    key_pending (sched demo_held) "u1" /\
  in_hand (sched demo_held) (workers demo_held) "u1" = [task 1] /\
  key_pending (sched demo_held) "u1" = [task 2].
Proof.
  destruct (scheduler_fifo demo_held "u1" demo_reachable eq_refl) as [H _].
  split; [exact H|vm_compute; split; reflexivity].
Defined.

Lemma quiet_key_admitted_witness : (submit (sched demo_held) "u3" (task 4)).1 = true.
Proof.
  rewrite (quiet_key_admitted demo_held "u3" (task 4) demo_reachable eq_refl); [|reflexivity..].
  vm_compute. reflexivity.
Defined.

Lemma scheduler_drains_witness : Z.of_nat 0 <= work_left demo_held /\ work_left demo_held = 15.
Proof.
  split; [|vm_compute; reflexivity].
  apply (proj1 (scheduler_drains demo_held demo_held 0 demo_reachable eq_refl (run_nil _))).
Defined.

(** [stop] and a full lane, evaluated. *)
Example stopped_refuses : (submit (stop (sched demo_held)) "u1" (task 5)).1 = false.
Proof. vm_compute. reflexivity. Qed.

Example full_lane_refuses :
  let w := fold_left (fun w n => demo_submit w "u1" (task n)) (seqZ 10 31) demo_held in
  len (key_pending (sched w) "u1") = 32 /\ (submit (sched w) "u1" (task 5)).1 = false /\
  (submit (sched w) "u3" (task 6)).1 = true.
Proof. vm_compute. repeat split; reflexivity. Qed.
