(* ===== verification/GoStrings.v ===== *)
(** * Strings and decimal numbers of the Go standard library

    What the sources use of [strings] and [strconv]: [Cut], [Split], [SplitN] at 2 and
    [TrimPrefix] on a one-byte separator, base-10 [FormatInt] and [ParseInt];
    ASCII [ToLower] and the unpadded URL alphabet of [base64].  The
    callers look only at whether [ParseInt] failed, so its error is [None]. *)

From S2P Require Import Prelude.
From Stdlib Require Import Ascii String.

Open Scope Z_scope.

(** ** [strconv] *)

Definition digit (d : Z) : ascii := ascii_of_nat (48 + Z.to_nat d).

Definition digit_of (c : ascii) : option Z :=
  let n := Z.of_nat (nat_of_ascii c) in
  if (48 <=? n) && (n <=? 57) then Some (n - 48) else None.

(** The digits of [n], least significant first into the buffer; an [int64] has at most
    nineteen of them. *)
Fixpoint format_digits (fuel : nat) (n : Z) (acc : string) : string :=
  match fuel with
  | O => acc
  | S f =>
      let acc := String (digit (n mod 10)) acc in
      if n <? 10 then acc else format_digits f (n / 10) acc
  end.

Definition FormatInt (z : Z) : string :=
  if z <? 0 then String "-" (format_digits 20 (- z) EmptyString)
  else format_digits 20 z EmptyString.

Fixpoint parse_digits (s : string) (n : Z) : option Z :=
  match s with
  | EmptyString => Some n
  | String c s' =>
      match digit_of c with
      | Some d => parse_digits s' (n * 10 + d)
      | None => None
      end
  end.

Definition ParseUint (s : string) : option Z :=
  match s with EmptyString => None | _ => parse_digits s 0 end.

Definition ParseInt (bits : Z) (s : string) : option Z :=
  match s with
  | EmptyString => None
  | String c r =>
      let neg := Ascii.eqb c "-" in
      let body := if neg || Ascii.eqb c "+" then r else s in
      match ParseUint body with
      | None => None
      | Some un =>
          if negb neg && (un >=? 2 ^ (bits - 1)) then None
          else if neg && (un >? 2 ^ (bits - 1)) then None
          else Some (if neg then - un else un)
      end
  end.

(** ** [strings] *)

Fixpoint Cut (sep : ascii) (s : string) : option (string * string) :=
  match s with
  | EmptyString => None
  | String c s' =>
      if Ascii.eqb c sep then Some (EmptyString, s')
      else match Cut sep s' with
           | Some (a, b) => Some (String c a, b)
           | None => None
           end
  end.

Fixpoint Split (sep : ascii) (s : string) : list string :=
  match s with
  | EmptyString => [EmptyString]
  | String c s' =>
      if Ascii.eqb c sep then EmptyString :: Split sep s'
      else match Split sep s' with
           | a :: l => String c a :: l
           | [] => []
           end
  end.

Definition SplitN2 (sep : ascii) (s : string) : list string :=
  match Cut sep s with Some (a, b) => [a; b] | None => [s] end.

(** The rest of [s] after the prefix [p], when it has it. *)
Fixpoint strip_prefix (p s : string) : option string :=
  match p, s with
  | EmptyString, _ => Some s
  | String c p', String d s' => if Ascii.eqb c d then strip_prefix p' s' else None
  | String _ _, EmptyString => None
  end.

Definition HasPrefix (s p : string) : bool := bool_decide (is_Some (strip_prefix p s)).

Definition TrimPrefix (s p : string) : string := default s (strip_prefix p s).

Definition str_len (s : string) : Z := Z.of_nat (String.length s).

(** ** Characters of a string *)

Fixpoint str_all (p : ascii -> bool) (s : string) : bool :=
  match s with
  | EmptyString => true
  | String c s' => p c && str_all p s'
  end.

Definition free_of (sep : ascii) (s : string) : bool := str_all (fun c => negb (Ascii.eqb c sep)) s.

Lemma str_all_app p a b : str_all p (a +:+ b) = str_all p a && str_all p b.
Proof. induction a as [|c a IH]; simpl; [done|]. by rewrite IH, andb_assoc. Qed.

Lemma str_all_impl (p q : ascii -> bool) s :
  (forall c, p c = true -> q c = true) -> str_all p s = true -> str_all q s = true.
Proof.
  intros H. induction s as [|c s IH]; simpl; [done|]. intros [Hc Hs]%andb_prop.
  by rewrite (H c Hc), (IH Hs).
Qed.

Lemma app_str_cons c a b : String c a +:+ b = String c (a +:+ b).
Proof. done. Qed.

Lemma app_str_assoc a b c : (a +:+ b) +:+ c = a +:+ (b +:+ c).
Proof. induction a as [|d a IH]; [done|]. by rewrite !app_str_cons, IH. Qed.

Lemma Cut_app sep a b : free_of sep a = true -> Cut sep (a +:+ String sep b) = Some (a, b).
Proof.
  unfold free_of. induction a as [|c a IH]; simpl; intros H.
  - by rewrite Ascii.eqb_refl.
  - apply andb_prop in H as [Hc Ha]. apply negb_true_iff in Hc. by rewrite Hc, IH.
Qed.

Lemma Cut_none sep a : free_of sep a = true -> Cut sep a = None.
Proof.
  unfold free_of. induction a as [|c a IH]; simpl; intros H; [done|].
  apply andb_prop in H as [Hc Ha]. apply negb_true_iff in Hc. by rewrite Hc, IH.
Qed.

Lemma Cut_sound sep s a b : Cut sep s = Some (a, b) -> s = a +:+ String sep b /\ free_of sep a = true.
Proof.
  revert a. induction s as [|c s IH]; intros a; cbn [Cut]; [done|].
  destruct (Ascii.eqb_spec c sep) as [->|Hne]; [intros E; by simplify_eq|].
  destruct (Cut sep s) as [[x y]|]; [|done]. intros E. simplify_eq. destruct (IH x eq_refl) as [-> Hf].
  split; [done|]. unfold free_of in *. cbn [str_all]. rewrite Hf, andb_true_r. by apply negb_true_iff, Ascii.eqb_neq.
Qed.

Lemma Split_app sep a b : free_of sep a = true -> Split sep (a +:+ String sep b) = a :: Split sep b.
Proof.
  unfold free_of. induction a as [|c a IH]; simpl; intros H.
  - by rewrite Ascii.eqb_refl.
  - apply andb_prop in H as [Hc Ha]. apply negb_true_iff in Hc. by rewrite Hc, IH.
Qed.

Lemma Split_one sep a : free_of sep a = true -> Split sep a = [a].
Proof.
  unfold free_of. induction a as [|c a IH]; simpl; intros H; [done|].
  apply andb_prop in H as [Hc Ha]. apply negb_true_iff in Hc. by rewrite Hc, IH.
Qed.

(** A separator that occurs in neither head cuts both strings at the same place. *)
Lemma sep_app_inj sep a b a' b' :
  free_of sep a = true -> free_of sep a' = true ->
  a +:+ String sep b = a' +:+ String sep b' -> a = a' /\ b = b'.
Proof.
  intros Ha Ha' E. assert (H := Cut_app sep a b Ha). rewrite E, Cut_app in H by done. by simplify_eq.
Qed.

Lemma strip_prefix_app p s : strip_prefix p (p +:+ s) = Some s.
Proof. induction p as [|c p IH]; simpl; [done|]. by rewrite Ascii.eqb_refl. Qed.

Lemma strip_prefix_sound p s r : strip_prefix p s = Some r -> s = p +:+ r.
Proof.
  revert s. induction p as [|c p IH]; intros s; simpl; [intros H; by simplify_eq|].
  destruct s as [|d s]; [done|]. destruct (Ascii.eqb_spec c d) as [->|]; [|done].
  intros H. by rewrite (IH _ H).
Qed.

(** ** Decimal round trip *)

Definition is_digit (c : ascii) : bool := match digit_of c with Some _ => true | None => false end.

(** The characters [FormatInt] writes. *)
Definition number_char (c : ascii) : bool := is_digit c || Ascii.eqb c "-".

Lemma digit_of_digit d : 0 <= d < 10 -> digit_of (digit d) = Some d.
Proof.
  intros H. unfold digit_of, digit. rewrite nat_ascii_embedding by lia.
  replace (Z.of_nat (48 + Z.to_nat d)) with (48 + d) by lia.
  replace ((48 <=? 48 + d) && (48 + d <=? 57)) with true by lia. f_equal. lia.
Qed.

Lemma parse_format_digits fuel n acc :
  0 <= n < 10 ^ Z.of_nat fuel -> parse_digits (format_digits fuel n acc) 0 = parse_digits acc n.
Proof.
  revert n acc. induction fuel as [|f IH]; intros n acc Hn.
  - simpl in Hn. change (10 ^ 0) with 1 in Hn. replace n with 0 by lia. done.
  - cbn [format_digits]. assert (Hm : 0 <= n mod 10 < 10) by (apply Z.mod_pos_bound; lia).
    destruct (Z.ltb_spec n 10).
    + cbn [parse_digits]. rewrite digit_of_digit by done. rewrite Z.mod_small by lia. f_equal.
    + rewrite IH.
      * cbn [parse_digits]. rewrite digit_of_digit by done. f_equal.
        rewrite (Z.div_mod n 10) at 3 by lia. lia.
      * rewrite Nat2Z.inj_succ, Z.pow_succ_r in Hn by lia. split; [apply Z.div_pos; lia|].
        apply Z.div_lt_upper_bound; lia.
Qed.

Lemma format_digits_chars fuel n acc :
  str_all is_digit acc = true -> str_all is_digit (format_digits fuel n acc) = true.
Proof.
  revert n acc. induction fuel as [|f IH]; intros n acc H; [done|]. cbn [format_digits].
  assert (Hd : str_all is_digit (String (digit (n mod 10)) acc) = true).
  { cbn [str_all]. unfold is_digit. rewrite digit_of_digit by (apply Z.mod_pos_bound; lia). done. }
  destruct (n <? 10); [done|]. by apply IH.
Qed.

Lemma format_digits_nonempty fuel n acc : format_digits (S fuel) n acc <> EmptyString.
Proof.
  revert n acc. induction fuel as [|f IH]; intros n acc.
  - simpl. by destruct (n <? 10).
  - cbn [format_digits]. destruct (n <? 10); [done|]. apply IH.
Qed.

Lemma FormatInt_chars z : str_all number_char (FormatInt z) = true.
Proof.
  assert (H : forall n, str_all number_char (format_digits 20 n EmptyString) = true).
  { intros n. eapply str_all_impl; [|by apply (format_digits_chars 20 n EmptyString)].
    intros c Hc. unfold number_char. by rewrite Hc. }
  unfold FormatInt. destruct (z <? 0); [|apply H]. cbn [str_all]. by rewrite H.
Qed.

(** A separator that is neither a digit nor a minus sign. *)
Definition separator (c : ascii) : bool := negb (number_char c).

Lemma FormatInt_free sep z : separator sep = true -> free_of sep (FormatInt z) = true.
Proof.
  intros Hs. eapply str_all_impl; [|apply FormatInt_chars]. intros c Hc.
  destruct (Ascii.eqb_spec c sep) as [->|]; [|done]. unfold separator in Hs. by rewrite Hc in Hs.
Qed.

Definition int_range (bits z : Z) : Prop := - 2 ^ (bits - 1) <= z < 2 ^ (bits - 1).

#[global] Instance int_range_dec bits z : Decision (int_range bits z).
Proof. unfold int_range. apply _. Defined.

Lemma ParseUint_format n :
  0 <= n < 10 ^ 20 -> ParseUint (format_digits 20 n EmptyString) = Some n.
Proof.
  intros H. unfold ParseUint.
  assert (Hp := parse_format_digits 20 n EmptyString ltac:(simpl; lia)).
  assert (Hn := format_digits_nonempty 19 n EmptyString).
  destruct (format_digits 20 n EmptyString); [done|]. by rewrite Hp.
Qed.

(** The first character a number without a sign starts with. *)
Lemma format_digits_head n : exists c s,
  format_digits 20 n EmptyString = String c s /\ Ascii.eqb c "-" = false /\ Ascii.eqb c "+" = false.
Proof.
  assert (Hc := format_digits_chars 20 n EmptyString eq_refl).
  assert (Hn := format_digits_nonempty 19 n EmptyString).
  destruct (format_digits 20 n EmptyString) as [|c s]; [done|]. exists c, s. split; [done|].
  cbn [str_all] in Hc. apply andb_prop in Hc as [Hc _].
  split; [destruct (Ascii.eqb_spec c "-") as [->|]|destruct (Ascii.eqb_spec c "+") as [->|]]; done.
Qed.

Lemma ParseInt_FormatInt bits z :
  1 <= bits <= 64 -> int_range bits z -> ParseInt bits (FormatInt z) = Some z.
Proof.
  intros Hb [Hlo Hhi].
  assert (Hpow : 2 ^ (bits - 1) <= 2 ^ 63) by (apply Z.pow_le_mono_r; lia).
  assert (Hmax : 2 ^ 63 < 10 ^ 20) by done.
  unfold FormatInt. destruct (Z.ltb_spec z 0).
  - cbn [ParseInt]. rewrite Ascii.eqb_refl. cbn [orb negb andb]. rewrite ParseUint_format by lia.
    replace (- z >? 2 ^ (bits - 1)) with false by lia. f_equal. lia.
  - destruct (format_digits_head z) as (c & s & E & Hm & Hp).
    assert (Hu := ParseUint_format z ltac:(lia)). rewrite E in *. cbn [ParseInt].
    rewrite Hm, Hp. cbn [orb]. rewrite Hu. cbn [negb andb].
    replace (z >=? 2 ^ (bits - 1)) with false by lia. done.
Qed.

Lemma FormatInt_inj z z' :
  int_range 64 z -> int_range 64 z' -> FormatInt z = FormatInt z' -> z = z'.
Proof.
  intros H H' E. assert (P := ParseInt_FormatInt 64 z ltac:(lia) H).
  rewrite E, ParseInt_FormatInt in P by (done || lia). by simplify_eq.
Qed.

Lemma parse_digits_nonneg s n m : 0 <= n -> parse_digits s n = Some m -> 0 <= m.
Proof.
  revert n. induction s as [|c s IH]; intros n Hn; simpl; [intros E; by simplify_eq|].
  destruct (digit_of c) as [d|] eqn:E; [|done]. apply IH. unfold digit_of in E.
  destruct (_ && _) eqn:Eb; [|done]. simplify_eq. lia.
Qed.

Lemma ParseUint_nonneg s n : ParseUint s = Some n -> 0 <= n.
Proof. destruct s as [|c s]; [done|]. unfold ParseUint. apply parse_digits_nonneg. lia. Qed.

Lemma ParseInt_range bits s z : 1 <= bits -> ParseInt bits s = Some z -> int_range bits z.
Proof.
  intros Hb H. assert (Hpos : 0 < 2 ^ (bits - 1)) by (apply Z.pow_pos_nonneg; lia).
  unfold ParseInt in H. destruct s as [|c r]; [done|].
  destruct (ParseUint _) as [un|] eqn:Eu; [|done]. apply ParseUint_nonneg in Eu.
  unfold int_range. destruct (Ascii.eqb c "-"); cbn [negb andb] in H; case_match; try done;
    simplify_eq; lia.
Qed.

(** ** Case and base64 *)

Definition lower (c : ascii) : ascii :=
  let n := Z.of_nat (nat_of_ascii c) in
  if (65 <=? n) && (n <=? 90) then ascii_of_nat (Z.to_nat (n + 32)) else c.

(** [strings.ToLower] on ASCII text, which is what the handles the server admits are. *)
Fixpoint ToLower (s : string) : string :=
  match s with EmptyString => EmptyString | String c s' => String (lower c) (ToLower s') end.

Lemma lower_lower c : lower (lower c) = lower c.
Proof. by destruct c as [[] [] [] [] [] [] [] []]. Qed.

Lemma ToLower_idem s : ToLower (ToLower s) = ToLower s.
Proof. induction s as [|c s IH]; [done|]. simpl. by rewrite lower_lower, IH. Qed.

(** [base64.RawURLEncoding]: no padding. *)
Definition url_digit (n : Z) : ascii :=
  if n <? 26 then ascii_of_nat (Z.to_nat (65 + n))
  else if n <? 52 then ascii_of_nat (Z.to_nat (71 + n))
  else if n <? 62 then ascii_of_nat (Z.to_nat (n - 4))
  else if n =? 62 then "-"%char else "_"%char.

Fixpoint RawURLEncode (bs : list Z) : string :=
  match bs with
  | a :: b :: c :: rest =>
      let v := Z.lor (Z.shiftl a 16) (Z.lor (Z.shiftl b 8) c) in
      String (url_digit (Z.shiftr v 18)) (String (url_digit (Z.land (Z.shiftr v 12) 63))
        (String (url_digit (Z.land (Z.shiftr v 6) 63)) (String (url_digit (Z.land v 63)) (RawURLEncode rest))))
  | [a; b] =>
      let v := Z.lor (Z.shiftl a 8) b in
      String (url_digit (Z.shiftr v 10)) (String (url_digit (Z.land (Z.shiftr v 4) 63))
        (String (url_digit (Z.land (Z.shiftl v 2) 63)) EmptyString))
  | [a] => String (url_digit (Z.shiftr a 2)) (String (url_digit (Z.land (Z.shiftl a 4) 63)) EmptyString)
  | [] => EmptyString
  end.

Example base64_url : RawURLEncode [251; 255; 254; 1; 2] = "-__-AQI"%string.
Proof. reflexivity. Qed.
