(* ===== verification/Intake.v ===== *)
(** * Notification intake

    [internal/store/notify.go] and the emitters of [internal/api/messages.go],
    [account.go] and [encryption.go]: how a nudge is written as a NOTIFY channel and
    payload, what the listener does with each one it receives, the routing key it
    schedules the callback under, and the reconnect loop. *)

From S2P Require Import Prelude.
From S2P Require Import GoStrings.
From S2P Require Import Delivery.
From S2P Require Import Scheduler.
From Stdlib Require Import Ascii String.

Open Scope Z_scope.

Definition ChannelUpdates : string := "tg_updates".
Definition ChannelTyping : string := "tg_typing".
Definition ChannelEvict : string := "tg_evict".
Definition ChannelPost : string := "tg_channel_post".
Definition ChannelEncryption : string := "tg_encryption".
Definition ChannelStatus : string := "tg_status".
Definition ChannelEncryptedMsg : string := "tg_encrypted_msg".
Definition ChannelReactions : string := "tg_reactions".
Definition ChannelPinned : string := "tg_pinned".
Definition ChannelDialogFilters : string := "tg_dialog_filters".

Definition channelMembershipPayloadPrefix : string := "channel_membership|".
Definition chatAdminPayloadPrefix : string := "chat_admin|".

(** [PeerType] is an [int16]; the listener makes only the last two. *)
Definition PeerTypeUser : Z := 1.
Definition PeerTypeChat : Z := 2.
Definition PeerTypeChannel : Z := 3.

Definition bar : ascii := "|".

(** ** Payloads *)

Definition pairPayload (first second : Z) : string :=
  FormatInt first +:+ String bar (FormatInt second).

Definition ChannelPostPayload (channelID : Z) : string := FormatInt channelID.
Definition ChannelMembershipPayload (userID channelID : Z) : string :=
  channelMembershipPayloadPrefix +:+ pairPayload userID channelID.
Definition ChatAdminPayload (chatID eventID : Z) : string :=
  chatAdminPayloadPrefix +:+ pairPayload chatID eventID.
Definition EncryptionPayload (userID chatID : Z) : string := pairPayload userID chatID.
Definition EncryptedMsgPayload (recipientID qts : Z) : string := pairPayload recipientID qts.
Definition TypingPayload (peerID fromID : Z) : string := pairPayload peerID fromID.
Definition EvictPayload (userID authKeyID : Z) : string := pairPayload userID authKeyID.

Definition StatusPayload (userID : Z) (online : bool) : string :=
  FormatInt userID +:+ String bar (if online then "1" else "0").

Definition ReactionPayload (ownerID localID userID : Z) : string :=
  FormatInt ownerID +:+ String bar (FormatInt localID +:+ String bar (FormatInt userID)).

Definition PinnedPayload (peerType peerID pinnedMsgID : Z) : string :=
  let prefix := if peerType =? PeerTypeChannel then "h"%char else "c"%char in
  if negb (pinnedMsgID =? 0)
  then String prefix (FormatInt peerID +:+ String bar (FormatInt pinnedMsgID))
  else String prefix (String "-" (FormatInt peerID)).

Definition parsePairPayload (payload : string) : option (Z * Z) :=
  match Cut bar payload with
  | None => None
  | Some (firstStr, secondStr) =>
      match ParseInt 64 firstStr with
      | None => None
      | Some first =>
          match ParseInt 64 secondStr with
          | None => None
          | Some second => Some (first, second)
          end
      end
  end.

Definition parseUpdatesPayload (payload : string) : option (Z * option SuppressedUpdate) :=
  match Split bar payload with
  | [p0] =>
      match ParseInt 64 p0 with
      | Some userID => if userID <=? 0 then None else Some (userID, None)
      | None => None
      end
  | [p0; p1; p2] =>
      match ParseInt 64 p0 with
      | Some userID =>
          if userID <=? 0 then None
          else
            match ParseInt 64 p1 with
            | Some authKeyID =>
                if authKeyID =? 0 then None
                else
                  match ParseInt 64 p2 with
                  | Some pts => if pts <=? 0 then None else Some (userID, Some (mkSuppressed pts authKeyID))
                  | None => None
                  end
            | None => None
            end
      | None => None
      end
  | _ => None
  end.

Definition positive_pair (p : option (Z * Z)) : option (Z * Z) :=
  match p with
  | Some (a, b) => if (a <=? 0) || (b <=? 0) then None else Some (a, b)
  | None => None
  end.

Definition parseChannelMembershipPayload (payload : string) : option (Z * Z) :=
  if negb (HasPrefix payload channelMembershipPayloadPrefix) then None
  else positive_pair (parsePairPayload (TrimPrefix payload channelMembershipPayloadPrefix)).

Definition parseChatAdminPayload (payload : string) : option (Z * Z) :=
  if negb (HasPrefix payload chatAdminPayloadPrefix) then None
  else positive_pair (parsePairPayload (TrimPrefix payload chatAdminPayloadPrefix)).

Definition parseReactionPayload (payload : string) : option (Z * Z * Z) :=
  match Split bar payload with
  | [p0; p1; p2] =>
      match ParseInt 64 p0 with
      | None => None
      | Some ownerID =>
          match ParseInt 64 p1 with
          | None => None
          | Some localID =>
              match ParseInt 64 p2 with
              | None => None
              | Some userID => Some (ownerID, localID, userID)
              end
          end
      end
  | _ => None
  end.

(** The [tg_pinned] case of [dispatch], which parses in place. *)
Definition parse_pinned (payload : string) : option (Z * Z * Z) :=
  if str_len payload <? 2 then None
  else
    match payload with
    | EmptyString => None
    | String c rest =>
        match (if Ascii.eqb c "c" then Some PeerTypeChat
               else if Ascii.eqb c "h" then Some PeerTypeChannel else None) with
        | None => None
        | Some peerType =>
            match (if HasPrefix rest "-" then Some (0, TrimPrefix rest "-")
                   else
                     match SplitN2 bar rest with
                     | [p0; p1] =>
                         match ParseInt 32 p1 with
                         | Some msgID => Some (msgID, p0)
                         | None => None
                         end
                     | _ => None
                     end) with
            | None => None
            | Some (pinnedMsgID, peerStr) =>
                match ParseInt 64 peerStr with
                | None => None
                | Some peerID => Some (peerType, peerID, pinnedMsgID)
                end
            end
        end
    end.

(** ** Dispatch *)

(** The callback a notification ends in, with what its context carries. *)
Inductive callback : Type :=
| CbDeliver (userID : Z) (suppressed : option SuppressedUpdate)
| CbMembership (userID channelID : Z)
| CbChatAdmin (chatID eventID : Z)
| CbTyping (peerID fromID : Z)
| CbEvict (userID authKeyID : Z)
| CbChannelPost (channelID : Z)
| CbEncryption (userID chatID : Z)
| CbStatus (userID : Z) (online : bool)
| CbEncryptedMsg (recipientID qts : Z)
| CbReactions (ownerID localID userID : Z)
| CbPinned (peerType peerID pinnedMsgID : Z)
| CbDialogFilters (ownerID : Z).

(** What one notification makes the listener do: count it malformed; or count it on its
    channel and schedule a callback under a key, or call it on the listener goroutine. *)
Inductive handled : Type :=
| Malformed
| Scheduled (channel : string) (key : string) (coalesce : bool) (cb : callback)
| Inline (channel : string) (cb : option callback).

Definition key1 (name : string) (a : Z) : string := name +:+ String ":" (FormatInt a).
Definition key2 (name : string) (a b : Z) : string :=
  name +:+ String ":" (FormatInt a +:+ String ":" (FormatInt b)).

Definition dispatch_updates (payload : string) : handled :=
  if HasPrefix payload channelMembershipPayloadPrefix then
    match parseChannelMembershipPayload payload with
    | None => Malformed
    | Some (userID, channelID) =>
        Scheduled ChannelUpdates (key2 "channel-membership" userID channelID) false
          (CbMembership userID channelID)
    end
  else if HasPrefix payload chatAdminPayloadPrefix then
    match parseChatAdminPayload payload with
    | None => Malformed
    | Some (chatID, eventID) =>
        Scheduled ChannelUpdates (key1 "chat-admin" chatID) false (CbChatAdmin chatID eventID)
    end
  else
    match parseUpdatesPayload payload with
    | None => Malformed
    | Some (userID, update) =>
        Scheduled ChannelUpdates (key1 "updates" userID)
          (match update with None => true | Some _ => false end) (CbDeliver userID update)
    end.

Definition dispatch_pair (payload : string) (k : Z -> Z -> handled) : handled :=
  match parsePairPayload payload with
  | None => Malformed
  | Some (a, b) => k a b
  end.

(** One turn of the loop of [dispatch]; [dialogFilters] is whether that callback is set. *)
Definition dispatch_one (dialogFilters : bool) (channel payload : string) : handled :=
  if String.eqb channel ChannelUpdates then dispatch_updates payload
  else if String.eqb channel ChannelTyping then
    dispatch_pair payload (fun peerID fromID =>
      Scheduled ChannelTyping (key2 "typing" peerID fromID) true (CbTyping peerID fromID))
  else if String.eqb channel ChannelEvict then
    dispatch_pair payload (fun userID authKeyID => 
      Inline ChannelEvict (Some (CbEvict userID authKeyID)))
  else if String.eqb channel ChannelPost then
    match ParseInt 64 payload with
    | None => Malformed
    | Some channelID => Scheduled ChannelPost (key1 "post" channelID) true (CbChannelPost channelID)
    end
  else if String.eqb channel ChannelEncryption then
    dispatch_pair payload (fun userID chatID =>
      Scheduled ChannelEncryption (key1 "encryption" userID) false (CbEncryption userID chatID))
  else if String.eqb channel ChannelStatus then
    dispatch_pair payload (fun userID onlineID =>
      Scheduled ChannelStatus (key1 "status" userID) true (CbStatus userID (onlineID =? 1)))
  else if String.eqb channel ChannelEncryptedMsg then
    dispatch_pair payload (fun recipientID qts64 =>
      Scheduled ChannelEncryptedMsg (key1 "encrypted-msg" recipientID) false
        (CbEncryptedMsg recipientID qts64))
  else if String.eqb channel ChannelReactions then
    match parseReactionPayload payload with
    | None => Malformed
    | Some (ownerID, localID, userID) =>
        Scheduled ChannelReactions (key2 "reactions" userID localID) true
          (CbReactions ownerID localID userID)
    end
  else if String.eqb channel ChannelPinned then
    match parse_pinned payload with
    | None => Malformed
    | Some (peerType, peerID, pinnedMsgID) =>
        Scheduled ChannelPinned (key2 "pinned" peerType peerID) true (CbPinned peerType peerID pinnedMsgID)
    end
  else if String.eqb channel ChannelDialogFilters then
    match ParseInt 64 payload with
    | None => Malformed
    | Some ownerID =>
        if ownerID <=? 0 then Malformed
        else Inline ChannelDialogFilters (if dialogFilters then Some (CbDialogFilters ownerID) else None)
    end
  else Malformed.

(** ** The emitters *)

(** What the rest of the program asks to be announced, by the function that does it:
    [notifyWithContext], [notifySend], [notifyChannelMembershipWithContext],
    [notifyChatAdmin], [notifyTyping], [notifyEvict], [notifyChannelPost],
    [notifyEncryption], [updateStatus], [notifyEncryptedMsg],
    [notifyReactionWithContext], [notifyPinned] and the folder mutation. *)
Inductive nudge : Type :=
| NUpdates (userID : Z)
| NSend (userID authKeyID pts : Z)
| NMembership (userID channelID : Z)
| NChatAdmin (chatID eventID : Z)
| NTyping (peerID fromID : Z)
| NEvict (userID authKeyID : Z)
| NPost (channelID : Z)
| NEncryption (userID chatID : Z)
| NStatus (userID : Z) (online : bool)
| NEncryptedMsg (recipientID qts : Z)
| NReaction (userID localID : Z)
| NPinned (peerType peerID pinnedMsgID : Z)
| NDialogFilters (ownerID : Z).

Definition notifyWithContext (userID : Z) : string * string := (ChannelUpdates, FormatInt userID).

Definition notifySend (userID authKeyID pts : Z) : string * string :=
  if (authKeyID =? 0) || (pts <=? 0) then notifyWithContext userID
  else (ChannelUpdates,
        FormatInt userID +:+ String bar (FormatInt authKeyID +:+ String bar (FormatInt pts))).

Definition emit (n : nudge) : string * string :=
  match n with
  | NUpdates userID => notifyWithContext userID
  | NSend userID authKeyID pts => notifySend userID authKeyID pts
  | NMembership userID channelID => (ChannelUpdates, ChannelMembershipPayload userID channelID)
  | NChatAdmin chatID eventID => (ChannelUpdates, ChatAdminPayload chatID eventID)
  | NTyping peerID fromID => (ChannelTyping, TypingPayload peerID fromID)
  | NEvict userID authKeyID => (ChannelEvict, EvictPayload userID authKeyID)
  | NPost channelID => (ChannelPost, ChannelPostPayload channelID)
  | NEncryption userID chatID => (ChannelEncryption, EncryptionPayload userID chatID)
  | NStatus userID online => (ChannelStatus, StatusPayload userID online)
  | NEncryptedMsg recipientID qts => (ChannelEncryptedMsg, EncryptedMsgPayload recipientID qts)
  | NReaction userID localID => (ChannelReactions, ReactionPayload userID localID userID)
  | NPinned peerType peerID pinnedMsgID => (ChannelPinned, PinnedPayload peerType peerID pinnedMsgID)
  | NDialogFilters ownerID => (ChannelDialogFilters, FormatInt ownerID)
  end.

Definition i64 (z : Z) : Prop := int_range 64 z.

(** Ids fit the types of the source; the ids the parsers insist on are positive, as the
    database sequences make them. *)
Definition valid_nudge (n : nudge) : Prop :=
  match n with
  | NUpdates u => 0 < u /\ i64 u
  | NSend u k pts => 0 < u /\ i64 u /\ i64 k /\ i64 pts
  | NMembership u c => 0 < u /\ i64 u /\ 0 < c /\ i64 c
  | NChatAdmin c e => 0 < c /\ i64 c /\ 0 < e /\ i64 e
  | NTyping a b | NEvict a b | NEncryption a b | NEncryptedMsg a b | NReaction a b => i64 a /\ i64 b
  | NPost c => i64 c
  | NStatus u _ => i64 u
  | NPinned t p m => (t = PeerTypeChat \/ t = PeerTypeChannel) /\ 0 <= p /\ i64 p /\ int_range 32 m
  | NDialogFilters o => 0 < o /\ i64 o
  end.

Definition suppression (k pts : Z) : option SuppressedUpdate :=
  if (k =? 0) || (pts <=? 0) then None else Some (mkSuppressed pts k).

(** What each nudge is meant to cause in every replica. *)
Definition intended (n : nudge) : handled :=
  match n with
  | NUpdates u => Scheduled ChannelUpdates (key1 "updates" u) true (CbDeliver u None)
  | NSend u k pts =>
      Scheduled ChannelUpdates (key1 "updates" u)
        (match suppression k pts with None => true | Some _ => false end) (CbDeliver u (suppression k pts))
  | NMembership u c => Scheduled ChannelUpdates (key2 "channel-membership" u c) false (CbMembership u c)
  | NChatAdmin c e => Scheduled ChannelUpdates (key1 "chat-admin" c) false (CbChatAdmin c e)
  | NTyping a b => Scheduled ChannelTyping (key2 "typing" a b) true (CbTyping a b)
  | NEvict u k => Inline ChannelEvict (Some (CbEvict u k))
  | NPost c => Scheduled ChannelPost (key1 "post" c) true (CbChannelPost c)
  | NEncryption u c => Scheduled ChannelEncryption (key1 "encryption" u) false (CbEncryption u c)
  | NStatus u o => Scheduled ChannelStatus (key1 "status" u) true (CbStatus u o)
  | NEncryptedMsg r q =>
      Scheduled ChannelEncryptedMsg (key1 "encrypted-msg" r) false (CbEncryptedMsg r q)
  | NReaction u l => Scheduled ChannelReactions (key2 "reactions" u l) true (CbReactions u l u)
  | NPinned t p m => Scheduled ChannelPinned (key2 "pinned" t p) true (CbPinned t p m)
  | NDialogFilters o => Inline ChannelDialogFilters (Some (CbDialogFilters o))
  end.

(** ** Round trips *)

Lemma bar_free z : free_of bar (FormatInt z) = true.
Proof. by apply FormatInt_free. Qed.

Lemma colon_free z : free_of ":" (FormatInt z) = true.
Proof. by apply FormatInt_free. Qed.

Lemma parse64 z : i64 z -> ParseInt 64 (FormatInt z) = Some z.
Proof. intros H. by apply ParseInt_FormatInt. Qed.

Lemma parsePair_pair a b : i64 a -> i64 b -> parsePairPayload (pairPayload a b) = Some (a, b).
Proof.
  intros Ha Hb. unfold parsePairPayload, pairPayload.
  by rewrite (Cut_app _ _ _ (bar_free a)), !parse64.
Qed.

(** A number does not start with a letter. *)
Lemma number_no_prefix c p z rest :
  separator c = true -> strip_prefix (String c p) (FormatInt z +:+ rest) = None.
Proof.
  intros Hc. assert (H := FormatInt_chars z). assert (Hn : FormatInt z <> EmptyString).
  { unfold FormatInt. destruct (z <? 0); [done|]. apply (format_digits_nonempty 19). }
  destruct (FormatInt z) as [|d s]; [done|]. rewrite app_str_cons. simpl. simpl in H.
  apply andb_prop in H as [Hd _]. destruct (Ascii.eqb_spec c d) as [->|]; [|done].
  unfold separator in Hc. by rewrite Hd in Hc.
Qed.

Lemma HasPrefix_app p s : HasPrefix (p +:+ s) p = true.
Proof. unfold HasPrefix. rewrite strip_prefix_app. by apply bool_decide_eq_true. Qed.

Lemma TrimPrefix_app p s : TrimPrefix (p +:+ s) p = s.
Proof. unfold TrimPrefix. by rewrite strip_prefix_app. Qed.

Lemma HasPrefix_number c p z rest :
  separator c = true -> HasPrefix (FormatInt z +:+ rest) (String c p) = false.
Proof.
  intros H. unfold HasPrefix. rewrite number_no_prefix by done.
  apply bool_decide_eq_false. by intros [].
Qed.

Lemma app_empty_r s : s +:+ EmptyString = s.
Proof. induction s as [|c s IH]; [done|]. by rewrite app_str_cons, IH. Qed.

Lemma dispatch_plain_updates u rest :
  dispatch_updates (FormatInt u +:+ rest) =
  match parseUpdatesPayload (FormatInt u +:+ rest) with
  | None => Malformed
  | Some (userID, update) =>
      Scheduled ChannelUpdates (key1 "updates" userID)
        (match update with None => true | Some _ => false end) (CbDeliver userID update)
  end.
Proof.
  unfold dispatch_updates, channelMembershipPayloadPrefix, chatAdminPayloadPrefix.
  by rewrite !HasPrefix_number.
Qed.

Lemma parseUpdates_owner u : 0 < u -> i64 u -> parseUpdatesPayload (FormatInt u) = Some (u, None).
Proof.
  intros Hu Hi. unfold parseUpdatesPayload. rewrite (Split_one _ _ (bar_free u)), parse64 by done.
  by replace (u <=? 0) with false by lia.
Qed.

Lemma parseUpdates_triple u k pts :
  0 < u -> i64 u -> k <> 0 -> i64 k -> 0 < pts -> i64 pts ->
  parseUpdatesPayload (FormatInt u +:+ String bar (FormatInt k +:+ String bar (FormatInt pts))) =
  Some (u, Some (mkSuppressed pts k)).
Proof.
  intros. unfold parseUpdatesPayload.
  rewrite (Split_app _ _ _ (bar_free u)), (Split_app _ _ _ (bar_free k)), (Split_one _ _ (bar_free pts)).
  rewrite !parse64 by done. replace (u <=? 0) with false by lia. replace (k =? 0) with false by lia.
  by replace (pts <=? 0) with false by lia.
Qed.

Lemma membership_dispatch u c :
  0 < u -> i64 u -> 0 < c -> i64 c ->
  dispatch_updates (ChannelMembershipPayload u c) = intended (NMembership u c).
Proof.
  intros. unfold dispatch_updates, parseChannelMembershipPayload, ChannelMembershipPayload.
  rewrite HasPrefix_app, TrimPrefix_app, parsePair_pair by done. simpl.
  by replace ((u <=? 0) || (c <=? 0)) with false by lia.
Qed.

Lemma chat_admin_dispatch c e :
  0 < c -> i64 c -> 0 < e -> i64 e ->
  dispatch_updates (ChatAdminPayload c e) = intended (NChatAdmin c e).
Proof.
  intros. unfold dispatch_updates, parseChatAdminPayload.
  replace (HasPrefix (ChatAdminPayload c e) channelMembershipPayloadPrefix) with false by done.
  unfold ChatAdminPayload. rewrite HasPrefix_app, TrimPrefix_app, parsePair_pair by done. simpl.
  by replace ((c <=? 0) || (e <=? 0)) with false by lia.
Qed.

Lemma reaction_roundtrip o l u :
  i64 o -> i64 l -> i64 u -> parseReactionPayload (ReactionPayload o l u) = Some (o, l, u).
Proof.
  intros. unfold parseReactionPayload, ReactionPayload.
  rewrite (Split_app _ _ _ (bar_free o)), (Split_app _ _ _ (bar_free l)), (Split_one _ _ (bar_free u)).
  by rewrite !parse64.
Qed.

(** A nonnegative number has no minus sign to be taken for the unpin mark. *)
Lemma nonneg_no_minus p rest : 0 <= p -> HasPrefix (FormatInt p +:+ rest) "-" = false.
Proof.
  intros Hp. unfold FormatInt. replace (p <? 0) with false by lia.
  destruct (format_digits_head p) as (c & s & -> & Hm & _). unfold HasPrefix. rewrite app_str_cons. cbn [strip_prefix].
  destruct (Ascii.eqb_spec "-" c) as [<-|]; [done|]. apply bool_decide_eq_false. by intros [].
Qed.

Lemma FormatInt_len z : 0 < str_len (FormatInt z).
Proof.
  unfold FormatInt. destruct (z <? 0); [unfold str_len; simpl; lia|].
  assert (H := format_digits_nonempty 19 z EmptyString). unfold str_len.
  destruct (format_digits 20 z EmptyString); [done|]. simpl. lia.
Qed.

Lemma pinned_roundtrip t p m :
  t = PeerTypeChat \/ t = PeerTypeChannel -> 0 <= p -> i64 p -> int_range 32 m ->
  parse_pinned (PinnedPayload t p m) = Some (t, p, m).
Proof.
  intros Ht Hp Hi Hm. unfold PinnedPayload, parse_pinned.
  assert (Hl := FormatInt_len p). unfold str_len in *.
  destruct (Z.eqb_spec m 0) as [->|Hne]; cbn [negb].
  - assert (E : forall c, (Z.of_nat (String.length (String c (String "-" (FormatInt p)))) <? 2) = false)
      by (intros c; simpl; lia).
    rewrite E. change (String "-" (FormatInt p)) with ("-" +:+ FormatInt p).
    rewrite HasPrefix_app, TrimPrefix_app, parse64 by done. by destruct Ht as [-> | ->].
  - assert (E : forall c s, (Z.of_nat (String.length (String c (FormatInt p +:+ String bar s))) <? 2) = false).
    { intros c s. destruct (FormatInt p); [simpl in Hl; lia|]. rewrite app_str_cons. simpl. lia. }
    rewrite E, nonneg_no_minus by done. unfold SplitN2. rewrite (Cut_app _ _ _ (bar_free p)).
    rewrite ParseInt_FormatInt, parse64 by (done || lia). by destruct Ht as [-> | ->].
Qed.

Lemma status_roundtrip u o :
  i64 u -> parsePairPayload (StatusPayload u o) = Some (u, if o then 1 else 0).
Proof.
  intros H. unfold parsePairPayload, StatusPayload. rewrite (Cut_app _ _ _ (bar_free u)), parse64 by done.
  by destruct o.
Qed.

(** ** Routing keys *)

(** Whom a scheduled nudge is for, as its routing key spells it. *)
Definition addressee (n : nudge) : string * list Z :=
  match n with
  | NUpdates u | NSend u _ _ => ("updates", [u])
  | NMembership u c => ("channel-membership", [u; c])
  | NChatAdmin c _ => ("chat-admin", [c])
  | NTyping a b => ("typing", [a; b])
  | NPost c => ("post", [c])
  | NEncryption u _ => ("encryption", [u])
  | NStatus u _ => ("status", [u])
  | NEncryptedMsg r _ => ("encrypted-msg", [r])
  | NReaction u l => ("reactions", [u; l])
  | NPinned t p _ => ("pinned", [t; p])
  | NEvict _ _ => ("evict", [])
  | NDialogFilters _ => ("dialog-filters", [])
  end.

Fixpoint render_ids (ids : list Z) : string :=
  match ids with
  | [] => EmptyString
  | [a] => FormatInt a
  | a :: ids' => FormatInt a +:+ String ":" (render_ids ids')
  end.

Definition render_key (k : string * list Z) : string := k.1 +:+ String ":" (render_ids k.2).

Lemma intended_key n ch k co cb : intended n = Scheduled ch k co cb -> k = render_key (addressee n).
Proof. by destruct n; intros H; simplify_eq/=. Qed.

Lemma addressee_name_free n : free_of ":" (addressee n).1 = true.
Proof. by destruct n. Qed.

Lemma addressee_ids n : valid_nudge n -> Forall i64 (addressee n).2.
Proof.
  assert (Ht : forall t, t = PeerTypeChat \/ t = PeerTypeChannel -> i64 t) by (intros t [-> | ->]; done).
  destruct n; simpl; intros H; rewrite ?Forall_cons, ?Forall_nil; try tauto.
  destruct H as (H & _ & Hp & _). by split; [apply Ht|].
Qed.

Lemma render_ids_inj ids ids' :
  Forall i64 ids -> Forall i64 ids' -> Datatypes.length ids = Datatypes.length ids' ->
  render_ids ids = render_ids ids' -> ids = ids'.
Proof.
  revert ids'. induction ids as [|a ids IH]; intros [|a' ids'] H H' Hl E; try done.
  apply Forall_cons in H as [Ha H], H' as [Ha' H'].
  destruct ids as [|b ids], ids' as [|b' ids']; try done.
  - simpl in E. by rewrite (FormatInt_inj a a').
  - cbn [render_ids] in E. apply sep_app_inj in E as [E1 E2]; [|apply colon_free..].
    rewrite (FormatInt_inj a a') by done. f_equal. apply IH; try done. simpl in *. lia.
Qed.

(** The number of ids goes with the name. *)
Lemma addressee_arity n n' :
  (addressee n).1 = (addressee n').1 -> Datatypes.length (addressee n).2 = Datatypes.length (addressee n').2.
Proof. destruct n, n'; simpl; intros H; (reflexivity || discriminate H). Qed.

Lemma render_key_inj n n' :
  valid_nudge n -> valid_nudge n' -> render_key (addressee n) = render_key (addressee n') ->
  addressee n = addressee n'.
Proof.
  intros V V' E. unfold render_key in E.
  apply sep_app_inj in E as [E1 E2]; [|apply addressee_name_free..].
  assert (E3 : (addressee n).2 = (addressee n').2).
  { apply render_ids_inj; try done; [by apply addressee_ids..|]. by apply addressee_arity. }
  destruct (addressee n), (addressee n'). simpl in *. congruence.
Qed.

(** Running the callback of [n'] makes the callback of [n] redundant: they ask for the
    same thing, or for the current status of a user or pin of a peer. *)
Definition covers (n' n : nudge) : Prop :=
  match n', n with
  | NStatus u' _, NStatus u _ => u' = u
  | NPinned t' p' _, NPinned t p _ => t' = t /\ p' = p
  | _, _ => intended n' = intended n
  end.

Lemma coalesced_covers n n' ch k cb ch' k' cb' :
  intended n = Scheduled ch k true cb -> intended n' = Scheduled ch' k' true cb' ->
  addressee n = addressee n' -> covers n' n.
Proof.
  intros H H' E. destruct n, n'; try discriminate E; try discriminate H; cbn [addressee] in E;
    injection E as E; subst; try reflexivity; try done.
  all: cbn [intended] in *; unfold covers; cbn [intended];
    repeat (destruct (suppression _ _); try discriminate); done.
Qed.

(** ** The reconnect loop *)

Definition listenerBackoffMin : Z := 100 * millisecond.
Definition listenerBackoffMax : Z := 30 * second.
Definition listenerStableFor : Z := 30 * second.

Definition nextBackoff (prev uptime : Z) : Z :=
  if uptime >=? listenerStableFor then listenerBackoffMin
  else Z.min (2 * prev) listenerBackoffMax.

(** What the environment answers in one turn of the loop: whether the sleep ran to its
    end, whether the connection and its subscriptions succeeded, whether the context
    had ended after a failure, and after how long [dispatch] returned. *)
Record turn : Type := mkTurn {
  t_slept : bool;
  t_connected : bool;
  t_cancelled : bool;
  t_uptime : Z
}.

(** What the loop does that others can see. *)
Inductive listener_act : Type :=
| Slept (d : Z)
| ConnectFailed
| Reconnected
| Dispatched
| Closed.

Inductive listener_end : Type :=
| EndAsleep
| EndConnecting
| EndDispatching
| Running.

(** [run], over the turns of the environment; [conn] is whether a connection is open. *)
Fixpoint run (turns : list turn) (conn : bool) (backoff : Z) : list listener_act * listener_end :=
  match turns with
  | [] => ([], Running)
  | t :: rest =>
      let connected (pre : list listener_act) :=
        if t_cancelled t then (pre ++ [Dispatched; Closed], EndDispatching)
        else
          let '(acts, e) := run rest false (nextBackoff backoff (t_uptime t)) in
          (pre ++ [Dispatched; Closed] ++ acts, e) in
      if conn then connected []
      else if negb (t_slept t) then ([], EndAsleep)
      else if negb (t_connected t) then
        if t_cancelled t then ([Slept backoff; ConnectFailed], EndConnecting)
        else
          let '(acts, e) := run rest false (nextBackoff backoff 0) in
          ([Slept backoff; ConnectFailed] ++ acts, e)
      else connected [Slept backoff; Reconnected]
  end.

(** The loop [startListener] starts, on the connection it opened. *)
Definition listener_run (turns : list turn) : list listener_act * listener_end :=
  run turns true listenerBackoffMin.

(** Every attempt to connect follows its own sleep, whose length is within the bounds;
    every connection is closed before the next sleep. *)
Inductive paced : bool -> list listener_act -> Prop :=
| paced_nil c : paced c []
| paced_failed d l : listenerBackoffMin <= d <= listenerBackoffMax ->
    paced false l -> paced false (Slept d :: ConnectFailed :: l)
| paced_reconnected d l : listenerBackoffMin <= d <= listenerBackoffMax ->
    paced true l -> paced false (Slept d :: Reconnected :: l)
| paced_dispatched l : paced false l -> paced true (Dispatched :: Closed :: l).

Lemma nextBackoff_bounds prev uptime :
  listenerBackoffMin <= prev -> listenerBackoffMin <= nextBackoff prev uptime <= listenerBackoffMax.
Proof.
  unfold nextBackoff, listenerBackoffMin, listenerBackoffMax, second, millisecond. intros H.
  destruct (uptime >=? listenerStableFor); lia.
Qed.

Lemma run_paced turns conn backoff :
  listenerBackoffMin <= backoff <= listenerBackoffMax -> paced conn (run turns conn backoff).1.
Proof.
  revert conn backoff. induction turns as [|t rest IH]; intros conn backoff Hb; [constructor|]. cbn [run].
  assert (Hnext : forall up, paced false (run rest false (nextBackoff backoff up)).1)
    by (intros up; apply IH, nextBackoff_bounds; lia).
  assert (Hd : paced true (if t_cancelled t then ([Dispatched; Closed], EndDispatching)
            else let '(acts, e) := run rest false (nextBackoff backoff (t_uptime t)) in
                 ([Dispatched; Closed] ++ acts, e)).1).
  { destruct (t_cancelled t); [apply paced_dispatched; constructor|].
    specialize (Hnext (t_uptime t)). destruct (run rest _ _). by apply paced_dispatched. }
  destruct conn; [exact Hd|]. destruct (t_slept t); [|constructor]. cbn [negb].
  destruct (t_connected t); cbn [negb].
  - destruct (t_cancelled t); [|destruct (run rest false _) as [acts e]];
      by apply paced_reconnected.
  - destruct (t_cancelled t); [apply paced_failed; [done|constructor]|].
    specialize (Hnext 0). destruct (run rest false _) as [acts e]. by apply paced_failed.
Qed.

Definition failed_turn : turn := mkTurn true false false 0.

(** The sleeps of a run of failed attempts. *)
Lemma run_failures n backoff :
  0 <= backoff <= listenerBackoffMax ->
  (run (replicate n failed_turn) false backoff).1 =
  flat_map (fun i => [Slept (Z.min (backoff * 2 ^ Z.of_nat i) listenerBackoffMax); ConnectFailed])
    (seq 0 n).
Proof.
  revert backoff. induction n as [|n IH]; intros backoff Hb; [done|]. cbn [replicate run].
  cbn [t_slept t_connected t_cancelled failed_turn negb].
  assert (E : nextBackoff backoff 0 = Z.min (2 * backoff) listenerBackoffMax) by done.
  specialize (IH (nextBackoff backoff 0) ltac:(rewrite E; lia)).
  destruct (run (replicate n failed_turn) false _) as [acts e]. simpl in IH. subst acts. cbn [fst app].
  simpl seq. cbn [flat_map app]. change (2 ^ Z.of_nat 0) with 1. rewrite Z.mul_1_r, Z.min_l by lia.
  f_equal. f_equal. rewrite <- seq_shift, flat_map_concat_map, (flat_map_concat_map _ (map S (seq 0 n))).
  rewrite map_map. f_equal. apply map_ext. intros i. f_equal. f_equal. rewrite E.
  rewrite Nat2Z.inj_succ, Z.pow_succ_r by lia.
  assert (1 <= 2 ^ Z.of_nat i) by (apply (Z.pow_le_mono_r 2 0); lia).
  assert (backoff * (2 * 2 ^ Z.of_nat i) = 2 * backoff * 2 ^ Z.of_nat i) by ring.
  destruct (Z.min_spec (2 * backoff) listenerBackoffMax) as [[? ->]|[? ->]]; [congruence|].
  rewrite !Z.min_r by nia. done.
Qed.

Lemma plain_dispatch u :
  0 < u -> i64 u -> dispatch_one true ChannelUpdates (FormatInt u) = intended (NUpdates u).
Proof.
  intros Hu Hi. change (dispatch_updates (FormatInt u) = intended (NUpdates u)).
  rewrite <- (app_empty_r (FormatInt u)), dispatch_plain_updates, app_empty_r.
  by rewrite parseUpdates_owner.
Qed.

Lemma suppressed_dispatch u k pts :
  0 < u -> i64 u -> k <> 0 -> i64 k -> 0 < pts -> i64 pts ->
  dispatch_one true ChannelUpdates
    (FormatInt u +:+ String bar (FormatInt k +:+ String bar (FormatInt pts))) =
  Scheduled ChannelUpdates (key1 "updates" u) false (CbDeliver u (Some (mkSuppressed pts k))).
Proof.
  intros. match goal with |- dispatch_one _ _ ?p = ?r => change (dispatch_updates p = r) end.
  by rewrite dispatch_plain_updates, parseUpdates_triple.
Qed.

Ltac by_dispatch H :=
  unfold dispatch_one; cbn -[FormatInt];
  unfold dispatch_pair; rewrite H by tauto; try done.

(** The callbacks the listener may make: their numbers fit the types of the callbacks, and
    those the parsers check are positive. *)
Definition callback_typed (cb : callback) : Prop :=
  match cb with
  | CbDeliver u None => 0 < u /\ i64 u
  | CbDeliver u (Some sup) =>
      0 < u /\ i64 u /\ sup_AuthKeyID sup <> 0 /\ i64 (sup_AuthKeyID sup) /\
      0 < sup_Pts sup /\ i64 (sup_Pts sup)
  | CbMembership a b | CbChatAdmin a b => 0 < a /\ i64 a /\ 0 < b /\ i64 b
  | CbTyping a b | CbEvict a b | CbEncryption a b | CbEncryptedMsg a b => i64 a /\ i64 b
  | CbChannelPost c => i64 c
  | CbStatus u _ => i64 u
  | CbReactions o l u => i64 o /\ i64 l /\ i64 u
  | CbPinned t p m => (t = PeerTypeChat \/ t = PeerTypeChannel) /\ i64 p /\ int_range 32 m
  | CbDialogFilters o => 0 < o /\ i64 o
  end.

(** The channel each callback belongs to. *)
Definition callback_channel (cb : callback) : string :=
  match cb with
  | CbDeliver _ _ | CbMembership _ _ | CbChatAdmin _ _ => ChannelUpdates
  | CbTyping _ _ => ChannelTyping
  | CbEvict _ _ => ChannelEvict
  | CbChannelPost _ => ChannelPost
  | CbEncryption _ _ => ChannelEncryption
  | CbStatus _ _ => ChannelStatus
  | CbEncryptedMsg _ _ => ChannelEncryptedMsg
  | CbReactions _ _ _ => ChannelReactions
  | CbPinned _ _ _ => ChannelPinned
  | CbDialogFilters _ => ChannelDialogFilters
  end.

Fixpoint joined (parts : list string) : string :=
  match parts with
  | [] => EmptyString
  | [p] => p
  | p :: l => p +:+ String bar (joined l)
  end.

(** The text is decimal numbers between bars, these ones in this order. *)
Definition spells (s : string) (zs : list Z) : Prop :=
  exists parts, s = joined parts /\ Forall2 (fun p z => ParseInt 64 p = Some z) parts zs.

(** The callback's parameters stand in the payload, in the order the callback takes them. *)
Definition conveys (payload : string) (cb : callback) : Prop :=
  match cb with
  | CbDeliver u None => spells payload [u]
  | CbDeliver u (Some sup) => spells payload [u; sup_AuthKeyID sup; sup_Pts sup]
  | CbMembership u c => exists body, payload = channelMembershipPayloadPrefix +:+ body /\ spells body [u; c]
  | CbChatAdmin c e => exists body, payload = chatAdminPayloadPrefix +:+ body /\ spells body [c; e]
  | CbTyping a b | CbEvict a b | CbEncryption a b | CbEncryptedMsg a b => spells payload [a; b]
  | CbChannelPost c | CbDialogFilters c => spells payload [c]
  | CbStatus u online => exists x, spells payload [u; x] /\ online = (x =? 1)
  | CbReactions o l u => spells payload [o; l; u]
  | CbPinned t p m =>
      exists c rest, payload = String c rest /\
        (c = "c"%char /\ t = PeerTypeChat \/ c = "h"%char /\ t = PeerTypeChannel) /\
        (m = 0 /\ (exists peer, rest = String "-" peer /\ ParseInt 64 peer = Some p) \/
         exists peer msg, rest = peer +:+ String bar msg /\ ParseInt 64 peer = Some p /\ ParseInt 32 msg = Some m)
  end.

(** The callback is the channel's own, its parameters fit, and they are the payload's. *)
Definition callback_fits (channel payload : string) (cb : callback) : Prop :=
  callback_channel cb = channel /\ callback_typed cb /\ conveys payload cb.

Definition handled_typed (channel payload : string) (h : handled) : Prop :=
  match h with
  | Malformed => True
  | Scheduled c _ _ cb => c = channel /\ callback_fits channel payload cb
  | Inline c (Some cb) => c = channel /\ callback_fits channel payload cb
  | Inline c None => c = channel /\ channel = ChannelDialogFilters
  end.

Lemma Cut_spells s a b x y :
  Cut bar s = Some (a, b) -> ParseInt 64 a = Some x -> ParseInt 64 b = Some y -> spells s [x; y].
Proof. intros H Ha Hb. apply Cut_sound in H as [-> _]. exists [a; b]. by repeat constructor. Qed.

Lemma Split_joined s : joined (Split bar s) = s.
Proof.
  induction s as [|c s IH]; [done|]. cbn [Split]. destruct (Ascii.eqb_spec c bar) as [->|Hc].
  - destruct (Split bar s) as [|p l] eqn:E; [by destruct s; cbn in E; repeat case_match|].
    change (EmptyString +:+ String bar (joined (p :: l)) = String bar s). by rewrite IH.
  - destruct (Split bar s) as [|p [|q l]] eqn:E; cbn [joined] in *; [by subst s|by rewrite IH|].
    by rewrite app_str_cons, IH.
Qed.

Lemma Split_spells s parts zs :
  Split bar s = parts -> Forall2 (fun p z => ParseInt 64 p = Some z) parts zs -> spells s zs.
Proof. intros <- H. exists (Split bar s). by rewrite Split_joined. Qed.

Lemma one_spells s z : ParseInt 64 s = Some z -> spells s [z].
Proof. intros H. exists [s]. by repeat constructor. Qed.

Lemma TrimPrefix_HasPrefix s p : HasPrefix s p = true -> s = p +:+ TrimPrefix s p.
Proof.
  unfold HasPrefix, TrimPrefix. intros [r Hr]%bool_decide_eq_true. rewrite Hr. simpl.
  revert s Hr. induction p as [|c p IH]; intros s Hr; cbn in *; [by injection Hr as ->|].
  destruct s as [|d s]; [done|]. destruct (Ascii.eqb_spec c d) as [->|]; [|done].
  rewrite app_str_cons. f_equal. by apply IH.
Qed.

Lemma parse64_range s z : ParseInt 64 s = Some z -> i64 z.
Proof. by apply ParseInt_range. Qed.

Lemma parsePair_range s a b : parsePairPayload s = Some (a, b) -> (i64 a /\ i64 b) /\ spells s [a; b].
Proof.
  unfold parsePairPayload. intros H. split_matches. split; [|by eapply Cut_spells].
  repeat match goal with H : ParseInt 64 _ = Some _ |- _ => apply parse64_range in H end. done.
Qed.

Lemma positive_pair_range p a b :
  positive_pair p = Some (a, b) -> p = Some (a, b) /\ 0 < a /\ 0 < b.
Proof. unfold positive_pair. intros H. split_matches. split; [done|]. lia. Qed.

Lemma parseUpdates_range s u sup :
  parseUpdatesPayload s = Some (u, sup) -> callback_typed (CbDeliver u sup) /\ conveys s (CbDeliver u sup).
Proof.
  unfold parseUpdatesPayload. intros H. split; [|split_matches; eapply Split_spells; try done; by repeat constructor].
  split_matches;
    repeat match goal with H : ParseInt 64 _ = Some _ |- _ => apply parse64_range in H end;
    unfold i64, int_range in *; simpl; lia.
Qed.

Lemma parseReaction_range s o l u :
  parseReactionPayload s = Some (o, l, u) -> (i64 o /\ i64 l /\ i64 u) /\ spells s [o; l; u].
Proof.
  unfold parseReactionPayload. intros H. split; [|split_matches; eapply Split_spells; try done; by repeat constructor].
  split_matches. repeat match goal with H : ParseInt 64 _ = Some _ |- _ => apply parse64_range in H end. done.
Qed.

Lemma parse_pinned_range s t p m :
  parse_pinned s = Some (t, p, m) -> callback_typed (CbPinned t p m) /\ conveys s (CbPinned t p m).
Proof.
  unfold parse_pinned. intros H. simpl.
  destruct (str_len s <? 2); [done|]. destruct s as [|c rest]; [done|].
  destruct (if Ascii.eqb c "c" then _ else _) as [pt|] eqn:Et; [|done].
  destruct (if HasPrefix rest "-" then _ else _) as [[m' str]|] eqn:Em; [|done].
  destruct (ParseInt 64 str) as [p'|] eqn:Ep; [|done]. simplify_eq.
  assert (Hc : c = "c"%char /\ t = PeerTypeChat \/ c = "h"%char /\ t = PeerTypeChannel).
  { destruct (Ascii.eqb_spec c "c"), (Ascii.eqb_spec c "h"); simplify_eq; auto. }
  assert (Hm : m = 0 /\ (exists peer, rest = String "-" peer /\ ParseInt 64 peer = Some p) \/
    exists peer msg, rest = peer +:+ String bar msg /\ ParseInt 64 peer = Some p /\ ParseInt 32 msg = Some m).
  { destruct (HasPrefix rest "-") eqn:Eh.
    - left. simplify_eq. split; [done|]. eexists. split; [|exact Ep]. exact (TrimPrefix_HasPrefix _ _ Eh).
    - right. unfold SplitN2 in Em. destruct (Cut bar rest) as [[a b]|] eqn:Ec; [|done].
      apply Cut_sound in Ec as [-> _]. destruct (ParseInt 32 b) eqn:Eb; [|done]. simplify_eq. by exists str, b. }
  split; [split; [|split; [by apply parse64_range in Ep|]]|by exists c, rest].
  - destruct Hc as [[_ ?]|[_ ?]]; auto.
  - destruct Hm as [[-> _]|(? & ? & _ & _ & Hm)]; [done|by eapply ParseInt_range].
Qed.

Lemma dispatch_updates_typed p : handled_typed ChannelUpdates p (dispatch_updates p).
Proof.
  unfold dispatch_updates.
  destruct (HasPrefix p channelMembershipPayloadPrefix) eqn:Em;
    [|destruct (HasPrefix p chatAdminPayloadPrefix) eqn:Ea].
  - unfold parseChannelMembershipPayload. rewrite Em. simpl.
    destruct (positive_pair _) as [[a b]|] eqn:E; [|done].
    apply positive_pair_range in E as (E & Ha & Hb). apply parsePair_range in E as [Hr Hs].
    split; [done|]. split; [done|]. split; [simpl; tauto|]. eexists. split; [by apply TrimPrefix_HasPrefix|done].
  - unfold parseChatAdminPayload. rewrite Ea. simpl.
    destruct (positive_pair _) as [[a b]|] eqn:E; [|done].
    apply positive_pair_range in E as (E & Ha & Hb). apply parsePair_range in E as [Hr Hs].
    split; [done|]. split; [done|]. split; [simpl; tauto|]. eexists. split; [by apply TrimPrefix_HasPrefix|done].
  - destruct (parseUpdatesPayload p) as [[u sup]|] eqn:E; [|done].
    split; [done|]. split; [done|]. by apply parseUpdates_range.
Qed.

Lemma dispatch_one_evict b ch p c u k :
  dispatch_one b ch p = Inline c (Some (CbEvict u k)) -> ch = ChannelEvict.
Proof.
  unfold dispatch_one, dispatch_pair. intros H.
  repeat match type of H with context [String.eqb ch ?x] =>
    destruct (String.eqb_spec ch x) as [->|_] end; try done;
    unfold dispatch_updates in H; repeat case_match; simplify_eq.
Qed.

(** ** Properties *)

(** Whatever the program announces, the listener of every replica reads
    back as exactly the callback meant, under the routing key of its addressee: no
    payload is mistaken for another kind's, whatever the ids. *)
Theorem intake_roundtrip (n : nudge) :
  valid_nudge n -> dispatch_one true (emit n).1 (emit n).2 = intended n.
Proof.
  destruct n; cbn [valid_nudge emit fst snd]; intros V.
  - apply plain_dispatch; tauto.
  - unfold notifySend. cbn [intended]. unfold suppression.
    destruct ((authKeyID =? 0) || (pts <=? 0)) eqn:E; [apply plain_dispatch; tauto|].
    apply suppressed_dispatch; try tauto; lia.
  - apply membership_dispatch; tauto.
  - apply chat_admin_dispatch; tauto.
  - by_dispatch parsePair_pair.
  - by_dispatch parsePair_pair.
  - by_dispatch parse64.
  - by_dispatch parsePair_pair.
  - change (dispatch_pair (StatusPayload userID online) (fun userID onlineID =>
      Scheduled ChannelStatus (key1 "status" userID) true (CbStatus userID (onlineID =? 1))) =
      intended (NStatus userID online)).
    unfold dispatch_pair. rewrite status_roundtrip by done. by destruct online.
  - by_dispatch parsePair_pair.
  - by_dispatch reaction_roundtrip.
  - by_dispatch pinned_roundtrip.
  - by_dispatch parse64. by replace (ownerID <=? 0) with false by lia.
Qed.

(** Two nudges share a routing key exactly when they are for the same
    addressee, so one addressee's callbacks stay in order and nobody waits behind
    somebody else's; and a nudge that takes the place of an earlier one under its key
    asks for the same thing, or for the latest status of the same user or pin of the
    same peer, so nothing is lost by coalescing. *)
Theorem routing_keys_separate (n n' : nudge) (ch ch' k k' : string) (co co' : bool) (cb cb' : callback) :
  valid_nudge n -> valid_nudge n' ->
  intended n = Scheduled ch k co cb -> intended n' = Scheduled ch' k' co' cb' ->
  (k = k' <-> addressee n = addressee n') /\
  (k = k' -> co = true -> co' = true -> covers n' n).
Proof.
  intros V V' H H'. rewrite (intended_key _ _ _ _ _ H), (intended_key _ _ _ _ _ H').
  split; [split; [by apply render_key_inj|by intros ->]|].
  intros E -> ->. by eapply coalesced_covers; [exact H|exact H'|apply render_key_inj].
Qed.

(** C40 (type).  Whatever arrives on whatever channel, a callback is made only if it is the
    kind that belongs to that channel, its parameters are the numbers the payload spells, in
    the order the callback takes them, and these fit: 64-bit ids, 32-bit message ids, positive
    owners, a nonzero key and a positive pts for a suppression, a chat or a channel for a
    pin.  And every announcement the program makes, with ids of their types, is read back as
    exactly the callback meant by it. *)
Theorem dispatch_typed (dialogFilters : bool) (channel payload : string) :
  handled_typed channel payload (dispatch_one dialogFilters channel payload) /\
  forall n, valid_nudge n -> dispatch_one true (emit n).1 (emit n).2 = intended n.
Proof.
  split; [|apply intake_roundtrip]. unfold dispatch_one, dispatch_pair.
  repeat match goal with |- context [String.eqb channel ?c] =>
    destruct (String.eqb_spec channel c) as [->|_] end; [apply dispatch_updates_typed|..|done].
  all: repeat case_match; simplify_eq; try done; split; try done; split; try done.
  all: repeat match goal with
       | H : ParseInt 64 _ = Some _ |- _ =>
           lazymatch goal with _ : spells _ _ |- _ => fail | _ => pose proof (one_spells _ _ H) end; apply parse64_range in H
       | H : parsePairPayload _ = Some _ |- _ => apply parsePair_range in H as [? ?]
       | H : parseReactionPayload _ = Some _ |- _ => apply parseReaction_range in H as [? ?]
       | H : parse_pinned _ = Some _ |- _ => apply parse_pinned_range in H
       end; try (split; simpl; tauto).
  - split; [simpl; tauto|]. eexists. by split.
  - done.
  - split; simpl; [|done]. split; [lia|done].
Qed.

(** An eviction fails closed: a session is closed only by a notification on
    the eviction channel whose payload is exactly two decimal 64-bit numbers around its
    first bar, and then it is that user's session under that key; anything else is
    counted as malformed. *)
Theorem evict_fails_closed (dialogFilters : bool) (channel payload : string) (userID authKeyID : Z) :
  (dispatch_one dialogFilters channel payload = Inline channel (Some (CbEvict userID authKeyID)) <->
   channel = ChannelEvict /\
   exists a b, Cut bar payload = Some (a, b) /\
     ParseInt 64 a = Some userID /\ ParseInt 64 b = Some authKeyID) /\
  (parsePairPayload payload = None -> dispatch_one dialogFilters ChannelEvict payload = Malformed).
Proof.
  split; [split|].
  - intros H. assert (T := dispatch_one_evict _ _ _ _ _ _ H). subst channel. split; [done|].
    cbn in H. unfold dispatch_pair, parsePairPayload in H. split_matches. eauto.
  - intros (-> & a & b & Hc & Ha & Hb). cbn. unfold dispatch_pair, parsePairPayload.
    by rewrite Hc, Ha, Hb.
  - intros H. cbn. unfold dispatch_pair. by rewrite H.
Qed.

(** However the database behaves, the listener never reconnects in a tight
    loop and never gives up for long: each attempt follows its own sleep of between 100
    milliseconds and 30 seconds, a connection is closed before the next sleep, and
    [n] attempts that fail in a row after a delay of [backoff] wait [backoff] doubled
    each time up to the cap. *)
Theorem listener_paced (turns : list turn) (n : nat) (backoff : Z) :
  listenerBackoffMin <= backoff <= listenerBackoffMax ->
  paced true (listener_run turns).1 /\
  (run (replicate n failed_turn) false backoff).1 =
  flat_map (fun i => [Slept (Z.min (backoff * 2 ^ Z.of_nat i) listenerBackoffMax); ConnectFailed])
    (seq 0 n).
Proof.
  intros H. split; [by apply run_paced|]. apply run_failures. unfold listenerBackoffMin, millisecond in H. lia.
Qed.

(** ** Witnesses *)

Lemma dispatch_typed_witness :
  dispatch_one true (emit (NTyping 7 (-12))).1 (emit (NTyping 7 (-12))).2 =
    Scheduled "tg_typing" "typing:7:-12" true (CbTyping 7 (-12)) /\
  handled_typed "tg_typing" "007|-12" (dispatch_one true "tg_typing" "007|-12").
Proof.
  split; [|exact (proj1 (dispatch_typed true "tg_typing" "007|-12"))].
  refine (eq_trans (proj2 (dispatch_typed true "tg_typing" "") (NTyping 7 (-12)) _) eq_refl).
  repeat split; vm_compute; congruence.
Defined.

Lemma intake_roundtrip_witness :
  emit (NSend 7 (-12) 40) = ("tg_updates", "7|-12|40")%string /\
  dispatch_one true "tg_updates" "7|-12|40" =
    Scheduled "tg_updates" "updates:7" false (CbDeliver 7 (Some (mkSuppressed 40 (-12)))).
Proof.
  split; [reflexivity|]. refine (eq_trans (intake_roundtrip (NSend 7 (-12) 40) _) _).
  - repeat split; vm_compute; congruence.
  - reflexivity.
Defined.

Lemma routing_keys_separate_witness :
  covers (NStatus 5 false) (NStatus 5 true) /\ key1 "status" 5 <> key1 "status" 51.
Proof.
  split.
  - apply (proj2 (routing_keys_separate (NStatus 5 true) (NStatus 5 false) _ _ _ _ _ _ _ _
      ltac:(vm_compute; split; congruence) ltac:(vm_compute; split; congruence) eq_refl eq_refl)
      eq_refl eq_refl eq_refl).
  - intros E. apply (proj1 (routing_keys_separate (NStatus 5 true) (NStatus 51 true) _ _ _ _ _ _ _ _
      ltac:(vm_compute; split; congruence) ltac:(vm_compute; split; congruence) eq_refl eq_refl)) in E.
    discriminate E.
Defined.

Lemma listener_paced_witness :
  paced true (listener_run [mkTurn true true false 5; failed_turn; mkTurn false false true 0]).1 /\
  (run (replicate 3 failed_turn) false (20 * second)).1 =
    [Slept (20 * second); ConnectFailed; Slept (30 * second); ConnectFailed;
     Slept (30 * second); ConnectFailed].
Proof.
  refine (let H := listener_paced [mkTurn true true false 5; failed_turn; mkTurn false false true 0] 3
    (20 * second) _ in conj (proj1 H) (eq_trans (proj2 H) eq_refl)).
  vm_compute. split; congruence.
Defined.

(** Evaluated: an unpin, a pin of a peer whose id were negative, and an eviction with a
    field too many. *)
Example unpin_dispatch :
  dispatch_one true "tg_pinned" (PinnedPayload PeerTypeChannel 9 0) =
  Scheduled "tg_pinned" "pinned:3:9" true (CbPinned PeerTypeChannel 9 0).
Proof. reflexivity. Qed.

Example negative_pin_rejected :
  dispatch_one true "tg_pinned" (PinnedPayload PeerTypeChat (-9) 4) = Malformed.
Proof. reflexivity. Qed.

Example evict_extra_field : dispatch_one true "tg_evict" "7|8|9" = Malformed.
Proof. reflexivity. Qed.
