(* ===== verification/Difference.v ===== *)
(** * Pages of an ordered log, and catching up

    First the pages.
    The windows the store reads ([... WHERE key > lo AND key <= hi ORDER BY key LIMIT n])
    and how a reader that asks for one row past its cap cuts them: shared by the
    encrypted-event gap of updates.getDifference and by updates.getChannelDifference. *)

From S2P Require Import Prelude.
From S2P Require Import FolderSync.
From S2P Require Import UpdateBatch.

Open Scope Z_scope.

Section Paging.
Context {A : Type} (key : A -> Z).

Definition ascending (log : list A) : Prop := StronglySorted (fun a b => key a < key b) log.

Definition range (log : list A) (lo hi : Z) : list A := filter (fun a => lo < key a <= hi) log.

(** The SQL window. *)
Definition window (log : list A) (lo hi : Z) (lim : nat) : list A := take lim (range log lo hi).

(** Asking for one row past the cap, and dropping it. *)
Definition page (log : list A) (lo hi : Z) (cap : nat) : list A * bool :=
  let rows := window log lo hi (S cap) in
  if (cap <? length rows)%nat then (take cap rows, true) else (rows, false).

(** The position a page advertises: its last row when it was cut, the bound otherwise. *)
Definition page_end (log : list A) (lo hi : Z) (cap : nat) : Z :=
  let '(rows, more) := page log lo hi cap in
  if more then match last rows with Some a => key a | None => hi end else hi.

Lemma range_ascending log lo hi : ascending log -> ascending (range log lo hi).
Proof.
  unfold ascending, range. induction 1 as [|a l Hl IH Ha]; [constructor|].
  rewrite filter_cons. case_decide; [|done]. constructor; [done|].
  rewrite Forall_forall in *. intros b Hb. apply list_elem_of_filter in Hb as [_ Hb]. auto.
Qed.

Lemma ascending_lookup l i j a b :
  ascending l -> l !! i = Some a -> l !! j = Some b -> (i < j)%nat -> key a < key b.
Proof.
  intros H. revert i j. induction H as [|x l Hl IH Hx]; intros [|i] [|j] Ha Hb Hij; try done; try lia.
  - simpl in *. simplify_eq. rewrite Forall_forall in Hx. apply Hx. by eapply list_elem_of_lookup_2.
  - simpl in *. eapply IH; [done..|lia].
Qed.

(** The first rows of a window are the rows up to the last of them. *)
Lemma take_range log lo hi n a :
  ascending log -> range log lo hi !! n = Some a ->
  take (S n) (range log lo hi) = range log lo (key a) /\ lo < key a <= hi.
Proof.
  intros L Ha. assert (Hin := list_elem_of_lookup_2 _ _ _ Ha).
  apply list_elem_of_filter in Hin as [Hr _]. split; [|done].
  assert (E : range log lo (key a) = range (range log lo hi) lo (key a)).
  { unfold range. rewrite list_filter_filter. apply list_filter_iff. intros x. lia. }
  rewrite E. assert (LR := range_ascending log lo hi L).
  assert (Hall : Forall (fun x => lo < key x) (range log lo hi)).
  { apply Forall_forall. intros x Hx. apply list_elem_of_filter in Hx as [? _]. lia. }
  revert Hall LR Ha. generalize (range log lo hi). clear. intros l. revert n.
  induction l as [|x l IH]; intros n Hall LR Ha; [done|]. inversion LR as [|? ? LR' Hx]. subst.
  apply Forall_cons in Hall as [Hx0 Hall]. unfold range in *. destruct n as [|n]; simpl in Ha.
  - simplify_eq. rewrite filter_cons_True by lia. simpl. f_equal. symmetry. apply filter_none.
    rewrite Forall_forall in *. intros y Hy. specialize (Hx y Hy). lia.
  - assert (key x < key a).
    { rewrite Forall_forall in Hx. apply Hx. by eapply list_elem_of_lookup_2. }
    rewrite filter_cons_True by lia. cbn [take]. f_equal. by apply IH.
Qed.

(** A page is the log up to the position it advertises; a cut page holds exactly its cap
    and stops short of the bound. *)
Lemma page_spec log lo hi cap :
  ascending log -> (0 < cap)%nat ->
  (page log lo hi cap).1 = range log lo (page_end log lo hi cap) /\
  if (page log lo hi cap).2
  then lo < page_end log lo hi cap < hi /\ length (page log lo hi cap).1 = cap
  else page_end log lo hi cap = hi.
Proof.
  intros L Hcap. unfold page_end, page, window. set (F := range log lo hi).
  destruct (Nat.ltb_spec cap (length (take (S cap) F))) as [Hl|Hl].
  - assert (HF : (S cap <= length F)%nat) by (rewrite length_take in Hl; lia).
    rewrite take_take, Nat.min_l by lia.
    destruct (lookup_lt_is_Some_2 F (cap - 1) ltac:(lia)) as [a Ha].
    destruct (lookup_lt_is_Some_2 F cap ltac:(lia)) as [b Hb].
    destruct (take_range log lo hi _ _ L Ha) as [E Hr]. fold F in E.
    destruct (take_range log lo hi _ _ L Hb) as [_ Hrb].
    replace (S (cap - 1)) with cap in E by lia.
    assert (Hlast : last (take cap F) = Some a).
    { rewrite last_lookup, length_take. replace (pred (cap `min` length F)) with (cap - 1)%nat by lia.
      by rewrite lookup_take_lt by lia. }
    assert (Hlt : key a < key b).
    { eapply (ascending_lookup F (cap - 1) cap); [by apply range_ascending|done|done|lia]. }
    simpl. rewrite Hlast. split; [done|]. split; [lia|]. rewrite length_take. lia.
  - simpl. split; [|done]. rewrite length_take in Hl. apply (take_ge F). lia.
Qed.

(** Rows read up to a position, then from it. *)
Lemma range_split log lo mid hi :
  ascending log -> lo <= mid <= hi -> range log lo hi = range log lo mid ++ range log mid hi.
Proof.
  intros L Hm. unfold range. induction L as [|a l Hl IH Ha]; [done|].
  rewrite !filter_cons. repeat case_decide; try lia; try done.
  - simpl. by rewrite IH.
  - rewrite IH. assert (E : filter (fun x => lo < key x <= mid) l = []).
    { apply filter_none. rewrite Forall_forall in *. intros x Hx. specialize (Ha x Hx). lia. }
    by rewrite E.
Qed.

Lemma range_empty log lo hi : hi <= lo -> range log lo hi = [].
Proof. intros H. apply filter_none. apply Forall_forall. intros x _. lia. Qed.

(** What is left after a cut page is shorter by the cap. *)
Lemma page_left log lo hi cap :
  ascending log -> (0 < cap)%nat -> (page log lo hi cap).2 = true ->
  length (range log lo hi) = (cap + length (range log (page_end log lo hi cap) hi))%nat.
Proof.
  intros L Hc Hm. destruct (page_spec log lo hi cap L Hc) as [E H]. rewrite Hm in H.
  destruct H as [Hb Hl]. rewrite (range_split log lo (page_end log lo hi cap) hi) by (done || lia).
  rewrite length_app, <- E. lia.
Qed.

End Paging.

(** * Catching up: updates.getDifference and updates.getChannelDifference

    [handleGetDifferenceForConn] of [internal/api/updates.go] and
    [handleGetChannelDifference] of [internal/api/channels.go], over the batches of
    UpdateBatch.v, with the client's side of the protocol: it asks again from the state
    of every slice until an answer is final. *)

(** ** Data *)

Record ChatAdminSnapshot : Type := mkAdmin {
  as_EventID : Z;
  as_ChatID : Z;
  as_UserID : Z;
  as_IsAdmin : bool;
  as_Version : Z
}.

Record EncryptedEvent : Type := mkEnc {
  ee_Qts : Z;
  ee_ChatID : Z;
  ee_RandomID : Z;
  ee_Date : Z;
  ee_Bytes : string
}.

Record SecretChat : Type := mkSecretChat { sc_ID : Z; sc_Date : Z }.

Record UpdatesState : Type := mkState {
  st_Pts : Z;
  st_Qts : Z;
  st_Date : Z;
  st_Seq : Z;
  st_UnreadCount : Z
}.

(** A chat of the reply, by the constructor it renders to and its id. *)
Definition chat_ref : Type := string * Z.

(** The updates of a reply that are not new messages. *)
Inductive diff_update : Type :=
| DUpdate (u : tl_update)
| DChatAdmin (chatID userID : Z) (isAdmin : bool) (version : Z)
| DEncryption (chatID date : Z)
| DDialogFilters.

Inductive rpc_error : Type := errMethodNotImpl | errAuthKeyUnreg | errPeerIDInvalid | errInternal.

(** [UpdatesDifferenceEmpty], or a difference that is or is not final. *)
Inductive difference : Type :=
| DifferenceEmpty (date seq : Z)
| Difference (final : bool) (newMessages : list Z) (newEncrypted : list EncryptedEvent)
    (otherUpdates : list diff_update) (users : list Z) (chats : list chat_ref)
    (state : UpdatesState).

(** What runs once the reply is written: the markers consumed, and whether the folder
    refresh is acknowledged. *)
Record after_reply : Type := mkAfter { ar_consume : list Z; ar_ack : bool }.

Record diff_request : Type := mkDiffReq { dq_Pts : Z; dq_Qts : Z; dq_Date : Z }.

(** What the store answers. *)
Record diff_env : Type := mkDiffEnv {
  de_build : build_env;
  de_state : UpdatesState;
  de_users : list Z;
  de_chats : list chat_ref;
  de_admin : option (list ChatAdminSnapshot);
  de_loadUsers : list Z -> option (list Z);
  de_loadChats : list Z -> option (list chat_ref);
  de_encrypted : option (list EncryptedEvent);
  de_secret : option (list SecretChat);
  de_marker : option (option Z);
  de_now : Z
}.

(** ** Operations *)

Definition time_unix (seconds : Z) : Z := (seconds + 62135596800) * second.

Definition dialogFilterMarkerGuard : Z := 60 * second.

Definition dialogFilterMarkerWithinGuard (marker : option Z) (requestDate serverNow : Z) : bool :=
  match marker with
  | None => false
  | Some markerAt =>
      let cutoff := time_unix requestDate in
      let cutoff := if serverNow <? cutoff then serverNow else cutoff in
      negb (markerAt <? cutoff - dialogFilterMarkerGuard)
  end.

(** [appendUniqueDifferenceUsers] and [appendUniqueDifferenceChats]: the entries of
    [additional] whose key is new, in order. *)
Fixpoint append_unique {A} `{EqDecision A} (seen : list A) (additional : list A) : list A :=
  match additional with
  | [] => []
  | x :: rest =>
      if bool_decide (x ∈ seen) then append_unique seen rest
      else x :: append_unique (x :: seen) rest
  end.

Definition appendUniqueDifferenceUsers (existing additional : list Z) : list Z :=
  existing ++ append_unique existing additional.

Definition appendUniqueDifferenceChats (existing additional : list chat_ref) : list chat_ref :=
  existing ++ append_unique existing additional.

Definition admin_update (s : ChatAdminSnapshot) : diff_update :=
  DChatAdmin (as_ChatID s) (as_UserID s) (as_IsAdmin s) (as_Version s).

(** The snapshots of the reply, and whether more are pending. *)
Definition admin_page (pending : list ChatAdminSnapshot) : list ChatAdminSnapshot * bool :=
  let rows := take (Z.to_nat (maxDiffEvents + 1)) pending in
  if len rows >? maxDiffEvents then (take (Z.to_nat maxDiffEvents) rows, true) else (rows, false).

(** The users and chats of the reply once the snapshots' are added. *)
Definition admin_refs (e : diff_env) (snapshots : list ChatAdminSnapshot)
    : option (list Z * list chat_ref) :=
  match snapshots with
  | [] => Some (de_users e, de_chats e)
  | _ =>
      match de_loadUsers e (as_UserID <$> snapshots) with
      | None => None
      | Some users =>
          match de_loadChats e (as_ChatID <$> snapshots) with
          | None => None
          | Some chats =>
              Some (appendUniqueDifferenceUsers (de_users e) users,
                    appendUniqueDifferenceChats (de_chats e) chats)
          end
      end
  end.

(** The encrypted messages of the gap, whether it was cut, and the qts to advertise. *)
Definition encrypted_gap (e : diff_env) (fromQts : Z) : option (list EncryptedEvent * bool * Z) :=
  let stateQts := st_Qts (de_state e) in
  if fromQts <? stateQts then
    match de_encrypted e with
    | None => None
    | Some log =>
        let '(evts, more) := page ee_Qts log fromQts stateQts (Z.to_nat maxDiffEvents) in
        let newQts :=
          if more then match last evts with Some ev => ee_Qts ev | None => stateQts end else stateQts in
        Some (evts, more, newQts)
    end
  else Some ([], false, stateQts).

Definition SecretChatsAfterDate (chats : list SecretChat) (clientDate : Z) : list SecretChat :=
  filter (fun c => clientDate < sc_Date c) chats.

(** Seconds since the epoch, as [Time.Unix]. *)
Definition unix_of (t : Z) : Z := t / second - 62135596800.

Definition secret_update (c : SecretChat) : diff_update := DEncryption (sc_ID c) (unix_of (sc_Date c)).

(** New messages apart from everything else. *)
Definition new_message (u : tl_update) : list Z :=
  match u with UpdateNewMessage localID _ => [localID] | _ => [] end.

Definition other_update (u : tl_update) : list tl_update :=
  match u with UpdateNewMessage _ _ => [] | _ => [u] end.

Definition empty_list {A} (l : list A) : bool := match l with [] => true | _ => false end.

(** [handleGetDifferenceForConn]; [conn] is whether the request came on a connection,
    [recovery] what [Capture] returned for it. *)
Definition handleGetDifferenceForConn (e : diff_env) (userID : Z) (conn : bool)
    (recovery : DialogFilterCapture) (decoded : option diff_request)
    : result rpc_error (difference * option after_reply) :=
  match decoded with
  | None => Err errMethodNotImpl
  | Some req =>
      if userID =? 0 then Err errAuthKeyUnreg
      else
        match buildUpdates (de_build e) (dq_Pts req), de_admin e with
        | Some b, Some pendingAdmin =>
            let '(adminSnapshots, adminMore) := admin_page pendingAdmin in
            match admin_refs e adminSnapshots with
            | None => Err errInternal
            | Some (users, chats) =>
                match encrypted_gap e (dq_Qts req), de_secret e, de_marker e with
                | Some (encMsgs, encMore, newQts), Some secret, Some marker =>
                    let secretChats := SecretChatsAfterDate secret (time_unix (dq_Date req)) in
                    let filterRefresh :=
                      (conn && (cp_firstDifference recovery || cp_pending recovery)) ||
                      dialogFilterMarkerWithinGuard marker (dq_Date req) (de_now e) in
                    let includeFilterRefresh := filterRefresh && negb (b_more b) && negb encMore in
                    let adminEventIDs := as_EventID <$> adminSnapshots in
                    if negb (b_more b) && negb encMore && negb adminMore && empty_list (b_ups b) &&
                       empty_list adminSnapshots && empty_list encMsgs && empty_list secretChats &&
                       negb includeFilterRefresh
                    then Ok (DifferenceEmpty (st_Date (de_state e)) (st_Seq (de_state e)), None)
                    else
                      let newMessages := flat_map new_message (b_ups b) in
                      let other :=
                        (DUpdate <$> flat_map other_update (b_ups b)) ++ (admin_update <$> adminSnapshots) ++
                        (secret_update <$> secretChats) ++
                        (if includeFilterRefresh then [DDialogFilters] else []) in
                      let st := mkState (b_state_Pts b) newQts (st_Date (de_state e)) (st_Seq (de_state e))
                                  (st_UnreadCount (de_state e)) in
                      let some_ids := negb (empty_list adminEventIDs) in
                      if b_more b || encMore || adminMore then
                        Ok (Difference false newMessages encMsgs other users chats st,
                            if some_ids then Some (mkAfter adminEventIDs false) else None)
                      else
                        Ok (Difference true newMessages encMsgs other users chats st,
                            if some_ids || (conn && includeFilterRefresh)
                            then Some (mkAfter adminEventIDs (conn && includeFilterRefresh)) else None)
                | _, _, _ => Err errInternal
                end
            end
        | _, _ => Err errInternal
        end
  end.

(** [DeleteChatAdminStateMarkersByEventIDs]. *)
Definition consume_markers (ids : list Z) (pending : list ChatAdminSnapshot) : list ChatAdminSnapshot :=
  filter (fun s => as_EventID s ∉ ids) pending.

Definition run_after (e : diff_env) (after : option after_reply) : diff_env :=
  match after with
  | None => e
  | Some a =>
      mkDiffEnv (de_build e) (de_state e) (de_users e) (de_chats e)
        (consume_markers (ar_consume a) <$> de_admin e) (de_loadUsers e) (de_loadChats e)
        (de_encrypted e) (de_secret e) (de_marker e) (de_now e)
  end.

(** ** The client *)

Record client : Type := mkClient {
  cl_Pts : Z;
  cl_Qts : Z;
  cl_Date : Z;
  cl_messages : list Z;
  cl_updates : list tl_update;
  cl_encrypted : list EncryptedEvent;
  cl_admin : list diff_update
}.

Definition pts_updates (other : list diff_update) : list tl_update :=
  flat_map (fun u => match u with DUpdate u => [u] | _ => [] end) other.

Definition admin_updates (other : list diff_update) : list diff_update :=
  flat_map (fun u => match u with DChatAdmin _ _ _ _ => [u] | _ => [] end) other.

(** What a client does with a difference: it applies the contents and moves to the state
    it carries. *)
Definition apply_difference (cl : client) (newMessages : list Z) (enc : list EncryptedEvent)
    (other : list diff_update) (st : UpdatesState) : client :=
  mkClient (st_Pts st) (st_Qts st) (st_Date st) (cl_messages cl ++ newMessages)
    (cl_updates cl ++ pts_updates other) (cl_encrypted cl ++ enc) (cl_admin cl ++ admin_updates other).

Definition client_request (cl : client) : diff_request := mkDiffReq (cl_Pts cl) (cl_Qts cl) (cl_Date cl).

(** Asking until an answer is final; every reply is written, so its hook runs. *)
Fixpoint catch_up (fuel : nat) (e : diff_env) (userID : Z) (cl : client) : option client :=
  match fuel with
  | O => None
  | S fuel' =>
      match handleGetDifferenceForConn e userID false no_capture (Some (client_request cl)) with
      | Err _ => None
      | Ok (DifferenceEmpty _ _, _) => Some cl
      | Ok (Difference final msgs enc other _ _ st, after) =>
          let cl' := apply_difference cl msgs enc other st in
          if final then Some cl' else catch_up fuel' (run_after e after) userID cl'
      end
  end.

(** The store answers every read, its logs are ordered, and a marker has its own id. *)
Record env_ok (e : diff_env) (log : list Event) (enc : list EncryptedEvent)
    (admin : list ChatAdminSnapshot) : Prop := mkEnvOk {
  eo_state : be_state (de_build e) = Some (st_Pts (de_state e));
  eo_log : be_log (de_build e) = Some log;
  eo_log_ok : log_ok log;
  eo_build : be_ok (de_build e) = true;
  eo_admin : de_admin e = Some admin;
  eo_ids : NoDup (as_EventID <$> admin);
  eo_users : forall ids, is_Some (de_loadUsers e ids);
  eo_chats : forall ids, is_Some (de_loadChats e ids);
  eo_enc : de_encrypted e = Some enc;
  eo_enc_ok : ascending ee_Qts enc;
  eo_secret : is_Some (de_secret e);
  eo_marker : is_Some (de_marker e)
}.

(** ** One reply *)

Lemma admin_page_spec pending :
  (admin_page pending).1 = take 500 pending /\
  (admin_page pending).2 = (500 <? length pending)%nat.
Proof.
  unfold admin_page, maxDiffEvents. change (Z.to_nat (500 + 1)) with 501%nat.
  change (Z.to_nat 500) with 500%nat. unfold len. rewrite length_take.
  destruct (Nat.ltb_spec 500 (length pending)).
  - replace (Z.of_nat (501 `min` length pending) >? 500) with true by lia. simpl.
    by rewrite take_take.
  - replace (Z.of_nat (501 `min` length pending) >? 500) with false by lia. simpl.
    split; [|done]. by rewrite !take_ge by lia.
Qed.

Lemma encrypted_gap_spec e enc from :
  de_encrypted e = Some enc -> ascending ee_Qts enc ->
  exists evts more q, encrypted_gap e from = Some (evts, more, q) /\
    evts = range ee_Qts enc from q /\
    (from <= st_Qts (de_state e) -> from <= q <= st_Qts (de_state e)) /\
    (more = false -> q = st_Qts (de_state e)) /\
    (more = true -> from < q < st_Qts (de_state e) /\ length evts = 500%nat).
Proof.
  intros He Ha. unfold encrypted_gap. rewrite He. set (Q := st_Qts (de_state e)).
  destruct (Z.ltb_spec from Q) as [Hlt|Hge].
  - destruct (page_spec ee_Qts enc from Q (Z.to_nat maxDiffEvents) Ha) as [E H].
    { unfold maxDiffEvents. lia. }
    unfold page_end in *. destruct (page ee_Qts enc from Q _) as [evts more]. simpl in *.
    eexists _, _, _. split; [done|]. destruct more; [destruct H as [H Hl]|]; subst; split_and!; try done; lia.
  - exists [], false, Q. split; [done|]. rewrite (range_empty _ enc) by lia. split_and!; done || lia.
Qed.

Lemma admin_refs_some e l :
  (forall ids, is_Some (de_loadUsers e ids)) -> (forall ids, is_Some (de_loadChats e ids)) ->
  exists r, admin_refs e l = Some r.
Proof.
  intros Hu Hc. unfold admin_refs. destruct l as [|s l]; [eauto|].
  destruct (Hu (as_UserID <$> s :: l)) as [u ->]. destruct (Hc (as_ChatID <$> s :: l)) as [c ->]. eauto.
Qed.

Lemma flat_map_fmap {A B C} (f : B -> list C) (g : A -> B) l :
  flat_map f (g <$> l) = flat_map (fun x => f (g x)) l.
Proof. induction l as [|x l IH]; [done|]. rewrite fmap_cons. simpl. by rewrite IH. Qed.

Lemma flat_map_none {A B} (f : A -> list B) l : (forall x, f x = []) -> flat_map f l = [].
Proof. intros H. induction l as [|x l IH]; [done|]. simpl. by rewrite H, IH. Qed.

Lemma flat_map_one {A B} (f : A -> list B) (g : A -> B) l :
  (forall x, f x = [g x]) -> flat_map f l = g <$> l.
Proof. intros H. induction l as [|x l IH]; [done|]. rewrite fmap_cons. simpl. by rewrite H, IH. Qed.

Lemma pts_updates_other ups admin secret tail :
  pts_updates ((DUpdate <$> ups) ++ (admin_update <$> admin) ++ (secret_update <$> secret) ++
    (if tail : bool then [DDialogFilters] else [])) = ups.
Proof.
  unfold pts_updates. rewrite !flat_map_app, !flat_map_fmap, (flat_map_one _ id ups) by done.
  rewrite (flat_map_none _ admin), (flat_map_none _ secret), list_fmap_id by done.
  destruct tail; by rewrite app_nil_r.
Qed.

Lemma admin_updates_other ups admin secret tail :
  admin_updates ((DUpdate <$> ups) ++ (admin_update <$> admin) ++ (secret_update <$> secret) ++
    (if tail : bool then [DDialogFilters] else [])) = admin_update <$> admin.
Proof.
  unfold admin_updates. rewrite !flat_map_app, !flat_map_fmap, (flat_map_none _ ups) by done.
  rewrite (flat_map_one _ admin_update admin), (flat_map_none _ secret) by done.
  destruct tail; by rewrite app_nil_r.
Qed.

(** What one reply carries, in terms of the logs. *)
Definition reply_exact (found : Z -> bool) (log : list Event) (enc : list EncryptedEvent)
    (admin : list ChatAdminSnapshot) (req : diff_request) (Pts Qts : Z)
    (d : difference) (after : option after_reply) : Prop :=
  match d with
  | DifferenceEmpty _ _ =>
      updates_in found log (dq_Pts req) Pts = [] /\ range ee_Qts enc (dq_Qts req) Qts = [] /\
      admin = [] /\ after = None
  | Difference final msgs encMsgs other _ _ st =>
      msgs = flat_map new_message (updates_in found log (dq_Pts req) (st_Pts st)) /\
      pts_updates other = flat_map other_update (updates_in found log (dq_Pts req) (st_Pts st)) /\
      encMsgs = range ee_Qts enc (dq_Qts req) (st_Qts st) /\
      admin_updates other = admin_update <$> take 500 admin /\
      (after = None -> admin = []) /\
      (forall a, after = Some a -> ar_consume a = as_EventID <$> take 500 admin) /\
      (dq_Pts req <= Pts -> dq_Pts req <= st_Pts st <= Pts) /\
      (dq_Qts req <= Qts -> dq_Qts req <= st_Qts st <= Qts) /\
      if final
      then st_Pts st = Pts /\ st_Qts st = Qts /\ (length admin <= 500)%nat
      else
        (length (events_in log (dq_Pts req) (st_Pts st)) = 500%nat \/ length encMsgs = 500%nat \/
         500 < length admin)%nat
  end.

Lemma empty_list_true {A} (l : list A) : empty_list l = true -> l = [].
Proof. by destruct l. Qed.

Lemma reply_spec e log enc admin userID conn rcv req :
  env_ok e log enc admin -> userID <> 0 ->
  exists d after, handleGetDifferenceForConn e userID conn rcv (Some req) = Ok (d, after) /\
    reply_exact (be_found (de_build e)) log enc admin req (st_Pts (de_state e)) (st_Qts (de_state e))
      d after.
Proof.
  intros O Hu. destruct O as [Es El L Eb Ea Hids Husers Hchats Ee Le [secret Esec] [marker Emk]].
  assert (Ebuild : exists b, buildUpdates (de_build e) (dq_Pts req) = Some b).
  { unfold buildUpdates. rewrite Es, El, Eb. eauto. }
  destruct Ebuild as [b Hb].
  destruct (build_window _ _ _ _ _ Es El L Hb) as (Hups & _ & _ & _ & _ & Hmore).
  destruct (encrypted_gap_spec e enc (dq_Qts req) Ee Le) as (evts & encMore & q & Hgap & Hevts & Hq & Hq0 & Hq1).
  destruct (admin_page_spec admin) as [Hap Ham].
  destruct (admin_refs_some e (admin_page admin).1 Husers Hchats) as [[us cs] Hrefs].
  unfold handleGetDifferenceForConn. replace (userID =? 0) with false by lia.
  rewrite Hb, Ea. destruct (admin_page admin) as [snaps adminMore]. simpl in Hap, Ham, Hrefs.
  rewrite Hrefs, Hgap, Esec, Emk. cbv zeta.
  set (fr := _ || _). clearbody fr. set (sec := SecretChatsAfterDate _ _). clearbody sec.
  set (inc := fr && negb (b_more b) && negb encMore).
  assert (Hnil : snaps = [] -> admin = []).
  { intros E0. rewrite E0 in Hap. by destruct admin. }
  destruct (negb (b_more b) && _ && _ && _ && _ && _ && _ && _) eqn:Eempty.
  { eexists _, _. split; [done|]. simpl.
    destruct (b_more b), encMore; try discriminate Eempty. simpl in Eempty.
    rewrite !andb_true_iff in Eempty. destruct Eempty as [[[[[E1 E2] E3] E4] E5] E6].
    apply empty_list_true in E2, E3, E4. rewrite <- Hmore, <- (Hq0 eq_refl), <- Hups, <- Hevts.
    split_and!; auto. }
  clear Eempty.
  assert (Hids' : negb (empty_list (as_EventID <$> snaps)) = negb (empty_list snaps)) by (by destruct snaps).
  assert (Hst : dq_Pts req <= st_Pts (de_state e) -> dq_Pts req <= b_state_Pts b <= st_Pts (de_state e)).
  { intros. destruct (b_more b); [|lia]. lia. }
  assert (Hafter : forall c : bool, (if negb (empty_list (as_EventID <$> snaps)) || c
     then Some (mkAfter (as_EventID <$> snaps) c) else None) = None -> admin = []).
  { intros c E0. rewrite Hids' in E0. destruct snaps; [auto|done]. }
  destruct (b_more b || encMore || adminMore) eqn:Em; eexists _, _; (split; [reflexivity|]); simpl;
    rewrite pts_updates_other, admin_updates_other, Hups, Hap; rewrite <- Hap in *;
    split_and!; try done; auto.
  - intros E0. apply (Hafter false). rewrite orb_false_r. by destruct (negb _).
  - intros a Ha0. destruct (negb (empty_list (as_EventID <$> snaps))); by simplify_eq.
  - rewrite Ham in Em. destruct (b_more b).
    + left. destruct Hmore as [_ Hl]. unfold len, maxDiffEvents in Hl. lia.
    + destruct encMore; [right; left; by apply Hq1|]. simpl in Em. apply Nat.ltb_lt in Em. auto.
  - apply (Hafter (conn && inc)).
  - intros a Ha0. destruct (negb (empty_list (as_EventID <$> snaps)) || conn && inc); by simplify_eq.
  - destruct (b_more b); [done|]. lia.
  - destruct (b_more b), encMore; try done. by apply Hq0.
  - rewrite Ham in Em. destruct (b_more b), encMore; try done. simpl in Em. apply Nat.ltb_ge in Em. done.
Qed.

(** ** Catching up *)

Lemma filter_iff_in {A} (P Q : A -> Prop) `{forall x, Decision (P x), forall x, Decision (Q x)} (l : list A) :
  (forall x, x ∈ l -> P x <-> Q x) -> filter P l = filter Q l.
Proof.
  induction l as [|x l IH]; intros H'; [done|]. rewrite !filter_cons.
  rewrite IH by (intros y Hy; apply H'; by right). specialize (H' x ltac:(left)).
  repeat case_decide; tauto || done.
Qed.

Lemma consume_first n (pending : list ChatAdminSnapshot) :
  NoDup (as_EventID <$> pending) ->
  consume_markers (as_EventID <$> take n pending) pending = drop n pending.
Proof.
  unfold consume_markers. revert n. induction pending as [|s l IH]; intros n Hn; [by destruct n|].
  rewrite fmap_cons in Hn. apply NoDup_cons in Hn as [Hs Hn]. destruct n as [|n]; simpl.
  - apply filter_all, Forall_forall. intros x _. apply not_elem_of_nil.
  - rewrite filter_cons_False by (intros H; apply H; left). rewrite <- (IH n Hn).
    apply filter_iff_in. intros x Hx. rewrite elem_of_cons.
    assert (as_EventID x <> as_EventID s); [|naive_solver].
    intros E. apply Hs. rewrite <- E. by apply list_elem_of_fmap_2.
Qed.

Lemma log_ok_ascending log : log_ok log -> ascending ev_Pts log.
Proof. by intros [H _]. Qed.

Lemma updates_in_split found log lo mid hi :
  log_ok log -> lo <= mid <= hi ->
  updates_in found log lo hi = updates_in found log lo mid ++ updates_in found log mid hi.
Proof.
  intros L H. unfold updates_in. change events_in with (range ev_Pts).
  rewrite (range_split _ log lo mid hi) by (by apply log_ok_ascending || lia). apply flat_map_app.
Qed.

Lemma run_after_ok e log enc admin after :
  env_ok e log enc admin -> (after = None -> admin = []) ->
  (forall a, after = Some a -> ar_consume a = as_EventID <$> take 500 admin) ->
  env_ok (run_after e after) log enc (drop 500 admin) /\
  de_state (run_after e after) = de_state e /\ de_build (run_after e after) = de_build e.
Proof.
  intros O Hn Hs. destruct after as [a|]; [|by rewrite (Hn eq_refl) in *].
  split; [|done]. destruct O. split; simpl; try done.
  - rewrite eo_admin0. simpl. by rewrite (Hs a), consume_first.
  - rewrite <- (take_drop 500 admin), fmap_app in eo_ids0. by apply NoDup_app in eo_ids0 as (_ & _ & ?).
Qed.

(** How many replies the client needs: one per full page of each stream, and a last one. *)
Definition pages_left (log : list Event) (enc : list EncryptedEvent) (admin : list ChatAdminSnapshot)
    (cl : client) (Pts Qts : Z) : nat :=
  length (events_in log (cl_Pts cl) Pts) / 500 + length (range ee_Qts enc (cl_Qts cl) Qts) / 500 +
  length admin / 500.

Lemma div_page a b : (a = 500 + b)%nat -> (b / 500 < a / 500)%nat.
Proof. intros ->. replace (500 + b)%nat with (1 * 500 + b)%nat by lia. rewrite Nat.div_add_l; lia. Qed.

Lemma pages_left_decreases log enc admin cl cl' Pts Qts :
  log_ok log -> ascending ee_Qts enc ->
  cl_Pts cl <= cl_Pts cl' <= Pts -> cl_Qts cl <= cl_Qts cl' <= Qts ->
  (length (events_in log (cl_Pts cl) (cl_Pts cl')) = 500 \/
   length (range ee_Qts enc (cl_Qts cl) (cl_Qts cl')) = 500 \/ 500 < length admin)%nat ->
  (pages_left log enc (drop 500 admin) cl' Pts Qts < pages_left log enc admin cl Pts Qts)%nat.
Proof.
  intros L Le Hp Hq H. unfold pages_left. change events_in with (range ev_Pts) in *.
  assert (E1 := f_equal length (range_split ev_Pts log _ _ _ (log_ok_ascending _ L) Hp)).
  assert (E2 := f_equal length (range_split ee_Qts enc _ _ _ Le Hq)). rewrite length_app in E1, E2.
  assert (E3 := length_drop admin 500).
  set (n := length (range ev_Pts log (cl_Pts cl) Pts)) in *.
  set (n' := length (range ev_Pts log (cl_Pts cl') Pts)) in *.
  set (m := length (range ee_Qts enc (cl_Qts cl) Qts)) in *.
  set (m' := length (range ee_Qts enc (cl_Qts cl') Qts)) in *.
  assert (n' / 500 <= n / 500)%nat by (apply Nat.Div0.div_le_mono; lia).
  assert (m' / 500 <= m / 500)%nat by (apply Nat.Div0.div_le_mono; lia).
  assert (length (drop 500 admin) / 500 <= length admin / 500)%nat by (apply Nat.Div0.div_le_mono; lia).
  destruct H as [H|[H|H]].
  - assert (P := div_page n n' ltac:(lia)). lia.
  - assert (P := div_page m m' ltac:(lia)). lia.
  - assert (P := div_page (length admin) (length (drop 500 admin)) ltac:(lia)). lia.
Qed.

(** What a client that starts at [cl] ends up with. *)
Definition caught_up (found : Z -> bool) (log : list Event) (enc : list EncryptedEvent)
    (admin : list ChatAdminSnapshot) (Pts Qts : Z) (cl cl' : client) : Prop :=
  cl_messages cl' = cl_messages cl ++ flat_map new_message (updates_in found log (cl_Pts cl) Pts) /\
  cl_updates cl' = cl_updates cl ++ flat_map other_update (updates_in found log (cl_Pts cl) Pts) /\
  cl_encrypted cl' = cl_encrypted cl ++ range ee_Qts enc (cl_Qts cl) Qts /\
  cl_admin cl' = cl_admin cl ++ (admin_update <$> admin).

Lemma caught_up_step found log enc admin Pts Qts cl cl1 cl2 :
  log_ok log -> ascending ee_Qts enc ->
  cl_Pts cl <= cl_Pts cl1 <= Pts -> cl_Qts cl <= cl_Qts cl1 <= Qts ->
  caught_up found log enc (take 500 admin) (cl_Pts cl1) (cl_Qts cl1) cl cl1 ->
  caught_up found log enc (drop 500 admin) Pts Qts cl1 cl2 ->
  caught_up found log enc admin Pts Qts cl cl2.
Proof.
  intros L Le Hp Hq (M1 & U1 & E1 & A1) (M2 & U2 & E2 & A2). unfold caught_up.
  rewrite M2, M1, U2, U1, E2, E1, A2, A1, (updates_in_split found log _ _ _ L Hp), !flat_map_app.
  rewrite (range_split _ enc _ _ _ Le Hq), <- !app_assoc, <- fmap_app, take_drop. done.
Qed.

Lemma catch_up_spec fuel e log enc admin userID cl :
  env_ok e log enc admin -> userID <> 0 ->
  cl_Pts cl <= st_Pts (de_state e) -> cl_Qts cl <= st_Qts (de_state e) ->
  (pages_left log enc admin cl (st_Pts (de_state e)) (st_Qts (de_state e)) < fuel)%nat ->
  exists cl', catch_up fuel e userID cl = Some cl' /\
    caught_up (be_found (de_build e)) log enc admin (st_Pts (de_state e)) (st_Qts (de_state e)) cl cl'.
Proof.
  revert e admin cl. induction fuel as [|fuel IH]; intros e admin cl O Hu Hp Hq Hf; [lia|]. cbn [catch_up].
  destruct (reply_spec e log enc admin userID false no_capture (client_request cl) O Hu)
    as (d & after & -> & R).
  destruct d as [date seq|final msgs encMsgs other users chats st]; simpl in R.
  - destruct R as (E1 & E2 & -> & _). exists cl. split; [done|]. unfold caught_up.
    by rewrite E1, E2, !app_nil_r.
  - destruct R as (Hm & Ho & He & Ha & Hn & Hs & Hpts & Hqts & Hfin).
    specialize (Hpts Hp). specialize (Hqts Hq).
    set (cl1 := apply_difference cl msgs encMsgs other st).
    assert (C1 : caught_up (be_found (de_build e)) log enc (take 500 admin) (cl_Pts cl1) (cl_Qts cl1) cl cl1).
    { unfold caught_up, cl1. simpl. by rewrite Hm, Ho, He, Ha. }
    destruct final.
    + destruct Hfin as (E1 & E2 & Hl). exists cl1. split; [done|]. unfold cl1 in C1. simpl in C1.
      by rewrite E1, E2, take_ge in C1 by lia.
    + destruct (run_after_ok e log enc admin after O Hn Hs) as (O' & Es & Eb).
      destruct O as [Es0 _ L _ _ _ _ _ _ Le _ _].
      assert (Hlt := pages_left_decreases log enc admin cl cl1 _ _ L Le Hpts Hqts
        ltac:(by rewrite He in Hfin)).
      destruct (IH (run_after e after) (drop 500 admin) cl1 O' Hu) as (cl2 & E & C2);
        rewrite ?Es; [simpl; lia..|].
      exists cl2. split; [done|]. rewrite Es, Eb in C2.
      exact (caught_up_step _ _ _ admin _ _ cl cl1 cl2 L Le Hpts Hqts C1 C2).
Qed.

(** ** Channels *)

(** A channel's event log has the same shape as a user's; of its events only new messages
    are rendered, and only those whose row was found. *)
Record chan_env : Type := mkChanEnv {
  ce_input : result rpc_error Z;
  ce_member : result rpc_error Z;
  ce_state : option Z;
  ce_log : option (list Event);
  ce_found : Z -> bool;
  ce_ok : bool
}.

Record channelBatch : Type := mkChanBatch {
  cb_ups : list Z;
  cb_pts : list Z;
  cb_currentPts : Z;
  cb_more : bool
}.

Inductive chan_difference : Type :=
| ChannelDifferenceEmpty (pts : Z) (final : bool)
| ChannelDifference (final : bool) (pts : Z) (newMessages : list Z).

(** [channelEventToUpdate]: the message an event renders to, by its id. *)
Definition channelEventToUpdate (found : Z -> bool) (ev : Event) : option Z :=
  match ev_Type ev with
  | EventNewMessage => if found (ev_LocalID ev) then Some (ev_LocalID ev) else None
  | _ => None
  end.

Fixpoint hydrate_channel (found : Z -> bool) (events : list Event) : list (Z * Z) :=
  match events with
  | [] => []
  | ev :: events' =>
      match channelEventToUpdate found ev with
      | Some m => (ev_Pts ev, m) :: hydrate_channel found events'
      | None => hydrate_channel found events'
      end
  end.

Definition buildChannelUpdates (e : chan_env) (fromPts : Z) (limit : nat) (currentPts : Z)
    : option channelBatch :=
  match ce_log e with
  | None => None
  | Some log =>
      let '(events, more) := page ev_Pts log fromPts currentPts limit in
      if ce_ok e then
        let rows := hydrate_channel (ce_found e) events in
        let pts := if more then match last events with Some ev => ev_Pts ev | None => currentPts end
                   else currentPts in
        Some (mkChanBatch (snd <$> rows) (fst <$> rows) pts more)
      else None
  end.

Record chan_request : Type := mkChanReq { cq_Pts : Z; cq_Limit : Z }.

Definition chan_limit (limit : Z) : nat := Z.to_nat (Z.max 1 (Z.min limit maxDiffEvents)).

(** [ce_input] is what [inputChannelID] resolves the peer to, [ce_member] the join pts of
    the membership [requireChannelMember] found. *)
Definition handleGetChannelDifference (e : chan_env) (userID : Z) (decoded : option chan_request)
    : result rpc_error chan_difference :=
  match decoded with
  | None => Err errMethodNotImpl
  | Some req =>
      if userID =? 0 then Err errAuthKeyUnreg
      else
        match ce_input e, ce_member e with
        | Err err, _ => Err err
        | Ok _, Err err => Err err
        | Ok _, Ok joinPts =>
            let fromPts := Z.max (cq_Pts req) joinPts in
            let limit := chan_limit (cq_Limit req) in
            match ce_state e with
            | None => Err errInternal
            | Some currentPts =>
                if fromPts >=? currentPts then Ok (ChannelDifferenceEmpty currentPts true)
                else
                  match buildChannelUpdates e fromPts limit currentPts with
                  | None => Err errInternal
                  | Some b =>
                      if empty_list (cb_ups b) then Ok (ChannelDifferenceEmpty (cb_currentPts b) true)
                      else if cb_more b then Ok (ChannelDifference false (cb_currentPts b) (cb_ups b))
                      else Ok (ChannelDifference true (cb_currentPts b) (cb_ups b))
                  end
            end
        end
  end.

(** The subscriber asks until an answer is final. *)
Fixpoint chan_catch_up (fuel : nat) (e : chan_env) (userID limit pts : Z) (got : list Z)
    : option (Z * list Z) :=
  match fuel with
  | O => None
  | S fuel' =>
      match handleGetChannelDifference e userID (Some (mkChanReq pts limit)) with
      | Err _ => None
      | Ok (ChannelDifferenceEmpty pts' final) =>
          if final then Some (pts', got) else chan_catch_up fuel' e userID limit pts' got
      | Ok (ChannelDifference final pts' msgs) =>
          if final then Some (pts', got ++ msgs) else chan_catch_up fuel' e userID limit pts' (got ++ msgs)
      end
  end.

(** The messages of a range of the log, every event of which renders. *)
Definition posts_in (log : list Event) (lo hi : Z) : list Z := ev_LocalID <$> range ev_Pts log lo hi.

Definition renders (found : Z -> bool) (ev : Event) : Prop :=
  ev_Type ev = EventNewMessage /\ found (ev_LocalID ev) = true.

Lemma hydrate_channel_all found evs :
  Forall (renders found) evs -> snd <$> hydrate_channel found evs = ev_LocalID <$> evs.
Proof.
  induction 1 as [|ev evs [Ht Hf] Hl IH]; [done|]. cbn [hydrate_channel]. unfold channelEventToUpdate.
  rewrite Ht, Hf, !fmap_cons. simpl. by rewrite IH.
Qed.

(** One answer within the log. *)
Lemma chan_reply e userID channelID limit pts join current log :
  userID <> 0 -> ce_input e = Ok channelID -> ce_member e = Ok join -> ce_state e = Some current ->
  ce_log e = Some log -> ce_ok e = true -> ascending ev_Pts log -> Forall (renders (ce_found e)) log ->
  let from := Z.max pts join in
  (current <= from /\
   handleGetChannelDifference e userID (Some (mkChanReq pts limit)) = Ok (ChannelDifferenceEmpty current true)) \/
  (from < current /\ posts_in log from current = [] /\
   handleGetChannelDifference e userID (Some (mkChanReq pts limit)) = Ok (ChannelDifferenceEmpty current true)) \/
  exists final pts', from < pts' <= current /\
   handleGetChannelDifference e userID (Some (mkChanReq pts limit)) =
     Ok (ChannelDifference final pts' (posts_in log from pts')) /\
   (final = true -> pts' = current) /\
   (final = false -> length (range ev_Pts log from current) =
                     (chan_limit limit + length (range ev_Pts log pts' current))%nat).
Proof.
  intros Hu Hi Hm Hs Hl Hok L Hr from. unfold handleGetChannelDifference. cbn [cq_Pts cq_Limit].
  replace (userID =? 0) with false by lia. rewrite Hi, Hm, Hs. fold from.
  destruct (from >=? current) eqn:Eg; [left; split; [lia|done]|right].
  assert (Hc : (0 < chan_limit limit)%nat) by (unfold chan_limit; lia).
  unfold buildChannelUpdates. rewrite Hl, Hok.
  destruct (page_spec ev_Pts log from current (chan_limit limit) L Hc) as [E H].
  assert (Hleft := page_left ev_Pts log from current (chan_limit limit) L Hc).
  assert (Hpe : page_end ev_Pts log from current (chan_limit limit) =
    let '(events, more) := page ev_Pts log from current (chan_limit limit) in
    if more then match last events with Some ev => ev_Pts ev | None => current end else current) by done.
  destruct (page ev_Pts log from current (chan_limit limit)) as [events more] eqn:Ep. cbn [fst snd] in *.
  rewrite <- Hpe. set (pe := page_end _ _ _ _ _) in *.
  assert (Hh : snd <$> hydrate_channel (ce_found e) events = posts_in log from pe).
  { unfold posts_in. rewrite <- E. apply hydrate_channel_all. rewrite E. by apply Forall_filter_sub. }
  cbn [cb_ups cb_more cb_currentPts]. rewrite Hh.
  destruct (empty_list (posts_in log from pe)) eqn:Ee.
  - left. apply empty_list_true in Ee. destruct more.
    + destruct H as [_ H]. unfold posts_in in Ee. rewrite <- E in Ee. apply fmap_nil_inv in Ee.
      rewrite Ee in H. simpl in H. lia.
    + rewrite H in *. split; [lia|done].
  - right. exists (negb more), pe. destruct more; simpl.
    + destruct H as [Hb _]. split_and!; [lia|lia|done|done|]. intros _. by apply Hleft.
    + split_and!; [lia|lia|done|done|done].
Qed.

Lemma chan_catch_up_spec fuel e userID channelID limit pts join current log got :
  userID <> 0 -> ce_input e = Ok channelID -> ce_member e = Ok join -> ce_state e = Some current ->
  ce_log e = Some log -> ce_ok e = true -> ascending ev_Pts log -> Forall (renders (ce_found e)) log ->
  (length (range ev_Pts log (Z.max pts join) current) / chan_limit limit < fuel)%nat ->
  chan_catch_up fuel e userID limit pts got =
    Some (current, got ++ posts_in log (Z.max pts join) current).
Proof.
  intros Hu Hi Hm Hs Hl Hok L Hr. revert pts got.
  induction fuel as [|fuel IH]; intros pts got Hf; [lia|]. cbn [chan_catch_up].
  destruct (chan_reply e userID channelID limit pts join current log Hu Hi Hm Hs Hl Hok L Hr)
    as [[Hge ->]|[(_ & E & ->)|(final & pts' & Hb & -> & Ht & Hn)]].
  - unfold posts_in. by rewrite range_empty, app_nil_r by lia.
  - by rewrite E, app_nil_r.
  - destruct final.
    + by rewrite (Ht eq_refl).
    + specialize (Hn eq_refl). assert (Hc : (0 < chan_limit limit)%nat) by (unfold chan_limit; lia).
      rewrite IH.
      * unfold posts_in. replace (Z.max pts' join) with pts' by lia.
        rewrite (range_split _ log (Z.max pts join) pts' current) by (done || lia).
        by rewrite fmap_app, app_assoc.
      * replace (Z.max pts' join) with pts' by lia. rewrite Hn in Hf.
        replace (chan_limit limit + length (range ev_Pts log pts' current))%nat
          with (1 * chan_limit limit + length (range ev_Pts log pts' current))%nat in Hf by lia.
        rewrite Nat.div_add_l in Hf by lia. lia.
Qed.

(** ** Properties *)

(** One answer of getDifference is exact: its new messages and other
    updates are those of the log between the caller's pts and the pts it advertises, in
    order; its encrypted messages those between the caller's qts and the qts it
    advertises; it never advertises past what it carries; a final one reaches the
    state, one that is not is a full page of some stream; it is empty only when there
    is nothing to send; and the markers consumed once it is written are those it
    carried. *)
Theorem getDifference_exact (e : diff_env) (log : list Event) (enc : list EncryptedEvent)
    (admin : list ChatAdminSnapshot) (userID : Z) (conn : bool) (recovery : DialogFilterCapture)
    (req : diff_request) :
  env_ok e log enc admin -> userID <> 0 ->
  exists d after, handleGetDifferenceForConn e userID conn recovery (Some req) = Ok (d, after) /\
    reply_exact (be_found (de_build e)) log enc admin req (st_Pts (de_state e)) (st_Qts (de_state e))
      d after.
Proof. apply reply_spec. Qed.

(** C21 (liveness).  A client that asks again from the state of every slice catches up: with
    one round for each full page of 500 and one more, it has received, exactly once and
    in order, every update of the log, every encrypted message and every administrator
    change it was missing, however the streams fill their pages. *)
Theorem getDifference_catches_up (fuel : nat) (e : diff_env) (log : list Event)
    (enc : list EncryptedEvent) (admin : list ChatAdminSnapshot) (userID : Z) (cl : client) :
  env_ok e log enc admin -> userID <> 0 ->
  cl_Pts cl <= st_Pts (de_state e) -> cl_Qts cl <= st_Qts (de_state e) ->
  (pages_left log enc admin cl (st_Pts (de_state e)) (st_Qts (de_state e)) < fuel)%nat ->
  exists cl', catch_up fuel e userID cl = Some cl' /\
    caught_up (be_found (de_build e)) log enc admin (st_Pts (de_state e)) (st_Qts (de_state e)) cl cl'.
Proof. apply catch_up_spec. Qed.

(** A member that asks until an answer is final receives, exactly once and
    in order, every post since its pts or its joining, and ends at the channel's pts,
    whatever page size it asks for, when every event of the log renders. *)
Theorem channel_difference_catches_up (fuel : nat) (e : chan_env) (userID channelID limit pts join current : Z)
    (log : list Event) :
  userID <> 0 -> ce_input e = Ok channelID -> ce_member e = Ok join -> ce_state e = Some current ->
  ce_log e = Some log -> ce_ok e = true -> ascending ev_Pts log -> Forall (renders (ce_found e)) log ->
  (length (range ev_Pts log (Z.max pts join) current) / chan_limit limit < fuel)%nat ->
  chan_catch_up fuel e userID limit pts [] = Some (current, posts_in log (Z.max pts join) current).
Proof. intros. by eapply (chan_catch_up_spec fuel e userID channelID limit pts join current log []). Qed.

(** Without that condition an answer can be final too early: a full page of events none of
    which renders is answered as empty and final at the page's last pts, below the
    channel's, with a message still to come. *)
Definition skipping_channel : chan_env :=
  mkChanEnv (Ok 5) (Ok 0) (Some 2)
    (Some [mkEvent 1 EventEdit 10; mkEvent 2 EventNewMessage 11]) (fun _ => true) true.

Theorem channel_difference_final_early :
  handleGetChannelDifference skipping_channel 7 (Some (mkChanReq 0 1)) = Ok (ChannelDifferenceEmpty 1 true) /\
  channelEventToUpdate (ce_found skipping_channel) (mkEvent 2 EventNewMessage 11) = Some 11 /\
  chan_catch_up 10 skipping_channel 7 1 0 [] = Some (1, []).
Proof. vm_compute. repeat split; reflexivity. Qed.

(** ** A concrete account *)

Definition demo_diff_env : diff_env :=
  mkDiffEnv demo_env (mkState 4 3 1700000000 1 0) [7] []
    (Some [mkAdmin 21 3 8 true 2; mkAdmin 22 3 9 false 3]) (fun ids => Some ids)
    (fun ids => Some (pair "chat"%string <$> ids))
    (Some [mkEnc 1 50 100 1699999999 "a"; mkEnc 2 50 101 1699999999 "b"; mkEnc 3 50 102 1699999999 "c"])
    (Some []) (Some None) 0.

Definition demo_client : client := mkClient 1 1 1699990000 [] [] [] [].

Lemma demo_diff_ok :
  env_ok demo_diff_env demo_log
    [mkEnc 1 50 100 1699999999 "a"; mkEnc 2 50 101 1699999999 "b"; mkEnc 3 50 102 1699999999 "c"]
    [mkAdmin 21 3 8 true 2; mkAdmin 22 3 9 false 3].
Proof.
  split; try done; try (by eexists).
  - exact demo_log_ok.
  - repeat constructor; set_solver.
  - repeat constructor.
Qed.

Lemma getDifference_exact_witness :
  exists d after, handleGetDifferenceForConn demo_diff_env 7 false no_capture
      (Some (client_request demo_client)) = Ok (d, after) /\
    reply_exact (be_found demo_env) demo_log
      [mkEnc 1 50 100 1699999999 "a"; mkEnc 2 50 101 1699999999 "b"; mkEnc 3 50 102 1699999999 "c"]
      [mkAdmin 21 3 8 true 2; mkAdmin 22 3 9 false 3] (client_request demo_client) 4 3 d after.
Proof.
  apply (getDifference_exact demo_diff_env demo_log _ _ 7 false no_capture (client_request demo_client)
    demo_diff_ok). lia.
Defined.

Lemma getDifference_catches_up_witness :
  exists cl', catch_up 1 demo_diff_env 7 demo_client = Some cl' /\
    cl_updates cl' = [UpdateEditMessage 10 2; UpdateDeleteMessages 9 4] /\ length (cl_encrypted cl') = 2%nat /\
    length (cl_admin cl') = 2%nat.
Proof.
  destruct (getDifference_catches_up 1 demo_diff_env demo_log _ _ 7 demo_client demo_diff_ok
    ltac:(lia) ltac:(vm_compute; congruence) ltac:(vm_compute; congruence) ltac:(vm_compute; lia))
    as (cl' & E & _ & U & N & A).
  exists cl'. split; [exact E|]. rewrite U, N, A. vm_compute. repeat split; reflexivity.
Defined.

Lemma channel_difference_catches_up_witness :
  chan_catch_up 3 (mkChanEnv (Ok 5) (Ok 1) (Some 3)
    (Some [mkEvent 1 EventNewMessage 10; mkEvent 2 EventNewMessage 11; mkEvent 3 EventNewMessage 12])
    (fun _ => true) true) 7 1 0 [] = Some (3, [11; 12]).
Proof.
  rewrite (channel_difference_catches_up 3 _ 7 5 1 0 1 3
    [mkEvent 1 EventNewMessage 10; mkEvent 2 EventNewMessage 11; mkEvent 3 EventNewMessage 12]);
    try reflexivity; try lia; try (vm_compute; lia); repeat constructor.
Defined.
