(* ===== verification/RateLimit.v ===== *)
(** * The request rate limiter

    [internal/store/rate_limits.go] and the statements of
    [internal/store/queries/rate_limits.sql] it runs: one counter row per subject and
    surface, with the deadline of its window on the row.  Each statement is one step on
    the table; the database clock is in microseconds. *)

From S2P Require Import Prelude.

Record RateLimitConfig : Type := mkRLConfig { Limit : Z; Window : Z }.

Definition Enabled (c : RateLimitConfig) : bool := (Limit c >? 0) && (Window c >? 0).

(** [Window.Microseconds()], the interval the statements add. *)
Definition window_us (c : RateLimitConfig) : Z := Window c / 1000.

Notation rl_key := (Z * string)%type.

Record rl_row : Type := mkRow { token_count : Z; window_start : Z; expires_at : Z }.

Notation rl_table := (gmap rl_key rl_row).

(** ** Statements *)

(** [TryConsumeRateLimitCost]; [TryConsumeRateLimit] is its cost 1, whose [INSERT] has no
    guard and whose bound reads [token_count < limit]. *)
Definition TryConsumeRateLimitCost (t : rl_table) (k : rl_key) (cost window limit now : Z)
    : option rl_row * rl_table :=
  if limit <? cost then (None, t)
  else
    match t !! k with
    | None =>
        let r := mkRow cost now (now + window) in (Some r, <[k := r]> t)
    | Some r0 =>
        if expires_at r0 <=? now then
          let r := mkRow cost now (now + window) in (Some r, <[k := r]> t)
        else if token_count r0 + cost <=? limit then
          let r := mkRow (token_count r0 + cost) (window_start r0) (expires_at r0) in (Some r, <[k := r]> t)
        else (None, t)
    end.

Definition TryConsumeRateLimit (t : rl_table) (k : rl_key) (window limit now : Z)
    : option rl_row * rl_table :=
  match t !! k with
  | None => let r := mkRow 1 now (now + window) in (Some r, <[k := r]> t)
  | Some r0 =>
      if expires_at r0 <=? now then
        let r := mkRow 1 now (now + window) in (Some r, <[k := r]> t)
      else if token_count r0 <? limit then
        let r := mkRow (token_count r0 + 1) (window_start r0) (expires_at r0) in (Some r, <[k := r]> t)
      else (None, t)
  end.

Definition q_ChargeRateLimit (t : rl_table) (k : rl_key) (window now : Z) : rl_table :=
  match t !! k with
  | None => <[k := mkRow 1 now (now + window)]> t
  | Some r0 =>
      if expires_at r0 <=? now then <[k := mkRow 1 now (now + window)]> t
      else <[k := mkRow (token_count r0 + 1) (window_start r0) (expires_at r0)]> t
  end.

Definition q_RefundRateLimit (t : rl_table) (k : rl_key) (start : Z) : rl_table :=
  match t !! k with
  | Some r0 =>
      if window_start r0 =? start
      then <[k := mkRow (Z.max (token_count r0 - 1) 0) (window_start r0) (expires_at r0)]> t
      else t
  | None => t
  end.

Definition SweepExpiredRateLimits (t : rl_table) (now : Z) : rl_table :=
  filter (fun kr => now <= expires_at kr.2) t.

(** ** The operations of the store

    [between] is what other transactions do to the table between the denied statement
    and the read of the deadline; [now] is the database clock, [clock] the process's
    in nanoseconds. *)

Inductive rl_answer : Type :=
| RLAllowed
| RLDenied (wait : Z)
| RLFailed.

(** [waitUntil]: whole seconds, rounded up, at least one. *)
Definition waitUntil (now deadline : Z) : Z :=
  let wait := time_sub deadline now in
  let secs := Z.quot wait second in
  let secs := if Z.rem wait second >? 0 then secs + 1 else secs in
  Z.max secs 1 * second.

(** A database timestamp as a [time.Time]. *)
Definition pg_time (us : Z) : Z := us * 1000.

Definition CheckRateLimitCost (t : rl_table) (between : rl_table -> rl_table) (k : rl_key)
    (cfg : RateLimitConfig) (cost now clock : Z) : rl_answer * rl_table :=
  if negb (Enabled cfg) then (RLAllowed, t)
  else if cost <=? 0 then (RLFailed, t)
  else
    match TryConsumeRateLimitCost t k cost (window_us cfg) (Limit cfg) now with
    | (Some _, t') => (RLAllowed, t')
    | (None, t') =>
        let t'' := between t' in
        match t'' !! k with
        | Some r => (RLDenied (waitUntil clock (pg_time (expires_at r))), t'')
        | None =>
            if cost >? Limit cfg then (RLDenied (waitUntil clock (clock + Window cfg)), t'')
            else (RLAllowed, t'')
        end
    end.

Definition CheckRateLimit (t : rl_table) (between : rl_table -> rl_table) (k : rl_key)
    (cfg : RateLimitConfig) (now clock : Z) : rl_answer * rl_table :=
  CheckRateLimitCost t between k cfg 1 now clock.

Definition CheckRateLimitBudget (t : rl_table) (k : rl_key) (cfg : RateLimitConfig) (clock : Z)
    : rl_answer :=
  if negb (Enabled cfg) then RLAllowed
  else
    match t !! k with
    | None => RLAllowed
    | Some r =>
        if (pg_time (expires_at r) >? clock) && (token_count r >=? Limit cfg)
        then RLDenied (waitUntil clock (pg_time (expires_at r)))
        else RLAllowed
    end.

Definition ChargeRateLimit (t : rl_table) (k : rl_key) (cfg : RateLimitConfig) (now : Z) : rl_table :=
  if negb (Enabled cfg) then t else q_ChargeRateLimit t k (window_us cfg) now.

(** [ReserveRateLimit]: the reservation is the start of the window its token is in;
    a disabled limit and a window swept after the denial give none. *)
Definition ReserveRateLimit (t : rl_table) (between : rl_table -> rl_table) (k : rl_key)
    (cfg : RateLimitConfig) (now clock : Z) : rl_answer * option Z * rl_table :=
  if negb (Enabled cfg) then (RLAllowed, None, t)
  else
    match TryConsumeRateLimit t k (window_us cfg) (Limit cfg) now with
    | (Some r, t') => (RLAllowed, Some (window_start r), t')
    | (None, t') =>
        let t'' := between t' in
        match t'' !! k with
        | Some r => (RLDenied (waitUntil clock (pg_time (expires_at r))), None, t'')
        | None => (RLAllowed, None, t'')
        end
    end.

Definition RefundRateLimit (t : rl_table) (k : rl_key) (res : option Z) : rl_table :=
  match res with None => t | Some start => q_RefundRateLimit t k start end.

(** ** One statement for one token or many *)

Lemma TryConsume_one t k window limit now :
  0 < limit ->
  TryConsumeRateLimit t k window limit now = TryConsumeRateLimitCost t k 1 window limit now.
Proof.
  intros H. unfold TryConsumeRateLimit, TryConsumeRateLimitCost.
  replace (limit <? 1) with false by lia. destruct (t !! k) as [r0|]; [|done].
  destruct (expires_at r0 <=? now); [done|].
  by replace (token_count r0 + 1 <=? limit) with (token_count r0 <? limit) by lia.
Qed.

Lemma TryConsume_other t k k' cost window limit now r t' :
  TryConsumeRateLimitCost t k cost window limit now = (r, t') -> k <> k' -> t' !! k' = t !! k'.
Proof.
  unfold TryConsumeRateLimitCost. intros E Hk.
  repeat case_match; injection E as <- <-; rewrite ?lookup_insert_ne by done; done.
Qed.

Lemma TryConsume1_other t k k' window limit now r t' :
  TryConsumeRateLimit t k window limit now = (r, t') -> k <> k' -> t' !! k' = t !! k'.
Proof.
  unfold TryConsumeRateLimit. intros E Hk.
  repeat case_match; injection E as <- <-; rewrite ?lookup_insert_ne by done; done.
Qed.

Lemma charge_other t k k' window now : k <> k' -> q_ChargeRateLimit t k window now !! k' = t !! k'.
Proof.
  unfold q_ChargeRateLimit. intros Hk. destruct (t !! k); [|by rewrite lookup_insert_ne].
  destruct (_ <=? _); by rewrite lookup_insert_ne.
Qed.

Lemma refund_other t k k' start : k <> k' -> q_RefundRateLimit t k start !! k' = t !! k'.
Proof.
  unfold q_RefundRateLimit. intros Hk. destruct (t !! k); [|done].
  destruct (_ =? _); by rewrite ?lookup_insert_ne.
Qed.

(** ** Runs and the tokens held *)

(** A history of the writes to the table, each at the time the database clock shows:
    the guarded consumption of [CheckRateLimitCost] and the reservation of
    [ReserveRateLimit], the unguarded charge of [ChargeRateLimit], one token of a
    reservation given back, and sweeps. *)
Inductive rl_op : Type :=
| OpConsume (k : rl_key) (cost now : Z)
| OpReserve (k : rl_key) (now : Z)
| OpCharge (k : rl_key) (now : Z)
| OpRefund (k : rl_key) (token : Z * Z) (now : Z)
| OpSweep (now : Z).

Definition op_time (op : rl_op) : Z :=
  match op with
  | OpConsume _ _ now | OpReserve _ now | OpCharge _ now | OpRefund _ _ now | OpSweep now => now
  end.

(** The tokens of a key that were granted and not given back: when, and in which window. *)
Notation tokens := (list (Z * Z)).

Fixpoint remove_token (h : Z * Z) (l : tokens) : tokens :=
  match l with
  | [] => []
  | x :: l' => if decide (x = h) then l' else x :: remove_token h l'
  end.

(** [k0] is the key watched; a token of it is given back only by its holder. *)
Definition rl_step (cfg : rl_key -> RateLimitConfig) (k0 : rl_key) (st : rl_table * tokens) (op : rl_op)
    : rl_table * tokens :=
  let '(t, held) := st in
  match op with
  | OpConsume k cost now =>
      if negb (Enabled (cfg k)) || (cost <=? 0) then (t, held)
      else
        match TryConsumeRateLimitCost t k cost (window_us (cfg k)) (Limit (cfg k)) now with
        | (Some r, t') =>
            (t', if decide (k = k0) then replicate (Z.to_nat cost) (now, window_start r) ++ held else held)
        | (None, t') => (t', held)
        end
  | OpReserve k now =>
      if negb (Enabled (cfg k)) then (t, held)
      else
        match TryConsumeRateLimit t k (window_us (cfg k)) (Limit (cfg k)) now with
        | (Some r, t') => (t', if decide (k = k0) then (now, window_start r) :: held else held)
        | (None, t') => (t', held)
        end
  | OpCharge k now => (ChargeRateLimit t k (cfg k) now, held)
  | OpRefund k h now =>
      if decide (k = k0) then
        if decide (h ∈ held) then (q_RefundRateLimit t k h.2, remove_token h held) else (t, held)
      else (q_RefundRateLimit t k h.2, held)
  | OpSweep now => (SweepExpiredRateLimits t now, held)
  end.

Definition rl_run (cfg : rl_key -> RateLimitConfig) (k0 : rl_key) (ops : list rl_op) : rl_table * tokens :=
  foldl (rl_step cfg k0) (∅, []) ops.

Fixpoint ops_ordered (now : Z) (ops : list rl_op) : Prop :=
  match ops with
  | [] => True
  | op :: ops' => now <= op_time op /\ ops_ordered (op_time op) ops'
  end.

(** The charges a history makes against one key. *)
Fixpoint charges (k0 : rl_key) (ops : list rl_op) : Z :=
  match ops with
  | [] => 0
  | OpCharge k _ :: ops' => (if decide (k = k0) then 1 else 0) + charges k0 ops'
  | _ :: ops' => charges k0 ops'
  end.

Definition in_window (ws : Z) (held : tokens) : Z := len (filter (fun h : Z * Z => h.2 = ws) held).

(** [C] counts the unguarded charges so far: they alone take a counter past its limit. *)
Record rl_inv (W L C now : Z) (row : option rl_row) (held : tokens) : Prop := mkRlInv {
  ri_token : forall h, h ∈ held -> h.2 <= h.1 < h.2 + W /\ h.1 <= now;
  ri_class : forall ws, in_window ws held <= L;
  ri_apart : forall h h', h ∈ held -> h' ∈ held -> h.2 = h'.2 \/ h.2 + W <= h'.2 \/ h'.2 + W <= h.2;
  ri_row : forall r, row = Some r ->
    expires_at r = window_start r + W /\ window_start r <= now /\
    in_window (window_start r) held <= token_count r <= L + C /\
    forall h, h ∈ held -> h.2 = window_start r \/ h.2 + W <= window_start r;
  ri_none : row = None -> forall h, h ∈ held -> h.2 + W <= now
}.

(** ** The invariant *)

Lemma in_window_cons ws h held : in_window ws (h :: held) = (if decide (h.2 = ws) then 1 else 0) + in_window ws held.
Proof.
  unfold in_window. destruct (decide (h.2 = ws)).
  - rewrite filter_cons_True, len_cons by done. lia.
  - rewrite filter_cons_False by done. lia.
Qed.

Lemma in_window_nonneg ws held : 0 <= in_window ws held.
Proof. unfold in_window, len. lia. Qed.

Lemma in_window_replicate n ws t held :
  in_window ws (replicate n (t, ws) ++ held) = Z.of_nat n + in_window ws held.
Proof.
  induction n as [|n IH]; [done|]. cbn [replicate app]. rewrite in_window_cons, IH. simpl.
  rewrite decide_True by done. lia.
Qed.

Lemma in_window_replicate_ne n ws ws' t held :
  ws' <> ws -> in_window ws (replicate n (t, ws') ++ held) = in_window ws held.
Proof.
  intros H. induction n as [|n IH]; [done|]. cbn [replicate app]. rewrite in_window_cons, IH. simpl.
  rewrite decide_False by done. lia.
Qed.

Lemma in_window_none ws held : (forall h, h ∈ held -> h.2 <> ws) -> in_window ws held = 0.
Proof.
  induction held as [|h held IH]; intros H; [done|]. rewrite in_window_cons, IH.
  - rewrite decide_False by (apply H; left). lia.
  - intros h' Hh. apply H. by right.
Qed.

Lemma in_window_remove ws h held :
  h ∈ held -> in_window ws (remove_token h held) = in_window ws held - (if decide (h.2 = ws) then 1 else 0).
Proof.
  induction held as [|x l IH]; intros Hh; [by apply elem_of_nil in Hh|]. cbn [remove_token].
  rewrite in_window_cons. destruct (decide (x = h)) as [->|Hne]; [lia|].
  rewrite in_window_cons, IH by (apply elem_of_cons in Hh as [?|?]; [by subst|done]). lia.
Qed.

Lemma remove_token_sub h x held : x ∈ remove_token h held -> x ∈ held.
Proof.
  induction held as [|y l IH]; cbn [remove_token]; [done|].
  destruct (decide (y = h)); [by right|]. rewrite !elem_of_cons. naive_solver.
Qed.

Section invariant.
Context (W L C : Z).
Hypothesis HW : 0 < W.
Hypothesis HL : 0 < L.
Hypothesis HC : 0 <= C.

Lemma rl_inv_later now now' row held : now <= now' -> rl_inv W L C now row held -> rl_inv W L C now' row held.
Proof.
  intros Hle [H1 H2 H3 H4 H5]. split; try done.
  - intros h Hh. specialize (H1 h Hh). lia.
  - intros r Hr. destruct (H4 r Hr) as (A & B & E & D). split_and!; try done; lia.
  - intros Hn h Hh. specialize (H5 Hn h Hh). lia.
Qed.

(** A fresh window: every token held is of a window that is over. *)
Lemma rl_inv_fresh now row held cost :
  rl_inv W L C now row held -> (forall h, h ∈ held -> h.2 + W <= now) -> 0 < cost <= L ->
  rl_inv W L C now (Some (mkRow cost now (now + W))) (replicate (Z.to_nat cost) (now, now) ++ held).
Proof.
  intros [H1 H2 H3 _ _] Hold Hc.
  assert (H0 : in_window now held = 0).
  { apply in_window_none. intros h Hh. specialize (Hold h Hh). lia. }
  assert (Hin : forall h, h ∈ replicate (Z.to_nat cost) (now, now) ++ held -> h = (now, now) \/ h ∈ held).
  { intros h [Hh|Hh]%elem_of_app; [left; by apply elem_of_replicate in Hh as [? _]|by right]. }
  split.
  - intros h [->|Hh]%Hin; simpl; [lia|by apply H1].
  - intros ws. destruct (decide (ws = now)) as [->|Hne].
    + rewrite in_window_replicate, H0. lia.
    + rewrite in_window_replicate_ne by done. apply H2.
  - intros h h' [->|Hh]%Hin [->|Hh']%Hin; simpl; auto.
  - intros r [= <-]. simpl. rewrite in_window_replicate, H0. split_and!; try lia.
    intros h [->|Hh]%Hin; simpl; auto.
  - done.
Qed.

Lemma rl_inv_bump now r held cost :
  rl_inv W L C now (Some r) held -> now < expires_at r -> 0 < cost -> token_count r + cost <= L ->
  rl_inv W L C now (Some (mkRow (token_count r + cost) (window_start r) (expires_at r)))
    (replicate (Z.to_nat cost) (now, window_start r) ++ held).
Proof.
  intros [H1 H2 H3 H4 _] Hnow Hc Hl. destruct (H4 r eq_refl) as (A & B & E & D).
  assert (Hin : forall h, h ∈ replicate (Z.to_nat cost) (now, window_start r) ++ held ->
    h = (now, window_start r) \/ h ∈ held).
  { intros h [Hh|Hh]%elem_of_app; [left; by apply elem_of_replicate in Hh as [? _]|by right]. }
  split.
  - intros h [->|Hh]%Hin; simpl; [lia|by apply H1].
  - intros ws. destruct (decide (window_start r = ws)) as [<-|Hne].
    + rewrite in_window_replicate. lia.
    + rewrite in_window_replicate_ne by done. apply H2.
  - intros h h' [->|Hh]%Hin [->|Hh']%Hin; simpl; auto.
    + specialize (D h' Hh'). lia.
    + specialize (D h Hh). lia.
  - intros r' [= <-]. simpl. rewrite in_window_replicate. split_and!; try lia.
    intros h [->|Hh]%Hin; simpl; auto.
  - done.
Qed.

Lemma rl_inv_refund now row held h :
  rl_inv W L C now row held -> h ∈ held ->
  rl_inv W L C now
    (match row with
     | Some r => Some (if window_start r =? h.2
                       then mkRow (Z.max (token_count r - 1) 0) (window_start r) (expires_at r) else r)
     | None => None
     end) (remove_token h held).
Proof.
  intros [H1 H2 H3 H4 H5] Hh.
  assert (Hsub : forall x, x ∈ remove_token h held -> x ∈ held) by (intros x; apply remove_token_sub).
  split; [by auto| |by auto| |].
  - intros ws. rewrite in_window_remove by done. specialize (H2 ws). case_decide; lia.
  - intros r' Hr'. destruct row as [r|]; [|done]. simplify_eq. destruct (H4 r eq_refl) as (A & B & E & D).
    destruct (Z.eqb_spec (window_start r) (h.2)) as [Ew|Ew]; simpl; rewrite in_window_remove by done.
    + rewrite decide_True by done. split_and!; auto; lia.
    + rewrite decide_False by done. split_and!; auto; lia.
  - intros Hn. destruct row; [done|]. auto.
Qed.

(** A charge opens a window that holds no token, or counts past the tokens of the window
    that is open. *)
Lemma rl_inv_charge_fresh now row held :
  rl_inv W L C now row held -> (forall h, h ∈ held -> h.2 + W <= now) ->
  rl_inv W L (C + 1) now (Some (mkRow 1 now (now + W))) held.
Proof.
  intros [H1 H2 H3 _ _] Hold. split; try done. intros r [= <-]. simpl.
  rewrite in_window_none by (intros h Hh; specialize (Hold h Hh); lia). split_and!; try lia.
  intros h Hh. right. by apply Hold.
Qed.

Lemma rl_inv_charge_bump now r held :
  rl_inv W L C now (Some r) held ->
  rl_inv W L (C + 1) now (Some (mkRow (token_count r + 1) (window_start r) (expires_at r))) held.
Proof.
  intros [H1 H2 H3 H4 _]. destruct (H4 r eq_refl) as (A & B & E & D). split; try done.
  intros r' [= <-]. simpl. split_and!; try lia. done.
Qed.

(** Sweeping drops only rows whose window is over. *)
Lemma rl_inv_sweep now row held :
  rl_inv W L C now row held ->
  rl_inv W L C now (match row with Some r => if now <=? expires_at r then Some r else None | None => None end) held.
Proof.
  intros I. destruct row as [r|]; [|done]. destruct (Z.leb_spec now (expires_at r)); [done|].
  destruct I as [H1 H2 H3 H4 _]. destruct (H4 r eq_refl) as (A & B & E & D). split; try done.
  intros _ h Hh. specialize (D h Hh). lia.
Qed.

(** Three windows do not meet one span. *)
Lemma rl_span now row held t :
  rl_inv W L C now row held -> count_in t (t + W) (fst <$> held) <= 2 * L.
Proof.
  intros [H1 H2 H3 _ _]. unfold count_in.
  assert (E : len (filter (fun x => t <= x < t + W) (fst <$> held)) =
              len (filter (fun h : Z * Z => t <= h.1 < t + W) held)).
  { clear. induction held as [|h l IH]; [done|]. rewrite fmap_cons, !filter_cons.
    destruct (decide (t <= h.1 < t + W)); rewrite ?len_cons; lia. }
  rewrite E.
  assert (Hcover : forall w1 w2, (forall h, h ∈ held -> t <= h.1 < t + W -> h.2 = w1 \/ h.2 = w2) ->
    len (filter (fun h : Z * Z => t <= h.1 < t + W) held) <= in_window w1 held + in_window w2 held).
  { clear. intros w1 w2 H. induction held as [|h l IH]; [done|].
    rewrite !in_window_cons, filter_cons.
    specialize (IH (fun h' Hh' => H h' (list_elem_of_further h' h l Hh'))).
    specialize (H h (list_elem_of_here h l)).
    destruct (decide (t <= h.1 < t + W)) as [Hs|Hs].
    - rewrite len_cons. destruct (H Hs) as [E1|E2]; repeat case_decide; lia || done.
    - repeat case_decide; lia. }
  destruct (decide (Exists (fun h : Z * Z => t <= h.1 < t + W) held)) as [Hex|Hno].
  - apply Exists_exists in Hex as (h1 & Hh1 & Hs1).
    destruct (decide (Exists (fun h : Z * Z => t <= h.1 < t + W /\ h.2 <> h1.2) held)) as [Hex2|Hno2].
    + apply Exists_exists in Hex2 as (h2 & Hh2 & Hs2 & Hne).
      specialize (Hcover h1.2 h2.2). assert (A := H2 h1.2). assert (B := H2 h2.2).
      enough (len (filter (fun h : Z * Z => t <= h.1 < t + W) held) <= in_window h1.2 held + in_window h2.2 held)
        by lia.
      apply Hcover. intros h Hh Hs.
      assert (P1 := H3 h h1 Hh Hh1). assert (P2 := H3 h h2 Hh Hh2). assert (P3 := H3 h1 h2 Hh1 Hh2).
      assert (Q := H1 h Hh). assert (Q1 := H1 h1 Hh1). assert (Q2 := H1 h2 Hh2). lia.
    + specialize (Hcover h1.2 h1.2). assert (A := H2 h1.2).
      enough (len (filter (fun h : Z * Z => t <= h.1 < t + W) held) <= in_window h1.2 held + in_window h1.2 held)
        by lia.
      apply Hcover. intros h Hh Hs. destruct (decide (h.2 = h1.2)); [by left|].
      destruct Hno2. apply Exists_exists. by exists h.
  - rewrite filter_none; [unfold len; simpl; lia|]. by apply Forall_Exists_neg.
Qed.

End invariant.

(** ** Runs keep the invariant *)

Lemma sweep_lookup (t : rl_table) now k :
  SweepExpiredRateLimits t now !! k =
  match t !! k with Some r => if now <=? expires_at r then Some r else None | None => None end.
Proof.
  unfold SweepExpiredRateLimits. destruct (t !! k) as [r|] eqn:E.
  - destruct (Z.leb_spec now (expires_at r)).
    + by apply map_lookup_filter_Some.
    + apply map_lookup_filter_None. right. intros r' Hr'. simplify_eq. simpl. lia.
  - apply map_lookup_filter_None. by left.
Qed.

Lemma refund_lookup (t : rl_table) k start :
  q_RefundRateLimit t k start !! k =
  match t !! k with
  | Some r => Some (if window_start r =? start
                    then mkRow (Z.max (token_count r - 1) 0) (window_start r) (expires_at r) else r)
  | None => None
  end.
Proof.
  unfold q_RefundRateLimit. destruct (t !! k) as [r|] eqn:E; [|done].
  destruct (_ =? _); [by rewrite lookup_insert_eq|done].
Qed.

Lemma TryConsumeCost_inv (cfg : rl_key -> RateLimitConfig) (k0 : rl_key) (t : rl_table) held C cost n r t' :
  0 < window_us (cfg k0) -> 0 < Limit (cfg k0) -> 0 <= C -> 0 < cost ->
  rl_inv (window_us (cfg k0)) (Limit (cfg k0)) C n (t !! k0) held ->
  TryConsumeRateLimitCost t k0 cost (window_us (cfg k0)) (Limit (cfg k0)) n = (r, t') ->
  rl_inv (window_us (cfg k0)) (Limit (cfg k0)) C n (t' !! k0)
    (match r with Some r => replicate (Z.to_nat cost) (n, window_start r) ++ held | None => held end).
Proof.
  intros HW HL HC Hc I E. unfold TryConsumeRateLimitCost in E.
  destruct (Z.ltb_spec (Limit (cfg k0)) cost).
  { injection E as <- <-. done. }
  destruct (t !! k0) as [r0|] eqn:Er0.
  - destruct (Z.leb_spec (expires_at r0) n); [|destruct (Z.leb_spec (token_count r0 + cost) (Limit (cfg k0)))];
      injection E as <- <-; simpl; rewrite ?lookup_insert_eq, ?Er0; try done.
    + eapply rl_inv_fresh; try done; try lia. destruct I as [_ _ _ H4 _].
      destruct (H4 r0 eq_refl) as (A & B & F & D). intros h Hh. specialize (D h Hh). lia.
    + by eapply rl_inv_bump.
  - injection E as <- <-. simpl. rewrite lookup_insert_eq. eapply rl_inv_fresh; try done; try lia.
    by apply (ri_none _ _ _ _ _ _ I).
Qed.

Lemma charge_inv (cfg : rl_key -> RateLimitConfig) (k0 : rl_key) (t : rl_table) held C n :
  0 < window_us (cfg k0) -> 0 < Limit (cfg k0) -> 0 <= C ->
  rl_inv (window_us (cfg k0)) (Limit (cfg k0)) C n (t !! k0) held ->
  rl_inv (window_us (cfg k0)) (Limit (cfg k0)) (C + 1) n
    (q_ChargeRateLimit t k0 (window_us (cfg k0)) n !! k0) held.
Proof.
  intros HW HL HC I. unfold q_ChargeRateLimit. destruct (t !! k0) as [r0|] eqn:Er0.
  - destruct (Z.leb_spec (expires_at r0) n); rewrite lookup_insert_eq.
    + eapply rl_inv_charge_fresh; try done. destruct (ri_row _ _ _ _ _ _ I r0 eq_refl) as (A & B & F & D).
      intros h Hh. specialize (D h Hh). lia.
    + by apply rl_inv_charge_bump.
  - rewrite lookup_insert_eq. eapply rl_inv_charge_fresh; try done. by apply (ri_none _ _ _ _ _ _ I).
Qed.

Lemma charges_cons k0 op ops : charges k0 (op :: ops) = charges k0 [op] + charges k0 ops.
Proof. destruct op; cbn [charges]; lia. Qed.

Lemma charges_nonneg k0 ops : 0 <= charges k0 ops.
Proof. induction ops as [|op ops IH]; [done|]. destruct op; cbn [charges]; try case_decide; lia. Qed.

Lemma charges_one k0 k now : charges k0 [OpCharge k now] = if decide (k = k0) then 1 else 0.
Proof. cbn [charges]. lia. Qed.

Lemma Enabled_of cfg : 0 < window_us cfg -> 0 < Limit cfg -> Enabled cfg = true.
Proof.
  unfold window_us, Enabled. intros HW HL. apply andb_true_iff. split; [lia|].
  destruct (Z.gtb_spec (Window cfg) 0); [done|].
  assert (Window cfg / 1000 <= 0); [|lia]. apply Z.div_le_upper_bound; lia.
Qed.

Lemma rl_step_inv cfg k0 t held op now C :
  0 < window_us (cfg k0) -> 0 < Limit (cfg k0) -> 0 <= C -> now <= op_time op ->
  rl_inv (window_us (cfg k0)) (Limit (cfg k0)) C now (t !! k0) held ->
  rl_inv (window_us (cfg k0)) (Limit (cfg k0)) (C + charges k0 [op]) (op_time op)
    ((rl_step cfg k0 (t, held) op).1 !! k0) (rl_step cfg k0 (t, held) op).2.
Proof.
  intros HW HL HC Hnow I. apply (rl_inv_later _ _ _ _ _ _ _ Hnow) in I.
  assert (Hen := Enabled_of _ HW HL).
  destruct op as [k cost n|k n|k n|k h n|n]; cbn [rl_step op_time] in *;
    rewrite ?charges_one; try replace (C + charges k0 _) with C by (cbn; lia).
  - destruct (negb (Enabled (cfg k)) || (cost <=? 0)) eqn:Hg; [done|]. apply orb_false_iff in Hg as [_ Hc].
    destruct (TryConsumeRateLimitCost t k cost _ _ n) as [ro t'] eqn:E.
    destruct (decide (k = k0)) as [->|Hk].
    + assert (J := TryConsumeCost_inv _ _ _ _ _ cost _ _ _ HW HL HC ltac:(lia) I E). by destruct ro.
    + assert (Ho := TryConsume_other _ _ k0 _ _ _ _ _ _ E Hk). destruct ro; simpl; by rewrite Ho.
  - destruct (negb (Enabled (cfg k))); [done|].
    destruct (TryConsumeRateLimit t k _ _ n) as [ro t'] eqn:E. destruct (decide (k = k0)) as [->|Hk].
    + rewrite TryConsume_one in E by done.
      assert (J := TryConsumeCost_inv _ _ _ _ _ 1 _ _ _ HW HL HC ltac:(lia) I E). by destruct ro.
    + assert (Ho := TryConsume1_other _ _ k0 _ _ _ _ _ E Hk). destruct ro; simpl; by rewrite Ho.
  - unfold ChargeRateLimit. simpl. destruct (decide (k = k0)) as [->|Hk].
    + rewrite Hen. by apply charge_inv.
    + rewrite Z.add_0_r. destruct (negb _); [done|]. by rewrite charge_other.
  - destruct (decide (k = k0)) as [->|Hk].
    + destruct (decide (h ∈ held)) as [Hh|]; [|done]. simpl. rewrite refund_lookup.
      by apply rl_inv_refund.
    + simpl. by rewrite refund_other.
  - simpl. rewrite sweep_lookup. by apply rl_inv_sweep.
Qed.

Lemma rl_run_inv cfg k0 ops now t held C :
  0 < window_us (cfg k0) -> 0 < Limit (cfg k0) -> 0 <= C -> ops_ordered now ops ->
  rl_inv (window_us (cfg k0)) (Limit (cfg k0)) C now (t !! k0) held ->
  exists now', now <= now' /\
    rl_inv (window_us (cfg k0)) (Limit (cfg k0)) (C + charges k0 ops) now'
      ((foldl (rl_step cfg k0) (t, held) ops).1 !! k0) (foldl (rl_step cfg k0) (t, held) ops).2.
Proof.
  intros HW HL. revert now t held C. induction ops as [|op ops IH]; intros now t held C HC Ho I.
  - exists now. split; [lia|]. by replace (C + charges k0 []) with C by (cbn; lia).
  - destruct Ho as [Hle Ho]. cbn [foldl]. rewrite charges_cons, Z.add_assoc.
    assert (I' := rl_step_inv cfg k0 t held op now C HW HL HC Hle I).
    destruct (rl_step cfg k0 (t, held) op) as [t' held']. simpl in I'.
    assert (Hnn := charges_nonneg k0 [op]).
    destruct (IH _ _ _ (C + charges k0 [op]) ltac:(lia) Ho I') as (now' & Hn & I''). exists now'. split; [lia|done].
Qed.

Lemma rl_inv_empty W L C now : 0 < L -> rl_inv W L C now None [].
Proof.
  intros HL. split; try done.
  - intros h Hh. by apply elem_of_nil in Hh.
  - intros ws. unfold in_window, len. simpl. lia.
  - intros h h' Hh. by apply elem_of_nil in Hh.
  - intros _ h Hh. by apply elem_of_nil in Hh.
Qed.

(** ** The wait *)

Lemma waitUntil_spec now deadline :
  0 < deadline - now < 2 ^ 62 ->
  second <= waitUntil now deadline /\ deadline <= now + waitUntil now deadline < deadline + second /\
  (waitUntil now deadline) mod second = 0.
Proof.
  intros H. unfold waitUntil, time_sub. cbv zeta.
  set (w := Z.max (- 2 ^ 63) (Z.min (2 ^ 63 - 1) (deadline - now))).
  assert (Ew : w = deadline - now) by (unfold w; lia). clearbody w.
  rewrite Z.quot_div_nonneg, Z.rem_mod_nonneg by (unfold second; lia).
  assert (Hd := Z.div_mod w second ltac:(done)). assert (Hm := Z.mod_pos_bound w second ltac:(done)).
  set (q := w / second) in *. set (m := w mod second) in *.
  assert (Hq : 0 <= q) by (apply Z.div_pos; unfold second; lia).
  rewrite Z.mod_mul by done. unfold second in *. destruct (Z.gtb_spec m 0).
  - rewrite Z.max_l by lia. lia.
  - assert (1 <= q) by lia. rewrite Z.max_l by lia. lia.
Qed.

(** ** Properties *)

(** C36 (bounds).  Take any history of writes to the rate-limit table, on any keys and in
    the order of the database clock: guarded consumption, reservations, unguarded charges,
    refunds of reserved tokens and sweeps.  The tokens granted for one key (consumed or
    reserved under the guard) and not given back by their holder number at most the limit
    in any one window and at most twice the limit in any span as long as the window.  The
    key's counter covers the tokens granted in its window, and only the unguarded charges
    of [ChargeRateLimit], which always count, take it past the limit: by no more than
    their number. *)
Theorem rate_limit_span_bound (cfg : rl_key -> RateLimitConfig) (k0 : rl_key) (ops : list rl_op) (start : Z) :
  0 < window_us (cfg k0) -> 0 < Limit (cfg k0) -> ops_ordered start ops ->
  let '(t, held) := rl_run cfg k0 ops in
  (forall from, count_in from (from + window_us (cfg k0)) (fst <$> held) <= 2 * Limit (cfg k0)) /\
  (forall ws, in_window ws held <= Limit (cfg k0)) /\
  (forall r, t !! k0 = Some r ->
     in_window (window_start r) held <= token_count r <= Limit (cfg k0) + charges k0 ops /\
     expires_at r = window_start r + window_us (cfg k0)).
Proof.
  intros HW HL Ho. unfold rl_run.
  destruct (rl_run_inv cfg k0 ops start ∅ [] 0 HW HL ltac:(lia) Ho) as (now' & _ & I).
  { rewrite lookup_empty. by apply rl_inv_empty. }
  destruct (foldl (rl_step cfg k0) (∅, []) ops) as [t held]. simpl in I. split_and!.
  - intros from. by eapply rl_span.
  - apply (ri_class _ _ _ _ _ _ I).
  - intros r Hr. destruct (ri_row _ _ _ _ _ _ I r Hr) as (A & _ & C & _). done.
Qed.

(** Sweeping is invisible: a charge after a sweep is admitted or refused
    exactly as it would have been without it, and leaves the same row behind. *)
Theorem sweep_transparent (t : rl_table) (k : rl_key) (cost window limit swept now : Z) :
  swept <= now ->
  let '(r, t') := TryConsumeRateLimitCost t k cost window limit now in
  let '(r', t'') := TryConsumeRateLimitCost (SweepExpiredRateLimits t swept) k cost window limit now in
  r' = r /\ (is_Some r -> t'' !! k = t' !! k).
Proof.
  intros Hs. unfold TryConsumeRateLimitCost. rewrite sweep_lookup.
  destruct (limit <? cost); [split; [done|by intros []]|].
  destruct (t !! k) as [r0|] eqn:E; [|split; [done|intros _; by rewrite !lookup_insert_eq]].
  destruct (Z.leb_spec swept (expires_at r0)).
  - destruct (expires_at r0 <=? now); [split; [done|intros _; by rewrite !lookup_insert_eq]|].
    destruct (_ <=? limit); [split; [done|intros _; by rewrite !lookup_insert_eq]|].
    split; [done|by intros []].
  - replace (expires_at r0 <=? now) with true by lia.
    split; [done|]. intros _. by rewrite !lookup_insert_eq.
Qed.

(** A refusal tells the truth: when nothing else touches the key, the
    wait it reports is a whole number of seconds, at least one, less than a second
    longer than needed, and a request of any cost within the limit made after it is
    admitted. *)
Theorem denied_wait_suffices (t : rl_table) (k : rl_key) (cfg : RateLimitConfig) (cost now wait later : Z)
    (t' : rl_table) (r : rl_row) :
  t !! k = Some r -> now < expires_at r < now + 2 ^ 50 ->
  CheckRateLimitCost t id k cfg cost now (pg_time now) = (RLDenied wait, t') ->
  pg_time now + wait <= pg_time later ->
  second <= wait /\ wait mod second = 0 /\ pg_time now + wait < pg_time (expires_at r) + second /\
  t' = t /\ (0 < cost <= Limit cfg -> (CheckRateLimitCost t' id k cfg cost later (pg_time later)).1 = RLAllowed).
Proof.
  intros Hr Hnow E Hl. unfold CheckRateLimitCost in E.
  destruct (Enabled cfg) eqn:Een; [|done]. cbn [negb] in E. destruct (Z.leb_spec cost 0); [done|].
  destruct (TryConsumeRateLimitCost t k cost _ _ now) as [ro t1] eqn:Et. destruct ro; [done|].
  assert (t1 = t) as ->.
  { unfold TryConsumeRateLimitCost in Et. by repeat case_match; simplify_eq. }
  unfold id in E. rewrite Hr in E. injection E as <- <-.
  destruct (waitUntil_spec (pg_time now) (pg_time (expires_at r))) as (A & B & C).
  { unfold pg_time. lia. }
  split; [done|]. split; [done|]. split; [lia|]. split; [done|]. intros Hc.
  unfold CheckRateLimitCost. rewrite Een. cbn [negb]. replace (cost <=? 0) with false by lia.
  unfold TryConsumeRateLimitCost. replace (Limit cfg <? cost) with false by lia. rewrite Hr.
  replace (expires_at r <=? later) with true by (unfold pg_time in *; lia). done.
Qed.

(** ** A run *)

Definition demo_cfg (k : rl_key) : RateLimitConfig := mkRLConfig 3 (2 * second).

Definition demo_ops : list rl_op :=
  [OpConsume (7, "send"%string) 2 1000; OpConsume (7, "send"%string) 2 1100;
   OpReserve (7, "send"%string) 1200; OpRefund (7, "send"%string) (1200, 1000) 1300;
   OpCharge (7, "send"%string) 1400; OpCharge (7, "send"%string) 1500; OpReserve (7, "send"%string) 1600;
   OpSweep 2001001; OpConsume (7, "send"%string) 3 2001100; OpCharge (7, "send"%string) 2001200].

Lemma demo_held : (rl_run demo_cfg (7, "send"%string) demo_ops).2 =
  [(2001100, 2001100); (2001100, 2001100); (2001100, 2001100); (1000, 1000); (1000, 1000)].
Proof. vm_compute. reflexivity. Qed.

Lemma demo_counter : (rl_run demo_cfg (7, "send"%string) demo_ops).1 !! (7, "send"%string) =
  Some (mkRow 4 2001100 4001100).
Proof. vm_compute. reflexivity. Qed.

Lemma rate_limit_span_bound_witness :
  (forall from, count_in from (from + 2000000) (fst <$> (rl_run demo_cfg (7, "send"%string) demo_ops).2) <= 6) /\
  len (rl_run demo_cfg (7, "send"%string) demo_ops).2 = 5 /\
  (rl_run demo_cfg (7, "send"%string) demo_ops).1 !! (7, "send"%string) = Some (mkRow 4 2001100 4001100).
Proof.
  assert (H := rate_limit_span_bound demo_cfg (7, "send"%string) demo_ops 0 eq_refl eq_refl
    ltac:(vm_compute; repeat split; congruence)).
  split; [|split; [by rewrite demo_held|exact demo_counter]].
  destruct (rl_run demo_cfg (7, "send"%string) demo_ops) as [t held]. apply (proj1 H).
Defined.

(** A lapsed row, swept or not, and a full one. *)
Definition demo_lapsed : rl_table := {[(7, "send"%string) := mkRow 3 0 100]}.
Definition demo_full : rl_table := {[(7, "send"%string) := mkRow 3 0 2000000]}.
Definition demo_limit : RateLimitConfig := mkRLConfig 3 (2 * second).

Lemma demo_lapsed_consume :
  (TryConsumeRateLimitCost demo_lapsed (7, "send"%string) 1 100 3 200).1 = Some (mkRow 1 200 300).
Proof. vm_compute. reflexivity. Qed.

Lemma sweep_transparent_witness :
  (TryConsumeRateLimitCost (SweepExpiredRateLimits demo_lapsed 150) (7, "send"%string) 1 100 3 200).1
    = Some (mkRow 1 200 300).
Proof.
  assert (H := sweep_transparent demo_lapsed (7, "send"%string) 1 100 3 150 200 ltac:(lia)).
  rewrite <- demo_lapsed_consume.
  destruct (TryConsumeRateLimitCost (SweepExpiredRateLimits _ _) _ _ _ _ _) as [r' t''].
  destruct (TryConsumeRateLimitCost _ _ _ _ _ _) as [r t']. apply (proj1 H).
Defined.

Lemma demo_full_row : demo_full !! (7, "send"%string) = Some (mkRow 3 0 2000000).
Proof. apply lookup_singleton_eq. Qed.

Lemma demo_denied : CheckRateLimitCost demo_full id (7, "send"%string) demo_limit 1 500000 (pg_time 500000)
  = (RLDenied (2 * second), demo_full).
Proof. vm_compute. reflexivity. Qed.

Lemma denied_wait_suffices_witness :
  CheckRateLimitCost demo_full id (7, "send"%string) demo_limit 1 500000 (pg_time 500000)
    = (RLDenied (2 * second), demo_full) /\
  (CheckRateLimitCost demo_full id (7, "send"%string) demo_limit 1 2500000 (pg_time 2500000)).1 = RLAllowed.
Proof.
  split; [exact demo_denied|].
  refine (proj2 (proj2 (proj2 (proj2 (denied_wait_suffices demo_full (7, "send"%string) demo_limit 1 500000
    (2 * second) 2500000 demo_full (mkRow 3 0 2000000) demo_full_row _ demo_denied _)))) _).
  - split; reflexivity.
  - discriminate.
  - split; [reflexivity|discriminate].
Defined.
