(* ===== verification/Sha256.v ===== *)
(** * SHA-256 and HMAC-SHA-256

    The hashes [internal/srp] and [internal/peerhash] take from the Go standard library,
    over bytes as integers from 0 to 255, so that what is proved of their users is about
    the functions they really call. *)

From S2P Require Import Prelude.

Definition w32 (z : Z) : Z := z mod 2 ^ 32.
Definition rotr (n x : Z) : Z := Z.lor (Z.shiftr x n) (w32 (Z.shiftl x (32 - n))).

Definition sha_ch (x y z : Z) : Z := Z.lxor (Z.land x y) (Z.land (Z.lxor x 0xffffffff) z).
Definition sha_maj (x y z : Z) : Z := Z.lxor (Z.lxor (Z.land x y) (Z.land x z)) (Z.land y z).
Definition big0 (x : Z) : Z := Z.lxor (Z.lxor (rotr 2 x) (rotr 13 x)) (rotr 22 x).
Definition big1 (x : Z) : Z := Z.lxor (Z.lxor (rotr 6 x) (rotr 11 x)) (rotr 25 x).
Definition small0 (x : Z) : Z := Z.lxor (Z.lxor (rotr 7 x) (rotr 18 x)) (Z.shiftr x 3).
Definition small1 (x : Z) : Z := Z.lxor (Z.lxor (rotr 17 x) (rotr 19 x)) (Z.shiftr x 10).

(** The constants are the first 32 bits of the fractional parts of the cube roots of the
    first 64 primes, and of the square roots of the first eight. *)
Definition is_prime (n : Z) : bool :=
  forallb (fun d => negb (n mod d =? 0)) (map Z.of_nat (seq 2 (Z.to_nat n - 2))).

Definition first_primes : list Z :=
  Eval vm_compute in List.filter is_prime (map Z.of_nat (seq 2 310)).

(** The integer cube root, a bit at a time from bit [n - 1] down. *)
Fixpoint cbrt_bits (n : nat) (r x : Z) : Z :=
  match n with
  | O => r
  | S n' =>
      let r' := r + 2 ^ Z.of_nat n' in
      cbrt_bits n' (if r' * r' * r' <=? x then r' else r) x
  end.

Definition sha_k : list Z :=
  Eval vm_compute in map (fun p => w32 (cbrt_bits 36 0 (p * 2 ^ 96))) (take 64 first_primes).

Definition sha_h0 : list Z :=
  Eval vm_compute in map (fun p => w32 (Z.sqrt (p * 2 ^ 64))) (take 8 first_primes).

(** ** Bytes and words, big-endian *)

Definition be_of (l : list Z) : Z := foldl (fun acc b => acc * 256 + b) 0 l.

(** The [n] low bytes of [z], most significant first. *)
Fixpoint be_bytes (n : nat) (z : Z) : list Z :=
  match n with
  | O => []
  | S n' => be_bytes n' (z / 256) ++ [z mod 256]
  end.

Fixpoint words (n : nat) (l : list Z) : list Z :=
  match n with
  | O => []
  | S n' => be_of (take 4 l) :: words n' (drop 4 l)
  end.

(** ** The compression *)

(** The message schedule, newest word first. *)
Fixpoint schedule_loop (n : nat) (w : list Z) : list Z :=
  match n with
  | O => w
  | S n' =>
      let at_ i := nth i w 0 in
      schedule_loop n' (w32 (small1 (at_ 1%nat) + at_ 6%nat + small0 (at_ 14%nat) + at_ 15%nat) :: w)
  end.

Definition message_schedule (block : list Z) : list Z := rev (schedule_loop 48 (rev (words 16 block))).

Record sha_state : Type := mkSha { sa : Z; sb : Z; sc : Z; sd : Z; se : Z; sf : Z; sg : Z; sh : Z }.

Definition sha_round (s : sha_state) (kw : Z * Z) : sha_state :=
  let t1 := w32 (sh s + big1 (se s) + sha_ch (se s) (sf s) (sg s) + kw.1 + kw.2) in
  let t2 := w32 (big0 (sa s) + sha_maj (sa s) (sb s) (sc s)) in
  mkSha (w32 (t1 + t2)) (sa s) (sb s) (sc s) (w32 (sd s + t1)) (se s) (sf s) (sg s).

Definition sha_block (h : list Z) (block : list Z) : list Z :=
  let at_ i := nth i h 0 in
  let s0 := mkSha (at_ 0%nat) (at_ 1%nat) (at_ 2%nat) (at_ 3%nat) (at_ 4%nat) (at_ 5%nat) (at_ 6%nat) (at_ 7%nat) in
  let s := foldl sha_round s0 (zip sha_k (message_schedule block)) in
  [w32 (at_ 0%nat + sa s); w32 (at_ 1%nat + sb s); w32 (at_ 2%nat + sc s); w32 (at_ 3%nat + sd s);
   w32 (at_ 4%nat + se s); w32 (at_ 5%nat + sf s); w32 (at_ 6%nat + sg s); w32 (at_ 7%nat + sh s)].

(** The message, a one bit, zeros, and the length in bits: a multiple of 64 bytes. *)
Definition sha_padded (m : list Z) : list Z :=
  let zeros := Z.to_nat ((55 - len m) mod 64) in
  m ++ [128] ++ replicate zeros 0 ++ be_bytes 8 (8 * len m).

Fixpoint sha_blocks (n : nat) (h m : list Z) : list Z :=
  match n with
  | O => h
  | S n' => sha_blocks n' (sha_block h (take 64 m)) (drop 64 m)
  end.

Definition sha256 (m : list Z) : list Z :=
  let padded := sha_padded m in
  flat_map (be_bytes 4) (sha_blocks (Z.to_nat (len padded / 64)) sha_h0 padded).

(** ** HMAC *)

Definition hmac_sha256 (key m : list Z) : list Z :=
  let k0 := if len key >? 64 then sha256 key else key in
  let k := k0 ++ replicate (64 - length k0) 0 in
  sha256 (map (Z.lxor 0x5c) k ++ sha256 (map (Z.lxor 0x36) k ++ m)).

(** ** Shape *)

Lemma length_be_bytes n z : length (be_bytes n z) = n.
Proof. revert z. induction n as [|n IH]; intros z; [done|]. simpl. rewrite length_app, IH. simpl. lia. Qed.

Definition byte (b : Z) : Prop := 0 <= b < 256.

Lemma be_bytes_bytes n z : Forall byte (be_bytes n z).
Proof.
  revert z. induction n as [|n IH]; intros z; [constructor|]. cbn [be_bytes].
  apply Forall_app. split; [done|]. constructor; [apply Z.mod_pos_bound; lia|constructor].
Qed.

Lemma be_of_app l b : be_of (l ++ [b]) = be_of l * 256 + b.
Proof. unfold be_of. by rewrite foldl_app. Qed.

Lemma be_of_be_bytes n z : 0 <= z < 256 ^ Z.of_nat n -> be_of (be_bytes n z) = z.
Proof.
  revert z. induction n as [|n IH]; intros z Hz.
  - change (256 ^ Z.of_nat 0) with 1 in Hz. change (be_of (be_bytes 0 z)) with 0. lia.
  - cbn [be_bytes]. rewrite Nat2Z.inj_succ, Z.pow_succ_r in Hz by lia. rewrite be_of_app, IH.
    + assert (H := Z.div_mod z 256 ltac:(lia)). lia.
    + split; [apply Z.div_pos; lia|apply Z.div_lt_upper_bound; lia].
Qed.

Lemma be_of_nonneg l : Forall byte l -> 0 <= be_of l < 256 ^ len l.
Proof.
  induction l as [|b l IH] using rev_ind; [by intros _|]. intros [Hl Hb]%Forall_app.
  apply Forall_cons in Hb as [Hb _]. specialize (IH Hl). rewrite be_of_app, len_app.
  change (len [b]) with 1. rewrite Z.pow_add_r by (unfold len; lia). unfold byte in Hb. lia.
Qed.

Lemma length_sha_blocks n h m : length h = 8%nat -> length (sha_blocks n h m) = 8%nat.
Proof. revert h m. induction n as [|n IH]; intros h m H; [done|]. simpl. by apply IH. Qed.

Lemma length_sha256 m : length (sha256 m) = 32%nat.
Proof.
  unfold sha256. cbv zeta. set (h := sha_blocks _ _ _).
  assert (H : length h = 8%nat) by (by apply length_sha_blocks). clearbody h.
  do 8 (destruct h as [|? h]; [done|]). destruct h; [|done]. cbn [flat_map].
  by rewrite !length_app, !length_be_bytes.
Qed.

Lemma sha256_bytes m : Forall byte (sha256 m).
Proof.
  unfold sha256. cbv zeta. generalize (sha_blocks (Z.to_nat (len (sha_padded m) / 64)) sha_h0 (sha_padded m)).
  intros h. induction h as [|w h IH]; [constructor|]. cbn [flat_map]. apply Forall_app.
  split; [apply be_bytes_bytes|done].
Qed.

(** The padding fills whole blocks. *)
Lemma sha_padded_blocks m : len (sha_padded m) mod 64 = 0.
Proof.
  assert (Hr : forall n, len (replicate n 0) = Z.of_nat n) by (intros n; unfold len; by rewrite length_replicate).
  assert (Hb : forall z, len (be_bytes 8 z) = 8) by (intros z; unfold len; by rewrite length_be_bytes).
  unfold sha_padded. rewrite !len_app, Hr, Hb. change (len [128]) with 1.
  rewrite Z2Nat.id by (apply Z.mod_pos_bound; lia).
  replace (len m + (1 + ((55 - len m) mod 64 + 8))) with ((55 - len m) mod 64 + (len m + 9)) by lia.
  rewrite Z.add_mod_idemp_l by lia. by replace (55 - len m + (len m + 9)) with 64 by lia.
Qed.

(** ** Published vectors *)

Definition hex (l : list Z) : Z := be_of l.

Example sha256_empty :
  hex (sha256 []) = 0xe3b0c44298fc1c149afbf4c8996fb92427ae41e4649b934ca495991b7852b855.
Proof. vm_compute. reflexivity. Qed.

Example sha256_abc :
  hex (sha256 [97; 98; 99]) = 0xba7816bf8f01cfea414140de5dae2223b00361a396177a9cb410ff61f20015ad.
Proof. vm_compute. reflexivity. Qed.

Example sha256_two_blocks :
  hex (sha256 (replicate 64 97)) = 0xffe054fe7ae0cb6dc65c3af9b61d5209f439851db43d0ba5997337df154668eb.
Proof. vm_compute. reflexivity. Qed.

Example hmac_sha256_vector :
  hex (hmac_sha256 (replicate 20 11) [72; 105; 32; 84; 104; 101; 114; 101]) =
  0xb0344c61d8db38535ca8afceaf0bf12b881dc200c9833da726e9376c2e32cff7.
Proof. vm_compute. reflexivity. Qed.
