(* ===== verification/Srp.v ===== *)
(** * The SRP-6a group arithmetic

    [internal/srp/srp.go], over bytes as integers from 0 to 255 and [big.Int] as [Z].
    The group, the padding and the hash are the ones the package fixes; what
    [crypto/rand] returns is an argument of the operations that draw from it. *)

From Stdlib Require Import Znumtheory Zpow_facts.
From S2P Require Import Prelude.
From S2P Require Import Sha256.

Definition G : Z := 3.

(** [primeHex], the modulus [p]. *)
Definition group_p : Z :=
  0xC71CAEB9C6B1C9048E6C522F70F13F73980D40238E3E21C14934D037563D930F48198A0AA7C14058229493D22530F4DBFA336F6E0AC925139543AED44CCE7C3720FD51F69458705AC68CD4FE6B6B13ABDC9746512969328454F18FAF8C595F642477FE96BB2A941D5BCD1D4AC8CC49880708FA9B378E3C4F3A9060BEE67CF9A4A4A695811051907E162753B56B0F6B410DBA74D8A84B2A14B3144E0EF1284754FD17ED950D5965B4B9DD46582DB1178D169C6BC465B0D6FF9CA3928FEF5B9AE4E418FC15E83EBEA0F87FA9FF5EED70050DED2849F47BF959D956850CE929851F0D8115F635B105EE2E4E15D04B2454BF6F4FADF034B10403119CD8E3B92FCC5B.

Definition PadLen : nat := 256.
Definition sha256_Size : nat := 32.

(** ** [math/big] and [crypto/subtle], as the package uses them *)

(** [Int.SetBytes] and [Int.Bytes]: the big-endian value, and its shortest form. *)
Definition SetBytes (b : list Z) : Z := be_of b.
Definition Bytes (x : Z) : list Z :=
  if x <=? 0 then [] else be_bytes (Z.to_nat (Z.log2 x / 8 + 1)) x.

(** [Int.Exp] for an exponent that is not negative, by squaring. *)
Fixpoint exp_pos (x : Z) (y : positive) (m : Z) : Z :=
  match y with
  | xH => x mod m
  | xO y' => let r := exp_pos x y' m in (r * r) mod m
  | xI y' => let r := exp_pos x y' m in ((r * r) mod m * x) mod m
  end.

Definition Exp (x y m : Z) : Z :=
  match y with
  | Zpos y' => exp_pos x y' m
  | _ => 1 mod m
  end.

(** [subtle.ConstantTimeCompare]: the bytes that differ are accumulated, never branched on. *)
Definition ConstantTimeCompare (x y : list Z) : Z :=
  if negb (Nat.eqb (length x) (length y)) then 0
  else if foldl (fun v xy => Z.lor v (Z.lxor xy.1 xy.2)) 0 (zip x y) =? 0 then 1 else 0.

(** ** The package *)

Definition pad (b : list Z) : list Z :=
  if Nat.leb PadLen (length b) then drop (length b - PadLen) b
  else replicate (PadLen - length b) 0 ++ b.

Definition hash (parts : list (list Z)) : list Z := sha256 (concat parts).

Definition xor (a b : list Z) : list Z := zip_with Z.lxor a b.

(** The values [init] computes once. *)
Definition pBytes : list Z := pad (Bytes group_p).
Definition gBytes : list Z := pad (Bytes G).
Definition k : Z := SetBytes (hash [pBytes; gBytes]).
Definition hpXorHg : list Z := xor (sha256 pBytes) (sha256 gBytes).

Definition ValidVerifier (verifier : list Z) : bool :=
  let v := SetBytes verifier in
  (0 <? v) && (v <? group_p).

(** [randScalar] on the 256 bytes drawn, [None] when the source fails. *)
Definition randScalar (buf : option (list Z)) : option Z := SetBytes <$> buf.

Definition Challenge (verifier : list Z) (buf : option (list Z)) : option (list Z * list Z) :=
  match randScalar buf with
  | None => None
  | Some b =>
      let v := SetBytes verifier in
      let gb := Exp G b group_p in
      let kv := k * v in
      let B := (kv + gb) mod group_p in
      if B =? 0 then None else Some (pad (Bytes B), pad (Bytes b))
  end.

Definition Verify (verifier salt1 salt2 aPub m1 bPub bSecret : list Z) : bool :=
  if negb (Nat.eqb (length aPub) PadLen) || negb (Nat.eqb (length m1) sha256_Size) then false
  else
    let A := SetBytes aPub in
    if A mod group_p =? 0 then false
    else
      let padA := pad aPub in
      let padB := pad bPub in
      let u := SetBytes (hash [padA; padB]) in
      if u =? 0 then false
      else
        let v := SetBytes verifier in
        let b := SetBytes bSecret in
        let vu := Exp v u group_p in
        let base := (A * vu) mod group_p in
        let S := Exp base b group_p in
        let kSess := hash [pad (Bytes S)] in
        let expected := hash [hpXorHg; hash [salt1]; hash [salt2]; padA; padB; kSess] in
        ConstantTimeCompare expected m1 =? 1.

(** ** The protocol's client

    The other half of SRP-6a, as the protocol defines it: [x] is the password's key, [a]
    the client's secret, [B] the server's public value. *)

Record client_proof : Type := mkProof { cp_A : list Z; cp_M1 : list Z }.

Definition client_verifier (x : Z) : list Z := be_bytes PadLen (G ^ x mod group_p).

Definition client_u (a : Z) (bPub : list Z) : Z :=
  SetBytes (hash [be_bytes PadLen (G ^ a mod group_p); bPub]).

Definition client_prove (x a : Z) (salt1 salt2 bPub : list Z) : client_proof :=
  let A := be_bytes PadLen (G ^ a mod group_p) in
  let u := client_u a bPub in
  let v := G ^ x mod group_p in
  let t := (SetBytes bPub - k * v) mod group_p in
  let S := t ^ (a + u * x) mod group_p in
  mkProof A (hash [hpXorHg; hash [salt1]; hash [salt2]; A; bPub; hash [be_bytes PadLen S]]).

(** ** Arithmetic *)

Lemma group_p_bounds : 1 < group_p < 256 ^ Z.of_nat PadLen.
Proof. by vm_compute. Qed.

Lemma exp_pos_spec x y m : 0 < m -> exp_pos x y m = x ^ Zpos y mod m.
Proof.
  intros Hm. induction y as [y IH|y IH|]; cbn [exp_pos]; rewrite ?IH.
  - rewrite <- Z.mul_mod, Z.mul_mod_idemp_l by lia. f_equal.
    rewrite Pos2Z.inj_xI, Z.pow_add_r, Z.pow_1_r, Z.mul_comm with (n := 2), Z.pow_mul_r, Z.pow_2_r by lia. done.
  - rewrite <- Z.mul_mod by lia. f_equal.
    rewrite Pos2Z.inj_xO, Z.mul_comm with (n := 2), Z.pow_mul_r, Z.pow_2_r by lia. done.
  - by rewrite Z.pow_1_r.
Qed.

Lemma Exp_spec x y m : 0 < m -> 0 <= y -> Exp x y m = x ^ y mod m.
Proof. intros Hm Hy. destruct y as [|y|y]; [done|by apply exp_pos_spec|lia]. Qed.

Lemma pow_mod_base x y m : 0 < m -> 0 <= y -> (x mod m) ^ y mod m = x ^ y mod m.
Proof. intros Hm Hy. symmetry. apply Zpower_mod. lia. Qed.

Lemma ctc_loop_0 l acc :
  foldl (fun v (xy : Z * Z) => Z.lor v (Z.lxor xy.1 xy.2)) acc l = 0 <->
  acc = 0 /\ Forall (fun xy : Z * Z => xy.1 = xy.2) l.
Proof.
  revert acc. induction l as [|[x y] l IH]; intros acc; cbn [foldl].
  - split; [by auto|by intros [? _]].
  - rewrite IH, Z.lor_eq_0_iff, Z.lxor_eq_0_iff, Forall_cons. simpl. tauto.
Qed.

Lemma zip_Forall_eq (x y : list Z) :
  length x = length y -> Forall (fun xy : Z * Z => xy.1 = xy.2) (zip x y) <-> x = y.
Proof.
  revert y. induction x as [|a x IH]; intros [|b y] Hl; try done.
  simpl in *. rewrite Forall_cons, IH by lia. simpl. naive_solver.
Qed.

Lemma ConstantTimeCompare_spec x y : ConstantTimeCompare x y = 1 <-> x = y.
Proof.
  unfold ConstantTimeCompare. destruct (Nat.eqb_spec (length x) (length y)) as [Hl|Hl]; cbn [negb].
  - rewrite <- (zip_Forall_eq x y Hl).
    destruct (Z.eqb_spec (foldl (fun v xy => Z.lor v (Z.lxor xy.1 xy.2)) 0 (zip x y)) 0) as [E|E];
      rewrite ctc_loop_0 in E; naive_solver.
  - split; [done|]. by intros ->.
Qed.

(** ** Padding *)

Lemma be_bytes_zeros n m z :
  0 <= z < 256 ^ Z.of_nat n -> be_bytes (m + n) z = replicate m 0 ++ be_bytes n z.
Proof.
  revert z. induction n as [|n IH]; intros z Hz.
  - change (256 ^ Z.of_nat 0) with 1 in Hz. replace z with 0 by lia. rewrite Nat.add_0_r, app_nil_r.
    clear. induction m as [|m IH]; [done|]. cbn [be_bytes].
    rewrite Z.div_0_l, Z.mod_0_l, IH by lia. by rewrite <- replicate_S_end.
  - rewrite Nat.add_succ_r. cbn [be_bytes]. rewrite Nat2Z.inj_succ, Z.pow_succ_r in Hz by lia.
    rewrite IH; [by rewrite app_assoc|]. split; [apply Z.div_pos; lia|apply Z.div_lt_upper_bound; lia].
Qed.

Lemma length_pad b : length (pad b) = PadLen.
Proof.
  unfold pad. destruct (Nat.leb_spec PadLen (length b)).
  - rewrite length_drop. lia.
  - rewrite length_app, length_replicate. lia.
Qed.

Lemma pad_full b : length b = PadLen -> pad b = b.
Proof. intros H. unfold pad. by rewrite H, Nat.leb_refl, Nat.sub_diag, drop_0. Qed.

Lemma pad_Bytes x : 0 <= x < 256 ^ Z.of_nat PadLen -> pad (Bytes x) = be_bytes PadLen x.
Proof.
  intros Hx. unfold Bytes. destruct (Z.leb_spec x 0) as [H0|H0].
  - replace x with 0 by lia. unfold pad. simpl length. cbn [Nat.leb].
    change (be_bytes PadLen 0) with (be_bytes (PadLen + 0) 0). rewrite be_bytes_zeros by done. done.
  - set (n := Z.to_nat (Z.log2 x / 8 + 1)).
    assert (Hl := Z.log2_spec x H0). assert (Hl0 := Z.log2_nonneg x).
    assert (Hd := Z.div_mod (Z.log2 x) 8 ltac:(done)).
    assert (Hm := Z.mod_pos_bound (Z.log2 x) 8 ltac:(lia)).
    assert (Hq : 0 <= Z.log2 x / 8) by (apply Z.div_pos; lia).
    assert (Hn : Z.of_nat n = Z.log2 x / 8 + 1) by (unfold n; lia).
    assert (Hlow : 2 ^ Z.log2 x < 2 ^ 2048).
    { change (256 ^ Z.of_nat PadLen) with (2 ^ 2048) in Hx. lia. }
    apply Z.pow_lt_mono_r_iff in Hlow; [|lia|lia].
    assert (Hle : (n <= PadLen)%nat) by (unfold PadLen; lia).
    assert (Hz : 0 <= x < 256 ^ Z.of_nat n).
    { split; [lia|]. change 256 with (2 ^ 8). rewrite <- Z.pow_mul_r by lia.
      eapply Z.lt_le_trans; [apply Hl|]. apply Z.pow_le_mono_r; lia. }
    unfold pad. rewrite length_be_bytes. destruct (Nat.leb_spec PadLen n).
    + replace n with PadLen by lia. by rewrite Nat.sub_diag, drop_0.
    + replace (be_bytes PadLen x) with (be_bytes ((PadLen - n) + n) x) by (f_equal; lia).
      by rewrite be_bytes_zeros.
Qed.

Lemma mod_p_bounds x : 0 <= x mod group_p < 256 ^ Z.of_nat PadLen.
Proof.
  assert (H := group_p_bounds). assert (Hm := Z.mod_pos_bound x group_p ltac:(lia)).
  split; [lia|]. eapply Z.lt_trans; [|apply H]. lia.
Qed.

Lemma SetBytes_hash_nonneg l : 0 <= SetBytes (hash l).
Proof. apply be_of_nonneg, sha256_bytes. Qed.

Lemma length_hash l : length (hash l) = sha256_Size.
Proof. apply length_sha256. Qed.

(** The generator is invertible, so no power of it vanishes. *)
Lemma generator_power a : 0 <= a -> G ^ a mod group_p <> 0.
Proof.
  intros Ha E. assert (Hp := group_p_bounds).
  assert (R : Z.gcd group_p (G ^ a) = 1).
  { apply Z.coprime_pow_r; [lia|]. by vm_compute. }
  apply Z.mod_divide in E; [|lia].
  assert (D : (group_p | 1)) by (rewrite <- R; apply Z.gcd_greatest; [apply Z.divide_refl|done]).
  apply Z.divide_1_r in D. lia.
Qed.

#[local] Opaque group_p k hpXorHg sha256 PadLen sha256_Size.

(** ** What the two sides compute *)

(** The session secret of the server, as powers: [Verify] accepts exactly the proof made
    from it. *)
Definition server_S (verifier aPub bPub bSecret : list Z) : Z :=
  (SetBytes aPub * SetBytes verifier ^ SetBytes (hash [aPub; pad bPub])) ^ SetBytes bSecret mod group_p.

Lemma Verify_spec verifier salt1 salt2 aPub m1 bPub bSecret :
  Forall byte bSecret ->
  Verify verifier salt1 salt2 aPub m1 bPub bSecret = true <->
  length aPub = PadLen /\ SetBytes aPub mod group_p <> 0 /\ SetBytes (hash [aPub; pad bPub]) <> 0 /\
  m1 = hash [hpXorHg; hash [salt1]; hash [salt2]; aPub; pad bPub;
             hash [be_bytes PadLen (server_S verifier aPub bPub bSecret)]].
Proof.
  intros Hb. unfold Verify. assert (Hp := group_p_bounds).
  destruct (Nat.eqb_spec (length aPub) PadLen) as [Ha|Ha]; cbn [negb orb].
  2:{ split; [done|]. by intros [? _]. }
  rewrite (pad_full aPub Ha). cbv zeta.
  set (u := SetBytes (hash [aPub; pad bPub])).
  assert (Hu : 0 <= u) by apply SetBytes_hash_nonneg.
  assert (Hb' : 0 <= SetBytes bSecret) by (by apply be_of_nonneg).
  rewrite !Exp_spec by lia.
  rewrite pow_mod_base by lia. rewrite pad_Bytes by apply mod_p_bounds.
  replace ((SetBytes aPub * (SetBytes verifier ^ u mod group_p)) ^ SetBytes bSecret mod group_p)
    with (server_S verifier aPub bPub bSecret).
  2:{ unfold server_S. fold u. rewrite <- (pow_mod_base (SetBytes aPub * SetBytes verifier ^ u)) by lia.
      rewrite <- (pow_mod_base (SetBytes aPub * (SetBytes verifier ^ u mod group_p))) by lia.
      by rewrite Z.mul_mod_idemp_r by lia. }
  destruct (Nat.eqb_spec (length m1) sha256_Size) as [Hm|Hm]; cbn [negb].
  - destruct (Z.eqb_spec (SetBytes aPub mod group_p) 0); [by split; [|intros (_ & ? & _)]|].
    destruct (Z.eqb_spec u 0); [by split; [|intros (_ & _ & ? & _)]|].
    rewrite Z.eqb_eq, ConstantTimeCompare_spec. split; [intros E; repeat apply conj; auto|intros (_ & _ & _ & E); auto].
  - split; [done|]. intros (_ & _ & _ & ->). by rewrite length_hash in Hm.
Qed.

Lemma Challenge_spec verifier buf bPub bSecret :
  Forall byte buf -> length buf = PadLen ->
  Challenge verifier (Some buf) = Some (bPub, bSecret) ->
  let B := (k * SetBytes verifier + G ^ SetBytes buf) mod group_p in
  0 < B < group_p /\ bPub = be_bytes PadLen B /\ SetBytes bPub = B /\
  bSecret = be_bytes PadLen (SetBytes buf) /\ SetBytes bSecret = SetBytes buf.
Proof.
  intros Hb Hl E B. assert (Hp := group_p_bounds).
  assert (Hbuf : 0 <= SetBytes buf < 256 ^ Z.of_nat PadLen).
  { rewrite <- Hl. apply (be_of_nonneg buf Hb). }
  unfold Challenge in E. cbn [randScalar fmap option_fmap option_map] in E. cbv zeta in E.
  rewrite Exp_spec in E by lia. rewrite Z.add_mod_idemp_r in E by lia. fold B in E.
  assert (HB : 0 <= B < group_p) by (apply Z.mod_pos_bound; lia).
  assert (HB' : 0 <= B < 256 ^ Z.of_nat PadLen) by apply mod_p_bounds. clearbody B.
  destruct (Z.eqb_spec B 0); [done|]. injection E as <- <-.
  rewrite (pad_Bytes B HB'), (pad_Bytes _ Hbuf). change SetBytes with be_of in Hbuf |- *.
  rewrite (be_of_be_bytes _ _ HB'), (be_of_be_bytes _ _ Hbuf). repeat apply conj; lia || reflexivity.
Qed.

(** Both sides raise [g] to the same power. *)
Lemma session_secrets_agree x a b u :
  0 <= x -> 0 <= a -> 0 <= b -> 0 <= u ->
  let v := G ^ x mod group_p in
  let B := (k * v + G ^ b) mod group_p in
  ((G ^ a mod group_p) * v ^ u) ^ b mod group_p =
  ((B - k * v) mod group_p) ^ (a + u * x) mod group_p.
Proof.
  intros Hx Ha Hb Hu v B. assert (Hp := group_p_bounds).
  assert (Hux : 0 <= x * u) by (by apply Z.mul_nonneg_nonneg).
  assert (Et : (B - k * v) mod group_p = G ^ b mod group_p).
  { unfold B. rewrite Zminus_mod_idemp_l. apply (f_equal (fun z => z mod group_p)). lia. }
  assert (Ev : v ^ u mod group_p = G ^ (x * u) mod group_p).
  { unfold v. rewrite pow_mod_base by lia. by rewrite Z.pow_mul_r by lia. }
  assert (El : (G ^ a mod group_p * v ^ u) mod group_p = G ^ (a + x * u) mod group_p).
  { rewrite Z.mul_mod_idemp_l, <- Z.mul_mod_idemp_r, Ev, Z.mul_mod_idemp_r by lia.
    by rewrite Z.pow_add_r by lia. }
  rewrite Et, pow_mod_base, <- (pow_mod_base (G ^ a mod group_p * v ^ u)), El, pow_mod_base by lia.
  rewrite <- !Z.pow_mul_r by lia. apply (f_equal (fun z => G ^ z mod group_p)). lia.
Qed.

(** A verifier that vanishes makes the session secret 0, whatever the client knows. *)
Definition public_prove (salt1 salt2 aPub bPub : list Z) : list Z :=
  hash [hpXorHg; hash [salt1]; hash [salt2]; aPub; bPub; hash [be_bytes PadLen 0]].

Lemma server_S_zero verifier aPub bPub bSecret :
  SetBytes verifier mod group_p = 0 -> SetBytes (hash [aPub; pad bPub]) <> 0 -> 0 < SetBytes bSecret ->
  server_S verifier aPub bPub bSecret = 0.
Proof.
  intros Hv Hu Hb. assert (Hp := group_p_bounds). unfold server_S.
  assert (Hu0 := SetBytes_hash_nonneg [aPub; pad bPub]).
  set (u := SetBytes (hash [aPub; pad bPub])) in *. clearbody u.
  assert (Ev : SetBytes verifier ^ u mod group_p = 0).
  { rewrite <- pow_mod_base by lia. rewrite Hv, Z.pow_0_l by lia. apply Z.mod_0_l. lia. }
  rewrite <- pow_mod_base, <- Z.mul_mod_idemp_r, Ev, Z.mul_0_r, Z.mod_0_l, Z.pow_0_l by lia. apply Z.mod_0_l. lia.
Qed.

Lemma srp_honest_accepted_lemma (x a : Z) (salt1 salt2 buf bPub bSecret : list Z) :
  0 <= x -> 0 <= a -> Forall byte buf -> length buf = PadLen ->
  Challenge (client_verifier x) (Some buf) = Some (bPub, bSecret) ->
  client_u a bPub <> 0 ->
  let proof := client_prove x a salt1 salt2 bPub in
  Verify (client_verifier x) salt1 salt2 (cp_A proof) (cp_M1 proof) bPub bSecret = true.
Proof.
  intros Hx Ha Hbuf Hl E Hu proof. assert (Hp := group_p_bounds).
  destruct (Challenge_spec _ _ _ _ Hbuf Hl E) as (HB & EbPub & EB & EbS & Eb). clear E.
  assert (Ev : SetBytes (client_verifier x) = G ^ x mod group_p) by (apply be_of_be_bytes, mod_p_bounds).
  rewrite Ev in HB, EB.
  assert (Hb0 : 0 <= SetBytes buf) by (by apply be_of_nonneg).
  apply Verify_spec; [rewrite EbS; apply be_bytes_bytes|].
  unfold proof, client_prove. cbv zeta. cbn [cp_A cp_M1].
  assert (EA : SetBytes (be_bytes PadLen (G ^ a mod group_p)) = G ^ a mod group_p)
    by (apply be_of_be_bytes, mod_p_bounds).
  assert (Epad : pad bPub = bPub) by (apply pad_full; rewrite EbPub; apply length_be_bytes).
  rewrite Epad, EA, Z.mod_mod by lia. repeat apply conj.
  - apply length_be_bytes.
  - by apply generator_power.
  - apply Hu.
  - unfold server_S. rewrite Epad, EA, Ev, Eb, EB. fold (client_u a bPub).
    rewrite (session_secrets_agree x a (SetBytes buf) (client_u a bPub) Hx Ha Hb0 (SetBytes_hash_nonneg _)).
    reflexivity.
Qed.

(** ** Properties *)

(** The two halves of the protocol meet: whatever the password key, the
    client's secret, the salts and the random scalar, a client that follows SRP-6a with
    the key the verifier was made from is accepted on the challenge it was given, unless
    the hash of the two public values is 0, which the server refuses. *)
Theorem srp_honest_accepted (x a : Z) (salt1 salt2 buf bPub bSecret : list Z) :
  0 <= x -> 0 <= a -> Forall byte buf -> length buf = PadLen ->
  Challenge (client_verifier x) (Some buf) = Some (bPub, bSecret) ->
  client_u a bPub <> 0 ->
  let proof := client_prove x a salt1 salt2 bPub in
  Verify (client_verifier x) salt1 salt2 (cp_A proof) (cp_M1 proof) bPub bSecret = true.
Proof. exact (srp_honest_accepted_lemma x a salt1 salt2 buf bPub bSecret). Qed.

(** [ValidVerifier] draws the line in the right place: it admits the
    verifier of every password key and refuses every verifier that is 0 modulo the group,
    and each of those, had it been stored, would accept a proof made from public values
    alone. *)
Theorem ValidVerifier_bars_forgery :
  (forall x, 0 <= x -> ValidVerifier (client_verifier x) = true) /\
  (forall verifier salt1 salt2 aPub bPub bSecret,
     SetBytes verifier mod group_p = 0 ->
     ValidVerifier verifier = false /\
     (length aPub = PadLen -> SetBytes aPub mod group_p <> 0 -> length bPub = PadLen ->
      SetBytes (hash [aPub; bPub]) <> 0 -> Forall byte bSecret -> 0 < SetBytes bSecret ->
      Verify verifier salt1 salt2 aPub (public_prove salt1 salt2 aPub bPub) bPub bSecret = true)).
Proof.
  assert (Hp := group_p_bounds). split.
  - intros x Hx. unfold ValidVerifier.
    assert (Ev : SetBytes (client_verifier x) = G ^ x mod group_p) by (apply be_of_be_bytes, mod_p_bounds).
    rewrite Ev. assert (Hg := generator_power x Hx). assert (Hm := Z.mod_pos_bound (G ^ x) group_p ltac:(lia)).
    apply andb_true_iff. split; lia.
  - intros verifier salt1 salt2 aPub bPub bSecret Hv. split.
    + unfold ValidVerifier. apply andb_false_iff.
      destruct (Z.ltb_spec 0 (SetBytes verifier)) as [H0|]; [right|by left].
      apply Z.ltb_ge. apply Z.mod_divide in Hv; [|lia]. by apply Z.divide_pos_le in Hv.
    + intros Ha HA Hlb Hu Hb Hb0. apply Verify_spec; [done|].
      assert (Epad : pad bPub = bPub) by (by apply pad_full).
      rewrite Epad. repeat apply conj; try assumption.
      rewrite server_S_zero; [reflexivity|done|by rewrite Epad|done].
Qed.

(** ** A run *)

Definition demo_buf : list Z := replicate 255 0 ++ [11].
Definition demo_bPub : list Z := pad (Bytes ((k * 243 + 3 ^ 11) mod group_p)).

Lemma demo_challenge : Challenge (client_verifier 5) (Some demo_buf) = Some (demo_bPub, demo_buf).
Proof. vm_compute. reflexivity. Qed.

Lemma demo_u : (client_u 7 demo_bPub =? 0) = false.
Proof. vm_compute. reflexivity. Qed.

Lemma demo_buf_bytes : Forall byte demo_buf.
Proof. apply Forall_app. split; [apply Forall_replicate; by split|by repeat constructor]. Qed.

Lemma srp_honest_accepted_witness :
  let proof := client_prove 5 7 [1] [2] demo_bPub in
  Verify (client_verifier 5) [1] [2] (cp_A proof) (cp_M1 proof) demo_bPub demo_buf = true.
Proof.
  apply (srp_honest_accepted 5 7 [1] [2] demo_buf demo_bPub demo_buf);
    [lia|lia|exact demo_buf_bytes|reflexivity|exact demo_challenge|].
  apply Z.eqb_neq. exact demo_u.
Defined.
