(* ===== verification/Challenges.v ===== *)
(** * Outstanding SRP challenges

    [internal/srp/challenge.go]: the in-memory store of the challenges issued by
    account.getPassword and consumed by the password step.  Each operation runs under
    the store's mutex, so it is one step on the record below; the clock readings and the
    random draws it makes are its arguments. *)

From S2P Require Import Prelude.
From S2P Require Import Sha256.
From S2P Require Import Srp.

Definition DefaultTTL : Z := 5 * minute.

Record Pending : Type := mkPending { BSecret : list Z; BPublic : list Z; P_UserID : Z }.

Record entry : Type := mkEntry { pending : Pending; expiresAt : Z; e_authKeyID : Z }.

(** [entries]: srp_id to challenge; [byUser]: auth key to user to srp_id. *)
Record ChallengeStore : Type := mkCS {
  ttl : Z;
  entries : gmap Z entry;
  byUser : gmap Z (gmap Z Z)
}.

Definition NewChallengeStore (t : Z) : ChallengeStore := mkCS t ∅ ∅.

Definition forgetUserLocked (authKeyID userID srpID : Z) (s : ChallengeStore) : ChallengeStore :=
  match byUser s !! authKeyID with
  | None => s
  | Some keyMap =>
      if default 0 (keyMap !! userID) =? srpID then
        let keyMap' := delete userID keyMap in
        mkCS (ttl s) (entries s)
          (if decide (keyMap' = ∅) then delete authKeyID (byUser s) else <[authKeyID := keyMap']> (byUser s))
      else s
  end.

(** Drop the challenge [id] and its back-reference. *)
Definition drop_entry (id : Z) (e : entry) (s : ChallengeStore) : ChallengeStore :=
  forgetUserLocked (e_authKeyID e) (P_UserID (pending e)) id (mkCS (ttl s) (delete id (entries s)) (byUser s)).

(** The loop over the map, in whatever order it is met. *)
Definition sweepLocked (now : Z) (s : ChallengeStore) : ChallengeStore :=
  foldl (fun s ie => if now >? expiresAt ie.2 then drop_entry ie.1 ie.2 s else s) s (map_to_list (entries s)).

(** [freeIDLocked]: [draws i] is the [i]-th read of 8 random bytes, [None] when it fails. *)
Fixpoint free_id_loop (n i : nat) (draws : nat -> option (list Z)) (m : gmap Z entry) : option Z :=
  match n with
  | O => None
  | S n' =>
      match draws i with
      | None => None
      | Some buf =>
          let id := wrap_s64 (be_of buf) in
          if id =? 0 then free_id_loop n' (S i) draws m
          else match m !! id with
               | Some _ => free_id_loop n' (S i) draws m
               | None => Some id
               end
      end
  end.

Definition freeIDLocked (draws : nat -> option (list Z)) (s : ChallengeStore) : option Z :=
  free_id_loop 100 0 draws (entries s).

(** The prior challenge of the pair is evicted from [entries]. *)
Definition evict_prior (authKeyID userID : Z) (s : ChallengeStore) : ChallengeStore :=
  match byUser s !! authKeyID with
  | Some keyMap =>
      match keyMap !! userID with
      | Some prev => mkCS (ttl s) (delete prev (entries s)) (byUser s)
      | None => s
      end
  | None => s
  end.

(** [Issue]: [None] for an error; [now] is the sweep's reading of the clock, [now'] the
    one the expiry is counted from. *)
Definition Issue (s : ChallengeStore) (authKeyID userID : Z) (verifier : list Z)
    (buf : option (list Z)) (draws : nat -> option (list Z)) (now now' : Z)
    : option (Z * list Z) * ChallengeStore :=
  match Challenge verifier buf with
  | None => (None, s)
  | Some (bPub, bSecret) =>
      let s := evict_prior authKeyID userID (sweepLocked now s) in
      match freeIDLocked draws s with
      | None => (None, s)
      | Some id =>
          let keyMap := default ∅ (byUser s !! authKeyID) in
          (Some (id, bPub),
           mkCS (ttl s)
             (<[id := mkEntry (mkPending bSecret bPub userID) (now' + ttl s) authKeyID]> (entries s))
             (<[authKeyID := <[userID := id]> keyMap]> (byUser s)))
      end
  end.

Definition Consume (s : ChallengeStore) (srpID authKeyID now : Z) : option Pending * ChallengeStore :=
  match entries s !! srpID with
  | None => (None, s)
  | Some e =>
      if negb (e_authKeyID e =? authKeyID) then (None, s)
      else if now >? expiresAt e then (None, drop_entry srpID e s)
      else (Some (pending e), drop_entry srpID e s)
  end.

(** ** Well-formedness *)

Definition by_user (s : ChallengeStore) (key user : Z) : option Z := byUser s !! key ≫= lookup user.

(** Every challenge is found from its pair, so a pair holds at most one; an id is never 0. *)
Definition cs_wf (s : ChallengeStore) : Prop :=
  forall id e, entries s !! id = Some e ->
    id <> 0 /\ by_user s (e_authKeyID e) (P_UserID (pending e)) = Some id.

Lemma cs_wf_new t : cs_wf (NewChallengeStore t).
Proof. intros id e H. simpl in H. by rewrite lookup_empty in H. Qed.

Lemma forget_entries k u id s : entries (forgetUserLocked k u id s) = entries s.
Proof. unfold forgetUserLocked. by repeat case_match. Qed.

Lemma forget_ttl k u id s : ttl (forgetUserLocked k u id s) = ttl s.
Proof. unfold forgetUserLocked. by repeat case_match. Qed.

(** Only the pair's own back-reference to [id] goes. *)
Lemma by_user_forget k u id s k' u' id' :
  id' <> id -> by_user s k' u' = Some id' -> by_user (forgetUserLocked k u id s) k' u' = Some id'.
Proof.
  intros Hid H. unfold forgetUserLocked. destruct (byUser s !! k) as [km|] eqn:Ek; [|done].
  destruct (Z.eqb_spec (default 0 (km !! u)) id) as [E|]; [|done].
  unfold by_user in *. cbn [byUser]. destruct (decide (k' = k)) as [->|Hk].
  - rewrite Ek in H. simpl in H. assert (Hu : u' <> u) by (intros ->; rewrite H in E; by simpl in E).
    destruct (decide (delete u km = ∅)) as [E0|].
    + assert (X : delete u km !! u' = None) by (rewrite E0; apply lookup_empty).
      rewrite lookup_delete_ne in X by done. congruence.
    + rewrite lookup_insert_eq. simpl. by rewrite lookup_delete_ne.
  - destruct (decide (delete u km = ∅)).
    + by rewrite lookup_delete_ne.
    + by rewrite lookup_insert_ne.
Qed.

Lemma drop_entries id e s : entries (drop_entry id e s) = delete id (entries s).
Proof. unfold drop_entry. by rewrite forget_entries. Qed.

Lemma drop_wf id e s : cs_wf s -> cs_wf (drop_entry id e s).
Proof.
  intros H id' e' He. rewrite drop_entries in He. apply lookup_delete_Some in He as [Hne He].
  destruct (H _ _ He) as [H0 Hb]. split; [done|]. unfold drop_entry. by apply by_user_forget.
Qed.

Lemma evict_wf k u s : cs_wf s -> cs_wf (evict_prior k u s).
Proof.
  intros H. unfold evict_prior. repeat case_match; try done. intros id e He. simpl in He.
  apply lookup_delete_Some in He as [_ He]. by apply H.
Qed.

Lemma evict_pair k u s id e :
  cs_wf s -> entries (evict_prior k u s) !! id = Some e ->
  entries s !! id = Some e /\ ~ (e_authKeyID e = k /\ P_UserID (pending e) = u).
Proof.
  intros H He. unfold evict_prior in He.
  destruct (byUser s !! k) as [km|] eqn:Ek; [destruct (km !! u) as [prev|] eqn:Eu|].
  - simpl in He. apply lookup_delete_Some in He as [Hne He]. split; [done|]. intros [<- <-].
    destruct (H _ _ He) as [_ Hb]. unfold by_user in Hb. rewrite Ek in Hb. simpl in Hb. congruence.
  - split; [done|]. intros [<- <-]. destruct (H _ _ He) as [_ Hb]. unfold by_user in Hb.
    rewrite Ek in Hb. simpl in Hb. congruence.
  - split; [done|]. intros [<- <-]. destruct (H _ _ He) as [_ Hb]. unfold by_user in Hb. by rewrite Ek in Hb.
Qed.

(** ** The sweep *)

Lemma sweep_loop_wf now l s :
  cs_wf s -> cs_wf (foldl (fun s ie => if now >? expiresAt ie.2 then drop_entry ie.1 ie.2 s else s) s l).
Proof.
  revert s. induction l as [|[id e] l IH]; intros s H; [done|]. cbn [foldl fst snd].
  apply IH. destruct (now >? expiresAt e); [by apply drop_wf|done].
Qed.

Lemma sweep_wf now s : cs_wf s -> cs_wf (sweepLocked now s).
Proof. apply sweep_loop_wf. Qed.

Lemma sweep_loop_ttl now l s :
  ttl (foldl (fun s ie => if now >? expiresAt ie.2 then drop_entry ie.1 ie.2 s else s) s l) = ttl s.
Proof.
  revert s. induction l as [|[id e] l IH]; intros s; [done|]. cbn [foldl fst snd]. rewrite IH.
  destruct (now >? expiresAt e); [unfold drop_entry; by rewrite forget_ttl|done].
Qed.

Lemma sweep_loop_entries now l s id e :
  entries (foldl (fun s ie => if now >? expiresAt ie.2 then drop_entry ie.1 ie.2 s else s) s l) !! id = Some e <->
  entries s !! id = Some e /\ forall e', (id, e') ∈ l -> now <= expiresAt e'.
Proof.
  revert s. induction l as [|[i x] l IH]; intros s; cbn [foldl fst snd].
  - split; [intros H; split; [done|]; intros e' He; by apply elem_of_nil in He|by intros [? _]].
  - rewrite IH. destruct (Z.gtb_spec now (expiresAt x)).
    + rewrite drop_entries, lookup_delete_Some. split.
      * intros [[Hne He] Hl]. split; [done|]. intros e' [[= -> ->]|Hin]%elem_of_cons; [done|by apply Hl].
      * intros [He Hl]. split_and!; [|done|].
        -- intros ->. specialize (Hl x (list_elem_of_here _ _)). lia.
        -- intros e' Hin. apply Hl. by right.
    + split; intros [He Hl]; (split; [done|]); intros e'.
      * intros [[= -> ->]|Hin]%elem_of_cons; [lia|by apply Hl].
      * intros Hin. apply Hl. by right.
Qed.

(** The sweep keeps exactly the challenges that have not expired. *)
Lemma sweep_entries now s id e :
  entries (sweepLocked now s) !! id = Some e <-> entries s !! id = Some e /\ now <= expiresAt e.
Proof.
  unfold sweepLocked. rewrite sweep_loop_entries. split; intros [He H]; (split; [done|]).
  - apply H. by apply elem_of_map_to_list.
  - intros e' Hin. apply elem_of_map_to_list in Hin. congruence.
Qed.

(** ** Fresh ids *)

Lemma free_id_loop_fresh n i draws m id : free_id_loop n i draws m = Some id -> id <> 0 /\ m !! id = None.
Proof.
  revert i. induction n as [|n IH]; intros i H; [done|]. cbn [free_id_loop] in H.
  destruct (draws i) as [buf|]; [|done]. cbv zeta in H.
  destruct (Z.eqb_spec (wrap_s64 (be_of buf)) 0); [by eapply IH|].
  destruct (m !! wrap_s64 (be_of buf)) eqn:E; [by eapply IH|]. by injection H as <-.
Qed.

Lemma freeIDLocked_fresh draws s id : freeIDLocked draws s = Some id -> id <> 0 /\ entries s !! id = None.
Proof. apply free_id_loop_fresh. Qed.

(** ** What [Issue] and [Consume] do *)

#[local] Opaque Challenge freeIDLocked.

Lemma Issue_spec s key user verifier buf draws now now' id bPub s' :
  cs_wf s -> Issue s key user verifier buf draws now now' = (Some (id, bPub), s') ->
  exists bSecret, Challenge verifier buf = Some (bPub, bSecret) /\ id <> 0 /\ ttl s' = ttl s /\ cs_wf s' /\
    entries s' !! id = Some (mkEntry (mkPending bSecret bPub user) (now' + ttl s) key) /\
    forall id' e', id' <> id -> entries s' !! id' = Some e' ->
      entries s !! id' = Some e' /\ now <= expiresAt e' /\ ~ (e_authKeyID e' = key /\ P_UserID (pending e') = user).
Proof.
  intros Hwf E. unfold Issue in E. destruct (Challenge verifier buf) as [[bP bS]|]; [|done].
  set (s1 := sweepLocked now s) in *. assert (Hwf1 : cs_wf s1) by (by apply sweep_wf).
  set (s2 := evict_prior key user s1) in *. assert (Hwf2 : cs_wf s2) by (by apply evict_wf).
  assert (Ht : ttl s2 = ttl s).
  { transitivity (ttl s1); [unfold s2, evict_prior; by repeat case_match|apply sweep_loop_ttl]. }
  destruct (freeIDLocked draws s2) as [i|] eqn:Ef; [|done].
  apply freeIDLocked_fresh in Ef as [Hi0 Hfree]. injection E as <- <- <-.
  exists bS. rewrite Ht. split_and!; try done; cbn [entries].
  - intros id e He. cbn [entries] in He. unfold by_user. cbn [byUser].
    apply lookup_insert_Some in He as [[<- <-]|[Hne He]].
    + split; [done|]. cbn [e_authKeyID pending P_UserID]. rewrite lookup_insert_eq. simpl. by rewrite lookup_insert_eq.
    + destruct (Hwf2 _ _ He) as [H0 Hb]. split; [done|].
      destruct (evict_pair _ _ _ _ _ Hwf1 He) as [_ Hp]. unfold by_user in Hb.
      destruct (decide (e_authKeyID e = key)) as [Ek|Ek].
      * rewrite Ek in *. rewrite lookup_insert_eq. simpl. rewrite lookup_insert_ne by naive_solver.
        by destruct (byUser s2 !! key).
      * by rewrite lookup_insert_ne.
  - by rewrite lookup_insert_eq.
  - intros id' e' Hne. rewrite lookup_insert_ne by done. intros He.
    destruct (evict_pair _ _ _ _ _ Hwf1 He) as [He1 Hp]. apply sweep_entries in He1 as [He1 Hx]. done.
Qed.

(** A failed [Issue] may have swept and evicted, and has added nothing. *)
Lemma Issue_failed s key user verifier buf draws now now' s' :
  cs_wf s -> Issue s key user verifier buf draws now now' = (None, s') ->
  ttl s' = ttl s /\ cs_wf s' /\ forall id e, entries s' !! id = Some e -> entries s !! id = Some e.
Proof.
  intros Hwf E. unfold Issue in E. destruct (Challenge verifier buf) as [[bP bS]|].
  - destruct (freeIDLocked draws _); [done|]. injection E as <-.
    assert (Hwf1 : cs_wf (sweepLocked now s)) by (by apply sweep_wf). split_and!.
    + transitivity (ttl (sweepLocked now s)); [unfold evict_prior; by repeat case_match|apply sweep_loop_ttl].
    + by apply evict_wf.
    + intros id e He. destruct (evict_pair _ _ _ _ _ Hwf1 He) as [He1 _]. by apply sweep_entries in He1 as [? _].
  - by injection E as <-.
Qed.

Lemma Consume_spec s id key now p s' :
  cs_wf s -> Consume s id key now = (p, s') ->
  ttl s' = ttl s /\ cs_wf s' /\
  match p with
  | Some p => exists e, entries s !! id = Some e /\ e_authKeyID e = key /\ now <= expiresAt e /\
                pending e = p /\ entries s' = delete id (entries s)
  | None => s' = s \/ entries s' = delete id (entries s)
  end.
Proof.
  intros Hwf E. unfold Consume in E. destruct (entries s !! id) as [e|] eqn:He.
  - destruct (Z.eqb_spec (e_authKeyID e) key) as [Hk|]; cbn [negb] in E.
    + assert (Ht : ttl (drop_entry id e s) = ttl s) by (unfold drop_entry; by rewrite forget_ttl).
      destruct (Z.gtb_spec now (expiresAt e)); injection E as <- <-;
        (split_and!; [done|by apply drop_wf|]).
      * right. apply drop_entries.
      * exists e. split_and!; try done. apply drop_entries.
    + injection E as <- <-. split_and!; auto.
  - injection E as <- <-. split_and!; auto.
Qed.
