(* ===== verification/Threads.v ===== *)
(** * Requests that run at once, and what they owe

    A handler is a sequence of atomic steps on the shared state (a statement or
    transaction of the database, an operation under a mutex), each of which sees the
    environment at its moment: the clocks, the random source, whether the store answers.
    Requests interleave at those steps.  [safe] is the proof rule: what a handler has
    learnt must be stable under the steps of the others. *)

From S2P Require Import Prelude.

Open Scope Z_scope.

Section threads.
Context {S E R : Type}.

(** A step and what the program does next, both of which see the state before it. *)
Inductive prog : Type :=
| Ret (r : R)
| Act (f : E -> S -> S) (k : E -> S -> prog).

(** One request alone, the [i]-th step in the environment [env i]. *)
Fixpoint exec (env : nat -> E) (i : nat) (s : S) (p : prog) : R * S :=
  match p with
  | Ret r => (r, s)
  | Act f k => exec env (Datatypes.S i) (f (env i) s) (k (env i) s)
  end.

(** What holds when one request alone has run, in whatever environments. *)
Fixpoint wp (ok : E -> Prop) (p : prog) (s : S) (Q : R -> S -> Prop) : Prop :=
  match p with
  | Ret r => Q r s
  | Act f k => forall e, ok e -> wp ok (k e s) (f e s) Q
  end.

Lemma wp_exec ok p s Q env i :
  (forall j, ok (env j)) -> wp ok p s Q -> Q (exec env i s p).1 (exec env i s p).2.
Proof.
  intros Hok. revert i s. induction p as [r|f k IH]; intros i s H; [done|]. cbn [exec]. by apply IH, H.
Qed.

Lemma wp_weaken ok p s (Q Q' : R -> S -> Prop) :
  (forall r s, Q r s -> Q' r s) -> wp ok p s Q -> wp ok p s Q'.
Proof.
  intros HQ. revert s. induction p as [r|f k IH]; intros s H; [by apply HQ|]. intros e He. by apply IH, H.
Qed.

(** Any number of requests: one arrives, or one takes its next step. *)
Inductive pool_step (starts : prog -> Prop) (ok : E -> Prop) : S * list prog -> S * list prog -> Prop :=
| ps_arrive s ps p : starts p -> pool_step starts ok (s, ps) (s, p :: ps)
| ps_act s ps i f k e :
    ps !! i = Some (Act f k) -> ok e ->
    pool_step starts ok (s, ps) (f e s, <[i := k e s]> ps).

Definition pool_reach (starts : prog -> Prop) (ok : E -> Prop) (s0 : S) : S * list prog -> Prop :=
  rtc (pool_step starts ok) (s0, []).

(** A schedule, run: it reaches what the pool can reach. *)
Inductive choice : Type :=
| Arrive (p : prog)
| Step (i : nat) (e : E).

Definition run_choice (c : S * list prog) (x : choice) : S * list prog :=
  match x with
  | Arrive p => (c.1, p :: c.2)
  | Step i e =>
      match c.2 !! i with
      | Some (Act f k) => (f e c.1, <[i := k e c.1]> c.2)
      | _ => c
      end
  end.

Definition run_schedule (s0 : S) (l : list choice) : S * list prog := foldl run_choice (s0, []) l.

Definition schedule_ok (starts : prog -> Prop) (ok : E -> Prop) (l : list choice) : Prop :=
  Forall (fun x => match x with Arrive p => starts p | Step _ e => ok e end) l.

Lemma run_schedule_reach starts ok s0 l :
  schedule_ok starts ok l -> pool_reach starts ok s0 (run_schedule s0 l).
Proof.
  unfold run_schedule, pool_reach. generalize (s0, @nil prog). induction l as [|x l IH]; intros c H.
  - constructor.
  - apply Forall_cons in H as [Hx Hl]. cbn [foldl]. destruct c as [s ps].
    destruct x as [p|i e]; cbn [run_choice fst snd].
    + eapply rtc_l; [by constructor|]. by apply IH.
    + destruct (ps !! i) as [[r|f k]|] eqn:E'; [by apply IH| |by apply IH].
      eapply rtc_l; [by eapply ps_act|]. by apply IH.
Qed.

(** Whether the [i]-th request has a step to take. *)
Definition can_step (c : S * list prog) (i : nat) : bool :=
  match c.2 !! i with Some (Act _ _) => true | _ => false end.

Lemma run_choice_step starts (ok : E -> Prop) c i e :
  ok e -> can_step c i = true -> pool_step starts ok c (run_choice c (Step i e)).
Proof.
  destruct c as [s ps]. unfold can_step. cbn [run_choice fst snd]. intros He H.
  destruct (ps !! i) as [[r|f k]|] eqn:E'; [done| |done]. by eapply ps_act.
Qed.

Section rule.
Context (inv : S -> Prop) (guar : S -> S -> Prop) (ok : E -> Prop).

Definition stable (K : S -> Prop) : Prop := forall s s', inv s -> K s -> guar s s' -> K s'.

(** A program that keeps the invariant and the guarantee, knowing [K]. *)
Fixpoint safe (K : S -> Prop) (p : prog) : Prop :=
  match p with
  | Ret r => True
  | Act f k =>
      stable K /\
      forall e s, ok e -> inv s -> K s ->
        inv (f e s) /\ guar s (f e s) /\
        exists K' : S -> Prop, K' (f e s) /\ safe K' (k e s)
  end.

Definition pool_inv (c : S * list prog) : Prop :=
  inv c.1 /\ forall p, p ∈ c.2 -> exists K : S -> Prop, K c.1 /\ safe K p.

Lemma pool_step_inv starts c c' :
  (forall p, starts p -> exists K, (forall s, inv s -> K s) /\ safe K p) ->
  pool_inv c -> pool_step starts ok c c' -> pool_inv c'.
Proof.
  intros Hstart [Hi Hps] Hstep. destruct Hstep as [s ps p Hp|s ps i f k e Hf He].
  - split; [done|]. intros q [->|Hq]%elem_of_cons; [|by apply Hps].
    destruct (Hstart p Hp) as (K & HK & Hsafe). exists K. split; [by apply HK|done].
  - simpl in *. destruct (Hps (Act f k)) as (K & HK & Hst & Hact); [by eapply list_elem_of_lookup_2|].
    destruct (Hact e s He Hi HK) as (Hi' & Hg & K' & HK' & Hsafe').
    split; [done|]. simpl. intros q Hq.
    apply list_elem_of_lookup in Hq as [j Hj]. destruct (decide (j = i)) as [->|Hne].
    + rewrite list_lookup_insert_eq in Hj by (by eapply lookup_lt_Some). simplify_eq. by exists K'.
    + rewrite list_lookup_insert_ne in Hj by done.
      destruct (Hps q) as (Kq & HKq & Hq); [by eapply list_elem_of_lookup_2|].
      destruct q as [r|g h].
      * by exists (fun _ => True).
      * exists Kq. split; [|done]. destruct Hq as [Hq _]. exact (Hq s _ Hi HKq Hg).
Qed.

(** Whatever the interleaving, the invariant holds at every moment. *)
Lemma pool_reach_inv starts s0 c :
  (forall p, starts p -> exists K, (forall s, inv s -> K s) /\ safe K p) ->
  inv s0 -> pool_reach starts ok s0 c -> pool_inv c.
Proof.
  intros Hstart H0. unfold pool_reach. apply rtc_invariant.
  - intros c1 c2 H Hs. by eapply pool_step_inv.
  - split; [done|]. intros p Hp. by apply elem_of_nil in Hp.
Qed.

(** A step gives the guarantee. *)
Lemma pool_step_guar starts c c' :
  (forall s, guar s s) -> pool_inv c -> pool_step starts ok c c' -> guar c.1 c'.1.
Proof.
  intros Hr [Hi Hps] H. destruct H as [s ps p Hp|s ps i f k e Hf He]; [apply Hr|]. simpl in *.
  destruct (Hps (Act f k)) as (K & HK & _ & Hact); [by eapply list_elem_of_lookup_2|].
  by destruct (Hact e s He Hi HK) as (_ & Hg & _).
Qed.

(** Between any two moments of a run the guarantee holds, when it is a preorder. *)
Lemma pool_steps_guar starts c c' :
  (forall p, starts p -> exists K, (forall s, inv s -> K s) /\ safe K p) ->
  (forall s, guar s s) -> (forall a b c, guar a b -> guar b c -> guar a c) ->
  pool_inv c -> rtc (pool_step starts ok) c c' -> guar c.1 c'.1.
Proof.
  intros Hstart Hr Ht Hc Hs. induction Hs as [c|c c1 c2 H1 _ IH]; [done|].
  apply (Ht _ c1.1); [by eapply pool_step_guar|apply IH; by eapply pool_step_inv].
Qed.

End rule.
End threads.

(** ** Calls

    A call of the store may find it failing, before the statement took effect or after;
    an operation in memory does not fail. *)
Inductive fault : Type := NoFault | FaultBefore | FaultAfter.

Arguments prog : clear implicits.

Section calls.
Context {S E R : Type} (flt : E -> fault).

(** [None] is an error of the store itself. *)
Definition store_call {A : Type} (op : E -> S -> A * S) (k : option A -> prog S E R) : prog S E R :=
  Act (fun e s => match flt e with FaultBefore => s | _ => (op e s).2 end)
      (fun e s => k (match flt e with NoFault => Some (op e s).1 | _ => None end)).

Definition mem_call {A : Type} (op : E -> S -> A * S) (k : A -> prog S E R) : prog S E R :=
  Act (fun e s => (op e s).2) (fun e s => k (op e s).1).

Lemma wp_store_call {A} ok (op : E -> S -> A * S) k s Q :
  (forall e, ok e -> wp ok (k (Some (op e s).1)) (op e s).2 Q) ->
  (forall e, ok e -> flt e <> NoFault -> wp ok (k None) s Q /\ wp ok (k None) (op e s).2 Q) ->
  wp ok (store_call op k) s Q.
Proof.
  intros H1 H2 e He. cbn. destruct (flt e) eqn:Ef.
  - by apply H1.
  - apply (H2 e He). by rewrite Ef.
  - apply (H2 e He). by rewrite Ef.
Qed.

Lemma wp_mem_call {A} ok (op : E -> S -> A * S) k s Q :
  (forall e, ok e -> wp ok (k (op e s).1) (op e s).2 Q) -> wp ok (mem_call op k) s Q.
Proof. intros H e He. by apply H. Qed.

Lemma exec_store_call {A} (env : nat -> E) i s (op : E -> S -> A * S) k :
  flt (env i) = NoFault ->
  exec env i s (store_call op k) = exec env (Datatypes.S i) (op (env i) s).2 (k (Some (op (env i) s).1)).
Proof. intros H. cbn. by rewrite H. Qed.

Section rules.
Context (inv : S -> Prop) (guar : S -> S -> Prop) (ok : E -> Prop).
Hypothesis guar_refl : forall s, guar s s.

Lemma safe_store_call {A} K (op : E -> S -> A * S) k :
  stable inv guar K ->
  (forall e s, ok e -> inv s -> K s -> inv (op e s).2 /\ guar s (op e s).2 /\
     exists K' : S -> Prop, K' (op e s).2 /\ safe inv guar ok K' (k (Some (op e s).1))) ->
  safe inv guar ok K (k None) -> safe inv guar ok K (store_call op k).
Proof.
  intros Hst Hop Hn. split; [done|]. intros e s He Hi HK.
  destruct (Hop e s He Hi HK) as (Hi' & Hg & K' & HK' & Hs').
  destruct (flt e).
  - split_and!; [done|done|]. by exists K'.
  - split_and!; [done|apply guar_refl|]. by exists K.
  - split_and!; [done|done|]. exists K. split; [exact (Hst s _ Hi HK Hg)|done].
Qed.

Lemma safe_mem_call {A} K (op : E -> S -> A * S) k :
  stable inv guar K ->
  (forall e s, ok e -> inv s -> K s -> inv (op e s).2 /\ guar s (op e s).2 /\
     exists K' : S -> Prop, K' (op e s).2 /\ safe inv guar ok K' (k (op e s).1)) ->
  safe inv guar ok K (mem_call op k).
Proof.
  intros Hst Hop. split; [done|]. intros e s He Hi HK.
  destruct (Hop e s He Hi HK) as (Hi' & Hg & K' & HK' & Hs'). split_and!; [done|done|]. by exists K'.
Qed.

End rules.

(** *** Knowing facts

    What a handler has learnt is a list of facts that the guarantee keeps true. *)
Section facts.
Context {F : Type} (inv : S -> Prop) (guar : S -> S -> Prop) (holds : F -> S -> Prop).
Hypothesis guar_refl : forall s, guar s s.
Hypothesis holds_guar : forall f s s', holds f s -> guar s s' -> holds f s'.

Definition knowing (L : list F) (s : S) : Prop := forall f, f ∈ L -> holds f s.

Definition safe_knowing (L : list F) (p : prog S E R) : Prop := safe inv guar (fun _ => True) (knowing L) p.

Lemma knowing_guar L s s' : knowing L s -> guar s s' -> knowing L s'.
Proof. intros HK Hg f Hf. eapply holds_guar; [by apply HK|done]. Qed.

Lemma knowing_nil s : knowing [] s.
Proof. intros f Hf. by apply elem_of_nil in Hf. Qed.

Lemma knowing_cons f L s : holds f s -> knowing L s -> knowing (f :: L) s.
Proof. intros Hf HL g [->|Hg]%elem_of_cons; [done|by apply HL]. Qed.

Lemma stable_knowing L : stable inv guar (knowing L).
Proof. intros s s' _ HK Hg. by eapply knowing_guar. Qed.

(** The general rules, and their cases where nothing is learnt. *)
Lemma knowing_call {A} L (op : E -> S -> A * S) k :
  (forall e s, inv s -> knowing L s -> inv (op e s).2 /\ guar s (op e s).2 /\
     exists L', knowing L' (op e s).2 /\ safe_knowing L' (k (Some (op e s).1))) ->
  safe_knowing L (k None) -> safe_knowing L (store_call op k).
Proof.
  intros Hop. apply safe_store_call; [done|apply stable_knowing|]. intros e s _ Hi HK.
  destruct (Hop e s Hi HK) as (? & ? & L' & ? & ?). split_and!; [done|done|]. by exists (knowing L').
Qed.

Lemma knowing_mem {A} L (op : E -> S -> A * S) k :
  (forall e s, inv s -> knowing L s -> inv (op e s).2 /\ guar s (op e s).2 /\
     exists L', knowing L' (op e s).2 /\ safe_knowing L' (k (op e s).1)) ->
  safe_knowing L (mem_call op k).
Proof.
  intros Hop. apply safe_mem_call; [apply stable_knowing|]. intros e s _ Hi HK.
  destruct (Hop e s Hi HK) as (? & ? & L' & ? & ?). split_and!; [done|done|]. by exists (knowing L').
Qed.

Lemma knowing_step {A} L (op : E -> S -> A * S) k :
  (forall e s, inv s -> knowing L s -> inv (op e s).2 /\ guar s (op e s).2) ->
  (forall a, safe_knowing L (k a)) -> safe_knowing L (store_call op k).
Proof.
  intros Hop Hk. apply knowing_call; [|done]. intros e s Hi HK. destruct (Hop e s Hi HK) as [Hi' Hg].
  split_and!; [done|done|]. exists L. split; [by eapply knowing_guar|done].
Qed.

(** A read, with what it teaches. *)
Lemma knowing_read {A} L (op : E -> S -> A) k :
  (forall e s, inv s -> knowing L s -> exists L', knowing L' s /\ safe_knowing L' (k (Some (op e s)))) ->
  safe_knowing L (k None) -> safe_knowing L (store_call (fun e s => (op e s, s)) k).
Proof. intros Hop Hn. apply knowing_call; [|done]. intros e s Hi HK. split_and!; [done|apply guar_refl|eauto]. Qed.

End facts.
End calls.

#[global] Arguments store_call : simpl never.
#[global] Arguments mem_call : simpl never.
#[global] Arguments wp {S E R} ok p s Q : simpl never.

(** * Debts between requests

    Some states are untidy for a while by design: one request has made a mess and is on its
    way to clean it up.  [pays] is a proof rule for that, beside [safe] of [Threads]: at
    every moment each piece of untidiness is owed by a request still running, so that when
    none runs there is none.  A step's environment may be restricted by the state it meets,
    which is how a random draw that has not occurred before is expressed. *)

Section debts.
Context {S E R : Type} (allowed : E -> S -> Prop).

(** Requests arrive and take steps in environments their state allows. *)
Inductive duty_step (starts : prog S E R -> Prop) : S * list (prog S E R) -> S * list (prog S E R) -> Prop :=
| ds_arrive s ps p : starts p -> duty_step starts (s, ps) (s, p :: ps)
| ds_act s ps i f k e :
    ps !! i = Some (Act f k) -> allowed e s ->
    duty_step starts (s, ps) (f e s, <[i := k e s]> ps).

Definition duty_reach (starts : prog S E R -> Prop) (s0 : S) : S * list (prog S E R) -> Prop :=
  rtc (duty_step starts) (s0, []).

(** A schedule whose every environment is allowed where it is used. *)
Fixpoint allowed_along (c : S * list (prog S E R)) (l : list choice) : Prop :=
  match l with
  | [] => True
  | x :: l => match x with Arrive _ => True | Step i e => can_step c i = true -> allowed e c.1 end /\
              allowed_along (run_choice c x) l
  end.

Lemma schedule_duty starts c0 c l :
  Forall (fun x => match x with Arrive p => starts p | Step _ _ => True end) l ->
  allowed_along c l -> rtc (duty_step starts) c0 c -> rtc (duty_step starts) c0 (foldl run_choice c l).
Proof.
  revert c. induction l as [|x l IH]; intros c Hs Ha Hr; [done|]. apply Forall_cons in Hs as [Hx Hs].
  destruct Ha as [Hax Ha]. cbn [foldl]. apply IH; [done|done|]. destruct c as [s ps].
  destruct x as [p|i e]; cbn [run_choice fst snd] in *.
  - eapply rtc_r; [exact Hr|]. by constructor.
  - unfold can_step in Hax. cbn in Hax. destruct (ps !! i) as [[r|f k]|] eqn:Ei; [done| |done].
    eapply rtc_r; [exact Hr|]. eapply ds_act; [done|]. by apply Hax.
Qed.

Section rule.
Context {F D : Type} (inv : S -> Prop) (guar : S -> S -> Prop) (holds : F -> S -> Prop) (mess : S -> D -> Prop).
Hypothesis holds_guar : forall f s s', inv s -> holds f s -> guar s s' -> holds f s'.

Definition knows (L : list F) (s : S) : Prop := forall f, f ∈ L -> holds f s.

Lemma duty_knows_guar L s s' : inv s -> knows L s -> guar s s' -> knows L s'.
Proof. intros Hi HL Hg f Hf. eapply holds_guar; [done|by apply HL|done]. Qed.

Lemma duty_knows_cons f L s : holds f s -> knows L s -> knows (f :: L) s.
Proof. intros Hf HL g [->|Hg]%elem_of_cons; [done|by apply HL]. Qed.

Lemma duty_knows_nil s : knows [] s.
Proof. intros f Hf. by apply elem_of_nil in Hf. Qed.

(** [p], knowing the facts [L], answers for the debts [O]: it never ends while one of them
    is untidy, and takes over what its own steps leave untidy. *)
Fixpoint pays (L : list F) (O : list D) (p : prog S E R) : Prop :=
  match p with
  | Ret _ => O = []
  | Act f k =>
      forall e s, allowed e s -> inv s -> knows L s ->
        inv (f e s) /\ guar s (f e s) /\
        exists L' O', knows L' (f e s) /\ pays L' O' (k e s) /\
          forall d, mess (f e s) d -> d ∈ O' \/ (mess s d /\ d ∉ O)
  end.

Definition running (p : prog S E R) : Prop := match p with Ret _ => False | Act _ _ => True end.

Definition in_hand (c : S * list (prog S E R)) : Prop :=
  inv c.1 /\ exists LO : list (list F * list D),
    Forall2 (fun p lo => knows lo.1 c.1 /\ pays lo.1 lo.2 p) c.2 LO /\
    forall d, mess c.1 d -> exists i lo, LO !! i = Some lo /\ d ∈ lo.2.

Lemma in_hand_step starts c c' :
  (forall p, starts p -> pays [] [] p) -> in_hand c -> duty_step starts c c' -> in_hand c'.
Proof.
  intros Hstart (Hi & LO & Hps & Hd) Hstep. destruct Hstep as [s ps p Hp|s ps i f k e Hf He]; cbn in *.
  - split; [done|]. exists (([], []) :: LO). split.
    + constructor; [|done]. split; [apply duty_knows_nil|by apply Hstart].
    + intros d Hm. destruct (Hd d Hm) as (j & lo & Hj & Hin). by exists (Datatypes.S j), lo.
  - destruct (Forall2_lookup_l _ _ _ _ _ Hps Hf) as ((L & O) & Hlo & HL & Hpay). cbn in HL, Hpay.
    destruct (Hpay e s He Hi HL) as (Hi' & Hg & L' & O' & HL' & Hpay' & Hm). split; [done|].
    exists (<[i := (L', O')]> LO). cbn [fst snd]. split.
    + apply Forall2_insert; [|by split]. eapply Forall2_impl; [exact Hps|]. intros q [Lq Oq] [H1 H2]. split; [|done].
      exact (duty_knows_guar Lq s _ Hi H1 Hg).
    + intros d Hmd. assert (Hlt : (i < length LO)%nat) by (by eapply lookup_lt_Some).
      destruct (Hm d Hmd) as [Hin|[Hold Hout]].
      * exists i, (L', O'). by rewrite list_lookup_insert_eq.
      * destruct (Hd d Hold) as (j & lo & Hj & Hin). exists j, lo. split; [|done].
        rewrite list_lookup_insert_ne; [done|]. intros ->. rewrite Hj in Hlo. by simplify_eq/=.
Qed.

Lemma in_hand_reach starts s0 c :
  (forall p, starts p -> pays [] [] p) -> inv s0 -> (forall d, ~ mess s0 d) -> duty_reach starts s0 c -> in_hand c.
Proof.
  intros Hstart Hi Hm. unfold duty_reach. apply rtc_invariant.
  - intros c1 c2 H Hs. by eapply in_hand_step.
  - split; [done|]. exists []. split; [constructor|]. intros d Hd. by destruct (Hm d).
Qed.

(** Every mess is some running request's business. *)
Lemma in_hand_running c d : in_hand c -> mess c.1 d -> exists p, p ∈ c.2 /\ running p.
Proof.
  intros (_ & LO & Hps & Hd) Hm. destruct (Hd d Hm) as (i & lo & Hi & Hin).
  destruct (Forall2_lookup_r _ _ _ _ _ Hps Hi) as (p & Hp & _ & Hpay). exists p.
  split; [by eapply list_elem_of_lookup_2|]. destruct p as [r|f k]; [|done]. cbn in Hpay. rewrite Hpay in Hin.
  by apply elem_of_nil in Hin.
Qed.

(** What a program may forget, and what it may answer for besides. *)
Lemma knows_weaken L L' s : L' ⊆ L -> knows L s -> knows L' s.
Proof. intros Hsub HL f Hf. by apply HL, Hsub. Qed.

Lemma pays_weaken L L' O p : L' ⊆ L -> pays L' O p -> pays L O p.
Proof.
  destruct p as [r|f k]; intros Hsub H; [done|]. intros e s He Hi HL. apply H; [done|done|]. by eapply knows_weaken.
Qed.

End rule.
End debts.
