(* ===== verification/Limits.v ===== *)
(** * Requests, errors and limits

    What the handlers share: the request they are given ([mtproto.Request]), the errors of
    [internal/api/errors.go] they answer with, and the charging of a rate limit. *)

From S2P Require Import Prelude.
From S2P Require Import NetAddr.
From S2P Require Import GoStrings.
From S2P Require Import RateLimit.
From S2P Require Import Threads.
From Stdlib Require Import Ascii String.
From Stdlib Require Import String.

Open Scope Z_scope.

Record Request : Type := mkRequest { AuthKeyID : Z; r_UserID : Z; ClientAddr : Addr }.

Record rpc_error : Type := mkErr { err_code : Z; err_msg : string }.

Definition errPhoneInvalid := mkErr 400 "PHONE_NUMBER_INVALID".
Definition errCodeInvalid := mkErr 400 "PHONE_CODE_INVALID".
Definition errCodeExpired := mkErr 400 "PHONE_CODE_EXPIRED".
Definition errInternal := mkErr 500 "INTERNAL".
Definition errAuthKeyUnreg := mkErr 401 "AUTH_KEY_UNREGISTERED".
Definition errFloodWait := mkErr 420 "FLOOD_WAIT_60".
Definition errSessionPasswordNeeded := mkErr 401 "SESSION_PASSWORD_NEEDED".
Definition errPasswordHashInvalid := mkErr 400 "PASSWORD_HASH_INVALID".
Definition errSRPIDInvalid := mkErr 400 "SRP_ID_INVALID".
Definition errNewSaltInvalid := mkErr 400 "NEW_SALT_INVALID".
Definition errNewPasswordBad := mkErr 400 "NEW_PASSWORD_BAD".
Definition errPasswordCannotBeRemoved := mkErr 400 "PASSWORD_HASH_INVALID".

Definition FloodWaitError (seconds : Z) : rpc_error :=
  mkErr 420 ("FLOOD_WAIT_" +:+ FormatInt (if seconds <? 1 then 1 else seconds)).

(** Peers and secret chats. *)
Definition errPeerIDInvalid := mkErr 400 "PEER_ID_INVALID".
Definition errRandomLengthInvalid := mkErr 400 "RANDOM_LENGTH_INVALID".
Definition errDHValueInvalid := mkErr 400 "DH_G_A_INVALID".
Definition errEncryptionIDInvalid := mkErr 400 "ENCRYPTION_ID_INVALID".
Definition errEncryptionAlreadyAccepted := mkErr 400 "ENCRYPTION_ALREADY_ACCEPTED".
Definition errEncryptionAlreadyDeclined := mkErr 400 "ENCRYPTION_ALREADY_DECLINED".
Definition errUserIDInvalid := mkErr 400 "USER_ID_INVALID".
Definition errPeerFlood := mkErr 400 "PEER_FLOOD".
Definition errMessageTooLong := mkErr 400 "MESSAGE_TOO_LONG".
Definition errEncryptionDeclined := mkErr 400 "ENCRYPTION_DECLINED".
Definition errChatForbidden := mkErr 403 "CHAT_FORBIDDEN".

(** * Charging a handler's request to a rate limit

    The per-account checks of [internal/api/handler.go] on whatever state keeps the counter
    rows: the account handlers, the secret chats and the messages each have tables of their
    own beside them. *)

(** A state that keeps the counter rows, and what a step's environment says of them: the
    database and server clocks, and what other requests do to the rows between the two
    statements of a denied check. *)
Class Limited (S E : Type) : Type := {
  limits : S -> rl_table;
  with_limits : rl_table -> S -> S;
  lim_fault : E -> fault;
  lim_now : E -> Z;
  lim_clock : E -> Z;
  lim_between : E -> rl_table -> rl_table
}.

(** Seconds of a denial. *)
Definition wait_seconds (wait : Z) : Z := Z.quot wait second.

Definition limit_answer {A : Type} (a : option rl_answer) (k : option rpc_error -> A) : A :=
  match a with
  | None | Some RLFailed => k (Some errInternal)
  | Some RLAllowed => k None
  | Some (RLDenied wait) => k (Some (FloodWaitError (wait_seconds wait)))
  end.

Section limited.
Context {S E R : Type} `{Limited S E}.

Definition charge_limit (subject : Z) (surface : string) (cfg : RateLimitConfig) (e : E) (s : S) : rl_answer * S :=
  let '(a, t) := CheckRateLimit (limits s) (lim_between e) (subject, surface) cfg (lim_now e) (lim_clock e) in
  (a, with_limits t s).

Definition checkRateLimit (r : Request) (surface : string) (cfg : RateLimitConfig)
    (k : option rpc_error -> prog S E R) : prog S E R :=
  store_call lim_fault (charge_limit (r_UserID r) surface cfg) (fun a => limit_answer a k).

End limited.
