(* ===== verification/PeerHash.v ===== *)
(** * Peer access hashes

    [internal/peerhash/peerhash.go], executable down to the bytes: the subkey by HKDF, the
    MAC input and its truncation; and [internal/api/peers.go], the gates that read a peer
    named by a client. *)

From S2P Require Import Prelude.
From S2P Require Import NetAddr.
From S2P Require Import GoStrings.
From S2P Require Import Sha256.
From S2P Require Import Limits.
From Stdlib Require Import Ascii String.

Open Scope Z_scope.

(** ** The derivation *)

Fixpoint bytes_of (s : string) : list Z :=
  match s with
  | EmptyString => []
  | String c s' => Z.of_N (N_of_ascii c) :: bytes_of s'
  end.

Definition SubkeyLen : Z := 32.
Definition masterLen : Z := 32.
Definition subkeyInfo : string := "telegram-server/peer-access-hash/subkey/v1".
Definition label : string := "tg-peer-access-hash-v1".

Definition KindUser : Z := 1.
Definition KindChat : Z := 2.
Definition KindChannel : Z := 3.
Definition KindSecret : Z := 4.

(** [hkdf.Key] for at most one block of output, with no salt. *)
Definition hkdf_key (secret info : list Z) : list Z :=
  let prk := hmac_sha256 (replicate 32 0) secret in
  hmac_sha256 prk (info ++ [1]).

Definition Subkey (master : list Z) : option (list Z) :=
  if negb (len master =? masterLen) then None else Some (hkdf_key master (bytes_of subkeyInfo)).

(** [New]: a deriver is its key. *)
Definition New (subkey : list Z) : option (list Z) :=
  if negb (len subkey =? SubkeyLen) then None else Some subkey.

Definition mac_input (viewerID kind peerID : Z) : list Z :=
  bytes_of label ++ be_bytes 8 viewerID ++ be_bytes 4 kind ++ be_bytes 8 peerID.

Definition Derive (key : list Z) (viewerID kind peerID : Z) : Z :=
  wrap_s64 (be_of (take 8 (hmac_sha256 key (mac_input viewerID kind peerID)))).

#[global] Arguments Derive : simpl never.

(** ** The gates *)

(** [tg.InputPeerClass]; [InputPeerOther] stands for the classes no gate accepts. *)
Inductive InputPeerClass : Type :=
| InputPeerEmpty
| InputPeerSelf
| InputPeerUser (UserID AccessHash : Z)
| InputPeerChat (ChatID : Z)
| InputPeerChannel (ChannelID AccessHash : Z)
| InputPeerOther.

Inductive InputUserClass : Type :=
| InputUserSelf
| InputUser (UserID AccessHash : Z)
| InputUserOther.

Inductive PeerType : Type := PeerTypeUser | PeerTypeChat | PeerTypeChannel.

#[global] Instance PeerType_eq_dec : EqDecision PeerType.
Proof. solve_decision. Defined.

Section gates.
Context (key : list Z).

Definition peerUserID (peer : InputPeerClass) (viewerID : Z) : result rpc_error Z :=
  match peer with
  | InputPeerSelf => if viewerID =? 0 then Err errPeerIDInvalid else Ok viewerID
  | InputPeerUser u h =>
      if u =? 0 then Err errPeerIDInvalid
      else if negb (h =? Derive key viewerID KindUser u) then Err errPeerIDInvalid
      else Ok u
  | _ => Err errPeerIDInvalid
  end.

Definition inputPeer (peer : InputPeerClass) (viewerID : Z) : result rpc_error (PeerType * Z) :=
  match peer with
  | InputPeerChat c => if c =? 0 then Err errPeerIDInvalid else Ok (PeerTypeChat, c)
  | InputPeerChannel c h =>
      if c =? 0 then Err errPeerIDInvalid
      else if negb (h =? Derive key viewerID KindChannel c) then Err errPeerIDInvalid
      else Ok (PeerTypeChannel, c)
  | _ =>
      match peerUserID peer viewerID with
      | Ok id => Ok (PeerTypeUser, id)
      | Err e => Err e
      end
  end.

Definition inputUserID (u : InputUserClass) (viewerID : Z) : result rpc_error Z :=
  match u with
  | InputUserSelf => if viewerID =? 0 then Err errPeerIDInvalid else Ok viewerID
  | InputUser id h => peerUserID (InputPeerUser id h) viewerID
  | InputUserOther => Err errPeerIDInvalid
  end.

End gates.

Definition replyPeerIsDest (p : InputPeerClass) (destType : PeerType) (destID selfID : Z) : bool :=
  match p with
  | InputPeerEmpty => true
  | InputPeerSelf => bool_decide (destType = PeerTypeUser) && (destID =? selfID)
  | InputPeerUser u _ => bool_decide (destType = PeerTypeUser) && (destID =? u)
  | InputPeerChat c => bool_decide (destType = PeerTypeChat) && (destID =? c)
  | InputPeerChannel c _ => bool_decide (destType = PeerTypeChannel) && (destID =? c)
  | InputPeerOther => false
  end.

(** ** What the encoding keeps apart *)

Definition i64 (z : Z) : Prop := - 2 ^ 63 <= z < 2 ^ 63.
Definition u32 (z : Z) : Prop := 0 <= z < 2 ^ 32.

Lemma be_bytes_mod n z : be_bytes n (z mod 256 ^ Z.of_nat n) = be_bytes n z.
Proof.
  revert z. induction n as [|n IH]; intros z; [done|]. cbn [be_bytes].
  rewrite Nat2Z.inj_succ, Z.pow_succ_r by lia.
  assert (0 < 256 ^ Z.of_nat n) by (apply Z.pow_pos_nonneg; lia).
  rewrite <- (IH (z / 256)), Z.rem_mul_r by lia. f_equal.
  - rewrite (Z.add_comm (z mod 256)), (Z.mul_comm 256), Z.div_add_l by lia.
    rewrite (Z.div_small (z mod 256)) by (apply Z.mod_pos_bound; lia). rewrite Z.add_0_r.
    done.
  - rewrite (Z.add_comm (z mod 256)), (Z.mul_comm 256), Z.add_comm, Z_mod_plus_full, Zmod_mod. done.
Qed.

(** Two's complement bytes determine the number they were taken from. *)
Lemma be_bytes_mod_inj n x y :
  be_bytes n x = be_bytes n y -> x mod 256 ^ Z.of_nat n = y mod 256 ^ Z.of_nat n.
Proof.
  intros H. assert (0 < 256 ^ Z.of_nat n) by (apply Z.pow_pos_nonneg; lia).
  rewrite <- (be_bytes_mod n x), <- (be_bytes_mod n y) in H.
  assert (Hb : forall z, be_of (be_bytes n (z mod 256 ^ Z.of_nat n)) = z mod 256 ^ Z.of_nat n).
  { intros z. by apply be_of_be_bytes, Z.mod_pos_bound. }
  by rewrite <- Hb, H, Hb.
Qed.

Lemma be_bytes_8_inj x y : i64 x -> i64 y -> be_bytes 8 x = be_bytes 8 y -> x = y.
Proof.
  intros Hx Hy H%be_bytes_mod_inj. change (256 ^ Z.of_nat 8) with (2 ^ 64) in H. unfold i64 in *.
  assert (E : (x + 2 ^ 63) mod 2 ^ 64 = (y + 2 ^ 63) mod 2 ^ 64).
  { by rewrite <- Zplus_mod_idemp_l, H, Zplus_mod_idemp_l. }
  rewrite !Z.mod_small in E by lia. lia.
Qed.

Lemma be_bytes_4_inj x y : u32 x -> u32 y -> be_bytes 4 x = be_bytes 4 y -> x = y.
Proof.
  intros Hx Hy H%be_bytes_mod_inj. change (256 ^ Z.of_nat 4) with (2 ^ 32) in H.
  by rewrite !Z.mod_small in H.
Qed.

(** The bytes a hash is made from determine the viewer, the kind and the
    peer: no two of them share an input, negative ids included, so a hash for one triple is
    never the hash of another by construction. *)
Theorem mac_input_injective (v k p v' k' p' : Z) :
  i64 v -> u32 k -> i64 p -> i64 v' -> u32 k' -> i64 p' ->
  mac_input v k p = mac_input v' k' p' -> v = v' /\ k = k' /\ p = p'.
Proof.
  intros Hv Hk Hp Hv' Hk' Hp' E. unfold mac_input in E. apply app_inv_head in E.
  apply app_inj_1 in E as [E1 E]; [|by rewrite !length_be_bytes].
  apply app_inj_1 in E as [E2 E3]; [|by rewrite !length_be_bytes].
  split_and!; [by apply be_bytes_8_inj|by apply be_bytes_4_inj|by apply be_bytes_8_inj].
Qed.

Lemma mac_input_injective_witness : 7 = 7 /\ KindUser = KindUser /\ -3 = -3.
Proof. apply (mac_input_injective 7 KindUser (-3) 7 KindUser (-3)); unfold i64, u32, KindUser; try lia. reflexivity. Defined.

Lemma inputPeer_exact (key : list Z) (peer : InputPeerClass) (viewer : Z) (t : PeerType) (id : Z) :
  inputPeer key peer viewer = Ok (t, id) <->
  id <> 0 /\
  match t with
  | PeerTypeUser => peer = InputPeerSelf /\ id = viewer \/ peer = InputPeerUser id (Derive key viewer KindUser id)
  | PeerTypeChat => peer = InputPeerChat id
  | PeerTypeChannel => peer = InputPeerChannel id (Derive key viewer KindChannel id)
  end.
Proof.
  split.
  - destruct peer as [| |u h|c|c h|]; cbn [inputPeer peerUserID]; intros H; repeat case_match; simplify_eq;
      split; try lia; try done; [by left|right|]; repeat f_equal; lia.
  - intros [Hne H]. destruct t; [destruct H as [[-> ->]| ->]|subst|subst]; cbn [inputPeer peerUserID];
      rewrite ?(proj2 (Z.eqb_neq _ 0) Hne), ?Z.eqb_refl; done.
Qed.

(** A reply header that names the destination agrees with the gate: whatever the gate
    resolves the peer to is the destination and nothing else. *)
Lemma replyPeerIsDest_agrees key p t id viewer destType destID :
  inputPeer key p viewer = Ok (t, id) ->
  replyPeerIsDest p destType destID viewer = true <-> destType = t /\ destID = id.
Proof.
  intros H. apply inputPeer_exact in H as [_ H].
  destruct t; [destruct H as [[-> ->]| ->]|subst|subst]; cbn [replyPeerIsDest];
    rewrite andb_true_iff, bool_decide_eq_true, Z.eqb_eq; done.
Qed.

(** Every gate fails closed: a user or channel is accepted exactly with a
    nonzero id and the hash derived for this viewer, that kind and that peer; a chat by its
    nonzero id, to be authorised by membership; self only for somebody signed in. *)
Theorem inputPeer_gates (key : list Z) (peer : InputPeerClass) (viewer : Z) (t : PeerType) (id : Z) :
  inputPeer key peer viewer = Ok (t, id) <->
  id <> 0 /\
  match t with
  | PeerTypeUser => peer = InputPeerSelf /\ id = viewer \/ peer = InputPeerUser id (Derive key viewer KindUser id)
  | PeerTypeChat => peer = InputPeerChat id
  | PeerTypeChannel => peer = InputPeerChannel id (Derive key viewer KindChannel id)
  end.
Proof. apply inputPeer_exact. Qed.

(** The vector the program's own tests pin. *)
Definition masterA : list Z := bytes_of "0123456789abcdef0123456789abcdef".

Example derive_stable :
  (sub ← Subkey masterA; k ← New sub; Some (Derive k 1001 KindUser 1002)) = Some 3238409131046424869.
Proof. vm_compute. reflexivity. Qed.
