(* ===== verification/Utf8.v ===== *)
(** * Text: UTF-8 and UTF-16

    What the server uses of Go's [unicode/utf8], [unicode/utf16] and of [range] over a string:
    the decoding of one rune, with the rune error for what is not UTF-8, the runes of a
    string, its validity, and the UTF-16 code units its runes take, which is how clients
    count. *)

From S2P Require Import Prelude.

Open Scope Z_scope.

(** ** Definitions *)

Definition RuneError : Z := 65533.

(** A Unicode scalar value: a code point that is no surrogate. *)
Definition scalar (r : Z) : Prop := 0 <= r < 55296 \/ 57344 <= r < 1114112.

(** How many bytes the first one announces, and the range of the second. *)
Definition first_byte (b : Z) : option (nat * Z * Z) :=
  if b <? 128 then Some (1%nat, 0, 0)
  else if b <? 194 then None
  else if b <? 224 then Some (2%nat, 128, 191)
  else if b =? 224 then Some (3%nat, 160, 191)
  else if b =? 237 then Some (3%nat, 128, 159)
  else if b <? 240 then Some (3%nat, 128, 191)
  else if b =? 240 then Some (4%nat, 144, 191)
  else if b <? 244 then Some (4%nat, 128, 191)
  else if b =? 244 then Some (4%nat, 128, 143)
  else None.

Definition within (lo hi b : Z) : bool := (lo <=? b) && (b <=? hi).

(** [utf8.DecodeRune]: [None] for bytes that are not UTF-8. *)
Definition decode_rune (bs : list Z) : option (Z * nat) :=
  match bs with
  | [] => None
  | b0 :: rest =>
      match first_byte b0 with
      | None => None
      | Some (1%nat, _, _) => Some (b0, 1%nat)
      | Some (2%nat, lo, hi) =>
          match rest with
          | b1 :: _ =>
              if within lo hi b1 then Some (Z.lor (Z.shiftl (Z.land b0 31) 6) (Z.land b1 63), 2%nat) else None
          | _ => None
          end
      | Some (3%nat, lo, hi) =>
          match rest with
          | b1 :: b2 :: _ =>
              if within lo hi b1 && within 128 191 b2
              then Some (Z.lor (Z.shiftl (Z.lor (Z.shiftl (Z.land b0 15) 6) (Z.land b1 63)) 6) (Z.land b2 63), 3%nat)
              else None
          | _ => None
          end
      | Some (_, lo, hi) =>
          match rest with
          | b1 :: b2 :: b3 :: _ =>
              if within lo hi b1 && within 128 191 b2 && within 128 191 b3
              then Some (Z.lor (Z.shiftl (Z.lor (Z.shiftl (Z.lor (Z.shiftl (Z.land b0 7) 6) (Z.land b1 63)) 6)
                                  (Z.land b2 63)) 6) (Z.land b3 63), 4%nat)
              else None
          | _ => None
          end
      end
  end.

(** The runes [range] meets: the rune error, one byte wide, where a byte is not UTF-8.
    [skip] bytes belong to the rune before. *)
Fixpoint runes_from (skip : nat) (bs : list Z) : list Z :=
  match bs with
  | [] => []
  | _ :: rest =>
      match skip with
      | S n => runes_from n rest
      | O => let '(r, n) := default (RuneError, 1%nat) (decode_rune bs) in r :: runes_from (pred n) rest
      end
  end.

Definition runes (bs : list Z) : list Z := runes_from 0 bs.

Fixpoint valid_from (skip : nat) (bs : list Z) : bool :=
  match bs with
  | [] => true
  | _ :: rest =>
      match skip with
      | S n => valid_from n rest
      | O => match decode_rune bs with None => false | Some (_, n) => valid_from (pred n) rest end
      end
  end.

(** [utf8.ValidString]. *)
Definition ValidString (bs : list Z) : bool := valid_from 0 bs.

(** [utf8.RuneCountInString]. *)
Definition RuneCountInString (bs : list Z) : Z := len (runes bs).

(** [utf8.EncodeRune] of a scalar value. *)
Definition EncodeRune (r : Z) : list Z :=
  if r <=? 127 then [r]
  else if r <=? 2047 then [Z.lor 192 (Z.shiftr r 6); Z.lor 128 (Z.land r 63)]
  else if r <=? 65535 then [Z.lor 224 (Z.shiftr r 12); Z.lor 128 (Z.land (Z.shiftr r 6) 63); Z.lor 128 (Z.land r 63)]
  else [Z.lor 240 (Z.shiftr r 18); Z.lor 128 (Z.land (Z.shiftr r 12) 63); Z.lor 128 (Z.land (Z.shiftr r 6) 63);
        Z.lor 128 (Z.land r 63)].

Definition encode (rs : list Z) : list Z := concat (map EncodeRune rs).

(** [utf16.RuneLen]: one code unit, two past the basic plane, none at all for a surrogate. *)
Definition RuneLen (r : Z) : Z :=
  if ((0 <=? r) && (r <? 55296)) || ((57344 <=? r) && (r <? 65536)) then 1
  else if (65536 <=? r) && (r <=? 1114111) then 2
  else -1.

(** The code units of [utf16.Encode]: a rune it cannot encode becomes the one of the rune error. *)
Definition units16 (rs : list Z) : Z := foldr (fun r n => (if RuneLen r =? 2 then 2 else 1) + n) 0 rs.

(** ** Bits *)

Lemma lor_shift a b n : 0 <= n -> 0 <= b < 2 ^ n -> Z.lor (Z.shiftl a n) b = a * 2 ^ n + b.
Proof.
  intros Hn Hb. assert (Hz : Z.land (Z.shiftl a n) b = 0).
  { apply Z.bits_inj'. intros i Hi. rewrite Z.land_spec, Z.bits_0.
    destruct (Z.lt_ge_cases i n); [by rewrite Z.shiftl_spec_low by done|].
    destruct (Z.eq_dec b 0) as [->|]; [by rewrite Z.bits_0, andb_false_r|].
    rewrite (Z.bits_above_log2 b i); [by rewrite andb_false_r|lia|]. apply Z.log2_lt_pow2; [lia|].
    eapply Z.lt_le_trans; [apply Hb|]. apply Z.pow_le_mono_r; lia. }
  rewrite <- Z.lxor_lor, <- Z.add_nocarry_lxor by done. by rewrite Z.shiftl_mul_pow2 by lia.
Qed.

Lemma lor_high h b n : 0 <= n -> h mod 2 ^ n = 0 -> 0 <= b < 2 ^ n -> Z.lor h b = h + b.
Proof.
  intros Hn Hm Hb. assert (E : h = Z.shiftl (h / 2 ^ n) n).
  { rewrite Z.shiftl_mul_pow2 by lia. pose proof (Z_div_mod_eq_full h (2 ^ n)). lia. }
  rewrite E at 1. rewrite lor_shift by done.
  pose proof (Z_div_mod_eq_full h (2 ^ n)). lia.
Qed.

Lemma land_low a n : 0 <= n -> Z.land a (2 ^ n - 1) = a mod 2 ^ n.
Proof. intros. rewrite <- Z.land_ones by done. f_equal. rewrite Z.ones_equiv. lia. Qed.

(** ** One rune *)

(** A continuation byte. *)
Lemma cont_byte x : 0 <= x < 64 -> Z.lor 128 x = 128 + x.
Proof. intros. by rewrite (lor_high 128 x 6). Qed.

Lemma join_bits a x : 0 <= x < 64 -> Z.lor (Z.shiftl a 6) x = a * 64 + x.
Proof. intros. by rewrite (lor_shift a x 6). Qed.

Lemma low6 x : Z.land x 63 = x mod 64.
Proof. by apply (land_low x 6). Qed.

Lemma low5 x : Z.land x 31 = x mod 32. Proof. by apply (land_low x 5). Qed.
Lemma low4 x : Z.land x 15 = x mod 16. Proof. by apply (land_low x 4). Qed.
Lemma low3 x : Z.land x 7 = x mod 8. Proof. by apply (land_low x 3). Qed.

Ltac div64 := Z.div_mod_to_equations; lia.

Ltac bits :=
  rewrite ?low3, ?low4, ?low5, ?low6, ?Z.shiftr_div_pow2 by done;
  change (2 ^ 6) with 64; change (2 ^ 12) with 4096; change (2 ^ 18) with 262144.

Lemma first_byte_1 b : b < 128 -> first_byte b = Some (1%nat, 0, 0).
Proof. intros. unfold first_byte. by replace (b <? 128) with true by lia. Qed.

Ltac byte_cases :=
  unfold first_byte;
  repeat match goal with
  | |- context [if ?a <? ?b then _ else _] => destruct (Z.ltb_spec a b); try lia
  | |- context [if ?a =? ?b then _ else _] => destruct (Z.eqb_spec a b); try lia
  end; done.

Lemma first_byte_2 b : 194 <= b < 224 -> first_byte b = Some (2%nat, 128, 191).
Proof. intros. byte_cases. Qed.

Lemma first_byte_3 b : 224 <= b < 240 ->
  first_byte b = Some (3%nat, if b =? 224 then 160 else 128, if b =? 237 then 159 else 191).
Proof. intros. byte_cases. Qed.

Lemma first_byte_4 b : 240 <= b < 245 ->
  first_byte b = Some (4%nat, if b =? 240 then 144 else 128, if b =? 244 then 143 else 191).
Proof. intros. byte_cases. Qed.

Lemma first_byte_none b : 128 <= b < 194 \/ 245 <= b -> first_byte b = None.
Proof. intros. byte_cases. Qed.

Lemma within_spec lo hi b : within lo hi b = true <-> lo <= b <= hi.
Proof. unfold within. lia. Qed.

Lemma decode_encode r rest : scalar r -> decode_rune (EncodeRune r ++ rest) = Some (r, List.length (EncodeRune r)).
Proof.
  unfold scalar, EncodeRune. intros Hr. destruct (Z.leb_spec r 127).
  { cbn. by rewrite first_byte_1 by lia. }
  destruct (Z.leb_spec r 2047).
  { cbn [app decode_rune List.length]. bits. rewrite (lor_high 192 (r / 64) 5), cont_byte by (done || div64).
    rewrite first_byte_2 by div64. rewrite (proj2 (within_spec _ _ _)) by div64. bits.
    rewrite join_bits by div64. do 2 f_equal. div64. }
  destruct (Z.leb_spec r 65535).
  { cbn [app decode_rune List.length]. bits.
    rewrite (lor_high 224 (r / 4096) 4), !cont_byte by (done || div64). rewrite first_byte_3 by div64.
    rewrite !(proj2 (within_spec _ _ _)) by (repeat case_match; div64).
    cbn [andb]. bits. rewrite !join_bits by div64. do 2 f_equal. div64. }
  cbn [app decode_rune List.length]. bits.
  rewrite (lor_high 240 (r / 262144) 3), !cont_byte by (done || div64). rewrite first_byte_4 by div64.
  rewrite !(proj2 (within_spec _ _ _)) by (repeat case_match; div64).
  cbn [andb]. bits. rewrite !join_bits by div64. do 2 f_equal. div64.
Qed.

Definition octet (b : Z) : Prop := 0 <= b < 256.

Lemma encode_size r : (1 <= List.length (EncodeRune r) <= 4)%nat.
Proof. unfold EncodeRune. repeat case_match; cbn; lia. Qed.

(** Everything decoded is what [EncodeRune] writes. *)
Lemma decode_sound bs r n :
  Forall octet bs -> decode_rune bs = Some (r, n) ->
  scalar r /\ n = List.length (EncodeRune r) /\ exists rest, bs = EncodeRune r ++ rest.
Proof.
  assert (HE : forall r k, scalar r -> EncodeRune r = k ->
    forall b rest, b = k ++ rest -> scalar r /\ List.length k = List.length (EncodeRune r) /\ exists rest', b = EncodeRune r ++ rest').
  { intros r' k Hr' <- b rest ->. eauto. }
  unfold octet. intros Hb. destruct bs as [|b0 rest]; [done|]. cbn [decode_rune]. apply Forall_cons in Hb as [H0 Hb].
  destruct (Z.lt_ge_cases b0 128).
  { rewrite first_byte_1 by lia. intros E. simplify_eq. refine (HE _ [_] _ _ _ rest eq_refl); unfold scalar, EncodeRune; [lia|].
    by replace (r <=? 127) with true by lia. }
  destruct (decide (128 <= b0 < 194 \/ 245 <= b0)); [by rewrite first_byte_none by lia|].
  destruct (Z.lt_ge_cases b0 224).
  { rewrite first_byte_2 by lia. destruct rest as [|b1 rest]; [done|]. destruct (within 128 191 b1) eqn:W; [|done].
    apply within_spec in W. bits. rewrite join_bits by div64. intros E. simplify_eq.
    refine (HE _ [_; _] _ _ _ rest eq_refl); unfold scalar, EncodeRune; [div64|].
    do 1 (case_match; [exfalso; div64|]). case_match; [|exfalso; div64].
    bits. rewrite (lor_high 192 _ 5), cont_byte by (done || div64). repeat f_equal; div64. }
  destruct (Z.lt_ge_cases b0 240).
  { rewrite first_byte_3 by lia. destruct rest as [|b1 [|b2 rest]]; [done..|]. destruct (within _ _ b1 && _) eqn:W; [|done].
    apply andb_prop in W as [W1%within_spec W2%within_spec]. bits. rewrite !join_bits by div64. intros E. simplify_eq.
    assert (Hr : 128 <= b1 <= 191 /\ (b0 = 224 -> 160 <= b1) /\ (b0 = 237 -> b1 <= 159)) by (repeat case_match; lia).
    clear W1. refine (HE _ [_; _; _] _ _ _ rest eq_refl); unfold scalar, EncodeRune; [div64|].
    do 2 (case_match; [exfalso; div64|]). case_match; [|exfalso; div64].
    bits. rewrite (lor_high 224 _ 4), !cont_byte by (done || div64). repeat f_equal; div64. }
  rewrite first_byte_4 by lia. destruct rest as [|b1 [|b2 [|b3 rest]]]; [done..|].
  destruct (within _ _ b1 && _ && _) eqn:W; [|done].
  apply andb_prop in W as [[W1%within_spec W2%within_spec]%andb_prop W3%within_spec]. bits.
  rewrite !join_bits by div64. intros E. simplify_eq.
  assert (Hr : 128 <= b1 <= 191 /\ (b0 = 240 -> 144 <= b1) /\ (b0 = 244 -> b1 <= 143)) by (repeat case_match; lia).
  clear W1. refine (HE _ [_; _; _; _] _ _ _ rest eq_refl); unfold scalar, EncodeRune; [div64|].
  do 3 (case_match; [exfalso; div64|]).
  bits. rewrite (lor_high 240 _ 3), !cont_byte by (done || div64). repeat f_equal; div64.
Qed.

(** ** Strings *)

Lemma runes_skip a bs : runes_from (List.length a) (a ++ bs) = runes_from 0 bs.
Proof. induction a as [|b a IH]; [by destruct bs|]. done. Qed.

Lemma valid_skip a bs : valid_from (List.length a) (a ++ bs) = valid_from 0 bs.
Proof. induction a as [|b a IH]; [by destruct bs|]. done. Qed.

Lemma runes_encode_cons r rest : scalar r -> runes (EncodeRune r ++ rest) = r :: runes rest.
Proof.
  intros Hr. pose proof (decode_encode r rest Hr) as Hd. pose proof (encode_size r). unfold runes.
  destruct (EncodeRune r) as [|b bs]; cbn [List.length] in *; [lia|]. cbn [app runes_from] in *. rewrite Hd. cbn.
  by rewrite runes_skip.
Qed.

Lemma valid_encode_cons r rest : scalar r -> ValidString (EncodeRune r ++ rest) = ValidString rest.
Proof.
  intros Hr. pose proof (decode_encode r rest Hr) as Hd. pose proof (encode_size r). unfold ValidString.
  destruct (EncodeRune r) as [|b bs]; cbn [List.length] in *; [lia|]. cbn [app valid_from] in *. rewrite Hd. cbn.
  by rewrite valid_skip.
Qed.

Lemma runes_encode rs : Forall scalar rs -> runes (encode rs) = rs.
Proof. induction 1 as [|r rs Hr _ IH]; [done|]. unfold encode in *. cbn. by rewrite runes_encode_cons, IH. Qed.

Lemma encode_valid rs : Forall scalar rs -> ValidString (encode rs) = true.
Proof. induction 1 as [|r rs Hr _ IH]; [done|]. unfold encode in *. cbn. by rewrite valid_encode_cons. Qed.

(** A valid string is the encoding of its runes, which are scalar values. *)
Lemma valid_runes bs : Forall octet bs -> ValidString bs = true -> encode (runes bs) = bs /\ Forall scalar (runes bs).
Proof.
  remember (List.length bs) as n eqn:En. revert bs En. induction (lt_wf n) as [n _ IH]. intros bs -> Hb Hv.
  destruct bs as [|b bs]; [done|]. assert (Hd : is_Some (decode_rune (b :: bs))).
  { unfold ValidString in Hv. cbn [valid_from] in Hv. destruct (decode_rune (b :: bs)); [by eexists|done]. }
  destruct Hd as [[r k] Hd]. destruct (decode_sound _ _ _ Hb Hd) as (Hr & -> & rest & E). rewrite E in *.
  rewrite runes_encode_cons by done. rewrite valid_encode_cons in Hv by done. apply Forall_app in Hb as [_ Hb].
  destruct (IH (List.length rest)) with (bs := rest) as [IH1 IH2]; [|done|done|done|].
  { rewrite length_app. pose proof (encode_size r). lia. }
  split; [|by constructor]. unfold encode in *. cbn. by rewrite IH1.
Qed.

(** Decoding and encoding are inverse to each other: a list of scalar values is read back
    from its encoding, and the valid strings are exactly the encodings. *)
Theorem utf8_exact :
  (forall rs, Forall scalar rs -> ValidString (encode rs) = true /\ runes (encode rs) = rs) /\
  (forall bs, Forall octet bs -> ValidString bs = true <-> exists rs, Forall scalar rs /\ bs = encode rs).
Proof.
  split; [intros rs H; split; [by apply encode_valid|by apply runes_encode]|]. intros bs Hb. split.
  - intros Hv. destruct (valid_runes bs Hb Hv). eauto.
  - intros (rs & Hr & ->). by apply encode_valid.
Qed.

Lemma runes_app a b : Forall octet a -> ValidString a = true -> runes (a ++ b) = runes a ++ runes b.
Proof.
  intros Ha Hv. destruct (valid_runes a Ha Hv) as [E Hr]. rewrite <- E at 1. clear E Ha Hv.
  induction Hr as [|r rs Hr _ IH]; [done|]. unfold encode in *. cbn. by rewrite <- app_assoc, runes_encode_cons, IH.
Qed.
