(* ===== verification/AccountStore.v ===== *)
(** * What sign-in and the cloud password keep

    The tables the account handlers use, with the statements they run: auth keys
    ([internal/store/authkeys.go]), cloud passwords ([internal/store/passwords.go]), login
    codes ([internal/store/codes.go]), the per-network failure counter
    ([internal/store/sign_in_fail.go]) and the lookups of [internal/store/users.go].
    Each statement is one step on the record below.  [history] is no field of the
    program: it remembers what was issued, consumed, bound and stored, and on what
    evidence, so that theorems can speak of it. *)

From S2P Require Import Prelude.
From S2P Require Import NetAddr.
From S2P Require Import GoStrings.
From S2P Require Import RateLimit.
From S2P Require Import Sha256.
From S2P Require Import Srp.
From S2P Require Import Challenges.
From Stdlib Require Import Ascii String.

Open Scope Z_scope.

Record UserPassword : Type := mkPw {
  Salt1 : list Z; Salt2 : list Z; Verifier : list Z;
  Hint : string; RecoveryEmail : string; HasRecovery : bool
}.

(** A row of auth_keys: [None] is NULL. *)
Record key_row : Type := mkKeyRow { user_id : option Z; pending_user_id : option Z }.

Record user_row : Type := mkUser {
  u_phone : option string; login_mode : string; first_name : string; last_name : string; u_username : option string
}.

Record code_row : Type := mkCode {
  c_phone : string; c_code : string; c_created : Z; c_expires : Z;
  c_consumed : bool; c_attempts : Z
}.

(** An invitation to register under a handle, and the election of the server's administrator
    with the sequences and the counters' rows that registering touches. *)
Inductive InviteState : Type := InviteIssued | InviteConsumed | InviteRevoked | InviteExpired.

#[global] Instance InviteState_eq_dec : EqDecision InviteState.
Proof. solve_decision. Defined.

Record invite_row : Type := mkInvite {
  in_handle : string; in_digest : list Z; in_issued : Z; in_expires : Z;
  in_state : InviteState; in_consumed : option Z; in_revoked : option Z
}.

(** The one row of [server_administration]. *)
Record administration_row : Type := mkAdministration { election_closed : bool; administrator : option Z }.

Record registry : Type := mkRegistry {
  invites : gmap Z invite_row;
  invites_id_seq : Z;
  users_id_seq : Z;
  server_administration : option administration_row;
  update_states : gset Z
}.

(** ** The history *)

(** The proof of a password: the challenge, the password row it was checked against and
    the client's two values. *)
Record proof_ev : Type := mkEv { ev_id : Z; ev_pending : Pending; ev_pw : UserPassword; ev_A : list Z; ev_M1 : list Z }.

Inductive bind_how : Type :=
| ByProof (ev : proof_ev)
| ByCode (hash : string)
| BySignUp (hash : string).

Inductive event : Type :=
| EIssued (id key : Z) (p : Pending) (at_ : Z)
| EConsumed (id key : Z) (p : Pending) (at_ : Z)
| ECodeIssued (hash phone : string)
| ECodeConsumed (hash phone : string)
| ECodeGuessed (hash : string)
| EBound (key user : Z) (how : bind_how)
| EPasswordSet (user : Z) (pw : UserPassword) (key : Z) (how : option proof_ev)
| EPasswordDeleted (user : Z) (key : Z) (how : option proof_ev)
| EUser (user : Z) (row : user_row)
| EAdmitted (user : Z) (handle hash : string) (invite : option Z).

Record auth_state : Type := mkState {
  srp : ChallengeStore;
  auth_keys : gmap Z key_row;
  user_passwords : gmap Z UserPassword;
  users : gmap Z user_row;
  usernames : gmap string (string * Z);
  phone_codes : gmap string code_row;
  rate_limits : rl_table;
  sign_in_fail_calls : gmap Prefix rl_row;
  send_code_ip_calls : gmap Prefix rl_row;
  send_code_ip_phones : gmap (Prefix * string) Z;
  history : list event;
  registration : registry
}.

Definition set_srp (v : ChallengeStore) (ev : list event) (s : auth_state) : auth_state :=
  mkState v (auth_keys s) (user_passwords s) (users s) (usernames s) (phone_codes s) (rate_limits s)
    (sign_in_fail_calls s) (send_code_ip_calls s) (send_code_ip_phones s) (ev ++ history s) (registration s).
Definition set_keys (v : gmap Z key_row) (ev : list event) (s : auth_state) : auth_state :=
  mkState (srp s) v (user_passwords s) (users s) (usernames s) (phone_codes s) (rate_limits s)
    (sign_in_fail_calls s) (send_code_ip_calls s) (send_code_ip_phones s) (ev ++ history s) (registration s).
Definition set_passwords (v : gmap Z UserPassword) (ev : list event) (s : auth_state) : auth_state :=
  mkState (srp s) (auth_keys s) v (users s) (usernames s) (phone_codes s) (rate_limits s)
    (sign_in_fail_calls s) (send_code_ip_calls s) (send_code_ip_phones s) (ev ++ history s) (registration s).
Definition set_codes (v : gmap string code_row) (ev : list event) (s : auth_state) : auth_state :=
  mkState (srp s) (auth_keys s) (user_passwords s) (users s) (usernames s) v (rate_limits s)
    (sign_in_fail_calls s) (send_code_ip_calls s) (send_code_ip_phones s) (ev ++ history s) (registration s).
Definition set_limits (v : rl_table) (s : auth_state) : auth_state :=
  mkState (srp s) (auth_keys s) (user_passwords s) (users s) (usernames s) (phone_codes s) v
    (sign_in_fail_calls s) (send_code_ip_calls s) (send_code_ip_phones s) (history s) (registration s).
Definition set_fails (v : gmap Prefix rl_row) (s : auth_state) : auth_state :=
  mkState (srp s) (auth_keys s) (user_passwords s) (users s) (usernames s) (phone_codes s) (rate_limits s)
    v (send_code_ip_calls s) (send_code_ip_phones s) (history s) (registration s).
Definition set_send (v : gmap Prefix rl_row) (w : gmap (Prefix * string) Z) (s : auth_state) : auth_state :=
  mkState (srp s) (auth_keys s) (user_passwords s) (users s) (usernames s) (phone_codes s) (rate_limits s)
    (sign_in_fail_calls s) v w (history s) (registration s).

Definition set_registry (v : registry) (s : auth_state) : auth_state :=
  mkState (srp s) (auth_keys s) (user_passwords s) (users s) (usernames s) (phone_codes s) (rate_limits s)
    (sign_in_fail_calls s) (send_code_ip_calls s) (send_code_ip_phones s) (history s) v.
Definition set_users (v : gmap Z user_row) (w : gmap string (string * Z)) (ev : list event) (s : auth_state) : auth_state :=
  mkState (srp s) (auth_keys s) (user_passwords s) v w (phone_codes s) (rate_limits s)
    (sign_in_fail_calls s) (send_code_ip_calls s) (send_code_ip_phones s) (ev ++ history s) (registration s).

(** ** Auth keys *)

Record AuthKey : Type := mkAuthKey { AK_UserID : Z; AK_PendingUserID : Z; Provisional : bool }.

Definition AuthKeyByID (s : auth_state) (id : Z) : option AuthKey :=
  match auth_keys s !! id with
  | None => None
  | Some k =>
      let provisional :=
        match user_id k with
        | Some u =>
            match users s !! u with
            | Some row => String.eqb (login_mode row) "username" && bool_decide (user_passwords s !! u = None)
            | None => false
            end
        | None => false
        end in
      Some (mkAuthKey (default 0 (user_id k)) (default 0 (pending_user_id k)) provisional)
  end.

(** A new key is unbound; saving an existing one leaves its binding alone. *)
Definition SaveAuthKey (s : auth_state) (id : Z) : auth_state :=
  match auth_keys s !! id with
  | Some _ => s
  | None => set_keys (<[id := mkKeyRow None None]> (auth_keys s)) [] s
  end.

(** [false] is [ErrAuthKeyNotFound]: no row matched. *)
Definition BindAuthKeyUser (s : auth_state) (id userID : Z) (how : bind_how) : bool * auth_state :=
  match auth_keys s !! id with
  | None => (false, s)
  | Some _ => (true, set_keys (<[id := mkKeyRow (Some userID) None]> (auth_keys s)) [EBound id userID how] s)
  end.

Definition SetPendingUser (s : auth_state) (id userID : Z) : bool * auth_state :=
  match auth_keys s !! id with
  | None => (false, s)
  | Some _ => (true, set_keys (<[id := mkKeyRow None (Some userID)]> (auth_keys s)) [] s)
  end.

Definition PromotePendingUser (s : auth_state) (id userID : Z) (how : bind_how) : bool * auth_state :=
  match auth_keys s !! id with
  | None => (false, s)
  | Some k =>
      if decide (pending_user_id k = Some userID)
      then (true, set_keys (<[id := mkKeyRow (Some userID) None]> (auth_keys s)) [EBound id userID how] s)
      else (false, s)
  end.

Definition DeleteAuthKey (s : auth_state) (id : Z) : auth_state :=
  set_keys (delete id (auth_keys s)) [] s.

(** ** Cloud passwords *)

Definition PasswordByUser (s : auth_state) (userID : Z) : option UserPassword := user_passwords s !! userID.

Definition UpsertPassword (s : auth_state) (userID : Z) (pw : UserPassword) (key : Z) (how : option proof_ev)
    : auth_state :=
  set_passwords (<[userID := pw]> (user_passwords s)) [EPasswordSet userID pw key how] s.

Definition DeletePassword (s : auth_state) (userID key : Z) (how : option proof_ev) : bool * auth_state :=
  (bool_decide (is_Some (user_passwords s !! userID)),
   set_passwords (delete userID (user_passwords s)) [EPasswordDeleted userID key how] s).

(** ** Users *)

Definition NormalizePhone (phone : string) : string := TrimPrefix phone "+".

Definition UserByID (s : auth_state) (id : Z) : bool := bool_decide (is_Some (users s !! id)).

Definition UserByPhone (s : auth_state) (phone : string) : option Z :=
  fst <$> find (fun iu : Z * user_row => bool_decide (u_phone iu.2 = Some (NormalizePhone phone)))
            (map_to_list (users s)).

(** [None] when the user does not exist. *)
Definition UserLoginMode (s : auth_state) (id : Z) : option string := login_mode <$> users s !! id.

Definition UserByUsernameWithLoginMode (s : auth_state) (handle : string) : option (Z * string) :=
  match usernames s !! handle with
  | Some (owner_type, owner) =>
      if String.eqb owner_type "user" then (fun u => (owner, login_mode u)) <$> users s !! owner else None
  | None => None
  end.

(** ** Login codes *)

Definition codeTTL : Z := 5 * minute.
Definition maxAttempts : Z := 3.
Definition resendCooldown : Z := 60 * second.

Definition nat_digit (n : Z) : ascii := ascii_of_nat (48 + Z.to_nat n).
Definition hex_digit (n : Z) : ascii := ascii_of_nat (Z.to_nat (if n <? 10 then 48 + n else 87 + n)).

Fixpoint string_of (l : list ascii) : string :=
  match l with [] => EmptyString | c :: l' => String c (string_of l') end.

(** [randDigits5] and [randHex] on the bytes drawn. *)
Definition randDigits5 (b : list Z) : string := string_of (map (fun v => nat_digit (v mod 10)) b).
Definition randHex (b : list Z) : string :=
  string_of (flat_map (fun v => [hex_digit (v / 16); hex_digit (v mod 16)]) b).

Definition GetCodeByHash (s : auth_state) (hash : string) : option code_row := phone_codes s !! hash.

Definition GetCodeByHashAndPhone (s : auth_state) (hash phone : string) : option code_row :=
  match phone_codes s !! hash with
  | Some row => if String.eqb (c_phone row) phone then Some row else None
  | None => None
  end.

(** The most recently created row of the phone. *)
Definition GetLatestCode (s : auth_state) (phone : string) : option code_row :=
  foldl (fun best row =>
           match best with
           | Some b => if c_created b <? c_created row then Some row else best
           | None => Some row
           end) None
    (filter (fun row => c_phone row = phone) (snd <$> map_to_list (phone_codes s))).

(** [code_hash] is the key of the table: a second row under it is an error. *)
Definition InsertCode (s : auth_state) (phone hash code : string) (expires now : Z) : option auth_state :=
  match phone_codes s !! hash with
  | Some _ => None
  | None => Some (set_codes (<[hash := mkCode phone code now expires false 0]> (phone_codes s))
                     [ECodeIssued hash phone] s)
  end.

Definition IncrementCodeAttempts (s : auth_state) (hash : string) : auth_state :=
  match phone_codes s !! hash with
  | Some r =>
      set_codes (<[hash := mkCode (c_phone r) (c_code r) (c_created r) (c_expires r) (c_consumed r)
                             (c_attempts r + 1)]> (phone_codes s)) [ECodeGuessed hash] s
  | None => s
  end.

(** The compare-and-swap; [now] is the database clock. *)
Definition ConsumeCode (s : auth_state) (phone hash code : string) (attempts now : Z) : bool * auth_state :=
  match phone_codes s !! hash with
  | Some r =>
      if String.eqb (c_phone r) phone && String.eqb (c_code r) code && negb (c_consumed r) &&
         (now <=? c_expires r) && (c_attempts r <? attempts)
      then (true, set_codes (<[hash := mkCode (c_phone r) (c_code r) (c_created r) (c_expires r) true
                                         (c_attempts r)]> (phone_codes s)) [ECodeConsumed hash phone] s)
      else (false, s)
  | None => (false, s)
  end.

(** The code of a name to register is spent and cleared. *)
Definition ConsumeCodeForUsername (s : auth_state) (phone hash : string) (now : Z) : bool * auth_state :=
  match phone_codes s !! hash with
  | Some r =>
      if String.eqb (c_phone r) phone && negb (c_consumed r) && (now <=? c_expires r) && (c_attempts r <? 3) &&
         negb (String.eqb (c_code r) EmptyString)
      then (true, set_codes (<[hash := mkCode (c_phone r) EmptyString (c_created r) (c_expires r) true
                                         (c_attempts r)]> (phone_codes s)) [ECodeConsumed hash phone] s)
      else (false, s)
  | None => (false, s)
  end.

Definition is_code5 (c : string) : bool :=
  (String.length c =? 5)%nat && str_all is_digit c.

Definition SetCodeByHashAndPhone (s : auth_state) (hash phone code : string) (now : Z) : bool * auth_state :=
  match phone_codes s !! hash with
  | Some r =>
      if String.eqb (c_phone r) phone && negb (c_consumed r) && (now <=? c_expires r) && (c_attempts r <? 3) &&
         is_code5 (c_code r) && negb (is_code5 code)
      then (true, set_codes (<[hash := mkCode (c_phone r) code (c_created r) (c_expires r) (c_consumed r)
                                         (c_attempts r)]> (phone_codes s)) [] s)
      else (false, s)
  | None => (false, s)
  end.

Definition DeleteExpiredCodes (s : auth_state) (now : Z) : auth_state :=
  set_codes (filter (fun hr => now <= c_expires hr.2) (phone_codes s)) [] s.

(** What a code operation refuses with. *)
Inductive code_err : Type := ErrCodeInvalid | ErrCodeExpired | ErrCodeExhausted | ErrResendTooSoon | ErrStore.

(** The checks of [verifyCodeWith] before it writes; [clock] is the process's. *)
Inductive code_plan : Type :=
| CodeRefuse (e : code_err)
| CodeCharge
| CodeConsume.

Definition verify_plan (row : option code_row) (phone hash code : string) (clock : Z) : code_plan :=
  match row with
  | None => CodeRefuse ErrCodeInvalid
  | Some r =>
      if negb (String.eqb (NormalizePhone phone) (c_phone r)) then CodeRefuse ErrCodeInvalid
      else if c_consumed r then CodeRefuse ErrCodeInvalid
      else if clock >? pg_time (c_expires r) then CodeRefuse ErrCodeExpired
      else if c_attempts r >=? maxAttempts then CodeRefuse ErrCodeExhausted
      else if negb (String.eqb code (c_code r)) then CodeCharge
      else CodeConsume
  end.

(** The write of [verifyCodeWith]. *)
Definition verify_write (p : code_plan) (phone hash code : string) (now : Z) (s : auth_state)
    : option code_err * auth_state :=
  match p with
  | CodeRefuse e => (Some e, s)
  | CodeCharge => (Some ErrCodeInvalid, IncrementCodeAttempts s hash)
  | CodeConsume =>
      let '(ok, s') := ConsumeCode s (NormalizePhone phone) hash code maxAttempts now in
      (if ok then None else Some ErrCodeInvalid, s')
  end.

Definition validateCodeHash (r : code_row) (clock : Z) : option code_err :=
  if c_consumed r then Some ErrCodeInvalid
  else if String.eqb (c_code r) EmptyString then Some ErrCodeInvalid
  else if clock >? pg_time (c_expires r) then Some ErrCodeExpired
  else if c_attempts r >=? maxAttempts then Some ErrCodeExhausted
  else None.

Definition CheckCodeHash (s : auth_state) (phone hash : string) (clock : Z) : option code_err :=
  match GetCodeByHashAndPhone s hash (NormalizePhone phone) with
  | None => Some ErrCodeInvalid
  | Some row => validateCodeHash row clock
  end.

(** [IssueCode], serialised per phone by its advisory lock, and [IssueCodeForUsername]; the
    two draws are the code's and the hash's bytes, the expiry a timestamp in
    microseconds. *)
Definition insert_drawn (s : auth_state) (phone : string) (bcode bhash : option (list Z)) (now clock : Z)
    : (string * string + code_err) * auth_state :=
  match bcode, bhash with
  | Some bc, Some bh =>
      match InsertCode s phone (randHex bh) (randDigits5 bc) ((clock + codeTTL) / 1000) now with
      | Some s' => (inl (randHex bh, randDigits5 bc), s')
      | None => (inr ErrStore, s)
      end
  | _, _ => (inr ErrStore, s)
  end.

Definition IssueCode (s : auth_state) (phone : string) (bcode bhash : option (list Z)) (now clock : Z)
    : (string * string + code_err) * auth_state :=
  let phone := NormalizePhone phone in
  match GetLatestCode s phone with
  | Some existing =>
      if negb (c_consumed existing) && (time_sub clock (pg_time (c_created existing)) <? resendCooldown)
      then (inr ErrResendTooSoon, s)
      else insert_drawn s phone bcode bhash now clock
  | None => insert_drawn s phone bcode bhash now clock
  end.

Definition IssueCodeForUsername (s : auth_state) (username : string) (bcode bhash : option (list Z)) (now clock : Z)
    : (string * string + code_err) * auth_state :=
  insert_drawn s username bcode bhash now clock.

Definition SetCodeForUsername (s : auth_state) (username hash code : string) (now : Z)
    : option code_err * auth_state :=
  let '(ok, s') := SetCodeByHashAndPhone s hash (NormalizePhone username) code now in
  (if ok then None else Some ErrCodeInvalid, s').

(** ** The failure counter of a network *)

Definition ChargeSignInFailCall (t : gmap Prefix rl_row) (k : Prefix) (window limit now : Z)
    : bool * gmap Prefix rl_row :=
  match t !! k with
  | None => (true, <[k := mkRow 1 now (now + window)]> t)
  | Some r0 =>
      if expires_at r0 <=? now then (true, <[k := mkRow 1 now (now + window)]> t)
      else if token_count r0 <? limit
      then (true, <[k := mkRow (token_count r0 + 1) (window_start r0) (expires_at r0)]> t)
      else (false, t)
  end.

Definition fail_budget (t : gmap Prefix rl_row) (k : Prefix) (limit clock : Z) : option Z :=
  match t !! k with
  | Some r =>
      if (pg_time (expires_at r) >? clock) && (token_count r >=? limit)
      then Some (waitUntil clock (pg_time (expires_at r))) else None
  | None => None
  end.

(** ** The two counters of auth.sendCode *)

Record SendCodeIPLimits : Type := mkSendLimits { Calls : RateLimitConfig; Phones : RateLimitConfig }.

Definition SendCodeIPLimits_Enabled (l : SendCodeIPLimits) : bool := Enabled (Calls l) || Enabled (Phones l).

Inductive send_surface : Type := SendCodeIPCalls | SendCodeIPDistinctNumbers.

(** The same upsert on its own table. *)
Definition TryConsumeSendCodeIPCall : gmap Prefix rl_row -> Prefix -> Z -> Z -> Z -> bool * gmap Prefix rl_row :=
  ChargeSignInFailCall.

(** [chargeSendCodeIPCall]: the wait of a refusal, or the table with the call charged. *)
Definition chargeSendCodeIPCall (t : gmap Prefix rl_row) (key : Prefix) (cfg : RateLimitConfig) (now clock : Z)
    : Z + gmap Prefix rl_row :=
  if negb (Enabled cfg) then inr t
  else
    match t !! key with
    | Some r0 =>
        match TryConsumeSendCodeIPCall t key (window_us cfg) (Limit cfg) now with
        | (true, t') => inr t'
        | (false, _) => inl (waitUntil clock (pg_time (expires_at r0)))
        end
    | None => inr (TryConsumeSendCodeIPCall t key (window_us cfg) (Limit cfg) now).2
    end.

(** The numbers a network holds, with their deadlines. *)
Definition phone_rows (w : gmap (Prefix * string) Z) (key : Prefix) : list ((Prefix * string) * Z) :=
  filter (fun kp => kp.1.1 = key) (map_to_list w).

Definition prune_phones (w : gmap (Prefix * string) Z) (key : Prefix) (now : Z) : gmap (Prefix * string) Z :=
  filter (fun kp => kp.1.1 <> key \/ now < kp.2) w.

Definition next_expiry (rows : list ((Prefix * string) * Z)) : option Z :=
  foldr (fun kp m => Some (match m with Some t => Z.min kp.2 t | None => kp.2 end)) None rows.

(** [chargeSendCodeIPPhone]: prune, then a number already held is free, a full quota
    refuses until the oldest number frees its slot. *)
Definition chargeSendCodeIPPhone (w : gmap (Prefix * string) Z) (key : Prefix) (phone : string)
    (cfg : RateLimitConfig) (now clock : Z) : Z + gmap (Prefix * string) Z :=
  if negb (Enabled cfg) then inr w
  else
    let w := prune_phones w key now in
    match w !! (key, phone) with
    | Some _ => inr w
    | None =>
        if len (phone_rows w key) >=? Limit cfg
        then inl (waitUntil clock (pg_time (default 0 (next_expiry (phone_rows w key)))))
        else inr (<[(key, phone) := now + window_us cfg]> w)
    end.

(** [CheckAndChargeSendCodeIP]: [None] when the connection has no address.  Both counters
    are charged in one transaction, serialised per network by its advisory lock, and a
    refusal of either rolls it back. *)
Definition CheckAndChargeSendCodeIP (s : auth_state) (addr : Addr) (phone : string) (cfg : SendCodeIPLimits)
    (now clock : Z) : option (option (Z * send_surface)) * auth_state :=
  if negb (SendCodeIPLimits_Enabled cfg) then (Some None, s)
  else
    match IPBucketKey addr with
    | None => (None, s)
    | Some key =>
        match chargeSendCodeIPCall (send_code_ip_calls s) key (Calls cfg) now clock with
        | inl wait => (Some (Some (wait, SendCodeIPCalls)), s)
        | inr t =>
            match chargeSendCodeIPPhone (send_code_ip_phones s) key (NormalizePhone phone) (Phones cfg) now clock with
            | inl wait => (Some (Some (wait, SendCodeIPDistinctNumbers)), s)
            | inr w => (Some None, set_send t w s)
            end
        end
    end.

Definition SweepExpiredSendCodeIPLimits (s : auth_state) (now : Z) : auth_state :=
  set_send (filter (fun kr => now < expires_at kr.2) (send_code_ip_calls s))
    (filter (fun kp => now < kp.2) (send_code_ip_phones s)) s.

(** ** Signing in *)

(** The part of [AttemptSignIn]'s transaction from the code's write to the commit: the
    rows it writes stay locked from statement to commit, so it is one step, and a
    refused charge rolls it back. *)
Definition attempt_commit (s : auth_state) (key : Prefix) (p : code_plan) (phone hash code : string)
    (cfg : RateLimitConfig) (now : Z) : option code_err * auth_state :=
  let charge (e : code_err) (s' : auth_state) :=
    match ChargeSignInFailCall (sign_in_fail_calls s') key (window_us cfg) (Limit cfg) now with
    | (true, t) => (Some e, set_fails t s')
    | (false, _) => (Some ErrStore, s)
    end in
  match verify_write p phone hash code now s with
  | (Some e, s') => charge e s'
  | (None, s') =>
      match UserByPhone s' phone with
      | Some _ => (None, s')
      | None => charge ErrCodeInvalid s'
      end
  end.

Definition SweepExpiredSignInFailCalls (s : auth_state) (now : Z) : auth_state :=
  set_fails (filter (fun kr => now < expires_at kr.2) (sign_in_fail_calls s)) s.
