(* ===== verification/Account.v ===== *)
(** * The account handlers

    [internal/api/auth.go] (sendCode, signIn, logOut), [internal/api/passwords.go] (the four
    cloud-password methods) and the per-network limits of [internal/api/handler.go], as
    programs of atomic steps: a call of the store is a step that may find the store
    failing, before or after it took effect; an operation of the challenge store is a
    step that does not fail. *)

From S2P Require Import Prelude.
From S2P Require Import NetAddr.
From S2P Require Import GoStrings.
From S2P Require Import RateLimit.
From S2P Require Import Sha256.
From S2P Require Import Srp.
From S2P Require Import Challenges.
From S2P Require Import Threads.
From S2P Require Import Limits.
From S2P Require Import AccountStore.
From Stdlib Require Import Ascii String.

Open Scope Z_scope.

(** ** Requests, replies, the environment of a step *)

Record password_info : Type := mkInfo {
  new_salts : list Z * list Z; secure_random : list Z;
  current : option (list Z * list Z * list Z * Z * string * bool)
}.

Inductive reply : Type :=
| RError (e : rpc_error)
| RSentCode (hash : string)
| RAuthorization (user : Z)
| RSignUpRequired
| RLoggedOut
| RPassword (p : password_info)
| RBoolTrue
| RPasswordSettings (email : option string).

(** What a handler leaves: its reply, whether it marked the connection as waiting for a
    password, and the eviction to announce once the reply is on the wire. *)
Record outcome : Type := mkOut { out_reply : reply; out_mark : bool; out_evict : option (Z * Z) }.

Definition reply_of (r : reply) : outcome := mkOut r false None.

Record env : Type := mkEnv {
  e_fault : fault;
  e_clock : Z;
  e_clock' : Z;
  e_now : Z;
  e_rand : nat -> option (list Z);
  e_draws : nat -> option (list Z);
  e_between : rl_table -> rl_table
}.

#[global] Instance account_limited : Limited auth_state env := {
  limits := rate_limits;
  with_limits := set_limits;
  lim_fault := e_fault;
  lim_now := e_now;
  lim_clock := e_clock;
  lim_between := e_between
}.

Notation account_prog := (prog auth_state env outcome).

Definition call {A : Type} (op : env -> auth_state -> A * auth_state) (k : option A -> account_prog) : account_prog :=
  store_call e_fault op k.

Definition mem {A : Type} (op : env -> auth_state -> A * auth_state) (k : A -> account_prog) : account_prog :=
  mem_call op k.

#[global] Arguments call : simpl never.
#[global] Arguments mem : simpl never.

Definition query {A : Type} (op : auth_state -> A) (k : option A -> account_prog) : account_prog :=
  call (fun _ s => (op s, s)) k.

Definition fail_with (e : rpc_error) : account_prog := Ret (reply_of (RError e)).

Definition randBytes (n : nat) (k : option (list Z) -> account_prog) : account_prog :=
  mem (fun e s => (e_rand e n, s)) k.

(** ** The limits *)

Definition hex16 (n : Z) : string :=
  let ds := [Z.shiftr n 12; Z.shiftr n 8; Z.shiftr n 4; n] in
  let ds := map (fun d => Z.land d 15) ds in
  string_of (map hex_digit (match ds with
                            | [a; b; c; d] => if a =? 0 then if b =? 0 then if c =? 0 then [d] else [c; d]
                                                             else [b; c; d] else [a; b; c; d]
                            | _ => ds end)).

Fixpoint join_colon (l : list string) : string :=
  match l with
  | [] => EmptyString
  | [x] => x
  | x :: l' => x +:+ ":" +:+ join_colon l'
  end.

(** The zero groups [netip] writes as "::": the first longest run of at least two. *)
Fixpoint zero_run (l : list Z) : nat :=
  match l with x :: l' => if x =? 0 then S (zero_run l') else O | [] => O end.

Definition longest_run (l : list Z) : nat * nat :=
  foldl (fun best i =>
           let r := zero_run (drop i l) in
           if (2 <=? r)%nat && (best.2 <? r)%nat then (i, r) else best) (0%nat, 0%nat) (seq 0 8).

(** [netip.Prefix.String]. *)
Definition Prefix_String (p : Prefix) : string :=
  let a := pfx_addr p in
  (if pfx_v6 p then
     let g := map (fun i => Z.land (Z.shiftr a (16 * (7 - Z.of_nat i))) 65535) (seq 0 8) in
     let '(i, r) := longest_run g in
     if (r =? 0)%nat then join_colon (map hex16 g)
     else join_colon (map hex16 (take i g)) +:+ "::" +:+ join_colon (map hex16 (drop (i + r) g))
   else
     FormatInt (Z.land (Z.shiftr a 24) 255) +:+ "." +:+ FormatInt (Z.land (Z.shiftr a 16) 255) +:+ "." +:+
     FormatInt (Z.land (Z.shiftr a 8) 255) +:+ "." +:+ FormatInt (Z.land a 255))
  +:+ "/" +:+ FormatInt (pfx_bits p).

Fixpoint fnv1a64_loop (h : Z) (s : string) : Z :=
  match s with
  | EmptyString => h
  | String c s' => fnv1a64_loop (wrap_u64 (Z.lxor h (Z.of_nat (nat_of_ascii c)) * 1099511628211)) s'
  end.

Definition fnv1a64 (s : string) : Z := fnv1a64_loop 14695981039346656037 s.

Definition keyToSubjectID (key : Prefix) : Z := wrap_s64 (fnv1a64 (Prefix_String key)).

Definition checkAndChargeRateLimitIP (r : Request) (surface : string) (cfg : RateLimitConfig)
    (k : option rpc_error -> account_prog) : account_prog :=
  if negb (Enabled cfg) then k None
  else
    match IPBucketKey (ClientAddr r) with
    | None => k (Some (FloodWaitError (wait_seconds (Window cfg))))
    | Some key => call (charge_limit (keyToSubjectID key) surface cfg) (fun a => limit_answer a k)
    end.

Definition reserve_limit (subject : Z) (surface : string) (cfg : RateLimitConfig) (e : env) (s : auth_state)
    : (rl_answer * option Z) * auth_state :=
  let '(a, res, t) := ReserveRateLimit (rate_limits s) (e_between e) (subject, surface) cfg (e_now e) (e_clock e) in
  ((a, res), set_limits t s).

Definition refund_limit (subject : Z) (surface : string) (res : option Z) (e : env) (s : auth_state)
    : unit * auth_state :=
  (tt, set_limits (RefundRateLimit (rate_limits s) (subject, surface) res) s).

(** [reserveRateLimitIP]: a reservation, or the error the handler answers (a bare error of
    the store goes out as INTERNAL). *)
Definition reserveRateLimitIP (r : Request) (surface : string) (cfg : RateLimitConfig)
    (k : option Z + rpc_error -> account_prog) : account_prog :=
  if negb (Enabled cfg) then k (inl None)
  else
    match IPBucketKey (ClientAddr r) with
    | None => k (inr (FloodWaitError (wait_seconds (Window cfg))))
    | Some key =>
        call (reserve_limit (keyToSubjectID key) surface cfg) (fun a =>
          match a with
          | None | Some (RLFailed, _) => k (inr errInternal)
          | Some (RLAllowed, res) => k (inl res)
          | Some (RLDenied wait, _) => k (inr (FloodWaitError (wait_seconds wait)))
          end)
    end.

(** [refundRateLimitIP]; [false] is an error. *)
Definition refundRateLimitIP (r : Request) (surface : string) (res : option Z) (k : bool -> account_prog)
    : account_prog :=
  match res with
  | None => k true
  | Some _ =>
      match IPBucketKey (ClientAddr r) with
      | None => k true
      | Some key =>
          call (refund_limit (keyToSubjectID key) surface res) (fun a => k (bool_decide (is_Some a)))
      end
  end.

(** ** Passwords *)

Definition saltLen : nat := 32.

(** The handlers' configured limits. *)
Record limits : Type := mkLimits {
  rateLimitGetPassword : RateLimitConfig;
  rateLimitGetPasswordIP : RateLimitConfig;
  rateLimitCheckPassword : RateLimitConfig;
  rateLimitCheckPasswordIP : RateLimitConfig;
  rateLimitPasswordProof : RateLimitConfig;
  rateLimitSignInFailIP : RateLimitConfig;
  rateLimitSendCodeIP : SendCodeIPLimits;
  rateLimitSignUpIP : RateLimitConfig;
  registrationMode : string
}.

Section handlers.
Context (lim : limits).

Definition resolvePasswordUser (r : Request) (k : Z + rpc_error -> account_prog) : account_prog :=
  if negb (r_UserID r =? 0) then k (inl (r_UserID r))
  else
    query (fun s => AuthKeyByID s (AuthKeyID r)) (fun key =>
      match key with
      | None => k (inr errInternal)
      | Some None => k (inr errAuthKeyUnreg)
      | Some (Some key) =>
          if AK_PendingUserID key =? 0 then k (inr errAuthKeyUnreg) else k (inl (AK_PendingUserID key))
      end).

(** [srp.Issue] under its mutex. *)
Definition issue_step (key user : Z) (verifier : list Z) (e : env) (s : auth_state)
    : option (Z * list Z) * auth_state :=
  let '(a, c) := Issue (srp s) key user verifier (e_rand e PadLen) (e_draws e) (e_clock e) (e_clock' e) in
  (a, set_srp c (match a with
                 | Some (id, _) =>
                     match entries c !! id with
                     | Some x => [EIssued id key (pending x) (e_clock' e)]
                     | None => []
                     end
                 | None => []
                 end) s).

Definition issue_and_answer (r : Request) (target : Z) (pw : option UserPassword) (s1 s2 rnd : list Z) : account_prog :=
  match pw with
  | None => Ret (reply_of (RPassword (mkInfo (s1, s2) rnd None)))
  | Some pw =>
      mem (issue_step (AuthKeyID r) target (Verifier pw)) (fun a =>
        match a with
        | None => fail_with errInternal
        | Some (srpID, srpB) =>
            Ret (reply_of (RPassword (mkInfo (s1, s2) rnd
              (Some (Salt1 pw, Salt2 pw, srpB, srpID, Hint pw, HasRecovery pw)))))
        end)
  end.

Definition draw_and_answer (r : Request) (target : Z) (pw : option UserPassword) : account_prog :=
  randBytes saltLen (fun s1 =>
  match s1 with None => fail_with errInternal | Some s1 =>
  randBytes saltLen (fun s2 =>
  match s2 with None => fail_with errInternal | Some s2 =>
  randBytes 256 (fun rnd =>
  match rnd with None => fail_with errInternal | Some rnd =>
    issue_and_answer r target pw s1 s2 rnd
  end) end) end).

Definition handleGetPassword (r : Request) : account_prog :=
  resolvePasswordUser r (fun t =>
  match t with inr e => fail_with e | inl target =>
  query (fun s => PasswordByUser s target) (fun pw =>
  match pw with None => fail_with errInternal | Some pw =>
  let hasPw := bool_decide (is_Some pw) in
  let after_ip (e : option rpc_error) :=
    match e with Some e => fail_with e | None =>
    if negb (r_UserID r =? 0) && hasPw then
      checkRateLimit r "get_password" (rateLimitGetPassword lim) (fun e =>
        match e with Some e => fail_with e | None => draw_and_answer r target pw end)
    else draw_and_answer r target pw
    end in
  if (r_UserID r =? 0) && hasPw
  then checkAndChargeRateLimitIP r "get_password_ip" (rateLimitGetPasswordIP lim) after_ip
  else after_ip None
  end) end).

(** The client's proof: [InputCheckPasswordSRP]; [None] is any other constructor. *)
Record srp_proof : Type := mkSrpProof { SRPID : Z; pr_A : list Z; pr_M1 : list Z }.

Definition consume_step (id key : Z) (e : env) (s : auth_state) : option Pending * auth_state :=
  let '(a, c) := Consume (srp s) id key (e_clock e) in
  (a, set_srp c (match a with Some p => [EConsumed id key p (e_clock e)] | None => [] end) s).

Definition consumeAndVerify (authKeyID : Z) (proof : srp_proof) (k : proof_ev + rpc_error -> account_prog)
    : account_prog :=
  mem (consume_step (SRPID proof) authKeyID) (fun p =>
  match p with None => k (inr errSRPIDInvalid) | Some p =>
  query (fun s => PasswordByUser s (P_UserID p)) (fun pw =>
  match pw with
  | None => k (inr errInternal)
  | Some None => k (inr errPasswordHashInvalid)
  | Some (Some pw) =>
      if negb (Verify (Verifier pw) (Salt1 pw) (Salt2 pw) (pr_A proof) (pr_M1 proof) (BPublic p) (BSecret p))
      then k (inr errPasswordHashInvalid)
      else k (inl (mkEv (SRPID proof) p pw (pr_A proof) (pr_M1 proof)))
  end) end).

(** The user a verified proof speaks for. *)
Definition ev_user (ev : proof_ev) : Z := P_UserID (ev_pending ev).

Definition consumeAndVerifyWithRateLimit (authKeyID : Z) (proof : srp_proof) (userID : Z)
    (k : proof_ev + rpc_error -> account_prog) : account_prog :=
  call (reserve_limit userID "password_proof" (rateLimitPasswordProof lim)) (fun a =>
  match a with
  | None | Some (RLFailed, _) => k (inr errInternal)
  | Some (RLDenied wait, _) => k (inr (FloodWaitError (wait_seconds wait)))
  | Some (RLAllowed, reserve) =>
      consumeAndVerify authKeyID proof (fun v =>
      match v with inr e => k (inr e) | inl ev =>
      if negb (ev_user ev =? userID) then k (inr errPasswordHashInvalid)
      else
        (match reserve with
         | None => k (inl ev)
         | Some _ => call (refund_limit userID "password_proof" reserve) (fun _ => k (inl ev))
         end)
      end)
  end).

Definition resolvePendingUserID (r : Request) (k : Z + rpc_error -> account_prog) : account_prog :=
  if negb (r_UserID r =? 0) then k (inl (r_UserID r))
  else
    query (fun s => AuthKeyByID s (AuthKeyID r)) (fun key =>
      match key with
      | None => k (inr errInternal)
      | Some None => k (inr errAuthKeyUnreg)
      | Some (Some key) =>
          if AK_PendingUserID key =? 0 then k (inr errAuthKeyUnreg) else k (inl (AK_PendingUserID key))
      end).

(** The account's token of [handleCheckPassword] given back; no call without one. *)
Definition refund_account (user : Z) (res : option Z) (k : option unit -> account_prog) : account_prog :=
  match res with
  | None => k (Some tt)
  | Some _ => call (refund_limit user "check_password" res) k
  end.

Definition answer_user (uid : Z) : account_prog :=
  query (fun s => UserByID s uid) (fun f =>
    match f with Some true => Ret (reply_of (RAuthorization uid)) | _ => fail_with errInternal end).

Definition promote_and_answer (r : Request) (ev : proof_ev) : account_prog :=
  let userID := ev_user ev in
  call (fun _ s => PromotePendingUser s (AuthKeyID r) userID (ByProof ev)) (fun ok =>
  match ok with
  | None => fail_with errInternal
  | Some true => answer_user userID
  | Some false =>
      query (fun s => AuthKeyByID s (AuthKeyID r)) (fun key =>
        match key with
        | None => fail_with errInternal
        | Some None => fail_with errPasswordHashInvalid
        | Some (Some key) =>
            if negb (AK_UserID key =? userID) then fail_with errPasswordHashInvalid else answer_user userID
        end)
  end).

Definition handleCheckPassword (r : Request) (password : option srp_proof) : account_prog :=
  match password with None => fail_with errPasswordHashInvalid | Some proof =>
  resolvePendingUserID r (fun t =>
  match t with inr e => fail_with e | inl pendingUserID =>
  call (reserve_limit pendingUserID "check_password" (rateLimitCheckPassword lim)) (fun a =>
  match a with
  | None | Some (RLFailed, _) => fail_with errInternal
  | Some (RLDenied wait, _) => fail_with (FloodWaitError (wait_seconds wait))
  | Some (RLAllowed, accountReserve) =>
  reserveRateLimitIP r "check_password_ip" (rateLimitCheckPasswordIP lim) (fun i =>
  match i with
  | inr e => refund_account pendingUserID accountReserve (fun _ => fail_with e)
  | inl ipReserve =>
  consumeAndVerify (AuthKeyID r) proof (fun v =>
  match v with inr e => fail_with e | inl ev =>
  refund_account pendingUserID accountReserve (fun ok =>
  match ok with None => fail_with errInternal | Some _ =>
  refundRateLimitIP r "check_password_ip" ipReserve (fun ok =>
  if negb ok then fail_with errInternal else promote_and_answer r ev)
  end) end) end) end) end) end.

Inductive new_algo : Type :=
| AlgoUnknown
| AlgoSRP (salt1 salt2 : list Z)
| AlgoOther.

Record new_settings : Type := mkSettings {
  NewAlgo : new_algo; NewPasswordHash : list Z; ns_Hint : string; ns_Email : string
}.

(** The last part of [handleUpdatePasswordSettings]: [how] is the proof of the current
    password, [None] when there was none to prove. *)
Definition apply_settings (r : Request) (ns : new_settings) (how : option proof_ev) : account_prog :=
  match NewAlgo ns with
  | AlgoUnknown =>
      call (fun _ s => DeletePassword s (r_UserID r) (AuthKeyID r) how) (fun a =>
        match a with None => fail_with errInternal | Some _ => Ret (reply_of RBoolTrue) end)
  | AlgoSRP salt1 salt2 =>
      if Nat.eqb (Datatypes.length salt1) 0 || Nat.eqb (Datatypes.length salt2) 0 then fail_with errNewSaltInvalid
      else if negb (Nat.eqb (Datatypes.length (NewPasswordHash ns)) PadLen) || negb (ValidVerifier (NewPasswordHash ns))
      then fail_with errNewPasswordBad
      else
        call (fun _ s => (tt, UpsertPassword s (r_UserID r)
                (mkPw salt1 salt2 (NewPasswordHash ns) (ns_Hint ns) (ns_Email ns)
                   (negb (String.eqb (ns_Email ns) EmptyString))) (AuthKeyID r) how)) (fun a =>
          match a with None => fail_with errInternal | Some _ => Ret (reply_of RBoolTrue) end)
  | AlgoOther => Ret (reply_of RBoolTrue)
  end.

Definition prove_and_apply (r : Request) (password : option srp_proof) (ns : new_settings) (hasCur : bool)
    : account_prog :=
  if hasCur then
    match password with None => fail_with errPasswordHashInvalid | Some proof =>
    consumeAndVerifyWithRateLimit (AuthKeyID r) proof (r_UserID r) (fun v =>
    match v with inr e => fail_with e | inl ev =>
    if negb (ev_user ev =? r_UserID r) then fail_with errPasswordHashInvalid
    else apply_settings r ns (Some ev)
    end) end
  else apply_settings r ns None.

Definition handleUpdatePasswordSettings (r : Request) (password : option srp_proof) (ns : new_settings)
    : account_prog :=
  if r_UserID r =? 0 then fail_with errAuthKeyUnreg
  else
    query (fun s => PasswordByUser s (r_UserID r)) (fun cur =>
    match cur with None => fail_with errInternal | Some cur =>
    let hasCur := bool_decide (is_Some cur) in
    match NewAlgo ns with
    | AlgoUnknown =>
        query (fun s => UserLoginMode s (r_UserID r)) (fun m =>
          match m with
          | None | Some None => fail_with errInternal
          | Some (Some mode) =>
              if String.eqb mode "username" then fail_with errPasswordCannotBeRemoved
              else prove_and_apply r password ns hasCur
          end)
    | _ => prove_and_apply r password ns hasCur
    end end).

Definition handleGetPasswordSettings (r : Request) (password : option srp_proof) : account_prog :=
  if r_UserID r =? 0 then fail_with errAuthKeyUnreg
  else
    match password with None => fail_with errPasswordHashInvalid | Some proof =>
    consumeAndVerifyWithRateLimit (AuthKeyID r) proof (r_UserID r) (fun v =>
    match v with inr e => fail_with e | inl ev =>
    if negb (ev_user ev =? r_UserID r) then fail_with errPasswordHashInvalid
    else
      query (fun s => PasswordByUser s (r_UserID r)) (fun pw =>
        match pw with
        | None => fail_with errInternal
        | Some (Some pw) => Ret (reply_of (RPasswordSettings (if HasRecovery pw then Some (RecoveryEmail pw) else None)))
        | Some None => Ret (reply_of (RPasswordSettings None))
        end)
    end) end.

(** ** Sign-in *)

Definition is_letter (c : ascii) : bool :=
  let n := Z.of_nat (nat_of_ascii c) in
  ((65 <=? n) && (n <=? 90)) || ((97 <=? n) && (n <=? 122)).

(** [phoneRE] and [usernameRE]. *)
Definition validatePhone (phone : string) : bool :=
  let digits := NormalizePhone phone in
  str_all is_digit digits && (5 <=? str_len digits) && (str_len digits <=? 15).

Definition validateUsername (u : string) : bool :=
  match u with
  | EmptyString => false
  | String c rest =>
      is_letter c && str_all (fun c => is_letter c || is_digit c || Ascii.eqb c "_") rest &&
      (1 <=? str_len rest) && (str_len rest <=? 31)
  end.

Definition maxPhoneCodeBytes : Z := 256.

(** [utf8.RuneStart]. *)
Definition RuneStart (c : ascii) : bool := negb (Z.land (Z.of_nat (nat_of_ascii c)) 192 =? 128).

Fixpoint cap_loop (end_ : nat) (code : string) : nat :=
  match end_ with
  | O => O
  | S e' =>
      match String.get end_ code with
      | Some c => if RuneStart c then end_ else cap_loop e' code
      | None => end_
      end
  end.

Definition capPhoneCode (code : string) : string :=
  if str_len code <=? maxPhoneCodeBytes then code
  else String.substring 0 (cap_loop (Z.to_nat maxPhoneCodeBytes) code) code.

Definition isGeneratedCode (code : string) : bool := (str_len code =? 5) && str_all is_digit code.

Definition verifyToRPC (e : code_err) : rpc_error :=
  match e with
  | ErrCodeInvalid | ErrCodeExhausted => errCodeInvalid
  | ErrCodeExpired => errCodeExpired
  | ErrResendTooSoon | ErrStore => errInternal
  end.

(** *** auth.sendCode *)

(** [sendCodeIPRetry]: the shortest enabled window, at least a second. *)
Definition sendCodeIPRetry : Z :=
  let pick (shortest : Z) (c : RateLimitConfig) :=
    if (Limit c >? 0) && (Window c >? 0) && ((shortest =? 0) || (Window c <? shortest)) then Window c else shortest in
  Z.max (pick (pick 0 (Calls (rateLimitSendCodeIP lim))) (Phones (rateLimitSendCodeIP lim))) second.

Definition checkSendCodeIP (r : Request) (phone : string) (k : option rpc_error -> account_prog) : account_prog :=
  if negb (SendCodeIPLimits_Enabled (rateLimitSendCodeIP lim)) then k None
  else
    call (fun e s => CheckAndChargeSendCodeIP s (ClientAddr r) phone (rateLimitSendCodeIP lim) (e_now e) (e_clock e))
      (fun a =>
        match a with
        | None => k (Some errInternal)
        | Some None => k (Some (FloodWaitError (wait_seconds sendCodeIPRetry)))
        | Some (Some (Some (wait, _))) => k (Some (FloodWaitError (wait_seconds wait)))
        | Some (Some None) => k None
        end).

Definition issue_code_for (isUsername : bool) (input : string) : account_prog :=
  call (fun e s =>
          (if isUsername then IssueCodeForUsername else IssueCode) s input (e_rand e 5%nat) (e_rand e 16%nat)
            (e_now e) (e_clock e))
    (fun a =>
      match a with
      | Some (inl (hash, _)) => Ret (reply_of (RSentCode hash))
      | Some (inr ErrResendTooSoon) => fail_with errFloodWait
      | _ => fail_with errInternal
      end).

Definition handleSendCode (r : Request) (phoneNumber : string) : account_prog :=
  if validatePhone phoneNumber then
    checkSendCodeIP r phoneNumber (fun e =>
      match e with Some e => fail_with e | None => issue_code_for false phoneNumber end)
  else if validateUsername phoneNumber then
    let input := ToLower phoneNumber in
    checkSendCodeIP r input (fun e =>
      match e with Some e => fail_with e | None => issue_code_for true input end)
  else fail_with errPhoneInvalid.

(** *** auth.signIn and auth.logOut *)

(** [verifyCodeWith]: a read of the row, then one guarded write. *)
Definition verifyCodeWith (phone hash code : string) (k : option code_err -> account_prog) : account_prog :=
  call (fun e s => (verify_plan (GetCodeByHash s hash) phone hash code (e_clock e), s)) (fun p =>
  match p with
  | None => k (Some ErrStore)
  | Some (CodeRefuse e) => k (Some e)
  | Some p =>
      call (fun e s => verify_write p phone hash code (e_now e) s) (fun a =>
        match a with None => k (Some ErrStore) | Some a => k a end)
  end).

Definition phoneUserExists (phone : string) (k : option bool -> account_prog) : account_prog :=
  query (fun s => bool_decide (is_Some (UserByPhone s phone))) k.

(** [AttemptSignIn]: a wait, or the verdict. *)
Definition AttemptSignIn (addr : Addr) (phone hash code : string) (cfg : RateLimitConfig)
    (k : Z + option code_err -> account_prog) : account_prog :=
  if negb (Enabled cfg) then
    verifyCodeWith phone hash code (fun v =>
      match v with
      | Some e => k (inr (Some e))
      | None =>
          phoneUserExists phone (fun reg =>
            match reg with
            | None => k (inr (Some ErrStore))
            | Some true => k (inr None)
            | Some false => k (inr (Some ErrCodeInvalid))
            end)
      end)
  else
    match IPBucketKey addr with
    | None => k (inl second)
    | Some key =>
        call (fun e s => (fail_budget (sign_in_fail_calls s) key (Limit cfg) (e_clock e), s)) (fun b =>
        match b with
        | None => k (inr (Some ErrStore))
        | Some (Some wait) => k (inl wait)
        | Some None =>
            call (fun e s => (verify_plan (GetCodeByHash s hash) phone hash code (e_clock e), s)) (fun p =>
            match p with
            | None => k (inr (Some ErrStore))
            | Some p =>
                call (fun e s => attempt_commit s key p phone hash code cfg (e_now e)) (fun a =>
                  match a with None => k (inr (Some ErrStore)) | Some a => k (inr a) end)
            end)
        end)
    end.

Definition handleSignInPhone (r : Request) (phone hash code : string) : account_prog :=
  AttemptSignIn (ClientAddr r) phone hash code (rateLimitSignInFailIP lim) (fun a =>
  match a with
  | inl wait => fail_with (FloodWaitError (wait_seconds wait))
  | inr (Some e) => fail_with (verifyToRPC e)
  | inr None =>
  query (fun s => UserByPhone s phone) (fun u =>
  match u with
  | None => fail_with errInternal
  | Some None => fail_with errCodeInvalid
  | Some (Some user) =>
  query (fun s => PasswordByUser s user) (fun pw =>
  match pw with
  | None => fail_with errInternal
  | Some (Some _) =>
      call (fun _ s => SetPendingUser s (AuthKeyID r) user) (fun ok =>
        match ok with Some true => fail_with errSessionPasswordNeeded | _ => fail_with errInternal end)
  | Some None =>
      call (fun _ s => BindAuthKeyUser s (AuthKeyID r) user (ByCode hash)) (fun ok =>
        match ok with Some true => Ret (reply_of (RAuthorization user)) | _ => fail_with errInternal end)
  end) end) end).

Definition handleSignInUsername (r : Request) (username hash code : string) : account_prog :=
  call (fun e s => (CheckCodeHash s username hash (e_clock e), s)) (fun v =>
  match v with
  | None => fail_with errInternal
  | Some (Some e) =>
      fail_with (match e with ErrCodeExpired => errCodeInvalid | _ => verifyToRPC e end)
  | Some None =>
  query (fun s => UserByUsernameWithLoginMode s username) (fun u =>
  match u with
  | None => fail_with errInternal
  | Some None =>
      if negb (String.eqb code EmptyString) && negb (isGeneratedCode code) then
        call (fun e s => SetCodeForUsername s username hash (capPhoneCode code) (e_now e)) (fun a =>
          match a with None => fail_with errInternal | Some _ => Ret (reply_of RSignUpRequired) end)
      else Ret (reply_of RSignUpRequired)
  | Some (Some (user, mode)) =>
      if negb (String.eqb mode "username") then fail_with errInternal
      else
        query (fun s => PasswordByUser s user) (fun pw =>
        match pw with
        | None | Some None => fail_with errInternal
        | Some (Some _) =>
            call (fun _ s => SetPendingUser s (AuthKeyID r) user) (fun ok =>
              match ok with Some true => fail_with errSessionPasswordNeeded | _ => fail_with errInternal end)
        end)
  end) end).

(** The connection is marked exactly when the reply asks for the password. *)
Fixpoint mark_pending (p : account_prog) : account_prog :=
  match p with
  | Ret o =>
      Ret (match out_reply o with
           | RError e => mkOut (out_reply o) (String.eqb (err_msg e) "SESSION_PASSWORD_NEEDED") (out_evict o)
           | _ => o
           end)
  | Act f k => Act f (fun e s => mark_pending (k e s))
  end.

Definition handleSignIn (r : Request) (phoneNumber hash code : string) : account_prog :=
  if validatePhone phoneNumber then mark_pending (handleSignInPhone r phoneNumber hash code)
  else if validateUsername phoneNumber
  then mark_pending (handleSignInUsername r (ToLower phoneNumber) hash code)
  else fail_with errPhoneInvalid.

Definition handleLogOut (r : Request) : account_prog :=
  query (fun s => AuthKeyByID s (AuthKeyID r)) (fun key =>
  match key with None => fail_with errInternal | Some key =>
  call (fun _ s => (tt, DeleteAuthKey s (AuthKeyID r))) (fun ok =>
  match ok with None => fail_with errInternal | Some _ =>
    match key with
    | Some key =>
        if AK_UserID key =? 0 then Ret (reply_of RLoggedOut)
        else Ret (mkOut RLoggedOut false (Some (AK_UserID key, AuthKeyID r)))
    | None => Ret (reply_of RLoggedOut)
    end
  end) end).

End handlers.
