(* ===== verification/Registration.v ===== *)
(** * Registration: invitations, admission, the administrator

    [internal/store/registration_invites.go] and [internal/store/admission.go] with their
    statements, the election of [internal/store/server_administration.go], and auth.signUp of
    [internal/api/auth.go], over the tables of [AccountStore].

    Admission locks the key's row, reads the code and the name, and from then on every row
    it decides on is locked by the statement that decides, to the commit.  The reads are one
    step and the writes another, which asks for the unbound key again in place of the lock
    held meanwhile; the statements of one step read the database clock at one instant.  A
    refusal rolls the writes back and keeps what was drawn from the sequences.  Handles are
    ASCII, which is what auth.signUp admits. *)

From S2P Require Import Prelude.
From S2P Require Import NetAddr.
From S2P Require Import GoStrings.
From S2P Require Import Utf8.
From S2P Require Import RateLimit.
From S2P Require Import Sha256.
From S2P Require Import Srp.
From S2P Require Import Challenges.
From S2P Require Import Threads.
From S2P Require Import PeerHash.
From S2P Require Import Limits.
From S2P Require Import AccountStore.
From S2P Require Import Account.
From Stdlib Require Import Ascii String.

Open Scope Z_scope.

Definition errInputRequestInvalid : rpc_error := mkErr 400 "INPUT_REQUEST_INVALID".
Definition errUsernameInvalid : rpc_error := mkErr 400 "USERNAME_INVALID".
Definition errFirstNameInvalid : rpc_error := mkErr 400 "FIRSTNAME_INVALID".
Definition errLastNameInvalid : rpc_error := mkErr 400 "LASTNAME_INVALID".
Definition errUsernameOccupied : rpc_error := mkErr 400 "USERNAME_OCCUPIED".
Definition errInviteHashInvalid : rpc_error := mkErr 400 "INVITE_HASH_INVALID".
Definition errSessionStateInvalid : rpc_error := mkErr 400 "SESSION_STATE_INVALID".

(** ** Invitations *)

Definition DefaultInviteLifetime : Z := 7 * 24 * 60 * minute.
Definition MaxInviteLifetime : Z := 30 * 24 * 60 * minute.
Definition inviteSecretBytes : nat := 32.
Definition microsecond : Z := 1000.

Inductive invite_error : Type :=
| ErrInviteLive | ErrInviteLifetimeInvalid | ErrInviteHandleInvalid | ErrInviteInvalid | ErrInviteStore.

Definition set_invites (m : gmap Z invite_row) (r : registry) : registry :=
  mkRegistry m (invites_id_seq r) (users_id_seq r) (server_administration r) (update_states r).

Definition draw_invite_id (r : registry) : registry :=
  mkRegistry (invites r) (invites_id_seq r + 1) (users_id_seq r) (server_administration r) (update_states r).

Definition in_state_of (st : InviteState) (consumed revoked : option Z) (x : invite_row) : invite_row :=
  mkInvite (in_handle x) (in_digest x) (in_issued x) (in_expires x) st consumed revoked.

(** An issued invitation for the handle whose time is up is retired. *)
Definition ExpireRegistrationInvite (handle : string) (now : Z) (m : gmap Z invite_row) : gmap Z invite_row :=
  (fun x => if String.eqb (in_handle x) handle && bool_decide (in_state x = InviteIssued) && (in_expires x <=? now)
            then in_state_of InviteExpired (in_consumed x) (in_revoked x) x else x) <$> m.

(** Whether the handle has a row in the partial index. *)
Definition issued_for (handle : string) (m : gmap Z invite_row) : bool :=
  bool_decide (map_Exists (fun _ x => in_handle x = handle /\ in_state x = InviteIssued) m).

(** The id drawn, or the violated check, or the conflict on the index. *)
Definition InsertRegistrationInvite (handle : string) (digest : list Z) (lifetime_us now : Z) (r : registry) :
    result invite_error Z * registry :=
  let r := draw_invite_id r in
  let x := mkInvite handle digest now (now + lifetime_us) InviteIssued None None in
  if String.eqb handle "" || negb (len digest =? 32) || (lifetime_us <=? 0) || (lifetime_us >? 30 * 24 * 60 * 60 * 1000000)
  then (Err ErrInviteStore, r)
  else if issued_for handle (invites r) then (Err ErrInviteLive, r)
  else (Ok (invites_id_seq r), set_invites (<[invites_id_seq r := x]> (invites r)) r).

Definition inviteLifetime (lifetimes : list Z) : result invite_error Z :=
  match lifetimes with
  | _ :: _ :: _ => Err ErrInviteLifetimeInvalid
  | _ =>
      let lifetime := match lifetimes with [l] => if l =? 0 then DefaultInviteLifetime else l | _ => DefaultInviteLifetime end in
      if (lifetime <? microsecond) || (lifetime >? MaxInviteLifetime) then Err ErrInviteLifetimeInvalid else Ok lifetime
  end.

(** [draw]: the bytes of the secret, or a failing source. *)
Definition IssueInvite (handle : string) (lifetimes : list Z) (draw : option (list Z)) (now : Z) (s : auth_state) :
    result invite_error (Z * string) * auth_state :=
  let handle := ToLower handle in
  if String.eqb handle "" then (Err ErrInviteHandleInvalid, s)
  else match inviteLifetime lifetimes with
       | Err x => (Err x, s)
       | Ok lifetime =>
           let r := registration s in
           let expired := set_invites (ExpireRegistrationInvite handle now (invites r)) r in
           match draw with
           | None => (Err ErrInviteStore, s)
           | Some bytes =>
               let secret := randHex bytes in
               match InsertRegistrationInvite handle (sha256 (bytes_of secret)) (Z.quot lifetime 1000) now expired with
               | (Ok id, r') => (Ok (id, secret), set_registry r' s)
               | (Err x, _) => (Err x, set_registry (draw_invite_id r) s)
               end
           end
       end.

(** [ORDER BY id DESC] and [ORDER BY id]. *)
Definition newer (a b : Z * invite_row) : Prop := b.1 <= a.1.
#[global] Instance newer_dec : RelDecision newer.
Proof. intros a b. unfold newer. apply _. Defined.

Definition older (a b : Z * invite_row) : Prop := a.1 <= b.1.
#[global] Instance older_dec : RelDecision older.
Proof. intros a b. unfold older. apply _. Defined.

(** What [LiveRegistrationInviteForUpdate] returns: id, digest, found, live; a handle with no
    issued row gets a row of zeros. *)
Definition LiveRegistrationInviteForUpdate (handle : string) (now : Z) (m : gmap Z invite_row) : Z * list Z * bool * bool :=
  match List.find (fun '(_, x) => String.eqb (in_handle x) handle && bool_decide (in_state x = InviteIssued))
          (merge_sort newer (map_to_list m)) with
  | Some (id, x) => (id, in_digest x, true, in_expires x >? now)
  | None => (0, repeat 0 64, false, false)
  end.

Definition inviteSecretMatches (secret : string) (stored : list Z) : bool :=
  let storedDigest := take 32 stored ++ repeat 0 (32 - List.length stored) in
  (len stored =? 32) && bool_decide (sha256 (bytes_of secret) = storedDigest).

Definition VerifyInvite (handle secret : string) (now : Z) (s : auth_state) : option invite_error :=
  let '(_, digest, found, live) := LiveRegistrationInviteForUpdate (ToLower handle) now (invites (registration s)) in
  if negb found || negb live || negb (inviteSecretMatches secret digest) then Some ErrInviteInvalid else None.

Definition nonMatchingInviteDigest (stored : list Z) : list Z :=
  match take 32 stored ++ repeat 0 (32 - List.length stored) with
  | b :: rest => Z.lxor b 255 :: rest
  | [] => []
  end.

(** The compare-and-swap: how many rows it changed. *)
Definition ConsumeRegistrationInvite (id : Z) (digest : list Z) (now : Z) (m : gmap Z invite_row) : Z * gmap Z invite_row :=
  match m !! id with
  | Some x =>
      if bool_decide (in_digest x = digest) && bool_decide (in_state x = InviteIssued) && (in_expires x >? now)
      then (1, <[id := in_state_of InviteConsumed (Some now) (in_revoked x) x]> m) else (0, m)
  | None => (0, m)
  end.

(** The invitation consumed, or [ErrInviteInvalid]. *)
Definition ConsumeInvite (handle secret : string) (now : Z) (s : auth_state) : option Z * auth_state :=
  let '(id, stored, found, live) := LiveRegistrationInviteForUpdate (ToLower handle) now (invites (registration s)) in
  let eligible := found && live && inviteSecretMatches secret stored in
  let digest := if eligible then stored else nonMatchingInviteDigest stored in
  let '(changed, m) := ConsumeRegistrationInvite id digest now (invites (registration s)) in
  let s' := set_registry (set_invites m (registration s)) s in
  if negb eligible || negb (changed =? 1) then (None, s') else (Some id, s').

Definition RevokeInvite (id now : Z) (s : auth_state) : auth_state :=
  match invites (registration s) !! id with
  | Some x =>
      if bool_decide (in_state x = InviteIssued) && (in_expires x >? now)
      then set_registry (set_invites (<[id := in_state_of InviteRevoked (in_consumed x) (Some now) x]> (invites (registration s)))
                           (registration s)) s
      else s
  | None => s
  end.

(** The rows by id, without their digests; an issued one whose time is up shows as expired. *)
Definition ListInvites (now : Z) (s : auth_state) : list (Z * invite_row) :=
  map (fun '(id, x) =>
         (id, mkInvite (in_handle x) [] (in_issued x) (in_expires x)
                (if bool_decide (in_state x = InviteIssued) && (in_expires x <=? now) then InviteExpired else in_state x)
                (in_consumed x) (in_revoked x)))
    (merge_sort older (map_to_list (invites (registration s)))).

(** ** The election *)

Definition LockServerAdministration (s : auth_state) : option administration_row := server_administration (registration s).

Definition set_administration (a : administration_row) (r : registry) : registry :=
  mkRegistry (invites r) (invites_id_seq r) (users_id_seq r) (Some a) (update_states r).

(** [None] is [ErrServerAdministrationInvalid]. *)
Definition electServerAdministrator (user : Z) (s : auth_state) : option auth_state :=
  match LockServerAdministration s with
  | None => None
  | Some row =>
      if negb (election_closed row) && bool_decide (is_Some (administrator row)) then None
      else if election_closed row then Some s
      else Some (set_registry (set_administration (mkAdministration true (Some user)) (registration s)) s)
  end.

Definition IsServerAdministrator (user : Z) (s : auth_state) : bool :=
  if user <=? 0 then false
  else match server_administration (registration s) with
       | Some row => election_closed row && bool_decide (administrator row = Some user)
       | None => false
       end.

(** ** Admission *)

Inductive admit_err : Type :=
| AdmitAuthKey | AdmitCode (e : code_err) | AdmitOccupied | AdmitInvite | AdmitStore.

(** The lock of an unbound key; a pending password challenge is no binding. *)
Definition LockUnboundAuthKey (s : auth_state) (id : Z) : bool :=
  match auth_keys s !! id with Some k => bool_decide (user_id k = None) | None => false end.

(** The reads under the key's lock: the code's value, or why not. *)
Definition admit_read (handle hash : string) (key clock : Z) (s : auth_state) : result admit_err string :=
  if negb (LockUnboundAuthKey s key) then Err AdmitAuthKey
  else match GetCodeByHashAndPhone s hash handle with
       | None => Err (AdmitCode ErrCodeInvalid)
       | Some row =>
           match validateCodeHash row clock with
           | Some e => Err (AdmitCode e)
           | None => if bool_decide (is_Some (usernames s !! handle)) then Err AdmitOccupied else Ok (c_code row)
           end
       end.

Definition draw_user_id (r : registry) : registry :=
  mkRegistry (invites r) (invites_id_seq r) (users_id_seq r + 1) (server_administration r) (update_states r).

(** The row of the account, its row of counters, its name, from the statements that insert,
    claim and set it. *)
Definition create_account (user : Z) (row : user_row) (handle hash : string) (invite : option Z) (s : auth_state) : auth_state :=
  let r := draw_user_id (registration s) in
  let r := mkRegistry (invites r) (invites_id_seq r) (users_id_seq r) (server_administration r) ({[user]} ∪ update_states r) in
  set_users (<[user := row]> (users s)) (<[handle := ("user"%string, user)]> (usernames s))
    [EAdmitted user handle hash invite; EUser user row] (set_registry r s).

(** The writes, from the invitation to the binding of the key. *)
Definition admit_write (handle hash : string) (key : Z) (first last : string) (requireInvite : bool) (code : string) (now : Z)
    (s : auth_state) : result admit_err Z * auth_state :=
  if negb (LockUnboundAuthKey s key) then (Err AdmitAuthKey, s)
  else
    let '(invited, invite, s1) :=
      if requireInvite then let '(i, s1) := ConsumeInvite handle code now s in (bool_decide (is_Some i), i, s1)
      else (true, None, s) in
    if negb invited then (Err AdmitInvite, s)
    else
      let '(consumed, s2) := ConsumeCodeForUsername s1 handle hash now in
      if negb consumed then (Err (AdmitCode ErrCodeInvalid), s)
      else
        let user := users_id_seq (registration s2) + 1 in
        let undone := set_registry (draw_user_id (registration s)) s in
        if bool_decide (is_Some (usernames s2 !! handle)) then (Err AdmitOccupied, undone)
        else
          let s3 := create_account user (mkUser None "username" first last (Some handle)) handle hash invite s2 in
          match electServerAdministrator user s3 with
          | None => (Err AdmitStore, undone)
          | Some s4 =>
              match BindAuthKeyUser s4 key user (BySignUp hash) with
              | (true, s5) => (Ok user, s5)
              | (false, _) => (Err AdmitAuthKey, undone)
              end
          end.

(** A value or the error of the store. *)
Definition AdmitUsername (handle hash : string) (key : Z) (first last : string) (requireInvite : bool)
    (k : result admit_err Z -> account_prog) : account_prog :=
  let handle := ToLower handle in
  call (fun e s => (admit_read handle hash key (e_clock e) s, s)) (fun a =>
  match a with
  | None => k (Err AdmitStore)
  | Some (Err x) => k (Err x)
  | Some (Ok code) =>
      call (fun e s => admit_write handle hash key first last requireInvite code (e_now e) s) (fun b =>
        match b with None => k (Err AdmitStore) | Some b => k b end)
  end).

(** ** auth.signUp *)

Definition RegistrationClosed : string := "closed".
Definition RegistrationInvite : string := "invite".
Definition RegistrationOpen : string := "open".

Definition reservedUsernames : list string :=
  ["admin"; "apiws"; "backgrounds"; "download"; "hls"; "hls_quality_file"; "hls_stream"; "ping"; "rtmp"; "share"; "support";
   "stream"; "help"; "me"; "settings"; "telegram"; "channel"; "channels"; "bot"; "bots"; "login"; "signup"]%string.

Definition isReservedUsername (username : string) : bool := existsb (String.eqb (ToLower username)) reservedUsernames.

Definition maxSignUpNameCodePoints : Z := 64.

Definition validateSignUpName (name : string) : bool :=
  ValidString (bytes_of name) && negb (existsb (Z.eqb 0) (bytes_of name)) &&
  (RuneCountInString (bytes_of name) <=? maxSignUpNameCodePoints).

Definition admit_to_rpc (x : admit_err) : rpc_error :=
  match x with
  | AdmitCode (ErrCodeInvalid | ErrCodeExpired | ErrCodeExhausted) => errCodeInvalid
  | AdmitInvite => errInviteHashInvalid
  | AdmitOccupied => errUsernameOccupied
  | AdmitAuthKey => errSessionStateInvalid
  | _ => errInternal
  end.

Record sign_up_request : Type := mkSignUp { su_PhoneNumber : string; su_PhoneCodeHash : string; su_FirstName : string; su_LastName : string }.

Definition handleSignUp (lim : limits) (r : Request) (req : sign_up_request) : account_prog :=
  if negb (String.eqb (registrationMode lim) RegistrationInvite || String.eqb (registrationMode lim) RegistrationOpen)
  then fail_with errInputRequestInvalid
  else
    checkAndChargeRateLimitIP r "sign_up_ip" (rateLimitSignUpIP lim) (fun x =>
    match x with
    | Some x => fail_with x
    | None =>
    query (fun s => AuthKeyByID s (AuthKeyID r)) (fun key =>
    match key with
    | None => fail_with errInternal
    | Some key =>
        if negb (match key with Some key => AK_UserID key =? 0 | None => false end) then fail_with errSessionStateInvalid
        else if negb (validateUsername (su_PhoneNumber req)) then fail_with errUsernameInvalid
        else
          let username := ToLower (su_PhoneNumber req) in
          if isReservedUsername username then fail_with errUsernameInvalid
          else if negb (validateSignUpName (su_FirstName req)) then fail_with errFirstNameInvalid
          else if negb (validateSignUpName (su_LastName req)) then fail_with errLastNameInvalid
          else
            AdmitUsername username (su_PhoneCodeHash req) (AuthKeyID r) (su_FirstName req) (su_LastName req)
              (String.eqb (registrationMode lim) RegistrationInvite) (fun a =>
              match a with
              | Ok user => Ret (reply_of (RAuthorization user))
              | Err x => fail_with (admit_to_rpc x)
              end)
    end) end).
