(* ===== verification/Registrar.v ===== *)
(** * The registrar

    What registration promises, apart from how it is stored: the accounts, the names, the
    invitations and the administrator move by the steps below, and every admission is
    written down.  Each transaction of [Registration] is one of them. *)

From S2P Require Import Prelude.
From S2P Require Import GoStrings.
From S2P Require Import Sha256.
From S2P Require Import PeerHash.
From S2P Require Import Threads.
From S2P Require Import Limits.
From S2P Require Import AccountStore.
From S2P Require Import Account.
From S2P Require Import Registration.
From Stdlib Require Import Ascii String.

Open Scope Z_scope.

(** ** Steps *)

(** An admission: the account, its handle, the code it was made with, the invitation spent. *)
Definition admission : Type := Z * string * string * option Z.

Definition admitted (h : list event) : list admission :=
  omap (fun ev => match ev with EAdmitted u n c i => Some (u, n, c, i) | _ => None end) h.

Record ledger : Type := mkLedger {
  l_users : gmap Z user_row; l_names : gmap string (string * Z); l_registry : registry; l_admitted : list admission
}.

Definition ledger_of (s : auth_state) : ledger := mkLedger (users s) (usernames s) (registration s) (admitted (history s)).

Definition with_registry (r : registry) (L : ledger) : ledger := mkLedger (l_users L) (l_names L) r (l_admitted L).

(** The invitation is there for the handle, unspent, in time, and the secret is its own. *)
Definition invited (handle : string) (secret : string) (now : Z) (x : invite_row) : Prop :=
  in_handle x = handle /\ in_state x = InviteIssued /\ now < in_expires x /\ in_digest x = sha256 (bytes_of secret).

(** The invitations once one was spent, if one had to be. *)
Inductive spends (handle : string) (now : Z) (m : gmap Z invite_row) : option Z -> gmap Z invite_row -> Prop :=
| spends_none : spends handle now m None m
| spends_one i x secret : m !! i = Some x -> invited handle secret now x ->
    spends handle now m (Some i) (<[i := in_state_of InviteConsumed (Some now) (in_revoked x) x]> m).

(** The first account of a server whose election is open is its administrator. *)
Definition elected (user : Z) (a : administration_row) : administration_row :=
  if election_closed a then a else mkAdministration true (Some user).

Inductive reg_step : ledger -> ledger -> Prop :=
| rs_same L : reg_step L L
| rs_draw L r :
    invites r = invites (l_registry L) -> server_administration r = server_administration (l_registry L) ->
    update_states r = update_states (l_registry L) -> invites_id_seq (l_registry L) <= invites_id_seq r ->
    users_id_seq (l_registry L) <= users_id_seq r -> reg_step L (with_registry r L)
| rs_issue L handle digest now lifetime :
    handle <> ""%string -> len digest = 32 -> 0 < lifetime <= 30 * 24 * 60 * 60 * 1000000 ->
    issued_for handle (ExpireRegistrationInvite handle now (invites (l_registry L))) = false ->
    let id := invites_id_seq (l_registry L) + 1 in
    reg_step L (with_registry
      (set_invites (<[id := mkInvite handle digest now (now + lifetime) InviteIssued None None]>
                      (ExpireRegistrationInvite handle now (invites (l_registry L))))
         (draw_invite_id (l_registry L))) L)
| rs_revoke L id x now :
    invites (l_registry L) !! id = Some x -> in_state x = InviteIssued -> now < in_expires x ->
    reg_step L (with_registry
      (set_invites (<[id := in_state_of InviteRevoked (in_consumed x) (Some now) x]> (invites (l_registry L))) (l_registry L)) L)
| rs_admit L handle hash invite now m a first last :
    l_names L !! handle = None -> spends handle now (invites (l_registry L)) invite m ->
    server_administration (l_registry L) = Some a ->
    negb (election_closed a) && bool_decide (is_Some (administrator a)) = false ->
    let user := users_id_seq (l_registry L) + 1 in
    reg_step L (mkLedger
      (<[user := mkUser None "username" first last (Some handle)]> (l_users L))
      (<[handle := ("user"%string, user)]> (l_names L))
      (mkRegistry m (invites_id_seq (l_registry L)) user (Some (elected user a)) ({[user]} ∪ update_states (l_registry L)))
      ((user, handle, hash, invite) :: l_admitted L)).

(** ** The transactions are steps *)

Lemma ledger_registry r s : ledger_of (set_registry r s) = with_registry r (ledger_of s).
Proof. done. Qed.

Lemma issue_step_ok handle lifetimes draw now s :
  reg_step (ledger_of s) (ledger_of (IssueInvite handle lifetimes draw now s).2) /\
  history (IssueInvite handle lifetimes draw now s).2 = history s.
Proof.
  unfold IssueInvite. cbv zeta. destruct (String.eqb_spec (ToLower handle) ""); [by split; [constructor|]|].
  destruct (inviteLifetime lifetimes) as [lifetime|] eqn:El; [|by split; [constructor|]].
  destruct draw as [bytes|]; [|by split; [constructor|]]. unfold InsertRegistrationInvite. cbv zeta. cbn [invites_id_seq draw_invite_id set_invites invites].
  assert (Hd : reg_step (ledger_of s) (ledger_of (set_registry (draw_invite_id (registration s)) s))).
  { rewrite ledger_registry. apply rs_draw; cbn; lia || done. }
  destruct (String.eqb_spec (ToLower handle) ""); [done|]. cbn [orb]. destruct (negb _) eqn:Elen; [by split|]. cbn [orb].
  destruct (_ <=? 0) eqn:E0; [by split|]. destruct (_ >? _) eqn:E1; [by split|]. destruct (issued_for _ _) eqn:Ei; [by split|].
  split; [|done]. cbn [orb snd]. rewrite ledger_registry.
  apply (rs_issue (ledger_of s) (ToLower handle) _ now (Z.quot lifetime 1000)); [done|lia|lia|done].
Qed.

Lemma revoke_step_ok id now s :
  reg_step (ledger_of s) (ledger_of (RevokeInvite id now s)) /\ history (RevokeInvite id now s) = history s.
Proof.
  unfold RevokeInvite. destruct (invites (registration s) !! id) as [x|] eqn:E; [|by split; [constructor|]].
  case_bool_decide as Hs; cbn [andb]; [|by split; [constructor|]]. destruct (Z.gtb_spec (in_expires x) now); [|by split; [constructor|]].
  split; [|done]. rewrite ledger_registry. by apply rs_revoke.
Qed.

Lemma matches_digest secret stored : inviteSecretMatches secret stored = true -> stored = sha256 (bytes_of secret).
Proof.
  unfold inviteSecretMatches. intros [Hl%Z.eqb_eq Hd%bool_decide_eq_true]%andb_prop. rewrite Hd. unfold len in Hl.
  replace (32 - List.length stored)%nat with 0%nat by lia. cbn. rewrite app_nil_r, take_ge by lia. done.
Qed.

Lemma live_invite_spec handle now m :
  match LiveRegistrationInviteForUpdate handle now m with
  | (id, digest, true, live) =>
      exists x, m !! id = Some x /\ in_handle x = handle /\ in_state x = InviteIssued /\ digest = in_digest x /\ live = (in_expires x >? now)
  | (_, _, false, _) => forall id x, m !! id = Some x -> in_state x = InviteIssued -> in_handle x <> handle
  end.
Proof.
  unfold LiveRegistrationInviteForUpdate. destruct (List.find _ _) as [[id x]|] eqn:E.
  - apply find_some in E as [Hin [H1%String.eqb_eq H2%bool_decide_eq_true]%andb_prop]. apply list_elem_of_In in Hin.
    rewrite merge_sort_Permutation in Hin. apply elem_of_map_to_list in Hin. by exists x.
  - intros id x Hx Hs Hh. assert (Hin : (id, x) ∈ merge_sort newer (map_to_list m)).
    { rewrite merge_sort_Permutation. by apply elem_of_map_to_list. }
    pose proof (find_none _ _ E (id, x) (proj1 (list_elem_of_In _ _) Hin)) as H. cbn in H.
    by rewrite Hh, String.eqb_refl, bool_decide_eq_true_2 in H.
Qed.

(** A spent invitation was the handle's own. *)
Lemma ConsumeInvite_spec handle secret now s :
  match ConsumeInvite handle secret now s with
  | (Some i, s') => exists m, spends (ToLower handle) now (invites (registration s)) (Some i) m /\
      s' = set_registry (set_invites m (registration s)) s
  | (None, _) => forall i x, invites (registration s) !! i = Some x -> in_state x = InviteIssued -> in_handle x = ToLower handle ->
      (forall j y, invites (registration s) !! j = Some y -> in_state y = InviteIssued -> in_handle y = ToLower handle -> i = j) ->
      ~ invited (ToLower handle) secret now x
  end.
Proof.
  unfold ConsumeInvite. pose proof (live_invite_spec (ToLower handle) now (invites (registration s))) as Hl.
  destruct (LiveRegistrationInviteForUpdate _ _ _) as [[[id stored] []] live].
  - destruct Hl as (x & Hx & Hh & Hs & -> & ->). cbn [andb]. destruct (in_expires x >? now) eqn:Et; cbn [andb].
    + destruct (inviteSecretMatches secret (in_digest x)) eqn:Em.
      * unfold ConsumeRegistrationInvite. rewrite Hx, !bool_decide_eq_true_2, Et by done. cbn [andb negb orb Z.eqb Pos.eqb].
        eexists. split; [|done]. apply (spends_one _ _ _ id x secret); [done|]. apply matches_digest in Em. by split_and!; [|..|]; try lia.
      * destruct (ConsumeRegistrationInvite _ _ _ _). cbn [negb orb]. intros i y Hy Hsy Hhy Hu (_ & _ & _ & Hd).
        assert (i = id) as -> by (by eapply Hu). rewrite Hx in Hy. injection Hy as <-.
        unfold inviteSecretMatches in Em. assert (Hlen : List.length (in_digest x) = 32%nat) by (rewrite Hd; apply length_sha256).
        rewrite Hlen in Em. replace (len (in_digest x) =? 32) with true in Em by (unfold len; rewrite Hlen; done).
        cbn [Nat.sub repeat andb] in Em. rewrite app_nil_r, take_ge, bool_decide_eq_true_2 in Em by (done || lia). done.
    + destruct (ConsumeRegistrationInvite _ _ _ _). cbn [negb orb]. intros i y Hy Hsy Hhy Hu (_ & _ & Ht & _).
      assert (i = id) as -> by (by eapply Hu). rewrite Hx in Hy. injection Hy as <-. lia.
  - cbn [andb]. destruct (ConsumeRegistrationInvite _ _ _ _). cbn [negb orb]. intros i x Hx Hs Hh _ _. by apply (Hl i x Hx Hs).
Qed.

(** ** Admission *)

(** A code that registers a name: unspent, in time, not guessed away, with a value. *)
Definition good_code (handle : string) (now : Z) (r : code_row) : Prop :=
  c_phone r = handle /\ c_consumed r = false /\ now <= c_expires r /\ c_attempts r < 3 /\ c_code r <> ""%string.

Definition spent_code (r : code_row) : code_row :=
  mkCode (c_phone r) "" (c_created r) (c_expires r) true (c_attempts r).

(** Everything a committed admission has done. *)
Record admits (handle hash : string) (key : Z) (first last : string) (invite : option Z) (now : Z) (user : Z) (s s' : auth_state) : Prop := {
  ad_user : user = users_id_seq (registration s) + 1;
  ad_key : LockUnboundAuthKey s key = true;
  ad_name : usernames s !! handle = None;
  ad_code : exists r, phone_codes s !! hash = Some r /\ good_code handle now r /\
    phone_codes s' = <[hash := spent_code r]> (phone_codes s);
  ad_election : exists a, server_administration (registration s) = Some a /\
    negb (election_closed a) && bool_decide (is_Some (administrator a)) = false /\
    exists m, spends handle now (invites (registration s)) invite m /\
      registration s' = mkRegistry m (invites_id_seq (registration s)) user (Some (elected user a))
                          ({[user]} ∪ update_states (registration s));
  ad_users : users s' = <[user := mkUser None "username" first last (Some handle)]> (users s);
  ad_names : usernames s' = <[handle := ("user"%string, user)]> (usernames s);
  ad_keys : auth_keys s' = <[key := mkKeyRow (Some user) None]> (auth_keys s);
  ad_history : history s' =
    [EBound key user (BySignUp hash); EAdmitted user handle hash invite;
     EUser user (mkUser None "username" first last (Some handle)); ECodeConsumed hash handle] ++ history s;
  ad_rest : srp s' = srp s /\ user_passwords s' = user_passwords s /\ rate_limits s' = rate_limits s
}.

Lemma admits_step handle hash key first last invite now user s s' :
  admits handle hash key first last invite now user s s' -> reg_step (ledger_of s) (ledger_of s').
Proof.
  intros [-> _ Hn _ (a & Ha & Hg & m & Hm & Hr) Hu Hnm _ Hh _]. unfold ledger_of at 2. rewrite Hu, Hnm, Hr, Hh. cbn [admitted app omap list_omap].
  by apply (rs_admit (ledger_of s) handle hash invite now m a first last).
Qed.

Lemma ConsumeCodeForUsername_spec s handle hash now :
  match ConsumeCodeForUsername s handle hash now with
  | (true, s') => exists r, phone_codes s !! hash = Some r /\ good_code handle now r /\
      s' = set_codes (<[hash := spent_code r]> (phone_codes s)) [ECodeConsumed hash handle] s
  | (false, s') => s' = s /\ forall r, phone_codes s !! hash = Some r -> ~ good_code handle now r
  end.
Proof.
  unfold ConsumeCodeForUsername. destruct (phone_codes s !! hash) as [r|]; [|done].
  destruct (String.eqb_spec (c_phone r) handle); cbn [andb]; [|split; [done|]; intros ? [= <-] (? & _); done].
  destruct (c_consumed r) eqn:Ec; cbn [negb andb]; [split; [done|]; intros ? [= <-] (_ & ? & _); congruence|].
  destruct (Z.leb_spec now (c_expires r)); cbn [andb]; [|split; [done|]; intros ? [= <-] (_ & _ & ? & _); lia].
  destruct (Z.ltb_spec (c_attempts r) 3); cbn [andb]; [|split; [done|]; intros ? [= <-] (_ & _ & _ & ? & _); lia].
  destruct (String.eqb_spec (c_code r) ""); cbn [negb]; [split; [done|]; intros ? [= <-] (_ & _ & _ & _ & ?); congruence|].
  by exists r.
Qed.

(** What the writes do: all of it, or at most a number drawn from a sequence. *)
Lemma admit_write_spec handle hash key first last req code now s :
  ToLower handle = handle ->
  match admit_write handle hash key first last req code now s with
  | (Ok user, s') => exists invite, bool_decide (is_Some invite) = req /\ admits handle hash key first last invite now user s s'
  | (Err _, s') => s' = s \/ s' = set_registry (draw_user_id (registration s)) s
  end.
Proof.
  intros Hlow. unfold admit_write. destruct (LockUnboundAuthKey s key) eqn:Ek; cbn [negb]; [|by left].
  assert (Hin : exists invite m, (if req then let '(i, s1) := ConsumeInvite handle code now s in (bool_decide (is_Some i), i, s1) else (true, None, s)) =
      (true, invite, set_registry (set_invites m (registration s)) s) /\ bool_decide (is_Some invite) = req /\
      spends handle now (invites (registration s)) invite m \/
    (if req then let '(i, s1) := ConsumeInvite handle code now s in (bool_decide (is_Some i), i, s1) else (true, None, s)).1.1 = false).
  { destruct req.
    - pose proof (ConsumeInvite_spec handle code now s) as Hc. rewrite Hlow in Hc. destruct (ConsumeInvite handle code now s) as [[i|] s1].
      + destruct Hc as (m & Hm & ->). exists (Some i), m. by left.
      + exists None, ∅. by right.
    - exists None, (invites (registration s)). left. split_and!; [|done|constructor].
      do 2 f_equal. by destruct s as [? ? ? ? ? ? ? ? ? ? ? []]. }
  destruct Hin as (invite & m & [(-> & Hreq & Hsp)|Hno]).
  2: { destruct (if req then _ else _) as [[b i] s1]. cbn in Hno. subst b. by left. }
  cbn [negb]. set (s1 := set_registry (set_invites m (registration s)) s). pose proof (ConsumeCodeForUsername_spec s1 handle hash now) as Hcode.
  destruct (ConsumeCodeForUsername s1 handle hash now) as [[] s2]; cbn [negb]; [|by left].
  destruct Hcode as (r & Hr & Hgood & ->). cbv zeta. cbn [usernames set_codes s1 set_registry registration set_invites users_id_seq].
  destruct (bool_decide (is_Some (usernames s !! handle))) eqn:Hn; [by right|]. apply bool_decide_eq_false, eq_None_not_Some in Hn.
  unfold electServerAdministrator, LockServerAdministration. cbn [create_account registration set_users set_registry server_administration draw_user_id set_codes s1 set_invites].
  destruct (server_administration (registration s)) as [a|] eqn:Ea; [|by right].
  destruct (negb (election_closed a) && _) eqn:Eg; [by right|].
  assert (Hkey : exists k, auth_keys s !! key = Some k) by (unfold LockUnboundAuthKey in Ek; destruct (auth_keys s !! key); [by eexists|done]).
  destruct Hkey as [k Hk].
  destruct (election_closed a) eqn:Ec; unfold BindAuthKeyUser; cbn; rewrite Hk; exists invite; (split; [done|]).
  all: constructor; cbn; try done; [by exists r|].
  all: exists a; split; [done|]; split; [by rewrite Ec|]; exists m; split; [done|]; unfold elected; rewrite Ec.
  - by rewrite Ea.
  - done.
Qed.
