(* ===== verification/AccountSafety.v ===== *)
(** * What the account handlers guarantee, however they interleave

    The invariant of the account state, that every step of every handler keeps it, and
    what it says of keys, challenges, passwords and codes. *)

From S2P Require Import Prelude.
From S2P Require Import NetAddr.
From S2P Require Import GoStrings.
From S2P Require Import RateLimit.
From S2P Require Import Sha256.
From S2P Require Import Srp.
From S2P Require Import Challenges.
From S2P Require Import Threads.
From S2P Require Import Limits.
From S2P Require Import AccountStore.
From S2P Require Import Account.
From S2P Require Import Registration.
From S2P Require Import Registrar.
From Stdlib Require Import Ascii String.

Open Scope Z_scope.

#[local] Opaque Verify ValidVerifier Challenge PadLen.

(** ** Counting events *)

Definition cnt (p : event -> bool) (h : list event) : Z := len (List.filter p h).

Lemma cnt_cons p x h : cnt p (x :: h) = (if p x then 1 else 0) + cnt p h.
Proof. unfold cnt. simpl. destruct (p x); rewrite ?len_cons; lia. Qed.

Definition issued (id : Z) (ev : event) : bool := match ev with EIssued i _ _ _ => i =? id | _ => false end.
Definition consumed (id : Z) (ev : event) : bool := match ev with EConsumed i _ _ _ => i =? id | _ => false end.
Definition code_issued (hash : string) (ev : event) : bool :=
  match ev with ECodeIssued h _ => String.eqb h hash | _ => false end.
Definition code_consumed (hash : string) (ev : event) : bool :=
  match ev with ECodeConsumed h _ => String.eqb h hash | _ => false end.

(** ** Evidence *)

(** A proof is good when its challenge was consumed by the key, was issued to the same
    key, for the user, no longer than [ttl] before, and the client's values answer it
    against a password the user had set. *)
Definition ev_ok (ttl : Z) (h : list event) (key user : Z) (ev : proof_ev) : Prop :=
  P_UserID (ev_pending ev) = user /\
  (exists at_ now, EIssued (ev_id ev) key (ev_pending ev) at_ ∈ h /\
     EConsumed (ev_id ev) key (ev_pending ev) now ∈ h /\ now <= at_ + ttl) /\
  (exists key' how, EPasswordSet user (ev_pw ev) key' how ∈ h) /\
  Verify (Verifier (ev_pw ev)) (Salt1 (ev_pw ev)) (Salt2 (ev_pw ev)) (ev_A ev) (ev_M1 ev)
    (BPublic (ev_pending ev)) (BSecret (ev_pending ev)) = true.

(** The password of an account by the history: the last one set and not removed since. *)
Fixpoint password_in (h : list event) (user : Z) : option UserPassword :=
  match h with
  | [] => None
  | EPasswordSet u pw _ _ :: h => if u =? user then Some pw else password_in h user
  | EPasswordDeleted u _ _ :: h => if u =? user then None else password_in h user
  | _ :: h => password_in h user
  end.

Section invariant.
(** The challenges' lifetime, and whether one registers by invitation or at will. *)
Context (T : Z) (mode : string).

(** At a moment after the code was consumed the account had no password. *)
Definition no_password_since (h : list event) (user : Z) (hash phone : string) : Prop :=
  exists after seen, h = after ++ seen /\ ECodeConsumed hash phone ∈ seen /\ password_in seen user = None.

(** The code was consumed under the phone of the account, which then had no password. *)
Definition code_ok (h : list event) (user : Z) (hash : string) : Prop :=
  exists phone row, EUser user row ∈ h /\ u_phone row = Some phone /\ no_password_since h user hash phone.

(** The account was made for this sign-up, with the code consumed under its handle. *)
Definition signup_ok (h : list event) (user : Z) (hash : string) : Prop :=
  exists handle invite row, EAdmitted user handle hash invite ∈ h /\ ECodeConsumed hash handle ∈ h /\ EUser user row ∈ h /\
    u_phone row = None /\ login_mode row = "username"%string /\ u_username row = Some handle.

(** An admission spent an invitation where the server asks for one. *)
Definition mode_ok (invite : option Z) : Prop :=
  mode = RegistrationInvite /\ is_Some invite \/ mode = RegistrationOpen /\ invite = None.

Definition event_ok (h : list event) (ev : event) : Prop :=
  match ev with
  | EConsumed id key p now => exists at_, EIssued id key p at_ ∈ h /\ now <= at_ + T
  | EBound key user (ByProof p) => ev_ok T h key user p
  | EBound key user (ByCode hash) => code_ok h user hash
  | EBound key user (BySignUp hash) => signup_ok h user hash
  | EAdmitted _ _ _ invite => mode_ok invite
  | EPasswordSet user _ key (Some p) => ev_ok T h key user p
  | EPasswordDeleted user key (Some p) => ev_ok T h key user p
  | _ => True
  end.

(** Every event is good by what was there before it. *)
Fixpoint events_ok (h : list event) : Prop :=
  match h with [] => True | ev :: h => event_ok h ev /\ events_ok h end.

Lemma events_in h ev : events_ok h -> ev ∈ h -> exists later earlier, h = later ++ ev :: earlier /\ event_ok earlier ev.
Proof.
  induction h as [|x h IH]; [by intros _ ?%elem_of_nil|]. intros [Hx Hh] [->|Hin]%elem_of_cons; [by exists [], h|].
  destruct (IH Hh Hin) as (later & earlier & -> & He). by exists (x :: later), earlier.
Qed.

Definition pw_valid (pw : UserPassword) : Prop :=
  Datatypes.length (Verifier pw) = PadLen /\ ValidVerifier (Verifier pw) = true /\ Salt1 pw <> [] /\ Salt2 pw <> [].

Definition srp_inv (c : ChallengeStore) (h : list event) : Prop :=
  cs_wf c /\ ttl c = T /\
  (forall id e, entries c !! id = Some e ->
     exists at_, EIssued id (e_authKeyID e) (pending e) at_ ∈ h /\ expiresAt e = at_ + T) /\
  (forall id, cnt (consumed id) h + (if decide (is_Some (entries c !! id)) then 1 else 0) <= cnt (issued id) h).

Definition keys_inv (ks : gmap Z key_row) (h : list event) : Prop :=
  forall key row user, ks !! key = Some row -> user_id row = Some user -> exists how, EBound key user how ∈ h.

Definition pw_inv (ps : gmap Z UserPassword) (h : list event) : Prop :=
  forall user pw, ps !! user = Some pw -> pw_valid pw /\ exists key how, EPasswordSet user pw key how ∈ h.

Definition live_code (cs : gmap string code_row) (hash : string) : bool :=
  match cs !! hash with Some r => negb (c_consumed r) | None => false end.

Definition codes_inv (cs : gmap string code_row) (h : list event) : Prop :=
  forall hash, cnt (code_consumed hash) h + (if live_code cs hash then 1 else 0) <= cnt (code_issued hash) h.

Record inv (s : auth_state) : Prop := mkInv {
  i_users : forall u row, users s !! u = Some row <-> EUser u row ∈ history s;
  i_seq : forall u, is_Some (users s !! u) -> u <= users_id_seq (registration s);
  i_srp : srp_inv (srp s) (history s);
  i_keys : keys_inv (auth_keys s) (history s);
  i_pw : pw_inv (user_passwords s) (history s);
  i_codes : codes_inv (phone_codes s) (history s);
  i_pwlog : forall u, user_passwords s !! u = password_in (history s) u;
  i_events : events_ok (history s)
}.

(** The history only grows, and accounts, names, invitations and administrator move by a step
    of the registrar. *)
Record guar (s s' : auth_state) : Prop := mkGuar {
  g_history : exists evs, history s' = evs ++ history s;
  g_ledger : reg_step (ledger_of s) (ledger_of s')
}.

Lemma guar_in s s' ev : guar s s' -> ev ∈ history s -> ev ∈ history s'.
Proof. intros [(evs & ->) _] H. apply elem_of_app. by right. Qed.

(** ** Events that are none of the registrar's *)

Definition mundane (ev : event) : bool := match ev with EUser _ _ | EAdmitted _ _ _ _ => false | _ => true end.

Lemma admitted_mundane evs h : forallb mundane evs = true -> admitted (evs ++ h) = admitted h.
Proof.
  induction evs as [|ev evs IH]; [done|]. cbn [forallb app]. intros [H1 H2]%andb_prop. unfold admitted in *. cbn.
  destruct ev; try done; by apply IH.
Qed.

Lemma user_mundane evs h u row : forallb mundane evs = true -> EUser u row ∈ evs ++ h <-> EUser u row ∈ h.
Proof.
  intros Hm. rewrite elem_of_app. split; [|by right]. intros [Hin|]; [|done]. rewrite forallb_forall in Hm.
  by specialize (Hm _ (proj1 (list_elem_of_In _ _) Hin)).
Qed.

(** A step that leaves the accounts, the names and the registry alone. *)
Definition same_accounts (s s' : auth_state) : Prop :=
  users s' = users s /\ usernames s' = usernames s /\ registration s' = registration s.

Lemma guar_same evs s s' : history s' = evs ++ history s -> forallb mundane evs = true -> same_accounts s s' -> guar s s'.
Proof.
  intros Eh Hm (Eu & En & Er). split.
  - by exists evs.
  - unfold ledger_of. rewrite Eh, Eu, En, Er, admitted_mundane by done. constructor.
Qed.

Lemma users_same evs s s' : inv s -> history s' = evs ++ history s -> forallb mundane evs = true -> same_accounts s s' ->
  (forall u row, users s' !! u = Some row <-> EUser u row ∈ history s') /\
  (forall u, is_Some (users s' !! u) -> u <= users_id_seq (registration s')).
Proof.
  intros I Eh Hm (Eu & _ & Er). rewrite Eh, Eu, Er. split; [|apply I]. intros u row. rewrite user_mundane by done. apply I.
Qed.

(** ** The history only grows *)

Lemma ev_ok_mono h h' key user ev :
  (forall x, x ∈ h -> x ∈ h') -> ev_ok T h key user ev -> ev_ok T h' key user ev.
Proof. intros Hs (A & (at_ & now & B1 & B2 & B3) & (k' & how & C) & D). unfold ev_ok.
  split_and!; [done|exists at_, now; auto|exists k', how; auto|done]. Qed.

Lemma no_password_since_mono evs h user hash phone :
  no_password_since h user hash phone -> no_password_since (evs ++ h) user hash phone.
Proof. intros (after & seen & -> & H). exists (evs ++ after), seen. by rewrite app_assoc. Qed.

(** Events that say nothing of passwords. *)
Definition pw_free (ev : event) : bool := match ev with EPasswordSet _ _ _ _ | EPasswordDeleted _ _ _ => false | _ => true end.

Lemma password_in_free evs h user : forallb pw_free evs = true -> password_in (evs ++ h) user = password_in h user.
Proof. induction evs as [|ev evs IH]; [done|]. cbn [forallb app]. intros [H1 H2]%andb_prop. destruct ev; cbn; auto; done. Qed.

Lemma keys_inv_mono ks h h' : (forall x, x ∈ h -> x ∈ h') -> keys_inv ks h -> keys_inv ks h'.
Proof. intros Hs H key row user H1 H2. destruct (H key row user H1 H2) as [how ?]. eauto. Qed.

Lemma pw_inv_mono ps h h' : (forall x, x ∈ h -> x ∈ h') -> pw_inv ps h -> pw_inv ps h'.
Proof. intros Hs H user pw H1. destruct (H user pw H1) as (? & key & how & ?). eauto 8. Qed.

(** An event that neither issues nor consumes leaves the counts alone. *)
Definition quiet (ev : event) : Prop :=
  (forall id, issued id ev = false /\ consumed id ev = false) /\
  (forall hash, code_issued hash ev = false /\ code_consumed hash ev = false) /\ mundane ev = true.

Lemma srp_inv_cons c h ev :
  (forall id, issued id ev = false /\ consumed id ev = false) -> srp_inv c h -> srp_inv c (ev :: h).
Proof.
  intros Hq (A & B & C & D). split_and!; [done|done| |].
  - intros id e He. destruct (C id e He) as (at_ & ? & ?). exists at_. split; [by right|done].
  - intros id. rewrite !cnt_cons. destruct (Hq id) as [-> ->]. specialize (D id). lia.
Qed.

Lemma codes_inv_cons cs h ev :
  (forall hash, code_issued hash ev = false /\ code_consumed hash ev = false) -> codes_inv cs h -> codes_inv cs (ev :: h).
Proof. intros Hq D hash. rewrite !cnt_cons. destruct (Hq hash) as [-> ->]. specialize (D hash). lia. Qed.

Lemma codes_inv_mono cs cs' h :
  (forall hash, live_code cs' hash = true -> live_code cs hash = true) -> codes_inv cs h -> codes_inv cs' h.
Proof.
  intros Hl D hash. specialize (D hash). specialize (Hl hash). destruct (live_code cs' hash); [|destruct (live_code cs hash); lia].
  by rewrite Hl in D.
Qed.

(** ** Steps keep the invariant *)

Lemma guar_refl s : guar s s.
Proof. by apply (guar_same []). Qed.

Lemma inv_limits t s : inv s -> inv (set_limits t s) /\ guar s (set_limits t s).
Proof. intros []. split; [by split|by apply (guar_same [])]. Qed.

Lemma inv_fails t s : inv s -> inv (set_fails t s) /\ guar s (set_fails t s).
Proof. intros []. split; [by split|by apply (guar_same [])]. Qed.

Lemma inv_send t w s : inv s -> inv (set_send t w s) /\ guar s (set_send t w s).
Proof. intros []. split; [by split|by apply (guar_same [])]. Qed.

Lemma inv_keys ks s : inv s -> keys_inv ks (history s) -> inv (set_keys ks [] s) /\ guar s (set_keys ks [] s).
Proof. intros [] Hk. split; [by split|by apply (guar_same [])]. Qed.

(** One quiet event more, its evidence good: what the tables had they keep. *)
Lemma inv_quiet s ev s' :
  inv s -> quiet ev -> event_ok (history s) ev ->
  history s' = [ev] ++ history s -> same_accounts s s' -> srp s' = srp s -> phone_codes s' = phone_codes s ->
  keys_inv (auth_keys s') (ev :: history s) -> pw_inv (user_passwords s') (ev :: history s) ->
  (forall u, user_passwords s' !! u = password_in (ev :: history s) u) ->
  inv s' /\ guar s s'.
Proof.
  intros I (Hq1 & Hq2 & Hq3) He Eh Eu Es Ec Hk Hp Hl. assert (Hm : forallb mundane [ev] = true) by (cbn; by rewrite Hq3).
  destruct (users_same [ev] s s' I Eh Hm Eu) as [Hu Hn]. split; [|by apply (guar_same [ev])].
  destruct I as [_ _ I2 I3 I4 I5 I6 I7]. split; rewrite ?Es, ?Ec; try done; rewrite Eh; cbn [app].
  - by apply srp_inv_cons.
  - done.
  - done.
  - by apply codes_inv_cons.
  - done.
  - done.
Qed.

Lemma keys_inv_insert ks h key row :
  keys_inv ks h -> (forall user, user_id row = Some user -> exists how, EBound key user how ∈ h) ->
  keys_inv (<[key := row]> ks) h.
Proof.
  intros H Hr key' row' user E Eu. apply lookup_insert_Some in E as [[<- <-]|[_ E]]; eauto.
Qed.

Lemma inv_bind s key user how :
  inv s -> event_ok (history s) (EBound key user how) ->
  let s' := set_keys (<[key := mkKeyRow (Some user) None]> (auth_keys s)) [EBound key user how] s in
  inv s' /\ guar s s'.
Proof.
  intros I He s'. eapply (inv_quiet s (EBound key user how)); try done.
  - apply keys_inv_insert.
    + eapply keys_inv_mono; [|apply I]. intros x Hx. by right.
    + intros u [= <-]. exists how. by left.
  - eapply pw_inv_mono; [|apply I]. intros x Hx. by right.
  - apply I.
Qed.

Lemma inv_BindAuthKeyUser s key user how :
  inv s -> event_ok (history s) (EBound key user how) ->
  inv (BindAuthKeyUser s key user how).2 /\ guar s (BindAuthKeyUser s key user how).2.
Proof.
  intros I He. unfold BindAuthKeyUser. destruct (auth_keys s !! key); [by apply inv_bind|].
  by split; [|apply guar_refl].
Qed.

Lemma inv_PromotePendingUser s key user how :
  inv s -> event_ok (history s) (EBound key user how) ->
  inv (PromotePendingUser s key user how).2 /\ guar s (PromotePendingUser s key user how).2.
Proof.
  intros I He. unfold PromotePendingUser. destruct (auth_keys s !! key); [case_decide|].
  - by apply inv_bind.
  - by split; [|apply guar_refl].
  - by split; [|apply guar_refl].
Qed.

Lemma inv_SetPendingUser s key user :
  inv s -> inv (SetPendingUser s key user).2 /\ guar s (SetPendingUser s key user).2.
Proof.
  intros I. unfold SetPendingUser. destruct (auth_keys s !! key); [|by split; [|apply guar_refl]].
  apply inv_keys; [done|]. apply keys_inv_insert; [apply I|done].
Qed.

Lemma inv_SaveAuthKey s key : inv s -> inv (SaveAuthKey s key) /\ guar s (SaveAuthKey s key).
Proof.
  intros I. unfold SaveAuthKey. destruct (auth_keys s !! key); [by split; [|apply guar_refl]|].
  apply inv_keys; [done|]. apply keys_inv_insert; [apply I|done].
Qed.

Lemma inv_DeleteAuthKey s key : inv s -> inv (DeleteAuthKey s key) /\ guar s (DeleteAuthKey s key).
Proof.
  intros I. apply inv_keys; [done|]. intros k row user E. apply lookup_delete_Some in E as [_ E].
  by apply (i_keys _ I).
Qed.

Lemma inv_UpsertPassword s user pw key how :
  inv s -> pw_valid pw -> event_ok (history s) (EPasswordSet user pw key how) ->
  inv (UpsertPassword s user pw key how) /\ guar s (UpsertPassword s user pw key how).
Proof.
  intros I Hv He. eapply (inv_quiet s (EPasswordSet user pw key how)); try done.
  - eapply keys_inv_mono; [|apply I]. intros x Hx. by right.
  - intros u p E. cbn in E. apply lookup_insert_Some in E as [[<- <-]|[_ E]].
    + split; [done|]. exists key, how. by left.
    + destruct (i_pw _ I _ _ E) as (? & k' & how' & ?). split; [done|]. exists k', how'. by right.
  - intros u. cbn. destruct (Z.eqb_spec user u) as [<-|]; [by rewrite lookup_insert_eq|]. rewrite lookup_insert_ne by done. apply I.
Qed.

Lemma inv_DeletePassword s user key how :
  inv s -> event_ok (history s) (EPasswordDeleted user key how) ->
  inv (DeletePassword s user key how).2 /\ guar s (DeletePassword s user key how).2.
Proof.
  intros I He. eapply (inv_quiet s (EPasswordDeleted user key how)); try done.
  - eapply keys_inv_mono; [|apply I]. intros x Hx. by right.
  - intros u p E. cbn in E. apply lookup_delete_Some in E as [_ E].
    destruct (i_pw _ I _ _ E) as (? & k' & how' & ?). split; [done|]. exists k', how'. by right.
  - intros u. cbn. destruct (Z.eqb_spec user u) as [<-|]; [by rewrite lookup_delete_eq|]. rewrite lookup_delete_ne by done. apply I.
Qed.

(** *** Challenges *)

Lemma forallb_split {A} (f g : A -> bool) l : forallb (fun x => f x && g x) l = true -> forallb f l = true /\ forallb g l = true.
Proof. rewrite !forallb_forall. intros H. split; intros x Hx; by apply H, andb_prop in Hx as [? ?]. Qed.

(** A change of the challenge store, with the events it logs. *)
Lemma inv_srp c evs s :
  inv s -> srp_inv c (evs ++ history s) ->
  (forall ev, ev ∈ evs -> forall hash, code_issued hash ev = false /\ code_consumed hash ev = false) ->
  events_ok (evs ++ history s) -> forallb (fun ev => mundane ev && pw_free ev) evs = true ->
  inv (set_srp c evs s) /\ guar s (set_srp c evs s).
Proof.
  intros I Hc Hq He [Hm Hf]%forallb_split. destruct (users_same evs s (set_srp c evs s) I) as [Hu Hn]; try done. destruct I as [_ _ I2 I3 I4 I5 I6 I7].
  assert (Hsub : forall x, x ∈ history s -> x ∈ evs ++ history s) by (intros x Hx; apply elem_of_app; by right).
  split; [split; try done; simpl|by apply (guar_same evs)].
  - by eapply keys_inv_mono.
  - by eapply pw_inv_mono.
  - clear -I5 Hq. induction evs as [|ev evs IH]; [done|]. simpl. apply codes_inv_cons.
    + apply Hq. by left.
    + apply IH. intros x Hx. apply Hq. by right.
  - intros u. rewrite password_in_free by done. apply I6.
Qed.

Lemma srp_inv_sub c c' h :
  srp_inv c h -> cs_wf c' -> ttl c' = ttl c -> (forall id e, entries c' !! id = Some e -> entries c !! id = Some e) ->
  srp_inv c' h.
Proof.
  intros (A & B & C & D) Hwf Ht Hsub. split_and!; [done|congruence| |].
  - intros id e He. apply C, Hsub, He.
  - intros id. specialize (D id). destruct (decide (is_Some (entries c' !! id))) as [[e He]|]; [|case_decide; lia].
    rewrite decide_True in D; [done|]. rewrite (Hsub _ _ He). by eexists.
Qed.

Lemma inv_issue_step key user verifier e s :
  inv s -> inv (issue_step key user verifier e s).2 /\ guar s (issue_step key user verifier e s).2.
Proof.
  intros I. assert (Hs := i_srp _ I). unfold issue_step.
  destruct (Issue (srp s) key user verifier _ _ _ _) as [[[id bPub]|] c] eqn:E; simpl.
  - apply Issue_spec in E as (bS & _ & Hid & Ht & Hwf & He & Hrest); [|apply Hs].
    rewrite He. simpl. set (p := mkPending bS bPub user) in *. apply inv_srp; [done| | | |done].
    + destruct Hs as (A & B & C & D). split_and!; [done|congruence| |].
      * intros id' e' He'. destruct (decide (id' = id)) as [->|Hne].
        -- assert (e' = mkEntry p (e_clock' e + ttl (srp s)) key) by congruence. subst e'. simpl.
           exists (e_clock' e). split; [by left|]. by rewrite B.
        -- destruct (C id' e') as (t & ? & ?); [by apply Hrest|]. exists t. split; [by right|done].
      * intros id'. simpl. rewrite !cnt_cons. simpl. specialize (D id').
        destruct (Z.eqb_spec id id') as [<-|Hne].
        -- rewrite decide_True by (rewrite He; by eexists). destruct (decide (is_Some (entries (srp s) !! id))); lia.
        -- destruct (decide (is_Some (entries c !! id'))) as [[e' He']|].
           ++ apply Hrest in He' as [He' _]; [|done]. rewrite decide_True in D by (rewrite He'; by eexists). lia.
           ++ case_decide; lia.
    + intros ev Hev. apply list_elem_of_singleton in Hev as ->. done.
    + split; [done|apply I].
  - apply Issue_failed in E as (Ht & Hwf & Hsub); [|apply Hs]. apply inv_srp; [done| | | |done].
    + by eapply srp_inv_sub.
    + intros ev Hev. by apply elem_of_nil in Hev.
    + apply I.
Qed.

Lemma inv_consume_step id key e s :
  inv s -> inv (consume_step id key e s).2 /\ guar s (consume_step id key e s).2 /\
  forall p, (consume_step id key e s).1 = Some p ->
    EConsumed id key p (e_clock e) ∈ history (consume_step id key e s).2 /\
    exists at_, EIssued id key p at_ ∈ history (consume_step id key e s).2 /\ e_clock e <= at_ + T.
Proof.
  intros I. assert (Hs := i_srp _ I). unfold consume_step.
  destruct (Consume (srp s) id key (e_clock e)) as [p c] eqn:E. simpl.
  apply Consume_spec in E as (Ht & Hwf & Hp); [|apply Hs].
  destruct p as [p|].
  - destruct Hp as (x & Hx & Hk & Hnow & <- & Hent). destruct Hs as (A & B & C & D).
    destruct (C id x Hx) as (t & Ht' & Hexp). rewrite Hk in Ht'.
    assert (Hcons : exists at_, EIssued id key (pending x) at_ ∈ EConsumed id key (pending x) (e_clock e) :: history s
              /\ e_clock e <= at_ + T).
    { exists t. split; [by right|lia]. }
    apply Init.Logic.and_assoc. split.
    + apply inv_srp; [done| | | |done].
      * split_and!; [done|congruence| |].
        -- intros id' e' He'. rewrite Hent in He'. apply lookup_delete_Some in He' as [_ He'].
           destruct (C id' e' He') as (t' & ? & ?). exists t'. split; [by right|done].
        -- intros id'. simpl. rewrite !cnt_cons. simpl. rewrite Hent. specialize (D id').
           destruct (Z.eqb_spec id id') as [<-|Hne].
           ++ rewrite decide_True in D by (rewrite Hx; by eexists).
              rewrite decide_False by (rewrite lookup_delete_eq; by intros [? ?]). lia.
           ++ rewrite lookup_delete_ne by done. lia.
      * intros ev Hev. apply list_elem_of_singleton in Hev as ->. done.
      * split; [exists t; split; [done|lia]|apply I].
    + intros p [= <-]. split; [by left|exact Hcons].
  - assert (Hsub : forall i x, entries c !! i = Some x -> entries (srp s) !! i = Some x).
    { intros i x Hx. destruct Hp as [->|Hp]; [done|]. rewrite Hp in Hx. by apply lookup_delete_Some in Hx as [_ ?]. }
    apply Init.Logic.and_assoc. split; [|done]. apply inv_srp; [done| | | |done].
    + by eapply srp_inv_sub.
    + intros ev Hev. by apply elem_of_nil in Hev.
    + apply I.
Qed.

(** *** Codes *)

Lemma inv_codes_set cs evs s :
  inv s -> codes_inv cs (evs ++ history s) ->
  (forall ev, ev ∈ evs -> forall id, issued id ev = false /\ consumed id ev = false) ->
  events_ok (evs ++ history s) -> forallb (fun ev => mundane ev && pw_free ev) evs = true ->
  inv (set_codes cs evs s) /\ guar s (set_codes cs evs s).
Proof.
  intros I Hc Hq He [Hm Hf]%forallb_split. destruct (users_same evs s (set_codes cs evs s) I) as [Hu Hn]; try done. destruct I as [_ _ I2 I3 I4 I5 I6 I7].
  assert (Hsub : forall x, x ∈ history s -> x ∈ evs ++ history s) by (intros x Hx; apply elem_of_app; by right).
  split; [split; try done; simpl|by apply (guar_same evs)].
  - clear -I2 Hq. induction evs as [|ev evs IH]; [done|]. simpl. apply srp_inv_cons.
    + apply Hq. by left.
    + apply IH. intros x Hx. apply Hq. by right.
  - by eapply keys_inv_mono.
  - by eapply pw_inv_mono.
  - intros u. rewrite password_in_free by done. apply I6.
Qed.

Lemma inv_codes_same cs s :
  inv s -> (forall hash, live_code cs hash = true -> live_code (phone_codes s) hash = true) ->
  inv (set_codes cs [] s) /\ guar s (set_codes cs [] s).
Proof.
  intros I Hl. apply inv_codes_set; [done| | | |done].
  - eapply codes_inv_mono; [exact Hl|apply I].
  - intros ev Hev. by apply elem_of_nil in Hev.
  - apply I.
Qed.

Lemma codes_live_insert cs hash r hash' :
  live_code (<[hash := r]> cs) hash' = if String.eqb hash hash' then negb (c_consumed r) else live_code cs hash'.
Proof.
  unfold live_code. destruct (String.eqb_spec hash hash') as [<-|].
  - by rewrite lookup_insert_eq.
  - by rewrite lookup_insert_ne.
Qed.

Lemma inv_InsertCode s phone hash code expires now s' :
  inv s -> InsertCode s phone hash code expires now = Some s' -> inv s' /\ guar s s'.
Proof.
  unfold InsertCode. intros I E. destruct (phone_codes s !! hash) eqn:El; [done|]. injection E as <-.
  apply inv_codes_set; [done| | | |done].
  - intros h. simpl. rewrite !cnt_cons, codes_live_insert. simpl. assert (D := i_codes _ I h).
    destruct (String.eqb_spec hash h) as [<-|]; [|lia]. unfold live_code in D. rewrite El in D. lia.
  - intros ev Hev. by apply list_elem_of_singleton in Hev as ->.
  - split; [done|apply I].
Qed.

Lemma inv_insert_drawn s phone b1 b2 now clock :
  inv s -> inv (insert_drawn s phone b1 b2 now clock).2 /\ guar s (insert_drawn s phone b1 b2 now clock).2.
Proof.
  intros I. unfold insert_drawn. destruct b1, b2; try (by split; [|apply guar_refl]).
  destruct (InsertCode _ _ _ _ _ _) eqn:E; [by eapply inv_InsertCode|by split; [|apply guar_refl]].
Qed.

Lemma inv_IssueCode s phone b1 b2 now clock :
  inv s -> inv (IssueCode s phone b1 b2 now clock).2 /\ guar s (IssueCode s phone b1 b2 now clock).2.
Proof.
  intros I. unfold IssueCode. destruct (GetLatestCode _ _); [|by apply inv_insert_drawn].
  destruct (negb _ && _); [by split; [|apply guar_refl]|by apply inv_insert_drawn].
Qed.

Lemma inv_Increment s hash : inv s -> inv (IncrementCodeAttempts s hash) /\ guar s (IncrementCodeAttempts s hash).
Proof.
  intros I. unfold IncrementCodeAttempts. destruct (phone_codes s !! hash) as [r|] eqn:E; [|by split; [|apply guar_refl]].
  apply inv_codes_set; [done| | | |done].
  - apply codes_inv_cons; [done|]. eapply codes_inv_mono; [|apply I]. intros h. rewrite codes_live_insert.
    destruct (String.eqb_spec hash h) as [<-|]; [|done]. unfold live_code. by rewrite E.
  - intros ev Hev. by apply list_elem_of_singleton in Hev as ->.
  - split; [done|apply I].
Qed.

Lemma inv_ConsumeCode s phone hash code attempts now :
  inv s ->
  inv (ConsumeCode s phone hash code attempts now).2 /\ guar s (ConsumeCode s phone hash code attempts now).2 /\
  ((ConsumeCode s phone hash code attempts now).1 = true ->
   ECodeConsumed hash phone ∈ history (ConsumeCode s phone hash code attempts now).2).
Proof.
  intros I. unfold ConsumeCode. destruct (phone_codes s !! hash) as [r|] eqn:E; [|by split_and!; [|apply guar_refl|]].
  destruct (String.eqb (c_phone r) phone && _ && _ && _ && _) eqn:Eg; [|by split_and!; [|apply guar_refl|]].
  simpl. apply Init.Logic.and_assoc. split; [|by left]. apply inv_codes_set; [done| | | |done].
  - intros h. simpl. rewrite !cnt_cons, codes_live_insert. simpl. assert (D := i_codes _ I h).
    destruct (String.eqb_spec hash h) as [<-|]; [|lia]. unfold live_code in D. rewrite E in D.
    rewrite !andb_true_iff in Eg. destruct Eg as [[[[_ _] Hc] _] _]. rewrite Hc in D. simpl. lia.
  - intros ev Hev. by apply list_elem_of_singleton in Hev as ->.
  - split; [done|apply I].
Qed.

Lemma inv_SetCode s username hash code now :
  inv s -> inv (SetCodeForUsername s username hash code now).2 /\ guar s (SetCodeForUsername s username hash code now).2.
Proof.
  intros I. unfold SetCodeForUsername, SetCodeByHashAndPhone.
  destruct (phone_codes s !! hash) as [r|] eqn:E; [|by split; [|apply guar_refl]].
  destruct (String.eqb (c_phone r) _ && _ && _ && _ && _ && _); [|by split; [|apply guar_refl]]. simpl.
  apply inv_codes_same; [done|]. intros h. rewrite codes_live_insert.
  destruct (String.eqb_spec hash h) as [<-|]; [|done]. unfold live_code. by rewrite E.
Qed.

Lemma inv_DeleteExpiredCodes s now : inv s -> inv (DeleteExpiredCodes s now) /\ guar s (DeleteExpiredCodes s now).
Proof.
  intros I. apply inv_codes_same; [done|]. intros h. unfold live_code.
  destruct (filter _ (phone_codes s) !! h) as [r|] eqn:E; [|done].
  apply map_lookup_filter_Some in E as [-> _]. done.
Qed.

Lemma inv_verify_write p phone hash code now s :
  inv s ->
  inv (verify_write p phone hash code now s).2 /\ guar s (verify_write p phone hash code now s).2 /\
  ((verify_write p phone hash code now s).1 = None ->
   ECodeConsumed hash (NormalizePhone phone) ∈ history (verify_write p phone hash code now s).2).
Proof.
  intros I. destruct p as [e| |]; simpl.
  - by split_and!; [|apply guar_refl|].
  - apply Init.Logic.and_assoc. split; [by apply inv_Increment|done].
  - assert (H := inv_ConsumeCode s (NormalizePhone phone) hash code maxAttempts now I).
    destruct (ConsumeCode _ _ _ _ _ _) as [[] s']; simpl in *; tauto || naive_solver.
Qed.

(** A step followed by one on a counter is still the same step of the registrar. *)
Lemma guar_fails s1 s2 t : guar s1 s2 -> guar s1 (set_fails t s2).
Proof. intros [H1 H2]. by split. Qed.

Lemma inv_attempt_commit s key p phone hash code cfg now :
  inv s ->
  inv (attempt_commit s key p phone hash code cfg now).2 /\ guar s (attempt_commit s key p phone hash code cfg now).2 /\
  ((attempt_commit s key p phone hash code cfg now).1 = None ->
   ECodeConsumed hash (NormalizePhone phone) ∈ history (attempt_commit s key p phone hash code cfg now).2).
Proof.
  intros I. assert (Hw := inv_verify_write p phone hash code now s I). unfold attempt_commit.
  destruct (verify_write p phone hash code now s) as [[e|] s'] eqn:Ew; simpl in Hw; destruct Hw as (I' & G & Hc).
  - destruct (ChargeSignInFailCall _ _ _ _ _) as [[] t]; simpl.
    + destruct (inv_fails t s' I') as [A _]. split_and!; [done|by apply guar_fails|done].
    + by split_and!; [|apply guar_refl|].
  - destruct (UserByPhone s' phone); [simpl; auto|].
    destruct (ChargeSignInFailCall _ _ _ _ _) as [[] t]; simpl.
    + destruct (inv_fails t s' I') as [A _]. split_and!; [done|by apply guar_fails|done].
    + by split_and!; [|apply guar_refl|].
Qed.

(** ** Handlers *)

(** What a request knows: events it has seen. *)
Definition knows (L : list event) (s : auth_state) : Prop := knowing (fun x s => x ∈ history s) L s.

Definition safeL (L : list event) (p : account_prog) : Prop :=
  safe_knowing inv guar (fun x s => x ∈ history s) L p.

Lemma seen_guar (x : event) (s s' : auth_state) : x ∈ history s -> guar s s' -> x ∈ history s'.
Proof. intros Hx Hg. by eapply guar_in. Qed.

Lemma knows_guar L s s' : knows L s -> guar s s' -> knows L s'.
Proof. intros HK Hg x Hx. by apply (guar_in _ _ _ Hg), HK. Qed.

Lemma knows_nil s : knows [] s.
Proof. apply knowing_nil. Qed.

Lemma safeL_ret L r : safeL L (Ret r).
Proof. done. Qed.

Lemma safeL_fail L e : safeL L (fail_with e).
Proof. done. Qed.

Lemma safeL_call {A} L (op : env -> auth_state -> A * auth_state) k :
  (forall e s, inv s -> knows L s -> inv (op e s).2 /\ guar s (op e s).2 /\
     exists L', knows L' (op e s).2 /\ safeL L' (k (Some (op e s).1))) ->
  safeL L (k None) -> safeL L (call op k).
Proof. apply knowing_call; [exact guar_refl|exact seen_guar]. Qed.

Lemma safeL_mem {A} L (op : env -> auth_state -> A * auth_state) k :
  (forall e s, inv s -> knows L s -> inv (op e s).2 /\ guar s (op e s).2 /\
     exists L', knows L' (op e s).2 /\ safeL L' (k (op e s).1)) ->
  safeL L (mem op k).
Proof. apply knowing_mem, seen_guar. Qed.

Lemma safeL_step {A} L (op : env -> auth_state -> A * auth_state) k :
  (forall e s, inv s -> knows L s -> inv (op e s).2 /\ guar s (op e s).2) ->
  (forall a, safeL L (k a)) -> safeL L (call op k).
Proof. apply knowing_step; [exact guar_refl|exact seen_guar]. Qed.

Lemma safeL_query {A} L (op : auth_state -> A) k : (forall a, safeL L (k a)) -> safeL L (query op k).
Proof. intros Hk. apply safeL_step; [|done]. intros e s Hi _. split; [done|apply guar_refl]. Qed.

(** A read that teaches something. *)
Lemma safeL_learn {A} L (op : auth_state -> A) k :
  (forall s, inv s -> knows L s -> exists L', knows L' s /\ safeL L' (k (Some (op s)))) ->
  safeL L (k None) -> safeL L (query op k).
Proof. intros Hop. apply knowing_read; [exact guar_refl|exact seen_guar|]. auto. Qed.

Lemma safeL_mark L p : safeL L p -> safeL L (mark_pending p).
Proof.
  unfold safeL, safe_knowing. generalize (knowing (fun x s => x ∈ history s) L). induction p as [r|f k IH]; intros K Hs; [done|]. cbn [mark_pending].
  destruct Hs as [Hst Hact]. split; [done|]. intros e s He Hi HK.
  destruct (Hact e s He Hi HK) as (? & ? & K' & ? & ?). split_and!; [done|done|]. exists K'. auto.
Qed.

Lemma inv_charge_limit subj surf cfg e s :
  inv s -> inv (charge_limit subj surf cfg e s).2 /\ guar s (charge_limit subj surf cfg e s).2.
Proof. intros I. unfold charge_limit. destruct (CheckRateLimit _ _ _ _ _ _) as [a t]. by apply inv_limits. Qed.

Lemma inv_reserve_limit subj surf cfg e s :
  inv s -> inv (reserve_limit subj surf cfg e s).2 /\ guar s (reserve_limit subj surf cfg e s).2.
Proof. intros I. unfold reserve_limit. destruct (ReserveRateLimit _ _ _ _ _ _) as [[a r] t]. by apply inv_limits. Qed.

Lemma inv_refund_limit subj surf res e s :
  inv s -> inv (refund_limit subj surf res e s).2 /\ guar s (refund_limit subj surf res e s).2.
Proof. intros I. by apply inv_limits. Qed.

(** Programs built of safe steps: one pass over the syntax. *)
Ltac safe_step :=
  first
    [ apply safeL_ret
    | apply safeL_fail
    | apply safeL_query
    | apply safeL_step; [intros ? ? ? _; auto using inv_charge_limit, inv_reserve_limit, inv_refund_limit, inv_SetPendingUser|]
    | progress intros
    | match goal with |- safeL _ (match ?x with _ => _ end) => destruct x end
    | match goal with |- safeL _ (limit_answer ?x _) => destruct x as [[]|]; cbn [limit_answer] end ].

Ltac safe_walk := repeat safe_step.

Lemma safe_checkAndCharge L r surf cfg k : (forall a, safeL L (k a)) -> safeL L (checkAndChargeRateLimitIP r surf cfg k).
Proof. intros Hk. unfold checkAndChargeRateLimitIP. safe_walk; apply Hk. Qed.

Lemma safe_checkRateLimit L r surf cfg k : (forall a, safeL L (k a)) -> safeL L (checkRateLimit r surf cfg k).
Proof. intros Hk. unfold checkRateLimit. safe_walk; apply Hk. Qed.

Lemma safe_reserveIP L r surf cfg k : (forall a, safeL L (k a)) -> safeL L (reserveRateLimitIP r surf cfg k).
Proof. intros Hk. unfold reserveRateLimitIP. safe_walk; apply Hk. Qed.

Lemma safe_refundIP L r surf res k : (forall a, safeL L (k a)) -> safeL L (refundRateLimitIP r surf res k).
Proof. intros Hk. unfold refundRateLimitIP. safe_walk; apply Hk. Qed.

Lemma safe_refund_account L u res k : (forall a, safeL L (k a)) -> safeL L (refund_account u res k).
Proof. intros Hk. unfold refund_account. safe_walk; apply Hk. Qed.

Lemma safe_resolve L r k : (forall a, safeL L (k a)) -> safeL L (resolvePasswordUser r k).
Proof. intros Hk. unfold resolvePasswordUser. safe_walk; apply Hk. Qed.

Lemma safe_randBytes L n k : (forall a, safeL L (k a)) -> safeL L (randBytes n k).
Proof.
  intros Hk. apply safeL_mem. intros e s Hi HK. split_and!; [done|apply guar_refl|]. by exists L.
Qed.

Lemma safe_issue_and_answer L r t pw s1 s2 rnd : safeL L (issue_and_answer r t pw s1 s2 rnd).
Proof.
  unfold issue_and_answer. destruct pw as [pw|]; [|apply safeL_ret]. apply safeL_mem. intros e s Hi HK.
  destruct (inv_issue_step (AuthKeyID r) t (Verifier pw) e s Hi) as [Hi' Hg]. split_and!; [done|done|].
  exists L. split; [by eapply knows_guar|]. safe_walk.
Qed.

Lemma safe_draw_and_answer L r t pw : safeL L (draw_and_answer r t pw).
Proof.
  unfold draw_and_answer. apply safe_randBytes. intros [s1|]; [|apply safeL_fail].
  apply safe_randBytes. intros [s2|]; [|apply safeL_fail].
  apply safe_randBytes. intros [rnd|]; [apply safe_issue_and_answer|apply safeL_fail].
Qed.

Lemma safe_getPassword lim L r : safeL L (handleGetPassword lim r).
Proof.
  unfold handleGetPassword. apply safe_resolve. intros [t|e]; [|apply safeL_fail].
  apply safeL_query. intros [pw|]; [|apply safeL_fail].
  assert (Hd : forall a, safeL L (match a with Some e => fail_with e | None => draw_and_answer r t pw end)).
  { intros [e|]; [apply safeL_fail|apply safe_draw_and_answer]. }
  destruct (r_UserID r =? 0); cbn [negb andb].
  - destruct (bool_decide (is_Some pw)); [apply safe_checkAndCharge|]; auto. apply (Hd None).
  - destruct (bool_decide (is_Some pw)); [by apply safe_checkRateLimit|]. apply (Hd None).
Qed.

(** What a verified proof leaves known. *)
Definition proves (L : list event) (key user : Z) (ev : proof_ev) : Prop :=
  forall h, (forall x, x ∈ L -> x ∈ h) -> ev_ok T h key user ev.

Lemma safe_consumeAndVerify L key proof k :
  (forall L' e, (forall x, x ∈ L -> x ∈ L') -> safeL L' (k (inr e))) ->
  (forall L' ev, (forall x, x ∈ L -> x ∈ L') -> proves L' key (ev_user ev) ev -> safeL L' (k (inl ev))) ->
  safeL L (consumeAndVerify key proof k).
Proof.
  intros He Hv. unfold consumeAndVerify. apply safeL_mem. intros e s Hi HK.
  destruct (inv_consume_step (SRPID proof) key e s Hi) as (Hi' & Hg & Hp). split_and!; [done|done|].
  destruct (consume_step (SRPID proof) key e s) as [[p|] s'] eqn:Es; simpl in *.
  2:{ exists L. split; [by eapply knows_guar|by apply He]. }
  destruct (Hp p eq_refl) as (Hc & t & Hiss & Hle).
  exists (EIssued (SRPID proof) key p t :: EConsumed (SRPID proof) key p (e_clock e) :: L). split.
  { intros x [->|[->|Hx]%elem_of_cons]%elem_of_cons; [done|done|]. by apply (guar_in _ _ _ Hg), HK. }
  clear s' Es Hi' Hg Hp Hc Hiss s Hi HK. set (L1 := EIssued _ _ _ _ :: _).
  assert (Hsub : forall x, x ∈ L -> x ∈ L1) by (intros x Hx; by do 2 right).
  apply safeL_learn; [|by apply He]. intros s Hi HK. simpl. destruct (PasswordByUser s (P_UserID p)) as [pw|] eqn:Epw.
  2:{ exists L1. split; [done|by apply He]. }
  destruct (Verify _ _ _ _ _ _ _) eqn:Ev; cbn [negb].
  2:{ exists L1. split; [done|by apply He]. }
  destruct (i_pw _ Hi _ _ Epw) as (_ & k' & how & Hset).
  exists (EPasswordSet (P_UserID p) pw k' how :: L1). split.
  { intros x [->|Hx]%elem_of_cons; [done|by apply HK]. }
  apply Hv; [intros x Hx; right; by apply Hsub|]. intros h Hh. unfold ev_ok, ev_user. simpl. split_and!; [done| | |done].
  - exists t, (e_clock e). split_and!; [| |done]; apply Hh; [by do 1 right; left|by do 2 right; left].
  - exists k', how. apply Hh. by left.
Qed.

Lemma safe_proof_limited lim L key proof user k :
  (forall L' e, (forall x, x ∈ L -> x ∈ L') -> safeL L' (k (inr e))) ->
  (forall L' ev, (forall x, x ∈ L -> x ∈ L') -> ev_user ev = user -> proves L' key user ev -> safeL L' (k (inl ev))) ->
  safeL L (consumeAndVerifyWithRateLimit lim key proof user k).
Proof.
  intros He Hv. unfold consumeAndVerifyWithRateLimit. apply safeL_step.
  { intros e s Hi _. by apply inv_reserve_limit. }
  intros [[[|w|] res]|]; try (apply He; auto).
  apply safe_consumeAndVerify; [auto|]. intros L' ev HL Hp.
  destruct (Z.eqb_spec (ev_user ev) user) as [E|]; cbn [negb]; [|by apply He]. rewrite E in Hp.
  destruct res; [|by apply Hv]. apply safeL_step; [intros e s Hi _; by apply inv_refund_limit|].
  intros _. by apply Hv.
Qed.

Lemma safe_promote L r ev : proves L (AuthKeyID r) (ev_user ev) ev -> safeL L (promote_and_answer r ev).
Proof.
  intros Hp. unfold promote_and_answer, answer_user. apply safeL_step; [|safe_walk].
  intros e s Hi HK. apply inv_PromotePendingUser; [done|]. by apply Hp.
Qed.

Lemma safe_checkPassword lim L r pw : safeL L (handleCheckPassword lim r pw).
Proof.
  unfold handleCheckPassword. destruct pw as [proof|]; [|apply safeL_fail].
  apply safe_resolve. intros [u|e]; [|apply safeL_fail].
  apply safeL_step; [intros e s Hi _; by apply inv_reserve_limit|]. intros [[[|w|] res]|]; try apply safeL_fail.
  apply safe_reserveIP. intros [ip|e]; [|apply safe_refund_account; intros _; apply safeL_fail].
  apply safe_consumeAndVerify; [intros; apply safeL_fail|]. intros L' ev HL Hp.
  apply safe_refund_account. intros [[]|]; [|apply safeL_fail].
  apply safe_refundIP. intros []; [by apply safe_promote|apply safeL_fail].
Qed.

Lemma safe_apply_settings L r ns how :
  match how with Some ev => proves L (AuthKeyID r) (r_UserID r) ev | None => True end ->
  safeL L (apply_settings r ns how).
Proof.
  intros Hp. unfold apply_settings. destruct (NewAlgo ns) as [|s1 s2|]; [|destruct (_ || _) eqn:Es; [apply safeL_fail|]|apply safeL_ret].
  - apply safeL_step; [|safe_walk]. intros e s Hi HK. apply inv_DeletePassword; [done|].
    destruct how as [ev|]; [by apply Hp|done].
  - destruct (negb _ || negb _) eqn:Ev; [apply safeL_fail|]. apply safeL_step; [|safe_walk].
    apply orb_false_iff in Es as [E1 E2]. apply orb_false_iff in Ev as [E3 E4].
    intros e s Hi HK. apply inv_UpsertPassword; [done| |destruct how as [ev|]; [by apply Hp|done]].
    unfold pw_valid. simpl. split_and!.
    + by apply negb_false_iff, Nat.eqb_eq in E3.
    + by apply negb_false_iff in E4.
    + by destruct s1.
    + by destruct s2.
Qed.

Lemma safe_prove_and_apply lim L r pw ns cur : safeL L (prove_and_apply lim r pw ns cur).
Proof.
  unfold prove_and_apply. destruct cur; [|by apply safe_apply_settings].
  destruct pw as [proof|]; [|apply safeL_fail]. apply safe_proof_limited; [intros; apply safeL_fail|].
  intros L' ev HL E Hp. rewrite E, Z.eqb_refl. by apply safe_apply_settings.
Qed.

Lemma safe_updateSettings lim L r pw ns : safeL L (handleUpdatePasswordSettings lim r pw ns).
Proof.
  unfold handleUpdatePasswordSettings. destruct (r_UserID r =? 0); [apply safeL_fail|].
  apply safeL_query. intros [cur|]; [|apply safeL_fail].
  destruct (NewAlgo ns); try apply safe_prove_and_apply. apply safeL_query. intros [[m|]|]; try apply safeL_fail.
  destruct (String.eqb m "username"); [apply safeL_fail|apply safe_prove_and_apply].
Qed.

Lemma safe_getSettings lim L r pw : safeL L (handleGetPasswordSettings lim r pw).
Proof.
  unfold handleGetPasswordSettings. destruct (r_UserID r =? 0); [apply safeL_fail|].
  destruct pw as [proof|]; [|apply safeL_fail]. apply safe_proof_limited; [intros; apply safeL_fail|].
  intros L' ev HL E Hp. safe_walk.
Qed.

(** *** Sign-in *)

(** A verified code is known to be consumed. *)
Lemma safe_verifyCodeWith L phone hash code k :
  (forall L' e, (forall x, x ∈ L -> x ∈ L') -> safeL L' (k (Some e))) ->
  safeL (ECodeConsumed hash (NormalizePhone phone) :: L) (k None) ->
  safeL L (verifyCodeWith phone hash code k).
Proof.
  intros He Hn. unfold verifyCodeWith. apply safeL_step; [intros e s Hi _; split; [done|apply guar_refl]|].
  assert (Hw : forall p, safeL L (call (fun e s => verify_write p phone hash code (e_now e) s)
            (fun a => match a with None => k (Some ErrStore) | Some a => k a end))).
  { intros p. apply safeL_call; [|by apply He]. intros e s Hi HK.
    destruct (inv_verify_write p phone hash code (e_now e) s Hi) as (Hi' & Hg & Hc). split_and!; [done|done|].
    destruct (verify_write p phone hash code (e_now e) s) as [[x|] s']; simpl in *.
    - exists L. split; [by eapply knows_guar|by apply He].
    - exists (ECodeConsumed hash (NormalizePhone phone) :: L). split; [|done].
      intros y [->|Hy]%elem_of_cons; [by apply Hc|by apply (guar_in _ _ _ Hg), HK]. }
  intros [[x| |]|]; auto.
Qed.

Lemma safe_AttemptSignIn L addr phone hash code cfg k :
  (forall L' w, safeL L' (k (inl w))) -> (forall L' e, safeL L' (k (inr (Some e)))) ->
  safeL (ECodeConsumed hash (NormalizePhone phone) :: L) (k (inr None)) ->
  safeL L (AttemptSignIn addr phone hash code cfg k).
Proof.
  intros Hw He Hn. unfold AttemptSignIn. destruct (negb (Enabled cfg)).
  - apply safe_verifyCodeWith; [intros; apply He|]. apply safeL_query. intros [[]|]; auto.
  - destruct (IPBucketKey addr) as [key|]; [|apply Hw].
    apply safeL_step; [intros e s Hi _; split; [done|apply guar_refl]|]. intros [[w|]|]; auto.
    apply safeL_step; [intros e s Hi _; split; [done|apply guar_refl]|]. intros [p|]; auto.
    apply safeL_call; [|apply He]. intros e s Hi HK.
    destruct (inv_attempt_commit s key p phone hash code cfg (e_now e) Hi) as (Hi' & Hg & Hc). split_and!; [done|done|].
    destruct (attempt_commit s key p phone hash code cfg (e_now e)) as [[x|] s']; simpl in *.
    + exists L. split; [by eapply knows_guar|apply He].
    + exists (ECodeConsumed hash (NormalizePhone phone) :: L). split; [|done].
      intros y [->|Hy]%elem_of_cons; [by apply Hc|by apply (guar_in _ _ _ Hg), HK].
Qed.

Lemma UserByPhone_Some s phone u :
  UserByPhone s phone = Some u -> exists row, users s !! u = Some row /\ u_phone row = Some (NormalizePhone phone).
Proof.
  unfold UserByPhone. destruct (find _ _) as [[i row]|] eqn:E; [|done]. intros [= <-].
  apply find_some in E as [Hin E]. apply bool_decide_eq_true in E. exists row. split; [|done].
  apply elem_of_map_to_list. by apply list_elem_of_In.
Qed.

(** The key is bound on the code alone only once the account was seen without a password. *)
Lemma safe_bind_by_code L key user row hash phone k :
  ECodeConsumed hash phone ∈ L -> EUser user row ∈ L -> u_phone row = Some phone ->
  (forall pw, safeL L (k (Some (Some pw)))) -> safeL L (k None) ->
  (forall K, (forall s s', inv s -> K s -> guar s s' -> K s') ->
     (forall s, inv s -> K s -> event_ok (history s) (EBound key user (ByCode hash))) -> safe inv guar (fun _ => True) K (k (Some None))) ->
  safeL L (query (fun s => PasswordByUser s user) k).
Proof.
  intros HC HU Hph Hs Hn Hk. apply safe_store_call; [exact guar_refl|intros s s' _; apply knows_guar| |exact Hn].
  intros e s _ Hi HK. split_and!; [done|apply guar_refl|]. cbn [fst snd]. destruct (PasswordByUser s user) as [pw|] eqn:Epw.
  - exists (knows L). split; [exact HK|apply Hs].
  - exists (fun s => knows L s /\ no_password_since (history s) user hash phone). split.
    + split; [exact HK|]. exists [], (history s). split_and!; [done|by apply HK|]. rewrite <- (i_pwlog _ Hi). exact Epw.
    + apply Hk.
      * intros s1 s2 _ [HK1 Hp] Hg. split; [by eapply knows_guar|]. destruct (g_history _ _ Hg) as (evs & ->). by apply no_password_since_mono.
      * intros s1 _ [HK1 Hp]. exists phone, row. split_and!; [by apply HK1|done|done].
Qed.

Lemma safe_signInPhone lim L r phone hash code : safeL L (handleSignInPhone lim r phone hash code).
Proof.
  unfold handleSignInPhone. apply safe_AttemptSignIn; [intros; apply safeL_fail|intros; apply safeL_fail|].
  apply safeL_learn; [|apply safeL_fail]. intros s Hi HK.
  destruct (UserByPhone s phone) as [u|] eqn:Eu; [|eexists; split; [exact HK|apply safeL_fail]].
  apply UserByPhone_Some in Eu as (row & Erow & Eph). apply (i_users _ Hi) in Erow. eexists (EUser u row :: _).
  split; [by apply knowing_cons|]. apply (safe_bind_by_code _ (AuthKeyID r) u row hash (NormalizePhone phone));
    [by right; left|by left|done|intros pw; safe_walk|apply safeL_fail|].
  intros K HKs HKe. apply safe_store_call; [exact guar_refl|exact HKs| |done]. intros e s' _ Hi' HK'.
  destruct (inv_BindAuthKeyUser s' (AuthKeyID r) u (ByCode hash) Hi' (HKe _ Hi' HK')) as [Hi2 Hg2]. split_and!; [done|done|].
  exists (fun _ => True). split; [done|]. by destruct (BindAuthKeyUser s' (AuthKeyID r) u (ByCode hash)).1.
Qed.

Lemma safe_signInUsername L r username hash code : safeL L (handleSignInUsername r username hash code).
Proof.
  unfold handleSignInUsername. apply safeL_step; [intros e s Hi _; split; [done|apply guar_refl]|].
  intros [[e|]|]; try apply safeL_fail. apply safeL_query. intros [[[u m]|]|]; try apply safeL_fail.
  - safe_walk.
  - destruct (_ && _); [|apply safeL_ret]. apply safeL_step; [intros e s Hi _; by apply inv_SetCode|safe_walk].
Qed.

Lemma inv_sendCodeIP s addr phone cfg now clock :
  inv s -> inv (CheckAndChargeSendCodeIP s addr phone cfg now clock).2 /\
           guar s (CheckAndChargeSendCodeIP s addr phone cfg now clock).2.
Proof.
  intros I. unfold CheckAndChargeSendCodeIP.
  destruct (negb _); [by split; [|apply guar_refl]|]. destruct (IPBucketKey addr); [|by split; [|apply guar_refl]].
  destruct (chargeSendCodeIPCall _ _ _ _ _); [by split; [|apply guar_refl]|].
  destruct (chargeSendCodeIPPhone _ _ _ _ _ _); [by split; [|apply guar_refl]|by apply inv_send].
Qed.

Lemma safe_issue_code L isu input : safeL L (issue_code_for isu input).
Proof.
  unfold issue_code_for. apply safeL_step; [|safe_walk]. intros e s Hi _. destruct isu.
  - by apply inv_insert_drawn.
  - by apply inv_IssueCode.
Qed.

Lemma safe_sendCode lim L r phone : safeL L (handleSendCode lim r phone).
Proof.
  assert (Hc : forall x k, (forall a, safeL L (k a)) -> safeL L (checkSendCodeIP lim r x k)).
  { intros x k Hk. unfold checkSendCodeIP. destruct (negb _); [apply Hk|].
    apply safeL_step; [intros e s Hi _; by apply inv_sendCodeIP|]. intros [[[[]|]|]|]; apply Hk. }
  unfold handleSendCode. destruct (validatePhone phone).
  - apply Hc. intros [e|]; [apply safeL_fail|apply safe_issue_code].
  - destruct (validateUsername phone); [|apply safeL_fail]. apply Hc.
    intros [e|]; [apply safeL_fail|apply safe_issue_code].
Qed.

Lemma safe_signIn lim L r phone hash code : safeL L (handleSignIn lim r phone hash code).
Proof.
  unfold handleSignIn. destruct (validatePhone phone); [apply safeL_mark, safe_signInPhone|].
  destruct (validateUsername phone); [apply safeL_mark, safe_signInUsername|apply safeL_fail].
Qed.

Lemma safe_logOut L r : safeL L (handleLogOut r).
Proof.
  unfold handleLogOut. apply safeL_query. intros [key|]; [|apply safeL_fail].
  apply safeL_step; [intros e s Hi _; by apply inv_DeleteAuthKey|]. safe_walk.
Qed.

(** *** Sign-up and invitations *)

Lemma inv_registry r s :
  inv s -> users_id_seq (registration s) <= users_id_seq r -> reg_step (ledger_of s) (ledger_of (set_registry r s)) ->
  inv (set_registry r s) /\ guar s (set_registry r s).
Proof.
  intros [I1 I2 I3 I4 I5 I6 I7 I8] Hr Hstep. split; [|split; [by exists []|done]]. split; try done. cbn. intros u Hu. specialize (I2 u Hu). lia.
Qed.

Lemma inv_IssueInvite handle lifetimes draw now s :
  inv s -> inv (IssueInvite handle lifetimes draw now s).2 /\ guar s (IssueInvite handle lifetimes draw now s).2.
Proof.
  intros I. pose proof (issue_step_ok handle lifetimes draw now s) as [Hstep _]. revert Hstep.
  unfold IssueInvite. cbv zeta. destruct (String.eqb _ _); [by split; [|apply guar_refl]|].
  destruct (inviteLifetime lifetimes); [|by split; [|apply guar_refl]]. destruct draw; [|by split; [|apply guar_refl]].
  unfold InsertRegistrationInvite. cbv zeta. repeat case_match; simplify_eq; cbn [snd]; intros Hstep; by apply inv_registry.
Qed.

Lemma inv_RevokeInvite id now s : inv s -> inv (RevokeInvite id now s) /\ guar s (RevokeInvite id now s).
Proof.
  intros I. pose proof (revoke_step_ok id now s) as [Hstep _]. revert Hstep. unfold RevokeInvite.
  repeat case_match; intros Hstep; by apply inv_registry || by split; [|apply guar_refl].
Qed.

Lemma inv_admits handle hash key first last invite now user s s' :
  inv s -> mode_ok invite -> admits handle hash key first last invite now user s s' -> inv s' /\ guar s s'.
Proof.
  intros I Hmode Ha. pose proof (admits_step _ _ _ _ _ _ _ _ _ _ Ha) as Hstep.
  destruct Ha as [Hus _ _ (r & Hr & Hg & Hc) (a & _ & _ & m & _ & Hreg) Hu _ Hk Hh (Hsrp & Hpw & _)].
  assert (Hsub : forall x, x ∈ history s -> x ∈ history s') by (intros x Hx; rewrite Hh; apply elem_of_app; by right).
  assert (Hfresh : users s !! user = None).
  { apply eq_None_not_Some. intros Hs. apply (i_seq _ I) in Hs. lia. }
  split; [|split; [by eexists|done]]. split.
  - intros u row. rewrite Hu, Hh. cbn [app]. rewrite !elem_of_cons. destruct (decide (u = user)) as [->|Hne].
    + rewrite lookup_insert_eq. rewrite <- (i_users _ I), Hfresh. naive_solver.
    + rewrite lookup_insert_ne, (i_users _ I) by done. naive_solver.
  - intros u. rewrite Hu, Hreg. cbn. intros [x [[<- _]|[_ Hx]]%lookup_insert_Some]; [lia|].
    assert (u <= users_id_seq (registration s)) by (apply (i_seq _ I); by eexists). lia.
  - rewrite Hsrp, Hh. cbn [app]. do 4 (apply srp_inv_cons; [done|]). apply I.
  - rewrite Hk. apply keys_inv_insert; [eapply keys_inv_mono; [exact Hsub|apply I]|]. intros u [= <-]. exists (BySignUp hash).
    rewrite Hh. by left.
  - rewrite Hpw. eapply pw_inv_mono; [exact Hsub|apply I].
  - rewrite Hc, Hh. cbn [app]. do 3 (apply codes_inv_cons; [done|]). intros h. rewrite !cnt_cons, codes_live_insert. cbn.
    assert (D := i_codes _ I h). destruct Hg as (_ & Hco & _). destruct (String.eqb_spec hash h) as [<-|]; [|lia].
    unfold live_code in D. rewrite Hr, Hco in D. cbn in D. lia.
  - intros u. rewrite Hpw, Hh. cbn. apply I.
  - rewrite Hh. cbn [app events_ok]. split_and!; [|exact Hmode|done|done|apply I].
    exists handle, invite, (mkUser None "username" first last (Some handle)). rewrite !elem_of_cons. split_and!; auto.
Qed.

Lemma inv_admit_write handle hash key first last (req : bool) code now s :
  ToLower handle = handle -> mode = (if req then RegistrationInvite else RegistrationOpen) -> inv s ->
  inv (admit_write handle hash key first last req code now s).2 /\ guar s (admit_write handle hash key first last req code now s).2.
Proof.
  intros Hl Hmode I. pose proof (admit_write_spec handle hash key first last req code now s Hl) as H.
  destruct (admit_write handle hash key first last req code now s) as [[user|x] s']; cbn [snd].
  - destruct H as (invite & Hreq & H). eapply inv_admits; [done| |exact H]. unfold mode_ok. rewrite Hmode. destruct req.
    + left. split; [done|]. by apply bool_decide_eq_true in Hreq.
    + right. split; [done|]. apply eq_None_not_Some. by apply bool_decide_eq_false in Hreq.
  - destruct H as [->| ->]; [by split; [|apply guar_refl]|]. apply inv_registry; [done|cbn; lia|].
    rewrite ledger_registry. apply rs_draw; cbn; lia || done.
Qed.

Lemma safe_signUp lim L r req : registrationMode lim = mode -> safeL L (handleSignUp lim r req).
Proof.
  intros Hmode. unfold handleSignUp. destruct (negb _) eqn:Eopen; [apply safeL_fail|]. apply negb_false_iff in Eopen. apply safe_checkAndCharge. intros [x|]; [apply safeL_fail|].
  apply safeL_query. intros [key|]; [|apply safeL_fail]. cbv zeta. repeat (destruct (negb _); [apply safeL_fail|]).
  destruct (isReservedUsername _); [apply safeL_fail|]. repeat (destruct (negb _); [apply safeL_fail|]).
  unfold AdmitUsername. apply safeL_step; [intros e s Hi _; split; [done|apply guar_refl]|].
  intros [[code|x]|]; try apply safeL_fail. apply safeL_step; [|intros [[user|x]|]; cbn beta iota; [apply safeL_ret|apply safeL_fail|apply safeL_fail]].
  intros e s Hi _. apply inv_admit_write; [apply ToLower_idem| |done]. rewrite <- Hmode.
  destruct (String.eqb_spec (registrationMode lim) RegistrationInvite) as [->|]; [done|]. by apply String.eqb_eq in Eopen.
Qed.

End invariant.

(** ** Every request *)

(** What may arrive: a finished key exchange, the handlers with any arguments, the operator's
    invitations, the sweeps of the background loop. *)
Definition background (f : env -> auth_state -> auth_state) : account_prog :=
  call (fun e s => (tt, f e s)) (fun _ => Ret (reply_of RBoolTrue)).

Inductive account_start (lim : limits) : account_prog -> Prop :=
| as_key id : account_start lim (background (fun _ s => SaveAuthKey s id))
| as_sendCode r phone : account_start lim (handleSendCode lim r phone)
| as_signIn r phone hash code : account_start lim (handleSignIn lim r phone hash code)
| as_getPassword r : account_start lim (handleGetPassword lim r)
| as_checkPassword r pw : account_start lim (handleCheckPassword lim r pw)
| as_updateSettings r pw ns : account_start lim (handleUpdatePasswordSettings lim r pw ns)
| as_getSettings r pw : account_start lim (handleGetPasswordSettings lim r pw)
| as_logOut r : account_start lim (handleLogOut r)
| as_signUp r req : account_start lim (handleSignUp lim r req)
| as_issueInvite handle lifetimes :
    account_start lim (background (fun e s => (IssueInvite handle lifetimes (e_rand e inviteSecretBytes) (e_now e) s).2))
| as_revokeInvite id : account_start lim (background (fun e s => RevokeInvite id (e_now e) s))
| as_sweep_codes : account_start lim (background (fun e s => DeleteExpiredCodes s (e_now e)))
| as_sweep_limits : account_start lim (background (fun e s => set_limits (SweepExpiredRateLimits (rate_limits s) (e_now e)) s))
| as_sweep_fails : account_start lim (background (fun e s => SweepExpiredSignInFailCalls s (e_now e)))
| as_sweep_send : account_start lim (background (fun e s => SweepExpiredSendCodeIPLimits s (e_now e))).

(** A server that has just started: no key, no password, no code, no invitation; its accounts
    and names are given, and the election is open when there is no account. *)
Definition fresh_registry (us : gmap Z user_row) : registry :=
  mkRegistry ∅ 0 (foldr Z.max 0 (map_to_list us).*1) (Some (mkAdministration (bool_decide (us <> ∅)) None)) (dom us).

Definition fresh (us : gmap Z user_row) (names : gmap string (string * Z)) : auth_state :=
  mkState (NewChallengeStore DefaultTTL) ∅ ∅ us names ∅ ∅ ∅ ∅ ∅ (map (fun ur => EUser ur.1 ur.2) (map_to_list us)) (fresh_registry us).

Definition account_reach (lim : limits) (us : gmap Z user_row) (names : gmap string (string * Z))
    : auth_state * list account_prog -> Prop :=
  pool_reach (account_start lim) (fun _ => True) (fresh us names).

Lemma foldr_max_ge l x : x ∈ l -> x <= foldr Z.max 0 l.
Proof. induction l as [|y l IH]; [by intros ?%elem_of_nil|]. cbn. intros [->|H]%elem_of_cons; [lia|]. specialize (IH H). lia. Qed.

(** The accounts a server starts with count as no event of the others' kinds. *)
Lemma cnt_users p (l : list (Z * user_row)) : (forall u row, p (EUser u row) = false) -> cnt p (map (fun ur => EUser ur.1 ur.2) l) = 0.
Proof. intros Hp. induction l as [|[u row] l IH]; [done|]. cbn [map]. rewrite cnt_cons, Hp. lia. Qed.

Lemma fresh_inv mode us names : inv DefaultTTL mode (fresh us names).
Proof.
  split.
  - intros u row. cbn. rewrite list_elem_of_fmap. split.
    + intros H. exists (u, row). split; [done|]. by apply elem_of_map_to_list.
    + intros ([u' row'] & [= -> ->] & H). by apply elem_of_map_to_list.
  - intros u [row Hrow]. cbn. apply foldr_max_ge, list_elem_of_fmap. exists (u, row). split; [done|]. by apply elem_of_map_to_list.
  - split_and!; [apply cs_wf_new|done| |]; cbn [fresh srp history]; intros id.
    + intros e He. cbn in He. by rewrite lookup_empty in He.
    + rewrite decide_False; [|cbn; rewrite lookup_empty; by intros [? ?]]. rewrite !cnt_users by done. done.
  - intros key row user E. cbn in E. by rewrite lookup_empty in E.
  - intros user pw E. cbn in E. by rewrite lookup_empty in E.
  - intros hash. unfold live_code. cbn [fresh phone_codes history]. rewrite lookup_empty, !cnt_users by done. done.
  - intros u. cbn [fresh user_passwords history]. rewrite lookup_empty. generalize (map_to_list us). intros l. by induction l.
  - cbn [fresh history]. generalize (map_to_list us). intros l. induction l; by split.
Qed.

Lemma safe_background T mode L f :
  (forall e s, inv T mode s -> inv T mode (f e s) /\ guar s (f e s)) -> safeL T mode L (background f).
Proof. intros H. apply safeL_step; [intros e s Hi _; by apply H|]. intros a. apply safeL_ret. Qed.

Lemma start_safe T lim p : account_start lim p -> safeL T (registrationMode lim) [] p.
Proof.
  intros H. destruct H; auto using safe_sendCode, safe_signIn, safe_getPassword, safe_checkPassword,
    safe_updateSettings, safe_getSettings, safe_logOut, safe_signUp; apply safe_background; intros e s Hi.
  - by apply inv_SaveAuthKey.
  - by apply inv_IssueInvite.
  - by apply inv_RevokeInvite.
  - by apply inv_DeleteExpiredCodes.
  - by apply inv_limits.
  - by apply inv_fails.
  - by apply inv_send.
Qed.

Lemma account_pool_inv lim us names c : account_reach lim us names c -> pool_inv (inv DefaultTTL (registrationMode lim)) guar (fun _ => True) c.
Proof.
  apply pool_reach_inv; [|apply fresh_inv]. intros p Hp. exists (knows []). split; [intros; apply knows_nil|by eapply start_safe].
Qed.

Lemma account_inv lim us names s ps : account_reach lim us names (s, ps) -> inv DefaultTTL (registrationMode lim) s.
Proof. by intros [Hi _]%account_pool_inv. Qed.

(** ** Properties *)

(** C5 (safety).  However any number of account requests interleave, with the store
    failing at any call, a key is bound to a user only on good evidence, all of it older than
    the binding: a password proof for that user made with that key, on a challenge issued to
    that key for that user at most five minutes earlier and against a password the user had
    set; or a login code consumed under the phone of the account, which at some moment between
    the code's consumption and the binding had no password; or the admission that made the
    account, with a code consumed under its handle. *)
Theorem key_bound_on_evidence (lim : limits) (us : gmap Z user_row) (names : gmap string (string * Z))
    (s : auth_state) (ps : list account_prog) (key user : Z) (row : key_row) :
  account_reach lim us names (s, ps) ->
  auth_keys s !! key = Some row -> user_id row = Some user ->
  exists how later earlier, history s = later ++ EBound key user how :: earlier /\
    match how with
    | ByProof ev => ev_ok DefaultTTL earlier key user ev
    | ByCode hash => exists phone row after seen,
        users s !! user = Some row /\ u_phone row = Some phone /\ earlier = after ++ seen /\
        ECodeConsumed hash phone ∈ seen /\ password_in seen user = None
    | BySignUp hash => exists handle invite row, EAdmitted user handle hash invite ∈ earlier /\
        ECodeConsumed hash handle ∈ earlier /\ users s !! user = Some row /\ u_phone row = None /\
        login_mode row = "username"%string /\ u_username row = Some handle
    end.
Proof.
  intros Hr Hk Hu. assert (I := account_inv _ _ _ _ _ Hr).
  destruct (i_keys _ _ _ I _ _ _ Hk Hu) as [how Hb].
  destruct (events_in _ _ _ _ (i_events _ _ _ I) Hb) as (later & earlier & Hh & He). exists how, later, earlier. split; [done|].
  assert (Hus : forall r, EUser user r ∈ earlier -> users s !! user = Some r).
  { intros r Hin. apply (i_users _ _ _ I). rewrite Hh. apply elem_of_app. right. by right. }
  destruct how as [ev|hash|hash]; [done| |].
  - destruct He as (phone & prow & Hin & Hph & after & seen & -> & Hc & Hp). exists phone, prow, after, seen. split_and!; auto.
  - destruct He as (handle & invite & urow & ? & ? & ? & ? & ? & ?). exists handle, invite, urow. split_and!; auto.
Qed.

(** C33 (invariant).  At every moment of every interleaving, no challenge and no login code
    has been consumed more often than it was issued, a challenge is consumed only by the
    key it was issued to and within its lifetime, and a key holds at most one outstanding
    challenge for a user. *)
Theorem challenges_and_codes_single_use (lim : limits) (us : gmap Z user_row)
    (names : gmap string (string * Z)) (s : auth_state) (ps : list account_prog) :
  account_reach lim us names (s, ps) ->
  (forall id, cnt (consumed id) (history s) <= cnt (issued id) (history s)) /\
  (forall hash, cnt (code_consumed hash) (history s) <= cnt (code_issued hash) (history s)) /\
  (forall id key p now, EConsumed id key p now ∈ history s ->
     exists at_, EIssued id key p at_ ∈ history s /\ now <= at_ + DefaultTTL) /\
  (forall id id' e e', entries (srp s) !! id = Some e -> entries (srp s) !! id' = Some e' ->
     e_authKeyID e = e_authKeyID e' -> P_UserID (pending e) = P_UserID (pending e') -> id = id').
Proof.
  intros Hr. assert (I := account_inv _ _ _ _ _ Hr). destruct (i_srp _ _ _ I) as (Hwf & _ & _ & Hc).
  split_and!.
  - intros id. specialize (Hc id). case_decide; lia.
  - intros hash. assert (H := i_codes _ _ _ I hash). destruct (live_code _ hash); lia.
  - intros id key p now Hev. destruct (events_in _ _ _ _ (i_events _ _ _ I) Hev) as (later & earlier & -> & at_ & Hi & Ht).
    exists at_. split; [|done]. apply elem_of_app. right. by right.
  - intros id id' e e' H1 H2 E1 E2. apply Hwf in H1 as [_ H1]. apply Hwf in H2 as [_ H2].
    rewrite E1, E2 in H1. congruence.
Qed.

(** Every stored password is well formed (salts present, a 256-byte verifier
    that is a valid group element), and the proof a replacement or a removal was made on
    is good evidence for that user from the key the request came on. *)
Theorem passwords_valid_and_proved (lim : limits) (us : gmap Z user_row) (names : gmap string (string * Z))
    (s : auth_state) (ps : list account_prog) :
  account_reach lim us names (s, ps) ->
  (forall user pw, user_passwords s !! user = Some pw -> pw_valid pw) /\
  (forall user pw key ev, EPasswordSet user pw key (Some ev) ∈ history s ->
     ev_ok DefaultTTL (history s) key user ev) /\
  (forall user key ev, EPasswordDeleted user key (Some ev) ∈ history s ->
     ev_ok DefaultTTL (history s) key user ev).
Proof.
  intros Hr. assert (I := account_inv _ _ _ _ _ Hr). split_and!.
  - intros user pw H. apply (i_pw _ _ _ I user pw H).
  - intros user pw key ev H. destruct (events_in _ _ _ _ (i_events _ _ _ I) H) as (later & earlier & -> & He).
    eapply ev_ok_mono; [|exact He]. intros x Hx. apply elem_of_app. right. by right.
  - intros user key ev H. destruct (events_in _ _ _ _ (i_events _ _ _ I) H) as (later & earlier & -> & He).
    eapply ev_ok_mono; [|exact He]. intros x Hx. apply elem_of_app. right. by right.
Qed.
