(* ===== verification/AccountRuns.v ===== *)
(** * Account requests, one at a time and at once

    What one request does alone (an honest login succeeds, a failed proof costs a token,
    a password changes only on a proof), what a run of sign-in attempts one after
    another is bounded by, and schedules of requests at once that meet the theorems'
    hypotheses or pass the bound. *)

From S2P Require Import Prelude.
From S2P Require Import NetAddr.
From S2P Require Import GoStrings.
From S2P Require Import RateLimit.
From S2P Require Import Sha256.
From S2P Require Import Srp.
From S2P Require Import Challenges.
From S2P Require Import Threads.
From S2P Require Import Limits.
From S2P Require Import AccountStore.
From S2P Require Import Account.
From S2P Require Import Registration.
From S2P Require Import AccountSafety.
From Stdlib Require Import Ascii String.

Open Scope Z_scope.

#[local] Opaque Verify ValidVerifier Challenge PadLen.

(** ** Running alone *)

(** No call of the store fails, and nothing else touches the limits meanwhile. *)
Definition calm (e : env) : Prop := e_fault e = NoFault /\ e_between e = id.

Definition any_env (e : env) : Prop := True.

Section alone.
Context (ok : env -> Prop).

Lemma wp_op {A} (op : env -> auth_state -> A * auth_state) k s Q :
  (forall e, ok e -> wp ok (k (Some (op e s).1)) (op e s).2 Q) ->
  (forall e, ok e -> e_fault e <> NoFault -> wp ok (k None) s Q /\ wp ok (k None) (op e s).2 Q) ->
  wp ok (call op k) s Q.
Proof. apply wp_store_call. Qed.

Lemma wp_mem {A} (op : env -> auth_state -> A * auth_state) k s Q :
  (forall e, ok e -> wp ok (k (op e s).1) (op e s).2 Q) -> wp ok (mem op k) s Q.
Proof. apply wp_mem_call. Qed.

Lemma wp_query {A} (op : auth_state -> A) k s Q :
  wp ok (k (Some (op s))) s Q -> wp ok (k None) s Q -> wp ok (query op k) s Q.
Proof. intros H1 H2. apply wp_op; auto. Qed.

(** The challenge a proof names, as it stands. *)
Definition names_challenge (s : auth_state) (key : Z) (proof : srp_proof) (x : entry) : Prop :=
  entries (srp s) !! SRPID proof = Some x /\ e_authKeyID x = key.

(** The proof answers the challenge against the stored password of its user. *)
Definition accepted (s : auth_state) (key : Z) (proof : srp_proof) (x : entry) (pw : UserPassword) : Prop :=
  names_challenge s key proof x /\ user_passwords s !! P_UserID (pending x) = Some pw /\
  Verify (Verifier pw) (Salt1 pw) (Salt2 pw) (pr_A proof) (pr_M1 proof) (BPublic (pending x)) (BSecret (pending x)) = true.

(** How it fails: for want of a challenge, of a right answer, or of the store. *)
Definition verify_error (e : rpc_error) : Prop :=
  e = errSRPIDInvalid \/ e = errPasswordHashInvalid \/ e = errInternal /\ exists e', ok e' /\ e_fault e' <> NoFault.

(** Consuming and verifying touches the challenge store alone. *)
Lemma wp_consumeAndVerify s key proof k Q :
  (forall e c evs, verify_error e -> wp ok (k (inr e)) (set_srp c evs s) Q) ->
  (forall x pw c evs, accepted s key proof x pw ->
     wp ok (k (inl (mkEv (SRPID proof) (pending x) pw (pr_A proof) (pr_M1 proof)))) (set_srp c evs s) Q) ->
  wp ok (consumeAndVerify key proof k) s Q.
Proof.
  intros He Hv. unfold consumeAndVerify. apply wp_mem. intros e Hok. unfold consume_step.
  destruct (Consume (srp s) (SRPID proof) key (e_clock e)) as [[p|] c] eqn:Ec; cbn [fst snd].
  2:{ apply He. by left. }
  assert (Hx : exists x, names_challenge s key proof x /\ pending x = p).
  { unfold Consume in Ec. destruct (entries (srp s) !! SRPID proof) as [x|] eqn:Ex; [|done].
    destruct (Z.eqb_spec (e_authKeyID x) key); [|done]. cbn [negb] in Ec.
    destruct (e_clock e >? expiresAt x); [done|]. injection Ec as <- _. by exists x. }
  destruct Hx as (x & Hn & <-). apply wp_op.
  2:{ intros e' He' Hf. split; apply He; right; right; eauto. }
  intros e' He'. unfold PasswordByUser. cbn [user_passwords set_srp fst snd].
  destruct (user_passwords s !! P_UserID (pending x)) as [pw|] eqn:Epw; [|apply He; right; by left].
  destruct (Verify _ _ _ _ _ _ _) eqn:Ev; cbn [negb]; [by apply Hv|apply He; right; by left].
Qed.

End alone.

(** ** Changing the password *)

(** What [handleUpdatePasswordSettings] may leave of the passwords. *)
Definition update_post (r : Request) (pw : option srp_proof) (s : auth_state) (pw0 : UserPassword)
    (s' : auth_state) : Prop :=
  (forall v, v <> r_UserID r -> user_passwords s' !! v = user_passwords s !! v) /\
  (user_passwords s' !! r_UserID r = Some pw0 \/
   exists proof x, pw = Some proof /\ accepted s (AuthKeyID r) proof x pw0 /\ P_UserID (pending x) = r_UserID r).

Lemma wp_apply_settings r pw s pw0 ns how s1 :
  user_passwords s1 = user_passwords s ->
  (exists proof x, pw = Some proof /\ accepted s (AuthKeyID r) proof x pw0 /\ P_UserID (pending x) = r_UserID r) ->
  wp any_env (apply_settings r ns how) s1 (fun _ s' => update_post r pw s pw0 s').
Proof.
  intros E Hp. assert (Hq : forall s', (forall v, v <> r_UserID r -> user_passwords s' !! v = user_passwords s !! v) ->
    update_post r pw s pw0 s') by (intros s' H; split; [done|by right]).
  unfold apply_settings. destruct (NewAlgo ns) as [|s1' s2'|].
  - assert (Hd : forall v, v <> r_UserID r -> user_passwords (DeletePassword s1 (r_UserID r) (AuthKeyID r) how).2 !! v
        = user_passwords s !! v).
    { intros v Hv. simpl. by rewrite lookup_delete_ne, E. }
    apply wp_op; [intros e _; by apply Hq|]. intros e _ _. split; apply Hq; [by rewrite E|done].
  - destruct (_ || _); [apply Hq; by rewrite E|]. destruct (_ || _); [apply Hq; by rewrite E|].
    apply wp_op; [intros e _; apply Hq; intros v Hv; simpl; by rewrite lookup_insert_ne, E|].
    intros e _ _. split; apply Hq; intros v Hv; simpl; by rewrite ?lookup_insert_ne, E.
  - apply Hq. by rewrite E.
Qed.

Lemma wp_prove_and_apply lim r pw ns s pw0 :
  user_passwords s !! r_UserID r = Some pw0 ->
  wp any_env (prove_and_apply lim r pw ns true) s (fun _ s' => update_post r pw s pw0 s').
Proof.
  intros Hcur. unfold prove_and_apply.
  assert (Hsame : forall s', user_passwords s' = user_passwords s -> update_post r pw s pw0 s').
  { intros s' E. split; [by rewrite E|left; by rewrite E]. }
  destruct pw as [proof|]; [|by apply Hsame].
  unfold consumeAndVerifyWithRateLimit.
  set (cfg := rateLimitPasswordProof lim).
  assert (Hr : forall e, user_passwords (reserve_limit (r_UserID r) "password_proof" cfg e s).2 = user_passwords s /\
                         srp (reserve_limit (r_UserID r) "password_proof" cfg e s).2 = srp s).
  { intros e. unfold reserve_limit. by destruct (ReserveRateLimit _ _ _ _ _ _) as [[a x] t]. }
  apply wp_op; [|intros e _ _; destruct (Hr e); split; by apply Hsame].
  intros e _. destruct (Hr e) as [E1 E2].
  destruct (reserve_limit (r_UserID r) "password_proof" cfg e s) as [[[|w|] res] s1]; simpl in *;
    try by apply Hsame.
  apply wp_consumeAndVerify; [intros x c evs _; apply Hsame; by simpl|].
  intros x pw1 c evs [[Hx Hk] [Hpw Hv]]. rewrite E1 in Hpw. rewrite E2 in Hx. unfold ev_user. cbn [ev_pending].
  destruct (Z.eqb_spec (P_UserID (pending x)) (r_UserID r)) as [Eu|]; cbn [negb]; [|by apply Hsame].
  assert (Hp : exists proof' x', Some proof = Some proof' /\ accepted s (AuthKeyID r) proof' x' pw0 /\
                 P_UserID (pending x') = r_UserID r).
  { exists proof, x. split_and!; [done| |done]. rewrite Eu in Hpw. assert (pw1 = pw0) by congruence. subst pw1.
    split; [done|]. split; [by rewrite Eu|done]. }
  destruct res as [ws|]; rewrite ?Eu, ?Z.eqb_refl; cbn [negb].
  - apply wp_op; [intros e' _|intros e' _ _; split]; rewrite ?Eu, ?Z.eqb_refl; cbn [negb];
      by apply wp_apply_settings.
  - by apply wp_apply_settings.
Qed.

(** With a password in place, account.updatePasswordSettings changes it only
    when the request carries a proof of it: on a challenge issued to this key for this
    user, and accepted against the very password in place.  Nobody else's password is
    ever touched.  The store may fail at any call. *)
Theorem update_needs_proof (lim : limits) (r : Request) (pw : option srp_proof) (ns : new_settings)
    (s : auth_state) (pw0 : UserPassword) (envs : nat -> env) :
  user_passwords s !! r_UserID r = Some pw0 ->
  update_post r pw s pw0 (exec envs 0 s (handleUpdatePasswordSettings lim r pw ns)).2.
Proof.
  intros Hcur. apply (wp_exec any_env _ _ (fun _ s' => update_post r pw s pw0 s')); [done|].
  assert (Hsame : update_post r pw s pw0 s) by (split; [done|by left]).
  unfold handleUpdatePasswordSettings. destruct (r_UserID r =? 0); [done|].
  apply wp_query; [|done]. unfold PasswordByUser. rewrite Hcur.
  rewrite (bool_decide_eq_true_2 (is_Some (Some pw0))) by done.
  assert (Hp := wp_prove_and_apply lim r pw ns s pw0 Hcur).
  destruct (NewAlgo ns); try exact Hp. apply wp_query; [|done].
  destruct (UserLoginMode s (r_UserID r)) as [m|]; [|done].
  destruct (String.eqb m "username"); [done|exact Hp].
Qed.

(** ** The budget of guesses *)

Section calm.
Context (ok : env -> Prop).
Hypothesis ok_calm : forall e, ok e -> calm e.

Lemma wp_calm_call {A} (op : env -> auth_state -> A * auth_state) k s Q :
  (forall e, ok e -> wp ok (k (Some (op e s).1)) (op e s).2 Q) -> wp ok (call op k) s Q.
Proof.
  intros H. apply wp_op; [done|]. intros e He Hf. by destruct (ok_calm e He) as [? _].
Qed.

Lemma wp_calm_query {A} (op : auth_state -> A) k s Q : wp ok (k (Some (op s))) s Q -> wp ok (query op k) s Q.
Proof. intros H. by apply wp_calm_call. Qed.

(** A pending key resolves to the user it waits for. *)
Lemma wp_calm_resolve r s row u k Q :
  r_UserID r = 0 -> auth_keys s !! AuthKeyID r = Some row -> pending_user_id row = Some u -> u <> 0 ->
  wp ok (k (inl u)) s Q -> wp ok (resolvePendingUserID r k) s Q.
Proof.
  intros H0 Hk Hp Hu Hw. unfold resolvePendingUserID. rewrite H0. cbn [negb Z.eqb].
  change (0 =? 0) with true. cbn [negb]. apply wp_calm_query. unfold AuthKeyByID. rewrite Hk, Hp.
  cbn [AK_PendingUserID default]. unfold id. by rewrite (proj2 (Z.eqb_neq u 0) Hu).
Qed.

(** What a reservation does to the row it is for, and to the others. *)
Lemma reserve_calm subj surf cfg e s :
  ok e -> Enabled cfg = true ->
  match TryConsumeRateLimit (rate_limits s) (subj, surf) (window_us cfg) (Limit cfg) (e_now e) with
  | (Some row, t) =>
      reserve_limit subj surf cfg e s = ((RLAllowed, Some (window_start row)), set_limits t s) /\
      t !! (subj, surf) = Some row
  | (None, _) => exists wait, reserve_limit subj surf cfg e s = ((RLDenied wait, None), set_limits (rate_limits s) s)
  end.
Proof.
  intros He Hen. destruct (ok_calm e He) as [_ Hb]. unfold reserve_limit, ReserveRateLimit. rewrite Hen, Hb. cbn [negb].
  unfold TryConsumeRateLimit. destruct (rate_limits s !! (subj, surf)) as [r0|] eqn:E.
  - destruct (expires_at r0 <=? e_now e); [by rewrite lookup_insert_eq|].
    destruct (token_count r0 <? Limit cfg); [by rewrite lookup_insert_eq|]. unfold id. rewrite E. by eexists.
  - by rewrite lookup_insert_eq.
Qed.

Lemma reserve_other subj surf cfg e s k :
  ok e -> k <> (subj, surf) -> rate_limits (reserve_limit subj surf cfg e s).2 !! k = rate_limits s !! k.
Proof.
  intros He Hk. destruct (Enabled cfg) eqn:Hen.
  - assert (H := reserve_calm subj surf cfg e s He Hen).
    destruct (TryConsumeRateLimit _ _ _ _ _) as [[row|] t] eqn:E.
    + destruct H as [-> _]. simpl. unfold TryConsumeRateLimit in E.
      repeat case_match; simplify_eq; by rewrite lookup_insert_ne.
    + destruct H as [w ->]. done.
  - unfold reserve_limit, ReserveRateLimit. by rewrite Hen.
Qed.

Lemma reserve_frame subj surf cfg e s :
  srp (reserve_limit subj surf cfg e s).2 = srp s /\ auth_keys (reserve_limit subj surf cfg e s).2 = auth_keys s /\
  user_passwords (reserve_limit subj surf cfg e s).2 = user_passwords s /\
  users (reserve_limit subj surf cfg e s).2 = users s.
Proof. unfold reserve_limit. by destruct (ReserveRateLimit _ _ _ _ _ _) as [[a x] t]. Qed.

(** Verifying fails in one of two ways. *)
Lemma wp_calm_consume s key proof k Q :
  (forall e c evs, e = errSRPIDInvalid \/ e = errPasswordHashInvalid -> wp ok (k (inr e)) (set_srp c evs s) Q) ->
  (forall x pw c evs, accepted s key proof x pw ->
     wp ok (k (inl (mkEv (SRPID proof) (pending x) pw (pr_A proof) (pr_M1 proof)))) (set_srp c evs s) Q) ->
  wp ok (consumeAndVerify key proof k) s Q.
Proof.
  intros He Hv. apply wp_consumeAndVerify; [|done]. intros e c evs [->|[->|(-> & e' & Hok & Hf)]].
  - apply He. by left.
  - apply He. by right.
  - by destruct (ok_calm e' Hok) as [? _].
Qed.

(** A proof that answers a live challenge is taken. *)
Lemma wp_calm_accepted s key proof x pw k Q :
  accepted s key proof x pw -> (forall e, ok e -> e_clock e <= expiresAt x) ->
  (forall c evs, wp ok (k (inl (mkEv (SRPID proof) (pending x) pw (pr_A proof) (pr_M1 proof)))) (set_srp c evs s) Q) ->
  wp ok (consumeAndVerify key proof k) s Q.
Proof.
  intros [[Hx Hk] [Hpw Hv]] Hclock Hw. unfold consumeAndVerify. apply wp_mem. intros e He. unfold consume_step, Consume.
  rewrite Hx, (proj2 (Z.eqb_eq _ _) Hk). cbn [negb]. assert (Hc := Hclock e He).
  destruct (Z.gtb_spec (e_clock e) (expiresAt x)); [lia|]. cbn [fst snd]. apply wp_calm_query.
  unfold PasswordByUser. cbn [user_passwords set_srp]. rewrite Hpw, Hv. cbn [negb]. apply Hw.
Qed.

End calm.

Definition guess_key (u : Z) : rl_key := (u, "check_password"%string).

Definition refunded (row : rl_row) : rl_row :=
  mkRow (Z.max (token_count row - 1) 0) (window_start row) (expires_at row).

(** The four ends of auth.checkPassword on a key that waits for the password of [u]: the
    account's budget is spent; the network's is; the proof fails; the proof holds. *)
Definition guess_post (cfg : RateLimitConfig) (s : auth_state) (key u : Z) (proof : srp_proof)
    (o : outcome) (s' : auth_state) : Prop :=
  (forall v, v <> u -> rate_limits s' !! guess_key v = rate_limits s !! guess_key v) /\
  exists now,
    match (TryConsumeRateLimit (rate_limits s) (guess_key u) (window_us cfg) (Limit cfg) now).1 with
    | None =>
        (exists n, out_reply o = RError (FloodWaitError n)) /\ srp s' = srp s /\ auth_keys s' = auth_keys s /\
        rate_limits s' !! guess_key u = rate_limits s !! guess_key u
    | Some row =>
        ((exists n, out_reply o = RError (FloodWaitError n)) /\ srp s' = srp s /\ auth_keys s' = auth_keys s /\
           rate_limits s' !! guess_key u = Some (refunded row)) \/
        ((out_reply o = RError errSRPIDInvalid \/ out_reply o = RError errPasswordHashInvalid) /\
           auth_keys s' = auth_keys s /\ rate_limits s' !! guess_key u = Some row) \/
        ((exists x pw, accepted s key proof x pw) /\ rate_limits s' !! guess_key u = Some (refunded row))
    end.

Lemma refund_row t u row start :
  t !! guess_key u = Some row -> start = window_start row ->
  RefundRateLimit t (guess_key u) (Some start) !! guess_key u = Some (refunded row).
Proof. intros H ->. cbn [RefundRateLimit]. by rewrite refund_lookup, H, Z.eqb_refl. Qed.

Lemma refund_elsewhere t k k' res : k <> k' -> RefundRateLimit t k res !! k' = t !! k'.
Proof. intros H. destruct res; [by apply refund_other|done]. Qed.

Lemma ip_key_ne u subj : guess_key u <> (subj, "check_password_ip"%string).
Proof. unfold guess_key. congruence. Qed.

Section guess.
Context (ok : env -> Prop).
Hypothesis ok_calm : forall e, ok e -> calm e.

(** The answer after a proof that held moves no counter. *)
Lemma wp_promote r ev s Q :
  (forall o s', rate_limits s' = rate_limits s -> Q o s') -> wp ok (promote_and_answer r ev) s Q.
Proof.
  intros HQ. assert (Ha : forall u s', rate_limits s' = rate_limits s -> wp ok (answer_user u) s' Q).
  { intros u s' E. unfold answer_user. apply (wp_calm_query ok ok_calm). destruct (UserByID s' u); by apply HQ. }
  unfold promote_and_answer. apply (wp_calm_call ok ok_calm). intros e He.
  assert (E : forall how, rate_limits (PromotePendingUser s (AuthKeyID r) (ev_user ev) how).2 = rate_limits s).
  { intros how. unfold PromotePendingUser. by repeat case_match. }
  specialize (E (ByProof ev)). destruct (PromotePendingUser _ _ _ _) as [[] s1]; cbn [fst snd] in *; [by apply Ha|].
  apply (wp_calm_query ok ok_calm). destruct (AuthKeyByID s1 (AuthKeyID r)) as [k|]; [|by apply HQ].
  destruct (AK_UserID k =? ev_user ev); cbn [negb]; [by apply Ha|by apply HQ].
Qed.

Lemma wp_refundIP r res k s Q :
  (forall s', (forall u, rate_limits s' !! guess_key u = rate_limits s !! guess_key u) ->
     auth_keys s' = auth_keys s -> users s' = users s -> wp ok (k true) s' Q) ->
  wp ok (refundRateLimitIP r "check_password_ip" res k) s Q.
Proof.
  intros H. unfold refundRateLimitIP. destruct res as [ws|]; [|by apply H].
  destruct (IPBucketKey (ClientAddr r)); [|by apply H]. apply (wp_calm_call ok ok_calm). intros e He.
  rewrite (bool_decide_eq_true_2 (is_Some (Some _))) by done. apply H; [|done|done]. intros u.
  cbn -[RefundRateLimit]. apply refund_elsewhere. intros E. by apply (ip_key_ne u _ (eq_sym E)).
Qed.

Lemma wp_refund_account u ws k s Q :
  wp ok (k (Some tt)) (set_limits (RefundRateLimit (rate_limits s) (guess_key u) (Some ws)) s) Q ->
  wp ok (refund_account u (Some ws) k) s Q.
Proof. intros H. unfold refund_account. apply (wp_calm_call ok ok_calm). intros e He. exact H. Qed.

(** The network's reservation: refused, or made without moving an account's counter. *)
Lemma wp_reserveIP r cfg k s Q :
  (forall n s', rate_limits s' = rate_limits s -> srp s' = srp s -> auth_keys s' = auth_keys s ->
     wp ok (k (inr (FloodWaitError n))) s' Q) ->
  (forall res s', (forall u, rate_limits s' !! guess_key u = rate_limits s !! guess_key u) ->
     srp s' = srp s -> auth_keys s' = auth_keys s -> user_passwords s' = user_passwords s -> users s' = users s ->
     wp ok (k (inl res)) s' Q) ->
  wp ok (reserveRateLimitIP r "check_password_ip" cfg k) s Q.
Proof.
  intros Hd Ha. unfold reserveRateLimitIP. destruct (Enabled cfg) eqn:Hen; cbn [negb]; [|by apply Ha].
  destruct (IPBucketKey (ClientAddr r)) as [key|]; [|by apply Hd]. apply (wp_calm_call ok ok_calm). intros e He.
  assert (H := reserve_calm ok ok_calm (keyToSubjectID key) "check_password_ip" cfg e s He Hen).
  assert (Ho : forall u, rate_limits (reserve_limit (keyToSubjectID key) "check_password_ip" cfg e s).2 !! guess_key u
                 = rate_limits s !! guess_key u).
  { intros u. apply (reserve_other ok ok_calm); [done|apply ip_key_ne]. }
  destruct (TryConsumeRateLimit _ _ _ _ _) as [[row|] t].
  - destruct H as [H _]. rewrite H in *. by apply Ha.
  - destruct H as [w H]. rewrite H. by apply Hd.
Qed.

Lemma wp_guess lim r proof s row u :
  r_UserID r = 0 -> auth_keys s !! AuthKeyID r = Some row -> pending_user_id row = Some u -> u <> 0 ->
  Enabled (rateLimitCheckPassword lim) = true ->
  wp ok (handleCheckPassword lim r (Some proof)) s
    (guess_post (rateLimitCheckPassword lim) s (AuthKeyID r) u proof).
Proof.
  intros H0 Hk Hp Hu Hen. unfold handleCheckPassword. set (cfg := rateLimitCheckPassword lim) in *.
  apply (wp_calm_resolve ok ok_calm _ _ row u); [done..|]. apply (wp_calm_call ok ok_calm). intros e He.
  assert (H := reserve_calm ok ok_calm u "check_password" cfg e s He Hen). fold (guess_key u) in H.
  assert (Ho : forall v, v <> u -> rate_limits (reserve_limit u "check_password" cfg e s).2 !! guess_key v
                 = rate_limits s !! guess_key v).
  { intros v Hv. apply (reserve_other ok ok_calm); [done|]. unfold guess_key. congruence. }
  destruct (TryConsumeRateLimit (rate_limits s) (guess_key u) (window_us cfg) (Limit cfg) (e_now e)) as [[rw|] t] eqn:Et.
  2:{ destruct H as [w H]. rewrite H. split; [done|]. exists (e_now e). rewrite Et. simpl. eauto. }
  destruct H as [H Hrw]. rewrite H in *. cbn [fst snd] in *.
  set (s1 := set_limits t s) in *. assert (E1 : rate_limits s1 !! guess_key u = Some rw) by exact Hrw.
  assert (Ho1 : forall v, v <> u -> rate_limits s1 !! guess_key v = rate_limits s !! guess_key v) by exact Ho.
  assert (Hne : forall v, v <> u -> guess_key u <> guess_key v) by (unfold guess_key; congruence).
  apply wp_reserveIP.
  - intros n s' El Es Eks. apply wp_refund_account. split.
    + intros v Hv. cbn -[RefundRateLimit]. rewrite refund_elsewhere, El by auto. auto.
    + exists (e_now e). rewrite Et. left. cbn -[RefundRateLimit FloodWaitError]. rewrite Es, Eks, El.
      split_and!; [by eexists|done|done|by apply refund_row].
  - intros res s2 El Es Eks Epw Eus. apply (wp_calm_consume ok ok_calm).
    + intros x c evs Hx. split; [intros v Hv; simpl; by rewrite El, Ho1|]. exists (e_now e). rewrite Et.
      right. left. simpl. rewrite Eks, El. split_and!; [|done|done]. destruct Hx as [->| ->]; auto.
    + intros x pw c evs [[Hx1 Hx2] [Hpw Hv]]. rewrite Es in Hx1. rewrite Epw in Hpw.
      apply wp_refund_account, wp_refundIP. intros s3 El3 _ _. cbn [negb]. apply wp_promote. intros o s4 E4.
      assert (E34 : forall v, rate_limits s4 !! guess_key v =
                RefundRateLimit (rate_limits s2) (guess_key u) (Some (window_start rw)) !! guess_key v).
      { intros v. rewrite E4, El3. done. }
      split.
      * intros v Hvu. rewrite E34, refund_elsewhere, El by auto. auto.
      * exists (e_now e). rewrite Et. right. right. split; [exists x, pw; done|].
        rewrite E34. apply refund_row; [by rewrite El|done].
Qed.

End guess.

(** C39 (error).  On a key that waits for a password, auth.checkPassword spends a token of the
    account and keeps it unless the proof holds: with the budget spent it answers
    FLOOD_WAIT without evaluating the proof or consuming the challenge, and the same when
    the network's budget is spent, the account's token given back; a failed proof leaves
    the token spent and the key as it was; only a proof that holds gives it back. *)
Theorem guess_costs_a_token (lim : limits) (r : Request) (proof : srp_proof) (s : auth_state) (row : key_row)
    (u : Z) (envs : nat -> env) :
  (forall j, calm (envs j)) -> r_UserID r = 0 ->
  auth_keys s !! AuthKeyID r = Some row -> pending_user_id row = Some u -> u <> 0 ->
  Enabled (rateLimitCheckPassword lim) = true ->
  let '(o, s') := exec envs 0 s (handleCheckPassword lim r (Some proof)) in
  guess_post (rateLimitCheckPassword lim) s (AuthKeyID r) u proof o s'.
Proof.
  intros Hcalm H0 Hk Hp Hu Hen.
  assert (H := wp_exec calm _ _ _ envs 0 Hcalm (wp_guess calm (fun _ H => H) lim r proof s row u H0 Hk Hp Hu Hen)).
  by destruct (exec envs 0 s (handleCheckPassword lim r (Some proof))).
Qed.

(** ** An honest login *)

(** The random source answers with as many bytes as it was asked for. *)
Definition honest_rand (e : env) : Prop :=
  forall n b, e_rand e n = Some b -> Datatypes.length b = n /\ Forall byte b.

Definition good_env (e : env) : Prop := calm e /\ honest_rand e.

(** What account.getPassword leaves when it hands out a challenge. *)
Definition issued_post (s : auth_state) (key u : Z) (pw : UserPassword) (times : Z -> Prop)
    (o : outcome) (s' : auth_state) : Prop :=
  forall ns rnd s1 s2 B id hint rec,
    out_reply o = RPassword (mkInfo ns rnd (Some (s1, s2, B, id, hint, rec))) ->
    s1 = Salt1 pw /\ s2 = Salt2 pw /\
    (exists buf bS t, Datatypes.length buf = PadLen /\ Forall byte buf /\
       Challenge (Verifier pw) (Some buf) = Some (B, bS) /\ times t /\
       entries (srp s') !! id = Some (mkEntry (mkPending bS B u) (t + ttl (srp s)) key)) /\
    auth_keys s' = auth_keys s /\ user_passwords s' = user_passwords s /\ users s' = users s.

Section login.
Context (ok : env -> Prop).
Hypothesis ok_good : forall e, ok e -> good_env e.

Lemma ok_calm' e : ok e -> calm e.
Proof. intros H. apply (ok_good e H). Qed.

Definition ok_time (t : Z) : Prop := exists e, ok e /\ t = e_clock' e.

Lemma wp_draw_and_answer r u pw s s0 :
  cs_wf (srp s) -> srp s0 = srp s -> auth_keys s0 = auth_keys s -> user_passwords s0 = user_passwords s ->
  users s0 = users s ->
  wp ok (draw_and_answer r u (Some pw)) s0 (issued_post s (AuthKeyID r) u pw ok_time).
Proof.
  intros Hwf E1 E2 E3 E4. unfold draw_and_answer, randBytes.
  apply wp_mem. intros e1 _. cbn [fst snd]. destruct (e_rand e1 saltLen); [|by intros ????????].
  apply wp_mem. intros e2 _. cbn [fst snd]. destruct (e_rand e2 saltLen); [|by intros ????????].
  apply wp_mem. intros e3 _. cbn [fst snd]. destruct (e_rand e3 256%nat); [|by intros ????????].
  cbn [issue_and_answer]. apply wp_mem. intros e He. unfold issue_step. rewrite E1.
  destruct (Issue (srp s) (AuthKeyID r) u (Verifier pw) _ _ _ _) as [[[id B]|] c] eqn:Ei; [|by intros ????????].
  cbn [fst snd].
  apply Issue_spec in Ei as (bS & Hc & Hid & Ht & _ & Hen & _); [|done].
  intros ns rnd s1 s2 B' id' hint rec [= _ _ <- <- <- <- _ _]. split_and!; try done.
  destruct (e_rand e PadLen) as [buf|] eqn:Er; [|by cbn in Hc].
  destruct (ok_good e He) as [_ Hr]. destruct (Hr _ _ Er) as [Hl Hb].
  exists buf, bS, (e_clock' e). exact (conj Hl (conj Hb (conj Hc (conj (ex_intro _ e (conj He eq_refl)) Hen)))).
Qed.

Lemma charge_frame subj surf cfg e s :
  srp (charge_limit subj surf cfg e s).2 = srp s /\ auth_keys (charge_limit subj surf cfg e s).2 = auth_keys s /\
  user_passwords (charge_limit subj surf cfg e s).2 = user_passwords s /\
  users (charge_limit subj surf cfg e s).2 = users s.
Proof. unfold charge_limit. by destruct (CheckRateLimit _ _ _ _ _ _) as [a t]. Qed.

Lemma wp_getPassword lim r s row u pw :
  cs_wf (srp s) -> r_UserID r = 0 -> auth_keys s !! AuthKeyID r = Some row -> pending_user_id row = Some u -> u <> 0 ->
  user_passwords s !! u = Some pw ->
  wp ok (handleGetPassword lim r) s (issued_post s (AuthKeyID r) u pw ok_time).
Proof.
  intros Hwf H0 Hk Hp Hu Hpw. unfold handleGetPassword, resolvePasswordUser. rewrite H0.
  change (0 =? 0) with true. cbn [negb andb]. apply (wp_calm_query ok ok_calm').
  unfold AuthKeyByID. rewrite Hk, Hp. cbn [AK_PendingUserID default]. unfold id.
  rewrite (proj2 (Z.eqb_neq u 0) Hu). apply (wp_calm_query ok ok_calm').
  unfold PasswordByUser. rewrite Hpw. rewrite (bool_decide_eq_true_2 (is_Some (Some pw))) by done.
  assert (Hd : forall s0, srp s0 = srp s -> auth_keys s0 = auth_keys s -> user_passwords s0 = user_passwords s ->
    users s0 = users s -> wp ok (draw_and_answer r u (Some pw)) s0 (issued_post s (AuthKeyID r) u pw ok_time)).
  { intros s0. by apply wp_draw_and_answer. }
  unfold checkAndChargeRateLimitIP. destruct (negb (Enabled _)); [by apply Hd|].
  destruct (IPBucketKey (ClientAddr r)) as [key|]; [|by intros ????????].
  apply (wp_calm_call ok ok_calm'). intros e He.
  assert (Hf := charge_frame (keyToSubjectID key) "get_password_ip" (rateLimitGetPasswordIP lim) e s).
  destruct (charge_limit _ _ _ _ _) as [[|w|] s0]; cbn [fst snd] in *; cbn [limit_answer].
  - destruct Hf as (? & ? & ? & ?). by apply Hd.
  - by intros ????????.
  - by intros ????????.
Qed.

End login.

Definition login_post (r : Request) (u : Z) (o : outcome) (s' : auth_state) : Prop :=
  (exists n, out_reply o = RError (FloodWaitError n)) \/
  (out_reply o = RAuthorization u /\ auth_keys s' !! AuthKeyID r = Some (mkKeyRow (Some u) None)).

Lemma wp_login (ok : env -> Prop) lim r proof s row u x pw :
  (forall e, ok e -> calm e) -> (forall e, ok e -> e_clock e <= expiresAt x) ->
  r_UserID r = 0 -> auth_keys s !! AuthKeyID r = Some row -> pending_user_id row = Some u -> u <> 0 ->
  is_Some (users s !! u) -> accepted s (AuthKeyID r) proof x pw -> P_UserID (pending x) = u ->
  wp ok (handleCheckPassword lim r (Some proof)) s (login_post r u).
Proof.
  intros Hc Hclock H0 Hk Hp Hu Husr [[Hx Hxk] [Hpw Hv]] Hxu. unfold handleCheckPassword.
  apply (wp_calm_resolve ok Hc _ _ row u); [done..|]. apply (wp_calm_call ok Hc). intros e He.
  set (cfg := rateLimitCheckPassword lim).
  assert (Hf := reserve_frame u "check_password" cfg e s).
  assert (Ha : forall res s1, srp s1 = srp s -> auth_keys s1 = auth_keys s -> user_passwords s1 = user_passwords s ->
    users s1 = users s ->
    wp ok (reserveRateLimitIP r "check_password_ip" (rateLimitCheckPasswordIP lim) (fun i =>
      match i with
      | inr e => refund_account u res (fun _ => fail_with e)
      | inl ipReserve =>
          consumeAndVerify (AuthKeyID r) proof (fun v =>
          match v with inr e => fail_with e | inl ev =>
          refund_account u res (fun ok =>
          match ok with None => fail_with errInternal | Some _ =>
          refundRateLimitIP r "check_password_ip" ipReserve (fun ok =>
          if negb ok then fail_with errInternal else promote_and_answer r ev)
          end) end) end)) s1 (login_post r u)).
  { intros res s1 E1 E2 E3 E4. apply (wp_reserveIP ok Hc).
    - intros n s2 _ _ _. destruct res; [apply (wp_refund_account ok Hc)|]; left; by eexists.
    - intros ip s2 _ F1 F2 F3 F4. apply (wp_calm_accepted ok Hc _ _ _ x pw).
      + split; [split; [by rewrite F1, E1|done]|]. split; [by rewrite F3, E3|done].
      + done.
      + intros c evs. set (ev := mkEv _ _ _ _ _).
        assert (Hr : forall s3, auth_keys s3 = auth_keys s -> users s3 = users s ->
          wp ok (refundRateLimitIP r "check_password_ip" ip (fun ok =>
            if negb ok then fail_with errInternal else promote_and_answer r ev)) s3 (login_post r u)).
        { intros s3 G1 G2. apply (wp_refundIP ok Hc). intros s4 _ K1 K2. cbn [negb]. unfold promote_and_answer.
          apply (wp_calm_call ok Hc). intros e' He'. unfold PromotePendingUser. rewrite K1, G1, Hk.
          unfold ev_user, ev. cbn [ev_pending]. rewrite Hxu. rewrite decide_True by done. cbn [fst snd].
          unfold answer_user. apply (wp_calm_query ok Hc). unfold UserByID. cbn [users set_keys]. rewrite K2, G2.
          rewrite bool_decide_eq_true_2 by done. right. split; [done|]. cbn [auth_keys set_keys].
          by rewrite lookup_insert_eq. }
        destruct res as [ws|]; [apply (wp_refund_account ok Hc)|]; apply Hr; cbn; congruence. }
  unfold reserve_limit in *. destruct (ReserveRateLimit _ _ _ _ _ _) as [[a res] t] eqn:Er. cbn [fst snd] in *.
  destruct a as [|w|]; [by apply Ha|left; by eexists|].
  unfold ReserveRateLimit in Er. repeat case_match; discriminate.
Qed.

(** C32 (functional).  A login end to end: a client that follows SRP-6a with the right password
    key, on the challenge account.getPassword gave its pending key and within the
    challenge's five minutes, is authorized by auth.checkPassword and its key is bound to
    the account, unless a rate limit answers FLOOD_WAIT. *)
Theorem honest_login (lim : limits) (r : Request) (x a : Z) (s : auth_state) (row : key_row) (u : Z)
    (pw : UserPassword) (envs1 envs2 : nat -> env) (ns : list Z * list Z) (rnd s1 s2 B : list Z) (id : Z)
    (hint : string) (rec : bool) :
  cs_wf (srp s) -> r_UserID r = 0 ->
  auth_keys s !! AuthKeyID r = Some row -> pending_user_id row = Some u -> u <> 0 ->
  user_passwords s !! u = Some pw -> Verifier pw = client_verifier x -> 0 <= x -> 0 <= a ->
  is_Some (users s !! u) ->
  (forall j, good_env (envs1 j)) -> (forall j, calm (envs2 j)) ->
  (forall i j, e_clock (envs2 j) <= e_clock' (envs1 i) + ttl (srp s)) ->
  out_reply (exec envs1 0 s (handleGetPassword lim r)).1 =
    RPassword (mkInfo ns rnd (Some (s1, s2, B, id, hint, rec))) ->
  client_u a B <> 0 ->
  let proof := client_prove x a s1 s2 B in
  let '(o, s') := exec envs2 0 (exec envs1 0 s (handleGetPassword lim r)).2
                    (handleCheckPassword lim r (Some (mkSrpProof id (cp_A proof) (cp_M1 proof)))) in
  login_post r u o s'.
Proof.
  intros Hwf H0 Hk Hp Hu Hpw Hv Hx Ha Husr Henv1 Henv2 Hclock Hrep Hcu proof.
  set (ok1 := fun e => good_env e /\ exists i, e = envs1 i).
  assert (Hi := wp_exec ok1 _ _ _ envs1 0 (fun j => conj (Henv1 j) (ex_intro _ j eq_refl))
    (wp_getPassword ok1 (fun _ H => proj1 H) lim r s row u pw Hwf H0 Hk Hp Hu Hpw)).
  destruct (Hi _ _ _ _ _ _ _ _ Hrep) as (-> & -> & (buf & bS & t & Hl & Hb & Hc & Ht & Hen) & Ek & Epw & Eu).
  destruct Ht as (e & [_ [i ->]] & ->). clear Hi Hrep.
  set (s' := (exec envs1 0 s (handleGetPassword lim r)).2) in *. clearbody s'.
  set (ok2 := fun e => calm e /\ exists j, e = envs2 j).
  assert (H := wp_exec ok2 _ _ _ envs2 0 (fun j => conj (Henv2 j) (ex_intro _ j eq_refl))
    (wp_login ok2 lim r (mkSrpProof id (cp_A proof) (cp_M1 proof)) s' row u
       (mkEntry (mkPending bS B u) (e_clock' (envs1 i) + ttl (srp s)) (AuthKeyID r)) pw
       (fun _ H => proj1 H) ltac:(intros e' [_ [j ->]]; apply Hclock) H0 ltac:(by rewrite Ek) Hp Hu
       ltac:(by rewrite Eu)
       ltac:(split; [by split|]; split; [by rewrite Epw|]; simpl; rewrite Hv in *;
             exact (srp_honest_accepted_lemma x a _ _ buf B bS Hx Ha Hb Hl Hc Hcu)) eq_refl)).
  by destruct (exec envs2 0 s' _).
Qed.

(** ** Guessing a login code *)

Definition guessed (hash : string) (ev : event) : bool :=
  match ev with ECodeGuessed h => String.eqb h hash | _ => false end.

(** The row of the code counts the wrong guesses made, and they are within the cap. *)
Definition guesses_counted (hash : string) (s : auth_state) : Prop :=
  exists r, phone_codes s !! hash = Some r /\ c_attempts r = cnt (guessed hash) (history s) /\
    c_attempts r <= maxAttempts.

Lemma counted_frame hash s s' :
  phone_codes s' = phone_codes s -> (exists evs, history s' = evs ++ history s /\ cnt (guessed hash) evs = 0) ->
  guesses_counted hash s -> guesses_counted hash s'.
Proof.
  intros Ep (evs & Eh & Hc) (r & Hr & Ha & Hm). exists r. rewrite Ep, Eh. split_and!; [done| |done].
  rewrite Ha. unfold cnt in *. rewrite List.filter_app, len_app. lia.
Qed.

(** The state a plan was read from, as far as codes go. *)
Lemma counted_write hash phone h code p now s0 s clock :
  guesses_counted hash s -> phone_codes s0 = phone_codes s ->
  p = verify_plan (GetCodeByHash s0 h) phone h code clock ->
  guesses_counted hash (verify_write p phone h code now s).2.
Proof.
  intros (r & Hr & Ha & Hm) E0 ->. unfold GetCodeByHash. rewrite E0. unfold verify_plan.
  assert (Hs : guesses_counted hash s) by (exists r; done).
  destruct (phone_codes s !! h) as [r0|] eqn:Eh; [|done].
  destruct (negb (String.eqb _ (c_phone r0))); [done|]. destruct (c_consumed r0) eqn:Ec; [done|].
  destruct (clock >? _); [done|]. destruct (Z.geb_spec (c_attempts r0) maxAttempts); [done|].
  destruct (negb (String.eqb code (c_code r0))); cbn [verify_write snd].
  - unfold IncrementCodeAttempts. rewrite Eh. unfold guesses_counted. cbn [phone_codes set_codes history app].
    rewrite cnt_cons. cbn [guessed]. destruct (String.eqb_spec h hash) as [->|Hne].
    + rewrite lookup_insert_eq. assert (r = r0) by congruence. subst r0. eexists. split; [done|]. cbn [c_attempts]. lia.
    + rewrite lookup_insert_ne by done. exists r. split_and!; [done|lia|done].
  - unfold ConsumeCode. rewrite Eh. destruct (_ && _ && _ && _ && _); cbn [snd]; [|done].
    unfold guesses_counted. cbn [phone_codes set_codes history app]. rewrite cnt_cons. cbn [guessed].
    destruct (String.eqb_spec h hash) as [->|Hne].
    + rewrite lookup_insert_eq. assert (r = r0) by congruence. subst r0. eexists. split; [done|]. cbn [c_attempts]. lia.
    + rewrite lookup_insert_ne by done. exists r. split_and!; [done|lia|done].
Qed.

Lemma counted_commit hash key phone h code cfg p now s0 s clock :
  guesses_counted hash s -> phone_codes s0 = phone_codes s ->
  p = verify_plan (GetCodeByHash s0 h) phone h code clock ->
  guesses_counted hash (attempt_commit s key p phone h code cfg now).2.
Proof.
  intros Hs E0 Hp. assert (Hw := counted_write hash phone h code p now s0 s clock Hs E0 Hp).
  assert (Hf : forall t s', guesses_counted hash s' -> guesses_counted hash (set_fails t s')).
  { intros t s' H. exact H. }
  unfold attempt_commit. destruct (verify_write p phone h code now s) as [[e|] s']; cbn [snd] in Hw.
  - destruct (ChargeSignInFailCall _ _ _ _ _) as [[] t]; cbn [snd]; auto.
  - destruct (UserByPhone s' phone); [done|]. destruct (ChargeSignInFailCall _ _ _ _ _) as [[] t]; cbn [snd]; auto.
Qed.

Lemma wp_mark ok p s (P : auth_state -> Prop) :
  wp ok p s (fun _ => P) -> wp ok (mark_pending p) s (fun _ => P).
Proof.
  revert s. induction p as [o|f k IH]; intros s H; [done|]. intros e He. apply IH. by apply H.
Qed.

(** A call that keeps a predicate of the state, fault or no fault. *)
Lemma wp_keep {A} (op : env -> auth_state -> A * auth_state) k s (P : auth_state -> Prop) :
  P s -> (forall e, P (op e s).2) -> (forall a s', P s' -> wp any_env (k a) s' (fun _ => P)) ->
  wp any_env (call op k) s (fun _ => P).
Proof. intros Hs Hop Hk. apply wp_op; [auto|]. intros e _ _. split; auto. Qed.

Lemma wp_answer_keep (P : auth_state -> Prop) r s :
  (forall s' ks evs, P s' -> (forall h, cnt (guessed h) evs = 0) -> P (set_keys ks evs s')) -> P s ->
  forall user hash, wp any_env (query (fun s => PasswordByUser s user) (fun pw =>
    match pw with
    | None => fail_with errInternal
    | Some (Some _) =>
        call (fun _ s => SetPendingUser s (AuthKeyID r) user) (fun ok =>
          match ok with Some true => fail_with errSessionPasswordNeeded | _ => fail_with errInternal end)
    | Some None =>
        call (fun _ s => BindAuthKeyUser s (AuthKeyID r) user (ByCode hash)) (fun ok =>
          match ok with Some true => Ret (reply_of (RAuthorization user)) | _ => fail_with errInternal end)
    end)) s (fun _ => P).
Proof.
  intros Hk Hs user hash. apply wp_keep; [done|done|]. intros [[pw|]|] s1 H1; [| |done].
  - apply wp_keep; [done| |intros [[]|] s2 H2; done]. intros e. unfold SetPendingUser.
    destruct (auth_keys s1 !! AuthKeyID r); [by apply Hk|done].
  - apply wp_keep; [done| |intros [[]|] s2 H2; done]. intros e. unfold BindAuthKeyUser.
    destruct (auth_keys s1 !! AuthKeyID r); [by apply Hk|done].
Qed.

Lemma counted_keys h s ks evs :
  guesses_counted h s -> (forall x, cnt (guessed x) evs = 0) -> guesses_counted h (set_keys ks evs s).
Proof. intros H He. apply (counted_frame h s); [done| |done]. exists evs. split; [done|apply He]. Qed.

Lemma counted_setcode h s u hh code now : guesses_counted h s -> guesses_counted h (SetCodeForUsername s u hh code now).2.
Proof.
  intros Hs. unfold SetCodeForUsername, SetCodeByHashAndPhone. destruct (phone_codes s !! hh) as [r0|] eqn:E; [|done].
  destruct (_ && _ && _ && _ && _ && _); [|done]. destruct Hs as (r & Hr & Ha & Hm).
  unfold guesses_counted. cbn [snd phone_codes set_codes history app]. destruct (decide (hh = h)) as [->|Hne].
  - rewrite lookup_insert_eq. assert (r = r0) by congruence. subst r0. eexists. split; [done|]. by cbn [c_attempts].
  - rewrite lookup_insert_ne by done. by exists r.
Qed.

Lemma wp_verify_counted h phone hash code k s :
  guesses_counted h s ->
  (forall v s1, guesses_counted h s1 -> wp any_env (k v) s1 (fun _ => guesses_counted h)) ->
  wp any_env (verifyCodeWith phone hash code k) s (fun _ => guesses_counted h).
Proof.
  intros Hs Hk. unfold verifyCodeWith. apply wp_op; [|intros e _ _; split; by apply Hk]. intros e _. cbn [fst snd].
  assert (Hw : forall p, p = verify_plan (GetCodeByHash s hash) phone hash code (e_clock e) ->
    wp any_env (call (fun e s => verify_write p phone hash code (e_now e) s)
                  (fun a => match a with None => k (Some ErrStore) | Some a => k a end)) s (fun _ => guesses_counted h)).
  { intros p Hp. apply wp_keep; [done|intros e'; by eapply counted_write|]. intros [x|] s1 H1; by apply Hk. }
  destruct (verify_plan _ _ _ _ _) as [x| |] eqn:Ep; [by apply Hk|by apply Hw|by apply Hw].
Qed.

Lemma wp_signIn_counted lim r phone hash code h s :
  guesses_counted h s -> wp any_env (handleSignIn lim r phone hash code) s (fun _ => guesses_counted h).
Proof.
  intros Hs. unfold handleSignIn. destruct (validatePhone phone); [|destruct (validateUsername phone); [|done]];
    apply wp_mark.
  - unfold handleSignInPhone.
    set (k := fun a : Z + option code_err => _).
    assert (Hk : forall a s1, guesses_counted h s1 -> wp any_env (k a) s1 (fun _ => guesses_counted h)).
    { intros [w|[e|]] s1 H1; [done|done|]. unfold k. apply wp_keep; [done|done|].
      intros [[u|]|] s2 H2; [|done|done]. apply wp_answer_keep; [|done]. intros s' ks evs. apply counted_keys. }
    clearbody k. unfold AttemptSignIn. destruct (negb (Enabled _)).
    + apply wp_verify_counted; [done|]. intros [x|] s1 H1; [by apply Hk|]. unfold phoneUserExists.
      apply wp_keep; [done|done|]. intros [[]|] s2 H2; by apply Hk.
    + destruct (IPBucketKey (ClientAddr r)) as [key|]; [|by apply Hk].
      apply wp_op; [|intros e _ _; split; by apply Hk]. intros e _. cbn [fst snd].
      destruct (fail_budget _ _ _ _); [by apply Hk|].
      apply wp_op; [|intros e' _ _; split; by apply Hk]. intros e' _. cbn [fst snd].
      apply wp_keep; [done|intros e''; by eapply counted_commit|]. intros [[x|]|] s1 H1; by apply Hk.
  - unfold handleSignInUsername. apply wp_keep; [done|done|]. intros [[e|]|] s1 H1; [done| |done].
    apply wp_keep; [done|done|]. intros [[[u mode]|]|] s2 H2; [| |done].
    + destruct (negb _); [done|]. apply wp_keep; [done|done|]. intros [[pw|]|] s3 H3; [|done|done].
      apply wp_keep; [done| |intros [[]|] s4 H4; done]. intros e. unfold SetPendingUser.
      destruct (auth_keys s3 !! AuthKeyID r); [by apply counted_keys|done].
    + destruct (_ && _); [|done]. apply wp_keep; [done| |intros [?|] s3 H3; done]. intros e. by apply counted_setcode.
Qed.

(** One sign-in after another, each with its own environments. *)
Record sign_in_run : Type := mkRun {
  sr_request : Request; sr_phone : string; sr_hash : string; sr_code : string; sr_envs : nat -> env
}.

Definition run_sign_ins (lim : limits) (runs : list sign_in_run) (s : auth_state) : auth_state :=
  foldl (fun s x => (exec (sr_envs x) 0 s
           (handleSignIn lim (sr_request x) (sr_phone x) (sr_hash x) (sr_code x))).2) s runs.

(** Sign-ins that come one after another, from any network and with the store
    failing at any call, evaluate at most three wrong guesses of an issued code in all:
    its row counts them, and past the cap no guess is compared. *)
Theorem sequential_guesses_capped (lim : limits) (runs : list sign_in_run) (s : auth_state) (hash : string)
    (r : code_row) :
  phone_codes s !! hash = Some r -> c_attempts r = 0 -> cnt (guessed hash) (history s) = 0 ->
  cnt (guessed hash) (history (run_sign_ins lim runs s)) <= maxAttempts.
Proof.
  intros Hr Ha Hc. enough (H : guesses_counted hash (run_sign_ins lim runs s)).
  { destruct H as (r' & _ & E & Hm). lia. }
  assert (H0 : guesses_counted hash s) by (exists r; split_and!; [done|lia|unfold maxAttempts; lia]).
  clear -H0. revert s H0. induction runs as [|x runs IH]; intros s H0; [done|]. cbn [run_sign_ins foldl]. apply IH.
  exact (wp_exec any_env _ _ _ (sr_envs x) 0 (fun _ => I) (wp_signIn_counted lim _ _ _ _ hash s H0)).
Qed.

(** * Account runs on concrete data

    Schedules and runs that meet the hypotheses of the account theorems, and two that
    show where the code's own limits end: guesses of a login code made at once, and a
    guess charged to another account. *)

Definition demo_rate : RateLimitConfig := mkRLConfig 5 (60 * second).

Definition demo_lim : limits :=
  mkLimits demo_rate demo_rate demo_rate demo_rate demo_rate demo_rate (mkSendLimits demo_rate demo_rate) demo_rate RegistrationInvite.

Definition demo_users : gmap Z user_row := {[1 := mkUser (Some "15550001"%string) "phone"%string "" "" None]}.

(** The store answers, the clocks stand at a thousand seconds, the random source gives 1s
    and an 11. *)
Definition demo_env : env :=
  mkEnv NoFault (1000 * second) (1000 * second) (1000 * 1000000)
    (fun n => Some (replicate (n - 1) 0 ++ [11])) (fun i => Some [0; 0; 0; 0; 0; 0; 0; 1 + Z.of_nat i]) id.

Definition demo_request (host : Z) : Request := mkRequest 7 0 (Addr4 host).

Definition steps (i n : nat) : list (@choice auth_state env outcome) := replicate n (Step i demo_env).

(** The code and the hash the source above gives. *)
Definition demo_hash : string := "0000000000000000000000000000000b".
Definition demo_code : string := "00001".

(** A key is made, a code is sent, and the key signs in with it. *)
Definition demo_schedule : list (@choice auth_state env outcome) :=
  Arrive (background (fun _ s => SaveAuthKey s 7)) :: steps 0 1 ++
  Arrive (handleSendCode demo_lim (demo_request 1) "+15550001") :: steps 0 2 ++
  Arrive (handleSignIn demo_lim (demo_request 1) "+15550001" demo_hash demo_code) :: steps 0 6.

Definition demo_pool : auth_state * list account_prog := run_schedule (fresh demo_users ∅) demo_schedule.

Lemma demo_reach : account_reach demo_lim demo_users ∅ (demo_pool.1, demo_pool.2).
Proof.
  rewrite <- surjective_pairing. apply run_schedule_reach. unfold demo_schedule, steps.
  cbn [replicate app]. repeat apply Forall_cons_2; try exact I; try constructor.
Qed.

Lemma demo_bound : auth_keys demo_pool.1 !! 7 = Some (mkKeyRow (Some 1) None).
Proof. vm_compute. reflexivity. Qed.

Lemma key_bound_on_evidence_witness :
  exists how later earlier, history demo_pool.1 = later ++ EBound 7 1 how :: earlier /\
    match how with
    | ByProof ev => ev_ok DefaultTTL earlier 7 1 ev
    | ByCode hash => exists phone row after seen,
        users demo_pool.1 !! 1 = Some row /\ u_phone row = Some phone /\ earlier = after ++ seen /\
        ECodeConsumed hash phone ∈ seen /\ password_in seen 1 = None
    | BySignUp hash => exists handle invite row, EAdmitted 1 handle hash invite ∈ earlier /\
        ECodeConsumed hash handle ∈ earlier /\ users demo_pool.1 !! 1 = Some row /\ u_phone row = None /\
        login_mode row = "username"%string /\ u_username row = Some handle
    end.
Proof.
  exact (key_bound_on_evidence demo_lim demo_users ∅ demo_pool.1 demo_pool.2 7 1 (mkKeyRow (Some 1) None)
    demo_reach demo_bound eq_refl).
Defined.

Lemma challenges_and_codes_single_use_witness :
  cnt (code_consumed demo_hash) (history demo_pool.1) <= cnt (code_issued demo_hash) (history demo_pool.1).
Proof.
  exact (proj1 (proj2 (challenges_and_codes_single_use demo_lim demo_users ∅ demo_pool.1 demo_pool.2 demo_reach)) demo_hash).
Defined.

(** The same key then sets a password. *)
Definition demo_settings : new_settings :=
  mkSettings (AlgoSRP [1] [2]) (client_verifier 5) EmptyString EmptyString.

Definition demo_schedule_pw : list (@choice auth_state env outcome) :=
  demo_schedule ++
  Arrive (handleUpdatePasswordSettings demo_lim (mkRequest 7 1 (Addr4 1)) None demo_settings) :: steps 0 2.

Definition demo_pool_pw : auth_state * list account_prog := run_schedule (fresh demo_users ∅) demo_schedule_pw.

Lemma demo_reach_pw : account_reach demo_lim demo_users ∅ (demo_pool_pw.1, demo_pool_pw.2).
Proof.
  rewrite <- surjective_pairing. apply run_schedule_reach. unfold demo_schedule_pw, demo_schedule, steps.
  cbn [replicate app]. repeat apply Forall_cons_2; try exact I; try constructor.
Qed.

Lemma demo_password : user_passwords demo_pool_pw.1 !! 1 = Some (mkPw [1] [2] (client_verifier 5) EmptyString EmptyString false).
Proof. vm_compute. reflexivity. Qed.

Lemma passwords_valid_and_proved_witness : pw_valid (mkPw [1] [2] (client_verifier 5) EmptyString EmptyString false).
Proof.
  exact (proj1 (passwords_valid_and_proved demo_lim demo_users ∅ demo_pool_pw.1 demo_pool_pw.2 demo_reach_pw) 1 _
    demo_password).
Defined.

(** ** Runs of one request *)

Definition demo_pw : UserPassword := mkPw [1] [2] (client_verifier 5) EmptyString EmptyString false.

(** The key waits for the password of user 1. *)
Definition demo_waiting : auth_state :=
  set_passwords {[1 := demo_pw]} [] (set_keys {[7 := mkKeyRow None (Some 1)]} [] (fresh demo_users ∅)).

Definition demo_waiting_row : auth_keys demo_waiting !! 7 = Some (mkKeyRow None (Some 1)) := eq_refl.
Definition demo_waiting_pw : user_passwords demo_waiting !! 1 = Some demo_pw := eq_refl.

Lemma update_needs_proof_witness :
  update_post (mkRequest 7 1 (Addr4 1)) None demo_waiting demo_pw
    (exec (fun _ => demo_env) 0 demo_waiting
       (handleUpdatePasswordSettings demo_lim (mkRequest 7 1 (Addr4 1)) None demo_settings)).2.
Proof.
  exact (update_needs_proof demo_lim (mkRequest 7 1 (Addr4 1)) None demo_settings demo_waiting demo_pw
    (fun _ => demo_env) demo_waiting_pw).
Defined.

Lemma demo_calm : calm demo_env.
Proof. by split. Qed.

Lemma guess_costs_a_token_witness :
  let '(o, s') := exec (fun _ => demo_env) 0 demo_waiting
                    (handleCheckPassword demo_lim (demo_request 1) (Some (mkSrpProof 99 [] []))) in
  guess_post demo_rate demo_waiting 7 1 (mkSrpProof 99 [] []) o s'.
Proof.
  exact (guess_costs_a_token demo_lim (demo_request 1) (mkSrpProof 99 [] []) demo_waiting (mkKeyRow None (Some 1)) 1
    (fun _ => demo_env) (fun _ => demo_calm) eq_refl demo_waiting_row eq_refl ltac:(discriminate) eq_refl).
Defined.

(** As [demo_env], asked for at least one byte. *)
Definition demo_login_env : env :=
  mkEnv NoFault (1000 * second) (1000 * second) (1000 * 1000000)
    (fun n => match n with O => None | S m => Some (replicate m 0 ++ [11]) end)
    (fun i => Some [0; 0; 0; 0; 0; 0; 0; 1 + Z.of_nat i]) id.

Lemma demo_login_good : good_env demo_login_env.
Proof.
  split; [by split|]. intros [|n] b; [done|]. cbn [e_rand demo_login_env]. intros [= <-]. split.
  - rewrite length_app, length_replicate. simpl. lia.
  - apply Forall_app. split; [apply Forall_replicate; by split|by repeat constructor].
Qed.

Lemma demo_login_reply :
  out_reply (exec (fun _ => demo_login_env) 0 demo_waiting (handleGetPassword demo_lim (demo_request 1))).1 =
    RPassword (mkInfo (replicate 31 0 ++ [11], replicate 31 0 ++ [11]) (replicate 255 0 ++ [11])
      (Some ([1], [2], demo_bPub, 1, EmptyString, false))).
Proof. vm_compute. reflexivity. Qed.

Lemma honest_login_witness :
  let proof := client_prove 5 7 [1] [2] demo_bPub in
  let '(o, s') := exec (fun _ => demo_login_env) 0
                    (exec (fun _ => demo_login_env) 0 demo_waiting (handleGetPassword demo_lim (demo_request 1))).2
                    (handleCheckPassword demo_lim (demo_request 1) (Some (mkSrpProof 1 (cp_A proof) (cp_M1 proof)))) in
  login_post (demo_request 1) 1 o s'.
Proof.
  apply (honest_login demo_lim (demo_request 1) 5 7 demo_waiting (mkKeyRow None (Some 1)) 1 demo_pw
    (fun _ => demo_login_env) (fun _ => demo_login_env) _ _ [1] [2] demo_bPub 1 _ _
    (cs_wf_new DefaultTTL) eq_refl demo_waiting_row eq_refl ltac:(discriminate) demo_waiting_pw eq_refl
    ltac:(discriminate) ltac:(discriminate) ltac:(by eexists) (fun _ => demo_login_good)
    (fun _ => proj1 demo_login_good) ltac:(intros; discriminate) demo_login_reply).
  apply Z.eqb_neq. exact demo_u.
Defined.

(** Four wrong guesses, one after another. *)
Definition demo_with_code : auth_state :=
  set_codes {[demo_hash := mkCode "15550001" demo_code 0 (2000 * 1000000) false 0]} [] (fresh demo_users ∅).

Definition demo_guess (host : Z) : sign_in_run :=
  mkRun (demo_request host) "15550001" demo_hash "99999" (fun _ => demo_env).

Lemma sequential_guesses_capped_witness :
  cnt (guessed demo_hash)
    (history (run_sign_ins demo_lim [demo_guess 1; demo_guess 2; demo_guess 3; demo_guess 4] demo_with_code))
  <= maxAttempts.
Proof.
  apply (sequential_guesses_capped demo_lim _ demo_with_code demo_hash
    (mkCode "15550001" demo_code 0 (2000 * 1000000) false 0)); reflexivity.
Defined.

(** ** Guesses at once *)

(** Four wrong guesses and a right one, each from its own network: all five read the row
    before any of them writes it, the right one first. *)
Definition race_schedule : list (@choice auth_state env outcome) :=
  Arrive (handleSendCode demo_lim (demo_request 1) "15550001") :: steps 0 2 ++
  map (fun h => Arrive (handleSignIn demo_lim (demo_request h) "15550001" demo_hash
                          (if h =? 5 then demo_code else "99999"%string))) [1; 2; 3; 4; 5] ++
  flat_map (fun i => steps i 2) [0; 1; 2; 3; 4]%nat ++
  flat_map (fun i => steps i 1) [0; 1; 2; 3; 4]%nat.

Definition race_pool : auth_state * list account_prog := run_schedule (fresh demo_users ∅) race_schedule.

(** The cap of three wrong guesses per code does not bind requests that run at once: with
    guesses from several networks in flight, four wrong ones and the right one are all
    compared, and the right one is taken.  The row is read before it is charged, and
    only sign-ins from one network wait for each other. *)
Theorem concurrent_guesses_pass_the_cap :
  account_reach demo_lim demo_users ∅ race_pool /\
  cnt (guessed demo_hash) (history race_pool.1) = maxAttempts + 1 /\
  cnt (code_consumed demo_hash) (history race_pool.1) = 1.
Proof.
  split; [|split; vm_compute; reflexivity]. apply run_schedule_reach. unfold race_schedule, steps.
  cbn [replicate app map flat_map]. repeat apply Forall_cons_2; try exact I; try constructor.
Qed.

(** ** A guess on another's account *)

(** Two accounts; as [demo_env], with [k] for the last random byte. *)
Definition two_users : gmap Z user_row :=
  {[1 := mkUser (Some "15550001"%string) "phone"%string "" "" None; 2 := mkUser (Some "15550002"%string) "phone"%string "" "" None]}.

Definition seeded (k : Z) : env :=
  mkEnv NoFault (1000 * second) (1000 * second) (1000 * 1000000)
    (fun n => Some (replicate (n - 1) 0 ++ [k])) (e_draws demo_env) id.

Definition seeded_hash (k : Z) : string := randHex (replicate 15 0 ++ [k]).
Definition seeded_code (k : Z) : string := randDigits5 (replicate 4 0 ++ [k]).

Definition drive (k : Z) (p : account_prog) (n : nat) : list (@choice auth_state env outcome) :=
  Arrive p :: replicate n (Step 0 (seeded k)).

(** A key signs in with the phone's code. *)
Definition sign_in_with (k key : Z) (phone : string) (n : nat) : list (@choice auth_state env outcome) :=
  drive k (handleSendCode demo_lim (mkRequest key 0 (Addr4 key)) phone) 2 ++
  drive k (handleSignIn demo_lim (mkRequest key 0 (Addr4 key)) phone (seeded_hash k) (seeded_code k)) n.

(** Both accounts set a password; then key 9 signs in as user 1, asks for a challenge, and
    signs in again as user 2. *)
Definition crossed_schedule : list (@choice auth_state env outcome) :=
  drive 1 (background (fun _ s => SaveAuthKey s 7)) 1 ++ sign_in_with 1 7 "15550001" 6 ++
  drive 1 (handleUpdatePasswordSettings demo_lim (mkRequest 7 1 (Addr4 1)) None demo_settings) 2 ++
  drive 2 (background (fun _ s => SaveAuthKey s 8)) 1 ++ sign_in_with 2 8 "15550002" 6 ++
  drive 2 (handleUpdatePasswordSettings demo_lim (mkRequest 8 2 (Addr4 1)) None demo_settings) 2 ++
  drive 3 (background (fun _ s => SaveAuthKey s 9)) 1 ++ sign_in_with 3 9 "15550001" 6 ++
  drive 11 (handleGetPassword demo_lim (mkRequest 9 0 (Addr4 1))) 7 ++
  sign_in_with 4 9 "15550002" 6.

Definition crossed_pool : auth_state * list account_prog := run_schedule (fresh two_users ∅) crossed_schedule.

Lemma crossed_challenge :
  (fun x => (e_authKeyID x, P_UserID (pending x))) <$> entries (srp crossed_pool.1) !! 1 = Some (9, 1).
Proof. vm_compute. reflexivity. Qed.

Lemma crossed_pending : auth_keys crossed_pool.1 !! 9 = Some (mkKeyRow None (Some 2)).
Proof. vm_compute. reflexivity. Qed.

(** The per-account limit of auth.checkPassword is charged to the user the key waits for,
    not to the one whose password is tried: a state can be reached where a key waits for
    user 2 and still holds a challenge for user 1, and there an answer to that challenge,
    whatever it is, leaves the counter of user 1 as it was. *)
Theorem guess_charged_to_another :
  account_reach demo_lim two_users ∅ crossed_pool /\
  auth_keys crossed_pool.1 !! 9 = Some (mkKeyRow None (Some 2)) /\
  (fun x => (e_authKeyID x, P_UserID (pending x))) <$> entries (srp crossed_pool.1) !! 1 = Some (9, 1) /\
  forall A M1 envs, (forall j, calm (envs j)) ->
    rate_limits (exec envs 0 crossed_pool.1
      (handleCheckPassword demo_lim (mkRequest 9 0 (Addr4 1)) (Some (mkSrpProof 1 A M1)))).2 !! guess_key 1
    = rate_limits crossed_pool.1 !! guess_key 1.
Proof.
  split; [|split; [exact crossed_pending|split; [exact crossed_challenge|]]].
  - apply run_schedule_reach. unfold crossed_schedule, sign_in_with, drive.
    cbn [replicate app]. repeat apply Forall_cons_2; try exact I; try constructor.
  - intros A M1 envs Hcalm.
    assert (H := wp_exec calm _ _ _ envs 0 Hcalm (wp_guess calm (fun _ H => H) demo_lim (mkRequest 9 0 (Addr4 1))
      (mkSrpProof 1 A M1) crossed_pool.1 (mkKeyRow None (Some 2)) 2 eq_refl crossed_pending eq_refl
      ltac:(discriminate) eq_refl)).
    apply (proj1 H). discriminate.
Qed.
