(* ===== verification/RegistrationRuns.v ===== *)
(** * Registration over whole runs

    Every run of the account layer is a run of the registrar, so what the registrar keeps
    true holds whatever requests arrive and however their transactions interleave: an
    invitation is spent by one admission at most, an account belongs to one admission, and
    the administrator is the first account of a server that started with none.  Then an
    admission by itself: exactly when it commits, and what a refused one leaves. *)

From S2P Require Import Prelude.
From S2P Require Import NetAddr.
From S2P Require Import GoStrings.
From S2P Require Import RateLimit.
From S2P Require Import Sha256.
From S2P Require Import Srp.
From S2P Require Import Challenges.
From S2P Require Import PeerHash.
From S2P Require Import Threads.
From S2P Require Import Limits.
From S2P Require Import AccountStore.
From S2P Require Import Account.
From S2P Require Import Registration.
From S2P Require Import Registrar.
From S2P Require Import AccountSafety.
From S2P Require Import AccountRuns.
From Stdlib Require Import Ascii String.

Open Scope Z_scope.

(** ** Runs are runs of the registrar *)

Lemma account_step_ledger lim us names c c' :
  account_reach lim us names c -> pool_step (account_start lim) (fun _ => True) c c' ->
  reg_step (ledger_of c.1) (ledger_of c'.1).
Proof.
  intros Hr Hs. apply account_pool_inv in Hr. apply (pool_step_guar (inv DefaultTTL (registrationMode lim)) guar) in Hs as [_ H]; [done|apply guar_refl|done].
Qed.

Lemma account_steps_ledger lim us names c c' :
  account_reach lim us names c -> rtc (pool_step (account_start lim) (fun _ => True)) c c' ->
  rtc reg_step (ledger_of c.1) (ledger_of c'.1).
Proof.
  intros Hr Hs. induction Hs as [c|c c1 c2 H1 _ IH]; [done|]. eapply rtc_l; [by eapply account_step_ledger|].
  apply IH. by eapply rtc_r.
Qed.

Lemma account_ledger lim us names s ps :
  account_reach lim us names (s, ps) -> rtc reg_step (ledger_of (fresh us names)) (ledger_of s).
Proof. intros Hr. apply (account_steps_ledger lim us names (fresh us names, []) (s, ps)); [apply rtc_refl|exact Hr]. Qed.

(** ** What the registrar keeps true *)

Definition adm_user (a : admission) : Z := a.1.1.1.
Definition adm_handle (a : admission) : string := a.1.1.2.
Definition adm_invite (a : admission) : option Z := a.2.

(** The invitations: numbered from the sequence, one open per handle, and the spent ones are
    those of the admissions. *)
Record rows_ok (r : registry) (adm : list admission) : Prop := mkRowsOk {
  ro_ids : forall i, is_Some (invites r !! i) -> i <= invites_id_seq r;
  ro_one_live : forall i j x y, invites r !! i = Some x -> invites r !! j = Some y ->
    in_state x = InviteIssued -> in_state y = InviteIssued -> in_handle x = in_handle y -> i = j;
  ro_spent : forall i x, invites r !! i = Some x -> in_state x = InviteConsumed -> exists a, a ∈ adm /\ adm_invite a = Some i;
  ro_spent_by : forall a i, a ∈ adm -> adm_invite a = Some i ->
    exists x t, invites r !! i = Some x /\ in_handle x = adm_handle a /\ in_state x = InviteConsumed /\
      in_consumed x = Some t /\ t < in_expires x
}.

(** [us]: the accounts there were at the start. *)
Record reg_inv (us : gmap Z user_row) (L : ledger) : Prop := mkRegInv {
  ri_start : forall u row, us !! u = Some row -> l_users L !! u = Some row /\ u <= users_id_seq (l_registry L);
  ri_accounts : forall u row, l_users L !! u = Some row -> us !! u = Some row \/ exists a, a ∈ l_admitted L /\ adm_user a = u;
  ri_admitted : forall a, a ∈ l_admitted L -> adm_user a <= users_id_seq (l_registry L) /\ us !! adm_user a = None /\
    (exists first last, l_users L !! adm_user a = Some (mkUser None "username" first last (Some (adm_handle a)))) /\
    l_names L !! adm_handle a = Some ("user"%string, adm_user a);
  ri_distinct : NoDup (adm_user <$> l_admitted L) /\ NoDup (omap adm_invite (l_admitted L));
  ri_rows : rows_ok (l_registry L) (l_admitted L);
  ri_admin : server_administration (l_registry L) =
    Some (mkAdministration (bool_decide (us <> ∅) || bool_decide (l_admitted L <> []))
            (if bool_decide (us = ∅) then adm_user <$> last (l_admitted L) else None))
}.

(** *** The life of an invitation *)

(** What a row keeps for good. *)
Definition same_terms (x y : invite_row) : Prop :=
  in_handle y = in_handle x /\ in_digest y = in_digest x /\ in_issued y = in_issued x /\ in_expires y = in_expires x.

(** A row stays, or leaves the issued state. *)
Definition evolves (x y : invite_row) : Prop :=
  y = x \/ in_state x = InviteIssued /\ in_state y <> InviteIssued /\ same_terms x y.

Lemma evolves_refl x : evolves x x.
Proof. by left. Qed.

Lemma evolves_terms x y : evolves x y -> same_terms x y.
Proof. intros [->|(_ & _ & H)]; [by split_and!|done]. Qed.

Lemma evolves_issued x y : evolves x y -> in_state y = InviteIssued -> y = x.
Proof. by intros [->|(_ & H & _)]. Qed.

Lemma evolves_final x y : evolves x y -> in_state x <> InviteIssued -> y = x.
Proof. by intros [->|(H & _)]. Qed.

Lemma evolves_trans x y z : evolves x y -> evolves y z -> evolves x z.
Proof.
  intros [->|(H1 & H2 & H3)] H; [done|]. right. apply evolves_final in H as ->; done.
Qed.

Lemma lookup_Expire handle now m i :
  ExpireRegistrationInvite handle now m !! i =
  (fun x => if String.eqb (in_handle x) handle && bool_decide (in_state x = InviteIssued) && (in_expires x <=? now)
            then in_state_of InviteExpired (in_consumed x) (in_revoked x) x else x) <$> m !! i.
Proof. apply lookup_fmap. Qed.

Lemma Expire_back handle now m i y :
  ExpireRegistrationInvite handle now m !! i = Some y ->
  exists x, m !! i = Some x /\ evolves x y /\ (in_state y = InviteConsumed -> y = x).
Proof.
  rewrite lookup_Expire. intros (x & -> & Hx)%fmap_Some. exists x. split; [done|].
  destruct (String.eqb _ _ && _ && _) eqn:E in Hx; subst; [|by split; [left|]].
  apply andb_prop in E as [[_ E%bool_decide_eq_true]%andb_prop _]. split; [|done]. right. by split_and!.
Qed.

Lemma Expire_fwd handle now m i x :
  m !! i = Some x -> exists y, ExpireRegistrationInvite handle now m !! i = Some y /\ evolves x y.
Proof.
  intros Hx. rewrite lookup_Expire, Hx. eexists. split; [done|]. destruct (String.eqb _ _ && _ && _) eqn:E; [|by left].
  apply andb_prop in E as [[_ E%bool_decide_eq_true]%andb_prop _]. right. by split_and!.
Qed.

(** A step keeps every row that is there, and lets it only leave the issued state. *)
Lemma step_evolves us L L' i x :
  reg_inv us L -> reg_step L L' -> invites (l_registry L) !! i = Some x ->
  exists y, invites (l_registry L') !! i = Some y /\ evolves x y.
Proof.
  intros I H Hx. destruct H as [L|L r Hr|L handle digest now lifetime|L id y now Hy Hs|L handle hash invite now m a first last _ Hm].
  - exists x. eauto using evolves_refl.
  - exists x. cbn. rewrite Hr. eauto using evolves_refl.
  - cbn. destruct (Expire_fwd handle now _ _ _ Hx) as (y & Hy & He). exists y. split; [|done].
    rewrite lookup_insert_ne; [done|]. pose proof (ro_ids _ _ (ri_rows _ _ I) i (ex_intro _ _ Hx)). lia.
  - cbn. destruct (decide (i = id)) as [->|]; [|rewrite lookup_insert_ne by done; eauto using evolves_refl].
    simplify_eq. rewrite lookup_insert_eq. eexists. split; [done|]. right. by split_and!.
  - cbn. destruct Hm as [|id y secret Hy (_ & Hs & _)]; [eauto using evolves_refl|].
    destruct (decide (i = id)) as [->|]; [|rewrite lookup_insert_ne by done; eauto using evolves_refl].
    simplify_eq. rewrite lookup_insert_eq. eexists. split; [done|]. right. by split_and!.
Qed.

(** ** Every step keeps it *)

Lemma inv_with_registry us L r :
  reg_inv us L -> rows_ok r (l_admitted L) -> server_administration r = server_administration (l_registry L) ->
  users_id_seq (l_registry L) <= users_id_seq r -> reg_inv us (with_registry r L).
Proof.
  intros [I1 I2 I3 I4 I5 I6] Hr Ha Hs. split; cbn; try done; [| |by rewrite Ha].
  - intros u row Hu. destruct (I1 u row Hu). split; [done|lia].
  - intros a Hin. destruct (I3 a Hin) as (? & ?). split; [lia|done].
Qed.

Lemma issued_for_false handle m i x :
  issued_for handle m = false -> m !! i = Some x -> in_state x = InviteIssued -> in_handle x <> handle.
Proof. unfold issued_for. intros H%bool_decide_eq_false Hx Hs Hh. apply H. by exists i, x. Qed.

Lemma rows_issue r adm handle digest now lifetime :
  rows_ok r adm -> issued_for handle (ExpireRegistrationInvite handle now (invites r)) = false ->
  rows_ok (set_invites (<[invites_id_seq r + 1 := mkInvite handle digest now (now + lifetime) InviteIssued None None]>
                          (ExpireRegistrationInvite handle now (invites r))) (draw_invite_id r)) adm.
Proof.
  intros [R1 R2 R3 R4] Hno. set (id := invites_id_seq r + 1).
  assert (Hold : forall i x, ExpireRegistrationInvite handle now (invites r) !! i = Some x -> i < id).
  { intros i x (y & Hy & _)%Expire_back. assert (i <= invites_id_seq r) by (apply R1; by eexists). lia. }
  split; cbn [set_invites draw_invite_id invites invites_id_seq].
  - intros i [x [[<- _]|[_ Hx%Hold]]%lookup_insert_Some]; lia.
  - intros i j x y [[<- <-]|[_ Hx]]%lookup_insert_Some [[<- <-]|[_ Hy]]%lookup_insert_Some Sx Sy Hh; [done| | |].
    + cbn in Hh. by destruct (issued_for_false _ _ _ _ Hno Hy Sy).
    + cbn in Hh. by destruct (issued_for_false _ _ _ _ Hno Hx Sx).
    + apply Expire_back in Hx as (x0 & Hx & Ex & _), Hy as (y0 & Hy & Ey & _).
      apply evolves_issued in Ex as ->, Ey as ->; [|done..]. by eapply R2.
  - intros i x [[<- <-]|[_ (x0 & Hx & _ & E)%Expire_back]]%lookup_insert_Some Sx; [done|]. rewrite (E Sx) in Sx. by eapply R3.
  - intros a i Ha Hi. destruct (R4 a i Ha Hi) as (x & t & Hx & ? & Hs & ?). exists x, t.
    destruct (Expire_fwd handle now _ _ _ Hx) as (y & Hy & Ey). apply evolves_final in Ey as ->; [|by rewrite Hs].
    split; [|done]. rewrite lookup_insert_ne; [done|]. specialize (Hold _ _ Hy). lia.
Qed.

(** An open row that is closed: revoked, or spent by the admission [new]. *)
Lemma rows_close r adm new id x st c v seq us' a us'' :
  rows_ok r adm -> invites r !! id = Some x -> in_state x = InviteIssued -> st <> InviteIssued ->
  (st = InviteConsumed -> exists b, b ∈ new /\ adm_invite b = Some id) ->
  (forall b i, b ∈ new -> adm_invite b = Some i -> i = id /\ in_handle x = adm_handle b /\ st = InviteConsumed /\
     exists t, c = Some t /\ t < in_expires x) ->
  seq = invites_id_seq r ->
  rows_ok (mkRegistry (<[id := in_state_of st c v x]> (invites r)) seq us' a us'') (new ++ adm).
Proof.
  intros [R1 R2 R3 R4] Hx Sx Hst Hnew Hby ->. split; cbn [invites invites_id_seq].
  - intros i [y [[<- _]|[_ Hy]]%lookup_insert_Some]; apply R1; by eexists.
  - intros i j y z [[<- <-]|[_ Hy]]%lookup_insert_Some [[<- <-]|[_ Hz]]%lookup_insert_Some Sy Sz Hh; [done..|].
    by eapply R2.
  - intros i y [[<- <-]|[_ Hy]]%lookup_insert_Some Sy.
    + destruct (Hnew Sy) as (b & ? & ?). exists b. rewrite elem_of_app. auto.
    + destruct (R3 _ _ Hy Sy) as (b & ? & ?). exists b. rewrite elem_of_app. auto.
  - intros b i [Hb|Hb]%elem_of_app Hi.
    + destruct (Hby b i Hb Hi) as (-> & ? & ? & t & ? & ?). exists (in_state_of st c v x), t. rewrite lookup_insert_eq. by split_and!.
    + destruct (R4 b i Hb Hi) as (y & t & Hy & ? & Sy & ? & ?). exists y, t. rewrite lookup_insert_ne; [by split_and!|].
      intros ->. congruence.
Qed.

(** An admission that spends no invitation. *)
Lemma rows_cons_none r adm u h c us' a us'' :
  rows_ok r adm -> rows_ok (mkRegistry (invites r) (invites_id_seq r) us' a us'') ((u, h, c, None) :: adm).
Proof.
  intros [R1 R2 R3 R4]. split; cbn; [done|done| |].
  - intros i x Hx Sx. destruct (R3 i x Hx Sx) as (b & ? & ?). exists b. rewrite elem_of_cons. auto.
  - intros b i [->|Hb]%elem_of_cons Hi; [done|]. by apply R4.
Qed.

Lemma rows_spend r adm handle now invite m u c us' a us'' :
  rows_ok r adm -> spends handle now (invites r) invite m ->
  rows_ok (mkRegistry m (invites_id_seq r) us' a us'') ((u, handle, c, invite) :: adm).
Proof.
  intros Hr [|i x secret Hx (Hh & Hs & Ht & _)]; [by apply rows_cons_none|].
  apply (rows_close r adm [(u, handle, c, Some i)]); try done.
  - intros _. eexists. split; [by left|done].
  - intros b j ->%list_elem_of_singleton [= <-]. split_and!; try done. by exists now.
Qed.

(** The invitation just spent was spent by nobody before. *)
Lemma spends_new r adm handle now invite m :
  rows_ok r adm -> spends handle now (invites r) invite m -> NoDup (omap adm_invite adm) ->
  NoDup (match invite with Some i => i :: omap adm_invite adm | None => omap adm_invite adm end).
Proof.
  intros Hr Hs Hn. destruct Hs as [|i x secret Hx (_ & Sx & _)]; [done|]. constructor; [|done].
  intros (a & Ha & Hi)%list_elem_of_omap. destruct (ro_spent_by _ _ Hr a i Ha Hi) as (y & t & Hy & _ & Sy & _). congruence.
Qed.

(** The administrator after one more admission. *)
Lemma admin_step us (adm : list admission) new :
  elected (adm_user new)
    (mkAdministration (bool_decide (us <> (∅ : gmap Z user_row)) || bool_decide (adm <> []))
       (if bool_decide (us = ∅) then adm_user <$> last adm else None)) =
  mkAdministration (bool_decide (us <> ∅) || bool_decide (new :: adm <> []))
    (if bool_decide (us = ∅) then adm_user <$> last (new :: adm) else None).
Proof.
  unfold elected. cbn [election_closed]. destruct (decide (us = ∅)) as [He|He].
  - rewrite (bool_decide_eq_false_2 (us <> ∅)), (bool_decide_eq_true_2 (us = ∅)) by tauto. cbn [orb].
    rewrite (bool_decide_eq_true_2 (new :: adm <> [])) by done. destruct adm as [|a adm]; [done|].
    rewrite (bool_decide_eq_true_2 (a :: adm <> [])) by done. done.
  - by rewrite (bool_decide_eq_true_2 (us <> ∅)), (bool_decide_eq_false_2 (us = ∅)) by tauto.
Qed.

Lemma reg_inv_admit us L handle hash invite now m a first last :
  reg_inv us L -> l_names L !! handle = None -> spends handle now (invites (l_registry L)) invite m ->
  server_administration (l_registry L) = Some a ->
  let user := users_id_seq (l_registry L) + 1 in
  reg_inv us (mkLedger
    (<[user := mkUser None "username" first last (Some handle)]> (l_users L))
    (<[handle := ("user"%string, user)]> (l_names L))
    (mkRegistry m (invites_id_seq (l_registry L)) user (Some (elected user a)) ({[user]} ∪ update_states (l_registry L)))
    ((user, handle, hash, invite) :: l_admitted L)).
Proof.
  intros I Hn Hm Ha user. pose proof (spends_new _ _ _ _ _ _ (ri_rows _ _ I) Hm (proj2 (ri_distinct _ _ I))) as Hd.
  destruct I as [I1 I2 I3 [I4 _] I5 I6]. assert (Hseq : user = users_id_seq (l_registry L) + 1) by done. clearbody user.
  split; cbn [l_users l_names l_registry l_admitted users_id_seq].
  - intros u row Hu. destruct (I1 u row Hu) as [? ?]. split; [|lia]. rewrite lookup_insert_ne; [done|lia].
  - intros u row [[<- _]|[_ Hu]]%lookup_insert_Some; [right; eexists; by split; [left|]|].
    destruct (I2 u row Hu) as [|(b & ? & ?)]; [by left|right]. exists b. split; [by right|done].
  - intros b [->|Hb]%elem_of_cons; cbn [adm_user adm_handle fst snd].
    + split_and!; [lia| |exists first, last; by rewrite lookup_insert_eq|by rewrite lookup_insert_eq].
      apply eq_None_not_Some. intros [row Hrow]. destruct (I1 _ _ Hrow). lia.
    + destruct (I3 b Hb) as (? & ? & Hu & Hnm). split_and!; [lia|done| |].
      * rewrite lookup_insert_ne; [done|lia].
      * rewrite lookup_insert_ne; [done|]. intros ->. congruence.
  - split.
    + cbn. constructor; [|done]. intros (b & Hb & Hin)%list_elem_of_fmap. destruct (I3 b Hin) as (? & _). cbn in Hb. lia.
    + by destruct invite.
  - by apply (rows_spend _ _ _ now).
  - cbn [server_administration]. rewrite Ha in I6. injection I6 as ->. f_equal. apply (admin_step us _ (user, handle, hash, invite)).
Qed.

Lemma reg_step_inv us L L' : reg_inv us L -> reg_step L L' -> reg_inv us L'.
Proof.
  intros I H. pose proof (ri_rows _ _ I) as Hr.
  destruct H as [L|L r Hi Ha _ Hs1 Hs2|L handle digest now lifetime _ _ _ Hno|L id x now Hx Hs Ht|L handle hash invite now m a first last Hn Hm Ha _].
  - done.
  - apply inv_with_registry; try done. destruct Hr as [R1 R2 R3 R4]. split; rewrite ?Hi; try done. intros i Hx. specialize (R1 i Hx). lia.
  - apply inv_with_registry; try done. by apply rows_issue.
  - apply inv_with_registry; try done. apply (rows_close _ _ [] id x); try done. by intros b i ?%elem_of_nil.
  - by apply (reg_inv_admit us L handle hash invite now m a).
Qed.

Lemma reg_inv_fresh us names : reg_inv us (ledger_of (fresh us names)).
Proof.
  assert (Hno : admitted (map (fun ur : Z * user_row => EUser ur.1 ur.2) (map_to_list us)) = []).
  { generalize (map_to_list us). intros l. by induction l. }
  unfold ledger_of. cbn [history fresh]. rewrite Hno. split; cbn.
  - intros u row Hu. split; [done|]. apply foldr_max_ge, list_elem_of_fmap. exists (u, row). split; [done|]. by apply elem_of_map_to_list.
  - by left.
  - by intros a ?%elem_of_nil.
  - split; constructor.
  - split; cbn [fresh_registry registration invites fresh]; [intros i [x Hx]|intros i j x y Hx|intros i x Hx|by intros a i ?%elem_of_nil];
      by rewrite lookup_empty in Hx.
  - rewrite (bool_decide_eq_false_2 ([] <> [])) by tauto. rewrite orb_false_r. by destruct (bool_decide (us = ∅)).
Qed.

Lemma account_reg_inv lim us names s ps : account_reach lim us names (s, ps) -> reg_inv us (ledger_of s).
Proof.
  intros H%account_ledger. revert H. apply rtc_invariant; [|apply reg_inv_fresh]. intros L L' HL. by apply reg_step_inv.
Qed.

(** Between two moments of a run every invitation has only evolved. *)
Lemma ledger_evolves us L L' i x :
  reg_inv us L -> rtc reg_step L L' -> invites (l_registry L) !! i = Some x ->
  exists y, invites (l_registry L') !! i = Some y /\ evolves x y.
Proof.
  intros I H. revert x I. induction H as [L|L L1 L2 H1 _ IH]; intros x I Hx; [eauto using evolves_refl|].
  destruct (step_evolves us _ _ _ _ I H1 Hx) as (y & Hy & E). destruct (IH y (reg_step_inv _ _ _ I H1) Hy) as (z & Hz & E').
  exists z. eauto using evolves_trans.
Qed.

Lemma admitted_mode lim us names s ps a :
  account_reach lim us names (s, ps) -> a ∈ admitted (history s) ->
  registrationMode lim = RegistrationInvite /\ is_Some (adm_invite a) \/ registrationMode lim = RegistrationOpen /\ adm_invite a = None.
Proof.
  intros Hr (ev & Hev & Ha)%list_elem_of_omap. apply account_inv in Hr.
  destruct (events_in _ _ _ _ (i_events _ _ _ Hr) Hev) as (later & earlier & _ & He).
  destruct ev; try done. injection Ha as <-. exact He.
Qed.

(** ** The theorems *)

(** C11 (refinement).  Whatever requests, invitations and sweeps arrive and however their
    transactions interleave, with the store failing at any call, the accounts, the names,
    the invitations and the administrator move as the abstract registrar allows: by the
    issue of an invitation for a handle that has none open, by the revocation of an open
    one, by an admission under a free name that spends at most one invitation of that name
    and elects the administrator if the election is open, or not at all. *)
Theorem registration_refines (lim : limits) (us : gmap Z user_row) (names : gmap string (string * Z)) (s : auth_state)
    (ps : list account_prog) :
  account_reach lim us names (s, ps) -> rtc reg_step (ledger_of (fresh us names)) (ledger_of s).
Proof. apply account_ledger. Qed.

(** C6 (safety).  Every account is one the server started with or the account of an admission,
    and no two admissions share an account or an invitation.  An admitted account has no
    phone, and its handle names it.  Where registration is by invitation every admission
    spent one: issued for that very handle, spent by nobody else, before it expired; where it
    is open none was spent, and where it is closed there is no admission. *)
Theorem one_account_per_invitation (lim : limits) (us : gmap Z user_row) (names : gmap string (string * Z)) (s : auth_state)
    (ps : list account_prog) :
  account_reach lim us names (s, ps) ->
  (forall u row, users s !! u = Some row -> us !! u = Some row \/ exists a, a ∈ admitted (history s) /\ adm_user a = u) /\
  NoDup (adm_user <$> admitted (history s)) /\ NoDup (omap adm_invite (admitted (history s))) /\
  forall a, a ∈ admitted (history s) ->
    us !! adm_user a = None /\
    (exists first last, users s !! adm_user a = Some (mkUser None "username" first last (Some (adm_handle a)))) /\
    usernames s !! adm_handle a = Some ("user"%string, adm_user a) /\
    match adm_invite a with
    | None => registrationMode lim = RegistrationOpen
    | Some i => registrationMode lim = RegistrationInvite /\
        exists x t, invites (registration s) !! i = Some x /\ in_handle x = adm_handle a /\
          in_state x = InviteConsumed /\ in_consumed x = Some t /\ t < in_expires x
    end.
Proof.
  intros Hr. pose proof (account_reg_inv _ _ _ _ _ Hr) as [_ I2 I3 [I4 I5] I6 _]. split_and!; try done.
  intros a Ha. destruct (I3 a Ha) as (_ & Hn & Hu & Hnm). split_and!; try done.
  destruct (admitted_mode _ _ _ _ _ _ Hr Ha) as [[Hm [i Hi]]|[Hm Hi]]; rewrite Hi; [|done]. split; [done|].
  apply (ro_spent_by _ _ I6 a i Ha Hi).
Qed.

(** As far as requests go, the administrator of a server that started empty is its first account, from
    its admission on, and never another; a server that started with accounts elects nobody. *)
Theorem administrator_elected_once (lim : limits) (us : gmap Z user_row) (names : gmap string (string * Z)) (s : auth_state)
    (ps : list account_prog) (u : Z) :
  account_reach lim us names (s, ps) ->
  IsServerAdministrator u s = bool_decide (0 < u /\ us = ∅ /\ adm_user <$> last (admitted (history s)) = Some u).
Proof.
  intros Hr. pose proof (ri_admin _ _ (account_reg_inv _ _ _ _ _ Hr)) as Ha. cbn [ledger_of l_registry l_admitted] in Ha.
  unfold IsServerAdministrator. destruct (Z.leb_spec u 0); [rewrite bool_decide_eq_false_2; [done|lia]|]. rewrite Ha. cbn [election_closed administrator].
  destruct (decide (us = ∅)) as [He|He].
  - rewrite (bool_decide_eq_true_2 (us = ∅)), (bool_decide_eq_false_2 (us <> ∅)) by tauto. cbn [orb].
    destruct (admitted (history s)) as [|a l]; [by rewrite !bool_decide_eq_false_2 by (cbn; naive_solver)|].
    rewrite (bool_decide_eq_true_2 (a :: l <> [])) by done. cbn [andb]. apply bool_decide_ext. tauto.
  - rewrite (bool_decide_eq_false_2 (us = ∅)), (bool_decide_eq_false_2 (None = Some u)), andb_false_r by done.
    symmetry. apply bool_decide_eq_false. tauto.
Qed.

(** An invitation never loses its handle, its secret's digest or its times, and
    its state changes once at most: from issued to consumed, revoked or expired, and from
    there never.  At every moment a handle has one issued invitation at most. *)
Theorem invitation_lifecycle (lim : limits) (us : gmap Z user_row) (names : gmap string (string * Z)) (s s' : auth_state)
    (ps ps' : list account_prog) (i : Z) (x : invite_row) :
  account_reach lim us names (s, ps) -> rtc (pool_step (account_start lim) (fun _ => True)) (s, ps) (s', ps') ->
  invites (registration s) !! i = Some x ->
  (exists y, invites (registration s') !! i = Some y /\ same_terms x y /\
     (in_state x <> InviteIssued -> y = x) /\ (in_state y = InviteIssued -> y = x)) /\
  (forall j z, invites (registration s) !! j = Some z -> in_state x = InviteIssued -> in_state z = InviteIssued ->
     in_handle x = in_handle z -> i = j).
Proof.
  intros Hr Hs Hx. pose proof (account_reg_inv _ _ _ _ _ Hr) as I. split.
  - destruct (ledger_evolves us (ledger_of s) (ledger_of s') i x I) as (y & Hy & E); [|done|].
    { by apply (account_steps_ledger lim us names (s, ps) (s', ps')). }
    exists y. split_and!; [done|by apply evolves_terms|by apply evolves_final|by apply evolves_issued].
  - intros j z Hz Sx Sz Hh. by eapply (ro_one_live _ _ (ri_rows _ _ I)).
Qed.

(** ** Admission by itself *)

(** What an admission needs: an unbound key, a free name, a good code under it, and where
    one is required an open invitation for the name whose secret the code's row holds. *)
Definition admissible (handle hash : string) (key : Z) (requireInvite : bool) (code : string) (now : Z) (s : auth_state) : Prop :=
  LockUnboundAuthKey s key = true /\ usernames s !! handle = None /\
  (exists r, phone_codes s !! hash = Some r /\ good_code handle now r) /\
  (requireInvite = true -> exists i x, invites (registration s) !! i = Some x /\ invited handle code now x).

Lemma admits_admissible handle hash key first last (invite : option Z) req code now user s s' :
  admits handle hash key first last invite now user s s' ->
  (req = true -> exists i x, invites (registration s) !! i = Some x /\ invited handle code now x) ->
  admissible handle hash key req code now s.
Proof. intros [_ Hk Hn (r & Hr & Hg & _)] Hi. split_and!; try done. by exists r. Qed.

(** With one open invitation per handle, spending succeeds exactly on a live one with that secret. *)
Lemma ConsumeInvite_iff handle secret now s :
  ToLower handle = handle ->
  (forall i j x y, invites (registration s) !! i = Some x -> invites (registration s) !! j = Some y ->
     in_state x = InviteIssued -> in_state y = InviteIssued -> in_handle x = in_handle y -> i = j) ->
  is_Some (ConsumeInvite handle secret now s).1 <->
  exists i x, invites (registration s) !! i = Some x /\ invited handle secret now x.
Proof.
  intros Hlow Hone. split.
  - unfold ConsumeInvite. rewrite Hlow. pose proof (live_invite_spec handle now (invites (registration s))) as Hl.
    destruct (LiveRegistrationInviteForUpdate _ _ _) as [[[id stored] []] live]; cbn [andb].
    + destruct Hl as (x & Hx & Hh & Hs & -> & ->). destruct (Z.gtb_spec (in_expires x) now), (inviteSecretMatches _ _) eqn:Em; cbn [andb].
      * intros _. exists id, x. split; [done|]. by apply matches_digest in Em.
      * destruct (ConsumeRegistrationInvite _ _ _ _). by intros [? ?].
      * destruct (ConsumeRegistrationInvite _ _ _ _). by intros [? ?].
      * destruct (ConsumeRegistrationInvite _ _ _ _). by intros [? ?].
    + destruct (ConsumeRegistrationInvite _ _ _ _). by intros [? ?].
  - intros (i & x & Hx & Hi). pose proof (ConsumeInvite_spec handle secret now s) as H. rewrite Hlow in H.
    destruct (ConsumeInvite handle secret now s) as [[j|] s1]; [by eexists|]. exfalso. destruct Hi as (Hh & Hs & Hrest).
    apply (H i x Hx Hs Hh); [|exact (conj Hh (conj Hs Hrest))]. intros j y Hy Sy Hhy. apply (Hone i j x y Hx Hy Hs Sy). congruence.
Qed.

Lemma admit_write_complete handle hash key first last req code now s a :
  ToLower handle = handle -> admissible handle hash key req code now s ->
  (req = true -> is_Some (ConsumeInvite handle code now s).1) -> server_administration (registration s) = Some a ->
  negb (election_closed a) && bool_decide (is_Some (administrator a)) = false ->
  exists user s', admit_write handle hash key first last req code now s = (Ok user, s').
Proof.
  intros Hlow (Hk & Hn & (r & Hr & Hg) & _) Hi Ha Hel. unfold admit_write. rewrite Hk. cbn [negb].
  destruct (if req then _ else _) as [[b i] s1] eqn:Ei.
  assert (H1 : b = true /\ exists m, s1 = set_registry (set_invites m (registration s)) s).
  { destruct req.
    - specialize (Hi eq_refl). pose proof (ConsumeInvite_spec handle code now s) as Hc.
      destruct (ConsumeInvite handle code now s) as [[j|] s2]; [|by destruct Hi].
      destruct Hc as (m & _ & ->). injection Ei as <- _ <-. split; [done|]. by exists m.
    - injection Ei as <- _ <-. split; [done|]. exists (invites (registration s)). by destruct s as [? ? ? ? ? ? ? ? ? ? ? []]. }
  destruct H1 as (-> & m & ->). cbn [negb].
  pose proof (ConsumeCodeForUsername_spec (set_registry (set_invites m (registration s)) s) handle hash now) as Hc.
  destruct (ConsumeCodeForUsername _ handle hash now) as [[] s2]; cbn [negb].
  2: { destruct Hc as [_ Hc]. by destruct (Hc r Hr). }
  destruct Hc as (r' & _ & _ & ->). cbv zeta. cbn [usernames set_codes set_registry]. rewrite Hn, bool_decide_eq_false_2 by (by intros [? ?]).
  unfold electServerAdministrator, LockServerAdministration. cbn. rewrite Ha, Hel. unfold LockUnboundAuthKey in Hk.
  destruct (auth_keys s !! key) as [k|] eqn:Ek; [|done].
  destruct (election_closed a); unfold BindAuthKeyUser; cbn; rewrite Ek; by eauto.
Qed.

Lemma admit_write_invited handle hash key first last code now s user s' :
  admit_write handle hash key first last true code now s = (Ok user, s') -> is_Some (ConsumeInvite handle code now s).1.
Proof.
  unfold admit_write. destruct (LockUnboundAuthKey s key); [|done]. cbn [negb].
  destruct (ConsumeInvite handle code now s) as [[i|] s1]; [by eexists|]. by rewrite bool_decide_eq_false_2 by (by intros [? ?]).
Qed.

(** C18 (equivalence).  On a server's own states, the admission transaction commits exactly when the
    key is unbound, the name free, the code good and, where one is required, an open
    invitation for the name carries the digest of the code's value; it then makes the next
    account with everything that belongs to it, and otherwise it leaves the store as it was,
    a number of the accounts' sequence aside. *)
Theorem admission_exact (lim : limits) (us : gmap Z user_row) (names : gmap string (string * Z)) (s : auth_state)
    (ps : list account_prog) (handle hash : string) (key : Z) (first last : string) (req : bool) (code : string) (now : Z) :
  account_reach lim us names (s, ps) -> ToLower handle = handle ->
  match admit_write handle hash key first last req code now s with
  | (Ok user, s') => admissible handle hash key req code now s /\
      exists invite, bool_decide (is_Some invite) = req /\ admits handle hash key first last invite now user s s'
  | (Err _, s') => ~ admissible handle hash key req code now s /\
      (s' = s \/ s' = set_registry (draw_user_id (registration s)) s)
  end.
Proof.
  intros Hr Hlow. pose proof (account_reg_inv _ _ _ _ _ Hr) as I. pose proof (ri_admin _ _ I) as Ha. pose proof (ri_rows _ _ I) as Hrows.
  assert (Hone := ConsumeInvite_iff handle code now s Hlow (ro_one_live _ _ Hrows)).
  pose proof (admit_write_spec handle hash key first last req code now s Hlow) as Hspec.
  destruct (admit_write handle hash key first last req code now s) as [[user|x] s'] eqn:E.
  - split; [|done]. destruct Hspec as (invite & _ & Had). apply (admits_admissible _ _ _ _ _ _ _ _ _ _ _ _ Had).
    intros ->. apply Hone. by eapply admit_write_invited.
  - split; [|done]. intros Hadm. edestruct (admit_write_complete handle hash key first last req code now s) as (user & s'' & E');
      [done|exact Hadm| |exact Ha| |congruence].
    + intros Hreq. apply Hone. destruct Hadm as (_ & _ & _ & Hi). by apply Hi.
    + cbn. destruct (bool_decide (us <> ∅)) eqn:Eu; [done|]. cbn [orb]. destruct (admitted (history s)); [by destruct (bool_decide (us = ∅))|].
      by rewrite (bool_decide_eq_true_2 (_ :: _ <> [])).
Qed.

(** ** An invitation from its issue to its use *)

(** Verifying accepts exactly a live invitation with that secret. *)
Lemma VerifyInvite_iff handle secret now s :
  (forall i j x y, invites (registration s) !! i = Some x -> invites (registration s) !! j = Some y ->
     in_state x = InviteIssued -> in_state y = InviteIssued -> in_handle x = in_handle y -> i = j) ->
  VerifyInvite handle secret now s = None <->
  exists i x, invites (registration s) !! i = Some x /\ invited (ToLower handle) secret now x.
Proof.
  intros Hone. unfold VerifyInvite. pose proof (live_invite_spec (ToLower handle) now (invites (registration s))) as Hl.
  destruct (LiveRegistrationInviteForUpdate _ _ _) as [[[id stored] []] live]; cbn [negb orb].
  - destruct Hl as (x & Hx & Hh & Hs & -> & ->). split.
    + destruct (Z.gtb_spec (in_expires x) now), (inviteSecretMatches _ _) eqn:Em; cbn; try done. intros _.
      exists id, x. split; [done|]. by apply matches_digest in Em.
    + intros (i & y & Hy & Hhy & Sy & Hty & Hdy). assert (i = id) as -> by (eapply Hone; eauto; congruence). rewrite Hx in Hy. injection Hy as <-.
      destruct (Z.gtb_spec (in_expires x) now); [|lia]. cbn [negb orb]. unfold inviteSecretMatches, len. rewrite Hdy, length_sha256. cbn [andb Z.eqb Pos.eqb Nat.sub repeat].
      rewrite app_nil_r, take_ge, bool_decide_eq_true_2 by (done || rewrite length_sha256; lia). done.
  - split; [done|]. intros (i & y & Hy & Hhy & Sy & _). by destruct (Hl i y Hy Sy).
Qed.

(** What a successful issue has written. *)
Lemma IssueInvite_row handle lifetimes draw now s id secret s' :
  IssueInvite handle lifetimes draw now s = (Ok (id, secret), s') ->
  exists lifetime, inviteLifetime lifetimes = Ok lifetime /\ id = invites_id_seq (registration s) + 1 /\
    invites (registration s') !! id =
      Some (mkInvite (ToLower handle) (sha256 (bytes_of secret)) now (now + Z.quot lifetime 1000) InviteIssued None None).
Proof.
  unfold IssueInvite. cbv zeta. destruct (String.eqb _ _); [done|]. destruct (inviteLifetime lifetimes) as [l|]; [|done].
  destruct draw as [bytes|]; [|done]. unfold InsertRegistrationInvite. cbv zeta. destruct (_ || _ || _ || _); [done|].
  destruct (issued_for _ _); [done|]. intros [= <- <- <-]. exists l. split_and!; [done|done|]. cbn. by rewrite lookup_insert_eq.
Qed.

(** C29 (roundtrip).  The secret an issue hands out opens the invitation: until it expires, and for
    no secret of another digest, the handle in any case verifies; once it was revoked, or its
    time is up, it does not. *)
Theorem issued_invite_verifies (lim : limits) (us : gmap Z user_row) (names : gmap string (string * Z)) (s s' : auth_state)
    (ps : list account_prog) (handle asked secret other : string) (lifetimes : list Z) (draw : option (list Z))
    (now now' id lifetime : Z) :
  account_reach lim us names (s, ps) -> IssueInvite handle lifetimes draw now s = (Ok (id, secret), s') ->
  inviteLifetime lifetimes = Ok lifetime -> ToLower asked = ToLower handle ->
  (VerifyInvite asked other now' s' = None <->
     now' < now + Z.quot lifetime 1000 /\ sha256 (bytes_of other) = sha256 (bytes_of secret)) /\
  (now' < now + Z.quot lifetime 1000 -> VerifyInvite asked secret now' (RevokeInvite id now' s') = Some ErrInviteInvalid).
Proof.
  intros Hr Hi Hlt Hask. pose proof (account_reg_inv _ _ _ _ _ Hr) as I.
  assert (I' : reg_inv us (ledger_of s')).
  { apply (reg_step_inv us (ledger_of s)); [done|]. pose proof (issue_step_ok handle lifetimes draw now s) as [H _]. by rewrite Hi in H. }
  destruct (IssueInvite_row _ _ _ _ _ _ _ _ Hi) as (l & Hl & _ & Hx). rewrite Hlt in Hl. injection Hl as <-.
  pose proof (ro_one_live _ _ (ri_rows _ _ I')) as Hone. split.
  - rewrite VerifyInvite_iff by done. rewrite Hask. split.
    + intros (i & x & Hxi & Hh & Hs & Ht & Hd). assert (i = id) as -> by (by eapply Hone). cbn in Hxi. simplify_eq. by cbn in *.
    + intros [Ht Hd]. exists id. eexists. split; [exact Hx|]. by split_and!.
  - intros Ht. assert (I2 : reg_inv us (ledger_of (RevokeInvite id now' s'))).
    { apply (reg_step_inv us (ledger_of s')); [done|]. apply revoke_step_ok. }
    destruct (VerifyInvite asked secret now' (RevokeInvite id now' s')) as [e|] eqn:E.
    + revert E. unfold VerifyInvite. destruct (LiveRegistrationInviteForUpdate _ _ _) as [[[? ?] ?] ?]. by destruct (_ || _); intros [= <-].
    + exfalso. apply VerifyInvite_iff in E; [|apply (ri_rows _ _ I2)]. destruct E as (i & x & Hxi & Hh & Hs & _).
      revert Hxi. unfold RevokeInvite. rewrite Hx. cbn [in_state in_expires]. rewrite bool_decide_eq_true_2 by done.
      destruct (Z.gtb_spec (now + Z.quot lifetime 1000) now'); [|lia]. cbn.
      intros [[<- <-]|[Hne Hxi]]%lookup_insert_Some; [done|]. apply Hne. eapply Hone; [exact Hx|exact Hxi|done|done|]. cbn. congruence.
Qed.

(** ** A registration from invitation to account *)

Definition demo_secret : string := randHex (replicate 31 0 ++ [11]).

(** A key is made, an invitation issued, a code sent to the handle, and the secret given in
    its place. *)
Definition invited_schedule : list (@choice auth_state env outcome) :=
  Arrive (background (fun _ s => SaveAuthKey s 7)) :: steps 0 1 ++
  Arrive (background (fun e s => (IssueInvite "alice99" [] (e_rand e inviteSecretBytes) (e_now e) s).2)) :: steps 0 1 ++
  Arrive (handleSendCode demo_lim (demo_request 1) "Alice99") :: steps 0 3 ++
  Arrive (handleSignIn demo_lim (demo_request 1) "alice99" demo_hash demo_secret) :: steps 0 4.

Definition signup_schedule : list (@choice auth_state env outcome) :=
  Arrive (handleSignUp demo_lim (demo_request 1) (mkSignUp "Alice99" demo_hash "Al" "")) :: steps 0 5.

Definition invited_pool : auth_state * list account_prog := run_schedule (fresh ∅ ∅) invited_schedule.
Definition signup_pool : auth_state * list account_prog :=
  run_schedule (fresh ∅ ∅) (invited_schedule ++ signup_schedule).

Lemma steps_ok starts i n : schedule_ok starts (fun _ => True) (steps i n).
Proof. induction n as [|n IH]; constructor; done. Qed.

Lemma signup_schedule_ok : schedule_ok (account_start demo_lim) (fun _ => True) signup_schedule.
Proof. apply Forall_cons_2; [apply as_signUp|apply steps_ok]. Qed.

Lemma invited_schedule_ok : schedule_ok (account_start demo_lim) (fun _ => True) invited_schedule.
Proof.
  apply Forall_cons_2; [apply as_key|]. apply Forall_app_2; [apply steps_ok|].
  apply Forall_cons_2; [apply as_issueInvite|]. apply Forall_app_2; [apply steps_ok|].
  apply Forall_cons_2; [apply as_sendCode|]. apply Forall_app_2; [apply steps_ok|].
  apply Forall_cons_2; [apply as_signIn|apply steps_ok].
Qed.

Lemma invited_reach : account_reach demo_lim ∅ ∅ (invited_pool.1, invited_pool.2).
Proof.
  rewrite <- surjective_pairing. apply run_schedule_reach. apply invited_schedule_ok.
Qed.

Lemma signup_reach : account_reach demo_lim ∅ ∅ (signup_pool.1, signup_pool.2).
Proof.
  rewrite <- surjective_pairing. unfold signup_pool. apply run_schedule_reach.
  apply Forall_app_2; [apply invited_schedule_ok|apply signup_schedule_ok].
Qed.

(** The account comes out, for the handle, the code and the invitation of the run. *)
Lemma signup_admitted : admitted (history signup_pool.1) = [(1, "alice99"%string, demo_hash, Some 1)].
Proof. vm_compute. reflexivity. Qed.

Lemma registration_refines_witness :
  rtc reg_step (ledger_of (fresh ∅ ∅)) (ledger_of signup_pool.1) /\ l_admitted (ledger_of signup_pool.1) = [(1, "alice99"%string, demo_hash, Some 1)].
Proof. split; [exact (registration_refines demo_lim ∅ ∅ signup_pool.1 signup_pool.2 signup_reach)|exact signup_admitted]. Defined.

Lemma one_account_per_invitation_witness :
  usernames signup_pool.1 !! "alice99"%string = Some ("user"%string, 1) /\
  exists x t, invites (registration signup_pool.1) !! 1 = Some x /\ in_handle x = "alice99"%string /\
    in_state x = InviteConsumed /\ in_consumed x = Some t /\ t < in_expires x.
Proof.
  destruct (one_account_per_invitation demo_lim ∅ ∅ signup_pool.1 signup_pool.2 signup_reach) as (_ & _ & _ & H).
  destruct (H (1, "alice99"%string, demo_hash, Some 1)) as (_ & _ & Hn & _ & Hx); [rewrite signup_admitted; by left|].
  exact (conj Hn Hx).
Defined.

Lemma administrator_elected_once_witness :
  IsServerAdministrator 1 signup_pool.1 = true /\ IsServerAdministrator 1 invited_pool.1 = false.
Proof.
  rewrite (administrator_elected_once demo_lim ∅ ∅ signup_pool.1 signup_pool.2 1 signup_reach), signup_admitted.
  rewrite (administrator_elected_once demo_lim ∅ ∅ invited_pool.1 invited_pool.2 1 invited_reach).
  split; vm_compute; reflexivity.
Defined.

Definition demo_digest : list Z := Eval vm_compute in sha256 (bytes_of demo_secret).

Definition demo_invite (st : InviteState) (consumed : option Z) : invite_row :=
  mkInvite "alice99" demo_digest 1000000000 605800000000 st consumed None.

Lemma signup_spent : invites (registration signup_pool.1) !! 1 = Some (demo_invite InviteConsumed (Some 1000000000)).
Proof. vm_compute. reflexivity. Qed.

Lemma invitation_lifecycle_witness :
  exists y, invites (registration signup_pool.1) !! 1 = Some y /\ same_terms (demo_invite InviteConsumed (Some 1000000000)) y.
Proof.
  destruct (invitation_lifecycle demo_lim ∅ ∅ signup_pool.1 signup_pool.1 signup_pool.2 signup_pool.2 1 _
    signup_reach (rtc_refl _ _) signup_spent) as [(y & Hy & Ht & _) _].
  exists y. exact (conj Hy Ht).
Defined.

Lemma admission_exact_witness :
  match admit_write "alice99" demo_hash 7 "Al" "" true demo_secret 1000000000 invited_pool.1 with
  | (Ok user, s') => user = 1 /\ admissible "alice99" demo_hash 7 true demo_secret 1000000000 invited_pool.1
  | (Err _, _) => False
  end.
Proof.
  pose proof (admission_exact demo_lim ∅ ∅ invited_pool.1 invited_pool.2 "alice99" demo_hash 7 "Al" "" true demo_secret 1000000000
    invited_reach eq_refl) as H.
  assert (E : exists s', admit_write "alice99" demo_hash 7 "Al" "" true demo_secret 1000000000 invited_pool.1 = (Ok 1, s')).
  { eexists. vm_compute. reflexivity. }
  destruct E as [s' E]. rewrite E in H |- *. split; [reflexivity|apply H].
Defined.

Lemma issued_invite_verifies_witness :
  exists s', IssueInvite "Bob_77" [] (Some (replicate 31 0 ++ [11])) 2000000000 invited_pool.1 = (Ok (2, demo_secret), s') /\
    VerifyInvite "bOB_77" demo_secret 3000000000 s' = None /\
    VerifyInvite "bob_77" demo_secret 3000000000 (RevokeInvite 2 3000000000 s') = Some ErrInviteInvalid.
Proof.
  assert (E : exists s', IssueInvite "Bob_77" [] (Some (replicate 31 0 ++ [11])) 2000000000 invited_pool.1 = (Ok (2, demo_secret), s')).
  { eexists. vm_compute. reflexivity. }
  destruct E as [s' E]. exists s'.
  assert (Hlt : 3000000000 < 2000000000 + Z.quot DefaultInviteLifetime 1000) by (vm_compute; reflexivity).
  split; [exact E|]. split.
  - apply (issued_invite_verifies demo_lim ∅ ∅ invited_pool.1 s' invited_pool.2 "Bob_77" "bOB_77" demo_secret demo_secret []
      (Some (replicate 31 0 ++ [11])) 2000000000 3000000000 2 DefaultInviteLifetime invited_reach E eq_refl eq_refl).
    split; [exact Hlt|reflexivity].
  - apply (issued_invite_verifies demo_lim ∅ ∅ invited_pool.1 s' invited_pool.2 "Bob_77" "bob_77" demo_secret demo_secret []
      (Some (replicate 31 0 ++ [11])) 2000000000 3000000000 2 DefaultInviteLifetime invited_reach E eq_refl eq_refl).
    exact Hlt.
Defined.
