(* ===== verification/SecretStore.v ===== *)
(** * What secret chats keep

    The tables of [internal/store/secretchats.go] and [internal/store/encrypted.go] with the
    statements of [internal/store/queries/secret_chats.sql]: the key-exchange rows, their id
    sequence, each recipient's qts and the undelivered encrypted events.  Each statement or
    transaction is one step on the record below.  [stored], [acks] and [nudges] are no
    tables: they remember every event ever committed, every acknowledgement and every
    notification sent. *)

From S2P Require Import Prelude.
From S2P Require Import RateLimit.

(** ** Rows *)

Inductive SecretState : Type := SecretChatRequested | SecretChatActive | SecretChatDiscarded.

#[global] Instance SecretState_eq_dec : EqDecision SecretState.
Proof. solve_decision. Defined.

(** A NULL column reads as the nil slice or as zero. *)
Record SecretChat : Type := mkChat {
  ID : Z;
  AdminID : Z;
  ParticipantID : Z;
  State : SecretState;
  GAHash : list Z;
  GA : list Z;
  GAOrB : list Z;
  KeyFingerprint : Z;
  RandomID : Z;
  Date : Z
}.

Record EncryptedEvent : Type := mkEvent {
  ev_OwnerID : Z;
  ev_Qts : Z;
  ev_ChatID : Z;
  ev_RandomID : Z;
  ev_Bytes : list Z;
  ev_Date : Z
}.

Definition Party (c : SecretChat) (userID : Z) : bool := (userID =? AdminID c) || (userID =? ParticipantID c).

Definition Other (c : SecretChat) (userID : Z) : Z :=
  if userID =? AdminID c then ParticipantID c else AdminID c.

(** A notification of a chat's change, or of a new event. *)
Inductive nudge : Type :=
| NudgeChat (userID chatID : Z)
| NudgeEvent (recipientID qts : Z).

Record secret_store : Type := mkStore {
  secret_chats : gmap Z SecretChat;
  secret_chats_id_seq : Z;
  update_qts : gmap Z Z;
  encrypted_events : list EncryptedEvent;
  limit_rows : rl_table;
  stored : list EncryptedEvent;
  acks : list (Z * Z);
  nudges : list nudge
}.

Definition set_chats (m : gmap Z SecretChat) (s : secret_store) : secret_store :=
  mkStore m (secret_chats_id_seq s) (update_qts s) (encrypted_events s) (limit_rows s) (stored s) (acks s) (nudges s).

Definition set_seq (n : Z) (s : secret_store) : secret_store :=
  mkStore (secret_chats s) n (update_qts s) (encrypted_events s) (limit_rows s) (stored s) (acks s) (nudges s).

Definition set_qts (m : gmap Z Z) (s : secret_store) : secret_store :=
  mkStore (secret_chats s) (secret_chats_id_seq s) m (encrypted_events s) (limit_rows s) (stored s) (acks s) (nudges s).

Definition set_limit_rows (t : rl_table) (s : secret_store) : secret_store :=
  mkStore (secret_chats s) (secret_chats_id_seq s) (update_qts s) (encrypted_events s) t (stored s) (acks s) (nudges s).

Definition add_nudge (n : nudge) (s : secret_store) : secret_store :=
  mkStore (secret_chats s) (secret_chats_id_seq s) (update_qts s) (encrypted_events s) (limit_rows s) (stored s)
    (acks s) (nudges s ++ [n]).

(** ** Key-exchange rows *)

Definition MaxOutstandingSecretChats : Z := 10.
Definition MaxInt32 : Z := 2 ^ 31 - 1.
Definition MaxInt64 : Z := 2 ^ 63 - 1.

Definition requested_by (adminID : Z) (c : SecretChat) : Prop :=
  AdminID c = adminID /\ State c = SecretChatRequested.

#[global] Instance requested_by_dec a c : Decision (requested_by a c).
Proof. unfold requested_by. apply _. Defined.

Definition outstanding (adminID : Z) (m : gmap Z SecretChat) : gmap Z SecretChat :=
  filter (fun kv => requested_by adminID kv.2) m.

Definition CountRequestedSecretChats (adminID : Z) (s : secret_store) : Z :=
  Z.of_nat (size (outstanding adminID (secret_chats s))).

Definition GetSecretChatByAdminRandomID (adminID randomID : Z) (s : secret_store) : option SecretChat :=
  snd <$> head (map_to_list (filter (fun kv => RandomID kv.2 = randomID) (outstanding adminID (secret_chats s)))).

Inductive created : Type :=
| CreatedExisting (c : SecretChat)
| CreatedNew (c : SecretChat)
| ErrSecretChatsTooMany
| CreateFailed.

(** The transaction holds the advisory lock of [adminID] from its start, and no other
    statement adds a requested row of that account, so what it counted can only have shrunk
    by the time it commits: it acts as one step.  An id drawn from the sequence is not given
    back when the insert or the commit then fails, which [abort] says. *)
Definition CreateSecretChatRequest (adminID participantID : Z) (gA gAHash : list Z) (randomID now : Z)
    (abort : bool) (s : secret_store) : created * secret_store :=
  match (if randomID =? 0 then None else GetSecretChatByAdminRandomID adminID randomID s) with
  | Some existing => (CreatedExisting existing, s)
  | None =>
      if CountRequestedSecretChats adminID s >=? MaxOutstandingSecretChats then (ErrSecretChatsTooMany, s)
      else
        let id := secret_chats_id_seq s + 1 in
        let s' := set_seq id s in
        if id >? MaxInt32 then (CreateFailed, s')
        else if abort then (CreateFailed, s')
        else
          match secret_chats s !! id with
          | Some _ => (CreateFailed, s')
          | None =>
              let row := mkChat id adminID participantID SecretChatRequested gAHash gA [] 0 randomID now in
              (CreatedNew row, set_chats (<[id := row]> (secret_chats s)) s')
          end
  end.

Definition SecretChatByID (id : Z) (s : secret_store) : option SecretChat := secret_chats s !! id.

(** [None] is [ErrSecretChatStale]: the guard matched no row. *)
Definition AcceptSecretChat (id participantID : Z) (gB : list Z) (keyFingerprint now : Z) (s : secret_store)
    : option SecretChat * secret_store :=
  match secret_chats s !! id with
  | Some c =>
      if (ParticipantID c =? participantID) && bool_decide (State c = SecretChatRequested) then
        let c' := mkChat (ID c) (AdminID c) (ParticipantID c) SecretChatActive (GAHash c) (GA c) gB
                    keyFingerprint (RandomID c) now in
        (Some c', set_chats (<[id := c']> (secret_chats s)) s)
      else (None, s)
  | None => (None, s)
  end.

Definition DiscardSecretChat (id now : Z) (s : secret_store) : option SecretChat * secret_store :=
  match secret_chats s !! id with
  | Some c =>
      if bool_decide (State c = SecretChatDiscarded) then (None, s)
      else
        let c' := mkChat (ID c) (AdminID c) (ParticipantID c) SecretChatDiscarded (GAHash c) (GA c) (GAOrB c)
                    (KeyFingerprint c) (RandomID c) now in
        (Some c', set_chats (<[id := c']> (secret_chats s)) s)
  | None => (None, s)
  end.

(** The rows of a user whose last change is after [afterDate]. *)
Definition SecretChatsAfterDate (userID afterDate : Z) (s : secret_store) : list SecretChat :=
  List.filter (fun c => Party c userID && (Date c >? afterDate)) (map_to_list (secret_chats s)).*2.

(** ** Encrypted events *)

Definition GetEncryptedEventByRandomID (ownerID randomID : Z) (s : secret_store) : option EncryptedEvent :=
  List.find (fun ev => (ev_OwnerID ev =? ownerID) && (ev_RandomID ev =? randomID)) (encrypted_events s).

Definition GetEncryptedEvent (ownerID qts : Z) (s : secret_store) : option EncryptedEvent :=
  List.find (fun ev => (ev_OwnerID ev =? ownerID) && (ev_Qts ev =? qts)) (encrypted_events s).

Inductive sent : Type :=
| SentNew (ev : EncryptedEvent)
| SentConflict
| SendFailed.

(** The transaction of [SendEncryptedMessage]: [InsertEncryptedEvent] and [BumpQts].  The
    insert draws its row from the recipient's [update_state], so it inserts nothing when
    there is none, and nothing either when the dedup key is taken; both read as no row. *)
Definition send_transaction (recipientID chatID randomID : Z) (data : list Z) (now : Z) (s : secret_store)
    : sent * secret_store :=
  match update_qts s !! recipientID with
  | None => (SentConflict, s)
  | Some q =>
      match GetEncryptedEventByRandomID recipientID randomID s with
      | Some _ => (SentConflict, s)
      | None =>
          match secret_chats s !! chatID, GetEncryptedEvent recipientID (q + 1) s with
          | Some _, None =>
              if q + 1 >? MaxInt64 then (SendFailed, s)
              else
                let ev := mkEvent recipientID (q + 1) chatID randomID data now in
                (SentNew ev,
                 mkStore (secret_chats s) (secret_chats_id_seq s) (<[recipientID := q + 1]> (update_qts s))
                   (encrypted_events s ++ [ev]) (limit_rows s) (stored s ++ [ev]) (acks s) (nudges s))
          | _, _ => (SendFailed, s)
          end
      end
  end.

(** The handler's dedup probe: no token, no dedup. *)
Definition EncryptedMessageByRandomID (recipientID randomID : Z) (s : secret_store) : option EncryptedEvent :=
  if randomID =? 0 then None else GetEncryptedEventByRandomID recipientID randomID s.

(** [DELETE ... RETURNING]: the events up to [maxQts] go, their tokens are answered. *)
Definition AcknowledgeEncryptedEvents (ownerID maxQts : Z) (s : secret_store) : list Z * secret_store :=
  let hit ev := (ev_OwnerID ev =? ownerID) && (ev_Qts ev <=? maxQts) in
  (map ev_RandomID (List.filter hit (encrypted_events s)),
   mkStore (secret_chats s) (secret_chats_id_seq s) (update_qts s)
     (List.filter (fun ev => negb (hit ev)) (encrypted_events s)) (limit_rows s) (stored s)
     (acks s ++ [(ownerID, maxQts)]) (nudges s)).

Definition GetQts (userID : Z) (s : secret_store) : Z := default 0 (update_qts s !! userID).

Definition events_of (ownerID : Z) (l : list EncryptedEvent) : list EncryptedEvent :=
  List.filter (fun ev => ev_OwnerID ev =? ownerID) l.

Definition qts_le (a b : EncryptedEvent) : Prop := ev_Qts a <= ev_Qts b.

#[global] Instance qts_le_dec a b : Decision (qts_le a b).
Proof. unfold qts_le. apply _. Defined.

(** [EncryptedEventsWindow]: ordered by qts. *)
Definition EncryptedEventsWindow (ownerID fromQts toQts : Z) (limit : nat) (s : secret_store) : list EncryptedEvent :=
  take limit (merge_sort qts_le
    (List.filter (fun ev => (fromQts <? ev_Qts ev) && (ev_Qts ev <=? toQts)) (events_of ownerID (encrypted_events s)))).

(** [EnsureUpdateState]: the row a recipient's qts lives on. *)
Definition EnsureUpdateState (userID : Z) (s : secret_store) : secret_store :=
  match update_qts s !! userID with
  | Some _ => s
  | None => set_qts (<[userID := 0]> (update_qts s)) s
  end.
