(* ===== verification/SecretChats.v ===== *)
(** * The secret-chat handlers

    [internal/api/encryption.go], [internal/api/encrypted.go] and the two callbacks of
    [internal/api/notify.go] that push what they change.  The server carries the
    key exchange and opaque ciphertext between the two parties of a chat; a handler is a
    program of atomic steps on the tables of SecretStore.v.  gotd's check of a group element
    is a parameter. *)

From S2P Require Import Prelude.
From S2P Require Import NetAddr.
From S2P Require Import RateLimit.
From S2P Require Import Sha256.
From S2P Require Import Srp.
From S2P Require Import Threads.
From S2P Require Import Limits.
From S2P Require Import PeerHash.
From S2P Require Import SecretStore.
From Stdlib Require Import String.

Open Scope Z_scope.

(** ** Requests, replies, the environment of a step *)

Record InputEncryptedChat : Type := mkPeer { p_ChatID : Z; p_AccessHash : Z }.

Inductive EncryptedChatClass : Type :=
| EncryptedChatWaiting (id hash date admin participant : Z)
| EncryptedChatRequested (id hash date admin participant : Z) (gA : list Z)
| EncryptedChat (id hash date admin participant : Z) (gAOrB : list Z) (fingerprint : Z)
| EncryptedChatDiscarded (id : Z).

Inductive reply : Type :=
| RError (e : rpc_error)
| RDhConfigNotModified (random : list Z)
| RDhConfig (g : Z) (p : list Z) (version : Z) (random : list Z)
| RChat (c : EncryptedChatClass)
| RSentEncrypted (date : Z)
| RRandomIDs (ids : list Z).

Record env : Type := mkEnv {
  e_fault : fault;
  e_now : Z;
  e_clock : Z;
  e_rand : nat -> option (list Z);
  e_exists : Z -> bool;
  e_abort : bool;
  e_between : rl_table -> rl_table
}.

#[global] Instance secret_limited : Limited secret_store env := {
  limits := limit_rows;
  with_limits := set_limit_rows;
  lim_fault := e_fault;
  lim_now := e_now;
  lim_clock := e_clock;
  lim_between := e_between
}.

Notation secret_prog := (prog secret_store env reply).

Definition call {A : Type} (op : env -> secret_store -> A * secret_store) (k : option A -> secret_prog) : secret_prog :=
  store_call e_fault op k.

Definition query {A : Type} (op : env -> secret_store -> A) (k : option A -> secret_prog) : secret_prog :=
  call (fun e s => (op e s, s)) k.

#[global] Arguments call : simpl never.

Definition fail_with (e : rpc_error) : secret_prog := Ret (RError e).

Definition unix_of (us : Z) : Z := us / 1000000.

Definition dhVersion : Z := 1.
Definition maxDhRandomLength : Z := 256.
Definition dhValueLen : Z := 256.
Definition maxEncryptedData : Z := 512 * 1024.

Section handlers.
Context (key : list Z) (CheckDHParams : Z -> Z -> Z -> Z -> bool) (rateLimitMessageSend : RateLimitConfig).

Definition dhPrime : Z := SetBytes pBytes.

Definition validateDHValue (v : list Z) : option rpc_error :=
  if negb (len v =? dhValueLen) then Some errDHValueInvalid
  else
    let x := be_of v in
    if negb (CheckDHParams dhPrime G x x) then Some errDHValueInvalid else None.

Definition secretChatHash (viewerID chatID : Z) : Z := Derive key viewerID KindSecret chatID.

Definition secretChatID (peer : InputEncryptedChat) (viewerID : Z) : option Z :=
  if p_ChatID peer =? 0 then None
  else
    let id := wrap_s32 (p_ChatID peer) in
    if negb (p_AccessHash peer =? secretChatHash viewerID id) then None else Some id.

(** Best effort: a failed notification is logged and the reply goes out. *)
Definition notify (n : nudge) (k : secret_prog) : secret_prog := call (fun _ s => (tt, add_nudge n s)) (fun _ => k).

Definition waiting (viewerID : Z) (c : SecretChat) : reply :=
  RChat (EncryptedChatWaiting (ID c) (secretChatHash viewerID (ID c)) (unix_of (Date c)) (AdminID c) (ParticipantID c)).

Definition handleGetDhConfig (RandomLength Version : Z) : secret_prog :=
  if (RandomLength <? 0) || (RandomLength >? maxDhRandomLength) then fail_with errRandomLengthInvalid
  else
    mem_call (fun e s => (e_rand e (Z.to_nat RandomLength), s)) (fun random =>
      match random with
      | None => fail_with errInternal
      | Some b => Ret (if Version =? dhVersion then RDhConfigNotModified b
                       else RDhConfig G pBytes dhVersion b)
      end).

Definition handleRequestEncryption (r : Request) (user : InputUserClass) (gA : list Z) (randomID : Z) : secret_prog :=
  match inputUserID key user (r_UserID r) with
  | Err e => fail_with e
  | Ok participantID =>
      if participantID =? r_UserID r then fail_with errUserIDInvalid
      else
        match validateDHValue gA with
        | Some e => fail_with e
        | None =>
            query (fun e _ => e_exists e participantID) (fun found =>
              match found with
              | None => fail_with errInternal
              | Some false => fail_with errUserIDInvalid
              | Some true =>
                  call (fun e s => CreateSecretChatRequest (r_UserID r) participantID gA (sha256 gA) randomID
                                     (e_now e) (e_abort e) s) (fun a =>
                    match a with
                    | None | Some CreateFailed => fail_with errInternal
                    | Some ErrSecretChatsTooMany => fail_with errPeerFlood
                    | Some (CreatedExisting c) => Ret (waiting (r_UserID r) c)
                    | Some (CreatedNew c) =>
                        notify (NudgeChat participantID (ID c)) (Ret (waiting (r_UserID r) c))
                    end)
              end)
        end
  end.

(** Which terminal state rejected an accept. *)
Definition staleAcceptError (chatID : Z) : secret_prog :=
  query (fun _ => SecretChatByID chatID) (fun a =>
    match a with
    | None => fail_with errInternal
    | Some None => fail_with errEncryptionIDInvalid
    | Some (Some c) =>
        if bool_decide (State c = SecretChatDiscarded) then fail_with errEncryptionAlreadyDeclined
        else fail_with errEncryptionAlreadyAccepted
    end).

Definition handleAcceptEncryption (r : Request) (peer : InputEncryptedChat) (gB : list Z) (fingerprint : Z) : secret_prog :=
  match secretChatID peer (r_UserID r) with
  | None => fail_with errEncryptionIDInvalid
  | Some chatID =>
      match validateDHValue gB with
      | Some e => fail_with e
      | None =>
          query (fun _ => SecretChatByID chatID) (fun a =>
            match a with
            | None => fail_with errInternal
            | Some None => fail_with errEncryptionIDInvalid
            | Some (Some existing) =>
                if negb (r_UserID r =? ParticipantID existing) then fail_with errEncryptionIDInvalid
                else if bool_decide (State existing = SecretChatDiscarded) then fail_with errEncryptionAlreadyDeclined
                else
                  call (fun e => AcceptSecretChat chatID (r_UserID r) gB fingerprint (e_now e)) (fun a =>
                    match a with
                    | None => fail_with errInternal
                    | Some None => staleAcceptError chatID
                    | Some (Some c) =>
                        notify (NudgeChat (AdminID c) (ID c))
                          (Ret (RChat (EncryptedChat (ID c) (secretChatHash (r_UserID r) (ID c)) (unix_of (Date c))
                                         (AdminID c) (ParticipantID c) (GAOrB c) (KeyFingerprint c))))
                    end)
            end)
      end
  end.

Definition handleDiscardEncryption (r : Request) (ChatID : Z) : secret_prog :=
  query (fun _ => SecretChatByID (wrap_s32 ChatID)) (fun a =>
    match a with
    | None => fail_with errInternal
    | Some None => fail_with errEncryptionIDInvalid
    | Some (Some existing) =>
        if negb (Party existing (r_UserID r)) then fail_with errEncryptionIDInvalid
        else
          let discarded := RChat (EncryptedChatDiscarded (ID existing)) in
          call (fun e => DiscardSecretChat (ID existing) (e_now e)) (fun a =>
            match a with
            | None => fail_with errInternal
            | Some None => Ret discarded
            | Some (Some c) => notify (NudgeChat (Other c (r_UserID r)) (ID c)) (Ret discarded)
            end)
    end).

(** [SendEncryptedMessage]: the transaction, and the lookup of the event that kept it from
    inserting, each a step of its own. *)
Definition SendEncryptedMessage (recipientID chatID randomID : Z) (data : list Z)
    (k : option (EncryptedEvent * bool) -> secret_prog) : secret_prog :=
  call (fun e => send_transaction recipientID chatID randomID data (e_now e)) (fun a =>
    match a with
    | None | Some SendFailed => k None
    | Some (SentNew ev) => k (Some (ev, false))
    | Some SentConflict =>
        query (fun _ => GetEncryptedEventByRandomID recipientID randomID) (fun a =>
          match a with
          | None | Some None => k None
          | Some (Some ev) => k (Some (ev, true))
          end)
    end).

Definition send_new (r : Request) (recipientID chatID randomID : Z) (data : list Z) : secret_prog :=
  checkRateLimit r "message_send" rateLimitMessageSend (fun err =>
    match err with
    | Some e => fail_with e
    | None =>
        SendEncryptedMessage recipientID chatID randomID data (fun a =>
          match a with
          | None => fail_with errInternal
          | Some (ev, dup) =>
              let done := Ret (RSentEncrypted (unix_of (ev_Date ev))) in
              if dup then done else notify (NudgeEvent recipientID (ev_Qts ev)) done
          end)
    end).

Definition handleSendEncryptedMessage (r : Request) (peer : InputEncryptedChat) (randomID : Z) (data : list Z) : secret_prog :=
  if len data >? maxEncryptedData then fail_with errMessageTooLong
  else
    let chatID := wrap_s32 (p_ChatID peer) in
    query (fun _ => SecretChatByID chatID) (fun a =>
      match a with
      | None => fail_with errInternal
      | Some None => fail_with errEncryptionIDInvalid
      | Some (Some chat) =>
          if negb (bool_decide (State chat = SecretChatActive)) then fail_with errEncryptionDeclined
          else if negb (Party chat (r_UserID r)) then fail_with errChatForbidden
          else if negb (p_AccessHash peer =? secretChatHash (r_UserID r) chatID) then fail_with errEncryptionIDInvalid
          else
            let recipientID := Other chat (r_UserID r) in
            if randomID =? 0 then send_new r recipientID chatID randomID data
            else
              query (fun _ => EncryptedMessageByRandomID recipientID randomID) (fun a =>
                match a with
                | None => fail_with errInternal
                | Some (Some existing) => Ret (RSentEncrypted (unix_of (ev_Date existing)))
                | Some None => send_new r recipientID chatID randomID data
                end)
      end).

Definition handleReceivedQueue (r : Request) (MaxQts : Z) : secret_prog :=
  if r_UserID r =? 0 then fail_with errAuthKeyUnreg
  else
    query (fun _ => GetQts (r_UserID r)) (fun a =>
      match a with
      | None => fail_with errInternal
      | Some currentQts =>
          call (fun _ => AcknowledgeEncryptedEvents (r_UserID r) (Z.min MaxQts currentQts)) (fun a =>
            match a with
            | None => fail_with errInternal
            | Some ids => Ret (RRandomIDs ids)
            end)
      end).

(** ** What the parties are shown *)

Definition encryptedChatFor (chat : SecretChat) (viewerID : Z) : EncryptedChatClass :=
  let hash := secretChatHash viewerID (ID chat) in
  let date := unix_of (Date chat) in
  match State chat with
  | SecretChatRequested =>
      if negb (viewerID =? ParticipantID chat) then
        EncryptedChatWaiting (ID chat) hash date (AdminID chat) (ParticipantID chat)
      else EncryptedChatRequested (ID chat) hash date (AdminID chat) (ParticipantID chat) (GA chat)
  | SecretChatActive =>
      EncryptedChat (ID chat) hash date (AdminID chat) (ParticipantID chat) (GAOrB chat) (KeyFingerprint chat)
  | SecretChatDiscarded => EncryptedChatDiscarded (ID chat)
  end.

Inductive secret_push : Type :=
| UpdateEncryption (c : EncryptedChatClass)
| UpdateNewEncryptedMessage (randomID chatID date : Z) (bytes : list Z) (qts : Z).

(** The callbacks: what they push to each of the user's connections; [up] says whether the
    store answers. *)
Definition DeliverEncryption (conns : Z -> list Z) (userID chatID : Z) (up : bool) (s : secret_store)
    : list (Z * secret_push) :=
  match conns userID with
  | [] => []
  | cs =>
      match (if up then SecretChatByID (wrap_s32 chatID) s else None) with
      | None => []
      | Some chat =>
          if negb (Party chat userID) then []
          else map (fun c => (c, UpdateEncryption (encryptedChatFor chat userID))) cs
      end
  end.

Definition DeliverEncryptedMsg (conns : Z -> list Z) (recipientID qts : Z) (up : bool) (s : secret_store)
    : list (Z * secret_push) :=
  match conns recipientID with
  | [] => []
  | cs =>
      match (if up then GetEncryptedEvent recipientID qts s else None) with
      | None => []
      | Some ev =>
          map (fun c => (c, UpdateNewEncryptedMessage (ev_RandomID ev) (ev_ChatID ev) (unix_of (ev_Date ev))
                              (ev_Bytes ev) qts)) cs
      end
  end.

End handlers.
