(* ===== verification/SecretSafety.v ===== *)
(** * What secret chats guarantee, however their requests interleave

    The invariant of the tables, the guarantee every step gives the others, and that every
    step of every handler keeps both. *)

From S2P Require Import Prelude.
From S2P Require Import NetAddr.
From S2P Require Import RateLimit.
From S2P Require Import Sha256.
From S2P Require Import Srp.
From S2P Require Import Threads.
From S2P Require Import Limits.
From S2P Require Import PeerHash.
From S2P Require Import SecretStore.
From S2P Require Import SecretChats.
From Stdlib Require Import String.

Open Scope Z_scope.

#[local] Opaque sha256 Derive pBytes group_p.

(** ** The invariant *)

Definition qts_of (s : secret_store) (u : Z) : Z := default 0 (update_qts s !! u).

Definition acked (l : list (Z * Z)) (ev : EncryptedEvent) : bool :=
  existsb (fun a => (a.1 =? ev_OwnerID ev) && (ev_Qts ev <=? a.2)) l.

Definition dedup_key (ev : EncryptedEvent) : Z * Z := (ev_OwnerID ev, ev_RandomID ev).

(** The order of a chat's life. *)
Definition rank (st : SecretState) : Z :=
  match st with SecretChatRequested => 0 | SecretChatActive => 1 | SecretChatDiscarded => 2 end.

(** What may become of a row: its parties, its g_a and its token never change, its state
    only advances, an answer once there stays, and nothing changes without a transition. *)
Record evolves (c c' : SecretChat) : Prop := mkEvolves {
  ev_same : ID c' = ID c /\ AdminID c' = AdminID c /\ ParticipantID c' = ParticipantID c /\
            GA c' = GA c /\ GAHash c' = GAHash c /\ RandomID c' = RandomID c;
  ev_rank : rank (State c) <= rank (State c');
  ev_answer : State c <> SecretChatRequested -> GAOrB c' = GAOrB c /\ KeyFingerprint c' = KeyFingerprint c;
  ev_still : State c' = State c -> c' = c
}.

#[global] Instance evolves_preorder : PreOrder evolves.
Proof.
  split.
  - intros c. by constructor.
  - intros a b c [S1 R1 A1 L1] [S2 R2 A2 L2]. destruct S1 as (?&?&?&?&?&?), S2 as (?&?&?&?&?&?).
    constructor; [split_and!; congruence|lia| |].
    + intros Ha. destruct (A1 Ha) as [? ?].
      assert (Hb : State b <> SecretChatRequested) by (intros Hb; rewrite Hb in R1; by destruct (State a)).
      destruct (A2 Hb). split; congruence.
    + intros E. rewrite E in R2.
      assert (Eb : State b = State a) by (destruct (State a), (State b); simpl in *; lia || done).
      rewrite <- (L1 Eb). apply L2. congruence.
Qed.

Section safety.
Context (CheckDHParams : Z -> Z -> Z -> Z -> bool).

Definition dh_ok (v : list Z) : Prop := validateDHValue CheckDHParams v = None.

(** The answer of a chat: none before it is accepted, a checked group element after. *)
Definition exchange_ok (c : SecretChat) : Prop :=
  match State c with
  | SecretChatRequested => GAOrB c = [] /\ KeyFingerprint c = 0
  | SecretChatActive => dh_ok (GAOrB c)
  | SecretChatDiscarded => GAOrB c = [] /\ KeyFingerprint c = 0 \/ dh_ok (GAOrB c)
  end.

Record chat_ok (seq id : Z) (c : SecretChat) : Prop := mkChatOk {
  co_id : ID c = id;
  co_range : 1 <= id <= seq /\ id <= MaxInt32;
  co_parties : AdminID c <> ParticipantID c;
  co_ga : dh_ok (GA c) /\ GAHash c = sha256 (GA c);
  co_exchange : exchange_ok c
}.

(** An event was stored for a party of a chat that had been accepted. *)
Definition event_ok (m : gmap Z SecretChat) (ev : EncryptedEvent) : Prop :=
  len (ev_Bytes ev) <= maxEncryptedData /\
  exists c, m !! ev_ChatID ev = Some c /\ State c <> SecretChatRequested /\ Party c (ev_OwnerID ev) = true.

(** A notification goes to a party of the chat, or names an event of its addressee. *)
Definition nudge_ok (s : secret_store) (n : nudge) : Prop :=
  match n with
  | NudgeChat u id => exists c, secret_chats s !! id = Some c /\ Party c u = true
  | NudgeEvent u q => exists ev, ev ∈ stored s /\ ev_OwnerID ev = u /\ ev_Qts ev = q
  end.

Record inv (s : secret_store) : Prop := mkInv {
  i_seq : 0 <= secret_chats_id_seq s;
  i_chats : forall id c, secret_chats s !! id = Some c -> chat_ok (secret_chats_id_seq s) id c;
  i_cap : forall a, (size (outstanding a (secret_chats s)) <= 10)%nat;
  i_dedup : forall a i c j d, secret_chats s !! i = Some c -> secret_chats s !! j = Some d ->
    requested_by a c -> requested_by a d -> RandomID c = RandomID d -> RandomID c <> 0 -> i = j;
  i_qts : forall u q, update_qts s !! u = Some q -> 0 <= q;
  i_log : forall u, map ev_Qts (events_of u (stored s)) = seqZ 1 (qts_of s u);
  i_present : encrypted_events s = List.filter (fun ev => negb (acked (acks s) ev)) (stored s);
  i_acks : forall a, a ∈ acks s -> a.2 <= qts_of s a.1;
  i_events : forall ev, ev ∈ stored s -> event_ok (secret_chats s) ev;
  i_unique : NoDup (map dedup_key (encrypted_events s));
  i_nudges : forall n, n ∈ nudges s -> nudge_ok s n
}.

(** ** The guarantee *)

Record guar (s s' : secret_store) : Prop := mkGuar {
  g_chats : forall id c, secret_chats s !! id = Some c ->
    exists c', secret_chats s' !! id = Some c' /\ evolves c c';
  g_stored : stored s `prefix_of` stored s';
  g_qts : forall u, qts_of s u <= qts_of s' u;
  g_acks : acks s `prefix_of` acks s'
}.

#[global] Instance guar_preorder : PreOrder guar.
Proof.
  split.
  - intros s. constructor; [|done|lia|done]. intros id c Hc. by exists c.
  - intros a b c [C1 S1 Q1 A1] [C2 S2 Q2 A2]. constructor; [|by etrans| |by etrans].
    + intros id x Hx. destruct (C1 id x Hx) as (y & Hy & E1). destruct (C2 id y Hy) as (z & Hz & E2).
      exists z. split; [done|by etrans].
    + intros u. specialize (Q1 u). specialize (Q2 u). lia.
Qed.

(** Only the chats move, and every row evolves. *)
Lemma guar_chats m s :
  (forall id c, secret_chats s !! id = Some c -> exists c', m !! id = Some c' /\ evolves c c') ->
  guar s (set_chats m s).
Proof. intros H. by constructor. Qed.

Lemma evolves_party c c' u : evolves c c' -> Party c' u = Party c u.
Proof. intros [(_ & E1 & E2 & _) _ _ _]. unfold Party. by rewrite E1, E2. Qed.

Lemma evolves_answered c c' : evolves c c' -> State c <> SecretChatRequested -> State c' <> SecretChatRequested.
Proof. intros [_ R _ _] Hc E. rewrite E in R. by destruct (State c). Qed.

Lemma secret_event_mono m m' ev :
  (forall id c, m !! id = Some c -> exists c', m' !! id = Some c' /\ evolves c c') ->
  event_ok m ev -> event_ok m' ev.
Proof.
  intros H [Hl (c & Hc & Hs & Hp)]. destruct (H _ _ Hc) as (c' & Hc' & E). split; [done|].
  exists c'. split_and!; [done|by eapply evolves_answered|by rewrite (evolves_party _ _ _ E)].
Qed.

Lemma nudge_ok_mono s s' n : guar s s' -> nudge_ok s n -> nudge_ok s' n.
Proof.
  intros G. destruct n as [u id|u q]; simpl.
  - intros (c & Hc & Hp). destruct (g_chats _ _ G _ _ Hc) as (c' & Hc' & E).
    exists c'. split; [done|by rewrite (evolves_party _ _ _ E)].
  - intros (ev & Hev & ?). exists ev. split; [|done]. destruct (g_stored _ _ G) as [l ->].
    apply elem_of_app. by left.
Qed.

(** ** The statements *)

(** A row that leaves the requested state, or moves on from a later one. *)
Lemma inv_advance s id c c' :
  inv s -> secret_chats s !! id = Some c -> evolves c c' -> State c' <> SecretChatRequested ->
  exchange_ok c' ->
  inv (set_chats (<[id := c']> (secret_chats s)) s) /\ guar s (set_chats (<[id := c']> (secret_chats s)) s).
Proof.
  intros I Hc He Hs Hx.
  assert (Hev : forall i d, secret_chats s !! i = Some d ->
            exists d', <[id := c']> (secret_chats s) !! i = Some d' /\ evolves d d').
  { intros i d Hd. destruct (decide (i = id)) as [->|Hne].
    - exists c'. rewrite lookup_insert_eq. by simplify_eq.
    - exists d. by rewrite lookup_insert_ne. }
  assert (G := guar_chats _ s Hev). split; [|done].
  destruct (i_chats _ I id c Hc) as [Cid Cr Cp Cg _]. destruct (ev_same _ _ He) as (E1 & E2 & E3 & E4 & E5 & _).
  constructor; simpl; try apply I.
  - intros i d Hd. apply lookup_insert_Some in Hd as [[<- <-]|[_ Hd]]; [|by apply (i_chats _ I)].
    constructor; rewrite ?E1, ?E2, ?E3, ?E4, ?E5; done.
  - intros a. etrans; [|apply (i_cap _ I a)]. apply map_subseteq_size. unfold outstanding.
    rewrite map_filter_insert_False by (intros [_ ?]; done).
    apply map_filter_subseteq_mono. apply delete_subseteq.
  - intros a i d j x Hi Hj Hd Hj'. apply lookup_insert_Some in Hi as [[<- <-]|[_ Hi]]; [by destruct Hd|].
    apply lookup_insert_Some in Hj as [[<- <-]|[_ Hj]]; [by destruct Hj'|]. by eapply (i_dedup _ I).
  - intros ev Hev'. eapply secret_event_mono; [exact Hev|by apply (i_events _ I)].
  - intros n Hn. eapply nudge_ok_mono; [exact G|by apply (i_nudges _ I)].
Qed.

Lemma inv_accept id p gB fp now s :
  inv s -> dh_ok gB ->
  inv (AcceptSecretChat id p gB fp now s).2 /\ guar s (AcceptSecretChat id p gB fp now s).2 /\
  forall c, (AcceptSecretChat id p gB fp now s).1 = Some c ->
    secret_chats (AcceptSecretChat id p gB fp now s).2 !! ID c = Some c.
Proof.
  intros I Hg. unfold AcceptSecretChat. destruct (secret_chats s !! id) as [c|] eqn:Ec; [|by split_and!].
  destruct (Z.eqb_spec (ParticipantID c) p) as [Ep|]; [|by split_and!].
  case_bool_decide as Es; [|by split_and!]. cbn [andb fst snd].
  assert (Ei := co_id _ _ _ (i_chats _ I id c Ec)).
  edestruct (inv_advance s id c (mkChat (ID c) (AdminID c) (ParticipantID c) SecretChatActive (GAHash c) (GA c)
      gB fp (RandomID c) now) I Ec) as [I' G']; simpl; try done.
  - constructor; simpl; try done; rewrite Es; done.
  - split_and!; [done|done|]. intros c' [= <-]. simpl. rewrite Ei. apply lookup_insert_eq.
Qed.

Lemma inv_discard id now s :
  inv s ->
  inv (DiscardSecretChat id now s).2 /\ guar s (DiscardSecretChat id now s).2 /\
  forall c, (DiscardSecretChat id now s).1 = Some c ->
    secret_chats (DiscardSecretChat id now s).2 !! ID c = Some c.
Proof.
  intros I. unfold DiscardSecretChat. destruct (secret_chats s !! id) as [c|] eqn:Ec; [|by split_and!].
  case_bool_decide as Es; [by split_and!|]. cbn [fst snd].
  assert (Ok := i_chats _ I id c Ec). assert (Ei := co_id _ _ _ Ok). assert (Ex := co_exchange _ _ _ Ok).
  edestruct (inv_advance s id c (mkChat (ID c) (AdminID c) (ParticipantID c) SecretChatDiscarded (GAHash c) (GA c)
      (GAOrB c) (KeyFingerprint c) (RandomID c) now) I Ec) as [I' G']; simpl; try done.
  - constructor; simpl; try done; destruct (State c); simpl; done || lia.
  - unfold exchange_ok in *. simpl. destruct (State c); auto.
  - split_and!; [done|done|]. intros c' [= <-]. simpl. rewrite Ei. apply lookup_insert_eq.
Qed.

(** A fresh request. *)
Lemma inv_create a p gA rid now abort s :
  inv s -> a <> p -> dh_ok gA ->
  let r := CreateSecretChatRequest a p gA (sha256 gA) rid now abort s in
  inv r.2 /\ guar s r.2 /\
  forall c, r.1 = CreatedNew c -> secret_chats r.2 !! ID c = Some c /\ ParticipantID c = p.
Proof.
  intros I Hne Hg. cbv zeta. unfold CreateSecretChatRequest.
  destruct (if rid =? 0 then None else GetSecretChatByAdminRandomID a rid s) as [c|] eqn:Ed; [by split_and!|].
  destruct (Z.geb_spec (CountRequestedSecretChats a s) MaxOutstandingSecretChats) as [|Hcap]; [by split_and!|].
  set (id := secret_chats_id_seq s + 1).
  assert (Iseq : inv (set_seq id s) /\ guar s (set_seq id s)).
  { split; [|by constructor; [intros i c Hc; exists c|..]]. constructor; simpl; try apply I.
    - destruct I. unfold id. lia.
    - intros i c Hc. destruct (i_chats _ I i c Hc) as [? [? ?] ? ? ?]. constructor; try done. unfold id. lia. }
  destruct (Z.gtb_spec id MaxInt32); [by split_and!; try apply Iseq|].
  destruct abort; [by split_and!; try apply Iseq|].
  destruct (secret_chats s !! id) as [c|] eqn:Ec; [by split_and!; try apply Iseq|]. cbn [fst snd].
  set (row := mkChat id a p SecretChatRequested (sha256 gA) gA [] 0 rid now).
  assert (Hev : forall i d, secret_chats s !! i = Some d ->
            exists d', <[id := row]> (secret_chats s) !! i = Some d' /\ evolves d d').
  { intros i d Hd. exists d. rewrite lookup_insert_ne; [done|]. intros <-. by rewrite Hd in Ec. }
  assert (G : guar s (set_chats (<[id := row]> (secret_chats s)) (set_seq id s))) by (by constructor).
  split_and!; [|done|intros c [= <-]; simpl; split; [apply lookup_insert_eq|done]].
  assert (Hfresh : forall i d, secret_chats s !! i = Some d -> requested_by a d -> RandomID d = rid -> rid <> 0 -> False).
  { intros i d Hd Hr Erid Hrid. destruct (Z.eqb_spec rid 0); [done|].
    unfold GetSecretChatByAdminRandomID in Ed. rewrite fmap_None in Ed.
    assert (E : filter (fun kv => RandomID kv.2 = rid) (outstanding a (secret_chats s)) = ∅).
    { apply map_to_list_empty_iff. by destruct (map_to_list _). }
    refine (map_filter_empty_not_lookup _ _ i d E _ _); [done|]. by apply map_lookup_filter_Some. }
  constructor; simpl; try apply I.
  - destruct I. unfold id. lia.
  - intros i d Hd. apply lookup_insert_Some in Hd as [[<- <-]|[_ Hd]].
    + constructor; simpl; [done| |done|done|done]. destruct I. unfold id in *. lia.
    + destruct (i_chats _ I i d Hd) as [? [? ?] ? ? ?]. constructor; try done. unfold id. lia.
  - intros b. destruct (decide (requested_by b row)) as [Hr|Hr].
    + destruct Hr as [Hb _]. simpl in Hb. subst b. unfold outstanding.
      rewrite map_filter_insert_True by done.
      rewrite map_size_insert_None by (apply map_lookup_filter_None; by left). unfold CountRequestedSecretChats, MaxOutstandingSecretChats, outstanding in Hcap. lia.
    + unfold outstanding. rewrite map_filter_insert_False by done.
      etrans; [|apply (i_cap _ I b)]. apply map_subseteq_size, map_filter_subseteq_mono, delete_subseteq.
  - intros b i c j d Hi Hj Hc Hd Erid Hrid.
    apply lookup_insert_Some in Hi as [[<- <-]|[_ Hi]]; apply lookup_insert_Some in Hj as [[<- <-]|[_ Hj]].
    + done.
    + destruct Hc as [Hb _]. simpl in *. subst b. exfalso. by eapply Hfresh.
    + destruct Hd as [Hb _]. simpl in *. subst b. exfalso. eapply Hfresh; [exact Hi|done|done|congruence].
    + by eapply (i_dedup _ I).
  - intros ev Hev'. eapply secret_event_mono; [exact Hev|by apply (i_events _ I)].
  - intros n Hn. eapply nudge_ok_mono; [exact G|by apply (i_nudges _ I)].
Qed.

(** *** Events *)

Lemma events_of_app u l l' : events_of u (l ++ l') = events_of u l ++ events_of u l'.
Proof. apply List.filter_app. Qed.

Lemma acked_app l a ev :
  acked (l ++ [a]) ev = acked l ev || ((a.1 =? ev_OwnerID ev) && (ev_Qts ev <=? a.2)).
Proof. unfold acked. rewrite existsb_app. simpl. by rewrite orb_false_r. Qed.

(** An event past the recipient's counter has not been acknowledged. *)
Lemma not_acked s ev : inv s -> qts_of s (ev_OwnerID ev) < ev_Qts ev -> acked (acks s) ev = false.
Proof.
  intros I Hq. apply not_true_iff_false. intros H. unfold acked in H. apply existsb_exists in H as (a & Ha & H).
  apply andb_true_iff in H as [H1%Z.eqb_eq H2%Z.leb_le].
  assert (Hb := i_acks _ I a (proj2 (list_elem_of_In _ _) Ha)). rewrite H1 in Hb. lia.
Qed.

Lemma inv_secret_send to chat rid data now s :
  inv s -> len data <= maxEncryptedData ->
  (exists c, secret_chats s !! chat = Some c /\ State c <> SecretChatRequested /\ Party c to = true) ->
  let r := send_transaction to chat rid data now s in
  inv r.2 /\ guar s r.2 /\
  forall ev, r.1 = SentNew ev -> ev ∈ stored r.2 /\ ev_OwnerID ev = to.
Proof.
  intros I Hl Hc. cbv zeta. unfold send_transaction.
  destruct (update_qts s !! to) as [q|] eqn:Eq; [|by split_and!].
  destruct (GetEncryptedEventByRandomID to rid s) as [e|] eqn:Er; [by split_and!|].
  destruct (secret_chats s !! chat) as [c|] eqn:Ec; [|by split_and!].
  destruct (GetEncryptedEvent to (q + 1) s); [by split_and!|].
  destruct (Z.gtb_spec (q + 1) MaxInt64); [by split_and!|]. cbn [fst snd].
  set (ev := mkEvent to (q + 1) chat rid data now). set (s' := mkStore _ _ _ _ _ _ _ _).
  assert (Hq := i_qts _ I to q Eq).
  assert (Hqo : qts_of s to = q) by (unfold qts_of; by rewrite Eq).
  assert (Hq' : forall u, qts_of s' u = if decide (u = to) then q + 1 else qts_of s u).
  { intros u. unfold qts_of, s'. simpl. case_decide as Hu; [subst u; by rewrite lookup_insert_eq|].
    by rewrite lookup_insert_ne. }
  assert (Hle : forall u, qts_of s u <= qts_of s' u).
  { intros u. rewrite Hq'. case_decide; [subst; lia|done]. }
  assert (G : guar s s').
  { constructor; [by intros i d Hd; exists d|by exists [ev]|exact Hle|done]. }
  split_and!; [|done|intros ev' [= <-]; split; [|done]; apply elem_of_app; right; by left].
  constructor; simpl; try apply I.
  - intros u x Hx. apply lookup_insert_Some in Hx as [[<- <-]|[_ Hx]]; [lia|by eapply (i_qts _ I)].
  - intros u. rewrite events_of_app, map_app, (i_log _ I u), Hq'. unfold events_of. rewrite filter_one. simpl.
    case_decide as Hu.
    + subst u. rewrite Z.eqb_refl, Hqo. simpl. rewrite (seqZ_app 1 q 1) by lia. f_equal.
      change (seqZ (1 + q) 1) with [1 + q]. f_equal. lia.
    + destruct (Z.eqb_spec to u); [by subst|]. apply app_nil_r.
  - rewrite List.filter_app, filter_one, <- (i_present _ I). cbn [acks].
    by rewrite (not_acked s ev I) by (simpl; lia).
  - intros a Ha. specialize (Hle a.1). assert (Hb := i_acks _ I a Ha). lia.
  - intros e [He|He]%elem_of_app; [by apply (i_events _ I)|].
    apply list_elem_of_singleton in He as ->. split; [done|]. by exists c; destruct Hc as (? & [= <-] & ?).
  - rewrite map_app. apply NoDup_app. split_and!; [apply I| |apply NoDup_singleton].
    intros k Hk Hk'. apply list_elem_of_singleton in Hk' as ->.
    apply list_elem_of_fmap in Hk as (e & [= E1 E2] & He). simpl in *.
    apply list_elem_of_In, (List.find_none _ _ Er) in He. lia.
  - intros n Hn. eapply nudge_ok_mono; [exact G|by apply (i_nudges _ I)].
Qed.

(** Acknowledging: exactly the caller's events up to the bound go. *)
Lemma inv_ack u q s :
  inv s -> q <= qts_of s u ->
  inv (AcknowledgeEncryptedEvents u q s).2 /\ guar s (AcknowledgeEncryptedEvents u q s).2.
Proof.
  intros I Hq. unfold AcknowledgeEncryptedEvents. cbn [snd]. split.
  - constructor; simpl; try apply I.
    + rewrite (i_present _ I). rewrite filter_twice.
      apply List.filter_ext. intros ev. rewrite acked_app. simpl. rewrite (Z.eqb_sym u).
      by destruct (acked (acks s) ev), ((ev_OwnerID ev =? u) && (ev_Qts ev <=? q)).
    + intros a [Ha|Ha]%elem_of_app; [by apply (i_acks _ I)|]. by apply list_elem_of_singleton in Ha as ->.
    + apply NoDup_map_filter, I.
  - constructor; [by intros i d Hd; exists d|done|done|by exists [(u, q)]].
Qed.

Lemma inv_ensure u s : inv s -> inv (EnsureUpdateState u s) /\ guar s (EnsureUpdateState u s).
Proof.
  intros I. unfold EnsureUpdateState. destruct (update_qts s !! u) as [q|] eqn:E; [by split|].
  assert (Hq : forall v, qts_of (set_qts (<[u := 0]> (update_qts s)) s) v = qts_of s v).
  { intros v. unfold qts_of. simpl. destruct (decide (v = u)) as [->|]; [by rewrite lookup_insert_eq, E|].
    by rewrite lookup_insert_ne. }
  split.
  - constructor; simpl; try apply I.
    + intros v x Hx. apply lookup_insert_Some in Hx as [[<- <-]|[_ Hx]]; [done|by eapply (i_qts _ I)].
    + intros v. rewrite Hq. apply (i_log _ I).
    + intros a Ha. rewrite Hq. by apply (i_acks _ I).
  - constructor; simpl; [by intros i d Hd; exists d|done| |done]. intros v. by rewrite Hq.
Qed.

Lemma inv_limit_rows t s : inv s -> inv (set_limit_rows t s) /\ guar s (set_limit_rows t s).
Proof.
  intros I. split; [by constructor; simpl; try apply I|].
  constructor; simpl; [by intros i d Hd; exists d|done|done|done].
Qed.

Lemma inv_nudge n s : inv s -> nudge_ok s n -> inv (add_nudge n s) /\ guar s (add_nudge n s).
Proof.
  intros I Hn. split.
  - constructor; simpl; try apply I.
    intros n' [H|H]%elem_of_app; [exact (i_nudges _ I n' H)|]. by apply list_elem_of_singleton in H as ->.
  - constructor; simpl; [by intros i d Hd; exists d|done|done|done].
Qed.

Lemma inv_charge subj surf cfg e s :
  inv s -> inv (charge_limit subj surf cfg e s).2 /\ guar s (charge_limit subj surf cfg e s).2.
Proof. intros I. unfold charge_limit. destruct (CheckRateLimit _ _ _ _ _ _) as [a t]. by apply inv_limit_rows. Qed.

(** ** Handlers *)

(** What a request learns: a row it has seen, an event it stored, a counter it read. *)
Inductive fact : Type :=
| FChat (id : Z) (c : SecretChat)
| FStored (ev : EncryptedEvent)
| FQts (u q : Z).

Definition holds (f : fact) (s : secret_store) : Prop :=
  match f with
  | FChat id c => exists c', secret_chats s !! id = Some c' /\ evolves c c'
  | FStored ev => ev ∈ stored s
  | FQts u q => q <= qts_of s u
  end.

Lemma holds_guar f s s' : holds f s -> guar s s' -> holds f s'.
Proof.
  intros H G. destruct f as [id c|ev|u q]; simpl in *.
  - destruct H as (c1 & H1 & E1). destruct (g_chats _ _ G _ _ H1) as (c2 & H2 & E2). exists c2. split; [done|by etrans].
  - destruct (g_stored _ _ G) as [l ->]. apply elem_of_app. by left.
  - assert (Hq := g_qts _ _ G u). lia.
Qed.

Notation safeL := (safe_knowing inv guar holds).

Lemma refl_guar s : guar s s.
Proof. reflexivity. Qed.

Lemma safe_read {A} L (op : env -> secret_store -> A) k :
  (forall e s, inv s -> knowing holds L s -> exists L', knowing holds L' s /\ safeL L' (k (Some (op e s)))) ->
  safeL L (k None) -> safeL L (query op k).
Proof. apply knowing_read; [exact refl_guar|exact holds_guar]. Qed.

Lemma safe_op {A} L (op : env -> secret_store -> A * secret_store) k :
  (forall e s, inv s -> knowing holds L s -> inv (op e s).2 /\ guar s (op e s).2 /\
     exists L', knowing holds L' (op e s).2 /\ safeL L' (k (Some (op e s).1))) ->
  safeL L (k None) -> safeL L (call op k).
Proof. apply knowing_call; [exact refl_guar|exact holds_guar]. Qed.

Lemma safe_notify L n k :
  (forall s, inv s -> knowing holds L s -> nudge_ok s n) -> safeL L k -> safeL L (notify n k).
Proof.
  intros Hn Hk. apply knowing_step; [exact refl_guar|exact holds_guar| |done].
  intros e s I HK. apply inv_nudge; auto.
Qed.

Section with_key.
Context (key : list Z) (limit : RateLimitConfig).

Lemma safe_request L r u gA rid : safeL L (handleRequestEncryption key CheckDHParams r u gA rid).
Proof.
  unfold handleRequestEncryption. destruct (inputUserID key u (r_UserID r)) as [p|]; [|done].
  destruct (Z.eqb_spec p (r_UserID r)) as [|Hne]; [done|].
  destruct (validateDHValue CheckDHParams gA) eqn:Eg; [done|].
  apply safe_read; [|done]. intros e s I HK. exists L. split; [done|]. destruct (e_exists e p); [|done].
  apply safe_op; [|done]. clear e s I HK. intros e s I HK.
  destruct (inv_create (r_UserID r) p gA rid (e_now e) (e_abort e) s I ltac:(congruence) Eg) as (I' & G & Hc).
  cbv zeta in *. split_and!; [done|done|].
  destruct (CreateSecretChatRequest _ _ _ _ _ _ _ _) as [[c|c| |] s'] eqn:Ecr; cbn [fst snd] in *;
    try (exists []; split; [apply knowing_nil|done]).
  destruct (Hc c eq_refl) as [Hl Hp]. exists [FChat (ID c) c]. split.
  - apply knowing_cons; [by exists c|apply knowing_nil].
  - apply safe_notify; [|done]. intros s1 I1 HK1. destruct (HK1 (FChat (ID c) c)) as (c' & Hc' & E); [by left|].
    exists c'. split; [done|]. rewrite (evolves_party _ _ _ E). unfold Party. rewrite Hp, Z.eqb_refl. apply orb_true_r.
Qed.

Lemma safe_stale L id : safeL L (staleAcceptError id).
Proof.
  apply safe_read; [|done]. intros e s I HK. exists L. split; [done|].
  destruct (SecretChatByID id s); [|done]. by case_bool_decide.
Qed.

Lemma safe_accept L r peer gB fp : safeL L (handleAcceptEncryption key CheckDHParams r peer gB fp).
Proof.
  unfold handleAcceptEncryption. destruct (secretChatID key peer (r_UserID r)) as [id|]; [|done].
  destruct (validateDHValue CheckDHParams gB) eqn:Eg; [done|].
  apply safe_read; [|done]. intros e s I HK. exists L. split; [done|].
  destruct (SecretChatByID id s) as [c|]; [|done].
  destruct (negb _); [done|]. case_bool_decide; [done|].
  apply safe_op; [|done]. clear e s I HK. intros e s I HK.
  destruct (inv_accept id (r_UserID r) gB fp (e_now e) s I Eg) as (I' & G & Hc). split_and!; [done|done|].
  destruct (AcceptSecretChat _ _ _ _ _ _) as [[c'|] s'] eqn:Ea; cbn [fst snd] in *.
  - exists [FChat (ID c') c']. split.
    + apply knowing_cons; [exists c'; by split; [apply Hc|]|apply knowing_nil].
    + apply safe_notify; [|done]. intros s1 I1 HK1. destruct (HK1 (FChat (ID c') c')) as (c2 & Hc2 & E); [by left|].
      exists c2. split; [done|]. rewrite (evolves_party _ _ _ E). unfold Party. by rewrite Z.eqb_refl.
  - exists []. split; [apply knowing_nil|apply safe_stale].
Qed.

Lemma other_party c u : Party c (Other c u) = true.
Proof. unfold Party, Other. destruct (u =? AdminID c); rewrite Z.eqb_refl; [apply orb_true_r|done]. Qed.

Lemma safe_discard L r id : safeL L (handleDiscardEncryption r id).
Proof.
  unfold handleDiscardEncryption. apply safe_read; [|done]. intros e s I HK. exists L. split; [done|].
  destruct (SecretChatByID _ s) as [c|]; [|done]. destruct (negb _); [done|].
  apply safe_op; [|done]. clear e s I HK. intros e s I HK.
  destruct (inv_discard (ID c) (e_now e) s I) as (I' & G & Hc). split_and!; [done|done|].
  destruct (DiscardSecretChat _ _ _) as [[c'|] s'] eqn:Ea; cbn [fst snd] in *.
  - exists [FChat (ID c') c']. split.
    + apply knowing_cons; [exists c'; by split; [apply Hc|]|apply knowing_nil].
    + apply safe_notify; [|done]. intros s1 I1 HK1. destruct (HK1 (FChat (ID c') c')) as (c2 & Hc2 & E); [by left|].
      exists c2. split; [done|]. rewrite (evolves_party _ _ _ E). apply other_party.
  - exists []. split; [apply knowing_nil|done].
Qed.

(** A send knows its chat: accepted, and the recipient a party of it. *)
Lemma safe_send_new L r to chat rid data c :
  FChat chat c ∈ L -> State c <> SecretChatRequested -> Party c to = true -> len data <= maxEncryptedData ->
  safeL L (send_new limit r to chat rid data).
Proof.
  intros HL Hs Hp Hd. unfold send_new, checkRateLimit.
  apply knowing_step; [exact refl_guar|exact holds_guar|intros; by apply inv_charge|].
  intros a. destruct a as [[]|]; cbn [limit_answer]; try done.
  apply safe_op; [|done]. intros e s I HK.
  destruct (inv_secret_send to chat rid data (e_now e) s I Hd) as (I' & G & Hc).
  { destruct (HK _ HL) as (c' & Hc' & E). exists c'. split_and!; [done|by eapply evolves_answered|].
    by rewrite (evolves_party _ _ _ E). }
  cbv zeta in *. split_and!; [done|done|].
  destruct (send_transaction _ _ _ _ _ _) as [[ev| |] s'] eqn:Ea; cbn [fst snd] in *.
  - destruct (Hc ev eq_refl) as [Hev Ho]. exists [FStored ev]. split; [apply knowing_cons; [done|apply knowing_nil]|].
    apply safe_notify; [|done]. intros s1 I1 HK1. exists ev. split; [|done]. apply (HK1 (FStored ev)). by left.
  - exists []. split; [apply knowing_nil|]. apply safe_read; [|done]. intros e1 s1 I1 HK1.
    exists []. split; [done|]. by destruct (GetEncryptedEventByRandomID to rid s1).
  - exists []. split; [apply knowing_nil|done].
Qed.

Lemma safe_send L r peer rid data : safeL L (handleSendEncryptedMessage key limit r peer rid data).
Proof.
  unfold handleSendEncryptedMessage. destruct (Z.gtb_spec (len data) maxEncryptedData) as [|Hd]; [done|].
  apply safe_read; [|done]. intros e s I HK. set (id := wrap_s32 (p_ChatID peer)).
  destruct (SecretChatByID id s) as [c|] eqn:Ec; [|exists L; by split].
  exists (FChat id c :: L). split; [by apply knowing_cons; [exists c|]|].
  case_bool_decide as Hs; cbn [negb]; [|done].
  destruct (Party c (r_UserID r)); cbn [negb]; [|done]. destruct (negb _); [done|].
  assert (Hsend : forall L', FChat id c ∈ L' -> safeL L' (send_new limit r (Other c (r_UserID r)) id rid data)).
  { intros L' HL'. apply (safe_send_new _ _ _ _ _ _ c); [done|by rewrite Hs|apply other_party|done]. }
  destruct (rid =? 0); [apply Hsend; by left|].
  apply safe_read; [|done]. intros e1 s1 I1 HK1. exists (FChat id c :: L). split; [done|].
  destruct (EncryptedMessageByRandomID _ _ s1); [done|]. apply Hsend. by left.
Qed.

Lemma safe_received L r q : safeL L (handleReceivedQueue r q).
Proof.
  unfold handleReceivedQueue. destruct (_ =? 0); [done|]. apply safe_read; [|done]. intros e s I HK.
  exists [FQts (r_UserID r) (GetQts (r_UserID r) s)].
  split; [apply knowing_cons; [simpl; unfold GetQts, qts_of; lia|apply knowing_nil]|].
  apply safe_op; [|done]. intros e1 s1 I1 HK1.
  assert (Hq : GetQts (r_UserID r) s <= qts_of s1 (r_UserID r)) by (apply (HK1 (FQts _ _)); by left).
  destruct (inv_ack (r_UserID r) (Z.min q (GetQts (r_UserID r) s)) s1 I1 ltac:(lia)) as [I' G].
  split_and!; [done|done|]. exists []. split; [apply knowing_nil|done].
Qed.

(** ** The requests *)

(** Everything the server runs on these tables; the last is the row a new user or a first
    message makes. *)
Inductive serves : secret_prog -> Prop :=
| serve_dh n v : serves (handleGetDhConfig n v)
| serve_request r u gA rid : serves (handleRequestEncryption key CheckDHParams r u gA rid)
| serve_accept r peer gB fp : serves (handleAcceptEncryption key CheckDHParams r peer gB fp)
| serve_discard r id : serves (handleDiscardEncryption r id)
| serve_send r peer rid data : serves (handleSendEncryptedMessage key limit r peer rid data)
| serve_received r q : serves (handleReceivedQueue r q)
| serve_ensure u : serves (call (fun _ s => (tt, EnsureUpdateState u s)) (fun _ => Ret (RRandomIDs []))).

Lemma serves_safe p : serves p -> exists K, (forall s, inv s -> K s) /\ safe inv guar (fun _ => True) K p.
Proof.
  intros H. exists (knowing holds []). split; [intros; apply knowing_nil|]. change (safeL [] p). destruct H.
  - unfold handleGetDhConfig. destruct (_ || _); [done|].
    apply knowing_mem; [exact holds_guar|]. intros e s I HK. split_and!; [done|reflexivity|].
    exists []. split; [done|]. destruct (e_rand e (Z.to_nat n)); [|done]. done.
  - apply safe_request.
  - apply safe_accept.
  - apply safe_discard.
  - apply safe_send.
  - apply safe_received.
  - apply knowing_step; [exact refl_guar|exact holds_guar| |done]. intros; by apply inv_ensure.
Qed.

(** A run: from a consistent state, through any interleaving. *)
Definition secret_reach : secret_store -> secret_store * list secret_prog -> Prop :=
  pool_reach serves (fun _ => True).

Lemma reach_inv s0 c : inv s0 -> secret_reach s0 c -> inv c.1.
Proof.
  intros I H. exact (proj1 (pool_reach_inv inv guar (fun _ => True) serves s0 c serves_safe I H)).
Qed.

Lemma secret_reach_guar s0 c c' :
  inv s0 -> secret_reach s0 c -> rtc (pool_step serves (fun _ => True)) c c' -> guar c.1 c'.1.
Proof.
  intros I H H'. apply (pool_steps_guar inv guar (fun _ => True) serves c c').
  - exact serves_safe.
  - exact refl_guar.
  - intros a b d. apply transitivity.
  - exact (pool_reach_inv inv guar (fun _ => True) serves s0 c serves_safe I H).
  - exact H'.
Qed.

End with_key.
End safety.
