(* ===== verification/SecretRuns.v ===== *)
(** * Secret chats: what holds of every run

    The theorems about interleaved requests, what one request answers on its own, and
    concrete runs: those that meet the theorems' hypotheses and two that show where the
    code departs from what it means to do. *)

From S2P Require Import Prelude.
From S2P Require Import NetAddr.
From S2P Require Import Difference.
From S2P Require Import RateLimit.
From S2P Require Import Sha256.
From S2P Require Import Srp.
From S2P Require Import Threads.
From S2P Require Import Limits.
From S2P Require Import PeerHash.
From S2P Require Import SecretStore.
From S2P Require Import SecretChats.
From S2P Require Import SecretSafety.
From Stdlib Require Import String.

Open Scope Z_scope.

#[local] Opaque sha256 Derive pBytes group_p.

(** ** The undelivered events as a log *)

Lemma ascending_filter {A} (k : A -> Z) (f : A -> bool) l : ascending k l -> ascending k (List.filter f l).
Proof.
  induction 1 as [|x l Hl IH Hx]; [constructor|]. simpl. destruct (f x); [|done]. constructor; [done|].
  rewrite Forall_forall in *. intros y Hy. apply Hx.
  apply list_elem_of_In, List.filter_In in Hy as [Hy _]. by apply list_elem_of_In.
Qed.

Lemma ascending_of_seqZ {A} (k : A -> Z) l m n : map k l = seqZ m n -> ascending k l.
Proof.
  revert m n. induction l as [|x l IH]; intros m n H; [constructor|].
  destruct (decide (0 < n)) as [Hn|Hn]; [|rewrite seqZ_nil in H by lia; done].
  rewrite seqZ_cons in H by lia. simpl in H. injection H as Hx Hl. constructor; [by eapply IH|].
  apply Forall_forall. intros y Hy. assert (Hin : k y ∈ map k l) by (apply list_elem_of_fmap; eauto).
  rewrite Hl in Hin. apply elem_of_seqZ in Hin. lia.
Qed.

Lemma events_of_present CheckDHParams u s :
  inv CheckDHParams s ->
  events_of u (encrypted_events s) = List.filter (fun ev => negb (acked (acks s) ev)) (events_of u (stored s)).
Proof. intros I. unfold events_of. rewrite (i_present _ _ I). apply filter_comm. Qed.

Lemma events_of_ascending CheckDHParams u s : inv CheckDHParams s -> ascending ev_Qts (events_of u (encrypted_events s)).
Proof.
  intros I. rewrite (events_of_present _ _ _ I). apply ascending_filter.
  exact (ascending_of_seqZ _ _ _ _ (i_log _ _ I u)).
Qed.

Lemma bool_filter_range (l : list EncryptedEvent) lo hi :
  List.filter (fun ev => (lo <? ev_Qts ev) && (ev_Qts ev <=? hi)) l = range ev_Qts l lo hi.
Proof.
  unfold range. induction l as [|x l IH]; [done|]. simpl. rewrite filter_cons, IH.
  case_decide as H; destruct (Z.ltb_spec lo (ev_Qts x)), (Z.leb_spec (ev_Qts x) hi); simpl; done || lia.
Qed.

#[global] Instance qts_le_total : Total qts_le.
Proof. intros a b. unfold qts_le. lia. Qed.

#[global] Instance qts_le_trans : Transitive qts_le.
Proof. intros a b c. unfold qts_le. lia. Qed.

(** Sorting what is already in order changes nothing. *)
Lemma merge_sort_ascending l : ascending ev_Qts l -> merge_sort qts_le l = l.
Proof.
  intros Ha.
  assert (Hs : StronglySorted qts_le (merge_sort qts_le l)) by apply (StronglySorted_merge_sort qts_le).
  assert (Hp := merge_sort_Permutation qts_le l). revert Hs Hp. generalize (merge_sort qts_le l) as l'.
  induction Ha as [|x l Hl IH Hx]; intros l' Hs Hp.
  - by apply Permutation_nil_r in Hp.
  - destruct l' as [|y l']; [by apply Permutation_nil_l in Hp|].
    apply StronglySorted_inv in Hs as [Hs Hy]. rewrite Forall_forall in Hx, Hy.
    assert (E : y = x).
    { assert (H1 : y ∈ x :: l) by (rewrite <- Hp; by left). assert (H2 : x ∈ y :: l') by (rewrite Hp; by left).
      apply elem_of_cons in H1 as [->|H1]; [done|]. apply elem_of_cons in H2 as [->|H2]; [done|].
      specialize (Hx y H1). specialize (Hy x H2). unfold qts_le in Hy. lia. }
    subst y. f_equal. apply IH; [done|]. by apply Permutation_cons_inv in Hp.
Qed.

(** At every moment of every interleaving of secret-chat requests, with
    store failures anywhere: the events ever stored for a user carry the qts 1, 2, ... up to
    the user's counter, without a hole; those still there are exactly the ones not covered
    by an acknowledgement of their own owner, no acknowledgement reaches past the counter,
    and the window updates.getDifference reads is the ordered range of them; each was stored
    for a party of a chat that had been accepted, within the size cap. *)
Theorem encrypted_log_exact (CheckDHParams : Z -> Z -> Z -> Z -> bool) (key : list Z) (limit : RateLimitConfig)
    (s0 : secret_store) (c : secret_store * list secret_prog) (u : Z) :
  inv CheckDHParams s0 -> secret_reach CheckDHParams key limit s0 c ->
  let s := c.1 in
  map ev_Qts (events_of u (stored s)) = seqZ 1 (GetQts u s) /\
  events_of u (encrypted_events s) = List.filter (fun ev => negb (acked (acks s) ev)) (events_of u (stored s)) /\
  (forall q, (u, q) ∈ acks s -> q <= GetQts u s) /\
  ascending ev_Qts (events_of u (encrypted_events s)) /\
  (forall from to n, EncryptedEventsWindow u from to n s = window ev_Qts (events_of u (encrypted_events s)) from to n) /\
  (forall ev, ev ∈ stored s -> event_ok (secret_chats s) ev).
Proof.
  intros I0 H. cbv zeta. assert (I := reach_inv _ _ _ _ _ I0 H). assert (Ha := events_of_ascending _ u _ I).
  split_and!.
  - apply (i_log _ _ I).
  - by apply (events_of_present CheckDHParams).
  - intros q Hq. exact (i_acks _ _ I (u, q) Hq).
  - done.
  - intros from to n. unfold EncryptedEventsWindow, window. f_equal. rewrite bool_filter_range.
    by apply merge_sort_ascending, range_ascending.
  - apply (i_events _ _ I).
Qed.

(** C34 (safety).  Between any two moments of any interleaving a secret chat keeps its id,
    parties, g_a and token, its state only advances from requested to active to discarded,
    g_b and the fingerprint are set at most once, when it is accepted, and to a checked group
    element; the hash of g_a is its SHA-256, the parties differ, and no account ever has more
    than ten requests outstanding. *)
Theorem secret_chat_lifecycle (CheckDHParams : Z -> Z -> Z -> Z -> bool) (key : list Z) (limit : RateLimitConfig)
    (s0 : secret_store) (now later : secret_store * list secret_prog) :
  inv CheckDHParams s0 -> secret_reach CheckDHParams key limit s0 now ->
  rtc (pool_step (serves CheckDHParams key limit) (fun _ => True)) now later ->
  (forall id c, SecretChatByID id now.1 = Some c ->
     exists c', SecretChatByID id later.1 = Some c' /\ evolves c c' /\ ID c' = id /\
       AdminID c' <> ParticipantID c' /\ GAHash c' = sha256 (GA c') /\ dh_ok CheckDHParams (GA c') /\
       exchange_ok CheckDHParams c') /\
  (forall a, CountRequestedSecretChats a later.1 <= MaxOutstandingSecretChats).
Proof.
  intros I0 H H'. assert (G := secret_reach_guar _ _ _ _ _ _ I0 H H').
  assert (I : inv CheckDHParams later.1).
  { eapply (reach_inv _ key limit); [exact I0|]. unfold secret_reach, pool_reach in *. by etrans. }
  split.
  - intros id c Hc. destruct (g_chats _ _ G id c Hc) as (c' & Hc' & E). exists c'.
    destruct (i_chats _ _ I id c' Hc') as [? ? ? [? ?] ?]. by split_and!.
  - intros a. assert (Hcap := i_cap _ _ I a). unfold CountRequestedSecretChats, MaxOutstandingSecretChats. lia.
Qed.

(** ** One request alone *)

Section alone.
Context (key : list Z) (limit : RateLimitConfig) (env : nat -> SecretChats.env).
Hypothesis up : forall i, e_fault (env i) = NoFault.

Lemma exec_call {A} i s (op : SecretChats.env -> secret_store -> A * secret_store) k :
  exec env i s (call op k) = exec env (S i) (op (env i) s).2 (k (Some (op (env i) s).1)).
Proof. by apply exec_store_call. Qed.

Lemma exec_query {A} i s (op : SecretChats.env -> secret_store -> A) k :
  exec env i s (query op k) = exec env (S i) s (k (Some (op (env i) s))).
Proof. apply exec_call. Qed.

(** The caller may send to the chat. *)
Record may_send (s : secret_store) (r : Request) (peer : InputEncryptedChat) (data : list Z) (c : SecretChat) : Prop := {
  ms_size : len data <= maxEncryptedData;
  ms_chat : SecretChatByID (wrap_s32 (p_ChatID peer)) s = Some c;
  ms_active : State c = SecretChatActive;
  ms_party : Party c (r_UserID r) = true;
  ms_hash : p_AccessHash peer = secretChatHash key (r_UserID r) (wrap_s32 (p_ChatID peer))
}.

Lemma exec_send s r peer rid data c :
  may_send s r peer data c ->
  exec env 0 s (handleSendEncryptedMessage key limit r peer rid data) =
  let to := Other c (r_UserID r) in
  let id := wrap_s32 (p_ChatID peer) in
  if rid =? 0 then exec env 1 s (send_new limit r to id rid data)
  else match GetEncryptedEventByRandomID to rid s with
       | Some ev => (RSentEncrypted (unix_of (ev_Date ev)), s)
       | None => exec env 2 s (send_new limit r to id rid data)
       end.
Proof.
  intros [Hd Hc Ha Hp Hh]. unfold handleSendEncryptedMessage.
  destruct (Z.gtb_spec (len data) maxEncryptedData); [lia|]. rewrite exec_query, Hc, Hp, Hh, Z.eqb_refl.
  rewrite bool_decide_true by done. cbn [negb]. cbv zeta. destruct (Z.eqb_spec rid 0) as [->|Hr]; [done|].
  rewrite exec_query. unfold EncryptedMessageByRandomID. rewrite (proj2 (Z.eqb_neq rid 0) Hr).
  by destruct (GetEncryptedEventByRandomID _ _ s).
Qed.

Lemma exec_send_new i s r to id rid data :
  exec env i s (send_new limit r to id rid data) =
  match charge_limit (r_UserID r) "message_send" limit (env i) s with
  | (RLAllowed, s1) =>
      match send_transaction to id rid data (e_now (env (S i))) s1 with
      | (SentNew ev, s2) => (RSentEncrypted (unix_of (ev_Date ev)), add_nudge (NudgeEvent to (ev_Qts ev)) s2)
      | (SentConflict, s2) =>
          (match GetEncryptedEventByRandomID to rid s2 with
           | Some ev => RSentEncrypted (unix_of (ev_Date ev))
           | None => RError errInternal
           end, s2)
      | (SendFailed, s2) => (RError errInternal, s2)
      end
  | (RLDenied wait, s1) => (RError (FloodWaitError (wait_seconds wait)), s1)
  | (RLFailed, s1) => (RError errInternal, s1)
  end.
Proof.
  unfold send_new, checkRateLimit. rewrite (exec_store_call lim_fault) by apply up.
  destruct (charge_limit _ _ _ _ _) as [[|w|] s1]; cbn [fst snd limit_answer]; [|done|done].
  unfold SendEncryptedMessage. rewrite exec_call.
  destruct (send_transaction _ _ _ _ _ _) as [[ev| |] s2]; cbn [fst snd]; [|rewrite exec_query|done].
  - unfold notify. by rewrite exec_call.
  - by destruct (GetEncryptedEventByRandomID to rid s2).
Qed.

Lemma charge_tables subj surf cfg e s :
  let s' := (charge_limit subj surf cfg e s).2 in
  secret_chats s' = secret_chats s /\ update_qts s' = update_qts s /\ encrypted_events s' = encrypted_events s /\
  stored s' = stored s /\ nudges s' = nudges s /\ acks s' = acks s.
Proof. cbv zeta. unfold charge_limit. by destruct (CheckRateLimit _ _ _ _ _ _) as [a t]. Qed.

(** What sending does, alone and with the store up: a token already
    stored for the recipient is answered with the date it was stored at and changes nothing,
    not even the rate limit; a new one, unless the limit refuses it, is stored once, with the
    recipient's next qts, for the other party of the chat, and announced. *)
Theorem send_encrypted_exact (s : secret_store) (r : Request) (peer : InputEncryptedChat) (rid q : Z)
    (data : list Z) (c : SecretChat) :
  may_send s r peer data c -> rid <> 0 ->
  update_qts s !! Other c (r_UserID r) = Some q -> q < MaxInt64 ->
  GetEncryptedEvent (Other c (r_UserID r)) (q + 1) s = None ->
  let out := exec env 0 s (handleSendEncryptedMessage key limit r peer rid data) in
  match GetEncryptedEventByRandomID (Other c (r_UserID r)) rid s with
  | Some old => out = (RSentEncrypted (unix_of (ev_Date old)), s)
  | None =>
      exists now, let ev := mkEvent (Other c (r_UserID r)) (q + 1) (wrap_s32 (p_ChatID peer)) rid data now in
      out.1 = RSentEncrypted (unix_of now) /\ encrypted_events out.2 = encrypted_events s ++ [ev] /\
      GetQts (Other c (r_UserID r)) out.2 = q + 1 /\
      nudges out.2 = nudges s ++ [NudgeEvent (Other c (r_UserID r)) (q + 1)]
      \/ (exists e, out.1 = RError e) /\ encrypted_events out.2 = encrypted_events s /\
         update_qts out.2 = update_qts s /\ nudges out.2 = nudges s
  end.
Proof.
  intros M Hr Hq Hmax Hfree. cbv zeta. rewrite (exec_send _ _ _ _ _ _ M). cbv zeta.
  rewrite (proj2 (Z.eqb_neq rid 0) Hr). set (to := Other c (r_UserID r)) in *.
  destruct (GetEncryptedEventByRandomID to rid s) as [old|] eqn:Eold; [done|].
  exists (e_now (env 3)). rewrite exec_send_new.
  pose proof (charge_tables (r_UserID r) "message_send" limit (env 2%nat) s) as (T1 & T2 & T3 & T4 & T5 & _).
  destruct (charge_limit _ _ _ _ _) as [[|w|] s1]; cbn [fst snd] in *; [|right; split; [eauto|done]..].
  left. unfold send_transaction. rewrite T2, Hq. unfold GetEncryptedEventByRandomID, GetEncryptedEvent in *.
  rewrite T3, Eold, T1. pose proof (ms_chat _ _ _ _ _ M) as Hc. unfold SecretChatByID in Hc. rewrite Hc.
  rewrite Hfree. destruct (Z.gtb_spec (q + 1) MaxInt64); [lia|].
  cbn [fst snd encrypted_events add_nudge nudges update_qts ev_Qts ev_Date]. rewrite T5.
  split_and!; [done|done| |done]. unfold GetQts. cbn [update_qts add_nudge snd]. by rewrite lookup_insert_eq.
Qed.

(** A message sent with no token (random_id 0) while an earlier one without a
    token still waits for its recipient is answered as sent, with the earlier message's
    date, and is not stored. *)
Theorem zero_token_message_lost (s : secret_store) (r : Request) (peer : InputEncryptedChat) (data : list Z)
    (c : SecretChat) (old : EncryptedEvent) (q : Z) :
  may_send s r peer data c -> update_qts s !! Other c (r_UserID r) = Some q ->
  (charge_limit (r_UserID r) "message_send" limit (env 1) s).1 = RLAllowed ->
  GetEncryptedEventByRandomID (Other c (r_UserID r)) 0 s = Some old ->
  let out := exec env 0 s (handleSendEncryptedMessage key limit r peer 0 data) in
  out.1 = RSentEncrypted (unix_of (ev_Date old)) /\ encrypted_events out.2 = encrypted_events s /\
  stored out.2 = stored s /\ nudges out.2 = nudges s.
Proof.
  intros M Hq Hl Hold. cbv zeta. rewrite (exec_send _ _ _ _ _ _ M). cbv zeta. rewrite Z.eqb_refl, exec_send_new.
  pose proof (charge_tables (r_UserID r) "message_send" limit (env 1%nat) s) as (T1 & T2 & T3 & T4 & T5 & _).
  destruct (charge_limit _ _ _ _ _) as [a s1]; cbn [fst snd] in *. subst a. unfold send_transaction.
  rewrite T2, Hq. unfold GetEncryptedEventByRandomID in *. rewrite T3, Hold. cbv beta iota. by rewrite ?T3, ?Hold.
Qed.

(** Somebody who is not a party learns from messages.sendEncrypted alone, with
    any access hash, which chat ids exist and which of them are active: the three cases are
    answered with three different errors. *)
Theorem send_reveals_chats (s : secret_store) (r : Request) (peer : InputEncryptedChat) (rid : Z) (data : list Z) :
  len data <= maxEncryptedData ->
  (forall c, SecretChatByID (wrap_s32 (p_ChatID peer)) s = Some c -> Party c (r_UserID r) = false) ->
  exec env 0 s (handleSendEncryptedMessage key limit r peer rid data) =
  (RError match SecretChatByID (wrap_s32 (p_ChatID peer)) s with
          | None => errEncryptionIDInvalid
          | Some c => if bool_decide (State c = SecretChatActive) then errChatForbidden else errEncryptionDeclined
          end, s).
Proof.
  intros Hd Hp. unfold handleSendEncryptedMessage. destruct (Z.gtb_spec (len data) maxEncryptedData); [lia|].
  rewrite exec_query. destruct (SecretChatByID _ s) as [c|] eqn:Ec; [|done].
  rewrite (Hp c eq_refl). by case_bool_decide.
Qed.

End alone.

(** ** What is shown to whom *)

(** The g_a of a request is pushed to the responder alone, and nothing of a chat to anybody
    who is not in it. *)
Lemma encryption_push_parties key conns u id up s conn x :
  (conn, x) ∈ DeliverEncryption key conns u id up s ->
  exists c, SecretChatByID (wrap_s32 id) s = Some c /\ Party c u = true /\
    x = UpdateEncryption (encryptedChatFor key c u) /\
    forall i h d a p gA, encryptedChatFor key c u = EncryptedChatRequested i h d a p gA -> u = ParticipantID c.
Proof.
  unfold DeliverEncryption. destruct (conns u) as [|c0 cs]; [by intros ?%elem_of_nil|].
  destruct up; [|by intros ?%elem_of_nil].
  destruct (SecretChatByID (wrap_s32 id) s) as [c|]; [|by intros ?%elem_of_nil].
  destruct (Party c u) eqn:Ep; [|by intros ?%elem_of_nil]. intros (y & [= -> ->] & _)%list_elem_of_fmap.
  exists c. split_and!; [done|done|done|]. intros i h d a p gA. unfold encryptedChatFor.
  destruct (State c); [|done|done]. destruct (Z.eqb_spec u (ParticipantID c)); done.
Qed.

(** * Secret-chat runs on concrete data

    A chat requested, accepted, used and acknowledged, with the requests' steps interleaved:
    the theorems of SecretRuns.v at states that meet their hypotheses. *)

(** The mandatory part of the group check: above 1 and below p - 1. *)
Definition demo_check (p g a b : Z) : bool := (1 <? a) && (a <? p - 1) && (1 <? b) && (b <? p - 1).

Definition demo_key : list Z := replicate 32 7.
Definition demo_limit : RateLimitConfig := mkRLConfig 5 (60 * second).
Definition demo_env : SecretChats.env :=
  SecretChats.mkEnv NoFault (1000 * 1000000) (1000 * second) (fun n => Some (replicate n 1)) (fun _ => true) false id.
Definition demo_by (u : Z) : Request := mkRequest u u (Addr4 1).
Definition demo_gA : list Z := be_bytes 256 5.
Definition demo_gB : list Z := be_bytes 256 6.

(** Two users, no chats. *)
Definition demo0 : secret_store := mkStore ∅ 0 {[1 := 0; 2 := 0]} [] ∅ [] [] [].

Lemma demo0_inv : inv demo_check demo0.
Proof.
  constructor; simpl; try done.
  - intros a. unfold outstanding. rewrite map_filter_empty, map_size_empty. lia.
  - intros u q H. apply lookup_insert_Some in H as [[_ <-]|[_ H]]; [done|]. by apply lookup_singleton_Some in H as [_ <-].
  - intros u. unfold qts_of. simpl. destruct (decide (u = 1)) as [->|]; [done|].
    rewrite lookup_insert_ne by done. destruct (decide (u = 2)) as [->|]; [done|].
    by rewrite lookup_singleton_ne.
  - intros a H. by apply elem_of_nil in H.
  - intros e H. by apply elem_of_nil in H.
  - constructor.
  - intros n H. by apply elem_of_nil in H.
Qed.

Definition demo_peer (u : Z) : InputEncryptedChat := mkPeer 1 (secretChatHash demo_key u 1).

Definition demo_request : secret_prog :=
  handleRequestEncryption demo_key demo_check (demo_by 1) (InputUser 2 (Derive demo_key 1 KindUser 2)) demo_gA 77.
Definition demo_accept (fp : Z) : secret_prog :=
  handleAcceptEncryption demo_key demo_check (demo_by 2) (demo_peer 2) demo_gB fp.
Definition demo_send (u rid : Z) (data : list Z) : secret_prog :=
  handleSendEncryptedMessage demo_key demo_limit (demo_by u) (demo_peer u) rid data.

Definition step (i : nat) : @choice secret_store SecretChats.env reply := Step i demo_env.

(** The request; two accepts at once, of which one wins; then a message each way. *)
Definition demo_opening : list (@choice secret_store SecretChats.env reply) :=
  [Arrive demo_request; step 0; step 0; step 0;
   Arrive (demo_accept 99); Arrive (demo_accept 98); step 0; step 1; step 0; step 1; step 0; step 1].

Definition demo_talk : list (@choice secret_store SecretChats.env reply) :=
  [Arrive (demo_send 1 500 [1; 2; 3]); Arrive (demo_send 2 501 [4]);
   step 0; step 1; step 0; step 1; step 0; step 1; step 0; step 1; step 0; step 1].

(** The recipient acknowledges what it has. *)
Definition demo_ack : list (@choice secret_store SecretChats.env reply) :=
  [Arrive (handleReceivedQueue (demo_by 2) 9); step 0; step 0].

Definition demo_pool1 : secret_store * list secret_prog := run_schedule demo0 (demo_opening ++ demo_talk).

Definition demo_pool2 : secret_store * list secret_prog :=
  run_schedule demo0 ((demo_opening ++ demo_talk) ++ demo_ack).

Lemma request_served : serves demo_check demo_key demo_limit demo_request.
Proof. unfold demo_request. apply serve_request. Qed.

Lemma accept_served fp : serves demo_check demo_key demo_limit (demo_accept fp).
Proof. unfold demo_accept. apply serve_accept. Qed.

Lemma send_served u rid data : serves demo_check demo_key demo_limit (demo_send u rid data).
Proof. unfold demo_send. apply serve_send. Qed.

Lemma ack_served u q : serves demo_check demo_key demo_limit (handleReceivedQueue (demo_by u) q).
Proof. apply serve_received. Qed.

Ltac served :=
  match goal with
  | |- True => exact I
  | |- context [Step _ _] => exact I
  | |- context [demo_request] => exact request_served
  | |- context [demo_accept ?f] => exact (accept_served f)
  | |- context [demo_send ?u ?r ?d] => exact (send_served u r d)
  | |- context [handleReceivedQueue (demo_by ?u) ?q] => exact (ack_served u q)
  end.

Ltac schedule_is_ok :=
  unfold schedule_ok, demo_opening, demo_talk, demo_ack, step; cbn [app take];
  repeat (apply Forall_cons_2; [served|]); apply Forall_nil_2.

Lemma demo_reach1 : secret_reach demo_check demo_key demo_limit demo0 demo_pool1.
Proof. apply run_schedule_reach. schedule_is_ok. Qed.

Lemma demo_reach2 : secret_reach demo_check demo_key demo_limit demo0 demo_pool2.
Proof. apply run_schedule_reach. schedule_is_ok. Qed.

(** One accept set the answer, the other was refused; both messages are stored. *)
Example demo_outcome :
  (KeyFingerprint <$> SecretChatByID 1 demo_pool1.1, map ev_Qts (events_of 2 (encrypted_events demo_pool1.1)),
   map (fun p => match p with Ret (RError e) => Some (err_msg e) | _ => None end) (rev demo_pool1.2)) =
  (Some 98, [1], [None; Some "ENCRYPTION_ALREADY_ACCEPTED"%string; None; None; None]).
Proof. vm_compute. reflexivity. Qed.

Lemma demo_counted : GetQts 2 demo_pool2.1 = 1.
Proof. vm_compute. reflexivity. Qed.

(** What user 2 acknowledged is gone, what user 1 has not is there. *)
Example demo_acked : encrypted_events demo_pool2.1 = [mkEvent 1 1 1 501 [4] 1000000000].
Proof. vm_compute. reflexivity. Qed.

Lemma encrypted_log_exact_witness :
  map ev_Qts (events_of 2 (stored demo_pool2.1)) = seqZ 1 (GetQts 2 demo_pool2.1) /\ GetQts 2 demo_pool2.1 = 1.
Proof.
  split; [|exact demo_counted].
  exact (proj1 (encrypted_log_exact demo_check demo_key demo_limit demo0 demo_pool2 2 demo0_inv demo_reach2)).
Defined.

(** From after the request to after the messages. *)
Definition demo_early : secret_store * list secret_prog := run_schedule demo0 (take 4 demo_opening).

Lemma demo_early_reach : secret_reach demo_check demo_key demo_limit demo0 demo_early.
Proof. apply run_schedule_reach. schedule_is_ok. Qed.

Lemma demo_early_state : State <$> SecretChatByID 1 demo_early.1 = Some SecretChatRequested.
Proof. vm_compute. reflexivity. Qed.

Lemma secret_chat_lifecycle_witness :
  exists c', SecretChatByID 1 demo_early.1 = Some c' /\ State c' = SecretChatRequested /\
    AdminID c' <> ParticipantID c'.
Proof.
  pose proof demo_early_state as Hst.
  destruct (SecretChatByID 1 demo_early.1) as [c|] eqn:E; [|discriminate Hst].
  destruct (proj1 (secret_chat_lifecycle demo_check demo_key demo_limit demo0 demo_early demo_early demo0_inv
    demo_early_reach (rtc_refl _ _)) 1 c E) as (c' & E' & _ & _ & Hne & _).
  rewrite E in E'. injection E' as <-. exists c. injection Hst as Hst.
  exact (conj eq_refl (conj Hst Hne)).
Defined.

(** Alone, on a chat that was accepted: a message repeated, a second one without a token. *)
Definition demo_envs (n : nat) : SecretChats.env := demo_env.
Definition demo_chat : SecretChat := mkChat 1 1 2 SecretChatActive [] demo_gA demo_gB 98 77 1000000000.

Definition demo_active (rid : Z) : secret_store :=
  mkStore {[1 := demo_chat]} 1 {[1 := 0; 2 := 1]} [mkEvent 2 1 1 rid [7] 1000000000] ∅
    [mkEvent 2 1 1 rid [7] 1000000000] [] [].

Lemma demo_may_send rid data :
  len data <= maxEncryptedData -> may_send demo_key (demo_active rid) (demo_by 1) (demo_peer 1) data demo_chat.
Proof.
  intros Hd. constructor; [exact Hd|vm_compute; reflexivity|vm_compute; reflexivity|vm_compute; reflexivity|].
  change (wrap_s32 (p_ChatID (demo_peer 1))) with 1. reflexivity.
Qed.

Lemma demo_short : len [9] <= maxEncryptedData.
Proof. vm_compute. discriminate. Qed.

Lemma send_encrypted_exact_witness :
  exec demo_envs 0 (demo_active 501) (demo_send 1 501 [9]) = (RSentEncrypted 1000, demo_active 501).
Proof.
  exact (send_encrypted_exact demo_key demo_limit demo_envs (fun _ => eq_refl) (demo_active 501) (demo_by 1)
    (demo_peer 1) 501 1 [9] demo_chat (demo_may_send 501 [9] demo_short) ltac:(lia) ltac:(vm_compute; reflexivity)
    ltac:(vm_compute; reflexivity) ltac:(vm_compute; reflexivity)).
Defined.

Lemma zero_token_message_lost_witness :
  let out := exec demo_envs 0 (demo_active 0) (demo_send 1 0 [9]) in
  out.1 = RSentEncrypted 1000 /\ encrypted_events out.2 = [mkEvent 2 1 1 0 [7] 1000000000].
Proof.
  destruct (zero_token_message_lost demo_key demo_limit demo_envs (fun _ => eq_refl) (demo_active 0) (demo_by 1)
    (demo_peer 1) [9] demo_chat (mkEvent 2 1 1 0 [7] 1000000000) 1 (demo_may_send 0 [9] demo_short)
    ltac:(vm_compute; reflexivity) ltac:(vm_compute; reflexivity) ltac:(vm_compute; reflexivity)) as (H1 & H2 & _).
  exact (conj H1 H2).
Defined.

(** A stranger asks about chat 1 and chat 2. *)
Definition stranger_asks (id : Z) : secret_prog :=
  handleSendEncryptedMessage demo_key demo_limit (demo_by 3) (mkPeer id 0) 1 [9].

Lemma send_reveals_chats_witness :
  exec demo_envs 0 (demo_active 5) (stranger_asks 1) = (RError errChatForbidden, demo_active 5) /\
  exec demo_envs 0 (demo_active 5) (stranger_asks 2) = (RError errEncryptionIDInvalid, demo_active 5).
Proof.
  split.
  - refine (send_reveals_chats demo_key demo_limit demo_envs (fun _ => eq_refl) (demo_active 5) (demo_by 3) (mkPeer 1 0) 1 [9]
      demo_short _).
    intros c H. change (Some demo_chat = Some c) in H. injection H as <-. reflexivity.
  - refine (send_reveals_chats demo_key demo_limit demo_envs (fun _ => eq_refl) (demo_active 5) (demo_by 3) (mkPeer 2 0) 1 [9]
      demo_short _).
    intros c H. change (None = Some c) in H. discriminate H.
Defined.
