(* ===== verification/Mailbox.v ===== *)
(** * One account's mailbox

    The rows every account owns: its counters ([update_state]), its copies of messages
    ([messages]), its event log ([message_events]) and its dialogs, all keyed by owner first.
    The statements of [internal/store/queries/messages.sql], [updatestate.sql] and
    [dialogs.sql] are functions of one mailbox here; the transactions that compose them over
    several mailboxes are in MsgStore.v.  [box_step] is the abstract mailbox: what one change
    may do to it.  [None] is a statement that fails or finds no row. *)

From S2P Require Import Prelude.
From S2P Require Import NetAddr.
From S2P Require Import Limits.
From S2P Require Import PeerHash.
From S2P Require Import UpdateBatch.
From Stdlib Require Import String.

Open Scope Z_scope.

(** ** Rows *)

Record forward : Type := mkFwd { FwdFromID : Z; FwdDate : Z; FwdChannel : option (Z * Z) }.

Record Message : Type := mkMsg {
  OwnerID : Z;
  LocalID : Z;
  m_PeerType : PeerType;
  PeerID : Z;
  FromID : Z;
  m_Date : Z;
  Text : string;
  Out : bool;
  EditDate : option Z;
  Deleted : bool;
  m_RandomID : Z;
  PeerLocalID : Z;
  FanoutID : Z;
  FileID : Z;
  Action : Z;
  ActionUserID : Z;
  ReplyToMsgID : option Z;
  Fwd : option forward
}.

Record Dialog : Type := mkDialog {
  TopMessage : Z; UnreadCount : Z; ReadInboxMaxID : Z; ReadOutboxMaxID : Z
}.

(** The key of a dialog: the type of its peer as stored, and the peer. *)
Definition type_code (t : PeerType) : Z :=
  match t with PeerTypeUser => 1 | PeerTypeChat => 2 | PeerTypeChannel => 3 end.

Definition dialog_key (t : PeerType) (peer : Z) : Z * Z := (type_code t, peer).

Record box : Type := mkBox {
  counters : option (Z * Z);
  msgs : gmap Z Message;
  log : list Event;
  dialogs : gmap (Z * Z) Dialog
}.

Definition empty_box : box := mkBox None ∅ [] ∅.

#[global] Instance EventType_eq_dec : EqDecision EventType.
Proof. solve_decision. Defined.

(** ** Statements on counters and the log *)

Definition q_EnsureUpdateState (b : box) : box :=
  match counters b with Some _ => b | None => mkBox (Some (0, 1)) (msgs b) (log b) (dialogs b) end.

(** The new pts and the local id consumed. *)
Definition BumpState (b : box) : option (Z * Z * box) :=
  match counters b with
  | Some (pts, next) => Some (pts + 1, next, mkBox (Some (pts + 1, next + 1)) (msgs b) (log b) (dialogs b))
  | None => None
  end.

Definition BumpPtsOnly (b : box) : option (Z * box) :=
  match counters b with
  | Some (pts, next) => Some (pts + 1, mkBox (Some (pts + 1, next)) (msgs b) (log b) (dialogs b))
  | None => None
  end.

Definition InsertEvent (ev : Event) (b : box) : option box :=
  if existsb (fun e => ev_Pts e =? ev_Pts ev) (log b) then None
  else Some (mkBox (counters b) (msgs b) (log b ++ [ev]) (dialogs b)).

(** The pts at which a message entered the log. *)
Definition NewMessagePts (localID : Z) (b : box) : option Z :=
  ev_Pts <$> List.find (fun e => bool_decide (ev_Type e = EventNewMessage) && (ev_LocalID e =? localID)) (log b).

(** ** Statements on messages *)

Definition MessageByRandomID (randomID : Z) (b : box) : option Message :=
  if randomID =? 0 then None
  else snd <$> head (map_to_list (filter (fun kv => m_RandomID kv.2 = randomID) (msgs b))).

Definition InsertMessage (m : Message) (b : box) : option box :=
  match msgs b !! LocalID m, MessageByRandomID (m_RandomID m) b with
  | None, None => Some (mkBox (counters b) (<[LocalID m := m]> (msgs b)) (log b) (dialogs b))
  | _, _ => None
  end.

Definition with_text (text : string) (now : Z) (m : Message) : Message :=
  mkMsg (OwnerID m) (LocalID m) (m_PeerType m) (PeerID m) (FromID m) (m_Date m) text (Out m) (Some now) (Deleted m)
    (m_RandomID m) (PeerLocalID m) (FanoutID m) (FileID m) (Action m) (ActionUserID m) (ReplyToMsgID m) (Fwd m).

Definition as_deleted (m : Message) : Message :=
  mkMsg (OwnerID m) (LocalID m) (m_PeerType m) (PeerID m) (FromID m) (m_Date m) (Text m) (Out m) (EditDate m) true
    (m_RandomID m) (PeerLocalID m) (FanoutID m) (FileID m) (Action m) (ActionUserID m) (ReplyToMsgID m) (Fwd m).

Definition SetEditedText (localID : Z) (text : string) (now : Z) (b : box) : box :=
  mkBox (counters b) (alter (with_text text now) localID (msgs b)) (log b) (dialogs b).

(** The row count: 1 when a row was there and not deleted. *)
Definition SetDeleted (localID : Z) (b : box) : Z * box :=
  match msgs b !! localID with
  | Some m => if Deleted m then (0, b) else (1, mkBox (counters b) (<[localID := as_deleted m]> (msgs b)) (log b) (dialogs b))
  | None => (0, b)
  end.

(** ** Statements on dialogs *)

Definition UpsertDialog (k : Z * Z) (top unread : Z) (b : box) : box :=
  let d := match dialogs b !! k with
           | Some d => mkDialog top (UnreadCount d + unread) (ReadInboxMaxID d) (ReadOutboxMaxID d)
           | None => mkDialog top unread 0 0
           end in
  mkBox (counters b) (msgs b) (log b) (<[k := d]> (dialogs b)).

Definition in_dialog (t : PeerType) (peer : Z) (m : Message) : bool :=
  bool_decide (m_PeerType m = t) && (PeerID m =? peer).

(** Inbound messages of the dialog above [maxID] that are still there. *)
Definition count_unread (t : PeerType) (peer maxID : Z) (b : box) : Z :=
  len (List.filter (fun m => in_dialog t peer m && negb (Out m) && negb (Deleted m) && (maxID <? LocalID m))
         (map_to_list (msgs b)).*2).

(** The new inbox marker, when there is such a dialog; a dialog with oneself moves both. *)
Definition AdvanceReadInbox (t : PeerType) (owner peer maxID : Z) (b : box) : option (Z * box) :=
  match dialogs b !! dialog_key t peer with
  | None => None
  | Some d =>
      let inbox := Z.max (ReadInboxMaxID d) maxID in
      let outbox := if owner =? peer then Z.max (ReadOutboxMaxID d) maxID else ReadOutboxMaxID d in
      Some (inbox, mkBox (counters b) (msgs b) (log b)
        (<[dialog_key t peer := mkDialog (TopMessage d) (count_unread t peer inbox b) inbox outbox]> (dialogs b)))
  end.

Definition AdvanceReadOutbox (t : PeerType) (peer maxID : Z) (b : box) : box :=
  match dialogs b !! dialog_key t peer with
  | None => b
  | Some d =>
      mkBox (counters b) (msgs b) (log b)
        (<[dialog_key t peer := mkDialog (TopMessage d) (UnreadCount d) (ReadInboxMaxID d) (Z.max (ReadOutboxMaxID d) maxID)]>
           (dialogs b))
  end.

(** The newest counterpart, in the peer's numbering, of what was read. *)
Definition peer_max_local (peer maxID : Z) (b : box) : Z :=
  foldr Z.max 0 (map PeerLocalID
    (List.filter (fun m => in_dialog PeerTypeUser peer m && (LocalID m <=? maxID)) (map_to_list (msgs b)).*2)).

(** ** Reading a history *)

Definition newer (a b : Message) : Prop := LocalID b <= LocalID a.

#[global] Instance newer_dec a b : Decision (newer a b).
Proof. unfold newer. apply _. Defined.

(** The live messages of a dialog, newest first. *)
Definition newest_first (t : PeerType) (peer : Z) (b : box) : list Message :=
  merge_sort newer (List.filter (fun m => in_dialog t peer m && negb (Deleted m)) (map_to_list (msgs b)).*2).

Definition HistoryPage (t : PeerType) (peer offsetID addOffset : Z) (lim : nat) (b : box) : list Message :=
  take lim (drop (Z.to_nat (Z.max 0 addOffset))
    (List.filter (fun m => (offsetID =? 0) || (LocalID m <? offsetID)) (newest_first t peer b))).

Definition HistoryPageAround (t : PeerType) (peer offsetID addOffset : Z) (lim : nat) (b : box) : list Message :=
  let skip := Z.max 0 (len (List.filter (fun m => offsetID <=? LocalID m) (newest_first t peer b)) + addOffset) in
  take lim (drop (Z.to_nat skip) (newest_first t peer b)).

Definition historyPage (t : PeerType) (peer offsetID addOffset : Z) (lim : nat) (b : box) : list Message :=
  if offsetID <? 0 then []
  else if (offsetID >? 0) && (addOffset <? 0) then HistoryPageAround t peer offsetID addOffset lim b
  else HistoryPage t peer offsetID addOffset lim b.

(** ** The abstract mailbox *)

(** One change: the row is provisioned; a copy comes in, with its event and its dialog; a
    copy is edited, or deleted once, with the event of it; a read event is logged; a dialog's
    markers advance. *)
Inductive box_step (owner : Z) : box -> box -> Prop :=
| bs_ensure b : box_step owner b (q_EnsureUpdateState b)
| bs_copy b pts next m unread :
    counters b = Some (pts, next) -> OwnerID m = owner -> LocalID m = next -> Deleted m = false ->
    MessageByRandomID (m_RandomID m) b = None ->
    box_step owner b
      (UpsertDialog (dialog_key (m_PeerType m) (PeerID m)) next unread
         (mkBox (Some (pts + 1, next + 1)) (<[next := m]> (msgs b)) (log b ++ [mkEvent (pts + 1) EventNewMessage next])
            (dialogs b)))
| bs_edit b pts next l m text now :
    counters b = Some (pts, next) -> msgs b !! l = Some m ->
    box_step owner b
      (mkBox (Some (pts + 1, next)) (<[l := with_text text now m]> (msgs b)) (log b ++ [mkEvent (pts + 1) EventEdit l])
         (dialogs b))
| bs_delete b pts next l m :
    counters b = Some (pts, next) -> msgs b !! l = Some m -> Deleted m = false ->
    box_step owner b
      (mkBox (Some (pts + 1, next)) (<[l := as_deleted m]> (msgs b)) (log b ++ [mkEvent (pts + 1) EventDelete l])
         (dialogs b))
| bs_read b pts next ty id :
    counters b = Some (pts, next) -> ty = EventReadIn \/ ty = EventReadOut ->
    box_step owner b (mkBox (Some (pts + 1, next)) (msgs b) (log b ++ [mkEvent (pts + 1) ty id]) (dialogs b))
| bs_inbox b t peer maxID inbox b' :
    AdvanceReadInbox t owner peer maxID b = Some (inbox, b') -> box_step owner b b'
| bs_outbox b t peer maxID : box_step owner b (AdvanceReadOutbox t peer maxID b).

(** ** What every mailbox keeps *)

Definition ev_count (ty : EventType) (l : Z) (lg : list Event) : Z :=
  len (List.filter (fun e => bool_decide (ev_Type e = ty) && (ev_LocalID e =? l)) lg).

Definition names_message (ty : EventType) : Prop := ty = EventNewMessage \/ ty = EventEdit \/ ty = EventDelete.

(** The pts of the log run from 1 to the counter; the local ids in use are those below the
    next one; each copy came in by exactly one event and is deleted exactly when one event
    says so; an event names a copy that is there; tokens are distinct; a dialog is there for
    every copy and its top is the newest. *)
Record box_ok (owner : Z) (b : box) : Prop := mkBoxOk {
  bo_counters : forall pts next, counters b = Some (pts, next) -> 0 <= pts /\ 1 <= next;
  bo_none : counters b = None -> msgs b = ∅ /\ log b = [] /\ dialogs b = ∅;
  bo_log : forall pts next, counters b = Some (pts, next) -> map ev_Pts (log b) = seqZ 1 pts;
  bo_ids : forall pts next l, counters b = Some (pts, next) -> is_Some (msgs b !! l) <-> 1 <= l < next;
  bo_msgs : forall l m, msgs b !! l = Some m ->
    OwnerID m = owner /\ LocalID m = l /\ ev_count EventNewMessage l (log b) = 1 /\
    ev_count EventDelete l (log b) = (if Deleted m then 1 else 0);
  bo_events : forall e, e ∈ log b -> names_message (ev_Type e) -> is_Some (msgs b !! ev_LocalID e);
  bo_tokens : forall i m j n, msgs b !! i = Some m -> msgs b !! j = Some n ->
    m_RandomID m = m_RandomID n -> m_RandomID m <> 0 -> i = j;
  bo_dialogs : forall l m, msgs b !! l = Some m ->
    exists d, dialogs b !! dialog_key (m_PeerType m) (PeerID m) = Some d /\ l <= TopMessage d;
  bo_tops : forall k d, dialogs b !! k = Some d ->
    exists m, msgs b !! TopMessage d = Some m /\ dialog_key (m_PeerType m) (PeerID m) = k
}.

Lemma ev_count_app ty l lg e :
  ev_count ty l (lg ++ [e]) = ev_count ty l lg + (if bool_decide (ev_Type e = ty) && (ev_LocalID e =? l) then 1 else 0).
Proof. unfold ev_count. rewrite List.filter_app, len_app. simpl. by destruct (_ && _). Qed.

Lemma ev_count_absent ty l lg : (forall e, e ∈ lg -> ev_Type e = ty -> ev_LocalID e <> l) -> ev_count ty l lg = 0.
Proof.
  intros H. unfold ev_count. rewrite (proj2 (len_zero _)); [done|].
  induction lg as [|e lg IH]; [done|]. simpl. case_bool_decide as Ht; simpl.
  - destruct (Z.eqb_spec (ev_LocalID e) l) as [E|]; [by destruct (H e (list_elem_of_here _ _) Ht)|].
    apply IH. intros x Hx. apply H. by right.
  - apply IH. intros x Hx. apply H. by right.
Qed.

Lemma empty_box_ok owner : box_ok owner empty_box.
Proof. constructor; try done. intros e H. by apply elem_of_nil in H. Qed.

(** A message that is not there has no events. *)
Lemma no_events owner b l ty :
  box_ok owner b -> msgs b !! l = None -> names_message ty -> ev_count ty l (log b) = 0.
Proof.
  intros B Hl Ht. apply ev_count_absent. intros e He <- E. rewrite <- E in Hl.
  destruct (bo_events _ _ B e He Ht) as [m Hm]. by rewrite Hm in Hl.
Qed.

Lemma token_fresh b r l m : MessageByRandomID r b = None -> msgs b !! l = Some m -> m_RandomID m = r -> r = 0.
Proof.
  unfold MessageByRandomID. intros H Hm Er. destruct (Z.eqb_spec r 0); [done|]. rewrite fmap_None in H.
  assert (E : filter (fun kv => m_RandomID kv.2 = r) (msgs b) = ∅).
  { apply map_to_list_empty_iff. by destruct (map_to_list _). }
  by destruct (map_filter_empty_not_lookup _ _ l m E Er).
Qed.

Lemma seqZ_snoc pts : 0 <= pts -> seqZ 1 (pts + 1) = seqZ 1 pts ++ [pts + 1].
Proof.
  intros H. rewrite (seqZ_app 1 pts 1) by lia. f_equal. change (seqZ (1 + pts) 1) with [1 + pts]. f_equal. lia.
Qed.

(** Replacing a copy by one with the same identity, with an event of it. *)
Lemma box_ok_touch owner b pts next l m m' ty :
  box_ok owner b -> counters b = Some (pts, next) -> msgs b !! l = Some m ->
  OwnerID m' = OwnerID m -> LocalID m' = LocalID m -> m_RandomID m' = m_RandomID m ->
  dialog_key (m_PeerType m') (PeerID m') = dialog_key (m_PeerType m) (PeerID m) ->
  ty = EventEdit /\ Deleted m' = Deleted m \/ ty = EventDelete /\ Deleted m = false /\ Deleted m' = true ->
  box_ok owner (mkBox (Some (pts + 1, next)) (<[l := m']> (msgs b)) (log b ++ [mkEvent (pts + 1) ty l]) (dialogs b)).
Proof.
  intros B Hc Hm E1 E2 E3 E4 Ht. destruct (bo_counters _ _ B _ _ Hc) as [Hp Hn].
  assert (Hdom : forall i, is_Some (<[l := m']> (msgs b) !! i) <-> is_Some (msgs b !! i)).
  { intros i. destruct (decide (i = l)) as [->|]; [rewrite lookup_insert_eq, Hm; by split; eexists|].
    by rewrite lookup_insert_ne. }
  assert (Hsame : forall i x, <[l := m']> (msgs b) !! i = Some x -> exists y, msgs b !! i = Some y /\
            OwnerID x = OwnerID y /\ LocalID x = LocalID y /\ m_RandomID x = m_RandomID y /\
            dialog_key (m_PeerType x) (PeerID x) = dialog_key (m_PeerType y) (PeerID y)).
  { intros i x H. apply lookup_insert_Some in H as [[<- <-]|[_ H]]; [by exists m|by exists x]. }
  constructor; simpl.
  - intros p n [= <- <-]. lia.
  - done.
  - intros p n [= <- <-]. by rewrite map_app, (bo_log _ _ B _ _ Hc), seqZ_snoc.
  - intros p n i [= <- <-]. rewrite Hdom. by apply (bo_ids _ _ B _ _ _ Hc).
  - intros i x H. destruct (Hsame i x H) as (y & Hy & F1 & F2 & _). destruct (bo_msgs _ _ B i y Hy) as (G1 & G2 & G3 & G4).
    rewrite !ev_count_app, F1, F2, G3. simpl.
    split_and!; [done|done| |].
    + rewrite bool_decide_false by (destruct Ht as [[-> _]|[-> _]]; done). simpl. lia.
    + rewrite G4. apply lookup_insert_Some in H as [[<- <-]|[Hne Hx]].
      * rewrite Hm in Hy. injection Hy as <-. rewrite Z.eqb_refl, andb_true_r.
        destruct Ht as [[-> ->]|(-> & -> & ->)]; [rewrite bool_decide_false by done; lia|done].
      * rewrite (proj2 (Z.eqb_neq l i) Hne), andb_false_r.
        rewrite Hx in Hy. injection Hy as ->. lia.
  - intros e [He|He]%elem_of_app Hn'; apply Hdom; [by apply (bo_events _ _ B)|].
    apply list_elem_of_singleton in He as ->. simpl. by eexists.
  - intros i x j y Hi Hj. destruct (Hsame i x Hi) as (x' & Hx' & _ & _ & -> & _).
    destruct (Hsame j y Hj) as (y' & Hy' & _ & _ & -> & _). by apply (bo_tokens _ _ B).
  - intros i x Hi. destruct (Hsame i x Hi) as (x' & Hx' & _ & _ & _ & ->). by apply (bo_dialogs _ _ B).
  - intros k d Hd. destruct (bo_tops _ _ B k d Hd) as (x & Hx & Hk).
    destruct (decide (TopMessage d = l)) as [E|].
    + rewrite E in *. exists m'. rewrite lookup_insert_eq. split; [done|]. rewrite Hm in Hx. injection Hx as <-. congruence.
    + exists x. by rewrite lookup_insert_ne.
Qed.

Lemma box_ok_copy owner b pts next m unread :
  box_ok owner b -> counters b = Some (pts, next) -> OwnerID m = owner -> LocalID m = next -> Deleted m = false ->
  MessageByRandomID (m_RandomID m) b = None ->
  box_ok owner
    (UpsertDialog (dialog_key (m_PeerType m) (PeerID m)) next unread
       (mkBox (Some (pts + 1, next + 1)) (<[next := m]> (msgs b)) (log b ++ [mkEvent (pts + 1) EventNewMessage next])
          (dialogs b))).
Proof.
  intros B Hc Ho Hl Hd Hr. destruct (bo_counters _ _ B _ _ Hc) as [Hp Hn].
  assert (Hids := fun l => bo_ids _ _ B pts next l Hc).
  assert (Hfree : msgs b !! next = None).
  { destruct (msgs b !! next) eqn:E; [|done]. assert (H : is_Some (msgs b !! next)) by (by eexists). apply Hids in H. lia. }
  assert (Hold : forall i x, msgs b !! i = Some x -> 1 <= i < next) by (intros i x Hx; apply Hids; by eexists).
  set (k := dialog_key (m_PeerType m) (PeerID m)).
  constructor; simpl.
  - intros p n [= <- <-]. lia.
  - done.
  - intros p n [= <- <-]. by rewrite map_app, (bo_log _ _ B _ _ Hc), seqZ_snoc.
  - intros p n i [= <- <-]. destruct (decide (i = next)) as [->|Hi].
    + rewrite lookup_insert_eq. split; [lia|by eexists].
    + rewrite lookup_insert_ne by done. rewrite Hids. lia.
  - intros i x H. rewrite !ev_count_app. simpl. apply lookup_insert_Some in H as [[<- <-]|[Hne H]].
    + rewrite !(no_events _ _ _ _ B Hfree) by (unfold names_message; auto). rewrite Z.eqb_refl, Hd. by split_and!.
    + destruct (bo_msgs _ _ B i x H) as (? & ? & -> & ->). rewrite (proj2 (Z.eqb_neq next i) Hne).
      split_and!; [done|done|lia|lia].
  - intros e [He|He]%elem_of_app Hty.
    + destruct (bo_events _ _ B e He Hty) as [x Hx]. exists x. rewrite lookup_insert_ne; [done|].
      intros E'. by rewrite E', Hx in Hfree.
    + apply list_elem_of_singleton in He as ->. simpl. rewrite lookup_insert_eq. by eexists.
  - intros i x j y Hi Hj E Hne. apply lookup_insert_Some in Hi as [[<- <-]|[? Hi]];
      apply lookup_insert_Some in Hj as [[<- <-]|[? Hj]]; [done| | |by eapply (bo_tokens _ _ B)].
    + destruct Hne. exact (token_fresh _ _ _ _ Hr Hj (eq_sym E)).
    + destruct Hne. rewrite E. exact (token_fresh _ _ _ _ Hr Hi E).
  - intros i x Hi. apply lookup_insert_Some in Hi as [[<- <-]|[_ Hi]].
    + eexists. fold k. rewrite lookup_insert_eq. split; [done|]. by destruct (dialogs b !! k).
    + destruct (bo_dialogs _ _ B i x Hi) as (d & Hdl & Htop). specialize (Hold i x Hi).
      destruct (decide (dialog_key (m_PeerType x) (PeerID x) = k)) as [E|].
      * rewrite E in *. eexists. rewrite lookup_insert_eq. split; [done|]. rewrite Hdl. simpl. lia.
      * exists d. by rewrite lookup_insert_ne.
  - intros k' d Hk. apply lookup_insert_Some in Hk as [[<- <-]|[Hne Hk]].
    + exists m. replace (TopMessage _) with next by (by destruct (dialogs b !! k)). by rewrite lookup_insert_eq.
    + destruct (bo_tops _ _ B k' d Hk) as (x & Hx & E). exists x. rewrite lookup_insert_ne; [done|].
      intros E'. by rewrite E', Hx in Hfree.
Qed.

(** Moving a dialog's markers and leaving its top. *)
Lemma box_ok_markers owner b k d d' :
  box_ok owner b -> dialogs b !! k = Some d -> TopMessage d' = TopMessage d ->
  box_ok owner (mkBox (counters b) (msgs b) (log b) (<[k := d']> (dialogs b))).
Proof.
  intros B Hd Ht. constructor; simpl; try apply B.
  - intros Hc. destruct (bo_none _ _ B Hc) as (_ & _ & E). by rewrite E in Hd.
  - intros l m Hm. destruct (bo_dialogs _ _ B l m Hm) as (x & Hx & Hl).
    destruct (decide (dialog_key (m_PeerType m) (PeerID m) = k)) as [E|].
    + rewrite E in *. exists d'. rewrite lookup_insert_eq. split; [done|]. rewrite Hd in Hx. injection Hx as <-. lia.
    + exists x. by rewrite lookup_insert_ne.
  - intros k' x Hx. apply lookup_insert_Some in Hx as [[<- <-]|[_ Hx]]; [|by apply (bo_tops _ _ B)].
    rewrite Ht. by apply (bo_tops _ _ B).
Qed.

Lemma box_step_ok owner b b' : box_ok owner b -> box_step owner b b' -> box_ok owner b'.
Proof.
  intros B H. destruct H as [b|b pts next m unread|b pts next l m text now|b pts next l m|b pts next ty id Hc Ht
                            |b t peer maxID inbox b' Ha|b t peer maxID].
  - unfold q_EnsureUpdateState. destruct (counters b) eqn:Hc; [done|]. destruct (bo_none _ _ B Hc) as (E1 & E2 & E3).
    constructor; simpl; rewrite ?E1, ?E2, ?E3; try done.
    + intros p n [= <- <-]. lia.
    + by intros p n [= <- <-].
    + intros p n l [= <- <-]. split; [intros [? ?]; done|lia].
    + intros e He. by apply elem_of_nil in He.
  - by apply box_ok_copy.
  - eapply box_ok_touch; try done. by left.
  - eapply box_ok_touch; try done. by right.
  - destruct (bo_counters _ _ B _ _ Hc) as [Hp Hn].
    assert (Hno : forall i e, names_message e -> ev_count e i (log b ++ [mkEvent (pts + 1) ty id]) = ev_count e i (log b)).
    { intros i e He. rewrite ev_count_app. simpl. rewrite bool_decide_false; [simpl; lia|].
      intros ->. destruct He as [->|[->| ->]], Ht; done. }
    constructor; simpl; try apply B.
    + intros p n [= <- <-]. lia.
    + done.
    + intros p n [= <- <-]. by rewrite map_app, (bo_log _ _ B _ _ Hc), seqZ_snoc.
    + intros p n l [= <- <-]. by apply (bo_ids _ _ B _ _ _ Hc).
    + intros l m Hm. rewrite !Hno by (unfold names_message; auto). by apply (bo_msgs _ _ B).
    + intros e [He|He]%elem_of_app Hty; [by apply (bo_events _ _ B)|].
      apply list_elem_of_singleton in He as ->. simpl in Hty. destruct Hty as [->|[->| ->]], Ht; done.
  - unfold AdvanceReadInbox in Ha. destruct (dialogs b !! dialog_key t peer) as [d|] eqn:Hd; [|done].
    injection Ha as _ <-. by eapply box_ok_markers.
  - unfold AdvanceReadOutbox. destruct (dialogs b !! dialog_key t peer) as [d|] eqn:Hd; [|done].
    by eapply box_ok_markers.
Qed.

Lemma box_steps_ok owner b b' : box_ok owner b -> rtc (box_step owner) b b' -> box_ok owner b'.
Proof. intros B H. induction H as [|b b1 b2 H _ IH]; [done|]. apply IH. by eapply box_step_ok. Qed.

Lemma seqZ_log_ok l m n :
  map ev_Pts l = seqZ m n -> StronglySorted (fun a b => ev_Pts a < ev_Pts b) l /\ Forall (fun ev => m <= ev_Pts ev) l.
Proof.
  revert m n. induction l as [|e l IH]; intros m n H; [split; constructor|].
  destruct (decide (0 < n)) as [Hn|]; [|by rewrite seqZ_nil in H by lia].
  rewrite seqZ_cons in H by lia. simpl in H. injection H as He Hl. destruct (IH _ _ Hl) as [Hs Hf].
  split; constructor; [done| |lia|]; (eapply Forall_impl; [exact Hf|]; simpl; intros; lia).
Qed.

(** The log of a mailbox is one the delivery path accepts. *)
Lemma box_log_ok owner b : box_ok owner b -> log_ok (log b).
Proof.
  intros B. destruct (counters b) as [[pts next]|] eqn:Hc.
  - destruct (seqZ_log_ok _ _ _ (bo_log _ _ B _ _ Hc)) as [Hs Hf]. split; [done|].
    eapply Forall_impl; [exact Hf|]. simpl. intros; lia.
  - destruct (bo_none _ _ B Hc) as (_ & -> & _). split; constructor.
Qed.
