(* ===== verification/MsgStore.v ===== *)
(** * Transactions over mailboxes

    [internal/store/messages.go], [fanout.go], [dialogs.go] and [chats.go]: sending,
    editing, deleting, forwarding and reading messages, and the member sets of basic chats.
    A transaction runs on the tables below in the monad [tx]; an error rolls it back, except
    for the sequences it drew from.

    The owners whose advisory locks a transaction holds, and the chat rows it has locked, are
    part of its state, and [stray] collects every mailbox it writes without holding its lock:
    the transactions are proved to leave it empty, which is what makes running one as a single
    step faithful, since two that touch the same mailbox hold a common lock until they
    commit. *)

From S2P Require Import Prelude.
From S2P Require Import NetAddr.
From S2P Require Import Limits.
From S2P Require Import PeerHash.
From S2P Require Import UpdateBatch.
From S2P Require Import Mailbox.
From Stdlib Require Import String.

Open Scope Z_scope.

(** ** Tables *)

Record Chat : Type := mkChat {
  Title : string;
  CreatorID : Z;
  Version : Z;
  PinnedMessageID : option Z;
  DefaultBannedRights : list string
}.

Record db : Type := mkDb {
  boxes : gmap Z box;
  chats : gmap Z Chat;
  chat_participants : gmap Z (list Z);
  message_fanout_seq : Z;
  chats_id_seq : Z;
  files : gmap Z (option (list string));
  blocks : gset (Z * Z)
}.

Definition box_of (d : db) (u : Z) : box := default empty_box (boxes d !! u).
Definition members_of (d : db) (chat : Z) : list Z := default [] (chat_participants d !! chat).

Definition set_box (u : Z) (b : box) (d : db) : db :=
  mkDb (<[u := b]> (boxes d)) (chats d) (chat_participants d) (message_fanout_seq d) (chats_id_seq d) (files d) (blocks d).

Definition set_chat (c : Z) (x : Chat) (d : db) : db :=
  mkDb (boxes d) (<[c := x]> (chats d)) (chat_participants d) (message_fanout_seq d) (chats_id_seq d) (files d) (blocks d).

Definition set_members (c : Z) (l : list Z) (d : db) : db :=
  mkDb (boxes d) (chats d) (<[c := l]> (chat_participants d)) (message_fanout_seq d) (chats_id_seq d) (files d) (blocks d).

Definition set_seqs (fanout chat : Z) (d : db) : db :=
  mkDb (boxes d) (chats d) (chat_participants d) fanout chat (files d) (blocks d).

(** ** The transaction monad *)

Inductive tx_error : Type :=
| ErrMessageInvalid
| ErrNotMember
| ErrChatFull
| ErrFileMissing
| ErrChatWriteForbidden
| ErrPtsUnknown
| ErrInviteInvalid
| ErrChannelFull
| ErrTooManyChannels
| ErrUsernameOccupied
| ErrUsernameFloodWait
| ErrUsernameIsLoginCredential
| SlowModeWaitError (seconds : Z)
| ErrStore.

Record txs : Type := mkTx { t_db : db; t_owners : list Z; t_chats : list Z; stray : list Z }.

Definition tx (A : Type) : Type := txs -> result tx_error A * txs.

#[global] Instance tx_ret : MRet tx := fun A x s => (Ok x, s).

#[global] Instance tx_bind : MBind tx := fun A B f m s =>
  match m s with
  | (Ok x, s') => f x s'
  | (Err e, s') => (Err e, s')
  end.

Definition tfail {A} (e : tx_error) : tx A := fun s => (Err e, s).

Definition require (b : bool) (e : tx_error) : tx unit := if b then mret tt else tfail e.

Definition ask {A} (f : db -> A) : tx A := fun s => (Ok (f (t_db s)), s).

(** A statement on the rows of [u]. *)
Definition on_box {A} (u : Z) (f : box -> option (A * box)) : tx A := fun s =>
  match f (box_of (t_db s) u) with
  | Some (x, b) =>
      (Ok x, mkTx (set_box u b (t_db s)) (t_owners s) (t_chats s)
               (if bool_decide (u ∈ t_owners s) then stray s else u :: stray s))
  | None => (Err ErrStore, s)
  end.

Definition put {A} (u : Z) (f : box -> option box) (x : A) : tx A :=
  on_box u (fun b => (fun b' => (x, b')) <$> f b).

(** A read of the rows of [u]. *)
Definition look {A} (u : Z) (f : box -> A) : tx A := ask (fun d => f (box_of d u)).

Definition run_tx {A} (m : tx A) (d : db) : result tx_error A * db :=
  match m (mkTx d [] [] []) with
  | (Ok x, s) => (Ok x, t_db s)
  | (Err e, s) => (Err e, set_seqs (message_fanout_seq (t_db s)) (chats_id_seq (t_db s)) d)
  end.

(** The deferred rollback of a transaction that answers without committing; [d] is the
    database at its start. *)
Definition roll_back (d : db) : tx unit := fun s =>
  (Ok tt, mkTx (set_seqs (message_fanout_seq (t_db s)) (chats_id_seq (t_db s)) d) (t_owners s) (t_chats s) (stray s)).

(** ** Locks *)

(** [slices.Compact] on a sorted list. *)
Fixpoint compact_ids (l : list Z) : list Z :=
  match l with
  | x :: ((y :: _) as l') => if x =? y then compact_ids l' else x :: compact_ids l'
  | _ => l
  end.

Definition ascendingUnique (ids : list Z) : list Z := compact_ids (merge_sort Z.le ids).

Definition lockOwners (ids : list Z) : tx unit := fun s =>
  (Ok tt, mkTx (t_db s) (t_owners s ++ ascendingUnique ids) (t_chats s) (stray s)).

(** Every file referenced must still have its row. *)
Definition lockFileRefs (ids : list Z) : tx unit :=
  let live := List.filter (fun id => negb (id =? 0)) ids in
  missing ← ask (fun d => existsb (fun id => bool_decide (files d !! id = None)) (ascendingUnique live));
  require (negb missing) ErrFileMissing.

Definition ChatByIDForUpdate (chat : Z) : tx Chat := fun s =>
  match chats (t_db s) !! chat with
  | Some c => (Ok c, mkTx (t_db s) (t_owners s) (chat :: t_chats s) (stray s))
  | None => (Err ErrNotMember, s)
  end.

Definition IsChatMember (chat user : Z) (d : db) : bool := bool_decide (user ∈ members_of d chat).

(** ** Statements across mailboxes *)

Definition NextFanoutID : tx Z := fun s =>
  let d := t_db s in
  let n := message_fanout_seq d + 1 in
  (Ok n, mkTx (set_seqs n (chats_id_seq d) d) (t_owners s) (t_chats s) (stray s)).

Definition owner_le (a b : Message) : Prop := OwnerID a <= OwnerID b.

#[global] Instance owner_le_dec a b : Decision (owner_le a b).
Proof. unfold owner_le. apply _. Defined.

Definition all_messages (d : db) : list Message :=
  flat_map (fun kv => (map_to_list (msgs kv.2)).*2) (map_to_list (boxes d)).

Definition MessagesByFanout (fanout : Z) (d : db) : list Message :=
  if fanout =? 0 then []
  else merge_sort owner_le (List.filter (fun m => FanoutID m =? fanout) (all_messages d)).

Definition MessageByOwnerLocal (owner local : Z) : tx (option Message) := look owner (fun b => msgs b !! local).

(** [newMessagePts], [ptsFor] and [GetState]. *)
Definition newMessagePts (owner local : Z) : tx Z :=
  p ← look owner (NewMessagePts local);
  match p with Some pts => mret pts | None => tfail ErrPtsUnknown end.

Definition statePts (owner : Z) : tx Z :=
  c ← look owner counters;
  match c with Some (pts, _) => mret pts | None => tfail ErrStore end.

(** One pts with its event, for an edit, a delete or a read. *)
Definition bump_event (owner : Z) (ty : EventType) (local : Z) : tx Z :=
  pts ← on_box owner BumpPtsOnly;
  put owner (InsertEvent (mkEvent pts ty local)) pts.

(** ** Sending to a user *)

Definition reply_to (id : Z) : option Z := if id >? 0 then Some (wrap_s32 id) else None.

(** A row as [InsertMessage] writes it: not deleted, never edited. *)
Definition row (owner local : Z) (t : PeerType) (peer from now : Z) (text : string) (out : bool) (randomID peerLocal
    fanout file action actionUser : Z) (reply : option Z) (fwd : option forward) : Message :=
  mkMsg owner local t peer from now text out None false randomID peerLocal fanout file action actionUser reply fwd.

Definition reload (owner local : Z) : tx Message :=
  m ← MessageByOwnerLocal owner local;
  match m with Some m => mret m | None => tfail ErrStore end.

Definition mirrorPts (existing : Message) (toID : Z) : tx Z :=
  let user := bool_decide (m_PeerType existing = PeerTypeUser) in
  if user && (OwnerID existing =? toID) && (PeerID existing =? toID) then
    newMessagePts (OwnerID existing) (LocalID existing)
  else if negb user || negb (PeerID existing =? toID) || (PeerLocalID existing =? 0) then statePts toID
  else newMessagePts toID (PeerLocalID existing).

Definition send_self (now fromID : Z) (text : string) (randomID fileID replyToMsgID : Z) : tx (Message * Z * Z * bool) :=
  '(pts, local) ← on_box fromID BumpState;
  put fromID (InsertMessage (row fromID local PeerTypeUser fromID fromID now text true randomID 0 0 fileID 0 0
                              (reply_to replyToMsgID) None)) tt;;
  put fromID (InsertEvent (mkEvent pts EventNewMessage local)) tt;;
  put fromID (fun b => Some (UpsertDialog (dialog_key PeerTypeUser fromID) local 0 b)) tt;;
  stored ← reload fromID local;
  mret (stored, pts, pts, false).

Definition send_pair (now fromID toID : Z) (text : string) (randomID fileID replyToMsgID : Z)
    : tx (Message * Z * Z * bool) :=
  '(sPts, sLocal) ← on_box fromID BumpState;
  '(rPts, rLocal) ← on_box toID BumpState;
  put fromID (InsertMessage (row fromID sLocal PeerTypeUser toID fromID now text true randomID rLocal 0 fileID 0 0
                              (reply_to replyToMsgID) None)) tt;;
  ref ← (if replyToMsgID >? 0 then MessageByOwnerLocal fromID replyToMsgID else mret None);
  let recipientReplyTo := (fun r => wrap_s32 (PeerLocalID r)) <$> ref in
  put toID (InsertMessage (row toID rLocal PeerTypeUser fromID fromID now text false 0 sLocal 0 fileID 0 0
                            recipientReplyTo None)) tt;;
  put fromID (InsertEvent (mkEvent sPts EventNewMessage sLocal)) tt;;
  put toID (InsertEvent (mkEvent rPts EventNewMessage rLocal)) tt;;
  put fromID (fun b => Some (UpsertDialog (dialog_key PeerTypeUser toID) sLocal 0 b)) tt;;
  put toID (fun b => Some (UpsertDialog (dialog_key PeerTypeUser fromID) rLocal 1 b)) tt;;
  stored ← reload fromID sLocal;
  mret (stored, sPts, rPts, false).

Definition SendMessage (now fromID toID : Z) (text : string) (randomID fileID replyToMsgID : Z)
    : tx (Message * Z * Z * bool) :=
  start ← ask (fun d => d);
  lockOwners [fromID; toID];;
  lockFileRefs [fileID];;
  put fromID (fun b => Some (q_EnsureUpdateState b)) tt;;
  put toID (fun b => Some (q_EnsureUpdateState b)) tt;;
  existing ← look fromID (MessageByRandomID randomID);
  match existing with
  | Some m =>
      sPts ← newMessagePts fromID (LocalID m);
      rPts ← mirrorPts m toID;
      roll_back start;;
      mret (m, sPts, rPts, true)
  | None =>
      if fromID =? toID then send_self now fromID text randomID fileID replyToMsgID
      else send_pair now fromID toID text randomID fileID replyToMsgID
  end.

(** ** Sending to a chat *)

Definition maxChatParticipants : Z := 200.

Definition ChatActionNone : Z := 0.
Definition ChatActionCreate : Z := 1.
Definition ChatActionAddUser : Z := 2.
Definition ChatActionDeleteUser : Z := 3.
Definition ChatActionEditTitle : Z := 4.

Record FanOut : Type := mkFanOut {
  f_ChatID : Z;
  f_FromID : Z;
  f_Text : string;
  f_Action : Z;
  f_ActionUserID : Z;
  f_RandomID : Z;
  f_FileID : Z;
  f_MediaRights : option (list string);
  f_ReplyToMsgID : Z;
  f_Extra : list Z;
  f_Fwd : option forward
}.

Definition chatMediaSubtypeRights : list string :=
  ["send_stickers"; "send_gifs"; "send_videos"; "send_roundvideos"; "send_audios"; "send_voices"]%string.

Definition hasChatRight (rights : list string) (right : string) : bool := existsb (String.eqb right) rights.

Definition write_forbidden (rights : list string) (exempt media : bool) (mediaRights : option (list string)) : bool :=
  if exempt then false
  else if hasChatRight rights "send_messages" then true
  else if media then
    hasChatRight rights "send_media" || hasChatRight rights "send_docs" ||
    existsb (hasChatRight rights) (match mediaRights with None => chatMediaSubtypeRights | Some l => l end)
  else hasChatRight rights "send_plain".

Definition checkDefaultMessageRestriction (rights : list string) (exempt media : bool) (mediaRights : option (list string))
    : tx unit :=
  require (negb (write_forbidden rights exempt media mediaRights)) ErrChatWriteForbidden.

(** The owners a fan-out writes to: the members, and the extra ones not among them. *)
Definition add_extra (owners : list Z) (id : Z) : list Z :=
  if (id =? 0) || bool_decide (id ∈ owners) then owners else owners ++ [id].

Definition fanout_owners (members extra : list Z) : list Z := foldl add_extra members extra.

(** [ptsFor]. *)
Fixpoint ptsFor (owners : list Z) : tx (gmap Z Z) :=
  match owners with
  | [] => mret ∅
  | u :: rest =>
      pts ← statePts u;
      m ← ptsFor rest;
      mret (<[u := pts]> m)
  end.

Fixpoint copies_pts (copies : list Message) : tx (gmap Z Z) :=
  match copies with
  | [] => mret ∅
  | c :: rest =>
      pts ← newMessagePts (OwnerID c) (LocalID c);
      m ← copies_pts rest;
      mret (<[OwnerID c := pts]> m)
  end.

Definition fanoutPts (existing : Message) (owners : list Z) : tx (gmap Z Z) :=
  if FanoutID existing =? 0 then ptsFor owners
  else
    copies ← ask (MessagesByFanout (FanoutID existing));
    copies_pts copies.

(** One owner's copy: its row, its event, its dialog.  The pts and the local id of it. *)
Definition deliver_copy (now fanoutID owner : Z) (f : FanOut) : tx (Z * Z) :=
  put owner (fun b => Some (q_EnsureUpdateState b)) tt;;
  '(pts, local) ← on_box owner BumpState;
  let out := owner =? f_FromID f in
  put owner (InsertMessage (row owner local PeerTypeChat (f_ChatID f) (f_FromID f) now (f_Text f) out
                              (if out then f_RandomID f else 0) 0 fanoutID (f_FileID f) (f_Action f) (f_ActionUserID f)
                              (reply_to (f_ReplyToMsgID f)) (f_Fwd f))) tt;;
  put owner (InsertEvent (mkEvent pts EventNewMessage local)) tt;;
  put owner (fun b => Some (UpsertDialog (dialog_key PeerTypeChat (f_ChatID f)) local (if out then 0 else 1) b)) tt;;
  mret (pts, local).

(** Every owner's copy; the pts of each, and the local id of the sender's. *)
Fixpoint deliver_copies (now fanoutID : Z) (f : FanOut) (owners : list Z) : tx (gmap Z Z * Z) :=
  match owners with
  | [] => mret (∅, 0)
  | u :: rest =>
      '(pts, local) ← deliver_copy now fanoutID u f;
      '(m, senderLocal) ← deliver_copies now fanoutID f rest;
      mret (<[u := pts]> m, if u =? f_FromID f then local else senderLocal)
  end.

(** The early reject, outside every lock: it decides nothing. *)
Definition fanOut_early (f : FanOut) (d : db) : option tx_error :=
  if (f_ChatID f =? 0) || (f_FromID f =? 0) then Some ErrMessageInvalid
  else if (f_Action f =? ChatActionNone) && negb (IsChatMember (f_ChatID f) (f_FromID f) d) then Some ErrNotMember
  else None.

(** From the chat row lock to the last copy.  The sender's copy is absent when the sender
    is not among the owners. *)
Definition fanOut_locked (now : Z) (f : FanOut) : tx (option Message * gmap Z Z * bool) :=
  chat ← ChatByIDForUpdate (f_ChatID f);
  members ← ask (fun d => members_of d (f_ChatID f));
  let text := f_Action f =? ChatActionNone in
  require (negb (text && negb (bool_decide (f_FromID f ∈ members)))) ErrNotMember;;
  let owners := fanout_owners members (f_Extra f) in
  require (negb (len owners =? 0)) ErrNotMember;;
  require (negb (len owners >? maxChatParticipants)) ErrChatFull;;
  lockOwners owners;;
  lockFileRefs [f_FileID f];;
  existing ← look (f_FromID f) (MessageByRandomID (f_RandomID f));
  match existing with
  | Some m =>
      pts ← fanoutPts m owners;
      mret (Some m, pts, true)
  | None =>
      (if text then checkDefaultMessageRestriction (DefaultBannedRights chat) (f_FromID f =? CreatorID chat)
                      (negb (f_FileID f =? 0)) (f_MediaRights f)
       else mret tt);;
      fanoutID ← NextFanoutID;
      '(perOwner, senderLocal) ← deliver_copies now fanoutID f owners;
      sender ← (if senderLocal =? 0 then mret None
                else (m ← reload (f_FromID f) senderLocal; mret (Some m)));
      mret (sender, perOwner, false)
  end.

Definition fanOut (now : Z) (f : FanOut) : tx (option Message * gmap Z Z * bool) :=
  early ← ask (fanOut_early f);
  match early with
  | Some e => tfail e
  | None => fanOut_locked now f
  end.

(** ** Editing *)

(** The copies of a chat message; a row of a chat without a fan-out has none to walk. *)
Definition chatCopies (pre : Message) (d : db) : option (list Message) :=
  if FanoutID pre =? 0 then None
  else match MessagesByFanout (FanoutID pre) d with [] => None | l => Some l end.

Inductive edit_plan : Type :=
| EditPair (peer : Z)
| EditFan (pre : Message) (copies : list Message).

(** What is read before the locks: whom to lock.  It is all immutable once written. *)
Definition edit_read (ownerID localID : Z) (d : db) : result tx_error edit_plan :=
  match msgs (box_of d ownerID) !! localID with
  | None => Err ErrMessageInvalid
  | Some pre =>
      if bool_decide (m_PeerType pre = PeerTypeChat) then
        match chatCopies pre d with
        | None => Err ErrMessageInvalid
        | Some copies => if negb (Action pre =? 0) then Err ErrMessageInvalid else Ok (EditFan pre copies)
        end
      else Ok (EditPair (PeerID pre))
  end.

(** The caller's own live outgoing message, read again under the locks. *)
Definition own_outgoing (ownerID localID : Z) : tx Message :=
  m ← MessageByOwnerLocal ownerID localID;
  match m with
  | None => tfail ErrMessageInvalid
  | Some m => require (Out m && negb (Deleted m)) ErrMessageInvalid;; mret m
  end.

Definition edit_pair (now ownerID localID peerID : Z) (text : string) : tx Z :=
  lockOwners [ownerID; peerID];;
  msg ← own_outgoing ownerID localID;
  put ownerID (fun b => Some (SetEditedText localID text now b)) tt;;
  (if ownerID =? peerID then mret tt
   else put peerID (fun b => Some (SetEditedText (PeerLocalID msg) text now b)) tt);;
  ownerPts ← bump_event ownerID EventEdit localID;
  if ownerID =? peerID then mret ownerPts
  else
    bump_event peerID EventEdit (PeerLocalID msg);;
    mret ownerPts.

(** The copies of current members; the author's new pts. *)
Fixpoint edit_copies (now author : Z) (text : string) (members : list Z) (copies : list Message) : tx Z :=
  match copies with
  | [] => mret 0
  | c :: rest =>
      if negb (bool_decide (OwnerID c ∈ members)) then edit_copies now author text members rest
      else
        put (OwnerID c) (fun b => Some (SetEditedText (LocalID c) text now b)) tt;;
        pts ← bump_event (OwnerID c) EventEdit (LocalID c);
        rest_pts ← edit_copies now author text members rest;
        mret (if OwnerID c =? author then pts else rest_pts)
  end.

Definition editChatMessage (now : Z) (pre : Message) (copies : list Message) (text : string) : tx Z :=
  lockOwners (map OwnerID copies);;
  own_outgoing (OwnerID pre) (LocalID pre);;
  members ← ask (fun d => members_of d (PeerID pre));
  require (bool_decide (OwnerID pre ∈ members)) ErrMessageInvalid;;
  edit_copies now (OwnerID pre) text members copies.

Definition EditMessage (now ownerID localID : Z) (text : string) (plan : edit_plan) : tx (Z * Z) :=
  match plan with
  | EditPair peer =>
      pts ← edit_pair now ownerID localID peer text;
      mret (peer, pts)
  | EditFan pre copies =>
      pts ← editChatMessage now pre copies text;
      mret (PeerID pre, pts)
  end.

(** ** Deleting *)

(** What a delete does with one message: clear the caller's own copy, walk the copies of a
    chat message, or the caller's and perhaps the peer's of a message between users. *)
Inductive target : Type :=
| OwnCopy (m : Message)
| WholeFan (m : Message) (copies : list Message)
| Pair (m : Message).

Definition target_of (ownerID : Z) (revoke : bool) (d : db) (m : Message) : result tx_error target :=
  if bool_decide (m_PeerType m = PeerTypeChat) then
    if negb (Action m =? 0) then Err ErrMessageInvalid
    else if negb revoke then Ok (OwnCopy m)
    else
      let may := Out m || match chats d !! PeerID m with Some c => CreatorID c =? ownerID | None => false end in
      if negb may then Err ErrMessageInvalid
      else match chatCopies m d with None => Err ErrMessageInvalid | Some copies => Ok (WholeFan m copies) end
  else Ok (Pair m).

Fixpoint delete_read (ownerID : Z) (localIDs : list Z) (revoke : bool) (d : db) : result tx_error (list target) :=
  match localIDs with
  | [] => Ok []
  | id :: rest =>
      match msgs (box_of d ownerID) !! id with
      | None => Err ErrMessageInvalid
      | Some m =>
          match target_of ownerID revoke d m with
          | Err e => Err e
          | Ok t => match delete_read ownerID rest revoke d with Err e => Err e | Ok l => Ok (t :: l) end
          end
      end
  end.

(** The owners a plan locks. *)
Definition target_owners (t : target) : list Z :=
  match t with
  | OwnCopy _ => []
  | WholeFan _ copies => map OwnerID copies
  | Pair m => [PeerID m]
  end.

(** One row deleted, with its pts and event; [None] when it was already gone. *)
Definition delete_row (owner local : Z) : tx (option Z) :=
  n ← on_box owner (fun b => Some (SetDeleted local b));
  if n =? 0 then mret None
  else
    pts ← bump_event owner EventDelete local;
    mret (Some pts).

(** The row the caller named must have been there. *)
Definition delete_named (owner local : Z) : tx Z :=
  p ← delete_row owner local;
  match p with None => tfail ErrMessageInvalid | Some pts => mret pts end.

Definition note_pts (owner : Z) (p : option Z) (perOwner : gmap Z Z) : gmap Z Z :=
  match p with Some pts => <[owner := pts]> perOwner | None => perOwner end.

Fixpoint delete_copies (members : list Z) (copies : list Message) (perOwner : gmap Z Z) : tx (gmap Z Z) :=
  match copies with
  | [] => mret perOwner
  | c :: rest =>
      if negb (bool_decide (OwnerID c ∈ members)) then delete_copies members rest perOwner
      else
        p ← delete_row (OwnerID c) (LocalID c);
        delete_copies members rest (note_pts (OwnerID c) p perOwner)
  end.

Definition delete_target (ownerID : Z) (revoke : bool) (t : target) (perOwner : gmap Z Z) : tx (gmap Z Z) :=
  match t with
  | OwnCopy m =>
      pts ← delete_named ownerID (LocalID m);
      mret (<[ownerID := pts]> perOwner)
  | WholeFan m copies =>
      members ← ask (fun d => members_of d (PeerID m));
      delete_copies members copies perOwner
  | Pair m =>
      pts ← delete_named ownerID (LocalID m);
      if negb revoke || (PeerID m =? ownerID) then mret (<[ownerID := pts]> perOwner)
      else
        p ← delete_row (PeerID m) (PeerLocalID m);
        mret (note_pts (PeerID m) p (<[ownerID := pts]> perOwner))
  end.

Fixpoint delete_targets (ownerID : Z) (revoke : bool) (ts : list target) (perOwner : gmap Z Z) : tx (gmap Z Z) :=
  match ts with
  | [] => mret perOwner
  | t :: rest =>
      m ← delete_target ownerID revoke t perOwner;
      delete_targets ownerID revoke rest m
  end.

(** The caller must be in every chat whose copies are walked. *)
Definition still_member (ownerID : Z) (d : db) (t : target) : bool :=
  match t with WholeFan m _ => IsChatMember (PeerID m) ownerID d | _ => true end.

Definition DeleteMessages (ownerID : Z) (revoke : bool) (ts : list target) : tx (gmap Z Z) :=
  match ts with
  | [] => mret ∅
  | _ =>
      lockOwners (ownerID :: flat_map target_owners ts);;
      allowed ← ask (fun d => forallb (still_member ownerID d) ts);
      require allowed ErrMessageInvalid;;
      delete_targets ownerID revoke ts ∅
  end.

(** ** Reading *)

Definition currentPts (a b : Z) : tx (Z * Z) :=
  x ← statePts a;
  y ← statePts b;
  mret (x, y).

Definition ReadHistory (ownerID peerID maxID : Z) : tx (Z * Z) :=
  lockOwners [ownerID; peerID];;
  inbox ← on_box ownerID (fun b => Some match AdvanceReadInbox PeerTypeUser ownerID peerID maxID b with
                                        | None => (None, b)
                                        | Some (i, b') => (Some i, b')
                                        end);
  match inbox with
  | None => currentPts ownerID peerID
  | Some i =>
      if ownerID =? peerID then
        pts ← bump_event ownerID EventReadIn i;
        mret (pts, pts)
      else
        peerMax ← look ownerID (peer_max_local peerID maxID);
        put peerID (fun b => Some (AdvanceReadOutbox PeerTypeUser ownerID peerMax b)) tt;;
        rPts ← bump_event ownerID EventReadIn i;
        pPts ← bump_event peerID EventReadOut peerMax;
        mret (rPts, pPts)
  end.

(** ** Forwarding *)

Record ForwardSource : Type := mkSource {
  s_FromID : Z; s_Date : Z; s_Text : string; s_Channel : option (Z * Z); s_FileID : Z
}.

Definition forward_of (s : ForwardSource) : option forward := Some (mkFwd (s_FromID s) (s_Date s) (s_Channel s)).

Definition forward_pair (now fromID dest : Z) (s : ForwardSource) (randomID : Z) (perOwner : gmap Z Z)
    : tx (gmap Z Z * (Message * Z)) :=
  '(sPts, sLocal) ← on_box fromID BumpState;
  '(rPts, rLocal) ← on_box dest BumpState;
  put fromID (InsertMessage (row fromID sLocal PeerTypeUser dest fromID now (s_Text s) true randomID rLocal 0 (s_FileID s)
                              0 0 None (forward_of s))) tt;;
  put dest (InsertMessage (row dest rLocal PeerTypeUser fromID fromID now (s_Text s) false 0 sLocal 0 (s_FileID s)
                            0 0 None (forward_of s))) tt;;
  put fromID (InsertEvent (mkEvent sPts EventNewMessage sLocal)) tt;;
  put dest (InsertEvent (mkEvent rPts EventNewMessage rLocal)) tt;;
  put fromID (fun b => Some (UpsertDialog (dialog_key PeerTypeUser dest) sLocal 0 b)) tt;;
  put dest (fun b => Some (UpsertDialog (dialog_key PeerTypeUser fromID) rLocal 1 b)) tt;;
  stored ← reload fromID sLocal;
  mret (<[dest := rPts]> (<[fromID := sPts]> perOwner), (stored, sPts)).

(** One member's copy of a forwarded message. *)
Definition forward_copy (now fanoutID fromID chat : Z) (s : ForwardSource) (randomID u : Z) : tx (Z * Z) :=
  '(pts, local) ← on_box u BumpState;
  let out := u =? fromID in
  put u (InsertMessage (row u local PeerTypeChat chat fromID now (s_Text s) out (if out then randomID else 0) 0 fanoutID
                          (s_FileID s) 0 0 None (forward_of s))) tt;;
  put u (InsertEvent (mkEvent pts EventNewMessage local)) tt;;
  put u (fun b => Some (UpsertDialog (dialog_key PeerTypeChat chat) local (if out then 0 else 1) b)) tt;;
  mret (pts, local).

(** Every member's; the sender's pts and local id, when among them.  The source ranges over
    a Go map, in no fixed order; each turn touches one mailbox, so the order is immaterial. *)
Fixpoint forward_copies (now fanoutID fromID chat : Z) (s : ForwardSource) (randomID : Z) (members : list Z)
    (perOwner : gmap Z Z) : tx (gmap Z Z * option (Z * Z)) :=
  match members with
  | [] => mret (perOwner, None)
  | u :: rest =>
      '(pts, local) ← forward_copy now fanoutID fromID chat s randomID u;
      '(m, sender) ← forward_copies now fanoutID fromID chat s randomID rest (<[u := pts]> perOwner);
      mret (m, if u =? fromID then Some (pts, local) else sender)
  end.

Definition forward_chat (now fromID chat : Z) (members : list Z) (s : ForwardSource) (randomID : Z) (perOwner : gmap Z Z)
    : tx (gmap Z Z * list (Message * Z)) :=
  fanoutID ← NextFanoutID;
  '(m, sender) ← forward_copies now fanoutID fromID chat s randomID members perOwner;
  match sender with
  | None => mret (m, [])
  | Some (pts, local) =>
      stored ← reload fromID local;
      mret (m, [(stored, pts)])
  end.

(** The destination, with what was read of a chat under its row lock. *)
Inductive destination : Type :=
| ToUser (u : Z)
| ToChat (id : Z) (chat : Chat) (members : list Z)
| ToNobody.

Definition dest_owners (fromID : Z) (dest : destination) : list Z :=
  match dest with ToUser u => [fromID; u] | ToChat _ _ members => fromID :: members | ToNobody => [fromID] end.

Definition dest_ensured (fromID : Z) (dest : destination) : list Z :=
  match dest with ToUser u => [fromID; u] | ToChat _ _ members => members | ToNobody => [] end.

Definition forward_one (now fromID : Z) (dest : destination) (s : ForwardSource) (randomID : Z) (perOwner : gmap Z Z)
    : tx (gmap Z Z * list (Message * Z)) :=
  existing ← look fromID (MessageByRandomID randomID);
  match existing with
  | Some m =>
      pts ← newMessagePts fromID (LocalID m);
      mret (perOwner, [(m, pts)])
  | None =>
      match dest with
      | ToUser u =>
          '(m, sent) ← forward_pair now fromID u s randomID perOwner;
          mret (m, [sent])
      | ToChat id chat members =>
          rights ← ask (fun d => default None (files d !! s_FileID s));
          checkDefaultMessageRestriction (DefaultBannedRights chat) (fromID =? CreatorID chat) (negb (s_FileID s =? 0)) rights;;
          forward_chat now fromID id members s randomID perOwner
      | ToNobody => NextFanoutID;; mret (perOwner, [])
      end
  end.

Fixpoint forward_all (now fromID : Z) (dest : destination) (l : list (ForwardSource * Z)) (perOwner : gmap Z Z)
    : tx (gmap Z Z * list (Message * Z)) :=
  match l with
  | [] => mret (perOwner, [])
  | (s, randomID) :: rest =>
      '(m, sent) ← forward_one now fromID dest s randomID perOwner;
      '(m', sent') ← forward_all now fromID dest rest m;
      mret (m', sent ++ sent')
  end.

Fixpoint ensure_all (owners : list Z) : tx unit :=
  match owners with
  | [] => mret tt
  | u :: rest => put u (fun b => Some (q_EnsureUpdateState b)) tt;; ensure_all rest
  end.

Definition ForwardMessages (now fromID : Z) (destType : PeerType) (destID : Z) (sources : list ForwardSource)
    (randomIDs : list Z) : tx (gmap Z Z * list (Message * Z)) :=
  if (len sources =? 0) || negb (len randomIDs =? len sources) then tfail ErrMessageInvalid
  else if bool_decide (destType = PeerTypeUser) && (destID =? fromID) then tfail ErrMessageInvalid
  else
    dest ← (match destType with
            | PeerTypeUser => mret (ToUser destID)
            | PeerTypeChat =>
                chat ← ChatByIDForUpdate destID;
                members ← ask (fun d => members_of d destID);
                require (bool_decide (fromID ∈ members)) ErrNotMember;;
                mret (ToChat destID chat members)
            | PeerTypeChannel => mret ToNobody
            end);
    lockOwners (dest_owners fromID dest);;
    lockFileRefs (map s_FileID sources);;
    ensure_all (dest_ensured fromID dest);;
    forward_all now fromID dest (zip sources randomIDs) ∅.

(** ** Chats and their members *)

Definition IsBlocked (blocker blocked : Z) (d : db) : bool := bool_decide ((blocker, blocked) ∈ blocks d).

(** The members asked for: the creator first, then each id once. *)
Fixpoint dedup_members (seen : list Z) (ids : list Z) : list Z :=
  match ids with
  | [] => seen
  | id :: rest => dedup_members (if bool_decide (id ∈ seen) then seen else seen ++ [id]) rest
  end.

(** Rows of a chat are read in user order. *)
Definition insert_member (u : Z) (l : list Z) : list Z := ascendingUnique (u :: l).

Definition write_chat (id : Z) (c : Chat) : tx unit := fun s =>
  (Ok tt, mkTx (set_chat id c (t_db s)) (t_owners s) (t_chats s) (stray s)).

Definition write_members (id : Z) (l : list Z) : tx unit := fun s =>
  (Ok tt, mkTx (set_members id l (t_db s)) (t_owners s) (t_chats s) (stray s)).

Definition next_chat_id : tx Z := fun s =>
  let d := t_db s in
  let n := chats_id_seq d + 1 in
  (Ok n, mkTx (set_seqs (message_fanout_seq d) n d) (t_owners s) (t_chats s) (stray s)).

Definition CreateChat (creatorID : Z) (title : string) (memberIDs : list Z) : tx Z :=
  let members := dedup_members [creatorID] memberIDs in
  if len members >? maxChatParticipants then tfail ErrChatFull
  else
    kept ← ask (fun d => List.filter (fun id => (id =? creatorID) || negb (IsBlocked id creatorID d)) members);
    id ← next_chat_id;
    taken ← ask (fun d => bool_decide (is_Some (chats d !! id)));
    require (negb taken) ErrStore;;
    write_chat id (mkChat title creatorID 1 None []);;
    write_members id (ascendingUnique kept);;
    mret id.

Record chatMutation : Type := mkMutation { cm_chat : Chat; cm_members : list Z }.

(** The prelude of a membership change: the early reject, then the chat row and the member
    set under its lock, which decide. *)
Definition beginChatMutation (chatID callerID : Z) : tx chatMutation :=
  member ← ask (IsChatMember chatID callerID);
  require member ErrNotMember;;
  chat ← ChatByIDForUpdate chatID;
  members ← ask (fun d => members_of d chatID);
  require (bool_decide (callerID ∈ members)) ErrNotMember;;
  mret (mkMutation chat members).

Definition bump_version (c : Chat) : Chat :=
  mkChat (Title c) (CreatorID c) (Version c + 1) (PinnedMessageID c) (DefaultBannedRights c).

Definition announce (chatID from : Z) (text : string) (action user : Z) (extra : list Z) : FanOut :=
  mkFanOut chatID from text action user 0 0 None 0 extra None.

Definition AddChatUser (now chatID target callerID : Z) : tx (option (option Message * gmap Z Z)) :=
  m ← beginChatMutation chatID callerID;
  let present := bool_decide (target ∈ cm_members m) in
  require (present || (callerID =? CreatorID (cm_chat m)) ||
           negb (hasChatRight (DefaultBannedRights (cm_chat m)) "invite_users")) ErrChatWriteForbidden;;
  blocked ← ask (IsBlocked target callerID);
  require (present || negb blocked) ErrNotMember;;
  lockOwners (cm_members m ++ [target]);;
  require (present || (len (cm_members m) <? maxChatParticipants)) ErrChatFull;;
  if present then mret None
  else
    write_members chatID (insert_member target (cm_members m));;
    write_chat chatID (bump_version (cm_chat m));;
    '(sender, perOwner, _) ← fanOut now (announce chatID callerID EmptyString ChatActionAddUser target []);
    mret (Some (sender, perOwner)).

(** The only deletion of a member row: with the member's own lock. *)
Definition removeParticipant (chatID userID : Z) : tx bool :=
  lockOwners [userID];;
  members ← ask (fun d => members_of d chatID);
  if bool_decide (userID ∈ members) then
    write_members chatID (List.filter (fun u => negb (u =? userID)) members);;
    mret true
  else mret false.

Definition RemoveChatUser (now chatID target callerID : Z) : tx (option (option Message * gmap Z Z)) :=
  m ← beginChatMutation chatID callerID;
  let creator := CreatorID (cm_chat m) in
  require (negb ((target =? creator) || (negb (callerID =? creator) && negb (target =? callerID)))) ErrNotMember;;
  lockOwners (cm_members m ++ [target]);;
  removed ← removeParticipant chatID target;
  if negb removed then mret None
  else
    write_chat chatID (bump_version (cm_chat m));;
    '(sender, perOwner, _) ← fanOut now (announce chatID callerID EmptyString ChatActionDeleteUser target [target]);
    mret (Some (sender, perOwner)).

Definition SetChatTitle (now chatID callerID : Z) (title : string) : tx (option Message * gmap Z Z) :=
  m ← beginChatMutation chatID callerID;
  require (callerID =? CreatorID (cm_chat m)) ErrNotMember;;
  lockOwners (cm_members m);;
  let c := cm_chat m in
  write_chat chatID (mkChat title (CreatorID c) (Version c + 1) (PinnedMessageID c) (DefaultBannedRights c));;
  '(sender, perOwner, _) ← fanOut now (announce chatID callerID title ChatActionEditTitle 0 []);
  mret (sender, perOwner).

Definition str_le (a b : string) : Prop := String.leb a b = true.

#[global] Instance str_le_dec a b : Decision (str_le a b).
Proof. unfold str_le. apply _. Defined.

Fixpoint compact_strings (l : list string) : list string :=
  match l with
  | x :: ((y :: _) as l') => if String.eqb x y then compact_strings l' else x :: compact_strings l'
  | _ => l
  end.

Definition sameDefaultBannedRights (a b : list string) : bool :=
  bool_decide (compact_strings (merge_sort str_le a) = compact_strings (merge_sort str_le b)).

Definition SetChatDefaultBannedRights (chatID callerID : Z) (rights : list string) : tx bool :=
  m ← beginChatMutation chatID callerID;
  let c := cm_chat m in
  require (callerID =? CreatorID c) ErrNotMember;;
  if sameDefaultBannedRights (DefaultBannedRights c) rights then mret false
  else
    write_chat chatID (mkChat (Title c) (CreatorID c) (Version c + 1) (PinnedMessageID c) rights);;
    mret true.

Definition SetChatPinnedMessage (chatID callerID : Z) (pinned : option Z) : tx (list Z) :=
  m ← beginChatMutation chatID callerID;
  lockOwners (cm_members m);;
  (match pinned with
   | None => mret tt
   | Some id =>
       msg ← MessageByOwnerLocal callerID id;
       match msg with
       | None => tfail ErrMessageInvalid
       | Some x =>
           require (negb (Deleted x) && bool_decide (m_PeerType x = PeerTypeChat) && (PeerID x =? chatID)) ErrMessageInvalid
       end
   end);;
  let c := cm_chat m in
  write_chat chatID (mkChat (Title c) (CreatorID c) (Version c + 1) pinned (DefaultBannedRights c));;
  mret (cm_members m).
