(* ===== verification/MsgLogic.v ===== *)
(** * Reasoning about transactions

    Inversion of a committed transaction into the statements it ran, and what each small
    routine does to the one mailbox it works on. *)

From S2P Require Import Prelude.
From S2P Require Import NetAddr.
From S2P Require Import Limits.
From S2P Require Import PeerHash.
From S2P Require Import UpdateBatch.
From S2P Require Import Mailbox.
From S2P Require Import MsgStore.
From Stdlib Require Import String.

Open Scope Z_scope.

(** ** Inverting a run *)

Lemma bind_ok {A B} (m : tx A) (f : A -> tx B) s y s' :
  (m ≫= f) s = (Ok y, s') <-> exists x s1, m s = (Ok x, s1) /\ f x s1 = (Ok y, s').
Proof.
  unfold mbind, tx_bind. destruct (m s) as [[x|e] s1]; split.
  - intros H. by exists x, s1.
  - intros (x' & s2 & [= -> ->] & H). done.
  - done.
  - by intros (? & ? & ? & _).
Qed.

Lemma ret_ok {A} (x y : A) s s' : mret (M := tx) x s = (Ok y, s') <-> x = y /\ s = s'.
Proof. unfold mret, tx_ret. split; [by intros [= -> ->]|by intros [-> ->]]. Qed.

Lemma fail_ok {A} e (y : A) s s' : tfail e s = (Ok y, s') <-> False.
Proof. done. Qed.

Lemma require_ok b e x s s' : require b e s = (Ok x, s') <-> b = true /\ s = s'.
Proof.
  destruct b; simpl; [|split; [done|by intros [? _]]]. destruct x.
  rewrite (ret_ok tt tt). split; [by intros [_ ->]|by intros [_ ->]].
Qed.

Lemma ask_ok {A} (f : db -> A) y s s' : ask f s = (Ok y, s') <-> f (t_db s) = y /\ s = s'.
Proof. unfold ask. split; [by intros [= -> ->]|by intros [-> ->]]. Qed.

(** The state after a statement on the mailbox of [u]. *)
Definition wrote (u : Z) (b : box) (s : txs) : txs :=
  mkTx (set_box u b (t_db s)) (t_owners s) (t_chats s) (if bool_decide (u ∈ t_owners s) then stray s else u :: stray s).

Lemma on_box_ok {A} u (f : box -> option (A * box)) y s s' :
  on_box u f s = (Ok y, s') <-> exists b, f (box_of (t_db s) u) = Some (y, b) /\ s' = wrote u b s.
Proof.
  unfold on_box. destruct (f (box_of (t_db s) u)) as [[x b]|]; split.
  - intros [= -> <-]. by exists b.
  - intros (b' & [= -> ->] & ->). done.
  - done.
  - by intros (? & ? & _).
Qed.

Lemma put_ok {A} u (f : box -> option box) (x y : A) s s' :
  put u f x s = (Ok y, s') <-> x = y /\ exists b, f (box_of (t_db s) u) = Some b /\ s' = wrote u b s.
Proof.
  unfold put. rewrite on_box_ok. split.
  - intros (b & E & ->). destruct (f _) as [b'|]; simpl in E; [|done]. injection E as -> ->. split; [done|by exists b].
  - intros [-> (b & -> & ->)]. by exists b.
Qed.

Lemma lock_ok ids x s s' :
  lockOwners ids s = (Ok x, s') <-> s' = mkTx (t_db s) (t_owners s ++ ascendingUnique ids) (t_chats s) (stray s).
Proof. unfold lockOwners. destruct x. split; [by intros [= <-]|by intros ->]. Qed.

Lemma chat_lock_ok id c s s' :
  ChatByIDForUpdate id s = (Ok c, s') <->
  chats (t_db s) !! id = Some c /\ s' = mkTx (t_db s) (t_owners s) (id :: t_chats s) (stray s).
Proof.
  unfold ChatByIDForUpdate. destruct (chats (t_db s) !! id); split.
  - by intros [= -> <-].
  - by intros [[= ->] ->].
  - done.
  - by intros [? _].
Qed.

Lemma pair_ok {A B C} (p : A * B) (f : A -> B -> tx C) s y s' :
  (let '(a, b) := p in f a b) s = (Ok y, s') <-> f p.1 p.2 s = (Ok y, s').
Proof. by destruct p. Qed.

(** ** Mailboxes of a database *)

Lemma box_of_set_eq u b d : box_of (set_box u b d) u = b.
Proof. unfold box_of. simpl. by rewrite lookup_insert_eq. Qed.

Lemma box_of_set_ne u v b d : u <> v -> box_of (set_box u b d) v = box_of d v.
Proof. intros H. unfold box_of. simpl. by rewrite lookup_insert_ne. Qed.

Lemma box_of_set u v b d : box_of (set_box u b d) v = if decide (u = v) then b else box_of d v.
Proof. case_decide as H; [subst; apply box_of_set_eq|by apply box_of_set_ne]. Qed.

(** [ascendingUnique] keeps the ids it was given. *)
Lemma elem_of_compact_ids l x : x ∈ compact_ids l <-> x ∈ l.
Proof.
  induction l as [|a [|b l] IH]; [done|done|]. change (compact_ids (a :: b :: l)) with
    (if a =? b then compact_ids (b :: l) else a :: compact_ids (b :: l)).
  destruct (Z.eqb_spec a b) as [->|].
  - rewrite IH. set_solver.
  - rewrite !elem_of_cons, IH, !elem_of_cons. done.
Qed.

Lemma elem_of_ascendingUnique l x : x ∈ ascendingUnique l <-> x ∈ l.
Proof. unfold ascendingUnique. rewrite elem_of_compact_ids. by rewrite (merge_sort_Permutation Z.le l). Qed.

Lemma reload_ok u l m s s' : reload u l s = (Ok m, s') <-> msgs (box_of (t_db s) u) !! l = Some m /\ s = s'.
Proof.
  unfold reload, MessageByOwnerLocal, look. rewrite bind_ok. split.
  - intros (x & s1 & [<- <-]%ask_ok & H). destruct (msgs _ !! l); [by apply ret_ok in H as [-> ->]|done].
  - intros [E <-]. exists (Some m), s. split; [by apply ask_ok|done].
Qed.

(** Breaking a committed run into its statements. *)
Ltac tx_inv :=
  repeat match goal with
  | H : (_ ≫= _) _ = (Ok _, _) |- _ => apply bind_ok in H; destruct H as (? & ? & ? & H)
  | H : mret _ _ = (Ok _, _) |- _ => apply ret_ok in H; destruct H as [? ?]
  | H : tfail _ _ = (Ok _, _) |- _ => by apply fail_ok in H
  | H : require _ _ _ = (Ok _, _) |- _ => apply require_ok in H; destruct H as [? ?]
  | H : ask _ _ = (Ok _, _) |- _ => apply ask_ok in H; destruct H as [? ?]
  | H : look _ _ _ = (Ok _, _) |- _ => unfold look in H
  | H : put _ _ _ _ = (Ok _, _) |- _ => apply put_ok in H; destruct H as (? & ? & ? & ?)
  | H : on_box _ _ _ = (Ok _, _) |- _ => apply on_box_ok in H; destruct H as (? & ? & ?)
  | H : lockOwners _ _ = (Ok _, _) |- _ => apply lock_ok in H
  | H : ChatByIDForUpdate _ _ = (Ok _, _) |- _ => apply chat_lock_ok in H; destruct H as [? ?]
  | H : reload _ _ _ = (Ok _, _) |- _ => apply reload_ok in H; destruct H as [? ?]
  | H : Some _ = Some _ |- _ => injection H as H
  | H : (let '(_, _) := ?p in _) _ = (Ok _, _) |- _ => apply pair_ok in H
  | x : unit |- _ => destruct x
  end; subst.

(** ** What a transaction leaves alone *)

(** From [s] to [s'] only mailboxes in [U] change, under locks held throughout; chats,
    members, files and blocks stay; sequences only grow. *)
Record calm (U : list Z) (s s' : txs) : Prop := mkCalm {
  ca_owners : t_owners s ⊆ t_owners s';
  ca_stray : stray s' = stray s;
  ca_chats : chats (t_db s') = chats (t_db s);
  ca_members : chat_participants (t_db s') = chat_participants (t_db s);
  ca_ids : chats_id_seq (t_db s') = chats_id_seq (t_db s);
  ca_seq : message_fanout_seq (t_db s) <= message_fanout_seq (t_db s');
  ca_boxes : forall v, v ∉ U -> box_of (t_db s') v = box_of (t_db s) v
}.

Lemma calm_refl U s : calm U s s.
Proof. constructor; done. Qed.

Lemma calm_trans U s1 s2 s3 : calm U s1 s2 -> calm U s2 s3 -> calm U s1 s3.
Proof.
  intros [A1 A2 A3 A4 A5 A6 A7] [B1 B2 B3 B4 B5 B6 B7].
  constructor; [set_solver|congruence|congruence|congruence|congruence|lia|].
  intros v Hv. by rewrite B7, A7.
Qed.

Lemma calm_weaken U V s s' : U ⊆ V -> calm U s s' -> calm V s s'.
Proof. intros H []. constructor; try done. intros v Hv. set_solver. Qed.

Lemma calm_wrote u b s U : u ∈ t_owners s -> u ∈ U -> calm U s (wrote u b s).
Proof.
  intros H HU. constructor; try done.
  - simpl. by rewrite bool_decide_true.
  - intros v Hv. simpl. apply box_of_set_ne. by intros ->.
Qed.

Lemma box_wrote_eq u b s : box_of (t_db (wrote u b s)) u = b.
Proof. apply box_of_set_eq. Qed.

Lemma box_wrote_ne u v b s : u <> v -> box_of (t_db (wrote u b s)) v = box_of (t_db s) v.
Proof. apply box_of_set_ne. Qed.

Lemma owners_wrote u b s : t_owners (wrote u b s) = t_owners s.
Proof. done. Qed.

#[global] Arguments wrote : simpl never.

(** A locked mailbox stays locked while a chain of writes is checked. *)
Ltac calm_chain :=
  repeat (first [apply calm_refl | eapply calm_trans; [|apply calm_wrote; [rewrite ?owners_wrote; assumption|set_solver]]]).

(** ** Routines on one mailbox *)

(** The mailbox after [m] came in at [pts]. *)
Definition took (m : Message) (unread pts : Z) (b b' : box) : Prop :=
  exists p, counters b = Some (p, LocalID m) /\ pts = p + 1 /\ msgs b !! LocalID m = None /\
    MessageByRandomID (m_RandomID m) b = None /\
    b' = UpsertDialog (dialog_key (m_PeerType m) (PeerID m)) (LocalID m) unread
           (mkBox (Some (p + 1, LocalID m + 1)) (<[LocalID m := m]> (msgs b))
              (log b ++ [mkEvent (p + 1) EventNewMessage (LocalID m)]) (dialogs b)).

Lemma took_step u m unread pts b b' : took m unread pts b b' -> OwnerID m = u -> Deleted m = false -> box_step u b b'.
Proof. intros (p & Hc & _ & _ & Hr & ->) Ho Hd. by apply bs_copy. Qed.

Lemma took_msgs m unread pts b b' : took m unread pts b b' -> msgs b' = <[LocalID m := m]> (msgs b).
Proof. by intros (p & _ & _ & _ & _ & ->). Qed.

Lemma BumpState_inv b pts local b' :
  BumpState b = Some (pts, local, b') ->
  exists p, counters b = Some (p, local) /\ pts = p + 1 /\ b' = mkBox (Some (pts, local + 1)) (msgs b) (log b) (dialogs b).
Proof.
  unfold BumpState. destruct (counters b) as [[p n]|]; [|done]. intros [= <- <- <-]. by exists p.
Qed.

Lemma InsertMessage_inv m b b' :
  InsertMessage m b = Some b' ->
  msgs b !! LocalID m = None /\ MessageByRandomID (m_RandomID m) b = None /\
  b' = mkBox (counters b) (<[LocalID m := m]> (msgs b)) (log b) (dialogs b).
Proof.
  unfold InsertMessage. destruct (msgs b !! LocalID m); [done|]. destruct (MessageByRandomID _ b); [done|]. by intros [= <-].
Qed.

Lemma InsertEvent_inv ev b b' :
  InsertEvent ev b = Some b' -> b' = mkBox (counters b) (msgs b) (log b ++ [ev]) (dialogs b).
Proof. unfold InsertEvent. destruct (existsb _ _); [done|]. by intros [= <-]. Qed.

(** Counter, row, event, dialog: a copy has come in. *)
Lemma copy_seq b pts m b1 b2 b3 unread :
  BumpState b = Some (pts, LocalID m, b1) -> InsertMessage m b1 = Some b2 ->
  InsertEvent (mkEvent pts EventNewMessage (LocalID m)) b2 = Some b3 ->
  took m unread pts b (UpsertDialog (dialog_key (m_PeerType m) (PeerID m)) (LocalID m) unread b3).
Proof.
  intros H1 H2 H3. apply BumpState_inv in H1 as (p & Hc & -> & ->). apply InsertMessage_inv in H2 as (Hn & Hr & ->).
  apply InsertEvent_inv in H3 as ->. exists p. by split_and!.
Qed.

Lemma bump_event_ok owner ty l s pts s' :
  owner ∈ t_owners s -> bump_event owner ty l s = (Ok pts, s') ->
  exists p n, counters (box_of (t_db s) owner) = Some (p, n) /\ pts = p + 1 /\ calm [owner] s s' /\
    box_of (t_db s') owner =
      mkBox (Some (p + 1, n)) (msgs (box_of (t_db s) owner)) (log (box_of (t_db s) owner) ++ [mkEvent (p + 1) ty l])
        (dialogs (box_of (t_db s) owner)).
Proof.
  intros Ho H. unfold bump_event in H. tx_inv. rewrite box_wrote_eq in *.
  match goal with H : BumpPtsOnly _ = Some _ |- _ => rename H into Hb end. unfold BumpPtsOnly in Hb.
  destruct (counters _) as [[p n]|] eqn:Hc; [|done]. injection Hb as <- <-.
  match goal with H : InsertEvent _ _ = Some _ |- _ => apply InsertEvent_inv in H as -> end.
  exists p, n. split_and!; [done|done|calm_chain|done].
Qed.

Ltac destruct_pairs :=
  repeat match goal with p : (_ * _)%type |- _ => destruct p end; cbn [fst snd] in *; simplify_eq.

(** The equations of a chain of writes, on the mailboxes themselves. *)
Ltac box_simp :=
  repeat match goal with
  | H : context[box_of (t_db (wrote ?u ?b ?s)) ?u] |- _ => rewrite (box_wrote_eq u b s) in H
  | Hn : ?u <> ?v, H : context[box_of (t_db (wrote ?u ?b ?s)) ?v] |- _ => rewrite (box_wrote_ne u v b s Hn) in H
  | Hn : ?v <> ?u, H : context[box_of (t_db (wrote ?u ?b ?s)) ?v] |- _ =>
      rewrite (box_wrote_ne u v b s (not_eq_sym Hn)) in H
  | |- context[box_of (t_db (wrote ?u ?b ?s)) ?u] => rewrite (box_wrote_eq u b s)
  | Hn : ?u <> ?v |- context[box_of (t_db (wrote ?u ?b ?s)) ?v] => rewrite (box_wrote_ne u v b s Hn)
  | Hn : ?v <> ?u |- context[box_of (t_db (wrote ?u ?b ?s)) ?v] => rewrite (box_wrote_ne u v b s (not_eq_sym Hn))
  | Hn : ?u <> ?v, H : context[box_of (set_box ?u ?b ?s) ?v] |- _ => rewrite (box_of_set_ne u v b s Hn) in H
  | Hn : ?v <> ?u, H : context[box_of (set_box ?u ?b ?s) ?v] |- _ => rewrite (box_of_set_ne u v b s (not_eq_sym Hn)) in H
  end.

(** The row a fan-out writes for one owner. *)
Definition fan_row (now fanoutID owner local : Z) (f : FanOut) : Message :=
  row owner local PeerTypeChat (f_ChatID f) (f_FromID f) now (f_Text f) (owner =? f_FromID f)
    (if owner =? f_FromID f then f_RandomID f else 0) 0 fanoutID (f_FileID f) (f_Action f) (f_ActionUserID f)
    (reply_to (f_ReplyToMsgID f)) (f_Fwd f).

Lemma deliver_copy_ok now fid owner f s pts local s' :
  owner ∈ t_owners s -> deliver_copy now fid owner f s = (Ok (pts, local), s') ->
  calm [owner] s s' /\
  took (fan_row now fid owner local f) (if owner =? f_FromID f then 0 else 1) pts
    (q_EnsureUpdateState (box_of (t_db s) owner)) (box_of (t_db s') owner).
Proof.
  intros Ho H. unfold deliver_copy in H. tx_inv. box_simp. destruct_pairs.
  split; [calm_chain|]. by eapply (copy_seq _ _ (fan_row now fid owner local f)).
Qed.

Definition forward_row (now fanoutID fromID chat : Z) (s : ForwardSource) (randomID u local : Z) : Message :=
  row u local PeerTypeChat chat fromID now (s_Text s) (u =? fromID) (if u =? fromID then randomID else 0) 0 fanoutID
    (s_FileID s) 0 0 None (forward_of s).

Lemma forward_copy_ok now fid from chat src r u s pts local s' :
  u ∈ t_owners s -> forward_copy now fid from chat src r u s = (Ok (pts, local), s') ->
  calm [u] s s' /\
  took (forward_row now fid from chat src r u local) (if u =? from then 0 else 1) pts
    (box_of (t_db s) u) (box_of (t_db s') u).
Proof.
  intros Ho H. unfold forward_copy in H. tx_inv. box_simp. destruct_pairs.
  split; [calm_chain|]. by eapply (copy_seq _ _ (forward_row now fid from chat src r u local)).
Qed.

(** The two copies of a message between users, as sent or as forwarded. *)
Definition pair_rows (now from to sLocal rLocal : Z) (text : string) (randomID file : Z) (sReply rReply : option Z)
    (fwd : option forward) : Message * Message :=
  (row from sLocal PeerTypeUser to from now text true randomID rLocal 0 file 0 0 sReply fwd,
   row to rLocal PeerTypeUser from from now text false 0 sLocal 0 file 0 0 rReply fwd).

(** The stored copy, read back. *)
Lemma took_reload m unread pts b b' x : took m unread pts b b' -> msgs b' !! LocalID m = Some x -> x = m.
Proof. intros T. rewrite (took_msgs _ _ _ _ _ T), lookup_insert_eq. by intros [= ->]. Qed.

Lemma send_self_ok now u text r file reply s m p q dup s' :
  u ∈ t_owners s -> send_self now u text r file reply s = (Ok (m, p, q, dup), s') ->
  calm [u] s s' /\ q = p /\ dup = false /\
  m = row u (LocalID m) PeerTypeUser u u now text true r 0 0 file 0 0 (reply_to reply) None /\
  took m 0 p (box_of (t_db s) u) (box_of (t_db s') u).
Proof.
  intros Ho H. unfold send_self in H. tx_inv. box_simp. destruct_pairs.
  match goal with H : InsertMessage ?m1 _ = _ |- _ =>
    match goal with E : msgs ?b !! _ = Some m |- _ =>
      assert (T : took m1 0 p (box_of (t_db s) u) b) by (by eapply (copy_seq _ _ m1));
      pose proof (took_reload _ _ _ _ _ _ T E) as ->
    end
  end.
  split_and!; [calm_chain|done|done|done|exact T].
Qed.

Lemma send_pair_ok now from to text r file reply s m p q dup s' :
  from ∈ t_owners s -> to ∈ t_owners s -> from <> to ->
  send_pair now from to text r file reply s = (Ok (m, p, q, dup), s') ->
  dup = false /\ calm [from; to] s s' /\ exists rReply m',
    (m, m') = pair_rows now from to (LocalID m) (LocalID m') text r file (reply_to reply) rReply None /\
    took m 0 p (box_of (t_db s) from) (box_of (t_db s') from) /\
    took m' 1 q (box_of (t_db s) to) (box_of (t_db s') to).
Proof.
  intros Hf Ht Hne H. unfold send_pair in H. tx_inv.
  match goal with H : (if reply >? 0 then _ else _) ?t = (Ok _, ?t') |- _ =>
    assert (t' = t) as -> by (destruct (reply >? 0); unfold MessageByOwnerLocal in H; tx_inv; done); clear H
  end.
  box_simp. destruct_pairs.
  match goal with H : InsertMessage ?m1 _ = _, H' : InsertMessage ?m2 _ = _ |- _ =>
    match m1 with row from _ _ _ _ _ _ _ _ _ _ _ _ _ _ _ =>
    match goal with E : msgs ?b !! _ = Some m |- _ =>
      assert (T : took m1 0 p (box_of (t_db s) from) b) by (by eapply (copy_seq _ _ m1));
      pose proof (took_reload _ _ _ _ _ _ T E) as ->;
      split_and!; [done|calm_chain|]; eexists _, m2; split_and!; [done|exact T|]; by eapply (copy_seq _ _ m2)
    end end
  end.
Qed.

Lemma forward_pair_ok now from to src r po s po' m p s' :
  from ∈ t_owners s -> to ∈ t_owners s -> from <> to ->
  forward_pair now from to src r po s = (Ok (po', (m, p)), s') ->
  calm [from; to] s s' /\ exists q m',
    po' = <[to := q]> (<[from := p]> po) /\
    (m, m') = pair_rows now from to (LocalID m) (LocalID m') (s_Text src) r (s_FileID src) None None (forward_of src) /\
    took m 0 p (box_of (t_db s) from) (box_of (t_db s') from) /\
    took m' 1 q (box_of (t_db s) to) (box_of (t_db s') to).
Proof.
  intros Hf Ht Hne H. unfold forward_pair in H. tx_inv. box_simp. destruct_pairs.
  match goal with H : InsertMessage ?m1 _ = _, H' : InsertMessage ?m2 _ = _ |- _ =>
    match m1 with row from _ _ _ _ _ _ _ _ _ _ _ _ _ _ _ =>
    match goal with E : msgs ?b !! _ = Some m |- _ =>
      assert (T : took m1 0 p (box_of (t_db s) from) b) by (by eapply (copy_seq _ _ m1));
      pose proof (took_reload _ _ _ _ _ _ T E) as ->;
      split_and!; [calm_chain|]; eexists _, m2; split_and!; [done|done|exact T|]; by eapply (copy_seq _ _ m2)
    end end
  end.
Qed.

(** ** Edits and deletions *)

Lemma calm_locked U s ids : calm U s (mkTx (t_db s) (t_owners s ++ ids) (t_chats s) (stray s)).
Proof. constructor; try done. simpl. set_solver. Qed.

(** The mailbox after its copy [l] was edited at [pts]. *)
Definition edited (l : Z) (text : string) (now pts : Z) (b b' : box) : Prop :=
  exists p n, counters b = Some (p, n) /\ pts = p + 1 /\
    b' = mkBox (Some (p + 1, n)) (alter (with_text text now) l (msgs b)) (log b ++ [mkEvent (p + 1) EventEdit l]) (dialogs b).

Lemma alter_insert {A} (f : A -> A) (m : gmap Z A) l x : m !! l = Some x -> alter f l m = <[l := f x]> m.
Proof.
  intros H. apply map_eq. intros i. destruct (decide (i = l)) as [->|].
  - by rewrite lookup_alter_eq, lookup_insert_eq, H.
  - by rewrite lookup_alter_ne, lookup_insert_ne.
Qed.

Lemma edited_step u l text now pts b b' :
  edited l text now pts b b' -> is_Some (msgs b !! l) -> box_step u b b'.
Proof. intros (p & n & Hc & _ & ->) [m Hm]. rewrite (alter_insert _ _ _ _ Hm). by eapply bs_edit. Qed.

Lemma edit_one_ok u l text now s x s1 pts s' :
  u ∈ t_owners s -> put u (fun b => Some (SetEditedText l text now b)) tt s = (Ok x, s1) ->
  bump_event u EventEdit l s1 = (Ok pts, s') ->
  calm [u] s s' /\ edited l text now pts (box_of (t_db s) u) (box_of (t_db s') u).
Proof.
  intros Hu H1 H2. tx_inv. apply bump_event_ok in H2 as (p & n & Hc & -> & C & E); [|done]. box_simp.
  split; [eapply calm_trans; [|exact C]; calm_chain|]. by exists p, n.
Qed.

Lemma own_outgoing_ok u l m s s' :
  own_outgoing u l s = (Ok m, s') ->
  s' = s /\ msgs (box_of (t_db s) u) !! l = Some m /\ Out m = true /\ Deleted m = false.
Proof.
  intros H. unfold own_outgoing, MessageByOwnerLocal in H. tx_inv.
  destruct (msgs _ !! l) as [y|] eqn:E; tx_inv.
  match goal with H : _ && _ = true |- _ => apply andb_true_iff in H as [? ?%negb_true_iff] end. done.
Qed.

Lemma edit_pair_ok now u l peer text s pts s' :
  edit_pair now u l peer text s = (Ok pts, s') ->
  calm [u; peer] s s' /\ exists m, msgs (box_of (t_db s) u) !! l = Some m /\ Out m = true /\ Deleted m = false /\
    edited l text now pts (box_of (t_db s) u) (box_of (t_db s') u) /\
    (u <> peer -> exists q, edited (PeerLocalID m) text now q (box_of (t_db s) peer) (box_of (t_db s') peer)).
Proof.
  intros H. unfold edit_pair in H. tx_inv. match goal with H : own_outgoing _ _ _ = _ |- _ => apply own_outgoing_ok in H as (-> & Hm & Ho & Hd) end. simpl in Hm.
  set (s0 := mkTx _ _ _ _) in *. assert (Eb : forall v, box_of (t_db s0) v = box_of (t_db s) v) by done.
  assert (Hu : u ∈ t_owners s0) by (unfold s0; simpl; rewrite elem_of_app, elem_of_ascendingUnique; set_solver).
  assert (Hp : peer ∈ t_owners s0) by (unfold s0; simpl; rewrite elem_of_app, elem_of_ascendingUnique; set_solver).
  assert (C0 : calm [u; peer] s s0) by apply calm_locked.
  destruct (Z.eqb_spec u peer) as [E|Hne]; tx_inv.
  - match goal with H : bump_event _ _ _ _ = _ |- _ => apply bump_event_ok in H as (p & n & Hc & -> & C & E); [|done] end.
    box_simp. split.
    + eapply calm_trans; [exact C0|]. eapply calm_trans; [apply calm_wrote; [exact Hu|set_solver]|].
      eapply calm_weaken; [|exact C]. set_solver.
    + exists x1. split_and!; [done..| |done]. by exists p, n.
  - match goal with H : bump_event u _ _ _ = (_, ?s2), H' : bump_event peer _ _ ?s2 = _ |- _ =>
      apply bump_event_ok in H as (p & n & Hc & -> & C & E); [|done];
      apply bump_event_ok in H' as (p' & n' & Hc' & -> & C' & E'); [|by apply (ca_owners _ _ _ C)] end.
    assert (Ep := ca_boxes _ _ _ C peer ltac:(set_solver)). assert (Eu := ca_boxes _ _ _ C' u ltac:(set_solver)).
    rewrite Ep in Hc', E'. rewrite E in Eu. box_simp. split.
    + eapply calm_trans; [|eapply (calm_weaken [peer]); [set_solver|exact C']].
      eapply calm_trans; [|eapply (calm_weaken [u]); [set_solver|exact C]].
      eapply calm_trans; [exact C0|calm_chain].
    + exists x1. split_and!; [done..| |].
      * by exists p, n.
      * intros _. exists (p' + 1). by exists p', n'.
Qed.

(** The mailbox after its copy [l] was deleted at [pts]. *)
Definition erased (l pts : Z) (b b' : box) : Prop :=
  exists p n m, counters b = Some (p, n) /\ pts = p + 1 /\ msgs b !! l = Some m /\ Deleted m = false /\
    b' = mkBox (Some (p + 1, n)) (<[l := as_deleted m]> (msgs b)) (log b ++ [mkEvent (p + 1) EventDelete l]) (dialogs b).

Lemma erased_step u l pts b b' : erased l pts b b' -> box_step u b b'.
Proof. intros (p & n & m & Hc & _ & Hm & Hd & ->). by eapply bs_delete. Qed.

(** Whether the copy was there to delete. *)
Definition live_at (l : Z) (b : box) : bool :=
  match msgs b !! l with Some m => negb (Deleted m) | None => false end.

Definition erased_if (l : Z) (r : option Z) (b b' : box) : Prop :=
  match r with
  | Some pts => live_at l b = true /\ erased l pts b b'
  | None => live_at l b = false /\ b' = b
  end.

Lemma delete_row_ok u l s r s' :
  u ∈ t_owners s -> delete_row u l s = (Ok r, s') ->
  calm [u] s s' /\ erased_if l r (box_of (t_db s) u) (box_of (t_db s') u).
Proof.
  intros Hu H. unfold delete_row in H. tx_inv.
  match goal with H : SetDeleted _ _ = _ |- _ => unfold SetDeleted in H end.
  unfold erased_if, live_at. destruct (msgs (box_of (t_db s) u) !! l) as [m|] eqn:Em.
  - destruct (Deleted m) eqn:Ed; simplify_eq.
    + simpl in H. tx_inv. box_simp. split; [calm_chain|done].
    + simpl in H. tx_inv. destruct_and?.
      match goal with H : bump_event _ _ _ _ = _ |- _ => apply bump_event_ok in H as (p & n & Hc & -> & C & E); [|done] end.
      box_simp. split; [eapply calm_trans; [|exact C]; calm_chain|]. split; [done|]. by exists p, n, m.
  - simplify_eq. simpl in H. tx_inv. box_simp. split; [calm_chain|done].
Qed.

Lemma delete_named_ok u l s pts s' :
  u ∈ t_owners s -> delete_named u l s = (Ok pts, s') ->
  calm [u] s s' /\ erased l pts (box_of (t_db s) u) (box_of (t_db s') u).
Proof.
  intros Hu H. unfold delete_named in H. tx_inv.
  match goal with H : delete_row _ _ _ = (Ok ?r, _) |- _ => apply delete_row_ok in H as [C E]; [|done]; destruct r; [|done] end.
  tx_inv. destruct E. done.
Qed.

(** ** Walking several mailboxes *)

(** Each item has a mailbox of its own, and is done as [R] says. *)
Definition walked {A} (key : A -> Z) (R : A -> box -> box -> Prop) (l : list A) (s s' : txs) : Prop :=
  calm (map key l) s s' /\ forall x, x ∈ l -> R x (box_of (t_db s) (key x)) (box_of (t_db s') (key x)).

Lemma walked_nil {A} (key : A -> Z) R s : walked key R [] s s.
Proof. split; [apply calm_refl|]. intros x Hx. by apply elem_of_nil in Hx. Qed.

Lemma walked_cons {A} (key : A -> Z) R x l s s1 s' :
  key x ∉ map key l -> calm [key x] s s1 -> R x (box_of (t_db s) (key x)) (box_of (t_db s1) (key x)) ->
  walked key R l s1 s' -> walked key R (x :: l) s s'.
Proof.
  intros Hx C1 HR [C2 Hl]. split.
  - eapply calm_trans; [eapply calm_weaken; [|exact C1]|eapply calm_weaken; [|exact C2]]; simpl; set_solver.
  - intros y [->|Hy]%elem_of_cons; [by rewrite (ca_boxes _ _ _ C2) by done|].
    assert (Hne : key y <> key x) by (intros E; rewrite <- E in Hx; apply Hx; by apply list_elem_of_fmap_2).
    specialize (Hl y Hy). by rewrite (ca_boxes _ _ _ C1) in Hl by set_solver.
Qed.

Lemma deliver_copies_ok now fid f owners s po sl s' :
  NoDup owners -> (forall u, u ∈ owners -> u ∈ t_owners s) ->
  deliver_copies now fid f owners s = (Ok (po, sl), s') ->
  walked id (fun u b b' => exists pts l, po !! u = Some pts /\ (u = f_FromID f -> sl = l) /\
    took (fan_row now fid u l f) (if u =? f_FromID f then 0 else 1) pts (q_EnsureUpdateState b) b') owners s s' /\
  dom po = list_to_set owners /\ (f_FromID f ∉ owners -> sl = 0).
Proof.
  revert s po sl. induction owners as [|u l IH]; intros s po sl Hnd Hlk H; simpl in H; tx_inv.
  { destruct_pairs. split_and!; [apply walked_nil|done|done]. }
  apply NoDup_cons in Hnd as [Hu Hnd]. destruct_pairs.
  match goal with H : deliver_copy _ _ _ _ _ = _ |- _ => apply deliver_copy_ok in H as [C T]; [|apply Hlk; by left] end.
  match goal with H : deliver_copies _ _ _ _ _ = _ |- _ => apply IH in H as (W & Hdom & Hsl); [|done|] end.
  2: { intros v Hv. apply (ca_owners _ _ _ C), Hlk. by right. }
  split_and!.
  - eapply walked_cons; [by rewrite map_id|exact C| |].
    + eexists _, _. split_and!; [| |exact T]; [by rewrite lookup_insert_eq|].
      simpl. intros ->. by rewrite Z.eqb_refl.
    + split; [apply W|]. intros v Hv. destruct W as [_ W]. destruct (W v Hv) as (pts & lo & E1 & E2 & T').
      exists pts, lo. assert (u <> v) by (intros ->; done). rewrite lookup_insert_ne by done. split_and!; [done| |done].
      intros Ev. rewrite (proj2 (Z.eqb_neq u (f_FromID f))) by congruence. by apply E2.
  - rewrite dom_insert_L, Hdom. done.
  - intros Hf. rewrite (proj2 (Z.eqb_neq _ _)) by set_solver. apply Hsl. set_solver.
Qed.

Lemma forward_copies_ok now fid from chat src r owners s po po' snd s' :
  NoDup owners -> (forall u, u ∈ owners -> u ∈ t_owners s) ->
  forward_copies now fid from chat src r owners po s = (Ok (po', snd), s') ->
  walked id (fun u b b' => exists pts l, (u = from -> snd = Some (pts, l)) /\
    took (forward_row now fid from chat src r u l) (if u =? from then 0 else 1) pts b b') owners s s' /\
  (from ∉ owners -> snd = None).
Proof.
  revert s po snd. induction owners as [|u l IH]; intros s po snd Hnd Hlk H; simpl in H; tx_inv.
  { destruct_pairs. split; [apply walked_nil|done]. }
  apply NoDup_cons in Hnd as [Hu Hnd]. destruct_pairs.
  match goal with H : forward_copy _ _ _ _ _ _ _ _ = _ |- _ => apply forward_copy_ok in H as [C T]; [|apply Hlk; by left] end.
  match goal with H : forward_copies _ _ _ _ _ _ _ _ _ = _ |- _ => apply IH in H as [W Hs]; [|done|] end.
  2: { intros v Hv. apply (ca_owners _ _ _ C), Hlk. by right. }
  split.
  - eapply walked_cons; [by rewrite map_id|exact C| |].
    + eexists _, _. split; [|exact T]. simpl. intros ->. by rewrite Z.eqb_refl.
    + split; [apply W|]. intros v Hv. destruct W as [_ W]. destruct (W v Hv) as (pts & lo & E2 & T').
      exists pts, lo. assert (u <> v) by (intros ->; done). split; [|done].
      intros Ev. rewrite (proj2 (Z.eqb_neq u from)) by congruence. by apply E2.
  - intros Hf. rewrite (proj2 (Z.eqb_neq _ _)) by set_solver. apply Hs. set_solver.
Qed.

(** The copies an edit or a delete reaches: those of the members. *)
Definition of_members (members : list Z) (copies : list Message) : list Message :=
  List.filter (fun c => bool_decide (OwnerID c ∈ members)) copies.

Lemma of_members_sub members copies u : u ∈ map OwnerID (of_members members copies) -> u ∈ map OwnerID copies.
Proof.
  intros (c & -> & Hc)%list_elem_of_fmap_1. apply list_elem_of_fmap_2. apply list_elem_of_In in Hc.
  apply filter_In in Hc as [Hc _]. by apply list_elem_of_In.
Qed.

Lemma edit_copies_ok now author text members copies s pts s' :
  NoDup (map OwnerID copies) -> (forall u, u ∈ map OwnerID copies -> u ∈ t_owners s) ->
  edit_copies now author text members copies s = (Ok pts, s') ->
  walked OwnerID (fun c b b' => exists q, (OwnerID c = author -> pts = q) /\ edited (LocalID c) text now q b b')
    (of_members members copies) s s'.
Proof.
  revert s pts. induction copies as [|c l IH]; intros s pts Hnd Hlk H; simpl in H; [tx_inv; apply walked_nil|].
  apply NoDup_cons in Hnd as [Hc Hnd]. unfold of_members. simpl. case_bool_decide as Hm; simpl in H; tx_inv.
  2: { apply IH; [done| |done]. intros u Hu. apply Hlk. by right. }
  match goal with H : bump_event _ _ _ _ = _ |- _ => apply (edit_one_ok _ _ text now s tt) in H as [C T] end;
    [|apply Hlk; by left|apply put_ok; eauto].
  match goal with H : edit_copies _ _ _ _ _ _ = _ |- _ => apply IH in H as W; [|done|] end.
  2: { intros v Hv. apply (ca_owners _ _ _ C), Hlk. by right. }
  eapply walked_cons; [|exact C| |].
  - intros Hin. apply Hc. by eapply of_members_sub.
  - eexists. split; [|exact T]. intros ->. by rewrite Z.eqb_refl.
  - split; [apply W|]. intros v Hv. destruct W as [_ W]. destruct (W v Hv) as (q & E & T'). exists q. split; [|done].
    intros Ev. rewrite (proj2 (Z.eqb_neq _ _)); [by apply E|]. intros E'. apply Hc. rewrite E', <- Ev.
    apply (of_members_sub members). by apply list_elem_of_fmap_2.
Qed.

Lemma delete_copies_ok members copies po s po' s' :
  NoDup (map OwnerID copies) -> (forall u, u ∈ map OwnerID copies -> u ∈ t_owners s) ->
  delete_copies members copies po s = (Ok po', s') ->
  walked OwnerID (fun c b b' => exists r, erased_if (LocalID c) r b b') (of_members members copies) s s'.
Proof.
  revert s po. induction copies as [|c l IH]; intros s po Hnd Hlk H; simpl in H; [tx_inv; apply walked_nil|].
  apply NoDup_cons in Hnd as [Hc Hnd]. unfold of_members. simpl. case_bool_decide as Hm; simpl in H; tx_inv.
  2: { eapply IH; [done| |done]. intros u Hu. apply Hlk. by right. }
  match goal with H : delete_row _ _ _ = _ |- _ => apply delete_row_ok in H as [C T]; [|apply Hlk; by left] end.
  match goal with H : delete_copies _ _ _ _ = _ |- _ => apply IH in H as W; [|done|] end.
  2: { intros v Hv. apply (ca_owners _ _ _ C), Hlk. by right. }
  eapply walked_cons; [|exact C|by eexists|exact W].
  intros Hin. apply Hc. by eapply of_members_sub.
Qed.
