(* ===== verification/MsgSafety.v ===== *)
(** * What the message store keeps

    The invariant of the tables across mailboxes (the two copies of a message between users
    mirror each other, the copies of a chat message agree and there is one per owner, a chat
    keeps its creator and its bound), the guarantee every transaction gives the others, and
    that every transaction keeps both. *)

From S2P Require Import Prelude.
From S2P Require Import NetAddr.
From S2P Require Import Limits.
From S2P Require Import PeerHash.
From S2P Require Import UpdateBatch.
From S2P Require Import Mailbox.
From S2P Require Import MsgStore.
From S2P Require Import MsgLogic.
From Stdlib Require Import String.

Open Scope Z_scope.

(** ** Rows across mailboxes *)

Definition row_at (d : db) (u l : Z) : option Message := msgs (box_of d u) !! l.

(** What of a copy never changes: all but its text, its edit date and whether it is deleted. *)
Definition identity (m : Message) :=
  (OwnerID m, LocalID m, m_PeerType m, PeerID m, FromID m, m_Date m, Out m, m_RandomID m, PeerLocalID m, FanoutID m,
   FileID m, Action m, ActionUserID m, ReplyToMsgID m, Fwd m).

(** What the two copies of a message between users share. *)
Definition post (m : Message) := (FromID m, m_Date m, Text m, EditDate m, FileID m, Fwd m).

Definition mirrors (m n : Message) : Prop :=
  m_PeerType n = PeerTypeUser /\ PeerID n = OwnerID m /\ PeerLocalID n = LocalID m /\ post n = post m /\ Out n = negb (Out m).

(** What the copies of one chat message share. *)
Definition cast (m : Message) := (m_PeerType m, PeerID m, FromID m, m_Date m, FileID m, Action m, ActionUserID m, Fwd m).

Record row_ok (d : db) (m : Message) : Prop := mkRowOk {
  ro_out : Out m = (FromID m =? OwnerID m);
  ro_kind :
    match m_PeerType m with
    | PeerTypeUser =>
        FanoutID m = 0 /\ Action m = 0 /\
        (PeerID m = OwnerID m -> PeerLocalID m = 0) /\
        (PeerID m <> OwnerID m -> exists n, row_at d (PeerID m) (PeerLocalID m) = Some n /\ mirrors m n)
    | PeerTypeChat => 1 <= FanoutID m <= message_fanout_seq d
    | PeerTypeChannel => False
    end
}.

Record chat_ok (d : db) (id : Z) (c : Chat) : Prop := mkChatOk {
  co_id : 1 <= id <= chats_id_seq d;
  co_creator : CreatorID c ∈ members_of d id;
  co_unique : NoDup (members_of d id);
  co_bound : len (members_of d id) <= maxChatParticipants
}.

Record db_ok (d : db) : Prop := mkDbOk {
  do_boxes : forall u, box_ok u (box_of d u);
  do_rows : forall u l m, row_at d u l = Some m -> row_ok d m;
  do_fans : forall u l m v k n, row_at d u l = Some m -> row_at d v k = Some n ->
    FanoutID m = FanoutID n -> FanoutID m <> 0 -> cast m = cast n /\ (u = v -> l = k);
  do_chats : forall id c, chats d !! id = Some c -> chat_ok d id c;
  do_members : forall id, chats d !! id = None -> members_of d id = [];
  do_seqs : 0 <= message_fanout_seq d /\ 0 <= chats_id_seq d
}.

(** ** The guarantee *)

Definition grown (d d' : db) : Prop :=
  message_fanout_seq d <= message_fanout_seq d' /\ chats_id_seq d <= chats_id_seq d'.

(** What may become of a copy. *)
Definition kept (m m' : Message) : Prop := identity m' = identity m /\ (Deleted m = true -> Deleted m' = true).

(** Every mailbox moves by the steps of the abstract one; every copy stays; a chat message gains none once
    its transaction is over; a chat stays, with its creator. *)
Record guar (d d' : db) : Prop := mkGuar {
  g_boxes : forall u, rtc (box_step u) (box_of d u) (box_of d' u);
  g_rows : forall u l m, row_at d u l = Some m -> exists m', row_at d' u l = Some m' /\ kept m m';
  g_fans : forall u l m, row_at d' u l = Some m -> row_at d u l = None ->
    FanoutID m = 0 \/ message_fanout_seq d < FanoutID m;
  g_chats : forall id c, chats d !! id = Some c -> exists c', chats d' !! id = Some c' /\ CreatorID c' = CreatorID c;
  g_seqs : grown d d'
}.

Lemma place d u l m : db_ok d -> row_at d u l = Some m -> OwnerID m = u /\ LocalID m = l.
Proof. intros D H. by destruct (bo_msgs _ _ (do_boxes _ D u) l m H) as (? & ? & _). Qed.

Lemma kept_refl m : kept m m.
Proof. done. Qed.

Lemma kept_trans a b c : kept a b -> kept b c -> kept a c.
Proof. intros [E1 D1] [E2 D2]. split; [congruence|auto]. Qed.

Lemma step_keeps u b b' l m :
  box_ok u b -> box_step u b b' -> msgs b !! l = Some m -> exists m', msgs b' !! l = Some m' /\ kept m m'.
Proof.
  intros B H Hm. destruct H as [b|b pts next x unread Hc Ho Hl Hd Hr|b pts next i x text now Hc Hx|b pts next i x Hc Hx Hd
                               |b pts next ty id Hc Ht|b t peer maxID inbox b' Ha|b t peer maxID].
  - exists m. split; [|done]. unfold q_EnsureUpdateState. by destruct (counters b).
  - exists m. split; [|done]. simpl. rewrite lookup_insert_ne; [done|]. intros ->.
    assert (H : is_Some (msgs b !! l)) by (by eexists). apply (bo_ids _ _ B _ _ _ Hc) in H. lia.
  - simpl. destruct (decide (l = i)) as [->|]; [|exists m; by rewrite lookup_insert_ne].
    rewrite lookup_insert_eq. rewrite Hm in Hx. injection Hx as ->. by eexists.
  - simpl. destruct (decide (l = i)) as [->|]; [|exists m; by rewrite lookup_insert_ne].
    rewrite lookup_insert_eq. rewrite Hm in Hx. injection Hx as ->. by eexists.
  - by exists m.
  - unfold AdvanceReadInbox in Ha. destruct (dialogs b !! _); [|done]. injection Ha as _ <-. by exists m.
  - unfold AdvanceReadOutbox. destruct (dialogs b !! _); by exists m.
Qed.

Lemma steps_keep u b b' l m :
  box_ok u b -> rtc (box_step u) b b' -> msgs b !! l = Some m -> exists m', msgs b' !! l = Some m' /\ kept m m'.
Proof.
  intros B H. revert m B. induction H as [b|b b1 b2 H1 _ IH]; intros m B Hm; [by exists m|].
  destruct (step_keeps _ _ _ _ _ B H1 Hm) as (m1 & Hm1 & K1).
  destruct (IH m1 (box_step_ok _ _ _ B H1) Hm1) as (m2 & Hm2 & K2). exists m2. split; [done|by eapply kept_trans].
Qed.

(** The copies are kept because the mailboxes move by their steps. *)
Lemma guar_intro d d' :
  db_ok d -> (forall u, rtc (box_step u) (box_of d u) (box_of d' u)) ->
  (forall u l m, row_at d' u l = Some m -> row_at d u l = None -> FanoutID m = 0 \/ message_fanout_seq d < FanoutID m) ->
  (forall id c, chats d !! id = Some c -> exists c', chats d' !! id = Some c' /\ CreatorID c' = CreatorID c) ->
  grown d d' -> guar d d'.
Proof. intros D Hb Hf Hc Hs. constructor; try done. intros u l m Hm. eapply steps_keep; [apply D|apply Hb|exact Hm]. Qed.

#[global] Instance guar_preorder : PreOrder guar.
Proof.
  split.
  - intros d. constructor.
    + intros u. constructor.
    + intros u l m H. by exists m.
    + intros u l m H H'. congruence.
    + intros id c H. by exists c.
    + split; lia.
  - intros a b c [A1 A0 A2 A3 A4] [B1 B0 B2 B3 B4]. unfold grown in *. constructor.
    + intros u. etrans; [apply A1|apply B1].
    + intros u l m Hm. destruct (A0 u l m Hm) as (x & Hx & K1). destruct (B0 u l x Hx) as (y & Hy & K2).
      exists y. split; [done|by eapply kept_trans].
    + intros u l m Hc Ha. destruct (row_at b u l) as [x|] eqn:Hb.
      * destruct (B0 u l x Hb) as (x' & Hx & E & _). rewrite Hc in Hx. injection Hx as <-.
        assert (FanoutID m = FanoutID x) as -> by (unfold identity in E; congruence). by eapply A2.
      * destruct (B2 u l m Hc Hb); [by left|right; lia].
    + intros id x Hx. destruct (A3 id x Hx) as (y & Hy & <-). by apply B3.
    + unfold grown. lia.
Qed.

(** ** How the invariant is kept *)

Definition same_chats (d d' : db) : Prop :=
  chats d' = chats d /\ chat_participants d' = chat_participants d /\ chats_id_seq d' = chats_id_seq d.

Lemma calm_same U s s' : calm U s s' -> same_chats (t_db s) (t_db s').
Proof. intros []. done. Qed.

Lemma same_chats_ok d d' id c : same_chats d d' -> chat_ok d id c -> chat_ok d' id c.
Proof.
  intros (_ & E2 & E3) [A1 A2 A3 A4]. unfold members_of in *. constructor; unfold members_of; by rewrite ?E2, ?E3.
Qed.

(** New copies come in beside the old ones. *)
Lemma db_ok_grow (new : Message -> Prop) d d' :
  db_ok d -> (forall u, box_ok u (box_of d' u)) ->
  (forall u l m, row_at d u l = Some m -> row_at d' u l = Some m) ->
  (forall u l m, row_at d' u l = Some m -> row_at d u l = Some m \/ row_at d u l = None /\ new m) ->
  (forall m, new m -> row_ok d' m) ->
  (forall m n, new m -> new n -> FanoutID m = FanoutID n -> FanoutID m <> 0 ->
     cast m = cast n /\ (OwnerID m = OwnerID n -> LocalID m = LocalID n)) ->
  (forall m, new m -> FanoutID m = 0 \/ message_fanout_seq d < FanoutID m) ->
  same_chats d d' -> message_fanout_seq d <= message_fanout_seq d' -> db_ok d'.
Proof.
  intros D Hb Hold Hnew Hro Hfan Hfresh Hsame Hseq. constructor.
  - done.
  - intros u l m Hm. destruct (Hnew u l m Hm) as [Ho|[_ Hn]]; [|by apply Hro].
    destruct (do_rows _ D _ _ _ Ho) as [R1 R2]. constructor; [done|].
    destruct (m_PeerType m); [|lia|done]. destruct R2 as (? & ? & ? & R). split_and!; try done.
    intros Hp. destruct (R Hp) as (n & Hn & Hmi). exists n. split; [by apply Hold|done].
  - assert (Hlow : forall u l m, row_at d u l = Some m -> FanoutID m <= message_fanout_seq d).
    { intros u l m Hm. destruct (do_rows _ D _ _ _ Hm) as [_ R2]. pose proof (do_seqs _ D).
      destruct (m_PeerType m); [|lia|done]. destruct R2 as [-> _]. lia. }
    intros u l m v k n Hm Hn E Hz.
    assert (Pm : OwnerID m = u /\ LocalID m = l) by (destruct (bo_msgs _ _ (Hb u) l m Hm) as (? & ? & _); done).
    assert (Pn : OwnerID n = v /\ LocalID n = k) by (destruct (bo_msgs _ _ (Hb v) k n Hn) as (? & ? & _); done).
    destruct (Hnew u l m Hm) as [Hm'|[_ Hm']], (Hnew v k n Hn) as [Hn'|[_ Hn']].
    + by eapply (do_fans _ D).
    + specialize (Hlow _ _ _ Hm'). destruct (Hfresh n Hn'); lia.
    + specialize (Hlow _ _ _ Hn'). destruct (Hfresh m Hm'); lia.
    + destruct (Hfan m n Hm' Hn' E Hz) as [? H]. split; [done|]. intros ->. destruct Pm as [? <-], Pn as [? <-]. apply H. congruence.
  - destruct Hsame as (E & E2 & E3). intros id c Hc. rewrite E in Hc. eapply same_chats_ok; [by split_and!|by apply D].
  - destruct Hsame as (E & E2 & E3). intros id Hc. unfold members_of. rewrite E2. apply (do_members _ D). by rewrite <- E.
  - destruct Hsame as (E & E2 & E3). pose proof (do_seqs _ D). lia.
Qed.

(** Copies change in place, the two of a pair alike. *)
Lemma db_ok_image d d' :
  db_ok d -> (forall u, box_ok u (box_of d' u)) ->
  (forall u l m', row_at d' u l = Some m' -> exists m, row_at d u l = Some m /\ identity m' = identity m) ->
  (forall u l m, row_at d u l = Some m -> is_Some (row_at d' u l)) ->
  (forall u l m m' v k n n', row_at d u l = Some m -> row_at d' u l = Some m' -> row_at d v k = Some n ->
     row_at d' v k = Some n' -> u <> v -> m_PeerType m = PeerTypeUser -> PeerID m = v -> PeerLocalID m = k -> mirrors m n ->
     Text n' = Text m' /\ EditDate n' = EditDate m') ->
  same_chats d d' -> message_fanout_seq d <= message_fanout_seq d' -> db_ok d'.
Proof.
  intros D Hb Himg Hex Htxt Hsame Hseq. constructor.
  - done.
  - intros u l m' Hm'. destruct (Himg u l m' Hm') as (m & Hm & E). destruct (place _ _ _ _ D Hm) as [Pu Pl].
    pose proof E as E'. unfold identity in E'. simplify_eq.
    destruct (do_rows _ D _ _ _ Hm) as [R1 R2]. constructor; [congruence|].
    match goal with H : m_PeerType m' = _ |- _ => rewrite H end.
    destruct (m_PeerType m) eqn:Et; [|match goal with H : FanoutID m' = _ |- _ => rewrite H end; lia|done].
    destruct R2 as (R3 & R4 & R5 & R). split_and!; [congruence|congruence|intros; rewrite R5 in *; congruence|].
    intros Hp. assert (Hp' : PeerID m <> OwnerID m) by congruence. destruct (R Hp') as (n & Hn & Hmi).
    destruct (Hex _ _ _ Hn) as [n' Hn']. exists n'. split; [congruence|].
    destruct (Htxt _ _ _ _ _ _ _ _ Hm Hm' Hn Hn') as [T1 T2]; [congruence|done..|].
    destruct (Himg _ _ _ Hn') as (n0 & Hn0 & En). rewrite Hn in Hn0. injection Hn0 as <-. unfold identity in En.
    destruct Hmi as (M1 & M2 & M3 & M4 & M5). unfold post in M4. unfold mirrors, post. simplify_eq.
    split_and!; congruence.
  - intros u l m v k n Hm Hn E Hz. destruct (Himg _ _ _ Hm) as (m0 & Hm0 & Em), (Himg _ _ _ Hn) as (n0 & Hn0 & En).
    unfold identity in Em, En. simplify_eq.
    destruct (do_fans _ D u l m0 v k n0 Hm0 Hn0) as [Q1 Q2]; [congruence|congruence|]. split; [|done].
    unfold cast in *. congruence.
  - destruct Hsame as (E & E2 & E3). intros id c Hc. rewrite E in Hc. eapply same_chats_ok; [by split_and!|by apply D].
  - destruct Hsame as (E & E2 & E3). intros id Hc. unfold members_of. rewrite E2. apply (do_members _ D). by rewrite <- E.
  - destruct Hsame as (E & E2 & E3). pose proof (do_seqs _ D). lia.
Qed.

(** ** What a committed transaction does *)

(** It keeps the invariant and gives the guarantee, writing only what it has locked. *)
Record sound (s s' : txs) : Prop := mkSound {
  so_ok : db_ok (t_db s');
  so_guar : guar (t_db s) (t_db s');
  so_stray : stray s' = stray s
}.

Lemma sound_refl s : db_ok (t_db s) -> sound s s.
Proof. intros D. by constructor. Qed.

Lemma sound_trans s1 s2 s3 : sound s1 s2 -> sound s2 s3 -> sound s1 s3.
Proof. intros [] [B1 B2 B3]. constructor; [done|by etrans|congruence]. Qed.

Lemma calm_chats_kept U s s' :
  calm U s s' -> forall id c, chats (t_db s) !! id = Some c -> exists c', chats (t_db s') !! id = Some c' /\ CreatorID c' = CreatorID c.
Proof. intros C id c H. exists c. by rewrite (ca_chats _ _ _ C). Qed.

Lemma calm_grown U s s' : calm U s s' -> grown (t_db s) (t_db s').
Proof. intros C. split; [apply C|rewrite (ca_ids _ _ _ C); lia]. Qed.

Lemma moves_ok d d' : db_ok d -> (forall u, rtc (box_step u) (box_of d u) (box_of d' u)) -> forall u, box_ok u (box_of d' u).
Proof. intros D H u. eapply box_steps_ok; [apply D|apply H]. Qed.

Lemma sound_grow (new : Message -> Prop) U s s' :
  db_ok (t_db s) -> calm U s s' -> (forall u, rtc (box_step u) (box_of (t_db s) u) (box_of (t_db s') u)) ->
  (forall u l m, row_at (t_db s) u l = Some m -> row_at (t_db s') u l = Some m) ->
  (forall u l m, row_at (t_db s') u l = Some m -> row_at (t_db s) u l = Some m \/ row_at (t_db s) u l = None /\ new m) ->
  (forall m, new m -> row_ok (t_db s') m) ->
  (forall m n, new m -> new n -> FanoutID m = FanoutID n -> FanoutID m <> 0 ->
     cast m = cast n /\ (OwnerID m = OwnerID n -> LocalID m = LocalID n)) ->
  (forall m, new m -> FanoutID m = 0 \/ message_fanout_seq (t_db s) < FanoutID m) -> sound s s'.
Proof.
  intros D C Hm Hold Hnew Hro Hfan Hfresh. constructor; [|apply guar_intro; try done|apply C].
  - eapply db_ok_grow; try done; [by eapply moves_ok|by eapply calm_same|apply C].
  - intros u l m H Hn. destruct (Hnew u l m H) as [H'|[_ H']]; [congruence|by apply Hfresh].
  - by eapply calm_chats_kept.
  - by eapply calm_grown.
Qed.

Lemma sound_image U s s' :
  db_ok (t_db s) -> calm U s s' -> (forall u, rtc (box_step u) (box_of (t_db s) u) (box_of (t_db s') u)) ->
  (forall u l m', row_at (t_db s') u l = Some m' -> exists m, row_at (t_db s) u l = Some m /\ identity m' = identity m) ->
  (forall u l m m' v k n n', row_at (t_db s) u l = Some m -> row_at (t_db s') u l = Some m' -> row_at (t_db s) v k = Some n ->
     row_at (t_db s') v k = Some n' -> u <> v -> m_PeerType m = PeerTypeUser -> PeerID m = v -> PeerLocalID m = k -> mirrors m n ->
     Text n' = Text m' /\ EditDate n' = EditDate m') -> sound s s'.
Proof.
  intros D C Hm Himg Htxt.
  assert (G : guar (t_db s) (t_db s')).
  { apply guar_intro; [done|done| |by eapply calm_chats_kept|by eapply calm_grown].
    intros u l m H Hn. destruct (Himg u l m H) as (x & Hx & _). congruence. }
  constructor; [|done|apply C].
  eapply db_ok_image; try done; [by eapply moves_ok| |by eapply calm_same|apply C].
  intros u l m H. destruct (g_rows _ _ G _ _ _ H) as (x & -> & _). by eexists.
Qed.

(** Nothing happens to the texts of messages between users. *)
Lemma sound_texts U s s' :
  db_ok (t_db s) -> calm U s s' -> (forall u, rtc (box_step u) (box_of (t_db s) u) (box_of (t_db s') u)) ->
  (forall u l m', row_at (t_db s') u l = Some m' -> exists m, row_at (t_db s) u l = Some m /\ identity m' = identity m /\
     (m_PeerType m = PeerTypeUser -> Text m' = Text m /\ EditDate m' = EditDate m)) -> sound s s'.
Proof.
  intros D C Hm Himg. eapply sound_image; try done.
  - intros u l m' H. destruct (Himg u l m' H) as (m & ? & ? & _). by exists m.
  - intros u l m m' v k n n' H1 H2 H3 H4 _ Ht _ _ (M1 & _ & _ & M4 & _).
    destruct (Himg _ _ _ H2) as (m0 & E1 & _ & F1), (Himg _ _ _ H4) as (n0 & E2 & _ & F2).
    rewrite H1 in E1. injection E1 as <-. rewrite H3 in E2. injection E2 as <-.
    destruct (F1 Ht), (F2 M1). unfold post in M4. split; congruence.
Qed.

(** No copy changes. *)
Lemma sound_quiet U s s' :
  db_ok (t_db s) -> calm U s s' -> (forall u, rtc (box_step u) (box_of (t_db s) u) (box_of (t_db s') u)) ->
  (forall u, u ∈ U -> msgs (box_of (t_db s') u) = msgs (box_of (t_db s) u)) -> sound s s'.
Proof.
  intros D C Hm Hq. eapply sound_texts; try done. intros u l m' H. exists m'. split; [|done].
  unfold row_at in *. destruct (decide (u ∈ U)); [by rewrite <- Hq|by rewrite <- (ca_boxes _ _ _ C)].
Qed.

(** Only the mailboxes of [U] move. *)
Lemma calm_moves U s s' :
  calm U s s' -> (forall u, u ∈ U -> rtc (box_step u) (box_of (t_db s) u) (box_of (t_db s') u)) ->
  forall u, rtc (box_step u) (box_of (t_db s) u) (box_of (t_db s') u).
Proof. intros C H u. destruct (decide (u ∈ U)); [by apply H|]. rewrite (ca_boxes _ _ _ C) by done. constructor. Qed.

Lemma ensure_counters b : is_Some (counters (q_EnsureUpdateState b)).
Proof. unfold q_EnsureUpdateState. destruct (counters b) as [c|] eqn:E; simpl; [rewrite E|]; by eexists. Qed.

Lemma ensure_ok u s x s' :
  db_ok (t_db s) -> u ∈ t_owners s -> put u (fun b => Some (q_EnsureUpdateState b)) tt s = (Ok x, s') ->
  sound s s' /\ calm [u] s s' /\ box_of (t_db s') u = q_EnsureUpdateState (box_of (t_db s) u) /\ is_Some (counters (box_of (t_db s') u)).
Proof.
  intros D Hu H. tx_inv. assert (C : calm [u] s (wrote u (q_EnsureUpdateState (box_of (t_db s) u)) s)) by calm_chain.
  box_simp. split_and!; [|done|done|apply ensure_counters].
  eapply sound_quiet; [done|exact C| |].
  - eapply calm_moves; [exact C|]. intros v ->%list_elem_of_singleton. box_simp. apply rtc_once. constructor.
  - intros v ->%list_elem_of_singleton. box_simp. unfold q_EnsureUpdateState. by destruct (counters _).
Qed.

Lemma sound_same_db s s' : db_ok (t_db s) -> t_db s' = t_db s -> stray s' = stray s -> sound s s'.
Proof. intros D E Es. constructor; rewrite ?E; done. Qed.

Lemma sound_pre s s1 s' : t_db s1 = t_db s -> stray s1 = stray s -> sound s1 s' -> sound s s'.
Proof. intros E Es [S1 S2 S3]. constructor; [done|by rewrite <- E|congruence]. Qed.

(** ** New copies *)

Lemma took_row m unread pts b b' l x :
  took m unread pts b b' -> msgs b' !! l = Some x -> msgs b !! l = Some x \/ msgs b !! l = None /\ x = m /\ l = LocalID m.
Proof.
  intros T. rewrite (took_msgs _ _ _ _ _ T). intros [[<- <-]|[? H]]%lookup_insert_Some; [right|by left].
  by destruct T as (p & _ & _ & ? & _).
Qed.

Lemma took_old m unread pts b b' l x : took m unread pts b b' -> msgs b !! l = Some x -> msgs b' !! l = Some x.
Proof.
  intros T H. rewrite (took_msgs _ _ _ _ _ T), lookup_insert_ne; [done|].
  destruct T as (p & _ & _ & Hn & _). intros E. congruence.
Qed.

Lemma took_new m unread pts b b' : took m unread pts b b' -> msgs b' !! LocalID m = Some m.
Proof. intros T. by rewrite (took_msgs _ _ _ _ _ T), lookup_insert_eq. Qed.

Lemma self_sound now u text r file reply s m p q dup s' :
  db_ok (t_db s) -> u ∈ t_owners s -> send_self now u text r file reply s = (Ok (m, p, q, dup), s') -> sound s s'.
Proof.
  intros D Hu H. apply send_self_ok in H as (C & _ & _ & Em & T); [|done].
  assert (Eo : OwnerID m = u) by (by rewrite Em).
  eapply (sound_grow (fun x => x = m)); [done|exact C| | | | | |].
  - eapply calm_moves; [exact C|]. intros v ->%list_elem_of_singleton. apply rtc_once. eapply took_step; [exact T|done|by rewrite Em].
  - intros v l x Hx. unfold row_at in *. destruct (decide (v = u)) as [->|]; [by eapply took_old|].
    by rewrite (ca_boxes _ _ _ C) by set_solver.
  - intros v l x Hx. unfold row_at in *. destruct (decide (v = u)) as [->|].
    + destruct (took_row _ _ _ _ _ _ _ T Hx) as [?|(? & ? & _)]; auto.
    + left. by rewrite <- (ca_boxes _ _ _ C) by set_solver.
  - intros x ->. rewrite Em. constructor; simpl; [by rewrite Z.eqb_refl|]. by split_and!.
  - intros x y -> ->. done.
  - intros x ->. left. by rewrite Em.
Qed.

Lemma pair_sound now from to text r file sReply rReply fwd s m m' p q s' :
  db_ok (t_db s) -> from <> to -> calm [from; to] s s' ->
  (m, m') = pair_rows now from to (LocalID m) (LocalID m') text r file sReply rReply fwd ->
  took m 0 p (box_of (t_db s) from) (box_of (t_db s') from) ->
  took m' 1 q (box_of (t_db s) to) (box_of (t_db s') to) -> sound s s'.
Proof.
  intros D Hne C E T T'. unfold pair_rows in E. injection E as Em Em'.
  assert (Hm : row_at (t_db s') from (LocalID m) = Some m) by (by eapply took_new).
  assert (Hm' : row_at (t_db s') to (LocalID m') = Some m') by (by eapply took_new).
  eapply (sound_grow (fun x => x = m \/ x = m')); [done|exact C| | | | | |].
  - eapply calm_moves; [exact C|]. intros v Hv. apply rtc_once.
    assert (v = from \/ v = to) as [-> | ->] by set_solver.
    + eapply took_step; [exact T|by rewrite Em|by rewrite Em].
    + eapply took_step; [exact T'|by rewrite Em'|by rewrite Em'].
  - intros v l x Hx. unfold row_at in *. destruct (decide (v = from)) as [->|]; [by eapply took_old|].
    destruct (decide (v = to)) as [->|]; [by eapply took_old|]. by rewrite (ca_boxes _ _ _ C) by set_solver.
  - intros v l x Hx. unfold row_at in *. destruct (decide (v = from)) as [->|].
    { destruct (took_row _ _ _ _ _ _ _ T Hx) as [?|(? & ? & _)]; auto. }
    destruct (decide (v = to)) as [->|].
    { destruct (took_row _ _ _ _ _ _ _ T' Hx) as [?|(? & ? & _)]; auto. }
    left. by rewrite <- (ca_boxes _ _ _ C) by set_solver.
  - intros x [-> | ->].
    + rewrite Em. constructor; simpl; [by rewrite Z.eqb_refl|]. split_and!; [done|done|done|].
      intros _. exists m'. split; [done|]. rewrite Em'. done.
    + rewrite Em'. constructor; simpl; [by rewrite (proj2 (Z.eqb_neq from to))|]. split_and!; [done|done|done|].
      intros _. exists m. split; [done|]. rewrite Em. done.
  - intros x y [-> | ->] _; [by rewrite Em|by rewrite Em'].
  - intros x [-> | ->]; left; [by rewrite Em|by rewrite Em'].
Qed.

(** One copy for each owner, of a chat message not seen before. *)
Lemma fan_sound (mk : Z -> Z -> Message) (un : Z -> Z) owners fid pre s s' :
  db_ok (t_db s) ->
  (forall u l, OwnerID (mk u l) = u /\ LocalID (mk u l) = l /\ Deleted (mk u l) = false /\
     m_PeerType (mk u l) = PeerTypeChat /\ FanoutID (mk u l) = fid /\ Out (mk u l) = (FromID (mk u l) =? u)) ->
  (forall u l v k, cast (mk u l) = cast (mk v k)) ->
  message_fanout_seq (t_db s) < fid <= message_fanout_seq (t_db s') ->
  (forall b, pre b = b) \/ (forall b, pre b = q_EnsureUpdateState b) ->
  walked id (fun u b b' => exists pts l, took (mk u l) (un u) pts (pre b) b') owners s s' -> sound s s'.
Proof.
  intros D Hmk Hcast Hfid Hpre [C W]. rewrite map_id in C. unfold id in W.
  assert (Hpm : forall b, msgs (pre b) = msgs b).
  { intros b. destruct Hpre as [-> | ->]; [done|]. unfold q_EnsureUpdateState. by destruct (counters b). }
  assert (Hps : forall u b, rtc (box_step u) b (pre b)).
  { intros u b. destruct Hpre as [-> | ->]; [done|]. apply rtc_once. constructor. }
  eapply (sound_grow (fun x => exists u l, u ∈ owners /\ x = mk u l /\ row_at (t_db s') u l = Some x /\ row_at (t_db s) u l = None));
    [done|exact C| | | | | |].
  - eapply calm_moves; [exact C|]. intros u Hu. destruct (W u Hu) as (pts & l & T). destruct (Hmk u l) as (? & _ & ? & _).
    eapply rtc_r; [apply Hps|]. by eapply took_step.
  - intros u l x Hx. unfold row_at in *. destruct (decide (u ∈ owners)) as [Hu|]; [|by rewrite (ca_boxes _ _ _ C)].
    destruct (W u Hu) as (pts & k & T). eapply took_old; [exact T|]. by rewrite Hpm.
  - intros u l x Hx. unfold row_at in *. destruct (decide (u ∈ owners)) as [Hu|]; [|by left; rewrite <- (ca_boxes _ _ _ C)].
    destruct (W u Hu) as (pts & k & T). destruct (took_row _ _ _ _ _ _ _ T Hx) as [Ho|(Hn & -> & ->)]; rewrite Hpm in *; [by left|].
    destruct (Hmk u k) as (_ & Ek & _). rewrite Ek in *. right. split; [done|]. by exists u, k.
  - intros x (u & l & Hu & -> & _). destruct (Hmk u l) as (E1 & E2 & E3 & E4 & E5 & E6). constructor; [by rewrite E1|].
    rewrite E4, E5. pose proof (do_seqs _ D). lia.
  - intros x y (u & l & Hu & -> & Hx & Hx') (v & k & Hv & -> & Hy & Hy') _ _. split; [apply Hcast|].
    destruct (Hmk u l) as (-> & -> & _), (Hmk v k) as (-> & -> & _). intros ->.
    destruct (W v Hv) as (pts & j & T). destruct (Hmk v j) as (_ & Ej & _). unfold row_at in *.
    destruct (took_row _ _ _ _ _ _ _ T Hx) as [Ho|(_ & _ & ->)]; [rewrite Hpm in Ho; congruence|].
    destruct (took_row _ _ _ _ _ _ _ T Hy) as [Ho|(_ & _ & ->)]; [rewrite Hpm in Ho; congruence|]. done.
  - intros x (u & l & Hu & -> & _). destruct (Hmk u l) as (_ & _ & _ & _ & -> & _). right. lia.
Qed.

(** ** Reads *)

Definition reads {A} (m : tx A) : Prop := forall s x s', m s = (Ok x, s') -> s' = s.

Lemma reads_new u l : reads (newMessagePts u l).
Proof. intros s x s' H. unfold newMessagePts in H. tx_inv. destruct (NewMessagePts _ _); by tx_inv. Qed.

Lemma reads_state u : reads (statePts u).
Proof. intros s x s' H. unfold statePts in H. tx_inv. destruct (counters _) as [[? ?]|]; by tx_inv. Qed.

Lemma reads_mirror m u : reads (mirrorPts m u).
Proof.
  intros s x s' H. unfold mirrorPts in H.
  destruct (_ && _); [by eapply reads_new|]. destruct (_ || _); [by eapply reads_state|by eapply reads_new].
Qed.

Lemma reads_ptsFor l : reads (ptsFor l).
Proof.
  induction l as [|u l IH]; intros s x s' H; simpl in H; tx_inv; [done|].
  match goal with H : statePts _ _ = _ |- _ => apply reads_state in H as -> end.
  by match goal with H : ptsFor _ _ = _ |- _ => apply IH in H as -> end.
Qed.

Lemma reads_copies l : reads (copies_pts l).
Proof.
  induction l as [|u l IH]; intros s x s' H; simpl in H; tx_inv; [done|].
  match goal with H : newMessagePts _ _ _ = _ |- _ => apply reads_new in H as -> end.
  by match goal with H : copies_pts _ _ = _ |- _ => apply IH in H as -> end.
Qed.

Lemma reads_fanout m l : reads (fanoutPts m l).
Proof.
  intros s x s' H. unfold fanoutPts in H. destruct (_ =? _); [by eapply reads_ptsFor|]. tx_inv. by eapply reads_copies.
Qed.

Lemma reads_files l : reads (lockFileRefs l).
Proof. intros s x s' H. unfold lockFileRefs in H. by tx_inv. Qed.

Lemma reads_restriction a b c d : reads (checkDefaultMessageRestriction a b c d).
Proof. intros s x s' H. unfold checkDefaultMessageRestriction in H. by tx_inv. Qed.

(** Reads out of the way. *)
Ltac tx_reads :=
  repeat match goal with
  | H : newMessagePts _ _ _ = (Ok _, _) |- _ => apply reads_new in H as ->
  | H : statePts _ _ = (Ok _, _) |- _ => apply reads_state in H as ->
  | H : mirrorPts _ _ _ = (Ok _, _) |- _ => apply reads_mirror in H as ->
  | H : ptsFor _ _ = (Ok _, _) |- _ => apply reads_ptsFor in H as ->
  | H : fanoutPts _ _ _ = (Ok _, _) |- _ => apply reads_fanout in H as ->
  | H : lockFileRefs _ _ = (Ok _, _) |- _ => apply reads_files in H as ->
  | H : checkDefaultMessageRestriction _ _ _ _ _ = (Ok _, _) |- _ => apply reads_restriction in H as ->
  end.

Lemma sound_locked s ids : db_ok (t_db s) -> sound s (mkTx (t_db s) (t_owners s ++ ids) (t_chats s) (stray s)).
Proof. intros D. by constructor. Qed.

Lemma sound_any_locks s o c : db_ok (t_db s) -> sound s (mkTx (t_db s) o c (stray s)).
Proof. intros D. by constructor. Qed.

Lemma locked_all ids s u : u ∈ ids -> u ∈ t_owners (mkTx (t_db s) (t_owners s ++ ascendingUnique ids) (t_chats s) (stray s)).
Proof. intros H. simpl. rewrite elem_of_app, elem_of_ascendingUnique. by right. Qed.

Lemma db_ok_seqs d f c : db_ok d -> message_fanout_seq d <= f -> chats_id_seq d <= c -> db_ok (set_seqs f c d) /\ guar d (set_seqs f c d).
Proof.
  intros D Hf Hc. split.
  - constructor; try apply D.
    + intros u l m Hm. destruct (do_rows _ D u l m Hm) as [R1 R2]. constructor; [done|]. destruct (m_PeerType m); simpl; [done|lia|done].
    + intros id c0 H. destruct (do_chats _ D _ _ H) as [[? ?] A2 A3 A4]. constructor; [simpl; lia|done..].
    + pose proof (do_seqs _ D). simpl. lia.
  - apply guar_intro; [done| | | |].
    + intros u. constructor.
    + intros u l m H H'. unfold row_at, box_of in *. simpl in H. congruence.
    + intros id x H. by exists x.
    + done.
Qed.

Lemma rolled_back d s x s' :
  roll_back d s = (Ok x, s') ->
  t_db s' = set_seqs (message_fanout_seq (t_db s)) (chats_id_seq (t_db s)) d /\ stray s' = stray s.
Proof. by intros [= _ <-]. Qed.

(** ** Transactions *)

Lemma SendMessage_sound now from to text r file reply s x s' :
  db_ok (t_db s) -> SendMessage now from to text r file reply s = (Ok x, s') -> sound s s'.
Proof.
  intros D H. unfold SendMessage in H. apply bind_ok in H as (d0 & s0 & H0 & H). apply ask_ok in H0 as [<- <-].
  apply bind_ok in H as ([] & s0 & H0 & H). apply lock_ok in H0 as ->.
  set (s0 := mkTx _ _ _ _) in *. assert (D0 : db_ok (t_db s0)) by done. change (t_db s) with (t_db s0) in H.
  assert (Hf : from ∈ t_owners s0) by (apply locked_all; set_solver).
  assert (Ht : to ∈ t_owners s0) by (apply locked_all; set_solver).
  eapply (sound_trans _ s0); [by apply sound_locked|]. clearbody s0. clear D s.
  apply bind_ok in H as ([] & s1 & H1 & H). apply reads_files in H1 as ->.
  apply bind_ok in H as ([] & s1 & H1 & H). apply ensure_ok in H1 as (S1 & C1 & _); [|done..].
  apply bind_ok in H as ([] & s2 & H2 & H). apply ensure_ok in H2 as (S2 & C2 & _); [|apply S1|by apply (ca_owners _ _ _ C1)].
  assert (Hf2 : from ∈ t_owners s2) by (apply (ca_owners _ _ _ C2), (ca_owners _ _ _ C1); done).
  assert (Ht2 : to ∈ t_owners s2) by (apply (ca_owners _ _ _ C2), (ca_owners _ _ _ C1); done).
  assert (S12 := sound_trans _ _ _ S1 S2). assert (D2 := so_ok _ _ S2).
  apply bind_ok in H as (ex & s3 & H3 & H). unfold look in H3. apply ask_ok in H3 as [_ <-].
  destruct ex as [m|].
  - apply bind_ok in H as (p & s3 & H3 & H). apply reads_new in H3 as ->.
    apply bind_ok in H as (q & s3 & H3 & H). apply reads_mirror in H3 as ->.
    apply bind_ok in H as ([] & s3 & H3 & H). apply rolled_back in H3 as [Ed Es]. apply ret_ok in H as [_ <-].
    destruct (g_seqs _ _ (so_guar _ _ S12)) as [L1 L2].
    destruct (db_ok_seqs (t_db s0) _ _ D0 L1 L2) as [D3 G3].
    constructor; [by rewrite Ed|by rewrite Ed|]. by rewrite Es, (so_stray _ _ S12).
  - eapply sound_trans; [exact S12|]. destruct x as [[[m p] q] dup]. destruct (Z.eqb_spec from to) as [<-|Hne]; [by eapply self_sound|].
    apply send_pair_ok in H as (_ & C & rr & m' & E & T & T'); [|done..]. by eapply pair_sound.
Qed.

Lemma add_extra_NoDup l x : NoDup l -> NoDup (add_extra l x).
Proof.
  intros H. unfold add_extra. destruct (_ =? 0); [done|]. simpl. case_bool_decide as Hx; [done|].
  apply NoDup_app. split_and!; [done| |apply NoDup_singleton]. intros y Hy ->%list_elem_of_singleton. done.
Qed.

Lemma fanout_owners_NoDup l extra : NoDup l -> NoDup (fanout_owners l extra).
Proof. unfold fanout_owners. revert l. induction extra as [|x e IH]; intros l H; [done|]. simpl. apply IH. by apply add_extra_NoDup. Qed.

Lemma members_NoDup d id : db_ok d -> NoDup (members_of d id).
Proof.
  intros D. destruct (chats d !! id) as [c|] eqn:E; [by eapply co_unique, do_chats|].
  rewrite (do_members _ D _ E). constructor.
Qed.

Lemma walked_pre {A} (key : A -> Z) R l s s1 s' : calm [] s s1 -> walked key R l s1 s' -> walked key R l s s'.
Proof.
  intros C [W1 W2]. split.
  - eapply calm_trans; [eapply calm_weaken; [|exact C]; set_solver|done].
  - intros x Hx. rewrite <- (ca_boxes _ _ _ C) by set_solver. by apply W2.
Qed.

Lemma walked_impl {A} (key : A -> Z) (R R' : A -> box -> box -> Prop) l s s' :
  (forall x b b', x ∈ l -> R x b b' -> R' x b b') -> walked key R l s s' -> walked key R' l s s'.
Proof. intros HR [C W]. split; [done|]. intros x Hx. apply HR; [done|by apply W]. Qed.

Lemma calm_fields s d o c :
  boxes d = boxes (t_db s) -> chats d = chats (t_db s) -> chat_participants d = chat_participants (t_db s) ->
  chats_id_seq d = chats_id_seq (t_db s) -> message_fanout_seq (t_db s) <= message_fanout_seq d -> t_owners s ⊆ o ->
  calm [] s (mkTx d o c (stray s)).
Proof. intros E1 E2 E3 E4 E5 Ho. constructor; try done. intros v _. unfold box_of. simpl. by rewrite E1. Qed.

(** The copies of one fan-out: one for every owner, the sender's the one answered. *)
Definition fanned (now : Z) (f : FanOut) (owners : list Z) (po : gmap Z Z) (sender : option Message) (s s' : txs) : Prop :=
  let fid := message_fanout_seq (t_db s) + 1 in
  message_fanout_seq (t_db s') = fid /\ dom po = list_to_set owners /\
  walked id (fun u b b' => exists pts l, po !! u = Some pts /\
    (u = f_FromID f -> sender = Some (fan_row now fid u l f)) /\
    took (fan_row now fid u l f) (if u =? f_FromID f then 0 else 1) pts (q_EnsureUpdateState b) b') owners s s'.

(** A copy is written at the local id its mailbox had next, which is not 0. *)
Lemma took_positive u m unread pts b b' : box_ok u b -> took m unread pts (q_EnsureUpdateState b) b' -> 1 <= LocalID m.
Proof.
  intros B (p & Hc & _). assert (B' : box_ok u (q_EnsureUpdateState b)) by (eapply box_step_ok; [exact B|constructor]).
  apply (bo_counters _ _ B' _ _ Hc).
Qed.

Lemma deliver_copies_seq now fid f owners s x s' :
  deliver_copies now fid f owners s = (Ok x, s') -> message_fanout_seq (t_db s') = message_fanout_seq (t_db s).
Proof.
  revert s x. induction owners as [|u l IH]; intros s x H; simpl in H; [by tx_inv|]. tx_inv. destruct_pairs.
  match goal with H : deliver_copies _ _ _ _ _ = _ |- _ => apply IH in H as -> end.
  match goal with H : deliver_copy _ _ _ _ _ = _ |- _ => unfold deliver_copy in H; by tx_inv end.
Qed.

Lemma fan_tail now f owners s fid s1 po z s2 sender s' :
  db_ok (t_db s) -> NoDup owners -> (forall u, u ∈ owners -> u ∈ t_owners s) ->
  NextFanoutID s = (Ok fid, s1) -> deliver_copies now fid f owners s1 = (Ok (po, z), s2) ->
  (if z =? 0 then mret None else (m ← reload (f_FromID f) z; mret (Some m))) s2 = (Ok sender, s') ->
  fanned now f owners po sender s s'.
Proof.
  intros D Hnd Hlk [= <- <-] Hd Hs. pose proof (deliver_copies_seq _ _ _ _ _ _ _ Hd) as Hseq.
  apply deliver_copies_ok in Hd as (W & Hdom & Hz); [|done..].
  assert (s' = s2) as -> by (destruct (z =? 0); by tx_inv).
  split_and!; [by rewrite Hseq|done|].
  eapply walked_pre in W; [|apply calm_fields; [done..|simpl; lia|done]].
  destruct W as [C W]. split; [exact C|]. intros u Hu. destruct (W u Hu) as (pts & l & E & El & T). exists pts, l.
  split_and!; [done| |done]. intros ->. specialize (El eq_refl). subst z.
  pose proof (took_positive _ _ _ _ _ _ (do_boxes _ D _) T) as Hl. simpl in Hl.
  destruct (Z.eqb_spec l 0); [lia|]. tx_inv.
  match goal with H : msgs _ !! l = Some ?m |- _ => pose proof (took_new _ _ _ _ _ T) as Hn; simpl in Hn; unfold id in Hn; congruence end.
Qed.

Lemma fanned_pre now f owners po sender s s1 s' :
  calm [] s s1 -> message_fanout_seq (t_db s1) = message_fanout_seq (t_db s) ->
  fanned now f owners po sender s1 s' -> fanned now f owners po sender s s'.
Proof. intros C E (H1 & H2 & H3). unfold fanned. rewrite <- E. split_and!; [done|done|]. by eapply walked_pre. Qed.

Lemma fanOut_locked_ok now f s sender po dup s' :
  db_ok (t_db s) -> fanOut_locked now f s = (Ok (sender, po, dup), s') ->
  exists chat, chats (t_db s) !! f_ChatID f = Some chat /\
  let members := members_of (t_db s) (f_ChatID f) in
  let owners := fanout_owners members (f_Extra f) in
  (f_Action f = ChatActionNone -> f_FromID f ∈ members) /\ owners <> [] /\ len owners <= maxChatParticipants /\
  match MessageByRandomID (f_RandomID f) (box_of (t_db s) (f_FromID f)) with
  | Some m => dup = true /\ sender = Some m /\ t_db s' = t_db s /\ stray s' = stray s
  | None => dup = false /\ fanned now f owners po sender s s'
  end.
Proof.
  intros D H. unfold fanOut_locked in H. tx_inv. tx_reads. simpl in *.
  set (owners := fanout_owners _ _) in *.
  match goal with H : chats _ !! _ = Some ?c |- _ => exists c; split; [done|] end.
  repeat match goal with H : negb _ = true |- _ => apply negb_true_iff in H end. cbn zeta.
  split_and!.
  - intros Ha. match goal with H : (_ =? ChatActionNone) && _ = false |- _ => rewrite Ha in H; simpl in H; apply negb_false_iff in H end.
    by eapply bool_decide_eq_true_1.
  - match goal with H : (len owners =? 0) = false |- _ => apply Z.eqb_neq in H end. fold owners. intros ->. done.
  - fold owners. unfold len in *. lia.
  - destruct (MessageByRandomID _ _) as [m|] eqn:Em; tx_inv; tx_reads; destruct_pairs; [done|].
    match goal with H : (if f_Action f =? ChatActionNone then _ else _) ?t = (_, ?t') |- _ =>
      assert (t' = t) as -> by (destruct (f_Action f =? ChatActionNone); tx_inv; tx_reads; done); clear H end.
    split; [done|]. eapply fanned_pre; [| |eapply fan_tail; [| | |eassumption..]]; [|done|done| |].
    + apply calm_fields; try done. set_solver.
    + apply fanout_owners_NoDup. by apply members_NoDup.
    + intros u Hu. simpl. rewrite elem_of_app, elem_of_ascendingUnique. by right.
Qed.

Lemma fanned_sound now f owners po sender s s' : db_ok (t_db s) -> fanned now f owners po sender s s' -> sound s s'.
Proof.
  intros D (Hseq & _ & W).
  eapply (fan_sound (fun u l => fan_row now (message_fanout_seq (t_db s) + 1) u l f) (fun u => if u =? f_FromID f then 0 else 1)
            owners (message_fanout_seq (t_db s) + 1) q_EnsureUpdateState); [done| |done|lia|by right|].
  - intros u l. split_and!; try done. simpl. apply Z.eqb_sym.
  - eapply walked_impl; [|exact W]. intros u b b' _ (pts & l & _ & _ & T). by exists pts, l.
Qed.

Lemma fanOut_locked_sound now f s x s' : db_ok (t_db s) -> fanOut_locked now f s = (Ok x, s') -> sound s s'.
Proof.
  intros D H. destruct x as [[sender po] dup]. apply fanOut_locked_ok in H as (chat & _ & _ & _ & _ & H); [|done].
  destruct (MessageByRandomID _ _).
  - destruct H as (_ & _ & E & E'). constructor; rewrite ?E; done.
  - destruct H as [_ H]. by eapply fanned_sound.
Qed.

Lemma fanOut_sound now f s x s' : db_ok (t_db s) -> fanOut now f s = (Ok x, s') -> sound s s'.
Proof. intros D H. unfold fanOut in H. tx_inv. destruct (fanOut_early _ _); [done|]. by eapply fanOut_locked_sound. Qed.

(** *** Forwarding *)

Lemma forward_copies_seq now fid from chat src r owners po s x s' :
  forward_copies now fid from chat src r owners po s = (Ok x, s') -> message_fanout_seq (t_db s') = message_fanout_seq (t_db s).
Proof.
  revert s po x. induction owners as [|u l IH]; intros s po x H; simpl in H; [by tx_inv|]. tx_inv. destruct_pairs.
  match goal with H : forward_copies _ _ _ _ _ _ _ _ _ = _ |- _ => apply IH in H as -> end.
  match goal with H : forward_copy _ _ _ _ _ _ _ _ = _ |- _ => unfold forward_copy in H; by tx_inv end.
Qed.

Lemma forward_chat_sound now from chat members src r po s x s' :
  db_ok (t_db s) -> NoDup members -> (forall u, u ∈ members -> u ∈ t_owners s) ->
  forward_chat now from chat members src r po s = (Ok x, s') -> sound s s' /\ calm members s s'.
Proof.
  intros D Hnd Hlk H. unfold forward_chat in H. apply bind_ok in H as (fid & s1 & [= <- <-] & H).
  apply bind_ok in H as ([m snd] & s2 & Hc & H).
  assert (s' = s2) as -> by (destruct snd as [[pts l]|]; by tx_inv).
  pose proof (forward_copies_seq _ _ _ _ _ _ _ _ _ _ _ Hc) as Hseq. simpl in Hseq.
  apply forward_copies_ok in Hc as [W _]; [|done..].
  eapply walked_pre in W; [|apply calm_fields; [done..|simpl; lia|done]].
  split; [|destruct W as [C _]; by rewrite map_id in C].
  eapply (fan_sound (fun u l => forward_row now (message_fanout_seq (t_db s) + 1) from chat src r u l)
            (fun u => if u =? from then 0 else 1) members (message_fanout_seq (t_db s) + 1) (fun b => b));
    [done| |done|lia|by left|].
  - intros u l. split_and!; try done. simpl. apply Z.eqb_sym.
  - eapply walked_impl; [|exact W]. intros u b b' _ (pts & l & _ & T). by exists pts, l.
Qed.

(** What a destination needs of the state: its owners locked, its members distinct. *)
Definition dest_ok (from : Z) (dest : destination) (s : txs) : Prop :=
  (forall u, u ∈ dest_owners from dest -> u ∈ t_owners s) /\
  match dest with ToUser u => u <> from | ToChat _ _ members => NoDup members | ToNobody => True end.

Lemma dest_ok_calm from dest U s s' : calm U s s' -> dest_ok from dest s -> dest_ok from dest s'.
Proof. intros C [H1 H2]. split; [|done]. intros u Hu. apply (ca_owners _ _ _ C). by apply H1. Qed.

Lemma forward_one_sound now from dest src r po s x s' :
  db_ok (t_db s) -> dest_ok from dest s -> forward_one now from dest src r po s = (Ok x, s') ->
  sound s s' /\ calm (dest_owners from dest) s s'.
Proof.
  intros D [Hlk Hd] H. unfold forward_one in H. apply bind_ok in H as (ex & s1 & H1 & H). unfold look in H1.
  apply ask_ok in H1 as [_ <-]. destruct ex as [m|].
  { tx_inv. tx_reads. split; [by apply sound_refl|apply calm_refl]. }
  destruct dest as [u|id chat members|].
  - tx_inv. destruct x0 as [po' [m p]]. simpl in *.
    match goal with H : forward_pair _ _ _ _ _ _ _ = _ |- _ =>
      apply forward_pair_ok in H as (C & q & m' & _ & E & T & T'); [|apply Hlk; set_solver|apply Hlk; set_solver|done] end.
    split; [|done]. eapply pair_sound; [done|by apply not_eq_sym|exact C|exact E|exact T|exact T'].
  - tx_inv. tx_reads. destruct (forward_chat_sound _ _ _ _ _ _ _ _ _ _ D Hd ltac:(intros u Hu; apply Hlk; by right) H) as [S C].
    split; [done|]. eapply calm_weaken; [|exact C]. set_solver.
  - apply bind_ok in H as (fid & s2 & [= <- <-] & H). tx_inv. split; [|eapply calm_weaken; [|apply calm_fields; [done..|simpl; lia|done]]; set_solver].
    eapply (sound_quiet []); [done|apply calm_fields; [done..|simpl; lia|done]|by constructor|done].
Qed.

Lemma forward_all_sound now from dest l po s x s' :
  db_ok (t_db s) -> dest_ok from dest s -> forward_all now from dest l po s = (Ok x, s') -> sound s s'.
Proof.
  revert po s x. induction l as [|[src r] l IH]; intros po s x D Hd H; simpl in H; tx_inv; [by apply sound_refl|].
  destruct_pairs.
  match goal with H : forward_one _ _ _ _ _ _ _ = _ |- _ => apply forward_one_sound in H as [S C]; [|done..] end.
  match goal with H : forward_all _ _ _ _ _ _ = _ |- _ => apply IH in H; [|apply S|by eapply dest_ok_calm] end.
  by eapply sound_trans.
Qed.

Lemma ensure_all_sound owners s x s' :
  db_ok (t_db s) -> (forall u, u ∈ owners -> u ∈ t_owners s) -> ensure_all owners s = (Ok x, s') ->
  sound s s' /\ calm owners s s'.
Proof.
  revert s x. induction owners as [|u l IH]; intros s x D Hlk H; simpl in H.
  { tx_inv. split; [by apply sound_refl|apply calm_refl]. }
  apply bind_ok in H as ([] & s1 & H1 & H). apply ensure_ok in H1 as (S & C & _); [|done|apply Hlk; by left].
  apply IH in H as [S' C']; [|apply S|intros v Hv; apply (ca_owners _ _ _ C), Hlk; by right].
  split; [by eapply sound_trans|]. eapply calm_trans; (eapply calm_weaken; [|eassumption]); set_solver.
Qed.

(** A forward: the destination read, the owners locked and provisioned, the copies. *)
Lemma ForwardMessages_inv now from t dest srcs rs s x s' :
  db_ok (t_db s) -> ForwardMessages now from t dest srcs rs s = (Ok x, s') ->
  exists dst s2 s3, t_db s2 = t_db s /\ stray s2 = stray s /\ dest_ok from dst s2 /\
    (match dst with ToChat id _ members => members = members_of (t_db s) id | _ => True end) /\
    (forall u, u ∈ dest_ensured from dst -> u ∈ t_owners s2) /\
    ensure_all (dest_ensured from dst) s2 = (Ok tt, s3) /\ forward_all now from dst (zip srcs rs) ∅ s3 = (Ok x, s').
Proof.
  intros D H. unfold ForwardMessages in H. destruct (_ || _); [done|].
  destruct (bool_decide (t = PeerTypeUser) && (dest =? from)) eqn:Eself; [done|].
  apply bind_ok in H as (dst & s1 & H1 & H).
  assert (Hd : t_db s1 = t_db s /\ stray s1 = stray s /\
               match dst with ToUser u => u <> from | ToChat _ _ members => NoDup members | ToNobody => True end /\
               match dst with ToChat id _ members => members = members_of (t_db s) id | _ => True end).
  { destruct t; tx_inv; simpl in *; [|split_and!; [done..|by apply members_NoDup|done]|done].
    split_and!; [done..| |done]. intros ->. by rewrite Z.eqb_refl in Eself. }
  destruct Hd as (Ed & Es & Hd & Hm). apply bind_ok in H as ([] & s2 & H2 & H). apply lock_ok in H2.
  assert (Hok : dest_ok from dst s2).
  { split; [|done]. intros u Hu. rewrite H2. by apply locked_all. }
  assert (E2 : t_db s2 = t_db s /\ stray s2 = stray s) by (rewrite H2; done). clear H2.
  apply bind_ok in H as ([] & s3 & H3 & H). apply reads_files in H3 as ->.
  apply bind_ok in H as ([] & s3 & H3 & H). exists dst, s2, s3. destruct E2. split_and!; try done.
  intros u Hu. apply Hok. destruct dst; simpl in *; set_solver.
Qed.

Lemma ForwardMessages_sound now from t dest srcs rs s x s' :
  db_ok (t_db s) -> ForwardMessages now from t dest srcs rs s = (Ok x, s') -> sound s s'.
Proof.
  intros D H. apply ForwardMessages_inv in H as (dst & s2 & s3 & E2 & Es & Hok & _ & Hl & H3 & H); [|done].
  assert (D2 : db_ok (t_db s2)) by (by rewrite E2).
  apply ensure_all_sound in H3 as [S3 C3]; [|done..].
  apply forward_all_sound in H; [|apply S3|by eapply dest_ok_calm].
  eapply sound_pre; [exact E2|exact Es|by eapply sound_trans].
Qed.

(** *** Deleting *)

(** No copy comes in, and no text changes. *)
Definition texts_kept (d d' : db) : Prop :=
  forall u l m', row_at d' u l = Some m' -> exists m, row_at d u l = Some m /\ identity m' = identity m /\
    Text m' = Text m /\ EditDate m' = EditDate m.

Record hushed (s s' : txs) : Prop := mkHushed { hu_sound :> sound s s'; hu_texts : texts_kept (t_db s) (t_db s') }.

Lemma hushed_refl s : db_ok (t_db s) -> hushed s s.
Proof. intros D. constructor; [by apply sound_refl|]. intros u l m Hm. by exists m. Qed.

Lemma hushed_trans s1 s2 s3 : hushed s1 s2 -> hushed s2 s3 -> hushed s1 s3.
Proof.
  intros [A1 A2] [B1 B2]. constructor; [by eapply sound_trans|]. intros u l m3 H3.
  destruct (B2 _ _ _ H3) as (m2 & H2 & ? & ? & ?), (A2 _ _ _ H2) as (m1 & Hm1 & ? & ? & ?).
  exists m1. split_and!; congruence.
Qed.

Lemma hushed_locked s ids : db_ok (t_db s) -> hushed s (mkTx (t_db s) (t_owners s ++ ids) (t_chats s) (stray s)).
Proof. intros D. constructor; [by apply sound_locked|]. intros u l m Hm. by exists m. Qed.

Lemma hushed_intro U s s' :
  db_ok (t_db s) -> calm U s s' -> (forall u, rtc (box_step u) (box_of (t_db s) u) (box_of (t_db s') u)) ->
  texts_kept (t_db s) (t_db s') -> hushed s s'.
Proof.
  intros D C Hm Ht. constructor; [|done]. eapply sound_texts; [done|exact C|done|].
  intros u l m' H. destruct (Ht u l m' H) as (m & ? & ? & ? & ?). by exists m.
Qed.

Lemma hushed_quiet U s s' :
  db_ok (t_db s) -> calm U s s' -> (forall u, rtc (box_step u) (box_of (t_db s) u) (box_of (t_db s') u)) ->
  (forall u, u ∈ U -> msgs (box_of (t_db s') u) = msgs (box_of (t_db s) u)) -> hushed s s'.
Proof.
  intros D C Hm Hq. eapply hushed_intro; try done. intros u l m' H. exists m'. split; [|done].
  unfold row_at in *. destruct (decide (u ∈ U)); [by rewrite <- Hq|by rewrite <- (ca_boxes _ _ _ C)].
Qed.

Lemma erased_sound u l r s s' :
  db_ok (t_db s) -> calm [u] s s' -> erased_if l r (box_of (t_db s) u) (box_of (t_db s') u) -> hushed s s'.
Proof.
  intros D C E. destruct r as [pts|]; simpl in E.
  - destruct E as [_ E]. eapply hushed_intro; [done|exact C| |].
    + eapply calm_moves; [exact C|]. intros v ->%list_elem_of_singleton. apply rtc_once. by eapply erased_step.
    + intros v k x Hx. unfold row_at in *. destruct (decide (v = u)) as [->|].
      * destruct E as (p & n & m & _ & _ & Hm & _ & Eb). rewrite Eb in Hx. simpl in Hx.
        apply lookup_insert_Some in Hx as [[<- <-]|[_ Hx]]; [by exists m|by exists x].
      * exists x. rewrite <- (ca_boxes _ _ _ C) by set_solver. done.
  - destruct E as [_ E]. eapply hushed_quiet; [done|exact C| |].
    + eapply calm_moves; [exact C|]. intros v ->%list_elem_of_singleton. by rewrite E.
    + intros v ->%list_elem_of_singleton. by rewrite E.
Qed.

Lemma delete_row_sound u l s r s' :
  db_ok (t_db s) -> u ∈ t_owners s -> delete_row u l s = (Ok r, s') -> hushed s s' /\ calm [u] s s'.
Proof. intros D Hu H. apply delete_row_ok in H as [C E]; [|done]. split; [by eapply erased_sound|done]. Qed.

Lemma delete_named_sound u l s r s' :
  db_ok (t_db s) -> u ∈ t_owners s -> delete_named u l s = (Ok r, s') -> hushed s s' /\ calm [u] s s'.
Proof.
  intros D Hu H. unfold delete_named in H. tx_inv.
  match goal with H : delete_row _ _ _ = (Ok ?r, _) |- _ => apply delete_row_sound in H; [|done..]; destruct r; tx_inv; done end.
Qed.

Lemma delete_copies_sound members copies po s x s' :
  db_ok (t_db s) -> (forall u, u ∈ map OwnerID copies -> u ∈ t_owners s) -> delete_copies members copies po s = (Ok x, s') ->
  hushed s s' /\ calm (map OwnerID copies) s s'.
Proof.
  revert s po. induction copies as [|c l IH]; intros s po D Hlk H; simpl in H.
  { tx_inv. split; [by apply hushed_refl|apply calm_refl]. }
  destruct (negb _).
  - apply IH in H as [S C]; [|done|intros v Hv; apply Hlk; by right]. split; [done|].
    eapply calm_weaken; [|exact C]. simpl. set_solver.
  - apply bind_ok in H as (r & s1 & H1 & H). apply delete_row_sound in H1 as [S1 C1]; [|done|apply Hlk; by left].
    apply IH in H as [S C]; [|apply S1|intros v Hv; apply (ca_owners _ _ _ C1), Hlk; by right].
    split; [by eapply hushed_trans|]. eapply calm_trans; (eapply calm_weaken; [|eassumption]); simpl; set_solver.
Qed.

Lemma delete_target_sound owner revoke t po s x s' :
  db_ok (t_db s) -> owner ∈ t_owners s -> (forall u, u ∈ target_owners t -> u ∈ t_owners s) ->
  delete_target owner revoke t po s = (Ok x, s') -> hushed s s' /\ calm (owner :: target_owners t) s s'.
Proof.
  intros D Ho Hlk H. destruct t as [m|m copies|m]; simpl in *.
  - tx_inv. match goal with H : delete_named _ _ _ = _ |- _ => apply delete_named_sound in H; done end.
  - tx_inv. match goal with H : delete_copies _ _ _ _ = _ |- _ => apply delete_copies_sound in H as [S C]; [|done..] end.
    split; [done|]. eapply calm_weaken; [|exact C]. set_solver.
  - apply bind_ok in H as (pts & s1 & H1 & H). apply delete_named_sound in H1 as [S1 C1]; [|done..].
    destruct (_ || _); tx_inv.
    { split; [done|]. eapply calm_weaken; [|exact C1]. set_solver. }
    match goal with H : delete_row _ _ _ = _ |- _ => apply delete_row_sound in H as [S C]; [|apply S1|apply (ca_owners _ _ _ C1), Hlk; set_solver] end.
    split; [by eapply hushed_trans|]. eapply calm_trans; (eapply calm_weaken; [|eassumption]); set_solver.
Qed.

Lemma delete_targets_sound owner revoke ts po s x s' :
  db_ok (t_db s) -> owner ∈ t_owners s -> (forall u, u ∈ flat_map target_owners ts -> u ∈ t_owners s) ->
  delete_targets owner revoke ts po s = (Ok x, s') -> hushed s s'.
Proof.
  revert s po. induction ts as [|t ts IH]; intros s po D Ho Hlk H; simpl in H; [tx_inv; by apply hushed_refl|].
  apply bind_ok in H as (m & s1 & H1 & H).
  apply delete_target_sound in H1 as [S C]; [|done|done|intros u Hu; apply Hlk; simpl; set_solver].
  eapply hushed_trans; [exact S|]. eapply IH; [apply S|by apply (ca_owners _ _ _ C)| |exact H].
  intros u Hu. apply (ca_owners _ _ _ C), Hlk. simpl. set_solver.
Qed.

Lemma DeleteMessages_hushed owner revoke ts s x s' :
  db_ok (t_db s) -> DeleteMessages owner revoke ts s = (Ok x, s') -> hushed s s'.
Proof.
  intros D H. unfold DeleteMessages in H. destruct ts as [|t ts]; [tx_inv; by apply hushed_refl|].
  apply bind_ok in H as ([] & s1 & H1 & H). apply lock_ok in H1 as ->. tx_inv.
  match goal with H : delete_targets _ _ _ _ _ = _ |- _ => apply delete_targets_sound in H end;
    [|done|apply locked_all; by left|intros u Hu; apply locked_all; by right].
  eapply hushed_trans; [by apply hushed_locked|done].
Qed.

(** *** Editing *)

(** The copies [P] picks are changed by [f]. *)
Definition alters (f : Message -> Message) (P : Z -> Z -> Prop) (d d' : db) : Prop :=
  forall u l, (P u l -> row_at d' u l = f <$> row_at d u l) /\ (~ P u l -> row_at d' u l = row_at d u l).

Lemma with_text_identity text now m : identity (with_text text now m) = identity m.
Proof. done. Qed.

(** Editing both copies of a message between users, or neither. *)
Lemma sound_edit text now (P : Z -> Z -> Prop) (DP : forall u l, Decision (P u l)) U s s' :
  db_ok (t_db s) -> calm U s s' -> (forall u, rtc (box_step u) (box_of (t_db s) u) (box_of (t_db s') u)) ->
  alters (with_text text now) P (t_db s) (t_db s') ->
  (forall u l m v k n, row_at (t_db s) u l = Some m -> row_at (t_db s) v k = Some n -> u <> v -> m_PeerType m = PeerTypeUser ->
     PeerID m = v -> PeerLocalID m = k -> mirrors m n -> P u l <-> P v k) -> sound s s'.
Proof.
  intros D C Hm Ha Hsym.
  assert (Hrow : forall u l m', row_at (t_db s') u l = Some m' -> exists m, row_at (t_db s) u l = Some m /\
            m' = if decide (P u l) then with_text text now m else m).
  { intros u l m' H. destruct (Ha u l) as [A1 A2]. case_decide as HP.
    - rewrite A1 in H by done. apply fmap_Some in H as (m & ? & ->). by exists m.
    - rewrite A2 in H by done. by exists m'. }
  eapply sound_image; try done.
  - intros u l m' H. destruct (Hrow u l m' H) as (m & Hr & ->). exists m. split; [done|]. by case_decide.
  - intros u l m m' v k n n' H1 H2 H3 H4 Hne Ht Ep El Hmi.
    specialize (Hsym u l m v k n H1 H3 Hne Ht Ep El Hmi).
    destruct (Hrow u l m' H2) as (m0 & E1 & ->), (Hrow v k n' H4) as (n0 & E2 & ->).
    rewrite H1 in E1. injection E1 as <-. rewrite H3 in E2. injection E2 as <-.
    destruct Hmi as (_ & _ & _ & Hpost & _). unfold post in Hpost.
    destruct (decide (P u l)), (decide (P v k)); [done|tauto|tauto|]. split; congruence.
Qed.

(** What the reads before the locks learnt; it stays true. *)
Definition plan_ok (owner local : Z) (plan : edit_plan) (d : db) : Prop :=
  match plan with
  | EditPair peer => exists m, row_at d owner local = Some m /\ m_PeerType m = PeerTypeUser /\ PeerID m = peer
  | EditFan pre copies =>
      OwnerID pre = owner /\ LocalID pre = local /\ NoDup (map OwnerID copies) /\
      (exists m, row_at d owner local = Some m /\ identity m = identity pre) /\
      (forall c, c ∈ copies -> FanoutID c = FanoutID pre /\ m_PeerType c = PeerTypeChat /\ PeerID c = PeerID pre /\
         exists m, row_at d (OwnerID c) (LocalID c) = Some m /\ identity m = identity c) /\
      (forall u l m, row_at d u l = Some m -> FanoutID m = FanoutID pre -> exists c, c ∈ copies /\ OwnerID c = u /\ LocalID c = l) /\
      1 <= FanoutID pre <= message_fanout_seq d
  end.

Lemma plan_ok_guar owner local plan d d' : plan_ok owner local plan d -> guar d d' -> plan_ok owner local plan d'.
Proof.
  intros H G. destruct plan as [peer|pre copies]; simpl in *.
  - destruct H as (m & Hm & Ht & Hp). destruct (g_rows _ _ G _ _ _ Hm) as (m' & Hm' & E & _). exists m'.
    unfold identity in E. split_and!; [done|congruence|congruence].
  - destruct H as (E1 & E2 & Hnd & (m & Hm & Em) & Hc & Hall & Hf). destruct (g_rows _ _ G _ _ _ Hm) as (m' & Hm' & E & _).
    split_and!; [done|done|done| | | |destruct (g_seqs _ _ G); lia..].
    + exists m'. split; [done|congruence].
    + intros c Hin. destruct (Hc c Hin) as (? & ? & ? & x & Hx & Ex). destruct (g_rows _ _ G _ _ _ Hx) as (x' & Hx' & E' & _).
      split_and!; try done. exists x'. split; [done|congruence].
    + intros u l x Hx Ef. destruct (row_at d u l) as [y|] eqn:Hy.
      * destruct (g_rows _ _ G _ _ _ Hy) as (y' & Hy' & E' & _). rewrite Hx in Hy'. injection Hy' as <-.
        apply (Hall u l y Hy). unfold identity in E'. congruence.
      * destruct (g_fans _ _ G u l x Hx Hy); lia.
Qed.

Lemma edited_row l text now pts b b' k :
  edited l text now pts b b' -> msgs b' !! k = if decide (k = l) then with_text text now <$> msgs b !! l else msgs b !! k.
Proof.
  intros (p & n & _ & _ & ->). simpl. case_decide as E; [subst; by rewrite lookup_alter_eq|by rewrite lookup_alter_ne].
Qed.

Lemma edit_pair_sound now u l peer text s pts s' :
  db_ok (t_db s) -> plan_ok u l (EditPair peer) (t_db s) -> edit_pair now u l peer text s = (Ok pts, s') -> sound s s'.
Proof.
  intros D (m & Hm & Ht & Hp) H. apply edit_pair_ok in H as (C & m0 & Hm0 & _ & _ & E & E').
  unfold row_at in Hm. rewrite Hm in Hm0. injection Hm0 as <-. fold (row_at (t_db s) u l) in Hm.
  destruct (place _ _ _ _ D Hm) as [Pu Pl]. destruct (do_rows _ D _ _ _ Hm) as [Ro Rk]. rewrite Ht in Rk.
  destruct Rk as (_ & _ & _ & Rk).
  set (P := fun a b : Z => a = u /\ b = l \/ u <> peer /\ a = peer /\ b = PeerLocalID m).
  assert (Hsec : u <> peer -> exists n, row_at (t_db s) peer (PeerLocalID m) = Some n /\ mirrors m n).
  { intros Hne. subst peer. apply Rk. congruence. }
  eapply (sound_edit text now P ltac:(unfold P; apply _)); [done|exact C| | |].
  - eapply calm_moves; [exact C|]. intros v Hv. apply rtc_once. destruct (decide (v = u)) as [->|Hvu].
    + eapply edited_step; [exact E|by eexists].
    + assert (v = peer) as -> by set_solver. destruct (E' (not_eq_sym Hvu)) as [q Eq].
      eapply edited_step; [exact Eq|]. destruct (Hsec (not_eq_sym Hvu)) as (n & Hn & _). by eexists.
  - intros a b. unfold row_at. unfold P. destruct (decide (a = u)) as [->|Hau].
    + rewrite (edited_row _ _ _ _ _ _ b E). case_decide as Hb; [subst b|].
      * split; [done|]. intros HP. destruct HP. by left.
      * split; [|done]. intros [[_ ?]|(? & ? & _)]; done.
    + destruct (decide (a = peer /\ u <> peer)) as [[-> Hne]|Hn].
      * destruct (E' Hne) as [q Eq]. rewrite (edited_row _ _ _ _ _ _ b Eq). case_decide as Hb; [subst b|].
        -- split; [done|]. intros HP. destruct HP. right. done.
        -- split; [|done]. intros [[? _]|(_ & _ & ?)]; done.
      * assert (a <> peer) by (intros ->; apply Hn; split; [done|congruence]).
        rewrite (ca_boxes _ _ _ C) by set_solver. split; [|done]. intros [[? _]|(_ & ? & _)]; done.
  - intros a b x c k y Hx Hy Hne Htx Ec Ek Hmi. destruct (place _ _ _ _ D Hx) as [Pa Pb].
    assert (Hback : mirrors x y) by done. destruct Hmi as (_ & M2 & M3 & _). subst c k. unfold P. split.
    + intros [[-> ->]|(Hup & -> & ->)].
      * rewrite Hm in Hx. injection Hx as <-. right. split_and!; congruence.
      * destruct (Hsec Hup) as (n & Hn & N1 & N2 & N3 & _). rewrite Hx in Hn. injection Hn as <-. left. split; congruence.
    + intros [[Eu El]|(Hup & Eu & El)].
      * rewrite Eu, El, Hm in Hy. injection Hy as <-. right. split_and!; congruence.
      * destruct (Hsec Hup) as (n & Hn & N1 & N2 & N3 & _). rewrite Eu, El, Hn in Hy. injection Hy as <-. left. split; congruence.
Qed.

Lemma elem_of_members members copies c : c ∈ of_members members copies <-> c ∈ copies /\ OwnerID c ∈ members.
Proof.
  unfold of_members. rewrite list_elem_of_In, filter_In, bool_decide_eq_true, <- list_elem_of_In. done.
Qed.

Lemma of_members_NoDup members copies : NoDup (map OwnerID copies) -> NoDup (map OwnerID (of_members members copies)).
Proof. apply NoDup_map_filter. Qed.

(** The copies of the members, edited: what each mailbox of a copy has become. *)
Definition fan_edited (now author : Z) (text : string) (pts : Z) (l : list Message) (s s' : txs) : Prop :=
  walked OwnerID (fun c b b' => exists q, (OwnerID c = author -> pts = q) /\ edited (LocalID c) text now q b b') l s s'.

Lemma editChatMessage_ok now pre copies text s pts s' :
  NoDup (map OwnerID copies) -> editChatMessage now pre copies text s = (Ok pts, s') ->
  (exists m, row_at (t_db s) (OwnerID pre) (LocalID pre) = Some m /\ Out m = true /\ Deleted m = false) /\
  OwnerID pre ∈ members_of (t_db s) (PeerID pre) /\
  fan_edited now (OwnerID pre) text pts (of_members (members_of (t_db s) (PeerID pre)) copies) s s'.
Proof.
  intros Hnd H. unfold editChatMessage in H. apply bind_ok in H as ([] & s1 & H1 & H). apply lock_ok in H1 as ->.
  apply bind_ok in H as (m & s1 & H1 & H). apply own_outgoing_ok in H1 as (-> & Hm & Ho & Hd). tx_inv. simpl in *.
  match goal with H : bool_decide _ = true |- _ => apply bool_decide_eq_true in H end.
  match goal with H : edit_copies _ _ _ _ _ _ = _ |- _ => apply edit_copies_ok in H as W; [|done|intros u Hu; by apply locked_all] end.
  split_and!; [by exists m|done|]. eapply walked_pre; [|exact W].
  eapply calm_fields; try done. set_solver.
Qed.

Lemma fan_edited_sound now author text pts l s s' :
  db_ok (t_db s) -> NoDup (map OwnerID l) ->
  (forall c, c ∈ l -> exists m, row_at (t_db s) (OwnerID c) (LocalID c) = Some m /\ m_PeerType m = PeerTypeChat) ->
  fan_edited now author text pts l s s' -> sound s s'.
Proof.
  intros D Hnd Hc [C W]. set (P := fun a b : Z => Exists (fun c => OwnerID c = a /\ LocalID c = b) l).
  eapply (sound_edit text now P ltac:(unfold P; apply _)); [done|exact C| | |].
  - eapply calm_moves; [exact C|]. intros v (c & -> & Hin)%list_elem_of_fmap_1. destruct (W c Hin) as (q & _ & E).
    apply rtc_once. eapply edited_step; [exact E|]. destruct (Hc c Hin) as (m & Hm & _). by eexists.
  - intros a b. unfold row_at, P. destruct (decide (a ∈ map OwnerID l)) as [Hin|Hn].
    + apply list_elem_of_fmap_1 in Hin as (c & -> & Hin). destruct (W c Hin) as (q & _ & E).
      rewrite (edited_row _ _ _ _ _ _ b E). case_decide as Hb; [subst b|].
      * split; [done|]. intros HP. destruct HP. apply Exists_exists. by exists c.
      * split; [|done]. intros (c' & Hin' & Eo & El)%Exists_exists. destruct Hb.
        rewrite <- El. f_equal. by eapply (NoDup_map_inj OwnerID).
    + rewrite (ca_boxes _ _ _ C) by done. split; [|done]. intros (c' & Hin' & <- & _)%Exists_exists. destruct Hn.
      by apply list_elem_of_fmap_2.
  - intros a b x v k y Hx Hy Hne Htx Ep El Hmi. destruct Hmi as (M1 & _). unfold P. split.
    + intros (c & Hin & <- & <-)%Exists_exists. destruct (Hc c Hin) as (m & Hm & E). congruence.
    + intros (c & Hin & <- & <-)%Exists_exists. destruct (Hc c Hin) as (m & Hm & E). congruence.
Qed.

Lemma EditMessage_sound now owner local text plan s x s' :
  db_ok (t_db s) -> plan_ok owner local plan (t_db s) -> EditMessage now owner local text plan s = (Ok x, s') -> sound s s'.
Proof.
  intros D Hp H. destruct plan as [peer|pre copies]; simpl in H; tx_inv.
  - match goal with H : edit_pair _ _ _ _ _ _ = _ |- _ => by eapply edit_pair_sound in H end.
  - destruct Hp as (E1 & E2 & Hnd & Hm & Hc & _).
    match goal with H : editChatMessage _ _ _ _ _ = _ |- _ => apply editChatMessage_ok in H as (_ & _ & W); [|done] end.
    eapply fan_edited_sound; [done| | |exact W]; [by apply of_members_NoDup|].
    intros c [Hin _]%elem_of_members. destruct (Hc c Hin) as (_ & Ht & _ & m & Hr & Ei). exists m. split; [done|].
    unfold identity in Ei. congruence.
Qed.

(** *** The reads before the locks *)

Lemma elem_of_all_messages d m : m ∈ all_messages d <-> exists u l, row_at d u l = Some m.
Proof.
  unfold all_messages, row_at, box_of. split.
  - intros H. apply list_elem_of_In, in_flat_map in H as ([u b] & Hb & Hm). apply list_elem_of_In, elem_of_map_to_list in Hb.
    apply list_elem_of_In, list_elem_of_fmap_1 in Hm as ([l x] & -> & Hl). apply elem_of_map_to_list in Hl.
    exists u, l. by rewrite Hb.
  - intros (u & l & H). destruct (boxes d !! u) as [b|] eqn:Hb; [|done]. simpl in H.
    apply list_elem_of_In, in_flat_map. exists (u, b). split; apply list_elem_of_In.
    + by apply elem_of_map_to_list.
    + apply list_elem_of_fmap. exists (l, m). split; [done|]. by apply elem_of_map_to_list.
Qed.

Lemma all_messages_NoDup d : db_ok d -> NoDup (all_messages d).
Proof.
  intros D. assert (E : all_messages d = map_to_list (boxes d) ≫= fun kv => (map_to_list (msgs kv.2)).*2).
  { unfold all_messages. induction (map_to_list (boxes d)) as [|x l IH]; [done|]. simpl. by rewrite IH. }
  rewrite E. clear E.
  assert (P : forall u b l m, (u, b) ∈ map_to_list (boxes d) -> (l, m) ∈ map_to_list (msgs b) -> OwnerID m = u /\ LocalID m = l).
  { intros u b l m Hb%elem_of_map_to_list Hm%elem_of_map_to_list. apply (place d); [done|]. unfold row_at, box_of. by rewrite Hb. }
  apply NoDup_bind; [| |apply NoDup_map_to_list].
  - intros [u b] [v c] m Hb Hc (x & -> & Hx)%list_elem_of_fmap_1 (y & Ey & Hy)%list_elem_of_fmap_1.
    destruct x as [l m], y as [k n]. simpl in *. subst n.
    destruct (P _ _ _ _ Hb Hx) as [<- _], (P _ _ _ _ Hc Hy) as [E _].
    apply elem_of_map_to_list in Hb, Hc. rewrite E in *. congruence.
  - intros [u b] Hb. apply NoDup_fmap_2_strong; [|apply NoDup_map_to_list].
    intros [l m] [k n] Hx Hy. simpl. intros ->. destruct (P _ _ _ _ Hb Hx) as [_ <-], (P _ _ _ _ Hb Hy) as [_ E]. congruence.
Qed.

Lemma elem_of_fanout f d m : m ∈ MessagesByFanout f d <-> f <> 0 /\ FanoutID m = f /\ exists u l, row_at d u l = Some m.
Proof.
  unfold MessagesByFanout. destruct (Z.eqb_spec f 0) as [->|Hf].
  - split; [by intros ?%elem_of_nil|]. by intros [? _].
  - rewrite (merge_sort_Permutation owner_le). rewrite list_elem_of_In, filter_In, <- list_elem_of_In, elem_of_all_messages, Z.eqb_eq.
    naive_solver.
Qed.

Lemma fanout_NoDup f d : db_ok d -> NoDup (map OwnerID (MessagesByFanout f d)).
Proof.
  intros D. apply (NoDup_fmap_2_strong OwnerID).
  - intros x y (Hf & Ex & u & l & Hx)%elem_of_fanout (_ & Ey & v & k & Hy)%elem_of_fanout E.
    destruct (place _ _ _ _ D Hx) as [<- _], (place _ _ _ _ D Hy) as [<- _].
    destruct (do_fans _ D _ _ _ _ _ _ Hx Hy) as [_ H]; [congruence|congruence|]. rewrite E, (H E) in Hx. congruence.
  - unfold MessagesByFanout. destruct (_ =? _); [constructor|]. rewrite (merge_sort_Permutation owner_le).
    apply NoDup_ListNoDup, List.NoDup_filter, NoDup_ListNoDup. by apply all_messages_NoDup.
Qed.

Lemma edit_read_plan owner local d plan : db_ok d -> edit_read owner local d = Ok plan -> plan_ok owner local plan d.
Proof.
  intros D. unfold edit_read. fold (row_at d owner local). destruct (row_at d owner local) as [pre|] eqn:Hp; [|done].
  destruct (place _ _ _ _ D Hp) as [Po Pl]. destruct (do_rows _ D _ _ _ Hp) as [Ro Rk].
  case_bool_decide as Ht.
  - unfold chatCopies. destruct (FanoutID pre =? 0) eqn:Ez; [done|]. apply Z.eqb_neq in Ez.
    pose proof (elem_of_fanout (FanoutID pre) d) as Hel. pose proof (fanout_NoDup (FanoutID pre) d D) as Hnd.
    destruct (MessagesByFanout _ d) as [|c0 cs]; [done|]. destruct (negb _); [done|]. intros [= <-]. rewrite Ht in Rk.
    split_and!; [done|done|done|by exists pre| | |lia..].
    + intros c Hc. apply Hel in Hc as (_ & Ef & u & l & Hr). destruct (place _ _ _ _ D Hr) as [<- <-].
      destruct (do_fans _ D _ _ _ _ _ _ Hr Hp) as [Ec _]; [done|congruence|]. unfold cast in Ec.
      split_and!; [done|congruence|congruence|]. by exists c.
    + intros u l m Hm Ef. destruct (place _ _ _ _ D Hm) as [<- <-]. exists m. split; [|done]. apply Hel. split_and!; [done|done|eauto].
  - intros [= <-]. exists pre. split_and!; [done| |done]. destruct (m_PeerType pre); [done|done|destruct Rk].
Qed.

(** *** Reading *)

Lemma on_box_sound {A} u (f : box -> option (A * box)) s x s' :
  db_ok (t_db s) -> u ∈ t_owners s ->
  (forall b y b', f b = Some (y, b') -> rtc (box_step u) b b' /\ msgs b' = msgs b) ->
  on_box u f s = (Ok x, s') -> hushed s s' /\ calm [u] s s'.
Proof.
  intros D Hu Hf H. tx_inv. match goal with H : f _ = Some (_, ?b) |- _ => destruct (Hf _ _ _ H) as [Hs Hq]; rename b into b1 end.
  assert (C : calm [u] s (wrote u b1 s)) by calm_chain. split; [|done].
  eapply hushed_quiet; [done|exact C| |].
  - eapply calm_moves; [exact C|]. intros v ->%list_elem_of_singleton. by box_simp.
  - intros v ->%list_elem_of_singleton. by box_simp.
Qed.

Lemma read_event_sound u ty l s pts s' :
  db_ok (t_db s) -> u ∈ t_owners s -> ty = EventReadIn \/ ty = EventReadOut -> bump_event u ty l s = (Ok pts, s') ->
  hushed s s' /\ calm [u] s s'.
Proof.
  intros D Hu Ht H. apply bump_event_ok in H as (p & n & Hc & -> & C & E); [|done]. split; [|done].
  eapply hushed_quiet; [done|exact C| |].
  - eapply calm_moves; [exact C|]. intros v ->%list_elem_of_singleton. rewrite E. apply rtc_once. by eapply bs_read.
  - intros v ->%list_elem_of_singleton. by rewrite E.
Qed.

Lemma ReadHistory_hushed owner peer maxID s x s' :
  db_ok (t_db s) -> ReadHistory owner peer maxID s = (Ok x, s') -> hushed s s'.
Proof.
  intros D H. unfold ReadHistory in H. apply bind_ok in H as ([] & s0 & H0 & H). apply lock_ok in H0 as ->.
  set (s0 := mkTx _ _ _ _) in *. assert (D0 : db_ok (t_db s0)) by done.
  assert (Ho : owner ∈ t_owners s0) by (apply locked_all; set_solver).
  assert (Hp : peer ∈ t_owners s0) by (apply locked_all; set_solver).
  eapply (hushed_trans _ s0); [by apply hushed_locked|]. clearbody s0. clear D s.
  apply bind_ok in H as (inbox & s1 & H1 & H). apply on_box_sound in H1 as [S1 C1]; [|done|done|].
  2: { intros b y b' [= Ey]. destruct (AdvanceReadInbox _ _ _ _ b) as [[i b1]|] eqn:Ea; simplify_eq; [|done].
       split; [apply rtc_once; by eapply bs_inbox|]. unfold AdvanceReadInbox in Ea. destruct (dialogs b !! _); [|done]. by simplify_eq. }
  apply (ca_owners _ _ _ C1) in Ho, Hp. eapply hushed_trans; [exact S1|]. destruct S1 as [[D1 _ _] _].
  destruct inbox as [i|]; [|unfold currentPts in H; tx_inv; tx_reads; by apply hushed_refl].
  destruct (owner =? peer).
  - tx_inv. match goal with H : bump_event _ _ _ _ = _ |- _ => apply read_event_sound in H as [S _]; auto end.
  - apply bind_ok in H as (pm & s2 & H2 & H). unfold look in H2. apply ask_ok in H2 as [_ <-].
    apply bind_ok in H as ([] & s2 & H2 & H). unfold put in H2. apply on_box_sound in H2 as [S2 C2]; [|done|done|].
    2: { intros b y b' [= _ <-]. split; [apply rtc_once; constructor|]. unfold AdvanceReadOutbox. by destruct (dialogs b !! _). }
    apply (ca_owners _ _ _ C2) in Ho, Hp.
    apply bind_ok in H as (rp & s3 & H3 & H). apply read_event_sound in H3 as [S3 C3]; [|apply (hu_sound _ _ S2)|done|by left].
    apply (ca_owners _ _ _ C3) in Hp.
    apply bind_ok in H as (pp & s4 & H4 & H). apply read_event_sound in H4 as [S4 C4]; [|apply (hu_sound _ _ S3)|done|by right].
    tx_inv. eapply hushed_trans; [exact S2|]. by eapply hushed_trans.
Qed.

(** *** Chats *)

Lemma compact_ids_sorted l : StronglySorted Z.le l -> StronglySorted Z.lt (compact_ids l).
Proof.
  induction l as [|a [|b l] IH]; intros H; [constructor|by repeat constructor|].
  change (compact_ids (a :: b :: l)) with (if a =? b then compact_ids (b :: l) else a :: compact_ids (b :: l)).
  apply StronglySorted_inv in H as [Hs Hf]. destruct (Z.eqb_spec a b) as [_|Hne]; [by apply IH|].
  constructor; [by apply IH|]. apply Forall_forall. intros x Hx. rewrite elem_of_compact_ids in Hx.
  pose proof (proj1 (Forall_cons _ _ _) Hf) as [Hab _].
  apply StronglySorted_inv in Hs as [_ Hb]. apply elem_of_cons in Hx as [->|Hx]; [lia|].
  rewrite Forall_forall in Hb. specialize (Hb x Hx). simpl in *. lia.
Qed.

Lemma ascendingUnique_sorted l : StronglySorted Z.lt (ascendingUnique l).
Proof. apply compact_ids_sorted, StronglySorted_merge_sort; [apply _|]. intros x y. lia. Qed.

Lemma sorted_NoDup l : StronglySorted Z.lt l -> NoDup l.
Proof.
  induction 1 as [|x l _ IH Hf]; constructor; [|done]. intros Hx. rewrite Forall_forall in Hf. specialize (Hf x Hx). lia.
Qed.

Lemma compact_ids_len l : len (compact_ids l) <= len l.
Proof.
  unfold len. induction l as [|a [|b l] IH]; [done|done|].
  change (compact_ids (a :: b :: l)) with (if a =? b then compact_ids (b :: l) else a :: compact_ids (b :: l)).
  destruct (a =? b); cbn [Datatypes.length] in *; lia.
Qed.

Lemma ascendingUnique_len l : len (ascendingUnique l) <= len l.
Proof.
  unfold ascendingUnique. pose proof (compact_ids_len (merge_sort Z.le l)) as H. unfold len in *.
  rewrite (merge_sort_Permutation Z.le l) in H at 2. done.
Qed.

(** Only the chats change. *)
Lemma sound_chats s s' :
  db_ok (t_db s) -> boxes (t_db s') = boxes (t_db s) -> message_fanout_seq (t_db s') = message_fanout_seq (t_db s) ->
  chats_id_seq (t_db s) <= chats_id_seq (t_db s') -> stray s' = stray s ->
  (forall id c, chats (t_db s') !! id = Some c -> chat_ok (t_db s') id c) ->
  (forall id, chats (t_db s') !! id = None -> members_of (t_db s') id = []) ->
  (forall id c, chats (t_db s) !! id = Some c -> exists c', chats (t_db s') !! id = Some c' /\ CreatorID c' = CreatorID c) ->
  sound s s'.
Proof.
  intros D Eb Ef Hs Es Hc Hm Hk.
  assert (E : forall u, box_of (t_db s') u = box_of (t_db s) u) by (intros u; unfold box_of; by rewrite Eb).
  assert (Er : forall u l, row_at (t_db s') u l = row_at (t_db s) u l) by (intros u l; unfold row_at; by rewrite E).
  constructor; [|apply guar_intro; try done|done].
  - constructor.
    + intros u. rewrite E. apply D.
    + intros u l m Hr. rewrite Er in Hr. destruct (do_rows _ D _ _ _ Hr) as [R1 R2]. constructor; [done|].
      destruct (m_PeerType m); [|lia|done]. destruct R2 as (? & ? & ? & R). split_and!; try done.
      intros Hp. destruct (R Hp) as (n & Hn & ?). exists n. by rewrite Er.
    + intros u l m v k n Hx Hy. rewrite Er in Hx, Hy. by eapply (do_fans _ D).
    + done.
    + done.
    + pose proof (do_seqs _ D). lia.
  - intros u. rewrite E. constructor.
  - intros u l m Hx Hy. rewrite Er in Hx. congruence.
  - unfold grown. lia.
Qed.

Lemma write_members_sound id l c s x s' :
  db_ok (t_db s) -> chats (t_db s) !! id = Some c -> CreatorID c ∈ l -> NoDup l -> len l <= maxChatParticipants ->
  write_members id l s = (Ok x, s') -> sound s s'.
Proof.
  intros D Hc Hin Hnd Hlen [= _ <-].
  assert (Em : forall i, members_of (set_members id l (t_db s)) i = if decide (i = id) then l else members_of (t_db s) i).
  { intros i. unfold members_of. simpl. case_decide as E; [subst; by rewrite lookup_insert_eq|by rewrite lookup_insert_ne]. }
  apply sound_chats; try done; simpl.
  - intros i x0 Hx. destruct (do_chats _ D _ _ Hx) as [A1 A2 A3 A4]. constructor; rewrite ?Em; try done; case_decide as E; try done.
    subst i. congruence.
  - intros i Hx. rewrite Em. case_decide; [congruence|]. by apply D.
  - intros i x0 Hx. by exists x0.
Qed.

Lemma write_chat_sound id c c' s x s' :
  db_ok (t_db s) -> chats (t_db s) !! id = Some c -> CreatorID c' = CreatorID c -> write_chat id c' s = (Ok x, s') -> sound s s'.
Proof.
  intros D Hc Hcr [= _ <-]. apply sound_chats; try done; simpl.
  - intros i y Hy. apply lookup_insert_Some in Hy as [[<- <-]|[_ Hy]].
    + destruct (do_chats _ D _ _ Hc) as [A1 A2 A3 A4]. constructor; try done. by rewrite Hcr.
    + destruct (do_chats _ D _ _ Hy). by constructor.
  - intros i Hy. apply lookup_insert_None in Hy as [Hy _]. by apply (do_members _ D).
  - intros i y Hy. destruct (decide (i = id)) as [->|].
    + exists c'. rewrite lookup_insert_eq. split; [done|congruence].
    + exists y. by rewrite lookup_insert_ne.
Qed.

Lemma dedup_members_in seen ids x : x ∈ seen -> x ∈ dedup_members seen ids.
Proof. revert seen. induction ids as [|i ids IH]; intros seen H; [done|]. simpl. apply IH. case_bool_decide; set_solver. Qed.

Lemma CreateChat_sound creator title ids s x s' :
  db_ok (t_db s) -> CreateChat creator title ids s = (Ok x, s') -> sound s s'.
Proof.
  intros D H. unfold CreateChat in H. destruct (len _ >? _) eqn:El; [done|].
  set (members := dedup_members [creator] ids) in *.
  apply bind_ok in H as (k0 & s1 & H1 & H). apply ask_ok in H1 as [<- <-].
  apply bind_ok in H as (n0 & s1 & H1 & H). injection H1 as <- <-. cbv zeta in H.
  set (kept := List.filter _ members) in *. set (n := chats_id_seq (t_db s) + 1) in *. tx_inv. simpl in *.
  repeat match goal with H : write_chat _ _ _ = (Ok _, _) |- _ => injection H as <-
                       | H : write_members _ _ _ = (Ok _, _) |- _ => injection H as <- end.
  match goal with H : negb (bool_decide _) = true |- _ => apply negb_true_iff, bool_decide_eq_false, eq_None_not_Some in H as Hn end.
  assert (Em : forall i db', chat_participants db' = <[n := ascendingUnique kept]> (chat_participants (t_db s)) ->
            members_of db' i = if decide (i = n) then ascendingUnique kept else members_of (t_db s) i).
  { intros i db' E. unfold members_of. rewrite E. case_decide as E'; [subst i; by rewrite lookup_insert_eq|by rewrite lookup_insert_ne]. }
  pose proof (do_seqs _ D) as Hseq.
  apply sound_chats; try done; simpl; [lia| | |].
  - intros i y Hy. apply lookup_insert_Some in Hy as [[<- <-]|[Hne Hy]].
    + constructor; simpl; [lia|..]; erewrite Em, decide_True by reflexivity.
      * rewrite elem_of_ascendingUnique. unfold kept. apply list_elem_of_In, filter_In. rewrite Z.eqb_refl. split; [|done].
        apply list_elem_of_In. unfold members. apply dedup_members_in. by left.
      * apply sorted_NoDup, ascendingUnique_sorted.
      * pose proof (ascendingUnique_len kept) as L1.
        assert (L2 : len kept <= len members) by (unfold kept, len; apply inj_le, List.filter_length_le). lia.
    + destruct (do_chats _ D _ _ Hy) as [A1 A2 A3 A4].
      constructor; simpl; [lia|..]; (erewrite Em by reflexivity); by rewrite decide_False.
  - intros i Hy. apply lookup_insert_None in Hy as [Hy Hne]. erewrite Em by reflexivity. rewrite decide_False by done. by apply (do_members _ D).
  - intros i y Hy. exists y. rewrite lookup_insert_ne; [done|]. intros <-. congruence.
Qed.

Lemma beginChatMutation_ok chat caller s m s' :
  beginChatMutation chat caller s = (Ok m, s') ->
  t_db s' = t_db s /\ stray s' = stray s /\ t_owners s' = t_owners s /\ chats (t_db s) !! chat = Some (cm_chat m) /\
  cm_members m = members_of (t_db s) chat /\ caller ∈ cm_members m.
Proof.
  intros H. unfold beginChatMutation in H. tx_inv. simpl in *.
  repeat match goal with H : bool_decide _ = true |- _ => apply bool_decide_eq_true in H end. done.
Qed.

(** The chat's own rows change, then the change is announced. *)
Definition announces (now : Z) (f : FanOut) (s s' : txs) : Prop :=
  exists s1 y, sound s s1 /\ boxes (t_db s1) = boxes (t_db s) /\ fanOut now f s1 = (Ok y, s').

Lemma announces_sound now f s s' : announces now f s s' -> sound s s'.
Proof. intros (s1 & y & S & _ & H). eapply sound_trans; [exact S|]. eapply fanOut_sound; [apply S|exact H]. Qed.

Lemma announces_pre now f s s1 s' : t_db s1 = t_db s -> stray s1 = stray s -> announces now f s1 s' -> announces now f s s'.
Proof.
  intros E Es (s2 & y & S & Eb & H). exists s2, y. split_and!; [by eapply sound_pre|congruence|done].
Qed.

(** A chat row with a new version, then the announcement to the members. *)
Lemma announce_ok now f id c c' s u s1 x s' :
  db_ok (t_db s) -> chats (t_db s) !! id = Some c -> CreatorID c' = CreatorID c ->
  write_chat id c' s = (Ok u, s1) -> fanOut now f s1 = (Ok x, s') -> announces now f s s'.
Proof.
  intros D Hc Hcr H1 H2. exists s1, x. split_and!; [by eapply write_chat_sound| |done]. by injection H1 as _ <-.
Qed.

Lemma SetChatTitle_ok now chat caller title s x s' :
  db_ok (t_db s) -> SetChatTitle now chat caller title s = (Ok x, s') ->
  announces now (announce chat caller title ChatActionEditTitle 0 []) s s'.
Proof.
  intros D H. unfold SetChatTitle in H. apply bind_ok in H as (m & s1 & H1 & H).
  apply beginChatMutation_ok in H1 as (Ed & Es & _ & Hc & Hm & _).
  eapply (announces_pre _ _ _ s1); [done..|]. rewrite <- Ed in D, Hc. clear Ed Es Hm s.
  apply bind_ok in H as ([] & s2 & H2 & H). apply require_ok in H2 as [_ <-].
  apply bind_ok in H as ([] & s2 & H2 & H). apply lock_ok in H2 as ->.
  apply bind_ok in H as ([] & s3 & H3 & H). apply bind_ok in H as ([[sender po] dup] & s4 & H4 & H). tx_inv.
  eapply announces_pre; [| |eapply (announce_ok _ _ _ (cm_chat m)); [| | |exact H3|exact H4]]; done.
Qed.

Lemma AddChatUser_ok now chat target caller s x s' :
  db_ok (t_db s) -> AddChatUser now chat target caller s = (Ok x, s') ->
  t_db s' = t_db s /\ stray s' = stray s \/ announces now (announce chat caller EmptyString ChatActionAddUser target []) s s'.
Proof.
  intros D H. unfold AddChatUser in H. apply bind_ok in H as (m & s1 & H1 & H).
  apply beginChatMutation_ok in H1 as (Ed & Es & _ & Hc & Hm & _). rewrite <- Ed in Hm, D, Hc.
  destruct (do_chats _ D _ _ Hc) as [A1 A2 A3 A4]. rewrite <- Hm in A2, A3, A4.
  apply bind_ok in H as ([] & s2 & H2 & H). apply require_ok in H2 as [_ <-].
  apply bind_ok in H as (bl & s2 & H2 & H). apply ask_ok in H2 as [_ <-].
  apply bind_ok in H as ([] & s2 & H2 & H). apply require_ok in H2 as [_ <-].
  apply bind_ok in H as ([] & s2 & H2 & H). apply lock_ok in H2 as ->.
  apply bind_ok in H as ([] & s2 & H2 & H). apply require_ok in H2 as [Hfull <-].
  case_bool_decide as Hin; [left; by apply ret_ok in H as [_ <-]|right].
  eapply announces_pre; [| |]; [..|].
  3: { simpl in Hfull. apply Z.ltb_lt in Hfull.
       apply bind_ok in H as ([] & s2 & H2 & H). eapply write_members_sound in H2 as S2; [|done|exact Hc|..].
       - apply bind_ok in H as ([] & s3 & H3 & H). apply bind_ok in H as ([[sender po] dup] & s4 & H4 & H). tx_inv.
         assert (Hc2 : chats (t_db s2) !! chat = Some (cm_chat m)) by (by injection H2 as <-).
         destruct (announce_ok now _ _ (cm_chat m) (bump_version (cm_chat m)) _ _ _ _ _ (so_ok _ _ S2) Hc2 eq_refl H3 H4) as (s5 & y & S5 & Eb & H5).
         exists s5, y. split_and!; [by eapply sound_trans| |exact H5]. rewrite Eb. by injection H2 as <-.
       - unfold insert_member. rewrite elem_of_ascendingUnique. by right.
       - apply sorted_NoDup, ascendingUnique_sorted.
       - pose proof (ascendingUnique_len (target :: cm_members m)) as L. unfold insert_member, len in *. simpl in L. lia. }
  all: done.
Qed.

Lemma RemoveChatUser_ok now chat target caller s x s' :
  db_ok (t_db s) -> RemoveChatUser now chat target caller s = (Ok x, s') ->
  t_db s' = t_db s /\ stray s' = stray s \/ announces now (announce chat caller EmptyString ChatActionDeleteUser target [target]) s s'.
Proof.
  intros D H. unfold RemoveChatUser in H. apply bind_ok in H as (m & s1 & H1 & H).
  apply beginChatMutation_ok in H1 as (Ed & Es & _ & Hc & Hm & _). rewrite <- Ed in Hm, D, Hc.
  destruct (do_chats _ D _ _ Hc) as [A1 A2 A3 A4].
  apply bind_ok in H as ([] & s2 & H2 & H). apply require_ok in H2 as [Hg <-].
  apply negb_true_iff, orb_false_iff in Hg as [Hg%Z.eqb_neq _].
  apply bind_ok in H as ([] & s2 & H2 & H). apply lock_ok in H2 as ->.
  apply bind_ok in H as (removed & s2 & H2 & H). unfold removeParticipant in H2.
  apply bind_ok in H2 as ([] & s3 & H3 & H2). apply lock_ok in H3 as ->.
  apply bind_ok in H2 as (members & s3 & H3 & H2). apply ask_ok in H3 as [<- <-]. simpl in H2.
  case_bool_decide as Hin; [right|left; apply ret_ok in H2 as [<- <-]; simpl in H; by apply ret_ok in H as [_ <-]].
  eapply announces_pre; [| |]; [..|].
  3: { apply bind_ok in H2 as ([] & s3 & H3 & H2). eapply write_members_sound in H3 as S3; [|done|exact Hc|..].
       - apply ret_ok in H2 as [<- <-]. simpl in H.
         apply bind_ok in H as ([] & s4 & H4 & H). apply bind_ok in H as ([[sender po] dup] & s5 & H5 & H). tx_inv.
         assert (Hc3 : chats (t_db s3) !! chat = Some (cm_chat m)) by (by injection H3 as <-).
         destruct (announce_ok now _ _ (cm_chat m) (bump_version (cm_chat m)) _ _ _ _ _ (so_ok _ _ S3) Hc3 eq_refl H4 H5) as (s6 & y & S6 & Eb & H6).
         exists s6, y. split_and!; [eapply sound_trans; [exact S3|exact S6]| |exact H6]. rewrite Eb. by injection H3 as <-.
       - apply list_elem_of_In, filter_In. split; [by apply list_elem_of_In|]. apply negb_true_iff, Z.eqb_neq. congruence.
       - apply NoDup_ListNoDup, List.NoDup_filter, NoDup_ListNoDup. done.
       - etrans; [|exact A4]. unfold len. apply inj_le, List.filter_length_le. }
  all: done.
Qed.

Lemma changed_sound now f s s' :
  db_ok (t_db s) -> t_db s' = t_db s /\ stray s' = stray s \/ announces now f s s' -> sound s s'.
Proof. intros D [[E Es]|H]; [by apply sound_same_db|by eapply announces_sound]. Qed.

Lemma SetChatDefaultBannedRights_sound chat caller rights s x s' :
  db_ok (t_db s) -> SetChatDefaultBannedRights chat caller rights s = (Ok x, s') -> sound s s'.
Proof.
  intros D H. unfold SetChatDefaultBannedRights in H. apply bind_ok in H as (m & s1 & H1 & H).
  apply beginChatMutation_ok in H1 as (Ed & Es & _ & Hc & _). eapply (sound_pre _ s1); [done..|]. rewrite <- Ed in D, Hc.
  clear Ed Es s. apply bind_ok in H as ([] & s2 & H2 & H). apply require_ok in H2 as [_ <-].
  destruct (sameDefaultBannedRights _ _); tx_inv; [by apply sound_refl|].
  match goal with H : write_chat _ _ _ = _ |- _ => eapply (write_chat_sound _ (cm_chat m)) in H; done end.
Qed.

Lemma SetChatPinnedMessage_sound chat caller pinned s x s' :
  db_ok (t_db s) -> SetChatPinnedMessage chat caller pinned s = (Ok x, s') -> sound s s'.
Proof.
  intros D H. unfold SetChatPinnedMessage in H. apply bind_ok in H as (m & s1 & H1 & H).
  apply beginChatMutation_ok in H1 as (Ed & Es & _ & Hc & _). eapply (sound_pre _ s1); [done..|]. rewrite <- Ed in D, Hc.
  clear Ed Es s. apply bind_ok in H as ([] & s2 & H2 & H). apply lock_ok in H2 as ->.
  apply bind_ok in H as ([] & s3 & H3 & H).
  assert (s3 = mkTx (t_db s1) (t_owners s1 ++ ascendingUnique (cm_members m)) (t_chats s1) (stray s1)) as ->.
  { destruct pinned as [id|]; [|by tx_inv]. unfold MessageByOwnerLocal in H3. tx_inv.
    destruct (msgs _ !! id); by tx_inv. }
  tx_inv. match goal with H : write_chat _ _ _ = _ |- _ => eapply (write_chat_sound _ (cm_chat m)) in H as S; [|done..] end.
  eapply sound_pre; [| |exact S]; done.
Qed.

(** ** A transaction that fails

    Everything is rolled back, but the sequences do not go down. *)

Definition climbs {A} (m : tx A) : Prop := forall s, grown (t_db s) (t_db (m s).2).

Lemma grown_refl d : grown d d.
Proof. split; lia. Qed.

Lemma grown_trans a b c : grown a b -> grown b c -> grown a c.
Proof. unfold grown. lia. Qed.

Lemma climbs_bind {A B} (m : tx A) (f : A -> tx B) : climbs m -> (forall x, climbs (f x)) -> climbs (m ≫= f).
Proof.
  intros Hm Hf s. unfold mbind, tx_bind. specialize (Hm s). destruct (m s) as [[x|e] s1]; simpl in *; [|done].
  eapply grown_trans; [done|apply Hf].
Qed.

Lemma climbs_ret {A} (x : A) : climbs (mret x).
Proof. intros s. (split; simpl; lia). Qed.

Lemma climbs_fail {A} e : climbs (@tfail A e).
Proof. intros s. (split; simpl; lia). Qed.

Lemma climbs_require b e : climbs (require b e).
Proof. intros s. destruct b; (split; simpl; lia). Qed.

Lemma climbs_ask {A} (f : db -> A) : climbs (ask f).
Proof. intros s. (split; simpl; lia). Qed.

Lemma climbs_box {A} u (f : box -> option (A * box)) : climbs (on_box u f).
Proof. intros s. unfold on_box. destruct (f _) as [[x b]|]; (split; simpl; lia). Qed.

Lemma climbs_put {A} u (f : box -> option box) (x : A) : climbs (put u f x).
Proof. apply climbs_box. Qed.

Lemma climbs_lock l : climbs (lockOwners l).
Proof. intros s. (split; simpl; lia). Qed.

Lemma climbs_chat id : climbs (ChatByIDForUpdate id).
Proof. intros s. unfold ChatByIDForUpdate. destruct (chats _ !! id); (split; simpl; lia). Qed.

Lemma climbs_next : climbs NextFanoutID.
Proof. intros s. split; simpl; lia. Qed.

Lemma climbs_back d : climbs (roll_back d).
Proof. intros s. (split; simpl; lia). Qed.

Lemma climbs_next_chat : climbs next_chat_id.
Proof. intros s. split; simpl; lia. Qed.

Lemma climbs_write_chat id c : climbs (write_chat id c).
Proof. intros s. (split; simpl; lia). Qed.

Lemma climbs_write_members id l : climbs (write_members id l).
Proof. intros s. (split; simpl; lia). Qed.

Create HintDb climbs.
#[export] Hint Resolve climbs_ret climbs_fail climbs_require climbs_ask climbs_box climbs_put climbs_lock climbs_chat
  climbs_next climbs_next_chat climbs_back climbs_write_chat climbs_write_members : climbs.

(** Down the body of a transaction. *)
Ltac climb :=
  repeat first
    [ solve [auto with climbs]
    | apply climbs_bind; [|intros ?]
    | match goal with
      | |- climbs (match ?x with _ => _ end) => destruct x
      | |- climbs (let _ := _ in _) => cbv zeta
      | |- climbs (look _ _) => apply climbs_ask
      end ].

Lemma climbs_event u ty l : climbs (bump_event u ty l).
Proof. unfold bump_event. climb. Qed.

Lemma climbs_files l : climbs (lockFileRefs l).
Proof. unfold lockFileRefs. climb. Qed.

Lemma climbs_local u l : climbs (MessageByOwnerLocal u l).
Proof. apply climbs_ask. Qed.

Lemma climbs_new_pts u l : climbs (newMessagePts u l).
Proof. unfold newMessagePts. climb. Qed.

Lemma climbs_state u : climbs (statePts u).
Proof. unfold statePts. climb. Qed.

Lemma climbs_restriction a b c d : climbs (checkDefaultMessageRestriction a b c d).
Proof. unfold checkDefaultMessageRestriction. climb. Qed.

#[export] Hint Resolve climbs_event climbs_files climbs_local climbs_new_pts climbs_state climbs_restriction : climbs.

Lemma climbs_reload u l : climbs (reload u l).
Proof. unfold reload. climb. Qed.

Lemma climbs_mirror m u : climbs (mirrorPts m u).
Proof. unfold mirrorPts. climb. Qed.

#[export] Hint Resolve climbs_reload climbs_mirror : climbs.

Lemma climbs_SendMessage now from to text r file reply : climbs (SendMessage now from to text r file reply).
Proof. unfold SendMessage, send_self, send_pair. climb. Qed.

Lemma climbs_ptsFor l : climbs (ptsFor l).
Proof. induction l; simpl; climb. Qed.

Lemma climbs_copies l : climbs (copies_pts l).
Proof. induction l; simpl; climb. Qed.

#[export] Hint Resolve climbs_ptsFor climbs_copies : climbs.

Lemma climbs_deliver now fid f owners : climbs (deliver_copies now fid f owners).
Proof. induction owners; simpl; unfold deliver_copy; climb. Qed.

Lemma climbs_fanoutPts m l : climbs (fanoutPts m l).
Proof. unfold fanoutPts. climb. Qed.

#[export] Hint Resolve climbs_deliver climbs_fanoutPts : climbs.

Lemma climbs_locked now f : climbs (fanOut_locked now f).
Proof. unfold fanOut_locked. climb. Qed.

Lemma climbs_fanOut now f : climbs (fanOut now f).
Proof. unfold fanOut. pose proof climbs_locked. climb. Qed.

Lemma climbs_edit_copies now author text members copies : climbs (edit_copies now author text members copies).
Proof. induction copies; simpl; climb. Qed.

Lemma climbs_own u l : climbs (own_outgoing u l).
Proof. unfold own_outgoing. climb. Qed.

#[export] Hint Resolve climbs_fanOut climbs_edit_copies climbs_own : climbs.

Lemma climbs_EditMessage now owner local text plan : climbs (EditMessage now owner local text plan).
Proof. unfold EditMessage, edit_pair, editChatMessage. climb. Qed.

Lemma climbs_delete_row u l : climbs (delete_row u l).
Proof. unfold delete_row. climb. Qed.

Lemma climbs_delete_copies members copies po : climbs (delete_copies members copies po).
Proof. revert po. induction copies; intros po; simpl; pose proof climbs_delete_row; climb. Qed.

#[export] Hint Resolve climbs_delete_row climbs_delete_copies : climbs.

Lemma climbs_target owner revoke t po : climbs (delete_target owner revoke t po).
Proof. destruct t; unfold delete_target, delete_named; climb. Qed.

Lemma climbs_targets owner revoke ts po : climbs (delete_targets owner revoke ts po).
Proof. revert po. induction ts; intros po; simpl; pose proof climbs_target; climb. Qed.

Lemma climbs_DeleteMessages owner revoke ts : climbs (DeleteMessages owner revoke ts).
Proof. unfold DeleteMessages. pose proof climbs_targets. climb. Qed.

Lemma climbs_ReadHistory owner peer maxID : climbs (ReadHistory owner peer maxID).
Proof. unfold ReadHistory, currentPts. climb. Qed.

Lemma climbs_forward_copies now fid from chat s r members po : climbs (forward_copies now fid from chat s r members po).
Proof. revert po. induction members; intros po; simpl; unfold forward_copy; climb. Qed.

#[export] Hint Resolve climbs_forward_copies : climbs.

Lemma climbs_forward_one now from dest s r po : climbs (forward_one now from dest s r po).
Proof. unfold forward_one, forward_pair, forward_chat. climb. Qed.

Lemma climbs_forward_all now from dest l po : climbs (forward_all now from dest l po).
Proof. revert po. induction l as [|[? ?] l IH]; intros po; simpl; pose proof climbs_forward_one; climb. Qed.

Lemma climbs_ensure_all l : climbs (ensure_all l).
Proof. induction l; simpl; climb. Qed.

#[export] Hint Resolve climbs_forward_all climbs_ensure_all : climbs.

Lemma climbs_ForwardMessages now from t dest srcs rs : climbs (ForwardMessages now from t dest srcs rs).
Proof. unfold ForwardMessages. climb. Qed.

Lemma climbs_begin chat caller : climbs (beginChatMutation chat caller).
Proof. unfold beginChatMutation. climb. Qed.

#[export] Hint Resolve climbs_begin : climbs.

Lemma climbs_CreateChat creator title ids : climbs (CreateChat creator title ids).
Proof. unfold CreateChat. climb. Qed.

Lemma climbs_AddChatUser now chat target caller : climbs (AddChatUser now chat target caller).
Proof. unfold AddChatUser. climb. Qed.

Lemma climbs_RemoveChatUser now chat target caller : climbs (RemoveChatUser now chat target caller).
Proof. unfold RemoveChatUser, removeParticipant. climb. Qed.

Lemma climbs_SetChatTitle now chat caller title : climbs (SetChatTitle now chat caller title).
Proof. unfold SetChatTitle. climb. Qed.

Lemma climbs_SetRights chat caller rights : climbs (SetChatDefaultBannedRights chat caller rights).
Proof. unfold SetChatDefaultBannedRights. climb. Qed.

Lemma climbs_SetPinned chat caller pinned : climbs (SetChatPinnedMessage chat caller pinned).
Proof. unfold SetChatPinnedMessage. climb. Qed.

(** ** Running a transaction *)

Lemma run_tx_ok {A} (m : tx A) d :
  climbs m -> (forall s x s', db_ok (t_db s) -> m s = (Ok x, s') -> t_db s = d -> sound s s') -> db_ok d ->
  db_ok (run_tx m d).2 /\ guar d (run_tx m d).2.
Proof.
  intros Hc Hm D. unfold run_tx. specialize (Hc (mkTx d [] [] [])). destruct (m (mkTx d [] [] [])) as [[x|e] s'] eqn:E; simpl in *.
  - destruct (Hm (mkTx d [] [] []) _ _ D E eq_refl). done.
  - destruct Hc. by apply db_ok_seqs.
Qed.

Lemma run_tx_inv {A} (m : tx A) d x d' :
  run_tx m d = (Ok x, d') -> exists s', m (mkTx d [] [] []) = (Ok x, s') /\ t_db s' = d'.
Proof. unfold run_tx. destruct (m _) as [[y|e] s'] eqn:E; intros [= <- <-]. by exists s'. Qed.
