(* ===== verification/MsgRuns.v ===== *)
(** * Messages: requests that run at once

    Every request on messages and chats as a program over the shared tables: the reads taken
    before any lock are steps of their own, the locked part of each is one.  What holds of
    the tables at every moment of every interleaving, and how they move between two. *)

From S2P Require Import Prelude.
From S2P Require Import NetAddr.
From S2P Require Import Threads.
From S2P Require Import Limits.
From S2P Require Import PeerHash.
From S2P Require Import UpdateBatch.
From S2P Require Import Mailbox.
From S2P Require Import MsgStore.
From S2P Require Import MsgLogic.
From S2P Require Import MsgSafety.
From Stdlib Require Import String.

Open Scope Z_scope.

(** ** Requests *)

Record env : Type := mkEnv { e_fault : fault; e_now : Z }.

Inductive request : Type :=
| RSend (from to : Z) (text : string) (randomID fileID replyTo : Z)
| RChat (f : FanOut)
| REdit (owner local : Z) (text : string)
| RDelete (owner : Z) (ids : list Z) (revoke : bool)
| RRead (owner peer maxID : Z)
| RForward (from : Z) (destType : PeerType) (dest : Z) (sources : list ForwardSource) (randomIDs : list Z)
| RCreate (creator : Z) (title : string) (members : list Z)
| RAdd (chat target caller : Z)
| RRemove (chat target caller : Z)
| RTitle (chat caller : Z) (title : string)
| RRights (chat caller : Z) (rights : list string)
| RPin (chat caller : Z) (pinned : option Z).

Inductive value : Type :=
| VSent (m : Message) (senderPts recipientPts : Z) (dup : bool)
| VFanned (sender : option Message) (perOwner : gmap Z Z) (dup : bool)
| VEdited (peer pts : Z)
| VDeleted (perOwner : gmap Z Z)
| VRead (readerPts peerPts : Z)
| VForwarded (perOwner : gmap Z Z) (sent : list (Message * Z))
| VCreated (chat : Z)
| VChanged (announced : option (option Message * gmap Z Z))
| VRights (changed : bool)
| VPinned (members : list Z).

(** What was read before the locks. *)
Inductive plan : Type :=
| NoPlan
| PlanEdit (p : edit_plan)
| PlanDelete (l : list target).

(** The reads before the locks: a request may end here. *)
Definition prepare (r : request) (d : db) : result tx_error plan :=
  match r with
  | RChat f => match fanOut_early f d with Some e => Err e | None => Ok NoPlan end
  | REdit owner local _ => match edit_read owner local d with Err e => Err e | Ok p => Ok (PlanEdit p) end
  | RDelete owner ids revoke => match delete_read owner ids revoke d with Err e => Err e | Ok l => Ok (PlanDelete l) end
  | RAdd chat _ caller | RRemove chat _ caller | RTitle chat caller _ | RRights chat caller _ | RPin chat caller _ =>
      if IsChatMember chat caller d then Ok NoPlan else Err ErrNotMember
  | _ => Ok NoPlan
  end.

(** The locked part. *)
Definition body (now : Z) (r : request) (p : plan) : tx value :=
  match r, p with
  | RSend from to text randomID file reply, _ =>
      '(m, sp, rp, dup) ← SendMessage now from to text randomID file reply; mret (VSent m sp rp dup)
  | RChat f, _ => '(sender, po, dup) ← fanOut_locked now f; mret (VFanned sender po dup)
  | REdit owner local text, PlanEdit p => '(peer, pts) ← EditMessage now owner local text p; mret (VEdited peer pts)
  | RDelete owner _ revoke, PlanDelete l => po ← DeleteMessages owner revoke l; mret (VDeleted po)
  | RRead owner peer maxID, _ => '(a, b) ← ReadHistory owner peer maxID; mret (VRead a b)
  | RForward from t dest srcs rs, _ => '(po, sent) ← ForwardMessages now from t dest srcs rs; mret (VForwarded po sent)
  | RCreate creator title ids, _ => id ← CreateChat creator title ids; mret (VCreated id)
  | RAdd chat target caller, _ => x ← AddChatUser now chat target caller; mret (VChanged x)
  | RRemove chat target caller, _ => x ← RemoveChatUser now chat target caller; mret (VChanged x)
  | RTitle chat caller title, _ => x ← SetChatTitle now chat caller title; mret (VChanged (Some x))
  | RRights chat caller rights, _ => x ← SetChatDefaultBannedRights chat caller rights; mret (VRights x)
  | RPin chat caller pinned, _ => x ← SetChatPinnedMessage chat caller pinned; mret (VPinned x)
  | _, _ => tfail ErrStore
  end.

Definition serve (r : request) : prog db env (result tx_error value) :=
  store_call e_fault (fun _ d => (prepare r d, d)) (fun a =>
    match a with
    | None => Ret (Err ErrStore)
    | Some (Err e) => Ret (Err e)
    | Some (Ok p) =>
        store_call e_fault (fun e d => run_tx (body (e_now e) r p) d) (fun b =>
          match b with None => Ret (Err ErrStore) | Some x => Ret x end)
    end).

(** The handlers that send to a chat name no extra recipient. *)
Definition plain (r : request) : Prop := match r with RChat f => f_Extra f = [] | _ => True end.

Definition starts (p : prog db env (result tx_error value)) : Prop := exists r, plain r /\ p = serve r.

Definition reach (d : db) : db * list (prog db env (result tx_error value)) -> Prop := pool_reach starts (fun _ => True) d.

(** ** Every step keeps the invariant *)

Definition planned (r : request) (p : plan) (d : db) : Prop :=
  match r, p with
  | REdit owner local _, PlanEdit p => plan_ok owner local p d
  | _, _ => True
  end.

Lemma planned_guar r p d d' : planned r p d -> guar d d' -> planned r p d'.
Proof. destruct r; try done. destruct p; try done. apply plan_ok_guar. Qed.

Lemma prepare_planned r p d : db_ok d -> prepare r d = Ok p -> planned r p d.
Proof.
  intros D H. destruct r; try done. simpl in H. destruct (edit_read _ _ d) eqn:E; [|done]. injection H as <-.
  by eapply edit_read_plan.
Qed.

Lemma body_climbs now r p : climbs (body now r p).
Proof.
  pose proof climbs_SendMessage. pose proof climbs_locked. pose proof climbs_EditMessage. pose proof climbs_DeleteMessages.
  pose proof climbs_ReadHistory. pose proof climbs_ForwardMessages. pose proof climbs_CreateChat. pose proof climbs_AddChatUser.
  pose proof climbs_RemoveChatUser. pose proof climbs_SetChatTitle. pose proof climbs_SetRights. pose proof climbs_SetPinned.
  destruct r, p; simpl; climb.
Qed.

(** A plan is of its request's kind; then a committed body is sound. *)
Lemma body_sound now r p s x s' : db_ok (t_db s) -> planned r p (t_db s) -> body now r p s = (Ok x, s') -> sound s s'.
Proof.
  intros D Hp H. destruct r; destruct p; try done; simpl in H;
    apply bind_ok in H as (y & s1 & H1 & H); assert (s1 = s') as -> by (destruct_pairs; by tx_inv); clear H.
  all: first [ by eapply SendMessage_sound | by eapply fanOut_locked_sound | by eapply EditMessage_sound
             | by eapply hu_sound, DeleteMessages_hushed | by eapply hu_sound, ReadHistory_hushed | by eapply ForwardMessages_sound
             | by eapply CreateChat_sound | by eapply changed_sound, AddChatUser_ok | by eapply changed_sound, RemoveChatUser_ok
             | by eapply announces_sound, SetChatTitle_ok | by eapply SetChatDefaultBannedRights_sound | by eapply SetChatPinnedMessage_sound ].
Qed.

Lemma body_kept now r p d :
  db_ok d -> planned r p d -> db_ok (run_tx (body now r p) d).2 /\ guar d (run_tx (body now r p) d).2.
Proof.
  intros D Hp. apply run_tx_ok; [apply body_climbs| |done]. intros s x s' Ds H E. eapply body_sound; [done| |exact H].
  by rewrite E.
Qed.

Lemma serve_safe r : exists K, (forall d, db_ok d -> K d) /\ safe db_ok guar (fun _ => True) K (serve r).
Proof.
  exists (fun _ => True). split; [done|]. unfold serve. apply safe_store_call; [reflexivity|done| |done].
  intros e d _ D _. split_and!; [done|reflexivity|]. cbn [fst snd].
  destruct (prepare r d) as [p|er] eqn:E; [|by exists (fun _ => True)].
  exists (planned r p). split; [by apply prepare_planned|].
  apply safe_store_call; [reflexivity|intros a b _; apply planned_guar| |done].
  intros e' d' _ D' Hp. destruct (body_kept (e_now e') r p d' D' Hp) as [D2 G2].
  split_and!; [done|done|]. by exists (fun _ => True).
Qed.

Lemma starts_safe p : starts p -> exists K, (forall d, db_ok d -> K d) /\ safe db_ok guar (fun _ => True) K p.
Proof. intros (r & _ & ->). apply serve_safe. Qed.

Lemma reach_ok d c : db_ok d -> reach d c -> pool_inv db_ok guar (fun _ => True) c.
Proof. intros D. apply pool_reach_inv; [apply starts_safe|done]. Qed.

Lemma reach_guar d c c' : db_ok d -> reach d c -> rtc (pool_step starts (fun _ => True)) c c' -> guar c.1 c'.1.
Proof.
  intros D R H. eapply pool_steps_guar; [apply starts_safe|intros s; reflexivity|intros x y z; apply transitivity| |exact H].
  by eapply reach_ok.
Qed.

(** The tables of a new server. *)
Definition empty_db (fs : gmap Z (option (list string))) (bl : gset (Z * Z)) : db := mkDb ∅ ∅ ∅ 0 0 fs bl.

Lemma empty_db_ok fs bl : db_ok (empty_db fs bl).
Proof.
  assert (E : forall u, box_of (empty_db fs bl) u = empty_box) by (intros u; unfold box_of; simpl; by rewrite lookup_empty).
  constructor; simpl; try done.
  intros u. rewrite E. apply empty_box_ok.
Qed.

(** ** What holds at every moment *)

(** C12 (invariant).  Under any interleaving of the requests, every account's event log is
    exact: its pts run from 1 to the account's counter without a gap, its local ids are
    those below the next one, every copy came in by exactly one event, is deleted exactly
    when exactly one event says so, and every message event names a copy that is there. *)
Theorem mailbox_log_exact fs bl c u :
  reach (empty_db fs bl) c ->
  let b := box_of c.1 u in
  log_ok (log b) /\
  (forall pts next, counters b = Some (pts, next) ->
     map ev_Pts (log b) = seqZ 1 pts /\ forall l, is_Some (msgs b !! l) <-> 1 <= l < next) /\
  (forall l m, msgs b !! l = Some m ->
     ev_count EventNewMessage l (log b) = 1 /\ ev_count EventDelete l (log b) = (if Deleted m then 1 else 0)) /\
  (forall e, e ∈ log b -> names_message (ev_Type e) -> is_Some (msgs b !! ev_LocalID e)).
Proof.
  intros R b. destruct (reach_ok _ _ (empty_db_ok fs bl) R) as [D _]. pose proof (do_boxes _ D u) as B. fold b in B.
  split_and!.
  - by eapply box_log_ok.
  - intros pts next Hc. split; [by eapply bo_log|]. intros l. by eapply bo_ids.
  - intros l m Hm. by destruct (bo_msgs _ _ B l m Hm) as (_ & _ & ? & ?).
  - apply B.
Qed.

(** C8 (refinement).  Between any two moments of a run each account's mailbox has moved by
    steps of the abstract mailbox alone: whatever several transactions write to it, its
    owner sees copies come in, change, and go, one pts and one event at a time. *)
Theorem mailboxes_refine fs bl c c' u :
  reach (empty_db fs bl) c -> rtc (pool_step starts (fun _ => True)) c c' ->
  rtc (box_step u) (box_of c.1 u) (box_of c'.1 u).
Proof. intros R H. exact (g_boxes _ _ (reach_guar _ _ _ (empty_db_ok fs bl) R H) u). Qed.

(** C19 (invariant).  The two copies of a message between two users mirror each other at
    every moment: each names the other, they carry the same sender, date, text, edit date,
    file and forward header, and exactly one of them is outgoing. *)
Theorem pairs_mirrored fs bl c u l m :
  reach (empty_db fs bl) c -> row_at c.1 u l = Some m -> m_PeerType m = PeerTypeUser -> PeerID m <> u ->
  exists n, row_at c.1 (PeerID m) (PeerLocalID m) = Some n /\ PeerID n = u /\ PeerLocalID n = l /\
    post n = post m /\ Out n = negb (Out m).
Proof.
  intros R Hm Ht Hp. destruct (reach_ok _ _ (empty_db_ok fs bl) R) as [D _]. destruct (place _ _ _ _ D Hm) as [Eu El].
  destruct (do_rows _ D _ _ _ Hm) as [_ K]. rewrite Ht in K. destruct K as (_ & _ & _ & K).
  destruct K as (n & Hn & M1 & M2 & M3 & M4 & M5); [congruence|]. exists n. split_and!; congruence.
Qed.

(** The copies of one chat message agree on its chat, sender, date, file,
    action and forward header, there is one to an owner, and nothing sent later joins them;
    a chat keeps its creator as a member and never exceeds 200 members. *)
Theorem chat_copies_agree fs bl c :
  reach (empty_db fs bl) c ->
  (forall u l m v k n, row_at c.1 u l = Some m -> row_at c.1 v k = Some n -> FanoutID m = FanoutID n -> FanoutID m <> 0 ->
     cast m = cast n /\ (u = v -> l = k)) /\
  (forall c' u l m v k n, rtc (pool_step starts (fun _ => True)) c c' -> row_at c.1 u l = Some m -> FanoutID m <> 0 ->
     row_at c'.1 v k = Some n -> FanoutID n = FanoutID m -> is_Some (row_at c.1 v k)) /\
  (forall id x, chats c.1 !! id = Some x -> CreatorID x ∈ members_of c.1 id /\ len (members_of c.1 id) <= 200).
Proof.
  intros R. destruct (reach_ok _ _ (empty_db_ok fs bl) R) as [D _]. split_and!.
  - apply D.
  - intros c' u l m v k n H Hm Hz Hn E. pose proof (reach_guar _ _ _ (empty_db_ok fs bl) R H) as G.
    destruct (row_at c.1 v k) eqn:Ev; [by eexists|]. destruct (do_rows _ D _ _ _ Hm) as [_ K].
    destruct (m_PeerType m); [by destruct K| |done]. destruct (g_fans _ _ G _ _ _ Hn Ev); lia.
  - intros id x Hx. destruct (do_chats _ D _ _ Hx). done.
Qed.
