(* ===== verification/MsgExact.v ===== *)
(** * Messages: what one request does

    The functional behaviour of sending: when it succeeds, exactly whose mailboxes change
    and how, and what a repeated token answers. *)

From S2P Require Import Prelude.
From S2P Require Import NetAddr.
From S2P Require Import Threads.
From S2P Require Import Limits.
From S2P Require Import PeerHash.
From S2P Require Import UpdateBatch.
From S2P Require Import Mailbox.
From S2P Require Import MsgStore.
From S2P Require Import MsgLogic.
From S2P Require Import MsgSafety.
From S2P Require Import MsgRuns.
From Stdlib Require Import String.

Open Scope Z_scope.

(** ** Running forward *)

Lemma bind_run {A B} (m : tx A) (f : A -> tx B) s x s' : m s = (Ok x, s') -> (m ≫= f) s = f x s'.
Proof. intros H. unfold mbind, tx_bind. by rewrite H. Qed.

Lemma on_box_run {A} u (f : box -> option (A * box)) s x b :
  f (box_of (t_db s) u) = Some (x, b) -> on_box u f s = (Ok x, wrote u b s).
Proof. intros H. unfold on_box. by rewrite H. Qed.

Lemma put_run {A} u (f : box -> option box) (x : A) s b : f (box_of (t_db s) u) = Some b -> put u f x s = (Ok x, wrote u b s).
Proof. intros H. apply on_box_run. by rewrite H. Qed.

Lemma look_run {A} u (f : box -> A) s : look u f s = (Ok (f (box_of (t_db s) u)), s).
Proof. done. Qed.

(** The statements of a copy, on a mailbox that is in order. *)
Lemma bump_run b p n : counters b = Some (p, n) -> BumpState b = Some (p + 1, n, mkBox (Some (p + 1, n + 1)) (msgs b) (log b) (dialogs b)).
Proof. intros H. unfold BumpState. by rewrite H. Qed.

Lemma insert_run u b p n m :
  box_ok u b -> counters b = Some (p, n) -> LocalID m = n -> MessageByRandomID (m_RandomID m) b = None ->
  InsertMessage m (mkBox (Some (p + 1, n + 1)) (msgs b) (log b) (dialogs b)) =
  Some (mkBox (Some (p + 1, n + 1)) (<[n := m]> (msgs b)) (log b) (dialogs b)).
Proof.
  intros B Hc Hl Hr. unfold InsertMessage. simpl. rewrite Hl.
  destruct (msgs b !! n) eqn:E.
  { assert (H : is_Some (msgs b !! n)) by (by eexists). apply (bo_ids _ _ B _ _ _ Hc) in H. lia. }
  change (MessageByRandomID (m_RandomID m) (mkBox (Some (p + 1, n + 1)) (msgs b) (log b) (dialogs b)))
    with (MessageByRandomID (m_RandomID m) b). by rewrite Hr.
Qed.

Lemma event_run u b p n ms ty l ds :
  box_ok u b -> counters b = Some (p, n) -> forall c,
  InsertEvent (mkEvent (p + 1) ty l) (mkBox c ms (log b) ds) = Some (mkBox c ms (log b ++ [mkEvent (p + 1) ty l]) ds).
Proof.
  intros B Hc c. unfold InsertEvent. simpl. destruct (existsb _ (log b)) eqn:E; [|done].
  apply existsb_exists in E as (e & He & E%Z.eqb_eq). apply list_elem_of_In in He. simpl in E.
  assert (Hin : ev_Pts e ∈ map ev_Pts (log b)) by (by apply list_elem_of_fmap_2).
  rewrite (bo_log _ _ B _ _ Hc) in Hin. apply elem_of_seqZ in Hin. lia.
Qed.

Lemma file_run id s : id = 0 \/ is_Some (files (t_db s) !! id) -> lockFileRefs [id] s = (Ok tt, s).
Proof.
  intros H. unfold lockFileRefs. destruct (Z.eqb_spec id 0) as [->|Hn]; [done|]. simpl.
  destruct (Z.eqb_spec id 0); [done|]. simpl. destruct H as [?|[x Hx]]; [done|].
  unfold mbind, tx_bind, ask. simpl. replace (ascendingUnique [id]) with [id] by (vm_compute; reflexivity). simpl.
  rewrite Hx. done.
Qed.

Lemma token_row r b m : MessageByRandomID r b = Some m -> exists l, msgs b !! l = Some m /\ m_RandomID m = r /\ r <> 0.
Proof.
  unfold MessageByRandomID. destruct (Z.eqb_spec r 0) as [|Hr]; [done|].
  intros ([l x] & Hh & ->)%fmap_Some. simpl. apply head_Some_elem_of, elem_of_map_to_list, map_lookup_filter_Some in Hh as [? ?].
  by exists l.
Qed.

(** A copy's pts is in the log. *)
Lemma new_pts_found u b l m : box_ok u b -> msgs b !! l = Some m -> exists p, NewMessagePts l b = Some p.
Proof.
  intros B Hm. destruct (bo_msgs _ _ B l m Hm) as (_ & _ & Hc & _). unfold NewMessagePts, ev_count in *.
  destruct (List.find _ (log b)) as [e|] eqn:Ef; [by eexists|].
  assert (E : List.filter (fun e => bool_decide (ev_Type e = EventNewMessage) && (ev_LocalID e =? l)) (log b) = []).
  { clear Hc. induction (log b) as [|e lg IH]; [done|]. simpl in *. destruct (_ && _); [done|auto]. }
  by rewrite E in Hc.
Qed.

Lemma newMessagePts_run u l m s :
  db_ok (t_db s) -> row_at (t_db s) u l = Some m -> exists p, newMessagePts u l s = (Ok p, s) /\ NewMessagePts l (box_of (t_db s) u) = Some p.
Proof.
  intros D Hm. destruct (new_pts_found _ _ _ _ (do_boxes _ D u) Hm) as [p Hp]. exists p. split; [|done].
  unfold newMessagePts. erewrite bind_run by apply look_run. by rewrite Hp.
Qed.

Lemma statePts_run u s c : counters (box_of (t_db s) u) = Some c -> statePts u s = (Ok c.1, s).
Proof. intros H. unfold statePts. erewrite bind_run by apply look_run. rewrite H. by destruct c. Qed.

Lemma mirrorPts_run from to l m s :
  db_ok (t_db s) -> is_Some (counters (box_of (t_db s) to)) -> row_at (t_db s) from l = Some m ->
  exists q, mirrorPts m to s = (Ok q, s).
Proof.
  intros D [c Hc] Hm. destruct (place _ _ _ _ D Hm) as [Eo El]. unfold mirrorPts.
  destruct (bool_decide (m_PeerType m = PeerTypeUser) && (OwnerID m =? to) && (PeerID m =? to)) eqn:Es.
  - rewrite Eo, El. destruct (newMessagePts_run _ _ _ _ D Hm) as (p & -> & _). by eexists.
  - destruct (negb _ || negb (PeerID m =? to) || (PeerLocalID m =? 0)) eqn:Ed; [rewrite (statePts_run _ _ _ Hc); by eexists|].
    apply orb_false_iff in Ed as [[Et%negb_false_iff Ep%negb_false_iff]%orb_false_iff Ez%Z.eqb_neq].
    apply bool_decide_eq_true in Et. apply Z.eqb_eq in Ep. destruct (do_rows _ D _ _ _ Hm) as [_ K]. rewrite Et in K.
    destruct K as (_ & _ & K1 & K2). destruct (decide (PeerID m = OwnerID m)) as [E|E]; [by rewrite K1 in Ez|].
    destruct (K2 E) as (n & Hn & _). rewrite Ep in Hn. destruct (newMessagePts_run _ _ _ _ D Hn) as (p & -> & _). by eexists.
Qed.

Lemma copy_reload m unread pts b b' u s : took m unread pts b b' -> reload u (LocalID m) (wrote u b' s) = (Ok m, wrote u b' s).
Proof. intros T. apply reload_ok. rewrite box_wrote_eq. split; [by eapply took_new|done]. Qed.

(** One statement forward, the mailboxes read through the writes before it. *)
Ltac step_box t := erewrite bind_run; [|first [apply put_run|apply on_box_run]; box_simp; t].

Lemma send_self_run now u text r file reply s p n :
  db_ok (t_db s) -> counters (box_of (t_db s) u) = Some (p, n) -> MessageByRandomID r (box_of (t_db s) u) = None ->
  exists y s', send_self now u text r file reply s = (Ok y, s').
Proof.
  intros D Hc Hr. pose proof (do_boxes _ D u) as B. unfold send_self.
  step_box ltac:(by apply bump_run). cbn beta iota.
  step_box ltac:(by eapply insert_run). step_box ltac:(by eapply event_run). step_box done.
  erewrite bind_run; [by eexists _, _|]. apply reload_ok. box_simp. simpl. rewrite lookup_insert_eq. done.
Qed.

Lemma send_pair_run now from to text r file reply s p n q k :
  db_ok (t_db s) -> from <> to -> counters (box_of (t_db s) from) = Some (p, n) -> counters (box_of (t_db s) to) = Some (q, k) ->
  MessageByRandomID r (box_of (t_db s) from) = None ->
  exists y s', send_pair now from to text r file reply s = (Ok y, s').
Proof.
  intros D Hne Hc Hc' Hr. pose proof (do_boxes _ D from) as B. pose proof (do_boxes _ D to) as B'. unfold send_pair.
  step_box ltac:(by apply bump_run). cbn beta iota. step_box ltac:(by apply bump_run). cbn beta iota.
  step_box ltac:(by eapply insert_run).
  assert (Href : forall t, exists v, (if reply >? 0 then MessageByOwnerLocal from reply else mret None) t = (Ok v, t))
    by (intros t; destruct (reply >? 0); by eexists).
  match goal with |- context[((if reply >? 0 then _ else _) ≫= _) ?t] => destruct (Href t) as [v Hv]; rewrite (bind_run _ _ _ _ _ Hv) end.
  cbv zeta. step_box ltac:(by eapply insert_run). step_box ltac:(by eapply event_run). step_box ltac:(by eapply event_run).
  step_box done. step_box done.
  erewrite bind_run; [by eexists _, _|]. apply reload_ok. box_simp. simpl. rewrite lookup_insert_eq. done.
Qed.

Lemma ensure_run u s : put u (fun b => Some (q_EnsureUpdateState b)) tt s = (Ok tt, wrote u (q_EnsureUpdateState (box_of (t_db s) u)) s).
Proof. by apply put_run. Qed.

(** Sending to a user goes through whenever the file it names is there. *)
Lemma SendMessage_run now from to text r file reply d :
  db_ok d -> file = 0 \/ is_Some (files d !! file) ->
  exists y d', run_tx (SendMessage now from to text r file reply) d = (Ok y, d').
Proof.
  intros D Hf. unfold run_tx.
  enough (exists y s', SendMessage now from to text r file reply (mkTx d [] [] []) = (Ok y, s')) as (y & s' & ->) by eauto.
  unfold SendMessage. erewrite bind_run; [|reflexivity]. erewrite bind_run; [|reflexivity]. cbn [t_db t_owners t_chats stray app].
  set (s0 := mkTx d _ _ _). assert (D0 : db_ok (t_db s0)) by done.
  assert (Lf : from ∈ t_owners s0) by (unfold s0; simpl; rewrite elem_of_ascendingUnique; set_solver).
  assert (Lt : to ∈ t_owners s0) by (unfold s0; simpl; rewrite elem_of_ascendingUnique; set_solver).
  rewrite (bind_run _ _ _ _ _ (file_run file s0 Hf)). clearbody s0. clear D Hf.
  rewrite (bind_run _ _ _ _ _ (ensure_run from s0)). destruct (ensure_ok _ _ _ _ D0 Lf (ensure_run from s0)) as (S1 & C1 & _ & Hcf).
  set (s1 := wrote from _ s0) in *. pose proof (ca_owners _ _ _ C1 _ Lt) as Lt1.
  rewrite (bind_run _ _ _ _ _ (ensure_run to s1)).
  destruct (ensure_ok _ _ _ _ (so_ok _ _ S1) Lt1 (ensure_run to s1)) as (S2 & C2 & Eb & Hct).
  set (s2 := wrote to _ s1) in *. pose proof (so_ok _ _ S2) as D2.
  assert (Hcf2 : is_Some (counters (box_of (t_db s2) from))).
  { destruct (decide (from = to)) as [<-|Hne]; [done|]. by rewrite (ca_boxes _ _ _ C2) by set_solver. }
  clearbody s2. clear S1 C1 S2 C2 Eb Lt1 Hcf s1 Lf Lt D0 s0.
  erewrite bind_run by apply look_run. destruct (MessageByRandomID r _) as [m|] eqn:Er.
  - destruct (token_row _ _ _ Er) as (l & Hm & _). destruct (place _ _ _ _ D2 Hm) as [_ El]. rewrite El.
    destruct (newMessagePts_run _ _ _ _ D2 Hm) as (p & Hp & _). rewrite (bind_run _ _ _ _ _ Hp).
    destruct (mirrorPts_run _ _ _ _ _ D2 Hct Hm) as (q & Hq). rewrite (bind_run _ _ _ _ _ Hq). by eexists _, _.
  - destruct Hcf2 as [[p n] Hcf], Hct as [[q k] Hct]. destruct (Z.eqb_spec from to) as [<-|Hne].
    + by eapply send_self_run.
    + by eapply send_pair_run.
Qed.

(** ** Sending to a user *)

Lemma ensure_rows b : msgs (q_EnsureUpdateState b) = msgs b /\ log (q_EnsureUpdateState b) = log b.
Proof. unfold q_EnsureUpdateState. by destruct (counters b). Qed.

Lemma ensure_token r b : MessageByRandomID r (q_EnsureUpdateState b) = MessageByRandomID r b.
Proof. unfold MessageByRandomID. by rewrite (proj1 (ensure_rows b)). Qed.

(** The mailboxes of sender and recipient after a send, from what they were once provisioned. *)
Definition sent_between (now from to : Z) (text : string) (r file reply : Z) (m : Message) (p q : Z) (dup : bool) (d d' : db) : Prop :=
  let before u := q_EnsureUpdateState (box_of d u) in
  (forall u, u <> from -> u <> to -> box_of d' u = box_of d u) /\
  match MessageByRandomID r (box_of d from) with
  | Some old =>
      dup = true /\ m = old /\ NewMessagePts (LocalID old) (box_of d from) = Some p /\ boxes d' = boxes d
  | None =>
      dup = false /\ exists rReply m',
        (m, m') = pair_rows now from to (LocalID m) (LocalID m') text r file (reply_to reply) rReply None /\
        took m 0 p (before from) (box_of d' from) /\ took m' 1 q (before to) (box_of d' to)
  end.

Lemma newMessagePts_inv u l s p s' : newMessagePts u l s = (Ok p, s') -> NewMessagePts l (box_of (t_db s) u) = Some p /\ s' = s.
Proof. unfold newMessagePts. intros H. tx_inv. destruct (NewMessagePts _ _) eqn:E; by tx_inv. Qed.

Lemma SendMessage_ok now from to text r file reply s m p q dup s' :
  db_ok (t_db s) -> from <> to -> SendMessage now from to text r file reply s = (Ok (m, p, q, dup), s') ->
  sent_between now from to text r file reply m p q dup (t_db s) (t_db s').
Proof.
  intros D Hne H. unfold SendMessage in H. apply bind_ok in H as (d0 & s0 & H0 & H). apply ask_ok in H0 as [<- <-].
  apply bind_ok in H as ([] & s0 & H0 & H). apply lock_ok in H0 as ->.
  set (s0 := mkTx _ _ _ _) in *. assert (D0 : db_ok (t_db s0)) by done. change (t_db s) with (t_db s0). change (t_db s) with (t_db s0) in H.
  assert (Hf : from ∈ t_owners s0) by (apply locked_all; set_solver).
  assert (Ht : to ∈ t_owners s0) by (apply locked_all; set_solver).
  clearbody s0. clear D s.
  apply bind_ok in H as ([] & s1 & H1 & H). apply reads_files in H1 as ->.
  apply bind_ok in H as ([] & s1 & H1 & H). apply ensure_ok in H1 as (S1 & C1 & E1 & _); [|done..].
  apply bind_ok in H as ([] & s2 & H2 & H). apply ensure_ok in H2 as (S2 & C2 & E2 & _); [|apply S1|by apply (ca_owners _ _ _ C1)].
  assert (Hf2 : from ∈ t_owners s2) by (apply (ca_owners _ _ _ C2), (ca_owners _ _ _ C1); done).
  assert (Ht2 : to ∈ t_owners s2) by (apply (ca_owners _ _ _ C2), (ca_owners _ _ _ C1); done).
  assert (Ef : box_of (t_db s2) from = q_EnsureUpdateState (box_of (t_db s0) from)) by (by rewrite (ca_boxes _ _ _ C2) by set_solver).
  assert (Et : box_of (t_db s2) to = q_EnsureUpdateState (box_of (t_db s0) to)) by (by rewrite E2, (ca_boxes _ _ _ C1) by set_solver).
  assert (Eo : forall u, u <> from -> u <> to -> box_of (t_db s2) u = box_of (t_db s0) u)
    by (intros u Hu Hu'; by rewrite (ca_boxes _ _ _ C2), (ca_boxes _ _ _ C1) by set_solver).
  apply bind_ok in H as (ex & s3 & H3 & H). unfold look in H3. apply ask_ok in H3 as [Ex <-]. rewrite Ef, ensure_token in Ex.
  unfold sent_between. cbv zeta. rewrite <- Ef, <- Et, Ex. destruct ex as [old|].
  - apply bind_ok in H as (p' & s4 & H4 & H). apply newMessagePts_inv in H4 as [Hp ->].
    apply bind_ok in H as (q' & s4 & H4 & H). apply reads_mirror in H4 as ->.
    apply bind_ok in H as ([] & s4 & H4 & H). apply rolled_back in H4 as [Ed _]. apply ret_ok in H as [E <-]. destruct_pairs.
    split; [intros u _ _; by rewrite Ed|]. split_and!; try done; [|by rewrite Ed]. rewrite <- Hp, Ef. unfold NewMessagePts. by rewrite (proj2 (ensure_rows _)).
  - rewrite (proj2 (Z.eqb_neq _ _) Hne) in H. apply send_pair_ok in H as (-> & C & rr & m' & E & T & T'); [|done..].
    split; [intros u Hu Hu'; rewrite (ca_boxes _ _ _ C) by set_solver; by apply Eo|]. split; [done|]. by exists rr, m'.
Qed.

(** C25 (functional).  At any moment of any run, a message sent to another user goes through
    when the file it names is there.  With a token not seen before, exactly two mailboxes
    change: each gets one copy at its next local id and pts, the two naming each other, the
    recipient's counted as unread.  With a token already used, nothing is written, and the
    stored message and the pts it came in at are answered again. *)
Theorem send_message_exact fs bl c now from to text r file reply :
  reach (empty_db fs bl) c -> from <> to -> file = 0 \/ is_Some (files c.1 !! file) ->
  exists m p q dup d', run_tx (SendMessage now from to text r file reply) c.1 = (Ok (m, p, q, dup), d') /\
    sent_between now from to text r file reply m p q dup c.1 d'.
Proof.
  intros R Hne Hf. destruct (reach_ok _ _ (empty_db_ok fs bl) R) as [D _].
  destruct (SendMessage_run now from to text r file reply _ D Hf) as ([[[m p] q] dup] & d' & H).
  exists m, p, q, dup, d'. split; [done|]. apply run_tx_inv in H as (s' & H & <-). by apply SendMessage_ok in H.
Qed.

(** ** Sending to a chat *)

Lemma deliver_copy_run now fid u f s :
  box_ok u (box_of (t_db s) u) -> (u = f_FromID f -> MessageByRandomID (f_RandomID f) (box_of (t_db s) u) = None) ->
  exists y s', deliver_copy now fid u f s = (Ok y, s').
Proof.
  intros B Hr. assert (B' : box_ok u (q_EnsureUpdateState (box_of (t_db s) u))) by (eapply box_step_ok; [exact B|constructor]).
  destruct (ensure_counters (box_of (t_db s) u)) as [[p n] Hc]. unfold deliver_copy.
  rewrite (bind_run _ _ _ _ _ (ensure_run u s)).
  step_box ltac:(by apply bump_run). cbn beta iota zeta.
  step_box ltac:(eapply insert_run; [exact B'|exact Hc|done|rewrite ensure_token; simpl;
                   destruct (Z.eqb_spec u (f_FromID f)) as [E|]; [by apply Hr|done]]).
  step_box ltac:(by eapply event_run). step_box done. by eexists _, _.
Qed.

Lemma deliver_copies_run now fid f owners s :
  NoDup owners -> (forall u, u ∈ owners -> u ∈ t_owners s /\ box_ok u (box_of (t_db s) u)) ->
  (f_FromID f ∈ owners -> MessageByRandomID (f_RandomID f) (box_of (t_db s) (f_FromID f)) = None) ->
  exists y s', deliver_copies now fid f owners s = (Ok y, s').
Proof.
  revert s. induction owners as [|u l IH]; intros s Hnd Hb Hr; [by eexists _, _|]. apply NoDup_cons in Hnd as [Hu Hnd]. simpl.
  destruct (Hb u) as [Hl B]; [by left|].
  destruct (deliver_copy_run now fid u f s B) as ([pts lo] & s1 & H1); [intros ->; apply Hr; by left|].
  rewrite (bind_run _ _ _ _ _ H1). apply deliver_copy_ok in H1 as [C T]; [|done]. cbn beta iota.
  destruct (IH s1) as ([po z] & s2 & H2); [done| | |rewrite (bind_run _ _ _ _ _ H2); by eexists _, _].
  - intros v Hv. destruct (Hb v) as [? ?]; [by right|]. split; [by apply (ca_owners _ _ _ C)|].
    rewrite (ca_boxes _ _ _ C); [done|]. intros ->%list_elem_of_singleton. done.
  - intros Hin. rewrite (ca_boxes _ _ _ C); [apply Hr; by right|]. intros E%list_elem_of_singleton. by rewrite E in Hin.
Qed.

Lemma copies_pts_run l s :
  (forall m, m ∈ l -> exists p, NewMessagePts (LocalID m) (box_of (t_db s) (OwnerID m)) = Some p) ->
  NoDup (map OwnerID l) ->
  exists po, copies_pts l s = (Ok po, s) /\
    forall m, m ∈ l -> po !! OwnerID m = NewMessagePts (LocalID m) (box_of (t_db s) (OwnerID m)).
Proof.
  induction l as [|m l IH]; intros H Hnd.
  { exists ∅. split; [done|]. by intros m ?%elem_of_nil. }
  apply NoDup_cons in Hnd as [Hm Hnd]. destruct (H m) as [p Hp]; [by left|].
  destruct IH as (po & E & Hpo); [intros x Hx; apply H; by right|done|].
  exists (<[OwnerID m := p]> po). split.
  - simpl. unfold newMessagePts. erewrite bind_run; [|erewrite bind_run by apply look_run; rewrite Hp; done].
    by rewrite (bind_run _ _ _ _ _ E).
  - intros x [->|Hx]%elem_of_cons; [by rewrite lookup_insert_eq|]. rewrite lookup_insert_ne; [by apply Hpo|].
    intros Eo. apply Hm. rewrite Eo. by apply list_elem_of_fmap_2.
Qed.

(** The copies of a chat text: one for every member, and for nobody else. *)
Definition told_members (now : Z) (f : FanOut) (sender : option Message) (po : gmap Z Z) (d d' : db) : Prop :=
  let members := members_of d (f_ChatID f) in
  let copy u l := fan_row now (message_fanout_seq d + 1) u l f in
  (forall u, u ∉ members -> box_of d' u = box_of d u) /\ dom po = list_to_set members /\
  forall u, u ∈ members -> exists pts l, po !! u = Some pts /\ (u = f_FromID f -> sender = Some (copy u l)) /\
    took (copy u l) (if u =? f_FromID f then 0 else 1) pts (q_EnsureUpdateState (box_of d u)) (box_of d' u).

Lemma set_seqs_same d : set_seqs (message_fanout_seq d) (chats_id_seq d) d = d.
Proof. by destruct d. Qed.

Lemma len_zero_members d id u : u ∈ members_of d id -> len (members_of d id) <> 0.
Proof. intros H E. apply len_zero in E. rewrite E in H. by apply elem_of_nil in H. Qed.

(** After the checks and under the locks. *)
Definition text_tail (now : Z) (f : FanOut) (chat : Chat) (members : list Z) : tx (option Message * gmap Z Z * bool) :=
  existing ← look (f_FromID f) (MessageByRandomID (f_RandomID f));
  match existing with
  | Some m =>
      pts ← fanoutPts m members;
      mret (Some m, pts, true)
  | None =>
      checkDefaultMessageRestriction (DefaultBannedRights chat) (f_FromID f =? CreatorID chat) (negb (f_FileID f =? 0))
        (f_MediaRights f);;
      fanoutID ← NextFanoutID;
      '(perOwner, senderLocal) ← deliver_copies now fanoutID f members;
      sender ← (if senderLocal =? 0 then mret None
                else (m ← reload (f_FromID f) senderLocal; mret (Some m)));
      mret (sender, perOwner, false)
  end.

Definition under_locks (f : FanOut) (d : db) : txs :=
  mkTx d (ascendingUnique (members_of d (f_ChatID f))) [f_ChatID f] [].

Lemma text_prefix now f d chat :
  f_Extra f = [] -> f_Action f = ChatActionNone -> chats d !! f_ChatID f = Some chat ->
  f_FromID f ∈ members_of d (f_ChatID f) -> len (members_of d (f_ChatID f)) <= maxChatParticipants ->
  f_FileID f = 0 \/ is_Some (files d !! f_FileID f) ->
  fanOut_locked now f (mkTx d [] [] []) = text_tail now f chat (members_of d (f_ChatID f)) (under_locks f d).
Proof.
  intros He Ha Hc Hm Hl Hf. unfold fanOut_locked.
  erewrite bind_run; [|unfold ChatByIDForUpdate; simpl; rewrite Hc; done]. erewrite bind_run; [|done]. cbv zeta. simpl t_db.
  rewrite Ha. change (ChatActionNone =? ChatActionNone) with true. rewrite bool_decide_true by done. cbn [andb negb].
  erewrite bind_run; [|done]. rewrite He. cbn [fanout_owners foldl].
  rewrite (proj2 (Z.eqb_neq _ _) (len_zero_members _ _ _ Hm)).
  erewrite bind_run; [|done]. rewrite Z.gtb_ltb, (proj2 (Z.ltb_ge _ _) Hl).
  erewrite bind_run; [|done]. erewrite bind_run; [|done]. cbn [t_db t_owners t_chats stray app].
  fold (under_locks f d). erewrite bind_run; [|by apply file_run]. done.
Qed.

(** A member's text with a new token, where texts are allowed. *)
Lemma text_new now f d chat :
  db_ok d -> chats d !! f_ChatID f = Some chat -> f_FromID f ∈ members_of d (f_ChatID f) ->
  MessageByRandomID (f_RandomID f) (box_of d (f_FromID f)) = None ->
  write_forbidden (DefaultBannedRights chat) (f_FromID f =? CreatorID chat) (negb (f_FileID f =? 0)) (f_MediaRights f) = false ->
  exists y s', text_tail now f chat (members_of d (f_ChatID f)) (under_locks f d) = (Ok (y, false), s').
Proof.
  intros D Hc Hm Hr Hw. set (members := members_of d (f_ChatID f)).
  unfold text_tail. erewrite bind_run by apply look_run. change (t_db (under_locks f d)) with d. rewrite Hr.
  unfold checkDefaultMessageRestriction. rewrite Hw. simpl negb. erewrite bind_run; [|done]. erewrite bind_run; [|done].
  match goal with |- context[(deliver_copies now ?fid f members ≫= _) ?s1] =>
    destruct (deliver_copies_run now fid f members s1) as ([po z] & s2 & H2) end.
  - by apply members_NoDup.
  - intros u Hu. split; [simpl; by rewrite elem_of_ascendingUnique|]. apply D.
  - by intros _.
  - rewrite (bind_run _ _ _ _ _ H2). cbn beta iota.
    assert (H3 := H2). apply deliver_copies_ok in H3 as (W & _ & _); [|by apply members_NoDup|intros u Hu; simpl; by rewrite elem_of_ascendingUnique].
    destruct W as [_ W]. destruct (W _ Hm) as (pts & l & _ & El & T). specialize (El eq_refl). subst z.
    assert (Hl : 1 <= l) by (pose proof (took_positive _ _ _ _ _ _ (do_boxes _ D _) T) as Hp; exact Hp).
    destruct (Z.eqb_spec l 0); [lia|]. erewrite bind_run; [by eexists _, _|]. erewrite bind_run; [done|].
    apply reload_ok. split; [|done]. exact (took_new _ _ _ _ _ T).
Qed.

(** The text of a member, repeated. *)
Lemma text_again now f d chat m :
  db_ok d -> f_FromID f ∈ members_of d (f_ChatID f) ->
  MessageByRandomID (f_RandomID f) (box_of d (f_FromID f)) = Some m -> m_PeerType m = PeerTypeChat ->
  exists po, text_tail now f chat (members_of d (f_ChatID f)) (under_locks f d) = (Ok (Some m, po, true), under_locks f d) /\
    forall u l n, row_at d u l = Some n -> FanoutID n = FanoutID m -> po !! u = NewMessagePts l (box_of d u).
Proof.
  intros D Hm Hr Ht. unfold text_tail. erewrite bind_run by apply look_run. change (t_db (under_locks f d)) with d. rewrite Hr.
  destruct (token_row _ _ _ Hr) as (l & Hl & _). destruct (do_rows _ D _ _ _ Hl) as [_ K]. rewrite Ht in K.
  unfold fanoutPts. destruct (Z.eqb_spec (FanoutID m) 0) as [|Hz]; [lia|].
  destruct (copies_pts_run (MessagesByFanout (FanoutID m) d) (under_locks f d)) as (po & E & Hpo).
  - intros n (_ & _ & u & k & Hn)%elem_of_fanout. destruct (place _ _ _ _ D Hn) as [<- <-]. simpl.
    exact (new_pts_found _ _ _ _ (do_boxes _ D _) Hn).
  - by apply fanout_NoDup.
  - exists po. split.
    + erewrite bind_run; [done|]. erewrite bind_run; [exact E|]. done.
    + intros u k n Hn Ef. destruct (place _ _ _ _ D Hn) as [<- <-]. apply Hpo. apply elem_of_fanout. split_and!; [done|done|eauto].
Qed.

(** At any moment of any run, what a text sent to a chat does is decided
    by the chat's state under its lock: a caller who is not a member, or a chat that is not
    there, gets the same error; a member whose texts the chat forbids is refused; otherwise
    the text is stored once for every member and for nobody else, at each one's next local
    id and pts, all but the sender's counted as unread; and a text repeated by its token
    writes nothing and answers each copy's own pts again. *)
Theorem chat_text_exact fs bl c now f :
  reach (empty_db fs bl) c -> f_Extra f = [] -> f_Action f = ChatActionNone ->
  f_FileID f = 0 \/ is_Some (files c.1 !! f_FileID f) ->
  match chats c.1 !! f_ChatID f with
  | Some chat =>
      if bool_decide (f_FromID f ∈ members_of c.1 (f_ChatID f)) then
        match MessageByRandomID (f_RandomID f) (box_of c.1 (f_FromID f)) with
        | Some m =>
            m_PeerType m = PeerTypeChat ->
            exists po, run_tx (fanOut_locked now f) c.1 = (Ok (Some m, po, true), c.1) /\
              forall u l n, row_at c.1 u l = Some n -> FanoutID n = FanoutID m -> po !! u = NewMessagePts l (box_of c.1 u)
        | None =>
            if write_forbidden (DefaultBannedRights chat) (f_FromID f =? CreatorID chat) (negb (f_FileID f =? 0)) (f_MediaRights f)
            then run_tx (fanOut_locked now f) c.1 = (Err ErrChatWriteForbidden, c.1)
            else exists sender po d', run_tx (fanOut_locked now f) c.1 = (Ok (sender, po, false), d') /\
                   told_members now f sender po c.1 d'
        end
      else run_tx (fanOut_locked now f) c.1 = (Err ErrNotMember, c.1)
  | None => run_tx (fanOut_locked now f) c.1 = (Err ErrNotMember, c.1)
  end.
Proof.
  intros R He Ha Hf. destruct (reach_ok _ _ (empty_db_ok fs bl) R) as [D _]. set (d := c.1) in *. clearbody d. clear R c.
  destruct (chats d !! f_ChatID f) as [chat|] eqn:Hc.
  2: { unfold run_tx, fanOut_locked, ChatByIDForUpdate, mbind, tx_bind. simpl. rewrite Hc. simpl. by rewrite set_seqs_same. }
  case_bool_decide as Hm.
  2: { unfold run_tx, fanOut_locked. erewrite bind_run; [|unfold ChatByIDForUpdate; simpl; rewrite Hc; done].
       erewrite bind_run; [|done]. cbv zeta. simpl t_db. rewrite Ha. change (ChatActionNone =? ChatActionNone) with true.
       rewrite bool_decide_false by done. simpl. by rewrite set_seqs_same. }
  assert (Hpre := text_prefix now f d chat He Ha Hc Hm (co_bound _ _ _ (do_chats _ D _ _ Hc)) Hf).
  destruct (MessageByRandomID _ _) as [m|] eqn:Er.
  - intros Ht. destruct (text_again now f d chat m D Hm Er Ht) as (po & E & Hpo). exists po.
    unfold run_tx. by rewrite Hpre, E.
  - destruct (write_forbidden _ _ _ _) eqn:Hw.
    + unfold run_tx. rewrite Hpre. unfold text_tail. erewrite bind_run by apply look_run. change (t_db (under_locks f d)) with d. rewrite Er.
      unfold checkDefaultMessageRestriction. rewrite Hw. simpl. by rewrite set_seqs_same.
    + destruct (text_new now f d chat D Hc Hm Er Hw) as ([sender po] & s' & H). exists sender, po, (t_db s').
      rewrite <- Hpre in H. unfold run_tx. rewrite H. split; [done|].
      apply fanOut_locked_ok in H as (chat' & _ & _ & _ & _ & H); [|done]. cbn [t_db] in H. rewrite Er, He in H.
      destruct H as [_ (_ & Hdom & C & W)]. rewrite map_id in C. split_and!; [|done|exact W].
      intros u Hu. by rewrite (ca_boxes _ _ _ C).
Qed.
