(* ===== verification/MsgMembers.v ===== *)
(** * Messages: who is told

    A chat's content reaches its members only, whatever the interleaving: a step that stores
    or changes a text in somebody's copy of a chat message does it for a member at that
    moment, the announcement of a removal to the one removed apart.  The transactions take
    their owner locks in one ascending pass. *)

From S2P Require Import Prelude.
From S2P Require Import NetAddr.
From S2P Require Import Threads.
From S2P Require Import Limits.
From S2P Require Import PeerHash.
From S2P Require Import UpdateBatch.
From S2P Require Import Mailbox.
From S2P Require Import MsgStore.
From S2P Require Import MsgLogic.
From S2P Require Import MsgSafety.
From S2P Require Import MsgRuns.
From Stdlib Require Import String.

Open Scope Z_scope.

(** ** Content and members *)

(** The announcement of a user's own removal. *)
Definition farewell (u : Z) (m : Message) : Prop := Action m = ChatActionDeleteUser /\ ActionUserID m = u.

Definition same_text (m m' : Message) : Prop := Text m' = Text m /\ EditDate m' = EditDate m.

Definition told (M : Z -> list Z) (d d' : db) : Prop :=
  forall u l m', row_at d' u l = Some m' -> m_PeerType m' = PeerTypeChat ->
    (exists m, row_at d u l = Some m /\ same_text m m') \/ u ∈ M (PeerID m') \/ farewell u m'.

Lemma told_refl M d : told M d d.
Proof. intros u l m H _. left. by exists m. Qed.

Lemma told_trans M d1 d2 d3 : told M d1 d2 -> told M d2 d3 -> guar d2 d3 -> told M d1 d3.
Proof.
  intros T1 T2 G u l m3 H3 Ht. destruct (T2 u l m3 H3 Ht) as [(m2 & H2 & E1 & E2)|H]; [|by right].
  destruct (g_rows _ _ G _ _ _ H2) as (m3' & H3' & Ei & _). rewrite H3 in H3'. injection H3' as <-. unfold identity in Ei.
  destruct (T1 u l m2 H2) as [(m1 & H1 & F1 & F2)|H]; [congruence| |].
  - left. exists m1. split; [done|]. split; congruence.
  - right. unfold farewell in *. replace (PeerID m3) with (PeerID m2) by congruence.
    replace (Action m3) with (Action m2) by congruence. by replace (ActionUserID m3) with (ActionUserID m2) by congruence.
Qed.

Lemma told_kept M d d' : texts_kept d d' -> told M d d'.
Proof. intros H u l m' Hm _. left. destruct (H u l m' Hm) as (m & ? & _ & ? & ?). by exists m. Qed.

(** Only copies of messages between users come in or change. *)
Lemma told_users M d d' :
  (forall u l m', row_at d' u l = Some m' -> row_at d u l = Some m' \/ m_PeerType m' = PeerTypeUser) -> told M d d'.
Proof. intros H u l m' Hm Ht. destruct (H u l m' Hm) as [?|?]; [left; by exists m'|congruence]. Qed.

Lemma told_boxes M d d' : (forall u, msgs (box_of d' u) = msgs (box_of d u)) -> told M d d'.
Proof. intros H. apply told_kept. intros u l m Hm. unfold row_at in *. rewrite H in Hm. by exists m. Qed.

Lemma ensure_told M u s x s' :
  db_ok (t_db s) -> u ∈ t_owners s -> put u (fun b => Some (q_EnsureUpdateState b)) tt s = (Ok x, s') -> told M (t_db s) (t_db s').
Proof.
  intros D Hu H. apply ensure_ok in H as (_ & C & E & _); [|done..]. apply told_boxes. intros v.
  destruct (decide (v = u)) as [->|]; [|by rewrite (ca_boxes _ _ _ C) by set_solver].
  rewrite E. unfold q_EnsureUpdateState. by destruct (counters _).
Qed.

(** *** Sending *)

Lemma pair_told M now from to sl rl text r file a b fwd m m' p q s s' :
  (m, m') = pair_rows now from to sl rl text r file a b fwd -> calm [from; to] s s' ->
  took m 0 p (box_of (t_db s) from) (box_of (t_db s') from) ->
  took m' 1 q (box_of (t_db s) to) (box_of (t_db s') to) -> told M (t_db s) (t_db s').
Proof.
  intros E C T T'. unfold pair_rows in E. injection E as Em Em'. apply told_users. intros u l x Hx. unfold row_at in *.
  destruct (decide (u = from)) as [->|].
  { destruct (took_row _ _ _ _ _ _ _ T Hx) as [?|(_ & -> & _)]; [by left|right; by rewrite Em]. }
  destruct (decide (u = to)) as [->|].
  { destruct (took_row _ _ _ _ _ _ _ T' Hx) as [?|(_ & -> & _)]; [by left|right; by rewrite Em']. }
  left. by rewrite <- (ca_boxes _ _ _ C) by set_solver.
Qed.

Lemma SendMessage_told M now from to text r file reply s x s' :
  db_ok (t_db s) -> SendMessage now from to text r file reply s = (Ok x, s') -> told M (t_db s) (t_db s').
Proof.
  intros D H. unfold SendMessage in H. apply bind_ok in H as (d0 & s0 & H0 & H). apply ask_ok in H0 as [<- <-].
  apply bind_ok in H as ([] & s0 & H0 & H). apply lock_ok in H0 as ->.
  set (s0 := mkTx _ _ _ _) in *. assert (D0 : db_ok (t_db s0)) by done. change (t_db s) with (t_db s0). change (t_db s) with (t_db s0) in H.
  assert (Hf : from ∈ t_owners s0) by (apply locked_all; set_solver).
  assert (Ht : to ∈ t_owners s0) by (apply locked_all; set_solver). clearbody s0. clear D s.
  apply bind_ok in H as ([] & s1 & H1 & H). apply reads_files in H1 as ->.
  apply bind_ok in H as ([] & s1 & H1 & H). pose proof (ensure_told M _ _ _ _ D0 Hf H1) as T1.
  apply ensure_ok in H1 as (S1 & C1 & _); [|done..]. pose proof (so_ok _ _ S1) as D1.
  apply bind_ok in H as ([] & s2 & H2 & H). assert (Ht1 := ca_owners _ _ _ C1 _ Ht).
  pose proof (ensure_told M _ _ _ _ D1 Ht1 H2) as T2. apply ensure_ok in H2 as (S2 & C2 & _); [|done..].
  assert (Hf2 : from ∈ t_owners s2) by (apply (ca_owners _ _ _ C2), (ca_owners _ _ _ C1); done).
  assert (Ht2 : to ∈ t_owners s2) by (by apply (ca_owners _ _ _ C2)).
  assert (T12 : told M (t_db s0) (t_db s2)) by (eapply told_trans; [exact T1|exact T2|apply S2]).
  apply bind_ok in H as (ex & s3 & H3 & H). unfold look in H3. apply ask_ok in H3 as [_ <-]. destruct ex as [m|].
  - apply bind_ok in H as (p & s3 & H3 & H). apply reads_new in H3 as ->.
    apply bind_ok in H as (q & s3 & H3 & H). apply reads_mirror in H3 as ->.
    apply bind_ok in H as ([] & s3 & H3 & H). apply rolled_back in H3 as [Ed _]. apply ret_ok in H as [_ <-].
    apply told_boxes. intros u. by rewrite Ed.
  - destruct x as [[[m p] q] dup]. eapply told_trans; [exact T12| |].
    + destruct (Z.eqb_spec from to) as [<-|Hne].
      * apply send_self_ok in H as (C & _ & _ & Em & T); [|done]. apply told_users. intros u l y Hy. unfold row_at in *.
        destruct (decide (u = from)) as [->|]; [|left; by rewrite <- (ca_boxes _ _ _ C) by set_solver].
        destruct (took_row _ _ _ _ _ _ _ T Hy) as [?|(_ & -> & _)]; [by left|right; by rewrite Em].
      * apply send_pair_ok in H as (_ & C & rr & m' & E & T & T'); [|done..]. by eapply pair_told.
    + pose proof (so_ok _ _ S2) as D2. destruct (Z.eqb_spec from to) as [<-|Hne].
      * apply self_sound in H; [apply H|done|done].
      * apply send_pair_ok in H as (_ & C & rr & m' & E & T & T'); [|done..]. by eapply so_guar, pair_sound.
Qed.

(** *** Chats *)

Lemma fan_told M (mk : Z -> Z -> Message) (un : Z -> Z) owners pre s s' :
  (forall u l, u ∈ owners -> u ∈ M (PeerID (mk u l)) \/ farewell u (mk u l)) -> (forall b, msgs (pre b) = msgs b) ->
  walked id (fun u b b' => exists pts l, took (mk u l) (un u) pts (pre b) b') owners s s' -> told M (t_db s) (t_db s').
Proof.
  intros HM Hpre [C W] u l m Hm _. rewrite map_id in C. unfold row_at, id in *.
  destruct (decide (u ∈ owners)) as [Hu|]; [|left; exists m; by rewrite <- (ca_boxes _ _ _ C)].
  destruct (W u Hu) as (pts & k & T). destruct (took_row _ _ _ _ _ _ _ T Hm) as [Ho|(_ & -> & _)].
  - left. exists m. by rewrite <- Hpre.
  - right. by apply HM.
Qed.

Lemma elem_of_owners members extra u : u ∈ fanout_owners members extra -> u ∈ members \/ u ∈ extra.
Proof.
  unfold fanout_owners. revert members. induction extra as [|x e IH]; intros members H; [by left|]. simpl in H.
  apply IH in H as [H|H]; [|right; set_solver]. unfold add_extra in H. destruct (orb _ _); set_solver.
Qed.

(** The extra owners of a fan-out are those whose removal it announces. *)
Definition extra_ok (f : FanOut) : Prop :=
  forall x, x ∈ f_Extra f -> f_Action f = ChatActionDeleteUser /\ f_ActionUserID f = x.

Lemma fanOut_locked_told now f s x s' :
  db_ok (t_db s) -> extra_ok f -> fanOut_locked now f s = (Ok x, s') -> told (members_of (t_db s)) (t_db s) (t_db s').
Proof.
  intros D Hx H. destruct x as [[sender po] dup]. apply fanOut_locked_ok in H as (chat & _ & _ & _ & _ & H); [|done].
  destruct (MessageByRandomID _ _).
  - destruct H as (_ & _ & -> & _). apply told_refl.
  - destruct H as (_ & _ & _ & W).
    eapply (fan_told _ (fun u l => fan_row now (message_fanout_seq (t_db s) + 1) u l f) (fun u => if u =? f_FromID f then 0 else 1)
              (fanout_owners (members_of (t_db s) (f_ChatID f)) (f_Extra f)) q_EnsureUpdateState).
    + intros u l [Hu|Hu]%elem_of_owners; [by left|right]. by apply Hx.
    + intros b. unfold q_EnsureUpdateState. by destruct (counters b).
    + eapply walked_impl; [|exact W]. intros u b b' _ (pts & l & _ & _ & T). by exists pts, l.
Qed.

Lemma fanOut_locked_members now f s x s' :
  db_ok (t_db s) -> fanOut_locked now f s = (Ok x, s') -> members_of (t_db s') = members_of (t_db s).
Proof.
  intros D H. destruct x as [[sender po] dup]. apply fanOut_locked_ok in H as (chat & _ & _ & _ & _ & H); [|done].
  destruct (MessageByRandomID _ _).
  - by destruct H as (_ & _ & -> & _).
  - destruct H as (_ & _ & _ & C & _). unfold members_of. by rewrite (ca_members _ _ _ C).
Qed.

Lemma fanOut_told now f s x s' :
  db_ok (t_db s) -> extra_ok f -> fanOut now f s = (Ok x, s') ->
  told (members_of (t_db s')) (t_db s) (t_db s') /\ members_of (t_db s') = members_of (t_db s).
Proof.
  intros D Hx H. unfold fanOut in H. tx_inv. destruct (fanOut_early _ _); [done|].
  pose proof (fanOut_locked_members _ _ _ _ _ D H) as E. split; [rewrite E; by eapply fanOut_locked_told|done].
Qed.

(** The rows of the mailboxes are as they were until the announcement. *)
Lemma announces_told now f s s' : extra_ok f -> announces now f s s' -> told (members_of (t_db s')) (t_db s) (t_db s').
Proof.
  intros Hx (s1 & y & S & Eb & H). apply fanOut_told in H as [T _]; [|apply S|done]. intros u l m Hm Ht.
  destruct (T u l m Hm Ht) as [(z & Hz & ?)|?]; [left; exists z; split; [|done]|by right].
  unfold row_at, box_of in *. by rewrite <- Eb.
Qed.

Lemma changed_told now f s s' :
  extra_ok f -> t_db s' = t_db s /\ stray s' = stray s \/ announces now f s s' -> told (members_of (t_db s')) (t_db s) (t_db s').
Proof. intros Hx [[-> _]|H]; [apply told_refl|by eapply announces_told]. Qed.

Lemma no_extra chat from text action user : extra_ok (announce chat from text action user []).
Proof. by intros x ?%elem_of_nil. Qed.

Lemma removed_extra chat from text user : extra_ok (announce chat from text ChatActionDeleteUser user [user]).
Proof. by intros x ->%list_elem_of_singleton. Qed.

(** *** Forwarding *)

Lemma forward_one_told M now from dest src r po s x s' :
  db_ok (t_db s) -> dest_ok from dest s ->
  (match dest with ToChat id _ members => forall u, u ∈ members -> u ∈ M id | _ => True end) ->
  forward_one now from dest src r po s = (Ok x, s') -> told M (t_db s) (t_db s').
Proof.
  intros D [Hlk Hd] HM H. unfold forward_one in H. apply bind_ok in H as (ex & s1 & H1 & H). unfold look in H1.
  apply ask_ok in H1 as [_ <-]. destruct ex as [m|]; [tx_inv; tx_reads; apply told_refl|].
  destruct dest as [u|id chat members|].
  - tx_inv. destruct x0 as [po' [m p]]. simpl in *.
    match goal with H : forward_pair _ _ _ _ _ _ _ = _ |- _ =>
      apply forward_pair_ok in H as (C & q & m' & _ & E & T & T'); [|apply Hlk; set_solver|apply Hlk; set_solver|done] end.
    by eapply pair_told.
  - apply bind_ok in H as (rt & s2 & H2 & H). apply ask_ok in H2 as [_ <-].
    apply bind_ok in H as ([] & s2 & H2 & H). apply reads_restriction in H2 as ->.
    unfold forward_chat in H. apply bind_ok in H as (fid & s2 & [= <- <-] & H).
    apply bind_ok in H as ([m snd] & s3 & Hc & H).
    assert (s' = s3) as -> by (destruct snd as [[pts l]|]; by tx_inv).
    apply forward_copies_ok in Hc as [W _]; [|done|intros u Hu; apply Hlk; by right].
    eapply walked_pre in W; [|apply calm_fields; [done..|simpl; lia|done]].
    eapply (fan_told _ (fun u l => forward_row now (message_fanout_seq (t_db s) + 1) from id src r u l)
              (fun u => if u =? from then 0 else 1) members (fun b => b)); [|done|].
    + intros u l Hu. left. by apply HM.
    + eapply walked_impl; [|exact W]. intros u b b' _ (pts & l & _ & T). by exists pts, l.
  - apply bind_ok in H as (fid & s2 & [= <- <-] & H). tx_inv. by apply told_boxes.
Qed.

Lemma forward_all_told M now from dest l po s x s' :
  db_ok (t_db s) -> dest_ok from dest s ->
  (match dest with ToChat id _ members => forall u, u ∈ members -> u ∈ M id | _ => True end) ->
  forward_all now from dest l po s = (Ok x, s') -> told M (t_db s) (t_db s') /\ members_of (t_db s') = members_of (t_db s).
Proof.
  intros D Hd HM. revert po s x D Hd. induction l as [|[src r] l IH]; intros po s x D Hd H; simpl in H; tx_inv.
  { split; [apply told_refl|done]. }
  destruct_pairs.
  match goal with H : forward_one _ _ _ _ _ _ _ = _ |- _ =>
    pose proof (forward_one_told M _ _ _ _ _ _ _ _ _ D Hd HM H) as T; apply forward_one_sound in H as [S C]; [|done..] end.
  match goal with H : forward_all _ _ _ _ _ _ = _ |- _ =>
    pose proof (forward_all_sound _ _ _ _ _ _ _ _ (so_ok _ _ S) (dest_ok_calm _ _ _ _ _ C Hd) H) as S2;
    apply IH in H as [T2 E2]; [|apply S|by eapply dest_ok_calm] end.
  split; [eapply told_trans; [exact T|exact T2|apply S2]|]. rewrite E2. unfold members_of. by rewrite (ca_members _ _ _ C).
Qed.

Lemma ensure_all_told M owners s x s' :
  db_ok (t_db s) -> (forall u, u ∈ owners -> u ∈ t_owners s) -> ensure_all owners s = (Ok x, s') -> told M (t_db s) (t_db s').
Proof.
  revert s x. induction owners as [|u l IH]; intros s x D Hlk H; simpl in H; [tx_inv; apply told_refl|].
  apply bind_ok in H as ([] & s1 & H1 & H). assert (Hu : u ∈ t_owners s) by (apply Hlk; by left).
  pose proof (ensure_told M _ _ _ _ D Hu H1) as T1. apply ensure_ok in H1 as (S & C & _); [|done..].
  assert (Hl : forall v, v ∈ l -> v ∈ t_owners s1) by (intros v Hv; apply (ca_owners _ _ _ C), Hlk; by right).
  eapply told_trans; [exact T1|by eapply IH; [apply S| |]|]. by eapply so_guar, ensure_all_sound; [apply S| |].
Qed.

Lemma ForwardMessages_told now from t dest srcs rs s x s' :
  db_ok (t_db s) -> ForwardMessages now from t dest srcs rs s = (Ok x, s') -> told (members_of (t_db s')) (t_db s) (t_db s').
Proof.
  intros D H. apply ForwardMessages_inv in H as (dst & s2 & s3 & E2 & Es & Hok & Hm & Hl & H3 & H); [|done].
  assert (D2 : db_ok (t_db s2)) by (by rewrite E2). rewrite <- E2 in *.
  pose proof (fun M => ensure_all_told M _ _ _ _ D2 Hl H3) as T3. apply ensure_all_sound in H3 as [S3 C3]; [|done..].
  assert (E3 : members_of (t_db s3) = members_of (t_db s2)) by (unfold members_of; by rewrite (ca_members _ _ _ C3)).
  pose proof (forward_all_sound _ _ _ _ _ _ _ _ (so_ok _ _ S3) (dest_ok_calm _ _ _ _ _ C3 Hok) H) as S4.
  apply (forward_all_told (members_of (t_db s2))) in H as [T4 E4]; [|apply S3|by eapply dest_ok_calm|by destruct dst; [|subst|]].
  rewrite E4, E3. eapply told_trans; [apply T3|exact T4|apply S4].
Qed.

(** *** Editing *)

Lemma EditMessage_told M now owner local text plan s x s' :
  db_ok (t_db s) -> plan_ok owner local plan (t_db s) ->
  (forall id, members_of (t_db s) id ⊆ M id) ->
  EditMessage now owner local text plan s = (Ok x, s') -> told M (t_db s) (t_db s').
Proof.
  intros D Hp HM H. pose proof (EditMessage_sound _ _ _ _ _ _ _ _ D Hp H) as S. destruct plan as [peer|pre copies]; simpl in H; tx_inv.
  - match goal with H : edit_pair _ _ _ _ _ _ = _ |- _ => apply edit_pair_ok in H as (C & m & Hm & _ & _ & E & E') end.
    destruct Hp as (m0 & Hm0 & Ht & Hpe). unfold row_at in Hm0. rewrite Hm in Hm0. injection Hm0 as <-.
    destruct (do_rows _ D owner local m Hm) as [_ K]. rewrite Ht in K. destruct K as (_ & _ & _ & K).
    destruct (place _ _ _ _ D Hm) as [Eo _].
    intros u l m' Hm' Htx. destruct (g_rows _ _ (so_guar _ _ S) owner local m Hm) as (mo & Hmo & Eio & _).
    unfold row_at in *. left. destruct (decide (u = owner)) as [->|Hu].
    { rewrite (edited_row _ _ _ _ _ _ l E) in Hm'. case_decide as El; [subst l|by exists m'].
      rewrite Hm in Hm'. injection Hm' as <-. simpl in Htx. by rewrite Ht in Htx. }
    destruct (decide (u = peer)) as [->|Hu']; [|exists m'; by rewrite <- (ca_boxes _ _ _ C) by set_solver].
    destruct (E' (not_eq_sym Hu)) as [q Eq]. rewrite (edited_row _ _ _ _ _ _ l Eq) in Hm'. case_decide as El; [subst l|by exists m'].
    destruct K as (n & Hn & Mt & _); [congruence|]. unfold row_at in Hn. rewrite Hpe in Hn. rewrite Hn in Hm'.
    injection Hm' as <-. simpl in Htx. by rewrite Mt in Htx.
  - destruct Hp as (E1 & E2 & Hnd & Hm & Hc & _).
    match goal with H : editChatMessage _ _ _ _ _ = _ |- _ => apply editChatMessage_ok in H as (_ & _ & C & W); [|done] end.
    intros u l m' Hm' _. unfold row_at in *.
    destruct (decide (u ∈ map OwnerID (of_members (members_of (t_db s) (PeerID pre)) copies))) as [Hin|Hn].
    2: { left. exists m'. by rewrite <- (ca_boxes _ _ _ C). }
    apply list_elem_of_fmap_1 in Hin as (c & -> & Hin). destruct (W c Hin) as (q & _ & E).
    rewrite (edited_row _ _ _ _ _ _ l E) in Hm'. case_decide as El; [subst l|left; by exists m'].
    apply elem_of_members in Hin as [Hin Hmem]. destruct (Hc c Hin) as (_ & _ & Epc & y & Hy & Ei). unfold row_at in Hy.
    rewrite Hy in Hm'. injection Hm' as <-. right. left. simpl. apply HM. unfold identity in Ei.
    by replace (PeerID y) with (PeerID pre) by congruence.
Qed.

(** ** Every step *)

Definition discreet (d d' : db) : Prop := guar d d' /\ told (members_of d') d d'.

Lemma write_chat_members id c s x s' : write_chat id c s = (Ok x, s') -> boxes (t_db s') = boxes (t_db s).
Proof. by intros [= _ <-]. Qed.

Lemma quiet_rights chat caller rights s x s' :
  SetChatDefaultBannedRights chat caller rights s = (Ok x, s') -> boxes (t_db s') = boxes (t_db s).
Proof.
  intros H. unfold SetChatDefaultBannedRights in H. apply bind_ok in H as (m & s1 & H1 & H).
  apply beginChatMutation_ok in H1 as (Ed & _). rewrite <- Ed.
  apply bind_ok in H as ([] & s2 & H2 & H). apply require_ok in H2 as [_ <-].
  destruct (sameDefaultBannedRights _ _); tx_inv; [done|].
  by match goal with H : write_chat _ _ _ = _ |- _ => apply write_chat_members in H end.
Qed.

Lemma quiet_pin chat caller pinned s x s' :
  SetChatPinnedMessage chat caller pinned s = (Ok x, s') -> boxes (t_db s') = boxes (t_db s).
Proof.
  intros H. unfold SetChatPinnedMessage in H. apply bind_ok in H as (m & s1 & H1 & H).
  apply beginChatMutation_ok in H1 as (Ed & _). rewrite <- Ed.
  apply bind_ok in H as ([] & s2 & H2 & H). apply lock_ok in H2 as ->. apply bind_ok in H as ([] & s3 & H3 & H).
  assert (t_db s3 = t_db s1) as E3.
  { destruct pinned as [id|]; [|by tx_inv]. unfold MessageByOwnerLocal in H3. tx_inv. destruct (msgs _ !! id); by tx_inv. }
  rewrite <- E3. tx_inv. by match goal with H : write_chat _ _ _ = _ |- _ => apply write_chat_members in H end.
Qed.

Lemma quiet_create creator title ids s x s' : CreateChat creator title ids s = (Ok x, s') -> boxes (t_db s') = boxes (t_db s).
Proof.
  intros H. unfold CreateChat in H. destruct (_ >? _); [done|].
  apply bind_ok in H as (k & s1 & H1 & H). apply ask_ok in H1 as [_ <-].
  apply bind_ok in H as (n & s1 & H1 & H). injection H1 as _ <-. tx_inv.
  repeat match goal with H : write_chat _ _ _ = (Ok _, _) |- _ => injection H as <-
                       | H : write_members _ _ _ = (Ok _, _) |- _ => injection H as <- end. done.
Qed.

Lemma told_same_boxes M d d' : boxes d' = boxes d -> told M d d'.
Proof. intros E. apply told_boxes. intros u. unfold box_of. by rewrite E. Qed.

Lemma EditMessage_members now owner local text plan s x s' :
  plan_ok owner local plan (t_db s) -> EditMessage now owner local text plan s = (Ok x, s') ->
  members_of (t_db s') = members_of (t_db s).
Proof.
  intros Hp H. unfold members_of. destruct plan as [peer|pre copies]; simpl in H; tx_inv.
  - match goal with H : edit_pair _ _ _ _ _ _ = _ |- _ => apply edit_pair_ok in H as [C _] end. by rewrite (ca_members _ _ _ C).
  - destruct Hp as (_ & _ & Hnd & _).
    match goal with H : editChatMessage _ _ _ _ _ = _ |- _ => apply editChatMessage_ok in H as (_ & _ & C & _); [|done] end.
    by rewrite (ca_members _ _ _ C).
Qed.

Lemma body_told now r p s x s' :
  db_ok (t_db s) -> plain r -> planned r p (t_db s) -> body now r p s = (Ok x, s') -> told (members_of (t_db s')) (t_db s) (t_db s').
Proof.
  intros D Hpl Hp H. destruct r; destruct p; try done; simpl in H;
    apply bind_ok in H as (y & s1 & H1 & H); assert (s1 = s') as -> by (destruct_pairs; by tx_inv); clear H.
  all: try by eapply SendMessage_told. all: try by eapply told_kept, hu_texts, DeleteMessages_hushed.
  all: try by eapply told_kept, hu_texts, ReadHistory_hushed. all: try by eapply ForwardMessages_told.
  all: try by eapply told_same_boxes, quiet_create. all: try by eapply told_same_boxes, quiet_rights.
  all: try by eapply told_same_boxes, quiet_pin.
  all: try (eapply changed_told; [|by eapply AddChatUser_ok]; apply no_extra).
  all: try (eapply changed_told; [|by eapply RemoveChatUser_ok]; apply removed_extra).
  all: try (eapply announces_told; [|by eapply SetChatTitle_ok]; apply no_extra).
  all: try (rewrite (fanOut_locked_members _ _ _ _ _ D H1); eapply fanOut_locked_told; [done| |done]; simpl in Hpl;
            intros z Hz; rewrite Hpl in Hz; by apply elem_of_nil in Hz).
  eapply EditMessage_told; [done|exact Hp| |exact H1]. by rewrite (EditMessage_members _ _ _ _ _ _ _ _ Hp H1).
Qed.

Lemma body_discreet now r p d :
  db_ok d -> plain r -> planned r p d ->
  db_ok (run_tx (body now r p) d).2 /\ discreet d (run_tx (body now r p) d).2.
Proof.
  intros D Hpl Hp. destruct (body_kept now r p d D Hp) as [D' G]. split; [done|split; [done|]].
  unfold run_tx. destruct (body now r p (mkTx d [] [] [])) as [[x|e] s'] eqn:E; simpl.
  - exact (body_told now r p (mkTx d [] [] []) x s' D Hpl Hp E).
  - by apply told_same_boxes.
Qed.

Lemma serve_discreet r : plain r -> exists K, (forall d, db_ok d -> K d) /\ safe db_ok discreet (fun _ => True) K (serve r).
Proof.
  intros Hpl. assert (Hr : forall d, discreet d d) by (intros d; split; [reflexivity|apply told_refl]).
  exists (fun _ => True). split; [done|]. unfold serve. apply safe_store_call; [done|done| |done].
  intros e d _ D _. split_and!; [done|apply Hr|]. cbn [fst snd].
  destruct (prepare r d) as [p|er] eqn:E; [|by exists (fun _ => True)].
  exists (planned r p). split; [by apply prepare_planned|].
  apply safe_store_call; [done|intros a b _ Ha [G _]; by eapply planned_guar| |done].
  intros e' d' _ D' Hp. destruct (body_discreet (e_now e') r p d' D' Hpl Hp) as [D2 G2].
  split_and!; [done|done|]. by exists (fun _ => True).
Qed.

(** C2 (safety).  Whatever the interleaving of sends, edits, forwards, removals and
    additions, a step that stores a new copy of a chat message for somebody, or changes the
    text of one, does so for a member of the chat at that moment; the one exception is the
    announcement of a removal, which the removed user receives too.  Copies of those who
    left stay as they were. *)
Theorem chat_content_members_only fs bl c c' u l m' :
  reach (empty_db fs bl) c -> pool_step starts (fun _ => True) c c' ->
  row_at c'.1 u l = Some m' -> m_PeerType m' = PeerTypeChat ->
  (exists m, row_at c.1 u l = Some m /\ Text m' = Text m /\ EditDate m' = EditDate m) \/
  u ∈ members_of c'.1 (PeerID m') \/ Action m' = ChatActionDeleteUser /\ ActionUserID m' = u.
Proof.
  intros R Hs Hm Ht.
  assert (I : pool_inv db_ok discreet (fun _ => True) c).
  { eapply (pool_reach_inv _ _ _ starts); [|apply (empty_db_ok fs bl)|exact R].
    intros p (r & Hpl & ->). by apply serve_discreet. }
  assert (G : discreet c.1 c'.1).
  { eapply pool_step_guar; [|exact I|exact Hs]. intros d. split; [reflexivity|apply told_refl]. }
  destruct G as [_ T]. exact (T u l m' Hm Ht).
Qed.
