(* ===== verification/MsgLocks.v ===== *)
(** * Messages: the order of locks

    Owner locks are held to the end of a transaction, so two transactions can wait for each
    other for ever only if they take them in different orders.  Every transaction takes the
    owner locks it needs in one ascending pass; what it locks later it already holds. *)

From S2P Require Import Prelude.
From S2P Require Import NetAddr.
From S2P Require Import Threads.
From S2P Require Import Limits.
From S2P Require Import PeerHash.
From S2P Require Import UpdateBatch.
From S2P Require Import Mailbox.
From S2P Require Import MsgStore.
From S2P Require Import MsgLogic.
From S2P Require Import MsgSafety.
From S2P Require Import MsgRuns.
From Stdlib Require Import String.

Open Scope Z_scope.

(** ** Routines that take no lock *)

Definition lockless {A} (m : tx A) : Prop := forall s, t_owners (m s).2 = t_owners s.

Lemma lockless_bind {A B} (m : tx A) (f : A -> tx B) : lockless m -> (forall x, lockless (f x)) -> lockless (m ≫= f).
Proof.
  intros Hm Hf s. unfold mbind, tx_bind. specialize (Hm s). destruct (m s) as [[x|e] s1]; simpl in *; [|done].
  by rewrite (Hf x s1).
Qed.

Lemma lockless_ret {A} (x : A) : lockless (mret x).
Proof. done. Qed.

Lemma lockless_fail {A} e : lockless (@tfail A e).
Proof. done. Qed.

Lemma lockless_require b e : lockless (require b e).
Proof. intros s. by destruct b. Qed.

Lemma lockless_ask {A} (f : db -> A) : lockless (ask f).
Proof. done. Qed.

Lemma lockless_box {A} u (f : box -> option (A * box)) : lockless (on_box u f).
Proof. intros s. unfold on_box. by destruct (f _) as [[x b]|]. Qed.

Lemma lockless_put {A} u (f : box -> option box) (x : A) : lockless (put u f x).
Proof. apply lockless_box. Qed.

Lemma lockless_chat id : lockless (ChatByIDForUpdate id).
Proof. intros s. unfold ChatByIDForUpdate. by destruct (chats _ !! id). Qed.

Lemma lockless_next : lockless NextFanoutID.
Proof. done. Qed.

Lemma lockless_back d : lockless (roll_back d).
Proof. done. Qed.

Create HintDb lockless.
#[export] Hint Resolve lockless_ret lockless_fail lockless_require lockless_ask lockless_box lockless_put lockless_chat
  lockless_next lockless_back : lockless.

Ltac no_locks :=
  repeat first
    [ solve [auto with lockless]
    | apply lockless_bind; [|intros ?]
    | match goal with
      | |- lockless (match ?x with _ => _ end) => destruct x
      | |- lockless (let _ := _ in _) => cbv zeta
      | |- lockless (look _ _) => apply lockless_ask
      | |- lockless (MessageByOwnerLocal _ _) => apply lockless_ask
      end ].

Lemma lockless_event u ty l : lockless (bump_event u ty l).
Proof. unfold bump_event. no_locks. Qed.

Lemma lockless_files l : lockless (lockFileRefs l).
Proof. unfold lockFileRefs. no_locks. Qed.

Lemma lockless_new_pts u l : lockless (newMessagePts u l).
Proof. unfold newMessagePts. no_locks. Qed.

Lemma lockless_state u : lockless (statePts u).
Proof. unfold statePts. no_locks. Qed.

Lemma lockless_reload u l : lockless (reload u l).
Proof. unfold reload. no_locks. Qed.

Lemma lockless_restriction a b c d : lockless (checkDefaultMessageRestriction a b c d).
Proof. unfold checkDefaultMessageRestriction. no_locks. Qed.

#[export] Hint Resolve lockless_event lockless_files lockless_new_pts lockless_state lockless_reload lockless_restriction : lockless.

Lemma lockless_mirror m u : lockless (mirrorPts m u).
Proof. unfold mirrorPts. no_locks. Qed.

Lemma lockless_ptsFor l : lockless (ptsFor l).
Proof. induction l; simpl; no_locks. Qed.

Lemma lockless_copies l : lockless (copies_pts l).
Proof. induction l; simpl; no_locks. Qed.

Lemma lockless_deliver now fid f owners : lockless (deliver_copies now fid f owners).
Proof. induction owners; simpl; unfold deliver_copy; no_locks. Qed.

Lemma lockless_edit_copies now author text members copies : lockless (edit_copies now author text members copies).
Proof. induction copies; simpl; no_locks. Qed.

Lemma lockless_delete_row u l : lockless (delete_row u l).
Proof. unfold delete_row. no_locks. Qed.

#[export] Hint Resolve lockless_mirror lockless_ptsFor lockless_copies lockless_deliver lockless_edit_copies lockless_delete_row : lockless.

Lemma lockless_delete_copies members copies po : lockless (delete_copies members copies po).
Proof. revert po. induction copies; intros po; simpl; no_locks. Qed.

#[export] Hint Resolve lockless_delete_copies : lockless.

Lemma lockless_targets owner revoke ts po : lockless (delete_targets owner revoke ts po).
Proof. revert po. induction ts as [|t ts IH]; intros po; simpl; [|destruct t; unfold delete_target, delete_named]; no_locks. Qed.

Lemma lockless_forward_copies now fid from chat s r members po : lockless (forward_copies now fid from chat s r members po).
Proof. revert po. induction members; intros po; simpl; unfold forward_copy; no_locks. Qed.

#[export] Hint Resolve lockless_targets lockless_forward_copies : lockless.

Lemma lockless_forward_all now from dest l po : lockless (forward_all now from dest l po).
Proof.
  revert po. induction l as [|[? ?] l IH]; intros po; simpl; unfold forward_one, forward_pair, forward_chat; no_locks.
Qed.

Lemma lockless_ensure_all l : lockless (ensure_all l).
Proof. induction l; simpl; no_locks. Qed.

Lemma lockless_own u l : lockless (own_outgoing u l).
Proof. unfold own_outgoing. no_locks. Qed.

#[export] Hint Resolve lockless_forward_all lockless_ensure_all lockless_own : lockless.

(** ** One ascending pass *)

Definition one_pass (l : list Z) : Prop :=
  exists first rest, l = first ++ rest /\ StronglySorted Z.lt first /\ rest ⊆ first.

Lemma one_pass_nil : one_pass [].
Proof. exists [], []. split_and!; [done|constructor|done]. Qed.

Lemma one_pass_once ids : one_pass (ascendingUnique ids).
Proof. exists (ascendingUnique ids), []. rewrite app_nil_r. split_and!; [done|apply ascendingUnique_sorted|set_solver]. Qed.

(** A pass, then acquisitions of what is held. *)
Lemma one_pass_more ids more : more ⊆ ids -> one_pass (ascendingUnique ids ++ more).
Proof.
  intros H. exists (ascendingUnique ids), more. split_and!; [done|apply ascendingUnique_sorted|].
  intros u Hu. rewrite elem_of_ascendingUnique. by apply H.
Qed.

Lemma locked_owners {A} ids (m : tx A) s x s' :
  lockless m -> (lockOwners ids;; m) s = (Ok x, s') -> t_owners s' = t_owners s ++ ascendingUnique ids.
Proof.
  intros Hm H. apply bind_ok in H as ([] & s1 & H1 & H). apply lock_ok in H1 as ->.
  specialize (Hm (mkTx (t_db s) (t_owners s ++ ascendingUnique ids) (t_chats s) (stray s))). by rewrite H in Hm.
Qed.

Lemma fanOut_locked_owners now f s x s' :
  fanOut_locked now f s = (Ok x, s') ->
  t_owners s' = t_owners s ++ ascendingUnique (fanout_owners (members_of (t_db s) (f_ChatID f)) (f_Extra f)).
Proof.
  intros H. unfold fanOut_locked in H. apply bind_ok in H as (chat & s1 & H1 & H). apply chat_lock_ok in H1 as [_ ->].
  apply bind_ok in H as (members & s2 & H2 & H). apply ask_ok in H2 as [<- <-]. cbv zeta in H.
  apply bind_ok in H as ([] & s2 & H2 & H). apply require_ok in H2 as [_ <-].
  apply bind_ok in H as ([] & s2 & H2 & H). apply require_ok in H2 as [_ <-].
  apply bind_ok in H as ([] & s2 & H2 & H). apply require_ok in H2 as [_ <-].
  apply locked_owners in H; [exact H|]. unfold fanoutPts. no_locks.
Qed.

Lemma fanOut_owners now f s x s' :
  fanOut now f s = (Ok x, s') ->
  t_owners s' = t_owners s ++ ascendingUnique (fanout_owners (members_of (t_db s) (f_ChatID f)) (f_Extra f)).
Proof. intros H. unfold fanOut in H. tx_inv. destruct (fanOut_early _ _); [done|]. by apply fanOut_locked_owners in H. Qed.

Lemma SendMessage_pass now from to text r file reply d x s' :
  SendMessage now from to text r file reply (mkTx d [] [] []) = (Ok x, s') -> one_pass (t_owners s').
Proof.
  intros H. unfold SendMessage in H. apply bind_ok in H as (d0 & s0 & H0 & H). apply ask_ok in H0 as [_ <-].
  apply locked_owners in H as ->; [apply one_pass_once|]. unfold send_self, send_pair. no_locks.
Qed.

Lemma EditMessage_pass now owner local text plan d x s' :
  EditMessage now owner local text plan (mkTx d [] [] []) = (Ok x, s') -> one_pass (t_owners s').
Proof.
  intros H. unfold EditMessage in H. destruct plan as [peer|pre copies]; tx_inv.
  - match goal with H : edit_pair _ _ _ _ _ _ = _ |- _ => apply locked_owners in H as ->; [apply one_pass_once|no_locks] end.
  - match goal with H : editChatMessage _ _ _ _ _ = _ |- _ => apply locked_owners in H as ->; [apply one_pass_once|no_locks] end.
Qed.

Lemma DeleteMessages_pass owner revoke ts d x s' :
  DeleteMessages owner revoke ts (mkTx d [] [] []) = (Ok x, s') -> one_pass (t_owners s').
Proof.
  intros H. unfold DeleteMessages in H. destruct ts; [tx_inv; apply one_pass_nil|].
  apply locked_owners in H as ->; [apply one_pass_once|no_locks].
Qed.

Lemma ReadHistory_pass owner peer maxID d x s' :
  ReadHistory owner peer maxID (mkTx d [] [] []) = (Ok x, s') -> one_pass (t_owners s').
Proof. intros H. apply locked_owners in H as ->; [apply one_pass_once|]. unfold currentPts. no_locks. Qed.

Lemma ForwardMessages_pass now from t dest srcs rs d x s' :
  ForwardMessages now from t dest srcs rs (mkTx d [] [] []) = (Ok x, s') -> one_pass (t_owners s').
Proof.
  intros H. unfold ForwardMessages in H. destruct (_ || _); [done|]. destruct (_ && _); [done|].
  apply bind_ok in H as (dst & s1 & H1 & H).
  assert (E : t_owners s1 = []) by (destruct t; by tx_inv).
  apply locked_owners in H as ->; [rewrite E; apply one_pass_once|no_locks].
Qed.

(** The members of a chat, with the user added or removed, are the owners locked first. *)
Lemma AddChatUser_pass now chat target caller d x s' :
  AddChatUser now chat target caller (mkTx d [] [] []) = (Ok x, s') -> one_pass (t_owners s').
Proof.
  intros H. unfold AddChatUser in H. apply bind_ok in H as (m & s1 & H1 & H).
  apply beginChatMutation_ok in H1 as (Ed & _ & Eo & _ & Hm & _).
  apply bind_ok in H as ([] & s2 & H2 & H). apply require_ok in H2 as [_ <-].
  apply bind_ok in H as (bl & s2 & H2 & H). apply ask_ok in H2 as [_ <-].
  apply bind_ok in H as ([] & s2 & H2 & H). apply require_ok in H2 as [_ <-].
  apply bind_ok in H as ([] & s2 & H2 & H). apply lock_ok in H2 as ->. rewrite Eo in H.
  apply bind_ok in H as ([] & s2 & H2 & H). apply require_ok in H2 as [_ <-].
  case_bool_decide; [apply ret_ok in H as [_ <-]; apply one_pass_once|].
  apply bind_ok in H as ([] & s2 & [= <-] & H). apply bind_ok in H as ([] & s3 & [= <-] & H).
  apply bind_ok in H as ([[sender po] dup] & s4 & H4 & H). apply fanOut_owners in H4. tx_inv. rewrite H4. simpl.
  apply one_pass_more. intros u Hu. rewrite elem_of_ascendingUnique in Hu. unfold members_of in Hu. simpl in Hu.
  rewrite lookup_insert_eq in Hu. simpl in Hu. unfold insert_member in Hu. rewrite elem_of_ascendingUnique in Hu. set_solver.
Qed.

Lemma RemoveChatUser_pass now chat target caller d x s' :
  RemoveChatUser now chat target caller (mkTx d [] [] []) = (Ok x, s') -> one_pass (t_owners s').
Proof.
  intros H. unfold RemoveChatUser in H. apply bind_ok in H as (m & s1 & H1 & H).
  apply beginChatMutation_ok in H1 as (Ed & _ & Eo & _ & Hm & _). simpl in Ed.
  apply bind_ok in H as ([] & s2 & H2 & H). apply require_ok in H2 as [_ <-].
  apply bind_ok in H as ([] & s2 & H2 & H). apply lock_ok in H2 as ->. rewrite Eo in H.
  apply bind_ok in H as (removed & s2 & H2 & H). unfold removeParticipant in H2.
  apply bind_ok in H2 as ([] & s3 & H3 & H2). apply lock_ok in H3 as ->.
  apply bind_ok in H2 as (members & s3 & H3 & H2). apply ask_ok in H3 as [<- <-]. simpl in H2. rewrite Ed in *. simpl in Hm.
  assert (Hone : one_pass (ascendingUnique (cm_members m ++ [target]) ++ ascendingUnique [target])).
  { apply one_pass_more. intros u Hu. rewrite elem_of_ascendingUnique in Hu. set_solver. }
  assert (Hsub : forall v, v ∈ List.filter (fun u => negb (u =? target)) (members_of d chat) -> v ∈ cm_members m).
  { intros v Hv. rewrite Hm. apply list_elem_of_In, filter_In in Hv as [Hv _]. by apply list_elem_of_In. }
  case_bool_decide; [|apply ret_ok in H2 as [<- <-]; simpl in H; apply ret_ok in H as [_ <-]; exact Hone].
  apply bind_ok in H2 as ([] & s3 & [= <-] & H2). apply ret_ok in H2 as [<- <-]. simpl in H.
  apply bind_ok in H as ([] & s4 & [= <-] & H). apply bind_ok in H as ([[sender po] dup] & s5 & H5 & H).
  apply fanOut_owners in H5. tx_inv. rewrite H5. simpl. rewrite <- app_assoc. apply one_pass_more.
  intros u [Hu|Hu]%elem_of_app; rewrite elem_of_ascendingUnique in Hu; [set_solver|].
  unfold members_of in Hu. simpl in Hu. rewrite lookup_insert_eq in Hu. simpl in Hu. unfold add_extra in Hu.
  destruct (orb _ _); set_solver.
Qed.

Lemma SetChatTitle_pass now chat caller title d x s' :
  SetChatTitle now chat caller title (mkTx d [] [] []) = (Ok x, s') -> one_pass (t_owners s').
Proof.
  intros H. unfold SetChatTitle in H. apply bind_ok in H as (m & s1 & H1 & H).
  apply beginChatMutation_ok in H1 as (Ed & _ & Eo & _ & Hm & _). simpl in Ed.
  apply bind_ok in H as ([] & s2 & H2 & H). apply require_ok in H2 as [_ <-].
  apply bind_ok in H as ([] & s2 & H2 & H). apply lock_ok in H2 as ->. rewrite Eo in H.
  apply bind_ok in H as ([] & s3 & [= <-] & H). apply bind_ok in H as ([[sender po] dup] & s4 & H4 & H).
  apply fanOut_owners in H4. tx_inv. rewrite H4. simpl. apply one_pass_more.
  intros u Hu. rewrite elem_of_ascendingUnique in Hu. unfold members_of in Hu, Hm. simpl in Hu, Hm. by rewrite <- Hm in Hu.
Qed.

Lemma SetPinned_pass chat caller pinned d x s' :
  SetChatPinnedMessage chat caller pinned (mkTx d [] [] []) = (Ok x, s') -> one_pass (t_owners s').
Proof.
  intros H. unfold SetChatPinnedMessage in H. apply bind_ok in H as (m & s1 & H1 & H).
  apply beginChatMutation_ok in H1 as (_ & _ & Eo & _).
  apply locked_owners in H as ->; [rewrite Eo; apply one_pass_once|].
  apply lockless_bind; [no_locks|intros []]. cbv zeta. apply lockless_bind; [done|intros []; apply lockless_ret].
Qed.

Lemma SetRights_pass chat caller rights d x s' :
  SetChatDefaultBannedRights chat caller rights (mkTx d [] [] []) = (Ok x, s') -> t_owners s' = [].
Proof.
  intros H. unfold SetChatDefaultBannedRights in H. apply bind_ok in H as (m & s1 & H1 & H).
  apply beginChatMutation_ok in H1 as (_ & _ & Eo & _). apply bind_ok in H as ([] & s2 & H2 & H). apply require_ok in H2 as [_ <-].
  destruct (sameDefaultBannedRights _ _); [by apply ret_ok in H as [_ <-]|].
  apply bind_ok in H as ([] & s3 & [= <-] & H). by apply ret_ok in H as [_ <-].
Qed.

Lemma CreateChat_pass creator title ids d x s' : CreateChat creator title ids (mkTx d [] [] []) = (Ok x, s') -> t_owners s' = [].
Proof.
  intros H. unfold CreateChat in H. destruct (_ >? _); [done|]. tx_inv.
  repeat match goal with H : next_chat_id _ = (Ok _, _) |- _ => injection H as <- <- 
                       | H : write_chat _ _ _ = (Ok _, _) |- _ => injection H as <-
                       | H : write_members _ _ _ = (Ok _, _) |- _ => injection H as <- end. done.
Qed.

(** Every transaction on messages and chats that commits has written only to
    mailboxes whose owner lock it held, and took its owner locks in one pass in ascending
    order: anything it locked after that pass it held already. *)
Theorem owner_locks_disciplined now r p d x s' :
  db_ok d -> planned r p d -> body now r p (mkTx d [] [] []) = (Ok x, s') ->
  stray s' = [] /\ exists first rest, t_owners s' = first ++ rest /\ StronglySorted Z.lt first /\ rest ⊆ first.
Proof.
  intros D Hp H. split; [exact (so_stray _ _ (body_sound now r p (mkTx d [] [] []) x s' D Hp H))|].
  change (one_pass (t_owners s')).
  destruct r; destruct p; try done; simpl in H;
    apply bind_ok in H as (y & s1 & H1 & H); assert (s1 = s') as -> by (destruct_pairs; by tx_inv); clear H.
  all: first [ by eapply SendMessage_pass | by eapply EditMessage_pass | by eapply DeleteMessages_pass
             | by eapply ReadHistory_pass | by eapply ForwardMessages_pass | by eapply AddChatUser_pass
             | by eapply RemoveChatUser_pass | by eapply SetChatTitle_pass | by eapply SetPinned_pass
             | (apply SetRights_pass in H1 as ->; apply one_pass_nil) | (apply CreateChat_pass in H1 as ->; apply one_pass_nil)
             | (apply fanOut_locked_owners in H1 as ->; apply one_pass_once) ].
Qed.
