(* ===== verification/MsgHistory.v ===== *)
(** * Messages: reading a history page by page

    The two queries of [historyPage] are one slice of the dialog's live messages, newest
    first, and pages that follow each other miss and repeat nothing. *)

From S2P Require Import Prelude.
From S2P Require Import NetAddr.
From S2P Require Import Limits.
From S2P Require Import PeerHash.
From S2P Require Import UpdateBatch.
From S2P Require Import Mailbox.
From Stdlib Require Import String.

Open Scope Z_scope.

#[global] Instance newer_total : Total newer.
Proof. intros a b. unfold newer. lia. Qed.

#[global] Instance newer_trans : Transitive newer.
Proof. intros a b c. unfold newer. lia. Qed.

Lemma newest_first_sorted t peer b : StronglySorted newer (newest_first t peer b).
Proof. apply (StronglySorted_merge_sort newer). Qed.

Lemma elem_of_newest_first t peer b m :
  m ∈ newest_first t peer b <-> (exists l, msgs b !! l = Some m) /\ m_PeerType m = t /\ PeerID m = peer /\ Deleted m = false.
Proof.
  unfold newest_first. rewrite (merge_sort_Permutation newer), list_elem_of_In, filter_In, <- list_elem_of_In.
  unfold in_dialog. rewrite !andb_true_iff, bool_decide_eq_true, Z.eqb_eq, negb_true_iff. split.
  - intros [(kv & -> & Hkv)%list_elem_of_fmap_1 [[? ?] ?]]. destruct kv as [l x]. apply elem_of_map_to_list in Hkv.
    split_and!; [by exists l|done..].
  - intros ([l Hl] & ? & ? & ?). split; [|done]. apply list_elem_of_fmap. exists (l, m). split; [done|]. by apply elem_of_map_to_list.
Qed.

(** The messages at or above an id come first. *)
Definition at_or_above (offset : Z) (l : list Message) : Z := len (List.filter (fun m => offset <=? LocalID m) l).

Lemma drop_at_or_above offset l :
  StronglySorted newer l -> List.filter (fun m => LocalID m <? offset) l = drop (Z.to_nat (at_or_above offset l)) l.
Proof.
  unfold at_or_above, len. rewrite Nat2Z.id. induction 1 as [|m l Hs IH Hf]; [done|]. simpl.
  destruct (Z.ltb_spec (LocalID m) offset) as [Hlt|Hge].
  - rewrite (proj2 (Z.leb_gt _ _) Hlt).
    assert (E : List.filter (fun x => offset <=? LocalID x) l = []).
    { clear IH Hs. induction l as [|x l IHl]; [done|]. apply Forall_cons in Hf as [Hx Hf]. unfold newer in Hx. simpl.
      rewrite (proj2 (Z.leb_gt _ _)) by lia. by apply IHl. }
    rewrite E in *. simpl in *. by rewrite IH.
  - rewrite (proj2 (Z.leb_le _ _) Hge). simpl. exact IH.
Qed.

(** The reference: one slice, whatever the sign of the shift. *)
Definition slice (t : PeerType) (peer offsetID addOffset : Z) (lim : nat) (b : box) : list Message :=
  let live := newest_first t peer b in
  let anchor := if offsetID =? 0 then 0 else at_or_above offsetID live in
  take lim (drop (Z.to_nat (Z.max 0 (anchor + addOffset))) live).

Lemma historyPage_slice t peer offsetID addOffset lim b :
  0 <= offsetID -> historyPage t peer offsetID addOffset lim b = slice t peer offsetID addOffset lim b.
Proof.
  intros Ho. unfold historyPage, slice. rewrite (proj2 (Z.ltb_ge _ _) Ho).
  assert (Hpos : 0 <= at_or_above offsetID (newest_first t peer b)) by (unfold at_or_above, len; lia).
  destruct (Z.eqb_spec offsetID 0) as [->|Hn].
  - change (0 >? 0) with false. cbn [andb]. unfold HistoryPage. simpl.
    assert (E : forall l : list Message, List.filter (fun _ => true) l = l)
      by (induction l as [|x l IH]; [done|]; simpl; by rewrite IH).
    by rewrite E.
  - rewrite Z.gtb_ltb, (proj2 (Z.ltb_lt 0 offsetID)) by lia. simpl. destruct (Z.ltb_spec addOffset 0) as [Ha|Ha]; [done|].
    unfold HistoryPage. rewrite (proj2 (Z.eqb_neq _ _) Hn).
    change (fun m => false || (LocalID m <? offsetID)) with (fun m => LocalID m <? offsetID).
    rewrite drop_at_or_above by apply newest_first_sorted. rewrite drop_drop. do 2 f_equal. lia.
Qed.

Lemma at_or_above_lookup l i m :
  StronglySorted newer l -> NoDup (map LocalID l) -> l !! i = Some m -> at_or_above (LocalID m) l = Z.of_nat i + 1.
Proof.
  unfold at_or_above, len. intros Hs. revert i. induction Hs as [|x l Hs IH Hf]; intros i Hnd Hi; [done|].
  apply NoDup_cons in Hnd as [Hx Hnd]. simpl. destruct i as [|i]; simpl in Hi.
  - injection Hi as ->. rewrite Z.leb_refl. simpl.
    assert (E : List.filter (fun y => LocalID m <=? LocalID y) l = []).
    { clear IH Hs Hnd. induction l as [|y l IHl]; [done|]. apply Forall_cons in Hf as [Hy Hf]. unfold newer in Hy. simpl.
      simpl in Hx. apply not_elem_of_cons in Hx as [Hne Hx].
      rewrite (proj2 (Z.leb_gt _ _)) by lia. by apply IHl. }
    by rewrite E.
  - rewrite Forall_forall in Hf. assert (Hm : m ∈ l) by (by eapply list_elem_of_lookup_2). specialize (Hf m Hm). unfold newer in Hf.
    rewrite (proj2 (Z.leb_le _ _) Hf). simpl. specialize (IH i Hnd Hi). lia.
Qed.

Lemma newest_first_NoDup owner t peer b : box_ok owner b -> NoDup (map LocalID (newest_first t peer b)).
Proof.
  intros B. apply (NoDup_fmap_2_strong LocalID).
  - intros x y ([i Hi] & _)%elem_of_newest_first ([j Hj] & _)%elem_of_newest_first E.
    destruct (bo_msgs _ _ B _ _ Hi) as (_ & Ei & _), (bo_msgs _ _ B _ _ Hj) as (_ & Ej & _). congruence.
  - unfold newest_first. rewrite (merge_sort_Permutation newer). apply NoDup_ListNoDup, List.NoDup_filter, NoDup_ListNoDup.
    apply NoDup_fmap_2_strong; [|apply NoDup_map_to_list]. intros [i x] [j y] Hx%elem_of_map_to_list Hy%elem_of_map_to_list.
    simpl. intros ->. destruct (bo_msgs _ _ B _ _ Hx) as (_ & <- & _), (bo_msgs _ _ B _ _ Hy) as (_ & <- & _). done.
Qed.

(** C35 (equivalence).  A history page, by either of the two queries that serve it, is one
    slice of the dialog's live messages, newest first, starting [addOffset] places from the
    anchor; and a page asked for below the last message of the page before starts with the
    next message, so a client that pages on sees every live message once. *)
Theorem history_pages owner t peer b :
  box_ok owner b ->
  (forall m, m ∈ newest_first t peer b <->
     (exists l, msgs b !! l = Some m) /\ m_PeerType m = t /\ PeerID m = peer /\ Deleted m = false) /\
  StronglySorted newer (newest_first t peer b) /\ NoDup (map LocalID (newest_first t peer b)) /\
  (forall offsetID addOffset lim, 0 <= offsetID ->
     historyPage t peer offsetID addOffset lim b = slice t peer offsetID addOffset lim b) /\
  (forall i last lim, newest_first t peer b !! i = Some last ->
     historyPage t peer (LocalID last) 0 lim b = take lim (drop (S i) (newest_first t peer b))).
Proof.
  intros B. split_and!.
  - intros m. apply elem_of_newest_first.
  - apply newest_first_sorted.
  - by eapply newest_first_NoDup.
  - intros. by apply historyPage_slice.
  - intros i last lim Hi. assert (Hl := list_elem_of_lookup_2 _ _ _ Hi). apply elem_of_newest_first in Hl as ([l Hl] & _).
    assert (Hid : 1 <= LocalID last).
    { destruct (bo_msgs _ _ B _ _ Hl) as (_ & -> & _). destruct (counters b) as [[p n]|] eqn:Hc.
      - assert (H : is_Some (msgs b !! l)) by (by eexists). by apply (bo_ids _ _ B _ _ _ Hc) in H as [? _].
      - destruct (bo_none _ _ B Hc) as (E & _). by rewrite E in Hl. }
    rewrite historyPage_slice by lia. unfold slice. destruct (Z.eqb_spec (LocalID last) 0); [lia|].
    rewrite (at_or_above_lookup _ i) by (done || apply newest_first_sorted || by eapply newest_first_NoDup).
    do 2 f_equal. lia.
Qed.
