(* ===== verification/MsgDemo.v ===== *)
(** * Messages: concrete runs

    One run of requests that meets the hypotheses of the theorems, and the run that shows
    an edit reaching a copy its owner had deleted. *)

From S2P Require Import Prelude.
From S2P Require Import NetAddr.
From S2P Require Import Threads.
From S2P Require Import Limits.
From S2P Require Import PeerHash.
From S2P Require Import UpdateBatch.
From S2P Require Import Mailbox.
From S2P Require Import MsgStore.
From S2P Require Import MsgLogic.
From S2P Require Import MsgSafety.
From S2P Require Import MsgRuns.
From S2P Require Import MsgExact.
From S2P Require Import MsgMembers.
From S2P Require Import MsgLocks.
From S2P Require Import MsgHistory.
From Stdlib Require Import String.

Open Scope Z_scope.

(** ** A run *)

Definition calm_env : env := mkEnv NoFault 1000.

(** Each request served to its end before the next. *)
Definition in_turn (l : list request) : list (@choice db env (result tx_error value)) :=
  flat_map (fun r => [Arrive (serve r); Step 0 calm_env; Step 0 calm_env]) l.

Lemma in_turn_ok l : Forall plain l -> schedule_ok starts (fun _ => True) (in_turn l).
Proof.
  induction 1 as [|r l Hr Hl IH]; [constructor|]. unfold schedule_ok, in_turn in *. simpl.
  repeat constructor; [by exists r|done].
Qed.

Definition text_to_chat (from : Z) (text : string) (token : Z) : FanOut :=
  mkFanOut 1 from text ChatActionNone 0 token 0 None 0 [] None.

(** User 1 writes to user 2, who deletes their copy, and edits the message; then opens a
    chat with 2 and 3, writes in it, and removes 3. *)
Definition history : list request :=
  [ RSend 1 2 "hi" 77 0 0; RDelete 2 [1] false; REdit 1 1 "hi!"; RCreate 1 "team" [2; 3];
    RChat (text_to_chat 1 "hello" 78); RRemove 1 3 1 ]%string.

Lemma history_plain : Forall plain history.
Proof. repeat constructor. Qed.

Definition after (l : list request) := run_schedule (empty_db ∅ ∅) (in_turn l).

Lemma after_reach l : Forall plain l -> reach (empty_db ∅ ∅) (after l).
Proof. intros H. apply run_schedule_reach. by apply in_turn_ok. Qed.

(** ** Where the code departs from its intent *)

(** A message a user has deleted from their own view is still rewritten there
    when its author edits it: the deleted copy takes the new text, and an edit event follows
    the delete event in the deleter's log, so the new text is sent to a user for whom the
    message no longer exists. *)
Theorem deleted_copy_edited :
  let d := (after (take 3 history)).1 in
  (Deleted <$> row_at d 2 1) = Some true /\ (Text <$> row_at d 2 1) = Some "hi!"%string /\
  map (fun e => (ev_Type e, ev_LocalID e)) (log (box_of d 2)) = [(EventNewMessage, 1); (EventDelete, 1); (EventEdit, 1)].
Proof. vm_compute. split_and!; reflexivity. Qed.

(** ** The hypotheses of the theorems hold of it *)

#[local] Opaque run_schedule.

Definition stored_hi : Message :=
  row 1 1 PeerTypeUser 2 1 1000 "hi" true 77 1 0 0 0 0 None None.

Lemma history_reach : reach (empty_db ∅ ∅) (after history).
Proof. apply after_reach, history_plain. Qed.

Lemma first_reach n : reach (empty_db ∅ ∅) (after (take n history)).
Proof. apply after_reach. apply Forall_take, history_plain. Qed.

Lemma mailbox_log_exact_witness :
  counters (box_of (after history).1 2) = Some (5, 4) /\ map ev_Pts (log (box_of (after history).1 2)) = seqZ 1 5.
Proof.
  assert (Hc : counters (box_of (after history).1 2) = Some (5, 4)) by (vm_compute; reflexivity). split; [exact Hc|].
  destruct (mailbox_log_exact ∅ ∅ (after history) 2 history_reach) as (_ & H & _). exact (proj1 (H 5 4 Hc)).
Defined.



Lemma later_reach : rtc (pool_step starts (fun _ => True)) (after (take 0 history)) (after history).
Proof. exact history_reach. Qed.

Lemma mailboxes_refine_witness :
  len (log (box_of (after (take 0 history)).1 1)) = 0 /\ len (log (box_of (after history).1 1)) = 4 /\
  rtc (box_step 1) (box_of (after (take 0 history)).1 1) (box_of (after history).1 1).
Proof.
  split; [vm_compute; reflexivity|]. split; [vm_compute; reflexivity|].
  exact (mailboxes_refine ∅ ∅ (after (take 0 history)) (after history) 1 (first_reach 0) later_reach).
Defined.

Lemma hi_stored : row_at (after (take 1 history)).1 1 1 = Some stored_hi.
Proof. vm_compute. reflexivity. Qed.

Lemma pairs_mirrored_witness :
  exists n, row_at (after (take 1 history)).1 2 1 = Some n /\ PeerID n = 1 /\ PeerLocalID n = 1 /\ Out n = false.
Proof.
  destruct (pairs_mirrored ∅ ∅ (after (take 1 history)) 1 1 stored_hi (first_reach 1) hi_stored eq_refl ltac:(done))
    as (n & H1 & H2 & H3 & _ & H5). exists n. split_and!; [exact H1|exact H2|exact H3|exact H5].
Defined.

Lemma chat_copies_agree_witness :
  (exists x, chats (after history).1 !! 1 = Some x) /\
  forall x, chats (after history).1 !! 1 = Some x -> CreatorID x ∈ members_of (after history).1 1.
Proof.
  split; [eexists; vm_compute; reflexivity|]. intros x Hx.
  destruct (chat_copies_agree ∅ ∅ (after history) history_reach) as (_ & _ & H). exact (proj1 (H 1 x Hx)).
Defined.

(** The token is used once and then repeated. *)
Lemma send_message_exact_witness :
  exists m p q dup d', run_tx (SendMessage 1000 1 2 "hi"%string 77 0 0) (after (take 1 history)).1 = (Ok (m, p, q, dup), d') /\
    sent_between 1000 1 2 "hi"%string 77 0 0 m p q dup (after (take 1 history)).1 d'.
Proof.
  apply (send_message_exact ∅ ∅ (after (take 1 history)) 1000 1 2 "hi"%string 77 0 0 (first_reach 1)); [done|by left].
Defined.

Definition asked : FanOut := text_to_chat 3 "hello back" 79.

Lemma chat_text_exact_witness :
  exists sender po d', run_tx (fanOut_locked 1000 asked) (after (take 5 history)).1 = (Ok (sender, po, false), d') /\
    told_members 1000 asked sender po (after (take 5 history)).1 d'.
Proof.
  pose proof (chat_text_exact ∅ ∅ (after (take 5 history)) 1000 asked (first_reach 5) eq_refl eq_refl ltac:(by left)) as H.
  assert (E1 : chats (after (take 5 history)).1 !! f_ChatID asked = Some (mkChat "team" 1 1 None []))
    by (vm_compute; reflexivity).
  assert (E2 : bool_decide (f_FromID asked ∈ members_of (after (take 5 history)).1 (f_ChatID asked)) = true)
    by (vm_compute; reflexivity).
  assert (E3 : MessageByRandomID (f_RandomID asked) (box_of (after (take 5 history)).1 (f_FromID asked)) = None)
    by (vm_compute; reflexivity).
  rewrite E1, E2, E3 in H. exact H.
Defined.

(** User 3 is being removed: the announcement reaches them, and is the last that does. *)
Definition before_removal := run_schedule (empty_db ∅ ∅) (in_turn (take 5 history) ++ [Arrive (serve (RRemove 1 3 1)); Step 0 calm_env]).
Definition at_removal := run_choice before_removal (Step 0 calm_env).

Lemma before_removal_reach : reach (empty_db ∅ ∅) before_removal.
Proof.
  apply run_schedule_reach. apply Forall_app. split; [apply in_turn_ok, Forall_take, history_plain|].
  repeat constructor. by exists (RRemove 1 3 1).
Qed.

Definition farewell_row : Message :=
  row 3 2 PeerTypeChat 1 1 1000 EmptyString false 0 0 2 0 ChatActionDeleteUser 3 None None.

Lemma chat_content_members_only_witness :
  3 ∉ members_of at_removal.1 1 /\ row_at at_removal.1 3 2 = Some farewell_row /\
  ((exists m, row_at before_removal.1 3 2 = Some m /\ Text farewell_row = Text m /\ EditDate farewell_row = EditDate m) \/
   3 ∈ members_of at_removal.1 1 \/ Action farewell_row = ChatActionDeleteUser /\ ActionUserID farewell_row = 3).
Proof.
  assert (Hr : row_at at_removal.1 3 2 = Some farewell_row) by (vm_compute; reflexivity).
  assert (Hs : can_step before_removal 0 = true) by (vm_compute; reflexivity).
  split; [refine (bool_decide_unpack _ _); vm_compute; exact I|]. split; [exact Hr|].
  exact (chat_content_members_only ∅ ∅ before_removal at_removal 3 2 farewell_row before_removal_reach
           (run_choice_step starts (fun _ => True) before_removal 0 calm_env I Hs) Hr eq_refl).
Defined.

Lemma now_ok n : db_ok (after (take n history)).1.
Proof. by destruct (reach_ok _ _ (empty_db_ok ∅ ∅) (first_reach n)). Qed.

Definition removal_run := body 1000 (RRemove 1 3 1) NoPlan (mkTx (after (take 5 history)).1 [] [] []).

Lemma owner_locks_disciplined_witness :
  t_owners removal_run.2 = [1; 2; 3; 3; 1; 2; 3] /\
  exists x, removal_run = (Ok x, removal_run.2) /\
    stray removal_run.2 = [] /\ exists first rest, t_owners removal_run.2 = first ++ rest /\ StronglySorted Z.lt first /\ rest ⊆ first.
Proof.
  split; [vm_compute; reflexivity|].
  assert (Ho : match removal_run.1 with Ok _ => true | Err _ => false end = true) by (vm_compute; reflexivity).
  destruct removal_run as [[x|e] s'] eqn:E; [|discriminate Ho]. exists x. split; [reflexivity|].
  exact (owner_locks_disciplined 1000 (RRemove 1 3 1) NoPlan (after (take 5 history)).1 x s' (now_ok 5) I E).
Defined.

Lemma history_pages_witness :
  map LocalID (newest_first PeerTypeChat 1 (box_of (after history).1 2)) = [3; 2] /\
  map LocalID (historyPage PeerTypeChat 1 3 0 10 (box_of (after history).1 2)) = [2] /\
  historyPage PeerTypeChat 1 3 (-1) 10 (box_of (after history).1 2) = slice PeerTypeChat 1 3 (-1) 10 (box_of (after history).1 2).
Proof.
  split; [vm_compute; reflexivity|]. split; [vm_compute; reflexivity|].
  assert (B : box_ok 2 (box_of (after history).1 2)) by (apply do_boxes; exact (now_ok 6)).
  destruct (history_pages 2 PeerTypeChat 1 (box_of (after history).1 2) B) as (_ & _ & _ & H & _). apply H. lia.
Defined.
