(* ===== verification/LockedTx.v ===== *)
(** * Transactions that take locks

    A database transaction as the store writes them: statements that read, each on what is
    committed at its moment; row and advisory locks, waited for and held to the end; and the
    writes, with the commit or the rollback that ends it.  The writes of a transaction are
    seen by others only once it commits, so they are one step with the commit.  Any number of
    transactions run at once.

    Two proof rules: [safe_tx], where what a transaction has read stays true as long as the
    others cannot change it without a lock it holds, and what it writes is what the request
    it serves entitles it to; and [ordered], where transactions take their locks in one
    order, some last ones apart, and only those can be waited for in a ring. *)

From S2P Require Import Prelude.

Section transactions.
Context {L D E R : Type}.

Inductive txn : Type :=
| Read (k : E -> D -> txn)
| Lock (l : L) (k : E -> D -> txn)
| Final (f : E -> D -> R * D).

(** [Ended None] is a transaction whose connection or commit failed. *)
Inductive thread : Type :=
| Running (held : list L) (p : txn)
| Ended (r : option R).

Definition holds (t : thread) : list L := match t with Running held _ => held | Ended _ => [] end.

(** Nobody but the [i]-th holds [l]. *)
Definition free_for (i : nat) (l : L) (ts : list thread) : Prop :=
  forall j t, ts !! j = Some t -> l ∈ holds t -> j = i.

Inductive tx_step (starts : txn -> Prop) (ok : E -> Prop) : D * list thread -> D * list thread -> Prop :=
| ts_arrive d ts p : starts p -> tx_step starts ok (d, ts) (d, ts ++ [Running [] p])
| ts_read d ts i e held k :
    ts !! i = Some (Running held (Read k)) -> ok e ->
    tx_step starts ok (d, ts) (d, <[i := Running held (k e d)]> ts)
| ts_lock d ts i e held l k :
    ts !! i = Some (Running held (Lock l k)) -> ok e -> free_for i l ts ->
    tx_step starts ok (d, ts) (d, <[i := Running (l :: held) (k e d)]> ts)
| ts_final d ts i e held f :
    ts !! i = Some (Running held (Final f)) -> ok e ->
    tx_step starts ok (d, ts) ((f e d).2, <[i := Ended (Some (f e d).1)]> ts)
| ts_fail d ts i held p :
    ts !! i = Some (Running held p) ->
    tx_step starts ok (d, ts) (d, <[i := Ended None]> ts)
| ts_lost d ts i e held f :
    ts !! i = Some (Running held (Final f)) -> ok e ->
    tx_step starts ok (d, ts) ((f e d).2, <[i := Ended None]> ts).

Definition tx_reach (starts : txn -> Prop) (ok : E -> Prop) (d0 : D) : D * list thread -> Prop :=
  rtc (tx_step starts ok) (d0, []).

(** The same with the requests: the [i]-th of [qs] is the one the [i]-th transaction serves. *)
Inductive served {A} (serves : A -> txn) (ok : E -> Prop) (d0 : D) : list A -> D * list thread -> Prop :=
| sv_start : served serves ok d0 [] (d0, [])
| sv_arrive qs d ts q :
    served serves ok d0 qs (d, ts) -> served serves ok d0 (qs ++ [q]) (d, ts ++ [Running [] (serves q)])
| sv_step qs c c' : served serves ok d0 qs c -> tx_step (fun _ => False) ok c c' -> served serves ok d0 qs c'.

(** The step from [c] to [c'] is the end of the transaction that serves [q]. *)
Definition ends {A} (qs : list A) (c c' : D * list thread) (q : A) : Prop :=
  exists i held p r, qs !! i = Some q /\ c.2 !! i = Some (Running held p) /\ c'.2 = <[i := Ended r]> c.2.

Lemma tx_step_cases starts ok c c' :
  tx_step starts ok c c' ->
  (exists p, starts p /\ c' = (c.1, c.2 ++ [Running [] p])) \/ tx_step (fun _ => False) ok c c'.
Proof.
  destruct 1 as [d ts p Hp|d ts i e held k Hi He|d ts i e held l k Hi He Hf|d ts i e held f Hi He|d ts i held p Hi
    |d ts i e held f Hi He]; [left; by exists p|right..].
  - by apply ts_read.
  - by apply ts_lock.
  - by eapply ts_final.
  - by eapply ts_fail.
  - by eapply ts_lost.
Qed.

Lemma reach_served {A} (serves : A -> txn) ok d0 c :
  tx_reach (fun p => exists q, p = serves q) ok d0 c -> exists qs, served serves ok d0 qs c.
Proof.
  unfold tx_reach. apply (rtc_invariant (fun c => exists qs, served serves ok d0 qs c)).
  - intros c1 c2 [qs Hs] [(p & [q ->] & ->)|Hstep]%tx_step_cases.
    + exists (qs ++ [q]). apply sv_arrive. by destruct c1.
    + exists qs. by eapply sv_step.
  - exists []. constructor.
Qed.

(** ** Schedules, run *)

Context `{EqDecision L}.

Definition blocked_by (i : nat) (l : L) (ts : list thread) : bool :=
  existsb (fun jt => negb (Nat.eqb jt.1 i) && bool_decide (l ∈ holds jt.2)) (imap pair ts).

Lemma blocked_by_false i l ts : blocked_by i l ts = false -> free_for i l ts.
Proof.
  unfold blocked_by. intros H j t Hj Hl. rewrite <- not_true_iff_false, existsb_exists in H.
  destruct (decide (j = i)) as [|Hne]; [done|]. exfalso. apply H. exists (j, t). split.
  - apply list_elem_of_In, list_elem_of_lookup. exists j. by rewrite list_lookup_imap, Hj.
  - simpl. rewrite bool_decide_true by done. by destruct (Nat.eqb_spec j i).
Qed.

Inductive event : Type := Begin (p : txn) | Go (i : nat) (e : E).

Definition play (c : D * list thread) (x : event) : D * list thread :=
  match x with
  | Begin p => (c.1, c.2 ++ [Running [] p])
  | Go i e =>
      match c.2 !! i with
      | Some (Running held (Read k)) => (c.1, <[i := Running held (k e c.1)]> c.2)
      | Some (Running held (Lock l k)) =>
          if blocked_by i l c.2 then c else (c.1, <[i := Running (l :: held) (k e c.1)]> c.2)
      | Some (Running held (Final f)) => ((f e c.1).2, <[i := Ended (Some (f e c.1).1)]> c.2)
      | _ => c
      end
  end.

Definition play_all (d0 : D) (l : list event) : D * list thread := foldl play (d0, []) l.

Definition playable (starts : txn -> Prop) (ok : E -> Prop) (l : list event) : Prop :=
  Forall (fun x => match x with Begin p => starts p | Go _ e => ok e end) l.

Lemma play_steps starts ok c x :
  match x with Begin p => starts p | Go _ e => ok e end -> rtc (tx_step starts ok) c (play c x).
Proof.
  destruct c as [d ts], x as [p|i e]; intros Hx; cbn [play fst snd].
  - apply rtc_once. by constructor.
  - destruct (ts !! i) as [[held [k|l k|f]|r]|] eqn:Hi; try apply rtc_refl.
    + apply rtc_once. by apply ts_read.
    + destruct (blocked_by i l ts) eqn:Hb; [apply rtc_refl|]. apply rtc_once.
      apply ts_lock; [done|done|]. by apply blocked_by_false.
    + apply rtc_once. by eapply ts_final.
Qed.

Lemma play_all_reach starts ok d0 l : playable starts ok l -> tx_reach starts ok d0 (play_all d0 l).
Proof.
  unfold tx_reach, play_all. generalize (d0, @nil thread). induction l as [|x l IH]; intros c H.
  - constructor.
  - apply Forall_cons in H as [Hx Hl]. cbn [foldl]. etrans; [by apply play_steps|by apply IH].
Qed.

(** One transaction alone. *)
Fixpoint alone (env : nat -> E) (i : nat) (d : D) (p : txn) : R * D :=
  match p with
  | Read k | Lock _ k => alone env (S i) d (k (env i) d)
  | Final f => f (env i) d
  end.

(** What holds at its end, in whatever environments. *)
Fixpoint wpt (ok : E -> Prop) (d : D) (p : txn) (Q : R -> D -> Prop) : Prop :=
  match p with
  | Read k | Lock _ k => forall e, ok e -> wpt ok d (k e d) Q
  | Final f => forall e, ok e -> Q (f e d).1 (f e d).2
  end.

Lemma wpt_alone ok d p Q env i : (forall j, ok (env j)) -> wpt ok d p Q -> Q (alone env i d p).1 (alone env i d p).2.
Proof.
  intros Hok. revert i. induction p as [k IH|l k IH|f]; intros i H; cbn [alone]; [by apply IH, H|by apply IH, H|].
  by apply H.
Qed.

(** ** The invariant rule *)
Section rule.
Context {A : Type} (serves : A -> txn) (inv : D -> Prop) (guar : A -> list L -> D -> D -> Prop) (ok : E -> Prop).

(** [guar q H] is what a transaction that serves [q] and holds [H] may do to the tables: what
    is known under [held] must survive all that needs no lock of [held], whoever asks. *)
Definition kept (held : list L) (K : D -> Prop) : Prop :=
  forall q H d d', (forall l, l ∈ held -> l ∉ H) -> inv d -> inv d' -> K d -> guar q H d d' -> K d'.

Fixpoint safe_tx (q : A) (held : list L) (K : D -> Prop) (p : txn) : Prop :=
  kept held K /\
  match p with
  | Read k => forall e d, ok e -> inv d -> K d -> exists K' : D -> Prop, K' d /\ safe_tx q held K' (k e d)
  | Lock l k => forall e d, ok e -> inv d -> K d -> exists K' : D -> Prop, K' d /\ safe_tx q (l :: held) K' (k e d)
  | Final f => forall e d, ok e -> inv d -> K d -> inv (f e d).2 /\ guar q held d (f e d).2
  end.

Definition exclusive (ts : list thread) : Prop :=
  forall i j t u l, ts !! i = Some t -> ts !! j = Some u -> l ∈ holds t -> l ∈ holds u -> i = j.

Definition known (d : D) (q : A) (t : thread) : Prop :=
  match t with Running held p => exists K : D -> Prop, K d /\ safe_tx q held K p | Ended _ => True end.

Definition txs_inv (qs : list A) (c : D * list thread) : Prop :=
  inv c.1 /\ exclusive c.2 /\ Forall2 (known c.1) qs c.2.

Lemma safe_tx_kept q held K p : safe_tx q held K p -> kept held K.
Proof. destruct p; by intros [? _]. Qed.

Lemma txs_known qs d ts i t : txs_inv qs (d, ts) -> ts !! i = Some t -> exists q, qs !! i = Some q /\ known d q t.
Proof. intros (_ & _ & Hk) Hi. destruct (Forall2_lookup_r _ _ _ _ _ Hk Hi) as (q & Hq & Ht). by exists q. Qed.

Lemma exclusive_insert ts i t u :
  exclusive ts -> ts !! i = Some t -> (forall l, l ∈ holds u -> l ∈ holds t \/ free_for i l ts) ->
  exclusive (<[i := u]> ts).
Proof.
  intros Hx Hi Hu. assert (Hlt := lookup_lt_Some _ _ _ Hi).
  assert (Hone : forall j v l, ts !! j = Some v -> l ∈ holds u -> l ∈ holds v -> i = j).
  { intros j v l Hj H1 H2. destruct (Hu l H1) as [H3|H3]; [by eapply (Hx i j t v l)|]. by symmetry; eapply H3. }
  intros a b x y l Ha Hb Hxl Hyl.
  destruct (decide (i = a)) as [<-|Hia]; destruct (decide (i = b)) as [<-|Hib]; [done| | |].
  - rewrite list_lookup_insert_eq in Ha by done. rewrite list_lookup_insert_ne in Hb by done.
    simplify_eq. by eapply Hone.
  - rewrite list_lookup_insert_eq in Hb by done. rewrite list_lookup_insert_ne in Ha by done.
    simplify_eq. symmetry. by eapply Hone.
  - rewrite !list_lookup_insert_ne in Ha, Hb by done. by eapply Hx.
Qed.

(** A step of one thread, when the tables may have moved under the others. *)
Lemma txs_inv_step qs d d' ts i q t u :
  txs_inv qs (d, ts) -> qs !! i = Some q -> ts !! i = Some t -> inv d' -> (d' = d \/ guar q (holds t) d d') ->
  (forall l, l ∈ holds u -> l ∈ holds t \/ free_for i l ts) -> known d' q u ->
  txs_inv qs (d', <[i := u]> ts).
Proof.
  intros (Hi & Hx & Hk) Hq Ht Hi' Hg Hu Hn. cbn [fst snd] in *. split_and!; [done|by eapply exclusive_insert|].
  cbn [fst snd]. rewrite Forall2_same_length_lookup in Hk |- *. destruct Hk as [Hlen Hk].
  rewrite length_insert. split; [done|]. intros j r v Hr Hj. destruct (decide (i = j)) as [<-|Hne].
  - rewrite list_lookup_insert_eq in Hj by (by eapply lookup_lt_Some). by simplify_eq.
  - rewrite list_lookup_insert_ne in Hj by done. specialize (Hk j r v Hr Hj).
    destruct v as [held p|x]; [|done]. destruct Hk as (K & HK & Hs). exists K. split; [|done].
    destruct Hg as [->|Hg]; [done|].
    refine (safe_tx_kept _ _ _ _ Hs q (holds t) d d' _ Hi Hi' HK Hg).
    intros l Hl Hl'. apply Hne. by eapply (Hx i j _ _ l Ht Hj).
Qed.

Lemma txs_inv_arrive qs d ts q :
  (exists K, (forall d, inv d -> K d) /\ safe_tx q [] K (serves q)) ->
  txs_inv qs (d, ts) -> txs_inv (qs ++ [q]) (d, ts ++ [Running [] (serves q)]).
Proof.
  intros (K & HK & Hs) (Hd & Hx & Hk). cbn [fst snd] in *. split_and!; [done| |].
  - intros i j t u l Ht Hu Hl Hl'. cbn [snd] in *.
    apply lookup_app_Some in Ht as [Ht|[_ Ht]]; [|apply list_lookup_singleton_Some in Ht as [_ <-]; by apply elem_of_nil in Hl].
    apply lookup_app_Some in Hu as [Hu|[_ Hu]]; [|apply list_lookup_singleton_Some in Hu as [_ <-]; by apply elem_of_nil in Hl'].
    by eapply Hx.
  - apply Forall2_app; [done|]. constructor; [|constructor]. exists K. split; [by apply HK|done].
Qed.

Lemma tx_step_inv qs c c' : txs_inv qs c -> tx_step (fun _ => False) ok c c' -> txs_inv qs c'.
Proof.
  intros Hc Hstep. destruct Hstep as [d ts p []|d ts i e held k Hi He|d ts i e held l k Hi He Hf
    |d ts i e held f Hi He|d ts i held p Hi|d ts i e held f Hi He];
    pose proof (proj1 Hc) as Hd; destruct (txs_known _ _ _ _ _ Hc Hi) as (q & Hq & Hkn); cbn [fst snd known] in *.
  1-3,5: destruct Hkn as (K & HK & _ & Hs).
  - destruct (Hs e d He Hd HK) as (K' & HK' & Hs').
    eapply txs_inv_step; [done|done|done|done|by left|by left|]. by exists K'.
  - destruct (Hs e d He Hd HK) as (K' & HK' & Hs').
    eapply txs_inv_step; [done|done|done|done|by left| |by exists K'].
    intros x [->|Hin]%elem_of_cons; [by right|by left].
  - destruct (Hs e d He Hd HK) as [Hd' Hg].
    eapply txs_inv_step; [done|done|done|done|by right| |done]. intros x Hin. by apply elem_of_nil in Hin.
  - destruct (Hs e d He Hd HK) as [Hd' Hg].
    eapply txs_inv_step; [done|done|done|done|by right| |done]. intros x Hin. by apply elem_of_nil in Hin.
  - eapply txs_inv_step; [done|done|done|done|by left| |done]. intros x Hin. by apply elem_of_nil in Hin.
Qed.

Lemma served_inv qs d0 c :
  (forall q, exists K, (forall d, inv d -> K d) /\ safe_tx q [] K (serves q)) ->
  inv d0 -> served serves ok d0 qs c -> txs_inv qs c.
Proof.
  intros Hstart H0. induction 1 as [|qs d ts q _ IH|qs c c' _ IH Hs].
  - split_and!; [done| |constructor]. intros i j t u l Ht. cbn [snd] in Ht. by rewrite lookup_nil in Ht.
  - by apply txs_inv_arrive.
  - by eapply tx_step_inv.
Qed.

(** A step that changes the tables ends a transaction, and does what the request it serves
    and the locks it holds permit. *)
Lemma tx_step_guar starts qs c c' :
  txs_inv qs c -> tx_step starts ok c c' ->
  c'.1 = c.1 \/ exists q H, ends qs c c' q /\ guar q H c.1 c'.1.
Proof.
  intros Hc Hstep. pose proof (proj1 Hc) as Hd.
  destruct Hstep as [|d ts i e held k Hi He| |d ts i e held f Hi He| |d ts i e held f Hi He]; try by left.
  all: right; destruct (txs_known _ _ _ _ _ Hc Hi) as (q & Hq & K & HK & _ & Hs); destruct (Hs e d He Hd HK) as [_ Hg].
  all: exists q, held; split; [|done]; exists i, held; by eauto.
Qed.

End rule.

(** ** No deadlock *)
Section order.
Context (below : L -> L -> Prop) `{!StrictOrder below, !RelDecision below}.
Context (last : L -> Prop) (last_maximal : forall l l', last l -> below l l' -> False).

(** Every lock is above those held, or held already, or one of the last ones, which come in
    no order of their own. *)
Fixpoint ordered (held : list L) (p : txn) : Prop :=
  match p with
  | Read k => forall e d, ordered held (k e d)
  | Lock l k => (l ∈ held \/ last l \/ forall l', l' ∈ held -> below l' l) /\ forall e d, ordered (l :: held) (k e d)
  | Final _ => True
  end.

Definition in_order (t : thread) : Prop := match t with Running held p => ordered held p | Ended _ => True end.

Definition orderly (ts : list thread) : Prop := exclusive ts /\ forall i t, ts !! i = Some t -> in_order t.

Lemma orderly_insert ts i t u :
  orderly ts -> ts !! i = Some t -> (forall l, l ∈ holds u -> l ∈ holds t \/ free_for i l ts) -> in_order u ->
  orderly (<[i := u]> ts).
Proof.
  intros [Hx Ho] Ht Hu Hn. split; [by eapply exclusive_insert|]. intros j v Hj.
  destruct (decide (i = j)) as [<-|Hne].
  - rewrite list_lookup_insert_eq in Hj by (by eapply lookup_lt_Some). by simplify_eq.
  - rewrite list_lookup_insert_ne in Hj by done. by eapply Ho.
Qed.

Lemma tx_step_orderly starts ok c c' :
  (forall p, starts p -> ordered [] p) -> orderly c.2 -> tx_step starts ok c c' -> orderly c'.2.
Proof.
  intros Hstart Hc Hstep. destruct Hstep as [d ts p Hp|d ts i e held k Hi He|d ts i e held l k Hi He Hf
    |d ts i e held f Hi He|d ts i held p Hi|d ts i e held f Hi He]; cbn [fst snd] in *.
  2-6: pose proof (proj2 Hc i _ Hi) as Hi'; eapply orderly_insert; [done|exact Hi| |].
  all: cbn [holds in_order ordered] in *; try done.
  all: try (intros x Hin; by left).
  all: try (intros x Hin; by apply elem_of_nil in Hin).
  - destruct Hc as [Hx Ho]. split.
    + intros i j t u l Ht Hu Hl Hl'.
      apply lookup_app_Some in Ht as [Ht|[_ Ht]]; [|apply list_lookup_singleton_Some in Ht as [_ <-]; by apply elem_of_nil in Hl].
      apply lookup_app_Some in Hu as [Hu|[_ Hu]]; [|apply list_lookup_singleton_Some in Hu as [_ <-]; by apply elem_of_nil in Hl'].
      by eapply Hx.
    + intros i t Ht. apply lookup_app_Some in Ht as [Ht|[_ Ht]]; [by eapply Ho|].
      apply list_lookup_singleton_Some in Ht as [_ <-]. by apply Hstart.
  - intros x [->|Hin]%elem_of_cons; [by right|by left].
  - by apply Hi'.
Qed.

Definition all_held (ts : list thread) : list L := flat_map holds ts.

Lemma all_held_spec ts l : l ∈ all_held ts <-> exists i t, ts !! i = Some t /\ l ∈ holds t.
Proof.
  unfold all_held. rewrite list_elem_of_In, in_flat_map. split.
  - intros (t & Ht & Hl). apply list_elem_of_In, list_elem_of_lookup in Ht as [i Hi].
    exists i, t. split; [done|by apply list_elem_of_In].
  - intros (i & t & Ht & Hl). exists t. split; [|by apply list_elem_of_In].
    apply list_elem_of_In. by eapply list_elem_of_lookup_2.
Qed.

(** Whether the [i]-th thread has its next step to take now. *)
Definition enabled (i : nat) (ts : list thread) : bool :=
  match ts !! i with
  | Some (Running _ (Lock l _)) => negb (blocked_by i l ts)
  | Some (Running _ _) => true
  | _ => false
  end.

Lemma blocked_by_true i l ts : blocked_by i l ts = true -> exists j t, ts !! j = Some t /\ l ∈ holds t /\ j <> i.
Proof.
  unfold blocked_by. rewrite existsb_exists. intros ([j t] & Hin & Hb). simpl in Hb.
  apply list_elem_of_In, list_elem_of_lookup in Hin as [n Hn]. rewrite list_lookup_imap in Hn.
  destruct (ts !! n) as [v|] eqn:Hv; simplify_eq/=. apply andb_true_iff in Hb as [H1 H2].
  apply bool_decide_eq_true in H2. exists j, t. split_and!; [done|done|]. by destruct (Nat.eqb_spec j i).
Qed.

(** The locks held above [l]. *)
Definition held_above (l : L) (ts : list thread) : nat := length (filter (below l) (all_held ts)).

Lemma above_lt l l' ts : below l l' -> l' ∈ all_held ts -> (held_above l' ts < held_above l ts)%nat.
Proof.
  intros Hlt Hin. unfold held_above. induction (all_held ts) as [|x xs IH]; [by apply elem_of_nil in Hin|].
  assert (Hle : forall ys, (length (filter (below l') ys) <= length (filter (below l) ys))%nat).
  { intros ys. induction ys as [|y ys IHy]; [done|]. rewrite !filter_cons.
    destruct (decide (below l' y)) as [Hy|Hy].
    - rewrite decide_True by (transitivity l'; done). simpl. lia.
    - destruct (decide (below l y)); simpl; lia. }
  rewrite !filter_cons. apply elem_of_cons in Hin as [<-|Hin].
  - rewrite decide_False by (apply StrictOrder_Irreflexive). rewrite decide_True by done. simpl.
    specialize (Hle xs). lia.
  - specialize (IH Hin). destruct (decide (below l' x)) as [Hy|Hy].
    + rewrite decide_True by (transitivity l'; done). simpl. lia.
    + destruct (decide (below l x)); simpl; lia.
Qed.

(** The [i]-th waits for a last lock that the [j]-th holds. *)
Definition waits (ts : list thread) (i j : nat) : Prop :=
  exists held l k t, ts !! i = Some (Running held (Lock l k)) /\ last l /\ ts !! j = Some t /\ l ∈ holds t /\ j <> i.

Definition stuck (ts : list thread) : Prop := forall i, enabled i ts = false.

(** The holder of a lock somebody waits for, when nobody can go on, waits in turn, and for
    a last lock or a greater one. *)
Lemma stuck_next ts i held l k :
  orderly ts -> stuck ts -> ts !! i = Some (Running held (Lock l k)) ->
  exists j held' l' k', ts !! j = Some (Running held' (Lock l' k')) /\ l ∈ held' /\ j <> i /\
    l' ∈ all_held ts /\ (last l' \/ below l l').
Proof.
  intros [Hx Ho] Hst Hi. pose proof (Hst i) as Hen. unfold enabled in Hen. rewrite Hi in Hen.
  apply negb_false_iff, blocked_by_true in Hen as (j & t & Hj & Hl & Hne).
  pose proof (Hst j) as Hen. pose proof (Ho j t Hj) as Hoj. unfold enabled in Hen. rewrite Hj in Hen.
  destruct t as [held' [k'|l' k'|f]|r]; [done| |done|by apply elem_of_nil in Hl].
  apply negb_false_iff, blocked_by_true in Hen as (m & u & Hm & Hl' & Hne').
  exists j, held', l', k'. split_and!; [done|done|done|apply all_held_spec; by exists m, u|].
  destruct Hoj as [[Hin|[Hla|Hgt]] _]; [by destruct (Hne' (Hx m j _ _ _ Hm Hj Hl' Hin))|by left|right; by apply Hgt].
Qed.

(** So the waits climb to a last lock. *)
Lemma stuck_climbs ts : orderly ts -> stuck ts -> forall n l i held k,
  (held_above l ts <= n)%nat -> ts !! i = Some (Running held (Lock l k)) ->
  exists j held' l' k', ts !! j = Some (Running held' (Lock l' k')) /\ last l'.
Proof.
  intros Ho Hst. induction n as [|n IH]; intros l i held k Hn Hi.
  all: destruct (stuck_next _ _ _ _ _ Ho Hst Hi) as (j & held' & l' & k' & Hj & _ & _ & Hall & [Hla|Hlt]); [by eauto 10|].
  all: pose proof (above_lt _ _ ts Hlt Hall).
  - lia.
  - apply (IH l' j held' k'); [lia|done].
Qed.

(** And from there they go on for ever among the last locks. *)
Lemma stuck_last ts i held l k :
  orderly ts -> stuck ts -> ts !! i = Some (Running held (Lock l k)) -> last l ->
  exists j held' l' k', ts !! j = Some (Running held' (Lock l' k')) /\ last l' /\ waits ts i j.
Proof.
  intros Ho Hst Hi Hl. destruct (stuck_next _ _ _ _ _ Ho Hst Hi) as (j & held' & l' & k' & Hj & Hin & Hne & _ & [Hla|Hlt]).
  - exists j, held', l', k'. split_and!; [done|done|]. exists held, l, k, (Running held' (Lock l' k')). by split_and!.
  - by destruct (last_maximal l l').
Qed.

Lemma stuck_path ts i0 held0 l0 k0 : orderly ts -> stuck ts -> ts !! i0 = Some (Running held0 (Lock l0 k0)) -> last l0 ->
  forall n, (exists i, tc (waits ts) i i) \/
    exists x held l k path, ts !! x = Some (Running held (Lock l k)) /\ last l /\ length path = n /\ NoDup (x :: path) /\
      Forall (fun y => rtc (waits ts) y x) path /\ Forall (fun y => (y < length ts)%nat) path.
Proof.
  intros Ho Hst Hi0 Hl0. induction n as [|n IH].
  - right. exists i0, held0, l0, k0, []. split_and!; try done. by repeat constructor; intros ?%elem_of_nil.
  - destruct IH as [?|(x & held & l & k & path & Hx & Hl & Hlen & Hnd & Hr & Hlt)]; [by left|].
    destruct (stuck_last _ _ _ _ _ Ho Hst Hx Hl) as (y & held' & l' & k' & Hy & Hl' & Hw).
    destruct (decide (y ∈ x :: path)) as [Hin|Hin].
    + left. exists y. apply elem_of_cons in Hin as [->|Hin]; [by constructor|].
      rewrite Forall_forall in Hr. eapply tc_rtc_l; [by apply Hr|by constructor].
    + right. exists y, held', l', k', (x :: path). split_and!; [done|done|simpl; by rewrite Hlen|apply NoDup_cons; by split| |].
      * apply Forall_cons. split; [by apply rtc_once|]. eapply Forall_impl; [exact Hr|]. intros z Hz. eapply rtc_r; [exact Hz|done].
      * apply Forall_cons. split; [by eapply lookup_lt_Some|done].
Qed.

(** When a transaction is running, some transaction can take its next step, unless there is
    a ring of waits for the last locks. *)
Lemma orderly_enabled ts i held p :
  orderly ts -> ts !! i = Some (Running held p) -> (exists j, enabled j ts = true) \/ exists j, tc (waits ts) j j.
Proof.
  intros Ho Hi. destruct (existsb (fun j => enabled j ts) (seq 0 (length ts))) eqn:Eb.
  { apply existsb_exists in Eb as (j & _ & Hj). left. by exists j. }
  right. assert (Hst : stuck ts).
  { intros j. destruct (enabled j ts) eqn:Hj; [|done]. rewrite <- not_true_iff_false in Eb. destruct Eb.
    apply existsb_exists. exists j. split; [|done]. apply in_seq. split; [lia|]. simpl. unfold enabled in Hj.
    destruct (ts !! j) eqn:Hl; [by eapply lookup_lt_Some|done]. }
  pose proof (Hst i) as Hen. unfold enabled in Hen. rewrite Hi in Hen. destruct p as [k|l k|f]; [done| |done].
  destruct (stuck_climbs ts Ho Hst _ l i held k (le_n _) Hi) as (x & held' & l' & k' & Hx & Hl').
  destruct (stuck_path ts x held' l' k' Ho Hst Hx Hl' (S (length ts))) as [?|(y & ? & ? & ? & path & _ & _ & Hlen & Hnd & _ & Hlt)];
    [done|].
  apply NoDup_cons in Hnd as [_ Hnd]. exfalso.
  assert (length path <= length (seq 0 (length ts)))%nat as Hle; [|rewrite length_seq in Hle; lia].
  apply submseteq_length, NoDup_submseteq; [done|]. intros z Hz. rewrite Forall_forall in Hlt. apply elem_of_seq.
  specialize (Hlt z Hz). lia.
Qed.

Lemma reach_orderly starts ok d0 c :
  (forall p, starts p -> ordered [] p) -> tx_reach starts ok d0 c -> orderly c.2.
Proof.
  intros Hstart. unfold tx_reach. apply (rtc_invariant (fun c => orderly c.2)).
  - intros c1 c2 H Hs. by eapply tx_step_orderly.
  - split.
    + intros i j t u l Ht. cbn [snd] in Ht. by rewrite lookup_nil in Ht.
    + intros i t Ht. cbn [snd] in Ht. by rewrite lookup_nil in Ht.
Qed.

End order.
End transactions.

Arguments txn : clear implicits.
Arguments thread : clear implicits.
Arguments event : clear implicits.
