(* ===== verification/ChannelStore.v ===== *)
(** * Channels: tables and statements

    What [internal/store/channels.go], [channelmsgs.go], [channel_read_history.go] and the
    username part of [users.go] keep, and the statements of [queries/channels.sql],
    [channelmsgs.sql], [channel_username_changes.sql] and [usernames.sql] on it, as functions
    of the tables.  [None] is a statement that violates a constraint.  [opened] is no table:
    it remembers the channels that have had a username. *)

From S2P Require Import Prelude.
From S2P Require Import NetAddr.
From S2P Require Import GoStrings.
From S2P Require Import UpdateBatch.
From S2P Require Import Mailbox.
From S2P Require Import MsgStore.
From Stdlib Require Import String.

Open Scope Z_scope.

(** ** Bounds *)

Definition defaultMaxChannelParticipants : Z := 10000.
Definition defaultMaxChannelsPerUser : Z := 500.
Definition inviteHashBytes : Z := 16.
Definition minChannelID : Z := Z.shiftl 1 31.
Definition maxChannelID : Z := 997852516352.
Definition channelIDSpan : Z := maxChannelID - minChannelID + 1.
Definition channelIDAttempts : nat := 8.
Definition ChannelUsernameChangeLimit : Z := 2.
Definition ChannelUsernameChangeWindow : Z := 24 * 3600 * second.
Definition UsernameChangeLimit : Z := 2.
Definition UsernameChangeWindow : Z := 24 * 3600 * second.

Definition channelRoleMember : Z := 0.
Definition channelRoleAdmin : Z := 1.
Definition channelRoleCreator : Z := 2.

(** ** Rows *)

Record Channel : Type := mkChannel {
  ch_Title : string;
  ch_About : string;
  ch_CreatorID : Z;
  ch_Megagroup : bool;
  ch_Version : Z;
  ch_Date : Z;
  ch_PinnedMessageID : option Z;
  ch_Username : option string;
  ch_publicly_discoverable : bool;
  ch_DefaultBannedRights : list string;
  ch_SlowmodeSeconds : Z
}.

(** [banned_until]: a timestamp or ['infinity']. *)
Inductive until : Type := Infinity | Until (t : Z).

Record participant : Type := mkParticipant {
  p_role : Z;
  p_banned_until : option until;
  p_join_pts : Z;
  p_date : Z;
  p_last_post_at : option Z
}.

Record chan_state : Type := mkState { st_pts : Z; st_next : Z }.

Record invite : Type := mkInvite {
  i_channel : Z; i_creator : Z; i_date : Z; i_revoked : option Z
}.

Record ChannelMessage : Type := mkPost {
  cm_FromID : Z;
  cm_Date : Z;
  cm_Message : string;
  cm_EditDate : option Z;
  cm_Deleted : bool;
  cm_RandomID : Z;
  cm_FileID : option Z;
  cm_ReplyToMsgID : option Z;
  cm_Action : Z
}.

Definition ChannelMessageActionNone : Z := 0.
Definition ChannelMessageActionCreate : Z := 1.

Inductive holder : Type := OfUser (id : Z) | OfChannel (id : Z).

#[global] Instance holder_eq : EqDecision holder.
Proof. solve_decision. Defined.

Record user_row : Type := mkUser { u_username : option string; u_login_mode : string }.

Record cdb : Type := mkCdb {
  channels : gmap Z Channel;
  channel_state : gmap Z chan_state;
  channel_participants : gmap (Z * Z) participant;
  channel_read_state : gmap (Z * Z) Z;
  channel_post_markers : gmap (Z * Z) Z;
  channel_invites : gmap string invite;
  channel_messages : gmap (Z * Z) ChannelMessage;
  channel_events : gmap (Z * Z) (EventType * Z);
  usernames : gmap string holder;
  channel_username_changes : gset (Z * Z);
  username_changes : gset (Z * Z);
  users : gmap Z user_row;
  stored_files : gset Z;
  opened : gset Z
}.

Definition set_channels x d :=
  mkCdb x (channel_state d) (channel_participants d) (channel_read_state d) (channel_post_markers d) (channel_invites d)
    (channel_messages d) (channel_events d) (usernames d) (channel_username_changes d) (username_changes d) (users d)
    (stored_files d) (opened d).
Definition set_states x d :=
  mkCdb (channels d) x (channel_participants d) (channel_read_state d) (channel_post_markers d) (channel_invites d)
    (channel_messages d) (channel_events d) (usernames d) (channel_username_changes d) (username_changes d) (users d)
    (stored_files d) (opened d).
Definition set_participants x d :=
  mkCdb (channels d) (channel_state d) x (channel_read_state d) (channel_post_markers d) (channel_invites d)
    (channel_messages d) (channel_events d) (usernames d) (channel_username_changes d) (username_changes d) (users d)
    (stored_files d) (opened d).
Definition set_reads x d :=
  mkCdb (channels d) (channel_state d) (channel_participants d) x (channel_post_markers d) (channel_invites d)
    (channel_messages d) (channel_events d) (usernames d) (channel_username_changes d) (username_changes d) (users d)
    (stored_files d) (opened d).
Definition set_markers x d :=
  mkCdb (channels d) (channel_state d) (channel_participants d) (channel_read_state d) x (channel_invites d)
    (channel_messages d) (channel_events d) (usernames d) (channel_username_changes d) (username_changes d) (users d)
    (stored_files d) (opened d).
Definition set_invites x d :=
  mkCdb (channels d) (channel_state d) (channel_participants d) (channel_read_state d) (channel_post_markers d) x
    (channel_messages d) (channel_events d) (usernames d) (channel_username_changes d) (username_changes d) (users d)
    (stored_files d) (opened d).
Definition set_posts x d :=
  mkCdb (channels d) (channel_state d) (channel_participants d) (channel_read_state d) (channel_post_markers d)
    (channel_invites d) x (channel_events d) (usernames d) (channel_username_changes d) (username_changes d) (users d)
    (stored_files d) (opened d).
Definition set_events x d :=
  mkCdb (channels d) (channel_state d) (channel_participants d) (channel_read_state d) (channel_post_markers d)
    (channel_invites d) (channel_messages d) x (usernames d) (channel_username_changes d) (username_changes d) (users d)
    (stored_files d) (opened d).
Definition set_usernames x d :=
  mkCdb (channels d) (channel_state d) (channel_participants d) (channel_read_state d) (channel_post_markers d)
    (channel_invites d) (channel_messages d) (channel_events d) x (channel_username_changes d) (username_changes d)
    (users d) (stored_files d) (opened d).
Definition set_channel_changes x d :=
  mkCdb (channels d) (channel_state d) (channel_participants d) (channel_read_state d) (channel_post_markers d)
    (channel_invites d) (channel_messages d) (channel_events d) (usernames d) x (username_changes d) (users d)
    (stored_files d) (opened d).
Definition set_user_changes x d :=
  mkCdb (channels d) (channel_state d) (channel_participants d) (channel_read_state d) (channel_post_markers d)
    (channel_invites d) (channel_messages d) (channel_events d) (usernames d) (channel_username_changes d) x (users d)
    (stored_files d) (opened d).
Definition set_users x d :=
  mkCdb (channels d) (channel_state d) (channel_participants d) (channel_read_state d) (channel_post_markers d)
    (channel_invites d) (channel_messages d) (channel_events d) (usernames d) (channel_username_changes d)
    (username_changes d) x (stored_files d) (opened d).
Definition set_opened x d :=
  mkCdb (channels d) (channel_state d) (channel_participants d) (channel_read_state d) (channel_post_markers d)
    (channel_invites d) (channel_messages d) (channel_events d) (usernames d) (channel_username_changes d)
    (username_changes d) (users d) (stored_files d) x.

(** ** Members *)

(** The last second of the year 9999. *)
Definition bannedForever : Z := 315537897599 * second.

Record ChannelMember : Type := mkMember {
  m_UserID : Z; m_Role : Z; m_BannedUntil : option Z; m_JoinPts : Z; m_Date : Z
}.

Definition channelMemberFromRow (user : Z) (r : participant) : ChannelMember :=
  mkMember user (p_role r)
    (match p_banned_until r with None => None | Some Infinity => Some bannedForever | Some (Until t) => Some t end)
    (p_join_pts r) (p_date r).

Definition Banned (m : ChannelMember) (now : Z) : bool :=
  match m_BannedUntil m with Some t => now <? t | None => false end.

Definition Forever (m : ChannelMember) : bool :=
  match m_BannedUntil m with Some t => t =? bannedForever | None => false end.

(** ** Reads *)

Definition ChannelParticipantByUser (c u : Z) (d : cdb) : option participant := channel_participants d !! (c, u).

Definition IsChannelMember (c u : Z) (d : cdb) : bool := bool_decide (is_Some (channel_participants d !! (c, u))).

(** Rows of one channel, and rows of one user. *)
Definition in_channel (c : Z) (kv : Z * Z * participant) : Prop := kv.1.1 = c.
Definition of_user (u : Z) (kv : Z * Z * participant) : Prop := kv.1.2 = u.

#[global] Instance in_channel_dec c kv : Decision (in_channel c kv).
Proof. unfold in_channel. apply _. Defined.
#[global] Instance of_user_dec u kv : Decision (of_user u kv).
Proof. unfold of_user. apply _. Defined.

Definition seats (c : Z) (m : gmap (Z * Z) participant) : Z := Z.of_nat (size (filter (in_channel c) m)).
Definition joined (u : Z) (m : gmap (Z * Z) participant) : Z := Z.of_nat (size (filter (of_user u) m)).

Definition CountChannelParticipants (c : Z) (d : cdb) : Z := seats c (channel_participants d).
Definition CountChannelsForUser (u : Z) (d : cdb) : Z := joined u (channel_participants d).

Definition key_le (a b : Z * Z * participant) : Prop := a.1.2 <= b.1.2.

#[global] Instance key_le_dec a b : Decision (key_le a b).
Proof. unfold key_le. apply _. Defined.

Definition ChannelParticipants (c : Z) (d : cdb) : list (Z * Z * participant) :=
  merge_sort key_le (map_to_list (filter (in_channel c) (channel_participants d))).

Definition ChannelMessageByLocal (c l : Z) (d : cdb) : option ChannelMessage := channel_messages d !! (c, l).

(** The post of a channel with a token, and its local id. *)
Definition has_token (c randomID : Z) (kv : Z * Z * ChannelMessage) : bool :=
  (kv.1.1 =? c) && (cm_RandomID kv.2 =? randomID) && negb (cm_RandomID kv.2 =? 0).

Definition ChannelMessageByRandomID (c randomID : Z) (d : cdb) : option (Z * ChannelMessage) :=
  (fun kv => (kv.1.2, kv.2)) <$> List.find (has_token c randomID) (map_to_list (channel_messages d)).

Definition is_new (c l : Z) (kv : Z * Z * (EventType * Z)) : bool :=
  (kv.1.1 =? c) && bool_decide (kv.2 = (EventNewMessage, l)).

Definition NewChannelPostPts (c l : Z) (d : cdb) : option Z :=
  (fun kv => kv.1.2) <$> List.find (is_new c l) (map_to_list (channel_events d)).

Definition ChannelPostExistsActive (c l : Z) (d : cdb) : bool :=
  match channel_messages d !! (c, l) with
  | Some p => negb (cm_Deleted p) && (cm_Action p =? 0)
  | None => false
  end.

(** [GREATEST] ignores nulls. *)
Definition greatest (a b : option Z) : option Z :=
  match a, b with Some x, Some y => Some (Z.max x y) | Some x, None => Some x | None, y => y end.

Definition ChannelSlowModePostState (c u : Z) (d : cdb) : option (Z * option Z) :=
  match channels d !! c, channel_participants d !! (c, u) with
  | Some ch, Some p => Some (ch_SlowmodeSeconds ch, greatest (p_last_post_at p) (channel_post_markers d !! (c, u)))
  | _, _ => None
  end.

Definition ChannelInviteByHash (h : string) (d : cdb) : option invite :=
  match channel_invites d !! h with
  | Some i => if bool_decide (i_revoked i = None) then Some i else None
  | None => None
  end.

(** ** Writes *)

Definition known_user (u : Z) (d : cdb) : bool := bool_decide (is_Some (users d !! u)).
Definition known_channel (c : Z) (d : cdb) : bool := bool_decide (is_Some (channels d !! c)).

(** The row as it is inserted; [None] when the id is taken ([channels_pkey]). *)
Definition new_channel (now : Z) (title about : string) (creator : Z) (megagroup : bool) : Channel :=
  mkChannel title about creator megagroup 1 now None None false [] 0.

Definition InsertChannel (id : Z) (row : Channel) (d : cdb) : option cdb :=
  if known_channel id d || negb (known_user (ch_CreatorID row) d) then None
  else Some (set_channels (<[id := row]> (channels d)) d).

Definition InsertChannelState (c : Z) (d : cdb) : option cdb :=
  if bool_decide (is_Some (channel_state d !! c)) || negb (known_channel c d) then None
  else Some (set_states (<[c := mkState 0 1]> (channel_state d)) d).

Definition EnsureChannelState (c : Z) (d : cdb) : option cdb :=
  if bool_decide (is_Some (channel_state d !! c)) then Some d
  else if known_channel c d then Some (set_states (<[c := mkState 0 1]> (channel_state d)) d) else None.

Definition new_participant (role joinPts now : Z) : participant := mkParticipant role None joinPts now None.

Definition InsertChannelParticipant (c u role joinPts now : Z) (d : cdb) : option cdb :=
  if IsChannelMember c u d || negb (known_channel c d) || negb (known_user u d) then None
  else Some (set_participants (<[(c, u) := new_participant role joinPts now]> (channel_participants d)) d).

(** The number of rows inserted with it. *)
Definition InsertChannelParticipantIfAbsent (c u role joinPts now : Z) (d : cdb) : option (Z * cdb) :=
  if IsChannelMember c u d then Some (0, d)
  else (fun d' => (1, d')) <$> InsertChannelParticipant c u role joinPts now d.

(** [ON DELETE CASCADE] takes the read state along. *)
Definition DeleteChannelParticipant (c u : Z) (d : cdb) : cdb :=
  set_reads (delete (c, u) (channel_read_state d)) (set_participants (delete (c, u) (channel_participants d)) d).

Definition alter_participant (c u : Z) (f : participant -> participant) (d : cdb) : Z * cdb :=
  (if IsChannelMember c u d then 1 else 0, set_participants (alter f (c, u) (channel_participants d)) d).

Definition set_role (role : Z) (p : participant) : participant :=
  mkParticipant role (p_banned_until p) (p_join_pts p) (p_date p) (p_last_post_at p).
Definition set_ban (b : option until) (p : participant) : participant :=
  mkParticipant (p_role p) b (p_join_pts p) (p_date p) (p_last_post_at p).
Definition set_last_post (t : Z) (p : participant) : participant :=
  mkParticipant (p_role p) (p_banned_until p) (p_join_pts p) (p_date p) (Some t).

Definition UpdateChannelParticipantRole (c u role : Z) : cdb -> Z * cdb := alter_participant c u (set_role role).
Definition UpdateChannelParticipantBan (c u : Z) (b : option until) : cdb -> Z * cdb := alter_participant c u (set_ban b).

Definition UpdateChannelPostMarker (c u clock : Z) (d : cdb) : Z * cdb :=
  if IsChannelMember c u d
  then (1, set_markers (<[(c, u) := clock]> (channel_post_markers d)) (alter_participant c u (set_last_post clock) d).2)
  else (0, d).

Definition InsertChannelReadStateForNewMember (c u top : Z) (d : cdb) : cdb :=
  match channel_read_state d !! (c, u) with
  | Some _ => d
  | None => set_reads (<[(c, u) := Z.max top 0]> (channel_read_state d)) d
  end.

Definition AdvanceChannelReadState (c u maxID : Z) (d : cdb) : cdb :=
  let m := Z.max maxID 0 in
  match channel_read_state d !! (c, u) with
  | Some r => if r <? m then set_reads (<[(c, u) := m]> (channel_read_state d)) d else d
  | None => set_reads (<[(c, u) := m]> (channel_read_state d)) d
  end.

(** The new pts and the local id consumed. *)
Definition BumpChannelState (c : Z) (d : cdb) : option (Z * Z * cdb) :=
  match channel_state d !! c with
  | Some st =>
      Some (st_pts st + 1, st_next st, set_states (<[c := mkState (st_pts st + 1) (st_next st + 1)]> (channel_state d)) d)
  | None => None
  end.

(** The primary key, the token index and the file reference. *)
Definition InsertChannelMessage (c l : Z) (p : ChannelMessage) (d : cdb) : option cdb :=
  if bool_decide (is_Some (channel_messages d !! (c, l)))
     || (negb (cm_RandomID p =? 0) && bool_decide (is_Some (ChannelMessageByRandomID c (cm_RandomID p) d)))
     || match cm_FileID p with Some f => negb (bool_decide (f ∈ stored_files d)) | None => false end
  then None
  else Some (set_posts (<[(c, l) := p]> (channel_messages d)) d).

Definition InsertChannelEvent (c pts : Z) (ty : EventType) (l : Z) (d : cdb) : option cdb :=
  if bool_decide (is_Some (channel_events d !! (c, pts))) then None
  else Some (set_events (<[(c, pts) := (ty, l)]> (channel_events d)) d).

Definition InsertChannelInvite (h : string) (c creator now : Z) (d : cdb) : option cdb :=
  if bool_decide (is_Some (channel_invites d !! h)) || negb (known_channel c d) || negb (known_user creator d) then None
  else Some (set_invites (<[h := mkInvite c creator now None]> (channel_invites d)) d).

Definition q_RevokeChannelInvite (h : string) (c now : Z) (d : cdb) : cdb :=
  match channel_invites d !! h with
  | Some i =>
      if i_channel i =? c
      then set_invites (<[h := mkInvite (i_channel i) (i_creator i) (i_date i)
                                 (match i_revoked i with None => Some now | x => x end)]> (channel_invites d)) d
      else d
  | None => d
  end.

(** *** The channels row; [RETURNING *] *)

Definition max_int32 : Z := 2 ^ 31 - 1.

Definition put_channel (c : Z) (ch : Channel) (d : cdb) : Channel * cdb := (ch, set_channels (<[c := ch]> (channels d)) d).

Definition q_SetChannelPinnedMessage (c : Z) (pin : option Z) (d : cdb) : option (Channel * cdb) :=
  match channels d !! c with
  | Some ch =>
      if ch_Version ch =? max_int32 then None
      else Some (put_channel c (mkChannel (ch_Title ch) (ch_About ch) (ch_CreatorID ch) (ch_Megagroup ch) (ch_Version ch + 1)
             (ch_Date ch) pin (ch_Username ch) (ch_publicly_discoverable ch) (ch_DefaultBannedRights ch)
             (ch_SlowmodeSeconds ch)) d)
  | None => None
  end.

(** [channels_default_banned_rights_valid]. *)
Definition allowed_rights : list string :=
  ["send_messages"; "send_media"; "send_stickers"; "send_gifs"; "send_games"; "send_inline"; "embed_links"; "send_polls";
   "change_info"; "invite_users"; "pin_messages"; "manage_topics"; "send_photos"; "send_videos"; "send_roundvideos";
   "send_audios"; "send_voices"; "send_docs"; "send_plain"]%string.

Definition q_SetChannelDefaultBannedRights (c : Z) (rights : list string) (d : cdb) : option (Channel * cdb) :=
  match channels d !! c with
  | Some ch =>
      if (ch_Version ch =? max_int32) || negb (forallb (hasChatRight allowed_rights) rights) then None
      else Some (put_channel c (mkChannel (ch_Title ch) (ch_About ch) (ch_CreatorID ch) (ch_Megagroup ch) (ch_Version ch + 1)
             (ch_Date ch) (ch_PinnedMessageID ch) (ch_Username ch) (ch_publicly_discoverable ch) rights
             (ch_SlowmodeSeconds ch)) d)
  | None => None
  end.

(** [channels_slowmode_seconds_valid]. *)
Definition slowmode_steps : list Z := [0; 10; 30; 60; 300; 900; 3600].

Definition q_SetChannelSlowMode (c seconds : Z) (d : cdb) : option (Channel * cdb) :=
  match channels d !! c with
  | Some ch =>
      if negb (bool_decide (seconds ∈ slowmode_steps)) then None
      else Some (put_channel c (mkChannel (ch_Title ch) (ch_About ch) (ch_CreatorID ch) (ch_Megagroup ch) (ch_Version ch)
             (ch_Date ch) (ch_PinnedMessageID ch) (ch_Username ch) (ch_publicly_discoverable ch) (ch_DefaultBannedRights ch)
             seconds) d)
  | None => None
  end.

(** *** Handles *)

Definition owns (o : holder) (kv : string * holder) : bool := bool_decide (kv.2 = o).

Definition has_handle (o : holder) (d : cdb) : bool := existsb (owns o) (map_to_list (usernames d)).

Definition ReleaseUsernameByOwner (o : holder) (d : cdb) : cdb :=
  set_usernames (filter (fun kv => kv.2 <> o) (usernames d)) d.

(** [None] when the handle is taken ([usernames_pkey]). *)
Definition ClaimUsername (h : string) (o : holder) (d : cdb) : option cdb :=
  if bool_decide (is_Some (usernames d !! ToLower h)) then None
  else Some (set_usernames (<[ToLower h := o]> (usernames d)) d).

Definition SetChannelUsername (c : Z) (name : option string) (d : cdb) : cdb :=
  match channels d !! c with
  | Some ch =>
      let d' := set_channels (<[c := mkChannel (ch_Title ch) (ch_About ch) (ch_CreatorID ch) (ch_Megagroup ch)
                  (ch_Version ch) (ch_Date ch) (ch_PinnedMessageID ch) name (has_handle (OfChannel c) d)
                  (ch_DefaultBannedRights ch) (ch_SlowmodeSeconds ch)]> (channels d)) d in
      match name with Some _ => set_opened ({[c]} ∪ opened d') d' | None => d' end
  | None => d
  end.

Definition SetUsername (u : Z) (name : option string) (d : cdb) : cdb :=
  set_users (alter (fun r => mkUser name (u_login_mode r)) u (users d)) d.

Definition prune_before (o cutoff : Z) (l : gset (Z * Z)) : gset (Z * Z) :=
  filter (fun x => ~ (x.1 = o /\ x.2 < cutoff)) l.

Definition count_since (o cutoff : Z) (l : gset (Z * Z)) : Z :=
  Z.of_nat (size (filter (fun x => x.1 = o /\ cutoff <= x.2) l : gset (Z * Z))).

Definition record_change (o now : Z) (l : gset (Z * Z)) : option (gset (Z * Z)) :=
  if bool_decide ((o, now) ∈ l) then None else Some ({[(o, now)]} ∪ l).
