(* ===== verification/ChannelTx.v ===== *)
(** * Channels: the transactions

    [internal/store/channels.go], [channelmsgs.go] and [channel_read_history.go], and
    [UpdateUsername] of [users.go], as transactions of LockedTx.v: one [Read] per statement
    that reads, one [Lock] per lock, and the writes with the commit or rollback.  From its
    first write on, a transaction reads nothing that others can change, so the writes are
    one step with the commit.  A statement that takes a row lock is a [Lock]; when there is
    no such row it has nothing to lock and the transaction ends.

    The deletion of a handle locks its row to the end of the transaction, and the insertion
    of one waits, on the primary key of the table, for whoever is deleting or inserting it:
    both are [Lock]s of the handle.  The other writes wait only for rows that the locks
    already held guard, or for a row of a participant and what hangs on it, after which
    nothing else is waited for; those waits are not shown. *)

From S2P Require Import Prelude.
From S2P Require Import NetAddr.
From S2P Require Import GoStrings.
From S2P Require Import UpdateBatch.
From S2P Require Import Mailbox.
From S2P Require Import MsgStore.
From S2P Require Import LockedTx.
From S2P Require Import ChannelStore.
From Stdlib Require Import String.

Open Scope Z_scope.

(** Invite rows, channels rows, channel_state rows, the advisory locks, whose keys are
    account ids and channel ids alike, and the handles of the usernames table. *)
Inductive lock : Type :=
| InviteRow (h : string)
| ChannelRow (c : Z)
| StateRow (c : Z)
| Advisory (key : Z)
| NameRow (h : string).

#[global] Instance lock_eq : EqDecision lock.
Proof. solve_decision. Defined.

(** What a statement sees beside the tables: the server's clock, the database's clock, the
    start of its transaction, and the random source ([None] when it fails). *)
Record env : Type := mkEnv {
  e_now : Z;
  e_clock : Z;
  e_start : Z;
  e_draw : nat -> option Z;
  e_bytes : option (list Z)
}.

Inductive answer : Type :=
| ADone
| ACreated (id : Z) (ch : Channel) (l : Z) (m : ChannelMessage) (pts : Z)
| AJoined (c : Z) (ch : Channel) (m : ChannelMember)
| AAdded (ids : list Z)
| ASet (ch : Channel) (changed : bool)
| ALeft (left : bool)
| APinned (ch : Channel) (members : list Z)
| APosted (l : Z) (m : ChannelMessage) (pts : Z) (dup : bool)
| AHash (h : string).

Definition tx_answer : Type := result tx_error answer.
Definition ctxn : Type := txn lock cdb env tx_answer.

Definition reject_tx (e : tx_error) : ctxn := Final (fun _ d => (Err e, d)).
Definition commit_read (a : answer) : ctxn := Final (fun _ d => (Ok a, d)).

(** The writes: an error rolls them back. *)
Definition commit (f : env -> cdb -> result tx_error (answer * cdb)) : ctxn :=
  Final (fun e d => match f e d with Ok (a, d') => (Ok a, d') | Err x => (Err x, d) end).

(** Steps of the writes: a constraint violated is an error of the store. *)
Definition stmt {A B} (x : option A) (k : A -> result tx_error B) : result tx_error B :=
  match x with Some a => k a | None => Err ErrStore end.

Definition query {A} (q : cdb -> A) (k : A -> ctxn) : ctxn := Read (fun _ d => k (q d)).

Fixpoint lock_owners (ids : list Z) (k : ctxn) : ctxn :=
  match ids with
  | [] => k
  | id :: rest => Lock (Advisory id) (fun _ _ => lock_owners rest k)
  end.

Definition locking (ids : list Z) (k : ctxn) : ctxn := lock_owners (ascendingUnique ids) k.

(** ** Creating *)

Definition randomChannelID (e : env) (i : nat) : option Z := (fun n => minChannelID + n) <$> e_draw e i.

(** [attempts] draws at most, from the [i]-th on; only a taken id is drawn again. *)
Fixpoint insertChannel (attempts i : nat) (e : env) (row : Channel) (d : cdb) : result tx_error (Z * cdb) :=
  match attempts with
  | O => Err ErrStore
  | S n =>
      match randomChannelID e i with
      | None => Err ErrStore
      | Some id =>
          match InsertChannel id row d with
          | Some d' => Ok (id, d')
          | None => if known_channel id d then insertChannel n (S i) e row d else Err ErrStore
          end
      end
  end.

Definition post_row (from now : Z) (text : string) (randomID : Z) (file reply : option Z) (action : Z) : ChannelMessage :=
  mkPost from now text None false randomID file reply action.

(** The id, the first message and its event. *)
Definition create_writes (creatorID : Z) (title about : string) (megagroup : bool) (e : env) (d : cdb)
    : result tx_error (answer * cdb) :=
  let row := new_channel (e_start e) title about creatorID megagroup in
  match insertChannel channelIDAttempts 0 e row d with
  | Err x => Err x
  | Ok (id, d) =>
      stmt (InsertChannelState id d) (fun d =>
      stmt (InsertChannelParticipant id creatorID channelRoleCreator 0 (e_start e) d) (fun d =>
      stmt (BumpChannelState id d) (fun '(pts, l, d) =>
      stmt (InsertChannelMessage id l (post_row creatorID (e_start e) title 0 None None ChannelMessageActionCreate) d) (fun d =>
      stmt (InsertChannelEvent id pts EventNewMessage l d) (fun d =>
      stmt (ChannelMessageByLocal id l d) (fun m => Ok (ACreated id row l m pts, d)))))))
  end.

Definition CreateChannelWithServiceMessage (creatorID : Z) (title about : string) (megagroup : bool) : ctxn :=
  locking [creatorID] (query (CountChannelsForUser creatorID) (fun n =>
    if n >=? defaultMaxChannelsPerUser then reject_tx ErrTooManyChannels
    else commit (create_writes creatorID title about megagroup))).

(** ** Joining *)

(** From the seat count on: what both ways of joining share. *)
Definition admit_writes (c userID : Z) (ch : Channel) (state : chan_state) (e : env) (d : cdb)
    : result tx_error (answer * cdb) :=
  stmt (InsertChannelParticipantIfAbsent c userID channelRoleMember (st_pts state) (e_start e) d) (fun '(n, d) =>
    if n =? 0 then
      stmt (ChannelParticipantByUser c userID d) (fun row => Ok (AJoined c ch (channelMemberFromRow userID row), d))
    else
      let d := InsertChannelReadStateForNewMember c userID (st_next state - 1) d in
      Ok (AJoined c ch (mkMember userID channelRoleMember None (st_pts state) 0), d)).

Definition take_seat (c userID : Z) (ch : Channel) (state : chan_state) : ctxn :=
  query (CountChannelParticipants c) (fun taken =>
    if taken >=? defaultMaxChannelParticipants then reject_tx ErrChannelFull
    else locking [userID] (query (CountChannelsForUser userID) (fun n =>
      if n >=? defaultMaxChannelsPerUser then reject_tx ErrTooManyChannels
      else commit (admit_writes c userID ch state)))).

Definition JoinChannelByInvite (h : string) (userID : Z) : ctxn :=
  Lock (InviteRow h) (fun _ d =>
    match ChannelInviteByHash h d with
    | None => reject_tx ErrInviteInvalid
    | Some i =>
        let c := i_channel i in
        Lock (StateRow c) (fun _ d =>
          match channel_state d !! c with
          | None => reject_tx ErrInviteInvalid
          | Some state =>
              query (fun d => channels d !! c) (fun ch =>
                match ch with
                | None => reject_tx ErrStore
                | Some ch =>
                    query (ChannelParticipantByUser c userID) (fun row =>
                      match row with
                      | Some row => commit_read (AJoined c ch (channelMemberFromRow userID row))
                      | None => take_seat c userID ch state
                      end)
                end)
          end)
    end).

(** [username IS NOT NULL], as the code asks it of the row. *)
Definition is_public (ch : Channel) : bool :=
  match ch_Username ch with Some u => negb (String.eqb u "") | None => false end.

Definition JoinChannelByUsername (c userID : Z) : ctxn :=
  Lock (StateRow c) (fun _ d =>
    match channel_state d !! c with
    | None => reject_tx ErrNotMember
    | Some state =>
        query (fun d => channels d !! c) (fun ch =>
          match ch with
          | None => reject_tx ErrNotMember
          | Some ch =>
              if negb (is_public ch) then reject_tx ErrNotMember
              else
                Read (fun e d =>
                  match ChannelParticipantByUser c userID d with
                  | Some row =>
                      if Banned (channelMemberFromRow userID row) (e_now e) then reject_tx ErrNotMember
                      else commit_read (AJoined c ch (channelMemberFromRow userID row))
                  | None => take_seat c userID ch state
                  end)
          end)
    end).

(** ** Authority under the channels row lock *)

(** The early reject, outside the lock: it decides nothing. *)
Definition early_member (c callerID : Z) (k : ctxn) : ctxn :=
  query (IsChannelMember c callerID) (fun m => if negb m then reject_tx ErrNotMember else k).

Definition lock_channel (c : Z) (gone : ctxn) (k : Channel -> ctxn) : ctxn :=
  Lock (ChannelRow c) (fun _ d => match channels d !! c with None => gone | Some ch => k ch end).

(** The caller's row under the lock, with the role it must have, unbanned. *)
Definition caller_row (c callerID floor : Z) (k : participant -> ctxn) : ctxn :=
  Read (fun e d =>
    match ChannelParticipantByUser c callerID d with
    | None => reject_tx ErrNotMember
    | Some row =>
        if (p_role row <? floor) || Banned (channelMemberFromRow callerID row) (e_now e) then reject_tx ErrNotMember
        else k row
    end).

Definition beginChannelMutation (c callerID targetID : Z) (k : participant -> participant -> ctxn) : ctxn :=
  if callerID =? targetID then reject_tx ErrNotMember
  else
    early_member c callerID (lock_channel c (reject_tx ErrNotMember) (fun _ =>
      caller_row c callerID channelRoleMember (fun caller =>
        query (ChannelParticipantByUser c targetID) (fun target =>
          match target with None => reject_tx ErrNotMember | Some target => k caller target end)))).

(** One row updated, or the target is not a member. *)
Definition one_row (f : cdb -> Z * cdb) : ctxn :=
  commit (fun _ d => let '(n, d') := f d in if n =? 0 then Err ErrNotMember else Ok (ADone, d')).

Definition SetChannelRole (c callerID targetID role : Z) : ctxn :=
  if negb (role =? channelRoleMember) && negb (role =? channelRoleAdmin) then reject_tx ErrNotMember
  else
    beginChannelMutation c callerID targetID (fun caller target =>
      if negb (p_role caller =? channelRoleCreator) || (p_role target =? channelRoleCreator) || (p_role target =? role)
      then reject_tx ErrNotMember
      else one_row (UpdateChannelParticipantRole c targetID role)).

Definition ban_of (t : option Z) (forever : bool) : option until :=
  if forever then Some Infinity else Until <$> t.

Definition may_ban (caller target : Z) : bool :=
  if target =? channelRoleCreator then false
  else (caller =? channelRoleCreator) || ((caller =? channelRoleAdmin) && (target =? channelRoleMember)).

Definition SetChannelBan (c callerID targetID : Z) (t : option Z) (forever : bool) : ctxn :=
  beginChannelMutation c callerID targetID (fun caller target =>
    if negb (may_ban (p_role caller) (p_role target)) then reject_tx ErrNotMember
    else one_row (UpdateChannelParticipantBan c targetID (ban_of t forever))).

(** An administrator's change of the channels row, refused on a broadcast channel. *)
Definition admin_change (c callerID : Z) (same : Channel -> bool) (set : cdb -> option (Channel * cdb)) : ctxn :=
  early_member c callerID (lock_channel c (reject_tx ErrNotMember) (fun locked =>
    caller_row c callerID channelRoleAdmin (fun _ =>
      if negb (ch_Megagroup locked) then reject_tx ErrNotMember
      else if same locked then commit_read (ASet locked false)
      else commit (fun _ d => stmt (set d) (fun '(ch, d') => Ok (ASet ch true, d')))))).

Definition SetChannelDefaultBannedRights (c callerID : Z) (rights : list string) : ctxn :=
  admin_change c callerID (fun ch => sameDefaultBannedRights (ch_DefaultBannedRights ch) rights)
    (q_SetChannelDefaultBannedRights c rights).

Definition SetChannelSlowMode (c callerID seconds : Z) : ctxn :=
  admin_change c callerID (fun ch => ch_SlowmodeSeconds ch =? seconds) (q_SetChannelSlowMode c seconds).

Definition LeaveChannel (c userID : Z) : ctxn :=
  lock_channel c (commit_read (ALeft false)) (fun _ =>
    Read (fun e d =>
      match ChannelParticipantByUser c userID d with
      | None => commit_read (ALeft false)
      | Some row =>
          if Banned (channelMemberFromRow userID row) (e_now e) then commit_read (ALeft true)
          else commit (fun _ d => Ok (ALeft true, DeleteChannelParticipant c userID d))
      end)).

Definition pin_writes (c : Z) (pin : option Z) (e : env) (d : cdb) : result tx_error (answer * cdb) :=
  stmt (q_SetChannelPinnedMessage c pin d) (fun '(ch, d') =>
    Ok (APinned ch (map (fun kv => kv.1.2) (ChannelParticipants c d')), d')).

(** The post is checked under the lock. *)
Definition pin_post (c : Z) (pin : option Z) : ctxn :=
  match pin with
  | None => commit (pin_writes c None)
  | Some l =>
      query (ChannelMessageByLocal c l) (fun post =>
        match post with
        | None => reject_tx ErrMessageInvalid
        | Some p =>
            if cm_Deleted p || negb (cm_Action p =? 0) then reject_tx ErrMessageInvalid
            else commit (pin_writes c (Some l))
        end)
  end.

Definition SetChannelPinnedMessage (c callerID : Z) (pin : option Z) : ctxn :=
  early_member c callerID (lock_channel c (reject_tx ErrNotMember) (fun _ =>
    caller_row c callerID channelRoleAdmin (fun _ => pin_post c pin))).

(** ** Adding members *)

(** The inserts of the loop below, in its order; the targets whose row is new. *)
Fixpoint seat_all (c : Z) (state : chan_state) (start : Z) (ids : list Z) (d : cdb) : result tx_error (list Z * cdb) :=
  match ids with
  | [] => Ok ([], d)
  | u :: rest =>
      stmt (InsertChannelParticipantIfAbsent c u channelRoleMember (st_pts state) start d) (fun '(n, d) =>
        if n =? 0 then seat_all c state start rest d
        else
          match seat_all c state start rest (InsertChannelReadStateForNewMember c u (st_next state - 1) d) with
          | Ok (added, d) => Ok (u :: added, d)
          | Err e => Err e
          end)
  end.

(** The targets in order; [taken] counts the seats, [chosen] is in reverse.  A target is
    looked at once, so none of the reads concerns a row the loop has inserted. *)
Fixpoint add_loop (c : Z) (state : chan_state) (taken : Z) (seen : gset Z) (targets chosen : list Z) : ctxn :=
  match targets with
  | [] =>
      commit (fun e d =>
        match seat_all c state (e_start e) (rev chosen) d with
        | Ok (added, d') => Ok (AAdded added, d')
        | Err x => Err x
        end)
  | u :: rest =>
      if bool_decide (u ∈ seen) then add_loop c state taken seen rest chosen
      else
        let seen := {[u]} ∪ seen in
        query (ChannelParticipantByUser c u) (fun row =>
          match row with
          | Some _ => add_loop c state taken seen rest chosen
          | None =>
              if taken >=? defaultMaxChannelParticipants then add_loop c state taken seen rest chosen
              else
                query (CountChannelsForUser u) (fun n =>
                  if n >=? defaultMaxChannelsPerUser then add_loop c state taken seen rest chosen
                  else add_loop c state (taken + 1) seen rest (u :: chosen))
          end)
  end.

Definition AddChannelMembers (c callerID : Z) (targetIDs : list Z) : ctxn :=
  early_member c callerID (lock_channel c (reject_tx ErrNotMember) (fun _ =>
    caller_row c callerID channelRoleAdmin (fun _ =>
      Lock (StateRow c) (fun _ d =>
        match channel_state d !! c with
        | None => reject_tx ErrNotMember
        | Some state =>
            if existsb (fun id => id <=? 0) targetIDs then reject_tx ErrNotMember
            else locking targetIDs (query (CountChannelParticipants c) (fun taken =>
              add_loop c state taken ∅ targetIDs []))
        end)))).

(** ** Invites *)

Definition CreateChannelInvite (c creatorID : Z) : ctxn :=
  commit (fun e d =>
    match e_bytes e with
    | None => Err ErrStore
    | Some bs =>
        let h := RawURLEncode bs in
        stmt (InsertChannelInvite h c creatorID (e_start e) d) (fun d => Ok (AHash h, d))
    end).

Definition RevokeChannelInvite (h : string) (c : Z) : ctxn :=
  Lock (InviteRow h) (fun _ _ => commit (fun e d => Ok (ADone, q_RevokeChannelInvite h c (e_start e) d))).

(** ** Posting *)

Definition checkPostRights (c fromID : Z) (k : Z -> ctxn) : ctxn :=
  Read (fun e d =>
    match ChannelParticipantByUser c fromID d with
    | None => reject_tx ErrNotMember
    | Some row =>
        if Banned (channelMemberFromRow fromID row) (e_now e) then reject_tx ErrNotMember
        else
          query (fun d => ch_Megagroup <$> channels d !! c) (fun mega =>
            match mega with
            | None => reject_tx ErrNotMember
            | Some mega => if negb mega && (p_role row <? 1) then reject_tx ErrNotMember else k (p_role row)
            end)
    end).

(** Seconds left, rounded up; [None] when the interval has passed. *)
Definition slow_wait (seconds clock last : Z) : option Z :=
  let remaining := seconds * second - time_sub clock last in
  if remaining >? 0 then Some ((remaining + second - 1) / second) else None.

Record post_request : Type := mkPostReq {
  po_Channel : Z; po_From : Z; po_Text : string; po_RandomID : Z; po_File : option Z; po_ReplyTo : Z; po_Check : bool
}.

Definition post_writes (r : post_request) (reply : option Z) (e : env) (d : cdb) : result tx_error (answer * cdb) :=
  stmt (EnsureChannelState (po_Channel r) d) (fun d =>
  stmt (BumpChannelState (po_Channel r) d) (fun '(pts, l, d) =>
  stmt (InsertChannelMessage (po_Channel r) l
          (post_row (po_From r) (e_start e) (po_Text r) (po_RandomID r) (po_File r) reply ChannelMessageActionNone) d) (fun d =>
  stmt (InsertChannelEvent (po_Channel r) pts EventNewMessage l d) (fun d =>
    let '(n, d) := if po_Check r then UpdateChannelPostMarker (po_Channel r) (po_From r) (e_clock e) d else (1, d) in
    if negb (n =? 1) then Err ErrNotMember
    else stmt (ChannelMessageByLocal (po_Channel r) l d) (fun m => Ok (APosted l m pts false, d)))))).

Definition post_reply (r : post_request) : ctxn :=
  if po_ReplyTo r >? 0 then
    query (ChannelPostExistsActive (po_Channel r) (po_ReplyTo r)) (fun there =>
      if negb there then reject_tx ErrMessageInvalid else commit (post_writes r (Some (wrap_s32 (po_ReplyTo r)))))
  else commit (post_writes r None).

Definition post_slow (r : post_request) : ctxn :=
  Read (fun e d =>
    match ChannelSlowModePostState (po_Channel r) (po_From r) d with
    | None => reject_tx ErrNotMember
    | Some (seconds, Some last) =>
        match (if seconds >? 0 then slow_wait seconds (e_clock e) last else None) with
        | Some s => reject_tx (SlowModeWaitError s)
        | None => post_reply r
        end
    | Some (_, None) => post_reply r
    end).

Definition post_restricted (r : post_request) (role : Z) : ctxn :=
  if po_Check r then
    query (fun d => channels d !! po_Channel r) (fun ch =>
      match ch with
      | None => reject_tx ErrNotMember
      | Some ch =>
          if ch_Megagroup ch && write_forbidden (ch_DefaultBannedRights ch) (role >=? channelRoleAdmin)
                                  (match po_File r with Some _ => true | None => false end) None
          then reject_tx ErrChatWriteForbidden
          else if ch_Megagroup ch && (role =? channelRoleMember) then post_slow r else post_reply r
      end)
  else post_reply r.

Definition post_dedup (r : post_request) (role : Z) : ctxn :=
  if po_RandomID r =? 0 then post_restricted r role
  else
    query (ChannelMessageByRandomID (po_Channel r) (po_RandomID r)) (fun existing =>
      match existing with
      | Some (l, m) =>
          query (NewChannelPostPts (po_Channel r) l) (fun pts =>
            match pts with
            | None => reject_tx ErrPtsUnknown
            | Some pts => commit_read (APosted l m pts true)
            end)
      | None => post_restricted r role
      end).

(** The rights, when they are asked for. *)
Definition post_rights (r : post_request) (k : Z -> ctxn) : ctxn :=
  if po_Check r then checkPostRights (po_Channel r) (po_From r) k else k channelRoleMember.

Definition postChannelMessage (r : post_request) : ctxn :=
  if (po_Channel r =? 0) || (po_From r =? 0) then reject_tx ErrMessageInvalid
  else
    post_rights r (fun _ =>
      query (EnsureChannelState (po_Channel r)) (fun ensured =>
        match ensured with
        | None => reject_tx ErrStore
        | Some _ => Lock (StateRow (po_Channel r)) (fun _ _ => post_rights r (post_dedup r))
        end)).

Definition PostChannelMessage (c fromID : Z) (text : string) (randomID : Z) (file : option Z) (replyTo : Z) : ctxn :=
  postChannelMessage (mkPostReq c fromID text randomID file replyTo false).

Definition PostChannelMessageAs (c fromID : Z) (text : string) (randomID : Z) (file : option Z) (replyTo : Z) : ctxn :=
  postChannelMessage (mkPostReq c fromID text randomID file replyTo true).

(** ** Reading *)

Definition ReadChannelHistory (c userID maxID : Z) : ctxn :=
  if (c <=? 0) || (userID <=? 0) then reject_tx ErrNotMember
  else if maxID <? 0 then reject_tx ErrMessageInvalid
  else
    early_member c userID (lock_channel c (reject_tx ErrNotMember) (fun _ =>
      caller_row c userID channelRoleMember (fun _ =>
        Lock (StateRow c) (fun _ d =>
          match channel_state d !! c with
          | None => reject_tx ErrNotMember
          | Some state =>
              let maxID := Z.min maxID (st_next state - 1) in
              commit (fun _ d => Ok (ADone, if maxID >? 0 then AdvanceChannelReadState c userID maxID d else d))
          end)))).

(** ** Handles *)

(** The handles an owner has: the rows that releasing them deletes. *)
Definition handles_of (o : holder) (d : cdb) : list string :=
  map fst (List.filter (fun kv => bool_decide (kv.2 = o)) (map_to_list (usernames d))).

Fixpoint lock_handles (hs : list string) (k : ctxn) : ctxn :=
  match hs with
  | [] => k
  | h :: rest => Lock (NameRow h) (fun _ _ => lock_handles rest k)
  end.

(** From the pruning of the ledger to its count: what both owners of handles share. *)
Definition rename_writes (o : holder) (ledger : cdb -> gset (Z * Z)) (set_ledger : gset (Z * Z) -> cdb -> cdb) (id : Z)
    (set : option string -> cdb -> cdb) (cutoff limit : Z) (username : string) (e : env) (d : cdb)
    : result tx_error (answer * cdb) :=
  let d := set_ledger (prune_before id cutoff (ledger d)) d in
  let released := ReleaseUsernameByOwner o d in
  match (if String.eqb username "" then Ok (set None released)
         else
           let normalized := ToLower username in
           match ClaimUsername normalized o released with
           | None => Err ErrUsernameOccupied
           | Some d => Ok (set (Some normalized) d)
           end) with
  | Err x => Err x
  | Ok d =>
      stmt (record_change id (e_start e) (ledger d)) (fun l =>
        let d := set_ledger l d in
        if count_since id cutoff (ledger d) >? limit then Err ErrUsernameFloodWait else Ok (ADone, d))
  end.

(** The old handles are locked by their deletion, then the new one by its insertion. *)
Definition rename (o : holder) (ledger : cdb -> gset (Z * Z)) (set_ledger : gset (Z * Z) -> cdb -> cdb) (id : Z)
    (set : option string -> cdb -> cdb) (window limit : Z) (username : string) : ctxn :=
  Read (fun e _ =>
    let writes := commit (rename_writes o ledger set_ledger id set (e_now e - window) limit username) in
    query (handles_of o) (fun hs =>
      lock_handles hs
        (if String.eqb username "" then writes else Lock (NameRow (ToLower username)) (fun _ _ => writes)))).

Definition EditChannelUsername (c callerID : Z) (username : string) : ctxn :=
  Lock (Advisory c) (fun _ _ =>
    lock_channel c (reject_tx ErrNotMember) (fun _ =>
      caller_row c callerID channelRoleAdmin (fun _ =>
        rename (OfChannel c) channel_username_changes set_channel_changes c (SetChannelUsername c)
          ChannelUsernameChangeWindow ChannelUsernameChangeLimit username))).

Definition UpdateUsername (userID : Z) (username : string) : ctxn :=
  Lock (Advisory userID) (fun _ _ =>
    query (fun d => u_login_mode <$> users d !! userID) (fun mode =>
      match mode with
      | None => reject_tx ErrStore
      | Some mode =>
          if String.eqb mode "username" then reject_tx ErrUsernameIsLoginCredential
          else rename (OfUser userID) username_changes set_user_changes userID (SetUsername userID)
                 UsernameChangeWindow UsernameChangeLimit username
      end)).

(** ** Requests *)

Inductive request : Type :=
| ReqCreate (creator : Z) (title about : string) (megagroup : bool)
| ReqJoinInvite (h : string) (user : Z)
| ReqJoinUsername (c user : Z)
| ReqAdd (c caller : Z) (targets : list Z)
| ReqRole (c caller target role : Z)
| ReqBan (c caller target : Z) (t : option Z) (forever : bool)
| ReqRights (c caller : Z) (rights : list string)
| ReqSlowMode (c caller seconds : Z)
| ReqLeave (c user : Z)
| ReqPin (c caller : Z) (pin : option Z)
| ReqInvite (c creator : Z)
| ReqRevoke (h : string) (c : Z)
| ReqPost (c from : Z) (text : string) (randomID : Z) (file : option Z) (replyTo : Z)
| ReqRead (c user maxID : Z)
| ReqChannelName (c caller : Z) (username : string)
| ReqUserName (user : Z) (username : string).

Definition transaction (r : request) : ctxn :=
  match r with
  | ReqCreate u t a m => CreateChannelWithServiceMessage u t a m
  | ReqJoinInvite h u => JoinChannelByInvite h u
  | ReqJoinUsername c u => JoinChannelByUsername c u
  | ReqAdd c a us => AddChannelMembers c a us
  | ReqRole c a u r => SetChannelRole c a u r
  | ReqBan c a u t f => SetChannelBan c a u t f
  | ReqRights c a rs => SetChannelDefaultBannedRights c a rs
  | ReqSlowMode c a s => SetChannelSlowMode c a s
  | ReqLeave c u => LeaveChannel c u
  | ReqPin c a p => SetChannelPinnedMessage c a p
  | ReqInvite c u => CreateChannelInvite c u
  | ReqRevoke h c => RevokeChannelInvite h c
  | ReqPost c u t r f rep => PostChannelMessageAs c u t r f rep
  | ReqRead c u m => ReadChannelHistory c u m
  | ReqChannelName c a n => EditChannelUsername c a n
  | ReqUserName u n => UpdateUsername u n
  end.
