(* ===== verification/ChannelSafety.v ===== *)
(** * Channels: the invariant and what a transaction may change

    [chan_ok] is what holds of the tables at every moment; [guar H] is what a transaction
    that holds the locks [H] may do to them, as of the latest reading of the clock; [fact]s
    are what a transaction may rely on having read, each with the lock that keeps it. *)

From S2P Require Import Prelude.
From S2P Require Import NetAddr.
From S2P Require Import GoStrings.
From S2P Require Import UpdateBatch.
From S2P Require Import Mailbox.
From S2P Require Import MsgStore.
From S2P Require Import LockedTx.
From S2P Require Import ChannelStore.
From S2P Require Import ChannelTx.
From Stdlib Require Import String.

Open Scope Z_scope.

(** ** Counting rows *)

Section counting.
Context {K A : Type} `{Countable K} (P : K * A -> Prop) `{!forall kv, Decision (P kv)}.
Implicit Types (m : gmap K A).

Lemma size_filter_le m m' :
  (forall k x, m' !! k = Some x -> P (k, x) -> exists y, m !! k = Some y /\ P (k, y)) ->
  (size (filter P m') <= size (filter P m))%nat.
Proof.
  intros Hm. rewrite <- !size_dom. apply subseteq_size. intros k Hk.
  apply elem_of_dom in Hk as [x Hx]. apply map_lookup_filter_Some in Hx as [Hx Px].
  destruct (Hm k x Hx Px) as (y & Hy & Py). apply elem_of_dom. exists y. by apply map_lookup_filter_Some.
Qed.

Lemma size_filter_fresh m k x :
  m !! k = None -> size (filter P (<[k := x]> m)) = (size (filter P m) + (if decide (P (k, x)) then 1 else 0))%nat.
Proof.
  intros Hk. destruct (decide (P (k, x))) as [Hp|Hp].
  - rewrite map_filter_insert_True by done. rewrite map_size_insert_None; [lia|]. apply map_lookup_filter_None. by left.
  - rewrite map_filter_insert_not' by (try done; intros y Hy; by rewrite Hk in Hy). lia.
Qed.

End counting.

Lemma seats_fresh c c' u p m : m !! (c', u) = None ->
  seats c (<[(c', u) := p]> m) = seats c m + (if decide (c' = c) then 1 else 0).
Proof.
  intros Hk. unfold seats. rewrite size_filter_fresh by done. unfold in_channel; simpl.
  destruct (decide (c' = c)); lia.
Qed.

Lemma joined_fresh u c u' p m : m !! (c, u') = None ->
  joined u (<[(c, u') := p]> m) = joined u m + (if decide (u' = u) then 1 else 0).
Proof.
  intros Hk. unfold joined. rewrite size_filter_fresh by done. unfold of_user; simpl.
  destruct (decide (u' = u)); lia.
Qed.

Lemma seats_mono c m m' :
  (forall u p, m' !! (c, u) = Some p -> is_Some (m !! (c, u))) -> seats c m' <= seats c m.
Proof.
  intros Hm. unfold seats. apply inj_le, size_filter_le. intros [a u] x Hx E. unfold in_channel in E. simpl in E. subst a.
  destruct (Hm u x Hx) as [y Hy]. by exists y.
Qed.

Lemma joined_mono u m m' :
  (forall c p, m' !! (c, u) = Some p -> is_Some (m !! (c, u))) -> joined u m' <= joined u m.
Proof.
  intros Hm. unfold joined. apply inj_le, size_filter_le. intros [c a] x Hx E. unfold of_user in E. simpl in E. subst a.
  destruct (Hm c x Hx) as [y Hy]. by exists y.
Qed.

(** ** The invariant *)

(** A channel's log: one event per pts, one message per event. *)
Record log_ok (c : Z) (st : chan_state) (d : cdb) : Prop := mkLogOk {
  lo_pts : 0 <= st_pts st;
  lo_next : st_next st = st_pts st + 1;
  lo_events : forall k, channel_events d !! (c, k) = if (1 <=? k) && (k <=? st_pts st) then Some (EventNewMessage, k) else None;
  lo_posts : forall l, is_Some (channel_messages d !! (c, l)) <-> 1 <= l <= st_pts st
}.

Definition role_ok (ch : Channel) (u : Z) (role : Z) : Prop :=
  role = channelRoleMember \/ role = channelRoleAdmin \/ (role = channelRoleCreator /\ u = ch_CreatorID ch).

Record chan_ok (d : cdb) : Prop := mkChanOk {
  ok_state : forall c, is_Some (channels d !! c) <-> is_Some (channel_state d !! c);
  ok_rows : forall c u p, channel_participants d !! (c, u) = Some p ->
    exists ch st, channels d !! c = Some ch /\ channel_state d !! c = Some st /\ is_Some (users d !! u) /\
      0 <= p_join_pts p <= st_pts st /\ role_ok ch u (p_role p);
  ok_seats : forall c, seats c (channel_participants d) <= defaultMaxChannelParticipants;
  ok_joined : forall u, joined u (channel_participants d) <= defaultMaxChannelsPerUser;
  ok_log : forall c st, channel_state d !! c = Some st -> log_ok c st d;
  ok_posts : forall c l p, channel_messages d !! (c, l) = Some p -> is_Some (channel_state d !! c);
  ok_events : forall c k x, channel_events d !! (c, k) = Some x -> is_Some (channel_state d !! c);
  ok_tokens : forall c l l' p p', channel_messages d !! (c, l) = Some p -> channel_messages d !! (c, l') = Some p' ->
    cm_RandomID p = cm_RandomID p' -> cm_RandomID p <> 0 -> l = l';
  ok_reads : forall c u r, channel_read_state d !! (c, u) = Some r ->
    is_Some (channel_participants d !! (c, u)) /\ exists st, channel_state d !! c = Some st /\ 0 <= r <= st_pts st;
  ok_pins : forall c ch l, channels d !! c = Some ch -> ch_PinnedMessageID ch = Some l ->
    ChannelPostExistsActive c l d = true;
  ok_channel_names : forall h c, usernames d !! h = Some (OfChannel c) <->
    exists ch, channels d !! c = Some ch /\ ch_Username ch = Some h;
  ok_user_names : forall h u, usernames d !! h = Some (OfUser u) <->
    exists r, users d !! u = Some r /\ u_username r = Some h;
  ok_public : forall c ch, channels d !! c = Some ch ->
    ch_publicly_discoverable ch = bool_decide (is_Some (ch_Username ch));
  ok_opened : forall c ch, channels d !! c = Some ch -> is_Some (ch_Username ch) -> c ∈ opened d;
  ok_invites : forall h i, channel_invites d !! h = Some i -> is_Some (channels d !! i_channel i)
}.

(** ** The guarantee *)

Section safety.
Variable now : Z.

Definition env_ok (e : env) : Prop :=
  e_now e <= now /\ forall i n, e_draw e i = Some n -> 0 <= n < channelIDSpan.

Definition unbanned (u : Z) (p : participant) : Prop := Banned (channelMemberFromRow u p) now = false.

(** [a] is in the channel, not banned, and its role is [good]. *)
Definition entitled (d : cdb) (c a : Z) (good : Z -> Prop) : Prop :=
  exists pa, channel_participants d !! (c, a) = Some pa /\ unbanned a pa /\ good (p_role pa).

Definition administrator (role : Z) : Prop := channelRoleAdmin <= role.

(** What lets [u] into an existing channel when [q] is served: the invite the request of [u]
    names, an administrator's own request to add [u], or the handle the channel that [u]
    asks for has had. *)
Definition admitted (q : request) (d : cdb) (c u : Z) : Prop :=
  (exists h i, q = ReqJoinInvite h u /\ channel_invites d !! h = Some i /\ i_channel i = c /\ i_revoked i = None) \/
  (exists a us, q = ReqAdd c a us /\ u ∈ us /\ entitled d c a administrator) \/
  (q = ReqJoinUsername c u /\ c ∈ opened d).

(** [q] asks, in the name of [a], for a change of the row of channel [c]. *)
Definition asks_change (q : request) (c a : Z) : Prop :=
  match q with
  | ReqRights c' a' _ | ReqSlowMode c' a' _ | ReqPin c' a' _ | ReqChannelName c' a' _ => c' = c /\ a' = a
  | _ => False
  end.

Record row_change (q : request) (H : list lock) (d : cdb) (c u : Z) (p p' : participant) : Prop := mkRowChange {
  rc_join : p_join_pts p' = p_join_pts p;
  rc_date : p_date p' = p_date p;
  rc_role : p_role p' = p_role p \/
    (ChannelRow c ∈ H /\ p_role p <> channelRoleCreator /\
     (p_role p' = channelRoleMember \/ p_role p' = channelRoleAdmin) /\
     exists a, q = ReqRole c a u (p_role p') /\ a <> u /\ entitled d c a (fun r => r = channelRoleCreator));
  rc_ban : p_banned_until p' = p_banned_until p \/
    (ChannelRow c ∈ H /\
     exists a t forever, q = ReqBan c a u t forever /\ p_banned_until p' = ban_of t forever /\ a <> u /\
       entitled d c a (fun r => may_ban r (p_role p) = true))
}.

Record new_seat (q : request) (H : list lock) (d : cdb) (c u : Z) (p : participant) : Prop := mkNewSeat {
  ns_lock : Advisory u ∈ H;
  ns_unbanned : p_banned_until p = None;
  ns_how : (channels d !! c = None /\ p_role p = channelRoleCreator /\ p_join_pts p = 0 /\
      exists t a m, q = ReqCreate u t a m) \/
    (StateRow c ∈ H /\ p_role p = channelRoleMember /\ admitted q d c u /\
     exists st, channel_state d !! c = Some st /\ p_join_pts p = st_pts st)
}.

Record guar (q : request) (H : list lock) (d d' : cdb) : Prop := mkGuar {
  g_users : forall u, is_Some (users d !! u) <-> is_Some (users d' !! u);
  g_channel : forall c ch, channels d !! c = Some ch -> exists ch', channels d' !! c = Some ch' /\
    ch_CreatorID ch' = ch_CreatorID ch /\ ch_Megagroup ch' = ch_Megagroup ch /\
    (ch' = ch \/ (ChannelRow c ∈ H /\ exists a, asks_change q c a /\ entitled d c a administrator));
  g_fresh : forall c, channels d !! c = None -> is_Some (channels d' !! c) -> minChannelID <= c <= maxChannelID;
  g_state : forall c st, channel_state d !! c = Some st -> exists st', channel_state d' !! c = Some st' /\
    st_pts st <= st_pts st' /\ (st' = st \/ StateRow c ∈ H);
  g_posts : forall c l p, channel_messages d !! (c, l) = Some p -> channel_messages d' !! (c, l) = Some p;
  g_post : forall c l p, channel_messages d !! (c, l) = None -> channel_messages d' !! (c, l) = Some p ->
    (channels d !! c = None /\ cm_Action p = ChannelMessageActionCreate) \/
    (StateRow c ∈ H /\ is_Some (channel_participants d !! (c, cm_FromID p)) /\ cm_Action p = ChannelMessageActionNone /\
     exists t r f rep, q = ReqPost c (cm_FromID p) t r f rep);
  g_row : forall c u p, channel_participants d !! (c, u) = Some p ->
    match channel_participants d' !! (c, u) with
    | Some p' => row_change q H d c u p p'
    | None => ChannelRow c ∈ H /\ unbanned u p /\ q = ReqLeave c u
    end;
  g_seat : forall c u p, channel_participants d !! (c, u) = None -> channel_participants d' !! (c, u) = Some p ->
    new_seat q H d c u p;
  g_invite : forall h i, channel_invites d !! h = Some i -> exists i', channel_invites d' !! h = Some i' /\
    i_channel i' = i_channel i /\ (i_revoked i <> None -> i_revoked i' = i_revoked i) /\ (i' = i \/ InviteRow h ∈ H);
  g_read : forall c u r, channel_read_state d !! (c, u) = Some r ->
    channel_participants d' !! (c, u) = None \/ exists r', channel_read_state d' !! (c, u) = Some r' /\ r <= r';
  g_opened : opened d ⊆ opened d'
}.

Lemma row_change_refl q H d c u p : row_change q H d c u p p.
Proof. split; auto. Qed.

Lemma chan_guar_refl q H d : guar q H d d.
Proof.
  split; try done.
  - intros c ch Hc. exists ch. by split_and!; [..|left].
  - intros c Hc [x Hx]. congruence.
  - intros c st Hc. exists st. by split_and!; [..|left].
  - intros c l p Hn Hs. congruence.
  - intros c u p Hp. rewrite Hp. apply row_change_refl.
  - intros c u p Hn Hs. congruence.
  - intros h i Hi. exists i. by split_and!; [..|left].
  - intros c u r Hr. right. by exists r.
Qed.

(** A ban seen past at an earlier reading is past. *)
Lemma unbanned_le u p e : env_ok e -> Banned (channelMemberFromRow u p) (e_now e) = false -> unbanned u p.
Proof.
  intros [He _]. unfold unbanned, Banned. destruct (m_BannedUntil _) as [t|]; [|done].
  rewrite !Z.ltb_ge. lia.
Qed.

(** ** Facts *)

Inductive fact : Type :=
| FJoined (u : Z)
| FSeats (c n : Z)
| FState (c : Z) (st : chan_state)
| FAbsent (c u : Z)
| FInvite (h : string) (c : Z)
| FRow (c u role : Z)
| FRole (c u role : Z)
| FChannel (c : Z) (ch : Channel)
| FOpened (c : Z)
| FUser (u : Z)
| FPost (c l : Z).

(** The lock that keeps a fact. *)
Definition keeper (f : fact) : list lock :=
  match f with
  | FJoined u => [Advisory u]
  | FSeats c _ | FState c _ | FAbsent c _ => [StateRow c]
  | FInvite h _ => [InviteRow h]
  | FRow c _ _ | FRole c _ _ | FChannel c _ => [ChannelRow c]
  | FOpened _ | FUser _ | FPost _ _ => []
  end.

Definition holds_fact (f : fact) (d : cdb) : Prop :=
  match f with
  | FJoined u => joined u (channel_participants d) < defaultMaxChannelsPerUser
  | FSeats c n => is_Some (channels d !! c) /\ seats c (channel_participants d) <= n
  | FState c st => channel_state d !! c = Some st
  | FAbsent c u => is_Some (channels d !! c) /\ channel_participants d !! (c, u) = None
  | FInvite h c => exists i, channel_invites d !! h = Some i /\ i_channel i = c /\ i_revoked i = None
  | FRow c u role => exists p, channel_participants d !! (c, u) = Some p /\ p_role p = role /\ unbanned u p
  | FRole c u role => exists p, channel_participants d !! (c, u) = Some p /\ p_role p = role
  | FChannel c ch => channels d !! c = Some ch
  | FOpened c => c ∈ opened d
  | FUser u => is_Some (users d !! u)
  | FPost c l => ChannelPostExistsActive c l d = true
  end.

Lemma guar_exists q H d d' c : guar q H d d' -> is_Some (channels d !! c) -> is_Some (channels d' !! c).
Proof. intros G [ch Hc]. destruct (g_channel _ _ _ _ G c ch Hc) as (ch' & H' & _). by exists ch'. Qed.

Lemma guar_absent q H d d' c u : guar q H d d' -> StateRow c ∉ H -> is_Some (channels d !! c) ->
  channel_participants d !! (c, u) = None -> channel_participants d' !! (c, u) = None.
Proof.
  intros G Hl [ch Hc] Hn. destruct (channel_participants d' !! (c, u)) as [p|] eqn:Hp; [|done].
  destruct (ns_how _ _ _ _ _ _ (g_seat _ _ _ _ G c u p Hn Hp)) as [[Hx _]|[Hx _]]; [congruence|done].
Qed.

Lemma fact_kept f q H d d' :
  (forall l, l ∈ keeper f -> l ∉ H) -> guar q H d d' -> holds_fact f d -> holds_fact f d'.
Proof.
  intros Hl G. destruct f as [u|c n|c st|c u|h c|c u role|c u role|c ch|c|u|c l]; cbn [holds_fact keeper] in *.
  - intros Hj. eapply Z.le_lt_trans; [|exact Hj]. apply joined_mono. intros c p Hp.
    destruct (channel_participants d !! (c, u)) as [x|] eqn:Hq; [by exists x|].
    destruct (Hl (Advisory u)); [by left|]. by apply (ns_lock _ _ _ _ _ _ (g_seat _ _ _ _ G c u p Hq Hp)).
  - intros [He Hs]. split; [by eapply guar_exists|]. etrans; [|exact Hs]. apply seats_mono. intros u p Hp.
    destruct (channel_participants d !! (c, u)) as [x|] eqn:Hq; [by exists x|].
    rewrite (guar_absent q H d d' c u) in Hp; [done|done| |done|done]. apply Hl. by left.
  - intros Hs. destruct (g_state _ _ _ _ G c st Hs) as (st' & Hs' & _ & [->|Hx]); [done|].
    destruct (Hl (StateRow c)); [by left|done].
  - intros [He Hn]. split; [by eapply guar_exists|]. eapply guar_absent; [done| |done|done]. apply Hl. by left.
  - intros (i & Hi & Hc & Hr). destruct (g_invite _ _ _ _ G h i Hi) as (i' & Hi' & _ & _ & [->|Hx]); [by exists i|].
    destruct (Hl (InviteRow h)); [by left|done].
  - intros (p & Hp & Hr & Hu). pose proof (g_row _ _ _ _ G c u p Hp) as Hrow.
    assert (Hx : ChannelRow c ∉ H) by (apply Hl; by left).
    destruct (channel_participants d' !! (c, u)) as [p'|]; [|by destruct Hrow].
    exists p'. split; [done|]. destruct Hrow as [_ _ [Hr'|[? _]] [Hb|[? _]]]; try done. split; [by rewrite Hr'|].
    unfold unbanned, Banned, channelMemberFromRow in *. simpl in *. by rewrite Hb.
  - intros (p & Hp & Hr). pose proof (g_row _ _ _ _ G c u p Hp) as Hrow.
    assert (Hx : ChannelRow c ∉ H) by (apply Hl; by left).
    destruct (channel_participants d' !! (c, u)) as [p'|]; [|by destruct Hrow].
    exists p'. split; [done|]. destruct Hrow as [_ _ [Hr'|[? _]] _]; [by rewrite Hr'|done].
  - intros Hc. destruct (g_channel _ _ _ _ G c ch Hc) as (ch' & Hc' & _ & _ & [->|[Hx _]]); [done|].
    destruct (Hl (ChannelRow c)); [by left|done].
  - intros Ho. by apply (g_opened _ _ _ _ G).
  - by rewrite (g_users _ _ _ _ G u).
  - unfold ChannelPostExistsActive. destruct (channel_messages d !! (c, l)) as [p|] eqn:Hp; [|done].
    by rewrite (g_posts _ _ _ _ G c l p Hp).
Qed.

(** ** Safe transactions *)

Definition knows (L : list fact) (d : cdb) : Prop := forall f, f ∈ L -> holds_fact f d.

Definition guarded (held : list lock) (L : list fact) : Prop := forall f, f ∈ L -> forall l, l ∈ keeper f -> l ∈ held.

Definition safeL (q : request) (held : list lock) (L : list fact) (p : ctxn) : Prop :=
  safe_tx chan_ok guar env_ok q held (knows L) p.

Lemma knows_kept held L : guarded held L -> kept chan_ok guar held (knows L).
Proof.
  intros Hg q H d d' Hl _ _ HK G f Hf. eapply fact_kept; [|done|by apply HK].
  intros l Hin. apply Hl. by eapply Hg.
Qed.

Lemma knows_cons f L d : holds_fact f d -> knows L d -> knows (f :: L) d.
Proof. intros Hf HL g [->|Hg]%elem_of_cons; [done|by apply HL]. Qed.

Lemma facts_nil d : knows [] d.
Proof. intros f Hf. by apply elem_of_nil in Hf. Qed.

Lemma guarded_cons held f L : (forall l, l ∈ keeper f -> l ∈ held) -> guarded held L -> guarded held (f :: L).
Proof. intros Hf HL g [->|Hg]%elem_of_cons; [done|by apply HL]. Qed.

Lemma guarded_nil held : guarded held [].
Proof. intros f Hf. by apply elem_of_nil in Hf. Qed.

Lemma guarded_lock l held L : guarded held L -> guarded (l :: held) L.
Proof. intros HL f Hf l' Hl'. right. by eapply HL. Qed.

Lemma sl_read q held L k : guarded held L ->
  (forall e d, env_ok e -> chan_ok d -> knows L d -> exists L', knows L' d /\ safeL q held L' (k e d)) ->
  safeL q held L (Read k).
Proof.
  intros Hg Hk. split; [by apply knows_kept|]. intros e d He Hd HK. destruct (Hk e d He Hd HK) as (L' & HL' & Hs).
  by exists (knows L').
Qed.

Lemma sl_lock q held L l k : guarded held L ->
  (forall e d, env_ok e -> chan_ok d -> knows L d -> exists L', knows L' d /\ safeL q (l :: held) L' (k e d)) ->
  safeL q held L (Lock l k).
Proof.
  intros Hg Hk. split; [by apply knows_kept|]. intros e d He Hd HK. destruct (Hk e d He Hd HK) as (L' & HL' & Hs).
  by exists (knows L').
Qed.

Lemma sl_query {A} q held L (get : cdb -> A) k : guarded held L ->
  (forall d, chan_ok d -> knows L d -> exists L', knows L' d /\ safeL q held L' (k (get d))) ->
  safeL q held L (query get k).
Proof. intros Hg Hk. apply sl_read; [done|]. intros e d _ Hd HK. by apply Hk. Qed.

Lemma sl_reject q held L e : guarded held L -> safeL q held L (reject_tx e).
Proof. intros Hg. split; [by apply knows_kept|]. intros e' d He Hd HK. split; [done|apply chan_guar_refl]. Qed.

Lemma sl_commit_read q held L a : guarded held L -> safeL q held L (commit_read a).
Proof. intros Hg. split; [by apply knows_kept|]. intros e' d He Hd HK. split; [done|apply chan_guar_refl]. Qed.

Lemma sl_commit q held L f : guarded held L ->
  (forall e d a d', env_ok e -> chan_ok d -> knows L d -> f e d = Ok (a, d') -> chan_ok d' /\ guar q held d d') ->
  safeL q held L (commit f).
Proof.
  intros Hg Hf. split; [by apply knows_kept|]. intros e d He Hd HK. cbn [snd].
  destruct (f e d) as [[a d']|x] eqn:E; simpl; [by eapply Hf|]. split; [done|apply chan_guar_refl].
Qed.

End safety.
