(* ===== verification/ChannelWrites.v ===== *)
(** * Channels: the writes keep the invariant

    For each group of writes that commits together: it keeps [chan_ok] and gives [guar],
    from the facts its transaction holds. *)

From S2P Require Import Prelude.
From S2P Require Import NetAddr.
From S2P Require Import UpdateBatch.
From S2P Require Import GoStrings.
From S2P Require Import Mailbox.
From S2P Require Import MsgStore.
From S2P Require Import LockedTx.
From S2P Require Import ChannelStore.
From S2P Require Import ChannelTx.
From S2P Require Import ChannelSafety.
From Stdlib Require Import String.

Open Scope Z_scope.

Section writes.
Variables (now : Z) (req : request).
Implicit Types (d : cdb) (H : list lock).

(** ** Participant rows and read states *)

Lemma rows_ok d P R :
  chan_ok d ->
  (forall c u p, P !! (c, u) = Some p ->
    exists ch st, channels d !! c = Some ch /\ channel_state d !! c = Some st /\ is_Some (users d !! u) /\
      0 <= p_join_pts p <= st_pts st /\ role_ok ch u (p_role p)) ->
  (forall c, seats c P <= defaultMaxChannelParticipants) -> (forall u, joined u P <= defaultMaxChannelsPerUser) ->
  (forall c u r, R !! (c, u) = Some r ->
    is_Some (P !! (c, u)) /\ exists st, channel_state d !! c = Some st /\ 0 <= r <= st_pts st) ->
  chan_ok (set_reads R (set_participants P d)).
Proof.
  intros K H1 H2 H3 H4. destruct K as [k1 k2 k3 k4 k5 k6 k7 k8 k9 k10 k11 k12 k13 k14 k15].
  split; try assumption. intros c st Hs. destruct (k5 c st Hs). by split.
Qed.

Lemma rows_guar H d P R :
  (forall c u p, channel_participants d !! (c, u) = Some p ->
    match P !! (c, u) with Some p' => row_change now req H d c u p p' | None => ChannelRow c ∈ H /\ unbanned now u p /\ req = ReqLeave c u end) ->
  (forall c u p, channel_participants d !! (c, u) = None -> P !! (c, u) = Some p -> new_seat now req H d c u p) ->
  (forall c u r, channel_read_state d !! (c, u) = Some r ->
    P !! (c, u) = None \/ exists r', R !! (c, u) = Some r' /\ r <= r') ->
  guar now req H d (set_reads R (set_participants P d)).
Proof.
  intros H1 H2 H3. destruct (chan_guar_refl now req H d). by split.
Qed.

(** An update of rows in place, and a deletion. *)
Lemma alter_ok d c u f :
  (forall p, p_role (f p) = p_role p \/ p_role (f p) = channelRoleMember \/ p_role (f p) = channelRoleAdmin) ->
  (forall p, p_join_pts (f p) = p_join_pts p) ->
  chan_ok d -> chan_ok (alter_participant c u f d).2.
Proof.
  intros Hr Hj K. change (alter_participant c u f d).2 with
    (set_reads (channel_read_state d) (set_participants (alter f (c, u) (channel_participants d)) d)).
  assert (Hs : forall k p, alter f (c, u) (channel_participants d) !! k = Some p -> is_Some (channel_participants d !! k)).
  { intros k p. rewrite lookup_alter_Some. intros [(_ & q & Hq & _)|[_ Hq]]; eauto. }
  apply rows_ok; [done| | | |].
  - intros c' u' p. rewrite lookup_alter_Some. intros [(E & q & Hq & ->)|[_ Hq]]; [|by apply (ok_rows _ K)].
    destruct (ok_rows _ K c' u' q Hq) as (ch & st & ? & ? & ? & ? & Hrole). exists ch, st. rewrite Hj. split_and!; try done; try lia.
    destruct (Hr q) as [->|[->| ->]]; [done|by left|by right; left].
  - intros c'. etrans; [|apply (ok_seats _ K c')]. apply seats_mono. intros u' p. apply Hs.
  - intros u'. etrans; [|apply (ok_joined _ K u')]. apply joined_mono. intros c' p. apply Hs.
  - intros c' u' r Hr'. destruct (ok_reads _ K c' u' r Hr') as [[q Hq] Hst]. split; [|done].
    apply lookup_alter_is_Some. by exists q.
Qed.

Lemma alter_guar H d c u f :
  (forall p, channel_participants d !! (c, u) = Some p -> row_change now req H d c u p (f p)) ->
  guar now req H d (alter_participant c u f d).2.
Proof.
  intros Hf. change (alter_participant c u f d).2 with
    (set_reads (channel_read_state d) (set_participants (alter f (c, u) (channel_participants d)) d)).
  apply rows_guar.
  - intros c' u' p Hp. destruct (decide ((c, u) = (c', u'))) as [E|Hne].
    + simplify_eq. rewrite lookup_alter_eq, Hp. simpl. by apply Hf.
    + rewrite lookup_alter_ne, Hp by done. apply row_change_refl.
  - intros c' u' p Hn Hs. apply lookup_alter_Some in Hs as [(_ & q & Hq & _)|[_ Hq]]; congruence.
  - intros c' u' r Hr. right. by exists r.
Qed.

Lemma delete_ok d c u : chan_ok d -> chan_ok (DeleteChannelParticipant c u d).
Proof.
  intros K. apply rows_ok; [done| | | |].
  - intros c' u' p [_ Hp]%lookup_delete_Some. by apply (ok_rows _ K).
  - intros c'. etrans; [|apply (ok_seats _ K c')]. apply seats_mono. intros u' p [_ Hp]%lookup_delete_Some. by exists p.
  - intros u'. etrans; [|apply (ok_joined _ K u')]. apply joined_mono. intros c' p [_ Hp]%lookup_delete_Some. by exists p.
  - intros c' u' r [Hne Hr]%lookup_delete_Some. rewrite lookup_delete_ne by done. by apply (ok_reads _ K).
Qed.

Lemma delete_guar H d c u :
  req = ReqLeave c u -> ChannelRow c ∈ H -> (forall p, channel_participants d !! (c, u) = Some p -> unbanned now u p) ->
  guar now req H d (DeleteChannelParticipant c u d).
Proof.
  intros Hq Hl Hu. apply rows_guar.
  - intros c' u' p Hp. destruct (decide ((c, u) = (c', u'))) as [E|Hne].
    + simplify_eq. rewrite lookup_delete_eq. split_and!; [done|by apply Hu|done].
    + rewrite lookup_delete_ne, Hp by done. apply row_change_refl.
  - intros c' u' p Hn [_ Hp]%lookup_delete_Some. congruence.
  - intros c' u' r Hr. destruct (decide ((c, u) = (c', u'))) as [E|Hne].
    + simplify_eq. left. apply lookup_delete_eq.
    + right. exists r. by rewrite lookup_delete_ne.
Qed.

(** ** New seats *)

(** [d'] is [d] with rows for some of [ids] in [c]. *)
Record grown (c : Z) (st : chan_state) (ids : list Z) d d' : Prop := mkGrown {
  gr_eq : d' = set_reads (channel_read_state d') (set_participants (channel_participants d') d);
  gr_rows : forall k p, channel_participants d !! k = Some p -> channel_participants d' !! k = Some p;
  gr_new : forall c' u p, channel_participants d !! (c', u) = None -> channel_participants d' !! (c', u) = Some p ->
    c' = c /\ u ∈ ids /\ p_role p = channelRoleMember /\ p_banned_until p = None /\ p_join_pts p = st_pts st;
  gr_reads : forall k r, channel_read_state d !! k = Some r -> channel_read_state d' !! k = Some r
}.

Lemma chan_grown_refl c st ids d : grown c st ids d d.
Proof. split; try done; [by destruct d|]. intros. congruence. Qed.

Lemma chan_grown_trans c st ids d d1 d2 : grown c st ids d d1 -> grown c st ids d1 d2 -> grown c st ids d d2.
Proof.
  intros [E1 R1 N1 S1] [E2 R2 N2 S2]. split.
  - rewrite E2 at 1. rewrite E1. by destruct d.
  - auto.
  - intros c' u p Hn Hp. destruct (channel_participants d1 !! (c', u)) as [q|] eqn:Hq.
    + apply R2 in Hq as Hq'. simplify_eq. by apply N1.
    + by apply N2.
  - auto.
Qed.

Lemma grown_weaken c st ids ids' d d' : (forall u, u ∈ ids -> u ∈ ids') -> grown c st ids d d' -> grown c st ids' d d'.
Proof. intros Hi [E R N S]. split; [done|done| |done]. intros c' u p Hn Hp. destruct (N c' u p Hn Hp) as (? & ? & ?). auto. Qed.

Lemma grown_guar H c st ids d d' :
  grown c st ids d d' -> StateRow c ∈ H -> (forall u, u ∈ ids -> Advisory u ∈ H) -> channel_state d !! c = Some st ->
  (forall u, u ∈ ids -> admitted now req d c u) -> guar now req H d d'.
Proof.
  intros [E R N S] Hs Ha Hst Had. rewrite E. apply rows_guar.
  - intros c' u p Hp. rewrite (R _ _ Hp). apply row_change_refl.
  - intros c' u p Hn Hp. destruct (N c' u p Hn Hp) as (-> & Hu & Hr & Hb & Hj).
    split; [by apply Ha|done|]. right. split_and!; [done|done|by apply Had|]. by exists st.
  - intros c' u r Hr. right. exists r. split; [by apply S|done].
Qed.

(** One seat: the row and the read state. *)
Definition seated (c u : Z) (st : chan_state) (start : Z) d : cdb :=
  InsertChannelReadStateForNewMember c u (st_next st - 1)
    (set_participants (<[(c, u) := new_participant channelRoleMember (st_pts st) start]> (channel_participants d)) d).

Lemma seated_parts c u st start d : channel_participants (seated c u st start d) =
  <[(c, u) := new_participant channelRoleMember (st_pts st) start]> (channel_participants d).
Proof. unfold seated, InsertChannelReadStateForNewMember. simpl. by destruct (channel_read_state d !! (c, u)). Qed.

Lemma seated_eq c u st start d :
  chan_ok d -> channel_participants d !! (c, u) = None ->
  seated c u st start d =
    set_reads (<[(c, u) := Z.max (st_next st - 1) 0]> (channel_read_state d))
      (set_participants (<[(c, u) := new_participant channelRoleMember (st_pts st) start]> (channel_participants d)) d).
Proof.
  intros K Hn. unfold seated, InsertChannelReadStateForNewMember. simpl.
  destruct (channel_read_state d !! (c, u)) as [r|] eqn:Hr; [|done].
  destruct (ok_reads _ K c u r Hr) as [[p Hp] _]. congruence.
Qed.

Lemma seated_ok c u st start d :
  chan_ok d -> channel_participants d !! (c, u) = None -> channel_state d !! c = Some st -> is_Some (users d !! u) ->
  seats c (channel_participants d) < defaultMaxChannelParticipants ->
  joined u (channel_participants d) < defaultMaxChannelsPerUser -> chan_ok (seated c u st start d).
Proof.
  intros K Hn Hst Hu Hc Hj. destruct (proj2 (ok_state _ K c)) as [ch Hch]; [by exists st|].
  destruct (ok_log _ K c st Hst) as [L1 L2 _ _]. rewrite seated_eq by done. apply rows_ok; [done| | | |].
  - intros c' u' p. destruct (decide ((c, u) = (c', u'))) as [E|Hne].
    + simplify_eq. rewrite lookup_insert_eq. intros [= <-]. exists ch, st. simpl. split_and!; try done; try lia. by left.
    + rewrite lookup_insert_ne by done. by apply (ok_rows _ K).
  - intros c'. rewrite seats_fresh by done. pose proof (ok_seats _ K c'). destruct (decide (c = c')) as [<-|]; lia.
  - intros u'. rewrite joined_fresh by done. pose proof (ok_joined _ K u'). destruct (decide (u = u')) as [<-|]; lia.
  - intros c' u' r. destruct (decide ((c, u) = (c', u'))) as [E|Hne].
    + simplify_eq. rewrite !lookup_insert_eq. intros [= <-]. split; [by eexists|]. exists st. split; [done|]. lia.
    + rewrite !lookup_insert_ne by done. by apply (ok_reads _ K).
Qed.

Lemma seated_grown c u st start d :
  chan_ok d -> channel_participants d !! (c, u) = None -> grown c st [u] d (seated c u st start d).
Proof.
  intros K Hn. rewrite seated_eq by done. split; simpl.
  - by destruct d.
  - intros k p Hp. rewrite lookup_insert_ne; [done|]. intros <-. congruence.
  - intros c' u' p Hn' Hp. apply lookup_insert_Some in Hp as [[E <-]|[_ Hp]]; [|congruence]. simplify_eq.
    split_and!; try done. by left.
  - intros k r Hr. rewrite lookup_insert_ne; [done|]. intros <-.
    destruct (ok_reads _ K c u r Hr) as [[p Hp] _]. congruence.
Qed.

Lemma insert_absent c u role pts start d n d' :
  channel_participants d !! (c, u) = None ->
  InsertChannelParticipantIfAbsent c u role pts start d = Some (n, d') ->
  n = 1 /\ is_Some (users d !! u) /\
  d' = set_participants (<[(c, u) := new_participant role pts start]> (channel_participants d)) d.
Proof.
  intros Hn. unfold InsertChannelParticipantIfAbsent, InsertChannelParticipant, IsChannelMember.
  rewrite Hn. rewrite bool_decide_false by (by intros [? ?]). cbn [orb].
  destruct (known_channel c d); [|done]. cbn [negb orb].
  destruct (known_user u d) eqn:E; [|done]. unfold known_user in E. apply bool_decide_eq_true in E.
  cbn [negb]. intros Hx. simpl in Hx. by simplify_eq.
Qed.

Lemma seat_all_ok c st start ids : forall d added d',
  chan_ok d -> NoDup ids -> (forall u, u ∈ ids -> channel_participants d !! (c, u) = None) ->
  (forall u, u ∈ ids -> joined u (channel_participants d) < defaultMaxChannelsPerUser) ->
  channel_state d !! c = Some st ->
  seats c (channel_participants d) + len ids <= defaultMaxChannelParticipants ->
  seat_all c st start ids d = Ok (added, d') -> chan_ok d' /\ grown c st ids d d'.
Proof.
  induction ids as [|u ids IH]; intros d added d' K Hnd Hn Hj Hst Hs; cbn [seat_all].
  - intros [= <- <-]. split; [done|apply chan_grown_refl].
  - unfold stmt. destruct (InsertChannelParticipantIfAbsent _ _ _ _ _ _) as [[n d1]|] eqn:E; [|done].
    apply NoDup_cons in Hnd as [Hu Hnd]. rewrite len_cons in Hs. unfold len in Hs.
    assert (Hnu : channel_participants d !! (c, u) = None) by (apply Hn; by left).
    apply insert_absent in E as (-> & Hus & ->); [|done]. cbn [Z.eqb].
    fold (seated c u st start d). destruct (seat_all c st start ids (seated c u st start d)) as [[added1 d2]|x] eqn:E2; [|done].
    intros [= <- <-].
    assert (K1 : chan_ok (seated c u st start d)) by
      (apply seated_ok; [done|done|done|done|lia|apply Hj; by left]).
    destruct (IH (seated c u st start d) added1 d2) as [K2 G2]; [done|done| | | | |done|].
    + intros v Hv. rewrite seated_parts. rewrite lookup_insert_ne by congruence. apply Hn. by right.
    + intros v Hv. rewrite seated_parts, joined_fresh by done. rewrite decide_False by congruence.
      rewrite Z.add_0_r. apply Hj. by right.
    + unfold seated, InsertChannelReadStateForNewMember. simpl. by destruct (channel_read_state d !! (c, u)).
    + rewrite seated_parts, seats_fresh by done. rewrite decide_True by done. unfold len. lia.
    + split; [done|]. eapply chan_grown_trans.
      * eapply grown_weaken; [|by apply seated_grown]. intros v Hv%list_elem_of_singleton. subst v. by left.
      * eapply grown_weaken; [|exact G2]. intros v Hv. by right.
Qed.

(** ** The channels row *)

Lemma channel_put_ok d c ch ch' :
  chan_ok d -> channels d !! c = Some ch -> ch_CreatorID ch' = ch_CreatorID ch -> ch_Username ch' = ch_Username ch ->
  ch_publicly_discoverable ch' = ch_publicly_discoverable ch ->
  (forall l, ch_PinnedMessageID ch' = Some l -> ChannelPostExistsActive c l d = true) ->
  chan_ok (set_channels (<[c := ch']> (channels d)) d).
Proof.
  intros K Hc H1 H2 H3 H4. destruct K as [k1 k2 k3 k4 k5 k6 k7 k8 k9 k10 k11 k12 k13 k14 k15].
  split; try assumption; cbn [channels channel_state set_channels channel_participants users usernames opened channel_invites].
  - intros x. destruct (decide (c = x)) as [<-|]; [|by rewrite lookup_insert_ne].
    rewrite lookup_insert_eq, <- k1, Hc. split; intros _; by eexists.
  - intros x u p Hp. destruct (k2 x u p Hp) as (ch0 & st & ? & ? & ? & ? & Hr).
    destruct (decide (c = x)) as [<-|]; [|exists ch0, st; by rewrite lookup_insert_ne].
    exists ch', st. rewrite lookup_insert_eq. simplify_eq. split_and!; try done; try lia.
    unfold role_ok in *. by rewrite H1.
  - intros x st Hs. destruct (k5 x st Hs). by split.
  - intros x ch0 l. destruct (decide (c = x)) as [<-|]; [|rewrite lookup_insert_ne by done; by apply k10].
    rewrite lookup_insert_eq. intros [= <-]. by apply H4.
  - intros h x. rewrite k11. destruct (decide (c = x)) as [<-|]; [|by rewrite lookup_insert_ne].
    rewrite lookup_insert_eq, Hc. split; intros (y & [= <-] & Hy); eexists; (split; [done|congruence]).
  - intros x ch0. destruct (decide (c = x)) as [<-|]; [|rewrite lookup_insert_ne by done; by apply k13].
    rewrite lookup_insert_eq. intros [= <-]. rewrite H2, H3. by apply (k13 c).
  - intros x ch0. destruct (decide (c = x)) as [<-|]; [|rewrite lookup_insert_ne by done; by apply k14].
    rewrite lookup_insert_eq. intros [= <-]. rewrite H2. by apply k14.
  - intros h i Hi. destruct (decide (c = i_channel i)) as [<-|]; [rewrite lookup_insert_eq; by eexists|].
    rewrite lookup_insert_ne by done. by eapply k15.
Qed.

(** Whatever else a transaction writes, a change of the channels row needs its lock. *)
Lemma put_channel_clause H d c ch ch' : channels d !! c = Some ch ->
  ch_CreatorID ch' = ch_CreatorID ch -> ch_Megagroup ch' = ch_Megagroup ch ->
  ChannelRow c ∈ H -> (exists a, asks_change req c a /\ entitled now d c a administrator) ->
  forall x y, channels d !! x = Some y -> exists y', <[c := ch']> (channels d) !! x = Some y' /\
    ch_CreatorID y' = ch_CreatorID y /\ ch_Megagroup y' = ch_Megagroup y /\
    (y' = y \/ (ChannelRow x ∈ H /\ exists a, asks_change req x a /\ entitled now d x a administrator)).
Proof.
  intros Hc H1 H2 Hl Ha x y Hy. destruct (decide (c = x)) as [<-|Hne].
  - exists ch'. rewrite lookup_insert_eq. simplify_eq. split_and!; try done. by right.
  - exists y. rewrite lookup_insert_ne by done. split_and!; try done. by left.
Qed.

Lemma put_guar H d c ch ch' :
  channels d !! c = Some ch -> ch_CreatorID ch' = ch_CreatorID ch -> ch_Megagroup ch' = ch_Megagroup ch ->
  ChannelRow c ∈ H -> (exists a, asks_change req c a /\ entitled now d c a administrator) -> guar now req H d (set_channels (<[c := ch']> (channels d)) d).
Proof.
  intros Hc H1 H2 Hl Ha. destruct (chan_guar_refl now req H d). split; try assumption.
  - by eapply put_channel_clause.
  - intros x Hn. cbn. destruct (decide (c = x)) as [<-|]; [congruence|]. rewrite lookup_insert_ne by done.
    rewrite Hn. by intros [? ?].
Qed.

(** ** Read marks *)

Lemma advance_spec d c u m :
  exists R, AdvanceChannelReadState c u m d = set_reads R (set_participants (channel_participants d) d) /\
    (forall k, k <> (c, u) -> R !! k = channel_read_state d !! k) /\
    (forall r, R !! (c, u) = Some r -> channel_read_state d !! (c, u) = Some r \/ r = Z.max m 0) /\
    (forall r, channel_read_state d !! (c, u) = Some r -> exists r', R !! (c, u) = Some r' /\ r <= r').
Proof.
  unfold AdvanceChannelReadState. destruct (channel_read_state d !! (c, u)) as [r|] eqn:E; [destruct (Z.ltb_spec r (Z.max m 0))|].
  - exists (<[(c, u) := Z.max m 0]> (channel_read_state d)). split_and!; [by destruct d| | |].
    + intros k Hk. by rewrite lookup_insert_ne.
    + intros x. rewrite lookup_insert_eq. intros [= <-]. by right.
    + intros x [= <-]. exists (Z.max m 0). rewrite lookup_insert_eq. split; [done|lia].
  - exists (channel_read_state d). split_and!; [by destruct d|done| |].
    + intros x Hx. left. congruence.
    + intros x [= <-]. exists r. split; [done|lia].
  - exists (<[(c, u) := Z.max m 0]> (channel_read_state d)). split_and!; [by destruct d| | |done].
    + intros k Hk. by rewrite lookup_insert_ne.
    + intros x. rewrite lookup_insert_eq. intros [= <-]. by right.
Qed.

Lemma advance_ok d c u m st :
  chan_ok d -> is_Some (channel_participants d !! (c, u)) -> channel_state d !! c = Some st -> m <= st_next st - 1 ->
  chan_ok (AdvanceChannelReadState c u m d).
Proof.
  intros K Hp Hst Hm. destruct (advance_spec d c u m) as (R & -> & Hk & Hs & _).
  destruct (ok_log _ K c st Hst) as [L1 L2 _ _].
  apply rows_ok; [done|apply (ok_rows _ K)|apply (ok_seats _ K)|apply (ok_joined _ K)|].
  intros c' u' r Hr. destruct (decide ((c', u') = (c, u))) as [E|Hne].
  - simplify_eq. destruct (Hs r Hr) as [Hr'| ->]; [by apply (ok_reads _ K)|]. split; [done|]. exists st. split; [done|lia].
  - rewrite Hk in Hr by done. by apply (ok_reads _ K).
Qed.

Lemma advance_guar H d c u m : guar now req H d (AdvanceChannelReadState c u m d).
Proof.
  destruct (advance_spec d c u m) as (R & -> & Hk & _ & Hm). apply rows_guar.
  - intros c' u' p Hp. rewrite Hp. apply row_change_refl.
  - intros. congruence.
  - intros c' u' r Hr. right. destruct (decide ((c', u') = (c, u))) as [E|Hne]; [simplify_eq; by apply Hm|].
    exists r. rewrite Hk by done. done.
Qed.

(** ** Invites *)

Lemma invites_ok d I :
  chan_ok d -> (forall h i, I !! h = Some i -> is_Some (channels d !! i_channel i)) -> chan_ok (set_invites I d).
Proof.
  intros K HI. destruct K as [k1 k2 k3 k4 k5 k6 k7 k8 k9 k10 k11 k12 k13 k14 k15]. split; try assumption.
  intros c st Hs. destruct (k5 c st Hs). by split.
Qed.

Lemma invites_guar H d I :
  (forall h i, channel_invites d !! h = Some i -> exists i', I !! h = Some i' /\
    i_channel i' = i_channel i /\ (i_revoked i <> None -> i_revoked i' = i_revoked i) /\ (i' = i \/ InviteRow h ∈ H)) ->
  guar now req H d (set_invites I d).
Proof. intros HI. destruct (chan_guar_refl now req H d). by split. Qed.

Lemma insert_invite_safe H d d' h c u t :
  chan_ok d -> InsertChannelInvite h c u t d = Some d' -> chan_ok d' /\ guar now req H d d'.
Proof.
  intros K. unfold InsertChannelInvite. destruct (bool_decide (is_Some (channel_invites d !! h))) eqn:E1; [done|].
  apply bool_decide_eq_false in E1. cbn [orb]. destruct (known_channel c d) eqn:E2; [|done]. cbn [negb orb].
  destruct (known_user u d); [|done]. intros [= <-]. unfold known_channel in E2. apply bool_decide_eq_true in E2.
  apply eq_None_not_Some in E1. split.
  - apply invites_ok; [done|]. intros x i [[<- <-]|[_ Hi]]%lookup_insert_Some; [done|by eapply (ok_invites _ K)].
  - apply invites_guar. intros x i Hi. exists i. rewrite lookup_insert_ne; [by split_and!; [..|left]|]. congruence.
Qed.

Lemma revoke_safe H d h c t :
  chan_ok d -> InviteRow h ∈ H -> chan_ok (q_RevokeChannelInvite h c t d) /\ guar now req H d (q_RevokeChannelInvite h c t d).
Proof.
  intros K Hl. unfold q_RevokeChannelInvite. destruct (channel_invites d !! h) as [i|] eqn:E; [|by split; [|apply chan_guar_refl]].
  destruct (i_channel i =? c); [|by split; [|apply chan_guar_refl]]. split.
  - apply invites_ok; [done|]. intros x j [[<- <-]|[_ Hi]]%lookup_insert_Some; [|by eapply (ok_invites _ K)].
    exact (ok_invites _ K h i E).
  - apply invites_guar. intros x j Hj. destruct (decide (h = x)) as [<-|Hne].
    + rewrite lookup_insert_eq. simplify_eq. eexists. split; [done|]. split_and!; simpl; [done| |by right].
      destruct (i_revoked i); [done|]. intros Hx. by destruct Hx.
    + exists j. rewrite lookup_insert_ne by done. by split_and!; [..|left].
Qed.

End writes.

(** * Channels: posts, creation and handles keep the invariant *)

(** ** Lookups by content *)

Lemma by_token_Some c r d l m : ChannelMessageByRandomID c r d = Some (l, m) ->
  channel_messages d !! (c, l) = Some m /\ cm_RandomID m = r /\ r <> 0.
Proof.
  unfold ChannelMessageByRandomID. destruct (List.find _ _) as [[[c' l'] m']|] eqn:E; [|done]. intros [= <- <-].
  apply List.find_some in E as [Hin Ht]. apply list_elem_of_In, elem_of_map_to_list in Hin.
  unfold has_token in Ht. simpl in Ht. apply andb_true_iff in Ht as [[Hc Hr]%andb_true_iff Hz].
  apply Z.eqb_eq in Hc, Hr. apply negb_true_iff, Z.eqb_neq in Hz. by simplify_eq.
Qed.

Lemma by_token_None c r d l m : ChannelMessageByRandomID c r d = None ->
  channel_messages d !! (c, l) = Some m -> cm_RandomID m = r -> r = 0.
Proof.
  unfold ChannelMessageByRandomID. destruct (List.find _ _) as [x|] eqn:E; [done|]. intros _ Hm Hr.
  assert (Hin : In (c, l, m) (map_to_list (channel_messages d))) by (by apply list_elem_of_In, elem_of_map_to_list).
  pose proof (List.find_none _ _ E _ Hin) as Hf. unfold has_token in Hf. simpl in Hf.
  rewrite Z.eqb_refl, Hr, Z.eqb_refl in Hf. simpl in Hf. apply negb_false_iff, Z.eqb_eq in Hf. done.
Qed.

Lemma new_post_pts d c l pts st : chan_ok d -> channel_state d !! c = Some st ->
  NewChannelPostPts c l d = Some pts -> pts = l /\ 1 <= l <= st_pts st.
Proof.
  intros K Hst. unfold NewChannelPostPts. destruct (List.find _ _) as [[[c' k] x]|] eqn:E; [|done]. intros [= <-].
  apply List.find_some in E as [Hin Ht]. apply list_elem_of_In, elem_of_map_to_list in Hin.
  unfold is_new in Ht. simpl in Ht. apply andb_true_iff in Ht as [Hc Hx]. apply Z.eqb_eq in Hc.
  apply bool_decide_eq_true in Hx. subst. rewrite (lo_events _ _ _ (ok_log _ K c st Hst)) in Hin.
  destruct ((1 <=? k) && (k <=? st_pts st)) eqn:E; [|done]. simplify_eq. split; [done|lia].
Qed.

Lemma has_new_post_pts d c l st : chan_ok d -> channel_state d !! c = Some st -> 1 <= l <= st_pts st ->
  NewChannelPostPts c l d = Some l.
Proof.
  intros K Hst Hl. destruct (NewChannelPostPts c l d) as [pts|] eqn:E.
  - by destruct (new_post_pts _ _ _ _ _ K Hst E) as [-> _].
  - unfold NewChannelPostPts in E. destruct (List.find _ _) as [x|] eqn:F; [done|].
    assert (Hin : In (c, l, (EventNewMessage, l)) (map_to_list (channel_events d))).
    { apply list_elem_of_In, elem_of_map_to_list. rewrite (lo_events _ _ _ (ok_log _ K c st Hst)).
      destruct (Z.leb_spec 1 l), (Z.leb_spec l (st_pts st)); try lia. done. }
    pose proof (List.find_none _ _ F _ Hin) as Hf. unfold is_new in Hf. simpl in Hf.
    by rewrite Z.eqb_refl, bool_decide_true in Hf.
Qed.

Section appends.
Variables (now : Z) (req : request).
Implicit Types (d : cdb) (H : list lock).

(** ** One entry of the log *)

Definition logged (c : Z) (st : chan_state) (p : ChannelMessage) d : cdb :=
  set_events (<[(c, st_pts st + 1) := (EventNewMessage, st_next st)]> (channel_events d))
    (set_posts (<[(c, st_next st) := p]> (channel_messages d))
       (set_states (<[c := mkState (st_pts st + 1) (st_next st + 1)]> (channel_state d)) d)).

Lemma append_spec c l p d d' pts d1 d2 :
  BumpChannelState c d = Some (pts, l, d1) -> InsertChannelMessage c l p d1 = Some d2 ->
  InsertChannelEvent c pts EventNewMessage l d2 = Some d' ->
  exists st, channel_state d !! c = Some st /\ pts = st_pts st + 1 /\ l = st_next st /\ d' = logged c st p d /\
    channel_messages d !! (c, l) = None /\
    (forall l' m, channel_messages d !! (c, l') = Some m -> cm_RandomID m = cm_RandomID p -> cm_RandomID p = 0).
Proof.
  unfold BumpChannelState. destruct (channel_state d !! c) as [st|] eqn:E; [|done]. intros [= <- <- <-].
  unfold InsertChannelMessage. cbn [channel_messages set_states].
  destruct (bool_decide (is_Some (channel_messages d !! (c, st_next st)))) eqn:E1; [done|].
  apply bool_decide_eq_false, eq_None_not_Some in E1. cbn [orb].
  destruct (negb (cm_RandomID p =? 0) && _) eqn:E2; [done|]. cbn [orb].
  destruct (match cm_FileID p with Some f => _ | None => _ end); [done|]. intros [= <-].
  unfold InsertChannelEvent. destruct (bool_decide (is_Some (_ !! (c, st_pts st + 1)))); [done|]. intros [= <-].
  exists st. split_and!; try done. intros l' m Hm Hr.
  destruct (Z.eqb_spec (cm_RandomID p) 0) as [|Hz]; [done|]. cbn [negb andb] in E2.
  apply bool_decide_eq_false, eq_None_not_Some in E2.
  exact (by_token_None _ _ (set_states _ d) l' m E2 Hm Hr).
Qed.

Lemma logged_ok c st p d :
  chan_ok d -> channel_state d !! c = Some st ->
  (forall l' m, channel_messages d !! (c, l') = Some m -> cm_RandomID m = cm_RandomID p -> cm_RandomID p = 0) ->
  chan_ok (logged c st p d).
Proof.
  intros K Hst Htok. destruct (ok_log _ K c st Hst) as [L1 L2 L3 L4].
  assert (Hnew : channel_messages d !! (c, st_next st) = None).
  { apply eq_None_not_Some. rewrite L4, L2. lia. }
  destruct K as [k1 k2 k3 k4 k5 k6 k7 k8 k9 k10 k11 k12 k13 k14 k15].
  split; try assumption; unfold logged; cbn [channels channel_state channel_participants channel_read_state
    channel_messages channel_events usernames users opened channel_invites set_events set_posts set_states].
  - intros x. destruct (decide (c = x)) as [<-|]; [|by rewrite lookup_insert_ne].
    rewrite lookup_insert_eq, k1, Hst. split; intros _; by eexists.
  - intros x u q Hq. destruct (k2 x u q Hq) as (ch & s & ? & Hs & ? & Hj & ?). exists ch.
    destruct (decide (c = x)) as [<-|]; [|exists s; by rewrite lookup_insert_ne].
    rewrite lookup_insert_eq. eexists. split_and!; try done; simplify_eq/=; lia.
  - intros x s. destruct (decide (c = x)) as [<-|Hne].
    + rewrite lookup_insert_eq. intros [= <-]. split; simpl; [lia|lia| |].
      * intros k. destruct (decide (k = st_pts st + 1)) as [->|Hk].
        -- rewrite lookup_insert_eq. rewrite L2. destruct (Z.leb_spec 1 (st_pts st + 1)); [|lia]. by rewrite Z.leb_refl.
        -- rewrite lookup_insert_ne by congruence. rewrite L3.
           destruct (Z.leb_spec 1 k), (Z.leb_spec k (st_pts st)), (Z.leb_spec k (st_pts st + 1)); simpl; try done; lia.
      * intros l. destruct (decide (l = st_next st)) as [->|Hl].
        -- rewrite lookup_insert_eq. split; [intros _; lia|by eexists].
        -- rewrite lookup_insert_ne by congruence. rewrite L4. lia.
    + rewrite lookup_insert_ne by done. intros Hs. destruct (k5 x s Hs) as [M1 M2 M3 M4]. split; simpl; try done.
      * intros k. rewrite lookup_insert_ne by congruence. apply M3.
      * intros l. rewrite lookup_insert_ne by congruence. apply M4.
  - intros x l q [[E <-]|[_ Hq]]%lookup_insert_Some; [simplify_eq; rewrite lookup_insert_eq; by eexists|].
    apply lookup_insert_is_Some. destruct (decide (c = x)); [by left|]. right. split; [done|by eapply k6].
  - intros x k q [[E <-]|[_ Hq]]%lookup_insert_Some; [simplify_eq; rewrite lookup_insert_eq; by eexists|].
    apply lookup_insert_is_Some. destruct (decide (c = x)); [by left|]. right. split; [done|by eapply k7].
  - intros x l l' q q' [[E <-]|[Hne Hq]]%lookup_insert_Some [[E' <-]|[Hne' Hq']]%lookup_insert_Some Hr Hz.
    + congruence.
    + simplify_eq. destruct Hz. by eapply Htok.
    + simplify_eq. destruct Hz. rewrite Hr. by eapply Htok.
    + by eapply k8.
  - intros x u r Hr. destruct (k9 x u r Hr) as [Hp (s & Hs & ?)]. split; [done|].
    destruct (decide (c = x)) as [<-|]; [|exists s; by rewrite lookup_insert_ne].
    rewrite lookup_insert_eq. eexists. split; [done|]. simplify_eq/=. lia.
  - intros x ch l Hc Hl. specialize (k10 x ch l Hc Hl). unfold ChannelPostExistsActive in *.
    cbn [channel_messages set_events set_posts set_states].
    rewrite lookup_insert_ne; [done|]. intros E. simplify_eq. by rewrite Hnew in k10.
Qed.

(** ** Posting *)

(** Only the participant's own time of its last post moves. *)
Lemma marked_ok d c u t : chan_ok d -> chan_ok (UpdateChannelPostMarker c u t d).2.
Proof.
  intros K. unfold UpdateChannelPostMarker. destruct (IsChannelMember c u d); [|done]. cbn [snd].
  assert (K' : chan_ok (alter_participant c u (set_last_post t) d).2) by (apply alter_ok; [by left|done|done]).
  destruct K' as [k1 k2 k3 k4 k5 k6 k7 k8 k9 k10 k11 k12 k13 k14 k15]. split; try assumption.
  intros x st Hs. destruct (k5 x st Hs). by split.
Qed.

Lemma post_safe H r reply e d a d' :
  chan_ok d -> po_Check r = true -> StateRow (po_Channel r) ∈ H ->
  req = ReqPost (po_Channel r) (po_From r) (po_Text r) (po_RandomID r) (po_File r) (po_ReplyTo r) ->
  post_writes r reply e d = Ok (a, d') -> chan_ok d' /\ guar now req H d d'.
Proof.
  intros K Hc Hl Hreq. unfold post_writes. set (c := po_Channel r) in *. unfold stmt, EnsureChannelState.
  destruct (channel_state d !! c) as [st|] eqn:Est; cycle 1.
  { rewrite bool_decide_false by (by intros [? ?]). unfold known_channel. rewrite bool_decide_false; [done|].
    rewrite (ok_state _ K c), Est. by intros [? ?]. }
  rewrite bool_decide_true by (by eexists).
  destruct (BumpChannelState c d) as [[[pts l] d1]|] eqn:E1; [|done].
  destruct (InsertChannelMessage _ _ _ _) as [d2|] eqn:E2; [|done].
  destruct (InsertChannelEvent _ _ _ _ _) as [d3|] eqn:E3; [|done].
  destruct (append_spec _ _ _ _ _ _ _ _ E1 E2 E3) as (st1 & Hst & -> & -> & -> & Hnew & Htok).
  assert (st1 = st) as -> by congruence.
  set (p := post_row _ _ _ _ _ _ _) in *. rewrite Hc.
  destruct (UpdateChannelPostMarker c (po_From r) (e_clock e) (logged c st p d)) as [n d4] eqn:E4.
  destruct (Z.eqb_spec n 1) as [->|]; [|done]. cbn [negb].
  destruct (ChannelMessageByLocal _ _ _); [|done]. intros [= <- <-].
  assert (K1 : chan_ok (logged c st p d)) by (by apply logged_ok).
  split; [replace d4 with (UpdateChannelPostMarker c (po_From r) (e_clock e) (logged c st p d)).2 by (by rewrite E4);
          by apply marked_ok|].
  unfold UpdateChannelPostMarker, IsChannelMember in E4.
  case_bool_decide as Em; [|done]. injection E4 as <-.
  change (channel_participants (logged c st p d)) with (channel_participants d) in *.
  split; unfold logged; cbn [channels channel_state channel_participants channel_read_state channel_messages channel_events
    usernames users opened channel_invites set_events set_posts set_states set_markers set_participants alter_participant snd];
    try done.
  - intros x ch Hx. exists ch. split_and!; try done. by left.
  - intros x Hx [ch Hy]. congruence.
  - intros x s Hs. destruct (decide (c = x)) as [<-|Hne].
    + rewrite lookup_insert_eq. eexists. split; [done|]. simplify_eq/=. split; [lia|by right].
    + rewrite lookup_insert_ne by done. exists s. split_and!; try done. by left.
  - intros x k q Hq. rewrite lookup_insert_ne; [done|]. intros E. simplify_eq.
  - intros x k q Hn [[E <-]|[_ Hq]]%lookup_insert_Some; [|congruence]. simplify_eq. right. split_and!; [done|done|done|]. by eauto 10.
  - intros x u q Hq. destruct (decide ((c, po_From r) = (x, u))) as [E|Hne].
    + simplify_eq. rewrite lookup_alter_eq, Hq. simpl. split; simpl; auto.
    + rewrite lookup_alter_ne, Hq by done. apply row_change_refl.
  - intros x u q Hn [(_ & y & Hy & _)|[_ Hy]]%lookup_alter_Some; congruence.
  - intros h i Hi. exists i. split_and!; try done. by left.
  - intros x u y Hy. right. by exists y.
Qed.

(** ** Creation *)

Lemma insertChannel_spec e row n : forall i d id d',
  env_ok now e -> insertChannel n i e row d = Ok (id, d') ->
  minChannelID <= id <= maxChannelID /\ channels d !! id = None /\ is_Some (users d !! ch_CreatorID row) /\
  d' = set_channels (<[id := row]> (channels d)) d.
Proof.
  induction n as [|n IH]; intros i d id d' He; cbn [insertChannel]; [done|].
  unfold randomChannelID. destruct (e_draw e i) as [x|] eqn:E; [|done]. cbn [fmap option_fmap option_map].
  destruct (InsertChannel _ _ _) as [d1|] eqn:E1.
  - intros [= <- <-]. unfold InsertChannel, known_channel, known_user in E1.
    destruct (bool_decide (is_Some (channels d !! _))) eqn:E2; [done|]. cbn [orb] in E1.
    destruct (bool_decide (is_Some (users d !! _))) eqn:E3; [|done]. cbn [negb] in E1. injection E1 as <-.
    apply bool_decide_eq_false, eq_None_not_Some in E2. apply bool_decide_eq_true in E3.
    destruct He as [_ He]. specialize (He i x E). unfold channelIDSpan in He. split_and!; try done; lia.
  - destruct (known_channel _ _); [|done]. by apply IH.
Qed.

Definition founded (id u t : Z) (row : Channel) d : cdb :=
  set_participants (<[(id, u) := new_participant channelRoleCreator 0 t]> (channel_participants d))
    (set_states (<[id := mkState 0 1]> (channel_state d)) (set_channels (<[id := row]> (channels d)) d)).

Lemma no_rows d c : chan_ok d -> channels d !! c = None ->
  channel_state d !! c = None /\ (forall u, channel_participants d !! (c, u) = None) /\
  (forall l, channel_messages d !! (c, l) = None) /\ (forall k, channel_events d !! (c, k) = None) /\
  seats c (channel_participants d) = 0.
Proof.
  intros K Hc. assert (Hs : channel_state d !! c = None).
  { apply eq_None_not_Some. rewrite <- (ok_state _ K c), Hc. by intros [? ?]. }
  assert (Hp : forall u, channel_participants d !! (c, u) = None).
  { intros u. destruct (channel_participants d !! (c, u)) as [p|] eqn:E; [|done].
    destruct (ok_rows _ K c u p E) as (ch & st & ? & _). congruence. }
  split_and!; [done|done| | |].
  - intros l. destruct (channel_messages d !! (c, l)) as [p|] eqn:E; [|done].
    destruct (ok_posts _ K c l p E). congruence.
  - intros k. destruct (channel_events d !! (c, k)) as [p|] eqn:E; [|done].
    destruct (ok_events _ K c k p E). congruence.
  - assert (seats c (channel_participants d) <= seats c (∅ : gmap (Z * Z) participant)) as Hle.
    { apply seats_mono. intros u p E. rewrite Hp in E. done. }
    unfold seats in *. rewrite map_filter_empty, map_size_empty in Hle. lia.
Qed.

Lemma founded_ok id u t row d :
  chan_ok d -> channels d !! id = None -> is_Some (users d !! u) -> ch_CreatorID row = u -> ch_PinnedMessageID row = None ->
  ch_Username row = None -> ch_publicly_discoverable row = false ->
  joined u (channel_participants d) < defaultMaxChannelsPerUser -> chan_ok (founded id u t row d).
Proof.
  intros K Hn Hu H1 H2 H3 H4 Hj. destruct (no_rows d id K Hn) as (Hs & Hp & Hm & Hev & Hc).
  destruct K as [k1 k2 k3 k4 k5 k6 k7 k8 k9 k10 k11 k12 k13 k14 k15].
  split; try assumption; unfold founded; cbn [channels channel_state channel_participants channel_read_state
    channel_messages channel_events usernames users opened channel_invites set_participants set_states set_channels].
  - intros x. destruct (decide (id = x)) as [<-|]; [|by rewrite !lookup_insert_ne].
    rewrite !lookup_insert_eq. split; intros _; by eexists.
  - intros x v p [[E <-]|[_ Hq]]%lookup_insert_Some.
    + simplify_eq. exists row, (mkState 0 1). rewrite !lookup_insert_eq. simpl. split_and!; try done. right. by right.
    + destruct (k2 x v p Hq) as (ch & st & ? & ? & ? & ? & ?). exists ch, st.
      rewrite !lookup_insert_ne by congruence. done.
  - intros x. rewrite seats_fresh by done. specialize (k3 x). unfold defaultMaxChannelParticipants in *.
    destruct (decide (id = x)) as [<-|]; lia.
  - intros x. rewrite joined_fresh by done. specialize (k4 x). destruct (decide (u = x)) as [<-|]; lia.
  - intros x st. destruct (decide (id = x)) as [<-|Hne].
    + rewrite lookup_insert_eq. intros [= <-]. split; simpl; [lia|lia| |].
      * intros k. rewrite Hev. by destruct (Z.leb_spec 1 k), (Z.leb_spec k 0); try lia.
      * intros l. rewrite Hm. split; [by intros [? ?]|lia].
    + rewrite lookup_insert_ne by done. intros Hx. destruct (k5 x st Hx). by split.
  - intros x l p Hq. apply lookup_insert_is_Some. destruct (decide (id = x)); [by left|]. right. split; [done|by eapply k6].
  - intros x l p Hq. apply lookup_insert_is_Some. destruct (decide (id = x)); [by left|]. right. split; [done|by eapply k7].
  - intros x v r Hr. destruct (k9 x v r Hr) as [Hq (st & Hst & ?)]. split.
    + apply lookup_insert_is_Some. destruct (decide ((id, u) = (x, v))); [by left|by right].
    + exists st. rewrite lookup_insert_ne by congruence. done.
  - intros x ch l [[<- <-]|[_ Hx]]%lookup_insert_Some; [congruence|by apply k10].
  - intros h x. rewrite k11. destruct (decide (id = x)) as [<-|]; [|by rewrite lookup_insert_ne].
    rewrite lookup_insert_eq, Hn. split; intros (y & [= <-] & Hy); congruence.
  - intros x ch [[<- <-]|[_ Hx]]%lookup_insert_Some; [by rewrite H4, H3|by apply (k13 x)].
  - intros x ch [[<- <-]|[_ Hx]]%lookup_insert_Some; [rewrite H3; by intros [? ?]|by eapply k14].
  - intros h i Hi. apply lookup_insert_is_Some. destruct (decide (id = i_channel i)); [by left|].
    right. split; [done|by eapply k15].
Qed.

Lemma create_safe H creator title about mega e d a d' :
  req = ReqCreate creator title about mega -> chan_ok d -> env_ok now e -> Advisory creator ∈ H -> joined creator (channel_participants d) < defaultMaxChannelsPerUser ->
  create_writes creator title about mega e d = Ok (a, d') -> chan_ok d' /\ guar now req H d d'.
Proof.
  intros Hreq K He Hl Hj. unfold create_writes.
  set (row := new_channel _ _ _ _ _). set (p := post_row _ _ _ _ _ _ _).
  destruct (insertChannel _ _ _ _ _) as [[id d1]|x] eqn:E; [|done].
  destruct (insertChannel_spec _ _ _ _ _ _ _ He E) as (Hid & Hn & Hu & ->). clear E.
  destruct (no_rows d id K Hn) as (Hs & Hp & Hm & Hev & Hc).
  unfold stmt, InsertChannelState. cbn [channel_state set_channels]. rewrite Hs.
  rewrite bool_decide_false by (by intros [? ?]). cbn [orb]. destruct (known_channel _ _); [|done]. cbn [negb].
  unfold InsertChannelParticipant, IsChannelMember. cbn [channel_participants set_channels set_states]. rewrite Hp.
  rewrite bool_decide_false by (by intros [? ?]). cbn [orb]. destruct (known_channel _ _); [|done].
  destruct (known_user _ _); [|done]. cbn [negb orb]. fold (founded id creator (e_start e) row d).
  assert (K1 : chan_ok (founded id creator (e_start e) row d)) by (by apply founded_ok).
  destruct (BumpChannelState id _) as [[[pts l] d2]|] eqn:E1; [|done].
  destruct (InsertChannelMessage _ _ _ _) as [d3|] eqn:E2; [|done].
  destruct (InsertChannelEvent _ _ _ _ _) as [d4|] eqn:E3; [|done].
  destruct (append_spec _ _ _ _ _ _ _ _ E1 E2 E3) as (st & Hst & -> & -> & -> & Hnew & Htok).
  destruct (ChannelMessageByLocal _ _ _); [|done]. intros [= <- <-].
  split; [by apply logged_ok|].
  assert (st = mkState 0 1) as -> by (cbn in Hst; rewrite lookup_insert_eq in Hst; congruence).
  split; unfold logged, founded; cbn [channels channel_state channel_participants channel_read_state channel_messages
    channel_events usernames users opened channel_invites set_events set_posts set_states set_channels set_participants
    st_pts st_next]; try done.
  - intros x ch Hx. exists ch. rewrite lookup_insert_ne by congruence. split_and!; try done. by left.
  - intros x Hx. destruct (decide (id = x)) as [<-|]; [done|]. rewrite lookup_insert_ne, Hx by done. by intros [? ?].
  - intros x s Hx. exists s. rewrite !lookup_insert_ne by congruence. split_and!; try done. by left.
  - intros x k q Hq. rewrite lookup_insert_ne; [done|]. intros E. simplify_eq.
  - intros x k q Hx [[Ek <-]|[_ Hq]]%lookup_insert_Some; [|congruence]. simplify_eq. by left.
  - intros x u q Hq. rewrite lookup_insert_ne by (intros Ek; simplify_eq; by rewrite Hp in Hq).
    rewrite Hq. apply row_change_refl.
  - intros x u q Hx [[Ek <-]|[_ Hq]]%lookup_insert_Some; [|congruence]. simplify_eq. split; [done|done|]. left. split_and!; [done|done|done|]. by eauto 10.
  - intros h i Hi. exists i. split_and!; try done. by left.
  - intros x u r Hr. right. by exists r.
Qed.

End appends.
