(* ===== verification/ChannelNames.v ===== *)
(** * Channels: handles

    The handles of channels and of accounts live in one table; a rename releases the old
    one, claims the new one and keeps the copy on the owner's row in step. *)

From S2P Require Import Prelude.
From S2P Require Import NetAddr.
From S2P Require Import GoStrings.
From S2P Require Import UpdateBatch.
From S2P Require Import Mailbox.
From S2P Require Import MsgStore.
From S2P Require Import LockedTx.
From S2P Require Import ChannelStore.
From S2P Require Import ChannelTx.
From S2P Require Import ChannelSafety.
From S2P Require Import ChannelWrites.
From Stdlib Require Import Ascii String.

Open Scope Z_scope.

Lemma ToLower_empty s : ToLower s = ""%string -> s = ""%string.
Proof. by destruct s. Qed.

(** The table after [o] has taken the name [name], or none. *)
Definition renamed (o : holder) (name : option string) (U U' : gmap string holder) : Prop :=
  forall h x, U' !! h = Some x <-> (x <> o /\ U !! h = Some x) \/ (x = o /\ name = Some h).

Lemma released_renamed o U : renamed o None U (filter (fun kv => kv.2 <> o) U).
Proof. intros h x. rewrite map_lookup_filter_Some. naive_solver. Qed.

Lemma claimed_renamed o h U :
  filter (fun kv => kv.2 <> o) U !! h = None ->
  renamed o (Some h) U (<[h := o]> (filter (fun kv => kv.2 <> o) U)).
Proof.
  intros Hn g x. rewrite lookup_insert_Some, map_lookup_filter_Some. split.
  - intros [[<- <-]|[Hne [Hg Hx]]]; [by right|by left].
  - intros [[Hx Hg]|[-> [= <-]]]; [|by left]. right. split; [|done]. intros <-.
    rewrite map_lookup_filter_None in Hn. destruct Hn as [Hn|Hn]; [congruence|]. by apply (Hn x).
Qed.

Lemma renamed_has_handle o name U U' (d : cdb) :
  renamed o name U U' -> usernames d = U' -> has_handle o d = bool_decide (is_Some name).
Proof.
  intros Hr E. unfold has_handle. rewrite E. apply eq_true_iff_eq. rewrite existsb_exists, bool_decide_eq_true. split.
  - intros ([h x] & Hin & Ho). apply list_elem_of_In, elem_of_map_to_list in Hin. unfold owns in Ho.
    apply bool_decide_eq_true in Ho. simpl in Ho. subst x. apply Hr in Hin as [[? _]|[_ ->]]; [done|by eexists].
  - intros [h Hh]. exists (h, o). split; [|unfold owns; by rewrite bool_decide_true].
    apply list_elem_of_In, elem_of_map_to_list, Hr. by right.
Qed.

Section names.
Variables (now : Z) (req : request).
Implicit Types (d : cdb) (H : list lock).

(** *** A channel's *)

Lemma channel_renamed_ok d c ch name U' :
  chan_ok d -> channels d !! c = Some ch -> renamed (OfChannel c) name (usernames d) U' ->
  chan_ok (SetChannelUsername c name (set_usernames U' d)).
Proof.
  intros K Hc Hr. pose proof (renamed_has_handle _ _ _ _ (set_usernames U' d) Hr eq_refl) as Hh.
  unfold SetChannelUsername. cbn [channels set_usernames]. rewrite Hc.
  change (has_handle (OfChannel c) (set_usernames U' d)) with (has_handle (OfChannel c) (set_usernames U' d)) in *.
  rewrite Hh. set (ch' := mkChannel _ _ _ _ _ _ _ _ _ _ _).
  assert (Hp : chan_ok (set_opened (match name with Some _ => {[c]} ∪ opened d | None => opened d end)
                 (set_channels (<[c := ch']> (channels d)) (set_usernames U' d)))).
  { destruct K as [k1 k2 k3 k4 k5 k6 k7 k8 k9 k10 k11 k12 k13 k14 k15].
    split; try assumption; cbn [channels channel_state channel_participants channel_read_state channel_messages
      channel_events usernames users opened channel_invites set_opened set_channels set_usernames].
    - intros x. destruct (decide (c = x)) as [<-|]; [|by rewrite lookup_insert_ne].
      rewrite lookup_insert_eq, <- k1, Hc. split; intros _; by eexists.
    - intros x u p Hq. destruct (k2 x u p Hq) as (ch0 & st & ? & ? & ? & ? & ?).
      destruct (decide (c = x)) as [<-|]; [|exists ch0, st; by rewrite lookup_insert_ne].
      exists ch', st. rewrite lookup_insert_eq. by simplify_eq.
    - intros x st Hs. destruct (k5 x st Hs). by split.
    - intros x ch0 l [[<- <-]|[_ Hx]]%lookup_insert_Some; [by apply (k10 c ch)|by apply (k10 x ch0)].
    - intros h x. rewrite (Hr h (OfChannel x)). destruct (decide (c = x)) as [<-|Hne].
      + rewrite lookup_insert_eq. split.
        * intros [[? _]|[_ Hn]]; [done|]. by exists ch'.
        * intros (y & [= <-] & Hy). by right.
      + rewrite lookup_insert_ne by done. rewrite k11. split.
        * intros [[_ ?]|[? _]]; [done|congruence].
        * intros ?. left. split; [congruence|done].
    - intros h u. rewrite (Hr h (OfUser u)), k12. split; [intros [[_ ?]|[? _]]; done|]. intros ?. by left.
    - intros x ch0 [[<- <-]|[_ Hx]]%lookup_insert_Some; [done|by apply (k13 x)].
    - intros x ch0 [[<- <-]|[_ Hx]]%lookup_insert_Some.
      + simpl. intros [h ->]. set_solver.
      + intros Hy. specialize (k14 x ch0 Hx Hy). destruct name; set_solver.
    - intros h i Hi. apply lookup_insert_is_Some. destruct (decide (c = i_channel i)); [by left|].
      right. split; [done|by eapply k15]. }
  by destruct name.
Qed.

Lemma channel_renamed_guar H d c ch name U' :
  channels d !! c = Some ch -> ChannelRow c ∈ H -> (exists a, asks_change req c a /\ entitled now d c a administrator) ->
  guar now req H d (SetChannelUsername c name (set_usernames U' d)).
Proof.
  intros Hc Hl Ha. unfold SetChannelUsername. cbn [channels set_usernames]. rewrite Hc.
  set (ch' := mkChannel _ _ _ _ _ _ _ _ _ _ _). destruct (chan_guar_refl now req H d).
  assert (G1 : forall x y, channels d !! x = Some y -> exists y', <[c := ch']> (channels d) !! x = Some y' /\
    ch_CreatorID y' = ch_CreatorID y /\ ch_Megagroup y' = ch_Megagroup y /\
    (y' = y \/ (ChannelRow x ∈ H /\ exists a, asks_change req x a /\ entitled now d x a administrator))) by (by eapply put_channel_clause).
  assert (G2 : forall x, channels d !! x = None -> is_Some (<[c := ch']> (channels d) !! x) -> minChannelID <= x <= maxChannelID).
  { intros x Hn. rewrite lookup_insert_ne by congruence. rewrite Hn. by intros [? ?]. }
  destruct name; split; try assumption. cbn. set_solver.
Qed.

(** *** An account's *)

Lemma user_renamed_ok d u name U' :
  chan_ok d -> is_Some (users d !! u) -> renamed (OfUser u) name (usernames d) U' ->
  chan_ok (SetUsername u name (set_usernames U' d)).
Proof.
  intros K [r0 Hu] Hr. unfold SetUsername. destruct K as [k1 k2 k3 k4 k5 k6 k7 k8 k9 k10 k11 k12 k13 k14 k15].
  split; try assumption; cbn [channels channel_state channel_participants channel_read_state channel_messages
    channel_events usernames users opened channel_invites set_users set_usernames].
  - intros c v p Hq. destruct (k2 c v p Hq) as (ch & st & ? & ? & ? & ? & ?). exists ch, st. split_and!; try done; try lia.
    by rewrite lookup_alter_is_Some.
  - intros c st Hs. destruct (k5 c st Hs). by split.
  - intros h c. rewrite (Hr h (OfChannel c)), k11. split; [intros [[_ ?]|[? _]]; done|]. intros ?. by left.
  - intros h v. rewrite (Hr h (OfUser v)). destruct (decide (u = v)) as [<-|Hne].
    + rewrite lookup_alter_eq, Hu. simpl. split.
      * intros [[? _]|[_ Hn]]; [done|]. eexists. by split.
      * intros (y & [= <-] & Hy). by right.
    + rewrite lookup_alter_ne by done. rewrite k12. split.
      * intros [[_ ?]|[? _]]; [done|congruence].
      * intros ?. left. split; [congruence|done].
Qed.

Lemma user_renamed_guar H d u name U' : guar now req H d (SetUsername u name (set_usernames U' d)).
Proof.
  destruct (chan_guar_refl now req H d). split; try assumption. intros v. unfold SetUsername. cbn. by rewrite lookup_alter_is_Some.
Qed.

(** *** The ledgers *)

Lemma channel_ledger_ok d L : chan_ok d -> chan_ok (set_channel_changes L d).
Proof.
  intros K. destruct K as [k1 k2 k3 k4 k5 k6 k7 k8 k9 k10 k11 k12 k13 k14 k15]. split; try assumption.
  intros c st Hs. destruct (k5 c st Hs). by split.
Qed.

Lemma user_ledger_ok d L : chan_ok d -> chan_ok (set_user_changes L d).
Proof.
  intros K. destruct K as [k1 k2 k3 k4 k5 k6 k7 k8 k9 k10 k11 k12 k13 k14 k15]. split; try assumption.
  intros c st Hs. destruct (k5 c st Hs). by split.
Qed.

Lemma channel_ledger_guar H d d' L : guar now req H d d' -> guar now req H d (set_channel_changes L d').
Proof. intros G. destruct G. by split. Qed.

Lemma user_ledger_guar H d d' L : guar now req H d d' -> guar now req H d (set_user_changes L d').
Proof. intros G. destruct G. by split. Qed.

(** *** Both *)

(** What a rename that commits has done: the name, the ledger before and after. *)
Lemma rename_spec o ledger set_ledger id set cutoff limit username e d a d' :
  (forall L d, usernames (set_ledger L d) = usernames d) ->
  (forall L U d, set_usernames U (set_ledger L d) = set_ledger L (set_usernames U d)) ->
  rename_writes o ledger set_ledger id set cutoff limit username e d = Ok (a, d') ->
  exists name U' L L',
    name = (if String.eqb username "" then None else Some (ToLower username)) /\
    renamed o name (usernames d) U' /\
    d' = set_ledger L' (set name (set_ledger L (set_usernames U' d))) /\
    L = prune_before id cutoff (ledger d).
Proof.
  intros Hus Hcomm. unfold rename_writes, ReleaseUsernameByOwner, ClaimUsername. rewrite ToLower_idem. cbn [usernames set_usernames].
  set (L := prune_before _ _ _). rewrite !Hus.
  destruct (String.eqb username "") eqn:E.
  - unfold stmt. destruct (record_change _ _ _) as [L'|]; [|done]. destruct (_ >? _); [done|]. intros [= <- <-].
    exists None, (filter (fun kv => kv.2 <> o) (usernames d)), L, L'. split_and!; [done|apply released_renamed| |done].
    by rewrite Hcomm.
  - destruct (bool_decide (is_Some (_ !! ToLower username))) eqn:Eb; [done|].
    apply bool_decide_eq_false, eq_None_not_Some in Eb.
    unfold stmt. destruct (record_change _ _ _) as [L'|]; [|done]. destruct (_ >? _); [done|]. intros [= <- <-].
    exists (Some (ToLower username)), (<[ToLower username := o]> (filter (fun kv => kv.2 <> o) (usernames d))), L, L'.
    split_and!; [done|by apply claimed_renamed| |done].
    f_equal. f_equal. rewrite <- Hcomm. done.
Qed.

Lemma channel_rename_safe H c cutoff username e d a d' :
  chan_ok d -> is_Some (channels d !! c) -> ChannelRow c ∈ H -> (exists a, asks_change req c a /\ entitled now d c a administrator) ->
  rename_writes (OfChannel c) channel_username_changes set_channel_changes c (SetChannelUsername c)
    cutoff ChannelUsernameChangeLimit username e d = Ok (a, d') ->
  chan_ok d' /\ guar now req H d d'.
Proof.
  intros K [ch Hc] Hl Ha E. apply rename_spec in E as (name & U' & L & L' & _ & Hr & -> & _); [|done|done].
  change (set_channel_changes L (set_usernames U' d)) with (set_usernames U' (set_channel_changes L d)). split.
  - apply channel_ledger_ok. eapply channel_renamed_ok; [by apply channel_ledger_ok|exact Hc|exact Hr].
  - apply channel_ledger_guar.
    change (set_usernames U' (set_channel_changes L d)) with (set_channel_changes L (set_usernames U' d)).
    assert (E : SetChannelUsername c name (set_channel_changes L (set_usernames U' d)) =
                set_channel_changes L (SetChannelUsername c name (set_usernames U' d))).
    { unfold SetChannelUsername. cbn [channels set_channel_changes set_usernames]. rewrite Hc. by destruct name. }
    rewrite E. apply channel_ledger_guar. by eapply channel_renamed_guar.
Qed.

Lemma user_rename_safe H u cutoff username e d a d' :
  chan_ok d -> is_Some (users d !! u) ->
  rename_writes (OfUser u) username_changes set_user_changes u (SetUsername u)
    cutoff UsernameChangeLimit username e d = Ok (a, d') ->
  chan_ok d' /\ guar now req H d d'.
Proof.
  intros K Hu E. apply rename_spec in E as (name & U' & L & L' & _ & Hr & -> & _); [|done|done]. split.
  - apply user_ledger_ok.
    change (set_user_changes L (set_usernames U' d)) with (set_usernames U' (set_user_changes L d)).
    by apply user_renamed_ok; [apply user_ledger_ok|..].
  - apply user_ledger_guar.
    change (SetUsername u name (set_user_changes L (set_usernames U' d))) with
      (set_user_changes L (SetUsername u name (set_usernames U' d))).
    apply user_ledger_guar, user_renamed_guar.
Qed.

End names.
