(* ===== verification/ChannelRuns.v ===== *)
(** * Channels: requests that run at once

    Every transaction keeps the invariant and the guarantee, whatever the others do between
    its statements; and what follows for every run. *)

From S2P Require Import Prelude.
From S2P Require Import NetAddr.
From S2P Require Import GoStrings.
From S2P Require Import UpdateBatch.
From S2P Require Import Mailbox.
From S2P Require Import MsgStore.
From S2P Require Import MsgLogic.
From S2P Require Import LockedTx.
From S2P Require Import ChannelStore.
From S2P Require Import ChannelTx.
From S2P Require Import ChannelSafety.
From S2P Require Import ChannelWrites.
From S2P Require Import ChannelNames.
From Stdlib Require Import String.

Open Scope Z_scope.

Definition starts (p : ctxn) : Prop := exists r, p = transaction r.

(** ** Safety of each *)

Section safe.
Variable now : Z.
Implicit Types (held : list lock) (L : list fact).

#[local] Hint Resolve guarded_nil guarded_lock sl_reject sl_commit_read facts_nil : core.

Lemma sl_lock_owners q ids : forall held L k, guarded held L ->
  (forall held', (forall l, l ∈ held -> l ∈ held') -> (forall u, u ∈ ids -> Advisory u ∈ held') -> guarded held' L ->
     safeL now q held' L k) ->
  safeL now q held L (lock_owners ids k).
Proof.
  induction ids as [|u ids IH]; intros held L k Hg Hk; cbn [lock_owners].
  - apply Hk; [done| |done]. intros u Hu. by apply elem_of_nil in Hu.
  - apply sl_lock; [done|]. intros e d _ _ HK. exists L. split; [done|]. apply IH; [by apply guarded_lock|].
    intros held' H1 H2 H3. apply Hk; [|intros v [->|Hv]%elem_of_cons; [apply H1; by left|by apply H2]|done].
    intros l Hl. apply H1. by right.
Qed.

Lemma sl_locking q ids held L k : guarded held L ->
  (forall held', (forall l, l ∈ held -> l ∈ held') -> (forall u, u ∈ ids -> Advisory u ∈ held') -> guarded held' L ->
     safeL now q held' L k) ->
  safeL now q held L (locking ids k).
Proof.
  intros Hg Hk. apply sl_lock_owners; [done|]. intros held' H1 H2 H3. apply Hk; [done| |done].
  intros u Hu. apply H2. by rewrite elem_of_ascendingUnique.
Qed.

Lemma sl_early q held L c a k : guarded held L -> safeL now q held L k -> safeL now q held L (early_member c a k).
Proof.
  intros Hg Hk. apply sl_query; [done|]. intros d _ HK. exists L. split; [done|].
  destruct (IsChannelMember c a d); simpl; [done|by apply sl_reject].
Qed.

Lemma sl_lock_channel q held L c gone k : guarded held L -> safeL now q (ChannelRow c :: held) L gone ->
  (forall ch, safeL now q (ChannelRow c :: held) (FChannel c ch :: L) (k ch)) ->
  safeL now q held L (lock_channel c gone k).
Proof.
  intros Hg Hn Hk. apply sl_lock; [done|]. intros e d _ _ HK. destruct (channels d !! c) as [ch|] eqn:E.
  - exists (FChannel c ch :: L). split; [by apply knows_cons|done].
  - by exists L.
Qed.

Lemma sl_caller q held L c a floor k : guarded held L -> ChannelRow c ∈ held ->
  (forall row, floor <= p_role row -> safeL now q held (FRow c a (p_role row) :: L) (k row)) ->
  safeL now q held L (caller_row c a floor k).
Proof.
  intros Hg Hl Hk. apply sl_read; [done|]. intros e d He _ HK. unfold ChannelParticipantByUser.
  destruct (channel_participants d !! (c, a)) as [row|] eqn:E; [|exists L; split; [done|by apply sl_reject]].
  destruct (p_role row <? floor) eqn:Er; [exists L; split; [done|by apply sl_reject]|]. cbn [orb].
  destruct (Banned _ _) eqn:Eb; [exists L; split; [done|by apply sl_reject]|].
  exists (FRow c a (p_role row) :: L). split; [|apply Hk; lia].
  apply knows_cons; [|done]. exists row. split_and!; [done|done|]. by eapply unbanned_le.
Qed.

(** What the facts say of the tables. *)
Lemma row_entitled L d c a role (good : Z -> Prop) :
  knows now L d -> FRow c a role ∈ L -> good role -> entitled now d c a good.
Proof. intros HK Hin Hg. destruct (HK _ Hin) as (p & Hp & Hpr & Hu). exists p. split_and!; [done|done|by rewrite Hpr]. Qed.

Lemma keeper_in f held l : keeper f = [l] -> l ∈ held -> forall x, x ∈ keeper f -> x ∈ held.
Proof. intros -> Hl x Hx. apply list_elem_of_singleton in Hx. by subst x. Qed.

Lemma create_txn u t a m : safeL now (ReqCreate u t a m) [] [] (CreateChannelWithServiceMessage u t a m).
Proof.
  apply sl_locking; [apply guarded_nil|]. intros held _ Hu Hg. apply sl_query; [done|]. intros d _ _.
  unfold CountChannelsForUser.
  destruct (Z.geb_spec (joined u (channel_participants d)) defaultMaxChannelsPerUser) as [|Hlt].
  { exists []. split; [apply facts_nil|]. by apply sl_reject. }
  exists [FJoined u]. split; [by apply knows_cons|].
  apply sl_commit; [apply guarded_cons; [eapply keeper_in; [done|apply Hu; by left]|done]|].
  intros e d' x d2 He K HK. apply create_safe; [done|done|done|apply Hu; by left|]. apply (HK (FJoined u)). by left.
Qed.

(** A seat, once there is something that admits. *)
Lemma take_seat_txn q held L c u ch st :
  guarded held L -> StateRow c ∈ held -> FState c st ∈ L -> FAbsent c u ∈ L ->
  (forall d, knows now L d -> admitted now q d c u) -> safeL now q held L (take_seat c u ch st).
Proof.
  intros Hg Hl Hs Ha Had. apply sl_query; [done|]. intros d _ HK. unfold CountChannelParticipants.
  destruct (Z.geb_spec (seats c (channel_participants d)) defaultMaxChannelParticipants) as [|Hlt].
  { exists L. split; [done|]. by apply sl_reject. }
  exists (FSeats c (defaultMaxChannelParticipants - 1) :: L). split.
  { apply knows_cons; [|done]. destruct (HK _ Ha) as [Hx _]. split; [done|lia]. }
  apply sl_locking; [apply guarded_cons; [by eapply keeper_in|done]|]. intros held' Hsub Hu Hg'.
  apply sl_query; [done|]. intros d1 _ HK1. unfold CountChannelsForUser.
  destruct (Z.geb_spec (joined u (channel_participants d1)) defaultMaxChannelsPerUser) as [|Hlt1].
  { eexists. split; [exact HK1|]. by apply sl_reject. }
  exists (FJoined u :: FSeats c (defaultMaxChannelParticipants - 1) :: L). split; [by apply knows_cons|].
  assert (Hau : Advisory u ∈ held') by (apply Hu; by left).
  apply sl_commit; [apply guarded_cons; [by eapply keeper_in|done]|]. clear d d1 HK HK1 Hlt Hlt1.
  intros e d a d' He K HK. unfold admit_writes, stmt.
  destruct (InsertChannelParticipantIfAbsent _ _ _ _ _ _) as [[n d1]|] eqn:E; [|done].
  assert (HA : holds_fact now (FAbsent c u) d) by (apply HK; by right; right).
  assert (HS : holds_fact now (FState c st) d) by (apply HK; by right; right).
  assert (HJ : holds_fact now (FJoined u) d) by (apply HK; by left).
  assert (HC : holds_fact now (FSeats c (defaultMaxChannelParticipants - 1)) d) by (apply HK; right; by left).
  destruct HA as [Hx HA]. destruct HC as [_ HC]. cbn in HS, HJ.
  apply insert_absent in E as (-> & Hus & ->); [|done]. cbn [Z.eqb]. intros [= <- <-].
  fold (seated c u st (e_start e) d). split; [apply seated_ok; try done; lia|].
  eapply grown_guar; [by apply seated_grown|by apply Hsub| |done|].
  - intros v Hv%list_elem_of_singleton. by subst v.
  - intros v Hv%list_elem_of_singleton. subst v. apply Had. intros f Hf. apply HK. by right; right.
Qed.

Lemma join_invite_txn h u : safeL now (ReqJoinInvite h u) [] [] (JoinChannelByInvite h u).
Proof.
  apply sl_lock; [apply guarded_nil|]. intros e d _ _ _. unfold ChannelInviteByHash.
  destruct (channel_invites d !! h) as [i|] eqn:Ei; [|exists []; split; [apply facts_nil|by apply sl_reject]].
  case_bool_decide as Er; [|exists []; split; [apply facts_nil|by apply sl_reject]].
  exists [FInvite h (i_channel i)]. split; [apply knows_cons; [by exists i|apply facts_nil]|].
  set (c := i_channel i).
  assert (G1 : guarded [InviteRow h] [FInvite h c]) by (apply guarded_cons; [by eapply keeper_in; [|left]|apply guarded_nil]).
  apply sl_lock; [done|]. intros e1 d1 _ K1 HK1.
  destruct (channel_state d1 !! c) as [st|] eqn:Es; [|exists [FInvite h c]; split; [done|apply sl_reject; by apply guarded_lock]].
  exists [FState c st; FInvite h c]. split; [by apply knows_cons|].
  assert (G2 : guarded [StateRow c; InviteRow h] [FState c st; FInvite h c]) by
    (apply guarded_cons; [by eapply keeper_in; [|left]|by apply guarded_lock]).
  apply sl_query; [done|]. intros d2 K2 HK2. eexists. split; [exact HK2|].
  destruct (channels d2 !! c) as [ch|] eqn:Ec; [|by apply sl_reject].
  apply sl_query; [done|]. intros d3 K3 HK3. unfold ChannelParticipantByUser.
  destruct (channel_participants d3 !! (c, u)) as [row|] eqn:Ep; [eexists; split; [exact HK3|by apply sl_commit_read]|].
  exists [FAbsent c u; FState c st; FInvite h c]. split.
  { apply knows_cons; [|done]. split; [|done]. apply (ok_state _ K3). exists st. apply (HK3 (FState c st)). by left. }
  apply take_seat_txn; [|by left|by right; left|by left|].
  - apply guarded_cons; [by eapply keeper_in; [|left]|done].
  - intros d4 HK4. left. assert (HF : holds_fact now (FInvite h c) d4) by (apply HK4; do 2 right; by left).
    destruct HF as (j & ? & ? & ?). exists h, j. by split_and!.
Qed.

Lemma join_username_txn c u : safeL now (ReqJoinUsername c u) [] [] (JoinChannelByUsername c u).
Proof.
  apply sl_lock; [apply guarded_nil|]. intros e d _ K _.
  destruct (channel_state d !! c) as [st|] eqn:Es; [|exists []; split; [apply facts_nil|by apply sl_reject]].
  exists [FState c st]. split; [by apply knows_cons|].
  assert (G1 : guarded [StateRow c] [FState c st]) by (apply guarded_cons; [by eapply keeper_in; [|left]|apply guarded_nil]).
  apply sl_query; [done|]. intros d1 K1 HK1.
  destruct (channels d1 !! c) as [ch|] eqn:Ec; [|eexists; split; [exact HK1|by apply sl_reject]].
  destruct (is_public ch) eqn:Epub; cbn [negb]; [|eexists; split; [exact HK1|by apply sl_reject]].
  exists [FOpened c; FState c st]. split.
  { apply knows_cons; [|done]. apply (ok_opened _ K1 c ch Ec). unfold is_public in Epub.
    destruct (ch_Username ch); [by eexists|done]. }
  assert (G2 : guarded [StateRow c] [FOpened c; FState c st]) by
    (apply guarded_cons; [intros l Hl; by apply elem_of_nil in Hl|done]).
  apply sl_read; [done|]. intros e2 d2 _ K2 HK2. unfold ChannelParticipantByUser.
  destruct (channel_participants d2 !! (c, u)) as [row|] eqn:Ep.
  { eexists. split; [exact HK2|]. destruct (Banned _ _); [by apply sl_reject|by apply sl_commit_read]. }
  exists [FAbsent c u; FOpened c; FState c st]. split.
  { apply knows_cons; [|done]. split; [|done]. apply (ok_state _ K2). exists st. apply (HK2 (FState c st)). right. by left. }
  apply take_seat_txn; [|by left|by do 2 right; left|by left|].
  - apply guarded_cons; [by eapply keeper_in; [|left]|done].
  - intros d4 HK4. right. right. split; [done|]. apply (HK4 (FOpened c)). right. by left.
Qed.

(** *** Changes of members and of the channels row *)

Lemma begin_txn q c a u k :
  (forall caller target, a <> u ->
     safeL now q [ChannelRow c] [FRole c u (p_role target); FRow c a (p_role caller)] (k caller target)) ->
  safeL now q [] [] (beginChannelMutation c a u k).
Proof.
  intros Hk. unfold beginChannelMutation. destruct (Z.eqb_spec a u) as [|Hne]; [by apply sl_reject|].
  apply sl_early; [apply guarded_nil|]. apply sl_lock_channel; [apply guarded_nil|by apply sl_reject|]. intros ch.
  assert (G1 : guarded [ChannelRow c] [FChannel c ch]) by (apply guarded_cons; [by eapply keeper_in; [|left]|apply guarded_nil]).
  apply sl_caller; [done|by left|]. intros caller _.
  assert (G2 : guarded [ChannelRow c] [FRow c a (p_role caller); FChannel c ch]) by
    (apply guarded_cons; [by eapply keeper_in; [|left]|done]).
  apply sl_query; [done|]. intros d _ HK. unfold ChannelParticipantByUser.
  destruct (channel_participants d !! (c, u)) as [target|] eqn:E; [|eexists; split; [exact HK|by apply sl_reject]].
  exists [FRole c u (p_role target); FRow c a (p_role caller)]. split; [|by apply Hk].
  apply knows_cons; [by exists target|]. apply knows_cons; [|apply facts_nil]. apply HK. by left.
Qed.

Lemma mutation_guarded c a u r r' : guarded [ChannelRow c] [FRole c u r; FRow c a r'].
Proof. do 2 (apply guarded_cons; [by eapply keeper_in; [|left]|]). apply guarded_nil. Qed.

(** One row updated under the lock. *)
Lemma one_row_txn q c a u f target caller :
  (forall p, p_role (f p) = p_role p \/ p_role (f p) = channelRoleMember \/ p_role (f p) = channelRoleAdmin) ->
  (forall p, p_join_pts (f p) = p_join_pts p) ->
  (forall d p, knows now [FRole c u (p_role target); FRow c a (p_role caller)] d ->
     channel_participants d !! (c, u) = Some p -> p_role p = p_role target ->
     row_change now q [ChannelRow c] d c u p (f p)) ->
  safeL now q [ChannelRow c] [FRole c u (p_role target); FRow c a (p_role caller)] (one_row (alter_participant c u f)).
Proof.
  intros H1 H2 H3. apply sl_commit; [apply mutation_guarded|]. intros e d x d' _ K HK.
  destruct (alter_participant c u f d) as [n d1] eqn:E. destruct (n =? 0); [done|]. intros [= <- <-].
  replace d1 with (alter_participant c u f d).2 by (by rewrite E). split; [by apply alter_ok|].
  apply alter_guar. intros p Hp. apply H3; [done|done|].
  destruct (HK (FRole c u (p_role target))) as (x' & Hq & Hr); [by left|]. congruence.
Qed.

Lemma role_txn c a u role : safeL now (ReqRole c a u role) [] [] (SetChannelRole c a u role).
Proof.
  unfold SetChannelRole. destruct (Z.eqb_spec role channelRoleMember) as [E1|E1];
    destruct (Z.eqb_spec role channelRoleAdmin) as [E2|E2]; cbn [negb andb]; try by apply sl_reject.
  all: apply begin_txn; intros caller target Hne.
  all: destruct (Z.eqb_spec (p_role caller) channelRoleCreator) as [Hc|]; cbn [negb orb];
         [|apply sl_reject, mutation_guarded].
  all: destruct (Z.eqb_spec (p_role target) channelRoleCreator) as [|Ht]; cbn [orb]; [apply sl_reject, mutation_guarded|].
  all: destruct (p_role target =? role); [apply sl_reject, mutation_guarded|].
  all: apply one_row_txn; [intros p; simpl; by auto|done|].
  all: intros d p HK Hp Hr; split; simpl; [done|done| |by left]; right.
  all: split_and!; [by left|by rewrite Hr|by auto|]; exists a; split_and!; [done|done|].
  all: eapply row_entitled; [exact HK|by right; left|done].
Qed.

Lemma ban_txn c a u t forever : safeL now (ReqBan c a u t forever) [] [] (SetChannelBan c a u t forever).
Proof.
  apply begin_txn. intros caller target Hne. destruct (may_ban _ _) eqn:Hm; cbn [negb]; [|apply sl_reject, mutation_guarded].
  apply one_row_txn; [by left|done|]. intros d p HK Hp Hr. split; simpl; [done|done|by left|right].
  split; [by left|]. exists a, t, forever. split_and!; [done|done|done|].
  eapply row_entitled; [exact HK|by right; left|]. simpl. by rewrite Hr.
Qed.

(** The caller's row, at least an administrator's, with the channels row. *)
Lemma admin_txn q c a floor k :
  (forall ch row, floor <= p_role row ->
     safeL now q [ChannelRow c] [FRow c a (p_role row); FChannel c ch] (k ch row)) ->
  safeL now q [] [] (lock_channel c (reject_tx ErrNotMember) (fun ch => caller_row c a floor (k ch))).
Proof.
  intros Hk. apply sl_lock_channel; [apply guarded_nil|by apply sl_reject|]. intros ch.
  apply sl_caller; [apply guarded_cons; [by eapply keeper_in; [|left]|apply guarded_nil]|by left|].
  intros row Hr. by apply Hk.
Qed.

Lemma admin_guarded c a r ch : guarded [ChannelRow c] [FRow c a r; FChannel c ch].
Proof. do 2 (apply guarded_cons; [by eapply keeper_in; [|left]|]). apply guarded_nil. Qed.

(** A change of the row that leaves the creator, the kind and the handle. *)
Definition mild (c : Z) (set : cdb -> option (Channel * cdb)) : Prop :=
  forall d ch x d', channels d !! c = Some ch -> set d = Some (x, d') ->
    d' = set_channels (<[c := x]> (channels d)) d /\ ch_CreatorID x = ch_CreatorID ch /\ ch_Megagroup x = ch_Megagroup ch /\
    ch_Username x = ch_Username ch /\ ch_publicly_discoverable x = ch_publicly_discoverable ch.

Lemma mild_safe q c set a role ch H d x d' :
  asks_change q c a -> mild c set -> chan_ok d -> knows now [FRow c a role; FChannel c ch] d -> channelRoleAdmin <= role -> ChannelRow c ∈ H ->
  set d = Some (x, d') -> (forall l, ch_PinnedMessageID x = Some l -> ChannelPostExistsActive c l d = true) ->
  chan_ok d' /\ guar now q H d d'.
Proof.
  intros Hq Hm K HK Hr Hl E Hpin. assert (Hc : channels d !! c = Some ch) by (apply (HK (FChannel c ch)); right; by left).
  destruct (Hm d ch x d' Hc E) as (-> & ? & ? & ? & ?). split; [by eapply channel_put_ok|].
  eapply put_guar; try done. exists a. split; [done|]. eapply row_entitled; [exact HK|by left|done].
Qed.

Lemma admin_change_txn q c a same set :
  asks_change q c a -> mild c set -> (forall d ch x d', channels d !! c = Some ch -> set d = Some (x, d') -> ch_PinnedMessageID x = ch_PinnedMessageID ch) ->
  safeL now q [] [] (admin_change c a same set).
Proof.
  intros Hq Hm Hp. apply sl_early; [apply guarded_nil|].
  apply (admin_txn _ c a channelRoleAdmin (fun locked _ => if negb (ch_Megagroup locked) then _ else _)).
  intros ch row Hr. destruct (ch_Megagroup ch); cbn [negb]; [|apply sl_reject, admin_guarded].
  destruct (same ch); [apply sl_commit_read, admin_guarded|]. apply sl_commit; [apply admin_guarded|].
  intros e d x d' _ K HK. unfold stmt. destruct (set d) as [[y d1]|] eqn:E; [|done]. intros [= <- <-].
  assert (Hc : channels d !! c = Some ch) by (apply (HK (FChannel c ch)); right; by left).
  eapply mild_safe; [done|done|done|exact HK|done|by left|exact E|]. intros l Hy. rewrite (Hp _ _ _ _ Hc E) in Hy.
  by apply (ok_pins _ K c ch).
Qed.

Lemma rights_txn c a rights : safeL now (ReqRights c a rights) [] [] (SetChannelDefaultBannedRights c a rights).
Proof.
  apply admin_change_txn; [done|..]; intros d ch x d' Hc; unfold q_SetChannelDefaultBannedRights; rewrite Hc; destruct (_ || _); try done;
    intros [= <- <-]; done.
Qed.

Lemma slow_txn c a s : safeL now (ReqSlowMode c a s) [] [] (SetChannelSlowMode c a s).
Proof.
  apply admin_change_txn; [done|..]; intros d ch x d' Hc; unfold q_SetChannelSlowMode; rewrite Hc; destruct (negb _); try done;
    intros [= <- <-]; done.
Qed.

Lemma leave_txn c u : safeL now (ReqLeave c u) [] [] (LeaveChannel c u).
Proof.
  apply sl_lock_channel; [apply guarded_nil|by apply sl_commit_read|]. intros ch.
  assert (G1 : guarded [ChannelRow c] [FChannel c ch]) by (apply guarded_cons; [by eapply keeper_in; [|left]|apply guarded_nil]).
  apply sl_read; [done|]. intros e d He K HK. unfold ChannelParticipantByUser.
  destruct (channel_participants d !! (c, u)) as [row|] eqn:E; [|eexists; split; [exact HK|by apply sl_commit_read]].
  destruct (Banned _ _) eqn:Eb; [eexists; split; [exact HK|by apply sl_commit_read]|].
  exists [FRow c u (p_role row)]. split.
  { apply knows_cons; [|apply facts_nil]. exists row. split_and!; [done|done|]. by eapply unbanned_le. }
  apply sl_commit; [apply guarded_cons; [by eapply keeper_in; [|left]|apply guarded_nil]|].
  intros e1 d1 x d' _ K1 HK1 [= <- <-]. split; [by apply delete_ok|]. apply delete_guar; [done|by left|].
  intros p Hp. destruct (HK1 (FRow c u (p_role row))) as (q & Hq & _ & Hu); [by left|]. by simplify_eq.
Qed.

Lemma pin_mild c pin : mild c (q_SetChannelPinnedMessage c pin).
Proof.
  intros d ch x d' Hc. unfold q_SetChannelPinnedMessage. rewrite Hc. destruct (_ =? _); [done|]. by intros [= <- <-].
Qed.

Lemma pin_writes_safe q c a role ch pin e d x d' :
  asks_change q c a -> chan_ok d -> knows now [FRow c a role; FChannel c ch] d -> channelRoleAdmin <= role ->
  (forall l, pin = Some l -> ChannelPostExistsActive c l d = true) ->
  pin_writes c pin e d = Ok (x, d') -> chan_ok d' /\ guar now q [ChannelRow c] d d'.
Proof.
  intros Hq K HK Hr Hpin. unfold pin_writes, stmt. destruct (q_SetChannelPinnedMessage c pin d) as [[y d1]|] eqn:E; [|done].
  intros [= <- <-]. eapply mild_safe; [done|apply pin_mild|done|exact HK|done|by left|exact E|].
  assert (Hc : channels d !! c = Some ch) by (apply (HK (FChannel c ch)); right; by left).
  unfold q_SetChannelPinnedMessage in E. rewrite Hc in E. destruct (_ =? _); [done|]. injection E as <- <-. done.
Qed.

Lemma pin_txn c a pin : safeL now (ReqPin c a pin) [] [] (SetChannelPinnedMessage c a pin).
Proof.
  apply sl_early; [apply guarded_nil|].
  apply (admin_txn _ c a channelRoleAdmin (fun _ _ => pin_post c pin)).
  intros ch row Hr. pose proof (admin_guarded c a (p_role row) ch) as Hg. destruct pin as [l|].
  - apply sl_query; [done|]. intros d _ HK. unfold ChannelMessageByLocal.
    destruct (channel_messages d !! (c, l)) as [p|] eqn:E; [|eexists; split; [exact HK|by apply sl_reject]].
    destruct (cm_Deleted p) eqn:Ed; [eexists; split; [exact HK|by apply sl_reject]|]. cbn [orb].
    destruct (Z.eqb_spec (cm_Action p) 0) as [Ea|]; cbn [negb]; [|eexists; split; [exact HK|by apply sl_reject]].
    exists (FPost c l :: [FRow c a (p_role row); FChannel c ch]). split.
    { apply knows_cons; [|done]. cbn. unfold ChannelPostExistsActive. by rewrite E, Ed, Ea. }
    apply sl_commit; [apply guarded_cons; [intros x Hx; by apply elem_of_nil in Hx|done]|].
    intros e d1 x d' _ K HK1. eapply pin_writes_safe; [done|done| |done|].
    + intros f Hf. apply HK1. by right.
    + intros l' [= <-]. apply (HK1 (FPost c l)). by left.
  - apply sl_commit; [done|]. intros e d x d' _ K HK. by eapply pin_writes_safe.
Qed.

(** *** Adding members *)

Lemma chosen_guarded held L ids :
  guarded held L -> (forall u, u ∈ ids -> Advisory u ∈ held) -> guarded held (map FJoined ids ++ L).
Proof.
  intros Hg Hu f [Hf|Hf]%elem_of_app; [|by apply Hg]. apply list_elem_of_fmap in Hf as (u & -> & Hin).
  eapply keeper_in; [done|by apply Hu].
Qed.

Lemma add_loop_txn q held c a role st n0 targets : forall taken seen chosen,
  let base := [FSeats c n0; FState c st; FRow c a role] in
  guarded held base -> ChannelRow c ∈ held -> StateRow c ∈ held ->
  (forall u, u ∈ targets -> Advisory u ∈ held) -> (forall u, u ∈ chosen -> Advisory u ∈ held) ->
  channelRoleAdmin <= role -> (exists us, q = ReqAdd c a us /\ (forall u, u ∈ targets -> u ∈ us) /\ forall u, u ∈ chosen -> u ∈ us) ->
  NoDup chosen -> (forall u, u ∈ chosen -> u ∈ seen) ->
  taken = n0 + len chosen -> (chosen = [] \/ taken <= defaultMaxChannelParticipants) ->
  safeL now q held (map (FAbsent c) chosen ++ map FJoined chosen ++ base) (add_loop c st taken seen targets chosen).
Proof.
  induction targets as [|u targets IH]; intros taken seen chosen base Hg Hcl Hsl Ht Hch Hr Hq Hnd Hseen Htk Hmax.
  all: assert (Hgall : guarded held (map (FAbsent c) chosen ++ map FJoined chosen ++ base)) by
    (intros f [Hf|Hf]%elem_of_app; [apply list_elem_of_fmap in Hf as (v & -> & _); by eapply keeper_in|];
     by apply (chosen_guarded held base chosen)).
  - cbn [add_loop]. apply sl_commit; [done|]. intros e d x d' _ K HK.
    destruct (seat_all _ _ _ _ _) as [[added d1]|y] eqn:E; [|done]. intros [= <- <-].
    assert (HF : forall f, f ∈ base -> holds_fact now f d) by (intros f Hf; apply HK; do 2 (apply elem_of_app; right); done).
    destruct (HF (FSeats c n0)) as [_ Hs]; [by left|].
    assert (Hst : channel_state d !! c = Some st) by (apply (HF (FState c st)); right; by left).
    assert (Had : entitled now d c a administrator).
    { eapply (row_entitled base); [exact HF|do 2 right; by left|done]. }
    pose proof (ok_seats _ K c) as Hsc.
    destruct (seat_all_ok c st (e_start e) (rev chosen) d added d1) as [K' G]; try done.
    + by rewrite Permutation_rev, rev_involutive.
    + intros v Hv. rewrite <- in_rev, <- list_elem_of_In in Hv || (apply list_elem_of_In, in_rev, list_elem_of_In in Hv).
      assert (HA : holds_fact now (FAbsent c v) d) by
        (apply HK, elem_of_app; left; apply list_elem_of_fmap; by exists v). by destruct HA.
    + intros v Hv. apply list_elem_of_In, in_rev, list_elem_of_In in Hv.
      assert (HJ : holds_fact now (FJoined v) d) by
        (apply HK, elem_of_app; right; apply elem_of_app; left; apply list_elem_of_fmap; by exists v). done.
    + unfold len in *. rewrite length_rev. destruct Hmax as [->|]; simpl; lia.
    + split; [done|]. eapply grown_guar; [exact G|done| |done|].
      * intros v Hv. apply list_elem_of_In, in_rev, list_elem_of_In in Hv. by apply Hch.
      * intros v Hv. apply list_elem_of_In, in_rev, list_elem_of_In in Hv.
        destruct Hq as (us & -> & _ & Hus). right. left. exists a, us. split_and!; [done|by apply Hus|done].
  - cbn [add_loop]. assert (Ht' : forall v, v ∈ targets -> Advisory v ∈ held) by (intros v Hv; apply Ht; by right).
    assert (Hq' : exists us, q = ReqAdd c a us /\ (forall v, v ∈ targets -> v ∈ us) /\ forall v, v ∈ chosen -> v ∈ us) by
      (destruct Hq as (us & -> & H1 & H2); exists us; split_and!; [done|intros v Hv; apply H1; by right|done]).
    case_bool_decide as Hin; [by apply IH|].
    assert (Hseen' : forall v, v ∈ chosen -> v ∈ ({[u]} ∪ seen : gset Z)) by (intros v Hv; specialize (Hseen v Hv); set_solver).
    apply sl_query; [done|]. intros d K HK. unfold ChannelParticipantByUser.
    destruct (channel_participants d !! (c, u)) as [row|] eqn:E; [eexists; split; [exact HK|by apply IH]|].
    destruct (Z.geb_spec taken defaultMaxChannelParticipants) as [|Hlt]; [eexists; split; [exact HK|by apply IH]|].
    exists (FAbsent c u :: map (FAbsent c) chosen ++ map FJoined chosen ++ base). split.
    { apply knows_cons; [|done]. split; [|done]. assert (HF : holds_fact now (FSeats c n0) d) by
        (apply HK; do 2 (apply elem_of_app; right); by left). by destruct HF. }
    apply sl_query; [apply guarded_cons; [by eapply keeper_in|done]|]. intros d1 K1 HK1. unfold CountChannelsForUser.
    destruct (Z.geb_spec (joined u (channel_participants d1)) defaultMaxChannelsPerUser) as [|Hlt1].
    { eexists (map (FAbsent c) chosen ++ map FJoined chosen ++ base). split; [intros f Hf; apply HK1; by right|by apply IH]. }
    exists (map (FAbsent c) (u :: chosen) ++ map FJoined (u :: chosen) ++ base). split.
    { intros f Hf. assert (HJu : holds_fact now (FJoined u) d1) by done. simpl in Hf.
      apply elem_of_cons in Hf as [->|Hf]; [apply HK1; by left|].
      apply elem_of_app in Hf as [Hf|[->|Hf]%elem_of_cons]; [|done|]; apply HK1; right; apply elem_of_app; [by left|by right]. }
    apply IH; try done.
    + intros v [->|Hv]%elem_of_cons; [apply Ht; by left|by apply Hch].
    + destruct Hq as (us & -> & H1 & H2). exists us. split_and!; [done|intros v Hv; apply H1; by right|].
      intros v [->|Hv]%elem_of_cons; [apply H1; by left|by apply H2].
    + apply NoDup_cons. split; [|done]. intros Hx. by apply Hin, Hseen.
    + intros v [->|Hv]%elem_of_cons; [set_solver|by apply Hseen'].
    + rewrite len_cons. lia.
    + right. lia.
Qed.

Lemma add_txn c a targets : safeL now (ReqAdd c a targets) [] [] (AddChannelMembers c a targets).
Proof.
  apply sl_early; [apply guarded_nil|].
  apply sl_lock_channel; [apply guarded_nil|by apply sl_reject|]. intros ch.
  apply sl_caller; [apply guarded_cons; [by eapply keeper_in; [|left]|apply guarded_nil]|by left|]. intros row Hr.
  pose proof (admin_guarded c a (p_role row) ch) as Hg.
  apply sl_lock; [done|]. intros e d _ _ HK.
  destruct (channel_state d !! c) as [st|] eqn:Es; [|eexists; split; [exact HK|apply sl_reject; by apply guarded_lock]].
  exists [FState c st; FRow c a (p_role row); FChannel c ch]. split; [by apply knows_cons|].
  assert (G1 : guarded [StateRow c; ChannelRow c] [FState c st; FRow c a (p_role row); FChannel c ch]) by
    (apply guarded_cons; [by eapply keeper_in; [|left]|by apply guarded_lock]).
  destruct (existsb _ targets); [by apply sl_reject|].
  apply sl_locking; [done|]. intros held Hsub Hu Hg'. apply sl_query; [done|]. intros d1 _ HK1.
  set (n := CountChannelParticipants c d1). exists [FSeats c n; FState c st; FRow c a (p_role row)].
  assert (Hex : is_Some (channels d1 !! c)) by (exists ch; apply (HK1 (FChannel c ch)); do 2 right; by left).
  split.
  { intros f [->|Hf]%elem_of_cons; [by split|]. apply HK1. set_solver. }
  apply (add_loop_txn (ReqAdd c a targets) held c a (p_role row) st n targets n ∅ []); try done.
  - apply guarded_cons; [eapply keeper_in; [done|apply Hsub; by left]|]. intros f Hf. apply Hg'. set_solver.
  - apply Hsub. right. by left.
  - apply Hsub. by left.
  - intros u Hx. by apply elem_of_nil in Hx.
  - exists targets. split_and!; [done|done|]. intros u Hx. by apply elem_of_nil in Hx.
  - constructor.
  - intros u Hx. by apply elem_of_nil in Hx.
  - unfold len. simpl. lia.
  - by left.
Qed.

Lemma invite_txn c u : safeL now (ReqInvite c u) [] [] (CreateChannelInvite c u).
Proof.
  apply sl_commit; [apply guarded_nil|]. intros e d a d' _ K _. destruct (e_bytes e) as [bs|]; [|done]. unfold stmt.
  destruct (InsertChannelInvite _ _ _ _ _) as [d1|] eqn:E; [|done]. intros [= <- <-]. by eapply insert_invite_safe.
Qed.

Lemma revoke_txn h c : safeL now (ReqRevoke h c) [] [] (RevokeChannelInvite h c).
Proof.
  apply sl_lock; [apply guarded_nil|]. intros e d _ _ _. exists []. split; [apply facts_nil|].
  apply sl_commit; [apply guarded_nil|]. intros e1 d1 a d' _ K _ [= <- <-]. apply revoke_safe; [done|by left].
Qed.

(** *** Posting, reading, renaming *)

Lemma post_rights_txn q held r k : (forall role, safeL now q held [] (k role)) -> safeL now q held [] (post_rights r k).
Proof.
  intros Hk. unfold post_rights. destruct (po_Check r); [|by apply Hk]. unfold checkPostRights.
  apply sl_read; [apply guarded_nil|]. intros e d _ _ _. exists []. split; [apply facts_nil|].
  destruct (ChannelParticipantByUser _ _ _); [|by apply sl_reject].
  destruct (Banned _ _); [by apply sl_reject|]. apply sl_query; [apply guarded_nil|]. intros d1 _ _. exists [].
  split; [apply facts_nil|]. destruct (ch_Megagroup <$> _); [|by apply sl_reject]. destruct (_ && _); [by apply sl_reject|done].
Qed.

Definition asks_post (q : request) (r : post_request) : Prop :=
  po_Check r = true /\ q = ReqPost (po_Channel r) (po_From r) (po_Text r) (po_RandomID r) (po_File r) (po_ReplyTo r).

Lemma post_commit_txn q held r reply :
  asks_post q r -> StateRow (po_Channel r) ∈ held -> safeL now q held [] (commit (post_writes r reply)).
Proof. intros [Hc Hq] Hl. apply sl_commit; [apply guarded_nil|]. intros e d a d' _ K _. by apply post_safe. Qed.

Lemma post_reply_txn q held r : asks_post q r -> StateRow (po_Channel r) ∈ held -> safeL now q held [] (post_reply r).
Proof.
  intros Hc Hl. unfold post_reply. destruct (po_ReplyTo r >? 0); [|by apply post_commit_txn].
  apply sl_query; [apply guarded_nil|]. intros d _ _. exists []. split; [apply facts_nil|].
  destruct (ChannelPostExistsActive _ _ _); cbn [negb]; [by apply post_commit_txn|by apply sl_reject].
Qed.

Lemma post_txn c u t rid f rep : safeL now (ReqPost c u t rid f rep) [] [] (PostChannelMessageAs c u t rid f rep).
Proof.
  unfold PostChannelMessageAs, postChannelMessage. set (r := mkPostReq c u t rid f rep true).
  destruct (_ || _); [by apply sl_reject|]. apply post_rights_txn. intros _.
  apply sl_query; [apply guarded_nil|]. intros d _ _. exists []. split; [apply facts_nil|].
  destruct (EnsureChannelState _ _); [|by apply sl_reject]. apply sl_lock; [apply guarded_nil|]. intros e1 d1 _ _ _.
  exists []. split; [apply facts_nil|].
  assert (Hrep : safeL now (ReqPost c u t rid f rep) [StateRow (po_Channel r)] [] (post_reply r)) by (apply post_reply_txn; [done|by left]).
  apply post_rights_txn. intros role.
  assert (Hres : safeL now (ReqPost c u t rid f rep) [StateRow (po_Channel r)] [] (post_restricted r role)).
  { unfold post_restricted. cbn [po_Check r]. apply sl_query; [apply guarded_nil|]. intros d2 _ _. exists [].
    split; [apply facts_nil|]. destruct (channels d2 !! _) as [ch|]; [|by apply sl_reject].
    destruct (_ && write_forbidden _ _ _ _); [by apply sl_reject|]. destruct (_ && _); [|done].
    apply sl_read; [apply guarded_nil|]. intros e3 d3 _ _ _. exists []. split; [apply facts_nil|].
    destruct (ChannelSlowModePostState _ _ _) as [[s [last|]]|]; [|done|by apply sl_reject].
    destruct (if s >? 0 then _ else _); [by apply sl_reject|done]. }
  unfold post_dedup. destruct (_ =? 0); [done|]. apply sl_query; [apply guarded_nil|]. intros d2 _ _. exists [].
  split; [apply facts_nil|]. destruct (ChannelMessageByRandomID _ _ _) as [[l m]|]; [|done].
  apply sl_query; [apply guarded_nil|]. intros d3 _ _. exists []. split; [apply facts_nil|].
  destruct (NewChannelPostPts _ _ _); [by apply sl_commit_read|by apply sl_reject].
Qed.

Lemma read_txn c u m : safeL now (ReqRead c u m) [] [] (ReadChannelHistory c u m).
Proof.
  unfold ReadChannelHistory. destruct (_ || _); [by apply sl_reject|]. destruct (m <? 0); [by apply sl_reject|].
  apply sl_early; [apply guarded_nil|].
  apply sl_lock_channel; [apply guarded_nil|by apply sl_reject|]. intros ch.
  apply sl_caller; [apply guarded_cons; [by eapply keeper_in; [|left]|apply guarded_nil]|by left|]. intros row Hr.
  pose proof (admin_guarded c u (p_role row) ch) as Hg.
  apply sl_lock; [done|]. intros e d _ _ HK.
  destruct (channel_state d !! c) as [st|] eqn:Es; [|eexists; split; [exact HK|apply sl_reject; by apply guarded_lock]].
  exists [FState c st; FRow c u (p_role row); FChannel c ch]. split; [by apply knows_cons|].
  apply sl_commit; [apply guarded_cons; [by eapply keeper_in; [|left]|by apply guarded_lock]|].
  intros e1 d1 a d' _ K HK1 [= <- <-]. destruct (_ >? 0); [|by split; [|apply chan_guar_refl]].
  assert (HF : holds_fact now (FRow c u (p_role row)) d1) by (apply HK1; right; by left).
  assert (HS : holds_fact now (FState c st) d1) by (apply HK1; by left).
  destruct HF as (p & Hp & _). split; [|apply advance_guar].
  eapply advance_ok; [done|by exists p|exact HS|]. lia.
Qed.

Lemma sl_lock_handles q hs : forall held L k, guarded held L ->
  (forall held', (forall l, l ∈ held -> l ∈ held') -> guarded held' L -> safeL now q held' L k) ->
  safeL now q held L (lock_handles hs k).
Proof.
  induction hs as [|h hs IH]; intros held L k Hg Hk; cbn [lock_handles]; [by apply Hk|].
  apply sl_lock; [done|]. intros e d _ _ HK. exists L. split; [done|]. apply IH; [by apply guarded_lock|].
  intros held' H1 H2. apply Hk; [|done]. intros l Hl. apply H1. by right.
Qed.

(** A rename, once what it needs is known under the locks held. *)
Lemma rename_txn q held L o ledger set_ledger id set window limit n : guarded held L ->
  (forall held' cutoff e d a d', (forall l, l ∈ held -> l ∈ held') -> chan_ok d -> knows now L d ->
     rename_writes o ledger set_ledger id set cutoff limit n e d = Ok (a, d') -> chan_ok d' /\ guar now q held' d d') ->
  safeL now q held L (rename o ledger set_ledger id set window limit n).
Proof.
  intros Hg Hw. apply sl_read; [done|]. intros e d _ _ HK. exists L. split; [done|]. clear d HK.
  apply sl_query; [done|]. intros d _ HK. exists L. split; [done|]. apply sl_lock_handles; [done|]. intros held' Hsub Hg'.
  destruct (String.eqb n ""); [|apply sl_lock; [done|]; intros e1 d1 _ _ HK1; exists L; split; [done|]].
  all: apply sl_commit; [by repeat apply guarded_lock|]; intros e2 d2 a d' _ K HK2; apply Hw; [|done|done].
  - done.
  - intros l Hl. right. by apply Hsub.
Qed.

Lemma channel_name_txn c a n : safeL now (ReqChannelName c a n) [] [] (EditChannelUsername c a n).
Proof.
  apply sl_lock; [apply guarded_nil|]. intros e d _ _ _. exists []. split; [apply facts_nil|].
  apply sl_lock_channel; [apply guarded_nil|by apply sl_reject|]. intros ch.
  apply sl_caller; [apply guarded_cons; [by eapply keeper_in; [|left]|apply guarded_nil]|by left|]. intros row Hr.
  apply rename_txn.
  { do 2 (apply guarded_cons; [by eapply keeper_in; [|left]|]). apply guarded_nil. }
  intros held' cutoff e1 d1 x d' Hsub K HK. apply channel_rename_safe; [done| |apply Hsub; by left|].
  - exists ch. apply (HK (FChannel c ch)). right. by left.
  - exists a. split; [done|]. eapply row_entitled; [exact HK|by left|done].
Qed.

(** Accounts are never removed, so the row read is there. *)
Lemma user_name_txn u n : safeL now (ReqUserName u n) [] [] (UpdateUsername u n).
Proof.
  apply sl_lock; [apply guarded_nil|]. intros e d _ _ _. exists []. split; [apply facts_nil|].
  apply sl_query; [apply guarded_nil|]. intros d1 _ _.
  destruct (users d1 !! u) as [r|] eqn:E; [|exists []; split; [apply facts_nil|by apply sl_reject]].
  exists [FUser u]. split; [apply knows_cons; [by exists r|apply facts_nil]|].
  assert (G1 : guarded [Advisory u] [FUser u]) by (apply guarded_cons; [intros l Hl; by apply elem_of_nil in Hl|apply guarded_nil]).
  cbn [fmap option_fmap option_map]. destruct (String.eqb _ _); [by apply sl_reject|]. apply rename_txn; [done|].
  intros held' cutoff e2 d2 a d' _ K HK E2. eapply user_rename_safe; [done| |exact E2]. apply (HK (FUser u)). by left.
Qed.

Lemma all_safe q : exists K, (forall d, chan_ok d -> K d) /\
  safe_tx chan_ok (guar now) (env_ok now) q [] K (transaction q).
Proof.
  exists (knows now []). split; [intros; apply facts_nil|].
  change (safeL now q [] [] (transaction q)).
  destruct q; cbn [transaction].
  - apply create_txn.
  - apply join_invite_txn.
  - apply join_username_txn.
  - apply add_txn.
  - apply role_txn.
  - apply ban_txn.
  - apply rights_txn.
  - apply slow_txn.
  - apply leave_txn.
  - apply pin_txn.
  - apply invite_txn.
  - apply revoke_txn.
  - apply post_txn.
  - apply read_txn.
  - apply channel_name_txn.
  - apply user_name_txn.
Qed.

End safe.
