(* ===== verification/ChannelLocks.v ===== *)
(** * Channels: the order of locks

    The lock order the head of [channels.go] describes: the invite row, the channel's own
    advisory lock, the channels row, the channel_state row, and last the accounts' advisory
    locks ascending.  Accounts and channels share the key space of advisory locks, so the
    order needs their ids apart.

    The handles come after all of these, in no order: a rename holds the handle it gives up
    and then waits for the one it wants, so two that swap handles wait for each other. *)

From S2P Require Import Prelude.
From S2P Require Import NetAddr.
From S2P Require Import GoStrings.
From S2P Require Import UpdateBatch.
From S2P Require Import Mailbox.
From S2P Require Import MsgStore.
From S2P Require Import MsgLogic.
From S2P Require Import MsgSafety.
From S2P Require Import LockedTx.
From S2P Require Import ChannelStore.
From S2P Require Import ChannelTx.
From S2P Require Import ChannelSafety.
From S2P Require Import ChannelRuns.
From Stdlib Require Import String Sorting.Sorted.

Open Scope Z_scope.

Definition level (l : lock) : Z :=
  match l with
  | InviteRow _ => 0
  | Advisory k => if k <? minChannelID then 4 else 1
  | ChannelRow _ => 2
  | StateRow _ => 3
  | NameRow _ => 5
  end.

Definition lock_key (l : lock) : Z := match l with Advisory k => k | _ => 0 end.

Definition below (a b : lock) : Prop := level a < level b \/ (level a = level b /\ lock_key a < lock_key b).

#[global] Instance below_strict : StrictOrder below.
Proof. split; [intros a [H|[_ H]]; lia|intros a b c; unfold below; lia]. Qed.

#[global] Instance below_dec : RelDecision below.
Proof. intros a b. unfold below. apply _. Defined.

(** Account ids come from a sequence, channel ids are drawn from [minChannelID] on. *)
Definition account_id (u : Z) : Prop := u < minChannelID.

Definition ids_apart (r : request) : Prop :=
  match r with
  | ReqCreate u _ _ _ | ReqJoinInvite _ u | ReqJoinUsername _ u | ReqUserName u _ => account_id u
  | ReqAdd _ _ us => Forall account_id us
  | ReqChannelName c _ _ => minChannelID <= c
  | _ => True
  end.

Definition starts_apart (p : ctxn) : Prop := exists r, ids_apart r /\ p = transaction r.

(** ** Every transaction climbs *)

Definition of_handle (l : lock) : Prop := match l with NameRow _ => True | _ => False end.

Lemma handles_last l l' : of_handle l -> below l l' -> False.
Proof.
  destruct l; try done. intros _. unfold below. destruct l' as [h'|c'|c'|k|h']; simpl; [lia|lia|lia| |lia].
  destruct (k <? minChannelID); lia.
Qed.

Abbreviation climbs := (ordered below of_handle).

Lemma o_reject held e : climbs held (reject_tx e).
Proof. done. Qed.

Lemma o_commit held f : climbs held (commit f).
Proof. done. Qed.

Lemma o_query {A} held (q : cdb -> A) k : (forall a, climbs held (k a)) -> climbs held (query q k).
Proof. intros Hk e d. apply Hk. Qed.

Lemma o_lock held l (k : env -> cdb -> ctxn) : (forall l', l' ∈ held -> level l' < level l) ->
  (forall e d, climbs (l :: held) (k e d)) -> climbs held (Lock l k).
Proof. intros Hl Hk. split; [|done]. right. right. intros l' Hin. left. by apply Hl. Qed.

Lemma o_early held c a k : climbs held k -> climbs held (early_member c a k).
Proof. intros Hk. apply o_query. intros m. by destruct m. Qed.

Lemma o_lock_channel held c gone k : (forall l', l' ∈ held -> level l' < 2) ->
  climbs (ChannelRow c :: held) gone -> (forall ch, climbs (ChannelRow c :: held) (k ch)) ->
  climbs held (lock_channel c gone k).
Proof. intros Hl Hg Hk. apply o_lock; [done|]. intros e d. by destruct (channels d !! c). Qed.

Lemma o_caller held c a floor k : (forall row, climbs held (k row)) -> climbs held (caller_row c a floor k).
Proof.
  intros Hk e d. destruct (ChannelParticipantByUser c a d) as [row|]; [|done]. by destruct (_ || _).
Qed.

(** Ascending account locks, above everything else. *)
Lemma o_lock_owners ids : forall held k,
  StronglySorted Z.lt ids -> Forall account_id ids ->
  (forall l, l ∈ held -> level l < 4 \/ (level l = 4 /\ Forall (fun u => lock_key l < u) ids)) ->
  (forall held', (forall l, l ∈ held' -> l ∈ held \/ exists u, u ∈ ids /\ l = Advisory u) -> climbs held' k) ->
  climbs held (lock_owners ids k).
Proof.
  induction ids as [|u ids IH]; intros held k Hs Ha Hl Hk; cbn [lock_owners].
  - apply Hk. by left.
  - apply StronglySorted_inv in Hs as [Hs Hu]. apply Forall_cons in Ha as [Hau Ha]. unfold account_id in Hau.
    assert (Hlu : level (Advisory u) = 4) by (cbn; destruct (Z.ltb_spec u minChannelID); [done|lia]).
    split.
    + right. right. intros l Hin. destruct (Hl l Hin) as [Hlt|[He Hf]]; [left; lia|]. right. rewrite Hlu.
      split; [done|]. by apply Forall_cons in Hf as [Hf _].
    + intros _ _. apply IH; [done|done| |].
      * intros l [->|Hin]%elem_of_cons; [by right|]. destruct (Hl l Hin) as [Hlt|[He Hf]]; [by left|right].
        split; [done|]. by apply Forall_cons in Hf as [_ Hf].
      * intros held' Hh. apply Hk. intros l Hin. destruct (Hh l Hin) as [[->|Hx]%elem_of_cons|(v & Hv & ->)].
        -- right. exists u. split; [by left|done].
        -- by left.
        -- right. exists v. split; [by right|done].
Qed.

Lemma o_locking ids held k : Forall account_id ids -> (forall l, l ∈ held -> level l < 4) ->
  (forall held', climbs held' k) -> climbs held (locking ids k).
Proof.
  intros Ha Hl Hk. apply o_lock_owners; [apply ascendingUnique_sorted| | |auto].
  - apply Forall_forall. intros u. rewrite elem_of_ascendingUnique. by apply Forall_forall.
  - intros l Hin. left. by apply Hl.
Qed.

Lemma o_take_seat c u ch st held : account_id u -> (forall l, l ∈ held -> level l < 4) -> climbs held (take_seat c u ch st).
Proof.
  intros Hu Hl. apply o_query. intros n. destruct (_ >=? _); [done|]. apply o_locking; [by repeat constructor|done|].
  intros held'. apply o_query. intros m. by destruct (_ >=? _).
Qed.

Lemma o_begin c a u k : (forall x y, climbs [ChannelRow c] (k x y)) -> climbs [] (beginChannelMutation c a u k).
Proof.
  intros Hk. unfold beginChannelMutation. destruct (a =? u); [done|]. apply o_early, o_lock_channel; [|done|].
  - intros l Hl. by apply elem_of_nil in Hl.
  - intros ch. apply o_caller. intros row. apply o_query. intros t. by destruct t.
Qed.

Lemma o_add_loop c st targets : forall taken seen chosen held, climbs held (add_loop c st taken seen targets chosen).
Proof.
  induction targets as [|u targets IH]; intros taken seen chosen held; cbn [add_loop]; [done|].
  destruct (bool_decide _); [done|]. apply o_query. intros row. destruct row; [done|]. destruct (_ >=? _); [done|].
  apply o_query. intros n. by destruct (_ >=? _).
Qed.

Lemma o_post_rights held r k : (forall role, climbs held (k role)) -> climbs held (post_rights r k).
Proof.
  intros Hk. unfold post_rights. destruct (po_Check r); [|done]. intros e d.
  destruct (ChannelParticipantByUser _ _ _); [|done]. destruct (Banned _ _); [done|]. apply o_query. intros m.
  destruct m; [|done]. by destruct (_ && _).
Qed.

Lemma o_post_reply held r : climbs held (post_reply r).
Proof. unfold post_reply. destruct (_ >? _); [|done]. apply o_query. intros t. by destruct t. Qed.

Lemma o_post_dedup held r role : climbs held (post_dedup r role).
Proof.
  assert (Hr : climbs held (post_restricted r role)).
  { unfold post_restricted. destruct (po_Check r); [|apply o_post_reply]. apply o_query. intros ch. destruct ch; [|done].
    destruct (_ && write_forbidden _ _ _ _); [done|]. destruct (_ && _); [|apply o_post_reply]. intros e d.
    destruct (ChannelSlowModePostState _ _ _) as [[s [t|]]|]; [|apply o_post_reply|done].
    destruct (if s >? 0 then _ else _); [done|apply o_post_reply]. }
  unfold post_dedup. destruct (_ =? 0); [done|]. apply o_query. intros x. destruct x as [[l m]|]; [|done].
  apply o_query. intros p. by destruct p.
Qed.

Ltac nothing := let l := fresh in let H := fresh in intros l H; by apply elem_of_nil in H.

Lemma state_above c : forall l, l ∈ [ChannelRow c] -> level l < 3.
Proof. intros l [->|Hl]%elem_of_cons; [done|by apply elem_of_nil in Hl]. Qed.

Lemma accounts_above c x : level x < 4 -> forall l, l ∈ [StateRow c; x] -> level l < 4.
Proof. intros Hx l [->|[->|Hl]%elem_of_cons]%elem_of_cons; [done|done|by apply elem_of_nil in Hl]. Qed.

Lemma o_join_invite h u : account_id u -> climbs [] (JoinChannelByInvite h u).
Proof.
  intros Hu. apply o_lock; [nothing|]. intros _ d. destruct (ChannelInviteByHash h d) as [i|]; [|done].
  apply o_lock; [intros l [->|Hl]%elem_of_cons; [done|by apply elem_of_nil in Hl]|]. intros _ d1.
  destruct (channel_state d1 !! _) as [st|]; [|done]. apply o_query. intros ch. destruct ch; [|done].
  apply o_query. intros row. destruct row; [done|]. apply o_take_seat; [done|]. by apply accounts_above.
Qed.

Lemma o_join_username c u : account_id u -> climbs [] (JoinChannelByUsername c u).
Proof.
  intros Hu. apply o_lock; [nothing|]. intros _ d. destruct (channel_state d !! c) as [st|]; [|done].
  apply o_query. intros ch. destruct ch as [ch|]; [|done]. destruct (is_public ch); [|done]. intros e d1.
  destruct (ChannelParticipantByUser _ _ _); [by destruct (Banned _ _)|]. apply o_take_seat; [done|].
  intros l [->|Hl]%elem_of_cons; [done|by apply elem_of_nil in Hl].
Qed.

Lemma o_add c a us : Forall account_id us -> climbs [] (AddChannelMembers c a us).
Proof.
  intros Hu. apply o_early, o_lock_channel; [nothing|done|]. intros ch. apply o_caller. intros row.
  apply o_lock; [apply state_above|]. intros _ d. destruct (channel_state d !! c); [|done]. destruct (existsb _ _); [done|].
  apply o_locking; [done|by apply accounts_above|]. intros held'. apply o_query. intros n. apply o_add_loop.
Qed.

Lemma o_admin_change c a same set : climbs [] (admin_change c a same set).
Proof.
  apply o_early, o_lock_channel; [nothing|done|]. intros ch. apply o_caller. intros row.
  destruct (negb _); [done|]. by destruct (same ch).
Qed.

Lemma o_lock_handles hs : forall held k, (forall held', climbs held' k) -> climbs held (lock_handles hs k).
Proof. induction hs as [|h hs IH]; intros held k Hk; [apply Hk|]. split; [right; by left|]. intros _ _. by apply IH. Qed.

Lemma o_rename held o ledger set_ledger id set window limit n : climbs held (rename o ledger set_ledger id set window limit n).
Proof.
  intros e d. apply o_query. intros hs. apply o_lock_handles. intros held'. destruct (String.eqb _ _); [done|].
  split; [right; by left|done].
Qed.

Lemma all_ordered r : ids_apart r -> climbs [] (transaction r).
Proof.
  destruct r; cbn [ids_apart transaction]; intros Hr.
  - apply o_locking; [by repeat constructor|nothing|]. intros held'. apply o_query. intros n. by destruct (_ >=? _).
  - by apply o_join_invite.
  - by apply o_join_username.
  - by apply o_add.
  - unfold SetChannelRole. destruct (_ && _); [done|]. apply o_begin. intros x y. by destruct (_ || _).
  - apply o_begin. intros x y. by destruct (negb _).
  - apply o_admin_change.
  - apply o_admin_change.
  - apply o_lock_channel; [nothing|done|]. intros ch e d. destruct (ChannelParticipantByUser _ _ _); [|done].
    by destruct (Banned _ _).
  - apply o_early, o_lock_channel; [nothing|done|]. intros ch. apply o_caller. intros row. unfold pin_post.
    destruct pin; [|done]. apply o_query. intros p. destruct p; [|done]. by destruct (_ || _).
  - done.
  - by apply o_lock; [nothing|].
  - unfold PostChannelMessageAs, postChannelMessage. destruct (_ || _); [done|]. apply o_post_rights. intros _.
    apply o_query. intros x. destruct x; [|done]. apply o_lock; [nothing|]. intros _ _. apply o_post_rights. intros role.
    apply o_post_dedup.
  - unfold ReadChannelHistory. destruct (_ || _); [done|]. destruct (_ <? _); [done|]. apply o_early, o_lock_channel; [nothing|done|].
    intros ch. apply o_caller. intros row. apply o_lock; [apply state_above|]. intros _ d. by destruct (channel_state d !! c).
  - apply o_lock; [nothing|]. intros _ _. apply o_lock_channel; [|done|intros ch; apply o_caller; intros row; apply o_rename].
    intros l [->|Hl]%elem_of_cons; [|by apply elem_of_nil in Hl]. cbn. destruct (Z.ltb_spec c minChannelID); lia.
  - apply o_lock; [nothing|]. intros _ _. apply o_query. intros m. destruct m; [|done]. destruct (String.eqb _ _); [done|apply o_rename].
Qed.

(** The [i]-th transaction waits for a handle that the [j]-th is giving up or taking. *)
Definition waits_handle (ts : list (thread lock cdb env tx_answer)) (i j : nat) : Prop :=
  exists held h k t, ts !! i = Some (Running held (Lock (NameRow h) k)) /\ ts !! j = Some t /\ NameRow h ∈ holds t /\ j <> i.

Lemma waits_waits_handle ts i j : waits of_handle ts i j -> waits_handle ts i j.
Proof.
  intros (held & l & k & t & Hi & Hl & Hj & Hin & Hne). destruct l as [| | | |h]; try done. by exists held, h, k, t.
Qed.

(** C24 (liveness).  The one deadlock of the channel transactions is that of renames which
    want each other's handles: as long as account ids stay below the channel ids, in every
    reachable situation with a transaction still running, some transaction has its next step
    to take, unless there is a ring of renames each of which waits for a handle that the
    next one has locked.  The waits are those for the rows, advisory locks and handles that
    ChannelTx.v shows. *)
Theorem deadlocks_are_rename_rings ok d0 c i held p :
  tx_reach starts_apart ok d0 c -> c.2 !! i = Some (Running held p) ->
  (exists j, enabled j c.2 = true) \/ exists j, tc (waits_handle c.2) j j.
Proof.
  intros R Hi. destruct (orderly_enabled below of_handle handles_last c.2 i held p) as [He|[j Hj]]; [|done|by left|right].
  - eapply reach_orderly; [|exact R]. intros q [r [Hr ->]]. by apply all_ordered.
  - exists j. eapply (tc_congruence (fun x => x) (waits_handle c.2)); [|exact Hj]. intros a b. apply waits_waits_handle.
Qed.
