(* ===== verification/ChannelGuarantees.v ===== *)
(** * Channels: what holds of every run

    The theorems about transactions that run at once: the bounds on members, the log, who
    may change what, and how an account gets into a channel. *)

From S2P Require Import Prelude.
From S2P Require Import NetAddr.
From S2P Require Import GoStrings.
From S2P Require Import UpdateBatch.
From S2P Require Import Mailbox.
From S2P Require Import MsgStore.
From S2P Require Import LockedTx.
From S2P Require Import ChannelStore.
From S2P Require Import ChannelTx.
From S2P Require Import ChannelSafety.
From S2P Require Import ChannelWrites.
From S2P Require Import ChannelNames.
From S2P Require Import ChannelRuns.
From Stdlib Require Import String.

Open Scope Z_scope.

(** A run from [d0] in which no clock is read past [now]; and with the requests served, the
    [i]-th of them by the [i]-th transaction. *)
Definition run_to (now : Z) (d0 : cdb) : cdb * list (thread lock cdb env tx_answer) -> Prop :=
  tx_reach starts (env_ok now) d0.

Definition serving (now : Z) (d0 : cdb) : list request -> cdb * list (thread lock cdb env tx_answer) -> Prop :=
  served transaction (env_ok now) d0.

Definition step_by (now : Z) : relation (cdb * list (thread lock cdb env tx_answer)) := tx_step starts (env_ok now).

Lemma serving_ok now d0 qs c : chan_ok d0 -> serving now d0 qs c -> txs_inv chan_ok (guar now) (env_ok now) qs c.
Proof. intros K R. eapply served_inv; [apply all_safe|done|exact R]. Qed.

(** Every run serves some requests. *)
Lemma run_serving now d0 c : run_to now d0 c -> exists qs, serving now d0 qs c.
Proof. apply reach_served. Qed.

Lemma run_ok now d0 c : chan_ok d0 -> run_to now d0 c -> chan_ok c.1.
Proof. intros K [qs R]%run_serving. by apply (serving_ok now d0 qs c). Qed.

Lemma run_step now d0 c c' : run_to now d0 c -> step_by now c c' -> run_to now d0 c'.
Proof. intros R S. eapply rtc_r; [exact R|exact S]. Qed.

Lemma serving_step now d0 qs c c' : serving now d0 qs c -> step_by now c c' -> exists qs', serving now d0 qs' c'.
Proof.
  intros R [(p & [q ->] & ->)|S]%tx_step_cases; [|exists qs; by eapply sv_step].
  exists (qs ++ [q]). apply sv_arrive. by destruct c.
Qed.

(** What a step changes is what the request it ends may do. *)
Lemma serving_guar now d0 qs c c' :
  chan_ok d0 -> serving now d0 qs c -> step_by now c c' ->
  c'.1 = c.1 \/ exists q H, ends qs c c' q /\ guar now q H c.1 c'.1.
Proof. intros K R S. eapply tx_step_guar; [by eapply serving_ok|exact S]. Qed.

Lemma step_guar now d0 c c' : chan_ok d0 -> run_to now d0 c -> step_by now c c' -> exists q H, guar now q H c.1 c'.1.
Proof.
  intros K [qs R]%run_serving S. destruct (serving_guar _ _ _ _ _ K R S) as [->|(q & H & _ & G)]; [|by exists q, H].
  exists (ReqLeave 0 0), []. apply chan_guar_refl.
Qed.

(** Along a run, by one step at a time. *)
Lemma run_preserves now d0 (P : cdb -> cdb -> Prop) c c' :
  chan_ok d0 -> run_to now d0 c -> (forall d, P d d) -> (forall a b d, P a b -> P b d -> P a d) ->
  (forall q H d d', chan_ok d -> chan_ok d' -> guar now q H d d' -> P d d') ->
  rtc (step_by now) c c' -> P c.1 c'.1.
Proof.
  intros K R Hr Ht Hg S. induction S as [c|c c1 c2 S1 _ IH]; [done|].
  assert (R1 : run_to now d0 c1) by (by eapply run_step).
  destruct (step_guar _ _ _ _ K R S1) as (q & H & G). eapply Ht; [|by apply IH].
  eapply Hg; [by apply (run_ok _ _ _ K R)|by apply (run_ok _ _ _ K R1)|exact G].
Qed.

(** C9 (bounds).  The caps on participants of a channel and on channels of an account hold
    at every moment of every run, however joins, additions, creations and departures
    interleave. *)
Theorem channel_caps_hold now d0 c :
  chan_ok d0 -> run_to now d0 c ->
  (forall ch, CountChannelParticipants ch c.1 <= defaultMaxChannelParticipants) /\
  (forall u, CountChannelsForUser u c.1 <= defaultMaxChannelsPerUser).
Proof.
  intros K R. pose proof (run_ok _ _ _ K R) as Kc. split; [apply (ok_seats _ Kc)|apply (ok_joined _ Kc)].
Qed.

(** C13 (invariant).  A channel's log is exact at every moment: one new-message event for every
    pts up to the channel's, each naming the post of that number, posts numbered without
    gaps, no token used twice; and it only grows, the posts in it never changing. *)
Theorem channel_log_exact now d0 c c' ch st :
  chan_ok d0 -> run_to now d0 c -> rtc (step_by now) c c' -> channel_state c.1 !! ch = Some st ->
  (forall k, channel_events c.1 !! (ch, k) =
     if (1 <=? k) && (k <=? st_pts st) then Some (EventNewMessage, k) else None) /\
  (forall l, is_Some (channel_messages c.1 !! (ch, l)) <-> 1 <= l <= st_pts st) /\
  (forall l l' m m', channel_messages c.1 !! (ch, l) = Some m -> channel_messages c.1 !! (ch, l') = Some m' ->
     cm_RandomID m = cm_RandomID m' -> cm_RandomID m <> 0 -> l = l') /\
  (exists st', channel_state c'.1 !! ch = Some st' /\ st_pts st <= st_pts st') /\
  (forall l m, channel_messages c.1 !! (ch, l) = Some m -> channel_messages c'.1 !! (ch, l) = Some m).
Proof.
  intros K R S Hst. pose proof (run_ok _ _ _ K R) as Kc. destruct (ok_log _ Kc ch st Hst) as [L1 L2 L3 L4].
  split_and!; [done|done|apply (ok_tokens _ Kc)| |].
  - assert (P : forall ch st, channel_state c.1 !! ch = Some st -> exists st', channel_state c'.1 !! ch = Some st' /\ st_pts st <= st_pts st').
    { eapply (run_preserves now d0 (fun a b => forall ch st, channel_state a !! ch = Some st ->
        exists st', channel_state b !! ch = Some st' /\ st_pts st <= st_pts st') c c'); [done|done| | | |exact S].
      - intros d x s Hs. exists s. split; [done|lia].
      - intros a b d H1 H2 x s Hs. destruct (H1 x s Hs) as (s1 & Hs1 & ?). destruct (H2 x s1 Hs1) as (s2 & Hs2 & ?).
        exists s2. split; [done|lia].
      - intros q H d d' _ _ G x s Hs. destruct (g_state _ _ _ _ _ G x s Hs) as (s' & ? & ? & _). by exists s'. }
    by apply P.
  - eapply (run_preserves now d0 (fun a b => forall l m, channel_messages a !! (ch, l) = Some m ->
        channel_messages b !! (ch, l) = Some m) c c'); [done|done|done|by auto| |exact S].
    intros q H d d' _ _ G l m. apply (g_posts _ _ _ _ _ G).
Qed.

(** C3 (safety).  Whatever runs at once, a participant's row and a channel's settings change
    only by the request of somebody who may: the step that changes them is the end of a
    transaction, and the request it serves is the one that asks for this change, made by a
    caller whose own row carries the right at that moment.  A role changes only by a request
    of the channel's unbanned creator that names this other member and this role, and never
    to or from creator; a ban is set or lifted only by a request of an unbanned creator, or
    of an unbanned administrator about a plain member, that names this other member and this
    ban, never about the creator; a row goes away only by its own account's request to leave,
    and only when it is not banned, so a ban outlives leaving; the pts a member joined at
    never changes; and the channel's row changes only by a request about it of an unbanned
    administrator or creator.  Authority is that of the moment of the change, not of when
    the request came in. *)
Theorem rights_need_authority now d0 qs c c' ch u p :
  chan_ok d0 -> serving now d0 qs c -> step_by now c c' -> channel_participants c.1 !! (ch, u) = Some p ->
  (channel_participants c'.1 !! (ch, u) = None -> ends qs c c' (ReqLeave ch u) /\ unbanned now u p) /\
  (forall p', channel_participants c'.1 !! (ch, u) = Some p' ->
     p_join_pts p' = p_join_pts p /\
     (p_role p' <> p_role p -> exists a,
        ends qs c c' (ReqRole ch a u (p_role p')) /\ a <> u /\
        entitled now c.1 ch a (fun r => r = channelRoleCreator) /\
        p_role p <> channelRoleCreator /\ p_role p' <> channelRoleCreator) /\
     (p_banned_until p' <> p_banned_until p -> exists a t forever,
        ends qs c c' (ReqBan ch a u t forever) /\ p_banned_until p' = ban_of t forever /\ a <> u /\
        entitled now c.1 ch a (fun r => may_ban r (p_role p) = true) /\ p_role p <> channelRoleCreator)) /\
  (forall x x', channels c.1 !! ch = Some x -> channels c'.1 !! ch = Some x' -> x' <> x -> exists q a,
     ends qs c c' q /\ asks_change q ch a /\ entitled now c.1 ch a administrator).
Proof.
  intros K R S Hp. destruct (serving_guar _ _ _ _ _ K R S) as [E|(q & H & Hq & G)].
  { rewrite E. split_and!; [congruence| |congruence]. intros p' Hp'. by simplify_eq. }
  pose proof (g_row _ _ _ _ _ G ch u p Hp) as Hrow. split_and!.
  - intros Hn. rewrite Hn in Hrow. by destruct Hrow as (_ & ? & <-).
  - intros p' Hp'. rewrite Hp' in Hrow. destruct Hrow as [Hj _ Hr Hb]. split_and!; [done| |].
    + intros Hne. destruct Hr as [|(_ & Hc & Hn & a & -> & Ha & He)]; [done|]. exists a. split_and!; try done.
      unfold channelRoleMember, channelRoleAdmin, channelRoleCreator in *. lia.
    + intros Hne. destruct Hb as [|(_ & a & t & forever & -> & Hb & Ha & He)]; [done|]. exists a, t, forever.
      split_and!; try done. destruct He as (pa & _ & _ & Hm). intros E. unfold may_ban in Hm. by rewrite E, Z.eqb_refl in Hm.
  - intros x x' Hx Hx' Hne. destruct (g_channel _ _ _ _ _ G ch x Hx) as (y & Hy & _ & _ & [E|[_ (a & Ha & He)]]); [congruence|].
    by exists q, a.
Qed.

(** C7 (safety).  An account gets a row in a channel only unbanned, and only by one of these:
    its own request that created the channel, as the creator; or, in an existing channel, as
    a plain member seated at the channel's current pts, by its own request to join with an
    invite to this channel that is not revoked at that moment, by a request to add it whose
    caller's own row is at that moment that of an unbanned administrator or creator, or by
    its own request to join a channel that has had a public username. *)
Theorem admission_needs_evidence now d0 qs c c' ch u p :
  chan_ok d0 -> serving now d0 qs c -> step_by now c c' ->
  channel_participants c.1 !! (ch, u) = None -> channel_participants c'.1 !! (ch, u) = Some p ->
  p_banned_until p = None /\ exists q, ends qs c c' q /\
  ((channels c.1 !! ch = None /\ p_role p = channelRoleCreator /\ minChannelID <= ch <= maxChannelID /\
      (exists t a m, q = ReqCreate u t a m) /\ exists x, channels c'.1 !! ch = Some x /\ ch_CreatorID x = u) \/
   (p_role p = channelRoleMember /\ (exists st, channel_state c.1 !! ch = Some st /\ p_join_pts p = st_pts st) /\
    ((exists h i, q = ReqJoinInvite h u /\ channel_invites c.1 !! h = Some i /\ i_channel i = ch /\ i_revoked i = None) \/
     (exists a us, q = ReqAdd ch a us /\ u ∈ us /\ entitled now c.1 ch a administrator) \/
     (q = ReqJoinUsername ch u /\ ch ∈ opened c.1)))).
Proof.
  intros K R S Hn Hp. destruct (serving_guar _ _ _ _ _ K R S) as [E|(q & H & Hq & G)]; [congruence|].
  destruct (g_seat _ _ _ _ _ G ch u p Hn Hp) as [_ Hb [(Hc & Hr & _ & Hcr)|(_ & Hr & Ha & Hs)]];
    (split; [done|]); exists q; (split; [done|]); [left|by right].
  destruct (serving_step _ _ _ _ _ R S) as [qs' R']. destruct (serving_ok _ _ _ _ K R') as (Kc & _).
  destruct (ok_rows _ Kc ch u p Hp) as (x & st & Hx & _ & _ & _ & Hrole).
  assert (Hid : minChannelID <= ch <= maxChannelID) by (apply (g_fresh _ _ _ _ _ G ch Hc); by exists x).
  split_and!; try done; try lia. exists x. split; [done|]. rewrite Hr in Hrole. by destruct Hrole as [?|[?|[_ ->]]].
Qed.

(** Handles are exact at every moment: a handle resolves to a channel just
    when the channel's row carries it, and to an account just when the account's does, so no
    two owners ever share one; a channel is marked discoverable just when it has one; and a
    pinned message is one that can be shown, not a deleted one or a service message. *)
Theorem handles_in_step now d0 c :
  chan_ok d0 -> run_to now d0 c ->
  (forall h ch, usernames c.1 !! h = Some (OfChannel ch) <->
     exists x, channels c.1 !! ch = Some x /\ ch_Username x = Some h) /\
  (forall h u, usernames c.1 !! h = Some (OfUser u) <->
     exists r, users c.1 !! u = Some r /\ u_username r = Some h) /\
  (forall ch x, channels c.1 !! ch = Some x ->
     ch_publicly_discoverable x = bool_decide (is_Some (ch_Username x)) /\
     (forall l, ch_PinnedMessageID x = Some l -> ChannelPostExistsActive ch l c.1 = true)).
Proof.
  intros K R. pose proof (run_ok _ _ _ K R) as Kc.
  split_and!; [apply (ok_channel_names _ Kc)|apply (ok_user_names _ Kc)|].
  intros ch x Hx. split; [by apply (ok_public _ Kc ch)|]. intros l. by apply (ok_pins _ Kc).
Qed.

(** A member's read mark never passes the newest post and never moves back
    while the membership lasts. *)
Theorem read_marks_advance now d0 c c' ch u r :
  chan_ok d0 -> run_to now d0 c -> step_by now c c' -> channel_read_state c.1 !! (ch, u) = Some r ->
  (exists st, channel_state c.1 !! ch = Some st /\ 0 <= r <= st_next st - 1) /\
  (is_Some (channel_participants c'.1 !! (ch, u)) ->
     exists r', channel_read_state c'.1 !! (ch, u) = Some r' /\ r <= r').
Proof.
  intros K R S Hr. pose proof (run_ok _ _ _ K R) as Kc. destruct (step_guar _ _ _ _ K R S) as (q & H & G). split.
  - destruct (ok_reads _ Kc ch u r Hr) as [_ (st & Hst & Hb)]. exists st. split; [done|].
    rewrite (lo_next _ _ _ (ok_log _ Kc ch st Hst)). lia.
  - intros [p Hp]. destruct (g_read _ _ _ _ _ G ch u r Hr) as [Hn|Hx]; [congruence|done].
Qed.
