(* ===== verification/ChannelExact.v ===== *)
(** * Channels: what one request does

    The outcome of a change of rights and of a post, when nothing else runs meanwhile:
    when it succeeds, what exactly it writes, and that every refusal writes nothing. *)

From S2P Require Import Prelude.
From S2P Require Import NetAddr.
From S2P Require Import UpdateBatch.
From S2P Require Import GoStrings.
From S2P Require Import Mailbox.
From S2P Require Import MsgStore.
From S2P Require Import LockedTx.
From S2P Require Import ChannelStore.
From S2P Require Import ChannelTx.
From S2P Require Import ChannelSafety.
From S2P Require Import ChannelWrites.
From S2P Require Import ChannelRuns.
From S2P Require Import ChannelLocks.
From S2P Require Import ChannelGuarantees.
From Stdlib Require Import String.

Open Scope Z_scope.

(** The clocks of the server and of the database stand at [t] and [clock]. *)
Definition at_time (t clock : Z) (e : env) : Prop := e_now e = t /\ e_clock e = clock.

(** ** Roles and bans *)

(** The rule set: who may act on whom, as of [t]. *)
Definition acts_on (d : cdb) (c a u t : Z) (good : Z -> Z -> bool) : bool :=
  negb (a =? u) &&
  match channels d !! c, channel_participants d !! (c, a), channel_participants d !! (c, u) with
  | Some _, Some pa, Some pu => negb (Banned (channelMemberFromRow a pa) t) && good (p_role pa) (p_role pu)
  | _, _, _ => false
  end.

Definition promotes (role : Z) (caller target : Z) : bool :=
  ((role =? channelRoleMember) || (role =? channelRoleAdmin)) &&
  (caller =? channelRoleCreator) && negb (target =? channelRoleCreator) && negb (target =? role).

Lemma begin_exact d c a u t clock good k Q :
  chan_ok d ->
  (acts_on d c a u t good = false -> Q (Err ErrNotMember) d) ->
  (forall pa pu, channel_participants d !! (c, a) = Some pa -> channel_participants d !! (c, u) = Some pu ->
     acts_on d c a u t good = good (p_role pa) (p_role pu) -> wpt (at_time t clock) d (k pa pu) Q) ->
  wpt (at_time t clock) d (beginChannelMutation c a u k) Q.
Proof.
  intros K Hno Hk. unfold beginChannelMutation. unfold acts_on in *.
  destruct (a =? u); [intros e He; by apply Hno|]. cbn [negb andb] in *.
  intros e0 _. unfold IsChannelMember. cbn beta.
  destruct (channel_participants d !! (c, a)) as [pa|] eqn:Ea.
  2:{ rewrite bool_decide_false by (by intros [? ?]). intros e1 _. apply Hno. by destruct (channels d !! c). }
  rewrite bool_decide_true by (by exists pa). cbn [negb].
  destruct (ok_rows _ K c a pa Ea) as (ch & st & Hch & _ & _ & _ & Hrole). rewrite Hch in *.
  intros e1 _. cbn beta. rewrite Hch. intros e2 [E2 _]. unfold ChannelParticipantByUser. rewrite Ea, E2.
  destruct (Z.ltb_spec (p_role pa) channelRoleMember) as [Hlt|_].
  { exfalso. unfold role_ok, channelRoleMember, channelRoleAdmin, channelRoleCreator in *. lia. }
  cbn [orb]. destruct (Banned _ t) eqn:Eb.
  { intros e3 _. apply Hno. by destruct (channel_participants d !! (c, u)). }
  intros e3 _. cbn beta. destruct (channel_participants d !! (c, u)) as [pu|] eqn:Eu; [|intros e4 _; by apply Hno].
  by apply Hk.
Qed.

Lemma one_row_exact d c u f t clock pu Q :
  channel_participants d !! (c, u) = Some pu -> Q (Ok ADone) (alter_participant c u f d).2 ->
  wpt (at_time t clock) d (one_row (alter_participant c u f)) Q.
Proof.
  intros Hu HQ e _. cbn [fst snd]. destruct (alter_participant c u f d) as [n d'] eqn:E.
  unfold alter_participant, IsChannelMember in E. rewrite Hu, bool_decide_true in E by (by exists pu). by simplify_eq.
Qed.

(** The rule set of roles and bans is exactly what the two operations apply.
    A role is set just when an unbanned creator asks it, for somebody else, of a member who
    is not the creator and does not have it already, and it is 0 or 1; a ban is set or
    lifted just when the asker is unbanned and is the creator acting on somebody else, or an
    administrator acting on a plain member.  Then only the target's row changes, in that
    column; every other request gets the same error and changes nothing. *)
Theorem member_changes_exact d c a u role until forever t clock :
  chan_ok d ->
  wpt (at_time t clock) d (SetChannelRole c a u role) (fun r d' =>
    if acts_on d c a u t (promotes role) then r = Ok ADone /\ d' = (UpdateChannelParticipantRole c u role d).2
    else r = Err ErrNotMember /\ d' = d) /\
  wpt (at_time t clock) d (SetChannelBan c a u until forever) (fun r d' =>
    if acts_on d c a u t may_ban then r = Ok ADone /\ d' = (UpdateChannelParticipantBan c u (ban_of until forever) d).2
    else r = Err ErrNotMember /\ d' = d).
Proof.
  intros K. split.
  - unfold SetChannelRole. destruct (negb (role =? channelRoleMember) && negb (role =? channelRoleAdmin)) eqn:Er.
    { intros e _. replace (acts_on d c a u t (promotes role)) with false; [done|]. symmetry. unfold acts_on, promotes.
      apply andb_true_iff in Er as [H1 H2]. apply negb_true_iff in H1, H2. rewrite H1, H2. cbn [orb andb].
      destruct (negb (a =? u)); [|done]. destruct (channels d !! c), (channel_participants d !! (c, a)),
        (channel_participants d !! (c, u)); try done. by rewrite andb_false_r. }
    assert (Hok : (role =? channelRoleMember) || (role =? channelRoleAdmin) = true).
    { destruct (role =? channelRoleMember), (role =? channelRoleAdmin); done. }
    apply begin_exact with (good := promotes role); [done|by intros ->|]. intros pa pu Ha Hu ->. unfold promotes. rewrite Hok.
    destruct (p_role pa =? channelRoleCreator); cbn [negb orb andb]; [|by intros e _].
    destruct (p_role pu =? channelRoleCreator); cbn [negb orb andb]; [by intros e _|].
    destruct (p_role pu =? role); cbn [negb]; [by intros e _|]. by eapply one_row_exact.
  - apply begin_exact with (good := may_ban); [done|by intros ->|]. intros pa pu Ha Hu ->.
    destruct (may_ban _ _); cbn [negb]; [|by intros e _]. by eapply one_row_exact.
Qed.

(** ** Posting *)

(** May [u] post in [c] at [t]: a member not banned, and an administrator unless it is a
    megagroup. *)
Definition may_post (d : cdb) (c u t : Z) : bool :=
  match channels d !! c, channel_participants d !! (c, u) with
  | Some ch, Some p =>
      negb (Banned (channelMemberFromRow u p) t) && (ch_Megagroup ch || (channelRoleAdmin <=? p_role p))
  | _, _ => false
  end.

(** The group's restrictions and its slow mode, which bind plain members of a megagroup. *)
Definition unrestricted (d : cdb) (c u clock : Z) (media : bool) : bool :=
  match channels d !! c, channel_participants d !! (c, u) with
  | Some ch, Some p =>
      negb (ch_Megagroup ch) || (channelRoleAdmin <=? p_role p) ||
      (negb (write_forbidden (ch_DefaultBannedRights ch) false media None) &&
       match greatest (p_last_post_at p) (channel_post_markers d !! (c, u)) with
       | Some last => (ch_SlowmodeSeconds ch <=? 0) || (ch_SlowmodeSeconds ch * second <=? time_sub clock last)
       | None => true
       end)
  | _, _ => false
  end.

Definition replies_well (d : cdb) (c reply : Z) : bool := (reply <=? 0) || ChannelPostExistsActive c reply d.

Definition file_known (d : cdb) (f : option Z) : bool :=
  match f with Some id => bool_decide (id ∈ stored_files d) | None => true end.

(** The tables after a post. *)
Definition posted (c u clock : Z) (st : chan_state) (m : ChannelMessage) (d : cdb) : cdb :=
  (UpdateChannelPostMarker c u clock (logged c st m d)).2.

Lemma post_writes_exact r reply e d st :
  chan_ok d -> channel_state d !! po_Channel r = Some st -> po_Check r = true ->
  is_Some (channel_participants d !! (po_Channel r, po_From r)) ->
  ChannelMessageByRandomID (po_Channel r) (po_RandomID r) d = None ->
  let m := post_row (po_From r) (e_start e) (po_Text r) (po_RandomID r) (po_File r) reply ChannelMessageActionNone in
  post_writes r reply e d =
    if file_known d (po_File r)
    then Ok (APosted (st_next st) m (st_pts st + 1) false, posted (po_Channel r) (po_From r) (e_clock e) st m d)
    else Err ErrStore.
Proof.
  intros K Hst Hc Hp Htok m. destruct (ok_log _ K _ st Hst) as [L1 L2 L3 L4].
  unfold post_writes, stmt, EnsureChannelState. rewrite Hst, bool_decide_true by (by eexists).
  unfold BumpChannelState. rewrite Hst. unfold InsertChannelMessage. cbn [channel_messages set_states stored_files].
  rewrite bool_decide_false by (rewrite L4, L2; lia). cbn [orb]. fold m.
  change (ChannelMessageByRandomID (po_Channel r) (cm_RandomID m) (set_states _ d)) with
    (ChannelMessageByRandomID (po_Channel r) (po_RandomID r) d).
  rewrite Htok, bool_decide_false by (by intros [? ?]). rewrite andb_false_r. cbn [orb]. cbn [cm_FileID m post_row].
  unfold file_known. destruct (po_File r) as [f|]; [destruct (bool_decide (f ∈ stored_files d))|]; cbn [negb]; [|done|].
  all: unfold InsertChannelEvent; cbn [channel_events set_posts set_states].
  all: rewrite L3; destruct (Z.leb_spec (st_pts st + 1) (st_pts st)); [lia|]; rewrite andb_false_r.
  all: rewrite bool_decide_false by (by intros [? ?]).
  all: fold (logged (po_Channel r) st m d); rewrite Hc; unfold posted, UpdateChannelPostMarker, IsChannelMember.
  all: change (channel_participants (logged (po_Channel r) st m d)) with (channel_participants d).
  all: rewrite bool_decide_true by done; cbn [snd negb Z.eqb].
  all: unfold ChannelMessageByLocal; cbn [channel_messages set_markers set_participants alter_participant snd logged
    set_events set_posts]; by rewrite lookup_insert_eq.
Qed.

Lemma may_post_row d c u t : may_post d c u t = true ->
  exists ch p, channels d !! c = Some ch /\ channel_participants d !! (c, u) = Some p.
Proof.
  unfold may_post. destruct (channels d !! c) as [ch|]; [|done].
  destruct (channel_participants d !! (c, u)) as [p|]; [|done]. intros _. by exists ch, p.
Qed.

Lemma post_rights_exact d r t clock k Q :
  po_Check r = true ->
  (may_post d (po_Channel r) (po_From r) t = false -> Q (Err ErrNotMember) d) ->
  (forall p, channel_participants d !! (po_Channel r, po_From r) = Some p ->
     may_post d (po_Channel r) (po_From r) t = true -> wpt (at_time t clock) d (k (p_role p)) Q) ->
  wpt (at_time t clock) d (post_rights r k) Q.
Proof.
  intros Hc Hno Hk. unfold post_rights, checkPostRights. rewrite Hc. intros e [He _].
  unfold may_post, ChannelParticipantByUser in *. destruct (channel_participants d !! _) as [p|].
  2:{ intros e1 _. apply Hno. by destruct (channels d !! _). }
  rewrite He. destruct (Banned _ t) eqn:Eb; [intros e1 _; apply Hno; by destruct (channels d !! _)|].
  intros e1 _. cbn beta. destruct (channels d !! _) as [ch|]; [|intros e2 _; by apply Hno]. cbn [fmap option_fmap option_map].
  cbn [negb andb] in *. unfold channelRoleAdmin in *.
  destruct (ch_Megagroup ch); cbn [negb andb orb] in *; [by apply Hk|].
  destruct (Z.ltb_spec (p_role p) 1), (Z.leb_spec 1 (p_role p)); try lia; [intros e2 _; by apply Hno|by apply Hk].
Qed.

(** The post a request appends, and the refusal that changes nothing. *)
Definition appends (r : post_request) (clock : Z) (d : cdb) (x : tx_answer) (d' : cdb) : Prop :=
  exists st m, channel_state d !! po_Channel r = Some st /\ x = Ok (APosted (st_next st) m (st_pts st + 1) false) /\
    d' = posted (po_Channel r) (po_From r) clock st m d /\ cm_FromID m = po_From r /\ cm_Message m = po_Text r /\
    cm_RandomID m = po_RandomID r /\ cm_FileID m = po_File r /\ cm_Deleted m = false /\
    cm_Action m = ChannelMessageActionNone.

Definition rejects (d : cdb) (x : tx_answer) (d' : cdb) : Prop := (exists err, x = Err err) /\ d' = d.

Definition may_append (r : post_request) (clock : Z) (d : cdb) : bool :=
  unrestricted d (po_Channel r) (po_From r) clock (bool_decide (is_Some (po_File r))) &&
  replies_well d (po_Channel r) (po_ReplyTo r) && file_known d (po_File r).

Section posting.
Context (d : cdb) (r : post_request) (t clock : Z).
Hypothesis K : chan_ok d.
Hypothesis Hcheck : po_Check r = true.
Hypothesis Hmay : may_post d (po_Channel r) (po_From r) t = true.
Hypothesis Hfresh : ChannelMessageByRandomID (po_Channel r) (po_RandomID r) d = None.

Lemma post_commit_exact reply :
  wpt (at_time t clock) d (commit (post_writes r reply)) (fun x d' =>
    if file_known d (po_File r) then appends r clock d x d' else rejects d x d').
Proof.
  destruct (may_post_row _ _ _ _ Hmay) as (ch & p & Hch & Hp).
  destruct (proj1 (ok_state _ K (po_Channel r))) as [st Hst]; [by eexists|].
  intros e [_ He]. rewrite (post_writes_exact r reply e d st); [|done|done|done|by eexists|done]. rewrite He.
  destruct (file_known d (po_File r)); [|by split; [eexists|]]. eexists st, _. by split_and!.
Qed.

Lemma post_reply_exact :
  wpt (at_time t clock) d (post_reply r) (fun x d' =>
    if replies_well d (po_Channel r) (po_ReplyTo r) && file_known d (po_File r) then appends r clock d x d'
    else rejects d x d').
Proof.
  unfold post_reply, replies_well. rewrite Z.gtb_ltb.
  destruct (Z.ltb_spec 0 (po_ReplyTo r)), (Z.leb_spec (po_ReplyTo r) 0); try lia; cbn [orb]; [|apply post_commit_exact].
  intros e _. cbn beta. destruct (ChannelPostExistsActive _ _ _); cbn [negb andb]; [apply post_commit_exact|].
  intros e1 _. by split; [eexists|].
Qed.

Lemma post_slow_exact ch p :
  channels d !! po_Channel r = Some ch -> channel_participants d !! (po_Channel r, po_From r) = Some p ->
  wpt (at_time t clock) d (post_slow r) (fun x d' =>
    if match greatest (p_last_post_at p) (channel_post_markers d !! (po_Channel r, po_From r)) with
       | Some last => (ch_SlowmodeSeconds ch <=? 0) || (ch_SlowmodeSeconds ch * second <=? time_sub clock last)
       | None => true
       end && (replies_well d (po_Channel r) (po_ReplyTo r) && file_known d (po_File r))
    then appends r clock d x d' else rejects d x d').
Proof.
  intros Hch Hp e [_ He]. unfold ChannelSlowModePostState. rewrite Hch, Hp, He.
  destruct (greatest _ _) as [last|]; [|apply post_reply_exact]. rewrite Z.gtb_ltb. unfold slow_wait. rewrite Z.gtb_ltb.
  destruct (Z.ltb_spec 0 (ch_SlowmodeSeconds ch)), (Z.leb_spec (ch_SlowmodeSeconds ch) 0); try lia; cbn [orb];
    [|apply post_reply_exact].
  destruct (Z.ltb_spec 0 (ch_SlowmodeSeconds ch * second - time_sub clock last)),
    (Z.leb_spec (ch_SlowmodeSeconds ch * second) (time_sub clock last)); try lia; [|apply post_reply_exact].
  intros e1 _. by split; [eexists|].
Qed.

Lemma post_restricted_exact p :
  channel_participants d !! (po_Channel r, po_From r) = Some p ->
  wpt (at_time t clock) d (post_restricted r (p_role p)) (fun x d' =>
    if may_append r clock d then appends r clock d x d' else rejects d x d').
Proof.
  intros Hp. destruct (ok_rows _ K _ _ p Hp) as (ch & st & Hch & _ & _ & _ & Hrole).
  unfold post_restricted, may_append, unrestricted. rewrite Hcheck, Hch, Hp. intros e _. cbn beta. rewrite Hch, Z.geb_leb.
  replace (match po_File r with Some _ => true | None => false end) with (bool_decide (is_Some (po_File r))) by
    (destruct (po_File r); [by rewrite bool_decide_true by (by eexists)|by rewrite bool_decide_false by (by intros [? ?])]).
  rewrite <- andb_assoc. unfold role_ok, channelRoleMember, channelRoleAdmin, channelRoleCreator in *.
  destruct (ch_Megagroup ch); cbn [negb orb andb]; [|apply post_reply_exact].
  destruct (Z.leb_spec 1 (p_role p)) as [Hadm|Hmem]; cbn [orb andb].
  - assert (Hw : write_forbidden (ch_DefaultBannedRights ch) true (bool_decide (is_Some (po_File r))) None = false) by done.
    rewrite Hw. destruct (Z.eqb_spec (p_role p) 0); [lia|apply post_reply_exact].
  - destruct (write_forbidden (ch_DefaultBannedRights ch) false _ _); cbn [negb andb]; [intros e3 _; by split; [eexists|]|].
    destruct (Z.eqb_spec (p_role p) 0); [|lia]. by apply post_slow_exact.
Qed.

End posting.

(** C22 (functional).  Posting is idempotent and exact.  Whoever may not post gets the one error
    and changes nothing.  A token the channel has seen answers the post it names, with its
    own pts, and changes nothing, whatever the restrictions have become.  Otherwise, when
    the restrictions, the slow mode, the message replied to and the file allow it, exactly
    one post is appended under the next id and the next pts with its event, and the
    author's time of last post is set; and when they do not, nothing changes. *)
Theorem posting_exact d c u text randomID file reply t clock :
  chan_ok d -> c <> 0 -> u <> 0 ->
  let r := mkPostReq c u text randomID file reply true in
  wpt (at_time t clock) d (PostChannelMessageAs c u text randomID file reply) (fun x d' =>
    if negb (may_post d c u t) then x = Err ErrNotMember /\ d' = d
    else match ChannelMessageByRandomID c randomID d with
    | Some (l, m) => x = Ok (APosted l m l true) /\ d' = d /\ channel_messages d !! (c, l) = Some m
    | None => if may_append r clock d then appends r clock d x d' else rejects d x d'
    end).
Proof.
  intros K Hc Hu r. unfold PostChannelMessageAs, postChannelMessage. fold r. cbn [po_Channel po_From r].
  rewrite (proj2 (Z.eqb_neq c 0) Hc), (proj2 (Z.eqb_neq u 0) Hu). cbn [orb].
  apply post_rights_exact; [done|intros E; cbn in E; by rewrite E|]. intros p0 _ Hmp. cbn [po_Channel po_From r] in Hmp.
  rewrite Hmp. cbn [negb]. intros e0 _. cbn beta. destruct (may_post_row _ _ _ _ Hmp) as (ch & p' & Hch & _).
  destruct (proj1 (ok_state _ K c)) as [st Hst]; [by eexists|].
  unfold EnsureChannelState. cbn [po_Channel r]. rewrite Hst, bool_decide_true by (by eexists). intros e1 _.
  apply post_rights_exact; [done|intros E; cbn in E; congruence|]. intros p Hp _. unfold post_dedup. cbn [po_RandomID po_Channel r].
  pose proof (post_restricted_exact d r t clock K eq_refl Hmp) as Hres.
  destruct (ChannelMessageByRandomID c randomID d) as [[l m]|] eqn:Et.
  - apply by_token_Some in Et as Ht. destruct Ht as (Hm & _ & Hz). rewrite (proj2 (Z.eqb_neq randomID 0) Hz).
    intros e2 _. cbn beta. rewrite Et. intros e3 _. cbn beta.
    rewrite (has_new_post_pts d c l st); [by intros e4 _|done|done|].
    apply (lo_posts _ _ _ (ok_log _ K c st Hst)). by eexists.
  - destruct (randomID =? 0); [by apply Hres|]. intros e2 _. cbn beta. rewrite Et. by apply Hres.
Qed.

(** * Channels: concrete runs

    A channel created, joined, posted to and administered, for the theorems' hypotheses;
    three runs that show where the code departs from what its comments say, and one in which
    it deadlocks. *)

(** Accounts without handles, and nothing else. *)
Definition accounts (ids : list Z) : gmap Z user_row := list_to_map (map (fun u => (u, mkUser None "phone")) ids).

Definition blank (ids : list Z) : cdb := mkCdb ∅ ∅ ∅ ∅ ∅ ∅ ∅ ∅ ∅ ∅ ∅ (accounts ids) ∅ ∅.

Lemma blank_ok ids : chan_ok (blank ids).
Proof.
  split; cbn [blank channels channel_state channel_participants channel_read_state channel_messages channel_events
    usernames users opened channel_invites]; try (intros; simplify_map_eq; done).
  - intros h c. split; [intros; by simplify_map_eq|]. intros (? & ? & _). by simplify_map_eq.
  - intros h u. split; [intros; by simplify_map_eq|]. intros (r & Hr & Hn).
    apply elem_of_list_to_map_2 in Hr. apply list_elem_of_fmap in Hr as (v & E & _). by simplify_eq.
Qed.

Definition sixteen : list Z := [1; 2; 3; 4; 5; 6; 7; 8; 9; 10; 11; 12; 13; 14; 15; 16].
Definition demo_hash : string := RawURLEncode sixteen.

Definition at_ (t : Z) : env := mkEnv t t t (fun _ => Some 5) (Some sixteen).

Lemma at_ok now t : t <= now -> env_ok now (at_ t).
Proof. intros Ht. split; [done|]. intros i n [= <-]. split; [lia|reflexivity]. Qed.

Definition room : Z := minChannelID + 5.

Abbreviation ev := (event lock cdb env tx_answer).
Abbreviation config := (cdb * list (thread lock cdb env tx_answer))%type.

(** [n] turns for the [i]-th transaction; turns after its end are idle. *)
Definition turns (i n : nat) (t : Z) : list ev := repeat (Go i (at_ t)) n.

(** A request, the [i]-th, from beginning to end. *)
Definition whole (i : nat) (r : request) (t : Z) : list ev := Begin (transaction r) :: turns i 20 t.

(** A megagroup of accounts 1 to 4: 1 made it, 2 and 3 came by the invite; 2 is made an
    administrator, 3 posts, 1 pins the post. *)
Definition setting : list ev :=
  whole 0 (ReqCreate 1 "room" "" true) 1 ++ whole 1 (ReqInvite room 1) 2 ++ whole 2 (ReqJoinInvite demo_hash 2) 3 ++
  whole 3 (ReqJoinInvite demo_hash 3) 4 ++ whole 4 (ReqRole room 1 2 1) 5 ++ whole 5 (ReqPost room 3 "hello" 77 None 0) 6 ++
  whole 6 (ReqPin room 1 (Some 2)) 7 ++ whole 7 (ReqChannelName room 1 "Lounge") 8.

Definition scene : config := play_all (blank [1; 2; 3; 4]) setting.

Lemma repeat_playable (starts : ctxn -> Prop) ok i n t : ok (at_ t) -> playable starts ok (turns i n t).
Proof. intros H. unfold playable, turns. by apply Forall_forall; intros x ->%list_elem_of_In%repeat_spec. Qed.

Lemma whole_playable now i r t : t <= now -> playable starts (env_ok now) (whole i r t).
Proof. intros H. apply Forall_cons. split; [by exists r|]. by apply repeat_playable, at_ok. Qed.

Lemma setting_playable now : 8 <= now -> playable starts (env_ok now) setting.
Proof. intros H. unfold setting, playable. repeat (apply Forall_app; split); apply whole_playable; lia. Qed.

Lemma scene_run : run_to 8 (blank [1; 2; 3; 4]) scene.
Proof. apply play_all_reach. by apply setting_playable. Qed.

Lemma scene_ok : chan_ok scene.1.
Proof. by apply (run_ok _ _ _ (blank_ok _) scene_run). Qed.

(** What the run has left. *)
Example scene_state :
  CountChannelParticipants room scene.1 = 3 /\ CountChannelsForUser 2 scene.1 = 1 /\
  channel_state scene.1 !! room = Some (mkState 2 3) /\
  (p_role <$> channel_participants scene.1 !! (room, 2)) = Some 1 /\
  (ch_PinnedMessageID <$> channels scene.1 !! room) = Some (Some 2) /\
  usernames scene.1 !! "lounge"%string = Some (OfChannel room) /\
  channel_read_state scene.1 !! (room, 3) = Some 1.
Proof. vm_compute. done. Qed.

(** ** The theorems at this run *)

Lemma channel_caps_hold_witness :
  chan_ok (blank [1; 2; 3; 4]) /\ CountChannelParticipants room scene.1 <= defaultMaxChannelParticipants.
Proof.
  split; [apply blank_ok|].
  exact (proj1 (channel_caps_hold 8 (blank [1; 2; 3; 4]) scene (blank_ok _) scene_run) room).
Defined.

Lemma channel_log_exact_witness : channel_events scene.1 !! (room, 2) = Some (EventNewMessage, 2).
Proof.
  destruct (channel_log_exact 8 (blank [1; 2; 3; 4]) scene scene room (mkState 2 3)) as [H _].
  - apply blank_ok.
  - apply scene_run.
  - apply rtc_refl.
  - vm_compute. reflexivity.
  - exact (H 2).
Defined.

Lemma handles_in_step_witness :
  exists x, channels scene.1 !! room = Some x /\ ch_Username x = Some "lounge"%string.
Proof.
  destruct (handles_in_step 8 (blank [1; 2; 3; 4]) scene (blank_ok _) scene_run) as [H _].
  apply (proj1 (H "lounge"%string room)). vm_compute. reflexivity.
Defined.

(** Turns that come to a step, not yet taken, and the step. *)
Lemma play_step now (c : config) i t : t <= now -> enabled i c.2 = true -> step_by now c (play c (Go i (at_ t))).
Proof.
  intros Ht He. pose proof (at_ok now t Ht) as Hok. unfold enabled in He. destruct c as [d ts]. cbn [fst snd] in *.
  cbn [play fst snd]. destruct (ts !! i) as [[held [k|l k|f]|x]|] eqn:E; try done.
  - by apply ts_read.
  - apply negb_true_iff in He. rewrite He. apply ts_lock; [done|done|]. by apply blocked_by_false.
  - by eapply ts_final.
Qed.

Lemma run_more now d0 l l' : playable starts (env_ok now) l -> playable starts (env_ok now) l' ->
  run_to now d0 (play_all d0 (l ++ l')).
Proof. intros H1 H2. apply play_all_reach, Forall_app. done. Qed.

(** The creator demotes the administrator: just before the commit. *)
Definition demoting : list ev := Begin (transaction (ReqRole room 1 2 0)) :: turns 8 4 9.
Definition before_demotion : config := play_all (blank [1; 2; 3; 4]) (setting ++ demoting).

Lemma demoting_run : run_to 9 (blank [1; 2; 3; 4]) before_demotion.
Proof.
  apply run_more; [by apply setting_playable|]. apply Forall_cons. split; [by eexists|].
  apply repeat_playable, at_ok. lia.
Qed.

Lemma rights_need_authority_witness : exists qs a,
  ends qs before_demotion (play before_demotion (Go 8 (at_ 9))) (ReqRole room a 2 0) /\
  entitled 9 before_demotion.1 room a (fun r => r = channelRoleCreator).
Proof.
  pose (p := mkParticipant 1 None 1 3 None). pose (p' := mkParticipant 0 None 1 3 None).
  destruct (run_serving 9 (blank [1; 2; 3; 4]) before_demotion demoting_run) as [qs R].
  destruct (rights_need_authority 9 (blank [1; 2; 3; 4]) qs before_demotion (play before_demotion (Go 8 (at_ 9))) room 2 p)
    as (_ & H & _).
  - apply blank_ok.
  - exact R.
  - apply play_step; [lia|]. vm_compute. reflexivity.
  - vm_compute. reflexivity.
  - destruct (H p') as (_ & Hr & _); [vm_compute; reflexivity|].
    destruct Hr as (a & Hq & _ & Ha & _); [discriminate|]. exists qs, a. by split.
Defined.

(** The fourth account comes by the username: just before the commit. *)
Definition coming : list ev := Begin (transaction (ReqJoinUsername room 4)) :: turns 8 6 9.
Definition before_coming : config := play_all (blank [1; 2; 3; 4]) (setting ++ coming).

Lemma coming_run : run_to 9 (blank [1; 2; 3; 4]) before_coming.
Proof.
  apply run_more; [by apply setting_playable|]. apply Forall_cons. split; [by eexists|].
  apply repeat_playable, at_ok. lia.
Qed.

Lemma admission_needs_evidence_witness : exists qs q,
  ends qs before_coming (play before_coming (Go 8 (at_ 9))) q /\
  ((exists h i, q = ReqJoinInvite h 4 /\ channel_invites before_coming.1 !! h = Some i /\ i_channel i = room /\ i_revoked i = None) \/
   (exists a us, q = ReqAdd room a us /\ 4 ∈ us /\ entitled 9 before_coming.1 room a administrator) \/
   (q = ReqJoinUsername room 4 /\ room ∈ opened before_coming.1)).
Proof.
  destruct (run_serving 9 (blank [1; 2; 3; 4]) before_coming coming_run) as [qs R].
  destruct (admission_needs_evidence 9 (blank [1; 2; 3; 4]) qs before_coming (play before_coming (Go 8 (at_ 9))) room 4
    (mkParticipant 0 None 2 9 None)) as (_ & q & Hq & [(H & _)|(_ & _ & H)]).
  - apply blank_ok.
  - exact R.
  - apply play_step; [lia|]. vm_compute. reflexivity.
  - vm_compute. reflexivity.
  - vm_compute. reflexivity.
  - vm_compute in H. discriminate.
  - exists qs, q. by split.
Defined.

(** The third account reads on: just before the commit. *)
Definition reading : list ev := Begin (transaction (ReqRead room 3 9)) :: turns 8 4 9.
Definition before_reading : config := play_all (blank [1; 2; 3; 4]) (setting ++ reading).

Lemma reading_run : run_to 9 (blank [1; 2; 3; 4]) before_reading.
Proof.
  apply run_more; [by apply setting_playable|]. apply Forall_cons. split; [by eexists|].
  apply repeat_playable, at_ok. lia.
Qed.

Lemma read_marks_advance_witness :
  exists r', channel_read_state (play before_reading (Go 8 (at_ 9))).1 !! (room, 3) = Some r' /\ 1 <= r'.
Proof.
  destruct (read_marks_advance 9 (blank [1; 2; 3; 4]) before_reading (play before_reading (Go 8 (at_ 9))) room 3 1)
    as [_ H].
  - apply blank_ok.
  - apply reading_run.
  - apply play_step; [lia|]. vm_compute. reflexivity.
  - vm_compute. reflexivity.
  - apply H. vm_compute. by eexists.
Defined.

Lemma member_changes_exact_witness :
  wpt (at_time 9 9) scene.1 (SetChannelBan room 2 1 None true) (fun r d' => r = Err ErrNotMember /\ d' = scene.1).
Proof. exact (proj2 (member_changes_exact scene.1 room 2 1 0 None true 9 9 scene_ok)). Defined.

Lemma posting_exact_witness :
  wpt (at_time 9 9) scene.1 (PostChannelMessageAs room 3 "again" 77 None 0) (fun r d' =>
    r = Ok (APosted 2 (mkPost 3 6 "hello" None false 77 None None 0) 2 true) /\ d' = scene.1 /\
    channel_messages scene.1 !! (room, 2) = Some (mkPost 3 6 "hello" None false 77 None None 0)).
Proof. apply (posting_exact scene.1 room 3 "again" 77 None 0 9 9 scene_ok); discriminate. Defined.

Lemma whole_apart now i r t : ids_apart r -> t <= now -> playable starts_apart (env_ok now) (whole i r t).
Proof. intros Hr H. apply Forall_cons. split; [by exists r|]. by apply repeat_playable, at_ok. Qed.

Lemma deadlocks_are_rename_rings_witness :
  (exists j, enabled j before_reading.2 = true) \/ exists j, tc (waits_handle before_reading.2) j j.
Proof.
  destruct (before_reading.2 !! 8%nat) as [[held p|x]|] eqn:E; [|vm_compute in E; discriminate|vm_compute in E; discriminate].
  eapply (deadlocks_are_rename_rings (env_ok 9) (blank [1; 2; 3; 4]) before_reading 8 held p); [|exact E].
  apply play_all_reach, Forall_app. split.
  - unfold setting. rewrite !Forall_app. split_and!; apply whole_apart; try lia; done.
  - apply Forall_cons. split; [exists (ReqRead room 3 9); split; [exact I|reflexivity]|]. apply repeat_playable, at_ok. lia.
Defined.

(** ** Where the code departs from its comments *)

(** A post is checked under the channel_state lock, a ban is written under the channels
    row lock: the ban commits between the check and the insert. *)
Definition racing_ban : list ev :=
  Begin (transaction (ReqPost room 3 "after" 0 None 0)) :: turns 8 8 9 ++ whole 9 (ReqBan room 1 3 None true) 10.

Definition banned_scene : config := play_all (blank [1; 2; 3; 4]) (setting ++ racing_ban).

(** A member banned for ever, the ban committed, still lands a post: the
    check of [PostChannelMessageAs] and the write of [SetChannelBan] hold no common lock. *)
Theorem banned_member_posts :
  exists now d0 c c' p m,
    chan_ok d0 /\ run_to now d0 c /\ step_by now c c' /\
    channel_participants c.1 !! (room, 3) = Some p /\ p_banned_until p = Some Infinity /\
    channel_messages c.1 !! (room, 3) = None /\ channel_messages c'.1 !! (room, 3) = Some m /\ cm_FromID m = 3.
Proof.
  exists 10, (blank [1; 2; 3; 4]), banned_scene, (play banned_scene (Go 8 (at_ 10))).
  exists (mkParticipant 0 (Some Infinity) 1 4 (Some 6)), (post_row 3 10 "after" 0 None None 0).
  split_and!; [apply blank_ok| | |vm_compute; reflexivity..].
  - apply run_more; [by apply setting_playable|]. apply Forall_cons. split; [by eexists|].
    apply Forall_app. split; [apply repeat_playable, at_ok; lia|by apply whole_playable].
  - apply play_step; [lia|]. vm_compute. reflexivity.
Qed.

(** Joining by username reads the row under the channel_state lock, clearing the username
    is written under the channels row lock. *)
Definition racing_close : list ev :=
  Begin (transaction (ReqJoinUsername room 4)) :: turns 8 2 9 ++ whole 9 (ReqChannelName room 1 "") 10 ++ turns 8 4 11.

Definition closed_scene : config := play_all (blank [1; 2; 3; 4]) (setting ++ racing_close).

(** An account gets its seat by the username after the clearing of the
    username has committed, in a channel that is private by then: the window the comment of
    [JoinChannelByUsername] means to close by reading inside the transaction. *)
Theorem private_channel_joined :
  exists now d0 c c' x p,
    chan_ok d0 /\ run_to now d0 c /\ step_by now c c' /\
    channels c.1 !! room = Some x /\ ch_Username x = None /\ usernames c.1 = ∅ /\
    channel_participants c.1 !! (room, 4) = None /\ channel_participants c'.1 !! (room, 4) = Some p /\
    p_role p = channelRoleMember.
Proof.
  exists 11, (blank [1; 2; 3; 4]), closed_scene, (play closed_scene (Go 8 (at_ 11))).
  exists (mkChannel "room" "" 1 true 2 1 (Some 2) None false [] 0), (mkParticipant 0 None 2 11 None).
  split_and!; [apply blank_ok| | |vm_compute; reflexivity..].
  - apply run_more; [by apply setting_playable|]. apply Forall_cons. split; [by eexists|].
    rewrite !Forall_app. split_and!; [apply repeat_playable, at_ok; lia|by apply whole_playable|apply repeat_playable, at_ok; lia].
  - apply play_step; [lia|]. vm_compute. reflexivity.
Qed.

(** A channel from before ids were drawn, whose id is also an account's. *)
Definition legacy_row : Channel := new_channel 1 "old" "" 1 true.
Definition legacy_post : ChannelMessage := post_row 1 1 "old" 0 None None ChannelMessageActionCreate.
Definition legacy : cdb := logged 7 (mkState 0 1) legacy_post (founded 7 1 1 legacy_row (blank [1; 7])).

Lemma legacy_ok : chan_ok legacy.
Proof.
  apply logged_ok.
  - apply founded_ok; try (vm_compute; reflexivity); [apply blank_ok|vm_compute; by eexists].
  - vm_compute. reflexivity.
  - intros l m Hm. vm_compute in Hm. done.
Qed.

(** Renaming the channel holds its advisory lock and wants the row; adding the account
    holds the row and wants the account's advisory lock, which is the same one. *)
Definition crossing : list ev :=
  [Begin (transaction (ReqChannelName 7 1 "old_room")); Begin (transaction (ReqAdd 7 1 [7])); Go 0 (at_ 2)] ++ turns 1 4 3.

Definition crossed : config := play_all legacy crossing.

Definition is_running (t : thread lock cdb env tx_answer) : bool := match t with Running _ _ => true | Ended _ => false end.

(** Two transactions on a channel whose id equals an account id wait for each
    other: the channel's advisory lock and the account's are one lock, so they do cycle. *)
Theorem advisory_keys_collide :
  exists now c, run_to now legacy c /\ map is_running c.2 = [true; true] /\ forall j, enabled j c.2 = false.
Proof.
  exists 3, crossed. split_and!.
  - apply play_all_reach. unfold crossing, playable.
    repeat (apply Forall_cons; split; [first [by eexists | apply at_ok; lia]|]). apply Forall_nil_2.
  - vm_compute. reflexivity.
  - assert (Hl : List.length crossed.2 = 2%nat) by (vm_compute; reflexivity).
    intros [|[|j]]; [vm_compute; reflexivity|vm_compute; reflexivity|]. unfold enabled.
    rewrite (lookup_ge_None_2 crossed.2) by (rewrite Hl; lia). done.
Qed.

(** Two accounts that have handles ask for each other's. *)
Definition swapping : list ev :=
  whole 0 (ReqUserName 1 "alpha") 1 ++ whole 1 (ReqUserName 2 "omega") 2 ++
  [Begin (transaction (ReqUserName 1 "omega")); Begin (transaction (ReqUserName 2 "alpha"))] ++ turns 2 5 3 ++ turns 3 5 3.

Definition swapped : config := play_all (blank [1; 2]) swapping.

Definition wanted (t : thread lock cdb env tx_answer) : option lock :=
  match t with Running _ (Lock l _) => Some l | _ => None end.

Lemma waits_handle_by ts i j h held :
  ts !! i ≫= wanted = Some (NameRow h) -> holds <$> ts !! j = Some held -> NameRow h ∈ held -> j <> i -> waits_handle ts i j.
Proof.
  intros Hi Hj Hin Hne. destruct (ts !! i) as [[H [k|l k|f]|r]|] eqn:Ei; try done. simpl in Hi. injection Hi as ->.
  destruct (ts !! j) as [t|] eqn:Ej; [|done]. simpl in Hj. injection Hj as <-. by exists H, h, k, t.
Qed.

(** Each has deleted its own handle and waits, on the primary key of the table, for the
    other's deletion to commit: two renames that swap handles deadlock, in a run from nothing
    but two accounts. *)
Theorem renames_swap_deadlock :
  exists now c, run_to now (blank [1; 2]) c /\ map is_running c.2 = [false; false; true; true] /\
    (forall j, enabled j c.2 = false) /\ waits_handle c.2 2 3 /\ waits_handle c.2 3 2.
Proof.
  exists 3, swapped. split_and!.
  - apply play_all_reach. unfold swapping, playable. rewrite !Forall_app.
    split_and!; [by apply whole_playable|by apply whole_playable| |by apply repeat_playable, at_ok|by apply repeat_playable, at_ok].
    repeat (apply Forall_cons; split; [by eexists|]). apply Forall_nil_2.
  - vm_compute. reflexivity.
  - assert (Hl : List.length swapped.2 = 4%nat) by (vm_compute; reflexivity).
    intros [|[|[|[|j]]]]; [vm_compute; reflexivity..|]. unfold enabled.
    rewrite (lookup_ge_None_2 swapped.2) by (rewrite Hl; lia). done.
  - apply (waits_handle_by _ _ _ "omega" [NameRow "omega"; Advisory 2]); [vm_compute; reflexivity..|by left|done].
  - apply (waits_handle_by _ _ _ "alpha" [NameRow "alpha"; Advisory 1]); [vm_compute; reflexivity..|by left|done].
Qed.
