(* ===== verification/BlobKeys.v ===== *)
(** * Keys of the blob store

    [internal/blob/blob.go]: the lexical contract every backend enforces, the keys of
    assembled files ([xx/<id>], sharded on the id's low byte) and the keys of upload parts
    ([parts/xx/<random>]), written and read back.  A Go string is its bytes. *)

From S2P Require Import Prelude.
From S2P Require Import GoStrings.
From Stdlib Require Import Ascii String.

Open Scope Z_scope.

(** ** Hexadecimal *)

Definition hex_digit (n : Z) : ascii :=
  ascii_of_nat (Z.to_nat (if n <? 10 then 48 + n else 87 + n)).

Definition hex_of (c : ascii) : option Z :=
  let n := Z.of_nat (nat_of_ascii c) in
  if (48 <=? n) && (n <=? 57) then Some (n - 48)
  else if (97 <=? n) && (n <=? 102) then Some (n - 87)
  else if (65 <=? n) && (n <=? 70) then Some (n - 55)
  else None.

(** [%02x] of a byte. *)
Definition hex_byte (b : Z) : string := String (hex_digit (b / 16)) (String (hex_digit (b mod 16)) EmptyString).

(** [hex.EncodeToString]. *)
Fixpoint EncodeToString (bs : list Z) : string :=
  match bs with
  | [] => EmptyString
  | b :: bs => hex_byte b +:+ EncodeToString bs
  end.

Fixpoint parse_hex (s : string) (n : Z) : option Z :=
  match s with
  | EmptyString => Some n
  | String c s' => match hex_of c with Some d => parse_hex s' (n * 16 + d) | None => None end
  end.

(** [strconv.ParseUint(s, 16, 8)]. *)
Definition ParseUint_16_8 (s : string) : option Z :=
  match s with
  | EmptyString => None
  | _ => match parse_hex s 0 with Some n => if n >=? 256 then None else Some n | None => None end
  end.

(** ** The contract of a key *)

Definition maxKeyBytes : Z := 1024.

Definition in_range (lo hi c : ascii) : bool :=
  (nat_of_ascii lo <=? nat_of_ascii c)%nat && (nat_of_ascii c <=? nat_of_ascii hi)%nat.

Definition key_char (c : ascii) : bool :=
  in_range "a" "z" c || in_range "A" "Z" c || in_range "0" "9" c ||
  Ascii.eqb c "." || Ascii.eqb c "_" || Ascii.eqb c "-".

Definition key_segment (s : string) : bool :=
  negb (String.eqb s "" || String.eqb s "." || String.eqb s "..") && str_all key_char s.

(** Whether [ValidateKey] returns no error. *)
Definition ValidateKey (key : string) : bool :=
  if (str_len key =? 0) || (str_len key >? maxKeyBytes) then false
  else forallb key_segment (Split "/" key).

Definition TempSuffix : string := ".tmp".

(** ** Assembled files *)

Definition Key (id : Z) : string := hex_byte (Z.land id 255) +:+ String "/" (FormatInt id).

Definition ParseKey (key : string) : option Z :=
  match Cut "/" key with
  | None => None
  | Some (_, num) =>
      match ParseInt 64 num with
      | None => None
      | Some id => if (id <=? 0) || negb (String.eqb (Key id) key) then None else Some id
      end
  end.

Definition IsShard (name : string) : bool :=
  match ParseUint_16_8 name with Some b => String.eqb (hex_byte b) name | None => false end.

(** ** Upload parts *)

Definition PartsPrefix : string := "parts/".
Definition partKeySuffixBytes : nat := 15.

(** The key of sixteen random bytes, the last of which is the shard. *)
Definition NewPartKey (buf : list Z) : string :=
  PartsPrefix +:+ hex_byte (default 0 (last buf)) +:+ String "/" (EncodeToString (take partKeySuffixBytes buf)).

Definition lower_hex (c : ascii) : bool := in_range "0" "9" c || in_range "a" "f" c.

Definition isLowerHex (s : string) : bool := str_all lower_hex s.

Definition IsPartShardDir (key : string) : bool :=
  match strip_prefix "parts/" key with
  | None => false
  | Some rest => if negb (free_of "/" rest) then false else IsShard rest
  end.

Definition ParsePartKey (key : string) : bool :=
  match strip_prefix PartsPrefix key with
  | None => false
  | Some suffix =>
      match Cut "/" suffix with
      | Some (shard, rest) =>
          if negb (str_len shard =? 2) || negb (str_len rest =? Z.of_nat partKeySuffixBytes * 2) || negb (IsShard shard)
          then false
          else isLowerHex rest
      | None =>
          if negb (str_len suffix =? (Z.of_nat partKeySuffixBytes + 1) * 2) then false else isLowerHex suffix
      end
  end.

(** ** Facts on hexadecimal *)

Definition is_byte (b : Z) : Prop := 0 <= b < 256.

Lemma byte_cases (P : Z -> Prop) :
  Forall P (map Z.of_nat (seq 0 256)) -> forall b, is_byte b -> P b.
Proof.
  intros H b Hb. rewrite Forall_forall in H. apply H, list_elem_of_fmap. exists (Z.to_nat b).
  unfold is_byte in Hb. split; [lia|]. apply elem_of_seq. lia.
Qed.

(** A statement about every byte is evaluated byte by byte. *)
Ltac every_byte := apply byte_cases; repeat (apply Forall_cons; split; [vm_compute; reflexivity|]); apply Forall_nil_2.

Lemma hex_byte_lower b : is_byte b -> isLowerHex (hex_byte b) = true.
Proof. revert b. every_byte. Qed.

Lemma hex_byte_parse b : is_byte b -> ParseUint_16_8 (hex_byte b) = Some b.
Proof. revert b. every_byte. Qed.

Lemma hex_byte_shard b : is_byte b -> IsShard (hex_byte b) = true.
Proof. intros Hb. unfold IsShard. rewrite hex_byte_parse by done. apply String.eqb_refl. Qed.

Lemma IsShard_hex name : IsShard name = true -> exists b, is_byte b /\ name = hex_byte b.
Proof.
  unfold IsShard. destruct (ParseUint_16_8 name) as [b|] eqn:E; [|done]. intros H%String.eqb_eq. exists b. split; [|done].
  unfold ParseUint_16_8 in E. destruct name as [|c s]; [done|]. destruct (parse_hex _ _) as [n|] eqn:En; [|done].
  destruct (Z.geb_spec n 256); [done|]. simplify_eq. split; [|lia].
  revert En. generalize (String c s) as t. assert (Hp : forall t m n, 0 <= m -> parse_hex t m = Some n -> 0 <= n).
  { induction t as [|a t IH]; intros m k Hm; simpl; [intros; by simplify_eq|]. destruct (hex_of a) as [d|] eqn:Ed; [|done].
    apply IH. unfold hex_of in Ed. repeat (case_match; simplify_eq; try lia). }
  intros t. by apply Hp.
Qed.

Lemma char_cases (P : ascii -> Prop) : Forall P (map ascii_of_nat (seq 0 256)) -> forall c, P c.
Proof.
  intros H c. rewrite Forall_forall in H. apply H, list_elem_of_fmap. exists (nat_of_ascii c).
  rewrite ascii_nat_embedding. split; [done|]. apply elem_of_seq. pose proof (nat_ascii_bounded c). lia.
Qed.

Ltac every_char :=
  match goal with |- forall c, @?P c => apply (char_cases P) end;
  repeat (apply Forall_cons; split; [vm_compute; solve [done | repeat split]|]); apply Forall_nil_2.

Lemma lower_hex_key c : lower_hex c = true -> key_char c = true /\ Ascii.eqb c "/" = false /\ Ascii.eqb c "." = false.
Proof. revert c. every_char. Qed.

Lemma lower_hex_free sep s : lower_hex sep = false -> isLowerHex s = true -> free_of sep s = true.
Proof.
  intros Hs. apply str_all_impl. intros c Hc. destruct (Ascii.eqb_spec c sep) as [->|]; [congruence|done].
Qed.

(** A hexadecimal segment that is not empty meets the contract. *)
Lemma lower_hex_segment s : s <> EmptyString -> isLowerHex s = true -> key_segment s = true.
Proof.
  intros Hs H. unfold key_segment. apply andb_true_intro. split.
  - destruct s as [|c s]; [done|]. cbn in H. apply andb_prop in H as [Hc _]. apply lower_hex_key in Hc as (_ & _ & Hd).
    apply negb_true_iff, orb_false_iff. rewrite orb_false_iff. split_and!; [done| |];
      apply String.eqb_neq; intros E; simplify_eq; by rewrite Ascii.eqb_refl in Hd.
  - revert H. apply str_all_impl. intros c Hc. by apply lower_hex_key.
Qed.

Lemma EncodeToString_lower bs : Forall is_byte bs -> isLowerHex (EncodeToString bs) = true.
Proof.
  unfold isLowerHex. induction 1 as [|b bs Hb _ IH]; [done|]. cbn [EncodeToString]. rewrite str_all_app, IH, andb_true_r.
  by apply hex_byte_lower.
Qed.

Lemma str_len_app a b : str_len (a +:+ b) = str_len a + str_len b.
Proof. unfold str_len. induction a as [|c a IH]; [done|]. rewrite app_str_cons. cbn [String.length]. lia. Qed.

Lemma EncodeToString_len bs : str_len (EncodeToString bs) = 2 * len bs.
Proof.
  induction bs as [|b bs IH]; [done|]. cbn [EncodeToString]. rewrite str_len_app, IH, len_cons.
  replace (str_len (hex_byte b)) with 2 by done. lia.
Qed.

Lemma hex_byte_inj a b : is_byte a -> is_byte b -> hex_byte a = hex_byte b -> a = b.
Proof. intros Ha Hb E. apply hex_byte_parse in Ha, Hb. rewrite E, Hb in Ha. by simplify_eq. Qed.

Lemma EncodeToString_inj l l' :
  Forall is_byte l -> Forall is_byte l' -> EncodeToString l = EncodeToString l' -> l = l'.
Proof.
  intros H. revert l'. induction H as [|b l Hb _ IH]; intros l' H' E; destruct H' as [|b' l' Hb' Hl']; [done|done|done|].
  cbn in E. injection E as E1 E2 E3. f_equal; [|by apply IH].
  apply hex_byte_inj; [done|done|]. unfold hex_byte. by rewrite E1, E2.
Qed.

(** ** The keys of parts *)

Lemma parts_prefix_split rest : Split "/" (PartsPrefix +:+ rest) = "parts"%string :: Split "/" rest.
Proof. reflexivity. Qed.

Lemma str_len_nonempty s n : 0 < n -> str_len s = n -> s <> EmptyString.
Proof. intros Hn E ->. change (0 = n) in E. lia. Qed.

(** Every key of a part, sharded or flat, meets the contract of the store. *)
Lemma ParsePartKey_valid key : ParsePartKey key = true -> ValidateKey key = true.
Proof.
  unfold ParsePartKey. destruct (strip_prefix PartsPrefix key) as [suffix|] eqn:Ep; [|done].
  apply strip_prefix_sound in Ep as ->. unfold ValidateKey. rewrite parts_prefix_split, str_len_app.
  replace (str_len PartsPrefix) with 6 by done. cbn [forallb].
  replace (key_segment "parts") with true by done. cbn [andb].
  destruct (Cut "/" suffix) as [[shard rest]|] eqn:Ec.
  - destruct (Z.eqb_spec (str_len shard) 2) as [Hl|]; [|done]. destruct (Z.eqb_spec (str_len rest) (Z.of_nat partKeySuffixBytes * 2)) as [Hr|]; [|done].
    destruct (IsShard shard) eqn:Es; [|done]. cbn [negb orb]. intros Hx.
    apply IsShard_hex in Es as (b & Hb & ->).
    assert (Hf : free_of "/" (hex_byte b) = true) by (by apply lower_hex_free, hex_byte_lower).
    apply Cut_sound in Ec as [-> _].
    rewrite str_len_app, Split_app by done. rewrite Split_one by (by apply lower_hex_free).
    replace (str_len (String "/" rest)) with (str_len rest + 1) by (unfold str_len; cbn; lia).
    rewrite Hl, Hr. cbn [forallb]. rewrite lower_hex_segment by (done || by apply hex_byte_lower).
    rewrite lower_hex_segment; [done| |done]. eapply str_len_nonempty; [|exact Hr]. done.
  - destruct (Z.eqb_spec (str_len suffix) ((Z.of_nat partKeySuffixBytes + 1) * 2)) as [Hl|]; [|done]. cbn [negb]. intros Hx.
    rewrite Hl, Split_one by (by apply lower_hex_free). cbn [forallb].
    rewrite lower_hex_segment; [done| |done]. eapply str_len_nonempty; [|exact Hl]. done.
Qed.

Lemma NewPartKey_parses buf : Forall is_byte buf -> List.length buf = 16%nat -> ParsePartKey (NewPartKey buf) = true.
Proof.
  intros Hb Hl. unfold ParsePartKey, NewPartKey. rewrite strip_prefix_app.
  assert (Hs : is_byte (default 0 (last buf))).
  { destruct (last buf) as [b|] eqn:E; [|done]. cbn. rewrite Forall_forall in Hb. apply Hb.
    apply last_Some in E as [l ->]. apply elem_of_app. right. by apply list_elem_of_singleton. }
  rewrite Cut_app by (by apply lower_hex_free, hex_byte_lower).
  replace (str_len (hex_byte _)) with 2 by done. rewrite EncodeToString_len, hex_byte_shard by done.
  unfold len. rewrite length_take, Hl. cbn [negb orb Z.eqb]. replace (_ || _) with false by done.
  by apply EncodeToString_lower, Forall_take.
Qed.

Lemma NewPartKey_inj b b' :
  Forall is_byte b -> Forall is_byte b' -> List.length b = 16%nat -> List.length b' = 16%nat ->
  NewPartKey b = NewPartKey b' -> b = b'.
Proof.
  intros Hb Hb' Hl Hl' E. unfold NewPartKey in E.
  assert (E' := f_equal (strip_prefix PartsPrefix) E). rewrite !strip_prefix_app in E'. apply (inj Some) in E'.
  assert (Hlast : forall l : list Z, List.length l = 16%nat -> exists x, l = take 15 l ++ [x] /\ last l = Some x).
  { intros l H16. destruct (last l) as [x|] eqn:El; [|apply last_None in El; by subst].
    exists x. split; [|done]. apply last_Some in El as [l1 ->]. rewrite length_app in H16. cbn in H16.
    rewrite take_app_length' by lia. done. }
  destruct (Hlast b Hl) as (x & Ex & Lx), (Hlast b' Hl') as (y & Ey & Ly).
  assert (Hx : is_byte x) by (rewrite Ex in Hb; apply Forall_app in Hb as [_ Hq]; by apply Forall_cons in Hq as [? _]).
  assert (Hy : is_byte y) by (rewrite Ey in Hb'; apply Forall_app in Hb' as [_ Hq]; by apply Forall_cons in Hq as [? _]).
  rewrite Lx, Ly in E'. change (hex_byte x +:+ String "/" (EncodeToString (take partKeySuffixBytes b)) = hex_byte y +:+ String "/" (EncodeToString (take partKeySuffixBytes b'))) in E'.
  apply sep_app_inj in E' as [Es Er]; [|by apply lower_hex_free, hex_byte_lower|by apply lower_hex_free, hex_byte_lower].
  apply EncodeToString_inj in Er; [|by apply Forall_take|by apply Forall_take]. apply hex_byte_inj in Es; [|done|done].
  unfold partKeySuffixBytes in Er. rewrite Ex, Ey. by rewrite Er, Es.
Qed.

(** ** The keys of files *)

Lemma low_byte id : is_byte (Z.land id 255).
Proof. unfold is_byte. change 255 with (Z.ones 8). rewrite Z.land_ones by lia. apply Z.mod_pos_bound. done. Qed.

Lemma hex_byte_head b : is_byte b -> exists c s, hex_byte b = String c s /\ lower_hex c = true.
Proof.
  intros Hb. exists (hex_digit (b / 16)), (String (hex_digit (b mod 16)) EmptyString). split; [done|].
  apply hex_byte_lower in Hb. unfold isLowerHex, hex_byte in Hb. cbn [str_all] in Hb. by apply andb_prop in Hb as [? _].
Qed.

Lemma format_digits_len fuel n acc : str_len (format_digits fuel n acc) <= Z.of_nat fuel + str_len acc.
Proof.
  revert n acc. induction fuel as [|f IH]; intros n acc; cbn [format_digits]; [lia|].
  assert (E : forall c s, str_len (String c s) = 1 + str_len s) by (intros; unfold str_len; cbn [String.length]; lia).
  destruct (n <? 10); [rewrite E; lia|]. specialize (IH (n / 10) (String (digit (n mod 10)) acc)). rewrite E in IH. lia.
Qed.

Lemma number_segment c s : str_all number_char (String c s) = true -> key_segment (String c s) = true.
Proof.
  intros H. unfold key_segment. apply andb_true_intro. split.
  - cbn in H. apply andb_prop in H as [Hc _]. apply negb_true_iff, orb_false_iff. rewrite orb_false_iff.
    split_and!; [done| |]; apply String.eqb_neq; intros E; simplify_eq; by vm_compute in Hc.
  - revert H. apply str_all_impl. every_char.
Qed.

Lemma Key_valid id : int_range 64 id -> 0 < id -> ValidateKey (Key id) = true.
Proof.
  intros Hr Hid. unfold ValidateKey, Key. pose proof (low_byte id) as Hb. rewrite str_len_app.
  replace (str_len (hex_byte _)) with 2 by done.
  assert (Hl : 0 <= str_len (String "/" (FormatInt id)) <= 22).
  { split; [unfold str_len; lia|]. unfold FormatInt. destruct (Z.ltb_spec id 0); [lia|].
    pose proof (format_digits_len 20 id EmptyString) as Hf. unfold str_len in *. cbn [String.length] in *. lia. }
  unfold maxKeyBytes. replace (_ || _) with false by lia.
  rewrite Split_app by (by apply lower_hex_free, hex_byte_lower). rewrite Split_one by (by apply FormatInt_free).
  cbn [forallb]. rewrite lower_hex_segment by (done || by apply hex_byte_lower). rewrite andb_true_r.
  pose proof (FormatInt_chars id) as Hc. destruct (FormatInt id) as [|c s] eqn:E; [|by apply number_segment].
  unfold FormatInt in E. destruct (id <? 0); [done|]. by apply format_digits_nonempty in E.
Qed.

Lemma parts_not_shard b rest s : is_byte b -> PartsPrefix +:+ rest = hex_byte b +:+ s -> False.
Proof. intros (c & t & E & Hc)%hex_byte_head E'. rewrite E in E'. cbn in E'. injection E' as <- _. by vm_compute in Hc. Qed.

(** The two keyspaces and their readers are exact: a file id reads back from its
    key, and only from it; every draw of sixteen bytes gives a part key of its own, which no
    reader takes for a file, and no file key is taken for a part; all of them meet the
    contract of the store. *)
Theorem blob_keys_exact :
  (forall id, int_range 64 id -> 0 < id ->
     ParseKey (Key id) = Some id /\ ParsePartKey (Key id) = false /\ ValidateKey (Key id) = true) /\
  (forall key id, ParseKey key = Some id -> key = Key id /\ 0 < id /\ int_range 64 id) /\
  (forall buf, Forall is_byte buf -> List.length buf = 16%nat ->
     ParsePartKey (NewPartKey buf) = true /\ ParseKey (NewPartKey buf) = None /\ ValidateKey (NewPartKey buf) = true /\
     forall buf', Forall is_byte buf' -> List.length buf' = 16%nat -> NewPartKey buf = NewPartKey buf' -> buf = buf').
Proof.
  assert (Hsound : forall key id, ParseKey key = Some id -> key = Key id /\ 0 < id /\ int_range 64 id).
  { intros key id. unfold ParseKey. destruct (Cut "/" key) as [[a num]|]; [|done].
    destruct (ParseInt 64 num) as [n|] eqn:En; [|done]. destruct (Z.leb_spec n 0); [done|].
    destruct (String.eqb_spec (Key n) key) as [<-|]; [|done]. intros E. cbn in E. simplify_eq.
    split_and!; [done|lia|]. by eapply ParseInt_range. }
  split_and!; [|done|].
  - intros id Hr Hid. split_and!; [| |by apply Key_valid].
    + unfold ParseKey. unfold Key at 1. rewrite Cut_app by (by apply lower_hex_free, hex_byte_lower, low_byte).
      rewrite ParseInt_FormatInt by (done || lia). rewrite String.eqb_refl. by replace (id <=? 0) with false by lia.
    + unfold ParsePartKey. destruct (strip_prefix PartsPrefix (Key id)) as [r|] eqn:E; [|done].
      apply strip_prefix_sound in E. exfalso. eapply parts_not_shard; [apply (low_byte id)|]. symmetry. exact E.
  - intros buf Hb Hl. split_and!; [by apply NewPartKey_parses| |by apply ParsePartKey_valid, NewPartKey_parses|].
    + destruct (ParseKey (NewPartKey buf)) as [id|] eqn:E; [|done]. apply Hsound in E as (E & _).
      exfalso. eapply parts_not_shard; [apply (low_byte id)|]. exact E.
    + intros buf' Hb' Hl' E. by apply NewPartKey_inj.
Qed.
