(* ===== verification/Sums.v ===== *)
(** * Sums over a table

    [SELECT coalesce(sum(...), 0)] over the rows of a table kept as a finite map. *)

From S2P Require Import Prelude.

Section map_sum.
Context {K V : Type} `{Countable K}.
Implicit Types (f g : K -> V -> Z) (m : gmap K V).

Definition map_sum (f : K -> V -> Z) (m : gmap K V) : Z := map_fold (fun k v acc => f k v + acc) 0 m.

Lemma map_sum_empty f : map_sum f ∅ = 0.
Proof. apply map_fold_empty. Qed.

Lemma map_sum_fresh f m k v : m !! k = None -> map_sum f (<[k := v]> m) = f k v + map_sum f m.
Proof. intros Hk. unfold map_sum. rewrite map_fold_insert_L; [done| |done]. intros. lia. Qed.

Lemma map_sum_delete f m k v : m !! k = Some v -> map_sum f m = f k v + map_sum f (delete k m).
Proof.
  intros Hk. rewrite <- (insert_delete_id m k v Hk) at 1. apply map_sum_fresh, lookup_delete_eq.
Qed.

Lemma map_sum_insert f m k v : map_sum f (<[k := v]> m) = f k v + map_sum f (delete k m).
Proof.
  rewrite <- (insert_delete_eq m k v). apply map_sum_fresh, lookup_delete_eq.
Qed.

(** A row that does not count leaves the sum alone. *)
Lemma map_sum_delete_zero f m k : (forall v, f k v = 0) -> map_sum f (delete k m) = map_sum f m.
Proof.
  intros Hz. destruct (m !! k) as [v|] eqn:E; [|by rewrite delete_id].
  rewrite (map_sum_delete f m k v E), Hz. lia.
Qed.

Lemma map_sum_insert_zero f m k v : (forall v, f k v = 0) -> map_sum f (<[k := v]> m) = map_sum f m.
Proof. intros Hz. rewrite map_sum_insert, Hz, map_sum_delete_zero by done. lia. Qed.

Lemma map_sum_nonneg f m : (forall k v, m !! k = Some v -> 0 <= f k v) -> 0 <= map_sum f m.
Proof.
  induction m as [|k v m Hk IH] using map_ind; intros Hf; [by rewrite map_sum_empty|].
  rewrite map_sum_fresh by done. assert (0 <= f k v) by (apply Hf, lookup_insert_eq).
  assert (0 <= map_sum f m); [|lia]. apply IH. intros k' v' Hk'. apply Hf.
  rewrite lookup_insert_ne; [done|]. intros ->. congruence.
Qed.

Lemma map_sum_delete_le f m k : (forall v, m !! k = Some v -> 0 <= f k v) -> map_sum f (delete k m) <= map_sum f m.
Proof.
  intros Hf. destruct (m !! k) as [v|] eqn:E; [|by rewrite delete_id].
  rewrite (map_sum_delete f m k v E). specialize (Hf v eq_refl). lia.
Qed.

End map_sum.
