(* ===== verification/Uploads.v ===== *)
(** * Uploads in flight

    [internal/store/uploads.go] with the statements of [internal/store/queries/uploads.sql]
    and [internal/api/upload.go]: the parts of a file a client is uploading.  A part is a
    row, which the caps count, and an object in the blob store, which the row names; the two
    are written in separate steps, and other requests run in between.  A request is a program
    of [Threads] whose every step is one transaction, one statement of its own or one call of
    the blob store, any of which may fail.  [meant] is no table: it remembers what was saved
    under every key a committed row has named. *)

From S2P Require Import Prelude.
From S2P Require Import Sums.
From S2P Require Import GoStrings.
From S2P Require Import BlobKeys.
From S2P Require Import RateLimit.
From S2P Require Import Threads.
From S2P Require Import NetAddr.
From S2P Require Import Limits.
From Stdlib Require Import Ascii String.

Open Scope Z_scope.

(** ** State *)

(** The account, the client's file id and the index of the part. *)
Notation part_id := (Z * Z * Z)%type.

Record upload_part : Type := mkPart { up_size : Z; up_key : string; up_date : Z }.

Record blob_object : Type := mkObject { ob_bytes : list Z; ob_mtime : Z }.

Record uploads : Type := mkUploads {
  upload_parts : gmap part_id upload_part;
  objects : gmap string blob_object;
  upload_limits : rl_table;
  meant : gmap string (part_id * list Z)
}.

(** What a step meets: whether its call fails, the clocks, sixteen random bytes, the rows
    other transactions have locked. *)
Record up_env : Type := mkUpEnv {
  ue_fault : fault;
  ue_now : Z;
  ue_clock : Z;
  ue_between : rl_table -> rl_table;
  ue_random : list Z;
  ue_locked : list part_id
}.

Definition with_parts (m : gmap part_id upload_part) (s : uploads) : uploads :=
  mkUploads m (objects s) (upload_limits s) (meant s).
Definition with_objects (m : gmap string blob_object) (s : uploads) : uploads :=
  mkUploads (upload_parts s) m (upload_limits s) (meant s).

#[global] Instance uploads_limited : Limited uploads up_env := {
  limits := upload_limits;
  with_limits t s := mkUploads (upload_parts s) (objects s) t (meant s);
  lim_fault := ue_fault;
  lim_now := ue_now;
  lim_clock := ue_clock;
  lim_between := ue_between
}.

Inductive upload_error : Type :=
| ErrPartTooLarge | ErrFileTooLarge | ErrUploadQuota | ErrTooManyParts | ErrUploadStorage.

Definition MaxPartBytes : Z := 512 * 1024.
Definition MinPartBytesForRowCap : Z := 32 * 1024.

Definition partIndexOf (i : Z) : option Z := if (i <? 0) || (i >? 2 ^ 31 - 1) then None else Some i.

(** ** Statements *)

Definition UpsertUploadPart (id : part_id) (size : Z) (key : string) (now : Z) (s : uploads) : string * uploads :=
  match upload_parts s !! id with
  | Some prev => (up_key prev, with_parts (<[id := mkPart size key (up_date prev)]> (upload_parts s)) s)
  | None => (EmptyString, with_parts (<[id := mkPart size key now]> (upload_parts s)) s)
  end.

Definition of_file (u f : Z) (id : part_id) : bool := (id.1.1 =? u) && (id.1.2 =? f).
Definition of_user (u : Z) (id : part_id) : bool := id.1.1 =? u.

Definition FileOutstandingBytes (u f : Z) (s : uploads) : Z :=
  map_sum (fun id r => if of_file u f id then up_size r else 0) (upload_parts s).

(** The count of rows and the sum of sizes. *)
Definition UserOutstanding (u : Z) (s : uploads) : Z * Z :=
  (map_sum (fun id _ => if of_user u id then 1 else 0) (upload_parts s),
   map_sum (fun id r => if of_user u id then up_size r else 0) (upload_parts s)).

Record UploadPartRef : Type := mkRef { ref_Index : Z; ref_Key : string; ref_Size : Z }.

Definition index_le (a b : UploadPartRef) : Prop := ref_Index a <= ref_Index b.
#[global] Instance index_le_dec : RelDecision index_le.
Proof. intros a b. unfold index_le. apply _. Defined.

Definition UploadPartRefs (u f : Z) (s : uploads) : list UploadPartRef :=
  merge_sort index_le
    (omap (fun '(id, r) => if of_file u f id then Some (mkRef id.2 (up_key r) (up_size r)) else None)
          (map_to_list (upload_parts s))).

Definition UploadPartsSummary (u f : Z) (s : uploads) : Z * Z * Z :=
  (map_sum (fun id _ => if of_file u f id then 1 else 0) (upload_parts s),
   foldr (fun r m => Z.max (ref_Index r) m) (-1) (UploadPartRefs u f s),
   FileOutstandingBytes u f s).

Definition UploadPartKey (u f partIndex : Z) (s : uploads) : option (string * Z) :=
  match partIndexOf partIndex with
  | None => None
  | Some idx => match upload_parts s !! (u, f, idx) with Some r => Some (up_key r, up_size r) | None => None end
  end.

Definition date_le (a b : part_id * upload_part) : Prop := up_date a.2 <= up_date b.2.
#[global] Instance date_le_dec : RelDecision date_le.
Proof. intros a b. unfold date_le. apply _. Defined.

(** Oldest first, at most [lim], without the rows another transaction has locked. *)
Definition ClaimExpiredUploadParts (cutoff lim : Z) (locked : list part_id) (s : uploads) : list (part_id * string) :=
  take (Z.to_nat lim)
    (map (fun x : part_id * upload_part => (x.1, up_key x.2))
      (merge_sort date_le
        (List.filter (fun x : part_id * upload_part => (up_date x.2 <? cutoff) && negb (bool_decide (x.1 ∈ locked)))
                     (map_to_list (upload_parts s))))).

(** The rows deleted: one or none. *)
Definition DeleteUploadPartByKey (id : part_id) (key : string) (s : uploads) : Z * uploads :=
  match upload_parts s !! id with
  | Some r => if String.eqb (up_key r) key then (1, with_parts (delete id (upload_parts s)) s) else (0, s)
  | None => (0, s)
  end.

(** Whether some row names [key]. *)
Definition named (key : string) (s : uploads) : bool :=
  bool_decide (map_Exists (fun _ r => up_key r = key) (upload_parts s)).

Definition LivePartKeys (keys : list string) (s : uploads) : list string := List.filter (fun k => named k s) keys.

(** ** The blob store, by its contract *)

Definition blob_Put (key : string) (payload : list Z) (e : up_env) (s : uploads) : bool * uploads :=
  if ValidateKey key then (true, with_objects (<[key := mkObject payload (ue_now e)]> (objects s)) s) else (false, s).

Definition blob_Remove (key : string) (_ : up_env) (s : uploads) : bool * uploads :=
  if ValidateKey key then (true, with_objects (delete key (objects s)) s) else (false, s).

(** [None] for an error. *)
Definition blob_ReadAt (key : string) (offset limit : Z) (s : uploads) : option (list Z) :=
  if negb (ValidateKey key) then None
  else if (offset <? 0) || (limit <? 0) then None
  else if limit =? 0 then Some []
  else match objects s !! key with
       | None => None
       | Some o => Some (take (Z.to_nat limit) (drop (Z.to_nat offset) (ob_bytes o)))
       end.

Section programs.
Context {R : Type}.
Notation uprog := (prog uploads up_env R).

(** A call of the database, and one of the blob store with the error it may return. *)
Definition db_call {A : Type} (op : up_env -> uploads -> A * uploads) (k : option A -> uprog) : uprog :=
  store_call ue_fault op k.

Definition blob_call (op : up_env -> uploads -> bool * uploads) (k : bool -> uprog) : uprog :=
  store_call ue_fault op (fun a => k (match a with Some true => true | _ => false end)).

Definition removePartBytes (key : string) (k : bool -> uprog) : uprog :=
  if String.eqb key "" then k true else blob_call (blob_Remove key) k.

(** *** Saving a part *)

(** Upsert, then read the sums back, and roll back past a cap. *)
Definition save_tx (u f idx : Z) (payload : list Z) (maxFileBytes : Z) (e : up_env) (s : uploads) :
    result upload_error (string * string) * uploads :=
  let key := NewPartKey (ue_random e) in
  let '(superseded, s1) := UpsertUploadPart (u, f, idx) (len payload) key (ue_now e) s in
  if FileOutstandingBytes u f s1 >? maxFileBytes then (Err ErrFileTooLarge, s)
  else
    let '(parts, total) := UserOutstanding u s1 in
    if total >? 2 * maxFileBytes then (Err ErrUploadQuota, s)
    else
      let maxParts := 2 * Z.quot (maxFileBytes + MinPartBytesForRowCap - 1) MinPartBytesForRowCap in
      if parts >? maxParts then (Err ErrTooManyParts, s)
      else (Ok (key, superseded),
            mkUploads (upload_parts s1) (objects s1) (upload_limits s1) (<[key := ((u, f, idx), payload)]> (meant s1))).

Definition dropUnnamedPartBytes (u f partIndex : Z) (key : string) (k : bool -> uprog) : uprog :=
  db_call (fun _ s => (UploadPartKey u f partIndex s, s)) (fun a =>
    match a with
    | None => k false
    | Some (Some (current, _)) => if String.eqb current key then k true else removePartBytes key k
    | Some None => removePartBytes key k
    end).

(** The byte work after the commit. *)
Definition save_bytes (u f partIndex : Z) (key superseded : string) (payload : list Z)
    (k : option upload_error -> uprog) : uprog :=
  blob_call (blob_Put key payload) (fun put =>
    let finish := if put then dropUnnamedPartBytes u f partIndex key (fun _ => k None) else k (Some ErrUploadStorage) in
    if negb (String.eqb superseded "") && negb (String.eqb superseded key)
    then removePartBytes superseded (fun _ => finish)
    else finish).

Definition SaveUploadPart (u f partIndex : Z) (payload : list Z) (maxFileBytes : Z)
    (k : option upload_error -> uprog) : uprog :=
  if (len payload =? 0) || (len payload >? MaxPartBytes) then k (Some ErrPartTooLarge)
  else
    match partIndexOf partIndex with
    | None => k (Some ErrPartTooLarge)
    | Some idx =>
        db_call (save_tx u f idx payload maxFileBytes) (fun a =>
          match a with
          | None => k (Some ErrUploadStorage)
          | Some (Err x) => k (Some x)
          | Some (Ok (key, superseded)) => save_bytes u f partIndex key superseded payload k
          end)
    end.

(** *** Retiring rows *)

Fixpoint retire_rows (rows : list (part_id * string)) (retired : list string) (s : uploads) : list string * uploads :=
  match rows with
  | [] => (retired, s)
  | (id, key) :: rows =>
      let '(n, s) := DeleteUploadPartByKey id key s in
      retire_rows rows (if n >? 0 then retired ++ [key] else retired) s
  end.

(** Errors are logged. *)
Fixpoint collect_retired (keys : list string) (k : uprog) : uprog :=
  match keys with
  | [] => k
  | key :: keys => removePartBytes key (fun _ => collect_retired keys k)
  end.

Definition retirePartRows (rows : list (part_id * string)) (k : option Z -> uprog) : uprog :=
  match rows with
  | [] => k (Some 0)
  | _ =>
      db_call (fun _ s => retire_rows rows [] s) (fun a =>
        match a with
        | None => k None
        | Some retired => collect_retired retired (k (Some (len retired)))
        end)
  end.

Fixpoint remove_claimed (rows : list (part_id * string)) (fail next : uprog) : uprog :=
  match rows with
  | [] => next
  | (_, key) :: rows => removePartBytes key (fun ok => if ok then remove_claimed rows fail next else fail)
  end.

Definition DeleteUploadParts (u f : Z) (k : option Z -> uprog) : uprog :=
  db_call (fun _ s => (UploadPartRefs u f s, s)) (fun a =>
    match a with
    | None => k None
    | Some refs =>
        let rows := map (fun r => ((u, f, ref_Index r), ref_Key r)) refs in
        remove_claimed rows (k None) (retirePartRows rows k)
    end).

Definition deleteExpiredUploadParts (cutoff batch : Z) (k : option Z -> uprog) : uprog :=
  if (batch <=? 0) || (batch >? 2 ^ 31 - 1) then k None
  else
    db_call (fun e s => (ClaimExpiredUploadParts cutoff batch (ue_locked e) s, s)) (fun a =>
      match a with
      | None => k None
      | Some [] => k (Some 0)
      | Some claimed => remove_claimed claimed (k None) (retirePartRows claimed k)
      end).

(** The drain: what was retired, and whether it ended without an error.  A pass that retires
    a full batch is followed by another; [fuel] bounds the passes. *)
Fixpoint SweepExpiredUploadParts (fuel : nat) (cutoff batch total : Z) (k : Z * bool -> uprog) : uprog :=
  match fuel with
  | O => k (total, false)
  | S fuel =>
      deleteExpiredUploadParts cutoff batch (fun n =>
        match n with
        | None => k (total, false)
        | Some n =>
            if n <? batch then k (total + n, true)
            else SweepExpiredUploadParts fuel cutoff batch (total + n) k
        end)
  end.

(** *** Reclaiming objects no row names *)

Definition PartOrphanGateBatch : Z := 500.
Definition hour : Z := 60 * minute.
Definition PartOrphanMargin (ttl : Z) : Z := Z.quot ttl 4 + hour.

Record partCandidate : Type := mkCandidate { pc_key : string; pc_path : string; pc_size : Z }.

(** [strings.CutSuffix], the rest of the string or itself. *)
Fixpoint strip_suffix (suf s : string) : option string :=
  if String.eqb s suf then Some EmptyString
  else match s with
       | EmptyString => None
       | String c s' => match strip_suffix suf s' with Some r => Some (String c r) | None => None end
       end.

Definition CutSuffix (s suf : string) : string := default s (strip_suffix suf s).

(** What the walk makes of an entry of the listing. *)
Definition candidate (cutoff : Z) (path : string) (o : blob_object) : option partCandidate :=
  let key := CutSuffix path TempSuffix in
  if negb (ParsePartKey key) then None
  else if negb (ob_mtime o <? cutoff) then None
  else Some (mkCandidate key path (len (ob_bytes o))).

(** Objects and bytes removed so far. *)
Definition orphan_count : Type := Z * Z.

Fixpoint gate_remove (live : list string) (batch : list partCandidate) (res : orphan_count)
    (fail : orphan_count -> uprog) (next : orphan_count -> uprog) : uprog :=
  match batch with
  | [] => next res
  | c :: batch =>
      if bool_decide (pc_key c ∈ live) then gate_remove live batch res fail next
      else blob_call (blob_Remove (pc_path c)) (fun ok =>
             if ok then gate_remove live batch (res.1 + 1, res.2 + pc_size c) fail next else fail res)
  end.

Definition gate (batch : list partCandidate) (res : orphan_count)
    (fail : orphan_count -> uprog) (next : orphan_count -> uprog) : uprog :=
  match batch with
  | [] => next res
  | _ =>
      db_call (fun _ s => (LivePartKeys (map pc_key batch) s, s)) (fun a =>
        match a with
        | None => fail res
        | Some live => gate_remove live batch res fail next
        end)
  end.

(** The walk streams: an entry of the listing is looked at when the walk comes to it, and may
    be gone by then.  [listing] is the order of the directory; everything in the model's
    store is a regular file. *)
Fixpoint walk_parts (cutoff : Z) (listing : list string) (batch : list partCandidate) (res : orphan_count)
    (fail done : orphan_count -> uprog) : uprog :=
  match listing with
  | [] => gate batch res fail done
  | path :: listing =>
      store_call ue_fault (fun _ s => (objects s !! path, s)) (fun a =>
        match a with
        | None => fail res
        | Some o =>
            match o ≫= candidate cutoff path with
            | None => walk_parts cutoff listing batch res fail done
            | Some c =>
                let batch := batch ++ [c] in
                if len batch <? PartOrphanGateBatch then walk_parts cutoff listing batch res fail done
                else gate batch res fail (fun res => walk_parts cutoff listing [] res fail done)
            end
        end)
  end.

(** Both outcomes carry what was removed. *)
Definition ReclaimOrphanedPartBytes (cutoff partTTL : Z) (listing : list string)
    (k : orphan_count * bool -> uprog) : uprog :=
  Act (fun _ s => s) (fun e _ =>
    let floor := ue_now e - (partTTL + PartOrphanMargin partTTL) in
    let cutoff := if cutoff >? floor then floor else cutoff in
    walk_parts cutoff (List.filter (fun p => HasPrefix p PartsPrefix) listing) [] (0, 0)
      (fun res => k (res, false)) (fun res => k (res, true))).

(** *** Reading a part back *)

Definition ReadUploadPart (ref : UploadPartRef) (k : option (list Z) -> uprog) : uprog :=
  if String.eqb (ref_Key ref) "" then k None
  else db_call (fun _ s => (blob_ReadAt (ref_Key ref) 0 (ref_Size ref) s, s)) (fun a =>
         match a with
         | Some (Some b) => if len b =? ref_Size ref then k (Some b) else k None
         | _ => k None
         end).

(** [Some None] for a part that is not there, [None] for an error. *)
Definition UploadPart (u f partIndex : Z) (k : option (option (list Z)) -> uprog) : uprog :=
  db_call (fun _ s => (UploadPartKey u f partIndex s, s)) (fun a =>
    match a with
    | None => k None
    | Some None => k (Some None)
    | Some (Some (key, size)) =>
        ReadUploadPart (mkRef partIndex key size) (fun b => k (match b with Some b => Some (Some b) | None => None end))
    end).

End programs.

(** ** The handlers *)

Definition errFilePartInvalid := mkErr 400 "FILE_PART_INVALID".
Definition errFilePartTooBig := mkErr 400 "FILE_PART_TOO_BIG".
Definition errStorageQuota := mkErr 420 "FLOOD_WAIT_60".

(** How a request ends: an RPC reply, or what a background pass reports. *)
Inductive up_reply : Type :=
| UTrue
| UError (e : rpc_error)
| URetired (n : option Z)
| USwept (total : Z) (ok : bool)
| UReclaimed (res : orphan_count) (ok : bool)
| UPayload (b : option (option (list Z))).

Notation up_prog := (prog uploads up_env up_reply).

(** The settings of [handlers] in use here. *)
Record up_config : Type := mkUpConfig { maxFileBytes : Z; rateLimitSaveFilePart : RateLimitConfig }.

Section handlers.
Context (h : up_config).

Definition maxFileParts : Z := Z.quot (maxFileBytes h + MaxPartBytes - 1) MaxPartBytes.

Definition part_error (x : upload_error) : rpc_error :=
  match x with
  | ErrPartTooLarge | ErrFileTooLarge => errFilePartTooBig
  | ErrUploadQuota | ErrTooManyParts => errStorageQuota
  | ErrUploadStorage => errInternal
  end.

Definition saveUploadPart (r : Request) (fileID part : Z) (payload : list Z) : up_prog :=
  checkRateLimit r "save_file_part" (rateLimitSaveFilePart h) (fun denied =>
    match denied with
    | Some x => Ret (UError x)
    | None =>
        SaveUploadPart (r_UserID r) fileID part payload (maxFileBytes h) (fun x =>
          match x with None => Ret UTrue | Some x => Ret (UError (part_error x)) end)
    end).

Definition handleSaveFilePart (r : Request) (fileID part : Z) (payload : list Z) : up_prog :=
  if r_UserID r =? 0 then Ret (UError errAuthKeyUnreg)
  else if (fileID =? 0) || (part <? 0) || (part >=? maxFileParts) then Ret (UError errFilePartInvalid)
  else saveUploadPart r fileID part payload.

Definition handleSaveBigFilePart (r : Request) (fileID part total : Z) (payload : list Z) : up_prog :=
  if r_UserID r =? 0 then Ret (UError errAuthKeyUnreg)
  else if (fileID =? 0) || (part <? 0) || (part >=? maxFileParts) then Ret (UError errFilePartInvalid)
  else if (total <=? 0) || (total >? maxFileParts) then Ret (UError errFilePartInvalid)
  else if part >=? total then Ret (UError errFilePartInvalid)
  else saveUploadPart r fileID part payload.

(** Everything that touches parts: the two save handlers, the cleanup after an assembly, the
    sweep of expired parts, the pass over orphaned objects, and the reading of a part. *)
Inductive up_request : Type :=
| ReqSave (r : Request) (fileID part : Z) (payload : list Z)
| ReqSaveBig (r : Request) (fileID part total : Z) (payload : list Z)
| ReqCleanup (userID fileID : Z)
| ReqSweep (passes : nat) (cutoff batch : Z)
| ReqReclaim (cutoff partTTL : Z) (listing : list string)
| ReqRead (userID fileID part : Z).

Definition up_program (q : up_request) : up_prog :=
  match q with
  | ReqSave r fileID part payload => handleSaveFilePart r fileID part payload
  | ReqSaveBig r fileID part total payload => handleSaveBigFilePart r fileID part total payload
  | ReqCleanup u f => DeleteUploadParts u f (fun n => Ret (URetired n))
  | ReqSweep passes cutoff batch => SweepExpiredUploadParts passes cutoff batch 0 (fun '(n, ok) => Ret (USwept n ok))
  | ReqReclaim cutoff ttl listing => ReclaimOrphanedPartBytes cutoff ttl listing (fun '(res, ok) => Ret (UReclaimed res ok))
  | ReqRead u f part => UploadPart u f part (fun b => Ret (UPayload b))
  end.

End handlers.
