(* ===== verification/UploadSafety.v ===== *)
(** * Uploads: rows and objects stay in step

    What the rows and the objects have to do with each other at every moment, what a request
    may rely on while others run, and the two debts: an object that no row names, and a row
    whose object is not there. *)

From S2P Require Import Prelude.
From S2P Require Import NetAddr.
From S2P Require Import GoStrings.
From S2P Require Import RateLimit.
From S2P Require Import Threads.
From S2P Require Import Limits.
From S2P Require Import BlobKeys.
From S2P Require Import Sums.
From S2P Require Import Uploads.
From Stdlib Require Import Ascii String.

Open Scope Z_scope.

Definition row_cap (max : Z) : Z := 2 * Z.quot (max + MinPartBytesForRowCap - 1) MinPartBytesForRowCap.

(** A row names no object (rows from before the object store) or the key it was saved
    under; an object under a part key holds what was saved under it; the caps hold. *)
Record up_ok (max : Z) (s : uploads) : Prop := {
  uo_rows : forall id r, upload_parts s !! id = Some r ->
    0 < up_size r <= MaxPartBytes /\ 0 <= id.2 <= 2 ^ 31 - 1 /\
    (up_key r = ""%string \/ exists p, meant s !! up_key r = Some (id, p) /\ up_size r = len p);
  uo_keys : forall k, is_Some (meant s !! k) -> ParsePartKey k = true;
  uo_bytes : forall k o, objects s !! k = Some o -> ParsePartKey k = true ->
    exists id, meant s !! k = Some (id, ob_bytes o);
  uo_file : forall u f, FileOutstandingBytes u f s <= max;
  uo_user : forall u, (UserOutstanding u s).2 <= 2 * max;
  uo_count : forall u, (UserOutstanding u s).1 <= row_cap max
}.

(** A key once placed is never placed again. *)
Record up_guar (s s' : uploads) : Prop := {
  ug_meant : forall k x, meant s !! k = Some x -> meant s' !! k = Some x;
  ug_named : forall k, named k s' = true -> named k s = true \/ meant s !! k = None
}.

Inductive up_fact : Type :=
| Known (k : string)
| Placed (k : string) (id : part_id)
| Payload (k : string) (p : list Z)
| Dead (k : string).

Definition up_holds (f : up_fact) (s : uploads) : Prop :=
  match f with
  | Known k => is_Some (meant s !! k)
  | Placed k id => k = ""%string \/ exists p, meant s !! k = Some (id, p)
  | Payload k p => exists id, meant s !! k = Some (id, p)
  | Dead k => is_Some (meant s !! k) /\ named k s = false
  end.

Inductive debt : Type := Orphan (k : string) | Missing (k : string).

#[global] Instance debt_eq_dec : EqDecision debt.
Proof. solve_decision. Defined.

Definition untidy (s : uploads) (d : debt) : Prop :=
  match d with
  | Orphan k => ParsePartKey k = true /\ is_Some (objects s !! k) /\ named k s = false
  | Missing k => k <> ""%string /\ named k s = true /\ objects s !! k = None
  end.

(** The sixteen bytes drawn have not been drawn for a part before. *)
Definition fresh_draw (e : up_env) (s : uploads) : Prop :=
  Forall is_byte (ue_random e) /\ List.length (ue_random e) = 16%nat /\ meant s !! NewPartKey (ue_random e) = None.

(** [quiet] runs have no failing call, and are the ones that owe tidiness. *)
Definition up_allowed (quiet : bool) (e : up_env) (s : uploads) : Prop :=
  (quiet = true -> ue_fault e = NoFault) /\ fresh_draw e s.

Definition up_mess (quiet : bool) (s : uploads) (d : debt) : Prop := quiet = true /\ untidy s d.

(** ** Names *)

Lemma named_spec k s : named k s = true <-> exists id r, upload_parts s !! id = Some r /\ up_key r = k.
Proof. unfold named. rewrite bool_decide_eq_true. unfold map_Exists. naive_solver. Qed.

Lemma named_false k s : named k s = false <-> forall id r, upload_parts s !! id = Some r -> up_key r <> k.
Proof.
  rewrite <- not_true_iff_false, named_spec. split.
  - intros H id r Hr E. apply H. by exists id, r.
  - intros H (id & r & Hr & E). by eapply H.
Qed.

Lemma named_same k s s' : upload_parts s' = upload_parts s -> named k s' = named k s.
Proof. intros E. unfold named. by rewrite E. Qed.

Lemma up_guar_refl s : up_guar s s.
Proof. constructor; auto. Qed.

Lemma up_holds_guar max f s s' : up_ok max s -> up_holds f s -> up_guar s s' -> up_holds f s'.
Proof.
  intros _ H [Gm Gn]. destruct f as [k|k id|k p|k]; cbn in *.
  - destruct H as [x Hx]. exists x. by apply Gm.
  - destruct H as [->|[p Hp]]; [by left|right; exists p; by apply Gm].
  - destruct H as [id Hid]. exists id. by apply Gm.
  - destruct H as [[x Hx] Hn]. split; [exists x; by apply Gm|]. apply not_true_iff_false. intros H'.
    destruct (Gn k H') as [E|E]; congruence.
Qed.

(** A key is named by the row it was placed in or by none. *)
Lemma named_at max s k id : up_ok max s -> k <> ""%string -> up_holds (Placed k id) s ->
  named k s = true <-> exists r, upload_parts s !! id = Some r /\ up_key r = k.
Proof.
  intros Ho Hk [E|[p Hp]]; [done|]. rewrite named_spec. split; [|intros (r & Hr & E); by exists id, r].
  intros (j & r & Hr & E). destruct (uo_rows _ _ Ho j r Hr) as (_ & _ & [E'|(q & Hq & _)]); [congruence|].
  rewrite E in Hq. simplify_map_eq. by exists r.
Qed.

Lemma named_known max s k : up_ok max s -> k <> ""%string -> named k s = true -> is_Some (meant s !! k).
Proof.
  intros Ho Hk (id & r & Hr & E)%named_spec. destruct (uo_rows _ _ Ho id r Hr) as (_ & _ & [E'|(q & Hq & _)]); [congruence|].
  rewrite E in Hq. by eexists.
Qed.

(** ** Steps that leave the rows alone *)

Lemma same_rows_ok max s s' :
  up_ok max s -> upload_parts s' = upload_parts s -> meant s' = meant s ->
  (forall k o, objects s' !! k = Some o -> ParsePartKey k = true -> exists id, meant s !! k = Some (id, ob_bytes o)) ->
  up_ok max s' /\ up_guar s s'.
Proof.
  intros [H1 H2 H3 H4 H5 H6] Ep Em Hb. split.
  - constructor; unfold FileOutstandingBytes, UserOutstanding in *; rewrite ?Ep, ?Em; try done.
  - constructor; rewrite ?Em; [done|]. intros k. rewrite (named_same k s s' Ep). by left.
Qed.

Lemma part_put_ok max s key p now id :
  up_ok max s -> meant s !! key = Some (id, p) ->
  up_ok max (with_objects (<[key := mkObject p now]> (objects s)) s) /\
  up_guar s (with_objects (<[key := mkObject p now]> (objects s)) s).
Proof.
  intros Ho Hk. apply same_rows_ok; [done|done|done|]. cbn. intros k o [[<- <-]|[Hne Ho']]%lookup_insert_Some Hp.
  - by exists id.
  - by apply (uo_bytes _ _ Ho).
Qed.

Lemma remove_ok max s key :
  up_ok max s ->
  up_ok max (with_objects (delete key (objects s)) s) /\ up_guar s (with_objects (delete key (objects s)) s).
Proof.
  intros Ho. apply same_rows_ok; [done|done|done|]. cbn. intros k o [Hne Ho']%lookup_delete_Some Hp.
  by apply (uo_bytes _ _ Ho).
Qed.

(** ** Deleting rows *)

Lemma part_row_gone_ok max s id :
  up_ok max s -> up_ok max (with_parts (delete id (upload_parts s)) s) /\ up_guar s (with_parts (delete id (upload_parts s)) s).
Proof.
  intros Ho. split.
  - constructor; cbn; try by apply Ho.
    + intros j r [_ Hr]%lookup_delete_Some. by apply (uo_rows _ _ Ho).
    + intros u f. etransitivity; [|apply (uo_file _ _ Ho u f)]. apply map_sum_delete_le.
      intros r Hr. destruct (uo_rows _ _ Ho _ _ Hr). case_match; lia.
    + intros u. etransitivity; [|apply (uo_user _ _ Ho u)]. cbn. apply map_sum_delete_le.
      intros r Hr. destruct (uo_rows _ _ Ho _ _ Hr). case_match; lia.
    + intros u. etransitivity; [|apply (uo_count _ _ Ho u)]. cbn. apply map_sum_delete_le. intros. case_match; lia.
  - constructor; cbn; [done|]. intros k (j & r & Hr & E)%named_spec. cbn in Hr. apply lookup_delete_Some in Hr as [_ Hr]. left.
    apply named_spec. by exists j, r.
Qed.

(** ** The saving transaction *)

(** What a committed save leaves: its row, its key, the sums it has just read. *)
Record saved (max : Z) (id : part_id) (p : list Z) (key superseded : string) (s s' : uploads) : Prop := {
  sv_parts : exists date, upload_parts s' = <[id := mkPart (len p) key date]> (upload_parts s);
  sv_meant : meant s' = <[key := (id, p)]> (meant s);
  sv_objects : objects s' = objects s;
  sv_superseded : superseded = match upload_parts s !! id with Some r => up_key r | None => ""%string end;
  sv_file : FileOutstandingBytes id.1.1 id.1.2 s' <= max;
  sv_user : (UserOutstanding id.1.1 s').2 <= 2 * max;
  sv_count : (UserOutstanding id.1.1 s').1 <= row_cap max
}.

Lemma UpsertUploadPart_spec (id : part_id) size key now s :
  exists date, UpsertUploadPart id size key now s =
    (match upload_parts s !! id with Some r => up_key r | None => ""%string end,
     with_parts (<[id := mkPart size key date]> (upload_parts s)) s).
Proof. unfold UpsertUploadPart. case_match; by eexists. Qed.

Lemma save_tx_spec u f idx p max e s :
  match save_tx u f idx p max e s with
  | (Err _, s') => s' = s
  | (Ok (key, superseded), s') =>
      key = NewPartKey (ue_random e) /\ saved max (u, f, idx) p key superseded s s'
  end.
Proof.
  unfold save_tx. destruct (UpsertUploadPart (u, f, idx) (len p) (NewPartKey (ue_random e)) (ue_now e) s) as [sup s1] eqn:Es.
  destruct (Z.gtb_spec (FileOutstandingBytes u f s1) max); [done|].
  destruct (UserOutstanding u s1) as [n total] eqn:Eu. destruct (Z.gtb_spec total (2 * max)); [done|].
  destruct (Z.gtb_spec n (2 * Z.quot (max + MinPartBytesForRowCap - 1) MinPartBytesForRowCap)); [done|].
  split; [done|].
  destruct (UpsertUploadPart_spec (u, f, idx) (len p) (NewPartKey (ue_random e)) (ue_now e) s) as (date & Hs1).
  rewrite Es in Hs1. simplify_eq.
  unfold UserOutstanding in Eu. simplify_eq.
  constructor; cbn [upload_parts objects meant fst snd with_parts]; try done; [by exists date|..].
  all: unfold FileOutstandingBytes, UserOutstanding, row_cap in *; cbn [upload_parts with_parts fst snd] in *; lia.
Qed.

Lemma saved_ok max u f idx p key sup s s' :
  up_ok max s -> 0 < len p <= MaxPartBytes -> 0 <= idx <= 2 ^ 31 - 1 ->
  ParsePartKey key = true -> meant s !! key = None ->
  saved max (u, f, idx) p key sup s s' -> up_ok max s' /\ up_guar s s'.
Proof.
  intros Ho Hl Hi Hp Hfresh [[date Ep] Em Eo Es Hf Hu Hc]. cbn [fst snd] in *.
  assert (Hkey : key <> ""%string) by (by intros ->).
  assert (Hold : forall k x, meant s !! k = Some x -> meant s' !! k = Some x).
  { intros k x Hk. rewrite Em, lookup_insert_ne; [done|]. intros ->. congruence. }
  split.
  - constructor.
    + intros id r. rewrite Ep. intros [[<- <-]|[Hne Hr]]%lookup_insert_Some; cbn.
      * split_and!; try lia. right. exists p. by rewrite Em, lookup_insert_eq.
      * destruct (uo_rows _ _ Ho id r Hr) as (H1 & H2 & [E|(q & Hq & E)]); split_and!; try lia; [by left|].
        right. exists q. split; [by apply Hold|done].
    + intros k. rewrite Em. intros [x [[<- _]|[Hne Hx]]%lookup_insert_Some]; [done|]. apply (uo_keys _ _ Ho). by exists x.
    + intros k o. rewrite Eo. intros Hk Hpk. destruct (uo_bytes _ _ Ho k o Hk Hpk) as [id Hid]. exists id. by apply Hold.
    + intros u' f'. destruct (decide (u' = u /\ f' = f)) as [[-> ->]|Hne]; [done|].
      etransitivity; [|apply (uo_file _ _ Ho u' f')]. unfold FileOutstandingBytes. rewrite Ep, map_sum_insert_zero; [done|].
      intros v. unfold of_file. cbn. destruct (Z.eqb_spec u u'), (Z.eqb_spec f f'); try done. by destruct Hne.
    + intros u'. destruct (decide (u' = u)) as [->|Hne]; [done|].
      etransitivity; [|apply (uo_user _ _ Ho u')]. cbn. rewrite Ep, map_sum_insert_zero; [done|].
      intros v. unfold of_user. cbn. by destruct (Z.eqb_spec u u').
    + intros u'. destruct (decide (u' = u)) as [->|Hne]; [done|].
      etransitivity; [|apply (uo_count _ _ Ho u')]. cbn. rewrite Ep, map_sum_insert_zero; [done|].
      intros v. unfold of_user. cbn. by destruct (Z.eqb_spec u u').
  - constructor; [done|]. intros k (j & r & Hr & E)%named_spec. rewrite Ep in Hr.
    apply lookup_insert_Some in Hr as [[<- <-]|[Hne Hr]]; cbn in E; subst; [by right|]. left. apply named_spec. by exists j, r.
Qed.

(** The keys named after a save are its own and those named before by other rows. *)
Lemma saved_named max id p key sup s s' k :
  saved max id p key sup s s' -> named k s' = true <->
  k = key \/ exists j r, j <> id /\ upload_parts s !! j = Some r /\ up_key r = k.
Proof.
  intros [[date Ep] _ _ _ _ _ _]. rewrite named_spec, Ep. split.
  - intros (j & r & [[<- <-]|[Hne Hr]]%lookup_insert_Some & E); [by left|right; by exists j, r].
  - intros [->|(j & r & Hne & Hr & E)].
    + exists id, (mkPart (len p) key date). by rewrite lookup_insert_eq.
    + exists j, r. by rewrite lookup_insert_ne.
Qed.

(** * Uploads: every request pays its debts

    Each operation of [Uploads] keeps rows and objects in step and, in a run without
    failures, cleans up after itself: one lemma per operation, following its code. *)

Section duties.
Context (quiet : bool) (max : Z) {R : Type}.

Notation uprog := (prog uploads up_env R).
Notation learnt := (knows up_holds).

Definition tidies (L : list up_fact) (O : list debt) (p : uprog) : Prop :=
  pays (up_allowed quiet) (up_ok max) up_guar up_holds (up_mess quiet) L O p.

(** ** Rules *)

Lemma tidies_more L L' O p : L' ⊆ L -> tidies L' O p -> tidies L O p.
Proof. apply pays_weaken. Qed.

Lemma tidies_fewer L O O' p : O ⊆ O' -> tidies L O' p -> tidies L O p.
Proof.
  destruct p as [r|f k]; intros Hsub H.
  - cbn in *. subst. by apply list_nil_subseteq.
  - intros e s He Hs HL. destruct (H e s He Hs HL) as (H1 & H2 & L1 & O1 & H3 & H4 & H5). split_and!; [done|done|].
    exists L1, O1. split_and!; [done|done|]. intros d Hd. destruct (H5 d Hd) as [?|[? Hn]]; [by left|right]. split; [done|].
    intros Hin. by apply Hn, Hsub.
Qed.

(** A call: where it takes effect, and, when calls may fail, what follows an error. *)
Lemma tidies_call {A} L O (op : up_env -> uploads -> A * uploads) k :
  (forall e s, fresh_draw e s -> up_ok max s -> learnt L s ->
     up_ok max (op e s).2 /\ up_guar s (op e s).2 /\
     exists L' O', learnt L' (op e s).2 /\ tidies L' O' (k (Some (op e s).1)) /\
       forall d, untidy (op e s).2 d -> d ∈ O' \/ (untidy s d /\ d ∉ O)) ->
  (quiet = false -> exists O', tidies L O' (k None)) ->
  tidies L O (store_call ue_fault op k).
Proof.
  intros Hop Hnone e s [Hq Hfr] Hs HL. destruct (Hop e s Hfr Hs HL) as (H1 & H2 & L' & O' & H3 & H4 & H5).
  destruct (ue_fault e) eqn:Ef.
  - split_and!; [done|done|]. exists L', O'. split_and!; [done|done|]. intros d [Hqt Hd]. destruct (H5 d Hd) as [?|[? ?]]; [by left|by right].
  - destruct quiet; [by specialize (Hq eq_refl)|]. destruct (Hnone eq_refl) as [O1 Hn].
    split_and!; [done|apply up_guar_refl|]. exists L, O1. split_and!; [done|done|]. by intros d [? _].
  - destruct quiet; [by specialize (Hq eq_refl)|]. destruct (Hnone eq_refl) as [O1 Hn].
    split_and!; [done|done|]. exists L, O1. split_and!; [|done|by intros d [? _]].
    eapply (duty_knows_guar (up_ok max)); [apply up_holds_guar|exact Hs|done|done].
Qed.

(** A read: it teaches something, and settles debts that turn out not to be. *)
Lemma tidies_read {A} L O (read : up_env -> uploads -> A) k :
  (forall e s, up_ok max s -> learnt L s ->
     exists L' O', learnt L' s /\ tidies L' O' (k (Some (read e s))) /\ forall d, d ∈ O -> untidy s d -> d ∈ O') ->
  (quiet = false -> exists O', tidies L O' (k None)) ->
  tidies L O (store_call ue_fault (fun e s => (read e s, s)) k).
Proof.
  intros H Hn. apply tidies_call; [|done]. intros e s _ Hs HL. cbn.
  destruct (H e s Hs HL) as (L' & O' & H1 & H2 & H3). split_and!; [done|apply up_guar_refl|].
  exists L', O'. split_and!; [done|done|]. intros d Hd. destruct (decide (d ∈ O)); [left; by apply H3|by right].
Qed.

(** Deleting an object settles its own orphanhood and leaves its row, if any, without. *)
Lemma tidies_remove L O O' key k :
  (forall s, up_ok max s -> learnt L s -> key = ""%string \/ is_Some (meant s !! key)) ->
  Missing key ∈ O' \/ (forall s, learnt L s -> named key s = false) \/ key = ""%string ->
  (forall d, d ∈ O -> d ∈ O' \/ (d = Orphan key /\ key <> ""%string)) ->
  tidies L O' (k true) -> (quiet = false -> exists O', tidies L O' (k false)) ->
  tidies L O (removePartBytes key k).
Proof.
  intros Hknown Hmiss HO Hk Hf. unfold removePartBytes. destruct (String.eqb_spec key "") as [->|Hne].
  - eapply tidies_fewer; [|exact Hk]. intros d Hd. by destruct (HO d Hd) as [?|[_ ?]].
  - unfold blob_call. apply tidies_call; [|intros E; by apply Hf]. intros e s _ Hs HL. unfold blob_Remove.
    destruct (Hknown s Hs HL) as [?|Hkn]; [done|].
    assert (Hp : ParsePartKey key = true) by (by apply (uo_keys _ _ Hs)).
    rewrite ParsePartKey_valid by done. cbn [fst snd]. destruct (remove_ok max s key Hs) as [H1 H2].
    split_and!; [done|done|]. exists L, O'. split_and!; [|done|].
    + eapply (duty_knows_guar (up_ok max)); [apply up_holds_guar|exact Hs|done|done].
    + intros d Hd. destruct d as [x|x]; cbn in Hd.
      * destruct Hd as (Hx & [o [Hxk Ho]%lookup_delete_Some] & Hn). destruct (decide (Orphan x ∈ O)) as [Hin|]; [|right].
        { left. destruct (HO _ Hin) as [?|[[= ->] _]]; done. }
        split; [|done]. cbn. split_and!; [done|by exists o|]. by rewrite <- Hn.
      * destruct Hd as (Hx & Hn & Ho). rewrite (named_same x s) in Hn by done. destruct (decide (x = key)) as [->|Hxk].
        { left. destruct Hmiss as [?|[Hz|?]]; [done| |done]. rewrite Hz in Hn by done. done. }
        rewrite lookup_delete_ne in Ho by done. destruct (decide (Missing x ∈ O)) as [Hin|]; [|by right].
        left. by destruct (HO _ Hin) as [?|[? _]].
Qed.

Lemma learnt_in L s f : f ∈ L -> learnt L s -> up_holds f s.
Proof. intros Hf HL. by apply HL. Qed.

(** *** Saving a part *)

Lemma tidies_drop u f idx key p (k : bool -> uprog) :
  0 <= idx <= 2 ^ 31 - 1 -> key <> ""%string -> (forall b L, tidies L [] (k b)) ->
  tidies [Placed key (u, f, idx); Payload key p] [Orphan key] (dropUnnamedPartBytes u f idx key k).
Proof.
  intros Hidx Hne Hk. unfold dropUnnamedPartBytes, db_call. apply tidies_read; [|intros _; by eexists].
  intros e s Hs HL. assert (Hat := named_at max s key (u, f, idx) Hs Hne (learnt_in _ _ _ (list_elem_of_here _ _) HL)).
  unfold UploadPartKey, partIndexOf. replace ((idx <? 0) || (idx >? 2 ^ 31 - 1)) with false by lia.
  assert (Hdead : named key s = false ->
    exists L' O', learnt L' s /\ tidies L' O' (removePartBytes key k) /\ forall d, d ∈ [Orphan key] -> untidy s d -> d ∈ O').
  { intros Hn. exists [Dead key], [Orphan key]. split_and!; [| |done].
    - apply duty_knows_cons; [|apply duty_knows_nil]. split; [|done].
      destruct (learnt_in _ _ (Placed key (u, f, idx)) (list_elem_of_here _ _) HL) as [?|[q Hq]]; [done|by eexists].
    - apply (tidies_remove _ _ []); [| | |done|by eexists].
      + intros s' _ HL'. right. by destruct (learnt_in _ _ (Dead key) (list_elem_of_here _ _) HL').
      + right. left. intros s' HL'. by destruct (learnt_in _ _ (Dead key) (list_elem_of_here _ _) HL').
      + intros d ->%list_elem_of_singleton. by right. }
  destruct (upload_parts s !! (u, f, idx)) as [r|] eqn:Er.
  - destruct (String.eqb_spec (up_key r) key) as [E|E].
    + exists [], []. split_and!; [apply duty_knows_nil|done|]. intros d ->%list_elem_of_singleton (_ & _ & Hn).
      assert (named key s = true) by (apply Hat; by exists r). congruence.
    + apply Hdead. apply not_true_iff_false. intros (r' & Hr' & E')%Hat. congruence.
  - apply Hdead. apply not_true_iff_false. intros (r' & Hr' & E')%Hat. congruence.
Qed.

(** What replacing a key teaches and costs: nothing when there was none. *)
Definition replaced (key : string) : list up_fact := if String.eqb key "" then [] else [Dead key].
Definition owed (key : string) : list debt := if String.eqb key "" then [] else [Orphan key].

Lemma owed_not_missing x key : Missing x ∉ owed key.
Proof. unfold owed. case_match; [apply not_elem_of_nil|]. by intros ?%list_elem_of_singleton. Qed.

Lemma tidies_collect L O key (k : bool -> uprog) :
  replaced key ⊆ L -> (forall b, tidies L O (k b)) -> tidies L (owed key ++ O) (removePartBytes key k).
Proof.
  intros Hsub Hk. unfold replaced, owed in *. destruct (String.eqb_spec key "") as [->|Hne].
  - unfold removePartBytes. cbn. apply Hk.
  - assert (HD : forall s, learnt L s -> up_holds (Dead key) s).
    { intros s HL. apply HL, Hsub, list_elem_of_singleton. done. }
    apply (tidies_remove _ _ O); [| | |done|by eexists].
    + intros s _ HL. right. by destruct (HD s HL).
    + right. left. intros s HL. by destruct (HD s HL).
    + intros d [->|?]%elem_of_cons; [by right|by left].
Qed.

Lemma tidies_save_bytes u f idx key sup p (k : option upload_error -> uprog) :
  0 <= idx <= 2 ^ 31 - 1 -> key <> ""%string -> sup <> key -> (forall b L, tidies L [] (k b)) ->
  tidies (Placed key (u, f, idx) :: Payload key p :: replaced sup) (Missing key :: owed sup)
         (save_bytes u f idx key sup p k).
Proof.
  intros Hidx Hne Hsup Hk. unfold save_bytes, blob_call.
  assert (Hrest : forall L O finish, replaced sup ⊆ L -> tidies L O finish ->
    tidies L (owed sup ++ O) (if negb (String.eqb sup "") && negb (String.eqb sup key)
                              then removePartBytes sup (fun _ => finish) else finish)).
  { intros L O finish Hsub Hfin. rewrite (proj2 (String.eqb_neq sup key)) by done.
    destruct (String.eqb sup "") eqn:E; cbn [negb andb].
    - unfold owed. by rewrite E.
    - by apply tidies_collect. }
  apply tidies_call; cycle 1.
  { intros _. eexists. apply Hrest; [set_solver|apply Hk]. }
  intros e s _ Hs HL. assert (HP : up_holds (Payload key p) s) by (by apply HL, list_elem_of_further, list_elem_of_here).
  destruct HP as [id Hid]. assert (Hkn : ParsePartKey key = true) by (apply (uo_keys _ _ Hs); by eexists).
  unfold blob_Put. rewrite ParsePartKey_valid by done. cbn [fst snd].
  destruct (part_put_ok max s key p (ue_now e) id Hs Hid) as [H1 H2]. split_and!; [done|done|].
  exists (Placed key (u, f, idx) :: Payload key p :: replaced sup), (owed sup ++ [Orphan key]). split_and!.
  - eapply (duty_knows_guar (up_ok max)); [apply up_holds_guar|exact Hs|done|done].
  - apply Hrest; [set_solver|]. eapply tidies_more; [|eapply (tidies_drop u f idx key p); done || by intros]. set_solver.
  - intros d Hd. destruct d as [x|x]; cbn in Hd.
    + destruct Hd as (Hx & Ho & Hn). destruct (decide (x = key)) as [->|Hxk]; [left; set_solver|].
      rewrite lookup_insert_ne in Ho by done. destruct (decide (Orphan x ∈ owed sup)); [left; set_solver|right].
      split; [by cbn|]. set_solver.
    + destruct Hd as (Hx & Hn & Ho). destruct (decide (x = key)) as [->|Hxk]; [by rewrite lookup_insert_eq in Ho|].
      rewrite lookup_insert_ne in Ho by done. right. split; [by cbn|].
      intros [[= ->]|Hin]%elem_of_cons; [done|]. by apply owed_not_missing in Hin.
Qed.

Lemma tidies_save u f part p (k : option upload_error -> uprog) :
  (forall b L, tidies L [] (k b)) -> tidies [] [] (SaveUploadPart u f part p max k).
Proof.
  intros Hk. unfold SaveUploadPart. destruct (Z.eqb_spec (len p) 0); [apply Hk|].
  destruct (Z.gtb_spec (len p) MaxPartBytes); [apply Hk|]. cbn [orb].
  unfold partIndexOf. destruct ((part <? 0) || (part >? 2 ^ 31 - 1)) eqn:Ei; [apply Hk|].
  unfold db_call. apply tidies_call; [|intros _; by eexists]. intros e s (Hb & Hlen & Hfr) Hs _.
  pose proof (save_tx_spec u f part p max e s) as Hsp.
  destruct (save_tx u f part p max e s) as [[[key sup]|x] s'] eqn:Et; cbn [fst snd].
  - destruct Hsp as [Ek Hsv]. assert (Hpk : ParsePartKey key = true) by (subst; by apply NewPartKey_parses).
    rewrite <- Ek in Hfr. assert (Hne : key <> ""%string) by (by intros ->).
    pose proof (len_nonneg p). destruct (saved_ok max u f part p key sup s s') as [H1 H2]; [done|lia|lia|done|done|done|].
    split_and!; [done|done|]. pose proof Hsv as [_ Em Eo Es _ _ _].
    assert (Hsup : sup <> ""%string -> is_Some (meant s !! sup) /\ exists r, upload_parts s !! (u, f, part) = Some r /\ up_key r = sup).
    { intros Hsn. destruct (upload_parts s !! (u, f, part)) as [r|] eqn:Er; [|by subst].
      split; [|by exists r]. eapply named_known; [done|done|]. apply named_spec. by exists (u, f, part), r. }
    assert (Hsk : sup <> key).
    { intros ->. destruct (Hsup Hne) as [[z Hz] _]. congruence. }
    assert (Hgone : sup <> ""%string -> named sup s' = false).
    { intros Hsn. destruct (Hsup Hsn) as [_ (r & Hr & Er)]. apply not_true_iff_false. intros [?|(j & r' & Hj & Hr' & Er')]%(saved_named _ _ _ _ _ _ _ sup Hsv); [done|].
      destruct (uo_rows _ _ Hs _ _ Hr) as (_ & _ & [?|(q & Hq & _)]); [congruence|].
      destruct (uo_rows _ _ Hs _ _ Hr') as (_ & _ & [?|(q' & Hq' & _)]); [congruence|]. congruence. }
    exists (Placed key (u, f, part) :: Payload key p :: replaced sup), (Missing key :: owed sup). split_and!.
    + apply duty_knows_cons; [right; exists p; by rewrite Em, lookup_insert_eq|].
      apply duty_knows_cons; [exists (u, f, part); by rewrite Em, lookup_insert_eq|].
      unfold replaced. destruct (String.eqb_spec sup "") as [->|Hsn]; [apply duty_knows_nil|].
      apply duty_knows_cons; [|apply duty_knows_nil]. split; [|by apply Hgone].
      destruct (Hsup Hsn) as [[z Hz] _]. exists z. by apply (ug_meant _ _ H2).
    + apply tidies_save_bytes; [lia|done|done|done].
    + intros d Hd. destruct d as [x|x]; cbn in Hd.
      * destruct Hd as (Hx & Ho & Hn). rewrite Eo in Ho. destruct (named x s) eqn:Hxs; [left|right; split; [by cbn|set_solver]].
        apply named_spec in Hxs as (j & r & Hr & E). destruct (decide (j = (u, f, part))) as [->|Hj].
        -- rewrite Hr in Es. subst. unfold owed. destruct (String.eqb_spec (up_key r) "") as [E|]; [by rewrite E in Hx|set_solver].
        -- exfalso. assert (named x s' = true); [|congruence]. apply (saved_named _ _ _ _ _ _ _ x Hsv). right. by exists j, r.
      * destruct Hd as (Hx & Hn & Ho). rewrite Eo in Ho.
        apply (saved_named _ _ _ _ _ _ _ x Hsv) in Hn as [->|(j & r & Hj & Hr & E)]; [left; set_solver|right].
        split; [|set_solver]. cbn. split_and!; [done| |done]. apply named_spec. by exists j, r.
  - subst. split_and!; [done|apply up_guar_refl|]. exists [], []. split_and!; [apply duty_knows_nil|apply Hk|].
    intros d Hd. right. set_solver.
Qed.

(** *** Retiring rows *)

Lemma tidies_collect_all L keys (k : uprog) :
  (forall key, key ∈ keys -> replaced key ⊆ L) -> tidies L [] k -> tidies L (flat_map owed keys) (collect_retired keys k).
Proof.
  intros Hsub Hk. induction keys as [|key keys IH]; [done|]. cbn [collect_retired flat_map].
  apply tidies_collect; [apply Hsub, list_elem_of_here|]. intros _. apply IH. intros key' H. by apply Hsub, list_elem_of_further.
Qed.

(** What a transaction that retires rows does: it deletes some of them, at least those of
    the keys it was given, and reports the keys that lost their row. *)
Record retires (rows : list (part_id * string)) (new : list string) (s s' : uploads) : Prop := {
  rt_guar : up_guar s s';
  rt_ok : up_ok max s';
  rt_objects : objects s' = objects s;
  rt_meant : meant s' = meant s;
  rt_sub : forall x, named x s' = true -> named x s = true;
  rt_gone : forall id key, (id, key) ∈ rows -> key <> ""%string -> named key s' = false;
  rt_new : forall x, x <> ""%string -> named x s = true -> named x s' = false -> x ∈ new;
  rt_listed : forall x, x ∈ new -> x ∈ map snd rows
}.

Lemma part_guar_trans a b c : up_guar a b -> up_guar b c -> up_guar a c.
Proof.
  intros [M1 N1] [M2 N2]. constructor; [auto|]. intros k Hk. destruct (N2 k Hk) as [H|H]; [by apply N1|]. right.
  destruct (meant a !! k) as [x|] eqn:E; [|done]. apply M1 in E. congruence.
Qed.

Lemma retire_rows_spec rows acc s :
  up_ok max s -> (forall id key, (id, key) ∈ rows -> up_holds (Placed key id) s) ->
  exists new, (retire_rows rows acc s).1 = acc ++ new /\ retires rows new s (retire_rows rows acc s).2.
Proof.
  revert acc s. induction rows as [|[id key] rows IH]; intros acc s Hs Hp.
  - exists []. cbn. rewrite app_nil_r. split; [done|]. constructor; try done; [apply up_guar_refl|..].
    + intros ? ? H. by apply elem_of_nil in H.
    + intros x _ H1 H2. congruence.
  - cbn [retire_rows]. assert (Hpk := Hp id key (list_elem_of_here _ _)). unfold DeleteUploadPartByKey.
    assert (Hskip : (forall r, upload_parts s !! id = Some r -> up_key r <> key) ->
      exists new, (retire_rows rows acc s).1 = acc ++ new /\ retires ((id, key) :: rows) new s (retire_rows rows acc s).2).
    { intros Hno. destruct (IH acc s Hs) as (new & E & [G1 G2 G3 G4 G5 G6 G7 G8]).
      { intros j x Hj. by apply Hp, list_elem_of_further. }
      exists new. split; [done|]. constructor; try done.
      - intros j x [[= -> ->]|Hj]%elem_of_cons Hx; [|by eapply G6]. apply not_true_iff_false. intros H%G5.
        apply (named_at max s key id) in H as (r & Hr & Er); [|done|done|done]. by apply (Hno r).
      - intros x Hx. right. by apply G8. }
    destruct (upload_parts s !! id) as [r|] eqn:Er; [|by apply Hskip].
    destruct (String.eqb_spec (up_key r) key) as [E|E]; [|apply Hskip; intros; by simplify_eq].
    clear Hskip. destruct (part_row_gone_ok max s id Hs) as [Hs1 Hg1]. set (s1 := with_parts (delete id (upload_parts s)) s) in *.
    change (1 >? 0) with true. cbn beta iota. destruct (IH (acc ++ [key]) s1 Hs1) as (new & E1 & [G1 G2 G3 G4 G5 G6 G7 G8]).
    { intros j x Hj. eapply (up_holds_guar max _ s s1); [done| |done]. by apply Hp, list_elem_of_further. }
    exists (key :: new). split; [by rewrite E1, <- app_assoc|].
    assert (Hsub : forall x, named x s1 = true -> named x s = true).
    { intros x (j & r' & Hr' & Ex)%named_spec. unfold s1 in Hr'. cbn in Hr'. apply lookup_delete_Some in Hr' as [_ Hr']. apply named_spec. by exists j, r'. }
    constructor; try done.
    + by eapply part_guar_trans.
    + intros x Hx. by apply Hsub, G5.
    + intros j x [[= -> ->]|Hj]%elem_of_cons Hx; [|by eapply G6]. apply not_true_iff_false. intros H%G5.
      apply (named_at max s1 key id) in H as (r' & Hr' & Er'); [|done|done|].
      * unfold s1 in Hr'. cbn in Hr'. by apply lookup_delete_Some in Hr' as [Hne _].
      * eapply (up_holds_guar max _ s s1); done.
    + intros x Hx H1 H2. destruct (named x s1) eqn:Hx1; [apply list_elem_of_further; by apply G7|].
      apply named_spec in H1 as (j & r' & Hr' & Ex). destruct (decide (j = id)) as [->|Hj].
      * rewrite Er in Hr'. simplify_eq. apply list_elem_of_here.
      * exfalso. assert (named x s1 = true); [|congruence]. apply named_spec. exists j, r'. split; [|done].
        cbn. by rewrite lookup_delete_ne.
    + intros x [->|Hx]%elem_of_cons; [apply list_elem_of_here|]. apply list_elem_of_further. by apply G8.
Qed.

Definition placed_rows (rows : list (part_id * string)) (L : list up_fact) : Prop :=
  forall id key, (id, key) ∈ rows -> Placed key id ∈ L.

Definition row_debts (rows : list (part_id * string)) : list debt := map (fun x : part_id * string => Missing x.2) rows.

Lemma row_debts_in rows x : Missing x ∈ row_debts rows -> exists id, (id, x) ∈ rows.
Proof. intros ([id y] & [= ->] & H)%list_elem_of_fmap. by exists id. Qed.

Lemma tidies_retire L rows (k : option Z -> uprog) :
  placed_rows rows L -> (forall n L, tidies L [] (k n)) -> tidies L (row_debts rows) (retirePartRows rows k).
Proof.
  intros Hp Hk. unfold retirePartRows. destruct rows as [|row rows]; [apply Hk|]. set (all := row :: rows) in *.
  unfold db_call. apply tidies_call; [|intros _; by eexists]. intros e s _ Hs HL.
  destruct (retire_rows_spec all [] s Hs) as (new & E & [G1 G2 G3 G4 G5 G6 G7 G8]).
  { intros id key Hin. by apply HL, Hp. }
  rewrite app_nil_l in E. rewrite E. set (s' := (retire_rows all [] s).2) in *. split_and!; [done|done|].
  exists (flat_map replaced new), (flat_map owed new). split_and!.
  - intros ft Hft. apply list_elem_of_In, in_flat_map in Hft as (x & Hx & Hr). apply list_elem_of_In in Hx, Hr.
    unfold replaced in Hr. destruct (String.eqb_spec x "") as [|Hne]; [by apply elem_of_nil in Hr|].
    apply list_elem_of_singleton in Hr as ->. pose proof (G8 x Hx) as Hx'. apply list_elem_of_fmap in Hx' as ([id y] & -> & Hin).
    cbn in *. split; [|by eapply G6]. assert (Hpl : up_holds (Placed y id) s) by (by apply HL, Hp).
    destruct Hpl as [?|[q Hq]]; [done|]. exists (id, q). by rewrite G4.
  - apply tidies_collect_all; [|apply Hk]. intros x Hx y Hy. apply list_elem_of_In, in_flat_map. exists x.
    split; by apply list_elem_of_In.
  - intros d Hd. destruct d as [x|x]; cbn in Hd.
    + destruct Hd as (Hx & Ho & Hn). rewrite G3 in Ho. assert (Hne : x <> ""%string) by (by intros ->).
      destruct (named x s) eqn:Hxs.
      * left. apply list_elem_of_In, in_flat_map. exists x. split; [by apply list_elem_of_In, G7|].
        unfold owed. rewrite (proj2 (String.eqb_neq x "")) by done. by left.
      * right. split; [by cbn|]. by intros ([id y] & ? & _)%list_elem_of_fmap.
    + destruct Hd as (Hx & Hn & Ho). right. rewrite G3 in Ho. split; [cbn; split_and!; [done|by apply G5|done]|].
      intros (id & Hin)%row_debts_in. rewrite (G6 id x Hin Hx) in Hn. done.
Qed.

Lemma tidies_remove_claimed L O rows fail next :
  placed_rows rows L -> tidies L (O ++ row_debts rows) next -> (quiet = false -> exists O', tidies L O' fail) ->
  tidies L O (remove_claimed rows fail next).
Proof.
  revert O. induction rows as [|[id key] rows IH]; intros O Hp Hn Hf; cbn [remove_claimed].
  - cbn in Hn. by rewrite app_nil_r in Hn.
  - apply (tidies_remove _ _ (O ++ [Missing key])); [| | | |done].
    + intros s _ HL. assert (H : up_holds (Placed key id) s) by (by apply HL, Hp, list_elem_of_here).
      destruct H as [?|[q Hq]]; [by left|right; by eexists].
    + left. apply elem_of_app. right. by apply list_elem_of_singleton.
    + intros d Hd. left. apply elem_of_app. by left.
    + apply IH; [|by rewrite <- app_assoc|done]. intros j x Hj. by apply Hp, list_elem_of_further.
Qed.

(** Rows read from the table were placed where they stand. *)
Definition row_facts (rows : list (part_id * string)) : list up_fact := map (fun x : part_id * string => Placed x.2 x.1) rows.

Lemma row_facts_placed rows : placed_rows rows (row_facts rows).
Proof. intros id key H. apply list_elem_of_fmap. by exists (id, key). Qed.

Lemma row_facts_learnt rows s :
  up_ok max s -> (forall id key, (id, key) ∈ rows -> exists r, upload_parts s !! id = Some r /\ up_key r = key) ->
  learnt (row_facts rows) s.
Proof.
  intros Hs Hr ft ([id key] & -> & Hin)%list_elem_of_fmap. destruct (Hr id key Hin) as (r & Hl & <-).
  destruct (uo_rows _ _ Hs id r Hl) as (_ & _ & [?|(p & Hp & _)]); [by left|right; by exists p].
Qed.

Lemma UploadPartRefs_in u f s ref :
  ref ∈ UploadPartRefs u f s ->
  exists r, upload_parts s !! (u, f, ref_Index ref) = Some r /\ up_key r = ref_Key ref /\ up_size r = ref_Size ref.
Proof.
  unfold UploadPartRefs. rewrite merge_sort_Permutation. intros ([[[u' f'] i] r] & Hin & E)%list_elem_of_omap.
  apply elem_of_map_to_list in Hin. cbn in E. destruct (of_file u f (u', f', i)) eqn:Ef; simplify_eq. cbn.
  unfold of_file in Ef. cbn in Ef. assert (u' = u /\ f' = f) as [-> ->] by lia. by exists r.
Qed.

Lemma tidies_clean rows (k : option Z -> uprog) :
  (forall n L, tidies L [] (k n)) ->
  tidies (row_facts rows) [] (remove_claimed rows (k None) (retirePartRows rows k)).
Proof.
  intros Hk. apply tidies_remove_claimed; [apply row_facts_placed| |intros _; by eexists].
  cbn. apply tidies_retire; [apply row_facts_placed|done].
Qed.

Lemma tidies_delete u f (k : option Z -> uprog) :
  (forall n L, tidies L [] (k n)) -> tidies [] [] (DeleteUploadParts u f k).
Proof.
  intros Hk. unfold DeleteUploadParts, db_call. apply tidies_read; [|intros _; by eexists].
  intros e s Hs _. set (rows := map _ _). exists (row_facts rows), []. split_and!; [|by apply tidies_clean|done].
  apply row_facts_learnt; [done|]. intros id key (ref & [= -> ->] & Hin)%list_elem_of_fmap.
  destruct (UploadPartRefs_in _ _ _ _ Hin) as (r & H1 & H2 & _). by exists r.
Qed.

Lemma ClaimExpired_in cutoff lim locked s id key :
  (id, key) ∈ ClaimExpiredUploadParts cutoff lim locked s ->
  exists r, upload_parts s !! id = Some r /\ up_key r = key /\ up_date r < cutoff.
Proof.
  unfold ClaimExpiredUploadParts. intros H. apply elem_of_take in H as (i & H & _). apply list_elem_of_lookup_2 in H.
  apply list_elem_of_fmap in H as ([j r] & [= -> ->] & H). rewrite merge_sort_Permutation in H.
  apply list_elem_of_In, List.filter_In in H as [H Hd]. apply list_elem_of_In, elem_of_map_to_list in H.
  exists r. cbn in *. split_and!; [done|done|]. lia.
Qed.

Lemma tidies_expire cutoff batch (k : option Z -> uprog) :
  (forall n L, tidies L [] (k n)) -> tidies [] [] (deleteExpiredUploadParts cutoff batch k).
Proof.
  intros Hk. unfold deleteExpiredUploadParts. destruct (_ || _); [apply Hk|]. unfold db_call.
  apply tidies_read; [|intros _; by eexists]. intros e s Hs _.
  pose proof (fun id key => ClaimExpired_in cutoff batch (ue_locked e) s id key) as Hin.
  destruct (ClaimExpiredUploadParts cutoff batch (ue_locked e) s) as [|c cs].
  - exists [], []. split_and!; [apply duty_knows_nil|apply Hk|done].
  - exists (row_facts (c :: cs)), []. split_and!; [|by apply tidies_clean|done].
    apply row_facts_learnt; [done|]. intros id key H. destruct (Hin id key H) as (r & H1 & H2 & _). by exists r.
Qed.

Lemma tidies_sweep fuel cutoff batch total (k : Z * bool -> uprog) :
  (forall r L, tidies L [] (k r)) -> tidies [] [] (SweepExpiredUploadParts fuel cutoff batch total k).
Proof.
  intros Hk. revert total. induction fuel as [|fuel IH]; intros total; cbn [SweepExpiredUploadParts]; [apply Hk|].
  apply tidies_expire. intros n L. eapply tidies_more; [apply list_subseteq_nil|].
  destruct n as [n|]; [|apply Hk]. destruct (n <? batch); [apply Hk|apply IH].
Qed.

(** *** Reclaiming orphans *)

Lemma tidies_remove_path L path (k : bool -> uprog) :
  (forall s, learnt L s -> ParsePartKey path = false \/ up_holds (Dead path) s) ->
  (forall b, tidies L [] (k b)) -> tidies L [] (blob_call (blob_Remove path) k).
Proof.
  intros Hd Hk. unfold blob_call. apply tidies_call; [|intros _; by eexists]. intros e s _ Hs HL. unfold blob_Remove.
  destruct (ValidateKey path); cbn [fst snd].
  - destruct (remove_ok max s path Hs) as [H1 H2]. split_and!; [done|done|]. exists L, []. split_and!; [|apply Hk|].
    + eapply (duty_knows_guar (up_ok max)); [apply up_holds_guar|exact Hs|done|done].
    + intros d Hu. right. split; [|apply not_elem_of_nil]. destruct d as [x|x]; cbn in Hu.
      * destruct Hu as (Hx & [o [_ Ho]%lookup_delete_Some] & Hn). cbn. split_and!; [done|by exists o|].
        by rewrite <- Hn.
      * destruct Hu as (Hx & Hn & Ho). rewrite (named_same x s) in Hn by done. cbn. split_and!; [done|done|].
        destruct (decide (x = path)) as [->|]; [|by rewrite lookup_delete_ne in Ho]. exfalso.
        destruct (Hd s HL) as [Hp|[_ Hz]]; [|congruence].
        assert (Hkn := uo_keys _ _ Hs path (named_known _ _ _ Hs Hx Hn)). congruence.
  - split_and!; [done|apply up_guar_refl|]. exists L, []. split_and!; [done|apply Hk|]. intros d Hu. right.
    split; [done|apply not_elem_of_nil].
Qed.

(** What the walk has found out about a candidate: its path is no part key, or it is the key
    and the key has been placed. *)
Definition seen (L : list up_fact) (c : partCandidate) : Prop :=
  ParsePartKey (pc_path c) = false \/ (pc_path c = pc_key c /\ Known (pc_key c) ∈ L).

Lemma tidies_gate_remove L live batch res (fail next : orphan_count -> uprog) :
  (forall c, c ∈ batch -> pc_key c ∉ live -> ParsePartKey (pc_path c) = false \/ Dead (pc_path c) ∈ L) ->
  (forall res, tidies L [] (fail res)) -> (forall res, tidies L [] (next res)) ->
  tidies L [] (gate_remove live batch res fail next).
Proof.
  intros Hc Hf Hn. revert res. induction batch as [|c batch IH]; intros res; cbn [gate_remove]; [apply Hn|].
  assert (IH' := IH (fun c' H => Hc c' (list_elem_of_further _ _ _ H))). case_bool_decide as Hl; [apply IH'|].
  apply tidies_remove_path.
  - intros s HL. destruct (Hc c (list_elem_of_here _ _) Hl) as [?|Hin]; [by left|right]. by apply HL.
  - intros [|]; [apply IH'|apply Hf].
Qed.

Definition dead_paths (live : list string) (batch : list partCandidate) : list up_fact :=
  omap (fun c => if ParsePartKey (pc_path c) && negb (bool_decide (pc_key c ∈ live)) then Some (Dead (pc_path c)) else None) batch.

Lemma tidies_gate L batch res (fail next : orphan_count -> uprog) :
  Forall (seen L) batch -> (forall res, tidies L [] (fail res)) -> (forall res, tidies L [] (next res)) ->
  tidies L [] (gate batch res fail next).
Proof.
  intros Hb Hf Hn. unfold gate. destruct batch as [|c0 cs]; [apply Hn|]. set (batch := c0 :: cs) in *.
  unfold db_call. apply tidies_read; [|intros _; by eexists]. intros e s Hs HL.
  set (live := LivePartKeys (map pc_key batch) s). exists (dead_paths live batch ++ L), []. split_and!; [| |done].
  - intros ft [Hft|Hft]%elem_of_app; [|by apply HL]. apply list_elem_of_omap in Hft as (c & Hc & E).
    destruct (ParsePartKey (pc_path c)) eqn:Ep; [|done]. cbn [andb] in E. case_bool_decide as Hl; [done|]. cbn in E. simplify_eq.
    rewrite Forall_forall in Hb. destruct (Hb c Hc) as [?|[-> Hk]]; [congruence|]. split; [by apply (HL _ Hk)|].
    apply not_true_iff_false. intros Hnm. apply Hl. unfold live, LivePartKeys. apply list_elem_of_In, List.filter_In.
    split; [|done]. apply list_elem_of_In, list_elem_of_fmap. by exists c.
  - apply tidies_gate_remove.
    + intros c Hc Hl. destruct (ParsePartKey (pc_path c)) eqn:Ep; [right|by left]. apply elem_of_app. left.
      apply list_elem_of_omap. exists c. split; [done|]. rewrite Ep, bool_decide_eq_false_2 by done. done.
    + intros r. eapply tidies_more; [|apply Hf]. intros x Hx. apply elem_of_app. by right.
    + intros r. eapply tidies_more; [|apply Hn]. intros x Hx. apply elem_of_app. by right.
Qed.

Lemma strip_suffix_sound suf s r : strip_suffix suf s = Some r -> s = r +:+ suf.
Proof.
  revert r. induction s as [|c s IH]; intros r; cbn [strip_suffix].
  - destruct (String.eqb_spec "" suf) as [<-|]; [|done]. intros E. by simplify_eq.
  - destruct (String.eqb_spec (String c s) suf) as [<-|]; [intros E; by simplify_eq|].
    destruct (strip_suffix suf s) as [x|]; [|done]. intros E. simplify_eq. by rewrite app_str_cons, (IH x).
Qed.

Lemma part_key_no_dot key : ParsePartKey key = true -> free_of "." key = true.
Proof.
  unfold ParsePartKey. destruct (strip_prefix PartsPrefix key) as [suffix|] eqn:Ep; [|done].
  apply strip_prefix_sound in Ep as ->. unfold free_of. rewrite str_all_app.
  replace (str_all (fun c => negb (Ascii.eqb c ".")) PartsPrefix) with true by done. cbn [andb].
  destruct (Cut "/" suffix) as [[shard rest]|] eqn:Ec.
  - destruct (negb _ || negb _ || negb (IsShard shard)) eqn:E; [done|]. intros Hx. apply orb_false_iff in E as [_ E].
    apply negb_false_iff, IsShard_hex in E as (b & Hb & ->). apply Cut_sound in Ec as [-> _].
    rewrite str_all_app. cbn [str_all]. apply andb_true_intro. split.
    + apply (lower_hex_free "."); [done|by apply hex_byte_lower].
    + apply andb_true_intro. split; [done|]. by apply (lower_hex_free ".").
  - destruct (negb _); [done|]. intros Hx. by apply (lower_hex_free ".").
Qed.

Lemma candidate_seen cutoff path o c s :
  up_ok max s -> objects s !! path = Some o -> candidate cutoff path o = Some c ->
  ParsePartKey (pc_path c) = false \/ (pc_path c = pc_key c /\ up_holds (Known (pc_key c)) s).
Proof.
  intros Hs Ho. unfold candidate. destruct (ParsePartKey (CutSuffix path TempSuffix)) eqn:Ep; [|done]. cbn [negb].
  destruct (ob_mtime o <? cutoff); [|done]. cbn [negb]. intros E. simplify_eq. cbn.
  unfold CutSuffix in *. destruct (strip_suffix TempSuffix path) as [r|] eqn:Er; cbn [default from_option id] in *.
  - left. apply strip_suffix_sound in Er as ->. apply not_true_iff_false. intros H%part_key_no_dot.
    unfold free_of in H. rewrite str_all_app in H. apply andb_prop in H as [_ H]. by vm_compute in H.
  - right. split; [done|]. destruct (uo_bytes _ _ Hs path o Ho Ep) as [id Hid]. by eexists.
Qed.

Lemma seen_more L L' c : L ⊆ L' -> seen L c -> seen L' c.
Proof. intros H [?|[? Hk]]; [by left|right]. split; [done|]. by apply H. Qed.

Lemma tidies_walk L cutoff listing batch res (fail fin : orphan_count -> uprog) :
  Forall (seen L) batch -> (forall res L, tidies L [] (fail res)) -> (forall res L, tidies L [] (fin res)) ->
  tidies L [] (walk_parts cutoff listing batch res fail fin).
Proof.
  intros Hb Hf Hn. revert L batch res Hb. induction listing as [|path listing IH]; intros L batch res Hb; cbn [walk_parts].
  - apply tidies_gate; auto.
  - apply tidies_read; [|intros _; by eexists]. intros e s Hs HL. destruct (objects s !! path) as [o|] eqn:Eo; cycle 1.
    { exists L, []. split_and!; [done|by apply IH|done]. }
    cbn. destruct (candidate cutoff path o) as [c|] eqn:Ec; cbn.
    2:{ exists L, []. split_and!; [done|by apply IH|done]. }
    destruct (candidate_seen _ _ _ _ _ Hs Eo Ec) as [Hc|[Hc Hkn]].
    + assert (Hb' : Forall (seen L) (batch ++ [c])) by (apply Forall_app; split; [done|by repeat constructor]).
      exists L, []. split_and!; [done| |done]. case_match; [by apply IH|]. apply tidies_gate; [done|auto|].
      intros r. apply IH. constructor.
    + assert (Hb' : Forall (seen (Known (pc_key c) :: L)) (batch ++ [c])).
      { apply Forall_app. split; [|apply Forall_singleton; right; split; [done|apply list_elem_of_here]].
        eapply Forall_impl; [exact Hb|]. intros x Hx. eapply seen_more; [|exact Hx]. intros y Hy. by apply list_elem_of_further. }
      exists (Known (pc_key c) :: L), []. split_and!; [by apply duty_knows_cons| |done]. case_match; [by apply IH|].
      apply tidies_gate; [done|auto|]. intros r. apply IH. constructor.
Qed.

(** A step on nothing shared. *)
Lemma tidies_local L O (k : up_env -> uploads -> uprog) :
  (forall e s, tidies L O (k e s)) -> tidies L O (Act (fun _ s => s) k).
Proof.
  intros Hk e s _ Hs HL. split_and!; [done|apply up_guar_refl|]. exists L, O. split_and!; [done|apply Hk|].
  intros d Hd. destruct (decide (d ∈ O)); [by left|by right].
Qed.

Lemma tidies_reclaim cutoff ttl listing (k : orphan_count * bool -> uprog) :
  (forall r L, tidies L [] (k r)) -> tidies [] [] (ReclaimOrphanedPartBytes cutoff ttl listing k).
Proof.
  intros Hk. unfold ReclaimOrphanedPartBytes. apply tidies_local. intros e s. apply tidies_walk; [constructor|..]; intros; apply Hk.
Qed.

(** *** Reading *)

Lemma tidies_read_nothing {A} L (read : uploads -> A) k :
  (forall a, tidies L [] (k a)) -> tidies L [] (store_call ue_fault (fun _ s => (read s, s)) k).
Proof.
  intros Hk. apply (tidies_read L [] (fun _ s => read s)); [|intros _; by eexists]. intros e s _ HL. exists L, []. by split_and!.
Qed.

Lemma tidies_part u f part (k : option (option (list Z)) -> uprog) :
  (forall b L, tidies L [] (k b)) -> tidies [] [] (UploadPart u f part k).
Proof.
  intros Hk. unfold UploadPart, ReadUploadPart, db_call. apply tidies_read_nothing. intros [[[key size]|]|]; [|apply Hk..].
  cbn. destruct (String.eqb key ""); [apply Hk|]. apply tidies_read_nothing. intros [[b|]|]; [|apply Hk..].
  destruct (_ =? _); apply Hk.
Qed.

End duties.

(** ** Every request *)

Lemma tidies_limit quiet max r surface cfg (k : option rpc_error -> up_prog) :
  (forall x, tidies quiet max [] [] (k x)) -> tidies quiet max [] [] (checkRateLimit r surface cfg k).
Proof.
  intros Hk. unfold checkRateLimit. apply tidies_call.
  - intros e s _ Hs HL. unfold charge_limit. destruct (CheckRateLimit _ _ _ _ _ _) as [a t]. cbn [fst snd].
    destruct (same_rows_ok max s (with_limits t s) Hs) as [H1 H2]; [done|done|by apply (uo_bytes _ _ Hs)|].
    split_and!; [done|done|]. exists [], []. split_and!; [apply duty_knows_nil| |].
    + unfold limit_answer. destruct a; apply Hk.
    + intros d Hd. right. split; [|apply not_elem_of_nil]. destruct d; cbn in *; by rewrite (named_same _ s) in Hd.
  - intros _. exists []. apply Hk.
Qed.

Lemma tidies_request quiet h q : tidies quiet (maxFileBytes h) [] [] (up_program h q).
Proof.
  assert (Hret : forall r L, tidies quiet (maxFileBytes h) L [] (Ret r : up_prog)) by done.
  assert (Hsave : forall r f i p, tidies quiet (maxFileBytes h) [] [] (saveUploadPart h r f i p)).
  { intros r f i p. unfold saveUploadPart. apply tidies_limit. intros [x|]; [done|]. apply tidies_save. by intros [|]. }
  destruct q as [r f i p|r f i t p|u f|n c b|c t l|u f i]; cbn [up_program].
  - unfold handleSaveFilePart. destruct (_ =? 0); [done|]. destruct (_ || _ || _); [done|apply Hsave].
  - unfold handleSaveBigFilePart. destruct (_ =? 0); [done|]. destruct (_ || _ || _); [done|].
    destruct (_ || _); [done|]. destruct (_ >=? t); [done|apply Hsave].
  - by apply tidies_delete.
  - apply tidies_sweep. by intros [n' ok] L.
  - apply tidies_reclaim. by intros [res ok] L.
  - by apply tidies_part.
Qed.
