(* ===== verification/UploadRuns.v ===== *)
(** * Uploads: what holds of every run *)

From S2P Require Import Prelude.
From S2P Require Import Sums.
From S2P Require Import GoStrings.
From S2P Require Import BlobKeys.
From S2P Require Import RateLimit.
From S2P Require Import Threads.
From S2P Require Import NetAddr.
From S2P Require Import Limits.
From S2P Require Import Uploads.
From S2P Require Import UploadSafety.
From Stdlib Require Import Ascii String.

Open Scope Z_scope.

Definition up_starts (h : up_config) (p : up_prog) : Prop := exists q, p = up_program h q.

(** Any number of requests of any kind, from [s0]; with [quiet], no call fails. *)
Definition up_run (quiet : bool) (h : up_config) (s0 : uploads) : uploads * list up_prog -> Prop :=
  duty_reach (up_allowed quiet) (up_starts h) s0.

Lemma up_run_hand quiet h s0 c :
  up_ok (maxFileBytes h) s0 -> (quiet = true -> forall d, ~ untidy s0 d) -> up_run quiet h s0 c ->
  in_hand (up_allowed quiet) (up_ok (maxFileBytes h)) up_guar up_holds (up_mess quiet) c.
Proof.
  intros Hs Ht. apply in_hand_reach; [apply up_holds_guar| |done|].
  - intros p [q ->]. apply tidies_request.
  - intros d [Hq Hd]. by apply (Ht Hq d).
Qed.

Lemma up_run_ok h s0 c : up_ok (maxFileBytes h) s0 -> up_run false h s0 c -> up_ok (maxFileBytes h) c.1.
Proof. intros Hs Hr. by destruct (up_run_hand false h s0 c Hs ltac:(done) Hr). Qed.

(** C14 (bounds).  Whatever saves, retries, cleanups and sweeps race and whichever calls fail,
    at every moment the recorded bytes of one upload are within the file cap, those of one
    account within twice the cap, and its rows within the row cap. *)
Theorem upload_caps_hold h s0 c :
  up_ok (maxFileBytes h) s0 -> up_run false h s0 c ->
  (forall u f, FileOutstandingBytes u f c.1 <= maxFileBytes h) /\
  (forall u, (UserOutstanding u c.1).2 <= 2 * maxFileBytes h /\ (UserOutstanding u c.1).1 <= row_cap (maxFileBytes h)) /\
  (forall id r, upload_parts c.1 !! id = Some r -> 0 < up_size r <= MaxPartBytes).
Proof.
  intros Hs Hr. pose proof (up_run_ok h s0 c Hs Hr) as [H1 _ _ H4 H5 H6].
  split_and!; [done|by intros u; split|]. intros id r Hl. by destruct (H1 id r Hl).
Qed.

(** At every moment of every run, failures included, the accounting and the bytes
    agree: an object under the key of a row holds exactly the payload saved for that very
    part, as long as the row says; no two rows share an object; and an object whose row has
    gone is never named again. *)
Theorem part_bytes_exact h s0 c c' :
  up_ok (maxFileBytes h) s0 -> up_run false h s0 c -> rtc (duty_step (up_allowed false) (up_starts h)) c c' ->
  (forall id r o, upload_parts c.1 !! id = Some r -> up_key r <> ""%string -> objects c.1 !! up_key r = Some o ->
     meant c.1 !! up_key r = Some (id, ob_bytes o) /\ len (ob_bytes o) = up_size r) /\
  (forall id id' r r', upload_parts c.1 !! id = Some r -> upload_parts c.1 !! id' = Some r' ->
     up_key r = up_key r' -> up_key r <> ""%string -> id = id') /\
  (forall k o, ParsePartKey k = true -> objects c.1 !! k = Some o -> named k c.1 = false -> named k c'.1 = false).
Proof.
  intros Hs Hr Hr'. pose proof (up_run_ok h s0 c Hs Hr) as Hc. split_and!.
  - intros id r o Hl Hk Ho. destruct (uo_rows _ _ Hc id r Hl) as (_ & _ & [?|(p & Hp & Hsz)]); [done|].
    assert (Hpk : ParsePartKey (up_key r) = true) by (apply (uo_keys _ _ Hc); by eexists).
    destruct (uo_bytes _ _ Hc _ o Ho Hpk) as [j Hj]. rewrite Hp in Hj. simplify_eq. by rewrite Hsz.
  - intros id id' r r' Hl Hl' E Hk. destruct (uo_rows _ _ Hc id r Hl) as (_ & _ & [?|(p & Hp & _)]); [done|].
    destruct (uo_rows _ _ Hc id' r' Hl') as (_ & _ & [?|(p' & Hp' & _)]); [congruence|]. congruence.
  - intros k o Hpk Ho Hn. destruct (uo_bytes _ _ Hc k o Ho Hpk) as [j Hj].
    assert (Hd : up_holds (Dead k) c'.1); [|by destruct Hd].
    assert (H : up_holds (Dead k) c'.1 /\ up_run false h s0 c'); [|by destruct H].
    refine (rtc_invariant (fun x => up_holds (Dead k) x.1 /\ up_run false h s0 x) _ c c' _ _ Hr').
    + intros a b [Ha Hra] Hab. assert (Hrb : up_run false h s0 b) by (by eapply rtc_r). split; [|done].
      destruct (up_run_hand false h s0 a Hs ltac:(done) Hra) as (Hoa & LO & Hps & _).
      destruct Hab as [s ps p Hp|s ps i f kk e Hf He]; [done|]. cbn in *.
      destruct (Forall2_lookup_l _ _ _ _ _ Hps Hf) as ((L & O) & _ & HL & Hpay).
      destruct (Hpay e s He Hoa HL) as (_ & Hg & _). by eapply (up_holds_guar (maxFileBytes h) (Dead k) s).
    + split; [|done]. split; [by eexists|done].
Qed.

(** C4 (safety).  Without failures rows and objects settle: at every moment an object no row
    names, and a row whose object is missing, is the business of a request still running;
    when none runs, the objects of the parts are exactly those the rows name. *)
Theorem rows_and_objects_settle h s0 c :
  up_ok (maxFileBytes h) s0 -> (forall d, ~ untidy s0 d) -> up_run true h s0 c ->
  (forall k, ParsePartKey k = true -> is_Some (objects c.1 !! k) -> named k c.1 = false -> exists p, p ∈ c.2 /\ running p) /\
  (forall k, k <> ""%string -> named k c.1 = true -> objects c.1 !! k = None -> exists p, p ∈ c.2 /\ running p) /\
  ((forall p, p ∈ c.2 -> ~ running p) ->
     forall k, ParsePartKey k = true -> is_Some (objects c.1 !! k) <-> named k c.1 = true).
Proof.
  intros Hs Ht Hr. pose proof (up_run_hand true h s0 c Hs (fun _ => Ht) Hr) as Hh.
  assert (Hany : forall d, untidy c.1 d -> exists p, p ∈ c.2 /\ running p).
  { intros d Hd. by apply (in_hand_running _ _ _ _ _ c d Hh). }
  split_and!.
  - intros k Hk Ho Hn. by apply (Hany (Orphan k)).
  - intros k Hk Hn Ho. by apply (Hany (Missing k)).
  - intros Hend k Hk. assert (Hno : forall d, ~ untidy c.1 d) by (intros d (p & Hp & Hrun)%Hany; by apply (Hend p)).
    split.
    + intros Ho. destruct (named k c.1) eqn:E; [done|]. by destruct (Hno (Orphan k)).
    + intros Hn. destruct (objects c.1 !! k) eqn:E; [by eexists|]. destruct (Hno (Missing k)). cbn.
      split_and!; [by intros ->|done|done].
Qed.

(** ** One request alone *)

Definition calm (s : uploads) (e : up_env) : Prop := ue_fault e = NoFault /\ fresh_draw e s.

(** The row a save replaces. *)
Definition replaced_row (u f i : Z) (s : uploads) : option upload_part := upload_parts s !! (u, f, i).

Definition old_size (u f i : Z) (s : uploads) : Z := match replaced_row u f i s with Some r => up_size r | None => 0 end.

(** The answer of the caps, from the sums before: what the part weighed before does not count. *)
Definition cap_verdict (u f i : Z) (p : list Z) (max : Z) (s : uploads) : option upload_error :=
  let grow := len p - old_size u f i s in
  let rows := match replaced_row u f i s with Some _ => 0 | None => 1 end in
  if FileOutstandingBytes u f s + grow >? max then Some ErrFileTooLarge
  else if (UserOutstanding u s).2 + grow >? 2 * max then Some ErrUploadQuota
  else if (UserOutstanding u s).1 + rows >? row_cap max then Some ErrTooManyParts
  else None.

Lemma map_sum_replace {K V} `{Countable K} (g : K -> V -> Z) (m : gmap K V) k v :
  map_sum g (<[k := v]> m) = map_sum g m + (g k v - match m !! k with Some w => g k w | None => 0 end).
Proof.
  rewrite map_sum_insert. destruct (m !! k) as [w|] eqn:E.
  - rewrite (map_sum_delete g m k w E). lia.
  - rewrite delete_id by done. lia.
Qed.

(** The sums the transaction reads back are those. *)
Lemma save_tx_verdict u f i p max e s :
  match (save_tx u f i p max e s).1 with Ok _ => None | Err x => Some x end = cap_verdict u f i p max s.
Proof.
  unfold save_tx. destruct (UpsertUploadPart_spec (u, f, i) (len p) (NewPartKey (ue_random e)) (ue_now e) s) as (date & ->).
  unfold cap_verdict, old_size, replaced_row, FileOutstandingBytes, UserOutstanding, row_cap. cbn [upload_parts with_parts fst snd].
  rewrite !map_sum_replace. unfold of_file, of_user. cbn [fst snd]. rewrite !Z.eqb_refl. cbn [andb up_size].
  assert (E : match upload_parts s !! (u, f, i) with Some _ => 0 | None => 1 end =
              1 - match upload_parts s !! (u, f, i) with Some _ => 1 | None => 0 end) by (by case_match).
  rewrite E. by do 3 (match goal with |- context [?a >? ?b] => destruct (a >? b) end; [done|]).
Qed.

Definition drop_object (key : string) (m : gmap string blob_object) : gmap string blob_object :=
  if String.eqb key "" then m else delete key m.

(** The state after a save that went through: the row names the new key and keeps its date,
    the new object holds the payload, the one it replaces is gone, nothing else moved. *)
Definition saved_state (u f i : Z) (p : list Z) (s s' : uploads) : Prop :=
  exists key date now,
    ParsePartKey key = true /\ meant s !! key = None /\
    match replaced_row u f i s with Some r => date = up_date r | None => True end /\
    upload_parts s' = <[(u, f, i) := mkPart (len p) key date]> (upload_parts s) /\
    objects s' = match replaced_row u f i s with
                 | Some r => drop_object (up_key r) (<[key := mkObject p now]> (objects s))
                 | None => <[key := mkObject p now]> (objects s)
                 end.

Lemma date_kept (id : part_id) size key now s date :
  UpsertUploadPart id size key now s =
    (match upload_parts s !! id with Some r => up_key r | None => ""%string end,
     with_parts (<[id := mkPart size key date]> (upload_parts s)) s) ->
  match upload_parts s !! id with Some r => date = up_date r | None => True end.
Proof.
  unfold UpsertUploadPart. case_match; [|done]. intros E. injection E as E.
  apply (f_equal (lookup id)) in E. rewrite !lookup_insert_eq in E. by simplify_eq.
Qed.

Lemma wp_db {A R} s0 (op : up_env -> uploads -> A * uploads) (k : option A -> prog uploads up_env R) s Q :
  (forall e, calm s0 e -> wp (calm s0) (k (Some (op e s).1)) (op e s).2 Q) -> wp (calm s0) (db_call op k) s Q.
Proof. intros H e He. cbn. destruct He as [Hf ?]. rewrite Hf. by apply H. Qed.

Lemma wp_blob {R} s0 op (k : bool -> prog uploads up_env R) s Q :
  (forall e, calm s0 e -> wp (calm s0) (k (op e s).1) (op e s).2 Q) -> wp (calm s0) (blob_call op k) s Q.
Proof. intros H e He. cbn. destruct He as [Hf ?]. rewrite Hf. destruct (op e s).1 eqn:E; specialize (H e ltac:(done)); by rewrite E in H. Qed.

Lemma wp_remove {R} s0 max key (k : bool -> prog uploads up_env R) s Q :
  up_ok max s -> key = ""%string \/ is_Some (meant s !! key) ->
  wp (calm s0) (k true) (with_objects (drop_object key (objects s)) s) Q ->
  wp (calm s0) (removePartBytes key k) s Q.
Proof.
  intros Hs Hk H. unfold removePartBytes, drop_object in *. destruct (String.eqb_spec key "") as [->|Hne].
  - destruct s. done.
  - destruct Hk as [?|Hk]; [done|]. apply wp_blob. intros e _. unfold blob_Remove.
    by rewrite (ParsePartKey_valid key) by (by apply (uo_keys _ _ Hs)).
Qed.

(** Saving a part alone, with nothing failing: the caps decide, on the sums with
    the part's old size taken out, so that a retry is not billed twice; a refusal changes
    nothing; otherwise the row names a fresh key and keeps its date, the object holds the
    payload and the one it replaces is gone.  What is read back then is what was saved. *)
Theorem save_part_exact max u f i p s :
  up_ok max s -> 0 < len p <= MaxPartBytes -> 0 <= i <= 2 ^ 31 - 1 ->
  wp (calm s) (SaveUploadPart u f i p max (fun x => Ret x)) s (fun x s' =>
    x = cap_verdict u f i p max s /\
    (x <> None -> s' = s) /\
    (x = None -> saved_state u f i p s s' /\
       wp (calm s) (UploadPart u f i (fun b => Ret b)) s' (fun b s'' => b = Some (Some p) /\ s'' = s'))).
Proof.
  intros Hs Hl Hi. unfold SaveUploadPart, partIndexOf. replace (_ || _) with false by lia.
  replace ((i <? 0) || (i >? 2 ^ 31 - 1)) with false by lia. apply wp_db. intros e (_ & Hb & Hlen & Hfr).
  pose proof (save_tx_spec u f i p max e s) as Hsp. pose proof (save_tx_verdict u f i p max e s) as Hv.
  destruct (save_tx u f i p max e s) as [[[key sup]|x] s1] eqn:Et; cbn [fst snd] in *; cycle 1.
  { subst. cbn. split_and!; [done|done|done]. }
  destruct Hsp as [Ek Hsv]. assert (Hpk : ParsePartKey key = true) by (subst; by apply NewPartKey_parses).
  rewrite <- Ek in Hfr. destruct (saved_ok max u f i p key sup s s1) as [Ho1 Hg1]; [done|lia|lia|done|done|done|].
  assert (Hne : key <> ""%string) by (by intros ->).
  destruct Hsv as [[date Ep] Em Eo Esup _ _ _].
  assert (Hdate : match replaced_row u f i s with Some r => date = up_date r | None => True end).
  { unfold save_tx in Et. destruct (UpsertUploadPart_spec (u, f, i) (len p) (NewPartKey (ue_random e)) (ue_now e) s) as (date' & Eu).
    pose proof (date_kept _ _ _ _ _ _ Eu) as Hd. rewrite Eu in Et. unfold UserOutstanding in Et. cbn beta iota zeta in Et.
    repeat match type of Et with context [?a >? ?b] => destruct (a >? b); [done|] end.
    injection Et as _ _ Et. rewrite <- Et in Ep. cbn in Ep.
    apply (f_equal (lookup (u, f, i))) in Ep. rewrite !lookup_insert_eq in Ep. by simplify_eq. }
  assert (Hsupk : sup = ""%string \/ is_Some (meant s !! sup)).
  { unfold replaced_row in *. destruct (upload_parts s !! (u, f, i)) as [r|] eqn:Er; [|by left].
    destruct (uo_rows _ _ Hs _ _ Er) as (_ & _ & [?|(q & Hq & _)]); [left; congruence|right; subst; by eexists]. }
  assert (Hsk : sup <> key) by (intros ->; destruct Hsupk as [?|[z Hz]]; congruence).
  unfold save_bytes. apply wp_blob. intros e2 _. unfold blob_Put. rewrite ParsePartKey_valid by done. cbn [fst snd].
  set (s2 := with_objects _ s1). assert (Ho2 : up_ok max s2) by (apply (part_put_ok max s1 key p (ue_now e2) (u, f, i)); [done|by rewrite Em, lookup_insert_eq]).
  set (s3 := with_objects (drop_object sup (objects s2)) s2).
  assert (Hsaved : saved_state u f i p s s3 /\ objects s3 !! key = Some (mkObject p (ue_now e2))).
  { split.
    - exists key, date, (ue_now e2). split_and!; [done|done|done|done|]. cbn. rewrite Eo, Esup. unfold replaced_row, drop_object.
      by destruct (upload_parts s !! (u, f, i)).
    - change (objects s3) with (drop_object sup (<[key := mkObject p (ue_now e2)]> (objects s1))). unfold drop_object.
      destruct (String.eqb sup ""); [apply lookup_insert_eq|]. rewrite lookup_delete_ne by done. apply lookup_insert_eq. }
  assert (Hdrop : wp (calm s) (dropUnnamedPartBytes u f i key (fun _ => Ret None)) s3 (fun x s' => x = cap_verdict u f i p max s /\
    (x <> None -> s' = s) /\ (x = None -> saved_state u f i p s s' /\
       wp (calm s) (UploadPart u f i (fun b => Ret b)) s' (fun b s'' => b = Some (Some p) /\ s'' = s')))).
  { assert (Hkey : UploadPartKey u f i s3 = Some (key, len p)).
    { unfold UploadPartKey, partIndexOf. replace ((i <? 0) || (i >? 2 ^ 31 - 1)) with false by lia. cbn.
      by rewrite Ep, lookup_insert_eq. }
    unfold dropUnnamedPartBytes. apply wp_db. intros e3 _. cbn [fst snd]. rewrite Hkey, String.eqb_refl. cbn [wp].
    split_and!; [done|done|]. intros _. destruct Hsaved as [H1 H2]. split; [done|].
    unfold UploadPart. apply wp_db. intros e4 _. cbn [fst snd]. rewrite Hkey. unfold ReadUploadPart. cbn [ref_Key ref_Size].
    rewrite (proj2 (String.eqb_neq key "")) by done. apply wp_db. intros e5 _. cbn [fst snd]. unfold blob_ReadAt.
    rewrite ParsePartKey_valid by done. cbn [negb]. replace ((0 <? 0) || (len p <? 0)) with false by lia.
    replace (len p =? 0) with false by lia. rewrite H2. cbn [ob_bytes Z.to_nat drop].
    replace (Z.to_nat (len p)) with (List.length p) by (unfold len; lia). rewrite firstn_all. by rewrite Z.eqb_refl. }
  rewrite (proj2 (String.eqb_neq sup key)) by done. destruct (String.eqb_spec sup "") as [E|Hns]; cbn [negb andb].
  - replace s2 with s3; [done|]. unfold s3, drop_object. rewrite E. cbn. by destruct s1.
  - apply (wp_remove s max); [done| |done]. right. destruct Hsupk as [?|[z Hz]]; [done|]. exists z. by apply (ug_meant _ _ Hg1).
Qed.
