(* ===== verification/UploadSweep.v ===== *)
(** * Uploads: the drain of expired parts ends, and takes exactly the expired

    [SweepExpiredUploadParts] repeats passes until one comes back short.  Alone and with
    nothing failing, every pass retires what it claims, so one pass more than there are
    expired rows is enough. *)

From S2P Require Import Prelude.
From S2P Require Import NetAddr.
From S2P Require Import GoStrings.
From S2P Require Import RateLimit.
From S2P Require Import Threads.
From S2P Require Import Limits.
From S2P Require Import BlobKeys.
From S2P Require Import Sums.
From S2P Require Import Uploads.
From S2P Require Import UploadSafety.
From S2P Require Import UploadRuns.
From Stdlib Require Import Ascii String.

Open Scope Z_scope.

(** Nothing fails and no other transaction has rows locked. *)
Definition undisturbed (e : up_env) : Prop := ue_fault e = NoFault /\ ue_locked e = [].

Definition expired_count (cutoff : Z) (s : uploads) : Z :=
  map_sum (fun _ r => if up_date r <? cutoff then 1 else 0) (upload_parts s).

(** What one pass or several do: expired rows go with their objects, nothing else moves. *)
Record swept (cutoff : Z) (s s' : uploads) : Prop := {
  sw_meant : meant s' = meant s;
  sw_rows : forall id r, upload_parts s' !! id = Some r -> upload_parts s !! id = Some r;
  sw_kept : forall id r, upload_parts s !! id = Some r -> cutoff <= up_date r -> upload_parts s' !! id = Some r;
  sw_sub : forall k o, objects s' !! k = Some o -> objects s !! k = Some o;
  sw_gone : forall id r, upload_parts s !! id = Some r -> upload_parts s' !! id = None -> up_key r <> ""%string ->
    objects s' !! up_key r = None;
  sw_objects : forall k, (forall id r, upload_parts s !! id = Some r -> up_date r < cutoff -> up_key r <> k) ->
    objects s' !! k = objects s !! k
}.

Lemma swept_refl cutoff s : swept cutoff s s.
Proof. constructor; try done. intros. congruence. Qed.

Lemma swept_trans cutoff a b c : swept cutoff a b -> swept cutoff b c -> swept cutoff a c.
Proof.
  intros [A1 A2 A3 A4 A5 A6] [B1 B2 B3 B4 B5 B6]. constructor; [congruence|auto|auto|auto|..].
  - intros id r Ha Hc Hk. destruct (upload_parts b !! id) as [r'|] eqn:Eb.
    + pose proof (A2 _ _ Eb) as E. rewrite Ha in E. simplify_eq. by eapply B5.
    + specialize (A5 id r Ha Eb Hk). destruct (objects c !! up_key r) eqn:Ec; [|done]. apply B4 in Ec. congruence.
  - intros k Hk. rewrite <- A6 by done. apply B6. intros id r Hb. by apply (Hk id r), A2.
Qed.

(** ** One pass *)

Definition drop_keys (keys : list string) (m : gmap string blob_object) : gmap string blob_object :=
  foldl (fun m k => if String.eqb k "" then m else delete k m) m keys.

Definition drop_rows (ids : list part_id) (m : gmap part_id upload_part) : gmap part_id upload_part :=
  foldl (fun m id => delete id m) m ids.

Lemma drop_keys_out keys m k : k ∉ keys -> drop_keys keys m !! k = m !! k.
Proof.
  revert m. induction keys as [|x keys IH]; intros m Hk; [done|]. apply not_elem_of_cons in Hk as [Hx Hk].
  cbn [drop_keys foldl]. change (foldl _ ?m keys) with (drop_keys keys m). rewrite IH by done.
  destruct (String.eqb x ""); [done|]. by rewrite lookup_delete_ne.
Qed.

Lemma drop_keys_sub keys m k o : drop_keys keys m !! k = Some o -> m !! k = Some o.
Proof.
  revert m. induction keys as [|x keys IH]; intros m; [done|]. cbn [drop_keys foldl].
  change (foldl _ ?m keys) with (drop_keys keys m). intros H%IH. destruct (String.eqb x ""); [done|].
  by apply lookup_delete_Some in H as [_ ?].
Qed.

Lemma drop_keys_in keys m k : k ∈ keys -> k <> ""%string -> drop_keys keys m !! k = None.
Proof.
  revert m. induction keys as [|x keys IH]; intros m Hk Hne; [by apply elem_of_nil in Hk|]. cbn [drop_keys foldl].
  change (foldl _ ?m keys) with (drop_keys keys m). apply elem_of_cons in Hk as [->|Hk]; [|by apply IH].
  rewrite (proj2 (String.eqb_neq x "")) by done. destruct (drop_keys keys (delete x m) !! x) eqn:E; [|done].
  apply drop_keys_sub in E. by rewrite lookup_delete_eq in E.
Qed.

Lemma drop_rows_out ids m id : id ∉ ids -> drop_rows ids m !! id = m !! id.
Proof.
  revert m. induction ids as [|x ids IH]; intros m Hid; [done|]. apply not_elem_of_cons in Hid as [Hx Hid].
  cbn [drop_rows foldl]. change (foldl _ ?m ids) with (drop_rows ids m). rewrite IH by done. by rewrite lookup_delete_ne.
Qed.

Lemma drop_rows_sub ids m id r : drop_rows ids m !! id = Some r -> m !! id = Some r /\ id ∉ ids.
Proof.
  revert m. induction ids as [|x ids IH]; intros m; [intros; split; [done|apply not_elem_of_nil]|]. cbn [drop_rows foldl].
  change (foldl _ ?m ids) with (drop_rows ids m). intros [[Hne H]%lookup_delete_Some Hn]%IH. split; [done|].
  by apply not_elem_of_cons.
Qed.

Lemma drop_rows_count cutoff ids m :
  NoDup ids -> (forall id, id ∈ ids -> exists r, m !! id = Some r /\ up_date r < cutoff) ->
  map_sum (fun _ r => if up_date r <? cutoff then 1 else 0) (drop_rows ids m) =
  map_sum (fun (_ : part_id) r => if up_date r <? cutoff then 1 else 0) m - len ids.
Proof.
  revert m. induction ids as [|x ids IH]; intros m Hd Hin; [change (len []) with 0; cbn [drop_rows foldl]; lia|]. apply NoDup_cons in Hd as [Hx Hd].
  cbn [drop_rows foldl]. change (foldl _ ?m ids) with (drop_rows ids m). rewrite IH; [|done|].
  - destruct (Hin x (list_elem_of_here _ _)) as (r & Hr & Hlt). rewrite (map_sum_delete _ m x r Hr), len_cons.
    destruct (Z.ltb_spec (up_date r) cutoff); lia.
  - intros id Hid. destruct (Hin id (list_elem_of_further _ _ _ Hid)) as (r & Hr & Hlt). exists r.
    rewrite lookup_delete_ne; [done|]. by intros ->.
Qed.

Section alone.
Context (max : Z) {R : Type}.
Notation uprog := (prog uploads up_env R).

Lemma wp_quiet {A} (op : up_env -> uploads -> A * uploads) (k : option A -> uprog) s Q :
  (forall e, undisturbed e -> wp undisturbed (k (Some (op e s).1)) (op e s).2 Q) -> wp undisturbed (store_call ue_fault op k) s Q.
Proof. intros H e He. cbn. pose proof He as [Hf _]. rewrite Hf. by apply H. Qed.

Definition key_known (s : uploads) (key : string) : Prop := key = ""%string \/ is_Some (meant s !! key).

Lemma wp_drop key (k : bool -> uprog) s Q :
  up_ok max s -> key_known s key ->
  wp undisturbed (k true) (with_objects (drop_keys [key] (objects s)) s) Q -> wp undisturbed (removePartBytes key k) s Q.
Proof.
  intros Hs Hk H. unfold removePartBytes. unfold drop_keys in H. cbn [foldl] in H. destruct (String.eqb_spec key "") as [->|Hne].
  - by destruct s.
  - destruct Hk as [?|Hk]; [done|]. apply wp_quiet. intros e _. unfold blob_Remove.
    by rewrite (ParsePartKey_valid key) by (by apply (uo_keys _ _ Hs)).
Qed.

(** Both loops over keys come down to dropping them. *)
Lemma wp_remove_claimed rows (fail next : uprog) s Q :
  up_ok max s -> Forall (key_known s) (map snd rows) ->
  wp undisturbed next (with_objects (drop_keys (map snd rows) (objects s)) s) Q ->
  wp undisturbed (remove_claimed rows fail next) s Q.
Proof.
  revert s. induction rows as [|[id key] rows IH]; intros s Hs Hk H; cbn [remove_claimed].
  - by destruct s.
  - cbn [map] in Hk. apply Forall_cons in Hk as [Hk1 Hk]. apply wp_drop; [done|done|]. apply IH; [|done|done].
    apply (same_rows_ok max s); [done|done|done|]. intros k o Ho Hp. apply (uo_bytes _ _ Hs); [|done]. exact (drop_keys_sub [key] _ _ _ Ho).
Qed.

Lemma wp_collect keys (k : uprog) s Q :
  up_ok max s -> Forall (key_known s) keys ->
  wp undisturbed k (with_objects (drop_keys keys (objects s)) s) Q -> wp undisturbed (collect_retired keys k) s Q.
Proof.
  revert s. induction keys as [|key keys IH]; intros s Hs Hk H; cbn [collect_retired].
  - by destruct s.
  - apply Forall_cons in Hk as [Hk1 Hk]. apply wp_drop; [done|done|]. apply IH; [|done|done].
    apply (same_rows_ok max s); [done|done|done|]. intros x o Ho Hp. apply (uo_bytes _ _ Hs); [|done]. exact (drop_keys_sub [key] _ _ _ Ho).
Qed.

Lemma retire_all rows acc s :
  NoDup (map fst rows) -> (forall id key, (id, key) ∈ rows -> exists r, upload_parts s !! id = Some r /\ up_key r = key) ->
  retire_rows rows acc s = (acc ++ map snd rows, with_parts (drop_rows (map fst rows) (upload_parts s)) s).
Proof.
  revert acc s. induction rows as [|[id key] rows IH]; intros acc s Hd Hr; cbn [retire_rows map].
  - rewrite app_nil_r. by destruct s.
  - apply NoDup_cons in Hd as [Hid Hd]. destruct (Hr id key (list_elem_of_here _ _)) as (r & Hl & Hk).
    unfold DeleteUploadPartByKey. rewrite Hl, Hk, String.eqb_refl. change (1 >? 0) with true. cbn beta iota.
    rewrite IH; [|done|].
    + cbn [fst snd]. rewrite <- app_assoc. done.
    + intros j x Hj. destruct (Hr j x (list_elem_of_further _ _ _ Hj)) as (r' & Hl' & Hk'). exists r'. cbn.
      rewrite lookup_delete_ne; [done|]. intros ->. apply Hid. apply list_elem_of_fmap. by exists (j, x).
Qed.

(** The claim takes the expired rows, all of them unless the batch is full. *)
Lemma expired_claim_spec cutoff batch s :
  let claimed := ClaimExpiredUploadParts cutoff batch [] s in
  NoDup (map fst claimed) /\ len claimed <= Z.max 0 batch /\
  (len claimed < batch -> forall id r, upload_parts s !! id = Some r -> up_date r < cutoff -> id ∈ map fst claimed).
Proof.
  intros claimed. unfold claimed, ClaimExpiredUploadParts.
  set (rows := merge_sort date_le _).
  assert (Hperm : rows ≡ₚ List.filter (fun x : part_id * upload_part => (up_date x.2 <? cutoff) && negb (bool_decide (x.1 ∈ []))) (map_to_list (upload_parts s)))
    by apply merge_sort_Permutation.
  split_and!.
  - assert (Hn : NoDup (rows.*1)) by (rewrite Hperm; apply NoDup_map_filter, NoDup_fst_map_to_list).
    rewrite <- (take_drop (Z.to_nat batch) (rows.*1)) in Hn. apply NoDup_app in Hn as [Hn _].
    rewrite <- fmap_take in Hn. rewrite <- List.firstn_map, map_map. cbn. by rewrite fmap_take in Hn.
  - unfold len. rewrite length_take. lia.
  - intros Hlt id r Hl Hd. unfold len in Hlt. rewrite length_take, length_map in Hlt.
    rewrite take_ge by (rewrite length_map; lia). rewrite map_map. cbn. change (id ∈ rows.*1). rewrite Hperm.
    apply list_elem_of_fmap. exists (id, r). split; [done|]. apply list_elem_of_In, List.filter_In. split.
    + by apply list_elem_of_In, elem_of_map_to_list.
    + cbn. apply andb_true_intro. split; [lia|]. apply negb_true_iff, bool_decide_eq_false_2. apply not_elem_of_nil.
Qed.

Lemma wp_pass cutoff batch (k : option Z -> uprog) s Q :
  up_ok max s -> 0 < batch <= 2 ^ 31 - 1 ->
  (forall n s', 0 <= n <= batch -> up_ok max s' -> swept cutoff s s' -> expired_count cutoff s' = expired_count cutoff s - n ->
     (n < batch -> forall id r, upload_parts s' !! id = Some r -> cutoff <= up_date r) ->
     wp undisturbed (k (Some n)) s' Q) ->
  wp undisturbed (deleteExpiredUploadParts cutoff batch k) s Q.
Proof.
  intros Hs Hb H. unfold deleteExpiredUploadParts. replace (_ || _) with false by lia. apply wp_quiet. intros e [_ El].
  cbn [fst snd]. rewrite El. pose proof (fun id key => ClaimExpired_in cutoff batch [] s id key) as Hin.
  destruct (expired_claim_spec cutoff batch s) as (Hnd & Hlen & Hall).
  destruct (ClaimExpiredUploadParts cutoff batch [] s) as [|row rows].
  - apply H; [lia|done|apply swept_refl|lia|]. intros _ id r Hr. destruct (Z_lt_le_dec (up_date r) cutoff); [|done].
    destruct (elem_of_nil id) as [Hx _]. destruct Hx. apply (Hall (proj1 Hb) id r); done.
  - set (claimed := row :: rows) in *.
    assert (Hknown : Forall (key_known s) (map snd claimed)).
    { apply Forall_forall. intros key ([id key'] & -> & Hx)%list_elem_of_fmap. destruct (Hin id key' Hx) as (r & Hr & Hk & _).
      destruct (uo_rows _ _ Hs id r Hr) as (_ & _ & [?|(p & Hp & _)]); [left; by rewrite <- Hk|right; cbn; subst; by eexists]. }
    apply wp_remove_claimed; [done|done|].
    set (s1 := with_objects _ s). assert (Hs1 : up_ok max s1).
    { apply (same_rows_ok max s); [done|done|done|]. intros x o Ho Hp. apply (uo_bytes _ _ Hs); [|done].
      exact (drop_keys_sub _ _ _ _ Ho). }
    unfold retirePartRows, claimed. fold claimed. apply wp_quiet. intros e2 _. cbn [fst snd].
    rewrite (retire_all claimed [] s1); [|done|].
    2:{ intros id key Hx. destruct (Hin id key Hx) as (r & Hr & Hk & _). by exists r. }
    cbn [fst snd app]. set (s2 := with_parts _ s1).
    assert (Hs2 : up_ok max s2).
    { destruct (retire_rows_spec max claimed [] s1 Hs1) as (new & _ & [_ G _ _ _ _ _ _]).
      - intros id key Hx. destruct (Hin id key Hx) as (r & Hr & Hk & _).
        destruct (uo_rows _ _ Hs id r Hr) as (_ & _ & [?|(p & Hp & _)]); [left; by rewrite <- Hk|right; subst; by exists p].
      - rewrite (retire_all claimed [] s1) in G; [done|done|].
        intros id key Hx. destruct (Hin id key Hx) as (r & Hr & Hk & _). by exists r. }
    apply wp_collect; [done|done|]. unfold len. rewrite length_map. fold (len claimed).
    set (keys := map snd claimed) in *. set (ids := map fst claimed) in *.
    assert (Hids : forall id, id ∈ ids -> exists r, upload_parts s !! id = Some r /\ up_date r < cutoff /\ up_key r ∈ keys).
    { intros id ([id' key] & -> & Hx)%list_elem_of_fmap. destruct (Hin id' key Hx) as (r & Hr & Hk & Hd). exists r.
      split_and!; [done|done|]. apply list_elem_of_fmap. by exists (id', key). }
    apply H.
    + split; [apply len_nonneg|]. lia.
    + apply (same_rows_ok max s2); [done|done|done|]. intros x o Ho Hp. apply (uo_bytes _ _ Hs2); [|done].
      exact (drop_keys_sub _ _ _ _ Ho).
    + constructor; cbn [meant upload_parts objects with_objects with_parts s2 s1].
      * done.
      * intros id r Hr. by apply drop_rows_sub in Hr as [? _].
      * intros id r Hr Hd. rewrite drop_rows_out; [done|]. intros (r' & Hr' & Hd' & _)%Hids. rewrite Hr in Hr'. simplify_eq. lia.
      * intros x o Ho. by apply drop_keys_sub, drop_keys_sub in Ho.
      * intros id r Hr Hn Hk. destruct (decide (id ∈ ids)) as [Hi|Hi].
        -- destruct (Hids id Hi) as (r' & Hr' & _ & Hkk). rewrite Hr in Hr'. simplify_eq. by apply drop_keys_in.
        -- rewrite drop_rows_out in Hn by done. congruence.
      * intros x Hx. assert (Hout : x ∉ keys).
        { intros ([id key] & -> & Hy)%list_elem_of_fmap. destruct (Hin id key Hy) as (r & Hr & Hk & Hd). by apply (Hx id r). }
        by rewrite !drop_keys_out.
    + unfold expired_count. cbn [upload_parts with_objects with_parts s2 s1]. rewrite (drop_rows_count cutoff ids).
      * unfold ids. unfold len at 1. by rewrite length_map.
      * done.
      * intros id Hid. destruct (Hids id Hid) as (r & Hr & Hd & _). by exists r.
    + intros Hlt id r Hr. change (drop_rows ids (upload_parts s) !! id = Some r) in Hr. apply drop_rows_sub in Hr as [Hr Hn]. destruct (Z_lt_le_dec (up_date r) cutoff) as [Hd|]; [|done].
      destruct Hn. by apply (Hall Hlt id r).
Qed.

End alone.

Lemma expired_count_nonneg cutoff s : 0 <= expired_count cutoff s.
Proof. apply map_sum_nonneg. intros. case_match; lia. Qed.

Lemma sweep_from max cutoff batch fuel total s :
  up_ok max s -> 0 < batch <= 2 ^ 31 - 1 -> expired_count cutoff s < Z.of_nat fuel ->
  wp undisturbed (SweepExpiredUploadParts fuel cutoff batch total (fun r => Ret r)) s (fun r s' =>
    r = (total + expired_count cutoff s, true) /\ swept cutoff s s' /\
    forall id row, upload_parts s' !! id = Some row -> cutoff <= up_date row).
Proof.
  revert total s. induction fuel as [|fuel IH]; intros total s Hs Hb Hf.
  - pose proof (expired_count_nonneg cutoff s). lia.
  - cbn [SweepExpiredUploadParts]. apply (wp_pass max); [done|done|]. intros n s' Hn Hs' Hsw Hc Hend.
    destruct (Z.ltb_spec n batch) as [Hlt|Hge].
    + cbn. split_and!; [|done|by apply Hend]. f_equal. assert (expired_count cutoff s' = 0); [|lia].
      unfold expired_count. apply Z.le_antisymm; [|apply expired_count_nonneg].
      assert (E : forall m : gmap part_id upload_part, (forall id r, m !! id = Some r -> cutoff <= up_date r) ->
        map_sum (fun _ r => if up_date r <? cutoff then 1 else 0) m = 0).
      { induction m as [|id r m Hid IHm] using map_ind; intros Hm; [apply map_sum_empty|]. rewrite map_sum_fresh by done.
        rewrite IHm; [|intros j x Hj; apply (Hm j); rewrite lookup_insert_ne; [done|]; intros ->; congruence].
        specialize (Hm id r (lookup_insert_eq _ _ _)). by destruct (Z.ltb_spec (up_date r) cutoff); [lia|]. }
      rewrite E; [done|]. by apply Hend.
    + eapply wp_weaken; [|apply IH; [done|done|lia]]. intros r s2 (-> & Hsw2 & Hl). split_and!; [|by eapply swept_trans|done].
      f_equal. lia.
Qed.

(** C38 (termination).  The drain of expired parts ends and is complete: alone, with nothing failing,
    whatever the batch, one pass more than there are expired rows is enough; it reports
    exactly how many there were, leaves no expired row and no object of one, and touches no
    row and no object of a part that has not expired. *)
Theorem sweep_drains max cutoff batch fuel s :
  up_ok max s -> 0 < batch <= 2 ^ 31 - 1 -> expired_count cutoff s < Z.of_nat fuel ->
  wp undisturbed (SweepExpiredUploadParts fuel cutoff batch 0 (fun r => Ret r)) s (fun r s' =>
    r = (expired_count cutoff s, true) /\
    (forall id, upload_parts s' !! id =
       match upload_parts s !! id with Some row => if up_date row <? cutoff then None else Some row | None => None end) /\
    (forall id row, upload_parts s !! id = Some row -> up_date row < cutoff -> up_key row <> ""%string ->
       objects s' !! up_key row = None) /\
    (forall k, (forall id row, upload_parts s !! id = Some row -> up_date row < cutoff -> up_key row <> k) ->
       objects s' !! k = objects s !! k)).
Proof.
  intros Hs Hb Hf. eapply wp_weaken; [|by apply (sweep_from max)]. intros r s' (-> & [S1 S2 S3 S4 S5 S6] & Hl).
  assert (Hgone : forall id row, upload_parts s !! id = Some row -> up_date row < cutoff -> upload_parts s' !! id = None).
  { intros id row Hr Hd. destruct (upload_parts s' !! id) as [row'|] eqn:E; [|done]. pose proof (Hl _ _ E).
    apply S2 in E. rewrite Hr in E. simplify_eq. lia. }
  split_and!; [done| | |done].
  - intros id. destruct (upload_parts s !! id) as [row|] eqn:E.
    + destruct (Z.ltb_spec (up_date row) cutoff); [by eapply Hgone|by apply S3].
    + destruct (upload_parts s' !! id) eqn:E'; [|done]. apply S2 in E'. congruence.
  - intros id row Hr Hd Hk. eapply S5; [done|by eapply Hgone|done].
Qed.

(** * Uploads: the theorems at work

    Runs on concrete requests: two saves of one part that race, with the byte work of the
    first landing last, then a cleanup. *)

(** ** Checking that a schedule is allowed *)

Definition fresh_b (e : up_env) (s : uploads) : bool :=
  forallb (fun b => (0 <=? b) && (b <? 256)) (ue_random e) && (List.length (ue_random e) =? 16)%nat &&
  match meant s !! NewPartKey (ue_random e) with None => true | Some _ => false end.

Definition no_fault (e : up_env) : bool := match ue_fault e with NoFault => true | _ => false end.

Fixpoint along_b (c : uploads * list up_prog) (l : list (@choice uploads up_env up_reply)) : bool :=
  match l with
  | [] => true
  | x :: l => match x with Arrive _ => true | Step _ e => no_fault e && fresh_b e c.1 end && along_b (run_choice c x) l
  end.

Lemma fresh_b_ok e s : fresh_b e s = true -> fresh_draw e s.
Proof.
  unfold fresh_b. intros [[Hb Hl]%andb_prop Hm]%andb_prop. split_and!.
  - apply Forall_forall. intros b Hin. rewrite forallb_forall in Hb. apply list_elem_of_In, Hb in Hin. unfold is_byte. lia.
  - by apply Nat.eqb_eq.
  - by destruct (meant s !! _).
Qed.

Lemma along_b_ok quiet c l : along_b c l = true -> allowed_along (up_allowed quiet) c l.
Proof.
  revert c. induction l as [|x l IH]; intros c H; [done|]. cbn in *. apply andb_prop in H as [Hx Hl]. split; [|by apply IH].
  destruct x as [p|i e]; [done|]. intros _. apply andb_prop in Hx as [Hf Hd]. split; [|by apply fresh_b_ok].
  intros _. unfold no_fault in Hf. by destruct (ue_fault e).
Qed.

(** ** The scene *)

Definition settings : up_config := mkUpConfig (2 * MaxPartBytes) (mkRLConfig 100 (60 * second)).

Definition empty_store : uploads := mkUploads ∅ ∅ ∅ ∅.

Definition env_at (n : Z) : up_env := mkUpEnv NoFault (n * second) (n * second) (fun t => t) (n :: repeat 0 15) [].

Definition of_account (u : Z) : Request := mkRequest 5 u AddrZero.

Definition first_save : up_prog := up_program settings (ReqSave (of_account 1) 7 0 [1; 2; 3]).
Definition second_save : up_prog := up_program settings (ReqSave (of_account 1) 7 0 [4; 5]).

(** Both arrive; the second commits after the first and finishes before the first writes. *)
Definition race : list (@choice uploads up_env up_reply) :=
  [Arrive first_save; Arrive second_save;
   Step 1 (env_at 1); Step 1 (env_at 2); Step 0 (env_at 3); Step 0 (env_at 4);
   Step 0 (env_at 5); Step 0 (env_at 6); Step 0 (env_at 7);
   Step 1 (env_at 8); Step 1 (env_at 9); Step 1 (env_at 10)].

Definition after_race : uploads * list up_prog := run_schedule empty_store race.

(** The same, stopped when the first save has written under a key no row names any more. *)
Definition mid_race : uploads * list up_prog := run_schedule empty_store (take 10 race).

Lemma empty_ok max : 0 <= max -> up_ok max empty_store.
Proof.
  intros H. constructor; try done.
  - intros k [x Hx]. done.
  - intros u. change (0 <= 2 * max). lia.
  - intros u. change (0 <= row_cap max).
    unfold row_cap, MinPartBytesForRowCap. pose proof (Z.quot_pos (max + 32 * 1024 - 1) (32 * 1024)). lia.
Qed.

Example race_ends : map (fun p => match p with Ret r => Some r | _ => None end) after_race.2 = [Some UTrue; Some UTrue].
Proof. vm_compute. reflexivity. Qed.

(** ** Witnesses *)

Lemma race_runs quiet l : along_b (empty_store, []) l = true ->
  Forall (fun x => match x with Arrive p => up_starts settings p | Step _ _ => True end) l ->
  up_run quiet settings empty_store (run_schedule empty_store l).
Proof. intros H Hs. apply schedule_duty; [done|by apply along_b_ok|constructor]. Qed.

Ltac play_race := apply race_runs; [vm_compute; reflexivity|]; repeat (apply Forall_cons; split; [first [exact I|by eexists]|]); apply Forall_nil_2.

Lemma after_race_runs quiet : up_run quiet settings empty_store after_race.
Proof. play_race. Qed.

Lemma mid_race_runs quiet : up_run quiet settings empty_store mid_race.
Proof. play_race. Qed.

Lemma empty_tidy d : ~ untidy empty_store d.
Proof. destruct d as [k|k]; cbn; [by intros (_ & [x Hx] & _)|by intros (_ & H & _)]. Qed.

Lemma settings_ok : up_ok (maxFileBytes settings) empty_store.
Proof. apply empty_ok. done. Qed.

Lemma upload_caps_hold_witness :
  FileOutstandingBytes 1 7 after_race.1 = 2 /\ FileOutstandingBytes 1 7 after_race.1 <= maxFileBytes settings.
Proof.
  split; [vm_compute; reflexivity|].
  exact (proj1 (upload_caps_hold settings empty_store after_race settings_ok (after_race_runs false)) 1 7).
Defined.

(** The key and the object the second save left. *)
Definition left_key : string := NewPartKey (4 :: repeat 0 15).

Lemma part_bytes_exact_witness :
  meant after_race.1 !! left_key = Some ((1, 7, 0), [4; 5]) /\
  exists r o, upload_parts after_race.1 !! (1, 7, 0) = Some r /\ up_key r = left_key /\
    objects after_race.1 !! left_key = Some o /\ len (ob_bytes o) = up_size r.
Proof.
  split; [vm_compute; reflexivity|].
  exists (mkPart 2 left_key (2 * second)), (mkObject [4; 5] (5 * second)).
  split_and!; [vm_compute; reflexivity|reflexivity|vm_compute; reflexivity|].
  refine (proj2 (proj1 (part_bytes_exact settings empty_store after_race after_race _ _ _) (1, 7, 0)
    (mkPart 2 left_key (2 * second)) (mkObject [4; 5] (5 * second)) _ _ _)).
  - apply settings_ok.
  - apply after_race_runs.
  - constructor.
  - vm_compute. reflexivity.
  - vm_compute. discriminate.
  - vm_compute. reflexivity.
Defined.

(** The key the first save wrote under when its row had moved on. *)
Definition stray_key : string := NewPartKey (2 :: repeat 0 15).

Lemma rows_and_objects_settle_witness :
  (is_Some (objects mid_race.1 !! stray_key) /\ named stray_key mid_race.1 = false /\ exists p, p ∈ mid_race.2 /\ running p) /\
  (objects after_race.1 !! stray_key = None /\ is_Some (objects after_race.1 !! left_key)).
Proof.
  split.
  - split_and!; [eexists; vm_compute; reflexivity|vm_compute; reflexivity|].
    eapply (proj1 (rows_and_objects_settle settings empty_store mid_race settings_ok empty_tidy (mid_race_runs true)) stray_key);
      [vm_compute; reflexivity|eexists; vm_compute; reflexivity|vm_compute; reflexivity].
  - split; [vm_compute; reflexivity|].
    apply (proj2 (proj2 (rows_and_objects_settle settings empty_store after_race settings_ok empty_tidy (after_race_runs true))));
      [|vm_compute; reflexivity|vm_compute; reflexivity].
    intros p Hp Hr. apply list_elem_of_lookup in Hp as [[|[|i]] Hi]; vm_compute in Hi; by simplify_eq.
Defined.

Lemma save_part_exact_witness :
  let r := exec (fun _ => env_at 1) 0 empty_store (SaveUploadPart 1 7 0 [1; 2; 3] 1000 (fun x => Ret x)) in
  r.1 = None /\ r.1 = cap_verdict 1 7 0 [1; 2; 3] 1000 empty_store.
Proof.
  split; [vm_compute; reflexivity|].
  refine (proj1 (wp_exec (calm empty_store) _ empty_store _ (fun _ => env_at 1) 0 _ (save_part_exact 1000 1 7 0 [1; 2; 3] empty_store _ _ _))).
  - intros j. split; [done|]. apply fresh_b_ok. vm_compute. reflexivity.
  - apply empty_ok. done.
  - vm_compute. split; [reflexivity|discriminate].
  - lia.
Defined.

Lemma sweep_drains_witness :
  let r := exec (fun _ => env_at 11) 0 after_race.1 (SweepExpiredUploadParts 2 (100 * second) 1 0 (fun x => Ret x)) in
  r.1 = (1, true) /\ r.1 = (expired_count (100 * second) after_race.1, true).
Proof.
  split; [vm_compute; reflexivity|].
  refine (proj1 (wp_exec undisturbed _ after_race.1 _ (fun _ => env_at 11) 0 _
    (sweep_drains (maxFileBytes settings) (100 * second) 1 2 after_race.1 _ _ _))).
  - intros j. by split.
  - apply (up_run_ok settings empty_store); [apply settings_ok|apply after_race_runs].
  - lia.
  - vm_compute. reflexivity.
Defined.
