(* ===== verification/Folders.v ===== *)
(** * Folders

    [internal/store/dialog_filters.go] with the statements of
    [internal/store/queries/dialog_filters.sql] and the constraints of the four tables: the
    private folders of an account, their order and the marker of their last change.  Every
    transaction that writes takes the owner's state row first and keeps it locked to the end,
    so the transactions of one owner run one after the other and each is a function on the
    committed tables, which gives them back untouched on an error.  Reads are snapshots. *)

From S2P Require Import Prelude.
From S2P Require Import RateLimit.
From S2P Require Import Threads.
From S2P Require Import NetAddr.
From S2P Require Import Limits.
From S2P Require Import PeerHash.
From S2P Require Import ChannelStore.
From S2P Require Import Utf8.
From stdpp Require Import list_numbers.
From Stdlib Require Import Ascii String.

Open Scope Z_scope.

(** ** Data *)

Definition dialogFilterPinned : Z := 1.
Definition dialogFilterIncluded : Z := 2.
Definition dialogFilterExcluded : Z := 3.
Definition dialogFilterMaxPeers : Z := 100.
Definition dialogFilterMaxEntities : Z := 12.

Record DialogFilterPeer : Type := mkFPeer { fp_Type : PeerType; fp_ID : Z }.

#[global] Instance DialogFilterPeer_eq_dec : EqDecision DialogFilterPeer.
Proof. solve_decision. Defined.

Record DialogFilterEntity : Type := mkFEntity { en_Offset : Z; en_Length : Z; en_DocumentID : Z }.

(** The nine switches of a folder, which rows, definitions and answers share. *)
Record filter_flags : Type := mkFlags {
  Contacts : bool; NonContacts : bool; Groups : bool; Broadcasts : bool; Bots : bool;
  ExcludeMuted : bool; ExcludeRead : bool; ExcludeArchived : bool; TitleNoanimate : bool
}.

Definition no_flags : filter_flags := mkFlags false false false false false false false false false.

Record DialogFilter : Type := mkFilter {
  df_ID : Z;
  df_Title : string;
  df_Entities : list DialogFilterEntity;
  df_Emoticon : string;
  df_Color : option Z;
  df_flags : filter_flags;
  PinnedPeers : list DialogFilterPeer;
  IncludePeers : list DialogFilterPeer;
  ExcludePeers : list DialogFilterPeer
}.

Record DialogFilterSnapshot : Type := mkSnapshot {
  sn_Filters : list DialogFilter; sn_Order : list Z; sn_ChangedAt : option Z
}.

(** ** Tables *)

Record filter_state : Type := mkFState {
  order_ids : list Z; changed_at : option Z; defaults_seeded_at : option Z
}.

Record filter_row : Type := mkFRow {
  fr_title : string; fr_emoticon : string; fr_color : option Z; fr_flags : filter_flags
}.

(** The rows of the four tables, what they refer to, the counters of the limits, and the
    committed invalidations, oldest first. *)
Record folders : Type := mkFolders {
  users : gset Z;
  update_state : gset Z;
  chat_participants : gset (Z * Z);
  channel_members : gmap (Z * Z) participant;
  user_dialog_filter_state : gmap Z filter_state;
  user_dialog_filters : gmap (Z * Z) filter_row;
  user_dialog_filter_peers : gmap (Z * Z * Z * Z) DialogFilterPeer;
  user_dialog_filter_entities : gmap (Z * Z * Z) DialogFilterEntity;
  folder_limits : rl_table;
  notified : list Z
}.

Definition with_fstate (m : gmap Z filter_state) (s : folders) : folders :=
  mkFolders (users s) (update_state s) (chat_participants s) (channel_members s) m (user_dialog_filters s)
    (user_dialog_filter_peers s) (user_dialog_filter_entities s) (folder_limits s) (notified s).
Definition with_filters (m : gmap (Z * Z) filter_row) (s : folders) : folders :=
  mkFolders (users s) (update_state s) (chat_participants s) (channel_members s) (user_dialog_filter_state s) m
    (user_dialog_filter_peers s) (user_dialog_filter_entities s) (folder_limits s) (notified s).
Definition with_fpeers (m : gmap (Z * Z * Z * Z) DialogFilterPeer) (s : folders) : folders :=
  mkFolders (users s) (update_state s) (chat_participants s) (channel_members s) (user_dialog_filter_state s)
    (user_dialog_filters s) m (user_dialog_filter_entities s) (folder_limits s) (notified s).
Definition with_fentities (m : gmap (Z * Z * Z) DialogFilterEntity) (s : folders) : folders :=
  mkFolders (users s) (update_state s) (chat_participants s) (channel_members s) (user_dialog_filter_state s)
    (user_dialog_filters s) (user_dialog_filter_peers s) m (folder_limits s) (notified s).
Definition with_notice (owner : Z) (s : folders) : folders :=
  mkFolders (users s) (update_state s) (chat_participants s) (channel_members s) (user_dialog_filter_state s)
    (user_dialog_filters s) (user_dialog_filter_peers s) (user_dialog_filter_entities s) (folder_limits s)
    (notified s ++ [owner]).

(** What a step meets: whether its call fails, the clocks, what other requests do to the
    counters during a check, the clock of the database at the two statements that read it,
    and the order in which the runtime walks a map of three lists. *)
Record fold_env : Type := mkFoldEnv {
  fe_fault : fault;
  fe_now : Z;
  fe_clock : Z;
  fe_between : rl_table -> rl_table;
  fe_seed_at : Z;
  fe_change_at : Z;
  fe_walk : nat
}.

#[global] Instance folders_limited : Limited folders fold_env := {
  limits := folder_limits;
  with_limits t s :=
    mkFolders (users s) (update_state s) (chat_participants s) (channel_members s) (user_dialog_filter_state s)
      (user_dialog_filters s) (user_dialog_filter_peers s) (user_dialog_filter_entities s) t (notified s);
  lim_fault := fe_fault;
  lim_now := fe_now;
  lim_clock := fe_clock;
  lim_between := fe_between
}.

(** The order in which [range] meets the three lists. *)
Definition walk_lists (n : nat) : list Z :=
  match n with
  | 0%nat => [1; 2; 3] | 1%nat => [1; 3; 2] | 2%nat => [2; 1; 3] | 3%nat => [2; 3; 1] | 4%nat => [3; 1; 2]
  | _ => [3; 2; 1]
  end.

(** ** Statements

    A statement that violates a constraint is [None]. *)

(** What a column of type [text] takes. *)
Definition text_ok (s : string) : bool :=
  ValidString (bytes_of s) && forallb (fun b => negb (b =? 0)) (bytes_of s).

Definition default_state : filter_state := mkFState [0] None None.

Definition EnsureDialogFilterState (owner : Z) (s : folders) : option folders :=
  match user_dialog_filter_state s !! owner with
  | Some _ => Some s
  | None =>
      if bool_decide (owner ∈ users s)
      then Some (with_fstate (<[owner := default_state]> (user_dialog_filter_state s)) s)
      else None
  end.

Definition DialogFilterDefaultsSeeded (owner : Z) (s : folders) : bool :=
  match user_dialog_filter_state s !! owner with
  | Some st => bool_decide (is_Some (defaults_seeded_at st))
  | None => false
  end.

Definition DialogFilterExists (owner id : Z) (s : folders) : bool :=
  bool_decide (is_Some (user_dialog_filters s !! (owner, id))).

(** [ORDER BY filter_id]. *)
Definition id_le (a b : Z * filter_row) : Prop := a.1 <= b.1.
#[global] Instance id_le_dec : RelDecision id_le.
Proof. intros a b. unfold id_le. apply _. Defined.

Definition ListDialogFilters (owner : Z) (s : folders) : list (Z * filter_row) :=
  merge_sort id_le
    (omap (fun '((o, id), r) => if o =? owner then Some (id, r) else None) (map_to_list (user_dialog_filters s))).

Definition DialogFilterFolderCount (owner : Z) (s : folders) : Z := len (ListDialogFilters owner s).

(** A row of the peers of an owner: the folder, the list, the position and the peer;
    [ORDER BY filter_id, list_type, peer_position]. *)
Definition place_le (a b : (Z * Z * Z) * DialogFilterPeer) : Prop :=
  let '((fa, la, pa), _) := a in let '((fb, lb, pb), _) := b in
  fa < fb \/ fa = fb /\ (la < lb \/ la = lb /\ pa <= pb).
#[global] Instance place_le_dec : RelDecision place_le.
Proof. intros [[[fa la] pa] x] [[[fb lb] pb] y]. unfold place_le. apply _. Defined.

Definition ListDialogFilterPeers (owner : Z) (s : folders) : list ((Z * Z * Z) * DialogFilterPeer) :=
  merge_sort place_le
    (omap (fun '((o, f, l, p), x) => if o =? owner then Some ((f, l, p), x) else None)
          (map_to_list (user_dialog_filter_peers s))).

(** [ORDER BY filter_id, entity_position]. *)
Definition spot_le (a b : (Z * Z) * DialogFilterEntity) : Prop :=
  let '((fa, pa), _) := a in let '((fb, pb), _) := b in fa < fb \/ fa = fb /\ pa <= pb.
#[global] Instance spot_le_dec : RelDecision spot_le.
Proof. intros [[fa pa] x] [[fb pb] y]. unfold spot_le. apply _. Defined.

Definition ListDialogFilterEntities (owner : Z) (s : folders) : list ((Z * Z) * DialogFilterEntity) :=
  merge_sort spot_le
    (omap (fun '((o, f, p), x) => if o =? owner then Some ((f, p), x) else None)
          (map_to_list (user_dialog_filter_entities s))).

(** What both statements that write a folder check. *)
Definition row_ok (owner id : Z) (r : filter_row) (s : folders) : bool :=
  bool_decide (owner ∈ users s) && (2 <=? id) && (id <=? 255) && text_ok (fr_title r) && text_ok (fr_emoticon r) &&
  match fr_color r with Some c => (0 <=? c) && (c <=? 6) | None => true end.

Definition InsertDialogFilter (owner id : Z) (r : filter_row) (s : folders) : option folders :=
  if row_ok owner id r s && negb (DialogFilterExists owner id s)
  then Some (with_filters (<[(owner, id) := r]> (user_dialog_filters s)) s) else None.

Definition UpsertDialogFilter (owner id : Z) (r : filter_row) (s : folders) : option folders :=
  if row_ok owner id r s then Some (with_filters (<[(owner, id) := r]> (user_dialog_filters s)) s) else None.

(** The foreign keys cascade. *)
Definition DeleteDialogFilterRow (owner id : Z) (s : folders) : Z * folders :=
  match user_dialog_filters s !! (owner, id) with
  | None => (0, s)
  | Some _ =>
      (1, with_fentities (filter (fun '((o, f, _), _) => ~ (o = owner /\ f = id)) (user_dialog_filter_entities s))
            (with_fpeers (filter (fun '((o, f, _, _), _) => ~ (o = owner /\ f = id)) (user_dialog_filter_peers s))
              (with_filters (delete (owner, id) (user_dialog_filters s)) s)))
  end.

Definition DeleteDialogFilterPeers (owner id : Z) (s : folders) : folders :=
  with_fpeers (filter (fun '((o, f, _, _), _) => ~ (o = owner /\ f = id)) (user_dialog_filter_peers s)) s.

Definition DeleteDialogFilterEntities (owner id : Z) (s : folders) : folders :=
  with_fentities (filter (fun '((o, f, _), _) => ~ (o = owner /\ f = id)) (user_dialog_filter_entities s)) s.

(** Whether a list of a folder has the peer already. *)
Definition peer_listed (owner id l : Z) (p : DialogFilterPeer) (s : folders) : bool :=
  bool_decide (map_Exists (fun k x => k.1 = (owner, id, l) /\ x = p) (user_dialog_filter_peers s)).

Definition InsertDialogFilterPeer (owner id l pos : Z) (p : DialogFilterPeer) (s : folders) : option folders :=
  if (1 <=? l) && (l <=? 3) && (0 <=? pos) && (pos <=? 99) && DialogFilterExists owner id s &&
     bool_decide (user_dialog_filter_peers s !! (owner, id, l, pos) = None) && negb (peer_listed owner id l p s)
  then Some (with_fpeers (<[(owner, id, l, pos) := p]> (user_dialog_filter_peers s)) s) else None.

Definition InsertDialogFilterEntity (owner id pos : Z) (x : DialogFilterEntity) (s : folders) : option folders :=
  if (0 <=? pos) && (pos <=? 11) && (0 <=? en_Offset x) && (0 <? en_Length x) && (0 <? en_DocumentID x) &&
     DialogFilterExists owner id s && bool_decide (user_dialog_filter_entities s !! (owner, id, pos) = None)
  then Some (with_fentities (<[(owner, id, pos) := x]> (user_dialog_filter_entities s)) s) else None.

Definition MarkDialogFilterDefaultsSeeded (owner at_ : Z) (s : folders) : folders :=
  match user_dialog_filter_state s !! owner with
  | Some (mkFState o c None) => with_fstate (<[owner := mkFState o c (Some at_)]> (user_dialog_filter_state s)) s
  | _ => s
  end.

Definition CommitDialogFilterMutation (owner : Z) (order : list Z) (at_ : Z) (s : folders) : folders :=
  match user_dialog_filter_state s !! owner with
  | Some st => with_fstate (<[owner := mkFState order (Some at_) (defaults_seeded_at st)]> (user_dialog_filter_state s)) s
  | None => s
  end.

(** ** Helpers *)

Definition dialogFilterSmallint (v : Z) : option Z := if (v <? - 32768) || (v >? 32767) then None else Some v.
Definition dialogFilterInt32 (v : Z) : option Z := if (v <? - 2 ^ 31) || (v >? 2 ^ 31 - 1) then None else Some v.

Fixpoint dialogFilterOrderIDs (ids : list Z) : option (list Z) :=
  match ids with
  | [] => Some []
  | id :: ids =>
      match dialogFilterSmallint id with
      | None => None
      | Some v => match dialogFilterOrderIDs ids with None => None | Some l => Some (v :: l) end
      end
  end.

Definition dialogFilterRowIDs (rows : list (Z * filter_row)) : list Z := map fst rows.

(** [seen] and [out]: an id goes out the first time it is met, when it is valid. *)
Definition appendValid (valid : gset Z) (acc : gset Z * list Z) (id : Z) : gset Z * list Z :=
  let '(seen, out) := acc in
  if negb (bool_decide (id ∈ valid)) then (seen, out)
  else if bool_decide (id ∈ seen) then (seen, out)
  else ({[id]} ∪ seen, out ++ [id]).

Definition NormalizeDialogFilterOrder (requested existing : list Z) : list Z :=
  let valid : gset Z :=
    foldl (fun v id => if (2 <=? id) && (id <=? 255) then {[id]} ∪ v else v) {[0]} existing in
  let acc := foldl (appendValid valid) (∅, []) requested in
  let acc := foldl (appendValid valid) acc existing in
  (appendValid valid acc 0).2.

Definition DefaultDialogFilters : list DialogFilter :=
  let make title flags := mkFilter 0 title [] "" None flags [] [] [] in
  [ make "Personal"%string (mkFlags true true false false true false false false false);
    make "Channels"%string (mkFlags false false false true false false false false false);
    make "Groups"%string (mkFlags false false true false false false false false false);
    make "Unread"%string (mkFlags true true true true true false true false false) ].

Definition nextAvailableDialogFilterID (used : list Z) : Z :=
  default 0 (List.find (fun id => negb (bool_decide (id ∈ used))) (seqZ 2 254)).

(** [unicode.IsSpace]. *)
Definition is_space (r : Z) : bool :=
  ((9 <=? r) && (r <=? 13)) || (r =? 32) || (r =? 133) || (r =? 160) || (r =? 5760) ||
  ((8192 <=? r) && (r <=? 8202)) || (r =? 8232) || (r =? 8233) || (r =? 8239) || (r =? 8287) || (r =? 12288).

Fixpoint trim_left (rs : list Z) : list Z :=
  match rs with [] => [] | r :: rs' => if is_space r then trim_left rs' else rs end.

(** [strings.TrimSpace], on runes. *)
Definition TrimSpace (rs : list Z) : list Z := rev (trim_left (rev (trim_left rs))).

(** ** Transactions *)

Inductive folder_error : Type := ErrDialogFilterLimit | ErrFolderOther.

(** [EnsureDialogFilterState], the lock of the state row, the lock of the update state. *)
Definition beginDialogFilterMutation (owner : Z) (s : folders) : option (filter_state * folders) :=
  match EnsureDialogFilterState owner s with
  | None => None
  | Some s =>
      match user_dialog_filter_state s !! owner with
      | None => None
      | Some st => if bool_decide (owner ∈ update_state s) then Some (st, s) else None
      end
  end.

Definition commitDialogFilterMutation (owner : Z) (order : list Z) (e : fold_env) (s : folders) : option folders :=
  match dialogFilterOrderIDs order with
  | None => None
  | Some ids => Some (CommitDialogFilterMutation owner ids (fe_change_at e) (with_notice owner s))
  end.

Fixpoint insert_peers (owner id l pos : Z) (peers : list DialogFilterPeer) (s : folders) : option folders :=
  match peers with
  | [] => Some s
  | p :: peers =>
      match dialogFilterSmallint pos with
      | None => None
      | Some pos16 =>
          match InsertDialogFilterPeer owner id l pos16 p s with
          | None => None
          | Some s => insert_peers owner id l (pos + 1) peers s
          end
      end
  end.

Definition list_of (l : Z) (f : DialogFilter) : list DialogFilterPeer :=
  if l =? dialogFilterPinned then PinnedPeers f
  else if l =? dialogFilterIncluded then IncludePeers f
  else if l =? dialogFilterExcluded then ExcludePeers f
  else [].

Fixpoint insert_lists (owner id : Z) (f : DialogFilter) (lists : list Z) (s : folders) : option folders :=
  match lists with
  | [] => Some s
  | l :: lists =>
      if len (list_of l f) >? dialogFilterMaxPeers then None
      else match insert_peers owner id l 0 (list_of l f) s with
           | None => None
           | Some s => insert_lists owner id f lists s
           end
  end.

Definition replaceDialogFilterLists (owner : Z) (f : DialogFilter) (lists : list Z) (s : folders) : option folders :=
  match dialogFilterSmallint (df_ID f) with
  | None => None
  | Some id => insert_lists owner id f lists (DeleteDialogFilterPeers owner id s)
  end.

Fixpoint insert_entities (owner id pos : Z) (xs : list DialogFilterEntity) (s : folders) : option folders :=
  match xs with
  | [] => Some s
  | x :: xs =>
      match dialogFilterSmallint pos, dialogFilterInt32 (en_Offset x), dialogFilterInt32 (en_Length x) with
      | Some pos16, Some o, Some l =>
          match InsertDialogFilterEntity owner id pos16 (mkFEntity o l (en_DocumentID x)) s with
          | None => None
          | Some s => insert_entities owner id (pos + 1) xs s
          end
      | _, _, _ => None
      end
  end.

Definition replaceDialogFilterEntities (owner : Z) (f : DialogFilter) (s : folders) : option folders :=
  match dialogFilterSmallint (df_ID f) with
  | None => None
  | Some id =>
      if len (df_Entities f) >? dialogFilterMaxEntities then None
      else insert_entities owner id 0 (df_Entities f) (DeleteDialogFilterEntities owner id s)
  end.

(** The stored order, with the folder at the end when it is new. *)
Definition saved_order (owner id : Z) (st : filter_state) (s : folders) : list Z :=
  let current := NormalizeDialogFilterOrder (order_ids st) (dialogFilterRowIDs (ListDialogFilters owner s)) in
  if bool_decide (id ∈ current) then current else current ++ [id].

(** The writes of [SaveDialogFilter] past the limit. *)
Definition save_writes (owner id : Z) (st : filter_state) (f : DialogFilter) (e : fold_env) (s : folders) : option folders :=
  let color := match df_Color f with
               | None => Some None
               | Some c => if (c <? 0) || (c >? 6) then None else match dialogFilterSmallint c with None => None | Some v => Some (Some v) end
               end in
  match color with
  | None => None
  | Some color =>
      match UpsertDialogFilter owner id (mkFRow (df_Title f) (df_Emoticon f) color (df_flags f)) s with
      | None => None
      | Some s =>
          match replaceDialogFilterLists owner f (walk_lists (fe_walk e)) s with
          | None => None
          | Some s =>
              match replaceDialogFilterEntities owner f s with
              | None => None
              | Some s => commitDialogFilterMutation owner (saved_order owner (df_ID f) st s) e s
              end
          end
      end
  end.

Definition SaveDialogFilter (owner : Z) (f : DialogFilter) (e : fold_env) (s0 : folders) : option folder_error * folders :=
  if (df_ID f <? 2) || (df_ID f >? 255) then (Some ErrFolderOther, s0)
  else
    match dialogFilterSmallint (df_ID f) with
    | None => (Some ErrFolderOther, s0)
    | Some id =>
        match beginDialogFilterMutation owner s0 with
        | None => (Some ErrFolderOther, s0)
        | Some (st, s) =>
            if negb (DialogFilterExists owner id s) && (DialogFilterFolderCount owner s >=? 10)
            then (Some ErrDialogFilterLimit, s0)
            else match save_writes owner id st f e s with
                 | None => (Some ErrFolderOther, s0)
                 | Some s => (None, s)
                 end
        end
    end.

(** Whether anything changed; [None] for an error. *)
Definition DeleteDialogFilter (owner id : Z) (e : fold_env) (s0 : folders) : option bool * folders :=
  if (id <? 2) || (id >? 255) then (None, s0)
  else
    match beginDialogFilterMutation owner s0 with
    | None => (None, s0)
    | Some (st, s) =>
        let '(deleted, s) := DeleteDialogFilterRow owner id s in
        let requested := List.filter (fun x => negb (x =? id)) (order_ids st) in
        let order := NormalizeDialogFilterOrder requested (dialogFilterRowIDs (ListDialogFilters owner s)) in
        let orderChanged := negb (bool_decide (order = order_ids st)) in
        if (deleted =? 0) && negb orderChanged then (Some false, s)
        else match commitDialogFilterMutation owner order e s with
             | None => (None, s0)
             | Some s => (Some true, s)
             end
    end.

Definition UpdateDialogFilterOrder (owner : Z) (requested : list Z) (e : fold_env) (s0 : folders) : option bool * folders :=
  match beginDialogFilterMutation owner s0 with
  | None => (None, s0)
  | Some (st, s) =>
      let ids := dialogFilterRowIDs (ListDialogFilters owner s) in
      let previous := NormalizeDialogFilterOrder (order_ids st) ids in
      let order := NormalizeDialogFilterOrder requested previous in
      if bool_decide (order = previous) then (Some false, s)
      else match commitDialogFilterMutation owner order e s with
           | None => (None, s0)
           | Some s => (Some true, s)
           end
  end.

(** ** Seeding

    The case mapping of the Unicode tables outside ASCII is a parameter. *)
Section seeding.
Context (uni_lower : Z -> Z).

Definition lower_rune (r : Z) : Z :=
  if r <? 128 then (if (65 <=? r) && (r <=? 90) then r + 32 else r) else uni_lower r.

Definition dialogFilterTitleKey (title : string) : list Z := map lower_rune (TrimSpace (runes (bytes_of title))).

Definition default_row (d : DialogFilter) : filter_row := mkFRow (df_Title d) "" None (df_flags d).

(** The loop over the defaults: [n] rows were there before, [added] went in. *)
Fixpoint seed_loop (owner n : Z) (defs : list DialogFilter) (used : list Z) (titles : list (list Z))
    (added : list Z) (s : folders) : option (list Z * folders) :=
  match defs with
  | [] => Some (added, s)
  | d :: defs =>
      if n + len added >=? 10 then Some (added, s)
      else if bool_decide (dialogFilterTitleKey (df_Title d) ∈ titles) then seed_loop owner n defs used titles added s
      else
        let id := nextAvailableDialogFilterID used in
        if id =? 0 then Some (added, s)
        else
          match dialogFilterSmallint id with
          | None => None
          | Some id16 =>
              match InsertDialogFilter owner id16 (default_row d) s with
              | None => None
              | Some s =>
                  seed_loop owner n defs (id :: used) (dialogFilterTitleKey (df_Title d) :: titles) (added ++ [id]) s
              end
          end
  end.

(** The transaction of [SeedDefaultDialogFilters]. *)
Definition seed_tx (owner : Z) (e : fold_env) (s0 : folders) : option bool * folders :=
  match beginDialogFilterMutation owner s0 with
  | None => (None, s0)
  | Some (st, s) =>
      match defaults_seeded_at st with
      | Some _ => (Some false, s)
      | None =>
          let rows := ListDialogFilters owner s in
          let order := NormalizeDialogFilterOrder (order_ids st) (dialogFilterRowIDs rows) in
          match seed_loop owner (len rows) DefaultDialogFilters (map fst rows)
                  (map (fun r => dialogFilterTitleKey (fr_title r.2)) rows) [] s with
          | None => (None, s0)
          | Some (added, s) =>
              match commitDialogFilterMutation owner (order ++ added) e
                      (MarkDialogFilterDefaultsSeeded owner (fe_seed_at e) s) with
              | None => (None, s0)
              | Some s => (Some true, s)
              end
          end
      end
  end.

End seeding.

(** ** The snapshot *)

Definition add_peer (l : Z) (p : DialogFilterPeer) (f : DialogFilter) : DialogFilter :=
  let '(mkFilter id t en em c fl pi inc ex) := f in
  if l =? dialogFilterPinned then mkFilter id t en em c fl (pi ++ [p]) inc ex
  else if l =? dialogFilterIncluded then mkFilter id t en em c fl pi (inc ++ [p]) ex
  else if l =? dialogFilterExcluded then mkFilter id t en em c fl pi inc (ex ++ [p])
  else f.

Definition add_entity (x : DialogFilterEntity) (f : DialogFilter) : DialogFilter :=
  let '(mkFilter id t en em c fl pi inc ex) := f in mkFilter id t (en ++ [x]) em c fl pi inc ex.

(** The folder of the snapshot with that id, when there is one; ids are unique. *)
Definition at_folder (id : Z) (g : DialogFilter -> DialogFilter) (fs : list DialogFilter) : list DialogFilter :=
  map (fun f => if df_ID f =? id then g f else f) fs.

Definition filter_of_row (row : Z * filter_row) : DialogFilter :=
  mkFilter row.1 (fr_title row.2) [] (fr_emoticon row.2) (fr_color row.2) (fr_flags row.2) [] [] [].

Definition readDialogFilters (owner : Z) (s : folders) : DialogFilterSnapshot :=
  let '(order, changed) :=
    match user_dialog_filter_state s !! owner with
    | None => ([0], None)
    | Some st => (order_ids st, changed_at st)
    end in
  let fs := map filter_of_row (ListDialogFilters owner s) in
  let fs := foldl (fun fs '((id, l, _), p) => at_folder id (add_peer l p) fs) fs (ListDialogFilterPeers owner s) in
  let fs := foldl (fun fs '((id, _), x) => at_folder id (add_entity x) fs) fs (ListDialogFilterEntities owner s) in
  mkSnapshot fs (NormalizeDialogFilterOrder order (map df_ID fs)) changed.

(** The durable marker of the last change. *)
Definition DialogFilterChangeAt (owner : Z) (s : folders) : option Z :=
  match user_dialog_filter_state s !! owner with None => None | Some st => changed_at st end.
