(* ===== verification/FolderApi.v ===== *)
(** * Folder requests

    [internal/api/dialog_filters.go]: the four methods on folders as programs over the tables
    of [Folders], one step per statement or transaction, with the checks of what a client
    sends.  The marks a fetch leaves for the recovery of folders are [FolderSync]'s. *)

From S2P Require Import Prelude.
From S2P Require Import RateLimit.
From S2P Require Import Threads.
From S2P Require Import NetAddr.
From S2P Require Import Limits.
From S2P Require Import PeerHash.
From S2P Require Import ChannelStore.
From S2P Require Import Utf8.
From S2P Require Import Folders.
From stdpp Require Import list_numbers.
From Stdlib Require Import Ascii String.

Open Scope Z_scope.

Definition dialogFilterRateLimitSurface : string := "dialog_filter_mutation".
Definition maxDialogFilterPeers : Z := 100.
Definition maxDialogFilterRawPeers : Z := 100.
Definition maxDialogFilterEntities : Z := 12.
Definition maxDialogFilterOrder : Z := 256.
Definition dialogFilterMutationRateLimit : RateLimitConfig := mkRLConfig 60 (60 * second).

Definition errFilterIDInvalid := mkErr 400 "FILTER_ID_INVALID".
Definition errFilterTitleEmpty := mkErr 400 "FILTER_TITLE_EMPTY".
Definition errFilterIncludeEmpty := mkErr 400 "FILTER_INCLUDE_EMPTY".
Definition errEntitiesTooLong := mkErr 400 "ENTITIES_TOO_LONG".
Definition errEntityBoundsInvalid := mkErr 400 "ENTITY_BOUNDS_INVALID".

(** ** What clients send and get *)

(** [tg.MessageEntityClass]: the one class a title may carry, and the others. *)
Inductive MessageEntity : Type :=
| MessageEntityCustomEmoji (Offset Length DocumentID : Z)
| MessageEntityOther.

Record tg_DialogFilter : Type := mkTLFilter {
  tf_ID : Z;
  tf_Text : string;
  tf_Entities : list MessageEntity;
  tf_Emoticon : option string;
  tf_Color : option Z;
  tf_flags : filter_flags;
  tf_Pinned : list InputPeerClass;
  tf_Include : list InputPeerClass;
  tf_Exclude : list InputPeerClass
}.

(** [tg.DialogFilterClass]. *)
Inductive DialogFilterClass : Type :=
| TLDialogFilter (f : tg_DialogFilter)
| TLDialogFilterDefault
| TLDialogFilterChatlist.

Inductive folder_reply : Type :=
| FoTrue
| FoError (e : rpc_error)
| FoFilters (l : list DialogFilterClass)
| FoSuggested (l : list (tg_DialogFilter * string)).

(** ** Checks *)

(** The positions between runes, in code units. *)
Fixpoint boundaries_from (position : Z) (rs : list Z) : list Z :=
  match rs with
  | [] => []
  | r :: rs => (position + RuneLen r) :: boundaries_from (position + RuneLen r) rs
  end.

Definition entity_ok (units : Z) (boundaries : list Z) (x : MessageEntity) : option DialogFilterEntity :=
  match x with
  | MessageEntityOther => None
  | MessageEntityCustomEmoji o l d =>
      if (o <? 0) || (l <=? 0) || (l >? units) || (o >? units - l) || (d <=? 0) then None
      else if negb (bool_decide (o ∈ boundaries)) then None
      else if negb (bool_decide (o + l ∈ boundaries)) then None
      else Some (mkFEntity o l d)
  end.

Definition validateDialogFilterEntities (text : string) (xs : list MessageEntity) :
    result rpc_error (list DialogFilterEntity) :=
  let rs := runes (bytes_of text) in
  let units := units16 rs in
  let boundaries := 0 :: boundaries_from 0 rs in
  match mapM (entity_ok units boundaries) xs with
  | None => Err errEntityBoundsInvalid
  | Some es => Ok es
  end.

(** One list after the other; [seen] is shared. *)
Fixpoint normalize (seen : list DialogFilterPeer) (peers : list DialogFilterPeer) :
    list DialogFilterPeer * list DialogFilterPeer :=
  match peers with
  | [] => (seen, [])
  | p :: peers =>
      if bool_decide (p ∈ seen) then normalize seen peers
      else let '(seen, out) := normalize (p :: seen) peers in (seen, p :: out)
  end.

Definition normalizeDialogFilterPeers (pinned included excluded : list DialogFilterPeer) :
    list DialogFilterPeer * list DialogFilterPeer * list DialogFilterPeer :=
  let '(seen, pinned) := normalize [] pinned in
  let '(seen, included) := normalize seen included in
  let '(_, excluded) := normalize seen excluded in
  (pinned, included, excluded).

Definition accessibleDialogFilterPeers (peers accessible : list DialogFilterPeer) : list DialogFilterPeer :=
  List.filter (fun p => bool_decide (p ∈ accessible)) peers.

Section handlers.
(** The key of the access hashes; the Unicode tables outside ASCII: the lower case of a rune,
    and whether two runes fold together. *)
Context (key : list Z) (uni_lower : Z -> Z) (uni_fold : Z -> Z -> bool).

(** ** Answers *)

Definition dialogFilterPeersToTL (peers : list DialogFilterPeer) (ownerID : Z) : list InputPeerClass :=
  map (fun p =>
    match fp_Type p with
    | PeerTypeChat => InputPeerChat (fp_ID p)
    | PeerTypeChannel => InputPeerChannel (fp_ID p) (Derive key ownerID KindChannel (fp_ID p))
    | PeerTypeUser =>
        if fp_ID p =? ownerID then InputPeerSelf
        else InputPeerUser (fp_ID p) (Derive key ownerID KindUser (fp_ID p))
    end) peers.

Definition dialogFilterToTL (f : DialogFilter) (ownerID : Z) : tg_DialogFilter :=
  mkTLFilter (df_ID f) (df_Title f)
    (map (fun x => MessageEntityCustomEmoji (en_Offset x) (en_Length x) (en_DocumentID x)) (df_Entities f))
    (if String.eqb (df_Emoticon f) "" then None else Some (df_Emoticon f))
    (df_Color f) (df_flags f)
    (dialogFilterPeersToTL (PinnedPeers f) ownerID) (dialogFilterPeersToTL (IncludePeers f) ownerID)
    (dialogFilterPeersToTL (ExcludePeers f) ownerID).

(** The answer of getDialogFilters on a snapshot whose peers are cut to the accessible ones. *)
Definition cut_filter (accessible : list DialogFilterPeer) (f : DialogFilter) : DialogFilter :=
  mkFilter (df_ID f) (df_Title f) (df_Entities f) (df_Emoticon f) (df_Color f) (df_flags f)
    (accessibleDialogFilterPeers (PinnedPeers f) accessible)
    (accessibleDialogFilterPeers (IncludePeers f) accessible)
    (accessibleDialogFilterPeers (ExcludePeers f) accessible).

Definition ordered_filters (order : list Z) (fs : list DialogFilter) (ownerID : Z) : list DialogFilterClass :=
  omap (fun id =>
    if id =? 0 then Some TLDialogFilterDefault
    else match List.find (fun f => df_ID f =? id) fs with
         | None => None
         | Some f => Some (TLDialogFilter (dialogFilterToTL f ownerID))
         end) order.

Definition filters_answer (snapshot : DialogFilterSnapshot) (accessible : list DialogFilterPeer) (ownerID : Z) :
    list DialogFilterClass :=
  let ordered := ordered_filters (sn_Order snapshot) (map (cut_filter accessible) (sn_Filters snapshot)) ownerID in
  match ordered with [] => [TLDialogFilterDefault] | _ => ordered end.

(** ** Suggestions *)

(** [strings.EqualFold] of runes. *)
Definition fold_eq (a b : Z) : bool :=
  (a =? b) ||
  (if (a <? 128) && (b <? 128) then lower_rune uni_lower a =? lower_rune uni_lower b else uni_fold a b).

Fixpoint EqualFold (a b : list Z) : bool :=
  match a, b with
  | [], [] => true
  | x :: a, y :: b => fold_eq x y && EqualFold a b
  | _, _ => false
  end.

Definition hasSuggestedDialogFilterTitle (existing : list DialogFilter) (title : string) : bool :=
  existsb (fun f => EqualFold (TrimSpace (runes (bytes_of (df_Title f)))) (runes (bytes_of title))) existing.

Definition nextDialogFilterID (used : list Z) : Z :=
  default 0 (List.find (fun id => negb (bool_decide (id ∈ used))) (seqZ 2 254)).

Definition dialogFilterTemplateToTL (f : DialogFilter) (id : Z) : tg_DialogFilter :=
  mkTLFilter id (df_Title f) [] None None (df_flags f) [] [] [].

Definition suggested_description (title : string) : string :=
  if String.eqb title "Personal" then "Private chats"
  else if String.eqb title "Groups" then "Group chats"
  else if String.eqb title "Channels" then "Broadcast channels"
  else if String.eqb title "Unread" then "Chats with unread messages"
  else "".

Fixpoint suggest_loop (existing : list DialogFilter) (defs : list DialogFilter) (used : list Z) :
    list (tg_DialogFilter * string) :=
  match defs with
  | [] => []
  | d :: defs =>
      if hasSuggestedDialogFilterTitle existing (df_Title d) then suggest_loop existing defs used
      else
        let id := nextDialogFilterID used in
        if id =? 0 then []
        else (dialogFilterTemplateToTL d id, suggested_description (df_Title d)) :: suggest_loop existing defs (id :: used)
  end.

Definition suggestedDialogFilters (existing : list DialogFilter) : list (tg_DialogFilter * string) :=
  suggest_loop existing DefaultDialogFilters (map df_ID existing).

(** ** Programs *)

Notation fprog := (prog folders fold_env folder_reply).

Definition fcall {A : Type} (op : fold_env -> folders -> A * folders) (k : option A -> fprog) : fprog :=
  store_call fe_fault op k.

(** The marker is read first; the transaction reads it again under the lock. *)
Definition SeedDefaultDialogFilters (owner : Z) (k : option bool -> fprog) : fprog :=
  fcall (fun _ s => (DialogFilterDefaultsSeeded owner s, s)) (fun a =>
    match a with
    | None => k None
    | Some true => k (Some false)
    | Some false =>
        fcall (seed_tx uni_lower owner) (fun a => match a with None | Some None => k None | Some (Some b) => k (Some b) end)
    end).

Definition ids_of (t : PeerType) (peers : list DialogFilterPeer) : list Z :=
  remove_dups (map fp_ID (List.filter (fun p => bool_decide (fp_Type p = t)) peers)).

(** The peers found accessible; those asked for and not found, and the others, read the same. *)
Definition users_query (ids : list Z) (s : folders) : list DialogFilterPeer :=
  map (mkFPeer PeerTypeUser) (List.filter (fun id => bool_decide (id ∈ users s)) ids).

Definition chats_query (owner : Z) (ids : list Z) (s : folders) : list DialogFilterPeer :=
  map (mkFPeer PeerTypeChat) (List.filter (fun id => bool_decide ((id, owner) ∈ chat_participants s)) ids).

Definition channels_query (owner now : Z) (ids : list Z) (s : folders) : list DialogFilterPeer :=
  map (mkFPeer PeerTypeChannel)
    (List.filter (fun id =>
       match channel_members s !! (id, owner) with
       | None => false
       | Some row => negb (Banned (channelMemberFromRow owner row) now)
       end) ids).

(** A type nobody asked for is not queried. *)
Definition ask (ids : list Z) (q : folders -> list DialogFilterPeer) (k : option (list DialogFilterPeer) -> fprog) : fprog :=
  match ids with [] => k (Some []) | _ => fcall (fun _ s => (q s, s)) k end.

Definition AccessibleDialogFilterPeers (owner : Z) (peers : list DialogFilterPeer) (now : Z)
    (k : option (list DialogFilterPeer) -> fprog) : fprog :=
  ask (ids_of PeerTypeUser peers) (users_query (ids_of PeerTypeUser peers)) (fun a =>
    match a with
    | None => k None
    | Some us =>
        ask (ids_of PeerTypeChat peers) (chats_query owner (ids_of PeerTypeChat peers)) (fun a =>
          match a with
          | None => k None
          | Some cs =>
              ask (ids_of PeerTypeChannel peers) (channels_query owner now (ids_of PeerTypeChannel peers)) (fun a =>
                match a with
                | None => k None
                | Some chs => k (Some (us ++ cs ++ chs))
                end)
          end)
    end).

(** [h.now()]. *)
Definition clock_now (k : Z -> fprog) : fprog := Act (fun _ s => s) (fun e _ => k (fe_clock e)).

Definition checkDialogFilterRateLimit (r : Request) (k : option rpc_error -> fprog) : fprog :=
  fcall (charge_limit (r_UserID r) dialogFilterRateLimitSurface dialogFilterMutationRateLimit) (fun a =>
    match a with
    | None | Some RLFailed => k (Some errInternal)
    | Some (RLDenied _) => k (Some (FloodWaitError 60))
    | Some RLAllowed => k None
    end).

Definition snapshot_peers (sn : DialogFilterSnapshot) : list DialogFilterPeer :=
  List.concat (map (fun f => PinnedPeers f ++ IncludePeers f ++ ExcludePeers f) (sn_Filters sn)).

Definition handleGetDialogFilters (r : Request) (provisional : bool) : fprog :=
  if (r_UserID r =? 0) || provisional then Ret (FoError errAuthKeyUnreg)
  else
    SeedDefaultDialogFilters (r_UserID r) (fun a =>
      match a with
      | None => Ret (FoError errInternal)
      | Some _ =>
          fcall (fun _ s => (readDialogFilters (r_UserID r) s, s)) (fun a =>
            match a with
            | None => Ret (FoError errInternal)
            | Some snapshot =>
                clock_now (fun now =>
                  AccessibleDialogFilterPeers (r_UserID r) (snapshot_peers snapshot) now (fun a =>
                    match a with
                    | None => Ret (FoError errInternal)
                    | Some accessible => Ret (FoFilters (filters_answer snapshot accessible (r_UserID r)))
                    end))
            end)
      end).

(** The three lists a client sent, resolved; one bad reference refuses all. *)
Definition resolve_peers (peers : list InputPeerClass) (userID : Z) : option (list DialogFilterPeer) :=
  mapM (fun p => match inputPeer key p userID with Ok (t, id) => Some (mkFPeer t id) | Err _ => None end) peers.

Definition dialogFilterPeerLists (r : Request) (f : tg_DialogFilter)
    (k : result rpc_error (list DialogFilterPeer * list DialogFilterPeer * list DialogFilterPeer) -> fprog) : fprog :=
  match resolve_peers (tf_Pinned f) (r_UserID r), resolve_peers (tf_Include f) (r_UserID r),
        resolve_peers (tf_Exclude f) (r_UserID r) with
  | Some pinned, Some included, Some excluded =>
      let all := pinned ++ included ++ excluded in
      clock_now (fun now =>
        AccessibleDialogFilterPeers (r_UserID r) all now (fun a =>
          match a with
          | None => k (Err errInternal)
          | Some accessible =>
              if forallb (fun p => bool_decide (p ∈ accessible)) all
              then k (Ok (pinned, included, excluded)) else k (Err errPeerIDInvalid)
          end))
  | _, _, _ => k (Err errPeerIDInvalid)
  end.

(** What is checked of a folder before its peers are looked at: the entities when it passes. *)
Definition check_title (f : tg_DialogFilter) : result rpc_error (list DialogFilterEntity) :=
  if String.eqb (tf_Text f) "" then Err errFilterTitleEmpty
  else if negb (ValidString (bytes_of (tf_Text f))) || (RuneCountInString (bytes_of (tf_Text f)) >? 12) then Err errMessageTooLong
  else if len (tf_Entities f) >? maxDialogFilterEntities then Err errEntitiesTooLong
  else
    match validateDialogFilterEntities (tf_Text f) (tf_Entities f) with
    | Err x => Err x
    | Ok entities =>
        if len (bytes_of (default "" (tf_Emoticon f))) >? 64 then Err errMessageTooLong
        else if (len (tf_Pinned f) >? maxDialogFilterRawPeers) || (len (tf_Include f) >? maxDialogFilterRawPeers) ||
                (len (tf_Exclude f) >? maxDialogFilterRawPeers)
        then Err errPeerIDInvalid
        else Ok entities
    end.

(** The folder as it will be stored; [Err] when its lists are too long or include nothing. *)
Definition definition_of (ID : Z) (f : tg_DialogFilter) (entities : list DialogFilterEntity)
    (lists : list DialogFilterPeer * list DialogFilterPeer * list DialogFilterPeer) : result rpc_error DialogFilter :=
  let '(pinned, included, excluded) := lists in
  let '(pinned, included, excluded) := normalizeDialogFilterPeers pinned included excluded in
  if (len pinned + len included >? maxDialogFilterPeers) || (len excluded >? maxDialogFilterPeers) then Err errPeerIDInvalid
  else
    let fl := tf_flags f in
    if negb (Contacts fl) && negb (NonContacts fl) && negb (Groups fl) && negb (Broadcasts fl) && negb (Bots fl) &&
       (len pinned + len included =? 0)
    then Err errFilterIncludeEmpty
    else
      Ok (mkFilter ID (tf_Text f) entities (default "" (tf_Emoticon f))
            (match tf_Color f with Some c => if (0 <=? c) && (c <=? 6) then Some c else None | None => None end)
            fl pinned included excluded).

Definition handleUpdateDialogFilter (r : Request) (ID : Z) (filter : option DialogFilterClass) : fprog :=
  if r_UserID r =? 0 then Ret (FoError errAuthKeyUnreg)
  else
    checkDialogFilterRateLimit r (fun denied =>
      match denied with
      | Some x => Ret (FoError x)
      | None =>
          if (ID <? 2) || (ID >? 255) then Ret (FoError errFilterIDInvalid)
          else
            match filter with
            | None =>
                fcall (DeleteDialogFilter (r_UserID r) ID) (fun a =>
                  match a with None | Some None => Ret (FoError errInternal) | Some (Some _) => Ret FoTrue end)
            | Some (TLDialogFilter f) =>
                if negb (tf_ID f =? ID) then Ret (FoError errFilterIDInvalid)
                else
                  match check_title f with
                  | Err x => Ret (FoError x)
                  | Ok entities =>
                      dialogFilterPeerLists r f (fun a =>
                        match a with
                        | Err x => Ret (FoError x)
                        | Ok lists =>
                            match definition_of ID f entities lists with
                            | Err x => Ret (FoError x)
                            | Ok definition =>
                                fcall (SaveDialogFilter (r_UserID r) definition) (fun a =>
                                  match a with
                                  | None | Some (Some ErrFolderOther) => Ret (FoError errInternal)
                                  | Some (Some ErrDialogFilterLimit) => Ret (FoError errFilterIDInvalid)
                                  | Some None => Ret FoTrue
                                  end)
                            end
                        end)
                  end
            | Some _ => Ret (FoError errFilterIDInvalid)
            end
      end).

Definition handleUpdateDialogFiltersOrder (r : Request) (order : list Z) : fprog :=
  if r_UserID r =? 0 then Ret (FoError errAuthKeyUnreg)
  else
    checkDialogFilterRateLimit r (fun denied =>
      match denied with
      | Some x => Ret (FoError x)
      | None =>
          if len order >? maxDialogFilterOrder then Ret (FoError errFilterIDInvalid)
          else
            fcall (UpdateDialogFilterOrder (r_UserID r) order) (fun a =>
              match a with None | Some None => Ret (FoError errInternal) | Some (Some _) => Ret FoTrue end)
      end).

Definition handleGetSuggestedDialogFilters (r : Request) (provisional : bool) : fprog :=
  if (r_UserID r =? 0) || provisional then Ret (FoError errAuthKeyUnreg)
  else
    fcall (fun _ s => (sn_Filters (readDialogFilters (r_UserID r) s), s)) (fun a =>
      match a with
      | None => Ret (FoError errInternal)
      | Some existing => Ret (FoSuggested (suggestedDialogFilters existing))
      end).

(** The requests, and what the rest of the server does to the accounts and memberships the
    folders refer to: accounts come, memberships come and go. *)
Inductive folder_request : Type :=
| ReqGetFilters (r : Request) (provisional : bool)
| ReqUpdateFilter (r : Request) (ID : Z) (filter : option DialogFilterClass)
| ReqUpdateOrder (r : Request) (order : list Z)
| ReqSuggested (r : Request) (provisional : bool)
| Elsewhere (newUsers newStates : gset Z) (chats : gset (Z * Z)) (channels : gmap (Z * Z) participant).

Definition elsewhere (us sts : gset Z) (chats : gset (Z * Z)) (channels : gmap (Z * Z) participant) (s : folders) : folders :=
  mkFolders (users s ∪ us) (update_state s ∪ sts) chats channels (user_dialog_filter_state s) (user_dialog_filters s)
    (user_dialog_filter_peers s) (user_dialog_filter_entities s) (folder_limits s) (notified s).

Definition folder_program (q : folder_request) : fprog :=
  match q with
  | ReqGetFilters r p => handleGetDialogFilters r p
  | ReqUpdateFilter r ID f => handleUpdateDialogFilter r ID f
  | ReqUpdateOrder r order => handleUpdateDialogFiltersOrder r order
  | ReqSuggested r p => handleGetSuggestedDialogFilters r p
  | Elsewhere us sts chats channels => Act (fun _ s => elsewhere us sts chats channels s) (fun _ _ => Ret FoTrue)
  end.

End handlers.
