(* ===== verification/FolderFacts.v ===== *)
(** * Folders: their order, and what the tables mean

    First the order.
    [NormalizeDialogFilterOrder] against what it is meant to compute: the first occurrences
    of the valid ids, as requested, then as they exist, then All chats. *)

From S2P Require Import Prelude.
From S2P Require Import PeerHash.
From S2P Require Import Utf8.
From S2P Require Import Folders.
From stdpp Require Import list_numbers.
From Stdlib Require Import Ascii String.

Open Scope Z_scope.

Lemma elem_bfilter {A} (f : A -> bool) x l : x ∈ List.filter f l <-> x ∈ l /\ f x = true.
Proof. by rewrite list_elem_of_In, filter_In, <- list_elem_of_In. Qed.

Lemma bfilter_none {A} (f : A -> bool) l : (forall x, x ∈ l -> f x = false) -> List.filter f l = [].
Proof.
  induction l as [|y l IH]; intros H; [done|]. cbn. rewrite H by apply list_elem_of_here.
  apply IH. intros x Hx. apply H. by apply list_elem_of_further.
Qed.

(** First occurrences. *)
Fixpoint firsts (l : list Z) : list Z :=
  match l with [] => [] | x :: l => x :: List.filter (fun y => negb (y =? x)) (firsts l) end.

Definition valid_id (existing : list Z) (id : Z) : bool :=
  (id =? 0) || ((2 <=? id) && (id <=? 255) && bool_decide (id ∈ existing)).

Definition order_spec (requested existing : list Z) : list Z :=
  firsts (List.filter (valid_id existing) (requested ++ existing ++ [0])).

Lemma elem_firsts x l : x ∈ firsts l <-> x ∈ l.
Proof.
  induction l as [|y l IH]; [done|]. cbn. rewrite !elem_of_cons, elem_bfilter, IH.
  destruct (Z.eqb_spec x y); naive_solver.
Qed.

Lemma NoDup_firsts l : NoDup (firsts l).
Proof.
  induction l as [|y l IH]; [constructor|]. cbn. constructor.
  - rewrite elem_bfilter. intros [_ H]. lia.
  - apply NoDup_ListNoDup. apply List.NoDup_filter. by apply NoDup_ListNoDup.
Qed.

Lemma firsts_NoDup l : NoDup l -> firsts l = l.
Proof.
  induction 1 as [|y l Hy _ IH]; [done|]. cbn. rewrite IH. f_equal. apply forallb_filter_id, forallb_forall.
  intros x Hx%list_elem_of_In. destruct (Z.eqb_spec x y); [by subst|done].
Qed.

(** ** The loop *)

Definition unseen (out l : list Z) : list Z := List.filter (fun x => negb (bool_decide (x ∈ out))) l.

Lemma unseen_snoc out x l :
  unseen (out ++ [x]) l = unseen out (List.filter (fun y => negb (y =? x)) l).
Proof.
  unfold unseen. rewrite filter_twice. apply List.filter_ext. intros y. rewrite <- negb_orb. f_equal.
  apply eq_iff_eq_true. rewrite orb_true_iff, !bool_decide_eq_true, elem_of_app, list_elem_of_singleton, Z.eqb_eq. tauto.
Qed.

Lemma unseen_seen out x l : x ∈ out -> unseen (out ++ [x]) l = unseen out l.
Proof.
  intros Hx. unfold unseen. apply List.filter_ext. intros y. f_equal.
  apply bool_decide_ext. rewrite elem_of_app, list_elem_of_singleton. naive_solver.
Qed.

Lemma append_loop (valid : gset Z) (ok : Z -> bool) l out :
  (forall x, ok x = bool_decide (x ∈ valid)) ->
  foldl (appendValid valid) (list_to_set out, out) l =
  (list_to_set (out ++ unseen out (firsts (List.filter ok l))), out ++ unseen out (firsts (List.filter ok l))).
Proof.
  intros Hok. revert out. induction l as [|x l IH]; intros out; [by rewrite app_nil_r|]. cbn [foldl List.filter].
  rewrite Hok. unfold appendValid at 2. destruct (bool_decide_reflect (x ∈ valid)) as [Hv|Hv]; [|apply IH]. cbn [negb].
  cbn [firsts]. unfold unseen at 1 2. cbn [List.filter]. fold (unseen out (List.filter (fun y => negb (y =? x)) (firsts (List.filter ok l)))).
  rewrite <- unseen_snoc.
  destruct (bool_decide_reflect (x ∈ (list_to_set out : gset Z))) as [Hs|Hs]; rewrite elem_of_list_to_set in Hs.
  - rewrite bool_decide_true by done. cbn [negb]. by rewrite IH, unseen_seen.
  - rewrite bool_decide_false by done. cbn [negb].
    replace ({[x]} ∪ list_to_set out) with (list_to_set (out ++ [x]) : gset Z) by set_solver.
    rewrite IH. by rewrite <- !app_assoc.
Qed.

Lemma valid_set existing x :
  bool_decide (x ∈ (foldl (fun v id => if (2 <=? id) && (id <=? 255) then {[id]} ∪ v else v) {[0]} existing : gset Z)) =
  valid_id existing x.
Proof.
  unfold valid_id. assert (H : forall v : gset Z,
    x ∈ foldl (fun v id => if (2 <=? id) && (id <=? 255) then {[id]} ∪ v else v) v existing <->
    x ∈ v \/ 2 <= x <= 255 /\ x ∈ existing).
  { induction existing as [|y l IH]; intros v; cbn [foldl]; [set_solver|]. rewrite IH, elem_of_cons.
    destruct ((2 <=? y) && (y <=? 255)) eqn:E; [|naive_solver lia]. rewrite elem_of_union, elem_of_singleton. naive_solver lia. }
  apply eq_iff_eq_true. rewrite bool_decide_eq_true, H, orb_true_iff, !andb_true_iff, bool_decide_eq_true, elem_of_singleton, Z.eqb_eq, !Z.leb_le. tauto.
Qed.

Lemma firsts_app a b : firsts (a ++ b) = firsts a ++ unseen (firsts a) (firsts b).
Proof.
  induction a as [|x a IH]; cbn [app firsts].
  - unfold unseen. symmetry. apply forallb_filter_id, forallb_forall. intros y _. cbn. by rewrite bool_decide_false by apply not_elem_of_nil.
  - rewrite IH, List.filter_app. cbn [app]. f_equal. f_equal. unfold unseen. rewrite filter_twice. apply List.filter_ext. intros y.
    rewrite <- negb_orb. f_equal. apply eq_iff_eq_true. rewrite orb_true_iff, !bool_decide_eq_true, elem_of_cons.
    rewrite elem_bfilter. destruct (Z.eqb_spec y x); naive_solver.
Qed.

Lemma normalize_eq requested existing : NormalizeDialogFilterOrder requested existing = order_spec requested existing.
Proof.
  unfold NormalizeDialogFilterOrder, order_spec. set (valid := foldl _ _ _).
  assert (Hok : forall x, valid_id existing x = bool_decide (x ∈ valid)) by (intros; symmetry; apply valid_set).
  change (∅ : gset Z) with (list_to_set [] : gset Z).
  change (appendValid valid ?a 0) with (foldl (appendValid valid) a [0]).
  rewrite (append_loop valid (valid_id existing)) by done. rewrite (append_loop valid (valid_id existing)) by done.
  rewrite (append_loop valid (valid_id existing)) by done. cbn [snd]. cbn [app].
  assert (Hu : forall l, unseen [] l = l).
  { intros l. apply forallb_filter_id, forallb_forall. intros y _. by rewrite bool_decide_false by apply not_elem_of_nil. }
  rewrite !Hu, !List.filter_app, !firsts_app, <- app_assoc. f_equal. rewrite <- firsts_app.
  rewrite firsts_app. unfold unseen. rewrite List.filter_app. f_equal. rewrite filter_twice. apply List.filter_ext. intros y.
  rewrite <- negb_orb. f_equal. apply eq_iff_eq_true. rewrite orb_true_iff, !bool_decide_eq_true, elem_of_app.
  rewrite elem_bfilter. rewrite negb_true_iff, bool_decide_eq_false.
  destruct (decide (y ∈ firsts (List.filter (valid_id existing) requested))); naive_solver.
Qed.

(** ** What the order is *)

Lemma normalize_NoDup requested existing : NoDup (NormalizeDialogFilterOrder requested existing).
Proof. rewrite normalize_eq. apply NoDup_firsts. Qed.

Lemma normalize_elem requested existing x :
  x ∈ NormalizeDialogFilterOrder requested existing <-> x = 0 \/ 2 <= x <= 255 /\ x ∈ existing.
Proof.
  rewrite normalize_eq. unfold order_spec, valid_id. rewrite elem_firsts, elem_bfilter, !elem_of_app, list_elem_of_singleton.
  rewrite orb_true_iff, !andb_true_iff, bool_decide_eq_true, Z.eqb_eq, !Z.leb_le. tauto.
Qed.

(** The ids of folders that exist. *)
Definition folder_ids (ids : list Z) : Prop := NoDup ids /\ forall x, x ∈ ids -> 2 <= x <= 255.

Lemma normalize_perm requested ids : folder_ids ids -> NormalizeDialogFilterOrder requested ids ≡ₚ 0 :: ids.
Proof.
  intros [Hn Hr]. apply NoDup_Permutation.
  - apply normalize_NoDup.
  - constructor; [|done]. intros H%Hr. lia.
  - intros x. rewrite normalize_elem, elem_of_cons. naive_solver.
Qed.

(** A complete order stays as it is. *)
Lemma normalize_complete order ids : folder_ids ids -> order ≡ₚ 0 :: ids -> NormalizeDialogFilterOrder order ids = order.
Proof.
  intros [Hn Hr] Hp. assert (Ho : NoDup order).
  { rewrite Hp. constructor; [|done]. intros H%Hr. lia. }
  assert (Hv : forall x, x ∈ order -> valid_id ids x = true).
  { intros x Hx. rewrite Hp in Hx. apply elem_of_cons in Hx as [->|Hx]; [done|]. unfold valid_id.
    rewrite bool_decide_true by done. specialize (Hr x Hx). lia. }
  rewrite normalize_eq. unfold order_spec. rewrite List.filter_app, firsts_app.
  rewrite (forallb_filter_id _ order) by (apply forallb_forall; intros x Hx%list_elem_of_In; by apply Hv).
  rewrite (firsts_NoDup order) by done. transitivity (order ++ []); [f_equal|apply app_nil_r].
  apply bfilter_none. intros x Hx. rewrite elem_firsts, elem_bfilter, elem_of_app, list_elem_of_singleton in Hx.
  rewrite bool_decide_true; [done|]. rewrite Hp, elem_of_cons. naive_solver.
Qed.

(** A folder that is new goes to the end. *)
Lemma normalize_extend order ids ids' id :
  folder_ids ids' -> order ≡ₚ 0 :: ids -> ids' ≡ₚ id :: ids -> NormalizeDialogFilterOrder order ids' = order ++ [id].
Proof.
  intros [Hn Hr] Hp Hi. assert (Hni : NoDup (id :: ids)) by (by rewrite <- Hi). apply NoDup_cons in Hni as [Hid Hni].
  assert (Hv : forall x, x ∈ order -> valid_id ids' x = true).
  { intros x Hx. rewrite Hp in Hx. apply elem_of_cons in Hx as [->|Hx]; [done|]. unfold valid_id.
    assert (Hin : x ∈ ids') by (rewrite Hi; by apply list_elem_of_further). rewrite bool_decide_true by done.
    specialize (Hr x Hin). lia. }
  assert (Ho : NoDup order).
  { rewrite Hp. constructor; [|done]. intros H. assert (2 <= 0 <= 255); [|lia]. apply Hr. rewrite Hi. by apply list_elem_of_further. }
  rewrite normalize_eq. unfold order_spec. rewrite List.filter_app, firsts_app.
  rewrite (forallb_filter_id _ order) by (apply forallb_forall; intros x Hx%list_elem_of_In; by apply Hv).
  rewrite (firsts_NoDup order) by done. f_equal. apply Permutation_singleton_r, NoDup_Permutation.
  - unfold unseen. apply NoDup_ListNoDup, List.NoDup_filter, NoDup_ListNoDup, NoDup_firsts.
  - apply NoDup_singleton.
  - intros x. unfold unseen. rewrite elem_bfilter, elem_firsts, elem_bfilter, elem_of_app, !list_elem_of_singleton.
    assert (Hx : x ∈ ids' <-> x = id \/ x ∈ ids) by (by rewrite Hi, elem_of_cons).
    rewrite negb_true_iff, bool_decide_eq_false, Hp, elem_of_cons, Hx. split; [naive_solver|]. intros ->. clear Hx.
    assert (Hin : id ∈ ids') by (rewrite Hi; by apply list_elem_of_here). unfold valid_id. rewrite bool_decide_true by done.
    specialize (Hr id Hin). split_and!; [by left; left|lia|]. intros [->|?]; [lia|done].
Qed.

(** Normalizing an order is taking first occurrences: the requested ids that are valid come
    first, in the order of the request; the rest follow as they are; whatever the request,
    the outcome has each folder once and All chats once, and normalizing again changes
    nothing. *)
Theorem normalize_order_exact requested existing :
  let out := NormalizeDialogFilterOrder requested existing in
  out = firsts (List.filter (valid_id existing) (requested ++ existing ++ [0])) /\
  NoDup out /\ (forall id, id ∈ out <-> id = 0 \/ 2 <= id <= 255 /\ id ∈ existing) /\
  (exists rest, out = firsts (List.filter (valid_id existing) requested) ++ rest) /\
  NormalizeDialogFilterOrder out existing = out.
Proof.
  cbv zeta. split_and!.
  - apply normalize_eq.
  - apply normalize_NoDup.
  - apply normalize_elem.
  - rewrite normalize_eq. unfold order_spec. rewrite List.filter_app, firsts_app. by eexists.
  - rewrite (normalize_eq (NormalizeDialogFilterOrder requested existing)). unfold order_spec.
    set (out := NormalizeDialogFilterOrder requested existing).
    assert (Hv : forall x, x ∈ out <-> valid_id existing x = true).
    { intros x. unfold out. rewrite normalize_elem. unfold valid_id.
      rewrite orb_true_iff, !andb_true_iff, bool_decide_eq_true, Z.eqb_eq, !Z.leb_le. tauto. }
    rewrite List.filter_app, firsts_app.
    rewrite (forallb_filter_id _ out) by (apply forallb_forall; intros x Hx%list_elem_of_In; by apply Hv).
    rewrite (firsts_NoDup out) by apply normalize_NoDup. transitivity (out ++ []); [f_equal|apply app_nil_r].
    apply bfilter_none. intros x Hx. rewrite elem_firsts, elem_bfilter in Hx.
    rewrite bool_decide_true; [done|]. apply Hv, Hx.
Qed.

(** * The tables of the folders and what they stand for

    The four tables hold, for every owner, a finite map from ids to folders; [stores] says
    so, and the lemmas of this file say what each statement and transaction does to that map
    and that reading gives it back. *)

(** ** Sorted listings *)

Lemma NoDup_omap_inj {A B} (g : A -> option B) l :
  (forall x y z, g x = Some z -> g y = Some z -> x = y) -> NoDup l -> NoDup (omap g l).
Proof.
  intros Hg. induction 1 as [|x l Hx _ IH]; [constructor|]. cbn. destruct (g x) as [z|] eqn:E; [|done].
  constructor; [|done]. intros (y & Hy & Ey)%list_elem_of_omap. by rewrite (Hg _ _ _ E Ey) in Hx.
Qed.

Lemma StronglySorted_bfilter {A} (R : relation A) (f : A -> bool) l :
  StronglySorted R l -> StronglySorted R (List.filter f l).
Proof.
  induction 1 as [|x l _ IH Hx]; [constructor|]. cbn. destruct (f x); [|done]. constructor; [done|].
  rewrite Forall_forall in *. intros y [Hy _]%elem_bfilter. by apply Hx.
Qed.

(** A listing cut to some rows is the one sorted list of those rows. *)
Lemma sorted_listing {A} (R : relation A) `{!RelDecision R, !Total R, !Transitive R} (f : A -> bool) rows l :
  NoDup rows -> NoDup l -> (forall x, x ∈ l <-> x ∈ rows /\ f x = true) ->
  (forall x y, x ∈ l -> y ∈ l -> R x y -> R y x -> x = y) -> StronglySorted R l ->
  List.filter f (merge_sort R rows) = l.
Proof.
  intros Hr Hl He Ha Hs. assert (Hp : List.filter f (merge_sort R rows) ≡ₚ l).
  { apply NoDup_Permutation; [|done|].
    - apply NoDup_ListNoDup, List.NoDup_filter, NoDup_ListNoDup. by rewrite (merge_sort_Permutation R rows).
    - intros x. by rewrite He, elem_bfilter, (merge_sort_Permutation R rows). }
  apply (StronglySorted_unique_strong R); [|apply StronglySorted_bfilter, StronglySorted_merge_sort; apply _|done|done].
  intros x y Hx Hy. apply Ha; [by rewrite <- Hp|done].
Qed.

#[export] Instance id_le_total : Total id_le.
Proof. intros a b. unfold id_le. lia. Qed.
#[export] Instance id_le_trans : Transitive id_le.
Proof. intros a b c. unfold id_le. lia. Qed.
#[export] Instance place_le_total : Total place_le.
Proof. intros [[[? ?] ?] ?] [[[? ?] ?] ?]. unfold place_le. lia. Qed.
#[export] Instance place_le_trans : Transitive place_le.
Proof. intros [[[? ?] ?] ?] [[[? ?] ?] ?] [[[? ?] ?] ?]. unfold place_le. lia. Qed.
#[export] Instance spot_le_total : Total spot_le.
Proof. intros [[? ?] ?] [[? ?] ?]. unfold spot_le. lia. Qed.
#[export] Instance spot_le_trans : Transitive spot_le.
Proof. intros [[? ?] ?] [[? ?] ?] [[? ?] ?]. unfold spot_le. lia. Qed.

(** ** What the tables stand for *)

(** A list at an integer position. *)
Definition at_pos {A} (l : list A) (p : Z) : option A := if 0 <=? p then l !! Z.to_nat p else None.

Lemma at_pos_neg {A} (l : list A) p : p < 0 -> at_pos l p = None.
Proof. intros. unfold at_pos. by replace (0 <=? p) with false by lia. Qed.

Lemma at_pos_past {A} (l : list A) p : len l <= p -> at_pos l p = None.
Proof. intros. unfold at_pos. destruct (Z.leb_spec 0 p); [|done]. apply lookup_ge_None_2. unfold len in *. lia. Qed.

Lemma at_pos_Some {A} (l : list A) p x : at_pos l p = Some x -> 0 <= p < len l /\ x ∈ l.
Proof.
  unfold at_pos. destruct (Z.leb_spec 0 p); [|done]. intros E. pose proof (lookup_lt_Some _ _ _ E).
  split; [unfold len; lia|by eapply list_elem_of_lookup_2].
Qed.

Definition row_of (f : DialogFilter) : filter_row := mkFRow (df_Title f) (df_Emoticon f) (df_Color f) (df_flags f).

Record stores (s : folders) (o : Z) (F : gmap Z DialogFilter) : Prop := {
  so_rows : forall id, user_dialog_filters s !! (o, id) = row_of <$> F !! id;
  so_peers : forall id l p, user_dialog_filter_peers s !! (o, id, l, p) = F !! id ≫= fun f => at_pos (list_of l f) p;
  so_entities : forall id p, user_dialog_filter_entities s !! (o, id, p) = F !! id ≫= fun f => at_pos (df_Entities f) p;
  so_ids : forall id f, F !! id = Some f -> df_ID f = id
}.

Definition by_id (a b : Z * DialogFilter) : Prop := a.1 <= b.1.
#[export] Instance by_id_dec : RelDecision by_id.
Proof. intros a b. unfold by_id. apply _. Defined.
#[export] Instance by_id_total : Total by_id.
Proof. intros a b. unfold by_id. lia. Qed.
#[export] Instance by_id_trans : Transitive by_id.
Proof. intros a b c. unfold by_id. lia. Qed.

(** The folders of a map, by ascending id. *)
Definition shelf (F : gmap Z DialogFilter) : list (Z * DialogFilter) := merge_sort by_id (map_to_list F).

Lemma elem_shelf F id f : (id, f) ∈ shelf F <-> F !! id = Some f.
Proof. unfold shelf. by rewrite (merge_sort_Permutation by_id), elem_of_map_to_list. Qed.

Lemma shelf_keys F : (shelf F).*1 ≡ₚ (map_to_list F).*1.
Proof. unfold shelf. by rewrite (merge_sort_Permutation by_id). Qed.

Lemma NoDup_shelf_keys F : NoDup (shelf F).*1.
Proof. rewrite shelf_keys. apply NoDup_fst_map_to_list. Qed.

Lemma elem_shelf_keys F id : id ∈ (shelf F).*1 <-> is_Some (F !! id).
Proof.
  rewrite shelf_keys, list_elem_of_fmap. split.
  - intros ([i f] & -> & H%elem_of_map_to_list). by eexists.
  - intros [f H]. exists (id, f). split; [done|by apply elem_of_map_to_list].
Qed.

Lemma bfilter_all {A} (l : list A) : List.filter (fun _ => true) l = l.
Proof. induction l as [|x l IH]; [done|]. cbn. by rewrite IH. Qed.

Lemma list_rows s o F : stores s o F -> ListDialogFilters o s = map (fun x => (x.1, row_of x.2)) (shelf F).
Proof.
  intros [Hr _ _ _]. unfold ListDialogFilters. rewrite <- (bfilter_all (merge_sort _ _)). apply (sorted_listing id_le).
  - apply NoDup_omap_inj; [|apply NoDup_map_to_list]. intros [[a b] r] [[c d] r'] [i q].
    destruct (Z.eqb_spec a o), (Z.eqb_spec c o); intros; simplify_eq; done.
  - apply (NoDup_fmap_1 fst). rewrite <- list_fmap_compose. apply NoDup_shelf_keys.
  - intros [id r]. rewrite list_elem_of_omap, list_elem_of_fmap. split.
    + intros ([i f] & [= -> ->] & H%elem_shelf). split; [|done]. exists ((o, i), row_of f). split; [|by rewrite Z.eqb_refl].
      apply elem_of_map_to_list. by rewrite Hr, H.
    + intros [([[a i] q] & Hin%elem_of_map_to_list & E) _]. destruct (Z.eqb_spec a o) as [->|]; [|done]. simplify_eq.
      rewrite Hr in Hin. apply fmap_Some in Hin as (f & Hf & ->). exists (id, f). by rewrite elem_shelf.
  - intros x y ([i f] & -> & H%elem_shelf)%list_elem_of_fmap ([j g] & -> & H'%elem_shelf)%list_elem_of_fmap.
    unfold id_le. cbn. intros. assert (i = j) as -> by lia. congruence.
  - unfold shelf. apply (StronglySorted_fmap _ by_id id_le); [|apply StronglySorted_merge_sort; apply _]. by intros.
Qed.

(** A list with its positions. *)
Fixpoint number {A} (p : Z) (l : list A) : list (Z * A) :=
  match l with [] => [] | x :: l => (p, x) :: number (p + 1) l end.

Lemma number_snd {A} p (l : list A) : (number p l).*2 = l.
Proof. revert p. induction l as [|x l IH]; intros p; [done|]. cbn. by rewrite IH. Qed.

Lemma at_pos_cons {A} (x : A) l p : at_pos (x :: l) p = if p =? 0 then Some x else at_pos l (p - 1).
Proof.
  unfold at_pos. destruct (Z.eqb_spec p 0) as [->|]; [done|]. destruct (Z.leb_spec 0 p).
  - replace (0 <=? p - 1) with true by lia. by replace (Z.to_nat p) with (S (Z.to_nat (p - 1))) by lia.
  - by replace (0 <=? p - 1) with false by lia.
Qed.

Lemma elem_number {A} p (l : list A) q x : (q, x) ∈ number p l <-> at_pos l (q - p) = Some x.
Proof.
  revert p. induction l as [|y l IH]; intros p; cbn [number].
  - unfold at_pos. case_match; [rewrite lookup_nil|]; by split; intros H0%elem_of_nil || intros ?.
  - rewrite elem_of_cons, at_pos_cons, IH. replace (q - (p + 1)) with (q - p - 1) by lia.
    destruct (Z.eqb_spec (q - p) 0).
    + assert (q = p) as -> by lia. rewrite at_pos_neg by lia. naive_solver.
    + naive_solver lia.
Qed.

Lemma number_sorted {A} p (l : list A) : StronglySorted (fun a b => a.1 < b.1) (number p l).
Proof.
  revert p. induction l as [|y l IH]; intros p; constructor; [done|]. apply Forall_forall.
  intros [q x] H%elem_number%at_pos_Some. cbn. lia.
Qed.

Lemma strict_NoDup {A} (R : relation A) `{!Irreflexive R} l : StronglySorted R l -> NoDup l.
Proof.
  induction 1 as [|x l _ IH Hx]; constructor; [|done]. intros Hin. rewrite Forall_forall in Hx.
  by destruct (irreflexivity R x (Hx x Hin)).
Qed.

#[export] Instance number_irr {A} : Irreflexive (fun a b : Z * A => a.1 < b.1).
Proof. intros a. unfold complement. lia. Qed.

(** The rows of one list of one folder, in order. *)
Lemma list_peers s o F id f l : stores s o F -> F !! id = Some f ->
  List.filter (fun x => (x.1.1.1 =? id) && (x.1.1.2 =? l)) (ListDialogFilterPeers o s) =
  map (fun x => ((id, l, x.1), x.2)) (number 0 (list_of l f)).
Proof.
  intros [_ Hp _ _] Hf. unfold ListDialogFilterPeers. apply (sorted_listing place_le).
  - apply NoDup_omap_inj; [|apply NoDup_map_to_list]. intros [[[[a ?] ?] ?] ?] [[[[b ?] ?] ?] ?] [[[? ?] ?] ?].
    destruct (Z.eqb_spec a o), (Z.eqb_spec b o); intros; simplify_eq; done.
  - apply NoDup_fmap_2_strong; [|apply (strict_NoDup _), number_sorted]. intros [] [] _ _ [=]. by subst.
  - intros [[[a b] p] x]. rewrite list_elem_of_omap, list_elem_of_fmap. cbn. split.
    + intros ([q y] & [= -> -> -> ->] & H%elem_number). rewrite !Z.eqb_refl. split; [|done].
      exists (o, id, l, q, y). rewrite Z.eqb_refl. split; [|done]. apply elem_of_map_to_list. rewrite Hp, Hf. cbn.
      by rewrite Z.sub_0_r in H.
    + intros [([[[[o' ?] ?] ?] ?] & Hin%elem_of_map_to_list & E) [? ?]%andb_prop]. destruct (Z.eqb_spec o' o) as [->|]; [|done]. simplify_eq.
      assert (a = id /\ b = l) as (-> & ->) by lia. exists (p, x). split; [done|].
      rewrite elem_number, Z.sub_0_r. rewrite Hp, Hf in Hin. done.
  - intros x y ([q u] & -> & H%elem_number)%list_elem_of_fmap ([q' u'] & -> & H'%elem_number)%list_elem_of_fmap.
    cbn. intros. assert (q = q') as -> by lia. congruence.
  - apply (StronglySorted_fmap _ (fun a b => a.1 < b.1)); [|apply number_sorted]. intros [] []. cbn. lia.
Qed.

Lemma list_entities s o F id f : stores s o F -> F !! id = Some f ->
  List.filter (fun x => x.1.1 =? id) (ListDialogFilterEntities o s) =
  map (fun x => ((id, x.1), x.2)) (number 0 (df_Entities f)).
Proof.
  intros [_ _ He _] Hf. unfold ListDialogFilterEntities. apply (sorted_listing spot_le).
  - apply NoDup_omap_inj; [|apply NoDup_map_to_list]. intros [[[a ?] ?] ?] [[[b ?] ?] ?] [[? ?] ?].
    destruct (Z.eqb_spec a o), (Z.eqb_spec b o); intros; simplify_eq; done.
  - apply NoDup_fmap_2_strong; [|apply (strict_NoDup _), number_sorted]. intros [] [] _ _ [=]. by subst.
  - intros [[a p] x]. rewrite list_elem_of_omap, list_elem_of_fmap. cbn. split.
    + intros ([q y] & [= -> -> ->] & H%elem_number). rewrite Z.eqb_refl. split; [|done].
      exists (o, id, q, y). rewrite Z.eqb_refl. split; [|done]. apply elem_of_map_to_list. rewrite He, Hf. cbn.
      by rewrite Z.sub_0_r in H.
    + intros [([[[o' ?] ?] ?] & Hin%elem_of_map_to_list & E) ?]. destruct (Z.eqb_spec o' o) as [->|]; [|done]. simplify_eq.
      assert (a = id) as -> by lia. exists (p, x). split; [done|].
      rewrite elem_number, Z.sub_0_r. rewrite He, Hf in Hin. done.
  - intros x y ([q u] & -> & H%elem_number)%list_elem_of_fmap ([q' u'] & -> & H'%elem_number)%list_elem_of_fmap.
    cbn. intros. assert (q = q') as -> by lia. congruence.
  - apply (StronglySorted_fmap _ (fun a b => a.1 < b.1)); [|apply number_sorted]. intros [] []. cbn. lia.
Qed.

(** ** Reading gives back what is stored *)

Lemma foldl_same {A B} (f g : A -> B -> A) a l : (forall a x, f a x = g a x) -> foldl f a l = foldl g a l.
Proof. intros H. revert a. induction l as [|x l IH]; intros a; [done|]. cbn. by rewrite H, IH. Qed.

Lemma fold_at_folder {Row} (rid : Row -> Z) (g : Row -> DialogFilter -> DialogFilter) rows fs :
  (forall r f, df_ID (g r f) = df_ID f) ->
  foldl (fun fs r => at_folder (rid r) (g r) fs) fs rows =
  map (fun f => foldl (fun f r => g r f) f (List.filter (fun r => rid r =? df_ID f) rows)) fs.
Proof.
  intros Hg. revert fs. induction rows as [|r rows IH]; intros fs; [by rewrite map_id|]. cbn [foldl List.filter].
  rewrite IH. unfold at_folder. rewrite map_map. apply map_ext. intros f. rewrite (Z.eqb_sym (rid r)).
  destruct (df_ID f =? rid r); [by rewrite Hg|done].
Qed.

Lemma add_peer_id l p f : df_ID (add_peer l p f) = df_ID f.
Proof. destruct f. unfold add_peer. by repeat case_match. Qed.

Lemma add_entity_id x f : df_ID (add_entity x f) = df_ID f.
Proof. by destruct f. Qed.

Definition of_list (l : Z) (rows : list ((Z * Z * Z) * DialogFilterPeer)) : list DialogFilterPeer :=
  map snd (List.filter (fun x => x.1.1.2 =? l) rows).

Lemma add_peers_fold id t en em c fl pi inc ex rows :
  foldl (fun f x => add_peer x.1.1.2 x.2 f) (mkFilter id t en em c fl pi inc ex) rows =
  mkFilter id t en em c fl (pi ++ of_list 1 rows) (inc ++ of_list 2 rows) (ex ++ of_list 3 rows).
Proof.
  revert pi inc ex. induction rows as [|[[[a l] p] x] rows IH]; intros pi inc ex; [by rewrite !app_nil_r|].
  cbn [foldl]. unfold of_list. cbn [List.filter fst snd]. unfold add_peer at 2, dialogFilterPinned, dialogFilterIncluded, dialogFilterExcluded.
  destruct (Z.eqb_spec l 1) as [->|]; [rewrite IH; cbn; by rewrite <- app_assoc|].
  destruct (Z.eqb_spec l 2) as [->|]; [rewrite IH; cbn; by rewrite <- app_assoc|].
  destruct (Z.eqb_spec l 3) as [->|]; [rewrite IH; cbn; by rewrite <- app_assoc|]. by rewrite IH.
Qed.

Lemma add_entities_fold id t en em c fl pi inc ex (rows : list ((Z * Z) * DialogFilterEntity)) :
  foldl (fun f x => add_entity x.2 f) (mkFilter id t en em c fl pi inc ex) rows =
  mkFilter id t (en ++ map snd rows) em c fl pi inc ex.
Proof.
  revert en. induction rows as [|[a x] rows IH]; intros en; [by rewrite app_nil_r|]. cbn [foldl]. cbn [add_entity].
  rewrite IH. cbn. by rewrite <- app_assoc.
Qed.

Lemma map_snd_number {A B} (mk : Z -> B) p (l : list A) : map snd (map (fun x => (mk x.1, x.2)) (number p l)) = l.
Proof. rewrite map_map. cbn. apply number_snd. Qed.

Lemma stored_list s o F id f l : stores s o F -> F !! id = Some f ->
  of_list l (List.filter (fun x => x.1.1.1 =? id) (ListDialogFilterPeers o s)) = list_of l f.
Proof.
  intros Hs Hf. unfold of_list. rewrite filter_twice.
  rewrite (list_peers s o F id f l) by done. apply (map_snd_number (fun p => (id, l, p))).
Qed.

(** The folders of the snapshot, before the order. *)
Definition read_folders (o : Z) (s : folders) : list DialogFilter :=
  let fs := map filter_of_row (ListDialogFilters o s) in
  let fs := foldl (fun fs '((id, l, _), p) => at_folder id (add_peer l p) fs) fs (ListDialogFilterPeers o s) in
  foldl (fun fs '((id, _), x) => at_folder id (add_entity x) fs) fs (ListDialogFilterEntities o s).

Lemma read_folders_stored s o F : stores s o F -> read_folders o s = map snd (shelf F).
Proof.
  intros Hs. unfold read_folders. rewrite (list_rows s o F) by done. set (fs := map filter_of_row _).
  rewrite (foldl_same _ (fun fs x => at_folder x.1.1.1 (add_peer x.1.1.2 x.2) fs)) by (by intros ? [[[] ?] ?]).
  rewrite (fold_at_folder (fun x => x.1.1.1) (fun x => add_peer x.1.1.2 x.2)) by (intros; apply add_peer_id).
  set (fs' := map _ fs).
  rewrite (foldl_same _ (fun fs x => at_folder x.1.1 (add_entity x.2) fs)) by (by intros ? [[] ?]).
  rewrite (fold_at_folder (fun x => x.1.1) (fun x => add_entity x.2)) by (intros; apply add_entity_id).
  unfold fs', fs. rewrite !map_map. apply map_ext_in. intros [id f] Hin%list_elem_of_In%elem_shelf.
  pose proof (so_ids _ _ _ Hs id f Hin) as Hid. unfold filter_of_row. cbn [fst snd row_of fr_title fr_emoticon fr_color fr_flags].
  cbn [df_ID]. rewrite add_peers_fold. cbn [df_ID]. rewrite add_entities_fold.
  rewrite !(stored_list s o F id f) by done. rewrite (list_entities s o F id f) by done.
  rewrite (map_snd_number (fun p => (id, p))). by destruct f; cbn in *; subst.
Qed.

(** The stored order; a missing row reads as All chats alone. *)
Definition stored_state (o : Z) (s : folders) : filter_state := default default_state (user_dialog_filter_state s !! o).

Lemma read_eq o s :
  readDialogFilters o s =
  mkSnapshot (read_folders o s) (NormalizeDialogFilterOrder (order_ids (stored_state o s)) (map df_ID (read_folders o s)))
    (changed_at (stored_state o s)).
Proof. unfold readDialogFilters, stored_state. by destruct (user_dialog_filter_state s !! o). Qed.
