(* ===== verification/FolderTx.v ===== *)
(** * What the transactions on folders do

    Every transaction, from tables that are in order, either leaves them as they were or
    moves one owner's folders by the step it stands for. *)

From S2P Require Import Prelude.
From S2P Require Import Utf8.
From S2P Require Import PeerHash.
From S2P Require Import Folders.
From S2P Require Import FolderApi.
From S2P Require Import FolderFacts.
From stdpp Require Import list_numbers.
From Stdlib Require Import Ascii String.

Open Scope Z_scope.

Notation fpeers := user_dialog_filter_peers.
Notation fents := user_dialog_filter_entities.

(** ** Inserting lists *)

Lemma at_pos_snoc {A} (l : list A) x p : at_pos (l ++ [x]) p = if p =? len l then Some x else at_pos l p.
Proof.
  unfold at_pos, len. destruct (Z.leb_spec 0 p); [|by destruct (Z.eqb_spec p (Z.of_nat (List.length l))); [lia|]].
  destruct (Z.eqb_spec p (Z.of_nat (List.length l))) as [->|].
  - by rewrite Nat2Z.id, lookup_app_r, Nat.sub_diag by lia.
  - destruct (decide (Z.to_nat p < List.length l)%nat); [by rewrite lookup_app_l by lia|].
    rewrite !lookup_ge_None_2; [done|lia|rewrite length_app; cbn; lia].
Qed.

Lemma at_pos_nil {A} p : at_pos ([] : list A) p = None.
Proof. unfold at_pos. by case_match. Qed.

Lemma at_pos_elem {A} (l : list A) x : x ∈ l -> exists p, at_pos l p = Some x.
Proof.
  intros [i Hi]%list_elem_of_lookup. exists (Z.of_nat i). unfold at_pos.
  by replace (0 <=? Z.of_nat i) with true by lia; rewrite Nat2Z.id.
Qed.

(** What a list of the peers of a folder may be. *)
Definition good_list (l : Z) (ps : list DialogFilterPeer) : Prop := NoDup ps /\ len ps <= 100 /\ (ps = [] \/ 1 <= l <= 3).

Lemma insert_peer_spec o id l done p s :
  (forall q, fpeers s !! (o, id, l, q) = at_pos done q) -> DialogFilterExists o id s = true ->
  InsertDialogFilterPeer o id l (len done) p s =
  if bool_decide (1 <= l <= 3 /\ len done <= 99 /\ p ∉ done)
  then Some (with_fpeers (<[(o, id, l, len done) := p]> (fpeers s)) s) else None.
Proof.
  intros Hd He. unfold InsertDialogFilterPeer. rewrite He.
  rewrite (bool_decide_true (fpeers s !! (o, id, l, len done) = None)) by (rewrite Hd; apply at_pos_past; lia).
  assert (Hl : peer_listed o id l p s = bool_decide (p ∈ done)).
  { unfold peer_listed. apply bool_decide_ext. split.
    - intros ([[[a b] c] q] & x & Hx & [= -> -> ->] & ->). rewrite Hd in Hx. by apply at_pos_Some in Hx as [_ ?].
    - intros [q Hq]%at_pos_elem. exists (o, id, l, q), p. split; [by rewrite Hd|done]. }
  rewrite Hl. pose proof (len_nonneg done).
  replace ((1 <=? l) && (l <=? 3) && (0 <=? len done) && (len done <=? 99) && true && true && negb (bool_decide (p ∈ done)))
    with (bool_decide (1 <= l <= 3 /\ len done <= 99 /\ p ∉ done)); [done|].
  apply eq_iff_eq_true. rewrite bool_decide_eq_true, !andb_true_iff, negb_true_iff, bool_decide_eq_false, !Z.leb_le. naive_solver lia.
Qed.

Lemma insert_peers_spec o id l done ps s :
  (forall q, fpeers s !! (o, id, l, q) = at_pos done q) -> DialogFilterExists o id s = true -> good_list l done ->
  match insert_peers o id l (len done) ps s with
  | Some s' =>
      good_list l (done ++ ps) /\ s' = with_fpeers (fpeers s') s /\
      (forall q, fpeers s' !! (o, id, l, q) = at_pos (done ++ ps) q) /\
      (forall k, k.1 <> (o, id, l) -> fpeers s' !! k = fpeers s !! k)
  | None => ~ good_list l (done ++ ps)
  end.
Proof.
  revert done s. induction ps as [|p ps IH]; intros done s Hd He Hg; cbn [insert_peers].
  { rewrite app_nil_r. split_and!; [done|by destruct s|done|done]. }
  pose proof (len_nonneg done). destruct Hg as (Hn & Hlen & Hl). unfold dialogFilterSmallint.
  replace ((len done <? - 32768) || (len done >? 32767)) with false by lia.
  rewrite insert_peer_spec by done. destruct (bool_decide_reflect (1 <= l <= 3 /\ len done <= 99 /\ p ∉ done)) as [(Hl3 & H99 & Hp)|Hno]; cycle 1.
  { intros (Hn' & Hlen' & Hl'). apply Hno. rewrite len_app, len_cons in Hlen'. pose proof (len_nonneg ps). split_and!.
    - destruct Hl' as [E|?]; [by destruct done|lia].
    - destruct Hl' as [E|?]; [by destruct done|lia].
    - lia.
    - apply NoDup_app in Hn' as (_ & Hx & _). intros Hin. by apply (Hx p Hin), list_elem_of_here. }
  set (s1 := with_fpeers _ s). assert (Hd1 : forall q, fpeers s1 !! (o, id, l, q) = at_pos (done ++ [p]) q).
  { intros q. unfold s1. cbn. rewrite at_pos_snoc. destruct (Z.eqb_spec q (len done)) as [->|].
    - by rewrite lookup_insert_eq.
    - rewrite lookup_insert_ne by congruence. apply Hd. }
  assert (Hg1 : good_list l (done ++ [p])).
  { split_and!; [|rewrite len_app; change (len [p]) with 1; lia|by right]. apply NoDup_app. split_and!; [done| |apply NoDup_singleton].
    intros x Hx ->%list_elem_of_singleton. done. }
  specialize (IH (done ++ [p]) s1 Hd1 He Hg1). rewrite len_app in IH. change (len [p]) with 1 in IH.
  rewrite <- !app_assoc in IH. cbn [app] in IH.
  destruct (insert_peers o id l (len done + 1) ps s1) as [s'|]; [|done]. destruct IH as (Hg' & E & Hq & Hk). split_and!; [done| |done|].
  - rewrite E. unfold s1. by destruct s.
  - intros k Hne. rewrite Hk by done. unfold s1. cbn. apply lookup_insert_ne. by intros <-.
Qed.

Lemma good_list_nil l : good_list l [].
Proof. split_and!; [constructor|done|by left]. Qed.

Lemma insert_lists_spec o id f lists s :
  NoDup lists -> (forall l q, l ∈ lists -> fpeers s !! (o, id, l, q) = None) -> DialogFilterExists o id s = true ->
  match insert_lists o id f lists s with
  | Some s' =>
      (forall l, l ∈ lists -> good_list l (list_of l f)) /\ s' = with_fpeers (fpeers s') s /\
      (forall l q, l ∈ lists -> fpeers s' !! (o, id, l, q) = at_pos (list_of l f) q) /\
      (forall k, (forall l, l ∈ lists -> k.1 <> (o, id, l)) -> fpeers s' !! k = fpeers s !! k)
  | None => ~ (forall l, l ∈ lists -> good_list l (list_of l f))
  end.
Proof.
  intros Hn. revert s. induction Hn as [|l lists Hl Hn IH]; intros s Hs He; cbn [insert_lists].
  { split_and!; [by intros l ?%elem_of_nil|by destruct s|by intros l q ?%elem_of_nil|done]. }
  destruct (Z.gtb_spec (len (list_of l f)) dialogFilterMaxPeers) as [Hgt|Hle]; unfold dialogFilterMaxPeers in *.
  { intros H. destruct (H l) as (_ & ? & _); [by apply list_elem_of_here|lia]. }
  pose proof (insert_peers_spec o id l [] (list_of l f) s) as Hp. cbn [app] in Hp. change (len []) with 0 in Hp.
  assert (Hp' := Hp ltac:(intros q; rewrite at_pos_nil; apply Hs, list_elem_of_here) He (good_list_nil l)). clear Hp.
  destruct (insert_peers o id l 0 (list_of l f) s) as [s1|]; cycle 1.
  { intros H. apply Hp', H, list_elem_of_here. }
  destruct Hp' as (Hg & E & Hq & Hk). specialize (IH s1). destruct (insert_lists o id f lists s1) as [s2|].
  - destruct IH as (Hg2 & E2 & Hq2 & Hk2).
    { intros l' q Hl'. rewrite Hk; [apply Hs; by apply list_elem_of_further|]. cbn. congruence. }
    { unfold DialogFilterExists. by rewrite E. }
    split_and!.
    + intros l' [->|Hl']%elem_of_cons; [done|by apply Hg2].
    + rewrite E2, E. by destruct s.
    + intros l' q [->|Hl']%elem_of_cons; [|by apply Hq2]. rewrite Hk2; [apply Hq|]. intros l' Hl'. cbn. congruence.
    + intros k Hne. rewrite Hk2 by (intros; apply Hne; by apply list_elem_of_further). apply Hk, Hne, list_elem_of_here.
  - intros H. apply IH; [| |intros; apply H; by apply list_elem_of_further].
    + intros l' q Hl'. rewrite Hk; [apply Hs; by apply list_elem_of_further|]. cbn. congruence.
    + unfold DialogFilterExists. by rewrite E.
Qed.

Lemma walk_lists_elem n l : l ∈ walk_lists n <-> 1 <= l <= 3.
Proof. unfold walk_lists. repeat case_match; rewrite !elem_of_cons, elem_of_nil; lia. Qed.

Lemma walk_lists_NoDup n : NoDup (walk_lists n).
Proof. unfold walk_lists. repeat case_match; repeat constructor; rewrite ?elem_of_cons, ?elem_of_nil; lia. Qed.

Lemma list_of_other l f : ~ 1 <= l <= 3 -> list_of l f = [].
Proof.
  intros H. unfold list_of, dialogFilterPinned, dialogFilterIncluded, dialogFilterExcluded. by repeat (case_match; [lia|]).
Qed.

Definition good_lists (f : DialogFilter) : Prop := forall l, good_list l (list_of l f).

(** The lists of a folder that is there are replaced, whatever the order of the walk. *)
Lemma replace_lists_spec o f n s :
  2 <= df_ID f <= 255 -> DialogFilterExists o (df_ID f) s = true ->
  match replaceDialogFilterLists o f (walk_lists n) s with
  | Some s' =>
      good_lists f /\ s' = with_fpeers (fpeers s') s /\
      (forall l q, fpeers s' !! (o, df_ID f, l, q) = at_pos (list_of l f) q) /\
      (forall k, k.1.1 <> (o, df_ID f) -> fpeers s' !! k = fpeers s !! k)
  | None => ~ good_lists f
  end.
Proof.
  intros Hid He. unfold replaceDialogFilterLists, dialogFilterSmallint.
  replace ((df_ID f <? - 32768) || (df_ID f >? 32767)) with false by lia. set (id := df_ID f) in *.
  set (s1 := DeleteDialogFilterPeers o id s).
  assert (Hgone : forall l q, fpeers s1 !! (o, id, l, q) = None).
  { intros l q. unfold s1, DeleteDialogFilterPeers. cbn. apply map_lookup_filter_None_2. right. intros x _ H. by apply H. }
  assert (Hkeep : forall k, k.1.1 <> (o, id) -> fpeers s1 !! k = fpeers s !! k).
  { intros [[[a b] c] q] Hk. unfold s1, DeleteDialogFilterPeers. cbn. cbn in Hk.
    destruct (fpeers s !! (a, b, c, q)) as [x|] eqn:E.
    - apply map_lookup_filter_Some. split; [done|]. intros [-> ->]. done.
    - apply map_lookup_filter_None. by left. }
  assert (Hw := walk_lists_elem n).
  assert (Hn := walk_lists_NoDup n).
  pose proof (insert_lists_spec o id f (walk_lists n) s1 Hn (fun l q _ => Hgone l q) He) as Hsp.
  assert (Hall : (forall l, l ∈ walk_lists n -> good_list l (list_of l f)) <-> good_lists f).
  { split; [|by intros H l _]. intros H l. destruct (decide (1 <= l <= 3)); [by apply H, Hw|].
    rewrite list_of_other by done. apply good_list_nil. }
  destruct (insert_lists o id f (walk_lists n) s1) as [s'|]; [|by rewrite <- Hall].
  destruct Hsp as (Hg & E & Hq & Hk). split_and!.
  - by apply Hall.
  - rewrite E. by destruct s.
  - intros l q. destruct (decide (1 <= l <= 3)); [by apply Hq, Hw|].
    rewrite Hk, Hgone; [|intros l' Hl'; cbn; intros [=]; subst; by apply Hw in Hl'].
    by rewrite list_of_other, at_pos_nil.
  - intros k Hne. rewrite Hk; [by apply Hkeep|]. intros l _ E'. apply Hne. by rewrite E'.
Qed.

(** *** Entities *)

Definition good_entity (x : DialogFilterEntity) : Prop :=
  0 <= en_Offset x < 2 ^ 31 /\ 0 < en_Length x < 2 ^ 31 /\ 0 < en_DocumentID x.

Definition good_entities (xs : list DialogFilterEntity) : Prop := len xs <= 12 /\ Forall good_entity xs.

Lemma insert_entity_spec o id done x s :
  (forall q, fents s !! (o, id, q) = at_pos done q) -> DialogFilterExists o id s = true -> len done <= 11 -> good_entity x ->
  InsertDialogFilterEntity o id (len done) (mkFEntity (en_Offset x) (en_Length x) (en_DocumentID x)) s =
  Some (with_fentities (<[(o, id, len done) := x]> (fents s)) s).
Proof.
  intros Hd He Hl (H1 & H2 & H3). unfold InsertDialogFilterEntity. rewrite He. cbn [en_Offset en_Length en_DocumentID].
  rewrite (bool_decide_true (fents s !! _ = None)) by (rewrite Hd; apply at_pos_past; lia). pose proof (len_nonneg done).
  replace (_ && _) with true by lia. by destruct x.
Qed.

Lemma insert_entities_spec o id done xs s :
  (forall q, fents s !! (o, id, q) = at_pos done q) -> DialogFilterExists o id s = true -> good_entities (done ++ xs) ->
  exists s', insert_entities o id (len done) xs s = Some s' /\ s' = with_fentities (fents s') s /\
    (forall q, fents s' !! (o, id, q) = at_pos (done ++ xs) q) /\
    (forall k, k.1 <> (o, id) -> fents s' !! k = fents s !! k).
Proof.
  revert done s. induction xs as [|x xs IH]; intros done s Hd He Hg; cbn [insert_entities].
  { rewrite app_nil_r. exists s. split_and!; [done|by destruct s|done|done]. }
  pose proof (len_nonneg done). pose proof (len_nonneg xs). pose proof Hg as [Hlen Hf]. rewrite len_app, len_cons in Hlen.
  assert (Hx : good_entity x) by (rewrite Forall_forall in Hf; apply Hf, elem_of_app; right; apply list_elem_of_here).
  unfold dialogFilterSmallint, dialogFilterInt32. pose proof Hx as ((? & ?) & (? & ?) & ?).
  replace ((len done <? - 32768) || (len done >? 32767)) with false by lia.
  replace ((en_Offset x <? - 2 ^ 31) || (en_Offset x >? 2 ^ 31 - 1)) with false by lia.
  replace ((en_Length x <? - 2 ^ 31) || (en_Length x >? 2 ^ 31 - 1)) with false by lia.
  rewrite insert_entity_spec by (done || lia). set (s1 := with_fentities _ s).
  destruct (IH (done ++ [x]) s1) as (s' & E & Es & Hq & Hk).
  - intros q. unfold s1. cbn. rewrite at_pos_snoc. destruct (Z.eqb_spec q (len done)) as [->|].
    + by rewrite lookup_insert_eq.
    + rewrite lookup_insert_ne by congruence. apply Hd.
  - done.
  - by rewrite <- app_assoc.
  - rewrite len_app in E. change (len [x]) with 1 in E. exists s'. split_and!; [done| | |].
    + rewrite Es. unfold s1. by destruct s.
    + by rewrite <- app_assoc in Hq.
    + intros k Hne. rewrite Hk by done. unfold s1. cbn. apply lookup_insert_ne. by intros <-.
Qed.

Lemma replace_entities_spec o f s :
  2 <= df_ID f <= 255 -> DialogFilterExists o (df_ID f) s = true -> good_entities (df_Entities f) ->
  exists s', replaceDialogFilterEntities o f s = Some s' /\ s' = with_fentities (fents s') s /\
    (forall q, fents s' !! (o, df_ID f, q) = at_pos (df_Entities f) q) /\
    (forall k, k.1 <> (o, df_ID f) -> fents s' !! k = fents s !! k).
Proof.
  intros Hid He Hg. unfold replaceDialogFilterEntities, dialogFilterSmallint.
  replace ((df_ID f <? - 32768) || (df_ID f >? 32767)) with false by lia. set (id := df_ID f) in *.
  unfold dialogFilterMaxEntities. replace (len (df_Entities f) >? 12) with false by (destruct Hg; lia).
  set (s1 := DeleteDialogFilterEntities o id s).
  destruct (insert_entities_spec o id [] (df_Entities f) s1) as (s' & E & Es & Hq & Hk); [|done|done|].
  { intros q. rewrite at_pos_nil. unfold s1, DeleteDialogFilterEntities. cbn. apply map_lookup_filter_None_2.
    right. intros x _ H. by apply H. }
  exists s'. split_and!; [done|rewrite Es; by destruct s|done|]. intros [[a b] q] Hne. rewrite Hk by done.
  unfold s1, DeleteDialogFilterEntities. cbn. cbn in Hne. destruct (fents s !! (a, b, q)) as [x|] eqn:E'.
  - apply map_lookup_filter_Some. split; [done|]. intros [-> ->]. done.
  - apply map_lookup_filter_None. by left.
Qed.

(** ** Tables in order *)

(** A stretch of whole runes, in code units. *)
Definition spanned (text : string) (x : DialogFilterEntity) : Prop :=
  exists a b c, runes (bytes_of text) = a ++ b ++ c /\ b <> [] /\ en_Offset x = units16 a /\ en_Length x = units16 b.

(** What a folder must be to be sent off to the store. *)
Record sendable (f : DialogFilter) : Prop := {
  sd_id : 2 <= df_ID f <= 255;
  sd_title : df_Title f <> ""%string /\ RuneCountInString (bytes_of (df_Title f)) <= 12;
  sd_emoticon : len (bytes_of (df_Emoticon f)) <= 64;
  sd_color : forall c, df_Color f = Some c -> 0 <= c <= 6;
  sd_peers : NoDup (PinnedPeers f ++ IncludePeers f ++ ExcludePeers f);
  sd_included : len (PinnedPeers f) + len (IncludePeers f) <= 100;
  sd_excluded : len (ExcludePeers f) <= 100;
  sd_entities : len (df_Entities f) <= 12;
  sd_entity : Forall (fun x => spanned (df_Title f) x /\ 0 < en_DocumentID x) (df_Entities f);
  sd_some : Contacts (df_flags f) = true \/ NonContacts (df_flags f) = true \/ Groups (df_flags f) = true \/
            Broadcasts (df_flags f) = true \/ Bots (df_flags f) = true \/ PinnedPeers f ++ IncludePeers f <> []
}.

(** And to be stored: text the database takes. *)
Definition decent (f : DialogFilter) : Prop :=
  sendable f /\ text_ok (df_Title f) = true /\ text_ok (df_Emoticon f) = true.

(** What an owner reads, as a map. *)
Definition book (o : Z) (s : folders) : gmap Z DialogFilter :=
  list_to_map (map (fun f => (df_ID f, f)) (sn_Filters (readDialogFilters o s))).

Lemma stores_book s o F : stores s o F -> book o s = F.
Proof.
  intros Hs. unfold book. rewrite read_eq. cbn [sn_Filters]. rewrite (read_folders_stored s o F) by done.
  rewrite map_map. replace (map _ (shelf F)) with (shelf F).
  - apply map_eq. intros id. apply option_eq. intros f. rewrite <- (elem_shelf F). symmetry. apply elem_of_list_to_map, NoDup_shelf_keys.
  - rewrite <- (map_id (shelf F)) at 1. apply map_ext_in. intros [id f] H%list_elem_of_In%elem_shelf. cbn. f_equal.
    symmetry. by eapply so_ids.
Qed.

Record owner_ok (s : folders) (o : Z) : Prop := {
  oo_stores : stores s o (book o s);
  oo_decent : forall id f, book o s !! id = Some f -> decent f;
  oo_count : Z.of_nat (size (book o s)) <= 10;
  oo_order : order_ids (stored_state o s) ≡ₚ 0 :: (shelf (book o s)).*1
}.

Record fold_ok (s : folders) : Prop := {
  fo_users : forall o, is_Some (user_dialog_filter_state s !! o) -> o ∈ users s;
  fo_owner : forall o, owner_ok s o
}.

(** An owner whose rows are the same. *)
Record same_owner (o : Z) (s s' : folders) : Prop := {
  sw_rows : forall id, user_dialog_filters s' !! (o, id) = user_dialog_filters s !! (o, id);
  sw_peers : forall id l q, fpeers s' !! (o, id, l, q) = fpeers s !! (o, id, l, q);
  sw_entities : forall id q, fents s' !! (o, id, q) = fents s !! (o, id, q);
  sw_state : stored_state o s' = stored_state o s
}.

Lemma same_stores o s s' F : same_owner o s s' -> stores s o F -> stores s' o F.
Proof. intros [H1 H2 H3 _] [S1 S2 S3 S4]. split; intros; [by rewrite H1|by rewrite H2|by rewrite H3|by eapply S4]. Qed.

Lemma same_ok o s s' : same_owner o s s' -> owner_ok s o -> owner_ok s' o.
Proof.
  intros Hw [O1 O2 O3 O4]. pose proof (same_stores _ _ _ _ Hw O1) as Hs. pose proof (stores_book _ _ _ Hs) as E.
  split; rewrite E; [done|done|done|]. by rewrite (sw_state _ _ _ Hw).
Qed.

Lemma same_read o s s' : same_owner o s s' -> owner_ok s o -> readDialogFilters o s' = readDialogFilters o s.
Proof.
  intros Hw [O1 _ _ _]. rewrite !read_eq, (sw_state _ _ _ Hw).
  by rewrite (read_folders_stored s o (book o s)), (read_folders_stored s' o (book o s)) by (done || by eapply same_stores).
Qed.

Lemma same_refl o s : same_owner o s s.
Proof. by split. Qed.

Lemma same_trans o a b c : same_owner o a b -> same_owner o b c -> same_owner o a c.
Proof. intros [] []. split; congruence. Qed.

(** Reading, from tables in order. *)
Lemma owner_read s o : owner_ok s o ->
  readDialogFilters o s =
  mkSnapshot (map snd (shelf (book o s))) (order_ids (stored_state o s)) (changed_at (stored_state o s)) /\
  folder_ids (shelf (book o s)).*1.
Proof.
  intros [O1 O2 O3 O4]. assert (Hids : map df_ID (map snd (shelf (book o s))) = (shelf (book o s)).*1).
  { rewrite map_map. apply map_ext_in. intros [id f] H%list_elem_of_In%elem_shelf. by eapply so_ids. }
  assert (Hf : folder_ids (shelf (book o s)).*1).
  { split; [apply NoDup_shelf_keys|]. intros id [f Hf]%elem_shelf_keys. pose proof (O2 id f Hf) as [[Hid _ _ _ _ _ _ _ _ _] _].
    by rewrite (so_ids _ _ _ O1 id f Hf) in Hid. }
  split; [|done]. rewrite read_eq, (read_folders_stored s o (book o s)) by done. by rewrite Hids, normalize_complete.
Qed.

(** ** One owner's move *)

Record moved (s s' : folders) (o : Z) (F : gmap Z DialogFilter) (order : list Z) (seeded : option Z) (at_ : Z) : Prop := {
  mv_stores : stores s' o F;
  mv_state : user_dialog_filter_state s' !! o = Some (mkFState order (Some at_) seeded);
  mv_notified : notified s' = notified s ++ [o];
  mv_others : forall o', o' <> o -> same_owner o' s s' /\ user_dialog_filter_state s' !! o' = user_dialog_filter_state s !! o';
  mv_world : users s' = users s /\ update_state s' = update_state s /\ folder_limits s' = folder_limits s /\
             chat_participants s' = chat_participants s /\ channel_members s' = channel_members s
}.

Lemma moved_ok s s' o F order seeded at_ :
  fold_ok s -> o ∈ users s -> moved s s' o F order seeded at_ -> (forall id f, F !! id = Some f -> decent f) ->
  Z.of_nat (size F) <= 10 -> order ≡ₚ 0 :: (shelf F).*1 -> fold_ok s'.
Proof.
  intros [Hus Hs] Hu [M1 M2 _ M4 [M5 _]] Hd Hn Ho. split.
  - intros o' Ho'. rewrite M5. destruct (decide (o' = o)) as [->|Hne]; [done|].
    apply Hus. by rewrite <- (proj2 (M4 o' Hne)).
  - intros o'. destruct (decide (o' = o)) as [->|Hne]; [|by eapply same_ok; [apply M4|]].
    pose proof (stores_book _ _ _ M1) as E. split; rewrite E; [done|done|done|]. unfold stored_state. by rewrite M2.
Qed.

(** Opening a transaction: at most the owner's row appears, which reads as if it had been there. *)
Record opened (s s' : folders) (o : Z) (st : filter_state) : Prop := {
  op_st : st = stored_state o s;
  op_row : user_dialog_filter_state s' !! o = Some st;
  op_same : forall o', same_owner o' s s';
  op_others : forall o', o' <> o -> user_dialog_filter_state s' !! o' = user_dialog_filter_state s !! o';
  op_user : o ∈ users s \/ is_Some (user_dialog_filter_state s !! o);
  op_notified : notified s' = notified s;
  op_world : users s' = users s /\ update_state s' = update_state s /\ folder_limits s' = folder_limits s /\
             chat_participants s' = chat_participants s /\ channel_members s' = channel_members s
}.

Lemma begin_spec o s st s1 : beginDialogFilterMutation o s = Some (st, s1) -> opened s s1 o st.
Proof.
  unfold beginDialogFilterMutation, EnsureDialogFilterState. destruct (user_dialog_filter_state s !! o) as [st0|] eqn:E.
  - rewrite E. case_bool_decide; [|done]. intros [= <- <-].
    split; [by unfold stored_state; rewrite E|done|intros; apply same_refl|done|right; by eexists|done|done].
  - case_bool_decide; [|done]. cbn. rewrite lookup_insert_eq. case_bool_decide; [|done]. intros [= <- <-].
    split; [by unfold stored_state; rewrite E|apply lookup_insert_eq| |intros; by apply lookup_insert_ne|by left|done|done].
    intros o'. split; [done..|].
    unfold stored_state. cbn. destruct (decide (o' = o)) as [->|]; [by rewrite lookup_insert_eq, E|by rewrite lookup_insert_ne].
Qed.

Lemma opened_user s s1 o st : fold_ok s -> opened s s1 o st -> o ∈ users s.
Proof. intros Hs Hop. destruct (op_user _ _ _ _ Hop); [done|]. by apply (fo_users _ Hs). Qed.

Lemma begin_succeeds o s :
  o ∈ users s -> o ∈ update_state s -> exists s1, beginDialogFilterMutation o s = Some (stored_state o s, s1).
Proof.
  intros Hu Hs. unfold beginDialogFilterMutation, EnsureDialogFilterState, stored_state.
  destruct (user_dialog_filter_state s !! o) as [st0|] eqn:E.
  - rewrite E, bool_decide_true by done. by eexists.
  - rewrite bool_decide_true by done. cbn. rewrite lookup_insert_eq, bool_decide_true by done. by eexists.
Qed.

(** ** Committing *)

Lemma order_encodes order : (forall x, x ∈ order -> 0 <= x <= 255) -> dialogFilterOrderIDs order = Some order.
Proof.
  induction order as [|x order IH]; intros H; [done|]. cbn. unfold dialogFilterSmallint.
  assert (0 <= x <= 255) by apply H, list_elem_of_here. replace ((x <? - 32768) || (x >? 32767)) with false by lia.
  rewrite IH; [done|]. intros y Hy. apply H. by apply list_elem_of_further.
Qed.

(** The writes of a transaction before its commit. *)
Record written (s s' : folders) (o : Z) (F : gmap Z DialogFilter) (st : filter_state) : Prop := {
  wr_stores : stores s' o F;
  wr_state : user_dialog_filter_state s' !! o = Some st;
  wr_notified : notified s' = notified s;
  wr_others : forall o', o' <> o -> same_owner o' s s' /\ user_dialog_filter_state s' !! o' = user_dialog_filter_state s !! o';
  wr_world : users s' = users s /\ update_state s' = update_state s /\ folder_limits s' = folder_limits s /\
             chat_participants s' = chat_participants s /\ channel_members s' = channel_members s
}.

Lemma opened_written s s1 o st F : opened s s1 o st -> stores s o F -> written s s1 o F st.
Proof. intros [H1 H2 H3 H4 H5 H6 H7] Hs. split; [by eapply same_stores|done|done|by intros; split; [apply H3|apply H4]|done]. Qed.

Lemma commit_moved s s1 o F st order e :
  written s s1 o F st -> (forall x, x ∈ order -> 0 <= x <= 255) ->
  exists s', commitDialogFilterMutation o order e s1 = Some s' /\
    moved s s' o F order (defaults_seeded_at st) (fe_change_at e).
Proof.
  intros [W1 W2 W3 W4 W5] Ho. unfold commitDialogFilterMutation. rewrite order_encodes by done.
  eexists; split; [done|]. unfold CommitDialogFilterMutation. cbn [user_dialog_filter_state with_notice]. rewrite W2. split; cbn.
  - by destruct W1.
  - apply lookup_insert_eq.
  - by rewrite W3.
  - intros o' Hne. destruct (W4 o' Hne) as [[S1 S2 S3 S4] S5]. split; [|by rewrite lookup_insert_ne]. split; cbn; [done..|].
    rewrite <- S4. unfold stored_state. cbn. by rewrite lookup_insert_ne.
  - done.
Qed.

(** ** Saving *)

Lemma shelf_len F : len (shelf F) = Z.of_nat (size F).
Proof. unfold len, shelf. rewrite (merge_sort_Permutation by_id (map_to_list F)). by rewrite length_map_to_list. Qed.

Lemma row_ids s o F : stores s o F -> dialogFilterRowIDs (ListDialogFilters o s) = (shelf F).*1.
Proof. intros Hs. unfold dialogFilterRowIDs. rewrite (list_rows s o F) by done. by rewrite map_map. Qed.

Lemma row_count s o F : stores s o F -> len (ListDialogFilters o s) = Z.of_nat (size F).
Proof. intros Hs. rewrite (list_rows s o F) by done. rewrite <- shelf_len. unfold len. by rewrite length_map. Qed.

Lemma exists_stored s o F id : stores s o F -> DialogFilterExists o id s = bool_decide (is_Some (F !! id)).
Proof. intros Hs. unfold DialogFilterExists. rewrite (so_rows _ _ _ Hs). apply bool_decide_ext. by rewrite fmap_is_Some. Qed.

Lemma units16_cons r rs : units16 (r :: rs) = (if RuneLen r =? 2 then 2 else 1) + units16 rs.
Proof. done. Qed.

Lemma units16_nonneg rs : 0 <= units16 rs <= 2 * len rs.
Proof. induction rs as [|r rs IH]; [done|]. rewrite len_cons, units16_cons. case_match; lia. Qed.

Lemma units16_pos rs : rs <> [] -> 0 < units16 rs.
Proof. destruct rs as [|r rs]; [done|]. intros _. pose proof (units16_nonneg rs). rewrite units16_cons. case_match; lia. Qed.

Lemma sendable_entities f : sendable f -> good_entities (df_Entities f).
Proof.
  intros H. split; [apply H|]. eapply Forall_impl; [apply H|]. intros x [(a & b & c & E & Hb & Ho & Hl) Hd].
  pose proof (units16_nonneg a). pose proof (units16_nonneg b). pose proof (units16_pos b Hb).
  destruct (sd_title _ H) as [_ Hr]. unfold RuneCountInString in Hr. rewrite E, !len_app in Hr.
  pose proof (len_nonneg a). pose proof (len_nonneg b). pose proof (len_nonneg c). unfold good_entity. lia.
Qed.

Lemma sendable_lists f : sendable f -> good_lists f.
Proof.
  intros H l. pose proof (len_nonneg (PinnedPeers f)). pose proof (len_nonneg (IncludePeers f)).
  pose proof (sd_included _ H). pose proof (sd_excluded _ H).
  destruct (proj1 (NoDup_app _ _) (sd_peers _ H)) as (N1 & _ & (N2 & _ & N3)%NoDup_app).
  unfold list_of, dialogFilterPinned, dialogFilterIncluded, dialogFilterExcluded.
  repeat (case_match; [split_and!; [done|lia|right; lia]|]). apply good_list_nil.
Qed.

(** The order after a save. *)
Definition order_with (id : Z) (order : list Z) : list Z := if bool_decide (id ∈ order) then order else order ++ [id].

Lemma shelf_insert_old F id f : is_Some (F !! id) -> (shelf (<[id := f]> F)).*1 ≡ₚ (shelf F).*1.
Proof.
  intros Hi. apply NoDup_Permutation; [apply NoDup_shelf_keys..|]. intros x. rewrite !elem_shelf_keys, lookup_insert_is_Some'. naive_solver.
Qed.

Lemma shelf_insert_new F id f : F !! id = None -> (shelf (<[id := f]> F)).*1 ≡ₚ id :: (shelf F).*1.
Proof.
  intros Hi. apply NoDup_Permutation; [apply NoDup_shelf_keys| |].
  - constructor; [|apply NoDup_shelf_keys]. rewrite elem_shelf_keys, Hi. by intros [? ?].
  - intros x. rewrite elem_of_cons, !elem_shelf_keys, lookup_insert_is_Some'. naive_solver.
Qed.

Lemma keys_insert F id f : folder_ids (shelf F).*1 -> 2 <= id <= 255 -> folder_ids (shelf (<[id := f]> F)).*1.
Proof.
  intros [Hn Hr] Hid. split; [apply NoDup_shelf_keys|]. intros x. rewrite elem_shelf_keys, lookup_insert_is_Some'.
  intros [<-|Hx]; [done|]. by apply Hr, elem_shelf_keys.
Qed.

Lemma saved_order_spec o id st F f s :
  stores s o (<[id := f]> F) -> folder_ids (shelf F).*1 -> 2 <= id <= 255 -> order_ids st ≡ₚ 0 :: (shelf F).*1 ->
  saved_order o id st s = order_with id (order_ids st) /\ order_with id (order_ids st) ≡ₚ 0 :: (shelf (<[id := f]> F)).*1.
Proof.
  intros Hs Hf Hid Ho. pose proof (keys_insert F id f Hf Hid) as Hk. unfold saved_order, order_with.
  rewrite (row_ids s o _ Hs). destruct (F !! id) as [g|] eqn:E.
  - assert (Hp : (shelf (<[id := f]> F)).*1 ≡ₚ (shelf F).*1) by (apply shelf_insert_old; by eexists).
    assert (Hin : id ∈ order_ids st) by (rewrite Ho; apply list_elem_of_further, elem_shelf_keys; by eexists).
    rewrite normalize_complete by (done || by rewrite Hp). by rewrite !bool_decide_true, Hp by done.
  - pose proof (shelf_insert_new F id f E) as Hp.
    assert (Hout : id ∉ order_ids st).
    { rewrite Ho, elem_of_cons, elem_shelf_keys, E. intros [->|[? ?]]; [lia|done]. }
    rewrite (normalize_extend _ (shelf F).*1 _ id) by done. rewrite (bool_decide_true (id ∈ _ ++ _)) by set_solver.
    rewrite (bool_decide_false (id ∈ _)) by done. split; [done|]. rewrite Hp, Ho, <- Permutation_cons_append. apply perm_swap.
Qed.

(** What stops the writes of a save: text the database refuses, or no such account. *)
Definition savable (o : Z) (f : DialogFilter) (s : folders) : Prop :=
  o ∈ users s /\ text_ok (df_Title f) = true /\ text_ok (df_Emoticon f) = true.

Lemma upsert_spec o f color s :
  2 <= df_ID f <= 255 -> (forall c, color = Some c -> 0 <= c <= 6) ->
  let r := mkFRow (df_Title f) (df_Emoticon f) color (df_flags f) in
  match UpsertDialogFilter o (df_ID f) r s with
  | Some s' => savable o f s /\ s' = with_filters (<[(o, df_ID f) := r]> (user_dialog_filters s)) s
  | None => ~ savable o f s
  end.
Proof.
  intros Hid Hc r. unfold UpsertDialogFilter, row_ok, savable. cbn [fr_title fr_emoticon fr_color r].
  replace (match color with Some c => (0 <=? c) && (c <=? 6) | None => true end) with true.
  2: { destruct color as [c|]; [|done]. specialize (Hc c eq_refl). lia. }
  replace (2 <=? df_ID f) with true by lia. replace (df_ID f <=? 255) with true by lia. rewrite !andb_true_r.
  destruct (bool_decide_reflect (o ∈ users s)), (text_ok (df_Title f)), (text_ok (df_Emoticon f)); cbn; naive_solver.
Qed.

Lemma written_save s s1 o st f F r s2 s3 s4 :
  opened s s1 o st -> stores s o F -> r = row_of f -> s2 = with_filters (<[(o, df_ID f) := r]> (user_dialog_filters s1)) s1 ->
  s3 = with_fpeers (fpeers s3) s2 -> (forall l q, fpeers s3 !! (o, df_ID f, l, q) = at_pos (list_of l f) q) ->
  (forall k, k.1.1 <> (o, df_ID f) -> fpeers s3 !! k = fpeers s2 !! k) ->
  s4 = with_fentities (fents s4) s3 -> (forall q, fents s4 !! (o, df_ID f, q) = at_pos (df_Entities f) q) ->
  (forall k, k.1 <> (o, df_ID f) -> fents s4 !! k = fents s3 !! k) ->
  written s s4 o (<[df_ID f := f]> F) st.
Proof.
  intros [P1 P2 P3 P3' _ P4 P5] Hs -> -> E3 Hq3 Hk3 E4 Hq4 Hk4. pose proof (same_stores _ _ _ _ (P3 o) Hs) as [S1 S2 S3 S4].
  assert (Er : user_dialog_filters s4 = <[(o, df_ID f) := row_of f]> (user_dialog_filters s1)) by (by rewrite E4, E3).
  assert (Ep : fpeers s4 = fpeers s3) by (by rewrite E4). assert (Ee : fents s3 = fents s1) by (by rewrite E3).
  assert (Et : user_dialog_filter_state s4 = user_dialog_filter_state s1) by (by rewrite E4, E3). split.
  - split.
    + intros id. rewrite Er. destruct (decide (id = df_ID f)) as [->|Hne]; [by rewrite !lookup_insert_eq|].
      rewrite !lookup_insert_ne by congruence. apply S1.
    + intros id l p. rewrite Ep. destruct (decide (id = df_ID f)) as [->|Hne]; [by rewrite lookup_insert_eq, Hq3|].
      rewrite lookup_insert_ne by done. rewrite Hk3 by (cbn; congruence). apply S2.
    + intros id p. destruct (decide (id = df_ID f)) as [->|Hne]; [by rewrite lookup_insert_eq, Hq4|].
      rewrite lookup_insert_ne by done. rewrite Hk4 by (cbn; congruence). rewrite Ee. apply S3.
    + intros id g. destruct (decide (id = df_ID f)) as [->|Hne]; [rewrite lookup_insert_eq; by intros [= ->]|].
      rewrite lookup_insert_ne by done. apply S4.
  - by rewrite Et.
  - rewrite E4, E3. done.
  - intros o' Hne. split; [|by rewrite Et, P3']. eapply same_trans; [apply P3|]. split.
    + intros id. rewrite Er. apply lookup_insert_ne. congruence.
    + intros id l q. rewrite Ep, Hk3 by (cbn; congruence). done.
    + intros id q. rewrite Hk4 by (cbn; congruence). by rewrite Ee.
    + unfold stored_state. by rewrite Et.
  - by rewrite E4, E3.
Qed.

Definition saved (s s' : folders) (o : Z) (f : DialogFilter) (at_ : Z) : Prop :=
  decent f /\ (is_Some (book o s !! df_ID f) \/ Z.of_nat (size (book o s)) < 10) /\
  o ∈ users s /\
  moved s s' o (<[df_ID f := f]> (book o s)) (order_with (df_ID f) (order_ids (stored_state o s)))
    (defaults_seeded_at (stored_state o s)) at_.

Lemma save_writes_spec o f e s s1 st :
  fold_ok s -> sendable f -> opened s s1 o st ->
  match save_writes o (df_ID f) st f e s1 with
  | Some s' => savable o f s /\
      moved s s' o (<[df_ID f := f]> (book o s)) (order_with (df_ID f) (order_ids st)) (defaults_seeded_at st) (fe_change_at e)
  | None => ~ savable o f s
  end.
Proof.
  intros Hs Hf Hop. unfold save_writes. pose proof (sd_id _ Hf) as Hid. destruct (owner_read s o (fo_owner _ Hs o)) as [_ Hfi].
  replace (match df_Color f with
           | Some c => if (c <? 0) || (c >? 6) then None else match dialogFilterSmallint c with Some v => Some (Some v) | None => None end
           | None => Some None end) with (Some (df_Color f)).
  2: { destruct (df_Color f) as [c|] eqn:E; [|done]. pose proof (sd_color _ Hf c E). unfold dialogFilterSmallint.
       replace ((c <? 0) || (c >? 6)) with false by lia. by replace ((c <? - 32768) || (c >? 32767)) with false by lia. }
  assert (Hsv : savable o f s1 <-> savable o f s) by (unfold savable; by rewrite (proj1 (op_world _ _ _ _ Hop))).
  pose proof (upsert_spec o f (df_Color f) s1 Hid (sd_color _ Hf)) as Hu. cbn zeta in Hu.
  destruct (UpsertDialogFilter o (df_ID f) _ s1) as [s2|]; [|by rewrite <- Hsv]. destruct Hu as [Hok E2].
  assert (Hex : DialogFilterExists o (df_ID f) s2 = true).
  { unfold DialogFilterExists. rewrite E2. cbn. rewrite lookup_insert_eq. by apply bool_decide_eq_true_2. }
  pose proof (replace_lists_spec o f (fe_walk e) s2 Hid Hex) as Hl.
  destruct (replaceDialogFilterLists o f (walk_lists (fe_walk e)) s2) as [s3|]; [|by destruct Hl; apply sendable_lists].
  destruct Hl as (_ & E3 & Hq3 & Hk3).
  assert (Hex3 : DialogFilterExists o (df_ID f) s3 = true) by (unfold DialogFilterExists in *; by rewrite E3).
  destruct (replace_entities_spec o f s3 Hid Hex3 (sendable_entities f Hf)) as (s4 & -> & E4 & Hq4 & Hk4).
  pose proof (written_save s s1 o st f (book o s) _ s2 s3 s4 Hop (oo_stores _ _ (fo_owner _ Hs o)) eq_refl E2 E3 Hq3 Hk3 E4 Hq4 Hk4) as Hw.
  pose proof (oo_order _ _ (fo_owner _ Hs o)) as Ho. rewrite <- (op_st _ _ _ _ Hop) in Ho.
  destruct (saved_order_spec o (df_ID f) st (book o s) f s4 (wr_stores _ _ _ _ _ Hw) Hfi Hid Ho) as [-> Hp].
  destruct (commit_moved s s4 o _ st (order_with (df_ID f) (order_ids st)) e Hw) as (s' & -> & Hm).
  - intros x. rewrite Hp, elem_of_cons. intros [->|Hx]; [lia|].
    destruct (keys_insert (book o s) (df_ID f) f Hfi Hid) as [_ Hr]. specialize (Hr x Hx). lia.
  - by rewrite Hsv in Hok.
Qed.

(** Saving a folder, from tables in order: it is stored, or nothing changes and there is a
    reason. *)
Lemma save_spec o f e s :
  fold_ok s -> sendable f ->
  match SaveDialogFilter o f e s with
  | (None, s') => saved s s' o f (fe_change_at e)
  | (Some ErrDialogFilterLimit, s') => s' = s /\ book o s !! df_ID f = None /\ Z.of_nat (size (book o s)) = 10
  | (Some ErrFolderOther, s') => s' = s /\ ~ (savable o f s /\ o ∈ update_state s)
  end.
Proof.
  intros Hs Hf. unfold SaveDialogFilter, dialogFilterSmallint. pose proof (sd_id _ Hf) as Hid.
  replace ((df_ID f <? 2) || (df_ID f >? 255)) with false by lia.
  replace ((df_ID f <? - 32768) || (df_ID f >? 32767)) with false by lia.
  destruct (beginDialogFilterMutation o s) as [[st s1]|] eqn:Eb; cycle 1.
  { split; [done|]. intros [(Hu & _) Hus]. destruct (begin_succeeds o s Hu Hus). congruence. }
  pose proof (begin_spec _ _ _ _ Eb) as Hop. pose proof (op_st _ _ _ _ Hop) as Est.
  pose proof (same_stores _ _ _ _ (op_same _ _ _ _ Hop o) (oo_stores _ _ (fo_owner _ Hs o))) as Hs1.
  rewrite (exists_stored s1 o _ (df_ID f) Hs1). unfold DialogFilterFolderCount. rewrite (row_count s1 o _ Hs1).
  pose proof (oo_count _ _ (fo_owner _ Hs o)) as Hc.
  destruct (negb _ && _) eqn:Elim.
  { apply andb_prop in Elim as [E1 E2]. rewrite negb_true_iff, bool_decide_eq_false in E1.
    split_and!; [done|by apply eq_None_not_Some|lia]. }
  pose proof (save_writes_spec o f e s s1 st Hs Hf Hop) as Hsw.
  destruct (save_writes o (df_ID f) st f e s1) as [s'|]; [|split; [done|]; by intros [? _]].
  destruct Hsw as [(? & ? & ?) Hm]. split_and!; [done| |done|by rewrite <- Est].
  destruct (decide (is_Some (book o s !! df_ID f))) as [|Hn]; [by left|right].
  rewrite bool_decide_false in Elim by done. cbn in Elim. lia.
Qed.

Lemma saved_folder_ok s s' o f at_ : fold_ok s -> saved s s' o f at_ -> fold_ok s'.
Proof.
  intros Hs (Hd & Hc & Hu & Hm). destruct (owner_read s o (fo_owner _ Hs o)) as [_ Hfi]. pose proof (sd_id _ (proj1 Hd)) as Hid.
  destruct (saved_order_spec o (df_ID f) (stored_state o s) (book o s) f s' (mv_stores _ _ _ _ _ _ _ Hm) Hfi Hid (oo_order _ _ (fo_owner _ Hs o)))
    as [_ Hp].
  eapply moved_ok; [done|done|done| | |done].
  - intros id g. destruct (decide (id = df_ID f)) as [->|Hne]; [rewrite lookup_insert_eq; by intros [= <-]|].
    rewrite lookup_insert_ne by done. apply (oo_decent _ _ (fo_owner _ Hs o)).
  - pose proof (oo_count _ _ (fo_owner _ Hs o)). destruct (book o s !! df_ID f) as [g|] eqn:E.
    + rewrite map_size_insert_Some; [done|by eexists].
    + rewrite map_size_insert_None by done. destruct Hc as [[? ?]|?]; [congruence|lia].
Qed.

(** ** Deleting *)

#[export] Instance bfilter_perm {A} (f : A -> bool) : Proper (Permutation ==> Permutation) (List.filter f).
Proof.
  intros l l'. induction 1 as [|x l l' _ IH|x y l|l1 l2 l3 _ IH1 _ IH2]; cbn.
  - done.
  - case_match; by rewrite IH.
  - repeat case_match; try done. apply perm_swap.
  - by rewrite IH1.
Qed.

Definition without (id : Z) (order : list Z) : list Z := List.filter (fun x => negb (x =? id)) order.

Lemma without_absent id order : id ∉ order -> without id order = order.
Proof.
  intros H. apply forallb_filter_id, forallb_forall. intros x Hx%list_elem_of_In. destruct (Z.eqb_spec x id); [by subst|done].
Qed.

Lemma shelf_delete F id : (shelf (delete id F)).*1 ≡ₚ without id (shelf F).*1.
Proof.
  apply NoDup_Permutation; [apply NoDup_shelf_keys| |].
  - apply NoDup_ListNoDup, List.NoDup_filter, NoDup_ListNoDup, NoDup_shelf_keys.
  - intros x. unfold without. rewrite elem_bfilter, !elem_shelf_keys, lookup_delete_is_Some. destruct (Z.eqb_spec x id); naive_solver.
Qed.

Lemma keys_delete F id : folder_ids (shelf F).*1 -> folder_ids (shelf (delete id F)).*1.
Proof.
  intros [Hn Hr]. split; [apply NoDup_shelf_keys|]. intros x. rewrite elem_shelf_keys, lookup_delete_is_Some.
  intros [_ Hx]. by apply Hr, elem_shelf_keys.
Qed.

Lemma written_delete s s1 o st id F :
  opened s s1 o st -> stores s o F ->
  (DeleteDialogFilterRow o id s1).1 = (if bool_decide (is_Some (F !! id)) then 1 else 0) /\
  written s (DeleteDialogFilterRow o id s1).2 o (delete id F) st.
Proof.
  intros Hop Hs. pose proof (opened_written _ _ _ _ _ Hop Hs) as Hw. pose proof (wr_stores _ _ _ _ _ Hw) as [S1 S2 S3 S4].
  unfold DeleteDialogFilterRow. destruct (user_dialog_filters s1 !! (o, id)) as [r|] eqn:E; rewrite S1 in E.
  - apply fmap_Some in E as (f & Hf & ->). rewrite bool_decide_true by (by eexists). split; [done|].
    destruct Hw as [_ W2 W3 W4 W5]. assert (Hkeep : forall o', o' <> o -> same_owner o' s1 (DeleteDialogFilterRow o id s1).2).
    { unfold DeleteDialogFilterRow. rewrite S1, Hf. cbn [fmap option_fmap option_map snd]. intros o' Hne. split; cbn.
      - intros id'. apply lookup_delete_ne. congruence.
      - intros id' l q. apply option_eq. intros x. rewrite map_lookup_filter_Some. naive_solver.
      - intros id' q. apply option_eq. intros x. rewrite map_lookup_filter_Some. naive_solver.
      - done. }
    unfold DeleteDialogFilterRow in Hkeep. rewrite S1, Hf in Hkeep. cbn [fmap option_fmap option_map snd] in Hkeep.
    split; cbn; [|done|done| |done].
    + split; cbn.
      * intros id'. destruct (decide (id' = id)) as [->|]; [by rewrite !lookup_delete_eq|].
        rewrite !lookup_delete_ne by congruence. apply S1.
      * intros id' l p. destruct (decide (id' = id)) as [->|].
        { rewrite lookup_delete_eq. apply map_lookup_filter_None_2. right. intros x _ Hn. by apply Hn. }
        rewrite lookup_delete_ne by done. rewrite <- S2. apply option_eq. intros x. rewrite map_lookup_filter_Some. naive_solver.
      * intros id' p. destruct (decide (id' = id)) as [->|].
        { rewrite lookup_delete_eq. apply map_lookup_filter_None_2. right. intros x _ Hn. by apply Hn. }
        rewrite lookup_delete_ne by done. rewrite <- S3. apply option_eq. intros x. rewrite map_lookup_filter_Some. naive_solver.
      * intros id' g [_ Hg]%lookup_delete_Some. by apply S4.
    + intros o' Hne. destruct (W4 o' Hne) as [Q1 Q2]. split; [|done]. eapply same_trans; [done|by apply Hkeep].
  - apply fmap_None in E. rewrite bool_decide_false by (rewrite E; by intros [? ?]). split; [done|]. cbn. by rewrite delete_id.
Qed.

Lemma delete_spec o id e s :
  fold_ok s ->
  match DeleteDialogFilter o id e s with
  | (Some true, s') => is_Some (book o s !! id) /\
      moved s s' o (delete id (book o s)) (without id (order_ids (stored_state o s)))
        (defaults_seeded_at (stored_state o s)) (fe_change_at e)
  | (Some false, s') => book o s !! id = None /\ opened s s' o (stored_state o s)
  | (None, s') => s' = s /\ ~ (2 <= id <= 255 /\ o ∈ users s /\ o ∈ update_state s)
  end.
Proof.
  intros Hs. unfold DeleteDialogFilter. destruct ((id <? 2) || (id >? 255)) eqn:Er; [split; [done|lia]|].
  destruct (beginDialogFilterMutation o s) as [[st s1]|] eqn:Eb; cycle 1.
  { split; [done|]. intros (_ & Hu & Hus). destruct (begin_succeeds o s Hu Hus). congruence. }
  pose proof (begin_spec _ _ _ _ Eb) as Hop. pose proof (op_st _ _ _ _ Hop) as Est.
  destruct (owner_read s o (fo_owner _ Hs o)) as [_ Hfi]. pose proof (oo_order _ _ (fo_owner _ Hs o)) as Ho. rewrite <- Est in *.
  destruct (written_delete s s1 o st id (book o s) Hop (oo_stores _ _ (fo_owner _ Hs o))) as [En Hw].
  destruct (DeleteDialogFilterRow o id s1) as [n s2] eqn:Ed. cbn [fst snd] in En, Hw.
  rewrite (row_ids s2 o _ (wr_stores _ _ _ _ _ Hw)). fold (without id (order_ids st)).
  assert (Hp : without id (order_ids st) ≡ₚ 0 :: (shelf (delete id (book o s))).*1).
  { rewrite shelf_delete. unfold without. rewrite Ho. cbn. by replace (0 =? id) with false by lia. }
  rewrite normalize_complete by (done || by apply keys_delete).
  destruct (decide (is_Some (book o s !! id))) as [Hin|Hno].
  - rewrite bool_decide_true in En by done. subst n. cbn [Z.eqb andb].
    destruct (commit_moved s s2 o _ st (without id (order_ids st)) e Hw) as (s' & -> & Hm); [|done].
    intros x. rewrite Hp, elem_of_cons. intros [->|Hx]; [lia|]. destruct (keys_delete (book o s) id Hfi) as [_ Hr]. specialize (Hr x Hx). lia.
  - rewrite bool_decide_false in En by done. subst n.
    rewrite without_absent; cycle 1.
    { rewrite Ho, elem_of_cons, elem_shelf_keys. intros [->|?]; [lia|done]. }
    rewrite bool_decide_true by done. cbn. split; [by apply eq_None_not_Some|].
    unfold DeleteDialogFilterRow in Ed.
    pose proof (same_stores _ _ _ _ (op_same _ _ _ _ Hop o) (oo_stores _ _ (fo_owner _ Hs o))) as Hs1.
    rewrite (so_rows _ _ _ Hs1), (proj2 (eq_None_not_Some _) Hno) in Ed. cbn in Ed. by simplify_eq.
Qed.

(** ** Reordering *)

Lemma reorder_perm requested order ids : folder_ids ids -> order ≡ₚ 0 :: ids ->
  NormalizeDialogFilterOrder requested order ≡ₚ order.
Proof.
  intros [Hn Hr] Hp. apply NoDup_Permutation; [apply normalize_NoDup| |].
  - rewrite Hp. constructor; [|done]. intros H%Hr. lia.
  - intros x. rewrite normalize_elem, Hp, elem_of_cons. naive_solver.
Qed.

Lemma reorder_spec o requested e s :
  fold_ok s ->
  let order := order_ids (stored_state o s) in
  let order' := NormalizeDialogFilterOrder requested order in
  match UpdateDialogFilterOrder o requested e s with
  | (Some true, s') => order' <> order /\ order' ≡ₚ order /\
      moved s s' o (book o s) order' (defaults_seeded_at (stored_state o s)) (fe_change_at e)
  | (Some false, s') => order' = order /\ opened s s' o (stored_state o s)
  | (None, s') => s' = s /\ ~ (o ∈ users s /\ o ∈ update_state s)
  end.
Proof.
  intros Hs order order'. unfold UpdateDialogFilterOrder.
  destruct (beginDialogFilterMutation o s) as [[st s1]|] eqn:Eb; cycle 1.
  { split; [done|]. intros (Hu & Hus). destruct (begin_succeeds o s Hu Hus). congruence. }
  pose proof (begin_spec _ _ _ _ Eb) as Hop. pose proof (op_st _ _ _ _ Hop) as Est.
  destruct (owner_read s o (fo_owner _ Hs o)) as [_ Hfi]. pose proof (oo_order _ _ (fo_owner _ Hs o)) as Ho. unfold order', order. rewrite <- Est in *.
  pose proof (opened_written _ _ _ _ _ Hop (oo_stores _ _ (fo_owner _ Hs o))) as Hw.
  rewrite (row_ids s1 o _ (wr_stores _ _ _ _ _ Hw)), (normalize_complete (order_ids st)) by done.
  pose proof (reorder_perm requested (order_ids st) _ Hfi Ho) as Hp.
  case_bool_decide as Heq; [done|].
  destruct (commit_moved s s1 o _ st (NormalizeDialogFilterOrder requested (order_ids st)) e Hw) as (s' & -> & Hm); [|done].
  intros x. rewrite Hp, Ho, elem_of_cons. intros [->|Hx]; [lia|]. destruct Hfi as [_ Hr]. specialize (Hr x Hx). lia.
Qed.

(** ** Seeding *)

Definition with_id (id : Z) (d : DialogFilter) : DialogFilter :=
  mkFilter id (df_Title d) [] "" None (df_flags d) [] [] [].

Lemma defaults_decent d id : d ∈ DefaultDialogFilters -> 2 <= id <= 255 -> decent (with_id id d).
Proof.
  unfold DefaultDialogFilters. rewrite !elem_of_cons, elem_of_nil. intros Hd Hid.
  destruct Hd as [->|[->|[->|[->|[]]]]].
  all: split; [|by vm_compute]; split; cbn [with_id df_ID df_Title df_Emoticon df_Color PinnedPeers IncludePeers ExcludePeers
    df_Entities df_flags Contacts NonContacts Groups Broadcasts Bots app].
  all: first [done|tauto|constructor|split; [done|by vm_compute]|by vm_compute].
Qed.

Section seeding.
Context (uni_lower : Z -> Z).

Definition has_title (F : gmap Z DialogFilter) (t : string) : Prop :=
  map_Exists (fun _ f => dialogFilterTitleKey uni_lower (df_Title f) = dialogFilterTitleKey uni_lower t) F.

(** The lowest id no folder has. *)
Definition free_id (F : gmap Z DialogFilter) : Z := nextAvailableDialogFilterID (shelf F).*1.

(** What seeding means: each default whose title is missing goes in at the lowest free id,
    as long as there are fewer than ten folders. *)
Fixpoint seed_book (defs : list DialogFilter) (F : gmap Z DialogFilter) (added : list Z) : gmap Z DialogFilter * list Z :=
  match defs with
  | [] => (F, added)
  | d :: defs =>
      if Z.of_nat (size F) >=? 10 then (F, added)
      else if bool_decide (has_title F (df_Title d)) then seed_book defs F added
      else seed_book defs (<[free_id F := with_id (free_id F) d]> F) (added ++ [free_id F])
  end.

Lemma next_id_same used used' : (forall x, x ∈ used <-> x ∈ used') -> nextAvailableDialogFilterID used = nextAvailableDialogFilterID used'.
Proof.
  intros H. unfold nextAvailableDialogFilterID. f_equal. induction (seqZ 2 254) as [|x l IH]; [done|]. cbn.
  rewrite (bool_decide_ext _ _ (H x)). by destruct (bool_decide (x ∈ used')).
Qed.

Lemma free_id_spec F : Z.of_nat (size F) < 10 -> 2 <= free_id F <= 255 /\ F !! free_id F = None.
Proof.
  intros Hn. unfold free_id, nextAvailableDialogFilterID. destruct (List.find _ (seqZ 2 254)) as [id|] eqn:E.
  - apply find_some in E as [Hin Hf]. apply list_elem_of_In, elem_of_seqZ in Hin. cbn.
    rewrite negb_true_iff, bool_decide_eq_false, elem_shelf_keys in Hf. split; [lia|by apply eq_None_not_Some].
  - exfalso. assert (Hsub : seqZ 2 254 ⊆+ (shelf F).*1).
    { apply NoDup_submseteq; [apply NoDup_seqZ|]. intros x Hx. pose proof (find_none _ _ E x (proj1 (list_elem_of_In _ _) Hx)) as Hf.
      cbn in Hf. by rewrite negb_false_iff, bool_decide_eq_true in Hf. }
    apply submseteq_length in Hsub. rewrite length_seqZ, length_fmap in Hsub. pose proof (shelf_len F). unfold len in *. lia.
Qed.

Lemma seed_loop_spec o s st defs : forall n used titles added s1 F,
  written s s1 o F st -> o ∈ users s -> n + len added = Z.of_nat (size F) ->
  (forall x, x ∈ used <-> is_Some (F !! x)) ->
  (forall t, t ∈ titles <-> map_Exists (fun _ f => dialogFilterTitleKey uni_lower (df_Title f) = t) F) ->
  Forall (fun d => text_ok (df_Title d) = true) defs ->
  exists s', seed_loop uni_lower o n defs used titles added s1 = Some ((seed_book defs F added).2, s') /\
    written s s' o (seed_book defs F added).1 st.
Proof.
  induction defs as [|d defs IH]; intros n used titles added s1 F Hw Hu Hn Hused Htitles Hdefs; cbn [seed_loop seed_book].
  { by exists s1. }
  apply Forall_cons in Hdefs as [Hd Hdefs]. rewrite Hn. destruct (Z.geb_spec (Z.of_nat (size F)) 10); [by exists s1|].
  rewrite (bool_decide_ext _ (has_title F (df_Title d))) by (by rewrite Htitles).
  case_bool_decide as Ht; [by apply IH|].
  assert (Eid : nextAvailableDialogFilterID used = free_id F).
  { apply next_id_same. intros x. by rewrite Hused, elem_shelf_keys. }
  rewrite Eid. destruct (free_id_spec F) as [Hid Hfree]; [lia|]. set (id := free_id F) in *.
  replace (id =? 0) with false by lia. unfold dialogFilterSmallint. replace ((id <? - 32768) || (id >? 32767)) with false by lia.
  pose proof (wr_stores _ _ _ _ _ Hw) as Hst. unfold InsertDialogFilter, row_ok.
  rewrite (exists_stored s1 o F id Hst), Hfree. rewrite (bool_decide_false (is_Some None)) by (by intros [? ?]).
  destruct (wr_world _ _ _ _ _ Hw) as (Eu & Ew). rewrite Eu, bool_decide_true by done. cbn [default_row fr_title fr_emoticon fr_color].
  rewrite Hd. replace (2 <=? id) with true by lia. replace (id <=? 255) with true by lia. cbn [andb negb].
  replace (text_ok "") with true by done. cbn [andb]. apply IH; [|done| | | |done].
  - destruct Hw as [[S1 S2 S3 S4] W2 W3 W4 W5]. split; cbn; [|done|done| |done].
    + split; cbn.
      * intros x. destruct (decide (x = id)) as [->|]; [by rewrite !lookup_insert_eq|]. rewrite !lookup_insert_ne by congruence. apply S1.
      * intros x l p. rewrite S2. destruct (decide (x = id)) as [->|]; [|by rewrite lookup_insert_ne].
        rewrite lookup_insert_eq, Hfree. cbn. unfold list_of, with_id. cbn. repeat case_match; by rewrite at_pos_nil.
      * intros x p. rewrite S3. destruct (decide (x = id)) as [->|]; [|by rewrite lookup_insert_ne].
        rewrite lookup_insert_eq, Hfree. cbn. by rewrite at_pos_nil.
      * intros x g. destruct (decide (x = id)) as [->|]; [rewrite lookup_insert_eq; by intros [= <-]|].
        rewrite lookup_insert_ne by done. apply S4.
    + intros o' Hne. destruct (W4 o' Hne) as [[Q1 Q2 Q3 Q4] Q5]. split; [|done]. split; cbn; [|done|done|done].
      intros x. rewrite lookup_insert_ne by congruence. apply Q1.
  - rewrite len_app. change (len [id]) with 1. rewrite map_size_insert_None by done. lia.
  - intros x. rewrite elem_of_cons, Hused, lookup_insert_is_Some'. naive_solver.
  - intros t. rewrite elem_of_cons, Htitles, map_Exists_insert by done. naive_solver.
Qed.

Lemma seed_book_ok defs : forall F added,
  (forall d id, d ∈ defs -> 2 <= id <= 255 -> decent (with_id id d)) ->
  (forall id f, F !! id = Some f -> decent f) -> Z.of_nat (size F) <= 10 ->
  (forall id f, (seed_book defs F added).1 !! id = Some f -> decent f) /\ Z.of_nat (size (seed_book defs F added).1) <= 10 /\
  (forall id f, F !! id = Some f -> (seed_book defs F added).1 !! id = Some f) /\
  exists new, (seed_book defs F added).2 = added ++ new /\ (shelf (seed_book defs F added).1).*1 ≡ₚ (shelf F).*1 ++ new.
Proof.
  induction defs as [|d defs IH]; intros F added Hd HF Hn; cbn [seed_book].
  { split_and!; [done|done|done|]. exists []. by rewrite !app_nil_r. }
  destruct (Z.geb_spec (Z.of_nat (size F)) 10).
  { split_and!; [done|done|done|]. exists []. by rewrite !app_nil_r. }
  assert (Hd' : forall d id, d ∈ defs -> 2 <= id <= 255 -> decent (with_id id d)).
  { intros d' id H'. apply Hd. by apply list_elem_of_further. }
  case_bool_decide; [by apply IH|]. destruct (free_id_spec F) as [Hid Hfree]; [lia|]. set (id := free_id F) in *.
  specialize (IH (<[id := with_id id d]> F) (added ++ [id]) Hd'). destruct (seed_book defs _ _) as [F' added'].
  cbn [fst snd] in *. destruct IH as (I1 & I2 & I3 & new & -> & I4).
  - intros x f. destruct (decide (x = id)) as [->|]; [rewrite lookup_insert_eq; intros [= <-]; apply Hd; [apply list_elem_of_here|done]|].
    rewrite lookup_insert_ne by done. apply HF.
  - rewrite map_size_insert_None by done. lia.
  - split_and!; [done|done| |].
    + intros x f Hx. apply I3. rewrite lookup_insert_ne; [done|]. intros ->. congruence.
    + exists (id :: new). split; [by rewrite <- app_assoc|]. rewrite I4, shelf_insert_new by done. cbn. apply Permutation_middle.
Qed.

(** Seeding, from tables in order. *)
Lemma seed_spec o e s :
  fold_ok s ->
  let st := stored_state o s in
  let out := seed_book DefaultDialogFilters (book o s) [] in
  match seed_tx uni_lower o e s with
  | (Some true, s') => defaults_seeded_at st = None /\ moved s s' o out.1 (order_ids st ++ out.2) (Some (fe_seed_at e)) (fe_change_at e)
  | (Some false, s') => is_Some (defaults_seeded_at st) /\ opened s s' o st
  | (None, s') => s' = s /\ ~ (o ∈ users s /\ o ∈ update_state s)
  end.
Proof.
  intros Hs st0 out. unfold seed_tx. destruct (beginDialogFilterMutation o s) as [[st s1]|] eqn:Eb; cycle 1.
  { split; [done|]. intros (Hu & Hus). destruct (begin_succeeds o s Hu Hus). congruence. }
  pose proof (begin_spec _ _ _ _ Eb) as Hop. pose proof (op_st _ _ _ _ Hop) as Est. unfold st0. rewrite <- Est in *.
  destruct (defaults_seeded_at st) as [t|] eqn:Esd; [by split; [eexists|]|].
  destruct (owner_read s o (fo_owner _ Hs o)) as [_ Hfi]. pose proof (oo_order _ _ (fo_owner _ Hs o)) as Ho. rewrite <- Est in *.
  pose proof (opened_written _ _ _ _ _ Hop (oo_stores _ _ (fo_owner _ Hs o))) as Hw.
  assert (Hu : o ∈ users s) by (by eapply opened_user).
  rewrite (row_ids s1 o _ (wr_stores _ _ _ _ _ Hw)), normalize_complete by done.
  assert (Hlist := list_rows s1 o _ (wr_stores _ _ _ _ _ Hw)).
  destruct (seed_loop_spec o s st DefaultDialogFilters (len (ListDialogFilters o s1)) (map fst (ListDialogFilters o s1))
    (map (fun r => dialogFilterTitleKey uni_lower (fr_title r.2)) (ListDialogFilters o s1)) [] s1 (book o s) Hw Hu)
    as (s2 & -> & Hw2).
  - change (len []) with 0. rewrite (row_count s1 o _ (wr_stores _ _ _ _ _ Hw)). lia.
  - intros x. fold (dialogFilterRowIDs (ListDialogFilters o s1)). rewrite (row_ids s1 o _ (wr_stores _ _ _ _ _ Hw)). apply elem_shelf_keys.
  - intros t. rewrite Hlist, map_map. rewrite list_elem_of_fmap. split.
    + intros ([id f] & -> & Hin%elem_shelf). by exists id, f.
    + intros (id & f & Hin & <-). exists (id, f). by rewrite elem_shelf.
  - repeat constructor.
  - fold out in Hw2 |- *. destruct (seed_book_ok DefaultDialogFilters (book o s) []) as (Hdec & _ & _ & new & Enew & Hkeys).
    { apply defaults_decent. } { apply (oo_decent _ _ (fo_owner _ Hs o)). } { apply (oo_count _ _ (fo_owner _ Hs o)). }
    fold out in Hdec, Enew, Hkeys. cbn [app] in Enew.
    assert (Hw3 : written s (MarkDialogFilterDefaultsSeeded o (fe_seed_at e) s2) o out.1 (mkFState (order_ids st) (changed_at st) (Some (fe_seed_at e)))).
    { unfold MarkDialogFilterDefaultsSeeded. destruct Hw2 as [W1 W2 W3 W4 W5]. rewrite W2. destruct st as [ord ch sd]. cbn in Esd. subst sd.
      split; cbn; [by destruct W1|apply lookup_insert_eq|done| |done]. intros o' Hne. destruct (W4 o' Hne) as [[Q1 Q2 Q3 Q4] Q5].
      rewrite lookup_insert_ne by done. split; [|done]. split; cbn; [done..|]. rewrite <- Q4. unfold stored_state. cbn. by rewrite lookup_insert_ne. }
    destruct (commit_moved s _ o _ _ (order_ids st ++ out.2) e Hw3) as (s' & -> & Hm); [|done].
    intros x. rewrite elem_of_app, Ho, elem_of_cons. intros [[->|Hx]|Hx]; [lia| |].
    + destruct Hfi as [_ Hr]. specialize (Hr x Hx). lia.
    + assert (Hin : x ∈ (shelf out.1).*1) by (rewrite Hkeys, elem_of_app, <- Enew; by right).
      apply elem_shelf_keys in Hin as [f Hf]. pose proof (sd_id _ (proj1 (Hdec x f Hf))) as Hid.
      rewrite (so_ids _ _ _ (wr_stores _ _ _ _ _ Hw2) x f Hf) in Hid. lia.
Qed.

End seeding.
