(* ===== verification/FolderChecks.v ===== *)
(** * What clients send, checked

    The checks of [messages.updateDialogFilter]: entities that mark whole runes, peers named
    once, and what a folder that passes them all is. *)

From S2P Require Import Prelude.
From S2P Require Import RateLimit.
From S2P Require Import Threads.
From S2P Require Import NetAddr.
From S2P Require Import Limits.
From S2P Require Import PeerHash.
From S2P Require Import ChannelStore.
From S2P Require Import Utf8.
From S2P Require Import Folders.
From S2P Require Import FolderApi.
From S2P Require Import FolderFacts.
From S2P Require Import FolderTx.
From stdpp Require Import list_numbers.
From Stdlib Require Import Ascii String.

Open Scope Z_scope.

(** ** Entities *)

Lemma boundaries_spec rs p q :
  Forall scalar rs -> q ∈ p :: boundaries_from p rs <-> exists a b, rs = a ++ b /\ q = p + units16 a.
Proof.
  intros Hs. revert p. induction Hs as [|r rs Hr _ IH]; intros p; cbn [boundaries_from].
  - rewrite list_elem_of_singleton. split.
    + intros ->. exists [], []. cbn. split; [done|lia].
    + intros (a & b & [-> ->]%eq_sym%app_nil & ->). cbn. lia.
  - assert (Hl : RuneLen r = (if RuneLen r =? 2 then 2 else 1)).
    { unfold scalar, RuneLen in *. repeat case_match; lia. }
    rewrite elem_of_cons, IH. split.
    + intros [->|(a & b & -> & ->)]; [exists [], (r :: rs); cbn; split; [done|lia]|].
      exists (r :: a), b. rewrite units16_cons. split; [done|lia].
    + intros ([|r' a] & b & E & ->); [left; cbn; lia|right]. cbn in E. simplify_eq. exists a, b. rewrite units16_cons. split; [done|lia].
Qed.

Lemma units16_app a b : units16 (a ++ b) = units16 a + units16 b.
Proof. induction a as [|r a IH]; [done|]. cbn [app]. rewrite !units16_cons, IH. lia. Qed.

(** Cut points in code units determine the runes before them. *)
Lemma units16_prefix a b a' b' : a ++ b = a' ++ b' -> units16 a <= units16 a' -> exists m, a' = a ++ m /\ b = m ++ b'.
Proof.
  revert a'. induction a as [|r a IH]; intros a' E Hle.
  - by exists a'.
  - destruct a' as [|r' a'].
    + exfalso. rewrite units16_cons in Hle. pose proof (units16_nonneg a). change (units16 []) with 0 in Hle. destruct (RuneLen r =? 2); lia.
    + cbn in E. simplify_eq. rewrite !units16_cons in Hle. destruct (IH a') as (m & -> & ->); [done|lia|]. by exists m.
Qed.

Lemma bytes_of_octets s : Forall octet (bytes_of s).
Proof.
  induction s as [|c s IH]; constructor; [|done]. unfold octet. pose proof (N_ascii_bounded c). lia.
Qed.

(** An entity is accepted exactly when it marks whole runes of the title: some runes before
    it, at least one inside, counted in code units, and names a document. *)
Lemma entity_spec text x e :
  ValidString (bytes_of text) = true ->
  let rs := runes (bytes_of text) in
  entity_ok (units16 rs) (0 :: boundaries_from 0 rs) x = Some e <->
  x = MessageEntityCustomEmoji (en_Offset e) (en_Length e) (en_DocumentID e) /\ spanned text e /\ 0 < en_DocumentID e.
Proof.
  intros Hv rs. destruct (valid_runes _ (bytes_of_octets text) Hv) as [_ Hs]. fold rs in Hs. unfold spanned. fold rs.
  assert (Hb : forall q, q ∈ 0 :: boundaries_from 0 rs <-> exists a b, rs = a ++ b /\ q = units16 a).
  { intros q. rewrite boundaries_spec by done. split; intros (a & b & ? & ->); exists a, b; (split; [done|lia]). }
  destruct x as [o l d|]; cbn [entity_ok]; [|split; [done|by intros [? _]]].
  destruct ((o <? 0) || (l <=? 0) || (l >? units16 rs) || (o >? units16 rs - l) || (d <=? 0)) eqn:Er.
  { split; [done|]. intros ([= -> -> ->] & (a & b & c & E & Hne & Ho & Hl) & Hd). exfalso. rewrite E, !units16_app in Er.
    pose proof (units16_nonneg a). pose proof (units16_pos b Hne). pose proof (units16_nonneg c). lia. }
  destruct (bool_decide_reflect (o ∈ 0 :: boundaries_from 0 rs)) as [H1|H1]; cbn [negb]; cycle 1.
  { split; [done|]. intros ([= -> -> ->] & (a & b & c & E & _ & Ho & _) & _). destruct H1. apply Hb. exists a, (b ++ c). by rewrite <- Ho. }
  destruct (bool_decide_reflect (o + l ∈ 0 :: boundaries_from 0 rs)) as [H2|H2]; cbn [negb]; cycle 1.
  { split; [done|]. intros ([= -> -> ->] & (a & b & c & E & _ & Ho & Hl) & _). destruct H2. apply Hb. exists (a ++ b), c.
    rewrite <- app_assoc, units16_app. split; [done|lia]. }
  split.
  - intros [= <-]. cbn. split_and!; [done| |lia]. apply Hb in H1 as (a & b & E & ->). apply Hb in H2 as (a' & c & E' & Ea').
    destruct (units16_prefix a b a' c) as (m & -> & ->); [congruence|lia|]. exists a, m, c.
    rewrite units16_app in Ea'. split_and!; [done| |done|lia]. intros ->. cbn in Ea'. lia.
  - intros ([= -> -> ->] & _ & _). by destruct e.
Qed.

(** A title's entities are accepted exactly when each of them marks whole runes of the title,
    counted in UTF-16 code units, and names a document. *)
Theorem title_entities_exact text xs es :
  ValidString (bytes_of text) = true ->
  validateDialogFilterEntities text xs = Ok es <->
  xs = map (fun e => MessageEntityCustomEmoji (en_Offset e) (en_Length e) (en_DocumentID e)) es /\
  Forall (fun e => spanned text e /\ 0 < en_DocumentID e) es.
Proof.
  intros Hv. unfold validateDialogFilterEntities. set (f := entity_ok _ _).
  assert (Hf : forall x e, f x = Some e <-> x = MessageEntityCustomEmoji (en_Offset e) (en_Length e) (en_DocumentID e) /\
    spanned text e /\ 0 < en_DocumentID e) by (intros; by apply entity_spec).
  assert (H : mapM f xs = Some es <-> xs = map (fun e => MessageEntityCustomEmoji (en_Offset e) (en_Length e) (en_DocumentID e)) es /\
    Forall (fun e => spanned text e /\ 0 < en_DocumentID e) es).
  { rewrite mapM_Some. split.
    - induction 1 as [|x e xs es Hx _ IH]; [by split|]. apply Hf in Hx as [-> ?]. destruct IH as [-> ?]. split; [done|by constructor].
    - intros [-> He]. induction He as [|e es Hx _ IH]; constructor; [by apply Hf|done]. }
  rewrite <- H. destruct (mapM f xs); naive_solver.
Qed.

(** ** Peers *)

Lemma normalize_spec seen peers :
  NoDup (normalize seen peers).2 /\ (forall p, p ∈ (normalize seen peers).2 -> p ∉ seen) /\
  (forall p, p ∈ (normalize seen peers).1 <-> p ∈ seen \/ p ∈ (normalize seen peers).2) /\
  (forall p, p ∈ (normalize seen peers).2 <-> p ∈ peers /\ p ∉ seen).
Proof.
  revert seen. induction peers as [|p peers IH]; intros seen; cbn [normalize].
  { split_and!; [constructor|..]; set_solver. }
  case_bool_decide as Hp.
  - destruct (IH seen) as (I1 & I2 & I3 & I4). split_and!; [done|done|done|]. intros q. rewrite I4, elem_of_cons. naive_solver.
  - specialize (IH (p :: seen)). destruct (normalize (p :: seen) peers) as [seen' out]. cbn [fst snd] in *.
    destruct IH as (I1 & I2 & I3 & I4). split_and!.
    + constructor; [|done]. intros H. apply (I2 p H), list_elem_of_here.
    + intros q [->|Hq]%elem_of_cons; [done|]. intros H. by apply (I2 q Hq), list_elem_of_further.
    + intros q. rewrite I3, !elem_of_cons. tauto.
    + intros q. rewrite !elem_of_cons, I4, elem_of_cons. destruct (decide (q = p)); naive_solver.
Qed.

(** Every peer goes where it is named first. *)
Lemma normalize_lists_spec pinned included excluded :
  let '(p, i, x) := normalizeDialogFilterPeers pinned included excluded in
  NoDup (p ++ i ++ x) /\ (forall q, q ∈ p <-> q ∈ pinned) /\ (forall q, q ∈ i <-> q ∈ included /\ q ∉ pinned) /\
  (forall q, q ∈ x <-> q ∈ excluded /\ q ∉ pinned /\ q ∉ included).
Proof.
  unfold normalizeDialogFilterPeers. pose proof (normalize_spec [] pinned) as (P1 & _ & P3 & P4).
  destruct (normalize [] pinned) as [seen p]. cbn [fst snd] in *.
  pose proof (normalize_spec seen included) as (I1 & I2 & I3 & I4). destruct (normalize seen included) as [seen' i]. cbn [fst snd] in *.
  pose proof (normalize_spec seen' excluded) as (X1 & X2 & X3 & X4). destruct (normalize seen' excluded) as [seen'' x]. cbn [fst snd] in *.
  assert (Hs : forall q, q ∈ seen <-> q ∈ pinned) by (intros q; rewrite P3, P4; set_solver).
  assert (Hs' : forall q, q ∈ seen' <-> q ∈ pinned \/ q ∈ included) by (intros q; rewrite I3, I4, Hs; destruct (decide (q ∈ pinned)); tauto).
  split_and!.
  - apply NoDup_app. split_and!; [done| |apply NoDup_app; split_and!; [done| |done]].
    + intros q Hq [Hi|Hx]%elem_of_app; [apply (I2 q Hi), Hs, P4, Hq|apply (X2 q Hx), Hs'; left; by apply P4].
    + intros q Hi Hx. apply (X2 q Hx), I3. by right.
  - intros q. rewrite P4. set_solver.
  - intros q. by rewrite I4, Hs.
  - intros q. rewrite X4, Hs'. tauto.
Qed.

(** ** A folder that passes *)

Lemma check_title_spec f es :
  check_title f = Ok es ->
  tf_Text f <> ""%string /\ ValidString (bytes_of (tf_Text f)) = true /\ RuneCountInString (bytes_of (tf_Text f)) <= 12 /\
  len es <= 12 /\ Forall (fun e => spanned (tf_Text f) e /\ 0 < en_DocumentID e) es /\
  tf_Entities f = map (fun e => MessageEntityCustomEmoji (en_Offset e) (en_Length e) (en_DocumentID e)) es /\
  len (bytes_of (default ""%string (tf_Emoticon f))) <= 64.
Proof.
  unfold check_title. destruct (String.eqb_spec (tf_Text f) ""); [done|].
  destruct (ValidString (bytes_of (tf_Text f))) eqn:Hv; [|done]. cbn [negb orb].
  destruct (Z.gtb_spec (RuneCountInString (bytes_of (tf_Text f))) 12); [done|].
  destruct (Z.gtb_spec (len (tf_Entities f)) maxDialogFilterEntities) as [|Hl]; [done|]. unfold maxDialogFilterEntities in Hl.
  destruct (validateDialogFilterEntities _ _) as [es'|] eqn:Hx; [|done].
  destruct (Z.gtb_spec (len (bytes_of (default ""%string (tf_Emoticon f)))) 64); [done|]. case_match; [done|]. intros [= <-].
  apply title_entities_exact in Hx as [E He]; [|done]. rewrite E in Hl. unfold len in Hl. rewrite length_map in Hl.
  split_and!; try done; lia.
Qed.

Lemma definition_sendable ID f es lists d :
  2 <= ID <= 255 -> check_title f = Ok es -> definition_of ID f es lists = Ok d -> sendable d /\ df_ID d = ID.
Proof.
  intros Hid (T1 & T2 & T3 & T4 & T5 & _ & T6)%check_title_spec. unfold definition_of. destruct lists as [[pinned included] excluded].
  pose proof (normalize_lists_spec pinned included excluded) as Hn.
  destruct (normalizeDialogFilterPeers pinned included excluded) as [[p i] x]. destruct Hn as (Hn & _).
  unfold maxDialogFilterPeers. destruct ((len p + len i >? 100) || (len x >? 100)) eqn:El; [done|].
  destruct (negb _ && _ && _ && _ && _ && _) eqn:Ef; [done|]. intros [= <-]. split; [|done]. split; cbn; try done; try lia.
  - intros c Hc. destruct (tf_Color f) as [c'|]; [|done]. destruct ((0 <=? c') && (c' <=? 6)) eqn:Ec; [|done]. simplify_eq. lia.
  - destruct (Contacts (tf_flags f)), (NonContacts (tf_flags f)), (Groups (tf_flags f)), (Broadcasts (tf_flags f)), (Bots (tf_flags f)); try tauto.
    cbn [negb andb] in Ef. do 5 right. intros [-> ->]%app_nil. done.
Qed.
