(* ===== verification/FolderRuns.v ===== *)
(** * Folders in every run

    Any number of requests on folders run at once, with the store failing where it likes and
    accounts and memberships changing under them.  The abstract specification is a shelf per
    owner: the folders by id, their order, and whether the defaults were put in. *)

From S2P Require Import Prelude.
From S2P Require Import RateLimit.
From S2P Require Import Threads.
From S2P Require Import NetAddr.
From S2P Require Import Limits.
From S2P Require Import PeerHash.
From S2P Require Import ChannelStore.
From S2P Require Import Utf8.
From S2P Require Import Folders.
From S2P Require Import FolderApi.
From S2P Require Import FolderFacts.
From S2P Require Import FolderTx.
From S2P Require Import FolderChecks.
From stdpp Require Import list_numbers.
From Stdlib Require Import Ascii String.

Open Scope Z_scope.

(** ** The abstract shelf *)

Record view : Type := mkView { v_folders : gmap Z DialogFilter; v_order : list Z; v_seeded : bool }.

(** What an owner reads. *)
Definition view_of (o : Z) (s : folders) : view :=
  mkView (book o s) (sn_Order (readDialogFilters o s)) (DialogFilterDefaultsSeeded o s).

Section runs.
Context (key : list Z) (uni_lower : Z -> Z) (uni_fold : Z -> Z -> bool).

Inductive view_step : view -> view -> Prop :=
| vs_save F order seeded f :
    decent f -> is_Some (F !! df_ID f) \/ Z.of_nat (size F) < 10 ->
    view_step (mkView F order seeded) (mkView (<[df_ID f := f]> F) (order_with (df_ID f) order) seeded)
| vs_delete F order seeded id :
    is_Some (F !! id) -> view_step (mkView F order seeded) (mkView (delete id F) (without id order) seeded)
| vs_order F order order' seeded :
    order' ≡ₚ order -> order' <> order -> view_step (mkView F order seeded) (mkView F order' seeded)
| vs_seed F order :
    view_step (mkView F order false)
      (mkView (seed_book uni_lower DefaultDialogFilters F []).1
              (order ++ (seed_book uni_lower DefaultDialogFilters F []).2) true).

(** A step of the system: one owner's shelf takes a step, its marker is set and it is told
    once; or nobody's shelf and marker change and nobody is told. *)
Definition folder_move (s s' : folders) : Prop :=
  (exists o, view_step (view_of o s) (view_of o s') /\ is_Some (DialogFilterChangeAt o s') /\
     notified s' = notified s ++ [o] /\
     forall o', o' <> o -> view_of o' s' = view_of o' s /\ DialogFilterChangeAt o' s' = DialogFilterChangeAt o' s) \/
  (notified s' = notified s /\
   forall o, view_of o s' = view_of o s /\ DialogFilterChangeAt o s' = DialogFilterChangeAt o s).

(** ** Every transaction is a move *)

Lemma view_eq o s : fold_ok s ->
  view_of o s = mkView (book o s) (order_ids (stored_state o s)) (bool_decide (is_Some (defaults_seeded_at (stored_state o s)))).
Proof.
  intros Hs. unfold view_of. destruct (owner_read s o (fo_owner _ Hs o)) as [-> _]. cbn [sn_Order]. f_equal.
  unfold DialogFilterDefaultsSeeded, stored_state. by destruct (user_dialog_filter_state s !! o).
Qed.

Lemma change_at_eq o s : DialogFilterChangeAt o s = changed_at (stored_state o s).
Proof. unfold DialogFilterChangeAt, stored_state. by destruct (user_dialog_filter_state s !! o). Qed.

Lemma same_view o s s' : fold_ok s -> fold_ok s' -> same_owner o s s' ->
  view_of o s' = view_of o s /\ DialogFilterChangeAt o s' = DialogFilterChangeAt o s.
Proof.
  intros Hs Hs' Hw. rewrite !view_eq, !change_at_eq, (sw_state _ _ _ Hw) by done. split; [|done].
  by rewrite (stores_book s' o (book o s)) by (eapply same_stores; [done|apply (oo_stores _ _ (fo_owner _ Hs o))]).
Qed.

Lemma moved_move s s' o F order seeded at_ :
  fold_ok s -> fold_ok s' -> moved s s' o F order seeded at_ ->
  view_step (view_of o s) (mkView F order (bool_decide (is_Some seeded))) -> folder_move s s'.
Proof.
  intros Hs Hs' Hm Hst. left. exists o. destruct Hm as [M1 M2 M3 M4 _]. split_and!.
  - rewrite (view_eq o s') by done. rewrite (stores_book s' o F) by done. unfold stored_state. by rewrite M2.
  - rewrite change_at_eq. unfold stored_state. rewrite M2. by eexists.
  - done.
  - intros o' Hne. by apply same_view; [..|apply M4].
Qed.

Lemma opened_ok s s' o st : fold_ok s -> opened s s' o st -> fold_ok s'.
Proof.
  intros Hs Hop. pose proof (opened_user _ _ _ _ Hs Hop) as Hu. destruct Hop as [O1 O2 O3 O4 _ O6 [O7 _]]. split.
  - intros o' Ho'. rewrite O7. destruct (decide (o' = o)) as [->|Hne]; [done|]. apply (fo_users _ Hs). by rewrite <- O4.
  - intros o'. by eapply same_ok, (fo_owner _ Hs o').
Qed.

Lemma opened_move s s' o st : fold_ok s -> opened s s' o st -> folder_move s s'.
Proof.
  intros Hs Hop. pose proof (opened_ok _ _ _ _ Hs Hop) as Hs'. right. split; [apply Hop|]. intros o'.
  apply same_view; [done|done|apply Hop].
Qed.

Lemma move_refl s : folder_move s s.
Proof. by right. Qed.

(** What a transaction must do. *)
Definition good_tx (s s' : folders) : Prop := fold_ok s' /\ folder_move s s'.

Lemma good_refl s : fold_ok s -> good_tx s s.
Proof. intros. split; [done|apply move_refl]. Qed.

Lemma save_good o f e s : fold_ok s -> sendable f -> good_tx s (SaveDialogFilter o f e s).2.
Proof.
  intros Hs Hf. pose proof (save_spec o f e s Hs Hf) as H. destruct (SaveDialogFilter o f e s) as [[[]|] s']; cbn.
  - destruct H as [-> _]. by apply good_refl.
  - destruct H as [-> _]. by apply good_refl.
  - pose proof (saved_folder_ok _ _ _ _ _ Hs H) as Hs'. split; [done|]. destruct H as (Hd & Hc & _ & Hm).
    eapply moved_move; [done..|]. rewrite view_eq by done. by constructor.
Qed.

Lemma delete_good o id e s : fold_ok s -> good_tx s (DeleteDialogFilter o id e s).2.
Proof.
  intros Hs. pose proof (delete_spec o id e s Hs) as H. destruct (DeleteDialogFilter o id e s) as [[[]|] s'] eqn:E; cbn.
  - destruct H as [Hin Hm]. assert (Hu : o ∈ users s).
    { unfold DeleteDialogFilter in E. destruct (_ || _); [done|]. destruct (beginDialogFilterMutation o s) as [[st s1]|] eqn:Eb; [|done].
      by eapply opened_user, begin_spec. }
    destruct (owner_read s o (fo_owner _ Hs o)) as [_ Hfi].
    assert (Hs' : fold_ok s').
    { eapply moved_ok; [done|done|done| | |].
      - intros x f [_ Hf]%lookup_delete_Some. by eapply (oo_decent _ _ (fo_owner _ Hs o)).
      - pose proof (oo_count _ _ (fo_owner _ Hs o)). rewrite map_size_delete_Some by done. lia.
      - rewrite shelf_delete. unfold without. rewrite (oo_order _ _ (fo_owner _ Hs o)). cbn.
        destruct Hfi as [_ Hr]. specialize (Hr id (proj2 (elem_shelf_keys _ _) Hin)). by replace (0 =? id) with false by lia. }
    split; [done|]. eapply moved_move; [done..|]. rewrite view_eq by done. by constructor.
  - destruct H as [_ Hop]. split; [by eapply opened_ok|by eapply opened_move].
  - destruct H as [-> _]. by apply good_refl.
Qed.

Lemma reorder_good o requested e s : fold_ok s -> good_tx s (UpdateDialogFilterOrder o requested e s).2.
Proof.
  intros Hs. pose proof (reorder_spec o requested e s Hs) as H. cbv zeta in H.
  destruct (UpdateDialogFilterOrder o requested e s) as [[[]|] s'] eqn:E; cbn.
  - destruct H as (Hne & Hp & Hm). assert (Hu : o ∈ users s).
    { unfold UpdateDialogFilterOrder in E. destruct (beginDialogFilterMutation o s) as [[st s1]|] eqn:Eb; [|done].
      by eapply opened_user, begin_spec. }
    assert (Hs' : fold_ok s').
    { eapply moved_ok; [done|done|done|apply (oo_decent _ _ (fo_owner _ Hs o))|apply (oo_count _ _ (fo_owner _ Hs o))|].
      rewrite Hp. apply (oo_order _ _ (fo_owner _ Hs o)). }
    split; [done|]. eapply moved_move; [done..|]. rewrite view_eq by done. by constructor.
  - destruct H as [_ Hop]. split; [by eapply opened_ok|by eapply opened_move].
  - destruct H as [-> _]. by apply good_refl.
Qed.

Lemma seed_good o e s : fold_ok s -> good_tx s (seed_tx uni_lower o e s).2.
Proof.
  intros Hs. pose proof (seed_spec uni_lower o e s Hs) as H. cbv zeta in H.
  destruct (seed_tx uni_lower o e s) as [[[]|] s'] eqn:E; cbn.
  - destruct H as (Hsd & Hm). assert (Hu : o ∈ users s).
    { unfold seed_tx in E. destruct (beginDialogFilterMutation o s) as [[st s1]|] eqn:Eb; [|done]. by eapply opened_user, begin_spec. }
    destruct (seed_book_ok uni_lower DefaultDialogFilters (book o s) []) as (B1 & B2 & _ & new & B3 & B4).
    { apply defaults_decent. } { apply (oo_decent _ _ (fo_owner _ Hs o)). } { apply (oo_count _ _ (fo_owner _ Hs o)). }
    assert (Hs' : fold_ok s').
    { eapply moved_ok; [done|done|done|done|done|]. rewrite B4, B3, (oo_order _ _ (fo_owner _ Hs o)). done. }
    split; [done|]. eapply moved_move; [done..|]. rewrite view_eq by done. rewrite Hsd. cbn. constructor.
  - destruct H as [_ Hop]. split; [by eapply opened_ok|by eapply opened_move].
  - destruct H as [-> _]. by apply good_refl.
Qed.

(** Steps that do not touch the folders. *)
Lemma world_good s s' :
  fold_ok s -> users s ⊆ users s' -> user_dialog_filter_state s' = user_dialog_filter_state s ->
  user_dialog_filters s' = user_dialog_filters s -> user_dialog_filter_peers s' = user_dialog_filter_peers s ->
  user_dialog_filter_entities s' = user_dialog_filter_entities s -> notified s' = notified s -> good_tx s s'.
Proof.
  intros Hs Hu H1 H2 H3 H4 H5. assert (Hw : forall o, same_owner o s s').
  { intros o. split; [by rewrite H2|by rewrite H3|by rewrite H4|]. unfold stored_state. by rewrite H1. }
  assert (Hs' : fold_ok s').
  { split; [|intros o; by eapply same_ok, (fo_owner _ Hs o)]. intros o Ho. rewrite H1 in Ho. by apply Hu, (fo_users _ Hs). }
  split; [done|]. right. split; [done|]. intros o. by apply same_view.
Qed.

(** ** Programs *)

Notation fprog := (prog folders fold_env folder_reply).

Definition fine (p : fprog) : Prop := safe fold_ok folder_move (fun _ => True) (fun _ => True) p.

Lemma fine_ret r : fine (Ret r).
Proof. done. Qed.

Lemma fine_call {A} (op : fold_env -> folders -> A * folders) k :
  (forall e s, fold_ok s -> good_tx s (op e s).2) -> (forall a, fine (k a)) -> fine (fcall op k).
Proof.
  intros Hop Hk. apply safe_store_call; [apply move_refl|done| |apply Hk]. intros e s _ Hs _.
  destruct (Hop e s Hs) as [? ?]. split_and!; [done|done|]. exists (fun _ => True). split; [done|apply Hk].
Qed.

Lemma fine_read {A} (op : fold_env -> folders -> A) k : (forall a, fine (k a)) -> fine (fcall (fun e s => (op e s, s)) k).
Proof. intros Hk. apply fine_call; [|done]. intros e s Hs. by apply good_refl. Qed.

Lemma fine_clock k : (forall n, fine (k n)) -> fine (clock_now k).
Proof. intros Hk. split; [done|]. intros e s _ Hs _. split_and!; [done|apply move_refl|]. exists (fun _ => True). split; [done|apply Hk]. Qed.

Lemma fine_ask ids q k : (forall a, fine (k a)) -> fine (ask ids q k).
Proof. intros Hk. unfold ask. destruct ids; [apply Hk|]. by apply (fine_read (fun _ s => q s)). Qed.

Lemma fine_accessible o peers now k : (forall a, fine (k a)) -> fine (AccessibleDialogFilterPeers o peers now k).
Proof.
  intros Hk. unfold AccessibleDialogFilterPeers. apply fine_ask. intros [us|]; [|apply Hk]. apply fine_ask.
  intros [cs|]; [|apply Hk]. apply fine_ask. intros [chs|]; apply Hk.
Qed.

Lemma fine_limit r k : (forall a, fine (k a)) -> fine (checkDialogFilterRateLimit r k).
Proof.
  intros Hk. apply fine_call; [|intros [[]|]; apply Hk]. intros e s Hs. unfold charge_limit.
  destruct (CheckRateLimit _ _ _ _ _ _) as [a t]. by apply world_good.
Qed.

Lemma fine_lists r f k : (forall a, fine (k a)) -> fine (dialogFilterPeerLists key r f k).
Proof.
  intros Hk. unfold dialogFilterPeerLists. repeat (case_match; [|apply Hk]). apply fine_clock. intros now. apply fine_accessible.
  intros [acc|]; [|apply Hk]. case_match; apply Hk.
Qed.

Lemma fine_program q : fine (folder_program key uni_lower uni_fold q).
Proof.
  destruct q as [r p|r ID f|r order|r p|us sts chats channels]; cbn [folder_program].
  - unfold handleGetDialogFilters. case_match; [done|]. unfold SeedDefaultDialogFilters.
    assert (Hrest : forall a : option bool, fine match a with
      | None => Ret (FoError errInternal)
      | Some _ => fcall (fun _ s => (readDialogFilters (r_UserID r) s, s)) (fun a =>
          match a with
          | None => Ret (FoError errInternal)
          | Some snapshot => clock_now (fun now => AccessibleDialogFilterPeers (r_UserID r) (snapshot_peers snapshot) now (fun a =>
              match a with
              | None => Ret (FoError errInternal)
              | Some accessible => Ret (FoFilters (filters_answer key snapshot accessible (r_UserID r)))
              end))
          end)
      end).
    { intros [b|]; [|done]. apply (fine_read (fun _ s => readDialogFilters (r_UserID r) s)). intros [sn|]; [|done].
      apply fine_clock. intros now. apply fine_accessible. by intros [acc|]. }
    apply (fine_read (fun _ s => DialogFilterDefaultsSeeded (r_UserID r) s)). intros [[]|]; [apply (Hrest (Some false))| |apply (Hrest None)].
    apply fine_call; [intros; by apply seed_good|]. intros [[b|]|]; [apply (Hrest (Some b))|apply (Hrest None)..].
  - unfold handleUpdateDialogFilter. case_match; [done|]. apply fine_limit. intros [x|]; [done|].
    destruct ((ID <? 2) || (ID >? 255)) eqn:Hid; [done|]. destruct f as [[f| |]|]; [|done|done|].
    + case_match; [done|]. destruct (check_title f) as [es|] eqn:Ht; [|done]. apply fine_lists. intros [lists|]; [|done].
      destruct (definition_of ID f es lists) as [d|] eqn:Ed; [|done]. apply fine_call; [|by intros [[[]|]|]].
      intros e s Hs. apply save_good; [done|]. eapply definition_sendable; [|done|done]. lia.
    + apply fine_call; [intros; by apply delete_good|]. by intros [[]|].
  - unfold handleUpdateDialogFiltersOrder. case_match; [done|]. apply fine_limit. intros [x|]; [done|]. case_match; [done|].
    apply fine_call; [intros; by apply reorder_good|]. by intros [[]|].
  - unfold handleGetSuggestedDialogFilters. case_match; [done|].
    apply (fine_read (fun _ s => sn_Filters (readDialogFilters (r_UserID r) s))). by intros [existing|].
  - split; [done|]. intros e s _ Hs _. destruct (world_good s (elsewhere us sts chats channels s)) as [? ?]; [done|cbn; set_solver|done..|].
    split_and!; [done|done|]. by exists (fun _ => True).
Qed.

(** ** The theorems *)

Definition folder_starts (p : fprog) : Prop := exists q, p = folder_program key uni_lower uni_fold q.

(** The moments of a run from [s0]. *)
Definition folder_run (s0 : folders) : folders * list fprog -> Prop := pool_reach folder_starts (fun _ => True) s0.

Lemma folder_run_inv s0 c : fold_ok s0 -> folder_run s0 c -> pool_inv fold_ok folder_move (fun _ => True) c.
Proof.
  intros H0. apply pool_reach_inv; [|done]. intros p [q ->]. exists (fun _ => True). split; [done|apply fine_program].
Qed.

(** C10 (refinement).  The four tables implement one shelf per owner: however requests interleave and whichever
    calls fail, a step of the system is one step of one owner's shelf, with the marker set
    and that owner told exactly once, or changes what nobody reads and tells nobody. *)
Theorem folders_refine s0 c c' :
  fold_ok s0 -> folder_run s0 c -> pool_step folder_starts (fun _ => True) c c' -> folder_move c.1 c'.1.
Proof. intros H0 Hr. apply (pool_step_guar fold_ok); [apply move_refl|by apply (folder_run_inv s0)]. Qed.

(** C26 (invariant).  At every moment of every run an owner reads at most ten folders, each with an id of its
    own between 2 and 255, in an order that has every one of them and All chats exactly once;
    each folder has a title of one to twelve runes with marks on whole runes, lists that name
    a peer once and keep within their limits, and includes something. *)
Theorem folders_in_order s0 c o :
  fold_ok s0 -> folder_run s0 c ->
  let sn := readDialogFilters o c.1 in
  len (sn_Filters sn) <= 10 /\ NoDup (map df_ID (sn_Filters sn)) /\ sn_Order sn ≡ₚ 0 :: map df_ID (sn_Filters sn) /\
  Forall decent (sn_Filters sn).
Proof.
  intros H0 Hr. destruct (folder_run_inv s0 c H0 Hr) as [Hs _]. destruct (owner_read c.1 o (fo_owner _ Hs o)) as [-> Hfi].
  pose proof (fo_owner _ Hs o) as [O1 O2 O3 O4]. cbv zeta. cbn [sn_Filters sn_Order].
  assert (Hids : map df_ID (map snd (shelf (book o c.1))) = (shelf (book o c.1)).*1).
  { rewrite map_map. apply map_ext_in. intros [id f] H%list_elem_of_In%elem_shelf. by eapply so_ids. }
  rewrite Hids. split_and!; [|apply Hfi|done|].
  - pose proof (shelf_len (book o c.1)). unfold len in *. rewrite length_map. lia.
  - apply Forall_forall. intros f ([id g] & -> & H%elem_shelf)%list_elem_of_fmap. by eapply O2.
Qed.

End runs.
