(* ===== verification/FolderExact.v ===== *)
(** * One folder request alone

    With nothing failing and nobody else running: what [messages.getDialogFilters] answers,
    and that a folder comes back as it was sent. *)

From S2P Require Import Prelude.
From S2P Require Import NetAddr.
From S2P Require Import RateLimit.
From S2P Require Import Threads.
From S2P Require Import Limits.
From S2P Require Import PeerHash.
From S2P Require Import ChannelStore.
From S2P Require Import Utf8.
From S2P Require Import Folders.
From S2P Require Import FolderApi.
From S2P Require Import FolderFacts.
From S2P Require Import FolderTx.
From S2P Require Import FolderChecks.
From S2P Require Import FolderRuns.
From stdpp Require Import list_numbers.
From Stdlib Require Import Ascii String.

Open Scope Z_scope.

(** ** Whom a folder may show *)

Definition reachable (o now : Z) (s : folders) (p : DialogFilterPeer) : bool :=
  match fp_Type p with
  | PeerTypeUser => bool_decide (fp_ID p ∈ users s)
  | PeerTypeChat => bool_decide ((fp_ID p, o) ∈ chat_participants s)
  | PeerTypeChannel =>
      match channel_members s !! (fp_ID p, o) with
      | None => false
      | Some row => negb (Banned (channelMemberFromRow o row) now)
      end
  end.

(** The folder with the peers its owner cannot reach left out. *)
Definition trimmed (o now : Z) (s : folders) (f : DialogFilter) : DialogFilter :=
  mkFilter (df_ID f) (df_Title f) (df_Entities f) (df_Emoticon f) (df_Color f) (df_flags f)
    (List.filter (reachable o now s) (PinnedPeers f)) (List.filter (reachable o now s) (IncludePeers f))
    (List.filter (reachable o now s) (ExcludePeers f)).

Definition found (o now : Z) (s : folders) (peers : list DialogFilterPeer) : list DialogFilterPeer :=
  users_query (ids_of PeerTypeUser peers) s ++ chats_query o (ids_of PeerTypeChat peers) s ++
  channels_query o now (ids_of PeerTypeChannel peers) s.

Lemma elem_ids_of t peers id : id ∈ ids_of t peers <-> mkFPeer t id ∈ peers.
Proof.
  unfold ids_of. rewrite elem_of_remove_dups, list_elem_of_fmap. split.
  - intros ([t' i] & -> & [Hp Ht%bool_decide_eq_true]%elem_bfilter). cbn in *. by subst.
  - intros H. exists (mkFPeer t id). split; [done|]. apply elem_bfilter. split; [done|]. by apply bool_decide_eq_true_2.
Qed.

Lemma elem_mapped t (f : Z -> bool) ids p :
  p ∈ map (mkFPeer t) (List.filter f ids) <-> fp_Type p = t /\ fp_ID p ∈ ids /\ f (fp_ID p) = true.
Proof.
  rewrite list_elem_of_fmap. split.
  - by intros (id & -> & [Hi Hf]%elem_bfilter).
  - destruct p as [t' id]. cbn. intros (-> & Hi & Hf). exists id. split; [done|by apply elem_bfilter].
Qed.

Lemma elem_found o now s peers p : p ∈ found o now s peers <-> p ∈ peers /\ reachable o now s p = true.
Proof.
  unfold found, users_query, chats_query, channels_query. rewrite !elem_of_app, !elem_mapped, !elem_ids_of.
  destruct p as [t id]. unfold reachable. cbn [fp_Type fp_ID]. split.
  - intros [(-> & ? & ?)|[(-> & ? & ?)|(-> & ? & ?)]]; done.
  - intros [Hp Hr]. destruct t; naive_solver.
Qed.

Lemma cut_found o now s peers f :
  (forall p, p ∈ PinnedPeers f ++ IncludePeers f ++ ExcludePeers f -> p ∈ peers) ->
  cut_filter (found o now s peers) f = trimmed o now s f.
Proof.
  intros Hin. unfold cut_filter, trimmed, accessibleDialogFilterPeers.
  assert (H : forall l, (forall p, p ∈ l -> p ∈ peers) ->
    List.filter (fun p => bool_decide (p ∈ found o now s peers)) l = List.filter (reachable o now s) l).
  { intros l Hl. apply List.filter_ext_in. intros p Hp%list_elem_of_In. apply eq_iff_eq_true. rewrite bool_decide_eq_true, elem_found.
    specialize (Hl p Hp). tauto. }
  f_equal; apply H; intros p Hp; apply Hin; rewrite !elem_of_app; tauto.
Qed.

Section exact.
Context (key : list Z).

(** Nothing fails, and the server's clock stands at [now]. *)
Definition calm (now : Z) (e : fold_env) : Prop := fe_fault e = NoFault /\ fe_clock e = now.

Lemma wp_fcall {A} now (op : fold_env -> folders -> A * folders) (k : option A -> prog folders fold_env folder_reply) s Q :
  (forall e, calm now e -> wp (calm now) (k (Some (op e s).1)) (op e s).2 Q) -> wp (calm now) (fcall op k) s Q.
Proof. intros H e He. unfold fcall, store_call. cbn. rewrite (proj1 He). by apply H. Qed.

Lemma wp_ask now ids q k s Q :
  (ids = [] -> q s = []) -> wp (calm now) (k (Some (q s))) s Q -> wp (calm now) (ask ids q k) s Q.
Proof. intros He H. unfold ask. destruct ids; [by rewrite He in H|]. by apply wp_fcall. Qed.

Lemma wp_accessible now o peers k s Q :
  wp (calm now) (k (Some (found o now s peers))) s Q -> wp (calm now) (AccessibleDialogFilterPeers o peers now k) s Q.
Proof.
  intros H. unfold AccessibleDialogFilterPeers. apply wp_ask; [by intros ->|]. apply wp_ask; [by intros ->|].
  by apply wp_ask; [by intros ->|].
Qed.

Lemma wp_clock now k s Q : wp (calm now) (k now) s Q -> wp (calm now) (clock_now k) s Q.
Proof. intros H e He. by rewrite (proj2 He). Qed.

(** ** The answer *)

(** What stands for an id of the order. *)
Definition shown (o now : Z) (s : folders) (id : Z) : DialogFilterClass :=
  match book o s !! id with
  | Some f => TLDialogFilter (dialogFilterToTL key (trimmed o now s f) o)
  | None => TLDialogFilterDefault
  end.

Lemma find_shelf F (g : DialogFilter -> DialogFilter) id :
  (forall i f, F !! i = Some f -> df_ID f = i) -> (forall f, df_ID (g f) = df_ID f) ->
  List.find (fun f => df_ID f =? id) (map g (map snd (shelf F))) = g <$> F !! id.
Proof.
  intros Hid Hg. rewrite map_map. destruct (List.find _ _) as [f|] eqn:E.
  - apply find_some in E as [Hin Hf]. apply list_elem_of_In, list_elem_of_fmap in Hin as ([i h] & -> & H%elem_shelf). cbn in *.
    rewrite Hg, (Hid i h H) in Hf. apply Z.eqb_eq in Hf. subst. by rewrite H.
  - symmetry. apply fmap_None. destruct (F !! id) as [h|] eqn:H; [|done]. exfalso.
    assert (Hin : In (g h) (map (fun x => g x.2) (shelf F))).
    { apply list_elem_of_In, list_elem_of_fmap. exists (id, h). by rewrite elem_shelf. }
    pose proof (find_none _ _ E _ Hin) as Hn. cbn in Hn. rewrite Hg, (Hid id h H) in Hn. lia.
Qed.

Lemma omap_total {A B} (f : A -> option B) (g : A -> B) l : (forall x, x ∈ l -> f x = Some (g x)) -> omap f l = map g l.
Proof.
  induction l as [|x l IH]; intros H; [done|]. cbn. rewrite H by apply list_elem_of_here. f_equal. apply IH.
  intros y Hy. apply H. by apply list_elem_of_further.
Qed.

Lemma answer_exact o now s :
  fold_ok s ->
  filters_answer key (readDialogFilters o s) (found o now s (snapshot_peers (readDialogFilters o s))) o =
  map (shown o now s) (sn_Order (readDialogFilters o s)).
Proof.
  intros Hs. destruct (owner_read s o (fo_owner _ Hs o)) as [Er [_ Hr]]. pose proof (fo_owner _ Hs o) as [O1 _ _ O4].
  unfold filters_answer. set (peers := snapshot_peers _). rewrite Er. cbn [sn_Filters sn_Order]. unfold ordered_filters.
  rewrite (omap_total _ (shown o now s)).
  - destruct (order_ids (stored_state o s)) eqn:E; [|done]. by apply Permutation_nil in O4.
  - intros id Hid. rewrite O4, elem_of_cons in Hid. unfold shown.
    rewrite find_shelf by (done || intros; by eapply so_ids). destruct (Z.eqb_spec id 0) as [->|Hne].
    + destruct (book o s !! 0) as [f|] eqn:E; [|done]. assert (2 <= 0 <= 255); [|lia]. apply Hr, elem_shelf_keys. by eexists.
    + destruct Hid as [?|[f Hf]%elem_shelf_keys]; [done|]. rewrite Hf. cbn. do 3 f_equal. apply cut_found.
      intros p Hp. unfold peers, snapshot_peers. rewrite Er. cbn [sn_Filters]. apply list_elem_of_In, in_concat.
      exists (PinnedPeers f ++ IncludePeers f ++ ExcludePeers f). split; [|by apply list_elem_of_In].
      apply (in_map (fun f => PinnedPeers f ++ IncludePeers f ++ ExcludePeers f)), list_elem_of_In, list_elem_of_fmap.
      exists (id, f). by rewrite elem_shelf.
Qed.

Lemma reachable_world o now s s' : users s' = users s -> chat_participants s' = chat_participants s ->
  channel_members s' = channel_members s -> forall p, reachable o now s' p = reachable o now s p.
Proof. intros H1 H2 H3 p. unfold reachable. by rewrite H1, H2, H3. Qed.

(** The rest of the request, once the defaults are in. *)
Lemma wp_get_rest now o s Q :
  fold_ok s -> Q (FoFilters (map (shown o now s) (sn_Order (readDialogFilters o s)))) s ->
  wp (calm now) (fcall (fun _ s => (readDialogFilters o s, s)) (fun a =>
    match a with
    | None => Ret (FoError errInternal)
    | Some snapshot =>
        clock_now (fun now => AccessibleDialogFilterPeers o (snapshot_peers snapshot) now (fun a =>
          match a with
          | None => Ret (FoError errInternal)
          | Some accessible => Ret (FoFilters (filters_answer key snapshot accessible o))
          end))
    end)) s Q.
Proof.
  intros Hs HQ. apply wp_fcall. intros e He. cbn [fst snd]. apply wp_clock, wp_accessible.
  unfold wp. by rewrite answer_exact.
Qed.

(** Asking for the folders alone, with nothing failing: the first time the missing defaults
    go in, at the lowest free ids and the end of the order, and never again; the answer is
    the stored order with each folder once and All chats once, every folder showing exactly
    the peers its owner can reach at that moment. *)
Theorem get_filters_exact (uni_lower : Z -> Z) now r s :
  fold_ok s -> r_UserID r <> 0 -> r_UserID r ∈ users s -> r_UserID r ∈ update_state s ->
  wp (calm now) (handleGetDialogFilters key uni_lower r false) s (fun a s' =>
    let u := r_UserID r in
    let v := view_of u s in
    view_of u s' =
      (if v_seeded v then v
       else let out := seed_book uni_lower DefaultDialogFilters (v_folders v) [] in mkView out.1 (v_order v ++ out.2) true) /\
    notified s' = notified s ++ (if v_seeded v then [] else [u]) /\
    a = FoFilters (map (shown u now s') (v_order (view_of u s'))) /\
    NoDup (v_order (view_of u s')) /\
    (forall id, id ∈ v_order (view_of u s') <-> id = 0 \/ is_Some (v_folders (view_of u s') !! id)) /\ fold_ok s' /\
    (forall p, reachable u now s' p = reachable u now s p)).
Proof.
  intros Hs Hu Hus Hst. unfold handleGetDialogFilters. replace (r_UserID r =? 0) with false by lia. cbn [orb].
  set (u := r_UserID r) in *.
  assert (Hend : forall s', fold_ok s' -> NoDup (v_order (view_of u s')) /\
    (forall id, id ∈ v_order (view_of u s') <-> id = 0 \/ is_Some (v_folders (view_of u s') !! id)) /\ fold_ok s').
  { intros s' Hs'. rewrite view_eq by done. cbn [v_order v_folders]. pose proof (oo_order _ _ (fo_owner _ Hs' u)) as Ho.
    destruct (owner_read s' u (fo_owner _ Hs' u)) as [_ [Hn Hr]]. split_and!; [| |done].
    - rewrite Ho. constructor; [|done]. intros H%Hr. lia.
    - intros id. by rewrite Ho, elem_of_cons, elem_shelf_keys. }
  unfold SeedDefaultDialogFilters. apply wp_fcall. intros e He. cbn [fst snd].
  assert (Ev : v_seeded (view_of u s) = DialogFilterDefaultsSeeded u s) by done.
  destruct (DialogFilterDefaultsSeeded u s) eqn:Esd.
  - apply wp_get_rest; [done|]. cbv zeta. rewrite Ev, app_nil_r. split_and!; [done|done|done|by apply Hend..|done].
  - apply wp_fcall. intros e' He'. pose proof (seed_spec uni_lower u e' s Hs) as Hsp. cbv zeta in Hsp.
    destruct (seed_good uni_lower u e' s Hs) as [Hok _].
    destruct (seed_tx uni_lower u e' s) as [[[]|] s1]; cbn [fst snd] in *.
    + destruct Hsp as [Hnone Hm]. apply wp_get_rest; [done|]. cbv zeta. rewrite Ev. split_and!; [| |done|by apply Hend..|].
      * rewrite !view_eq by done. cbn [v_folders v_order]. rewrite (stores_book _ _ _ (mv_stores _ _ _ _ _ _ _ Hm)).
        assert (Est : stored_state u s1 = mkFState (order_ids (stored_state u s) ++
          (seed_book uni_lower DefaultDialogFilters (book u s) []).2) (Some (fe_change_at e')) (Some (fe_seed_at e'))).
        { unfold stored_state at 1. by rewrite (mv_state _ _ _ _ _ _ _ Hm). }
        by rewrite Est.
      * apply (mv_notified _ _ _ _ _ _ _ Hm).
      * destruct (mv_world _ _ _ _ _ _ _ Hm) as (W1 & _ & _ & W2 & W3). by apply reachable_world.
    + destruct Hsp as [[t Ht] _]. rewrite view_eq in Ev by done. cbn in Ev. rewrite Ht in Ev. done.
    + destruct Hsp as [_ Hno]. by destruct Hno.
Qed.

(** ** There and back *)

Lemma resolve_toTL ps u : u <> 0 -> Forall (fun p => fp_ID p <> 0) ps ->
  resolve_peers key (dialogFilterPeersToTL key ps u) u = Some ps.
Proof.
  intros Hu Hps. unfold resolve_peers, dialogFilterPeersToTL. apply mapM_Some. induction Hps as [|[t id] ps Hid _ IH]; constructor; [|done].
  cbn in Hid. destruct t; cbn [fp_Type fp_ID].
  - destruct (Z.eqb_spec id u) as [->|]; cbn.
    + by replace (u =? 0) with false by lia.
    + replace (id =? 0) with false by lia. by rewrite Z.eqb_refl.
  - cbn. by replace (id =? 0) with false by lia.
  - cbn. replace (id =? 0) with false by lia. by rewrite Z.eqb_refl.
Qed.

Lemma resolve_nonzero ps u qs : u <> 0 -> resolve_peers key ps u = Some qs -> Forall (fun p => fp_ID p <> 0) qs.
Proof.
  intros Hu H%mapM_Some. induction H as [|p q ps qs Hq _ IH]; constructor; [|done].
  destruct p; cbn in Hq; repeat case_match; simplify_eq; cbn; try lia.
Qed.

Lemma resolve_length ps u qs : resolve_peers key ps u = Some qs -> len qs = len ps.
Proof. intros H%mapM_Some. unfold len. by rewrite (Forall2_length _ _ _ H). Qed.

(** Lists without a repeat stay as they are. *)
Lemma normalize_fixed seen peers : NoDup peers -> (forall p, p ∈ peers -> p ∉ seen) -> (normalize seen peers).2 = peers.
Proof.
  intros Hn. revert seen. induction Hn as [|p peers Hp Hn IH]; intros seen Hd; [done|]. cbn [normalize].
  rewrite bool_decide_false by apply Hd, list_elem_of_here. specialize (IH (p :: seen)). destruct (normalize (p :: seen) peers) as [seen' out].
  cbn [snd] in *. f_equal. apply IH. intros q Hq [->|Hs]%elem_of_cons; [done|]. by apply (Hd q); [apply list_elem_of_further|].
Qed.

Lemma normalize_lists_fixed p i x : NoDup (p ++ i ++ x) -> normalizeDialogFilterPeers p i x = (p, i, x).
Proof.
  intros (Np & Hp & (Ni & Hi & Nx)%NoDup_app)%NoDup_app. unfold normalizeDialogFilterPeers.
  pose proof (normalize_spec [] p) as (_ & _ & P3 & _). pose proof (normalize_fixed [] p Np) as P.
  destruct (normalize [] p) as [seen p']. cbn [fst snd] in *. assert (p' = p) as -> by (apply P; intros; apply not_elem_of_nil).
  pose proof (normalize_spec seen i) as (_ & _ & I3 & _). pose proof (normalize_fixed seen i Ni) as I.
  destruct (normalize seen i) as [seen' i']. cbn [fst snd] in *.
  assert (i' = i) as ->.
  { apply I. intros q Hq [H|H]%P3; [by apply elem_of_nil in H|]. apply (Hp q H), elem_of_app. by left. }
  pose proof (normalize_fixed seen' x Nx) as X. destruct (normalize seen' x) as [seen'' x']. cbn [fst snd] in *.
  f_equal. apply X. intros q Hq [[H|H]%P3|H]%I3; [by apply elem_of_nil in H| |by apply (Hi q H)].
  apply (Hp q H), elem_of_app. by right.
Qed.

(** What a client gets of a folder is accepted, and is that folder. *)
Lemma sent_back d u :
  sendable d -> ValidString (bytes_of (df_Title d)) = true -> u <> 0 ->
  Forall (fun p => fp_ID p <> 0) (PinnedPeers d ++ IncludePeers d ++ ExcludePeers d) ->
  let back := dialogFilterToTL key d u in
  check_title back = Ok (df_Entities d) /\
  resolve_peers key (tf_Pinned back) u = Some (PinnedPeers d) /\ resolve_peers key (tf_Include back) u = Some (IncludePeers d) /\
  resolve_peers key (tf_Exclude back) u = Some (ExcludePeers d) /\
  definition_of (df_ID d) back (df_Entities d) (PinnedPeers d, IncludePeers d, ExcludePeers d) = Ok d.
Proof.
  intros Hd Hv Hu Hz. cbv zeta. apply Forall_app in Hz as [Z1 [Z2 Z3]%Forall_app]. unfold dialogFilterToTL. cbn [tf_Pinned tf_Include tf_Exclude].
  pose proof (len_nonneg (PinnedPeers d)). pose proof (len_nonneg (IncludePeers d)). pose proof (sd_included _ Hd). pose proof (sd_excluded _ Hd).
  assert (Hemo : default ""%string (if String.eqb (df_Emoticon d) "" then None else Some (df_Emoticon d)) = df_Emoticon d).
  { by destruct (String.eqb_spec (df_Emoticon d) ""). }
  split_and!; [|by apply resolve_toTL..|].
  - unfold check_title. cbn [tf_Text tf_Entities tf_Emoticon tf_Pinned tf_Include tf_Exclude].
    destruct (String.eqb_spec (df_Title d) ""); [by destruct (sd_title _ Hd)|]. rewrite Hv. cbn [negb orb].
    replace (_ >? 12) with false by (destruct (sd_title _ Hd); lia). unfold maxDialogFilterEntities.
    replace (len (map _ (df_Entities d)) >? 12) with false by (pose proof (sd_entities _ Hd); unfold len in *; rewrite length_map; lia).
    rewrite (proj2 (title_entities_exact (df_Title d) _ (df_Entities d) Hv)) by (split; [done|apply Hd]). rewrite Hemo.
    replace (_ >? 64) with false by (pose proof (sd_emoticon _ Hd); lia). unfold maxDialogFilterRawPeers.
    assert (Hl : forall ps, len (dialogFilterPeersToTL key ps u) = len ps) by (intros; unfold len, dialogFilterPeersToTL; by rewrite length_map).
    rewrite !Hl. by replace (_ || _) with false by lia.
  - unfold definition_of. rewrite normalize_lists_fixed by apply Hd. unfold maxDialogFilterPeers. replace (_ || _) with false by lia.
    cbn [tf_flags tf_Text tf_Emoticon tf_Color].
    replace (negb (Contacts (df_flags d)) && _ && _ && _ && _ && _) with false.
    + rewrite Hemo. destruct d as [id t en em c fl pi inc ex]. cbn in *. do 2 f_equal.
      destruct c as [c|]; [|done]. pose proof (sd_color _ Hd c eq_refl). by replace ((0 <=? c) && (c <=? 6)) with true by lia.
    + symmetry. destruct (sd_some _ Hd) as [->|[->|[->|[->|[->|Hne]]]]]; cbn; rewrite ?andb_false_r; try done.
      replace (len (PinnedPeers d) + len (IncludePeers d) =? 0) with false; [by rewrite andb_false_r|].
      symmetry. apply Z.eqb_neq. intros E. apply Hne. apply app_nil. split; apply len_zero; lia.
Qed.

Lemma with_limits_view t o (s : folders) :
  view_of o (with_limits t s) = view_of o s /\ notified (with_limits t s) = notified s.
Proof. done. Qed.

Lemma wp_limit now r k s Q :
  (forall t d, wp (calm now) (k d) (with_limits t s) Q) -> wp (calm now) (checkDialogFilterRateLimit r k) s Q.
Proof.
  intros H. apply wp_fcall. intros e _. unfold charge_limit. destruct (CheckRateLimit _ _ _ _ _ _) as [a t]. cbn [fst snd].
  destruct a; apply H.
Qed.

Lemma wp_lists now r f k s Q :
  (forall x, wp (calm now) (k (Err x)) s Q) ->
  (forall p i x, resolve_peers key (tf_Pinned f) (r_UserID r) = Some p -> resolve_peers key (tf_Include f) (r_UserID r) = Some i ->
     resolve_peers key (tf_Exclude f) (r_UserID r) = Some x -> (forall q, q ∈ p ++ i ++ x -> reachable (r_UserID r) now s q = true) ->
     wp (calm now) (k (Ok (p, i, x))) s Q) ->
  wp (calm now) (dialogFilterPeerLists key r f k) s Q.
Proof.
  intros He Ho. unfold dialogFilterPeerLists. destruct (resolve_peers key (tf_Pinned f) _) as [p|]; [|apply He].
  destruct (resolve_peers key (tf_Include f) _) as [i|]; [|apply He]. destruct (resolve_peers key (tf_Exclude f) _) as [x|]; [|apply He].
  apply wp_clock, wp_accessible. destruct (forallb _ _) eqn:E; [|apply He]. apply Ho; [done..|]. intros q Hq.
  rewrite forallb_forall in E. specialize (E q (proj1 (list_elem_of_In _ _) Hq)). apply bool_decide_eq_true, elem_found in E. apply E.
Qed.

Lemma trimmed_all u now s d :
  (forall q, q ∈ PinnedPeers d ++ IncludePeers d ++ ExcludePeers d -> reachable u now s q = true) -> trimmed u now s d = d.
Proof.
  intros H. unfold trimmed. destruct d as [id t en em c fl pi inc ex]. cbn in *.
  f_equal; apply forallb_filter_id, forallb_forall; intros q Hq%list_elem_of_In; apply H; rewrite !elem_of_app; tauto.
Qed.

(** The peers of a folder are those sent, each in the list that names it first; lists that
    name nothing twice are kept as they are. *)
Definition peers_of_request (f : tg_DialogFilter) (u : Z) (d : DialogFilter) : Prop :=
  exists p i x, resolve_peers key (tf_Pinned f) u = Some p /\ resolve_peers key (tf_Include f) u = Some i /\
    resolve_peers key (tf_Exclude f) u = Some x /\
    (forall q, q ∈ PinnedPeers d <-> q ∈ p) /\ (forall q, q ∈ IncludePeers d <-> q ∈ i /\ q ∉ p) /\
    (forall q, q ∈ ExcludePeers d <-> q ∈ x /\ q ∉ p /\ q ∉ i) /\
    (NoDup (p ++ i ++ x) -> PinnedPeers d = p /\ IncludePeers d = i /\ ExcludePeers d = x).

(** Everything about the folder but its peers is what was sent; a colour outside the
    palette is none. *)
Definition stored_as_sent (ID : Z) (f : tg_DialogFilter) (u : Z) (d : DialogFilter) : Prop :=
  df_ID d = ID /\ df_Title d = tf_Text f /\ df_Emoticon d = default ""%string (tf_Emoticon f) /\ df_flags d = tf_flags f /\
  (forall c, df_Color d = Some c <-> tf_Color f = Some c /\ 0 <= c <= 6) /\
  tf_Entities f = map (fun e => MessageEntityCustomEmoji (en_Offset e) (en_Length e) (en_DocumentID e)) (df_Entities d) /\
  peers_of_request f u d.

Lemma definition_peers ID f es p i x d u :
  resolve_peers key (tf_Pinned f) u = Some p -> resolve_peers key (tf_Include f) u = Some i ->
  resolve_peers key (tf_Exclude f) u = Some x -> definition_of ID f es (p, i, x) = Ok d ->
  peers_of_request f u d /\ df_Title d = tf_Text f /\ df_Entities d = es /\ df_Emoticon d = default ""%string (tf_Emoticon f) /\
  df_flags d = tf_flags f /\ forall c, df_Color d = Some c <-> tf_Color f = Some c /\ 0 <= c <= 6.
Proof.
  intros Hp Hi Hx. unfold definition_of. pose proof (normalize_lists_spec p i x) as Hn.
  pose proof (normalize_lists_fixed p i x) as Hfix.
  destruct (normalizeDialogFilterPeers p i x) as [[p' i'] x']. destruct Hn as (_ & N1 & N2 & N3).
  destruct (_ || _); [done|]. destruct (_ && _ && _ && _ && _ && _); [done|]. intros [= <-]. cbn.
  assert (Hcol : forall c, match tf_Color f with Some c => if (0 <=? c) && (c <=? 6) then Some c else None | None => None end = Some c <->
    tf_Color f = Some c /\ 0 <= c <= 6).
  { intros c. destruct (tf_Color f) as [c'|]; [|naive_solver]. destruct ((0 <=? c') && (c' <=? 6)) eqn:E; split.
    - intros [= ->]. split; [done|lia].
    - by intros [[= ->] _].
    - done.
    - intros [[= ->] ?]. lia. }
  split_and!; try done. exists p, i, x. split_and!; try done. intros H. by injection (Hfix H).
Qed.

(** The gate of the limiter: it lets through or asks to wait. *)
Lemma wp_gate now r k s Q :
  (forall t, wp (calm now) (k None) (with_limits t s) Q) ->
  (forall t, wp (calm now) (k (Some (FloodWaitError 60))) (with_limits t s) Q) ->
  wp (calm now) (checkDialogFilterRateLimit r k) s Q.
Proof.
  intros H1 H2. apply wp_fcall. intros e _. unfold charge_limit.
  assert (Hf : forall k' a t, CheckRateLimit (limits s) (lim_between e) k' dialogFilterMutationRateLimit (lim_now e) (lim_clock e) = (a, t) ->
    a <> RLFailed).
  { intros k' a t. unfold CheckRateLimit, CheckRateLimitCost. repeat case_match; intros; by simplify_eq. }
  destruct (CheckRateLimit _ _ _ _ _ _) as [a t] eqn:E. specialize (Hf _ _ _ E). cbn [fst snd].
  destruct a; [apply H1|apply H2|done].
Qed.

(** ** The folder shown, and sent again *)

Section stored.
Context (now : Z) (r : Request) (ID : Z) (d : DialogFilter) (s : folders).
Let u := r_UserID r.
Hypothesis Hs : fold_ok s.
Hypothesis Hu : u <> 0.
Hypothesis Hus : u ∈ users s.
Hypothesis Hst : u ∈ update_state s.
Hypothesis Hd : decent d.
Hypothesis Hid : df_ID d = ID.
Hypothesis Hz : Forall (fun q => fp_ID q <> 0) (PinnedPeers d ++ IncludePeers d ++ ExcludePeers d).
Hypothesis Hreach : forall q, q ∈ PinnedPeers d ++ IncludePeers d ++ ExcludePeers d -> reachable u now s q = true.
Hypothesis Hbook : book u s !! ID = Some d.

(** The reader sees it, with all its peers, and nothing else under its id. *)
Lemma wp_shown uni_lower :
  wp (calm now) (handleGetDialogFilters key uni_lower r false) s (fun a s' =>
    exists l, a = FoFilters l /\ TLDialogFilter (dialogFilterToTL key d u) ∈ l /\
      forall g, TLDialogFilter g ∈ l -> tf_ID g = ID -> g = dialogFilterToTL key d u).
Proof using All.
  eapply wp_weaken; [|by apply (get_filters_exact uni_lower now r s)].
  intros a s'. cbv zeta. fold u. intros (Hv & _ & -> & _ & Hord & Hok & Hrw).
  assert (Hb : book u s' !! ID = Some d).
  { change (v_folders (view_of u s') !! ID = Some d). rewrite Hv. destruct (v_seeded _); [done|]. cbn [v_folders].
    pose proof (fo_owner _ Hs u) as [O1 O2 O3 O4].
    destruct (seed_book_ok uni_lower DefaultDialogFilters (book u s) []) as (_ & _ & Hk & _); [|done|done|by apply Hk].
    intros d0 id0. apply defaults_decent. }
  assert (Hshown : shown u now s' ID = TLDialogFilter (dialogFilterToTL key d u)).
  { unfold shown. rewrite Hb. do 2 f_equal. apply trimmed_all. intros q Hq. rewrite Hrw. by apply Hreach. }
  eexists. split; [done|]. split.
  - rewrite <- Hshown. apply list_elem_of_fmap_2. apply Hord. right. change (is_Some (book u s' !! ID)). by rewrite Hb.
  - intros g Hg Eg. apply list_elem_of_fmap in Hg as (id & Eid & Hin). unfold shown in Eid.
    destruct (book u s' !! id) as [f'|] eqn:Ef; [|done]. injection Eid as ->.
    assert (id = ID) as ->.
    { pose proof (so_ids _ _ _ (oo_stores _ _ (fo_owner _ Hok u)) id f' Ef) as E'. cbn in Eg. congruence. }
    unfold shown in Hshown. rewrite Hb in Hshown, Ef. injection Ef as <-.
    set (X := dialogFilterToTL key (trimmed u now s' d) u) in *. congruence.
Qed.

(** What it shows, sent again, is accepted and changes nothing. *)
Lemma wp_resent :
  ValidString (bytes_of (df_Title d)) = true ->
  wp (calm now) (handleUpdateDialogFilter key r ID (Some (TLDialogFilter (dialogFilterToTL key d u)))) s (fun a s' =>
    (a = FoTrue \/ a = FoError (FloodWaitError 60)) /\ view_of u s' = view_of u s).
Proof using All.
  intros Hv. pose proof Hd as [Hsend Htext]. pose proof (sd_id _ Hsend) as Hr.
  destruct (sent_back d u Hsend Hv Hu Hz) as (B1 & B2 & B3 & B4 & B5).
  unfold handleUpdateDialogFilter. fold u. replace (u =? 0) with false by lia.
  apply wp_gate; intros t; [|split; [by right|done]]. set (s1 := with_limits t s).
  assert (Hs1 : fold_ok s1) by (by eapply (world_good (fun x => x))).
  replace ((ID <? 2) || (ID >? 255)) with false by lia.
  replace (tf_ID (dialogFilterToTL key d u) =? ID) with true by (cbn; lia). cbn [negb]. rewrite B1.
  unfold dialogFilterPeerLists. fold u. rewrite B2, B3, B4. apply wp_clock, wp_accessible.
  replace (forallb _ _) with true; cycle 1.
  { symmetry. apply forallb_forall. intros q Hq%list_elem_of_In. apply bool_decide_eq_true, elem_found. split; [done|].
    exact (Hreach q Hq). }
  rewrite <- Hid, B5. apply wp_fcall. intros e He. pose proof (save_spec u d e s1 Hs1 Hsend) as Hsp.
  destruct (save_good (fun x => x) u d e s1 Hs1 Hsend) as [Hok _].
  destruct (SaveDialogFilter u d e s1) as [[[]|] s2]; cbn [fst snd] in *.
  - destruct Hsp as (_ & Hn & _). change (book u s1) with (book u s) in Hn. congruence.
  - destruct Hsp as (_ & Hn). destruct Hn. split; [|done]. by split.
  - destruct Hsp as (_ & _ & _ & Hm). split; [by left|].
    rewrite (view_eq u s2), (view_eq u s) by done.
    rewrite (stores_book _ _ _ (mv_stores _ _ _ _ _ _ _ Hm)). change (book u s1) with (book u s).
    rewrite insert_id by (by rewrite Hid).
    assert (Est : stored_state u s2 = mkFState (order_with (df_ID d) (order_ids (stored_state u s))) (Some (fe_change_at e))
      (defaults_seeded_at (stored_state u s))) by (unfold stored_state at 1; by rewrite (mv_state _ _ _ _ _ _ _ Hm)).
    rewrite Est. cbn. unfold order_with. rewrite bool_decide_true; [done|].
    rewrite (oo_order _ _ (fo_owner _ Hs u)), elem_of_cons, elem_shelf_keys. right. rewrite Hid. by eexists.
Qed.

End stored.

(** C15 (roundtrip).  A folder sent alone, with nothing failing, is stored as sent or leaves
    everything as it was.  Stored as sent means: its title with the emoji in it, its icon,
    its colour (one outside the palette of seven is none), its switches, and its peers, each
    in the list that names it first, the lists being kept as they are when they name nothing
    twice.  Once stored it keeps its place in the order or goes to its end, and its owner is
    told once.  Then [messages.getDialogFilters] shows it with all its peers and nothing else
    under its id, and [messages.updateDialogFilter] with what it shows is accepted, unless
    the rate limiter asks to wait, and changes nothing. *)
Theorem folder_round_trip (uni_lower : Z -> Z) now r ID f s :
  fold_ok s -> r_UserID r <> 0 -> r_UserID r ∈ users s -> r_UserID r ∈ update_state s ->
  wp (calm now) (handleUpdateDialogFilter key r ID (Some (TLDialogFilter f))) s (fun a s' =>
    let u := r_UserID r in
    fold_ok s' /\ (a <> FoTrue -> view_of u s' = view_of u s /\ notified s' = notified s) /\
    (a = FoTrue -> exists d,
       view_of u s' = mkView (<[ID := d]> (book u s)) (order_with ID (v_order (view_of u s))) (v_seeded (view_of u s)) /\
       notified s' = notified s ++ [u] /\ stored_as_sent ID f u d /\
       let back := dialogFilterToTL key d u in
       wp (calm now) (handleGetDialogFilters key uni_lower r false) s' (fun a2 _ =>
         exists l, a2 = FoFilters l /\ TLDialogFilter back ∈ l /\ forall g, TLDialogFilter g ∈ l -> tf_ID g = ID -> g = back) /\
       wp (calm now) (handleUpdateDialogFilter key r ID (Some (TLDialogFilter back))) s' (fun a3 s3 =>
         (a3 = FoTrue \/ a3 = FoError (FloodWaitError 60)) /\ view_of u s3 = view_of u s'))).
Proof.
  intros Hs Hu Hus Hst. unfold handleUpdateDialogFilter at 1. replace (r_UserID r =? 0) with false by lia. set (u := r_UserID r) in *.
  apply wp_limit. intros t denied. set (s1 := with_limits t s).
  assert (Hs1 : fold_ok s1) by (by eapply (world_good (fun x => x))).
  destruct denied as [x|]; [by split|]. destruct ((ID <? 2) || (ID >? 255)) eqn:Hid; [by split|].
  destruct (negb (tf_ID f =? ID)); [by split|]. destruct (check_title f) as [es|x] eqn:Ht; [|by split].
  apply wp_lists; [by split|]. intros p i x Hp Hi Hx Hreach. fold u in Hp, Hi, Hx, Hreach. destruct (definition_of ID f es (p, i, x)) as [d|y] eqn:Ed; [|by split].
  destruct (definition_sendable ID f es (p, i, x) d) as [Hd Edid]; [lia|done|done|].
  destruct (definition_peers ID f es p i x d u Hp Hi Hx Ed) as (Hpeers & E1 & E2 & E3 & E4 & E5).
  apply wp_fcall. intros e He. pose proof (save_spec u d e s1 Hs1 Hd) as Hsp. destruct (save_good (fun x => x) u d e s1 Hs1 Hd) as [Hok _].
  destruct (SaveDialogFilter u d e s1) as [[[]|] s2]; cbn [fst snd] in *.
  - destruct Hsp as [-> _]. by split.
  - destruct Hsp as [-> _]. by split.
  - destruct Hsp as (Hdec & _ & _ & Hm). split; [done|]. split; [done|]. intros _. exists d.
    destruct (check_title_spec f es Ht) as (_ & Hv & _ & _ & _ & Ees & _).
    assert (Hin : forall q, q ∈ PinnedPeers d ++ IncludePeers d ++ ExcludePeers d -> q ∈ p ++ i ++ x).
    { destruct Hpeers as (p0 & i0 & x0 & Hp0 & Hi0 & Hx0 & N1 & N2 & N3 & _). rewrite Hp in Hp0. rewrite Hi in Hi0. rewrite Hx in Hx0. simplify_eq.
      intros q. rewrite !elem_of_app, N1, N2, N3. tauto. }
    destruct (mv_world _ _ _ _ _ _ _ Hm) as (W1 & W0 & _ & W2 & W3).
    assert (Hz : Forall (fun q => fp_ID q <> 0) (PinnedPeers d ++ IncludePeers d ++ ExcludePeers d)).
    { apply Forall_forall. intros q Hq. apply Hin in Hq. rewrite !elem_of_app in Hq.
      pose proof (resolve_nonzero _ _ _ Hu Hp) as F1. pose proof (resolve_nonzero _ _ _ Hu Hi) as F2. pose proof (resolve_nonzero _ _ _ Hu Hx) as F3.
      rewrite Forall_forall in F1, F2, F3. naive_solver. }
    rewrite <- E1 in Hv. rewrite Edid in *.
    assert (Ebook : book u s2 = <[ID := d]> (book u s)) by (by rewrite (stores_book _ _ _ (mv_stores _ _ _ _ _ _ _ Hm))).
    assert (Hlook : book u s2 !! ID = Some d) by (by rewrite Ebook, lookup_insert_eq).
    assert (Hr2 : forall q, q ∈ PinnedPeers d ++ IncludePeers d ++ ExcludePeers d -> reachable u now s2 q = true).
    { intros q Hq. rewrite (reachable_world u now s1 s2) by done. by apply Hreach, Hin. }
    assert (Hus2 : u ∈ users s2) by (by rewrite W1). assert (Hst2 : u ∈ update_state s2) by (by rewrite W0).
    split_and!.
    + rewrite (view_eq u s2), Ebook, (view_eq u s) by done. cbn [v_order v_seeded].
      assert (Est : stored_state u s2 = mkFState (order_with ID (order_ids (stored_state u s))) (Some (fe_change_at e)) (defaults_seeded_at (stored_state u s))).
      { unfold stored_state at 1. by rewrite (mv_state _ _ _ _ _ _ _ Hm). }
      by rewrite Est.
    + apply (mv_notified _ _ _ _ _ _ _ Hm).
    + unfold stored_as_sent. split_and!; try done. by subst.
    + by apply (wp_shown now r ID d s2).
    + by apply (wp_resent now r ID d s2).
Qed.

End exact.

(** * Folders: the theorems at work

    One account, empty tables: it asks for its folders, which seeds the defaults, while
    another of its clients sends a folder of its own. *)

(** ** The scene *)

Definition no_folders : folders := mkFolders {[7; 8]} {[7]} ∅ ∅ ∅ ∅ ∅ ∅ ∅ [].

Lemma no_folders_ok : fold_ok no_folders.
Proof.
  split; [by intros o [st Hst]|]. intros o. assert (Hs : stores no_folders o ∅) by (by split).
  pose proof (stores_book _ _ _ Hs) as E. split; rewrite E; [done|by intros|done|done].
Qed.

Definition of_seven : Request := mkRequest 5 7 AddrZero.
Definition same_rune (a b : Z) : bool := a =? b.
Definition at_second (n : Z) : fold_env :=
  mkFoldEnv NoFault (n * second) (n * second) (fun t => t) (n * second) (n * second + 1) (Z.to_nat n).

(** A folder with a title of three runes, the last of two code units and marked. *)
Definition smile : string := String (ascii_of_nat 240) (String (ascii_of_nat 159) (String (ascii_of_nat 152) (String (ascii_of_nat 128) ""))).
Definition fun_title : string := String.append "hi" smile.

Definition fun_folder : tg_DialogFilter :=
  mkTLFilter 2 fun_title [MessageEntityCustomEmoji 2 2 99] None (Some 3) (mkFlags false false true false false false false false false)
    [InputPeerSelf] [InputPeerSelf; InputPeerUser 8 (Derive masterA 7 KindUser 8)] [].

Definition ask_seven : prog folders fold_env folder_reply :=
  folder_program masterA (fun r => r) same_rune (ReqGetFilters of_seven false).
Definition send_seven : prog folders fold_env folder_reply :=
  folder_program masterA (fun r => r) same_rune (ReqUpdateFilter of_seven 2 (Some (TLDialogFilter fun_folder))).

(** The two run at once; the seeding transaction is the last step. *)
Definition both : list (@choice folders fold_env folder_reply) :=
  [Arrive ask_seven; Arrive send_seven; Step 1 (at_second 1); Step 0 (at_second 2); Step 0 (at_second 3); Step 0 (at_second 4);
   Step 0 (at_second 5)].

Definition before_seed : folders * list (prog folders fold_env folder_reply) := run_schedule no_folders both.
Definition after_seed : folders * list (prog folders fold_env folder_reply) := run_choice before_seed (Step 1 (at_second 6)).

Example sent_first : map fst (ListDialogFilters 7 before_seed.1) = [2].
Proof. vm_compute. reflexivity. Qed.

Example seeded_after : order_ids (stored_state 7 after_seed.1) = [0; 2; 3; 4; 5; 6].
Proof. vm_compute. reflexivity. Qed.

Lemma before_seed_runs : folder_run masterA (fun r => r) same_rune no_folders before_seed.
Proof.
  apply run_schedule_reach. repeat (apply Forall_cons; split; [first [exact I|by eexists]|]). apply Forall_nil_2.
Qed.

Lemma seed_steps : pool_step (folder_starts masterA (fun r => r) same_rune) (fun _ => True) before_seed after_seed.
Proof. apply run_choice_step; [exact I|vm_compute; reflexivity]. Qed.

(** ** Witnesses *)

Lemma folders_refine_witness :
  folder_run masterA (fun r => r) same_rune no_folders before_seed /\ notified after_seed.1 = [7; 7] /\
  folder_move (fun r => r) before_seed.1 after_seed.1.
Proof.
  split_and!; [exact before_seed_runs|vm_compute; reflexivity|].
  exact (folders_refine masterA (fun r => r) same_rune no_folders before_seed after_seed no_folders_ok before_seed_runs seed_steps).
Defined.

Lemma folders_in_order_witness :
  len (sn_Filters (readDialogFilters 7 before_seed.1)) = 1 /\ Forall decent (sn_Filters (readDialogFilters 7 before_seed.1)).
Proof.
  split; [vm_compute; reflexivity|].
  exact (proj2 (proj2 (proj2 (folders_in_order masterA (fun r => r) same_rune no_folders before_seed 7 no_folders_ok before_seed_runs)))).
Defined.

Lemma title_entities_exact_witness :
  validateDialogFilterEntities fun_title [MessageEntityCustomEmoji 2 2 99] = Ok [mkFEntity 2 2 99] /\ spanned fun_title (mkFEntity 2 2 99).
Proof.
  assert (Hv : ValidString (bytes_of fun_title) = true) by (vm_compute; reflexivity).
  assert (H : validateDialogFilterEntities fun_title [MessageEntityCustomEmoji 2 2 99] = Ok [mkFEntity 2 2 99]) by (vm_compute; reflexivity).
  split; [exact H|].
  exact (proj1 (Forall_inv (proj2 (proj1 (title_entities_exact fun_title [MessageEntityCustomEmoji 2 2 99] [mkFEntity 2 2 99] Hv) H)))).
Defined.

Lemma get_filters_exact_witness :
  fold_ok no_folders /\
  wp (calm (5 * second)) (handleGetDialogFilters masterA (fun r => r) of_seven false) no_folders (fun a s' =>
    a = FoFilters (map (shown masterA 7 (5 * second) s') (v_order (view_of 7 s')))).
Proof.
  split; [exact no_folders_ok|].
  eapply wp_weaken; [|apply (get_filters_exact masterA (fun r => r) (5 * second) of_seven no_folders no_folders_ok)].
  - intros a s' H. exact (proj1 (proj2 (proj2 H))).
  - vm_compute. discriminate.
  - change (7 ∈ ({[7; 8]} : gset Z)). set_solver.
  - change (7 ∈ ({[7]} : gset Z)). set_solver.
Defined.

(** The request of the scene is accepted. *)
Example fun_folder_accepted :
  (exec (fun n => at_second (Z.of_nat n)) 0 no_folders send_seven).1 = FoTrue.
Proof. vm_compute. reflexivity. Qed.

Lemma folder_round_trip_witness :
  fold_ok no_folders /\
  wp (calm (5 * second)) (handleUpdateDialogFilter masterA of_seven 2 (Some (TLDialogFilter fun_folder))) no_folders (fun a s' =>
    a = FoTrue -> exists d, book 7 s' = <[2 := d]> (book 7 no_folders) /\
      wp (calm (5 * second)) (handleGetDialogFilters masterA (fun r => r) of_seven false) s' (fun a2 _ =>
        exists l, a2 = FoFilters l /\ TLDialogFilter (dialogFilterToTL masterA d 7) ∈ l)).
Proof.
  split; [exact no_folders_ok|].
  eapply wp_weaken; [|apply (folder_round_trip masterA (fun r => r) (5 * second) of_seven 2 fun_folder no_folders no_folders_ok)].
  - intros a s' H Ha. destruct (proj2 (proj2 H) Ha) as (d & Hv & _ & _ & Hb & _). exists d. split; [exact (f_equal v_folders Hv)|].
    eapply wp_weaken; [|exact Hb]. intros a2 s2 (l & H1 & H2 & _). exists l. split; [exact H1|exact H2].
  - vm_compute. discriminate.
  - change (7 ∈ ({[7; 8]} : gset Z)). set_solver.
  - change (7 ∈ ({[7]} : gset Z)). set_solver.
Defined.
