(* ===== verification/Polls.v ===== *)
(** * Polls

    [internal/store/polls.go] with the statements of [internal/store/queries/polls.sql], the
    constraints of the five tables and the trigger that drops a poll with the last copy of
    its message.  The messages, chats and memberships are those of [MsgStore], and the requests
    of [MsgRuns] run beside those of this file.

    A transaction reads before its locks, which only tells it whom to lock, and from the
    owner locks on (the creator's or viewer's among them) and the lock of the poll's row
    everything it reads is kept still to its end: the reads before are steps of their own, the
    rest is one.  That the users of a row exist is a constraint whose failure is one of the
    faults a call may meet. *)

From S2P Require Import Prelude.
From S2P Require Import Threads.
From S2P Require Import Limits.
From S2P Require Import PeerHash.
From S2P Require Import Mailbox.
From S2P Require Import MsgStore.
From S2P Require Import MsgSafety.
From S2P Require Import MsgRuns.
From S2P Require Import Utf8.
From Stdlib Require Import Ascii String.

Open Scope Z_scope.

Definition maxPollAnswers : Z := 10.
Definition maxPollOptionBytes : Z := 100.
Definition maxPollTextBytes : Z := 4096.
Definition maxPollIDAttempts : nat := 5.

Inductive poll_error : Type :=
| ErrPollInvalid | ErrPollClosed | ErrPollVoteNotAllowed | ErrPollDenied
| PollTx (e : tx_error)
| ErrPollStore.

(** ** Data *)

Record PollMessageRef : Type := mkPollRef { pr_PeerType : PeerType; pr_PeerID : Z; pr_LocalID : Z }.

Record PollAnswer : Type := mkAnswer {
  a_Option : list Z; a_Text : list Z; a_Correct : bool; a_VoterCount : Z; a_Chosen : bool
}.

(** The switches of a poll, which drafts, rows and views share. *)
Record poll_flags : Type := mkPollFlags {
  PublicVoters : bool; MultipleChoice : bool; Quiz : bool; ShuffleAnswers : bool; RevotingDisabled : bool
}.

(** [OpenAnswers] is stripped before storage; times are instants. *)
Record PollDraft : Type := mkDraft {
  d_Question : list Z; d_Answers : list PollAnswer; d_flags : poll_flags; d_OpenAnswers : bool;
  d_CloseDate : option Z; d_Solution : list Z
}.

Record Poll : Type := mkPoll {
  v_ID : Z; v_Creator : bool; v_Question : list Z; v_Answers : list PollAnswer; v_flags : poll_flags;
  v_Closed : bool; v_CloseDate : option Z; v_Solution : list Z; v_HasVoted : bool; v_VoterCount : Z
}.

(** ** Tables *)

Record poll_row : Type := mkPollRow {
  po_creator : Z; po_random : Z; po_source : Z; po_question : list Z; po_flags : poll_flags; po_closed : bool;
  po_close_date : option Z; po_solution : list Z
}.

Record option_row : Type := mkOption { op_text : list Z; op_correct : bool; op_position : Z }.

Record polls_db : Type := mkPolls {
  world : db;
  polls : gmap Z poll_row;
  poll_options : gmap (Z * list Z) option_row;
  poll_votes : gset (Z * Z);
  poll_vote_options : gset (Z * Z * list Z);
  poll_message_copies : gmap (Z * Z) Z
}.

(** What a step meets: whether its call fails, the clock of the server, the clock of the
    database when it admits a vote and when it renders the view, the random ids drawn. *)
Record poll_env : Type := mkPollEnv { pe_fault : fault; pe_now : Z; pe_clock : Z; pe_view : Z; pe_ids : list Z }.

Definition with_polls (m : gmap Z poll_row) (s : polls_db) : polls_db :=
  mkPolls (world s) m (poll_options s) (poll_votes s) (poll_vote_options s) (poll_message_copies s).
Definition with_options (m : gmap (Z * list Z) option_row) (s : polls_db) : polls_db :=
  mkPolls (world s) (polls s) m (poll_votes s) (poll_vote_options s) (poll_message_copies s).
Definition with_votes (v : gset (Z * Z)) (o : gset (Z * Z * list Z)) (s : polls_db) : polls_db :=
  mkPolls (world s) (polls s) (poll_options s) v o (poll_message_copies s).
Definition with_copies (m : gmap (Z * Z) Z) (s : polls_db) : polls_db :=
  mkPolls (world s) (polls s) (poll_options s) (poll_votes s) (poll_vote_options s) m.

(** ** Statements *)

Definition message_at (owner local : Z) (s : polls_db) : option Message := msgs (box_of (world s) owner) !! local.

Definition PollByCreatorRandomID (creator random : Z) (s : polls_db) : option (Z * poll_row) :=
  if random =? 0 then None
  else List.find (fun '(_, r) => (po_creator r =? creator) && (po_random r =? random)) (map_to_list (polls s)).

Definition PollByMessage (owner local : Z) (t : PeerType) (peer : Z) (s : polls_db) : option (Z * poll_row) :=
  match poll_message_copies s !! (owner, local), message_at owner local s with
  | Some id, Some msg =>
      if bool_decide (m_PeerType msg = t) && (PeerID msg =? peer) && negb (Deleted msg)
      then match polls s !! id with Some r => Some (id, r) | None => None end
      else None
  | _, _ => None
  end.

Definition PollIsClosed (r : poll_row) (clock : Z) : bool :=
  po_closed r || match po_close_date r with Some d => d <=? clock | None => false end.

(** The options of a poll by position, with their votes. *)
Definition position_le (a b : list Z * option_row) : Prop := op_position a.2 <= op_position b.2.
#[global] Instance position_le_dec : RelDecision position_le.
Proof. intros a b. unfold position_le. apply _. Defined.

Definition options_of (id : Z) (s : polls_db) : list (list Z * option_row) :=
  merge_sort position_le
    (omap (fun '((p, o), r) => if p =? id then Some (o, r) else None) (map_to_list (poll_options s))).

(** How many voters chose an option. *)
Definition option_votes (id : Z) (o : list Z) (s : polls_db) : Z :=
  Z.of_nat (size (filter (fun x : Z * Z * list Z => x.1.1 = id /\ x.2 = o) (poll_vote_options s))).

Definition PollOptionResults (id viewer : Z) (s : polls_db) : list (list Z * option_row * Z * bool) :=
  map (fun '(o, r) => (o, r, option_votes id o s, bool_decide ((id, viewer, o) ∈ poll_vote_options s))) (options_of id s).

Definition PollVoterCount (id : Z) (s : polls_db) : Z :=
  Z.of_nat (size (filter (fun x : Z * Z => x.1 = id) (poll_votes s))).

Definition PollVoteByVoter (id voter : Z) (s : polls_db) : bool := bool_decide ((id, voter) ∈ poll_votes s).

(** The options a voter has chosen; their order does not matter to the caller. *)
Definition PollVoteOptionsByVoter (id voter : Z) (s : polls_db) : list (list Z) :=
  map snd (elements (filter (fun x : Z * Z * list Z => x.1 = (id, voter)) (poll_vote_options s))).

Definition row_valid (id : Z) (r : poll_row) : bool :=
  (0 <? id) && (1 <=? len (po_question r)) && (len (po_question r) <=? 4096) &&
  (negb (Quiz (po_flags r)) || RevotingDisabled (po_flags r)).

(** [ON CONFLICT DO NOTHING]: [Some None] when a row with that id or token is there, [None]
    for a violated constraint. *)
Definition InsertPoll (id : Z) (r : poll_row) (s : polls_db) : option (option polls_db) :=
  if negb (row_valid id r) then None
  else if bool_decide (is_Some (polls s !! id)) || bool_decide (is_Some (PollByCreatorRandomID (po_creator r) (po_random r) s))
  then Some None
  else Some (Some (with_polls (<[id := r]> (polls s)) s)).

Definition InsertPollOption (id : Z) (o : list Z) (r : option_row) (s : polls_db) : option polls_db :=
  if bool_decide (is_Some (polls s !! id)) && (1 <=? len o) && (len o <=? 100) && (1 <=? len (op_text r)) &&
     (len (op_text r) <=? 4096) && (0 <=? op_position r) && (op_position r <=? 9) &&
     bool_decide (poll_options s !! (id, o) = None) &&
     negb (existsb (fun x => op_position x.2 =? op_position r) (options_of id s))
  then Some (with_options (<[(id, o) := r]> (poll_options s)) s) else None.

Definition InsertPollMessageCopy (owner local id : Z) (s : polls_db) : option (Z * polls_db) :=
  match poll_message_copies s !! (owner, local) with
  | Some _ => Some (0, s)
  | None =>
      if bool_decide (is_Some (message_at owner local s)) && bool_decide (is_Some (polls s !! id))
      then Some (1, with_copies (<[(owner, local) := id]> (poll_message_copies s)) s) else None
  end.

Definition InsertPollVote (id voter : Z) (s : polls_db) : polls_db :=
  with_votes ({[(id, voter)]} ∪ poll_votes s) (poll_vote_options s) s.

Definition DeletePollVoteOptionsByVoter (id voter : Z) (s : polls_db) : polls_db :=
  with_votes (poll_votes s) (filter (fun x => x.1 <> (id, voter)) (poll_vote_options s)) s.

(** The chosen options go with the vote. *)
Definition DeletePollVote (id voter : Z) (s : polls_db) : polls_db :=
  with_votes (poll_votes s ∖ {[(id, voter)]}) (filter (fun x => x.1 <> (id, voter)) (poll_vote_options s)) s.

Definition InsertPollVoteOption (id voter : Z) (o : list Z) (s : polls_db) : option polls_db :=
  if bool_decide ((id, voter) ∈ poll_votes s) && bool_decide (is_Some (poll_options s !! (id, o))) &&
     negb (bool_decide ((id, voter, o) ∈ poll_vote_options s))
  then Some (with_votes (poll_votes s) ({[(id, voter, o)]} ∪ poll_vote_options s) s) else None.

(** ** Checks *)

Definition validatePollRef (viewer : Z) (ref : PollMessageRef) : bool :=
  negb ((viewer <=? 0) || (pr_PeerID ref <=? 0) || (pr_LocalID ref <=? 0)) &&
  match pr_PeerType ref with
  | PeerTypeUser => pr_PeerID ref =? viewer
  | PeerTypeChat => true
  | PeerTypeChannel => false
  end.

Definition pollPeerAccess (viewer : Z) (ref : PollMessageRef) (s : polls_db) : option poll_error :=
  if negb (validatePollRef viewer ref) then Some (PollTx ErrMessageInvalid)
  else match pr_PeerType ref with
       | PeerTypeChat => if IsChatMember (pr_PeerID ref) viewer (world s) then None else Some (PollTx ErrNotMember)
       | _ => None
       end.

Definition pollMessageMatches (msg : Message) (ref : PollMessageRef) : bool :=
  negb (Deleted msg || negb (Action msg =? ChatActionNone) || negb (bool_decide (m_PeerType msg = pr_PeerType ref)) ||
        negb (PeerID msg =? pr_PeerID ref)) &&
  (negb (bool_decide (pr_PeerType ref = PeerTypeUser)) || (FromID msg =? OwnerID msg) && Out msg).

(** The answers of a draft: the seen options, the count of correct ones; [None] when invalid. *)
Fixpoint normalize_answers (seen : list (list Z)) (answers : list PollAnswer) : option (list PollAnswer * Z) :=
  match answers with
  | [] => Some ([], 0)
  | a :: answers =>
      if (len (a_Option a) =? 0) || (len (a_Option a) >? maxPollOptionBytes) || (len (a_Text a) =? 0) ||
         (len (a_Text a) >? maxPollTextBytes) || negb (ValidString (a_Text a))
      then None
      else if bool_decide (a_Option a ∈ seen) then None
      else match normalize_answers (a_Option a :: seen) answers with
           | None => None
           | Some (l, n) => Some (mkAnswer (a_Option a) (a_Text a) (a_Correct a) 0 false :: l, (if a_Correct a then 1 else 0) + n)
           end
  end.

Definition normalizePollDraft (d : PollDraft) (now : Z) : option PollDraft :=
  if (len (d_Question d) =? 0) || (len (d_Question d) >? maxPollTextBytes) || negb (ValidString (d_Question d)) then None
  else if (len (d_Answers d) <? 2) || (len (d_Answers d) >? maxPollAnswers) then None
  else if match d_CloseDate d with
          | None => false
          | Some t => (t - now <? 5 * second) || (t - now >? 10 * minute)
          end then None
  else
    let f := d_flags d in
    let flags := mkPollFlags (PublicVoters f) (MultipleChoice f) (Quiz f) (ShuffleAnswers f) (RevotingDisabled f || Quiz f) in
    match normalize_answers [] (d_Answers d) with
    | None => None
    | Some (answers, correct) =>
        if (if Quiz f then (correct =? 0) || (negb (MultipleChoice f) && negb (correct =? 1)) else negb (correct =? 0)) then None
        else Some (mkDraft (d_Question d) answers flags false (d_CloseDate d) (d_Solution d))
    end.

Fixpoint selection_loop (seen : list (list Z)) (selected : list (list Z)) : option (list (list Z)) :=
  match selected with
  | [] => Some []
  | o :: selected =>
      if (len o =? 0) || (len o >? maxPollOptionBytes) then None
      else if bool_decide (o ∈ seen) then selection_loop seen selected
      else match selection_loop (o :: seen) selected with None => None | Some l => Some (o :: l) end
  end.

Definition normalizePollSelection (selected : list (list Z)) : option (list (list Z)) :=
  match selection_loop [] selected with
  | None => None
  | Some options => if len options >? maxPollAnswers then None else Some options
  end.

Definition samePollSelection (previous selected : list (list Z)) : bool :=
  (len previous =? len selected) && forallb (fun o => bool_decide (o ∈ previous)) selected.

(** ** The view *)

Definition pollView (id : Z) (r : poll_row) (viewer clock : Z) (s : polls_db) : Poll :=
  let closed := match polls s !! id with Some r => PollIsClosed r clock | None => false end in
  let hasVoted := PollVoteByVoter id viewer s in
  let reveal := closed || hasVoted in
  mkPoll id (po_creator r =? viewer) (po_question r)
    (map (fun '(o, x, n, chosen) => mkAnswer o (op_text x) (reveal && op_correct x) n chosen) (PollOptionResults id viewer s))
    (po_flags r) closed (po_close_date r) (if reveal then po_solution r else []) hasVoted (PollVoterCount id s).

(** ** Transactions *)

(** What [lockPollMessage] reads once the owners are locked: the message and its copies. *)
Definition reload_poll (viewer : Z) (ref : PollMessageRef) (s : polls_db) : result poll_error (Message * list Message) :=
  match message_at viewer (pr_LocalID ref) s with
  | None => Err (PollTx ErrMessageInvalid)
  | Some msg =>
      if negb (pollMessageMatches msg ref) then Err (PollTx ErrMessageInvalid)
      else match pr_PeerType ref with
           | PeerTypeChat =>
               if negb (IsChatMember (pr_PeerID ref) viewer (world s)) then Err (PollTx ErrNotMember)
               else match chatCopies msg (world s) with
                    | None => Err (PollTx ErrMessageInvalid)
                    | Some copies => Ok (msg, copies)
                    end
           | _ => Ok (msg, [msg])
           end
  end.

(** One id after the other: the poll that went in, a poll already there under the token, or an error. *)
Fixpoint insert_attempts (n : nat) (ids : list Z) (r : poll_row) (source : Z) (s : polls_db) :
    result poll_error ((Z * poll_row) * bool) * polls_db :=
  match n with
  | O => (Err ErrPollStore, s)
  | S n =>
      match ids with
      | [] => (Err ErrPollStore, s)
      | id :: ids =>
          match InsertPoll id r s with
          | None => (Err ErrPollStore, s)
          | Some (Some s') => (Ok ((id, r), false), s')
          | Some None =>
              match (if po_random r =? 0 then None else PollByCreatorRandomID (po_creator r) (po_random r) s) with
              | Some prior => if negb (po_source prior.2 =? source) then (Err ErrPollInvalid, s) else (Ok (prior, true), s)
              | None => insert_attempts n ids r source s
              end
          end
      end
  end.

Fixpoint insert_options (id pos : Z) (answers : list PollAnswer) (s : polls_db) : option polls_db :=
  match answers with
  | [] => Some s
  | a :: answers =>
      match InsertPollOption id (a_Option a) (mkOption (a_Text a) (a_Correct a) pos) s with
      | None => None
      | Some s => insert_options id (pos + 1) answers s
      end
  end.

Fixpoint insert_copies (id : Z) (copies : list Message) (s : polls_db) : result poll_error unit * polls_db :=
  match copies with
  | [] => (Ok tt, s)
  | c :: copies =>
      if Deleted c then insert_copies id copies s
      else match InsertPollMessageCopy (OwnerID c) (LocalID c) id s with
           | None => (Err ErrPollStore, s)
           | Some (n, s) => if negb (n =? 1) then (Err ErrPollInvalid, s) else insert_copies id copies s
           end
  end.

(** Past the token: the checks and the writes; [chat] is the locked row of a chat. *)
Definition poll_writes (creator : Z) (chat : option Chat) (draft : PollDraft) (msg : Message) (copies : list Message)
    (e : poll_env) (s0 : polls_db) : result poll_error (Poll * bool) * polls_db :=
  match normalizePollDraft draft (pe_now e) with
  | None => (Err ErrPollInvalid, s0)
  | Some d =>
      if match chat with
         | Some c => negb (creator =? CreatorID c) && hasChatRight (DefaultBannedRights c) "send_polls"
         | None => false
         end
      then (Err (PollTx ErrChatWriteForbidden), s0)
      else
        let r := mkPollRow creator (m_RandomID msg) (LocalID msg) (d_Question d) (d_flags d) false (d_CloseDate d) (d_Solution d) in
        match insert_attempts maxPollIDAttempts (pe_ids e) r (LocalID msg) s0 with
        | (Err x, _) => (Err x, s0)
        | (Ok ((id, prior), true), s) => (Ok (pollView id prior creator (pe_view e) s, true), s)
        | (Ok ((id, r), false), s) =>
            match insert_options id 0 (d_Answers d) s with
            | None => (Err ErrPollStore, s0)
            | Some s =>
                match insert_copies id copies s with
                | (Err x, _) => (Err x, s0)
                | (Ok _, s) => (Ok (pollView id r creator (pe_view e) s, false), s)
                end
            end
        end
  end.

Definition create_tx (creator : Z) (ref : PollMessageRef) (chat : option Chat) (draft : PollDraft) (e : poll_env) (s : polls_db) :
    result poll_error (Poll * bool) * polls_db :=
  match reload_poll creator ref s with
  | Err x => (Err x, s)
  | Ok (msg, copies) =>
      if negb (Out msg) || negb (FromID msg =? creator) then (Err (PollTx ErrMessageInvalid), s)
      else match (if m_RandomID msg =? 0 then None else PollByCreatorRandomID creator (m_RandomID msg) s) with
           | Some (id, prior) =>
               if negb (po_source prior =? LocalID msg) then (Err ErrPollInvalid, s)
               else (Ok (pollView id prior creator (pe_view e) s, true), s)
           | None => poll_writes creator chat draft msg copies e s
           end
  end.

(** The poll of a message, its row locked. *)
Definition poll_for_mutation (viewer : Z) (ref : PollMessageRef) (s : polls_db) : result poll_error (Z * poll_row) :=
  match reload_poll viewer ref s with
  | Err x => Err x
  | Ok _ =>
      match PollByMessage viewer (pr_LocalID ref) (pr_PeerType ref) (pr_PeerID ref) s with
      | None => Err (PollTx ErrMessageInvalid)
      | Some (id, _) =>
          match polls s !! id with None => Err (PollTx ErrMessageInvalid) | Some r => Ok (id, r) end
      end
  end.

Fixpoint insert_selection (id voter : Z) (options : list (list Z)) (s : polls_db) : option polls_db :=
  match options with
  | [] => Some s
  | o :: options =>
      match InsertPollVoteOption id voter o s with None => None | Some s => insert_selection id voter options s end
  end.

(** The new selection in place of the old one. *)
Definition vote_writes (id voter : Z) (options : list (list Z)) (s : polls_db) : option polls_db :=
  match options with
  | [] => Some (if PollVoteByVoter id voter s then DeletePollVote id voter s else s)
  | _ => insert_selection id voter options (DeletePollVoteOptionsByVoter id voter (InsertPollVote id voter s))
  end.

Definition vote_tx (viewer : Z) (ref : PollMessageRef) (selected : list (list Z)) (e : poll_env) (s : polls_db) :
    result poll_error Poll * polls_db :=
  match poll_for_mutation viewer ref s with
  | Err x => (Err x, s)
  | Ok (id, r) =>
      match normalizePollSelection selected with
      | None => (Err ErrPollInvalid, s)
      | Some options =>
          let hasVote := PollVoteByVoter id viewer s in
          if samePollSelection (PollVoteOptionsByVoter id viewer s) options then (Ok (pollView id r viewer (pe_view e) s), s)
          else if PollIsClosed r (pe_clock e) then (Err ErrPollClosed, s)
          else if (len options >? 1) && negb (MultipleChoice (po_flags r)) then (Err ErrPollInvalid, s)
          else if negb (forallb (fun o => bool_decide (o ∈ map (fun x => x.1.1.1) (PollOptionResults id viewer s))) options)
          then (Err ErrPollInvalid, s)
          else if RevotingDisabled (po_flags r) && hasVote then (Err ErrPollVoteNotAllowed, s)
          else match vote_writes id viewer options s with
               | None => (Err ErrPollStore, s)
               | Some s' => (Ok (pollView id r viewer (pe_view e) s'), s')
               end
      end
  end.

Definition close_tx (caller : Z) (ref : PollMessageRef) (s : polls_db) : result poll_error bool * polls_db :=
  match reload_poll caller ref s with
  | Err x => (Err x, s)
  | Ok _ =>
      match PollByMessage caller (pr_LocalID ref) (pr_PeerType ref) (pr_PeerID ref) s with
      | None => (Err (PollTx ErrMessageInvalid), s)
      | Some (id, r) =>
          if negb (po_creator r =? caller) then (Err ErrPollDenied, s)
          else match polls s !! id with
               | None => (Err (PollTx ErrMessageInvalid), s)
               | Some r =>
                   if po_closed r then (Ok false, s)
                   else (Ok true, with_polls (<[id := mkPollRow (po_creator r) (po_random r) (po_source r) (po_question r) (po_flags r)
                                                        true (po_close_date r) (po_solution r)]> (polls s)) s)
               end
      end
  end.

(** ** Requests *)

Inductive poll_reply : Type :=
| PoError (x : poll_error)
| PoPoll (p : Poll)
| PoCreated (p : Poll) (duplicate : bool)
| PoClosed (changed : bool)
| PoDone.

Notation pprog := (prog polls_db poll_env poll_reply).

Definition pcall {A : Type} (op : poll_env -> polls_db -> A * polls_db) (k : A -> pprog) : pprog :=
  store_call pe_fault op (fun a => match a with None => Ret (PoError ErrPollStore) | Some a => k a end).

(** [lockPollMessage] up to its locks: membership, the message, its copies. *)
Definition lockPollMessage (viewer : Z) (ref : PollMessageRef) (k : pprog) : pprog :=
  pcall (fun _ s => (pollPeerAccess viewer ref s, s)) (fun denied =>
    match denied with
    | Some x => Ret (PoError x)
    | None =>
        pcall (fun _ s => (message_at viewer (pr_LocalID ref) s, s)) (fun pre =>
          match pre with
          | None => Ret (PoError (PollTx ErrMessageInvalid))
          | Some pre =>
              if negb (pollMessageMatches pre ref) then Ret (PoError (PollTx ErrMessageInvalid))
              else match pr_PeerType ref with
                   | PeerTypeChat =>
                       pcall (fun _ s => (chatCopies pre (world s), s)) (fun copies =>
                         match copies with None => Ret (PoError (PollTx ErrMessageInvalid)) | Some _ => k end)
                   | _ => k
                   end
          end)
    end).

Definition CreatePoll (creator : Z) (ref : PollMessageRef) (draft : PollDraft) : pprog :=
  if negb (validatePollRef creator ref) then Ret (PoError (PollTx ErrMessageInvalid))
  else
    let create chat :=
      lockPollMessage creator ref (pcall (create_tx creator ref chat draft) (fun a =>
        match a with Err x => Ret (PoError x) | Ok (p, dup) => Ret (PoCreated p dup) end)) in
    match pr_PeerType ref with
    | PeerTypeChat =>
        pcall (fun _ s => (pollPeerAccess creator ref s, s)) (fun denied =>
          match denied with
          | Some x => Ret (PoError x)
          | None =>
              pcall (fun _ s => (chats (world s) !! pr_PeerID ref, s)) (fun chat =>
                match chat with None => Ret (PoError (PollTx ErrNotMember)) | Some c => create (Some c) end)
          end)
    | _ => create None
    end.

(** One snapshot. *)
Definition read_tx (viewer : Z) (ref : PollMessageRef) (e : poll_env) (s : polls_db) : result poll_error Poll :=
  match pollPeerAccess viewer ref s with
  | Some x => Err x
  | None =>
      match PollByMessage viewer (pr_LocalID ref) (pr_PeerType ref) (pr_PeerID ref) s with
      | None => Err (PollTx ErrMessageInvalid)
      | Some (id, r) => Ok (pollView id r viewer (pe_view e) s)
      end
  end.

Definition PollForMessage (viewer : Z) (ref : PollMessageRef) : pprog :=
  if negb (validatePollRef viewer ref) then Ret (PoError (PollTx ErrMessageInvalid))
  else pcall (fun e s => (read_tx viewer ref e s, s)) (fun a =>
         match a with Err x => Ret (PoError x) | Ok p => Ret (PoPoll p) end).

Definition CastPollVote (viewer : Z) (ref : PollMessageRef) (selected : list (list Z)) : pprog :=
  if negb (validatePollRef viewer ref) then Ret (PoError (PollTx ErrMessageInvalid))
  else lockPollMessage viewer ref (pcall (vote_tx viewer ref selected) (fun a =>
         match a with Err x => Ret (PoError x) | Ok p => Ret (PoPoll p) end)).

Definition ClosePoll (caller : Z) (ref : PollMessageRef) : pprog :=
  if negb (validatePollRef caller ref) then Ret (PoError (PollTx ErrMessageInvalid))
  else lockPollMessage caller ref (pcall (fun _ s => close_tx caller ref s) (fun a =>
         match a with Err x => Ret (PoError x) | Ok b => Ret (PoClosed b) end)).

(** *** The requests on messages

    Each of their steps leaves the tables of messages as [MsgRuns] says.  The trigger drops the
    link of every copy that is now marked deleted, and the poll with its last link, options and
    votes with it. *)

Definition live_in (w : db) (k : Z * Z) : bool :=
  match msgs (box_of w k.1) !! k.2 with Some m => negb (Deleted m) | None => false end.

(** Whether some copy links to the poll. *)
Definition linked (copies : gmap (Z * Z) Z) (id : Z) : bool := bool_decide (map_Exists (fun _ p => p = id) copies).

Definition poll_message_copy_cleanup (w : db) (s : polls_db) : polls_db :=
  let copies := filter (fun '(k, _) => live_in w k = true) (poll_message_copies s) in
  let stays id := negb (linked (poll_message_copies s) id) || linked copies id in
  mkPolls w (filter (fun '(id, _) => stays id = true) (polls s))
    (filter (fun x => stays x.1.1 = true) (poll_options s))
    (filter (fun x => stays x.1 = true) (poll_votes s))
    (filter (fun x => stays x.1.1 = true) (poll_vote_options s)) copies.

Definition mail_env (e : poll_env) : env := mkEnv (pe_fault e) (pe_now e).

Fixpoint beside (p : prog db env (result tx_error value)) : pprog :=
  match p with
  | Ret _ => Ret PoDone
  | Act f k => Act (fun e s => poll_message_copy_cleanup (f (mail_env e) (world s)) s)
                   (fun e s => beside (k (mail_env e) (world s)))
  end.

Inductive poll_request : Type :=
| ReqCreatePoll (creator : Z) (ref : PollMessageRef) (draft : PollDraft)
| ReqPollForMessage (viewer : Z) (ref : PollMessageRef)
| ReqCastVote (viewer : Z) (ref : PollMessageRef) (selected : list (list Z))
| ReqClosePoll (caller : Z) (ref : PollMessageRef)
| ReqMail (r : request).

Definition poll_program (q : poll_request) : pprog :=
  match q with
  | ReqCreatePoll c ref d => CreatePoll c ref d
  | ReqPollForMessage v ref => PollForMessage v ref
  | ReqCastVote v ref sel => CastPollVote v ref sel
  | ReqClosePoll c ref => ClosePoll c ref
  | ReqMail r => beside (serve r)
  end.
