(* ===== verification/PollFacts.v ===== *)
(** * Polls: what the tables mean

    A voter's ballot, the menu of a poll (its options in order), the tally, and what the
    statements do to them. *)

From S2P Require Import Prelude.
From S2P Require Import Threads.
From S2P Require Import Limits.
From S2P Require Import PeerHash.
From S2P Require Import Mailbox.
From S2P Require Import MsgStore.
From S2P Require Import MsgSafety.
From S2P Require Import MsgRuns.
From S2P Require Import Utf8.
From S2P Require Import Polls.
From stdpp Require Import list_numbers.

Open Scope Z_scope.

(** ** The menu *)

Notation item := (list Z * option_row)%type.

Definition before (a b : item) : Prop := op_position a.2 < op_position b.2.

(** The options of a poll at the positions 0, 1, ... *)
Record menu (id : Z) (m : gmap (Z * list Z) option_row) (l : list item) : Prop := {
  me_rows : forall o r, (o, r) ∈ l <-> m !! (id, o) = Some r;
  me_positions : map (fun x : item => op_position x.2) l = seqZ 0 (len l)
}.

Lemma positions_before l i : map (fun x : item => op_position x.2) l = seqZ i (len l) -> StronglySorted before l.
Proof.
  revert i. induction l as [|a l IH]; intros i H; [constructor|].
  cbn in H. rewrite len_cons, seqZ_cons in H by (pose proof (len_nonneg l); lia).
  injection H as Ha H. replace (Z.pred (len l + 1)) with (len l) in H by lia.
  constructor; [exact (IH _ H)|]. apply Forall_forall. intros x Hx. unfold before. rewrite Ha.
  assert (Hin : op_position x.2 ∈ seqZ (Z.succ i) (len l)) by (rewrite <- H; by apply (list_elem_of_fmap_2 (fun x : item => op_position x.2))).
  apply elem_of_seqZ in Hin. lia.
Qed.

Lemma sort_unique (l l' : list item) : StronglySorted before l -> l' ≡ₚ l -> StronglySorted position_le l' -> l' = l.
Proof.
  intros Hl. revert l'. induction Hl as [|a l Hl IH Ha]; intros l' Hp Hs.
  - by apply Permutation_nil_r in Hp.
  - destruct l' as [|b l']; [by apply Permutation_nil_l in Hp|]. apply StronglySorted_inv in Hs as [Hs Hb].
    assert (Hin : b ∈ a :: l) by (rewrite <- Hp; constructor). apply elem_of_cons in Hin as [->|H1].
    + f_equal. apply IH; [|done]. by apply Permutation_cons_inv in Hp.
    + rewrite Forall_forall in Ha, Hb. pose proof (Ha b H1) as Hlt. unfold before in Hlt.
      assert (Hin : a ∈ b :: l') by (rewrite Hp; constructor). apply elem_of_cons in Hin as [->|H2]; [lia|].
      specialize (Hb a H2). unfold position_le in Hb. lia.
Qed.

#[global] Instance position_le_trans : Transitive position_le.
Proof. intros a b c. unfold position_le. lia. Qed.
#[global] Instance position_le_total : Total position_le.
Proof. intros a b. unfold position_le. lia. Qed.

Lemma before_NoDup l : StronglySorted before l -> NoDup l.
Proof.
  induction 1 as [|a l Hl IH Ha]; constructor; [|done]. intros Hin. rewrite Forall_forall in Ha. specialize (Ha a Hin).
  unfold before in Ha. lia.
Qed.

Definition raw_options (id : Z) (m : gmap (Z * list Z) option_row) : list item :=
  omap (fun '((p, o), r) => if p =? id then Some (o, r) else None) (map_to_list m).

Lemma elem_raw_options id m o r : (o, r) ∈ raw_options id m <-> m !! (id, o) = Some r.
Proof.
  unfold raw_options. rewrite list_elem_of_omap. split.
  - intros ([[p o'] r'] & Hin & E). apply elem_of_map_to_list in Hin. destruct (Z.eqb_spec p id) as [->|]; [|done]. by simplify_eq.
  - intros H. exists ((id, o), r). split; [by apply elem_of_map_to_list|]. by rewrite Z.eqb_refl.
Qed.

Lemma raw_options_NoDup id m : NoDup (raw_options id m).*1.
Proof.
  unfold raw_options.
  assert (E : forall l, (omap (fun '((p, o), r) => if p =? id then Some (o, r) else None) l : list item).*1 =
                        omap (fun k : Z * list Z => if k.1 =? id then Some k.2 else None) (l.*1)).
  { induction l as [|[[p o] r] l IH]; [done|]. cbn. destruct (p =? id); cbn; by rewrite IH. }
  rewrite E. pose proof (NoDup_fst_map_to_list m) as H. induction H as [|[p o] l Hn Hd IH]; [constructor|]. cbn.
  destruct (Z.eqb_spec p id) as [->|]; [|done]. constructor; [|done].
  intros ([p' o'] & Hin & E')%list_elem_of_omap. cbn in E'. destruct (Z.eqb_spec p' id) as [->|]; [|done]. by simplify_eq.
Qed.

Lemma menu_NoDup id m l : menu id m l -> NoDup l.*1.
Proof.
  intros [Hr Hp]. assert (E : l ≡ₚ raw_options id m).
  { apply NoDup_Permutation; [by eapply before_NoDup, positions_before| |].
    - eapply NoDup_fmap_1, raw_options_NoDup.
    - intros [o r]. by rewrite Hr, elem_raw_options. }
  rewrite E. apply raw_options_NoDup.
Qed.

(** The reading order is the menu's. *)
Lemma options_of_menu id s l : menu id (poll_options s) l -> options_of id s = l.
Proof.
  intros Hm. pose proof (menu_NoDup _ _ _ Hm) as Hnd. destruct Hm as [Hr Hp]. unfold options_of. fold (raw_options id (poll_options s)).
  apply sort_unique; [by eapply positions_before| |].
  - rewrite merge_sort_Permutation. apply NoDup_Permutation; [by eapply NoDup_fmap_1, raw_options_NoDup|by eapply NoDup_fmap_1|].
    intros [o r]. by rewrite Hr, elem_raw_options.
  - apply StronglySorted_merge_sort; apply _.
Qed.

Lemma menu_same id m m' l : (forall o, m' !! (id, o) = m !! (id, o)) -> menu id m l -> menu id m' l.
Proof. intros E [Hr Hp]. split; [|done]. intros o r. by rewrite E. Qed.

Lemma menu_append id m l o x :
  menu id m l -> m !! (id, o) = None -> op_position x = len l -> menu id (<[(id, o) := x]> m) (l ++ [(o, x)]).
Proof.
  intros [Hr Hp] Hn Ex. split.
  - intros o' r. rewrite elem_of_app, list_elem_of_singleton, Hr. destruct (decide (o' = o)) as [->|Hne].
    + rewrite lookup_insert_eq. split; [intros [?|?]; congruence|]. intros [= ->]. by right.
    + rewrite lookup_insert_ne by congruence. split; [intros [?|?]; congruence|]. by left.
  - rewrite map_app, Hp, len_app. change (len [(o, x)]) with 1. pose proof (len_nonneg l).
    rewrite seqZ_app by lia. cbn. by rewrite Ex.
Qed.

(** ** Ballots *)

Definition ballot (id voter : Z) (v : gset (Z * Z * list Z)) : gset (list Z) :=
  set_map snd (filter (fun x : Z * Z * list Z => x.1 = (id, voter)) v).

Lemma elem_of_ballot id voter v o : o ∈ ballot id voter v <-> (id, voter, o) ∈ v.
Proof.
  unfold ballot. rewrite elem_of_map. split.
  - intros ([k o'] & -> & [E Hin]%elem_of_filter). cbn in *. by rewrite <- E.
  - intros H. exists (id, voter, o). split; [done|]. by apply elem_of_filter.
Qed.

Lemma chosen_elements id voter s :
  NoDup (PollVoteOptionsByVoter id voter s) /\ list_to_set (PollVoteOptionsByVoter id voter s) = ballot id voter (poll_vote_options s).
Proof.
  unfold PollVoteOptionsByVoter. split.
  - apply NoDup_fmap_2_strong; [|apply NoDup_elements]. intros [k o] [k' o'] H1 H2 E. cbn in E.
    apply elem_of_elements, elem_of_filter in H1 as [H1 _], H2 as [H2 _]. cbn in *. congruence.
  - apply set_eq. intros o. rewrite elem_of_list_to_set, elem_of_ballot, list_elem_of_fmap. split.
    + intros ([k o'] & -> & H). apply elem_of_elements, elem_of_filter in H as [E H]. cbn in *. by rewrite <- E.
    + intros H. exists (id, voter, o). split; [done|]. by apply elem_of_elements, elem_of_filter.
Qed.

(** The selection of a vote, without its repetitions. *)
Lemma selection_loop_spec seen selected :
  match selection_loop seen selected with
  | None => Exists (fun o => len o = 0 \/ len o > maxPollOptionBytes) selected
  | Some l =>
      Forall (fun o => 0 < len o <= maxPollOptionBytes) selected /\ NoDup l /\
      forall o, o ∈ l <-> o ∈ selected /\ o ∉ seen
  end.
Proof.
  revert seen. induction selected as [|o selected IH]; intros seen; cbn [selection_loop].
  - split_and!; [constructor|constructor|]. intros o. rewrite elem_of_nil. naive_solver.
  - pose proof (len_nonneg o). destruct (Z.eqb_spec (len o) 0); [by constructor; left|]. cbn [orb].
    destruct (Z.gtb_spec (len o) maxPollOptionBytes); [constructor; right; lia|].
    case_bool_decide as Hseen.
    + specialize (IH seen). destruct (selection_loop seen selected); [|by right]. destruct IH as (Hf & Hn & Hin).
      split_and!; [constructor; [lia|done]|done|]. intros x. rewrite Hin, elem_of_cons. naive_solver.
    + specialize (IH (o :: seen)). destruct (selection_loop (o :: seen) selected) as [l|]; [|by right]. destruct IH as (Hf & Hn & Hin).
      split_and!; [constructor; [lia|done]| |].
      * constructor; [|done]. rewrite Hin, elem_of_cons. naive_solver.
      * intros x. rewrite !elem_of_cons, Hin, elem_of_cons. destruct (decide (x = o)) as [->|]; naive_solver.
Qed.

(** The chosen set, or no valid selection. *)
Definition chosen_set (selected : list (list Z)) : option (gset (list Z)) :=
  if bool_decide (Forall (fun o => 0 < len o <= maxPollOptionBytes) selected) &&
     (Z.of_nat (size (list_to_set selected : gset (list Z))) <=? maxPollAnswers)
  then Some (list_to_set selected) else None.

Lemma normalizePollSelection_spec selected :
  match normalizePollSelection selected with
  | None => chosen_set selected = None
  | Some l => NoDup l /\ chosen_set selected = Some (list_to_set l) /\ Z.of_nat (size (list_to_set l : gset (list Z))) = len l
  end.
Proof.
  unfold normalizePollSelection, chosen_set. pose proof (selection_loop_spec [] selected) as H.
  destruct (selection_loop [] selected) as [l|].
  - destruct H as (Hf & Hn & Hin).
    assert (E : list_to_set selected = (list_to_set l : gset (list Z))).
    { apply set_eq. intros o. rewrite !elem_of_list_to_set, Hin, elem_of_nil. naive_solver. }
    rewrite E, bool_decide_eq_true_2 by done. cbn [andb].
    assert (Es : Z.of_nat (size (list_to_set l : gset (list Z))) = len l) by (by rewrite size_list_to_set).
    rewrite Es. destruct (Z.gtb_spec (len l) maxPollAnswers).
    + by replace (len l <=? maxPollAnswers) with false by lia.
    + replace (len l <=? maxPollAnswers) with true by lia. done.
  - rewrite bool_decide_eq_false_2; [done|]. rewrite Forall_forall, Exists_exists in *. destruct H as (o & Hin & Ho).
    intros Hf. specialize (Hf o Hin). lia.
Qed.

Lemma samePollSelection_spec previous selected :
  NoDup previous -> NoDup selected ->
  samePollSelection previous selected = bool_decide (list_to_set selected = (list_to_set previous : gset (list Z))).
Proof.
  intros Hp Hs. unfold samePollSelection. apply eq_bool_prop_intro. rewrite andb_True, bool_decide_spec, !Is_true_true, Z.eqb_eq, forallb_forall.
  split.
  - intros [Hl Hin]. assert (Hsub : (list_to_set selected : gset (list Z)) ⊆ list_to_set previous).
    { intros o. rewrite !elem_of_list_to_set. intros Ho. specialize (Hin o). rewrite bool_decide_eq_true in Hin. by apply Hin, list_elem_of_In. }
    apply set_eq. intros o. split; [apply Hsub|]. intros Ho. destruct (decide (o ∈ (list_to_set selected : gset (list Z)))) as [|Hno]; [done|].
    assert (Hlt : (size (list_to_set selected : gset (list Z)) < size (list_to_set previous : gset (list Z)))%nat).
    { apply subset_size. split; [done|]. set_solver. }
    rewrite !size_list_to_set in Hlt by done. unfold len in Hl. lia.
  - intros E. split.
    + unfold len. f_equal. rewrite <- (size_list_to_set (C := gset (list Z)) selected), E by done. by rewrite size_list_to_set.
    + intros o Ho. apply bool_decide_eq_true. rewrite <- (elem_of_list_to_set (C := gset (list Z))), <- E, elem_of_list_to_set.
      by apply list_elem_of_In.
Qed.

(** ** The tally *)

Definition ballots_of (id : Z) (v : gset (Z * Z * list Z)) : gset (Z * Z * list Z) := filter (fun x => x.1.1 = id) v.

Definition picks_in (l : list (list Z)) (v : gset (Z * Z * list Z)) : Z :=
  Z.of_nat (size (filter (fun x => x.2 ∈ l) v)).

Lemma picks_in_cons o l v : o ∉ l -> picks_in (o :: l) v = Z.of_nat (size (filter (fun x => x.2 = o) v)) + picks_in l v.
Proof.
  intros Ho. unfold picks_in. rewrite <- Nat2Z.inj_add, <- size_union by set_solver. do 2 f_equal. apply set_eq. intros x.
  rewrite elem_of_union, !elem_of_filter, elem_of_cons. naive_solver.
Qed.

Lemma sum_votes (id : Z) (l : list (list Z)) s :
  NoDup l -> foldr Z.add 0 (map (fun o => option_votes id o s) l) = picks_in l (ballots_of id (poll_vote_options s)).
Proof.
  induction 1 as [|o l Ho Hl IH].
  - cbn. unfold picks_in. symmetry. rewrite (proj2 (size_empty_iff _)); [done|]. apply set_equiv. intros x. rewrite elem_of_filter. set_solver.
  - cbn. rewrite picks_in_cons, <- IH by done. f_equal. unfold option_votes, ballots_of. do 2 f_equal. apply set_eq. intros x.
    rewrite !elem_of_filter. naive_solver.
Qed.
