(* ===== verification/PollSafety.v ===== *)
(** * Polls: the invariant, and what every transaction does to it *)

From S2P Require Import Prelude.
From S2P Require Import Threads.
From S2P Require Import Limits.
From S2P Require Import PeerHash.
From S2P Require Import Mailbox.
From S2P Require Import MsgStore.
From S2P Require Import MsgSafety.
From S2P Require Import MsgRuns.
From S2P Require Import Utf8.
From S2P Require Import Polls.
From S2P Require Import PollFacts.
From stdpp Require Import list_numbers.

Open Scope Z_scope.

(** ** The invariant *)

Definition corrects (l : list item) : Z := len (List.filter (fun x => op_correct x.2) l).

(** A poll has two to ten options within their sizes; a quiz has a right one, exactly one
    when one is to be chosen, and its votes are final; no other poll has any. *)
Record shaped (r : poll_row) (l : list item) : Prop := {
  sh_question : 1 <= len (po_question r) <= maxPollTextBytes;
  sh_count : 2 <= len l <= maxPollAnswers;
  sh_sizes : Forall (fun x => 1 <= len x.1 <= maxPollOptionBytes /\ 1 <= len (op_text x.2) <= maxPollTextBytes) l;
  sh_quiz : Quiz (po_flags r) = true ->
    RevotingDisabled (po_flags r) = true /\ 1 <= corrects l /\ (MultipleChoice (po_flags r) = false -> corrects l = 1);
  sh_plain : Quiz (po_flags r) = false -> corrects l = 0
}.

Record polls_ok (s : polls_db) : Prop := {
  pk_world : db_ok (world s);
  pk_row : forall id r, polls s !! id = Some r -> exists l, menu id (poll_options s) l /\ shaped r l;
  pk_option : forall id o x, poll_options s !! (id, o) = Some x -> is_Some (polls s !! id);
  pk_ballot : forall id v o, (id, v, o) ∈ poll_vote_options s -> (id, v) ∈ poll_votes s /\ is_Some (poll_options s !! (id, o));
  pk_vote : forall id v, (id, v) ∈ poll_votes s -> exists o, (id, v, o) ∈ poll_vote_options s;
  pk_single : forall id r v o o', polls s !! id = Some r -> MultipleChoice (po_flags r) = false ->
    (id, v, o) ∈ poll_vote_options s -> (id, v, o') ∈ poll_vote_options s -> o = o';
  pk_token : forall id r id' r', polls s !! id = Some r -> polls s !! id' = Some r' -> po_random r <> 0 ->
    po_creator r = po_creator r' -> po_random r = po_random r' -> id = id';
  pk_copy : forall k id, poll_message_copies s !! k = Some id -> is_Some (polls s !! id) /\ live_in (world s) k = true;
  pk_linked : forall id, is_Some (polls s !! id) -> exists k, poll_message_copies s !! k = Some id
}.

(** ** The guarantee *)

Definition closed_row (r : poll_row) : poll_row :=
  mkPollRow (po_creator r) (po_random r) (po_source r) (po_question r) (po_flags r) true (po_close_date r) (po_solution r).

(** What becomes of a poll in a step: it goes with its last living copy; otherwise its
    content stays, it is at most closed, and votes that are final are kept. *)
Record poll_kept (id : Z) (r r' : poll_row) (s s' : polls_db) : Prop := {
  kp_row : r' = r \/ r' = closed_row r;
  kp_options : forall o, poll_options s' !! (id, o) = poll_options s !! (id, o);
  kp_closed : po_closed r = true -> forall v, ballot id v (poll_vote_options s') = ballot id v (poll_vote_options s);
  kp_final : RevotingDisabled (po_flags r) = true -> forall v, ballot id v (poll_vote_options s) <> ∅ ->
    ballot id v (poll_vote_options s') = ballot id v (poll_vote_options s)
}.

Record poll_guar (s s' : polls_db) : Prop := {
  pg_world : guar (world s) (world s');
  pg_polls : forall id r, polls s !! id = Some r ->
    (polls s' !! id = None /\ forall k, poll_message_copies s !! k = Some id -> live_in (world s') k = false) \/
    (exists r', polls s' !! id = Some r' /\ poll_kept id r r' s s')
}.

Lemma kept_same id r s s' :
  (forall o, poll_options s' !! (id, o) = poll_options s !! (id, o)) ->
  (forall v, ballot id v (poll_vote_options s') = ballot id v (poll_vote_options s)) -> poll_kept id r r s s'.
Proof. intros Ho Hb. constructor; auto. Qed.

Lemma poll_guar_refl s : poll_guar s s.
Proof. split; [reflexivity|]. intros id r Hr. right. exists r. split; [done|]. by apply kept_same. Qed.

(** ** Ballots under the invariant *)

Lemma voted_ballot id v s : polls_ok s -> PollVoteByVoter id v s = negb (bool_decide (ballot id v (poll_vote_options s) = ∅)).
Proof.
  intros Hs. unfold PollVoteByVoter. apply eq_bool_prop_intro. rewrite negb_True, !bool_decide_spec. split.
  - intros H E. destruct (pk_vote _ Hs _ _ H) as [o Ho]. apply elem_of_ballot in Ho. set_solver.
  - intros H. apply set_choose_L in H as [o Ho]. apply elem_of_ballot in Ho. by destruct (pk_ballot _ Hs _ _ _ Ho).
Qed.

(** The new selection in place of the old. *)
Definition revote (id v : Z) (sel : gset (list Z)) (s : polls_db) : polls_db :=
  with_votes (if bool_decide (sel = ∅) then poll_votes s ∖ {[(id, v)]} else {[(id, v)]} ∪ poll_votes s)
    (filter (fun x => x.1 <> (id, v)) (poll_vote_options s) ∪ set_map (fun o => (id, v, o)) sel) s.

Lemma elem_revote id v sel s id' v' o :
  (id', v', o) ∈ poll_vote_options (revote id v sel s) <->
  ((id', v') <> (id, v) /\ (id', v', o) ∈ poll_vote_options s) \/ (id' = id /\ v' = v /\ o ∈ sel).
Proof. cbn. rewrite elem_of_union, elem_of_filter, elem_of_map. cbn. naive_solver. Qed.

Lemma revote_ballot id v sel s id' v' :
  ballot id' v' (poll_vote_options (revote id v sel s)) =
  if bool_decide ((id', v') = (id, v)) then sel else ballot id' v' (poll_vote_options s).
Proof.
  apply set_eq. intros o. rewrite elem_of_ballot, elem_revote. case_bool_decide as E.
  - injection E as -> ->. naive_solver.
  - rewrite elem_of_ballot. naive_solver.
Qed.

Lemma elem_revoters id v sel s id' v' :
  (id', v') ∈ poll_votes (revote id v sel s) <->
  ((id', v') <> (id, v) /\ (id', v') ∈ poll_votes s) \/ ((id', v') = (id, v) /\ sel <> ∅).
Proof.
  cbn. case_bool_decide as E.
  - rewrite elem_of_difference, elem_of_singleton. naive_solver.
  - rewrite elem_of_union, elem_of_singleton. destruct (decide ((id', v') = (id, v))); naive_solver.
Qed.

Lemma insert_selection_spec id v options s :
  (id, v) ∈ poll_votes s -> NoDup options ->
  (forall o, o ∈ options -> is_Some (poll_options s !! (id, o)) /\ (id, v, o) ∉ poll_vote_options s) ->
  insert_selection id v options s =
    Some (with_votes (poll_votes s) (poll_vote_options s ∪ set_map (fun o => (id, v, o)) (list_to_set options : gset (list Z))) s).
Proof.
  intros Hv Hn. revert s Hv. induction Hn as [|o options Ho Hn IH]; intros s Hv Hs; cbn [insert_selection].
  - rewrite list_to_set_nil, set_map_empty, union_empty_r_L. by destruct s.
  - destruct (Hs o) as [Hi Hno]; [constructor|]. unfold InsertPollVoteOption.
    rewrite (bool_decide_eq_true_2 _ Hv), (bool_decide_eq_true_2 _ Hi), (bool_decide_eq_false_2 _ Hno). cbn [andb negb].
    rewrite IH.
    + unfold with_votes. cbn [world polls poll_options poll_votes poll_vote_options poll_message_copies]. do 2 f_equal.
      apply set_eq. intros x. rewrite list_to_set_cons. set_solver.
    + done.
    + intros o' Ho'. cbn. destruct (Hs o') as [? ?]; [by constructor|]. split; [done|].
      rewrite elem_of_union, elem_of_singleton. intros [[= ->]|]; done.
Qed.

Lemma vote_writes_spec id v options s :
  polls_ok s -> NoDup options -> (forall o, o ∈ options -> is_Some (poll_options s !! (id, o))) ->
  vote_writes id v options s = Some (revote id v (list_to_set options) s).
Proof.
  intros Hs Hn Ho. destruct options as [|o options].
  - unfold vote_writes, revote. cbn [list_to_set]. rewrite bool_decide_eq_true_2 by done. rewrite set_map_empty, union_empty_r_L.
    unfold PollVoteByVoter. case_bool_decide as Hv; [done|]. f_equal. destruct s as [w p q a b c]. unfold with_votes. cbn in *. f_equal.
    + set_solver.
    + apply set_eq. intros [[id' v'] o]. rewrite elem_of_filter. cbn. split; [|naive_solver]. intros H. split; [|done].
      intros [= -> ->]. by destruct (pk_ballot _ Hs _ _ _ H).
  - unfold vote_writes. rewrite insert_selection_spec; [| |done|].
    + f_equal. unfold revote. rewrite bool_decide_eq_false_2; [done|]. rewrite list_to_set_cons. set_solver.
    + cbn. set_solver.
    + intros o' Ho'. split; [by apply Ho|]. cbn. rewrite elem_of_filter. cbn. naive_solver.
Qed.

(** A ballot of known options, one when one is to be chosen, keeps the tables right. *)
Lemma revote_ok id r v sel s :
  polls_ok s -> polls s !! id = Some r -> (forall o, o ∈ sel -> is_Some (poll_options s !! (id, o))) ->
  (MultipleChoice (po_flags r) = false -> (size sel <= 1)%nat) -> polls_ok (revote id v sel s).
Proof.
  intros Hs Hr Ho Hm. split.
  - apply (pk_world _ Hs).
  - apply (pk_row _ Hs).
  - apply (pk_option _ Hs).
  - intros id' v' o. rewrite elem_revote, elem_revoters. intros [[Hne H]|(-> & -> & H)].
    + destruct (pk_ballot _ Hs _ _ _ H). split; [by left|done].
    + split; [right; set_solver|]. by apply Ho.
  - intros id' v'. rewrite elem_revoters. intros [[Hne H]|[[= -> ->] H]].
    + destruct (pk_vote _ Hs _ _ H) as [o Ho']. exists o. rewrite elem_revote. by left.
    + apply set_choose_L in H as [o Ho']. exists o. rewrite elem_revote. by right.
  - intros id' r' v' o o' Hr' Hmc. rewrite !elem_revote. cbn in Hr'.
    intros [[Hne H]|(-> & -> & H)] [[Hne' H']|(E1 & E2 & H')]; try congruence; try (subst; done).
    + by eapply (pk_single _ Hs).
    + rewrite Hr in Hr'. injection Hr' as <-. specialize (Hm Hmc).
      destruct (decide (o = o')) as [|Hd]; [done|]. exfalso.
      assert (Hsub : ({[o; o']} : gset (list Z)) ⊆ sel) by set_solver. apply subseteq_size in Hsub.
      rewrite size_union, !size_singleton in Hsub by set_solver. lia.
  - apply (pk_token _ Hs).
  - apply (pk_copy _ Hs).
  - apply (pk_linked _ Hs).
Qed.

(** ** Voting *)

(** What decides a vote: what is listed, what the voter has chosen and chooses, whether the
    poll is closed. *)
Definition verdict (f : poll_flags) (listed mine : gset (list Z)) (choice : option (gset (list Z))) (closed : bool) : option poll_error :=
  match choice with
  | None => Some ErrPollInvalid
  | Some sel =>
      if bool_decide (sel = mine) then None
      else if closed then Some ErrPollClosed
      else if bool_decide (1 < size sel)%nat && negb (MultipleChoice f) then Some ErrPollInvalid
      else if negb (bool_decide (sel ⊆ listed)) then Some ErrPollInvalid
      else if RevotingDisabled f && negb (bool_decide (mine = ∅)) then Some ErrPollVoteNotAllowed
      else None
  end.

Definition listed (id : Z) (s : polls_db) : gset (list Z) := list_to_set (options_of id s).*1.

Lemma elem_listed id r s o : polls_ok s -> polls s !! id = Some r -> o ∈ listed id s <-> is_Some (poll_options s !! (id, o)).
Proof.
  intros Hs Hr. destruct (pk_row _ Hs _ _ Hr) as (l & Hm & _). unfold listed. rewrite (options_of_menu _ _ _ Hm).
  rewrite elem_of_list_to_set, list_elem_of_fmap. split.
  - intros ([o' x] & -> & Hin). exists x. by apply (me_rows _ _ _ Hm).
  - intros [x Hx]. exists (o, x). split; [done|]. by apply (me_rows _ _ _ Hm).
Qed.

Lemma revote_same id v s : polls_ok s -> revote id v (ballot id v (poll_vote_options s)) s = s.
Proof.
  intros Hs. destruct s as [w p q a b c] eqn:E. rewrite <- E in *. unfold revote, with_votes.
  transitivity (mkPolls (world s) (polls s) (poll_options s) (poll_votes s) (poll_vote_options s) (poll_message_copies s)); [|by rewrite E].
  f_equal.
  - pose proof (voted_ballot id v s Hs) as Hv. unfold PollVoteByVoter in Hv. case_bool_decide as Hb; case_bool_decide as Hi; try done; set_solver.
  - apply set_eq. intros [[id' v'] o]. rewrite elem_of_union, elem_of_filter, elem_of_map. cbn. setoid_rewrite elem_of_ballot.
    destruct (decide ((id', v') = (id, v))) as [[= -> ->]|]; naive_solver.
Qed.

Lemma poll_for_mutation_row v ref s id r : poll_for_mutation v ref s = Ok (id, r) -> polls s !! id = Some r.
Proof.
  unfold poll_for_mutation. destruct (reload_poll v ref s); [|done]. destruct (PollByMessage _ _ _ _ _) as [[id' r']|]; [|done].
  destruct (polls s !! id') eqn:E; [|done]. intros [= <- <-]. done.
Qed.

Lemma results_options id v s : map (fun x => x.1.1.1) (PollOptionResults id v s) = (options_of id s).*1.
Proof.
  unfold PollOptionResults. rewrite map_map. induction (options_of id s) as [|[o x] l IH]; [done|]. cbn. by rewrite IH.
Qed.

Lemma all_listed id v options s :
  forallb (fun o => bool_decide (o ∈ map (fun x => x.1.1.1) (PollOptionResults id v s))) options =
  bool_decide ((list_to_set options : gset (list Z)) ⊆ listed id s).
Proof.
  rewrite results_options. apply eq_bool_prop_intro. rewrite bool_decide_spec, Is_true_true, forallb_forall. unfold listed. split.
  - intros H o. rewrite !elem_of_list_to_set. intros Ho. specialize (H o). rewrite bool_decide_eq_true in H. by apply H, list_elem_of_In.
  - intros H o Ho. apply bool_decide_eq_true. specialize (H o). rewrite !elem_of_list_to_set in H. by apply H, list_elem_of_In.
Qed.

(** The verdict and, when it is for, the ballot. *)
Lemma vote_tx_spec v ref selected e s id r :
  polls_ok s -> poll_for_mutation v ref s = Ok (id, r) ->
  vote_tx v ref selected e s =
  match verdict (po_flags r) (listed id s) (ballot id v (poll_vote_options s)) (chosen_set selected) (PollIsClosed r (pe_clock e)) with
  | Some x => (Err x, s)
  | None =>
      let s' := revote id v (list_to_set selected) s in (Ok (pollView id r v (pe_view e) s'), s')
  end.
Proof.
  intros Hs Hp. pose proof (poll_for_mutation_row _ _ _ _ _ Hp) as Hr. unfold vote_tx. rewrite Hp.
  pose proof (normalizePollSelection_spec selected) as Hsel.
  destruct (normalizePollSelection selected) as [options|]; [|by rewrite Hsel]. destruct Hsel as (Hn & Hc & Hsz).
  assert (Ec : list_to_set selected = (list_to_set options : gset (list Z))).
  { revert Hc. unfold chosen_set. destruct (_ && _); [|done]. by intros [= ->]. }
  rewrite Hc. unfold verdict. rewrite Ec. destruct (chosen_elements id v s) as [Hn' Eb].
  rewrite samePollSelection_spec, Eb by done. cbv zeta.
  case_bool_decide as Esame; [by rewrite Esame, revote_same|].
  destruct (PollIsClosed r (pe_clock e)); [done|].
  replace (len options >? 1) with (bool_decide (1 < size (list_to_set options : gset (list Z)))%nat)
    by (rewrite Z.gtb_ltb; apply eq_bool_prop_intro; rewrite bool_decide_spec, Is_true_true, Z.ltb_lt; lia).
  destruct (bool_decide _ && negb _); [done|]. rewrite all_listed. case_bool_decide as Hsub; [|done]. cbn [negb].
  rewrite voted_ballot by done. destruct (RevotingDisabled (po_flags r) && negb _); [done|].
  rewrite vote_writes_spec; [done|done|done|]. intros o Ho. apply (elem_listed id r s o Hs Hr), Hsub. by apply elem_of_list_to_set.
Qed.

(** An accepted ballot is a decent one. *)
Lemma verdict_decent f l mine sel closed :
  verdict f l mine (Some sel) closed = None ->
  sel = mine \/
  closed = false /\ (MultipleChoice f = false -> (size sel <= 1)%nat) /\ sel ⊆ l /\ (RevotingDisabled f = true -> mine = ∅).
Proof.
  unfold verdict. case_bool_decide; [by left|]. destruct closed; [done|]. case_bool_decide; destruct (MultipleChoice f); cbn; try done.
  all: case_bool_decide; cbn; [|done]. all: destruct (RevotingDisabled f); cbn; [|intros _; right; split_and!; auto; lia].
  all: case_bool_decide; cbn; [intros _; right; split_and!; auto; lia|done].
Qed.

Definition poll_good (s s' : polls_db) : Prop := polls_ok s' /\ poll_guar s s'.

Lemma poll_good_refl s : polls_ok s -> poll_good s s.
Proof. intros H. split; [done|apply poll_guar_refl]. Qed.

Lemma vote_good v ref selected e s : polls_ok s -> poll_good s (vote_tx v ref selected e s).2.
Proof.
  intros Hs. destruct (poll_for_mutation v ref s) as [[id r]|x] eqn:Hp.
  2: { unfold vote_tx. rewrite Hp. by apply poll_good_refl. }
  rewrite (vote_tx_spec _ _ _ _ _ _ _ Hs Hp). pose proof (poll_for_mutation_row _ _ _ _ _ Hp) as Hr.
  destruct (verdict _ _ _ _ _) eqn:Hv; [by apply poll_good_refl|]. cbn [snd].
  destruct (chosen_set selected) as [sel|] eqn:Hc; [|done].
  assert (sel = list_to_set selected) as -> by (revert Hc; unfold chosen_set; destruct (_ && _); [|done]; by intros [= ->]).
  apply verdict_decent in Hv as [->|(Hcl & Hm & Hsub & Hrv)]; [rewrite revote_same by done; by apply poll_good_refl|]. split.
  - eapply revote_ok; [done|done| |done]. intros o Ho. by apply (elem_listed id r s o Hs Hr), Hsub.
  - split; [reflexivity|]. intros id' r' Hr'. right. exists r'. split; [done|].
    assert (po_closed r = false) as Hcr by (unfold PollIsClosed in Hcl; by destruct (po_closed r)).
    constructor; [by left|done| |]; intros Hx v'; [|intros Hy]; rewrite revote_ballot; case_bool_decide as E; try done;
      injection E as -> ->; rewrite Hr in Hr'; injection Hr' as <-; [congruence|]. by rewrite Hrv in Hy.
Qed.

(** ** Closing *)

Definition closed_in (id : Z) (r : poll_row) (s : polls_db) : polls_db := with_polls (<[id := closed_row r]> (polls s)) s.

Lemma close_tx_spec c ref s :
  match close_tx c ref s with
  | (Err _, s') | (Ok false, s') => s' = s
  | (Ok true, s') => exists id r, polls s !! id = Some r /\ po_creator r = c /\ po_closed r = false /\ s' = closed_in id r s
  end.
Proof.
  unfold close_tx. destruct (reload_poll c ref s); [|done]. destruct (PollByMessage _ _ _ _ _) as [[id r]|] eqn:Ep; [|done].
  assert (Hr : polls s !! id = Some r).
  { unfold PollByMessage in Ep. destruct (poll_message_copies s !! _); [|done]. destruct (message_at _ _ _); [|done].
    destruct (_ && _); [|done]. destruct (polls s !! z) eqn:E; [|done]. by injection Ep as <- <-. }
  destruct (Z.eqb_spec (po_creator r) c) as [Ec|]; cbn [negb]; [|done]. rewrite Hr. destruct (po_closed r) eqn:Eo; [done|].
  by exists id, r.
Qed.

Lemma closed_in_good id r s : polls_ok s -> polls s !! id = Some r -> poll_good s (closed_in id r s).
Proof.
  intros Hs Hr. assert (Hat : forall id' r', polls (closed_in id r s) !! id' = Some r' ->
    exists r0, polls s !! id' = Some r0 /\ (r' = r0 \/ r' = closed_row r0)).
  { intros id' r'. cbn. intros [[<- <-]|[Hne H]]%lookup_insert_Some; [by exists r; auto|by exists r'; auto]. }
  assert (Hi : forall id', is_Some (polls (closed_in id r s) !! id') <-> is_Some (polls s !! id')).
  { intros id'. cbn. destruct (decide (id = id')) as [<-|]; [rewrite lookup_insert_eq, Hr|by rewrite lookup_insert_ne]. by split; eexists. }
  split.
  - split.
    + apply (pk_world _ Hs).
    + intros id' r' (r0 & H0 & E)%Hat. destruct (pk_row _ Hs _ _ H0) as (l & Hm & Hsh). exists l. split; [done|].
      destruct E as [->| ->]; [done|]. by destruct Hsh.
    + intros id' o x Hx. apply Hi. by eapply (pk_option _ Hs).
    + apply (pk_ballot _ Hs).
    + apply (pk_vote _ Hs).
    + intros id' r' v o o' (r0 & H0 & E)%Hat Hm. eapply (pk_single _ Hs); [done|]. by destruct E as [->| ->].
    + intros i1 r1 i2 r2 (a & Ha & Ea)%Hat (b & Hb & Eb)%Hat. pose proof (pk_token _ Hs _ _ _ _ Ha Hb).
      by destruct Ea as [->| ->], Eb as [->| ->].
    + intros k i Hk. rewrite Hi. by apply (pk_copy _ Hs).
    + intros i Hi'%Hi. by apply (pk_linked _ Hs).
  - split; [reflexivity|]. intros id' r' Hr'. right. cbn. destruct (decide (id = id')) as [<-|].
    + rewrite lookup_insert_eq. eexists. split; [done|]. rewrite Hr in Hr'. injection Hr' as <-. constructor; auto.
    + rewrite lookup_insert_ne by done. exists r'. split; [done|]. by apply kept_same.
Qed.

Lemma close_good c ref s : polls_ok s -> poll_good s (close_tx c ref s).2.
Proof.
  intros Hs. pose proof (close_tx_spec c ref s) as H. destruct (close_tx c ref s) as [[[]|] s']; cbn.
  - destruct H as (id & r & Hr & _ & _ & ->). by apply closed_in_good.
  - subst. by apply poll_good_refl.
  - subst. by apply poll_good_refl.
Qed.

(** * Polls: creating one *)

(** ** Drafts *)

Definition stripped (a : PollAnswer) : PollAnswer := mkAnswer (a_Option a) (a_Text a) (a_Correct a) 0 false.

Definition count_correct (l : list PollAnswer) : Z := len (List.filter a_Correct l).

Definition answer_fits (a : PollAnswer) : Prop :=
  1 <= len (a_Option a) <= maxPollOptionBytes /\ 1 <= len (a_Text a) <= maxPollTextBytes.

Lemma normalize_answers_spec seen answers l n :
  normalize_answers seen answers = Some (l, n) ->
  l = map stripped answers /\ n = count_correct answers /\ Forall answer_fits answers /\
  NoDup (map a_Option answers) /\ (forall o, o ∈ map a_Option answers -> o ∉ seen).
Proof.
  revert seen l n. induction answers as [|a answers IH]; intros seen l n; cbn [normalize_answers].
  - intros [= <- <-]. split_and!; try constructor. intros o Ho. by apply elem_of_nil in Ho.
  - pose proof (len_nonneg (a_Option a)). pose proof (len_nonneg (a_Text a)).
    destruct (Z.eqb_spec (len (a_Option a)) 0); [done|]. destruct (Z.gtb_spec (len (a_Option a)) maxPollOptionBytes); [done|].
    destruct (Z.eqb_spec (len (a_Text a)) 0); [done|]. destruct (Z.gtb_spec (len (a_Text a)) maxPollTextBytes); [done|].
    cbn [orb]. destruct (negb _); [done|]. case_bool_decide as Hs; [done|].
    destruct (normalize_answers (a_Option a :: seen) answers) as [[l' n']|] eqn:E; [|done]. intros [= <- <-].
    destruct (IH _ _ _ E) as (-> & -> & Hf & Hn & Hd). split_and!.
    + done.
    + unfold count_correct. cbn. destruct (a_Correct a); [rewrite len_cons|]; lia.
    + constructor; [|done]. split; lia.
    + constructor; [|done]. intros Hin. apply (Hd _ Hin). constructor.
    + intros o [->|Ho]%elem_of_cons; [done|]. specialize (Hd o Ho). set_solver.
Qed.

(** What a draft becomes. *)
Definition canonical_flags (f : poll_flags) : poll_flags :=
  mkPollFlags (PublicVoters f) (MultipleChoice f) (Quiz f) (ShuffleAnswers f) (RevotingDisabled f || Quiz f).

Record canonical (d d' : PollDraft) : Prop := {
  ca_draft : d' = mkDraft (d_Question d) (map stripped (d_Answers d)) (canonical_flags (d_flags d)) false (d_CloseDate d) (d_Solution d);
  ca_question : 1 <= len (d_Question d) <= maxPollTextBytes;
  ca_count : 2 <= len (d_Answers d) <= maxPollAnswers;
  ca_fits : Forall answer_fits (d_Answers d);
  ca_distinct : NoDup (map a_Option (d_Answers d));
  ca_quiz : Quiz (d_flags d) = true ->
    1 <= count_correct (d_Answers d) /\ (MultipleChoice (d_flags d) = false -> count_correct (d_Answers d) = 1);
  ca_plain : Quiz (d_flags d) = false -> count_correct (d_Answers d) = 0
}.

Lemma normalizePollDraft_spec d now d' : normalizePollDraft d now = Some d' -> canonical d d'.
Proof.
  unfold normalizePollDraft. pose proof (len_nonneg (d_Question d)).
  destruct (Z.eqb_spec (len (d_Question d)) 0); [done|]. destruct (Z.gtb_spec (len (d_Question d)) maxPollTextBytes); [done|]. cbn [orb].
  destruct (negb _); [done|]. destruct (Z.ltb_spec (len (d_Answers d)) 2); [done|].
  destruct (Z.gtb_spec (len (d_Answers d)) maxPollAnswers); [done|]. cbn [orb]. destruct (match d_CloseDate d with None => _ | Some _ => _ end); [done|].
  cbv zeta. destruct (normalize_answers [] (d_Answers d)) as [[l k]|] eqn:E; [|done].
  apply normalize_answers_spec in E as (-> & -> & Hf & Hn & _). assert (0 <= count_correct (d_Answers d)) by apply len_nonneg.
  destruct (Quiz (d_flags d)) eqn:Eq.
  - destruct (Z.eqb_spec (count_correct (d_Answers d)) 0); [done|]. cbn [orb].
    destruct (MultipleChoice (d_flags d)) eqn:Em; destruct (Z.eqb_spec (count_correct (d_Answers d)) 1); cbn [negb andb]; try done;
      intros [= <-]; constructor; unfold canonical_flags; rewrite ?Eq, ?Em; try done; lia.
  - destruct (Z.eqb_spec (count_correct (d_Answers d)) 0); [|done]. cbn [negb]. intros [= <-].
    constructor; unfold canonical_flags; rewrite ?Eq; try done; lia.
Qed.

(** ** The rows of the answers *)

Fixpoint entries (pos : Z) (l : list PollAnswer) : list item :=
  match l with
  | [] => []
  | a :: l => (a_Option a, mkOption (a_Text a) (a_Correct a) pos) :: entries (pos + 1) l
  end.

Lemma entries_len pos l : len (entries pos l) = len l.
Proof. revert pos. induction l as [|a l IH]; intros pos; [done|]. cbn [entries]. by rewrite !len_cons, IH. Qed.

Lemma entries_stripped pos l : entries pos (map stripped l) = entries pos l.
Proof. revert pos. induction l as [|a l IH]; intros pos; [done|]. cbn [map entries]. by rewrite IH. Qed.

Lemma entries_corrects pos l : corrects (entries pos l) = count_correct l.
Proof.
  unfold corrects, count_correct. revert pos. induction l as [|a l IH]; intros pos; [done|]. cbn. destruct (a_Correct a); [|done].
  rewrite !len_cons. by rewrite IH.
Qed.

Lemma entries_sizes pos l : Forall answer_fits l ->
  Forall (fun x : item => 1 <= len x.1 <= maxPollOptionBytes /\ 1 <= len (op_text x.2) <= maxPollTextBytes) (entries pos l).
Proof. intros H. revert pos. induction H as [|a l Ha Hl IH]; intros pos; constructor; [apply Ha|done]. Qed.

Lemma insert_options_spec id answers : forall l s,
  menu id (poll_options s) l -> is_Some (polls s !! id) -> Forall answer_fits answers -> NoDup (map a_Option answers) ->
  (forall o, o ∈ map a_Option answers -> poll_options s !! (id, o) = None) -> len l + len answers <= 10 ->
  exists m, insert_options id (len l) answers s = Some (with_options m s) /\ menu id m (l ++ entries (len l) answers) /\
    forall id' o, id' <> id -> m !! (id', o) = poll_options s !! (id', o).
Proof.
  induction answers as [|a answers IH]; intros l s Hm Hi Hf Hn Ho Hlen.
  - exists (poll_options s). cbn. rewrite app_nil_r. split_and!; [by destruct s|done|done].
  - apply Forall_cons in Hf as [[Ha1 Ha2] Hf]. cbn [map] in Hn, Ho. apply NoDup_cons in Hn as [Hna Hn].
    rewrite len_cons in Hlen. pose proof (len_nonneg l). pose proof (len_nonneg answers).
    assert (Hpos : existsb (fun x => op_position x.2 =? len l) (options_of id s) = false).
    { rewrite (options_of_menu _ _ _ Hm). apply not_true_iff_false. intros (x & Hx & E)%existsb_exists. apply Z.eqb_eq in E.
      assert (Hin : op_position x.2 ∈ seqZ 0 (len l)).
      { rewrite <- (me_positions _ _ _ Hm). apply (list_elem_of_fmap_2 (fun x : item => op_position x.2)). by apply list_elem_of_In. }
      apply elem_of_seqZ in Hin. lia. }
    cbn [insert_options]. unfold InsertPollOption. cbn [op_text op_position op_correct].
    rewrite (bool_decide_eq_true_2 _ Hi), Hpos, (bool_decide_eq_true_2 (poll_options s !! (id, a_Option a) = None)) by (apply Ho; constructor).
    unfold maxPollOptionBytes, maxPollTextBytes in *.
    repeat match goal with |- context [?x <=? ?y] => replace (x <=? y) with true by lia end. cbn [andb negb].
    set (x := mkOption (a_Text a) (a_Correct a) (len l)). set (s1 := with_options _ s).
    destruct (IH (l ++ [(a_Option a, x)]) s1) as (m & Hins & Hmenu & Hoth); try done.
    + apply menu_append; [done|apply Ho; constructor|done].
    + intros o Hin. cbn. rewrite lookup_insert_ne by (intros [= E]; by rewrite E in Hna). apply Ho. by constructor.
    + rewrite len_app. change (len [(a_Option a, x)]) with 1. lia.
    + rewrite len_app in Hins, Hmenu. change (len [(a_Option a, x)]) with 1 in *. exists m. split_and!; [done| |].
      * by rewrite <- app_assoc in Hmenu.
      * intros id' o Hne. rewrite Hoth by done. cbn. by rewrite lookup_insert_ne by congruence.
Qed.

(** ** The message and its copies *)

Lemma reload_poll_spec v ref s msg copies :
  db_ok (world s) -> reload_poll v ref s = Ok (msg, copies) ->
  message_at v (pr_LocalID ref) s = Some msg /\ Deleted msg = false /\ msg ∈ copies /\
  forall c, c ∈ copies -> message_at (OwnerID c) (LocalID c) s = Some c.
Proof.
  intros Hw. unfold reload_poll. destruct (message_at v (pr_LocalID ref) s) as [m|] eqn:Em; [|done].
  destruct (pollMessageMatches m ref) eqn:Ema; cbn [negb]; [|done].
  assert (Hd : Deleted m = false) by (unfold pollMessageMatches in Ema; by destruct (Deleted m)).
  destruct (place _ _ _ _ Hw Em) as [Eo El].
  assert (Hself : message_at (OwnerID m) (LocalID m) s = Some m) by (by rewrite Eo, El).
  destruct (pr_PeerType ref).
  2: { destruct (negb _); [done|]. unfold chatCopies. destruct (Z.eqb_spec (FanoutID m) 0) as [|Hf]; [done|].
    pose proof (elem_of_fanout (FanoutID m) (world s)) as Hin. destruct (MessagesByFanout (FanoutID m) (world s)) as [|c0 cs] eqn:Ec; [done|].
    intros [= <- <-]. split_and!; [done|done| |].
    - apply Hin. split_and!; [done|done|]. by exists v, (pr_LocalID ref).
    - intros c Hc. apply Hin in Hc as (_ & _ & u & l & Hr). destruct (place _ _ _ _ Hw Hr) as [-> ->]. done. }
  all: intros [= <- <-]; split_and!; [done|done|constructor|]; by intros c ->%list_elem_of_singleton.
Qed.

Record copies_added (id : Z) (copies : list Message) (m m' : gmap (Z * Z) Z) : Prop := {
  cp_kept : forall k x, m !! k = Some x -> m' !! k = Some x;
  cp_new : forall k x, m' !! k = Some x -> m !! k = Some x \/
    x = id /\ exists c, c ∈ copies /\ Deleted c = false /\ k = (OwnerID c, LocalID c);
  cp_all : forall c, c ∈ copies -> Deleted c = false -> m' !! (OwnerID c, LocalID c) = Some id
}.

Lemma insert_copies_spec id copies : forall s u s',
  insert_copies id copies s = (Ok u, s') ->
  exists m', s' = with_copies m' s /\ copies_added id copies (poll_message_copies s) m'.
Proof.
  induction copies as [|c copies IH]; intros s u s'; cbn [insert_copies].
  - intros [= _ <-]. exists (poll_message_copies s). split; [by destruct s|]. constructor; [auto|auto|]. by intros c ?%elem_of_nil.
  - destruct (Deleted c) eqn:Ed.
    + intros H. destruct (IH _ _ _ H) as (m' & -> & [K N A]). exists m'. split; [done|]. constructor; [done| |].
      * intros k x Hx. destruct (N k x Hx) as [|(-> & c' & Hc' & ?)]; [by left|]. right. split; [done|]. exists c'. by split; [constructor|].
      * intros c' [->|Hc']%elem_of_cons Hd; [congruence|auto].
    + unfold InsertPollMessageCopy. destruct (poll_message_copies s !! (OwnerID c, LocalID c)) eqn:Ec; [done|].
      destruct (_ && _); [|done]. cbn [Z.eqb negb]. intros H. destruct (IH _ _ _ H) as (m' & -> & [K N A]). cbn in K, N, A.
      exists m'. split; [done|]. constructor.
      * intros k x Hx. apply K. rewrite lookup_insert_ne by congruence. done.
      * intros k x Hx. destruct (N k x Hx) as [[[<- <-]|[? ?]]%lookup_insert_Some|(-> & c' & Hc' & ?)].
        -- right. split; [done|]. exists c. by split; [constructor|].
        -- by left.
        -- right. split; [done|]. exists c'. by split; [constructor|].
      * intros c' [->|Hc']%elem_of_cons Hd; [|auto]. apply K, lookup_insert_eq.
Qed.

(** ** The poll *)

Record poll_made (id : Z) (r : poll_row) (answers : list PollAnswer) (copies : list Message) (s s' : polls_db) : Prop := {
  cr_fresh : polls s !! id = None;
  cr_token : forall id' r', polls s !! id' = Some r' -> po_random r <> 0 -> po_creator r = po_creator r' -> po_random r <> po_random r';
  cr_world : world s' = world s;
  cr_polls : polls s' = <[id := r]> (polls s);
  cr_menu : menu id (poll_options s') (entries 0 answers);
  cr_shaped : shaped r (entries 0 answers);
  cr_others : forall id' o, id' <> id -> poll_options s' !! (id', o) = poll_options s !! (id', o);
  cr_votes : poll_votes s' = poll_votes s /\ poll_vote_options s' = poll_vote_options s;
  cr_copies : copies_added id copies (poll_message_copies s) (poll_message_copies s')
}.

Lemma PollByCreatorRandomID_spec c t s :
  match PollByCreatorRandomID c t s with
  | Some (id, r) => polls s !! id = Some r /\ po_creator r = c /\ po_random r = t /\ t <> 0
  | None => t = 0 \/ forall id r, polls s !! id = Some r -> po_creator r = c -> po_random r <> t
  end.
Proof.
  unfold PollByCreatorRandomID. destruct (Z.eqb_spec t 0) as [|Ht]; [by left|].
  destruct (List.find _ _) as [[id r]|] eqn:E.
  - apply find_some in E as [Hin [H1%Z.eqb_eq H2%Z.eqb_eq]%andb_prop]. apply list_elem_of_In, elem_of_map_to_list in Hin. done.
  - right. intros id r Hr Hc E'. pose proof (find_none _ _ E (id, r)) as H. cbn in H. rewrite Hc, E', !Z.eqb_refl in H.
    apply elem_of_map_to_list, list_elem_of_In in Hr. by apply H in Hr.
Qed.

Lemma insert_attempts_spec n ids r src s :
  match insert_attempts n ids r src s with
  | (Err _, s') => s' = s
  | (Ok (prior, true), s') => s' = s /\ PollByCreatorRandomID (po_creator r) (po_random r) s = Some prior
  | (Ok ((id, r'), false), s') =>
      r' = r /\ polls s !! id = None /\ PollByCreatorRandomID (po_creator r) (po_random r) s = None /\
      s' = with_polls (<[id := r]> (polls s)) s
  end.
Proof.
  revert ids. induction n as [|n IH]; intros ids; [done|]. cbn [insert_attempts]. destruct ids as [|id ids]; [done|].
  unfold InsertPoll. destruct (negb (row_valid id r)); [done|]. case_bool_decide as Hi; [|case_bool_decide as Ht].
  3: { cbn [orb]. split_and!; [done| |by apply eq_None_not_Some|done].
       by apply eq_None_not_Some. }
  all: cbn [orb]; destruct (po_random r =? 0); [apply IH|]; destruct (PollByCreatorRandomID _ _ s) as [[id' prior]|]; [|apply IH];
    by destruct (negb _).
Qed.

(** The three ends of the checks and writes. *)
Lemma poll_writes_spec c chat draft msg copies e s :
  polls_ok s -> Deleted msg = false -> msg ∈ copies ->
  match poll_writes c chat draft msg copies e s with
  | (Err _, s') => s' = s
  | (Ok (p, true), s') =>
      s' = s /\ exists id r, polls s !! id = Some r /\ p = pollView id r c (pe_view e) s
  | (Ok (p, false), s') =>
      exists id, let r := mkPollRow c (m_RandomID msg) (LocalID msg) (d_Question draft) (canonical_flags (d_flags draft)) false
                                    (d_CloseDate draft) (d_Solution draft) in
        poll_made id r (d_Answers draft) copies s s' /\ p = pollView id r c (pe_view e) s'
  end.
Proof.
  intros Hs Hd Hin. unfold poll_writes. destruct (normalizePollDraft draft (pe_now e)) as [d|] eqn:En; [|done].
  apply normalizePollDraft_spec in En as [-> Hq Hc Hf Hn Hz Hp]. cbn [d_Question d_Answers d_flags d_CloseDate d_Solution].
  destruct (match chat with Some _ => _ | None => _ end); [done|]. cbv zeta.
  set (r := mkPollRow _ _ _ _ _ _ _ _). pose proof (insert_attempts_spec maxPollIDAttempts (pe_ids e) r (LocalID msg) s) as Ha.
  destruct (insert_attempts _ _ _ _ _) as [[[[id r'] []]|x] s1]; [| |done].
  { destruct Ha as [-> Ht]. pose proof (PollByCreatorRandomID_spec (po_creator r) (po_random r) s) as H. rewrite Ht in H.
    split; [done|]. exists id, r'. by destruct H. }
  destruct Ha as (-> & Hfresh & Htok & ->).
  assert (Hmenu : menu id (poll_options s) []).
  { split; [|done]. intros o x. rewrite elem_of_nil. split; [done|]. intros Hx. destruct (pk_option _ Hs _ _ _ Hx). congruence. }
  destruct (insert_options_spec id (map stripped (d_Answers draft)) [] (with_polls (<[id := r]> (polls s)) s)) as (m & Hins & Hm & Hoth).
  { done. }
  { cbn. rewrite lookup_insert_eq. by eexists. }
  { rewrite Forall_fmap. exact Hf. }
  { by rewrite map_map. }
  { intros o _. cbn. destruct (poll_options s !! (id, o)) eqn:Eo; [|done]. destruct (pk_option _ Hs _ _ _ Eo). congruence. }
  { unfold maxPollAnswers in Hc. unfold len in *. rewrite length_map. cbn. lia. }
  change (len (@nil item)) with 0 in *. rewrite Hins.
  pose proof (entries_stripped 0 (d_Answers draft)) as Een.
  cbn [app] in Hm. rewrite Een in Hm. destruct (insert_copies id copies _) as [[[]|] s2] eqn:Ei; [|done].
  apply insert_copies_spec in Ei as (m' & -> & Hcp). exists id. split; [|done]. split; cbn; try done.
  - intros id' r'' Hr' Ht Ecr Etk. pose proof (PollByCreatorRandomID_spec (po_creator r) (po_random r) s) as H. rewrite Htok in H.
    destruct H as [|H]; [done|]. by apply (H id' r'' Hr').
  - split; cbn; [done|rewrite entries_len; done|by apply entries_sizes| |]; rewrite entries_corrects.
    + intros Hqz. destruct (Hz Hqz). rewrite Hqz. split_and!; [by destruct (RevotingDisabled _)|done|done].
    + done.
Qed.

Lemma poll_made_good id r answers copies s s' msg :
  polls_ok s -> (forall c, c ∈ copies -> message_at (OwnerID c) (LocalID c) s = Some c) -> msg ∈ copies -> Deleted msg = false ->
  poll_made id r answers copies s s' -> poll_good s s'.
Proof.
  intros Hs Hco Hmsg Hdel [Hf Ht Hw Hp Hm Hsh Hot [Hv1 Hv2] [K N A]].
  assert (Hin : forall id', is_Some (polls s !! id') -> polls s' !! id' = polls s !! id').
  { intros id' Hi. rewrite Hp, lookup_insert_ne; [done|]. intros <-. rewrite Hf in Hi. by destruct Hi. }
  assert (Hopt : forall id' o, is_Some (polls s !! id') -> poll_options s' !! (id', o) = poll_options s !! (id', o)).
  { intros id' o Hi. apply Hot. intros ->. rewrite Hf in Hi. by destruct Hi. }
  split.
  - split; rewrite ?Hv1, ?Hv2, ?Hw.
    + apply (pk_world _ Hs).
    + rewrite Hp. intros id' r' [[<- <-]|[Hne Hr]]%lookup_insert_Some; [by exists (entries 0 answers)|].
      destruct (pk_row _ Hs _ _ Hr) as (l & Hl & Hsl). exists l. split; [|done]. eapply menu_same; [|done]. intros o. by apply Hot.
    + intros id' o x Hx. rewrite Hp. destruct (decide (id' = id)) as [->|Hne]; [by rewrite lookup_insert_eq|].
      rewrite Hot in Hx by done. rewrite lookup_insert_ne by done. by eapply (pk_option _ Hs).
    + intros id' v o Hb. destruct (pk_ballot _ Hs _ _ _ Hb) as [? [x Hx]]. split; [done|]. rewrite Hopt; [by eexists|].
      by eapply (pk_option _ Hs).
    + apply (pk_vote _ Hs).
    + intros id' r' v o o' Hr' Hmc Ho Ho'. destruct (pk_ballot _ Hs _ _ _ Ho) as [_ [x Hx]]. apply (pk_option _ Hs) in Hx.
      rewrite Hin in Hr' by done. by eapply (pk_single _ Hs).
    + rewrite Hp. intros i1 r1 i2 r2 [[<- <-]|[Hn1 H1]]%lookup_insert_Some [[<- <-]|[Hn2 H2]]%lookup_insert_Some Hz E1 E2.
      * done.
      * by destruct (Ht _ _ H2).
      * symmetry in E1, E2. rewrite <- E2 in Hz. by destruct (Ht _ _ H1 Hz E1).
      * by eapply (pk_token _ Hs).
    + intros k x Hx. destruct (N k x Hx) as [Hk|(-> & c & Hc & Hd & ->)].
      * destruct (pk_copy _ Hs _ _ Hk) as [Hi Hl]. by rewrite Hin.
      * rewrite Hp, lookup_insert_eq. split; [by eexists|]. unfold live_in. cbn. specialize (Hco c Hc). unfold message_at in Hco.
        rewrite Hco. by rewrite Hd.
    + intros id' Hi. destruct (decide (id' = id)) as [->|Hne]; [exists (OwnerID msg, LocalID msg); by apply A|].
      rewrite Hp, lookup_insert_ne in Hi by done. destruct (pk_linked _ Hs _ Hi) as [k Hk]. exists k. by apply K.
  - split; [by rewrite Hw|]. intros id' r' Hr'. right. exists r'. rewrite Hin by (by eexists). split; [done|].
    apply kept_same; [|by rewrite Hv2]. intros o. apply Hopt. by eexists.
Qed.

(** ** The whole transaction *)

Lemma create_tx_spec c ref chat draft e s :
  polls_ok s ->
  match create_tx c ref chat draft e s with
  | (Err _, s') => s' = s
  | (Ok (p, true), s') => s' = s /\ exists id r, polls s !! id = Some r /\ p = pollView id r c (pe_view e) s
  | (Ok (p, false), s') =>
      exists id msg copies, reload_poll c ref s = Ok (msg, copies) /\
        let r := mkPollRow c (m_RandomID msg) (LocalID msg) (d_Question draft) (canonical_flags (d_flags draft)) false
                           (d_CloseDate draft) (d_Solution draft) in
        poll_made id r (d_Answers draft) copies s s' /\ p = pollView id r c (pe_view e) s'
  end.
Proof.
  intros Hs. unfold create_tx. destruct (reload_poll c ref s) as [[msg copies]|] eqn:Er; [|done].
  destruct (reload_poll_spec _ _ _ _ _ (pk_world _ Hs) Er) as (_ & Hd & Hin & _). destruct (_ || _); [done|].
  pose proof (poll_writes_spec c chat draft msg copies e s Hs Hd Hin) as Hw.
  assert (Hnew : match poll_writes c chat draft msg copies e s with
    | (Err _, s') => s' = s
    | (Ok (p, true), s') => s' = s /\ exists id r, polls s !! id = Some r /\ p = pollView id r c (pe_view e) s
    | (Ok (p, false), s') =>
        exists id msg0 copies0, Ok (msg, copies) = Ok (msg0, copies0) :> result poll_error _ /\
          let r := mkPollRow c (m_RandomID msg0) (LocalID msg0) (d_Question draft) (canonical_flags (d_flags draft)) false
                             (d_CloseDate draft) (d_Solution draft) in
          poll_made id r (d_Answers draft) copies0 s s' /\ p = pollView id r c (pe_view e) s'
    end).
  { destruct (poll_writes c chat draft msg copies e s) as [[[p []]|] s']; [done| |done]. destruct Hw as (id & Hw). by exists id, msg, copies. }
  destruct (m_RandomID msg =? 0); [done|]. pose proof (PollByCreatorRandomID_spec c (m_RandomID msg) s) as Ht.
  destruct (PollByCreatorRandomID c (m_RandomID msg) s) as [[id prior]|]; [|done].
  destruct (negb _); [done|]. split; [done|]. exists id, prior. by destruct Ht.
Qed.

Lemma create_good c ref chat draft e s : polls_ok s -> poll_good s (create_tx c ref chat draft e s).2.
Proof.
  intros Hs. pose proof (create_tx_spec c ref chat draft e s Hs) as H.
  destruct (create_tx c ref chat draft e s) as [[[p []]|] s']; cbn [snd].
  - destruct H as [-> _]. by apply poll_good_refl.
  - destruct H as (id & msg & copies & Er & Hc & _). destruct (reload_poll_spec _ _ _ _ _ (pk_world _ Hs) Er) as (_ & Hd & Hin & Hco).
    by eapply poll_made_good.
  - subst. by apply poll_good_refl.
Qed.
