(* ===== verification/PollRuns.v ===== *)
(** * Polls in every run

    Requests on polls and on messages run at once, with the store failing where it likes. *)

From S2P Require Import Prelude.
From S2P Require Import Threads.
From S2P Require Import Limits.
From S2P Require Import PeerHash.
From S2P Require Import Mailbox.
From S2P Require Import MsgStore.
From S2P Require Import MsgSafety.
From S2P Require Import MsgRuns.
From S2P Require Import Utf8.
From S2P Require Import Polls.
From S2P Require Import PollFacts.
From S2P Require Import PollSafety.
From stdpp Require Import list_numbers.

Open Scope Z_scope.

(** ** The trigger *)

Lemma linked_spec m id : linked m id = true <-> exists k, m !! k = Some id.
Proof. unfold linked. rewrite bool_decide_eq_true. unfold map_Exists. naive_solver. Qed.

Definition living (w : db) (s : polls_db) : gmap (Z * Z) Z := filter (fun '(k, _) => live_in w k = true) (poll_message_copies s).

Definition stays (w : db) (s : polls_db) (id : Z) : bool := negb (linked (poll_message_copies s) id) || linked (living w s) id.

Lemma living_lookup w s k id : living w s !! k = Some id <-> poll_message_copies s !! k = Some id /\ live_in w k = true.
Proof. unfold living. apply map_lookup_filter_Some. Qed.

Lemma stays_linked w s id : polls_ok s -> is_Some (polls s !! id) -> stays w s id = linked (living w s) id.
Proof.
  intros Hs Hi. unfold stays. rewrite (proj2 (linked_spec _ id)); [done|]. by apply (pk_linked _ Hs).
Qed.

Lemma cleanup_polls w s id : polls (poll_message_copy_cleanup w s) !! id = if stays w s id then polls s !! id else None.
Proof.
  cbn. fold (living w s). rewrite map_lookup_filter. destruct (polls s !! id) eqn:E; cbn; [|by destruct (stays w s id)].
  fold (stays w s id). case_guard as Hg; destruct (stays w s id); done.
Qed.

Lemma cleanup_options w s id o :
  poll_options (poll_message_copy_cleanup w s) !! (id, o) = if stays w s id then poll_options s !! (id, o) else None.
Proof.
  cbn. fold (living w s). rewrite map_lookup_filter. destruct (poll_options s !! (id, o)) eqn:E; cbn; [|by destruct (stays w s id)].
  fold (stays w s id). case_guard as Hg; destruct (stays w s id); done.
Qed.

Lemma cleanup_ballot w s id v o :
  (id, v, o) ∈ poll_vote_options (poll_message_copy_cleanup w s) <-> stays w s id = true /\ (id, v, o) ∈ poll_vote_options s.
Proof. cbn. by rewrite elem_of_filter. Qed.

Lemma cleanup_vote w s id v :
  (id, v) ∈ poll_votes (poll_message_copy_cleanup w s) <-> stays w s id = true /\ (id, v) ∈ poll_votes s.
Proof. cbn. by rewrite elem_of_filter. Qed.

Lemma cleanup_good w s : polls_ok s -> db_ok w -> guar (world s) w -> poll_good s (poll_message_copy_cleanup w s).
Proof.
  intros Hs Hw Hg.
  assert (Hrow : forall id r, polls (poll_message_copy_cleanup w s) !! id = Some r <-> stays w s id = true /\ polls s !! id = Some r).
  { intros id r. rewrite cleanup_polls. destruct (stays w s id); naive_solver. }
  split.
  - split.
    + done.
    + intros id r [Hst Hr]%Hrow. destruct (pk_row _ Hs _ _ Hr) as (l & Hm & Hsh). exists l. split; [|done].
      eapply menu_same; [|done]. intros o. by rewrite cleanup_options, Hst.
    + intros id o x. rewrite cleanup_options, cleanup_polls. destruct (stays w s id); [|done]. apply (pk_option _ Hs).
    + intros id v o [Hst Ho]%cleanup_ballot. destruct (pk_ballot _ Hs _ _ _ Ho). rewrite cleanup_vote, cleanup_options, Hst. done.
    + intros id v [Hst Hv]%cleanup_vote. destruct (pk_vote _ Hs _ _ Hv) as [o Ho]. exists o. by apply cleanup_ballot.
    + intros id r v o o' [_ Hr]%Hrow Hm [_ H1]%cleanup_ballot [_ H2]%cleanup_ballot. by eapply (pk_single _ Hs).
    + intros i1 r1 i2 r2 [_ H1]%Hrow [_ H2]%Hrow. by eapply (pk_token _ Hs).
    + intros k id Hk. change (living w s !! k = Some id) in Hk. pose proof Hk as [Hk1 Hl]%living_lookup.
      destruct (pk_copy _ Hs _ _ Hk1) as [[r Hr] _]. split; [|done]. exists r. apply Hrow. split; [|done].
      rewrite stays_linked by (try done; by eexists). apply linked_spec. by exists k.
    + intros id [r Hr]. apply Hrow in Hr as [Hst Hr]. rewrite stays_linked in Hst by (try done; by eexists).
      by apply linked_spec in Hst.
  - split; [done|]. intros id r Hr. destruct (stays w s id) eqn:Hst.
    + right. exists r. split; [by apply Hrow|]. apply kept_same.
      * intros o. by rewrite cleanup_options, Hst.
      * intros v. apply set_eq. intros o. rewrite !elem_of_ballot, cleanup_ballot. naive_solver.
    + left. rewrite cleanup_polls, Hst. split; [done|]. intros k Hk. apply not_true_iff_false. intros Hl.
      rewrite stays_linked in Hst by (try done; by eexists). apply not_true_iff_false in Hst. apply Hst, linked_spec. exists k.
      by apply living_lookup.
Qed.

(** ** Programs *)

Definition any_moment (_ : poll_env) : Prop := True.

(** A request on messages that is safe there is safe beside the polls. *)
Lemma beside_safe p : forall K,
  safe db_ok guar (fun _ => True) K p -> safe polls_ok poll_guar any_moment (fun s => K (world s)) (beside p).
Proof.
  induction p as [r|f k IH]; intros K Hp; [done|]. destruct Hp as [Hst Hp]. cbn [beside]. split.
  - intros s s' Hs HK Hg. exact (Hst _ _ (pk_world _ Hs) HK (pg_world _ _ Hg)).
  - intros e s _ Hs HK. destruct (Hp (mail_env e) (world s) I (pk_world _ Hs) HK) as (Hd & Hg & K' & HK' & Hsafe).
    destruct (cleanup_good _ s Hs Hd Hg) as [? ?]. split_and!; [done|done|]. exists (fun s => K' (world s)). split; [done|].
    by apply IH.
Qed.

Notation safe_poll p := (safe polls_ok poll_guar any_moment (fun _ => True) p).

Lemma pcall_safe {A} (op : poll_env -> polls_db -> A * polls_db) k :
  (forall e s, polls_ok s -> poll_good s (op e s).2) -> (forall a, safe_poll (k a)) -> safe_poll (pcall op k).
Proof.
  intros Hop Hk. apply safe_store_call; [apply poll_guar_refl|done| |done]. intros e s _ Hs _. destruct (Hop e s Hs).
  split_and!; [done|done|]. by exists (fun _ => True).
Qed.

Lemma pread_safe {A} (op : poll_env -> polls_db -> A) k :
  (forall a, safe_poll (k a)) -> safe_poll (pcall (fun e s => (op e s, s)) k).
Proof. apply pcall_safe. intros e s. apply poll_good_refl. Qed.

(** Steps through a program, up to its transactions. *)
Ltac poll_safe := repeat first
  [ apply I | done | progress intros ? | apply pread_safe; intros ?
  | match goal with |- safe _ _ _ _ (match ?x with _ => _ end) => destruct x end ].

Lemma lock_safe v ref k : safe_poll k -> safe_poll (lockPollMessage v ref k).
Proof. intros Hk. unfold lockPollMessage. poll_safe. Qed.

Lemma poll_program_safe q : exists K, (forall s, polls_ok s -> K s) /\ safe polls_ok poll_guar any_moment K (poll_program q).
Proof.
  destruct q as [c ref d|v ref|v ref sel|c ref|r]; cbn [poll_program].
  5: { destruct (serve_safe r) as (K & HK & Hs). exists (fun s => K (world s)). split; [|by apply beside_safe].
       intros s Hs'. apply HK, Hs'. }
  all: exists (fun _ => True); split; [done|].
  - assert (H : forall chat, safe_poll (lockPollMessage c ref (pcall (create_tx c ref chat d) (fun a =>
      match a with Err x => Ret (PoError x) | Ok (p, dup) => Ret (PoCreated p dup) end)))).
    { intros chat. apply lock_safe, pcall_safe; [intros e s; apply create_good|poll_safe]. }
    unfold CreatePoll. poll_safe; apply H.
  - unfold PollForMessage. poll_safe.
  - unfold CastPollVote. destruct (negb _); [done|]. apply lock_safe, pcall_safe; [intros e s; apply vote_good|poll_safe].
  - unfold ClosePoll. destruct (negb _); [done|]. apply lock_safe, pcall_safe; [intros e s; apply close_good|poll_safe].
Qed.

Definition poll_starts (p : prog polls_db poll_env poll_reply) : Prop :=
  exists q, match q with ReqMail r => plain r | _ => True end /\ p = poll_program q.

Definition empty_polls (fs : gmap Z (option (list String.string))) (bl : gset (Z * Z)) : polls_db :=
  mkPolls (empty_db fs bl) ∅ ∅ ∅ ∅ ∅.

Definition poll_reach (fs : gmap Z (option (list String.string))) (bl : gset (Z * Z)) :=
  pool_reach poll_starts any_moment (empty_polls fs bl).

Lemma empty_polls_ok fs bl : polls_ok (empty_polls fs bl).
Proof.
  split; cbn; try done.
  - apply empty_db_ok.
  - intros id [r H]. by rewrite lookup_empty in H.
Qed.

Lemma poll_starts_safe p : poll_starts p -> exists K, (forall s, polls_ok s -> K s) /\ safe polls_ok poll_guar any_moment K p.
Proof. intros (q & _ & ->). apply poll_program_safe. Qed.

Lemma poll_reach_ok fs bl c : poll_reach fs bl c -> pool_inv polls_ok poll_guar any_moment c.
Proof. apply pool_reach_inv; [apply poll_starts_safe|apply empty_polls_ok]. Qed.

(** ** Tallies *)

Lemma ballots_listed id r l s : polls_ok s -> polls s !! id = Some r -> menu id (poll_options s) l ->
  picks_in l.*1 (ballots_of id (poll_vote_options s)) = Z.of_nat (size (ballots_of id (poll_vote_options s))).
Proof.
  intros Hs Hr Hm. unfold picks_in. do 2 f_equal. apply set_eq. intros [[id' v] o]. rewrite elem_of_filter. cbn. split; [naive_solver|].
  intros H. split; [|done]. apply elem_of_filter in H as [E H]. cbn in E. subst id'. destruct (pk_ballot _ Hs _ _ _ H) as [_ [x Hx]].
  apply list_elem_of_fmap. exists (o, x). split; [done|]. by apply (me_rows _ _ _ Hm).
Qed.

(** The voters are those with a ballot. *)
Lemma voters_of_ballots id s : polls_ok s ->
  filter (fun x : Z * Z => x.1 = id) (poll_votes s) = set_map fst (ballots_of id (poll_vote_options s)).
Proof.
  intros Hs. apply set_eq. intros [id' v]. rewrite elem_of_filter, elem_of_map. cbn. split.
  - intros [-> Hv]. destruct (pk_vote _ Hs _ _ Hv) as [o Ho]. exists (id, v, o). split; [done|]. by apply elem_of_filter.
  - intros ([[i u] o] & E & [E' H]%elem_of_filter). cbn in *. simplify_eq. split; [done|]. by destruct (pk_ballot _ Hs _ _ _ H).
Qed.

Lemma set_map_fst (X : gset (Z * Z * list Z)) : set_map (D := gset (Z * Z)) fst X = list_to_set (elements X).*1.
Proof. apply set_eq. intros k. rewrite elem_of_map, elem_of_list_to_set, list_elem_of_fmap. set_solver. Qed.

Lemma voters_le id s : polls_ok s -> PollVoterCount id s <= Z.of_nat (size (ballots_of id (poll_vote_options s))).
Proof.
  intros Hs. unfold PollVoterCount. rewrite voters_of_ballots, set_map_fst by done.
  assert (H : forall l : list (Z * Z), (size (list_to_set l : gset (Z * Z)) <= List.length l)%nat).
  { induction l as [|x l IH]; [done|]. cbn [list_to_set List.length]. pose proof (size_union_alt {[x]} (list_to_set l : gset (Z * Z))) as E.
    cbn in *. rewrite E, size_singleton. pose proof (subseteq_size (list_to_set l ∖ {[x]}) (list_to_set l : gset (Z * Z)) ltac:(set_solver)). lia. }
  specialize (H (elements (ballots_of id (poll_vote_options s))).*1). rewrite length_fmap in H. unfold size, set_size in *. cbn in *. lia.
Qed.

Lemma voters_single id r s : polls_ok s -> polls s !! id = Some r -> MultipleChoice (po_flags r) = false ->
  PollVoterCount id s = Z.of_nat (size (ballots_of id (poll_vote_options s))).
Proof.
  intros Hs Hr Hm. unfold PollVoterCount. rewrite voters_of_ballots, set_map_fst by done. rewrite size_list_to_set.
  - by rewrite length_fmap.
  - apply NoDup_fmap_2_strong; [|apply NoDup_elements]. intros [[i v] o] [[i' v'] o'] H1%elem_of_elements H2%elem_of_elements E.
    cbn in E. injection E as -> ->. apply elem_of_filter in H1 as [E1 H1], H2 as [_ H2]. cbn in E1. subst i'.
    by rewrite (pk_single _ Hs _ _ _ _ _ Hr Hm H1 H2).
Qed.

Lemma option_votes_le id o s : polls_ok s -> option_votes id o s <= PollVoterCount id s.
Proof.
  intros Hs. unfold option_votes, PollVoterCount. apply Nat2Z.inj_le.
  set (X := filter (fun x : Z * Z * list Z => x.1.1 = id /\ x.2 = o) (poll_vote_options s)).
  assert (E : size X = size (set_map fst X : gset (Z * Z))).
  { rewrite set_map_fst, size_list_to_set; [by rewrite length_fmap|]. apply NoDup_fmap_2_strong; [|apply NoDup_elements].
    intros [k a] [k' b] H1%elem_of_elements H2%elem_of_elements E. cbn in E. apply elem_of_filter in H1 as [[_ E1] _], H2 as [[_ E2] _].
    cbn in *. congruence. }
  rewrite E. apply subseteq_size. rewrite voters_of_ballots by done. intros k (x & -> & Hx)%elem_of_map. apply elem_of_map.
  exists x. split; [done|]. apply elem_of_filter in Hx as [[? _] ?]. by apply elem_of_filter.
Qed.

Lemma view_answers id r viewer clock s l :
  menu id (poll_options s) l ->
  v_Answers (pollView id r viewer clock s) =
  map (fun x : item => mkAnswer x.1 (op_text x.2) ((v_Closed (pollView id r viewer clock s) || v_HasVoted (pollView id r viewer clock s)) && op_correct x.2)
                          (option_votes id x.1 s) (bool_decide ((id, viewer, x.1) ∈ poll_vote_options s))) l.
Proof.
  intros Hm. unfold pollView, PollOptionResults. cbn [v_Answers v_Closed v_HasVoted]. rewrite map_map, (options_of_menu _ _ _ Hm).
  apply map_ext. by intros [o x].
Qed.

Lemma tally_view id r viewer clock s l :
  polls_ok s -> polls s !! id = Some r -> menu id (poll_options s) l ->
  let p := pollView id r viewer clock s in
  let total := foldr Z.add 0 (map a_VoterCount (v_Answers p)) in
  v_VoterCount p <= total /\ (MultipleChoice (v_flags p) = false -> total = v_VoterCount p).
Proof.
  intros Hs Hr Hm p total.
  assert (Et : total = Z.of_nat (size (ballots_of id (poll_vote_options s)))).
  { unfold total, p. rewrite (view_answers _ _ _ _ _ _ Hm), map_map. cbn [a_VoterCount].
    rewrite <- (ballots_listed _ _ _ _ Hs Hr Hm), <- sum_votes by (by eapply menu_NoDup). by rewrite <- list_fmap_compose. }
  split.
  - rewrite Et. by apply voters_le.
  - intros Hmc. rewrite Et. symmetry. by eapply voters_single.
Qed.

(** C27 (invariant).  Whatever requests on polls and messages interleave, a poll that anyone can
    read has two to ten distinct options; no option counts more voters than the poll has; the
    counts add up to at least the voters, to exactly the voters when one option is to be chosen;
    a viewer has voted exactly when one of the options shows as theirs, and then only one does
    unless several may be chosen. *)
Theorem polls_tally fs bl c id r viewer clock :
  poll_reach fs bl c -> polls c.1 !! id = Some r ->
  let p := pollView id r viewer clock c.1 in
  2 <= len (v_Answers p) <= maxPollAnswers /\ NoDup (map a_Option (v_Answers p)) /\
  (forall a, a ∈ v_Answers p -> 0 <= a_VoterCount a <= v_VoterCount p) /\
  v_VoterCount p <= foldr Z.add 0 (map a_VoterCount (v_Answers p)) /\
  (MultipleChoice (v_flags p) = false -> foldr Z.add 0 (map a_VoterCount (v_Answers p)) = v_VoterCount p) /\
  (v_HasVoted p = true <-> exists a, a ∈ v_Answers p /\ a_Chosen a = true) /\
  (MultipleChoice (v_flags p) = false -> forall a b, a ∈ v_Answers p -> b ∈ v_Answers p -> a_Chosen a = true -> a_Chosen b = true ->
     a_Option a = a_Option b).
Proof.
  intros Hc Hr p. destruct (poll_reach_ok _ _ _ Hc) as [Hs _]. destruct (pk_row _ Hs _ _ Hr) as (l & Hm & Hsh).
  pose proof (view_answers id r viewer clock c.1 l Hm) as Ea. fold p in Ea.
  pose proof (tally_view id r viewer clock c.1 l Hs Hr Hm) as [Ht1 Ht2]. fold p in Ht1, Ht2. split_and!; try done.
  - rewrite Ea. unfold len. rewrite length_map. apply (sh_count _ _ Hsh).
  - rewrite Ea. unfold len. rewrite length_map. apply (sh_count _ _ Hsh).
  - rewrite Ea, map_map. by eapply menu_NoDup.
  - intros a. rewrite Ea. intros (x & -> & _)%list_elem_of_fmap. cbn [a_VoterCount]. split; [unfold option_votes; lia|]. by apply option_votes_le.
  - change (v_HasVoted p) with (PollVoteByVoter id viewer c.1). unfold PollVoteByVoter. rewrite bool_decide_eq_true, Ea. split.
    + intros Hv. destruct (pk_vote _ Hs _ _ Hv) as [o Ho]. destruct (pk_ballot _ Hs _ _ _ Ho) as [_ [x Hx]].
      eexists. split; [apply list_elem_of_fmap; exists (o, x); split; [reflexivity|by apply (me_rows _ _ _ Hm)]|]. cbn. by apply bool_decide_eq_true.
    + intros (a & (x & -> & _)%list_elem_of_fmap & Ho). cbn in Ho. apply bool_decide_eq_true in Ho. by destruct (pk_ballot _ Hs _ _ _ Ho).
  - intros Hmc a b. rewrite Ea. intros (x & -> & _)%list_elem_of_fmap (y & -> & _)%list_elem_of_fmap. cbn.
    rewrite !bool_decide_eq_true. intros H1 H2. by eapply (pk_single _ Hs).
Qed.

(** C16 (safety).  At any moment of any run, every poll is linked to a message that is still
    there for its owner; and in the next step, whichever it is, the poll goes only if its last
    such message went, and otherwise keeps its question, its options and its switches, can only
    be closed and never reopened, and keeps every vote once it is closed and every vote cast
    in a poll whose votes are final. *)
Theorem polls_stay_true fs bl c c' id r :
  poll_reach fs bl c -> pool_step poll_starts any_moment c c' -> polls c.1 !! id = Some r ->
  (exists k, poll_message_copies c.1 !! k = Some id /\ live_in (world c.1) k = true) /\
  ((polls c'.1 !! id = None /\ forall k, poll_message_copies c.1 !! k = Some id -> live_in (world c'.1) k = false) \/
   (exists r', polls c'.1 !! id = Some r' /\ poll_kept id r r' c.1 c'.1)).
Proof.
  intros Hc Hstep Hr. pose proof (poll_reach_ok _ _ _ Hc) as Hi. split.
  - destruct Hi as [Hs _]. destruct (pk_linked _ Hs id) as [k Hk]; [by eexists|]. exists k. split; [done|]. by apply (pk_copy _ Hs k id).
  - pose proof (pool_step_guar _ _ _ _ _ _ poll_guar_refl Hi Hstep) as Hg. by apply (pg_polls _ _ Hg).
Qed.
