(* ===== verification/PollExact.v ===== *)
(** * Polls: voting, creating and reading, exactly *)

From S2P Require Import Prelude.
From S2P Require Import Threads.
From S2P Require Import Limits.
From S2P Require Import PeerHash.
From S2P Require Import Mailbox.
From S2P Require Import MsgStore.
From S2P Require Import MsgSafety.
From S2P Require Import MsgRuns.
From S2P Require Import Utf8.
From S2P Require Import Polls.
From S2P Require Import PollFacts.
From S2P Require Import PollSafety.
From S2P Require Import PollRuns.
From Stdlib Require Import String.

Open Scope Z_scope.

(** ** Voting *)

(** C17 (equivalence).  At any moment of any run, a vote on a poll does what its specification on
    sets says: the verdict depends on the set chosen, the set chosen before, the options listed,
    the switches and whether the poll is closed at that instant; against it, nothing changes;
    for it, the voter's ballot becomes the chosen set (none, when it is empty), every other
    ballot and every poll, option and link stays, and the view returned is that of the new
    tables. *)
Theorem vote_exact fs bl c v ref selected e id r :
  poll_reach fs bl c -> poll_for_mutation v ref c.1 = Ok (id, r) ->
  let mine := ballot id v (poll_vote_options c.1) in
  match verdict (po_flags r) (listed id c.1) mine (chosen_set selected) (PollIsClosed r (pe_clock e)), vote_tx v ref selected e c.1 with
  | Some x, (reply, s') => reply = Err x /\ s' = c.1
  | None, (reply, s') =>
      reply = Ok (pollView id r v (pe_view e) s') /\
      (forall id' v', ballot id' v' (poll_vote_options s') =
         if bool_decide ((id', v') = (id, v)) then list_to_set selected else ballot id' v' (poll_vote_options c.1)) /\
      (forall id' v', (id', v') ∈ poll_votes s' <-> ballot id' v' (poll_vote_options s') <> ∅) /\
      polls s' = polls c.1 /\ poll_options s' = poll_options c.1 /\ poll_message_copies s' = poll_message_copies c.1 /\
      world s' = world c.1
  end.
Proof.
  intros Hc Hp mine. destruct (poll_reach_ok _ _ _ Hc) as [Hs _]. pose proof (vote_good v ref selected e c.1 Hs) as [Hs' _].
  revert Hs'. rewrite (vote_tx_spec _ _ _ _ _ _ _ Hs Hp). fold mine. destruct (verdict _ _ _ _ _); [done|]. cbv zeta. cbn [snd].
  intros Hs'. split_and!; try done.
  - intros id' v'. apply revote_ballot.
  - intros id' v'. pose proof (voted_ballot id' v' _ Hs') as H. unfold PollVoteByVoter in H.
    rewrite <- bool_decide_eq_false, <- negb_true_iff, <- H. symmetry. apply bool_decide_eq_true.
Qed.

(** ** Creating *)

(** What a reader sees of a draft nobody has voted on; what is right shows once the poll is
    closed. *)
Definition shows (d : PollDraft) (p : Poll) : Prop :=
  v_Question p = d_Question d /\ v_flags p = canonical_flags (d_flags d) /\ v_CloseDate p = d_CloseDate d /\
  v_Answers p = map (fun a => mkAnswer (a_Option a) (a_Text a) (v_Closed p && a_Correct a) 0 false) (d_Answers d) /\
  v_Solution p = (if v_Closed p then d_Solution d else []) /\ v_HasVoted p = false /\ v_VoterCount p = 0.

Lemma entries_map {B} (f : item -> B) (g : PollAnswer -> B) pos l :
  (forall a z, f (a_Option a, mkOption (a_Text a) (a_Correct a) z) = g a) -> map f (entries pos l) = map g l.
Proof. intros H. revert pos. induction l as [|a l IH]; intros pos; [done|]. cbn [entries map]. by rewrite H, IH. Qed.

Lemma poll_made_shows id r d copies s s' viewer clock :
  polls_ok s -> poll_made id r (d_Answers d) copies s s' ->
  po_question r = d_Question d -> po_flags r = canonical_flags (d_flags d) -> po_close_date r = d_CloseDate d ->
  po_solution r = d_Solution d -> shows d (pollView id r viewer clock s').
Proof.
  intros Hs Hc Eq Ef Ed El. destruct Hc as [Hf _ _ _ Hm _ _ [Ev Eo] _].
  assert (Hnb : forall v o, (id, v, o) ∉ poll_vote_options s').
  { intros v o H. rewrite Eo in H. destruct (pk_ballot _ Hs _ _ _ H) as [_ [x Hx]]. destruct (pk_option _ Hs _ _ _ Hx). congruence. }
  assert (Hnv : forall v, (id, v) ∉ poll_votes s').
  { intros v H. rewrite Ev in H. destruct (pk_vote _ Hs _ _ H) as [o Ho]. rewrite <- Eo in Ho. by eapply Hnb. }
  assert (Hh : v_HasVoted (pollView id r viewer clock s') = false) by (cbn; apply bool_decide_eq_false, Hnv).
  unfold shows. rewrite (view_answers _ _ _ _ _ _ Hm), Hh, orb_false_r. split_and!; try done.
  - apply entries_map. intros a z. cbn [fst snd op_text op_correct]. f_equal.
    + unfold option_votes. rewrite (proj2 (size_empty_iff _)); [done|]. apply set_equiv. intros [[i v] o]. rewrite elem_of_filter. cbn.
      set_unfold. naive_solver.
    + by apply bool_decide_eq_false.
  - cbn in Hh |- *. by rewrite Hh, orb_false_r, El.
  - cbn. unfold PollVoterCount. rewrite (proj2 (size_empty_iff _)); [done|]. apply set_equiv. intros [i v]. rewrite elem_of_filter. cbn.
    set_unfold. naive_solver.
Qed.

(** The copies of the message a poll was sent with: the creator's own, and in a chat every
    copy of the same fan-out. *)
Definition copy_of (ref : PollMessageRef) (msg m : Message) : Prop :=
  m = msg \/ pr_PeerType ref = PeerTypeChat /\ FanoutID m = FanoutID msg.

Lemma reload_matches v ref s msg copies :
  reload_poll v ref s = Ok (msg, copies) -> pollMessageMatches msg ref = true.
Proof.
  unfold reload_poll. destruct (message_at _ _ _) as [m|]; [|done].
  destruct (pollMessageMatches m ref) eqn:E; [|done]. cbn [negb].
  destruct (pr_PeerType ref); [by intros [= <- _]| |by intros [= <- _]].
  destruct (negb _); [done|]. by destruct (chatCopies m _); intros [= <- _].
Qed.

(** The transaction covers them all, and each is of the peer the poll was sent to. *)
Lemma copy_of_spec v ref s msg copies u l m :
  db_ok (world s) -> reload_poll v ref s = Ok (msg, copies) -> row_at (world s) u l = Some m -> copy_of ref msg m ->
  m ∈ copies /\ m_PeerType m = pr_PeerType ref /\ PeerID m = pr_PeerID ref.
Proof.
  intros D Er Hm Hc. destruct (reload_poll_spec _ _ _ _ _ D Er) as (Hmsg & Hd & Hin & _).
  assert (Hp : m_PeerType msg = pr_PeerType ref /\ PeerID msg = pr_PeerID ref).
  { apply reload_matches in Er. unfold pollMessageMatches in Er. rewrite !andb_true_iff, negb_true_iff, !orb_false_iff in Er.
    destruct Er as [[[[_ _] E1] E2] _]. rewrite negb_false_iff in E1, E2. apply bool_decide_eq_true in E1. split; [done|lia]. }
  destruct Hc as [->|[Et Ef]]; [done|].
  unfold reload_poll in Er. rewrite Hmsg, Et in Er. destruct (negb _); [done|]. destruct (negb _); [done|].
  unfold chatCopies in Er. destruct (Z.eqb_spec (FanoutID msg) 0) as [|Hf]; [done|].
  pose proof (elem_of_fanout (FanoutID msg) (world s) m) as He.
  destruct (do_fans _ D _ _ _ _ _ _ Hm Hmsg Ef ltac:(congruence)) as [Ecast _]. injection Ecast as E1 E2 _.
  split; [|split; [by rewrite E1; apply Hp|by rewrite E2; apply Hp]].
  destruct (MessagesByFanout (FanoutID msg) (world s)) as [|c0 cs]; [done|]. injection Er as <-. apply He.
  split_and!; [done|done|]. by exists u, l.
Qed.

(** Who holds a living copy, and is still in the chat, reads the poll it links to. *)
Lemma copy_reads u l m id r ref e s :
  db_ok (world s) -> row_at (world s) u l = Some m -> Deleted m = false -> 0 < u ->
  m_PeerType m = pr_PeerType ref -> PeerID m = pr_PeerID ref -> validatePollRef u (mkPollRef (pr_PeerType ref) (pr_PeerID ref) 1) = true ->
  (pr_PeerType ref = PeerTypeChat -> IsChatMember (pr_PeerID ref) u (world s) = true) ->
  poll_message_copies s !! (u, l) = Some id -> polls s !! id = Some r ->
  read_tx u (mkPollRef (pr_PeerType ref) (pr_PeerID ref) l) e s = Ok (pollView id r u (pe_view e) s).
Proof.
  intros D Hm Hd Hu Et Ep Hv Hmem Hl Hr.
  assert (Hl1 : 1 <= l).
  { pose proof (do_boxes _ D u) as B. destruct (counters (box_of (world s) u)) as [[pts next]|] eqn:Ec.
    - apply (proj1 (bo_ids _ _ B _ _ l Ec)). by exists m.
    - destruct (bo_none _ _ B Ec) as [En _]. unfold row_at in Hm. rewrite En in Hm. done. }
  assert (Hv' : validatePollRef u (mkPollRef (pr_PeerType ref) (pr_PeerID ref) l) = true).
  { unfold validatePollRef in *. cbn [pr_PeerType pr_PeerID pr_LocalID] in *. by replace (l <=? 0) with (1 <=? 0) by lia. }
  unfold read_tx, pollPeerAccess. rewrite Hv'. cbn [negb pr_PeerType pr_PeerID pr_LocalID].
  replace (match pr_PeerType ref with PeerTypeChat => _ | _ => _ end) with (@None poll_error)
    by (destruct (pr_PeerType ref); [done|by rewrite Hmem|done]).
  unfold PollByMessage, message_at. unfold row_at in Hm. rewrite Hl, Hm, Hr, bool_decide_eq_true_2 by done.
  by rewrite Ep, Z.eqb_refl, Hd.
Qed.

(** C28 (roundtrip).  A poll that was just created reads back as its draft: the question, the
    answers in their order, the switches (a quiz's votes final), no votes, and what is right
    hidden until it closes.  The creator sees that in the reply.  Every living copy of the
    message links to the poll, and whoever holds one (and, for a chat, is still a member)
    reads it by that copy and is not refused; and nobody who reads it by any message sees
    anything else.  Sending the same message's poll again, with whatever draft, finds it and
    changes nothing, provided the message was sent with a random id (which is not zero): that
    is the token a repetition is known by. *)
Theorem poll_round_trip fs bl c creator ref chat draft e p s' :
  poll_reach fs bl c -> create_tx creator ref chat draft e c.1 = (Ok (p, false), s') ->
  validatePollRef creator ref = true ->
  shows draft p /\ v_Creator p = true /\
  (forall v ref' e' p', read_tx v ref' e' s' = Ok p' -> v_ID p' = v_ID p -> shows draft p') /\
  exists msg, message_at creator (pr_LocalID ref) c.1 = Some msg /\
    (forall u l m, row_at (world s') u l = Some m -> Deleted m = false -> copy_of ref msg m ->
       poll_message_copies s' !! (u, l) = Some (v_ID p) /\
       (0 < u -> (pr_PeerType ref = PeerTypeChat -> IsChatMember (pr_PeerID ref) u (world s') = true) ->
        forall e', exists p', read_tx u (mkPollRef (pr_PeerType ref) (pr_PeerID ref) l) e' s' = Ok p' /\
          v_ID p' = v_ID p /\ shows draft p')) /\
    (m_RandomID msg <> 0 -> forall chat' draft' e',
       create_tx creator ref chat' draft' e' s' =
       (Ok (pollView (v_ID p) (default (mkPollRow 0 0 0 [] (v_flags p) false None []) (polls s' !! v_ID p)) creator (pe_view e') s', true), s')).
Proof.
  intros Hc E Hval. destruct (poll_reach_ok _ _ _ Hc) as [Hs _].
  pose proof (create_good creator ref chat draft e c.1 Hs) as [Hs' _]. rewrite E in Hs'. cbn [snd] in Hs'.
  pose proof (create_tx_spec creator ref chat draft e c.1 Hs) as H. rewrite E in H.
  destruct H as (id & msg & copies & Er & Hcr & Ep). cbv zeta in Hcr, Ep. set (r := mkPollRow _ _ _ _ _ _ _ _) in *.
  assert (Hsh : forall v t, shows draft (pollView id r v t s')) by (intros v t; by apply (poll_made_shows id r draft copies c.1)).
  assert (Eid : v_ID p = id) by (by rewrite Ep).
  assert (Hrow : polls s' !! id = Some r) by (rewrite (cr_polls _ _ _ _ _ _ Hcr); apply lookup_insert_eq).
  assert (Ew := cr_world _ _ _ _ _ _ Hcr).
  destruct (reload_poll_spec _ _ _ _ _ (pk_world _ Hs) Er) as (Hmsg & _).
  split_and!.
  - rewrite Ep. apply Hsh.
  - rewrite Ep. cbn. apply Z.eqb_refl.
  - intros v ref' e' p' Hrd E'. unfold read_tx in Hrd. destruct (pollPeerAccess v ref' s'); [done|].
    destruct (PollByMessage _ _ _ _ s') as [[id' r']|] eqn:Epm; [|done]. injection Hrd as <-. cbn in E'. rewrite Eid in E'. subst id'.
    unfold PollByMessage in Epm. destruct (poll_message_copies s' !! _); [|done]. destruct (message_at _ _ s'); [|done].
    destruct (_ && _); [|done]. destruct (polls s' !! z) eqn:Ez; [|done]. injection Epm as -> ->. rewrite Hrow in Ez. injection Ez as <-.
    apply Hsh.
  - exists msg. split_and!; [done| |].
    + intros u l m Hm Hd Hco. rewrite Ew in Hm.
      destruct (copy_of_spec _ _ _ _ _ u l m (pk_world _ Hs) Er Hm Hco) as (Hin & Et & Epe).
      assert (Hl : poll_message_copies s' !! (u, l) = Some id).
      { destruct (place _ _ _ _ (pk_world _ Hs) Hm) as [<- <-]. by apply (cp_all _ _ _ _ (cr_copies _ _ _ _ _ _ Hcr)). }
      rewrite Eid. split; [done|]. intros Hu Hmem e'. exists (pollView id r u (pe_view e') s'). split_and!; [|done|apply Hsh].
      apply (copy_reads u l m); try done; try (by rewrite Ew); [exact (pk_world _ Hs')|].
      unfold validatePollRef in Hval |- *. cbn [pr_PeerType pr_PeerID pr_LocalID] in *.
      apply andb_true_iff in Hval as [H1 H2]. apply andb_true_iff. split; [lia|].
      destruct Hco as [->|[Hco _]]; [|by rewrite Hco].
      destruct (place _ _ _ _ (pk_world _ Hs) Hm) as [Ho _]. destruct (place _ _ _ _ (pk_world _ Hs) Hmsg) as [Ho' _].
      destruct (pr_PeerType ref); [lia|done|done].
    + intros Hz chat' draft' e'. rewrite Eid, Hrow. cbn [default].
      assert (Er' : reload_poll creator ref s' = Ok (msg, copies)).
      { rewrite <- Er. unfold reload_poll, message_at. by rewrite Ew. }
      unfold create_tx in E |- *. rewrite Er in E. rewrite Er'. destruct (_ || _); [done|].
      destruct (Z.eqb_spec (m_RandomID msg) 0); [done|].
      pose proof (PollByCreatorRandomID_spec creator (m_RandomID msg) s') as Hk.
      destruct (PollByCreatorRandomID creator (m_RandomID msg) s') as [[id' prior]|].
      * destruct Hk as (Hp & Hcre & Hran & _).
        assert (id' = id) as -> by (eapply (pk_token _ Hs'); [exact Hp|exact Hrow|congruence|done|done]).
        rewrite Hrow in Hp. injection Hp as <-. cbn [po_source r]. by rewrite Z.eqb_refl.
      * destruct Hk as [|Hk]; [done|]. by destruct (Hk id r Hrow).
Qed.

(** ** Reading *)

(** The tables with what is right, and why, blotted out. *)
Definition blind_row (r : poll_row) : poll_row :=
  mkPollRow (po_creator r) (po_random r) (po_source r) (po_question r) (po_flags r) (po_closed r) (po_close_date r) [].
Definition blind_option (x : option_row) : option_row := mkOption (op_text x) false (op_position x).
Definition blind (s : polls_db) : polls_db :=
  mkPolls (world s) (blind_row <$> polls s) (blind_option <$> poll_options s) (poll_votes s) (poll_vote_options s) (poll_message_copies s).

Lemma menu_blind id m l : menu id m l -> menu id (blind_option <$> m) (map (fun x : item => (x.1, blind_option x.2)) l).
Proof.
  intros [Hr Hp]. split.
  - intros o x. rewrite lookup_fmap, list_elem_of_fmap. split.
    + intros ([o' y] & [= -> ->] & Hin). apply Hr in Hin. by rewrite Hin.
    + intros (y & Hy & ->)%fmap_Some. exists (o, y). split; [done|]. by apply Hr.
  - rewrite map_map. unfold len. by rewrite length_map.
Qed.

(** What an outsider sees of a poll that is open to them. *)
Lemma blind_view id r viewer clock s :
  polls_ok s -> polls s !! id = Some r -> PollIsClosed r clock = false -> PollVoteByVoter id viewer s = false ->
  pollView id r viewer clock s = pollView id (blind_row r) viewer clock (blind s).
Proof.
  intros Hs Hr Hc Hv. destruct (pk_row _ Hs _ _ Hr) as (l & Hm & _). pose proof (menu_blind _ _ _ Hm) as Hm'.
  unfold pollView, PollOptionResults. rewrite (options_of_menu _ _ _ Hm), (options_of_menu id (blind s) _ Hm').
  cbn [blind polls]. rewrite lookup_fmap, Hr. cbn [fmap option_fmap option_map].
  change (PollIsClosed (blind_row r) clock) with (PollIsClosed r clock). rewrite Hc.
  change (PollVoteByVoter id viewer (blind s)) with (PollVoteByVoter id viewer s). rewrite Hv. cbn [orb]. f_equal.
  rewrite !map_map. apply map_ext. by intros [o x].
Qed.

(** A quiz keeps its secret: of two servers whose tables differ only in which
    options are right and in the solutions, a reader who is told the poll is open and that they
    have not voted is told the same by both, whatever votes the others have cast. *)
Theorem quiz_keeps_its_secret fs bl c c' v ref e p :
  poll_reach fs bl c -> poll_reach fs bl c' -> blind c.1 = blind c'.1 ->
  read_tx v ref e c.1 = Ok p -> v_Closed p = false -> v_HasVoted p = false -> read_tx v ref e c'.1 = Ok p.
Proof.
  intros Hc Hc' E Hrd Ho Hv. destruct (poll_reach_ok _ _ _ Hc) as [Hs _]. destruct (poll_reach_ok _ _ _ Hc') as [Hs' _].
  destruct c as [s ps], c' as [s' ps']. cbn [fst] in *.
  assert (Ew : world s' = world s) by exact (eq_sym (f_equal world E)).
  assert (Ec : poll_message_copies s' = poll_message_copies s) by exact (eq_sym (f_equal poll_message_copies E)).
  unfold read_tx, pollPeerAccess, PollByMessage, message_at in *. rewrite Ew, Ec.
  destruct (if negb (validatePollRef v ref) then _ else _); [done|].
  destruct (poll_message_copies s !! _) as [id|]; [|done]. destruct (msgs _ !! _); [|done]. destruct (_ && _); [|done].
  destruct (polls s !! id) as [r|] eqn:Er; [|done]. injection Hrd as <-.
  assert (Ep : blind_row <$> polls s' !! id = blind_row <$> polls s !! id).
  { rewrite <- !lookup_fmap. change (polls (blind s') !! id = polls (blind s) !! id). by rewrite E. }
  rewrite Er in Ep. destruct (polls s' !! id) as [r'|] eqn:Er'; [|done]. change (Some (blind_row r') = Some (blind_row r)) in Ep.
  apply (inj Some) in Ep.
  cbn [v_Closed v_HasVoted pollView] in Ho, Hv. rewrite Er in Ho. f_equal.
  assert (Ecl : PollIsClosed r' (pe_view e) = PollIsClosed r (pe_view e)).
  { change (PollIsClosed (blind_row r') (pe_view e) = PollIsClosed (blind_row r) (pe_view e)). by rewrite Ep. }
  assert (Evo : PollVoteByVoter id v s' = PollVoteByVoter id v s).
  { unfold PollVoteByVoter. by rewrite (f_equal poll_votes E : poll_votes s = poll_votes s'). }
  rewrite (blind_view id r v _ s), (blind_view id r' v _ s') by congruence. by rewrite Ep, E.
Qed.

(** * Polls: the theorems at work

    A quiz in a chat of three: the first opens it, the second votes, tries another answer, and
    the first closes it; then the message is deleted for all. *)

(** ** The scene *)

Definition poll_moment : poll_env := mkPollEnv NoFault (1000 * second) (1000 * second) (1000 * second) [7; 8].

(** Each request served to its end before the next. *)
Definition poll_turns (l : list poll_request) : list (@choice polls_db poll_env poll_reply) :=
  flat_map (fun q => Arrive (poll_program q) :: repeat (Step 0 poll_moment) 6) l.

Lemma poll_turns_ok l : Forall (fun q => match q with ReqMail r => plain r | _ => True end) l ->
  schedule_ok poll_starts any_moment (poll_turns l).
Proof.
  induction 1 as [|q l Hq Hl IH]; [constructor|]. unfold schedule_ok, poll_turns in *. cbn [flat_map]. apply Forall_app. split; [|done].
  constructor; [by exists q|]. by repeat constructor.
Qed.

Definition quiz_flags : poll_flags := mkPollFlags false false true false false.
Definition choice_of (o t : Z) (right : bool) : PollAnswer := mkAnswer [o] [t] right 0 false.
Definition quiz_draft (right : bool) : PollDraft :=
  mkDraft [63] [choice_of 1 97 right; choice_of 2 98 (negb right)] quiz_flags true None [115].

Definition quiz_ref : PollMessageRef := mkPollRef PeerTypeChat 1 1.

Definition opening (right : bool) : list poll_request :=
  [ ReqMail (RCreate 1 "team" [2; 3]);
    ReqMail (RChat (mkFanOut 1 1 "quiz" ChatActionNone 0 78 0 None 0 [] None));
    ReqCreatePoll 1 quiz_ref (quiz_draft right) ].

Definition voting : list poll_request := [ ReqCastVote 2 quiz_ref [[1]]; ReqCastVote 2 quiz_ref [[2]] ].

Definition poll_scene (l : list poll_request) := run_schedule (empty_polls ∅ ∅) (poll_turns l).

Lemma scene_reach l : Forall (fun q => match q with ReqMail r => plain r | _ => True end) l -> poll_reach ∅ ∅ (poll_scene l).
Proof. intros H. apply run_schedule_reach. by apply poll_turns_ok. Qed.

Definition quiz_row : poll_row := mkPollRow 1 78 1 [63] (canonical_flags quiz_flags) false None [115].

Lemma opening_plain right : Forall (fun q => match q with ReqMail r => plain r | _ => True end) (opening right).
Proof. by repeat constructor. Qed.

Lemma opened_reach right : poll_reach ∅ ∅ (poll_scene (opening right)).
Proof. apply scene_reach, opening_plain. Qed.

Lemma voted_reach : poll_reach ∅ ∅ (poll_scene (opening true ++ voting)).
Proof. apply scene_reach, Forall_app. split; [apply opening_plain|by repeat constructor]. Qed.

(** The message goes for everyone: the state before and after the transaction. *)
Definition withdrawing : polls_db * list (prog polls_db poll_env poll_reply) :=
  run_choice (run_choice (poll_scene (opening true)) (Arrive (poll_program (ReqMail (RDelete 1 [1] true))))) (Step 0 poll_moment).
Definition withdrawn := run_choice withdrawing (Step 0 poll_moment).

Lemma withdrawing_reach : poll_reach ∅ ∅ withdrawing.
Proof.
  unfold poll_reach, pool_reach. etransitivity; [apply (opened_reach true)|]. eapply rtc_l.
  - instantiate (1 := run_choice (poll_scene (opening true)) (Arrive (poll_program (ReqMail (RDelete 1 [1] true))))).
    destruct (poll_scene (opening true)). constructor. by exists (ReqMail (RDelete 1 [1] true)).
  - apply rtc_once, run_choice_step; [done|]. vm_compute. reflexivity.
Qed.

Lemma withdrawn_step : pool_step poll_starts any_moment withdrawing withdrawn.
Proof. apply run_choice_step; [done|]. vm_compute. reflexivity. Qed.

(** ** The hypotheses of the theorems hold of it *)

Lemma polls_tally_witness :
  let p := pollView 7 quiz_row 2 (1000 * second) (poll_scene (opening true ++ voting)).1 in
  v_VoterCount p = 1 /\ foldr Z.add 0 (map a_VoterCount (v_Answers p)) = 1 /\ exists a, a ∈ v_Answers p /\ a_Chosen a = true.
Proof.
  assert (Hr : polls (poll_scene (opening true ++ voting)).1 !! 7 = Some quiz_row) by (vm_compute; reflexivity).
  destruct (polls_tally ∅ ∅ _ 7 quiz_row 2 (1000 * second) voted_reach Hr) as (_ & _ & _ & _ & H & Hv & _). intros p.
  assert (E : v_VoterCount p = 1) by (vm_compute; reflexivity).
  split; [exact E|]. split; [rewrite <- E; apply H; reflexivity|]. apply Hv. vm_compute. reflexivity.
Defined.

Lemma polls_stay_true_witness :
  polls withdrawn.1 !! 7 = None /\ live_in (world withdrawn.1) (2, 1) = false.
Proof.
  assert (Hr : polls withdrawing.1 !! 7 = Some quiz_row) by (vm_compute; reflexivity).
  assert (Hk : poll_message_copies withdrawing.1 !! (2, 1) = Some 7) by (vm_compute; reflexivity).
  assert (Hn : polls withdrawn.1 !! 7 = None) by (vm_compute; reflexivity).
  destruct (polls_stay_true ∅ ∅ withdrawing withdrawn 7 quiz_row withdrawing_reach withdrawn_step Hr) as [_ [[H1 H2]|(r' & Hr' & _)]].
  - split; [exact H1|]. exact (H2 (2, 1) Hk).
  - rewrite Hn in Hr'. discriminate Hr'.
Defined.

Lemma vote_exact_witness :
  let s := (poll_scene (opening true)).1 in
  ballot 7 3 (poll_vote_options (vote_tx 3 quiz_ref [[2]; [2]] poll_moment s).2) = list_to_set [[2]] /\
  (vote_tx 3 quiz_ref [[2]; [1]] poll_moment s).1 = Err ErrPollInvalid.
Proof.
  assert (Hp : poll_for_mutation 3 quiz_ref (poll_scene (opening true)).1 = Ok (7, quiz_row)) by (vm_compute; reflexivity).
  pose proof (vote_exact ∅ ∅ _ 3 quiz_ref [[2]; [2]] poll_moment 7 quiz_row (opened_reach true) Hp) as H1.
  pose proof (vote_exact ∅ ∅ _ 3 quiz_ref [[2]; [1]] poll_moment 7 quiz_row (opened_reach true) Hp) as H2.
  cbv zeta in H1, H2 |- *.
  destruct (vote_tx 3 quiz_ref [[2]; [2]] poll_moment _) as [a sa].
  destruct (vote_tx 3 quiz_ref [[2]; [1]] poll_moment _) as [b sb]. cbn [fst snd]. split.
  - match type of H1 with match ?x with _ => _ end => assert (E : x = None) by (vm_compute; reflexivity); rewrite E in H1; clear E end.
    destruct H1 as (_ & Hb & _). rewrite Hb. vm_compute. reflexivity.
  - match type of H2 with match ?x with _ => _ end => assert (E : x = Some ErrPollInvalid) by (vm_compute; reflexivity); rewrite E in H2; clear E end.
    exact (proj1 H2).
Defined.

Definition announced := poll_scene (take 2 (opening true)).

Lemma announced_reach : poll_reach ∅ ∅ announced.
Proof. apply scene_reach. by repeat constructor. Qed.

Definition fresh_poll : Poll :=
  mkPoll 7 true [63] [choice_of 1 97 false; choice_of 2 98 false] (canonical_flags quiz_flags) false None [] false 0.

Lemma announced_copy : exists m, row_at (world (create_tx 1 quiz_ref None (quiz_draft true) poll_moment announced.1).2) 3 1 = Some m /\
  Deleted m = false /\ forall msg, message_at 1 1 announced.1 = Some msg -> FanoutID m = FanoutID msg /\ m_RandomID msg = 78.
Proof. vm_compute. eexists. split_and!; [reflexivity..|]. intros msg [= <-]. split; reflexivity. Qed.

Lemma poll_round_trip_witness :
  let s' := (create_tx 1 quiz_ref None (quiz_draft true) poll_moment announced.1).2 in
  shows (quiz_draft true) fresh_poll /\
  (exists p, read_tx 3 quiz_ref poll_moment s' = Ok p /\ v_ID p = 7 /\ shows (quiz_draft true) p) /\
  (create_tx 1 quiz_ref None (quiz_draft false) poll_moment s').1 = Ok (fresh_poll, true).
Proof.
  set (s' := (create_tx 1 quiz_ref None (quiz_draft true) poll_moment announced.1).2).
  assert (E : create_tx 1 quiz_ref None (quiz_draft true) poll_moment announced.1 = (Ok (fresh_poll, false), s'))
    by (vm_compute; reflexivity).
  destruct (poll_round_trip ∅ ∅ announced 1 quiz_ref None (quiz_draft true) poll_moment fresh_poll s' announced_reach E eq_refl)
    as (H1 & _ & _ & msg & Hm & Hr & Hd). cbv zeta. split; [exact H1|].
  destruct announced_copy as (m & Hrow & Hdel & Hf). destruct (Hf msg Hm) as [Hfan Hz]. split.
  - apply (Hr 3 1 m Hrow Hdel); [right; split; [reflexivity|exact Hfan]|lia|]. intros _. vm_compute. reflexivity.
  - rewrite (Hd ltac:(lia) None (quiz_draft false) poll_moment). vm_compute. reflexivity.
Defined.

Lemma quiz_keeps_its_secret_witness :
  read_tx 3 quiz_ref poll_moment (poll_scene (opening false)).1 = read_tx 3 quiz_ref poll_moment (poll_scene (opening true)).1.
Proof.
  destruct (read_tx 3 quiz_ref poll_moment (poll_scene (opening true)).1) as [p|x] eqn:E; [|vm_compute in E; discriminate E].
  refine (quiz_keeps_its_secret ∅ ∅ (poll_scene (opening true)) (poll_scene (opening false)) 3 quiz_ref poll_moment p
            (opened_reach true) (opened_reach false) _ E _ _).
  - vm_compute. reflexivity.
  - vm_compute in E. injection E as <-. reflexivity.
  - vm_compute in E. injection E as <-. reflexivity.
Defined.
